(* ===== verification/_CoqProject ===== *)
-Q . S2P
Prelude.v
DaemonRecord.v
Ids.v
Order.v
Visibility.v
TerminalRetention.v
TerminalRetentionLaws.v
RetentionSpec.v
Ipc.v
Generation.v
CasFile.v
Registry.v
Handoff.v
Admission.v
Fence.v
Workers.v
Rollover.v
Activation.v
Child.v
Allocator.v
Retention.v
Ledger.v
LedgerGc.v
SharedWrite.v
Shard.v
Drain.v
Projection.v
Saves.v
Durable.v
Lifecycle.v
LifecycleLaws.v
Lineage.v
LifecycleSpec.v
Frontmatter.v
IssueDoc.v
MemoryDoc.v
NumberSequence.v
NumberLaws.v
Negotiation.v
Framing.v
Utf8.v
VtSgr.v
VtScreen.v
VtCheckpoint.v
VtScreenLaws.v
VtRoundTrip.v
VtGlyphs.v
VtDecoder.v
VtRetention.v
InputOperations.v
InputOperationLaws.v
TerminalRegistry.v
TerminalJournal.v
TerminalLife.v
TerminalReplay.v
TerminalInput.v
TerminalGeometry.v
TerminalBudget.v
TerminalSnapshot.v
TerminalLaunch.v
GenericTerminal.v
GenericTerminalLaws.v
GenericTerminalLife.v
GenericTerminalSpec.v
TerminalIpc.v
TerminalIpcLaws.v
TerminalIpcSpec.v
DispatchTypes.v
Inbox.v
InboxLaws.v
InboxSpec.v
DispatchRegistry.v
Dispatch.v
DispatchLaws.v
DispatchOps.v
DispatchSpec.v
PeerMessages.v
PeerMessagesSpec.v
Tenants.v
TenantsSpec.v
