(* ===== verification/Prelude.v ===== *)
(** * usagi: daemon authority, runtime resources, sessions, terminals and documents

    usagi keeps agent sessions alive behind a daemon.  One {i generation} of the
    daemon at a time holds the authority over a workspace; a newer build takes it
    over while the older one drains the terminals and agents it still owns.  This
    development models the parts of the program that decide: who may act, what
    capacity a launch holds, what may be forgotten, what a session's state is, and
    what a file written today means when it is read tomorrow.  It leaves the
    presentation layers, the operating system and third-party crates outside.

    ** Conventions

    - [Result<A, E>] is [result E A]; a method taking [&mut self] and returning a
      [Result] is a program of [st S E A], which returns the answer {i and} the
      state an early return leaves behind; [post] states what both satisfy.
    - [u64] counters are [N] with [saturating_add] written out where the source
      saturates; a [usize] is a [nat] or an [N]; instants are integers in the
      unit of the source.  A [BTreeMap] is a [gmap], a [Vec] a list searched by
      key; the order of a [BTreeMap]'s keys is written out where it decides.
    - [serde], [uuid] and [chrono] are class parameters with the round trip the
      code relies on; every class has an instance that evaluates.  Identities the
      code mints are arguments.  A file is a [CasFile.FileState]: what the process
      sees together with everything other writers and faults do to it.
    - Files named ...Laws or ...Spec hold the theorems of the component they are
      named after; a [..._witness] applies a theorem at a concrete input.

    ** Daemon authority (crates/daemon/src/usecase/authority, core/domain/daemon)

    - [DaemonRecord], [Ids], [Ipc]: the lifecycle record, the identities and
      ownership scopes, the build identities and capabilities of a hello.
    - [Negotiation], [Framing] (core/infrastructure/ipc): the workspace fence and
      the version negotiation of a handshake, exactly; the frame codec, read back
      from any fragmentation of the stream.
    - [CasFile]: the compare-and-swap protocol of every durable document.
    - [Registry] (registry.rs): the document of generations and its store; an
      update is one compare-and-swap of the bytes it read.
    - [Handoff] (handoff.rs): the durable steps of a handoff and the recovery
      planner; the registry stays valid, recovery settles it with the locator (in
      a second pass where a successor retired after its commit) and is crash safe.
    - [Admission], [Fence], [Workers], [Generation]: the role-fenced lease gate
      (every interleaving of its critical sections), request classification,
      client workers, and the process-local table of generations and terminals.
    - [Rollover] (rollover.rs, collection.rs): the executed rollover over gate,
      registry, locator and participants: the crash matrix under any process
      evidence, refusal without a trace, and the collection of a drained
      generation.
    - [Activation] (standby.rs, activation.rs, migration.rs): readiness, the first
      claim of the authority, and the adoption of a pre-registry owner.

    ** Runtime resources (crates/daemon/src/usecase/resources)

    - [Child], [Allocator], [Retention], [Shard], [SharedWrite]: child identities,
      the global allocator of capacity, the retention of its operation ledger, the
      shard of one generation, and the fence over the other shared stores.
    - [Ledger], [LedgerGc]: the allocator's invariant under every interleaving of
      commands and collections: replay safety, the capacity bound, release once,
      termination of the retention loop.
    - [Drain] (drain.rs): the owner publishes, the consumer applies, the owner
      reclaims and forgets, as a transition system in which no exit of a resource
      still on record is lost.
    - [Projection], [Saves], [Durable] (durable.rs, migration.rs): one save of the
      owner's truth against both documents, collection and reclamation.

    ** Sessions (core/domain/session_lifecycle.rs)

    - [Lifecycle], [LifecycleLaws], [Lineage], [LifecycleSpec]: the whole reducer
      with its start-up repair; its invariant, fences, journal, membership, and
      the abstract life cycle it refines.

    ** Exited terminals (core/domain/terminal_visibility.rs, terminal_retention.rs)

    - [Visibility], [TerminalRetention], [TerminalRetentionLaws], [RetentionSpec]:
      what a client may still want to see, the caps, the collection passes and the
      markers; over the generic [Order].

    ** Terminal screens (core/usecase/vt_screen.rs, vt_screen/checkpoint.rs)

    - [Utf8], [VtSgr], [VtScreen]: text, renditions and the whole screen
      interpreter; [None] is a panic.  The buffer being drawn is one [ScreenBuffer] field.
    - [VtScreenLaws]: the invariant of a screen, for any [RowShape]
      that the operations on rows keep, and totality: output never panics.
    - [VtGlyphs]: the shape "a sequence of complete glyphs".
    - [VtCheckpoint], [VtRoundTrip]: the checkpoint encoder and the validating
      decoder; a checkpoint restores its screen, and what is accepted is sound.
    - [VtDecoder], [VtRetention]: independence of the cutting of the stream,
      exact UTF-8, atomic synchronized frames, trimming within a budget.

    ** Terminals of the daemon (crates/daemon/src/usecase/terminal.rs)

    - [InputOperations], [InputOperationLaws]: the bounded ledger of input
      finals and its accounting.
    - [TerminalRegistry]: every operation of the registry, over a world of the
      registry, the process-wide counters and the log of what was asked of the
      PTYs.  What a PTY answers is the class [PtyAnswers]; the hash and the JSON
      length of a checkpoint are parameters; a panic is the answer [Panicked].
    - [TerminalJournal], [TerminalLife]: the invariant of a terminal and of the
      registry, histories of operations, and totality.
    - [TerminalReplay], [TerminalInput], [TerminalGeometry], [TerminalBudget],
      [TerminalSnapshot]: replay is exact, input is written once while its record lives,
      the size is the smallest one asked for and the one the PTY has, retention within the
      budgets, and snapshots that fit and restore.

    - [TerminalLaunch] (core/domain/terminal_launch.rs): what a launch asks for and
      what is stored of it.
    - [GenericTerminal] (generic_terminal.rs): the coordinator of the terminals
      that are not agents, over the registry and the retention ledger; every
      save, spawn and reap is an effect of its log.
      [GenericTerminalLaws], [GenericTerminalLife], [GenericTerminalSpec]: its
      invariant at every effect, histories, and what a client, a closing and a
      restart can rely on; the histories name the PTYs a reconciliation could
      not identify ([disowned]), which the code gives up.
    - [TerminalIpc] (terminal_ipc.rs): every request of the terminal protocol.
      [TerminalIpcLaws], [TerminalIpcSpec]: a history of requests is a history
      of the coordinator; where a process starts; a repeated launch.

    ** Agent dispatch (core/domain/agent, agent_message.rs, core/infrastructure/store/dispatch.rs)

    - [DispatchTypes]: agents, runs, bindings, reports and the limits of the store.
    - [Inbox]: the inbox of one caller, over the bytes of its journal; every
      system call that writes takes its answer from a list, partial writes
      included.  [InboxLaws]: reading a journal back, and the invariant.
      [InboxSpec]: an unread report is never lost, the inbox opens after any
      interruption (short of one cut inside a character), the pages enumerate it.
    - [DispatchRegistry], [Dispatch]: the registry with its transitions and its
      retention, and every operation of the store over the registry and its
      sidecar; a write may be refused, which is also what a crash between two
      writes leaves.  [DispatchLaws], [DispatchOps]: what retention takes, the
      agreement of the two documents, and that every operation keeps it.
      [DispatchSpec]: ownership, work in flight, admissions, restarts, prompts
      and the depth of a delegation.
    - [PeerMessages] (dispatch/messages.rs): the journal of messages between the
      agents of a session.  [PeerMessagesSpec]: replies, verdicts, a message
      recorded once, and paging.

    ** Workspaces (crates/daemon/src/usecase/tenant.rs)

    - [Tenants]: the registry of the workspaces a daemon owns, its resolutions and
      retirements, and its longer operations as threads ([Task]) that interleave
      at every critical section and call.  [TenantsSpec]: every fence has one
      owner, no operation blocks for ever, a draining daemon keeps what still
      works, an idle sweep gives back what was idle all along, over histories
      that keep what each thread observed.

    ** Documents (core/domain/frontmatter.rs, issue, memory)

    - [Frontmatter], [IssueDoc], [MemoryDoc]: the frontmatter format, its list
      escaping and slugs, and the two entities stored in it: what was written is
      read back, up to an explicit normal form.
    - [NumberSequence], [NumberLaws] (core/infrastructure/store/
      issue_number_sequence.rs): the reservation of issue numbers over files a
      crash may cut between any two writes; no number is handed out twice and
      every crash is picked up.

    ** Bounds and fuel

    The compare-and-swap loop makes the 64 attempts of the source.  The retention
    loop of an admission runs on the number of entries it can still evict, a
    collection on its batch, the walk up a session's creators on the number of
    sessions; each is proved to finish within it.  [u64::ilog10] and the decimal
    text of a [u32] need 20 and 10 digits.  The loops of the screen run on the
    cells of a row, the values of a control and the bytes of a sequence; every
    round takes one, and the laws hold for the fuel given.  The retention of
    dispatch runs takes one run a round, the scan of an inbox at least one byte,
    the walk up a delegation one session not seen before.  A thread of the tenant
    registry has no fuel: the number of its steps is bounded by the limit of
    workspaces.

    ** Not modelled

    The command line, the MCP server and the terminal user
    interface (presentation over what is modelled); sockets, processes, PTYs, git
    and the file system (input and output behind the ports the models take as
    arguments); the hydration of shipping snapshots and the parsers of legacy
    stores, whose formats belong to [serde]; the request handlers of the agent
    runtimes, which orchestrate processes and the stores modelled here; the
    store of user decisions, a further document store whose compaction and
    reserved capacity are independent of the components above; the client-side
    use cases of issues, notes and settings.  Random identities and clocks are
    arguments. *)
From stdpp Require Export base decidable option list list_numbers strings gmap numbers sorting.
From Stdlib Require Export Lia.

Declare Scope usagi_scope.
Delimit Scope usagi_scope with usagi.
Open Scope usagi_scope.

(** The lemmas that discharge the routine side conditions of the development. *)
Create HintDb usagi.

(** ** Fallible computations

    [result E A] is Rust's [Result<A, E>]; the error type comes first so that
    [result E] is a monad. *)
Inductive result (E A : Type) : Type :=
| Ok (value : A)
| Err (error : E).
Global Arguments Ok {E A} value.
Global Arguments Err {E A} error.

#[export] Instance result_eq_dec `{EqDecision E} `{EqDecision A} : EqDecision (result E A).
Proof. solve_decision. Defined.

Definition is_ok {E A} (r : result E A) : bool :=
  match r with Ok _ => true | Err _ => false end.

Definition ok_or {E A} (o : option A) (e : E) : result E A :=
  match o with Some a => Ok a | None => Err e end.

Definition map_err {E F A} (f : E -> F) (r : result E A) : result F A :=
  match r with Ok a => Ok a | Err e => Err (f e) end.

Definition map_ok {E A B} (f : A -> B) (r : result E A) : result E B :=
  match r with Ok a => Ok (f a) | Err e => Err e end.

Definition res_bind {E A B} (c : result E A) (k : A -> result E B) : result E B :=
  match c with Ok a => k a | Err e => Err e end.

(** A method taking [&mut self] and returning [Result<A, E>] is a function of
    the state that returns the result {i and} the state it leaves behind: an
    early [return Err(..)] keeps every assignment made before it. *)
Definition st (S E A : Type) : Type := S -> result E A * S.

Definition st_ret {S E A} (a : A) : st S E A := fun s => (Ok a, s).
Definition st_throw {S E A} (e : E) : st S E A := fun s => (Err e, s).
Definition st_get {S E} : st S E S := fun s => (Ok s, s).
Definition st_put {S E} (s : S) : st S E unit := fun _ => (Ok tt, s).
Definition st_modify {S E} (f : S -> S) : st S E unit := fun s => (Ok tt, f s).
Definition st_lift {S E A} (r : result E A) : st S E A := fun s => (r, s).
Definition st_bind {S E A B} (c : st S E A) (k : A -> st S E B) : st S E B :=
  fun s => match c s with
           | (Ok a, s') => k a s'
           | (Err e, s') => (Err e, s')
           end.

Notation "x <-? c ;; k" := (res_bind c (fun x => k))
  (at level 100, c at next level, right associativity) : usagi_scope.
Notation "x <-! c ;; k" := (st_bind c (fun x => k))
  (at level 100, c at next level, right associativity) : usagi_scope.
Notation "c ;;; k" := (st_bind c (fun _ => k))
  (at level 100, right associativity) : usagi_scope.

(** [st_ensure b e] is the guard [if !b { return Err(e) }]. *)
Definition st_ensure {S E} (b : bool) (e : E) : st S E unit :=
  if b then st_ret tt else st_throw e.

(** [for x in l { body(x)?; }] *)
Fixpoint st_iter {S E A} (body : A -> st S E unit) (l : list A) : st S E unit :=
  match l with
  | [] => st_ret tt
  | x :: l => body x ;;; st_iter body l
  end.

Section state_laws.
Context {S E : Type}.

Lemma st_bind_inv {A B} (c : st S E A) (k : A -> st S E B) s r s' :
  st_bind c k s = (r, s') ->
  (exists a s1, c s = (Ok a, s1) /\ k a s1 = (r, s')) \/
  (exists e, c s = (Err e, s') /\ r = Err e).
Proof.
  unfold st_bind. destruct (c s) as [[a|e] s1]; intros H; [left|right].
  - exists a, s1. auto.
  - exists e. split; congruence.
Qed.

Lemma st_bind_ok {A B} (c : st S E A) (k : A -> st S E B) s a s' :
  c s = (Ok a, s') -> st_bind c k s = k a s'.
Proof. unfold st_bind. by intros ->. Qed.

Lemma st_bind_err {A B} (c : st S E A) (k : A -> st S E B) s e s' :
  c s = (Err e, s') -> st_bind c k s = (Err e, s').
Proof. unfold st_bind. by intros ->. Qed.

Lemma st_bind_ok_inv {A B} (c : st S E A) (k : A -> st S E B) s b s' :
  st_bind c k s = (Ok b, s') -> exists a s1, c s = (Ok a, s1) /\ k a s1 = (Ok b, s').
Proof. intros [?|(e & _ & ?)]%st_bind_inv; [done|congruence]. Qed.

Lemma st_iter_app {A} (body : A -> st S E unit) l1 l2 s s1 :
  st_iter body l1 s = (Ok tt, s1) -> st_iter body (l1 ++ l2) s = st_iter body l2 s1.
Proof.
  revert s. induction l1 as [|x l1 IH]; intros s; simpl; [by intros [= <-]|].
  intros H. apply st_bind_ok_inv in H as (a & s2 & H1 & H2). unfold st_bind. rewrite H1. by apply IH.
Qed.

(** A loop whose body preserves [P] preserves [P], error exits included. *)
Lemma st_iter_preserves {A} (P : S -> Prop) (body : A -> st S E unit) l s r s' :
  (forall x s r s', x ∈ l -> body x s = (r, s') -> P s -> P s') ->
  st_iter body l s = (r, s') -> P s -> P s'.
Proof.
  revert s. induction l as [|x l IH]; intros s Hb H Hs; simpl in H.
  - unfold st_ret in H. congruence.
  - apply st_bind_inv in H as [(a & s1 & H1 & H2)|(e & H1 & _)].
    + eapply (IH s1); [|exact H2|].
      * intros y ???? Hy. eapply Hb; [|exact Hy]. by right.
      * eapply Hb; [|exact H1|done]. by left.
    + eapply Hb; [|exact H1|done]. by left.
Qed.
End state_laws.

(** *** Postconditions

    [post call Q s]: the answer of [call] in [s] and the state it leaves satisfy
    [Q]; the rules follow the program. *)
Definition post {S E A} (call : st S E A) (Q : result E A -> S -> Prop) (s : S) : Prop := Q (call s).1 (call s).2.

Section postconditions.
Context {S E : Type}.

Lemma post_intro {A} (call : st S E A) Q s : (forall r s', call s = (r, s') -> Q r s') -> post call Q s.
Proof. intros H. apply H. by destruct (call s). Qed.

Lemma post_mono {A} (call : st S E A) (Q Q' : _ -> _ -> Prop) s :
  post call Q s -> (forall r s', Q r s' -> Q' r s') -> post call Q' s.
Proof. unfold post. auto. Qed.

Lemma post_bind {A B} (call : st S E A) (k : A -> st S E B) Q s :
  post call (fun r s' => match r with Ok a => post (k a) Q s' | Err e => Q (Err e) s' end) s ->
  post (st_bind call k) Q s.
Proof. unfold post, st_bind. by destruct (call s) as [[a|e] s']. Qed.

Lemma post_get {A} (k : S -> st S E A) Q s : post (k s) Q s -> post (st_bind st_get k) Q s.
Proof. done. Qed.

Lemma post_lift {A B} (r : result E A) (k : A -> st S E B) (Q : _ -> _ -> Prop) s :
  match r with Ok a => post (k a) Q s | Err e => Q (Err e) s end -> post (st_bind (st_lift r) k) Q s.
Proof. intros H. apply post_bind. unfold post, st_lift. by destruct r. Qed.

Lemma post_ensure {A} b e (k : st S E A) (Q : _ -> _ -> Prop) s :
  (b = true -> post k Q s) -> (b = false -> Q (Err e) s) -> post (st_bind (st_ensure b e) (fun _ => k)) Q s.
Proof. intros Ht Hf. apply post_bind. destruct b; [by apply Ht|by apply Hf]. Qed.

Lemma post_ret {A} (a : A) (Q : result E A -> S -> Prop) s : Q (Ok a) s -> post (st_ret (E := E) a) Q s.
Proof. done. Qed.
End postconditions.

(** Inversion of the state monad in a hypothesis, one step at a time. *)
Ltac st_inv H :=
  match type of H with
  | st_bind _ _ _ = (Ok _, _) =>
      let a := fresh "a" in let s := fresh "s" in
      let H1 := fresh "H" in let H2 := fresh "H" in
      apply st_bind_ok_inv in H as (a & s & H1 & H2)
  | st_bind _ _ _ = (_, _) =>
      let a := fresh "a" in let s := fresh "s" in let e := fresh "e" in
      let H1 := fresh "H" in let H2 := fresh "H" in
      apply st_bind_inv in H as [(a & s & H1 & H2)|(e & H1 & H2)]
  end.

Ltac st_simpl :=
  unfold st_ensure, st_lift, st_get, st_put, st_modify, st_ret, st_throw in *.

(** ** Lists searched by key

    The documents of this code base keep their records in a [Vec] and look one
    up with [iter().find(|r| r.key == k)], update it in place through
    [iter_mut().find(..)] and drop records with [retain(..)]. *)
Fixpoint find_first {A} (p : A -> bool) (l : list A) : option A :=
  match l with
  | [] => None
  | x :: l => if p x then Some x else find_first p l
  end.

Fixpoint update_first {A} (p : A -> bool) (f : A -> A) (l : list A) : list A :=
  match l with
  | [] => []
  | x :: l => if p x then f x :: l else x :: update_first p f l
  end.

Fixpoint position {A} (p : A -> bool) (l : list A) : option nat :=
  match l with
  | [] => None
  | x :: l => if p x then Some 0 else S <$> position p l
  end.

Fixpoint retain {A} (p : A -> bool) (l : list A) : list A :=
  match l with
  | [] => []
  | x :: l => if p x then x :: retain p l else retain p l
  end.

Definition count {A} (p : A -> bool) (l : list A) : nat := length (retain p l).

Definition any {A} (p : A -> bool) (l : list A) : bool := existsb p l.

Section find_laws.
Context {A : Type}.
Implicit Types (p q : A -> bool) (l : list A) (x : A).

Lemma find_first_Some p l x : find_first p l = Some x -> x ∈ l /\ p x = true.
Proof.
  induction l as [|y l IH]; simpl; [done|]. destruct (p y) eqn:E.
  - intros [= ->]. split; [left|done].
  - intros [? ?]%IH. split; [by right|done].
Qed.

Lemma find_first_None p l : find_first p l = None <-> forall x, x ∈ l -> p x = false.
Proof.
  induction l as [|y l IH]; simpl.
  - split; [intros _ x Hx; by apply not_elem_of_nil in Hx|done].
  - destruct (p y) eqn:E; split.
    + done.
    + intros H. rewrite (H y) in E; [done|left].
    + intros H x [->|Hx]%elem_of_cons; [done|]. by apply IH.
    + intros H. apply IH. intros x Hx. apply H. by right.
Qed.

Lemma find_first_is_Some p l x : x ∈ l -> p x = true -> is_Some (find_first p l).
Proof.
  intros Hx Hp. destruct (find_first p l) eqn:E; [eauto|].
  apply (proj1 (find_first_None _ _) E) in Hx. congruence.
Qed.

Lemma find_first_app p l1 l2 :
  find_first p (l1 ++ l2) =
  match find_first p l1 with Some x => Some x | None => find_first p l2 end.
Proof. induction l1 as [|x l1 IH]; simpl; [done|]. by destruct (p x). Qed.

Lemma find_first_ext p q l :
  (forall x, x ∈ l -> p x = q x) -> find_first p l = find_first q l.
Proof.
  induction l as [|x l IH]; simpl; intros H; [done|].
  rewrite (H x) by left. rewrite IH; [done|]. intros y Hy. apply H. by right.
Qed.

Lemma position_find p l i :
  position p l = Some i -> exists x, l !! i = Some x /\ find_first p l = Some x.
Proof.
  revert i. induction l as [|x l IH]; intros i; simpl; [done|].
  destruct (p x); [intros [= <-]; by exists x|].
  destruct (position p l) as [j|]; simpl; [|done]. intros [= <-].
  destruct (IH j eq_refl) as (y & ? & ?). by exists y.
Qed.

Lemma position_None p l : position p l = None <-> find_first p l = None.
Proof.
  induction l as [|x l IH]; simpl; [done|]. destruct (p x); [done|].
  destruct (position p l); simpl; [|tauto]. split; [done|].
  intros H. by apply IH in H.
Qed.

Lemma position_alter p (f : A -> A) l i :
  position p l = Some i -> alter f i l = update_first p f l.
Proof.
  revert i. induction l as [|x l IH]; intros i; simpl; [done|].
  destruct (p x); [by intros [= <-]|].
  destruct (position p l) as [j|]; simpl; [|done]. intros [= <-].
  simpl. f_equal. by apply IH.
Qed.

Lemma elem_of_retain p l x : x ∈ retain p l <-> x ∈ l /\ p x = true.
Proof.
  induction l as [|y l IH]; simpl.
  - split; [intros H; by apply not_elem_of_nil in H|intros [H _]; by apply not_elem_of_nil in H].
  - destruct (p y) eqn:E; rewrite ?elem_of_cons, IH; split; intros; intuition congruence.
Qed.

Lemma retain_app p l1 l2 : retain p (l1 ++ l2) = retain p l1 ++ retain p l2.
Proof. induction l1 as [|x l1 IH]; simpl; [done|]. destruct (p x); simpl; congruence. Qed.

Lemma retain_all p l : (forall x, x ∈ l -> p x = true) -> retain p l = l.
Proof.
  induction l as [|x l IH]; simpl; intros H; [done|].
  rewrite (H x) by left. f_equal. apply IH. intros y Hy. apply H. by right.
Qed.

Lemma retain_none p l : (forall x, x ∈ l -> p x = false) -> retain p l = [].
Proof.
  induction l as [|x l IH]; simpl; intros H; [done|].
  rewrite (H x) by left. apply IH. intros y Hy. apply H. by right.
Qed.

Lemma retain_length p l : length (retain p l) <= length l.
Proof. induction l as [|x l IH]; simpl; [lia|]. destruct (p x); simpl; lia. Qed.

Lemma sublist_retain p l : sublist (retain p l) l.
Proof. induction l as [|x l IH]; simpl; [done|]. destruct (p x); by constructor. Qed.

Lemma find_first_retain p q l :
  (forall x, x ∈ l -> p x = true -> q x = true) ->
  find_first p (retain q l) = find_first p l.
Proof.
  induction l as [|x l IH]; simpl; intros H; [done|].
  assert (IH' := IH (fun y Hy => H y (list_elem_of_further _ _ _ Hy))).
  destruct (p x) eqn:Ep; destruct (q x) eqn:Eq; simpl; rewrite ?Ep; try done.
  rewrite (H x) in Eq; [done|left|done].
Qed.

Lemma count_app p l1 l2 : count p (l1 ++ l2) = count p l1 + count p l2.
Proof. unfold count. by rewrite retain_app, length_app. Qed.

Lemma count_cons p x l : count p (x :: l) = (if p x then 1 else 0) + count p l.
Proof. unfold count. simpl. by destruct (p x). Qed.

Lemma count_zero p l : count p l = 0 <-> forall x, x ∈ l -> p x = false.
Proof.
  unfold count. split.
  - intros H x Hx. apply nil_length_inv in H. destruct (p x) eqn:E; [|done].
    exfalso. eapply (not_elem_of_nil x). rewrite <- H. by apply elem_of_retain.
  - intros H. by rewrite retain_none.
Qed.

Lemma count_le p l : count p l <= length l.
Proof. apply retain_length. Qed.

Lemma count_ext p q l : (forall x, x ∈ l -> p x = q x) -> count p l = count q l.
Proof.
  induction l as [|x l IH]; intros H; [done|]. rewrite !count_cons, (H x) by left.
  rewrite IH; [done|]. intros y Hy. apply H. by right.
Qed.

Lemma count_retain_le p q l : count p (retain q l) <= count p l.
Proof.
  induction l as [|x l IH]; simpl; [done|]. destruct (q x); rewrite ?count_cons; lia.
Qed.

Lemma retain_retain p q l : retain p (retain q l) = retain (fun x => q x && p x) l.
Proof.
  induction l as [|x l IH]; simpl; [done|]. destruct (q x); simpl; [|done].
  destruct (p x); congruence.
Qed.

Lemma retain_ext p q l : (forall x, x ∈ l -> p x = q x) -> retain p l = retain q l.
Proof.
  induction l as [|x l IH]; intros H; simpl; [done|]. rewrite (H x) by left.
  rewrite IH; [done|]. intros y Hy. apply H. by right.
Qed.

Lemma count_sublist p l1 l2 : sublist l1 l2 -> count p l1 <= count p l2.
Proof. induction 1; rewrite ?count_cons; lia. Qed.

Lemma count_Permutation p l1 l2 : l1 ≡ₚ l2 -> count p l1 = count p l2.
Proof. induction 1; rewrite ?count_cons; lia. Qed.

Lemma count_mono p q l : (forall x, x ∈ l -> q x = true -> p x = true) -> count q l <= count p l.
Proof.
  induction l as [|x l IH]; intros H; [done|]. rewrite !count_cons.
  assert (count q l <= count p l) by (apply IH; intros y Hy; apply H; by right).
  destruct (q x) eqn:E; [|lia]. rewrite (H x) by (done || left). lia.
Qed.

Lemma count_lt p q l x :
  (forall y, y ∈ l -> q y = true -> p y = true) -> x ∈ l -> p x = true -> q x = false ->
  count q l < count p l.
Proof.
  intros H Hx Hp Hq. apply elem_of_Permutation in Hx as [l' El].
  rewrite (count_Permutation p _ _ El), (count_Permutation q _ _ El), !count_cons, Hp, Hq.
  assert (count q l' <= count p l'); [|lia].
  apply count_mono. intros y Hy. apply H. rewrite El. by right.
Qed.

Lemma count_update_first p q f l x :
  find_first q l = Some x ->
  count p (update_first q f l) + (if p x then 1 else 0) =
  count p l + (if p (f x) then 1 else 0).
Proof.
  induction l as [|y l IH]; simpl; [done|]. destruct (q y).
  - intros [= ->]. rewrite !count_cons. lia.
  - intros H. apply IH in H. rewrite !count_cons. lia.
Qed.

Lemma update_first_None p f l : find_first p l = None -> update_first p f l = l.
Proof.
  induction l as [|x l IH]; simpl; [done|]. destruct (p x); [done|].
  intros H. f_equal. auto.
Qed.

Lemma update_first_length p f l : length (update_first p f l) = length l.
Proof. induction l as [|x l IH]; simpl; [done|]. destruct (p x); simpl; congruence. Qed.

Lemma elem_of_update_first p f l y :
  y ∈ update_first p f l -> y ∈ l \/ (exists x, find_first p l = Some x /\ y = f x).
Proof.
  induction l as [|x l IH]; simpl; [auto|]. destruct (p x) eqn:E.
  - intros [->|H]%elem_of_cons; [right; by exists x|left; by right].
  - intros [->|H]%elem_of_cons; [left; by left|].
    destruct (IH H) as [?|(z & ? & ?)]; [left; by right|right; by exists z].
Qed.

Lemma fmap_update_first {B} (g : A -> B) p f l :
  (forall x, p x = true -> g (f x) = g x) -> g <$> update_first p f l = g <$> l.
Proof.
  intros H. induction l as [|x l IH]; simpl; [done|].
  destruct (p x) eqn:E; rewrite !fmap_cons.
  - by rewrite H.
  - by rewrite IH.
Qed.
End find_laws.

Definition at_key {A K} `{EqDecision K} (key : A -> K) (k : K) (x : A) : bool :=
  bool_decide (key x = k).

Section keyed_lists.
Context {A K : Type} `{EqDecision K} (key : A -> K).
Implicit Types (l : list A) (x : A) (k : K).

Lemma at_key_true k x : at_key key k x = true <-> key x = k.
Proof. unfold at_key. apply bool_decide_eq_true. Qed.

Lemma at_key_false k x : at_key key k x = false <-> key x <> k.
Proof. unfold at_key. apply bool_decide_eq_false. Qed.

Lemma kfind_Some k l x : find_first (at_key key k) l = Some x -> x ∈ l /\ key x = k.
Proof. intros [? ?%at_key_true]%find_first_Some. auto. Qed.

Lemma kfind_None k l : find_first (at_key key k) l = None <-> k ∉ key <$> l.
Proof.
  rewrite find_first_None. split.
  - intros H (x & -> & Hx)%list_elem_of_fmap. apply H, at_key_false in Hx. done.
  - intros H x Hx. apply at_key_false. intros <-. apply H. by apply list_elem_of_fmap_2.
Qed.

Lemma kfind_is_Some k l : k ∈ key <$> l <-> is_Some (find_first (at_key key k) l).
Proof.
  rewrite <- not_eq_None_Some, kfind_None. split; [tauto|].
  intros H. destruct (decide (k ∈ key <$> l)); tauto.
Qed.

Lemma kfind_elem l x :
  NoDup (key <$> l) -> x ∈ l -> find_first (at_key key (key x)) l = Some x.
Proof.
  induction l as [|y l IH]; csimpl; intros Hnd Hx; [by apply not_elem_of_nil in Hx|].
  apply list.NoDup_cons in Hnd as [Hy Hnd]. apply elem_of_cons in Hx as [->|Hx].
  - by rewrite (proj2 (at_key_true _ _)).
  - destruct (at_key key (key x) y) eqn:E; [|by apply IH].
    apply at_key_true in E. exfalso. apply Hy. rewrite E. by apply list_elem_of_fmap_2.
Qed.

Lemma kfind_update k k' (f : A -> A) l :
  (forall x, key (f x) = key x) ->
  find_first (at_key key k) (update_first (at_key key k') f l) =
  if decide (k = k') then f <$> find_first (at_key key k) l
  else find_first (at_key key k) l.
Proof.
  intros Hf. induction l as [|x l IH]; simpl; [by destruct (decide _)|].
  destruct (at_key key k' x) eqn:E'; simpl.
  - apply at_key_true in E'.
    replace (at_key key k (f x)) with (at_key key k x)
      by (unfold at_key; by rewrite Hf).
    destruct (at_key key k x) eqn:E; simpl.
    + apply at_key_true in E. rewrite decide_True by congruence. done.
    + apply at_key_false in E. rewrite decide_False by congruence. done.
  - destruct (at_key key k x) eqn:E; simpl; [|done].
    apply at_key_true in E. apply at_key_false in E'.
    by rewrite decide_False by congruence.
Qed.

Lemma kfind_retain k (p : A -> bool) l :
  (forall x, x ∈ l -> key x = k -> p x = true) ->
  find_first (at_key key k) (retain p l) = find_first (at_key key k) l.
Proof. intros H. apply find_first_retain. intros x Hx E%at_key_true. auto. Qed.

Lemma keys_update k (f : A -> A) l :
  (forall x, key (f x) = key x) -> key <$> update_first (at_key key k) f l = key <$> l.
Proof. intros H. apply fmap_update_first. auto. Qed.

Lemma NoDup_keys_retain (p : A -> bool) l : NoDup (key <$> l) -> NoDup (key <$> retain p l).
Proof. intros H. eapply sublist_NoDup; [done|]. apply fmap_sublist, sublist_retain. Qed.

Lemma keys_inj l x y : NoDup (key <$> l) -> x ∈ l -> y ∈ l -> key x = key y -> x = y.
Proof.
  intros Hnd Hx Hy E. apply (kfind_elem _ _ Hnd) in Hx, Hy. rewrite E in Hx. congruence.
Qed.

Lemma elem_of_kupdate k (f : A -> A) l y :
  NoDup (key <$> l) ->
  y ∈ update_first (at_key key k) f l ->
  (y ∈ l /\ key y <> k) \/ (exists x, x ∈ l /\ key x = k /\ y = f x).
Proof.
  induction l as [|x l IH]; csimpl; intros Hnd Hy; [by apply not_elem_of_nil in Hy|].
  apply list.NoDup_cons in Hnd as [Hx Hnd]. destruct (at_key key k x) eqn:E.
  - apply at_key_true in E. apply elem_of_cons in Hy as [->|Hy].
    + right. exists x. split; [left|done].
    + left. split; [by right|]. intros E'. apply Hx. rewrite E, <- E'.
      by apply list_elem_of_fmap_2.
  - apply at_key_false in E. apply elem_of_cons in Hy as [->|Hy].
    + left. split; [left|done].
    + destruct (IH Hnd Hy) as [[? ?]|(z & ? & ?)].
      * left. split; [by right|done].
      * right. exists z. split; [by right|done].
Qed.
End keyed_lists.

(** ** 64-bit counters

    [u64::saturating_add]; [saturating_sub] is the truncated subtraction of [N]. *)
Definition U64_MAX : N := 18446744073709551615.
Definition saturating_add (a b : N) : N := N.min (a + b) U64_MAX.

(** ** Text order

    [str] compares byte by byte, which is [String.compare]. *)
Definition str_le (a b : string) : bool := String.leb a b.
Definition str_lt (a b : string) : bool := String.ltb a b.

Lemma ascii_compare_lt a b : Ascii.compare a b = Lt <-> (Ascii.N_of_ascii a < Ascii.N_of_ascii b)%N.
Proof. unfold Ascii.compare. apply N.compare_lt_iff. Qed.

Lemma string_compare_refl a : String.compare a a = Eq.
Proof.
  induction a as [|x a IH]; simpl; [done|]. unfold Ascii.compare.
  by rewrite N.compare_refl.
Qed.

Lemma string_compare_lt_trans a b c :
  String.compare a b = Lt -> String.compare b c = Lt -> String.compare a c = Lt.
Proof.
  revert b c. induction a as [|x a IH]; intros [|y b] [|z c]; simpl; try done.
  destruct (Ascii.compare x y) eqn:Exy; try done.
  - apply Ascii.compare_eq_iff in Exy as ->.
    destruct (Ascii.compare y z); try done. apply IH.
  - intros _. destruct (Ascii.compare y z) eqn:Eyz; try done; intros _.
    + apply Ascii.compare_eq_iff in Eyz as <-. by rewrite Exy.
    + apply ascii_compare_lt in Exy, Eyz.
      rewrite (proj2 (ascii_compare_lt x z)); [done|]. by etransitivity.
Qed.

Lemma str_le_spec a b : str_le a b = true <-> a = b \/ String.compare a b = Lt.
Proof.
  unfold str_le, String.leb. destruct (String.compare a b) eqn:E.
  - apply String.compare_eq_iff in E. tauto.
  - tauto.
  - split; [done|]. intros [->|?]; [|done].
    by rewrite string_compare_refl in E.
Qed.

Lemma str_le_refl a : str_le a a = true.
Proof. apply str_le_spec. by left. Qed.

Lemma str_le_trans a b c : str_le a b = true -> str_le b c = true -> str_le a c = true.
Proof.
  rewrite !str_le_spec. intros [->|H1] [->|H2]; eauto using string_compare_lt_trans.
Qed.

Lemma str_le_total a b : str_le a b = true \/ str_le b a = true.
Proof. destruct (String.leb_total a b); auto. Qed.

Lemma str_le_antisym a b : str_le a b = true -> str_le b a = true -> a = b.
Proof. apply String.leb_antisym. Qed.

Lemma str_lt_le a b : str_lt a b = negb (str_le b a).
Proof.
  unfold str_lt, str_le, String.ltb, String.leb. rewrite (String.compare_antisym a b).
  by destruct (String.compare b a).
Qed.

(** ** [for k in .. { if !seen.insert(k) { return Err(..) } }] *)
Fixpoint insert_all {K} `{Countable K} (seen : gset K) (l : list K) : bool :=
  match l with
  | [] => true
  | k :: l => if bool_decide (k ∈ seen) then false else insert_all ({[k]} ∪ seen) l
  end.

Lemma insert_all_spec {K} `{Countable K} (seen : gset K) l :
  insert_all seen l = true <-> NoDup l /\ (forall k, k ∈ l -> k ∉ seen).
Proof.
  revert seen. induction l as [|k l IH]; intros seen; simpl.
  - split; [|done]. intros _. split; [constructor|]. by intros k Hk%not_elem_of_nil.
  - rewrite list.NoDup_cons. case_bool_decide as Hk.
    + split; [done|]. intros [_ Hs]. destruct (Hs k); [left|done].
    + rewrite IH. split.
      * intros [Hnd Hs]. split_and!; [|done|].
        -- intros Hin. apply Hs in Hin. set_solver.
        -- intros k' [->|Hk']%elem_of_cons; [done|]. apply Hs in Hk'. set_solver.
      * intros [[Hin Hnd] Hs]. split; [done|]. intros k' Hk'.
        apply not_elem_of_union. split; [|apply Hs; by right].
        intros ->%elem_of_singleton. done.
Qed.

Lemma insert_all_empty {K} `{Countable K} (l : list K) :
  insert_all (∅ : gset K) l = true <-> NoDup l.
Proof. rewrite insert_all_spec. split; [tauto|]. intros ?. split; [done|]. set_solver. Qed.
