(* ===== verification/DaemonRecord.v ===== *)
(** * The daemon lifecycle record ([crates/core/src/domain/daemon/mod.rs])

    The durable record a running daemon writes, its validation on the way in, and
    the lifecycle classification clients act on.  Timestamps are opaque
    milliseconds; the clock is the caller's. *)
From S2P Require Export Prelude.

Definition MIN_RECORD_PID : N := 2.
Definition MAX_RECORD_PID : N := 2147483647.

Definition is_record_pid (pid : N) : bool := ((MIN_RECORD_PID <=? pid) && (pid <=? MAX_RECORD_PID))%N.

Inductive InvalidRecordPid : Type := MkInvalidRecordPid (pid : N).

Record DaemonRecord := MkDaemonRecord {
  dr_pid : N;
  dr_process_start_identity : option string;
  dr_started_at : N;
}.

Record WireDaemonRecord := MkWireDaemonRecord {
  wire_pid : N;
  wire_process_start_identity : option string;
  wire_started_at : N;
}.

Definition DaemonRecord_try_from (wire : WireDaemonRecord) : result InvalidRecordPid DaemonRecord :=
  if negb (is_record_pid (wire_pid wire)) then Err (MkInvalidRecordPid (wire_pid wire))
  else Ok (MkDaemonRecord (wire_pid wire) (wire_process_start_identity wire) (wire_started_at wire)).

Definition DaemonRecord_identified (pid : N) (process_start_identity : string) (now : N) : DaemonRecord :=
  MkDaemonRecord pid (Some process_start_identity) now.

Definition has_process_identity (r : DaemonRecord) : bool :=
  match dr_process_start_identity r with
  | Some identity => negb (bool_decide (identity = ""))
  | None => false
  end.

Module DaemonProcessObservation.
Inductive t : Type := Exact | Gone | IdentityMismatch | Unknown.
#[export] Instance eq_dec : EqDecision t.
Proof. solve_decision. Defined.
End DaemonProcessObservation.
Export (hints) DaemonProcessObservation.

Inductive StaleReason : Type := OwnerGone | PidReused.

Inductive DaemonState : Type := Alive | Stale (reason : StaleReason) | Unverified | DaemonAbsent.

Definition daemon_classify (record : option DaemonRecord) (observation : DaemonProcessObservation.t)
    : DaemonState :=
  match record, observation with
  | None, _ => DaemonAbsent
  | Some _, DaemonProcessObservation.Exact => Alive
  | Some _, DaemonProcessObservation.Gone => Stale OwnerGone
  | Some _, DaemonProcessObservation.IdentityMismatch => Stale PidReused
  | Some _, DaemonProcessObservation.Unknown => Unverified
  end.

(** A pid accepted from the wire or the disk names one process: its signed
    32-bit spelling is positive and is neither the caller's process group nor
    init. *)
Lemma accepted_pid wire r :
  DaemonRecord_try_from wire = Ok r ->
  dr_pid r = wire_pid wire /\ (2 <= dr_pid r < 2 ^ 31)%N.
Proof.
  unfold DaemonRecord_try_from, is_record_pid, MIN_RECORD_PID, MAX_RECORD_PID.
  destruct (N.leb_spec 2 (wire_pid wire)), (N.leb_spec (wire_pid wire) 2147483647); simpl; try done.
  intros [= <-]. simpl. split; [done|]. lia.
Qed.
