(* ===== verification/Ids.v ===== *)
(** * Typed resource identities ([crates/core/src/domain/id/mod.rs])

    Every identity is a UUID whose canonical lowercase hyphenated text is its
    spelling on the wire and in every store.  The model represents an identity
    by that text: two identities are equal exactly when their texts are, and the
    order of [as_str()] is the order of the text.  (The derived [Ord] of the Rust
    types compares the sixteen bytes, which is the same order on canonical
    text.)  The [uuid] crate itself is a parameter of [parse_uuid]. *)
From S2P Require Export Prelude.

Class AsStr (T : Type) := as_str : T -> string.
Global Hint Mode AsStr ! : typeclass_instances.

Class AsStrInj (T : Type) `{AsStr T} : Prop := as_str_inj :: Inj (=) (=) (as_str (T := T)).

Record WorkspaceId := MkWorkspaceId { workspace_id_text : string }.
Record SessionId := MkSessionId { session_id_text : string }.
Record WorktreeId := MkWorktreeId { worktree_id_text : string }.
Record TerminalId := MkTerminalId { terminal_id_text : string }.
Record AgentRuntimeId := MkAgentRuntimeId { agent_runtime_id_text : string }.
Record AgentContinuationRef := MkAgentContinuationRef { agent_continuation_text : string }.
Record AgentId := MkAgentId { agent_id_text : string }.
Record ConnectionId := MkConnectionId { connection_id_text : string }.
Record ClientId := MkClientId { client_id_text : string }.
Record RequestId := MkRequestId { request_id_text : string }.
Record DaemonGeneration := MkDaemonGeneration { daemon_generation_text : string }.
(** [OperationId] additionally requires UUID version 7, so its text sorts by
    time of issue. *)
Record OperationId := MkOperationId { operation_id_text : string }.

#[export] Instance workspace_id_as_str : AsStr WorkspaceId := workspace_id_text.
#[export] Instance session_id_as_str : AsStr SessionId := session_id_text.
#[export] Instance worktree_id_as_str : AsStr WorktreeId := worktree_id_text.
#[export] Instance terminal_id_as_str : AsStr TerminalId := terminal_id_text.
#[export] Instance agent_runtime_id_as_str : AsStr AgentRuntimeId := agent_runtime_id_text.
#[export] Instance agent_continuation_as_str : AsStr AgentContinuationRef := agent_continuation_text.
#[export] Instance agent_id_as_str : AsStr AgentId := agent_id_text.
#[export] Instance connection_id_as_str : AsStr ConnectionId := connection_id_text.
#[export] Instance daemon_generation_as_str : AsStr DaemonGeneration := daemon_generation_text.
#[export] Instance client_id_as_str : AsStr ClientId := client_id_text.
#[export] Instance request_id_as_str : AsStr RequestId := request_id_text.
#[export] Instance operation_id_as_str : AsStr OperationId := operation_id_text.

Ltac solve_text_inj := intros [?] [?] E; cbv in E; congruence.

#[export] Instance workspace_id_inj : AsStrInj WorkspaceId.
Proof. solve_text_inj. Qed.
#[export] Instance session_id_inj : AsStrInj SessionId.
Proof. solve_text_inj. Qed.
#[export] Instance worktree_id_inj : AsStrInj WorktreeId.
Proof. solve_text_inj. Qed.
#[export] Instance terminal_id_inj : AsStrInj TerminalId.
Proof. solve_text_inj. Qed.
#[export] Instance daemon_generation_inj : AsStrInj DaemonGeneration.
Proof. solve_text_inj. Qed.
#[export] Instance operation_id_inj : AsStrInj OperationId.
Proof. solve_text_inj. Qed.

#[export] Instance workspace_id_eq_dec : EqDecision WorkspaceId.
Proof. solve_decision. Defined.
#[export] Instance session_id_eq_dec : EqDecision SessionId.
Proof. solve_decision. Defined.
#[export] Instance worktree_id_eq_dec : EqDecision WorktreeId.
Proof. solve_decision. Defined.
#[export] Instance terminal_id_eq_dec : EqDecision TerminalId.
Proof. solve_decision. Defined.
#[export] Instance agent_runtime_id_eq_dec : EqDecision AgentRuntimeId.
Proof. solve_decision. Defined.
#[export] Instance agent_continuation_eq_dec : EqDecision AgentContinuationRef.
Proof. solve_decision. Defined.
#[export] Instance agent_id_eq_dec : EqDecision AgentId.
Proof. solve_decision. Defined.
#[export] Instance connection_id_eq_dec : EqDecision ConnectionId.
Proof. solve_decision. Defined.
#[export] Instance daemon_generation_eq_dec : EqDecision DaemonGeneration.
Proof. solve_decision. Defined.
#[export] Instance client_id_eq_dec : EqDecision ClientId.
Proof. solve_decision. Defined.
#[export] Instance request_id_eq_dec : EqDecision RequestId.
Proof. solve_decision. Defined.
#[export] Instance operation_id_eq_dec : EqDecision OperationId.
Proof. solve_decision. Defined.

#[export] Instance workspace_id_countable : Countable WorkspaceId.
Proof. apply (inj_countable' workspace_id_text MkWorkspaceId). by intros []. Defined.
#[export] Instance session_id_countable : Countable SessionId.
Proof. apply (inj_countable' session_id_text MkSessionId). by intros []. Defined.
#[export] Instance worktree_id_countable : Countable WorktreeId.
Proof. apply (inj_countable' worktree_id_text MkWorktreeId). by intros []. Defined.
#[export] Instance terminal_id_countable : Countable TerminalId.
Proof. apply (inj_countable' terminal_id_text MkTerminalId). by intros []. Defined.
#[export] Instance daemon_generation_countable : Countable DaemonGeneration.
Proof. apply (inj_countable' daemon_generation_text MkDaemonGeneration). by intros []. Defined.
#[export] Instance client_id_countable : Countable ClientId.
Proof. apply (inj_countable' client_id_text MkClientId). by intros []. Defined.
#[export] Instance operation_id_countable : Countable OperationId.
Proof. apply (inj_countable' operation_id_text MkOperationId). by intros []. Defined.
#[export] Instance connection_id_countable : Countable ConnectionId.
Proof. apply (inj_countable' connection_id_text MkConnectionId). by intros []. Defined.

(** ** Parsing

    [Uuid], [parse_str], [hyphenated] and [get_version_num] are the [uuid]
    crate's. *)
Inductive IdParseError : Type :=
| InvalidUuid
| NonCanonical
| WrongVersion (expected : nat) (actual : option nat).

Section parsing.
Context {Uuid : Type} (parse_str : string -> option Uuid)
  (hyphenated : Uuid -> string) (get_version_num : Uuid -> nat).

Definition parse_uuid (value : string) (expected_version : option nat)
    : result IdParseError Uuid :=
  match parse_str value with
  | None => Err InvalidUuid
  | Some uuid =>
      if bool_decide (hyphenated uuid <> value) then Err NonCanonical
      else match expected_version with
           | Some expected =>
               if bool_decide (get_version_num uuid <> expected)
               then Err (WrongVersion expected (Some (get_version_num uuid)))
               else Ok uuid
           | None => Ok uuid
           end
  end.

(** [DaemonGeneration::parse], as the macro instantiates it for every
    resource identity, and [OperationId::parse]. *)
Definition DaemonGeneration_parse (value : string) : result IdParseError DaemonGeneration :=
  map_ok (fun uuid => MkDaemonGeneration (hyphenated uuid)) (parse_uuid value None).

Definition OperationId_parse (value : string) : result IdParseError OperationId :=
  map_ok (fun uuid => MkOperationId (hyphenated uuid)) (parse_uuid value (Some 7)).

Lemma parse_uuid_canonical value v uuid :
  parse_uuid value v = Ok uuid -> parse_str value = Some uuid /\ hyphenated uuid = value.
Proof.
  unfold parse_uuid. destruct (parse_str value) as [u|]; [|done].
  repeat case_bool_decide; destruct v; repeat case_bool_decide; try done;
    intros [= <-]; split; auto; by apply dec_stable.
Qed.
End parsing.

(** ** Ownership scopes *)
Record TerminalRef := MkTerminalRef {
  tr_daemon_generation : DaemonGeneration;
  tr_terminal_id : TerminalId;
  tr_workspace_id : WorkspaceId;
  tr_session_id : option SessionId;
  tr_worktree_id : WorktreeId;
}.

#[export] Instance terminal_ref_eq_dec : EqDecision TerminalRef.
Proof. solve_decision. Defined.
#[export] Instance terminal_ref_countable : Countable TerminalRef.
Proof.
  apply (inj_countable'
    (fun t => (tr_daemon_generation t, tr_terminal_id t, tr_workspace_id t,
               tr_session_id t, tr_worktree_id t))
    (fun '(g, t, w, s, k) => MkTerminalRef g t w s k)).
  by intros [].
Defined.

(** [TerminalRef::fences] *)
Definition TerminalRef_fences (known candidate : TerminalRef) : bool :=
  bool_decide (known = candidate).

(** The derived order of a [TerminalRef]: field by field, [None] before
    [Some]. *)
Definition cmp_then (c d : comparison) : comparison :=
  match c with Eq => d | _ => c end.

Definition option_session_compare (a b : option SessionId) : comparison :=
  match a, b with
  | None, None => Eq
  | None, Some _ => Lt
  | Some _, None => Gt
  | Some a, Some b => String.compare (as_str a) (as_str b)
  end.

Definition TerminalRef_cmp (a b : TerminalRef) : comparison :=
  cmp_then (String.compare (as_str (tr_daemon_generation a)) (as_str (tr_daemon_generation b)))
  (cmp_then (String.compare (as_str (tr_terminal_id a)) (as_str (tr_terminal_id b)))
  (cmp_then (String.compare (as_str (tr_workspace_id a)) (as_str (tr_workspace_id b)))
  (cmp_then (option_session_compare (tr_session_id a) (tr_session_id b))
            (String.compare (as_str (tr_worktree_id a)) (as_str (tr_worktree_id b)))))).

Record AgentRuntimeRef := MkAgentRuntimeRef {
  ar_agent_runtime_id : AgentRuntimeId;
  ar_terminal : TerminalRef;
  ar_session_id : option SessionId;
}.

Inductive ScopeError : Type := SessionDoesNotOwnTerminal.

(** [AgentRuntimeRef::new] *)
Definition AgentRuntimeRef_new (agent_runtime_id : AgentRuntimeId) (terminal : TerminalRef)
    (session_id : option SessionId) : result ScopeError AgentRuntimeRef :=
  if bool_decide (tr_session_id terminal <> session_id) then Err SessionDoesNotOwnTerminal
  else Ok (MkAgentRuntimeRef agent_runtime_id terminal session_id).

Record CompletionFence := MkCompletionFence {
  cf_workspace_id : WorkspaceId;
  cf_session_id : option SessionId;
  cf_operation_id : OperationId;
  cf_owner_daemon_generation : DaemonGeneration;
  cf_execution_attempt : N;
  cf_lifecycle_attempt : N;
  cf_expected_revision : N;
}.
