(* ===== verification/Order.v ===== *)
(** * Total orders

    Rust's derived [Ord] as comparison functions with their laws, the
    lexicographic product, and the least element of a list under a key
    ([Iterator::min_by]). *)
From S2P Require Export Ids.

Class Lawful {A} (cmp : A -> A -> comparison) : Prop := {
  cmp_eq a b : cmp a b = Eq <-> a = b;
  cmp_flip a b : cmp b a = CompOpp (cmp a b);
  cmp_lt_trans a b c : cmp a b = Lt -> cmp b c = Lt -> cmp a c = Lt;
}.

#[export] Instance lawful_Z : Lawful Z.compare.
Proof.
  split; [apply Z.compare_eq_iff|intros; apply Z.compare_antisym|].
  intros a b c. rewrite !Z.compare_lt_iff. lia.
Qed.

#[export] Instance lawful_nat : Lawful Nat.compare.
Proof.
  split; [apply Nat.compare_eq_iff|intros; apply Nat.compare_antisym|].
  intros a b c. rewrite !Nat.compare_lt_iff. lia.
Qed.

#[export] Instance lawful_string : Lawful String.compare.
Proof.
  split; [|intros; apply String.compare_antisym|apply string_compare_lt_trans].
  intros a b. split; [apply String.compare_eq_iff|intros ->; apply string_compare_refl].
Qed.

Section combinators.
Context {A B : Type} (ca : A -> A -> comparison) (cb : B -> B -> comparison).

Definition cmp_pair (x y : A * B) : comparison := cmp_then (ca x.1 y.1) (cb x.2 y.2).

#[export] Instance lawful_pair `{!Lawful ca, !Lawful cb} : Lawful cmp_pair.
Proof.
  unfold cmp_pair. split.
  - intros [a b] [a' b']. simpl. destruct (ca a a') eqn:E; simpl.
    + apply cmp_eq in E as ->. rewrite cmp_eq. naive_solver.
    + split; [done|]. intros [= -> ->]. by rewrite (proj2 (cmp_eq a' a') eq_refl) in E.
    + split; [done|]. intros [= -> ->]. by rewrite (proj2 (cmp_eq a' a') eq_refl) in E.
  - intros [a b] [a' b']. simpl. rewrite (cmp_flip a a'). destruct (ca a a'); simpl; [|done..].
    apply cmp_flip.
  - intros [a b] [a' b'] [a'' b'']. simpl.
    destruct (ca a a') eqn:E1; simpl; try done.
    + apply cmp_eq in E1 as ->. destruct (ca a' a''); simpl; try done. apply cmp_lt_trans.
    + intros _. destruct (ca a' a'') eqn:E2; simpl; try done; intros _.
      * apply cmp_eq in E2 as <-. by rewrite E1.
      * by rewrite (cmp_lt_trans _ _ _ E1 E2).
Qed.

Definition cmp_option (x y : option A) : comparison :=
  match x, y with
  | None, None => Eq
  | None, Some _ => Lt
  | Some _, None => Gt
  | Some x, Some y => ca x y
  end.

#[export] Instance lawful_option `{!Lawful ca} : Lawful cmp_option.
Proof.
  split.
  - intros [x|] [y|]; simpl; rewrite ?cmp_eq; naive_solver.
  - intros [x|] [y|]; simpl; try done. apply cmp_flip.
  - intros [x|] [y|] [z|]; simpl; try done. apply cmp_lt_trans.
Qed.

Definition cmp_key (key : B -> A) (x y : B) : comparison := ca (key x) (key y).

Lemma lawful_key `{!Lawful ca} (key : B -> A) : Inj (=) (=) key -> Lawful (cmp_key key).
Proof.
  intros Hinj. unfold cmp_key. split.
  - intros x y. rewrite cmp_eq. split; [apply Hinj|congruence].
  - intros. apply cmp_flip.
  - intros ???. apply cmp_lt_trans.
Qed.
End combinators.

(** The derived order of a terminal reference, as nested pairs. *)
Definition terminal_key (t : TerminalRef) :=
  (as_str (tr_daemon_generation t),
   (as_str (tr_terminal_id t),
    (as_str (tr_workspace_id t), (as_str <$> tr_session_id t, as_str (tr_worktree_id t))))).

Lemma TerminalRef_cmp_key a b :
  TerminalRef_cmp a b =
  cmp_key (cmp_pair String.compare (cmp_pair String.compare (cmp_pair String.compare
    (cmp_pair (cmp_option String.compare) String.compare)))) terminal_key a b.
Proof.
  unfold TerminalRef_cmp, cmp_key, cmp_pair, terminal_key. cbn [fst snd]. do 3 f_equal.
  by destruct (tr_session_id a), (tr_session_id b).
Qed.

#[export] Instance terminal_key_inj : Inj (=) (=) terminal_key.
Proof.
  intros [[g] [t] [w] s [k]] [[g'] [t'] [w'] s' [k']]. cbv.
  destruct s as [[s]|], s' as [[s']|]; congruence.
Qed.

#[export] Instance lawful_terminal : Lawful TerminalRef_cmp.
Proof.
  destruct (lawful_key (cmp_pair String.compare (cmp_pair String.compare (cmp_pair String.compare
    (cmp_pair (cmp_option String.compare) String.compare)))) terminal_key _) as [He Hf Ht].
  split; intros *; rewrite ?TerminalRef_cmp_key; [apply He|apply Hf|apply Ht].
Qed.

(** ** The least element *)
Section min_by.
Context {A K : Type} (cmp : K -> K -> comparison) `{!Lawful cmp} (key : A -> K).

(** The first of the least elements. *)
Fixpoint min_by (l : list A) : option A :=
  match l with
  | [] => None
  | x :: l =>
      match min_by l with
      | None => Some x
      | Some y => match cmp (key y) (key x) with Lt => Some y | _ => Some x end
      end
  end.

Definition cmp_le (a b : K) : Prop := cmp a b <> Gt.

Lemma cmp_le_refl a : cmp_le a a.
Proof. unfold cmp_le. by rewrite (proj2 (cmp_eq a a) eq_refl). Qed.

Lemma cmp_le_trans a b c : cmp_le a b -> cmp_le b c -> cmp_le a c.
Proof.
  unfold cmp_le. destruct (cmp a b) eqn:E1; [|destruct (cmp b c) eqn:E2|done].
  - apply cmp_eq in E1 as ->. done.
  - apply cmp_eq in E2 as <-. congruence.
  - by rewrite (cmp_lt_trans _ _ _ E1 E2).
  - done.
Qed.

Lemma cmp_not_lt a b : cmp a b <> Lt -> cmp_le b a.
Proof. unfold cmp_le. rewrite (cmp_flip (cmp := cmp) a b). by destruct (cmp a b). Qed.

Lemma cmp_lt_le a b : cmp a b = Lt -> cmp_le a b.
Proof. unfold cmp_le. by intros ->. Qed.

Lemma cmp_le_antisym a b : cmp_le a b -> cmp_le b a -> a = b.
Proof.
  unfold cmp_le. rewrite (cmp_flip (cmp := cmp) a b). destruct (cmp a b) eqn:E; try done.
  intros _ _. by apply cmp_eq.
Qed.

Lemma min_by_Some l x :
  min_by l = Some x -> x ∈ l /\ forall y, y ∈ l -> cmp_le (key x) (key y).
Proof.
  revert x. induction l as [|z l IH]; intros x; simpl; [done|].
  destruct (min_by l) as [y|] eqn:E.
  - destruct (IH y eq_refl) as [Hy Hmin].
    destruct (cmp (key y) (key z)) eqn:Ec; intros [= <-]; split;
      try (by left || by right); intros w [->|Hw]%elem_of_cons;
      auto using cmp_le_refl, cmp_lt_le.
    + eapply cmp_le_trans; [|by apply Hmin]. apply cmp_not_lt. by rewrite Ec.
    + eapply cmp_le_trans; [|by apply Hmin]. apply cmp_not_lt. by rewrite Ec.
  - intros [= <-]. split; [left|]. destruct l as [|w l]; [|simpl in E; by destruct (min_by l) as [?|]; [destruct (cmp _ _)|]].
    intros y ->%list_elem_of_singleton. apply cmp_le_refl.
Qed.

Lemma min_by_None l : min_by l = None <-> l = [].
Proof.
  destruct l as [|x l]; [done|]. simpl. split; [|done].
  destruct (min_by l); [by destruct (cmp _ _)|done].
Qed.

(** Keys that tell the elements apart make the least one unique. *)
Lemma min_by_unique l x :
  (forall y z, y ∈ l -> z ∈ l -> key y = key z -> y = z) ->
  min_by l = Some x <-> x ∈ l /\ forall y, y ∈ l -> cmp_le (key x) (key y).
Proof.
  intros Hk. split; [apply min_by_Some|]. intros [Hx Hmin].
  destruct (min_by l) as [y|] eqn:E.
  - apply min_by_Some in E as [Hy Hy']. f_equal. apply Hk; [done..|].
    apply cmp_le_antisym; auto.
  - apply min_by_None in E as ->. by apply not_elem_of_nil in Hx.
Qed.
End min_by.
