(* ===== verification/Visibility.v ===== *)
(** * Visibility of exited terminals
    ([crates/core/src/domain/terminal_visibility.rs],
    [TerminalKind] of [crates/core/src/domain/terminal_launch.rs])

    The lattice [Unobserved < Observed < Dismissed], its compare-and-swap
    command, and the ledger that keys it by the exact terminal.  Revisions are
    unbounded: one is spent per raise, so each entry spends at most two. *)
From S2P Require Export Ids.

Inductive TerminalKind : Type := Terminal | Agent.
#[export] Instance terminal_kind_eq_dec : EqDecision TerminalKind.
Proof. solve_decision. Defined.

Module TerminalVisibilityState.
Inductive t : Type := Unobserved | Observed | Dismissed.
#[export] Instance eq_dec : EqDecision t.
Proof. solve_decision. Defined.

(** The derived order. *)
Definition rank (s : t) : nat :=
  match s with Unobserved => 0 | Observed => 1 | Dismissed => 2 end.

Definition merge (a b : t) : t := if rank a <=? rank b then b else a.
End TerminalVisibilityState.
Export (hints) TerminalVisibilityState.
Notation visibility_state := TerminalVisibilityState.t.

Record TerminalVisibility := MkTerminalVisibility {
  tv_state : visibility_state;
  tv_revision : N;
}.
#[export] Instance terminal_visibility_eq_dec : EqDecision TerminalVisibility.
Proof. solve_decision. Defined.

Inductive VisibilityOutcome : Type :=
| Applied (v : TerminalVisibility)
| Idempotent (v : TerminalVisibility)
| Conflict (v : TerminalVisibility).

Definition outcome_snapshot (o : VisibilityOutcome) : TerminalVisibility :=
  match o with Applied v | Idempotent v | Conflict v => v end.

Definition is_success (o : VisibilityOutcome) : bool :=
  match o with Conflict _ => false | _ => true end.

Definition unobserved : TerminalVisibility :=
  MkTerminalVisibility TerminalVisibilityState.Unobserved 0.

Definition raise (v : TerminalVisibility) (target : visibility_state) (expected_revision : N)
    : VisibilityOutcome :=
  let merged := TerminalVisibilityState.merge (tv_state v) target in
  if bool_decide (merged = tv_state v) then Idempotent v
  else if negb (bool_decide (expected_revision = tv_revision v)) then Conflict v
  else Applied (MkTerminalVisibility merged (tv_revision v + 1)).

Module TerminalVisibilityLedger.
(** [entries], a map in the order of the exact reference. *)
Notation t := (gmap TerminalRef TerminalVisibility).

Record TerminalVisibilityRecord := MkTerminalVisibilityRecord {
  tvr_terminal : TerminalRef;
  tvr_visibility : TerminalVisibility;
}.

Definition visibility (terminal : TerminalRef) (l : t) : TerminalVisibility :=
  default unobserved (l !! terminal).

Definition apply (terminal : TerminalRef) (target : visibility_state) (expected_revision : N)
    (l : t) : VisibilityOutcome * t :=
  let outcome := raise (visibility terminal l) target expected_revision in
  (outcome, match outcome with Applied next => <[terminal := next]> l | _ => l end).

Definition observe (terminal : TerminalRef) (expected_revision : N) (l : t) :=
  apply terminal TerminalVisibilityState.Observed expected_revision l.
Definition dismiss (terminal : TerminalRef) (expected_revision : N) (l : t) :=
  apply terminal TerminalVisibilityState.Dismissed expected_revision l.

(** The persisted rows; reading them keeps the last row of a key. *)
Definition to_records (l : t) : list TerminalVisibilityRecord :=
  (fun '(terminal, v) => MkTerminalVisibilityRecord terminal v) <$> map_to_list l.
Definition from_records (records : list TerminalVisibilityRecord) : t :=
  foldl (fun l r => <[tvr_terminal r := tvr_visibility r]> l) ∅ records.
End TerminalVisibilityLedger.

(** ** Laws *)
Lemma merge_le a b :
  TerminalVisibilityState.rank a <=
  TerminalVisibilityState.rank (TerminalVisibilityState.merge a b).
Proof. by destruct a, b; simpl; lia. Qed.

Lemma merge_max a b :
  TerminalVisibilityState.rank (TerminalVisibilityState.merge a b) =
  Nat.max (TerminalVisibilityState.rank a) (TerminalVisibilityState.rank b).
Proof. by destruct a, b. Qed.

Lemma merge_idemp a : TerminalVisibilityState.merge a a = a.
Proof. by destruct a. Qed.

Definition vis_rank (v : TerminalVisibility) : nat := TerminalVisibilityState.rank (tv_state v).

(** ** Many clients *)
Record command := MkCommand {
  cmd_terminal : TerminalRef;
  cmd_target : visibility_state;
  cmd_revision : N;
}.

Definition command_state (l : TerminalVisibilityLedger.t) (c : command) : TerminalVisibilityLedger.t :=
  snd (TerminalVisibilityLedger.apply (cmd_terminal c) (cmd_target c) (cmd_revision c) l).

(** The revision counts the raises, and a raise is one or two ranks. *)
Definition sound_entry (v : TerminalVisibility) : Prop :=
  (tv_revision v <= N.of_nat (vis_rank v))%N /\
  ((0 < tv_revision v)%N <-> tv_state v <> TerminalVisibilityState.Unobserved).

Lemma raise_sound v target r :
  sound_entry v -> sound_entry (outcome_snapshot (raise v target r)) /\
  vis_rank v <= vis_rank (outcome_snapshot (raise v target r)) /\
  (is_success (raise v target r) = true ->
   TerminalVisibilityState.rank target <= vis_rank (outcome_snapshot (raise v target r))).
Proof.
  destruct v as [s n]. unfold raise, sound_entry, vis_rank. intros [H1 H2].
  case_bool_decide as E; simpl in *.
  - split_and!; [done..|]. intros _. rewrite <- E, merge_max. lia.
  - case_bool_decide; simpl in *; [|done]. split_and!.
    + destruct s, target; simpl in *; try done; lia.
    + split; [|lia]. intros _. by destruct s, target.
    + apply merge_le.
    + intros _. rewrite merge_max. lia.
Qed.

Lemma visibility_apply terminal target r l :
  TerminalVisibilityLedger.visibility terminal
    (snd (TerminalVisibilityLedger.apply terminal target r l)) =
  outcome_snapshot (fst (TerminalVisibilityLedger.apply terminal target r l)).
Proof.
  unfold TerminalVisibilityLedger.apply, raise, TerminalVisibilityLedger.visibility. simpl.
  repeat case_bool_decide; simpl; try done. by rewrite lookup_insert_eq.
Qed.

Lemma visibility_apply_ne terminal terminal' target r l :
  terminal' <> terminal ->
  TerminalVisibilityLedger.visibility terminal'
    (snd (TerminalVisibilityLedger.apply terminal target r l)) =
  TerminalVisibilityLedger.visibility terminal' l.
Proof.
  intros Hn. unfold TerminalVisibilityLedger.apply, TerminalVisibilityLedger.visibility. simpl.
  destruct (raise _ _ _); simpl; try done. by rewrite lookup_insert_ne.
Qed.

Definition sound_ledger (l : TerminalVisibilityLedger.t) : Prop :=
  forall t, sound_entry (TerminalVisibilityLedger.visibility t l).

Lemma sound_unobserved : sound_entry unobserved.
Proof. unfold sound_entry, vis_rank. simpl. split; [lia|]. split; [lia|done]. Qed.

Lemma command_sound l c t :
  sound_ledger l -> sound_ledger (command_state l c) /\
  vis_rank (TerminalVisibilityLedger.visibility t l) <=
    vis_rank (TerminalVisibilityLedger.visibility t (command_state l c)).
Proof.
  intros H. assert (Hs := raise_sound (TerminalVisibilityLedger.visibility (cmd_terminal c) l)
    (cmd_target c) (cmd_revision c) (H _)). destruct Hs as (Hs & Hr & _).
  unfold command_state. split.
  - intros t'. destruct (decide (t' = cmd_terminal c)) as [->|Hn].
    + by rewrite visibility_apply.
    + by rewrite visibility_apply_ne.
  - destruct (decide (t = cmd_terminal c)) as [->|Hn].
    + by rewrite visibility_apply.
    + by rewrite visibility_apply_ne.
Qed.

Lemma from_to_records l :
  TerminalVisibilityLedger.from_records (TerminalVisibilityLedger.to_records l) = l.
Proof.
  unfold TerminalVisibilityLedger.from_records, TerminalVisibilityLedger.to_records.
  rewrite <- (list_to_map_to_list l) at 2.
  assert (Hnd := NoDup_fst_map_to_list l). revert Hnd. generalize (map_to_list l). clear l.
  intros rows. rewrite <- (right_id_L ∅ (∪) (list_to_map rows)). generalize (∅ : TerminalVisibilityLedger.t).
  induction rows as [|[t v] rows IH]; intros l Hnd.
  { symmetry. apply (left_id_L ∅ (∪)). }
  rewrite fmap_cons in Hnd. apply list.NoDup_cons in Hnd as [Ht Hnd].
  rewrite fmap_cons, list_to_map_cons. cbn [foldl TerminalVisibilityLedger.tvr_terminal TerminalVisibilityLedger.tvr_visibility].
  rewrite IH by done.
  rewrite <- insert_union_l. symmetry. apply insert_union_r. by apply not_elem_of_list_to_map.
Qed.

(** Every client converges on one ledger.  Whatever commands clients send, in
    whatever order and however often, no terminal's visibility is ever lowered,
    the revision counts the raises that happened, a command that is answered
    with success leaves the terminal at least as visible as it asked for, and
    the persisted rows give the ledger back. *)
Theorem visibility_only_rises cs l t c :
  sound_ledger l ->
  vis_rank (TerminalVisibilityLedger.visibility t l) <=
    vis_rank (TerminalVisibilityLedger.visibility t (foldl command_state l cs)) /\
  sound_ledger (foldl command_state l cs) /\
  (is_success (fst (TerminalVisibilityLedger.apply (cmd_terminal c) (cmd_target c)
                      (cmd_revision c) l)) = true ->
   TerminalVisibilityState.rank (cmd_target c) <=
   vis_rank (TerminalVisibilityLedger.visibility (cmd_terminal c) (foldl command_state (command_state l c) cs))) /\
  TerminalVisibilityLedger.from_records (TerminalVisibilityLedger.to_records l) = l.
Proof.
  assert (Hrun : forall cs l t, sound_ledger l -> sound_ledger (foldl command_state l cs) /\
    vis_rank (TerminalVisibilityLedger.visibility t l) <=
    vis_rank (TerminalVisibilityLedger.visibility t (foldl command_state l cs))).
  { intros cs'. induction cs' as [|c' cs' IH]; intros l' t' H'; cbn [foldl]; [auto|].
    destruct (command_sound l' c' t' H') as [H1 H2]. destruct (IH _ t' H1). split; [done|lia]. }
  intros H. destruct (Hrun cs l t H) as [H1 H2]. split_and!; [done..| |apply from_to_records].
  intros Hs. destruct (command_sound l c (cmd_terminal c) H) as [H3 _].
  destruct (Hrun cs _ (cmd_terminal c) H3) as [_ H4]. etransitivity; [|exact H4].
  unfold command_state. rewrite visibility_apply. by apply raise_sound.
Qed.
