(* ===== verification/TerminalRetention.v ===== *)
(** * Retention of exited terminals
    ([crates/core/src/domain/terminal_retention.rs])

    The aggregate budget of a daemon, the pre-admission reservation of a final,
    the commit of an exit, and the deterministic garbage collection.  Counts and
    byte volumes are 64-bit: every addition saturates where the code's does. An
    instant is its number of nanoseconds. *)
From S2P Require Export Order Visibility.

Definition DateTime : Type := Z.

Inductive RetentionScope : Type := DaemonScope | WorkspaceScope.
Inductive RetentionDimension : Type := CountDimension | BytesDimension.
Record AdmissionRejection := MkAdmissionRejection {
  rj_scope : RetentionScope;
  rj_dimension : RetentionDimension;
}.

Record RetentionBudget := MkRetentionBudget {
  max_finals : N;
  max_bytes : N;
  max_finals_per_workspace : N;
  max_bytes_per_workspace : N;
  soft_reserve_finals : N;
  soft_reserve_bytes : N;
  soft_reserve_finals_per_workspace : N;
  soft_reserve_bytes_per_workspace : N;
  min_visibility_ttl_secs : Z;
  max_final_age_secs : Z;
  worst_case_final_bytes : N;
  max_gc_batch : nat;
  max_eviction_markers : nat;
}.

Definition RetentionBudget_default : RetentionBudget :=
  MkRetentionBudget 512 (32 * 1024 * 1024) 256 (16 * 1024 * 1024)
    384 (24 * 1024 * 1024) 192 (12 * 1024 * 1024) 600 86400 (64 * 1024) 64 1024.

(** [Ord::clamp] *)
Definition clampN (x lo hi : N) : N := N.min (N.max x lo) hi.
Definition clampZ (x lo hi : Z) : Z := Z.min (Z.max x lo) hi.

Definition normalized (b : RetentionBudget) : RetentionBudget :=
  let finals := N.max (max_finals b) 1 in
  let worst_case := N.max (worst_case_final_bytes b) 1 in
  let bytes := N.max (max_bytes b) worst_case in
  let workspace_finals := clampN (max_finals_per_workspace b) 1 finals in
  let workspace_bytes := clampN (max_bytes_per_workspace b) worst_case bytes in
  let age := Z.max (max_final_age_secs b) 0 in
  MkRetentionBudget finals bytes workspace_finals workspace_bytes
    (N.min (soft_reserve_finals b) finals) (N.min (soft_reserve_bytes b) bytes)
    (N.min (soft_reserve_finals_per_workspace b) workspace_finals)
    (N.min (soft_reserve_bytes_per_workspace b) workspace_bytes)
    (clampZ (min_visibility_ttl_secs b) 0 age) age worst_case
    (Nat.max (max_gc_batch b) 1) (max_eviction_markers b).

Module FinalClass.
Inductive t : Type := Dismissed | Superseded | Observed | Unobserved.
Definition rank (c : t) : nat :=
  match c with Dismissed => 0 | Superseded => 1 | Observed => 2 | Unobserved => 3 end.
End FinalClass.

Record RetainedFinal := MkRetainedFinal {
  rf_terminal : TerminalRef;
  rf_kind : TerminalKind;
  rf_bytes : N;
  rf_exited_at : DateTime;
  rf_visibility : visibility_state;
  rf_superseded : bool;
  rf_pinned : bool;
}.

Definition RetainedFinal_new (terminal : TerminalRef) (kind : TerminalKind) (bytes : N)
    (exited_at : DateTime) : RetainedFinal :=
  MkRetainedFinal terminal kind bytes exited_at TerminalVisibilityState.Unobserved false false.

Definition class (r : RetainedFinal) : FinalClass.t :=
  match rf_visibility r with
  | TerminalVisibilityState.Dismissed => FinalClass.Dismissed
  | v =>
      if rf_superseded r then FinalClass.Superseded
      else match v with
           | TerminalVisibilityState.Observed => FinalClass.Observed
           | _ => FinalClass.Unobserved
           end
  end.

(** [num_seconds] truncates toward zero. *)
Definition age_secs (now : DateTime) (r : RetainedFinal) : Z :=
  Z.max (Z.quot (now - rf_exited_at r) 1000000000) 0.

Inductive EvictionReason : Type := AgeExpired | PressureEviction | EmergencyEviction.

Record EvictionMarker := MkEvictionMarker {
  em_terminal : TerminalRef;
  em_kind : TerminalKind;
  em_reason : EvictionReason;
  em_evicted_at : DateTime;
  em_bytes : N;
}.

Inductive FinalLookup : Type :=
| Retained (r : RetainedFinal)
| Evicted (m : EvictionMarker)
| Unknown.

Record FinalCommit := MkFinalCommit { fc_reserved : bool; fc_over_reserve_bytes : N }.

Record GcReport := MkGcReport { gr_evicted : list EvictionMarker; gr_truncated : bool }.

Definition GcReport_bytes (r : GcReport) : N :=
  foldl (fun sum marker => saturating_add sum (em_bytes marker)) 0%N (gr_evicted r).

Record Usage := MkUsage {
  us_finals : N;
  us_bytes : N;
  us_reservations : N;
  us_reserved_bytes : N;
}.
Definition Usage_default : Usage := MkUsage 0 0 0 0.
Definition usage_count (u : Usage) : N := saturating_add (us_finals u) (us_reservations u).
Definition total_bytes (u : Usage) : N := saturating_add (us_bytes u) (us_reserved_bytes u).
Definition is_idle (u : Usage) : bool := (usage_count u =? 0)%N && (total_bytes u =? 0)%N.

Record Counters := MkCounters {
  ct_admission_rejections : N;
  ct_evicted_finals : N;
  ct_evicted_bytes : N;
  ct_emergency_evictions : N;
  ct_unreserved_commits : N;
  ct_over_reserve_bytes : N;
  ct_forgotten_markers : N;
}.
Definition Counters_default : Counters := MkCounters 0 0 0 0 0 0 0.

Module Pass.
Inductive t : Type := Aged | Pressure | Emergency.
End Pass.

Record RetentionLedger := MkRetentionLedger {
  rl_budget : RetentionBudget;
  rl_finals : gmap TerminalRef RetainedFinal;
  rl_reservations : gmap TerminalRef N;
  rl_markers : gmap TerminalRef EvictionMarker;
  rl_marker_order : list TerminalRef;
  rl_daemon : Usage;
  rl_workspaces : gmap WorkspaceId Usage;
  rl_counters : Counters;
}.

(** Field assignments. *)
Definition set_finals v (l : RetentionLedger) :=
  MkRetentionLedger (rl_budget l) v (rl_reservations l) (rl_markers l) (rl_marker_order l)
    (rl_daemon l) (rl_workspaces l) (rl_counters l).
Definition set_reservations v (l : RetentionLedger) :=
  MkRetentionLedger (rl_budget l) (rl_finals l) v (rl_markers l) (rl_marker_order l)
    (rl_daemon l) (rl_workspaces l) (rl_counters l).
Definition set_markers v w (l : RetentionLedger) :=
  MkRetentionLedger (rl_budget l) (rl_finals l) (rl_reservations l) v w
    (rl_daemon l) (rl_workspaces l) (rl_counters l).
Definition set_usage d w (l : RetentionLedger) :=
  MkRetentionLedger (rl_budget l) (rl_finals l) (rl_reservations l) (rl_markers l)
    (rl_marker_order l) d w (rl_counters l).
Definition set_counters v (l : RetentionLedger) :=
  MkRetentionLedger (rl_budget l) (rl_finals l) (rl_reservations l) (rl_markers l)
    (rl_marker_order l) (rl_daemon l) (rl_workspaces l) v.
Definition count_rejection (c : Counters) :=
  MkCounters (saturating_add (ct_admission_rejections c) 1) (ct_evicted_finals c)
    (ct_evicted_bytes c) (ct_emergency_evictions c) (ct_unreserved_commits c)
    (ct_over_reserve_bytes c) (ct_forgotten_markers c).
Definition count_eviction (bytes : N) (emergency : bool) (c : Counters) :=
  MkCounters (ct_admission_rejections c) (saturating_add (ct_evicted_finals c) 1)
    (saturating_add (ct_evicted_bytes c) bytes)
    (if emergency then saturating_add (ct_emergency_evictions c) 1 else ct_emergency_evictions c)
    (ct_unreserved_commits c) (ct_over_reserve_bytes c) (ct_forgotten_markers c).
Definition count_commit (reserved : bool) (over : N) (c : Counters) :=
  MkCounters (ct_admission_rejections c) (ct_evicted_finals c) (ct_evicted_bytes c)
    (ct_emergency_evictions c)
    (if reserved then ct_unreserved_commits c else saturating_add (ct_unreserved_commits c) 1)
    (saturating_add (ct_over_reserve_bytes c) over) (ct_forgotten_markers c).
Definition count_forgotten (c : Counters) :=
  MkCounters (ct_admission_rejections c) (ct_evicted_finals c) (ct_evicted_bytes c)
    (ct_emergency_evictions c) (ct_unreserved_commits c) (ct_over_reserve_bytes c)
    (saturating_add (ct_forgotten_markers c) 1).
Definition set_rf_visibility v (r : RetainedFinal) :=
  MkRetainedFinal (rf_terminal r) (rf_kind r) (rf_bytes r) (rf_exited_at r) v (rf_superseded r)
    (rf_pinned r).
Definition set_rf_superseded v (r : RetainedFinal) :=
  MkRetainedFinal (rf_terminal r) (rf_kind r) (rf_bytes r) (rf_exited_at r) (rf_visibility r) v
    (rf_pinned r).
Definition set_rf_pinned v (r : RetainedFinal) :=
  MkRetainedFinal (rf_terminal r) (rf_kind r) (rf_bytes r) (rf_exited_at r) (rf_visibility r)
    (rf_superseded r) v.

Module TerminalLedger.
Definition new (budget : RetentionBudget) : RetentionLedger :=
  MkRetentionLedger (normalized budget) ∅ ∅ ∅ [] Usage_default ∅ Counters_default.

(** [apply] runs on the daemon's usage and on the workspace's; an idle
    workspace has no entry. *)
Definition adjust (workspace : WorkspaceId) (apply : Usage -> Usage) (l : RetentionLedger)
    : RetentionLedger :=
  let usage := apply (default Usage_default (rl_workspaces l !! workspace)) in
  set_usage (apply (rl_daemon l))
    (if is_idle usage then delete workspace (rl_workspaces l)
     else <[workspace := usage]> (rl_workspaces l)) l.

Definition add_final (bytes : N) (u : Usage) : Usage :=
  MkUsage (saturating_add (us_finals u) 1) (saturating_add (us_bytes u) bytes) (us_reservations u)
    (us_reserved_bytes u).
(** [saturating_sub] is the truncated subtraction of [N]. *)
Definition sub_final (bytes : N) (u : Usage) : Usage :=
  MkUsage (us_finals u - 1) (us_bytes u - bytes) (us_reservations u) (us_reserved_bytes u).
Definition add_reservation (bytes : N) (u : Usage) : Usage :=
  MkUsage (us_finals u) (us_bytes u) (saturating_add (us_reservations u) 1)
    (saturating_add (us_reserved_bytes u) bytes).
Definition sub_reservation (bytes : N) (u : Usage) : Usage :=
  MkUsage (us_finals u) (us_bytes u) (us_reservations u - 1) (us_reserved_bytes u - bytes).

Definition insert_final (record : RetainedFinal) (l : RetentionLedger) : RetentionLedger :=
  adjust (tr_workspace_id (rf_terminal record)) (add_final (rf_bytes record))
    (set_finals (<[rf_terminal record := record]> (rl_finals l)) l).

Definition take_final (terminal : TerminalRef) (l : RetentionLedger)
    : option RetainedFinal * RetentionLedger :=
  match rl_finals l !! terminal with
  | None => (None, l)
  | Some record =>
      (Some record,
       adjust (tr_workspace_id terminal) (sub_final (rf_bytes record))
         (set_finals (delete terminal (rl_finals l)) l))
  end.

(** [BTreeMap::values]: in the order of the exact reference. *)
Definition terminal_le (a b : RetainedFinal) : Prop :=
  cmp_le TerminalRef_cmp (rf_terminal a) (rf_terminal b).
#[export] Instance terminal_le_dec : RelDecision terminal_le.
Proof. intros a b. unfold terminal_le, cmp_le. apply _. Defined.

Definition values (l : RetentionLedger) : list RetainedFinal :=
  merge_sort terminal_le (snd <$> map_to_list (rl_finals l)).

(** *** Scopes under pressure *)
Definition daemon_soft_pressure (l : RetentionLedger) : bool :=
  (soft_reserve_finals (rl_budget l) <=? usage_count (rl_daemon l))%N ||
  (soft_reserve_bytes (rl_budget l) <=? total_bytes (rl_daemon l))%N.

Definition usage_pressure (b : RetentionBudget) (u : Usage) : bool :=
  (soft_reserve_finals_per_workspace b <=? usage_count u)%N ||
  (soft_reserve_bytes_per_workspace b <=? total_bytes u)%N.

Definition workspace_pressure (workspace : WorkspaceId) (l : RetentionLedger) : bool :=
  from_option (usage_pressure (rl_budget l)) false (rl_workspaces l !! workspace).

Definition under_soft_pressure (l : RetentionLedger) : bool :=
  daemon_soft_pressure l ||
  existsb (fun id => workspace_pressure id l) (fst <$> map_to_list (rl_workspaces l)).

Record Scopes := MkScopes { sc_daemon : bool; sc_workspaces : gset WorkspaceId }.

Definition covers (sc : Scopes) (record : RetainedFinal) : bool :=
  sc_daemon sc || bool_decide (tr_workspace_id (rf_terminal record) ∈ sc_workspaces sc).

Definition pressured_scopes (l : RetentionLedger) : Scopes :=
  MkScopes (daemon_soft_pressure l)
    (dom (filter (fun '(id, _) => workspace_pressure id l = true) (rl_workspaces l))).

Definition over_hard_usage (b : RetentionBudget) (u : Usage) : bool :=
  (max_finals_per_workspace b <? usage_count u)%N ||
  (max_bytes_per_workspace b <? total_bytes u)%N.

Definition over_hard_daemon (l : RetentionLedger) : bool :=
  (max_finals (rl_budget l) <? usage_count (rl_daemon l))%N ||
  (max_bytes (rl_budget l) <? total_bytes (rl_daemon l))%N.

Definition over_hard_scopes (l : RetentionLedger) : Scopes :=
  MkScopes (over_hard_daemon l)
    (dom (filter (fun '(_, usage) => over_hard_usage (rl_budget l) usage = true)
            (rl_workspaces l))).

Definition headroom (workspace : WorkspaceId) (l : RetentionLedger)
    : result AdmissionRejection unit :=
  let b := rl_budget l in
  let bytes := worst_case_final_bytes b in
  let workspace_usage := default Usage_default (rl_workspaces l !! workspace) in
  if (max_finals b <? saturating_add (usage_count (rl_daemon l)) 1)%N
  then Err (MkAdmissionRejection DaemonScope CountDimension)
  else if (max_bytes b <? saturating_add (total_bytes (rl_daemon l)) bytes)%N
  then Err (MkAdmissionRejection DaemonScope BytesDimension)
  else if (max_finals_per_workspace b <? saturating_add (usage_count workspace_usage) 1)%N
  then Err (MkAdmissionRejection WorkspaceScope CountDimension)
  else if (max_bytes_per_workspace b <? saturating_add (total_bytes workspace_usage) bytes)%N
  then Err (MkAdmissionRejection WorkspaceScope BytesDimension)
  else Ok tt.

(** *** Garbage collection *)
Definition order_key : Type := nat * (nat * (DateTime * TerminalRef)).

Definition pass_order (pass : Pass.t) (record : RetainedFinal) : order_key :=
  match pass with
  | Pass.Aged => (0, (0, (rf_exited_at record, rf_terminal record)))
  | Pass.Pressure =>
      (0, (FinalClass.rank (class record), (rf_exited_at record, rf_terminal record)))
  | Pass.Emergency =>
      ((if rf_pinned record then 1 else 0),
       (FinalClass.rank (class record), (rf_exited_at record, rf_terminal record)))
  end.

Definition order_cmp : order_key -> order_key -> comparison :=
  cmp_pair Nat.compare (cmp_pair Nat.compare (cmp_pair Z.compare TerminalRef_cmp)).

(** The filter of [next_victim]. *)
Definition candidate (now : DateTime) (pass : Pass.t) (l : RetentionLedger)
    (record : RetainedFinal) : bool :=
  match pass with
  | Pass.Aged =>
      negb (rf_pinned record) && (max_final_age_secs (rl_budget l) <=? age_secs now record)%Z
  | Pass.Pressure =>
      negb (rf_pinned record) &&
      (min_visibility_ttl_secs (rl_budget l) <=? age_secs now record)%Z &&
      covers (pressured_scopes l) record
  | Pass.Emergency => covers (over_hard_scopes l) record
  end.

Definition next_victim (now : DateTime) (pass : Pass.t) (l : RetentionLedger)
    : option TerminalRef :=
  rf_terminal <$> min_by order_cmp (pass_order pass) (retain (candidate now pass l) (values l)).

Definition has_work (now : DateTime) (pass : Pass.t) (l : RetentionLedger) : bool :=
  match next_victim now pass l with Some _ => true | None => false end.

(** The [while] of [remember_marker] pops one reference per iteration. *)
Fixpoint trim_markers (excess : nat) (l : RetentionLedger) : RetentionLedger :=
  match excess, rl_marker_order l with
  | S excess, oldest :: order =>
      trim_markers excess
        (set_counters (count_forgotten (rl_counters l))
           (set_markers (delete oldest (rl_markers l)) order l))
  | _, _ => l
  end.

Definition remember_marker (marker : EvictionMarker) (l : RetentionLedger) : RetentionLedger :=
  if (max_eviction_markers (rl_budget l) =? 0)%nat
  then set_counters (count_forgotten (rl_counters l)) l
  else
    let order := rl_marker_order l ++ [em_terminal marker] in
    trim_markers (length order - max_eviction_markers (rl_budget l))
      (set_markers (<[em_terminal marker := marker]> (rl_markers l)) order l).

(** [None] is the [expect] of a victim that is not retained. *)
Definition evict (terminal : TerminalRef) (reason : EvictionReason) (now : DateTime)
    (l : RetentionLedger) : option (EvictionMarker * RetentionLedger) :=
  match take_final terminal l with
  | (None, _) => None
  | (Some record, l) =>
      let marker :=
        MkEvictionMarker (rf_terminal record) (rf_kind record) reason now (rf_bytes record) in
      let emergency := match reason with EmergencyEviction => true | _ => false end in
      Some (marker,
            remember_marker marker
              (set_counters (count_eviction (rf_bytes record) emergency (rl_counters l)) l))
  end.

Definition reason_of (pass : Pass.t) : EvictionReason :=
  match pass with
  | Pass.Aged => AgeExpired
  | Pass.Pressure => PressureEviction
  | Pass.Emergency => EmergencyEviction
  end.

(** The [loop] of [run_pass]; [None] when the fuel ran out or a victim was not
    retained. *)
Fixpoint run_pass (fuel : nat) (now : DateTime) (pass : Pass.t)
    (acc : GcReport * RetentionLedger) : option (GcReport * RetentionLedger) :=
  match fuel with
  | 0 => None
  | S fuel =>
      let '(report, l) := acc in
      if (max_gc_batch (rl_budget l) <=? length (gr_evicted report))%nat
      then Some (MkGcReport (gr_evicted report) (gr_truncated report || has_work now pass l), l)
      else
        match next_victim now pass l with
        | None => Some (report, l)
        | Some terminal =>
            '(marker, l) ← evict terminal (reason_of pass) now l ;
            run_pass fuel now pass
              (MkGcReport (gr_evicted report ++ [marker]) (gr_truncated report), l)
        end
  end.

(** Every iteration but the last evicts a retained final. *)
Definition gc_fuel (l : RetentionLedger) : nat := S (size (rl_finals l)).

Definition collect (now : DateTime) (l : RetentionLedger) : option (GcReport * RetentionLedger) :=
  acc ← run_pass (gc_fuel l) now Pass.Aged (MkGcReport [] false, l) ;
  acc ← run_pass (gc_fuel acc.2) now Pass.Pressure acc ;
  run_pass (gc_fuel acc.2) now Pass.Emergency acc.

(** *** The operations of the owner *)
Definition is_reserved (terminal : TerminalRef) (l : RetentionLedger) : bool :=
  bool_decide (is_Some (rl_reservations l !! terminal)).

Definition reserve (now : DateTime) (terminal : TerminalRef) (l : RetentionLedger)
    : result AdmissionRejection unit * RetentionLedger :=
  if is_reserved terminal l then (Ok tt, l)
  else
    let workspace := tr_workspace_id terminal in
    let l :=
      if negb (is_ok (headroom workspace l)) || under_soft_pressure l
      then from_option snd l (collect now l) else l in
    match headroom workspace l with
    | Err rejection => (Err rejection, set_counters (count_rejection (rl_counters l)) l)
    | Ok _ =>
        let bytes := worst_case_final_bytes (rl_budget l) in
        (Ok tt,
         adjust workspace (add_reservation bytes)
           (set_reservations (<[terminal := bytes]> (rl_reservations l)) l))
    end.

Definition release (terminal : TerminalRef) (l : RetentionLedger) : bool * RetentionLedger :=
  match rl_reservations l !! terminal with
  | None => (false, l)
  | Some bytes =>
      (true,
       adjust (tr_workspace_id terminal) (sub_reservation bytes)
         (set_reservations (delete terminal (rl_reservations l)) l))
  end.

Definition is_some {A} (o : option A) : bool := match o with Some _ => true | None => false end.

Definition without (terminal : TerminalRef) (order : list TerminalRef) : list TerminalRef :=
  retain (fun key => negb (bool_decide (key = terminal))) order.

Definition forget (terminal : TerminalRef) (l : RetentionLedger) : bool * RetentionLedger :=
  let '(reservation, l) := release terminal l in
  let '(record, l) := take_final terminal l in
  let marker := is_some (rl_markers l !! terminal) in
  let l := set_markers (delete terminal (rl_markers l))
             (if marker then without terminal (rl_marker_order l) else rl_marker_order l) l in
  (reservation || is_some record || marker, l).

Definition commit_final (terminal : TerminalRef) (kind : TerminalKind) (bytes : N)
    (exited_at : DateTime) (l : RetentionLedger) : FinalCommit * RetentionLedger :=
  let '(reserved, l) := release terminal l in
  let over := (bytes - worst_case_final_bytes (rl_budget l))%N in
  let l := set_counters (count_commit reserved over (rl_counters l)) l in
  let record := RetainedFinal_new terminal kind bytes exited_at in
  let '(previous, l) := take_final terminal l in
  let record :=
    match previous with
    | None => record
    | Some previous =>
        set_rf_pinned (rf_pinned previous)
          (set_rf_superseded (rf_superseded previous)
             (set_rf_visibility
                (TerminalVisibilityState.merge (rf_visibility record) (rf_visibility previous))
                record))
    end in
  (MkFinalCommit reserved over, insert_final record l).

Definition import_existing (record : RetainedFinal) (l : RetentionLedger) : RetentionLedger :=
  let l := snd (take_final (rf_terminal record) l) in
  let l := set_markers (delete (rf_terminal record) (rl_markers l))
             (without (rf_terminal record) (rl_marker_order l)) l in
  insert_final record l.

(** [finals.get_mut(terminal)] and an assignment. *)
Definition update_final (terminal : TerminalRef) (f : RetainedFinal -> RetainedFinal)
    (l : RetentionLedger) : bool * RetentionLedger :=
  match rl_finals l !! terminal with
  | None => (false, l)
  | Some record => (true, set_finals (<[terminal := f record]> (rl_finals l)) l)
  end.

Definition note_visibility (terminal : TerminalRef) (state : visibility_state) :=
  update_final terminal
    (fun r => set_rf_visibility (TerminalVisibilityState.merge (rf_visibility r) state) r).
Definition mark_superseded (terminal : TerminalRef) :=
  update_final terminal (set_rf_superseded true).
Definition set_pinned (terminal : TerminalRef) (pinned : bool) :=
  update_final terminal (set_rf_pinned pinned).

Definition lookup_final (terminal : TerminalRef) (l : RetentionLedger) : FinalLookup :=
  match rl_finals l !! terminal with
  | Some record => Retained record
  | None => from_option Evicted Unknown (rl_markers l !! terminal)
  end.

Definition retained (kind : TerminalKind) (l : RetentionLedger) : list RetainedFinal :=
  retain (fun r => bool_decide (rf_kind r = kind)) (values l).

Record RetentionMetrics := MkRetentionMetrics {
  mt_retained_finals : N;
  mt_retained_bytes : N;
  mt_oldest_retained_age_secs : Z;
  mt_reserved_finals : N;
  mt_reserved_bytes : N;
  mt_soft_pressure : bool;
  mt_counters : Counters;
}.

Definition metrics (now : DateTime) (l : RetentionLedger) : RetentionMetrics :=
  MkRetentionMetrics (us_finals (rl_daemon l)) (us_bytes (rl_daemon l))
    (foldr (fun r age => Z.max (age_secs now r) age) 0%Z (values l))
    (us_reservations (rl_daemon l)) (us_reserved_bytes (rl_daemon l))
    (under_soft_pressure l) (rl_counters l).
End TerminalLedger.
