(* ===== verification/TerminalRetentionLaws.v ===== *)
(** * What the retention ledger promises

    Exact accounting of finals and reservations, the hard caps, the protection
    of finals inside their minimum visibility, and the bound and completeness of
    a collection. *)
From S2P Require Export TerminalRetention.

(** ** Sums over finite maps *)
Section msum.
Context {K A : Type} `{Countable K}.
Implicit Types (f g : K -> A -> N) (m : gmap K A) (k : K) (x : A).

Definition msum f m : N := map_fold (fun k x n => (f k x + n)%N) 0%N m.

Lemma msum_empty f : msum f ∅ = 0%N.
Proof. apply map_fold_empty. Qed.

Lemma msum_insert f m k x : m !! k = None -> msum f (<[k := x]> m) = (f k x + msum f m)%N.
Proof. intros Hk. unfold msum. rewrite map_fold_insert_L; [done| |done]. intros; lia. Qed.

Lemma msum_delete f m k x : m !! k = Some x -> msum f m = (f k x + msum f (delete k m))%N.
Proof.
  intros Hk. rewrite <- (insert_delete_id m k x) at 1 by done.
  apply msum_insert, lookup_delete_eq.
Qed.

Lemma msum_replace f m k x y :
  m !! k = Some x -> (msum f (<[k := y]> m) + f k x = msum f m + f k y)%N.
Proof.
  intros Hk. rewrite (msum_delete f m k x) by done. rewrite <- insert_delete_eq.
  rewrite msum_insert by apply lookup_delete_eq. lia.
Qed.

Lemma msum_mono f g m :
  (forall k x, m !! k = Some x -> (f k x <= g k x)%N) -> (msum f m <= msum g m)%N.
Proof.
  induction m as [|k x m Hk IH] using map_ind; intros Hle.
  - by rewrite !msum_empty.
  - rewrite !msum_insert by done. apply N.add_le_mono.
    + apply Hle, lookup_insert_eq.
    + apply IH. intros k' x' Hk'. apply Hle. rewrite lookup_insert_ne; [done|]. congruence.
Qed.

Lemma msum_ext f g m :
  (forall k x, m !! k = Some x -> f k x = g k x) -> msum f m = msum g m.
Proof.
  intros Heq. apply N.le_antisymm; apply msum_mono; intros k x Hk; by rewrite (Heq k x Hk).
Qed.

Lemma msum_elem f m k x : m !! k = Some x -> (f k x <= msum f m)%N.
Proof. intros Hk. rewrite (msum_delete f m k x) by done. lia. Qed.
Lemma msum_subset f m1 m2 : m1 ⊆ m2 -> (msum f m1 <= msum f m2)%N.
Proof.
  revert m2. induction m1 as [|k x m1 Hk IH] using map_ind; intros m2 Hs.
  - rewrite msum_empty. lia.
  - rewrite msum_insert by done.
    rewrite (msum_delete f m2 k x) by (eapply lookup_weaken; [apply lookup_insert_eq|done]).
    apply N.add_le_mono_l, IH. apply insert_delete_subseteq in Hs; [|done].
    exact Hs.
Qed.
End msum.

(** ** The ledger *)
Import TerminalLedger.

(** ** Accounting *)
Definition where_ (P : TerminalRef -> bool) (n : N) (t : TerminalRef) : N := if P t then n else 0%N.

Definition usage_of (P : TerminalRef -> bool) (finals : gmap TerminalRef RetainedFinal)
    (reservations : gmap TerminalRef N) : Usage :=
  MkUsage (msum (fun t _ => where_ P 1 t) finals)
    (msum (fun t r => where_ P (rf_bytes r) t) finals)
    (msum (fun t _ => where_ P 1 t) reservations)
    (msum (fun t bytes => where_ P bytes t) reservations).

Definition everywhere : TerminalRef -> bool := fun _ => true.
Definition inside (w : WorkspaceId) : TerminalRef -> bool :=
  fun t => bool_decide (tr_workspace_id t = w).

Definition exact_count (u : Usage) : N := us_finals u + us_reservations u.
Definition exact_bytes (u : Usage) : N := us_bytes u + us_reserved_bytes u.

(** Room for one more final or reservation of [bytes] without saturating. *)
Definition room (bytes : N) (l : RetentionLedger) : Prop :=
  (exact_count (rl_daemon l) + 1 <= U64_MAX)%N /\ (exact_bytes (rl_daemon l) + bytes <= U64_MAX)%N.

Definition usage_in (w : WorkspaceId) (l : RetentionLedger) : Usage :=
  default Usage_default (rl_workspaces l !! w).

Record accounted (l : RetentionLedger) : Prop := MkAccounted {
  acc_keys : forall t r, rl_finals l !! t = Some r -> rf_terminal r = t;
  acc_daemon : rl_daemon l = usage_of everywhere (rl_finals l) (rl_reservations l);
  acc_workspaces : forall w, usage_in w l = usage_of (inside w) (rl_finals l) (rl_reservations l);
  acc_idle : forall w u, rl_workspaces l !! w = Some u -> is_idle u = false;
  acc_fits : (exact_count (rl_daemon l) <= U64_MAX)%N /\ (exact_bytes (rl_daemon l) <= U64_MAX)%N;
}.

Lemma saturating_exact a b : (a + b <= U64_MAX)%N -> saturating_add a b = (a + b)%N.
Proof. unfold saturating_add. lia. Qed.

Lemma usage_le P fs rs :
  (us_finals (usage_of P fs rs) <= us_finals (usage_of everywhere fs rs))%N /\
  (us_bytes (usage_of P fs rs) <= us_bytes (usage_of everywhere fs rs))%N /\
  (us_reservations (usage_of P fs rs) <= us_reservations (usage_of everywhere fs rs))%N /\
  (us_reserved_bytes (usage_of P fs rs) <= us_reserved_bytes (usage_of everywhere fs rs))%N.
Proof.
  cbn. split_and!; apply msum_mono; intros t x _; unfold where_, everywhere; destruct (P t); lia.
Qed.

(** ** Answers *)
Definition known (t : TerminalRef) (l : RetentionLedger) : Prop :=
  is_Some (rl_finals l !! t) \/ is_Some (rl_markers l !! t).

(** Whoever could be answered still is, unless the count of forgotten markers
    tells; that counter saturates. *)
Definition answers (l l' : RetentionLedger) : Prop :=
  (N.min (ct_forgotten_markers (rl_counters l)) U64_MAX <=
     ct_forgotten_markers (rl_counters l'))%N /\
  ((ct_forgotten_markers (rl_counters l) < U64_MAX)%N ->
   ct_forgotten_markers (rl_counters l') = ct_forgotten_markers (rl_counters l) ->
   forall t, known t l -> known t l').

Lemma answers_refl l : answers l l.
Proof. split; [lia|auto]. Qed.

Lemma answers_trans l1 l2 l3 : answers l1 l2 -> answers l2 l3 -> answers l1 l3.
Proof.
  intros [L1 K1] [L2 K2]. split; [lia|]. intros Hlt E t Hk. apply K2; [lia|lia|].
  apply K1; [done|lia|done].
Qed.

(** An update of the four sums that [apply] performs exactly. *)
Lemma accounted_adjust l (w : WorkspaceId) apply fs rs :
  accounted l ->
  (forall t r, fs !! t = Some r -> rf_terminal r = t) ->
  apply (rl_daemon l) = usage_of everywhere fs rs ->
  apply (usage_in w l) = usage_of (inside w) fs rs ->
  (forall w', w' <> w -> usage_of (inside w') fs rs =
     usage_of (inside w') (rl_finals l) (rl_reservations l)) ->
  (exact_count (apply (rl_daemon l)) <= U64_MAX)%N ->
  (exact_bytes (apply (rl_daemon l)) <= U64_MAX)%N ->
  accounted (adjust w apply (set_reservations rs (set_finals fs l))).
Proof.
  intros A Hk Hd Hw Hne Hc Hb. unfold adjust. cbn [rl_workspaces set_reservations set_finals].
  fold (usage_in w l). set (u := apply (usage_in w l)) in *.
  assert (Hidle : is_idle u = true -> usage_of (inside w) fs rs = Usage_default).
  { intros Hi. rewrite <- Hw. unfold is_idle, usage_count, total_bytes, saturating_add in Hi.
    destruct u as [a b c d]. cbn in Hi. apply andb_true_iff in Hi as [H1%N.eqb_eq H2%N.eqb_eq].
    unfold U64_MAX in *. unfold Usage_default. f_equal; lia. }
  split; cbn [rl_finals rl_reservations rl_daemon set_usage set_reservations set_finals
    rl_workspaces].
  - done.
  - done.
  - intros w'. unfold usage_in. cbn [rl_workspaces set_usage].
    destruct (decide (w' = w)) as [->|Hn].
    + destruct (is_idle u) eqn:Ei.
      * rewrite lookup_delete_eq. symmetry. auto.
      * by rewrite lookup_insert_eq.
    + rewrite (Hne _ Hn), <- (acc_workspaces _ A w'). unfold usage_in.
      destruct (is_idle u); [by rewrite lookup_delete_ne|by rewrite lookup_insert_ne].
  - intros w' u'. destruct (decide (w' = w)) as [->|Hn].
    + destruct (is_idle u) eqn:Ei; [by rewrite lookup_delete_eq|].
      rewrite lookup_insert_eq. by intros [= <-].
    + destruct (is_idle u); [rewrite lookup_delete_ne by done|rewrite lookup_insert_ne by done];
        apply (acc_idle _ A).
  - done.
Qed.

Lemma where_inside_self (t : TerminalRef) n : where_ (inside (tr_workspace_id t)) n t = n.
Proof. unfold where_, inside. by rewrite bool_decide_true. Qed.

Lemma where_inside_other w (t : TerminalRef) n : w <> tr_workspace_id t -> where_ (inside w) n t = 0%N.
Proof. intros Hw. unfold where_, inside. by rewrite bool_decide_false. Qed.

Lemma usage_in_le w l :
  accounted l ->
  (us_finals (usage_in w l) <= us_finals (rl_daemon l))%N /\
  (us_bytes (usage_in w l) <= us_bytes (rl_daemon l))%N /\
  (us_reservations (usage_in w l) <= us_reservations (rl_daemon l))%N /\
  (us_reserved_bytes (usage_in w l) <= us_reserved_bytes (rl_daemon l))%N.
Proof. intros A. rewrite (acc_workspaces _ A), (acc_daemon _ A). apply usage_le. Qed.

(** The four elementary updates. *)
Lemma accounted_insert_final r l :
  accounted l -> rl_finals l !! rf_terminal r = None -> room (rf_bytes r) l ->
  accounted (insert_final r l).
Proof.
  intros A Hn [R1 R2]. assert (Hle := usage_in_le (tr_workspace_id (rf_terminal r)) l A).
  assert (Hd := acc_daemon _ A). assert (Hw := acc_workspaces _ A).
  unfold exact_count, exact_bytes in *.
  assert (Hfin := accounted_adjust l (tr_workspace_id (rf_terminal r)) (add_final (rf_bytes r))
    (<[rf_terminal r := r]> (rl_finals l)) (rl_reservations l) A).
  unfold insert_final.
  replace (set_finals _ l) with
    (set_reservations (rl_reservations l) (set_finals (<[rf_terminal r := r]> (rl_finals l)) l))
    by by destruct l. apply Hfin.
  - intros t x. destruct (decide (t = rf_terminal r)) as [->|Ht].
    + rewrite lookup_insert_eq. by intros [= <-].
    + rewrite lookup_insert_ne by done. apply (acc_keys _ A).
  - unfold add_final. rewrite !saturating_exact by lia. rewrite Hd. unfold usage_of; cbn.
    rewrite !msum_insert by done. unfold where_, everywhere. f_equal; lia.
  - unfold add_final. rewrite !saturating_exact by lia. rewrite Hw. unfold usage_of; cbn.
    rewrite !msum_insert by done. rewrite !where_inside_self. f_equal; lia.
  - intros w' Hw'. unfold usage_of. rewrite !msum_insert by done.
    by rewrite !where_inside_other by done.
  - unfold add_final, exact_count; cbn. rewrite !saturating_exact; lia.
  - unfold add_final, exact_bytes; cbn. rewrite !saturating_exact; lia.
Qed.

Lemma accounted_take_final t l o l' : accounted l -> take_final t l = (o, l') -> accounted l'.
Proof.
  intros A. unfold take_final. destruct (rl_finals l !! t) as [r|] eqn:Hr; [|by intros [= <- <-]].
  intros [= <- <-]. assert (Hd := acc_daemon _ A). assert (Hw := acc_workspaces _ A).
  destruct (acc_fits _ A) as [F1 F2]. unfold exact_count, exact_bytes in *.
  replace (set_finals _ l) with
    (set_reservations (rl_reservations l) (set_finals (delete t (rl_finals l)) l)) by by destruct l.
  assert (Hs : forall f, msum f (rl_finals l) = (f t r + msum f (delete t (rl_finals l)))%N)
    by (intros f; by apply msum_delete).
  apply accounted_adjust; [done|..].
  - intros t' x. rewrite lookup_delete_Some. intros [_ ?]. by apply (acc_keys _ A).
  - rewrite Hd. unfold sub_final, usage_of; cbn. rewrite !Hs. unfold where_, everywhere.
    f_equal; lia.
  - rewrite Hw. unfold sub_final, usage_of; cbn. rewrite !Hs, !where_inside_self. f_equal; lia.
  - intros w' Hw'. unfold usage_of. rewrite !Hs. by rewrite !where_inside_other by done.
  - unfold sub_final, exact_count; cbn. lia.
  - unfold sub_final, exact_bytes; cbn. lia.
Qed.

Lemma accounted_add_reservation t bytes l :
  accounted l -> rl_reservations l !! t = None -> room bytes l ->
  accounted (adjust (tr_workspace_id t) (add_reservation bytes)
               (set_reservations (<[t := bytes]> (rl_reservations l)) l)).
Proof.
  intros A Hn [R1 R2]. assert (Hle := usage_in_le (tr_workspace_id t) l A).
  assert (Hd := acc_daemon _ A). assert (Hw := acc_workspaces _ A).
  unfold exact_count, exact_bytes in *.
  replace (set_reservations _ l) with
    (set_reservations (<[t := bytes]> (rl_reservations l)) (set_finals (rl_finals l) l))
    by by destruct l.
  apply accounted_adjust; [done|apply (acc_keys _ A)|..].
  - unfold add_reservation. rewrite !saturating_exact by lia. rewrite Hd. unfold usage_of; cbn.
    rewrite !msum_insert by done. unfold where_, everywhere. f_equal; lia.
  - unfold add_reservation. rewrite !saturating_exact by lia. rewrite Hw. unfold usage_of; cbn.
    rewrite !msum_insert by done. rewrite !where_inside_self. f_equal; lia.
  - intros w' Hw'. unfold usage_of. rewrite !msum_insert by done.
    by rewrite !where_inside_other by done.
  - unfold add_reservation, exact_count; cbn. rewrite !saturating_exact; lia.
  - unfold add_reservation, exact_bytes; cbn. rewrite !saturating_exact; lia.
Qed.

Lemma accounted_release t l b l' : accounted l -> release t l = (b, l') -> accounted l'.
Proof.
  intros A. unfold release. destruct (rl_reservations l !! t) as [bytes|] eqn:Hr; [|by intros [= <- <-]].
  intros [= <- <-]. assert (Hd := acc_daemon _ A). assert (Hw := acc_workspaces _ A).
  destruct (acc_fits _ A) as [F1 F2]. unfold exact_count, exact_bytes in *.
  replace (set_reservations _ l) with
    (set_reservations (delete t (rl_reservations l)) (set_finals (rl_finals l) l)) by by destruct l.
  assert (Hs : forall f, msum f (rl_reservations l) =
                         (f t bytes + msum f (delete t (rl_reservations l)))%N)
    by (intros f; by apply msum_delete).
  apply accounted_adjust; [done|apply (acc_keys _ A)|..].
  - rewrite Hd. unfold sub_reservation, usage_of; cbn. rewrite !Hs. unfold where_, everywhere.
    f_equal; lia.
  - rewrite Hw. unfold sub_reservation, usage_of; cbn. rewrite !Hs, !where_inside_self.
    f_equal; lia.
  - intros w' Hw'. unfold usage_of. rewrite !Hs. by rewrite !where_inside_other by done.
  - unfold sub_reservation, exact_count; cbn. lia.
  - unfold sub_reservation, exact_bytes; cbn. lia.
Qed.

(** Assignments that leave finals, reservations and usage alone. *)
Lemma accounted_same l l' :
  accounted l -> rl_finals l' = rl_finals l -> rl_reservations l' = rl_reservations l ->
  rl_daemon l' = rl_daemon l -> rl_workspaces l' = rl_workspaces l -> accounted l'.
Proof.
  intros [K D W I F] Ef Er Ed Ew. split; unfold usage_in in *; rewrite ?Ef, ?Er, ?Ed, ?Ew; done.
Qed.

Lemma trim_markers_same n l :
  rl_finals (trim_markers n l) = rl_finals l /\
  rl_reservations (trim_markers n l) = rl_reservations l /\
  rl_daemon (trim_markers n l) = rl_daemon l /\ rl_workspaces (trim_markers n l) = rl_workspaces l /\
  rl_budget (trim_markers n l) = rl_budget l.
Proof.
  revert l. induction n as [|n IH]; intros l; simpl; [done|].
  destruct (rl_marker_order l) as [|oldest order]; [done|].
  by destruct (IH (set_counters (count_forgotten (rl_counters l))
    (set_markers (delete oldest (rl_markers l)) order l))) as (-> & -> & -> & -> & ->).
Qed.

Lemma remember_marker_same m l :
  rl_finals (remember_marker m l) = rl_finals l /\
  rl_reservations (remember_marker m l) = rl_reservations l /\
  rl_daemon (remember_marker m l) = rl_daemon l /\
  rl_workspaces (remember_marker m l) = rl_workspaces l /\
  rl_budget (remember_marker m l) = rl_budget l.
Proof.
  unfold remember_marker. destruct (_ =? 0); [done|].
  destruct (trim_markers_same (length (rl_marker_order l ++ [em_terminal m]) -
      max_eviction_markers (rl_budget l))
    (set_markers (<[em_terminal m:=m]> (rl_markers l)) (rl_marker_order l ++ [em_terminal m]) l))
    as (-> & -> & -> & -> & ->). done.
Qed.

Lemma trim_markers_forgets n l :
  (ct_forgotten_markers (rl_counters l) < U64_MAX)%N -> 0 < n -> rl_marker_order l <> [] ->
  (ct_forgotten_markers (rl_counters l) < ct_forgotten_markers (rl_counters (trim_markers n l)))%N.
Proof.
  assert (Hmono : forall n l, (ct_forgotten_markers (rl_counters l) <= U64_MAX)%N ->
    (ct_forgotten_markers (rl_counters l) <=
       ct_forgotten_markers (rl_counters (trim_markers n l)))%N).
  { clear. intros n. induction n as [|n IH]; intros l Hl; cbn [trim_markers]; [lia|].
    destruct (rl_marker_order l) as [|oldest order]; [lia|].
    etransitivity; [|apply IH]; cbn; unfold saturating_add; lia. }
  intros Hl Hn Ho. destruct n as [|n]; [lia|]. cbn [trim_markers].
  destruct (rl_marker_order l) as [|oldest order]; [done|].
  eapply N.lt_le_trans; [|apply Hmono]; cbn; unfold saturating_add; lia.
Qed.

(** The new marker answers, or the count of forgotten markers grows. *)
Lemma remember_marker_answers m l :
  (ct_forgotten_markers (rl_counters l) < U64_MAX)%N ->
  (ct_forgotten_markers (rl_counters l) <
     ct_forgotten_markers (rl_counters (remember_marker m l)))%N \/
  (rl_markers (remember_marker m l) = <[em_terminal m := m]> (rl_markers l) /\
   rl_counters (remember_marker m l) = rl_counters l).
Proof.
  intros Hl. unfold remember_marker. destruct (_ =? 0).
  - left. cbn. unfold saturating_add. lia.
  - set (order := rl_marker_order l ++ [em_terminal m]).
    destruct (length order - max_eviction_markers (rl_budget l)) as [|n] eqn:E; [by right|left].
    apply (trim_markers_forgets (S n) (set_markers _ order l)); [done|lia|].
    cbn. unfold order. by destruct (rl_marker_order l).
Qed.

Lemma accounted_remember m l : accounted l -> accounted (remember_marker m l).
Proof.
  intros A. destruct (remember_marker_same m l) as (? & ? & ? & ? & _). by eapply accounted_same.
Qed.

(** Evicting replaces the final with its marker. *)
Lemma evict_answers t r reason now l :
  rl_finals l !! t = Some r -> rf_terminal r = t ->
  answers l
    (remember_marker (MkEvictionMarker (rf_terminal r) (rf_kind r) reason now (rf_bytes r))
       (set_counters
          (count_eviction (rf_bytes r)
             match reason with EmergencyEviction => true | _ => false end
             (rl_counters (adjust (tr_workspace_id t) (sub_final (rf_bytes r))
                             (set_finals (delete t (rl_finals l)) l))))
          (adjust (tr_workspace_id t) (sub_final (rf_bytes r))
             (set_finals (delete t (rl_finals l)) l)))).
Proof.
  intros Hr Ht. set (m := MkEvictionMarker _ _ _ _ _). set (x := set_counters _ _).
  destruct (remember_marker_same m x) as (Ef & _).
  destruct (N.lt_ge_cases (ct_forgotten_markers (rl_counters l)) U64_MAX) as [Hlt|Hge].
  - destruct (remember_marker_answers m x Hlt) as [Hgrow|[Em Ec]].
    + change (ct_forgotten_markers (rl_counters x)) with (ct_forgotten_markers (rl_counters l)) in Hgrow.
      split; lia.
    + split; [rewrite Ec; cbn; lia|]. intros _ _ t' Hk. unfold known. rewrite Ef, Em. cbn.
      rewrite Ht. destruct (decide (t' = t)) as [->|Hn].
      * right. rewrite lookup_insert_eq. eauto.
      * rewrite lookup_delete_ne, lookup_insert_ne by done. exact Hk.
  - split; [|lia]. unfold remember_marker. destruct (_ =? 0).
    + cbn. unfold saturating_add. lia.
    + generalize (length (rl_marker_order x ++ [em_terminal m]) - max_eviction_markers (rl_budget x)).
      intros n. set (y := set_markers _ _ _).
      assert (Hy : (U64_MAX <= ct_forgotten_markers (rl_counters y))%N) by (cbn; lia).
      enough (U64_MAX <= ct_forgotten_markers (rl_counters (trim_markers n y)))%N by lia.
      clearbody y. revert y Hy.
      induction n as [|n IH]; intros y Hy; cbn [trim_markers]; [done|].
      destruct (rl_marker_order y); [done|]. apply IH. cbn. unfold saturating_add. lia.
Qed.

Lemma evict_Some t reason now l m l' :
  evict t reason now l = Some (m, l') ->
  exists r, rl_finals l !! t = Some r /\
    m = MkEvictionMarker (rf_terminal r) (rf_kind r) reason now (rf_bytes r) /\
    rl_finals l' = delete t (rl_finals l) /\ rl_reservations l' = rl_reservations l /\
    rl_budget l' = rl_budget l /\
    (accounted l -> accounted l' /\
       rl_daemon l' = sub_final (rf_bytes r) (rl_daemon l) /\ answers l l').
Proof.
  unfold evict, take_final. destruct (rl_finals l !! t) as [r|] eqn:Hr; [|done].
  intros [= <- <-]. exists r. split; [done|]. split; [done|].
  match goal with |- context [remember_marker ?m ?x] =>
    destruct (remember_marker_same m x) as (-> & -> & E3 & E4 & ->) end.
  split_and!; [done..|]. intros A. split_and!; [|by rewrite E3|].
  - apply accounted_remember.
    eapply (accounted_same (snd (take_final t l))); [|unfold take_final; by rewrite Hr..].
    eapply accounted_take_final; [done|]. unfold take_final. by rewrite Hr.
  - by apply evict_answers; [|apply (acc_keys _ A)].
Qed.

Lemma evict_is_Some t reason now l : is_Some (rl_finals l !! t) -> is_Some (evict t reason now l).
Proof. intros [r Hr]. unfold evict, take_final. rewrite Hr. eauto. Qed.

Lemma accounted_update t f l b l' :
  accounted l -> (forall r, rf_terminal (f r) = rf_terminal r /\ rf_bytes (f r) = rf_bytes r) ->
  update_final t f l = (b, l') -> accounted l'.
Proof.
  intros A Hf. unfold update_final. destruct (rl_finals l !! t) as [r|] eqn:Hr; [|by intros [= <- <-]].
  intros [= <- <-]. destruct (Hf r) as [Ft Fb].
  assert (Hs : forall P, usage_of P (<[t := f r]> (rl_finals l)) (rl_reservations l) =
                         usage_of P (rl_finals l) (rl_reservations l)).
  { intros P. unfold usage_of.
    assert (H1 := msum_replace (fun t (_ : RetainedFinal) => where_ P 1 t) _ _ _ (f r) Hr).
    assert (H2 := msum_replace (fun t r => where_ P (rf_bytes r) t) _ _ _ (f r) Hr).
    cbn in H1, H2. rewrite Fb in H2. f_equal; lia. }
  destruct A as [K D W I F]. split; cbn [rl_finals rl_reservations rl_daemon set_finals rl_workspaces].
  - intros t' x. destruct (decide (t' = t)) as [->|Ht].
    + rewrite lookup_insert_eq. intros [= <-]. rewrite Ft. by apply K.
    + rewrite lookup_insert_ne by done. apply K.
  - by rewrite Hs.
  - intros w. rewrite Hs. apply W.
  - done.
  - done.
Qed.

(** ** Victims *)
Lemma elem_of_values r l : r ∈ values l <-> exists t, rl_finals l !! t = Some r.
Proof.
  unfold values. rewrite merge_sort_Permutation, list_elem_of_fmap. split.
  - intros ([t r'] & -> & H%elem_of_map_to_list). by exists t.
  - intros [t H]. exists (t, r). split; [done|]. by apply elem_of_map_to_list.
Qed.

#[export] Instance lawful_order : Lawful order_cmp.
Proof. unfold order_cmp. apply _. Qed.

Lemma pass_order_terminal pass r1 r2 :
  pass_order pass r1 = pass_order pass r2 -> rf_terminal r1 = rf_terminal r2.
Proof. destruct pass; simpl; congruence. Qed.

(** The victim is the candidate that comes first in the order of the pass. *)
Lemma next_victim_Some now pass l t :
  next_victim now pass l = Some t ->
  (forall t r, rl_finals l !! t = Some r -> rf_terminal r = t) ->
  exists r, rl_finals l !! t = Some r /\ candidate now pass l r = true /\
    forall t' r', rl_finals l !! t' = Some r' -> candidate now pass l r' = true ->
      cmp_le order_cmp (pass_order pass r) (pass_order pass r').
Proof.
  unfold next_victim. intros (r & Hmin & ->)%fmap_Some Hk.
  apply min_by_Some in Hmin as [Hr Hmin]; [|apply _]. apply elem_of_retain in Hr as [Hr Hc].
  apply elem_of_values in Hr as [t Ht]. exists r. rewrite (Hk _ _ Ht). split_and!; [done..|].
  intros t' r' Hr' Hc'. apply Hmin, elem_of_retain. split; [|done]. apply elem_of_values. eauto.
Qed.

Lemma next_victim_None now pass l :
  next_victim now pass l = None <->
  forall t r, rl_finals l !! t = Some r -> candidate now pass l r = false.
Proof.
  unfold next_victim. rewrite fmap_None, min_by_None. split.
  - intros H t r Hr. destruct (candidate now pass l r) eqn:E; [|done]. exfalso.
    eapply (not_elem_of_nil r). rewrite <- H. apply elem_of_retain. split; [|done].
    apply elem_of_values. eauto.
  - intros H. apply retain_none. intros r [t Hr]%elem_of_values. eauto.
Qed.

(** ** What one collection did *)
Definition reason_holds (now : DateTime) (b : RetentionBudget) (reason : EvictionReason)
    (r : RetainedFinal) : Prop :=
  match reason with
  | AgeExpired => rf_pinned r = false /\ (max_final_age_secs b <= age_secs now r)%Z
  | PressureEviction => rf_pinned r = false /\ (min_visibility_ttl_secs b <= age_secs now r)%Z
  | EmergencyEviction => True
  end.

Record collected (now : DateTime) (l : RetentionLedger) (new : list EvictionMarker)
    (l' : RetentionLedger) : Prop := MkCollected {
  col_budget : rl_budget l' = rl_budget l;
  col_reservations : rl_reservations l' = rl_reservations l;
  col_subset : rl_finals l' ⊆ rl_finals l;
  col_markers : forall m, m ∈ new -> exists r, rl_finals l !! em_terminal m = Some r /\
    rl_finals l' !! em_terminal m = None /\ em_kind m = rf_kind r /\ em_bytes m = rf_bytes r /\
    em_evicted_at m = now /\ reason_holds now (rl_budget l) (em_reason m) r;
  col_all : forall t r, rl_finals l !! t = Some r ->
    rl_finals l' !! t = Some r \/ t ∈ em_terminal <$> new;
  col_nodup : NoDup (em_terminal <$> new);
  col_accounted : accounted l -> accounted l';
  col_answers : answers l l';
}.

Lemma collected_refl now l : collected now l [] l.
Proof.
  split; try done; [by intros m ?%not_elem_of_nil|by left|apply base.NoDup_nil_2|apply answers_refl].
Qed.

Lemma collected_trans now l n1 l1 n2 l2 :
  collected now l n1 l1 -> collected now l1 n2 l2 -> collected now l (n1 ++ n2) l2.
Proof.
  intros [B1 R1 S1 M1 A1 N1 C1 K1] [B2 R2 S2 M2 A2 N2 C2 K2].
  assert (Hgone : forall t, rl_finals l1 !! t = None -> rl_finals l2 !! t = None).
  { intros t Ht. destruct (rl_finals l2 !! t) as [r|] eqn:E; [|done].
    rewrite (lookup_weaken _ _ _ _ E S2) in Ht. done. }
  split.
  - congruence.
  - congruence.
  - by etransitivity.
  - intros m [Hm|Hm]%elem_of_app.
    + destruct (M1 m Hm) as (r & ? & ? & ? & ? & ? & ?). exists r. split_and!; auto.
    + destruct (M2 m Hm) as (r & Hr & ? & ? & ? & ? & ?). exists r. rewrite <- B1.
      split_and!; try done. by eapply lookup_weaken.
  - intros t r Hr. rewrite fmap_app, elem_of_app. destruct (A1 t r Hr) as [H|H]; [|by auto].
    destruct (A2 t r H); auto.
  - rewrite fmap_app. apply list.NoDup_app. split_and!; [done| |done].
    intros t (m1 & -> & H1)%list_elem_of_fmap (m2 & E & H2)%list_elem_of_fmap.
    destruct (M1 m1 H1) as (_ & _ & Hn & _). destruct (M2 m2 H2) as (r & Hr & _).
    rewrite E in Hn. congruence.
  - auto.
  - by eapply answers_trans.
Qed.

Lemma evict_collected now pass t l m l' r :
  accounted l -> rl_finals l !! t = Some r -> candidate now pass l r = true ->
  evict t (reason_of pass) now l = Some (m, l') -> collected now l [m] l'.
Proof.
  intros A Hr Hc H. apply evict_Some in H as (r' & Hr' & -> & Ef & Er & Eb & Ha).
  replace r' with r in * by congruence. assert (Ht := acc_keys _ A _ _ Hr).
  split; try done.
  - rewrite Ef. apply delete_subseteq.
  - intros m ->%list_elem_of_singleton. exists r. cbn. rewrite Ht, Ef, lookup_delete_eq.
    split_and!; try done. unfold candidate in Hc.
    destruct pass; cbn; rewrite ?andb_true_iff, ?negb_true_iff, ?Z.leb_le in Hc; naive_solver.
  - intros t' x Hx. rewrite Ef. destruct (decide (t' = t)) as [->|Hn].
    + right. cbn. rewrite Ht. left.
    + left. by rewrite lookup_delete_ne.
  - apply list.NoDup_singleton.
  - intros _. by apply Ha.
  - by apply Ha.
Qed.

(** A pass that is done: no victim is left, or the batch is full and the report
    says whether work is left. *)
Definition pass_done (now : DateTime) (pass : Pass.t) (truncated : bool) (report : GcReport)
    (l : RetentionLedger) : Prop :=
  (next_victim now pass l = None /\ (truncated = true -> gr_truncated report = true)) \/
  (gr_truncated report = truncated || has_work now pass l).

Lemma run_pass_spec fuel now pass report l :
  accounted l -> size (rl_finals l) < fuel ->
  length (gr_evicted report) <= max_gc_batch (rl_budget l) ->
  exists new truncated l',
    run_pass fuel now pass (report, l) = Some (MkGcReport (gr_evicted report ++ new) truncated, l') /\
    collected now l new l' /\
    length (gr_evicted report ++ new) <= max_gc_batch (rl_budget l) /\
    (truncated = false -> next_victim now pass l' = None /\ gr_truncated report = false) /\
    (forall m, m ∈ new -> em_reason m = reason_of pass).
Proof.
  revert report l. induction fuel as [|fuel IH]; intros report l A Hf Hb; [lia|].
  cbn [run_pass]. destruct (max_gc_batch (rl_budget l) <=? _) eqn:Eb.
  - exists [], (gr_truncated report || has_work now pass l), l. rewrite app_nil_r.
    split_and!; [done|apply collected_refl|done| |by intros m ?%not_elem_of_nil].
    intros [Ht Hw]%orb_false_iff. split; [|done]. unfold has_work in Hw.
    by destruct (next_victim now pass l).
  - apply Nat.leb_gt in Eb. destruct (next_victim now pass l) as [t|] eqn:Ev.
    + destruct (next_victim_Some _ _ _ _ Ev (acc_keys _ A)) as (r & Hr & Hc & _).
      destruct (evict_is_Some t (reason_of pass) now l) as [[m l1] E]; [by rewrite Hr|].
      rewrite E. cbn [mbind option_bind].
      assert (C1 := evict_collected _ _ _ _ _ _ _ A Hr Hc E).
      destruct (evict_Some _ _ _ _ _ _ E) as (r' & Hr' & Em & Ef & _ & Ebud & Ha).
      destruct (IH (MkGcReport (gr_evicted report ++ [m]) (gr_truncated report)) l1) as
        (new & tr & l' & E' & C' & Hb' & Ht' & Hm').
      * by apply (col_accounted _ _ _ _ C1).
      * rewrite Ef, map_size_delete_Some by eauto.
        assert (size (rl_finals l) <> 0) by (rewrite map_size_ne_0_lookup; eauto). lia.
      * rewrite Ebud. cbn [gr_evicted]. rewrite length_app. cbn [length]. lia.
      * cbn [gr_evicted gr_truncated] in *. rewrite <- !app_assoc in *. cbn [app] in *.
        exists (m :: new), tr, l'. rewrite Ebud in Hb'.
        split_and!; [done|by apply (collected_trans _ _ [m] l1)|done|done|].
        intros m' [->|Hin]%elem_of_cons; [by subst m|by apply Hm'].
    + exists [], (gr_truncated report), l. rewrite app_nil_r.
      split_and!; [by destruct report|apply collected_refl|done|done|by intros m ?%not_elem_of_nil].
Qed.

(** ** Usage only falls while finals are collected *)
Definition usage_leq (u v : Usage) : Prop :=
  (us_finals u <= us_finals v)%N /\ (us_bytes u <= us_bytes v)%N /\
  (us_reservations u <= us_reservations v)%N /\ (us_reserved_bytes u <= us_reserved_bytes v)%N.

Lemma usage_count_mono u v : usage_leq u v -> (usage_count u <= usage_count v)%N.
Proof. unfold usage_leq, usage_count, saturating_add. lia. Qed.

Lemma total_bytes_mono u v : usage_leq u v -> (total_bytes u <= total_bytes v)%N.
Proof. unfold usage_leq, total_bytes, saturating_add. lia. Qed.

Lemma usage_of_subset P fs1 fs2 rs : fs1 ⊆ fs2 -> usage_leq (usage_of P fs1 rs) (usage_of P fs2 rs).
Proof. intros Hs. unfold usage_leq; cbn. split_and!; try done; by apply msum_subset. Qed.

Section falling.
Context (now : DateTime) (l : RetentionLedger) (new : list EvictionMarker) (l' : RetentionLedger).
Hypothesis acc : accounted l.
Hypothesis col : collected now l new l'.

Lemma collected_daemon : usage_leq (rl_daemon l') (rl_daemon l).
Proof.
  rewrite (acc_daemon _ (col_accounted _ _ _ _ col acc)), (acc_daemon _ acc).
  rewrite (col_reservations _ _ _ _ col). apply usage_of_subset, (col_subset _ _ _ _ col).
Qed.

Lemma collected_workspace w u' :
  rl_workspaces l' !! w = Some u' ->
  exists u, rl_workspaces l !! w = Some u /\ usage_leq u' u.
Proof.
  intros Hu'. assert (acc' := col_accounted _ _ _ _ col acc).
  assert (Hle : usage_leq (usage_in w l') (usage_in w l)).
  { rewrite (acc_workspaces _ acc'), (acc_workspaces _ acc), (col_reservations _ _ _ _ col).
    apply usage_of_subset, (col_subset _ _ _ _ col). }
  unfold usage_in in Hle. rewrite Hu' in Hle. cbn [default from_option id] in Hle.
  destruct (rl_workspaces l !! w) as [u|]; [by exists u|].
  exfalso. assert (Hi := acc_idle _ acc' w u' Hu'). cbn in Hle. destruct Hle as (? & ? & ? & ?).
  unfold is_idle, usage_count, total_bytes, saturating_add in Hi.
  apply andb_false_iff in Hi as [Hi%N.eqb_neq|Hi%N.eqb_neq]; unfold U64_MAX in Hi; cbn in *; lia.
Qed.

Lemma collected_pressure w : workspace_pressure w l' = true -> workspace_pressure w l = true.
Proof.
  unfold workspace_pressure. destruct (rl_workspaces l' !! w) as [u'|] eqn:E; [|done].
  destruct (collected_workspace w u' E) as (u & -> & Hle). cbn.
  rewrite (col_budget _ _ _ _ col). unfold usage_pressure.
  assert (H1 := usage_count_mono _ _ Hle). assert (H2 := total_bytes_mono _ _ Hle).
  rewrite !orb_true_iff, !N.leb_le. lia.
Qed.

Lemma collected_daemon_pressure :
  daemon_soft_pressure l' = true -> daemon_soft_pressure l = true.
Proof.
  unfold daemon_soft_pressure. rewrite (col_budget _ _ _ _ col).
  assert (H1 := usage_count_mono _ _ collected_daemon).
  assert (H2 := total_bytes_mono _ _ collected_daemon). rewrite !orb_true_iff, !N.leb_le. lia.
Qed.

Lemma collected_over_hard_daemon : over_hard_daemon l' = true -> over_hard_daemon l = true.
Proof.
  unfold over_hard_daemon. rewrite (col_budget _ _ _ _ col).
  assert (H1 := usage_count_mono _ _ collected_daemon).
  assert (H2 := total_bytes_mono _ _ collected_daemon). rewrite !orb_true_iff, !N.ltb_lt. lia.
Qed.

Lemma over_hard_mono b u u' : usage_leq u' u -> over_hard_usage b u' = true -> over_hard_usage b u = true.
Proof.
  intros Hle. unfold over_hard_usage.
  assert (H1 := usage_count_mono _ _ Hle). assert (H2 := total_bytes_mono _ _ Hle).
  rewrite !orb_true_iff, !N.ltb_lt. lia.
Qed.

Lemma elem_of_pressured w x :
  w ∈ sc_workspaces (pressured_scopes x) <->
  is_Some (rl_workspaces x !! w) /\ workspace_pressure w x = true.
Proof.
  unfold pressured_scopes. cbn [sc_workspaces]. rewrite elem_of_dom. unfold is_Some.
  setoid_rewrite map_lookup_filter_Some. naive_solver.
Qed.

Lemma elem_of_over_hard w x :
  w ∈ sc_workspaces (over_hard_scopes x) <->
  exists u, rl_workspaces x !! w = Some u /\ over_hard_usage (rl_budget x) u = true.
Proof.
  unfold over_hard_scopes. cbn [sc_workspaces]. rewrite elem_of_dom. unfold is_Some.
  setoid_rewrite map_lookup_filter_Some. naive_solver.
Qed.

(** A candidate that is left was a candidate before. *)
Lemma collected_candidate pass r : candidate now pass l' r = true -> candidate now pass l r = true.
Proof.
  assert (Hcov : forall sc sc', (sc_daemon sc' = true -> sc_daemon sc = true) ->
    (forall w, w ∈ sc_workspaces sc' -> w ∈ sc_workspaces sc) ->
    covers sc' r = true -> covers sc r = true).
  { intros sc sc' Hd Hw. unfold covers. rewrite !orb_true_iff, !bool_decide_eq_true. naive_solver. }
  destruct pass; unfold candidate; rewrite ?(col_budget _ _ _ _ col); [done|..].
  - rewrite !andb_true_iff. intros [? Hc]. split; [done|]. revert Hc. apply Hcov.
    + apply collected_daemon_pressure.
    + intros w. rewrite !elem_of_pressured. intros [[u' Hu'] Hp]. split; [|by apply collected_pressure].
      destruct (collected_workspace w u' Hu') as (u & ? & _). eauto.
  - apply Hcov; [apply collected_over_hard_daemon|].
    intros w. rewrite !elem_of_over_hard. intros (u' & Hu' & Ho).
    destruct (collected_workspace w u' Hu') as (u & ? & Hle). exists u. split; [done|].
    rewrite (col_budget _ _ _ _ col) in Ho. by eapply over_hard_mono.
Qed.

Lemma collected_no_victim pass : next_victim now pass l = None -> next_victim now pass l' = None.
Proof.
  rewrite !next_victim_None. intros H t r Hr.
  destruct (candidate now pass l' r) eqn:E; [|done]. apply collected_candidate in E.
  rewrite (H t r) in E; [done|]. eapply lookup_weaken; [done|]. apply (col_subset _ _ _ _ col).
Qed.
End falling.

(** ** Collection *)
Definition within_caps (l : RetentionLedger) : Prop :=
  over_hard_daemon l = false /\
  forall w u, rl_workspaces l !! w = Some u -> over_hard_usage (rl_budget l) u = false.

Lemma within_caps_no_emergency now l : within_caps l -> next_victim now Pass.Emergency l = None.
Proof.
  intros [Hd Hw]. apply next_victim_None. intros t r _. cbn [candidate]. unfold covers.
  apply orb_false_iff. split; [exact Hd|]. apply bool_decide_eq_false. rewrite elem_of_over_hard.
  intros (u & Hu & Ho). rewrite (Hw _ _ Hu) in Ho. done.
Qed.

Lemma within_caps_collected now l new l' :
  accounted l -> collected now l new l' -> within_caps l -> within_caps l'.
Proof.
  intros A C [Hd Hw]. split.
  - destruct (over_hard_daemon l') eqn:E; [|done].
    by rewrite (collected_over_hard_daemon _ _ _ _ A C E) in Hd.
  - intros w u' Hu'. destruct (collected_workspace _ _ _ _ A C w u' Hu') as (u & Hu & Hle).
    destruct (over_hard_usage (rl_budget l') u') eqn:E; [|done].
    apply (over_hard_mono (rl_budget l') u u' Hle) in E. rewrite (col_budget _ _ _ _ C) in E.
    by rewrite (Hw w u Hu) in E.
Qed.

Lemma collect_spec now l :
  accounted l -> exists report l',
    collect now l = Some (report, l') /\ collected now l (gr_evicted report) l' /\
    length (gr_evicted report) <= max_gc_batch (rl_budget l) /\
    (gr_truncated report = false -> forall pass, next_victim now pass l' = None) /\
    (within_caps l -> forall m, m ∈ gr_evicted report -> em_reason m <> EmergencyEviction).
Proof.
  intros A. unfold collect.
  destruct (run_pass_spec (gc_fuel l) now Pass.Aged (MkGcReport [] false) l A) as
    (n1 & t1 & l1 & E1 & C1 & B1 & T1 & M1); [unfold gc_fuel; lia|simpl; lia|].
  rewrite E1. cbn [mbind option_bind snd gr_evicted] in *. rewrite app_nil_l in *.
  assert (A1 := col_accounted _ _ _ _ C1 A). rewrite <- (col_budget _ _ _ _ C1) in B1.
  destruct (run_pass_spec (gc_fuel l1) now Pass.Pressure (MkGcReport n1 t1) l1 A1) as
    (n2 & t2 & l2 & E2 & C2 & B2 & T2 & M2); [unfold gc_fuel; lia|done|].
  rewrite E2. cbn [mbind option_bind snd gr_evicted gr_truncated] in *.
  assert (A2 := col_accounted _ _ _ _ C2 A1). rewrite <- (col_budget _ _ _ _ C2) in B2.
  destruct (run_pass_spec (gc_fuel l2) now Pass.Emergency (MkGcReport (n1 ++ n2) t2) l2 A2) as
    (n3 & t3 & l3 & E3 & C3 & B3 & T3 & M3); [unfold gc_fuel; lia|done|].
  rewrite E3. cbn [gr_evicted gr_truncated] in *.
  assert (C12 := collected_trans _ _ _ _ _ _ C1 C2).
  exists (MkGcReport ((n1 ++ n2) ++ n3) t3), l3. cbn [gr_evicted gr_truncated].
  rewrite (col_budget _ _ _ _ C2), (col_budget _ _ _ _ C1) in B3.
  split_and!; [done|by eapply collected_trans|done|..].
  - intros ->. destruct (T3 eq_refl) as [V3 ->]. destruct (T2 eq_refl) as [V2 ->].
    destruct (T1 eq_refl) as [V1 _]. intros [].
    + eapply collected_no_victim; [exact A2|exact C3|]. eapply collected_no_victim; [exact A1|exact C2|exact V1].
    + eapply collected_no_victim; [exact A2|exact C3|done].
    + done.
  - intros W m Hm. apply elem_of_app in Hm as [[Hm|Hm]%elem_of_app|Hm].
    + by rewrite (M1 m Hm).
    + by rewrite (M2 m Hm).
    + assert (W2 := within_caps_collected _ _ _ _ A C12 W).
      apply within_caps_no_emergency with (now := now) in W2.
      unfold gc_fuel in E3. cbn [run_pass gr_evicted gr_truncated] in E3.
      assert (Hn : n1 ++ n2 = (n1 ++ n2) ++ n3)
        by (destruct (_ <=? _) in E3; [|rewrite W2 in E3]; congruence).
      apply (f_equal length) in Hn. rewrite !length_app in Hn.
      destruct n3 as [|m' n3]; [by apply not_elem_of_nil in Hm|simpl in Hn; lia].
Qed.
