(* ===== verification/RetentionSpec.v ===== *)
(** * The contract of terminal retention

    The owner's operations as one alphabet: an admitted daemon never exceeds its
    hard caps, never makes room by deleting a final somebody may still want, and
    never loses one silently. *)
From S2P Require Export TerminalRetentionLaws.
Import TerminalLedger.

(** ** The owner's operations *)
Inductive op : Type :=
| Reserve (now : DateTime) (t : TerminalRef)
| Release (t : TerminalRef)
| Forget (t : TerminalRef)
| Commit (t : TerminalRef) (kind : TerminalKind) (bytes : N) (exited_at : DateTime)
| NoteVisibility (t : TerminalRef) (state : visibility_state)
| Supersede (t : TerminalRef)
| Pin (t : TerminalRef) (pinned : bool)
| Collect (now : DateTime)
| Import (r : RetainedFinal).

Definition perform (l : RetentionLedger) (o : op) : RetentionLedger :=
  match o with
  | Reserve now t => snd (reserve now t l)
  | Release t => snd (release t l)
  | Forget t => snd (forget t l)
  | Commit t kind bytes at_ => snd (commit_final t kind bytes at_ l)
  | NoteVisibility t state => snd (note_visibility t state l)
  | Supersede t => snd (mark_superseded t l)
  | Pin t pinned => snd (set_pinned t pinned l)
  | Collect now => from_option snd l (collect now l)
  | Import r => import_existing r l
  end.

(** What an operation adds fits the 64-bit counters. *)
Definition op_fits (o : op) (l : RetentionLedger) : Prop :=
  match o with
  | Reserve _ _ => room (worst_case_final_bytes (rl_budget l)) l
  | Commit t _ bytes _ => room bytes (snd (release t l))
  | Import r => room (rf_bytes r) l
  | _ => True
  end.

(** ** Usage that only falls *)
Definition lighter (l l' : RetentionLedger) : Prop :=
  rl_budget l' = rl_budget l /\
  (exact_count (rl_daemon l') <= exact_count (rl_daemon l))%N /\
  (exact_bytes (rl_daemon l') <= exact_bytes (rl_daemon l))%N /\
  (forall w, exact_count (usage_in w l') <= exact_count (usage_in w l))%N /\
  (forall w, exact_bytes (usage_in w l') <= exact_bytes (usage_in w l))%N.

Lemma lighter_refl l : lighter l l.
Proof. unfold lighter. split_and!; try done; intros; lia. Qed.

Lemma lighter_trans l1 l2 l3 : lighter l1 l2 -> lighter l2 l3 -> lighter l1 l3.
Proof.
  intros (? & ? & ? & C1 & B1) (? & ? & ? & C2 & B2). unfold lighter.
  split_and!; [congruence|lia|lia|..]; intros w.
  - specialize (C1 w). specialize (C2 w). lia.
  - specialize (B1 w). specialize (B2 w). lia.
Qed.

Lemma lighter_same l l' :
  rl_budget l' = rl_budget l -> rl_daemon l' = rl_daemon l -> rl_workspaces l' = rl_workspaces l ->
  lighter l l'.
Proof.
  intros ? Ed Ew. unfold lighter, usage_in. rewrite Ed, Ew. split_and!; try done; intros; lia.
Qed.

Lemma usage_exact_mono u v :
  usage_leq u v -> (exact_count u <= exact_count v)%N /\ (exact_bytes u <= exact_bytes v)%N.
Proof. unfold usage_leq, exact_count, exact_bytes. lia. Qed.

Lemma lighter_collected now l new l' : accounted l -> collected now l new l' -> lighter l l'.
Proof.
  intros A C. assert (A' := col_accounted _ _ _ _ C A).
  assert (Hw : forall w, usage_leq (usage_in w l') (usage_in w l)).
  { intros w. rewrite (acc_workspaces _ A'), (acc_workspaces _ A), (col_reservations _ _ _ _ C).
    apply usage_of_subset, (col_subset _ _ _ _ C). }
  destruct (usage_exact_mono _ _ (collected_daemon _ _ _ _ A C)).
  split_and!; [apply (col_budget _ _ _ _ C)|done|done|..]; intros w;
    apply (usage_exact_mono _ _ (Hw w)).
Qed.

Lemma lighter_adjust w f l :
  (forall u, usage_leq (f u) u) -> lighter l (adjust w f l).
Proof.
  intros Hf. destruct (usage_exact_mono _ _ (Hf (rl_daemon l))) as [H1 H2].
  assert (H : forall w', (exact_count (usage_in w' (adjust w f l)) <= exact_count (usage_in w' l))%N /\
                         (exact_bytes (usage_in w' (adjust w f l)) <= exact_bytes (usage_in w' l))%N).
  { intros w'. unfold adjust, usage_in. cbn [rl_workspaces set_usage].
    destruct (decide (w' = w)) as [->|Hn].
    - destruct (is_idle _); rewrite ?lookup_delete_eq, ?lookup_insert_eq; cbn [default from_option id].
      + unfold exact_count, exact_bytes; cbn; lia.
      + apply usage_exact_mono, Hf.
    - destruct (is_idle _); rewrite ?lookup_delete_ne, ?lookup_insert_ne by done; lia. }
  unfold lighter. split_and!; try done; intros w'; apply H.
Qed.

Lemma lighter_take t l o l' : take_final t l = (o, l') -> lighter l l'.
Proof.
  unfold take_final. destruct (rl_finals l !! t) as [r|]; intros [= <- <-]; [|apply lighter_refl].
  eapply lighter_trans; [|apply lighter_adjust].
  - by apply lighter_same.
  - intros u. unfold usage_leq; cbn. lia.
Qed.

Lemma lighter_release t l b l' : release t l = (b, l') -> lighter l l'.
Proof.
  unfold release. destruct (rl_reservations l !! t) as [r|]; intros [= <- <-]; [|apply lighter_refl].
  eapply lighter_trans; [|apply lighter_adjust].
  - by apply lighter_same.
  - intros u. unfold usage_leq; cbn. lia.
Qed.

Lemma lighter_room bytes l l' : lighter l l' -> room bytes l -> room bytes l'.
Proof. intros (_ & ? & ? & _) [? ?]. unfold room. lia. Qed.

(** ** Each operation, exactly *)
Lemma exact_usage P fs rs :
  exact_count (usage_of P fs rs) =
    (msum (fun t _ => where_ P 1 t) fs + msum (fun t _ => where_ P 1 t) rs)%N /\
  exact_bytes (usage_of P fs rs) =
    (msum (fun t r => where_ P (rf_bytes r) t) fs + msum (fun t b => where_ P b t) rs)%N.
Proof. done. Qed.

Lemma take_final_gone t l o l' : take_final t l = (o, l') -> rl_finals l' !! t = None.
Proof.
  unfold take_final. destruct (rl_finals l !! t) as [r|] eqn:E; intros [= <- <-]; [|done].
  cbn. apply lookup_delete_eq.
Qed.

Lemma take_final_rest t l o l' :
  take_final t l = (o, l') ->
  rl_reservations l' = rl_reservations l /\ rl_budget l' = rl_budget l /\
  rl_finals l' = delete t (rl_finals l) /\ o = rl_finals l !! t /\
  rl_markers l' = rl_markers l /\ rl_marker_order l' = rl_marker_order l /\
  rl_counters l' = rl_counters l.
Proof.
  unfold take_final. destruct (rl_finals l !! t) as [r|] eqn:E; intros [= <- <-]; [done|].
  by rewrite delete_id.
Qed.

Lemma release_rest t l b l' :
  release t l = (b, l') ->
  rl_reservations l' = delete t (rl_reservations l) /\ rl_budget l' = rl_budget l /\
  rl_finals l' = rl_finals l /\ b = is_reserved t l /\
  rl_markers l' = rl_markers l /\ rl_marker_order l' = rl_marker_order l /\
  rl_counters l' = rl_counters l.
Proof.
  unfold release, is_reserved. destruct (rl_reservations l !! t) as [r|] eqn:E; intros [= <- <-].
  - by rewrite bool_decide_true by eauto.
  - rewrite delete_id by done. by rewrite bool_decide_false by (by intros [? ?]).
Qed.

Lemma accounted_forget t l : accounted l -> accounted (snd (forget t l)) /\ lighter l (snd (forget t l)).
Proof.
  intros A. unfold forget. destruct (release t l) as [b l1] eqn:E1.
  destruct (take_final t l1) as [o l2] eqn:E2. cbn [snd].
  assert (A1 := accounted_release _ _ _ _ A E1). assert (A2 := accounted_take_final _ _ _ _ A1 E2).
  split.
  - by refine (accounted_same l2 _ A2 _ _ _ _).
  - eapply lighter_trans; [by eapply lighter_release|].
    eapply lighter_trans; [by eapply lighter_take|]. by apply lighter_same.
Qed.

(** The ledger a commit inserts its record in, and the record. *)
Definition committed_record (t : TerminalRef) (kind : TerminalKind) (bytes : N) (at_ : DateTime)
    (previous : option RetainedFinal) : RetainedFinal :=
  match previous with
  | None => RetainedFinal_new t kind bytes at_
  | Some previous =>
      set_rf_pinned (rf_pinned previous)
        (set_rf_superseded (rf_superseded previous)
           (set_rf_visibility
              (TerminalVisibilityState.merge TerminalVisibilityState.Unobserved
                 (rf_visibility previous)) (RetainedFinal_new t kind bytes at_)))
  end.

Lemma committed_record_fields t kind bytes at_ previous :
  rf_terminal (committed_record t kind bytes at_ previous) = t /\
  rf_bytes (committed_record t kind bytes at_ previous) = bytes /\
  rf_kind (committed_record t kind bytes at_ previous) = kind /\
  rf_exited_at (committed_record t kind bytes at_ previous) = at_.
Proof. by destruct previous. Qed.

Lemma commit_final_eq t kind bytes at_ l b l1 o l2 :
  release t l = (b, l1) ->
  let over := (bytes - worst_case_final_bytes (rl_budget l))%N in
  take_final t (set_counters (count_commit b over (rl_counters l1)) l1) = (o, l2) ->
  commit_final t kind bytes at_ l =
    (MkFinalCommit b over, insert_final (committed_record t kind bytes at_ (rl_finals l !! t)) l2).
Proof.
  intros E1 over E2. unfold commit_final. rewrite E1.
  destruct (release_rest _ _ _ _ E1) as (_ & Eb & Ef & _). rewrite Eb. fold over. rewrite E2.
  destruct (take_final_rest _ _ _ _ E2) as (_ & _ & _ & -> & _). cbn [rl_finals set_counters].
  by rewrite Ef.
Qed.

Lemma accounted_set_counters c l : accounted l -> accounted (set_counters c l).
Proof. intros A. by refine (accounted_same l _ A _ _ _ _). Qed.

Lemma commit_final_spec t kind bytes at_ l :
  accounted l -> room bytes (snd (release t l)) ->
  accounted (snd (commit_final t kind bytes at_ l)) /\
  rl_budget (snd (commit_final t kind bytes at_ l)) = rl_budget l /\
  rl_reservations (snd (commit_final t kind bytes at_ l)) = delete t (rl_reservations l) /\
  rl_finals (snd (commit_final t kind bytes at_ l)) =
    <[t := committed_record t kind bytes at_ (rl_finals l !! t)]> (rl_finals l) /\
  rl_markers (snd (commit_final t kind bytes at_ l)) = rl_markers l /\
  rl_marker_order (snd (commit_final t kind bytes at_ l)) = rl_marker_order l /\
  ct_forgotten_markers (rl_counters (snd (commit_final t kind bytes at_ l))) =
    ct_forgotten_markers (rl_counters l).
Proof.
  intros A R. destruct (release t l) as [b l1] eqn:E1.
  destruct (take_final t (set_counters (count_commit b (bytes - worst_case_final_bytes (rl_budget l))%N
    (rl_counters l1)) l1)) as [o l2] eqn:E2.
  rewrite (commit_final_eq _ _ _ _ _ _ _ _ _ E1 E2). cbn [snd].
  destruct (committed_record_fields t kind bytes at_ (rl_finals l !! t)) as (Ft & Fb & _).
  assert (A1 := accounted_release _ _ _ _ A E1).
  assert (A2 := accounted_take_final _ _ _ _ (accounted_set_counters _ _ A1) E2).
  destruct (release_rest _ _ _ _ E1) as (R1 & B1 & F1 & _ & M1 & O1 & C1).
  destruct (take_final_rest _ _ _ _ E2) as (R2 & B2 & F2 & _ & M2 & O2 & C2).
  cbn [rl_reservations rl_budget rl_finals rl_markers rl_marker_order rl_counters set_counters] in *.
  split_and!.
  - apply accounted_insert_final; [done| |].
    + rewrite Ft. by eapply take_final_gone.
    + rewrite Fb. cbn [snd] in R. eapply lighter_room; [|exact R].
      eapply lighter_trans; [|by eapply lighter_take]. by apply lighter_same.
  - cbn. congruence.
  - cbn. congruence.
  - cbn. rewrite Ft, F2, F1, insert_delete_eq. done.
  - cbn. congruence.
  - cbn. congruence.
  - cbn. rewrite C2. cbn. by rewrite C1.
Qed.

Lemma import_spec r l :
  accounted l -> room (rf_bytes r) l -> accounted (import_existing r l).
Proof.
  intros A R. unfold import_existing. destruct (take_final (rf_terminal r) l) as [o l1] eqn:E. cbn [snd].
  apply accounted_insert_final.
  - assert (A1 := accounted_take_final _ _ _ _ A E). by refine (accounted_same l1 _ A1 _ _ _ _).
  - exact (take_final_gone _ _ _ _ E).
  - eapply lighter_room; [|exact R].
    eapply lighter_trans; [by eapply lighter_take|]. by apply lighter_same.
Qed.

(** A reservation comes after an optional collection. *)
Definition pressed (now : DateTime) (t : TerminalRef) (l : RetentionLedger) : RetentionLedger :=
  if negb (is_ok (headroom (tr_workspace_id t) l)) || under_soft_pressure l
  then from_option snd l (collect now l) else l.

Lemma pressed_collected now t l :
  accounted l -> exists new, collected now l new (pressed now t l) /\
    (within_caps l -> forall m, m ∈ new -> em_reason m <> EmergencyEviction).
Proof.
  intros A. unfold pressed. destruct (_ || _).
  - destruct (collect_spec now l A) as (report & l' & -> & C & _ & _ & W). eauto.
  - exists []. split; [apply collected_refl|]. by intros _ m ?%not_elem_of_nil.
Qed.

Lemma reserve_cases now t l :
  (is_reserved t l = true /\ reserve now t l = (Ok tt, l)) \/
  (is_reserved t l = false /\ exists rejection,
     headroom (tr_workspace_id t) (pressed now t l) = Err rejection /\
     reserve now t l = (Err rejection,
       set_counters (count_rejection (rl_counters (pressed now t l))) (pressed now t l))) \/
  (is_reserved t l = false /\ headroom (tr_workspace_id t) (pressed now t l) = Ok tt /\
   let l1 := pressed now t l in let bytes := worst_case_final_bytes (rl_budget l1) in
   reserve now t l = (Ok tt, adjust (tr_workspace_id t) (add_reservation bytes)
     (set_reservations (<[t := bytes]> (rl_reservations l1)) l1))).
Proof.
  unfold reserve. destruct (is_reserved t l) eqn:Er; [by left|right].
  fold (pressed now t l). destruct (headroom _ (pressed now t l)) as [[]|rejection]; [right|left]; eauto.
Qed.

Lemma not_reserved t l : is_reserved t l = false -> rl_reservations l !! t = None.
Proof.
  unfold is_reserved. intros H%bool_decide_eq_false. by apply eq_None_not_Some.
Qed.

Lemma reserve_accounted now t l :
  accounted l -> room (worst_case_final_bytes (rl_budget l)) l -> accounted (snd (reserve now t l)).
Proof.
  intros A R. destruct (pressed_collected now t l A) as (new & C & _).
  assert (A1 := col_accounted _ _ _ _ C A).
  destruct (reserve_cases now t l) as [[_ ->]|[(_ & rj & _ & ->)|(Hr & _ & ->)]]; cbn [snd]; [done|..].
  - by apply accounted_set_counters.
  - apply accounted_add_reservation; [done| |].
    + rewrite (col_reservations _ _ _ _ C). by apply not_reserved.
    + rewrite (col_budget _ _ _ _ C). eapply lighter_room; [|exact R]. by eapply lighter_collected.
Qed.

(** Every operation keeps the books exact. *)
Lemma perform_accounted l o : accounted l -> op_fits o l -> accounted (perform l o).
Proof.
  intros A F. destruct o as [now t|t|t|t kind bytes at_|t st|t|t p|now|r]; cbn [perform op_fits] in *.
  - by apply reserve_accounted.
  - destruct (release t l) eqn:E. by eapply accounted_release.
  - by apply accounted_forget.
  - by apply commit_final_spec.
  - destruct (note_visibility t st l) eqn:E. by eapply accounted_update; [..|exact E].
  - destruct (mark_superseded t l) eqn:E. by eapply accounted_update; [..|exact E].
  - destruct (set_pinned t p l) eqn:E. by eapply accounted_update; [..|exact E].
  - destruct (collect_spec now l A) as (report & l' & -> & C & _). cbn. by apply (col_accounted _ _ _ _ C).
  - by apply import_spec.
Qed.

(** ** The hard caps *)
Definition sane (b : RetentionBudget) : Prop :=
  (max_finals b < U64_MAX)%N /\ (max_bytes b < U64_MAX)%N /\
  (max_finals_per_workspace b <= max_finals b)%N /\
  (max_bytes_per_workspace b <= max_bytes b)%N /\
  (min_visibility_ttl_secs b <= max_final_age_secs b)%Z.

Lemma normalized_sane b :
  (max_finals b < U64_MAX)%N -> (max_bytes b < U64_MAX)%N ->
  (worst_case_final_bytes b < U64_MAX)%N -> sane (normalized b).
Proof. unfold sane, normalized, clampN, clampZ; cbn. unfold U64_MAX. lia. Qed.

Definition exact_caps (l : RetentionLedger) : Prop :=
  (exact_count (rl_daemon l) <= max_finals (rl_budget l))%N /\
  (exact_bytes (rl_daemon l) <= max_bytes (rl_budget l))%N /\
  forall w, (exact_count (usage_in w l) <= max_finals_per_workspace (rl_budget l))%N /\
            (exact_bytes (usage_in w l) <= max_bytes_per_workspace (rl_budget l))%N.

Lemma exact_saturated u :
  (exact_count u <= U64_MAX)%N -> (exact_bytes u <= U64_MAX)%N ->
  usage_count u = exact_count u /\ total_bytes u = exact_bytes u.
Proof. unfold usage_count, total_bytes, exact_count, exact_bytes, saturating_add. lia. Qed.

Lemma usage_in_exact w l :
  accounted l -> usage_count (usage_in w l) = exact_count (usage_in w l) /\
                 total_bytes (usage_in w l) = exact_bytes (usage_in w l).
Proof.
  intros A. destruct (acc_fits _ A) as [F1 F2]. destruct (usage_in_le w l A) as (? & ? & ? & ?).
  apply exact_saturated; unfold exact_count, exact_bytes in *; lia.
Qed.

Lemma daemon_exact l :
  accounted l -> usage_count (rl_daemon l) = exact_count (rl_daemon l) /\
                 total_bytes (rl_daemon l) = exact_bytes (rl_daemon l).
Proof. intros A. apply exact_saturated; apply (acc_fits _ A). Qed.

Lemma caps_exact l : accounted l -> within_caps l <-> exact_caps l.
Proof.
  intros A. destruct (daemon_exact l A) as [E1 E2]. unfold within_caps, exact_caps, over_hard_daemon.
  rewrite orb_false_iff, !N.ltb_ge, E1, E2. split.
  - intros [[? ?] Hw]. split_and!; [done..|]. intros w.
    destruct (usage_in_exact w l A) as [<- <-]. unfold usage_in.
    destruct (rl_workspaces l !! w) as [u|] eqn:Eu; cbn [default from_option id].
    + specialize (Hw w u Eu). unfold over_hard_usage in Hw.
      apply orb_false_iff in Hw as [?%N.ltb_ge ?%N.ltb_ge]. done.
    + unfold usage_count, total_bytes, saturating_add; cbn. lia.
  - intros (? & ? & Hw). split; [done|]. intros w u Eu. destruct (Hw w) as [H1 H2].
    destruct (usage_in_exact w l A) as [E3 E4]. unfold usage_in in *. rewrite Eu in *. cbn in *.
    unfold over_hard_usage. rewrite orb_false_iff, !N.ltb_ge. lia.
Qed.

Lemma lighter_caps l l' : lighter l l' -> exact_caps l -> exact_caps l'.
Proof.
  intros (Eb & H1 & H2 & H3 & H4) (C1 & C2 & Cw). unfold exact_caps. rewrite Eb.
  split_and!; [lia|lia|]. intros w. specialize (H3 w). specialize (H4 w).
  destruct (Cw w). lia.
Qed.

Record managed (l : RetentionLedger) : Prop := MkManaged {
  mg_accounted : accounted l;
  mg_caps : exact_caps l;
  mg_reserved : forall t b, rl_reservations l !! t = Some b -> b = worst_case_final_bytes (rl_budget l);
  mg_sane : sane (rl_budget l);
}.

Lemma saturating_below x y m :
  (m <? saturating_add x y)%N = false -> (m < U64_MAX)%N -> (x + y <= m)%N.
Proof. rewrite N.ltb_ge. unfold saturating_add. lia. Qed.

Lemma headroom_ok l t :
  accounted l -> exact_caps l -> sane (rl_budget l) -> headroom (tr_workspace_id t) l = Ok tt ->
  let b := rl_budget l in let u := usage_in (tr_workspace_id t) l in
  (exact_count (rl_daemon l) + 1 <= max_finals b)%N /\
  (exact_bytes (rl_daemon l) + worst_case_final_bytes b <= max_bytes b)%N /\
  (exact_count u + 1 <= max_finals_per_workspace b)%N /\
  (exact_bytes u + worst_case_final_bytes b <= max_bytes_per_workspace b)%N.
Proof.
  intros A C (S1 & S2 & S3 & S4 & _). unfold headroom. fold (usage_in (tr_workspace_id t) l).
  destruct (daemon_exact l A) as [-> ->].
  destruct (usage_in_exact (tr_workspace_id t) l A) as [-> ->].
  destruct (max_finals _ <? _)%N eqn:E1; [done|]. destruct (max_bytes _ <? _)%N eqn:E2; [done|].
  destruct (max_finals_per_workspace _ <? _)%N eqn:E3; [done|].
  destruct (max_bytes_per_workspace _ <? _)%N eqn:E4; [done|]. intros _.
  split_and!; (eapply saturating_below; [eassumption|lia]).
Qed.

Lemma usage_with_reservation P fs rs t b :
  rs !! t = None ->
  exact_count (usage_of P fs (<[t := b]> rs)) = (exact_count (usage_of P fs rs) + where_ P 1 t)%N /\
  exact_bytes (usage_of P fs (<[t := b]> rs)) = (exact_bytes (usage_of P fs rs) + where_ P b t)%N.
Proof.
  intros Hn. rewrite !(proj1 (exact_usage _ _ _)), !(proj2 (exact_usage _ _ _)).
  rewrite !msum_insert by done. lia.
Qed.

Lemma msum_insert_le {K A} `{Countable K} (f : K -> A -> N) (m : gmap K A) k x :
  (msum f (<[k := x]> m) <= f k x + msum f m)%N.
Proof.
  destruct (m !! k) as [y|] eqn:E.
  - assert (Hr := msum_replace f m k y x E). lia.
  - by rewrite msum_insert.
Qed.

(** An exit takes the place of its reservation. *)
Lemma usage_commit P fs rs t r b :
  rs !! t = Some b -> (rf_bytes r <= b)%N ->
  (exact_count (usage_of P (<[t := r]> fs) (delete t rs)) <= exact_count (usage_of P fs rs))%N /\
  (exact_bytes (usage_of P (<[t := r]> fs) (delete t rs)) <= exact_bytes (usage_of P fs rs))%N.
Proof.
  intros Hr Hb. rewrite !(proj1 (exact_usage _ _ _)), !(proj2 (exact_usage _ _ _)).
  rewrite (msum_delete (fun t _ => where_ P 1 t) rs t b Hr),
    (msum_delete (fun t b => where_ P b t) rs t b Hr).
  assert (H1 := msum_insert_le (fun t (_ : RetainedFinal) => where_ P 1 t) fs t r).
  assert (H2 := msum_insert_le (fun t r => where_ P (rf_bytes r) t) fs t r).
  cbn in H1, H2. unfold where_ in *. destruct (P t); lia.
Qed.

(** Work the daemon admitted: a final is committed into a reservation and keeps
    to the worst case, and nothing is imported. *)
Definition admitted (o : op) (l : RetentionLedger) : Prop :=
  match o with
  | Commit t _ bytes _ => is_reserved t l = true /\ (bytes <= worst_case_final_bytes (rl_budget l))%N
  | Import _ => False
  | _ => True
  end.

Lemma managed_lighter l l' :
  managed l -> accounted l' -> lighter l l' ->
  (forall t b, rl_reservations l' !! t = Some b -> rl_reservations l !! t = Some b) -> managed l'.
Proof.
  intros [A C R S] A' L Hr. destruct (L) as [Eb _]. split; [done|by eapply lighter_caps| |by rewrite Eb].
  intros t b Ht. rewrite Eb. eauto.
Qed.

Lemma managed_reserve now t l : managed l -> managed (snd (reserve now t l)).
Proof.
  intros M. destruct M as [A C R S]. destruct (pressed_collected now t l A) as (new & Col & _).
  assert (A1 := col_accounted _ _ _ _ Col A). assert (L1 := lighter_collected _ _ _ _ A Col).
  assert (C1 := lighter_caps _ _ L1 C). assert (Eb := col_budget _ _ _ _ Col).
  assert (S1 : sane (rl_budget (pressed now t l))) by by rewrite Eb.
  assert (R1 : forall t' b, rl_reservations (pressed now t l) !! t' = Some b ->
            b = worst_case_final_bytes (rl_budget (pressed now t l))).
  { intros t' b. rewrite Eb, (col_reservations _ _ _ _ Col). apply R. }
  destruct (reserve_cases now t l) as [[_ ->]|[(_ & rj & _ & ->)|(Hr & Hh & ->)]]; cbn [snd].
  - by split.
  - split; [by apply accounted_set_counters|done..].
  - set (l1 := pressed now t l) in *.
    destruct (headroom_ok l1 t A1 C1 S1 Hh) as (H1 & H2 & H3 & H4).
    assert (Hn : rl_reservations l1 !! t = None).
    { rewrite (col_reservations _ _ _ _ Col). by apply not_reserved. }
    assert (A2 : accounted (adjust (tr_workspace_id t) (add_reservation (worst_case_final_bytes (rl_budget l1)))
       (set_reservations (<[t := worst_case_final_bytes (rl_budget l1)]> (rl_reservations l1)) l1))).
    { apply accounted_add_reservation; [done..|]. destruct S1 as (? & ? & _). unfold room. lia. }
    split; [done| |intros t' b; cbn|done].
    + unfold exact_caps. rewrite (acc_daemon _ A2).
      setoid_rewrite (acc_workspaces _ A2). cbn [rl_finals rl_reservations adjust set_usage
        set_reservations rl_budget].
      destruct (usage_with_reservation everywhere (rl_finals l1) _ t
        (worst_case_final_bytes (rl_budget l1)) Hn) as [-> ->].
      rewrite <- (acc_daemon _ A1). unfold where_ at 1 2, everywhere. split_and!; [lia|lia|].
      intros w. destruct (usage_with_reservation (inside w) (rl_finals l1) _ t
        (worst_case_final_bytes (rl_budget l1)) Hn) as [-> ->].
      rewrite <- (acc_workspaces _ A1). destruct C1 as (_ & _ & Cw). specialize (Cw w).
      unfold where_, inside. case_bool_decide as Hw; [subst w; lia|]. lia.
    + intros [[-> <-]|[_ Hb]]%lookup_insert_Some; [done|]. by apply (R1 t').
Qed.

Lemma managed_commit t kind bytes at_ l :
  managed l -> is_reserved t l = true -> (bytes <= worst_case_final_bytes (rl_budget l))%N ->
  managed (snd (commit_final t kind bytes at_ l)).
Proof.
  intros [A C R S] Hr Hb. apply bool_decide_eq_true in Hr as [b Hr]. assert (Eb := R t b Hr).
  set (r := committed_record t kind bytes at_ (rl_finals l !! t)).
  destruct (committed_record_fields t kind bytes at_ (rl_finals l !! t)) as (_ & Fb & _).
  destruct (usage_commit everywhere (rl_finals l) _ t r b Hr) as [U1 U2]; [unfold r; lia|].
  assert (Hroom : room bytes (snd (release t l))).
  { destruct (release t l) as [x l1] eqn:E1. cbn [snd].
    assert (A1 := accounted_release _ _ _ _ A E1).
    destruct (release_rest _ _ _ _ E1) as (Er & _ & Ef & _).
    assert (Hu := usage_with_reservation everywhere (rl_finals l) (delete t (rl_reservations l)) t b
      (lookup_delete_eq _ _)).
    rewrite insert_delete_id in Hu by done. destruct Hu as [Hu1 Hu2].
    change (where_ everywhere 1 t) with 1%N in Hu1. change (where_ everywhere b t) with b in Hu2.
    destruct (acc_fits _ A) as [F1 F2].
    unfold room. rewrite (acc_daemon _ A1), Er, Ef. rewrite (acc_daemon _ A) in F1, F2.
    lia. }
  destruct (commit_final_spec t kind bytes at_ l A Hroom) as (A' & Eb' & Er & Ef & _).
  split; [done| | |by rewrite Eb'].
  - destruct C as (C1 & C2 & Cw). unfold exact_caps. rewrite Eb', (acc_daemon _ A'), Er, Ef.
    rewrite (acc_daemon _ A) in C1, C2. fold r. split_and!; [lia|lia|]. intros w.
    rewrite (acc_workspaces _ A'), Er, Ef. fold r. specialize (Cw w).
    rewrite (acc_workspaces _ A) in Cw.
    destruct (usage_commit (inside w) (rl_finals l) _ t r b Hr); [unfold r; lia|]. lia.
  - intros t' b'. rewrite Er, Eb'. intros [_ ?]%lookup_delete_Some. eauto.
Qed.

Lemma managed_update t f l :
  (forall r, rf_terminal (f r) = rf_terminal r /\ rf_bytes (f r) = rf_bytes r) ->
  managed l -> managed (snd (update_final t f l)).
Proof.
  intros Hf M. destruct (update_final t f l) as [b l'] eqn:E. cbn [snd].
  assert (A' := accounted_update _ _ _ _ _ (mg_accounted _ M) Hf E).
  unfold update_final in E. destruct (rl_finals l !! t) as [r|]; injection E as <- <-; [|done].
  eapply managed_lighter; [done|done|by apply lighter_same|done].
Qed.

Lemma managed_perform l o : managed l -> admitted o l -> managed (perform l o).
Proof.
  intros M Adm. assert (A := mg_accounted _ M).
  destruct o as [now t|t|t|t kind bytes at_|t st|t|t p|now|r]; cbn [perform admitted] in *.
  - by apply managed_reserve.
  - destruct (release t l) as [b l'] eqn:E. cbn [snd].
    eapply managed_lighter; [done|by eapply accounted_release|by eapply lighter_release|].
    destruct (release_rest _ _ _ _ E) as (-> & _). by intros t' b' [_ ?]%lookup_delete_Some.
  - destruct (accounted_forget t l A) as [A' L]. eapply managed_lighter; [done..|].
    unfold forget. destruct (release t l) as [b l1] eqn:E1.
    destruct (take_final t l1) as [o l2] eqn:E2. cbn [snd rl_reservations set_markers].
    destruct (release_rest _ _ _ _ E1) as (Er1 & _). destruct (take_final_rest _ _ _ _ E2) as (-> & _).
    rewrite Er1. by intros t' b' [_ ?]%lookup_delete_Some.
  - destruct Adm. by apply managed_commit.
  - unfold note_visibility. apply managed_update; [intros r; split; reflexivity|exact M].
  - unfold mark_superseded. apply managed_update; [intros r; split; reflexivity|exact M].
  - unfold set_pinned. apply managed_update; [intros r; split; reflexivity|exact M].
  - destruct (collect_spec now l A) as (report & l' & -> & C & _). cbn [from_option snd].
    eapply managed_lighter; [done|by apply (col_accounted _ _ _ _ C)|by eapply lighter_collected|].
    by rewrite (col_reservations _ _ _ _ C).
  - done.
Qed.

Fixpoint admitted_run (os : list op) (l : RetentionLedger) : Prop :=
  match os with
  | [] => True
  | o :: os => admitted o l /\ admitted_run os (perform l o)
  end.

Lemma usage_of_empty P : usage_of P ∅ ∅ = Usage_default.
Proof. unfold usage_of. by rewrite !msum_empty. Qed.

Lemma managed_new b : sane (normalized b) -> managed (new b).
Proof.
  intros S. split; [split| |intros t x H; cbn in H; by rewrite lookup_empty in H|exact S].
  - intros t r H. cbn in H. by rewrite lookup_empty in H.
  - cbn [rl_daemon rl_finals rl_reservations new]. by rewrite usage_of_empty.
  - intros w. unfold usage_in. cbn [rl_workspaces rl_finals rl_reservations new].
    by rewrite lookup_empty, usage_of_empty.
  - intros w u H. cbn in H. by rewrite lookup_empty in H.
  - by vm_compute.
  - unfold exact_caps. cbn [rl_daemon rl_budget new].
    split_and!; [apply N.le_0_l|apply N.le_0_l|]. intros w. unfold usage_in. cbn [rl_workspaces new].
    rewrite lookup_empty. cbn [default from_option id]. split; apply N.le_0_l.
Qed.

Lemma managed_run os l : managed l -> admitted_run os l -> managed (foldl perform l os).
Proof.
  revert l. induction os as [|o os IH]; intros l M; cbn [foldl admitted_run]; [done|].
  intros [Adm Hr]. apply IH; [by apply managed_perform|done].
Qed.

(** C37: The hard caps hold.  A daemon that starts with an empty ledger, imports
    nothing, reserves before each spawn and commits each final, of no more bytes
    than the worst case its reservation was made for, into that reservation
    ([admitted]) never retains and reserves more finals or bytes than its caps,
    daemon-wide and in each workspace, and its books are the exact sums.  After
    such a history any exit is recorded, whatever its size and whether or not it
    was reserved; the caps still hold when it was admitted
    ([oversize_final_is_an_emergency] is the other case). *)
Theorem caps_never_exceeded b os t kind bytes at_ :
  sane (normalized b) -> admitted_run os (new b) ->
  let l := foldl perform (new b) os in
  within_caps l /\ accounted l /\
  let after := perform l (Commit t kind bytes at_) in
  (exists r, lookup_final t after = Retained r /\ rf_kind r = kind /\ rf_bytes r = bytes /\ rf_exited_at r = at_) /\
  (admitted (Commit t kind bytes at_) l -> within_caps after /\ accounted after).
Proof.
  intros S Hrun l. assert (M : managed l) by by apply managed_run; [apply managed_new|].
  assert (A := mg_accounted _ M). split; [apply caps_exact; [done|apply M]|]. split; [done|].
  intros after. split.
  2: { intros Adm. assert (M' := managed_perform _ _ M Adm). split; [apply caps_exact; apply M'|apply M']. }
  exists (committed_record t kind bytes at_ (rl_finals l !! t)).
  destruct (committed_record_fields t kind bytes at_ (rl_finals l !! t)) as (_ & Hb & Hk & Ha).
  split_and!; [|done..].
  unfold after, perform, lookup_final.
  destruct (release t l) as [x l1] eqn:E1.
  destruct (take_final t (set_counters (count_commit x (bytes - worst_case_final_bytes (rl_budget l))%N
    (rl_counters l1)) l1)) as [o l2] eqn:E2.
  rewrite (commit_final_eq _ _ _ _ _ _ _ _ _ E1 E2). cbn [snd insert_final adjust set_usage rl_finals set_finals].
  destruct (committed_record_fields t kind bytes at_ (rl_finals l !! t)) as (-> & _).
  by rewrite lookup_insert_eq.
Qed.

(** Capacity is never made out of history somebody may still want.  In a
    daemon within its caps, a final that a collection or a launch takes away was
    not pinned and had been visible for the minimum time, and the marker in its
    place says why. *)
Theorem collection_spares_the_visible l o t r :
  managed l -> (exists now t', o = Reserve now t') \/ (exists now, o = Collect now) ->
  rl_finals l !! t = Some r -> rl_finals (perform l o) !! t = None ->
  exists now, rf_pinned r = false /\ (min_visibility_ttl_secs (rl_budget l) <= age_secs now r)%Z /\
    (o = Collect now \/ exists t', o = Reserve now t').
Proof.
  intros M Ho Hr Hgone. assert (A := mg_accounted _ M).
  assert (W : within_caps l) by (apply caps_exact; [done|apply M]).
  assert (H : exists now new l', collected now l new l' /\ rl_finals l' !! t = None /\
    (within_caps l -> forall m, m ∈ new -> em_reason m <> EmergencyEviction) /\
    (o = Collect now \/ exists t', o = Reserve now t')).
  { destruct Ho as [(now & t' & ->)|[now ->]]; cbn [perform] in Hgone.
    - destruct (pressed_collected now t' l A) as (new & C & E). exists now, new, (pressed now t' l).
      split_and!; [done| |done|eauto].
      destruct (reserve_cases now t' l) as [[_ H]|[(_ & rj & _ & H)|(_ & _ & H)]]; rewrite H in Hgone.
      + cbn in Hgone. congruence.
      + done.
      + done.
    - destruct (collect_spec now l A) as (report & l' & E & C & _ & _ & E').
      rewrite E in Hgone. cbn in Hgone. exists now, (gr_evicted report), l'. eauto 10. }
  destruct H as (now & new & l' & C & Hn & E & Ho'). exists now.
  destruct (col_all _ _ _ _ C t r Hr) as [?|(m & -> & Hm)%list_elem_of_fmap]; [congruence|].
  destruct (col_markers _ _ _ _ C m Hm) as (r' & Hr' & _ & _ & _ & _ & Hreason).
  rewrite Hr in Hr'. injection Hr' as <-. specialize (E W m Hm).
  destruct (mg_sane _ M) as (_ & _ & _ & _ & Hage).
  unfold reason_holds in Hreason. destruct (em_reason m); [|naive_solver|done].
  destruct Hreason. split_and!; [done|lia|done].
Qed.

(** A collection is bounded and complete.  It always ends, evicts no more
    than its batch, keeps every final as it was or leaves exactly one marker of
    it, and when it does not report work left over, no final remains that is
    past its age, that could relieve a scope under pressure, or that lies in a
    scope over a hard cap. *)
Theorem collection_bounded_and_complete now l :
  accounted l -> exists report l', collect now l = Some (report, l') /\ accounted l' /\
    length (gr_evicted report) <= max_gc_batch (rl_budget l) /\
    NoDup (em_terminal <$> gr_evicted report) /\ rl_finals l' ⊆ rl_finals l /\
    (forall t r, rl_finals l !! t = Some r ->
       rl_finals l' !! t = Some r \/
       exists m, m ∈ gr_evicted report /\ em_terminal m = t /\ em_bytes m = rf_bytes r /\
         em_kind m = rf_kind r /\ rl_finals l' !! t = None) /\
    (gr_truncated report = false -> forall t r, rl_finals l' !! t = Some r ->
       (rf_pinned r = false -> (age_secs now r < max_final_age_secs (rl_budget l))%Z) /\
       (rf_pinned r = false -> (min_visibility_ttl_secs (rl_budget l) <= age_secs now r)%Z ->
        covers (pressured_scopes l') r = false) /\
       covers (over_hard_scopes l') r = false).
Proof.
  intros A. destruct (collect_spec now l A) as (report & l' & E & C & B & Hdone & _).
  assert (Eb := col_budget _ _ _ _ C).
  exists report, l'. split_and!; [done|by apply (col_accounted _ _ _ _ C)|done
    |apply (col_nodup _ _ _ _ C)|apply (col_subset _ _ _ _ C)| |].
  - intros t r Hr. destruct (col_all _ _ _ _ C t r Hr) as [?|(m & -> & Hm)%list_elem_of_fmap]; [by left|].
    right. destruct (col_markers _ _ _ _ C m Hm) as (r' & Hr' & ? & ? & ? & _).
    rewrite Hr in Hr'. injection Hr' as <-. eauto 10.
  - intros Ht t r Hr.
    assert (Hc : forall pass, candidate now pass l' r = false).
    { intros pass. exact (proj1 (next_victim_None now pass l') (Hdone Ht pass) t r Hr). }
    assert (H1 := Hc Pass.Aged). assert (H2 := Hc Pass.Pressure). assert (H3 := Hc Pass.Emergency).
    unfold candidate in H1, H2, H3. rewrite Eb in *. split_and!; [| |exact H3].
    + intros Hp. rewrite Hp in H1. by apply Z.leb_gt in H1.
    + intros Hp Hage. rewrite Hp in H2. apply Z.leb_le in Hage. by rewrite Hage in H2.
Qed.

Lemma answers_keep l l' :
  rl_counters l' = rl_counters l \/ ct_forgotten_markers (rl_counters l') = ct_forgotten_markers (rl_counters l) ->
  (forall t, known t l -> known t l') -> answers l l'.
Proof.
  intros Hc Hk. split; [|intros; auto]. destruct Hc as [->| ->]; lia.
Qed.

Lemma known_lookup t l : lookup_final t l <> Unknown <-> known t l.
Proof.
  unfold lookup_final, known. destruct (rl_finals l !! t) as [r|].
  - split; [eauto|done].
  - destruct (rl_markers l !! t) as [m|]; cbn; split; eauto; [done|].
    intros [[? E]|[? E]]; done.
Qed.

Lemma answers_update t f l : answers l (snd (update_final t f l)).
Proof.
  apply answers_keep.
  - unfold update_final. destruct (rl_finals l !! t); by left.
  - intros t' Hk. unfold update_final, known in *. destruct (rl_finals l !! t) eqn:E; [|done].
    cbn. destruct Hk as [Hk|Hk]; [left|by right].
    destruct (decide (t' = t)) as [->|Hn]; [rewrite lookup_insert_eq; eauto|by rewrite lookup_insert_ne].
Qed.

Lemma perform_answers l o :
  accounted l -> op_fits o l -> (forall t, o <> Forget t) -> answers l (perform l o).
Proof.
  intros A F Hf.
  destruct o as [now t|t|t|t kind bytes at_|t st|t|t p|now|r]; cbn [perform op_fits] in *.
  - destruct (pressed_collected now t l A) as (new & C & _).
    destruct (reserve_cases now t l) as [[_ ->]|H]; [apply answers_refl|].
    eapply answers_trans; [apply (col_answers _ _ _ _ C)|].
    destruct H as [(_ & rj & _ & ->)|(_ & _ & ->)]; cbn [snd]; apply answers_keep; auto.
  - destruct (release t l) as [b l'] eqn:E. destruct (release_rest _ _ _ _ E) as (_ & _ & Ef & _ & Em & _ & Ec).
    cbn [snd]. apply answers_keep; [by left|]. unfold known. by rewrite Ef, Em.
  - by destruct (Hf t).
  - destruct (commit_final_spec t kind bytes at_ l A F) as (_ & _ & _ & Ef & Em & _ & Ec).
    apply answers_keep; [by right|]. intros t'. unfold known. rewrite Ef, Em.
    intros [H|H]; [left|by right].
    destruct (decide (t' = t)) as [->|Hn]; [rewrite lookup_insert_eq; eauto|by rewrite lookup_insert_ne].
  - unfold note_visibility. apply answers_update.
  - unfold mark_superseded. apply answers_update.
  - unfold set_pinned. apply answers_update.
  - destruct (collect_spec now l A) as (report & l' & -> & C & _). apply (col_answers _ _ _ _ C).
  - unfold import_existing. destruct (take_final (rf_terminal r) l) as [o l1] eqn:E. cbn [snd].
    destruct (take_final_rest _ _ _ _ E) as (_ & _ & Ef & _ & Em & _ & Ec).
    apply answers_keep; [by left|]. intros t'. unfold known. cbn. rewrite Ef, Em.
    destruct (decide (t' = rf_terminal r)) as [->|Hn]; [rewrite lookup_insert_eq; eauto|].
    by rewrite lookup_insert_ne, !lookup_delete_ne by done.
Qed.

(** No final disappears silently.  Whatever an owner does short of deleting
    the owning scope, a terminal that is answered with its final or with a typed
    marker still is afterwards, or the count of forgotten markers has grown. *)
Theorem finals_are_never_lost_silently l o t :
  accounted l -> op_fits o l -> (forall t', o <> Forget t') ->
  (ct_forgotten_markers (rl_counters l) < U64_MAX)%N ->
  lookup_final t l <> Unknown ->
  lookup_final t (perform l o) <> Unknown \/
  (ct_forgotten_markers (rl_counters l) < ct_forgotten_markers (rl_counters (perform l o)))%N.
Proof.
  intros A F Hf Hlt. rewrite !known_lookup. intros Hk.
  destruct (perform_answers l o A F Hf) as [Hmin Hsame].
  destruct (N.eq_dec (ct_forgotten_markers (rl_counters (perform l o)))
              (ct_forgotten_markers (rl_counters l))) as [E|E]; [left; auto|right; lia].
Qed.

(** ** A daemon at work *)
Module RetentionExample.
Definition term (n : string) : TerminalRef :=
  MkTerminalRef (MkDaemonGeneration "d") (MkTerminalId n) (MkWorkspaceId "w") None (MkWorktreeId "k").
Definition sec (n : Z) : DateTime := (n * 1000000000)%Z.

(** Two finals, or two hundred bytes; a minute of visibility. *)
Definition small : RetentionBudget :=
  MkRetentionBudget 2 200 2 200 2 200 2 200 60 3600 100 8 2.

Definition busy : list op :=
  [Reserve (sec 0) (term "a"); Commit (term "a") Terminal 80 (sec 1);
   Reserve (sec 2) (term "b"); Commit (term "b") Terminal 90 (sec 3)].
Definition full := foldl perform (new small) busy.
End RetentionExample.
Import RetentionExample.

Lemma small_sane : sane (normalized small).
Proof. by vm_compute. Qed.

Lemma busy_admitted : admitted_run busy (new small).
Proof. vm_compute. split_and!; done. Qed.

Lemma full_managed : managed full.
Proof. apply managed_run; [apply managed_new, small_sane|apply busy_admitted]. Qed.

(** A third launch is refused while both finals are visible, and admitted a
    minute later at the expense of the older one. *)
Lemma launch_waits_for_visibility :
  fst (reserve (sec 10) (term "c") full) = Err (MkAdmissionRejection DaemonScope CountDimension) /\
  fst (reserve (sec 61) (term "c") full) = Ok tt /\
  lookup_final (term "a") (snd (reserve (sec 61) (term "c") full)) =
    Evicted (MkEvictionMarker (term "a") Terminal PressureEviction (sec 61) 80).
Proof. by vm_compute. Qed.

Lemma caps_never_exceeded_witness :
  let after := perform (foldl perform (new small) [Reserve (sec 0) (term "a")]) (Commit (term "a") Terminal 80 (sec 1)) in
  (exists r, lookup_final (term "a") after = Retained r /\ rf_bytes r = 80%N) /\ within_caps after.
Proof.
  destruct (caps_never_exceeded small [Reserve (sec 0) (term "a")] (term "a") Terminal 80%N (sec 1))
    as (_ & _ & (r & Hl & _ & Hb & _) & H).
  - exact small_sane.
  - vm_compute. split; exact I.
  - split; [exists r; split; [exact Hl|exact Hb]|].
    apply H. vm_compute. split; [reflexivity|discriminate].
Defined.

Lemma collection_spares_the_visible_witness :
  exists now r, rl_finals full !! term "a" = Some r /\ rf_pinned r = false /\
    (60 <= age_secs now r)%Z.
Proof.
  destruct (collection_spares_the_visible full (Reserve (sec 61) (term "c")) (term "a")
    (RetainedFinal_new (term "a") Terminal 80 (sec 1))) as (now & Hp & Ha & _).
  - exact full_managed.
  - left. exists (sec 61), (term "c"). reflexivity.
  - vm_compute. reflexivity.
  - vm_compute. reflexivity.
  - exists now, (RetainedFinal_new (term "a") Terminal 80 (sec 1)).
    split; [vm_compute; reflexivity|]. split; [exact Hp|exact Ha].
Defined.

Lemma collection_bounded_and_complete_witness :
  exists report l', collect (sec 61) full = Some (report, l') /\ length (gr_evicted report) <= 8.
Proof.
  destruct (collection_bounded_and_complete (sec 61) full (mg_accounted _ full_managed))
    as (report & l' & E & _ & B & _).
  exists report, l'. split; [exact E|exact B].
Defined.

Lemma finals_are_never_lost_silently_witness :
  lookup_final (term "a") (perform full (Reserve (sec 61) (term "c"))) <> Unknown.
Proof.
  destruct (finals_are_never_lost_silently full (Reserve (sec 61) (term "c")) (term "a")) as [H|H].
  - exact (mg_accounted _ full_managed).
  - vm_compute. split; discriminate.
  - intros t'. discriminate.
  - vm_compute. reflexivity.
  - vm_compute. discriminate.
  - exact H.
  - exfalso. revert H. vm_compute. intros H. discriminate H.
Defined.

(** One oversize final is enough for an emergency: no import and no shrunk
    budget, and a final that is pinned and seconds old is taken. *)
Lemma oversize_final_is_an_emergency :
  let l := foldl perform (new small)
    [Reserve (sec 0) (term "a"); Commit (term "a") Terminal 80 (sec 1); Pin (term "a") true;
     Reserve (sec 2) (term "b"); Commit (term "b") Terminal 190 (sec 3); Pin (term "b") true] in
  lookup_final (term "a") (perform l (Collect (sec 4))) =
    Evicted (MkEvictionMarker (term "a") Terminal EmergencyEviction (sec 4) 80).
Proof. by vm_compute. Qed.

(** A duplicate exit after an eviction leaves the key twice in the window, and
    the older entry takes the newer marker with it: the window still lists the
    terminal and has room for its marker, which is gone. *)
Lemma duplicate_exit_forgets_the_new_marker :
  let l := foldl perform full
    [Collect (sec 61); Commit (term "a") Terminal 80 (sec 70); Collect (sec 4000);
     Commit (term "c") Terminal 10 (sec 4001); Collect (sec 9000)] in
  lookup_final (term "a") l = Unknown /\ rl_marker_order l = [term "a"; term "c"] /\
  ct_evicted_finals (rl_counters l) = 4%N /\ size (rl_markers l) = 1.
Proof. by vm_compute. Qed.
