(* ===== verification/Ipc.v ===== *)
(** * IPC vocabulary the daemon authority relies on
    ([crates/core/src/infrastructure/ipc/mod.rs])

    Build artifact identities and their comparison, and the closed capability
    vocabulary with the advertisement and readiness policies, and the hello
    messages.  The handshake is in [Negotiation], the frames in [Framing]. *)
From S2P Require Export DaemonRecord.

(** The protocol's own operation and generation identifiers are plain strings
    ([pub struct OperationId(pub String)]). *)
Record IpcOperationId := MkIpcOperationId { ipc_operation_id : string }.
#[export] Instance ipc_operation_id_eq_dec : EqDecision IpcOperationId.
Proof. solve_decision. Defined.

(** ** [str::split] and ASCII classes *)
Fixpoint split_char (c : Ascii.ascii) (s : string) : list string :=
  match s with
  | EmptyString => [EmptyString]
  | String x s =>
      let rest := split_char c s in
      if Ascii.eqb x c then EmptyString :: rest
      else match rest with
           | [] => [String x EmptyString]
           | h :: t => String x h :: t
           end
  end.

Fixpoint all_bytes (p : Ascii.ascii -> bool) (s : string) : bool :=
  match s with EmptyString => true | String x s => p x && all_bytes p s end.

Definition is_ascii_hexdigit (a : Ascii.ascii) : bool :=
  let n := Ascii.N_of_ascii a in
  ((48 <=? n) && (n <=? 57) || (65 <=? n) && (n <=? 70) || (97 <=? n) && (n <=? 102))%N.

Definition colon : Ascii.ascii := Ascii.Ascii false true false true true true false false.
Definition no_colon (s : string) : bool := all_bytes (fun a => negb (Ascii.eqb a colon)) s.
Definition is_empty (s : string) : bool := bool_decide (s = EmptyString).

(** ** Build artifact identity *)
Record BuildIdentity := MkBuildIdentity {
  bi_version : string;
  bi_commit : string;
  bi_target : string;
  bi_artifact : string;
}.
#[export] Instance build_identity_eq_dec : EqDecision BuildIdentity.
Proof. solve_decision. Defined.

(** [BuildIdentity::default()]: every component empty, hence unknown. *)
Definition BuildIdentity_default : BuildIdentity := MkBuildIdentity "" "" "" "".

Definition artifact_scheme : string := "usagi-artifact-v1".

Definition canonical_artifact (artifact : string) : option (string * string * string) :=
  match split_char colon artifact with
  | scheme :: rest =>
      if bool_decide (scheme <> artifact_scheme) then None else
      match rest with
      | profile :: target :: source :: extra =>
          if bool_decide (extra <> []) || is_empty profile || is_empty target
             || negb (String.length source =? 64)%nat
             || negb (all_bytes is_ascii_hexdigit source)
          then None else Some (profile, target, source)
      | _ => None
      end
  | [] => None
  end.

Definition is_known (b : BuildIdentity) : bool :=
  negb (is_empty (bi_version b)) && negb (is_empty (bi_target b))
  && bool_decide (is_Some (canonical_artifact (bi_artifact b))).

Definition same_artifact (a b : BuildIdentity) : bool :=
  is_known a && is_known b
  && bool_decide (bi_version a = bi_version b)
  && bool_decide (bi_target a = bi_target b)
  && bool_decide (bi_artifact a = bi_artifact b).

Definition differs_from (a b : BuildIdentity) : bool :=
  if is_known a && is_known b then negb (same_artifact a b)
  else bool_decide (bi_version a <> bi_version b) || bool_decide (bi_commit a <> bi_commit b).

Definition build_identity (version commit target profile source_identity : string)
    : BuildIdentity :=
  let artifact :=
    if is_empty version || is_empty target || is_empty profile
       || negb (String.length source_identity =? 64)%nat
       || negb (all_bytes is_ascii_hexdigit source_identity)
    then ""
    else (artifact_scheme +:+ ":" +:+ profile +:+ ":" +:+ target +:+ ":" +:+ source_identity)
  in MkBuildIdentity version commit target artifact.

Inductive BuildArtifactDecision : Type := Reuse | ForceReplace | RolloverTrigger | BuildUnknown.
#[export] Instance build_artifact_decision_eq_dec : EqDecision BuildArtifactDecision.
Proof. solve_decision. Defined.

Definition build_artifact_decision (actual expected : BuildIdentity) (force_replacement : bool)
    : BuildArtifactDecision :=
  if negb (is_known actual) || negb (is_known expected) then BuildUnknown
  else if same_artifact actual expected
       then (if force_replacement then ForceReplace else Reuse)
       else RolloverTrigger.

(** ** Capabilities *)
Inductive Capability : Type :=
| RequestCorrelation | PrSnapshot | PrSubscription | BuildArtifact | DaemonOwnerIdentity
| TerminalScreenCheckpoint | TerminalInputOperation | WorkspaceFence
| OwnerGenerationRouting | GenerationHandoff | UserDecisionDelivery.
#[export] Instance capability_eq_dec : EqDecision Capability.
Proof. solve_decision. Defined.

Definition Capability_ALL : list Capability :=
  [RequestCorrelation; PrSnapshot; PrSubscription; BuildArtifact; DaemonOwnerIdentity;
   TerminalScreenCheckpoint; TerminalInputOperation; WorkspaceFence;
   OwnerGenerationRouting; GenerationHandoff; UserDecisionDelivery].

Record CapabilityDescriptor := MkCapabilityDescriptor {
  cd_wire_name : string;
  cd_purpose : string;
}.

Definition descriptor (c : Capability) : CapabilityDescriptor :=
  match c with
  | RequestCorrelation => MkCapabilityDescriptor "request.correlation.v1" "correlate every request with its response"
  | PrSnapshot => MkCapabilityDescriptor "pr.snapshot.v1" "read the daemon-owned pull-request snapshot"
  | PrSubscription => MkCapabilityDescriptor "pr.subscription.v1" "subscribe to pull-request inventory changes"
  | BuildArtifact => MkCapabilityDescriptor "build.artifact.v1" "compare canonical build artifact identities"
  | DaemonOwnerIdentity =>
      MkCapabilityDescriptor "daemon.owner-identity.v1"
        "bind a daemon hello to its process owner"
  | TerminalScreenCheckpoint =>
      MkCapabilityDescriptor "terminal.screen-checkpoint.v1"
        "restore terminal state from a semantic checkpoint"
  | TerminalInputOperation =>
      MkCapabilityDescriptor "terminal.input-operation.v1"
        "resolve durable terminal input operations"
  | WorkspaceFence => MkCapabilityDescriptor "workspace.fence.v1" "admit only clients naming the served workspace"
  | OwnerGenerationRouting =>
      MkCapabilityDescriptor "owner-generation-routing.v1"
        "route terminal work to its owner generation"
  | GenerationHandoff =>
      MkCapabilityDescriptor "daemon.generation-handoff.v1"
        "re-decide authority during generation handoff"
  | UserDecisionDelivery =>
      MkCapabilityDescriptor "user-decision.delivery.v1"
        "observe decisions without acknowledging them and transfer bounded fragments"
  end.

Definition wire_name (c : Capability) : string := cd_wire_name (descriptor c).

Definition is_advertised_by (c : Capability) (capabilities : list string) : bool :=
  any (fun advertised => bool_decide (advertised = wire_name c)) capabilities.

Definition capability_names (cs : list Capability) : list string := wire_name <$> cs.

(** The role a serving generation advertises for itself on the wire. *)
Inductive WireGenerationRole : Type := WireActive | WireDraining | WireStandby.
#[export] Instance wire_generation_role_eq_dec : EqDecision WireGenerationRole.
Proof. solve_decision. Defined.

(** The workspace a client asserts for its connection. *)
Inductive ClientWorkspace : Type :=
| Bound (root : string)
| Selected (root : string)
| Unbound.

Definition BASE_CLIENT_REQUIRED_CAPABILITIES : list Capability :=
  [RequestCorrelation; PrSnapshot; BuildArtifact].

Definition BASE_SERVER_ADVERTISED_CAPABILITIES : list Capability :=
  [RequestCorrelation; PrSnapshot; PrSubscription; BuildArtifact; DaemonOwnerIdentity;
   TerminalScreenCheckpoint; TerminalInputOperation; WorkspaceFence;
   OwnerGenerationRouting; UserDecisionDelivery].

Definition standby_readiness_required_capabilities : list Capability :=
  [BuildArtifact; GenerationHandoff].

Definition client_required_capabilities (expects_owner : bool) (workspace : ClientWorkspace)
    : list string :=
  capability_names BASE_CLIENT_REQUIRED_CAPABILITIES
  ++ (if expects_owner then [wire_name DaemonOwnerIdentity] else [])
  ++ (match workspace with
      | Bound _ | Selected _ => [wire_name WorkspaceFence]
      | Unbound => []
      end).

Definition client_advertised_capabilities : list string :=
  capability_names [OwnerGenerationRouting].

Definition server_advertised_capabilities (role : WireGenerationRole) : list string :=
  capability_names BASE_SERVER_ADVERTISED_CAPABILITIES
  ++ (if bool_decide (role = WireStandby) then [wire_name GenerationHandoff] else []).

(** [supports_owner_generation_routing]
    ([crates/core/src/infrastructure/ipc/mod.rs]) *)
Definition supports_owner_generation_routing (capabilities : list string) : bool :=
  is_advertised_by OwnerGenerationRouting capabilities.

(** ** Handshake messages *)
Inductive AgentClientSurface : Type := Tui | Cli | Mcp.

Record ProtocolRange := MkProtocolRange {
  pr_generation : N;
  pr_min_revision : N;
  pr_max_revision : N;
}.
Record ProtocolVersion := MkProtocolVersion { pv_generation : N; pv_revision : N }.
Record ProtocolLimits := MkProtocolLimits {
  max_frame_bytes : N;
  max_in_flight_requests : N;
  max_input_batch_bytes : N;
  response_cache_window_ms : N;
  operation_admission_window_ms : N;
  max_future_skew_ms : N;
}.
Definition ProtocolLimits_default : ProtocolLimits :=
  MkProtocolLimits 1048576 128 65536 86400000 86400000 300000.

Record ClientHello := MkClientHello {
  ch_client_id : string;
  ch_surface : option AgentClientSurface;
  ch_connection_nonce : string;
  ch_expected_daemon_generation : option string;
  ch_supported_protocols : list ProtocolRange;
  ch_capabilities : list string;
  ch_required_capabilities : list string;
  ch_build : BuildIdentity;
  ch_workspace : option ClientWorkspace;
}.

Record ServerHello := MkServerHello {
  sh_connection_nonce : string;
  sh_connection_id : string;
  sh_daemon_generation : string;
  sh_generation_role : WireGenerationRole;
  sh_protocol : ProtocolVersion;
  sh_capabilities : list string;
  sh_build : BuildIdentity;
  sh_limits : ProtocolLimits;
  sh_daemon_process : option DaemonRecord;
}.

(** ** Laws *)
Lemma split_char_cons_nonempty c s : exists h t, split_char c s = h :: t.
Proof.
  destruct s as [|x s]; simpl; [eauto|]. destruct (Ascii.eqb x c); [eauto|].
  destruct (split_char c s); eauto.
Qed.

Lemma split_char_app c a b :
  split_char c (a +:+ String c b) = split_char c a ++ split_char c b.
Proof.
  induction a as [|x a IH]; simpl.
  - by rewrite Ascii.eqb_refl.
  - rewrite IH. destruct (Ascii.eqb x c); [done|].
    destruct (split_char_cons_nonempty c a) as (h & t & ->). done.
Qed.

Lemma split_char_none s : no_colon s = true -> split_char colon s = [s].
Proof.
  unfold no_colon. induction s as [|x s IH]; simpl; [done|].
  intros [Hx Hs]%andb_prop. rewrite IH by done.
  by destruct (Ascii.eqb x colon).
Qed.

Lemma split_char_colon s :
  no_colon s = false -> exists h k t, split_char colon s = h :: k :: t.
Proof.
  unfold no_colon. induction s as [|x s IH]; simpl; [done|].
  destruct (Ascii.eqb x colon); simpl.
  - intros _. destruct (split_char_cons_nonempty colon s) as (h & t & ->). eauto.
  - intros H. destruct (IH H) as (h & k & t & ->). eauto.
Qed.

Lemma hexdigit_no_colon s : all_bytes is_ascii_hexdigit s = true -> no_colon s = true.
Proof.
  unfold no_colon. induction s as [|x s IH]; [done|]. cbn [all_bytes].
  intros [Hx Hs]%andb_prop. rewrite IH, andb_true_r by done.
  destruct (Ascii.eqb_spec x colon) as [->|]; [|done]. by vm_compute in Hx.
Qed.

Lemma is_empty_false s : is_empty s = false <-> s <> "".
Proof. unfold is_empty. apply bool_decide_eq_false. Qed.

Lemma canonical_artifact_assembled profile target source :
  all_bytes is_ascii_hexdigit source = true -> String.length source = 64 ->
  is_empty profile = false -> is_empty target = false ->
  canonical_artifact
    (artifact_scheme +:+ ":" +:+ profile +:+ ":" +:+ target +:+ ":" +:+ source) =
  if no_colon profile && no_colon target then Some (profile, target, source) else None.
Proof.
  intros Hhex Hlen Hp Ht. unfold canonical_artifact.
  assert (Hc : forall s, ":" +:+ s = String colon s) by done.
  rewrite !Hc, !split_char_app, (split_char_none artifact_scheme) by done. cbn [app].
  rewrite bool_decide_eq_false_2 by auto.
  rewrite (split_char_none source) by (by apply hexdigit_no_colon).
  destruct (no_colon profile) eqn:Ep; simpl.
  - rewrite (split_char_none profile) by done. cbn [app].
    destruct (no_colon target) eqn:Et.
    + rewrite (split_char_none target) by done. cbn [app].
      by rewrite bool_decide_eq_false_2, Hp, Ht, Hlen, Hhex by auto.
    + destruct (split_char_colon target Et) as (h & k & t & ->). cbn [app].
      by rewrite bool_decide_eq_true_2 by (by destruct t).
  - destruct (split_char_colon profile Ep) as (h & k & t & ->). cbn [app].
    destruct (split_char_cons_nonempty colon target) as (h' & t' & ->).
    destruct t as [|x t]; cbn [app].
    + by rewrite bool_decide_eq_true_2 by (by destruct t').
    + by rewrite bool_decide_eq_true_2 by (by destruct t).
Qed.

Lemma same_artifact_spec a b :
  same_artifact a b = true <->
  is_known a = true /\ is_known b = true /\ bi_version a = bi_version b /\
  bi_target a = bi_target b /\ bi_artifact a = bi_artifact b.
Proof. unfold same_artifact. rewrite !andb_true_iff, !bool_decide_eq_true. tauto. Qed.

Lemma same_artifact_refl a : same_artifact a a = is_known a.
Proof.
  destruct (is_known a) eqn:E.
  - apply same_artifact_spec. auto.
  - unfold same_artifact. by rewrite E.
Qed.

Lemma decision_reuse a b :
  build_artifact_decision a b false = Reuse <-> same_artifact a b = true.
Proof.
  unfold build_artifact_decision. split.
  - destruct (is_known a), (is_known b), (same_artifact a b); simpl; done.
  - intros H. pose proof H as (-> & -> & _)%same_artifact_spec. by rewrite H.
Qed.

#[export] Instance wire_name_inj : Inj (=) (=) wire_name.
Proof. intros [] []; done. Qed.

Lemma advertised_names c cs : is_advertised_by c (capability_names cs) = bool_decide (c ∈ cs).
Proof.
  unfold is_advertised_by, capability_names, any.
  apply eq_bool_prop_intro. rewrite Is_true_true, existsb_exists, bool_decide_spec. split.
  - intros (x & Hx & Heq%bool_decide_eq_true). subst.
    apply list_elem_of_In, list_elem_of_fmap in Hx as (c' & E & Hc).
    apply (inj wire_name) in E. congruence.
  - intros Hc. exists (wire_name c). split; [|by apply bool_decide_eq_true].
    by apply list_elem_of_In, list_elem_of_fmap_2.
Qed.

(** The identity the composition root embeds is comparable exactly when every
    component is present, the source digest is 64 hexadecimal digits and neither
    the profile nor the target contains the separator. *)
Theorem build_identity_known_iff version commit target profile source :
  is_known (build_identity version commit target profile source) = true <->
  version <> "" /\ target <> "" /\ profile <> "" /\
  String.length source = 64 /\ all_bytes is_ascii_hexdigit source = true /\
  no_colon profile = true /\ no_colon target = true.
Proof.
  unfold is_known, build_identity. cbn [bi_version bi_target bi_artifact].
  destruct (is_empty version) eqn:Ev; simpl.
  { unfold is_empty in Ev. apply bool_decide_eq_true in Ev. intuition congruence. }
  destruct (is_empty target) eqn:Et; simpl.
  { unfold is_empty in Et. apply bool_decide_eq_true in Et. intuition congruence. }
  destruct (is_empty profile) eqn:Ep; simpl.
  { unfold is_empty in Ep. apply bool_decide_eq_true in Ep. split; [done|]. tauto. }
  destruct (Nat.eqb_spec (String.length source) 64) as [Hl|Hl]; simpl.
  2:{ split; [done|tauto]. }
  destruct (all_bytes is_ascii_hexdigit source) eqn:Eh; cbn [negb].
  2:{ split; [done|]. intros (?&?&?&?&?&_). done. }
  rewrite canonical_artifact_assembled by done.
  apply is_empty_false in Ev, Et, Ep.
  destruct (no_colon profile), (no_colon target); simpl; split; try done;
    intros; first [tauto|by destruct_and!].
Qed.
