(* ===== verification/Generation.v ===== *)
(** * Per-runtime generation and terminal ownership fences
    ([crates/daemon/src/usecase/generation.rs])

    The roles and process identities shared by the whole authority, and the
    [GenerationCoordinator]: the process-local registry of generations and of
    the terminals each one owns, persisted as a [GenerationSnapshot].  Both
    [BTreeMap]s are finite maps keyed by the identity's text; [snapshot] lists
    their values in key order. *)
From S2P Require Export Ids Ipc.

Definition DEFAULT_GENERATION_LIMIT : nat := 2.

Inductive GenerationRole : Type := Standby | Active | Draining | Retired.
#[export] Instance generation_role_eq_dec : EqDecision GenerationRole.
Proof. solve_decision. Defined.

Record ProcessIdentity := MkProcessIdentity {
  pi_pid : N;
  pi_start_identity : string;
  pi_process_group : N;
}.
#[export] Instance process_identity_eq_dec : EqDecision ProcessIdentity.
Proof. solve_decision. Defined.

Module ProcessObservation.
Inductive t : Type :=
| VerifiedAlive (identity : ProcessIdentity)
| Gone
| Unknown.
#[export] Instance eq_dec : EqDecision t.
Proof. solve_decision. Defined.
End ProcessObservation.
Export (hints) ProcessObservation.

Record GenerationRecord := MkGenerationRecord {
  gr_generation : DaemonGeneration;
  gr_endpoint : string;
  gr_role : GenerationRole;
  gr_expected_build : BuildIdentity;
  gr_build_verified : bool;
}.
#[export] Instance generation_record_eq_dec : EqDecision GenerationRecord.
Proof. solve_decision. Defined.

Module TerminalState.
Inductive t : Type := Available | OrphanRunning | IdentityUnknown | Lost | Terminated.
#[export] Instance eq_dec : EqDecision t.
Proof. solve_decision. Defined.
End TerminalState.
Export (hints) TerminalState.

Record TerminalOwnership := MkTerminalOwnership {
  to_terminal : TerminalRef;
  to_process : option ProcessIdentity;
  to_state : TerminalState.t;
}.
#[export] Instance terminal_ownership_eq_dec : EqDecision TerminalOwnership.
Proof. solve_decision. Defined.

Record GenerationSnapshot := MkGenerationSnapshot {
  gs_current : option DaemonGeneration;
  gs_records : list GenerationRecord;
  gs_terminals : list TerminalOwnership;
}.

Module GenerationError.
Inductive t : Type :=
| UnknownGeneration | DuplicateGeneration | NotActive | GenerationLimit
| TerminalOwnedElsewhere | TerminalUnavailable.
End GenerationError.

Record GenerationCoordinator := MkGenerationCoordinator {
  gc_limit : nat;
  gc_current : option DaemonGeneration;
  gc_records : gmap string GenerationRecord;
  gc_terminals : gmap string TerminalOwnership;
}.

Definition with_current (c : GenerationCoordinator) (g : option DaemonGeneration) :=
  MkGenerationCoordinator (gc_limit c) g (gc_records c) (gc_terminals c).
Definition with_records (c : GenerationCoordinator) (r : gmap string GenerationRecord) :=
  MkGenerationCoordinator (gc_limit c) (gc_current c) r (gc_terminals c).
Definition with_terminals (c : GenerationCoordinator) (t : gmap string TerminalOwnership) :=
  MkGenerationCoordinator (gc_limit c) (gc_current c) (gc_records c) t.

(** [BTreeMap::values()]: the values in key order. *)
Definition key_le {V} (a b : string * V) : Prop := str_le a.1 b.1 = true.
#[export] Instance key_le_dec {V} : RelDecision (@key_le V).
Proof. intros a b. unfold key_le. apply _. Defined.
Definition btree_values {V} (m : gmap string V) : list V := (merge_sort key_le (map_to_list m)).*2.

(** ** Operations *)
Module GenerationCoordinator.
Import GenerationError TerminalState ProcessObservation.
Definition coord_st := st GenerationCoordinator GenerationError.t.

Definition new (limit : nat) : GenerationCoordinator :=
  MkGenerationCoordinator limit None ∅ ∅.

Definition role (c : GenerationCoordinator) (g : DaemonGeneration) : option GenerationRole :=
  gr_role <$> gc_records c !! as_str g.

Definition terminal_key (t : TerminalRef) : string := as_str (tr_terminal_id t).

Definition retained_record (r : GenerationRecord) : Prop := gr_role r <> Retired.
Definition active_record (r : GenerationRecord) : Prop := gr_role r = Active.

#[export] Instance retained_record_dec r : Decision (retained_record r).
Proof. unfold retained_record. apply _. Defined.
#[export] Instance active_record_dec r : Decision (active_record r).
Proof. unfold active_record. apply _. Defined.

Definition retained_generations (c : GenerationCoordinator) : nat :=
  size (filter (fun kv => retained_record kv.2) (gc_records c)).

Definition active_records (c : GenerationCoordinator) : nat :=
  size (filter (fun kv => active_record kv.2) (gc_records c)).

Definition register_record (record : GenerationRecord) : coord_st unit := fun c =>
  if bool_decide (is_Some (gc_records c !! as_str (gr_generation record)))
  then (Err DuplicateGeneration, c)
  else if bool_decide (gr_role record <> Retired)
          && (gc_limit c <=? retained_generations c)%nat
  then (Err GenerationLimit, c)
  else (Ok tt, with_records c (<[as_str (gr_generation record) := record]> (gc_records c))).

Definition register_standby (generation : DaemonGeneration) (endpoint : string)
    : coord_st unit :=
  register_record (MkGenerationRecord generation endpoint Standby BuildIdentity_default false).

Definition set_role (generation : DaemonGeneration) (expected role : GenerationRole)
    : coord_st unit := fun c =>
  match gc_records c !! as_str generation with
  | None => (Err UnknownGeneration, c)
  | Some record =>
      if bool_decide (gr_role record <> expected) then (Err NotActive, c)
      else (Ok tt, with_records c
             (<[as_str generation :=
                MkGenerationRecord (gr_generation record) (gr_endpoint record) role
                  (gr_expected_build record) (gr_build_verified record)]> (gc_records c)))
  end.

Definition activate_initial (generation : DaemonGeneration) : coord_st unit := fun c =>
  if bool_decide (is_Some (gc_current c)) then (Err NotActive, c)
  else st_bind (set_role generation Standby Active)
         (fun _ c => (Ok tt, with_current c (Some generation))) c.

Definition require_active (c : GenerationCoordinator) (generation : DaemonGeneration)
    : result GenerationError.t unit :=
  if bool_decide (gc_current c = Some generation)
     && bool_decide (role c generation = Some Active)
  then Ok tt else Err NotActive.

(** The ownership record of exactly this terminal. *)
Definition owned (c : GenerationCoordinator) (t : TerminalRef) : option TerminalOwnership :=
  match gc_terminals c !! terminal_key t with
  | Some known => if TerminalRef_fences (to_terminal known) t then Some known else None
  | None => None
  end.

Definition owns_terminal (c : GenerationCoordinator) (t : TerminalRef) : bool :=
  bool_decide (is_Some (owned c t)).

Definition terminal_endpoint (c : GenerationCoordinator) (t : TerminalRef)
    : result GenerationError.t string :=
  ownership <-? ok_or (owned c t) TerminalOwnedElsewhere ;;
  if bool_decide (to_state ownership <> Available) then Err TerminalUnavailable
  else match gc_records c !! as_str (tr_daemon_generation t) with
       | Some record =>
           if bool_decide (gr_role record = Active) || bool_decide (gr_role record = Draining)
           then Ok (gr_endpoint record) else Err UnknownGeneration
       | None => Err UnknownGeneration
       end.

Definition require_terminal (c : GenerationCoordinator) (t : TerminalRef)
    : result GenerationError.t unit :=
  map_ok (fun _ => tt) (terminal_endpoint c t).

Definition reserve_terminal (t : TerminalRef) : coord_st unit := fun c =>
  match require_active c (tr_daemon_generation t) with
  | Err e => (Err e, c)
  | Ok _ =>
      if bool_decide (is_Some (gc_terminals c !! terminal_key t))
      then (Err TerminalOwnedElsewhere, c)
      else (Ok tt, with_terminals c
             (<[terminal_key t := MkTerminalOwnership t None IdentityUnknown]> (gc_terminals c)))
  end.

(** [ownership_mut] followed by an assignment through the reference. *)
Definition set_owned (t : TerminalRef) (o : TerminalOwnership) (c : GenerationCoordinator) :=
  with_terminals c (<[terminal_key t := o]> (gc_terminals c)).

Definition record_spawn (t : TerminalRef) (process : ProcessIdentity) : coord_st unit := fun c =>
  match owned c t with
  | None => (Err TerminalOwnedElsewhere, c)
  | Some o => (Ok tt, set_owned t (MkTerminalOwnership (to_terminal o) (Some process) Available) c)
  end.

Definition with_state (o : TerminalOwnership) (s : TerminalState.t) : TerminalOwnership :=
  MkTerminalOwnership (to_terminal o) (to_process o) s.

Definition resolve_orphan (t : TerminalRef) (observation : ProcessObservation.t)
    (acknowledged : bool) : coord_st unit := fun c =>
  match owned c t with
  | None => (Err TerminalOwnedElsewhere, c)
  | Some o =>
      let set s := set_owned t (with_state o s) c in
      let otherwise := if acknowledged then (Ok tt, set Terminated) else (Err TerminalUnavailable, c) in
      match observation with
      | Gone => (Ok tt, set Lost)
      | Unknown =>
          if negb acknowledged then (Err TerminalUnavailable, set IdentityUnknown)
          else otherwise
      | VerifiedAlive actual =>
          if bool_decide (to_process o = Some actual) && negb acknowledged
          then (Ok tt, set OrphanRunning)
          else if bool_decide (to_process o = Some actual) && acknowledged
          then (Ok tt, set Terminated)
          else otherwise
      end
  end.

(** The states in which a terminal still holds its process evidence. *)
Definition unresolved (s : TerminalState.t) : bool :=
  match s with Available | OrphanRunning | IdentityUnknown => true | _ => false end.

Definition forget_resolved_process (t : TerminalRef) : coord_st unit := fun c =>
  match owned c t with
  | None => (Err TerminalOwnedElsewhere, c)
  | Some o =>
      if unresolved (to_state o) then (Err TerminalUnavailable, c)
      else (Ok tt, set_owned t (MkTerminalOwnership (to_terminal o) None (to_state o)) c)
  end.

Definition forget_terminal (t : TerminalRef) : coord_st unit := fun c =>
  match owned c t with
  | None => (Err TerminalOwnedElsewhere, c)
  | Some o =>
      if unresolved (to_state o) then (Err TerminalUnavailable, c)
      else (Ok tt, with_terminals c (delete (terminal_key t) (gc_terminals c)))
  end.

(** *** Persistence *)
Definition snapshot (c : GenerationCoordinator) : GenerationSnapshot :=
  MkGenerationSnapshot (gc_current c) (btree_values (gc_records c)) (btree_values (gc_terminals c)).

Definition restore_terminal (terminal : TerminalOwnership) : coord_st unit := fun c =>
  match gc_records c !! as_str (tr_daemon_generation (to_terminal terminal)) with
  | None => (Err UnknownGeneration, c)
  | Some owner =>
      if bool_decide (to_state terminal = Available)
         && negb (bool_decide (gr_role owner = Active) || bool_decide (gr_role owner = Draining))
      then (Err TerminalUnavailable, c)
      else if bool_decide (to_process terminal = None)
              && (bool_decide (to_state terminal = Available)
                  || bool_decide (to_state terminal = OrphanRunning))
      then (Err TerminalUnavailable, c)
      else
        let key := terminal_key (to_terminal terminal) in
        let c' := with_terminals c (<[key := terminal]> (gc_terminals c)) in
        if bool_decide (is_Some (gc_terminals c !! key)) then (Err DuplicateGeneration, c')
        else (Ok tt, c')
  end.

Definition check_current : coord_st unit := fun c =>
  match gc_current c with
  | Some current =>
      if bool_decide (role c current <> Some Active) then (Err NotActive, c) else (Ok tt, c)
  | None => (Ok tt, c)
  end.

Definition check_single_active : coord_st unit := fun c =>
  if bool_decide (active_records c <> (if bool_decide (is_Some (gc_current c)) then 1 else 0))
  then (Err NotActive, c) else (Ok tt, c).

Definition restore (s : GenerationSnapshot) (limit : nat)
    : result GenerationError.t GenerationCoordinator :=
  let body :=
    st_iter register_record (gs_records s) ;;;
    (st_modify (fun c => with_current c (gs_current s)) ;;;
    (check_current ;;;
    (check_single_active ;;;
    st_iter restore_terminal (gs_terminals s)))) in
  match body (new limit) with
  | (Ok _, c) => Ok c
  | (Err e, _) => Err e
  end.

(** *** Well-formed coordinators *)
Definition terminal_ok (records : gmap string GenerationRecord) (o : TerminalOwnership) : Prop :=
  exists owner,
    records !! as_str (tr_daemon_generation (to_terminal o)) = Some owner /\
    (to_state o = Available -> gr_role owner = Active \/ gr_role owner = Draining) /\
    (to_process o = None -> to_state o <> Available /\ to_state o <> OrphanRunning).

Record inv (c : GenerationCoordinator) : Prop := MkInv {
  inv_record_key : forall k r, gc_records c !! k = Some r -> k = as_str (gr_generation r);
  inv_limit : retained_generations c <= gc_limit c;
  inv_current : forall g, gc_current c = Some g -> role c g = Some Active;
  inv_single : active_records c = if bool_decide (is_Some (gc_current c)) then 1 else 0;
  inv_terminal : forall k o, gc_terminals c !! k = Some o ->
    k = terminal_key (to_terminal o) /\ terminal_ok (gc_records c) o;
}.

Lemma key_le_transitive {V} : Transitive (@key_le V).
Proof. intros a b c. unfold key_le. apply str_le_trans. Qed.

Lemma btree_values_perm {V} (m : gmap string V) : btree_values m ≡ₚ (map_to_list m).*2.
Proof. unfold btree_values. by rewrite merge_sort_Permutation. Qed.

Lemma elem_of_btree_values {V} (m : gmap string V) v :
  v ∈ btree_values m <-> exists k, m !! k = Some v.
Proof.
  rewrite btree_values_perm, list_elem_of_fmap. split.
  - intros ([k v'] & -> & H%elem_of_map_to_list). eauto.
  - intros (k & H). exists (k, v). split; [done|]. by apply elem_of_map_to_list.
Qed.

Lemma btree_keys {V} (m : gmap string V) (key : V -> string) :
  (forall k v, m !! k = Some v -> k = key v) ->
  NoDup (key <$> btree_values m) /\
  list_to_map ((fun v => (key v, v)) <$> btree_values m) = m.
Proof.
  intros Hk. unfold btree_values.
  set (L := merge_sort key_le (map_to_list m)).
  assert (HL : L ≡ₚ map_to_list m) by apply merge_sort_Permutation.
  assert (E : (fun v => (key v, v)) <$> L.*2 = L).
  { assert (Hin : forall kv, kv ∈ L -> m !! kv.1 = Some kv.2).
    { intros [k v]. rewrite HL. apply elem_of_map_to_list. }
    clear HL. clearbody L. induction L as [|[k v] L IH]; [done|]. csimpl. f_equal.
    - f_equal. symmetry. apply Hk, (Hin (k, v)). left.
    - apply IH. intros kv Hkv. apply Hin. by right. }
  split.
  - assert (E' : key <$> L.*2 = L.*1).
    { rewrite <- E at 2. rewrite <- !list_fmap_compose. done. }
    rewrite E', HL. apply NoDup_fst_map_to_list.
  - rewrite E, <- (list_to_map_to_list m). apply list_to_map_proper; [|done].
    rewrite HL. apply NoDup_fst_map_to_list.
Qed.

Lemma filter_size_mono (P : GenerationRecord -> Prop) `{!forall r, Decision (P r)}
    (m1 m2 : gmap string GenerationRecord) :
  m1 ⊆ m2 -> size (filter (fun kv => P kv.2) m1) <= size (filter (fun kv => P kv.2) m2).
Proof.
  intros Hle. apply map_subseteq_size, map_subseteq_spec. intros k r.
  rewrite !map_lookup_filter_Some. intros [??]. split; [|done].
  by eapply lookup_weaken.
Qed.

Lemma filter_size_insert (P : GenerationRecord -> Prop) `{!forall r, Decision (P r)}
    (m : gmap string GenerationRecord) k r :
  m !! k = None ->
  size (filter (fun kv => P kv.2) (<[k := r]> m)) =
  (if decide (P r) then 1 else 0) + size (filter (fun kv => P kv.2) m).
Proof.
  intros Hk. destruct (decide (P r)).
  - rewrite map_filter_insert_True by done. rewrite map_size_insert_None; [done|].
    apply map_lookup_filter_None. auto.
  - rewrite map_filter_insert_False by done. by rewrite delete_id.
Qed.

(** Registering the records of a coordinator within its limit rebuilds
    exactly its record table. *)
Lemma register_all (m : gmap string GenerationRecord) l c :
  NoDup ((fun r => as_str (gr_generation r)) <$> l) ->
  (forall r, r ∈ l -> m !! as_str (gr_generation r) = Some r) ->
  (forall r, r ∈ l -> gc_records c !! as_str (gr_generation r) = None) ->
  gc_records c ⊆ m ->
  size (filter (fun kv => retained_record kv.2) m) <= gc_limit c ->
  st_iter register_record l c =
  (Ok tt, with_records c
     (list_to_map ((fun r => (as_str (gr_generation r), r)) <$> l) ∪ gc_records c)).
Proof.
  revert c. induction l as [|r l IH]; intros c Hnd Hm Hc Hsub Hlim.
  { simpl. unfold st_ret. f_equal. destruct c. unfold with_records. simpl.
    f_equal. by rewrite (left_id_L ∅ (∪)). }
  rewrite fmap_cons in Hnd. apply list.NoDup_cons in Hnd as [Hr Hnd]. cbn [st_iter].
  assert (Hk : gc_records c !! as_str (gr_generation r) = None) by (apply Hc; left).
  assert (Hsub' : <[as_str (gr_generation r) := r]> (gc_records c) ⊆ m).
  { apply insert_subseteq_l; [|done]. apply Hm. left. }
  assert (Hreg : register_record r c =
    (Ok tt, with_records c (<[as_str (gr_generation r) := r]> (gc_records c)))).
  { unfold register_record. rewrite bool_decide_eq_false_2 by (rewrite Hk; by intros [? ?]).
    destruct (bool_decide (gr_role r <> Retired)) eqn:Er; [|done]. cbn [andb].
    apply bool_decide_eq_true in Er.
    pose proof (filter_size_mono retained_record _ _ Hsub') as Hle.
    rewrite filter_size_insert, decide_True in Hle by done.
    unfold retained_generations. destruct (Nat.leb_spec (gc_limit c)
      (size (filter (fun kv => retained_record kv.2) (gc_records c)))); [lia|done]. }
  unfold st_bind at 1. rewrite Hreg. rewrite IH; simpl.
  - f_equal. unfold with_records. simpl. f_equal.
    rewrite <- insert_union_r; [by rewrite insert_union_l|].
    apply not_elem_of_list_to_map_1. rewrite <- list_fmap_compose. done.
  - done.
  - intros r' Hr'. apply Hm. by right.
  - intros r' Hr'. rewrite lookup_insert_ne; [apply Hc; by right|].
    intros E. apply Hr. rewrite E.
    by apply (list_elem_of_fmap_2 (fun r => as_str (gr_generation r))).
  - done.
  - done.
Qed.

Lemma restore_terminal_ok o c :
  terminal_ok (gc_records c) o -> gc_terminals c !! terminal_key (to_terminal o) = None ->
  restore_terminal o c =
  (Ok tt, with_terminals c (<[terminal_key (to_terminal o) := o]> (gc_terminals c))).
Proof.
  intros (owner & Ho & Hav & Hpr) Hk. unfold restore_terminal. rewrite Ho, Hk.
  destruct (bool_decide (to_state o = Available)) eqn:Es; cbn [andb orb].
  - apply bool_decide_eq_true in Es.
    assert (E : bool_decide (gr_role owner = Active) || bool_decide (gr_role owner = Draining) = true).
    { destruct (Hav Es); [apply orb_true_intro; left|apply orb_true_intro; right];
        by apply bool_decide_eq_true. }
    rewrite E. cbn [negb].
    rewrite bool_decide_eq_false_2 by (intros E'; by destruct (Hpr E')). done.
  - destruct (bool_decide (to_process o = None)) eqn:Ep; cbn [andb]; [|done].
    apply bool_decide_eq_true in Ep. destruct (Hpr Ep).
    by rewrite bool_decide_eq_false_2.
Qed.

Lemma restore_all_terminals l c :
  NoDup ((fun o => terminal_key (to_terminal o)) <$> l) ->
  (forall o, o ∈ l -> terminal_ok (gc_records c) o) ->
  (forall o, o ∈ l -> gc_terminals c !! terminal_key (to_terminal o) = None) ->
  st_iter restore_terminal l c =
  (Ok tt, with_terminals c
     (list_to_map ((fun o => (terminal_key (to_terminal o), o)) <$> l) ∪ gc_terminals c)).
Proof.
  revert c. induction l as [|o l IH]; intros c Hnd Hok Hc.
  { simpl. unfold st_ret. f_equal. destruct c. unfold with_terminals. simpl.
    f_equal. by rewrite (left_id_L ∅ (∪)). }
  rewrite fmap_cons in Hnd. apply list.NoDup_cons in Hnd as [Ho Hnd]. cbn [st_iter].
  unfold st_bind at 1. rewrite restore_terminal_ok; [|apply Hok; left|apply Hc; left].
  rewrite IH; simpl.
  - f_equal. unfold with_terminals. simpl. f_equal.
    rewrite <- insert_union_r; [by rewrite insert_union_l|].
    apply not_elem_of_list_to_map_1. rewrite <- list_fmap_compose. done.
  - done.
  - intros o' Ho'. apply Hok. by right.
  - intros o' Ho'. rewrite lookup_insert_ne; [apply Hc; by right|].
    intros E. apply Ho. rewrite E.
    by apply (list_elem_of_fmap_2 (fun o => terminal_key (to_terminal o))).
Qed.

Lemma restore_snapshot_inv c : inv c -> restore (snapshot c) (gc_limit c) = Ok c.
Proof.
  intros [Hkey Hlim Hcur Hsingle Hterm]. unfold restore, snapshot. simpl.
  destruct (btree_keys (gc_records c) (fun r => as_str (gr_generation r)) Hkey) as [Hnd1 Hm1].
  destruct (btree_keys (gc_terminals c) (fun o => terminal_key (to_terminal o))) as [Hnd2 Hm2].
  { intros k o H. by apply Hterm. }
  unfold st_bind at 1. rewrite (register_all (gc_records c)); simpl.
  2: done.
  2:{ intros r (k & Hr)%elem_of_btree_values. by rewrite <- (Hkey _ _ Hr). }
  2:{ intros. apply lookup_empty. }
  2: apply map_empty_subseteq.
  2: exact Hlim.
  rewrite Hm1, (right_id_L ∅ (∪)). unfold st_bind at 1, st_modify, with_current. simpl.
  set (c0 := MkGenerationCoordinator _ _ _ _).
  assert (H1 : check_current c0 = (Ok tt, c0)).
  { unfold check_current. subst c0. simpl. destruct (gc_current c) as [g|] eqn:Eg; [|done].
    by rewrite bool_decide_eq_false_2 by (rewrite <- (Hcur g eq_refl); auto). }
  assert (H2 : check_single_active c0 = (Ok tt, c0)).
  { unfold check_single_active. by rewrite bool_decide_eq_false_2 by auto. }
  unfold st_bind. rewrite H1, H2, restore_all_terminals; simpl; [|done| |].
  - f_equal. unfold with_terminals. simpl. rewrite Hm2, (right_id_L ∅ (∪)). by destruct c.
  - intros o (k & Ho)%elem_of_btree_values. by apply (Hterm k o).
  - intros. apply lookup_empty.
Qed.

(** *** Preservation *)
Lemma filter_size_replace (P : GenerationRecord -> Prop) `{!forall r, Decision (P r)}
    (m : gmap string GenerationRecord) k r r' :
  m !! k = Some r ->
  size (filter (fun kv => P kv.2) (<[k := r']> m)) + (if decide (P r) then 1 else 0) =
  size (filter (fun kv => P kv.2) m) + (if decide (P r') then 1 else 0).
Proof.
  intros Hk. assert (Hd : delete k m !! k = None) by apply lookup_delete_eq.
  pose proof (filter_size_insert P _ _ r' Hd) as H1.
  pose proof (filter_size_insert P _ _ r Hd) as H2.
  rewrite insert_delete_eq in H1. rewrite insert_delete_id in H2 by done. lia.
Qed.

Definition inv_table (c : GenerationCoordinator) : Prop :=
  (forall k r, gc_records c !! k = Some r -> k = as_str (gr_generation r)) /\
  retained_generations c <= gc_limit c.

Lemma register_record_table record c r c' :
  register_record record c = (r, c') -> inv_table c -> inv_table c'.
Proof.
  unfold register_record. intros H [Hkey Hlim].
  destruct (bool_decide (is_Some _)) eqn:Ek; [by simplify_eq|].
  apply bool_decide_eq_false, eq_None_not_Some in Ek.
  destruct (bool_decide (gr_role record <> Retired) && _) eqn:El; simplify_eq; [done|].
  split; simpl.
  - intros k r'. rewrite lookup_insert_Some. intros [[<- <-]|[_ ?]]; auto.
  - unfold retained_generations in *. simpl. rewrite (filter_size_insert retained_record) by done.
    destruct (decide (retained_record record)) as [Hr|]; [|done].
    apply andb_false_iff in El as [El|El].
    + by apply bool_decide_eq_false in El.
    + apply Nat.leb_gt in El. lia.
Qed.

Lemma register_standby_inv g endpoint c r c' :
  register_standby g endpoint c = (r, c') -> inv c -> inv c'.
Proof.
  intros H Hi. pose proof (register_record_table _ _ _ _ H) as Ht.
  destruct Hi as [Hkey Hlim Hcur Hsingle Hterm]. destruct Ht as [Hkey' Hlim']; [done|].
  unfold register_standby, register_record in H.
  destruct (bool_decide (is_Some _)) eqn:Ek; [by simplify_eq|].
  apply bool_decide_eq_false, eq_None_not_Some in Ek.
  destruct (bool_decide _ && _); simplify_eq; [done|].
  simpl in Ek. split; simpl; [done|done| | |].
  - intros g' Hg'. pose proof (Hcur g' Hg') as Hr. unfold role in *. simpl in *.
    rewrite lookup_insert_ne; [done|]. intros E. rewrite <- E, Ek in Hr. done.
  - unfold active_records in *. simpl. rewrite (filter_size_insert active_record) by done.
    rewrite decide_False by (unfold active_record; done). exact Hsingle.
  - intros k o Ho. destruct (Hterm k o Ho) as (? & owner & Hown & Hav & Hp).
    split; [done|]. exists owner. split; [|done]. rewrite lookup_insert_ne; [done|].
    intros E. rewrite <- E, Ek in Hown. done.
Qed.

Lemma activate_initial_inv g c r c' : activate_initial g c = (r, c') -> inv c -> inv c'.
Proof.
  unfold activate_initial. intros H Hi.
  destruct (bool_decide (is_Some (gc_current c))) eqn:Ec; [by simplify_eq|].
  apply bool_decide_eq_false, eq_None_not_Some in Ec.
  unfold st_bind, set_role in H. destruct (gc_records c !! as_str g) as [rec|] eqn:Er;
    [|by simplify_eq].
  destruct (bool_decide (gr_role rec <> Standby)) eqn:Es; [by simplify_eq|].
  apply bool_decide_eq_false, dec_stable in Es. simplify_eq.
  destruct Hi as [Hkey Hlim Hcur Hsingle Hterm].
  set (rec' := MkGenerationRecord _ _ _ _ _).
  split; simpl.
  - intros k r'. rewrite lookup_insert_Some. intros [[<- <-]|[_ ?]]; [exact (Hkey _ _ Er)|auto].
  - unfold retained_generations in *. simpl.
    pose proof (filter_size_replace retained_record _ _ _ rec' Er) as E.
    rewrite !decide_True in E by (unfold retained_record; simpl; congruence). lia.
  - intros ? [= <-]. unfold role. simpl. by rewrite lookup_insert_eq.
  - unfold active_records in *. simpl. rewrite Ec in Hsingle. simpl in Hsingle.
    pose proof (filter_size_replace active_record _ _ _ rec' Er) as E.
    rewrite decide_False, decide_True in E
      by (unfold active_record; simpl; congruence). lia.
  - intros k o Ho. destruct (Hterm k o Ho) as (? & owner & Hown & Hav & Hp).
    split; [done|]. unfold terminal_ok. rewrite lookup_insert.
    case_decide as E; [|by exists owner].
    exists rec'. split; [done|]. split; [by left|done].
Qed.

(** Replacing or adding one well-formed terminal record keeps the invariant. *)
Lemma insert_terminal_inv o c :
  inv c -> terminal_ok (gc_records c) o -> inv (set_owned (to_terminal o) o c).
Proof.
  intros [Hkey Hlim Hcur Hsingle Hterm] Ho. split; try done. simpl.
  intros k o'. rewrite lookup_insert_Some. intros [[<- <-]|[_ ?]]; [done|]. by apply Hterm.
Qed.

Lemma owned_Some c t o :
  owned c t = Some o -> to_terminal o = t /\ gc_terminals c !! terminal_key t = Some o.
Proof.
  unfold owned, TerminalRef_fences. destruct (gc_terminals c !! _) as [o'|]; [|done].
  case_bool_decide; [|done]. by intros [= <-].
Qed.

Lemma owned_ok c t o : inv c -> owned c t = Some o -> terminal_ok (gc_records c) o.
Proof. intros Hi [_ H]%owned_Some. by apply (inv_terminal c Hi) in H as [_ ?]. Qed.

Lemma reserve_terminal_inv t c r c' : reserve_terminal t c = (r, c') -> inv c -> inv c'.
Proof.
  unfold reserve_terminal. intros H Hi.
  destruct (require_active c (tr_daemon_generation t)) eqn:Ea; [|by simplify_eq].
  destruct (bool_decide (is_Some _)); simplify_eq; [done|].
  apply (insert_terminal_inv (MkTerminalOwnership t None TerminalState.IdentityUnknown)); [done|].
  unfold require_active, role in Ea.
  destruct (gc_records c !! as_str (tr_daemon_generation t)) as [owner|] eqn:Eo.
  - exists owner. done.
  - rewrite (bool_decide_eq_false_2 (gr_role <$> None = Some Active)), andb_false_r in Ea;
      done.
Qed.

Lemma record_spawn_inv t p c r c' :
  record_spawn t p c = (r, c') -> inv c ->
  (role c (tr_daemon_generation t) = Some Active \/
   role c (tr_daemon_generation t) = Some Draining) ->
  inv c'.
Proof.
  unfold record_spawn. intros H Hi Hrole.
  destruct (owned c t) as [o|] eqn:Eo; simplify_eq; [|done].
  pose proof (owned_ok _ _ _ Hi Eo) as (owner & Ho & _).
  apply owned_Some in Eo as [<- _]. apply (insert_terminal_inv (MkTerminalOwnership _ _ _)); [done|].
  exists owner. simpl. split; [done|]. split; [|done]. intros _.
  unfold role in Hrole. rewrite Ho in Hrole. simpl in Hrole. destruct Hrole; [left|right]; congruence.
Qed.

Lemma with_state_ok records o s :
  terminal_ok records o -> s <> TerminalState.Available ->
  (s = TerminalState.OrphanRunning -> to_process o <> None) ->
  terminal_ok records (with_state o s).
Proof.
  intros (owner & ? & ? & ?) Hs Hp. exists owner. simpl. split_and!; [done|done|].
  intros E. split; [done|]. intros ->. by apply Hp.
Qed.

Lemma resolve_orphan_inv t ob ack c r c' :
  resolve_orphan t ob ack c = (r, c') -> inv c -> inv c'.
Proof.
  unfold resolve_orphan. intros H Hi. destruct (owned c t) as [o|] eqn:Eo; [|by simplify_eq].
  pose proof (owned_ok _ _ _ Hi Eo) as Hok. apply owned_Some in Eo as [Et _]. subst t.
  assert (Hset : forall s, s <> TerminalState.Available ->
    (s = TerminalState.OrphanRunning -> to_process o <> None) ->
    inv (set_owned (to_terminal o) (with_state o s) c)).
  { intros s Hs Hp. by apply (insert_terminal_inv (with_state o s)), with_state_ok. }
  destruct ob as [actual| |]; simpl in H.
  - destruct (bool_decide (to_process o = Some actual)) eqn:Ep; destruct ack; simpl in H;
      simplify_eq; try done; apply Hset; try done.
    apply bool_decide_eq_true in Ep. congruence.
  - simplify_eq. by apply Hset.
  - destruct ack; simpl in H; simplify_eq; by apply Hset.
Qed.

Lemma forget_resolved_process_inv t c r c' :
  forget_resolved_process t c = (r, c') -> inv c -> inv c'.
Proof.
  unfold forget_resolved_process. intros H Hi. destruct (owned c t) as [o|] eqn:Eo; [|by simplify_eq].
  pose proof (owned_ok _ _ _ Hi Eo) as (owner & ? & ? & ?). apply owned_Some in Eo as [<- _].
  destruct (unresolved (to_state o)) eqn:Eu; simplify_eq; [done|].
  apply (insert_terminal_inv (MkTerminalOwnership _ _ _)); [done|].
  exists owner. simpl. split_and!; [done|done|]. intros _. by destruct (to_state o).
Qed.

Lemma forget_terminal_inv t c r c' : forget_terminal t c = (r, c') -> inv c -> inv c'.
Proof.
  unfold forget_terminal. intros H Hi. destruct (owned c t) as [o|]; [|by simplify_eq].
  destruct (unresolved (to_state o)); simplify_eq; [done|].
  destruct Hi as [Hkey Hlim Hcur Hsingle Hterm]. split; try done. simpl.
  intros k o' [_ ?]%lookup_delete_Some. by apply Hterm.
Qed.

Lemma restore_terminal_inv o c r c' : restore_terminal o c = (r, c') -> inv c -> inv c'.
Proof.
  unfold restore_terminal. intros H Hi.
  destruct (gc_records c !! _) as [owner|] eqn:Eo; [|by simplify_eq].
  destruct (bool_decide (to_state o = _) && negb _) eqn:E1; [by simplify_eq|].
  destruct (bool_decide (to_process o = None) && _) eqn:E2; [by simplify_eq|].
  assert (Hok : terminal_ok (gc_records c) o).
  { exists owner. split; [done|]. split.
    - intros Ha. rewrite bool_decide_eq_true_2 in E1 by done. simpl in E1.
      apply negb_false_iff, orb_true_iff in E1 as [?|?]; [left|right]; by eapply bool_decide_eq_true.
    - intros Hp. rewrite bool_decide_eq_true_2 in E2 by done. simpl in E2.
      apply orb_false_iff in E2 as [?%bool_decide_eq_false ?%bool_decide_eq_false]. done. }
  destruct (bool_decide (is_Some _)); simplify_eq; by apply insert_terminal_inv.
Qed.

Lemma restore_inv s limit c : restore s limit = Ok c -> inv c.
Proof.
  unfold restore. intros H.
  destruct (st_bind _ _ (new limit)) as [[a|e] c'] eqn:E; simplify_eq.
  apply st_bind_ok_inv in E as (? & c1 & E1 & E).
  apply st_bind_ok_inv in E as (? & c2 & E2 & E).
  apply st_bind_ok_inv in E as (? & c3 & E3 & E).
  apply st_bind_ok_inv in E as (? & c4 & E4 & E).
  assert (Ht : inv_table c1).
  { eapply (st_iter_preserves inv_table); [|exact E1|].
    - intros r ???? Hr. exact (register_record_table _ _ _ _ Hr).
    - split; [intros k r Hr; simpl in Hr; by rewrite lookup_empty in Hr|].
      unfold retained_generations, new. simpl. rewrite map_filter_empty, map_size_empty. lia. }
  assert (Hterms : gc_terminals c1 = ∅).
  { eapply (st_iter_preserves (fun c => gc_terminals c = ∅)); [|exact E1|done].
    intros r s1 r1 s1' _ Hr Hs1. unfold register_record in Hr.
    repeat case_bool_decide; repeat case_match; by simplify_eq. }
  unfold st_modify in E2. simplify_eq. unfold check_current in E3. simpl in E3.
  assert (Hcur : forall g, gs_current s = Some g -> role c1 g = Some Active).
  { intros g Hg. rewrite Hg in E3. apply dec_stable. intros Hd.
    rewrite bool_decide_eq_true_2 in E3 by done. done. }
  assert (c3 = with_current c1 (gs_current s)) as ->.
  { destruct (gs_current s); [case_bool_decide|]; by simplify_eq. }
  unfold check_single_active in E4. destruct (bool_decide _) eqn:Hd in E4; simplify_eq.
  apply bool_decide_eq_false, dec_stable in Hd.
  eapply (st_iter_preserves inv); [|exact E|].
  - intros o ???? Ho. exact (restore_terminal_inv _ _ _ _ Ho).
  - destruct Ht as [Hkey Hlim]. split; try done. simpl. intros k o. by rewrite Hterms, lookup_empty.
Qed.

(** Every state a coordinator can be in: restored from a snapshot (an empty
    one included) and moved by its operations, refusals included.  A spawn is
    recorded only for a terminal whose owner may hold a live child. *)
Inductive reachable : GenerationCoordinator -> Prop :=
| reach_restore s limit c : restore s limit = Ok c -> reachable c
| reach_register g endpoint c r c' :
    reachable c -> register_standby g endpoint c = (r, c') -> reachable c'
| reach_activate g c r c' : reachable c -> activate_initial g c = (r, c') -> reachable c'
| reach_reserve t c r c' : reachable c -> reserve_terminal t c = (r, c') -> reachable c'
| reach_spawn t p c r c' :
    reachable c ->
    (role c (tr_daemon_generation t) = Some Active \/
     role c (tr_daemon_generation t) = Some Draining) ->
    record_spawn t p c = (r, c') -> reachable c'
| reach_resolve t ob ack c r c' :
    reachable c -> resolve_orphan t ob ack c = (r, c') -> reachable c'
| reach_forget_process t c r c' :
    reachable c -> forget_resolved_process t c = (r, c') -> reachable c'
| reach_forget t c r c' : reachable c -> forget_terminal t c = (r, c') -> reachable c'.

Lemma coordinator_inv c : reachable c -> inv c.
Proof.
  induction 1; eauto using restore_inv, register_standby_inv, activate_initial_inv,
    reserve_terminal_inv, record_spawn_inv, resolve_orphan_inv,
    forget_resolved_process_inv, forget_terminal_inv.
Qed.
End GenerationCoordinator.

(** ** Properties *)
Section properties.
Import GenerationCoordinator.

(** A coordinator persisted and restored is the same coordinator, from any
    state it can reach: no terminal ownership is forgotten and nothing a
    running daemon wrote is refused at its next start. *)
Theorem restore_roundtrip c :
  reachable c -> restore (snapshot c) (gc_limit c) = Ok c.
Proof. intros H. by apply restore_snapshot_inv, coordinator_inv. Qed.

(** A terminal is resolved to an endpoint only if exactly this reference is
    registered and available, its spawn was recorded with a process identity,
    and the generation named by the reference is active or draining; and only
    the single current generation passes the control fence. *)
Theorem terminal_routing_fenced c t endpoint :
  reachable c -> terminal_endpoint c t = Ok endpoint ->
  (exists o owner p,
    gc_terminals c !! terminal_key t = Some o /\ to_terminal o = t /\
    to_state o = TerminalState.Available /\ to_process o = Some p /\
    gc_records c !! as_str (tr_daemon_generation t) = Some owner /\
    gr_generation owner = tr_daemon_generation t /\ gr_endpoint owner = endpoint /\
    (gr_role owner = Active \/ gr_role owner = Draining)) /\
  (forall g r, gc_records c !! as_str g = Some r -> gr_role r = Active ->
     gc_current c = Some g).
Proof.
  intros Hr H. apply coordinator_inv in Hr. unfold terminal_endpoint in H.
  destruct (owned c t) as [o|] eqn:Eo; [|done]. simpl in H.
  case_bool_decide as Es; [done|].
  pose proof (owned_ok _ _ _ Hr Eo) as (owner & Hown & _ & Hp).
  apply owned_Some in Eo as [Et Eo]. rewrite Et in Hown. rewrite Hown in H. split.
  - destruct (bool_decide (gr_role owner = Active) || bool_decide (gr_role owner = Draining))
      eqn:Erole; simplify_eq.
    destruct (to_process o) as [p|] eqn:Ep; [|by destruct (Hp eq_refl)].
    exists o, owner, p. split_and!; auto.
    + apply (inv_record_key c Hr), as_str_inj in Hown. done.
    + apply orb_true_iff in Erole as [E|E]; apply bool_decide_eq_true in E; auto.
  - intros g r Hg Hrole. pose proof (inv_single c Hr) as Hs.
    assert (Hpos : 1 <= active_records c).
    { unfold active_records. transitivity (size ({[as_str g := r]} : gmap string GenerationRecord)).
      { by rewrite map_size_singleton. }
      apply map_subseteq_size, map_subseteq_spec. intros k r'. rewrite lookup_singleton_Some.
      intros [<- <-]. by apply map_lookup_filter_Some. }
    destruct (gc_current c) as [g0|] eqn:Ec; simpl in Hs; [|lia]. f_equal.
    pose proof (inv_current c Hr g0 Ec) as Hg0. unfold role in Hg0.
    destruct (gc_records c !! as_str g0) as [r0|] eqn:Eg0; [|done]. simpl in Hg0.
    destruct (decide (as_str g0 = as_str g)) as [E|E]; [by apply as_str_inj in E|].
    exfalso. assert (size (<[as_str g := r]> {[as_str g0 := r0]} : gmap string _) <= active_records c).
    { unfold active_records. apply map_subseteq_size, map_subseteq_spec. intros k r'.
      rewrite lookup_insert_Some, lookup_singleton_Some, map_lookup_filter_Some.
      unfold active_record. intros [[<- <-]|[_ [<- <-]]]; split; simpl; congruence. }
    rewrite map_size_insert_None in H0; [|by rewrite lookup_singleton_ne].
    rewrite map_size_singleton in H0. lia.
Qed.
End properties.

(** A concrete run: a first daemon registers, activates, reserves a terminal and
    records its spawn. *)
Module GenerationExample.
Import GenerationCoordinator.
Definition g1 := MkDaemonGeneration "g1".
Definition t1 := MkTerminalRef g1 (MkTerminalId "t1") (MkWorkspaceId "w") None (MkWorktreeId "k").
Definition p1 := MkProcessIdentity 42 "boot" 42.
Definition run1 := snd (register_standby g1 "sock" (new 2)).
Definition run2 := snd (activate_initial g1 run1).
Definition run3 := snd (reserve_terminal t1 run2).
Definition run : GenerationCoordinator := snd (record_spawn t1 p1 run3).

Lemma run_reachable : reachable run.
Proof.
  apply (reach_spawn t1 p1 run3 (Ok tt)); [|by left|reflexivity].
  apply (reach_reserve t1 run2 (Ok tt)); [|reflexivity].
  apply (reach_activate g1 run1 (Ok tt)); [|reflexivity].
  apply (reach_register g1 "sock" (new 2) (Ok tt)); [|reflexivity].
  by apply (reach_restore (MkGenerationSnapshot None [] []) 2).
Qed.
End GenerationExample.

Lemma restore_roundtrip_witness :
  GenerationCoordinator.restore (GenerationCoordinator.snapshot GenerationExample.run) 2 =
  Ok GenerationExample.run.
Proof. exact (restore_roundtrip GenerationExample.run GenerationExample.run_reachable). Defined.

Lemma terminal_routing_fenced_witness :
  GenerationCoordinator.terminal_endpoint GenerationExample.run GenerationExample.t1 = Ok "sock" /\
  exists owner,
    gc_records GenerationExample.run !! "g1" = Some owner /\ gr_endpoint owner = "sock".
Proof.
  split; [reflexivity|].
  destruct (terminal_routing_fenced GenerationExample.run GenerationExample.t1 "sock"
    GenerationExample.run_reachable eq_refl) as [(o & owner & p & _ & _ & _ & _ & H & _ & H' & _) _].
  exists owner. by split.
Defined.
