(* ===== verification/CasFile.v ===== *)
(** * The durable byte seam and the compare-and-swap protocol
    ([crates/daemon/src/usecase/resources/mod.rs])

    A durable document lives in one file that several processes read and
    replace.  [CasFile] is the trait through which it is reached; a
    [FileState] models one such file {i together with} everything the other
    processes and the disk will do to it: before each of our operations the next
    [EnvStep] of the environment happens - nothing, another writer's replacement,
    or an I/O failure of our operation.  Theorems quantify over the whole
    environment, hence over every interleaving and every fault.

    [CasStore] is the swap protocol over the seam; the serializer
    ([serde_json]) is a parameter with its round-trip law. *)
From S2P Require Export Prelude.

Record IoError := MkIoError { io_kind : string; io_message : string }.

(** A typed refusal or a store failure ([ResourceFailure], [RegistryFailure]). *)
Inductive Failure (E : Type) : Type :=
| Refused (error : E)
| Io (error : IoError).
Global Arguments Refused {E} error.
Global Arguments Io {E} error.

(** [ResourceFailure::refusal] *)
Definition refusal {E} (f : Failure E) : option E :=
  match f with Refused e => Some e | Io _ => None end.

(** ** The file and its environment *)
Inductive EnvStep (Bytes : Type) : Type :=
| EnvIdle
| EnvWrite (contents : option Bytes)
| EnvFault (error : IoError).
Global Arguments EnvIdle {Bytes}.
Global Arguments EnvWrite {Bytes} contents.
Global Arguments EnvFault {Bytes} error.

Record FileState (Bytes : Type) := MkFileState {
  contents : option Bytes;
  env : list (EnvStep Bytes);
}.
Global Arguments MkFileState {Bytes} contents env.
Global Arguments contents {Bytes} f : rename.
Global Arguments env {Bytes} f : rename.

Definition is_env_write {Bytes} (s : EnvStep Bytes) : bool :=
  match s with EnvWrite _ => true | _ => false end.

Definition env_effect {Bytes} (s : EnvStep Bytes) (c : option Bytes) : option Bytes :=
  match s with EnvWrite c' => c' | _ => c end.

(** The next environment step: its effect on the contents, and the fault it
    injects into our operation. *)
Definition next_step {Bytes} (f : FileState Bytes) : EnvStep Bytes :=
  default EnvIdle (head (env f)).

Definition step_fault {Bytes} (s : EnvStep Bytes) : option IoError :=
  match s with EnvFault e => Some e | _ => None end.

Definition tick {Bytes} (f : FileState Bytes) : FileState Bytes :=
  MkFileState (env_effect (next_step f) (contents f)) (tail (env f)).

Section file_operations.
Context {Bytes : Type} `{EqDecision Bytes}.

(** [CasFile::read] *)
Definition file_read : st (FileState Bytes) IoError (option Bytes) := fun f =>
  match step_fault (next_step f) with
  | Some e => (Err e, tick f)
  | None => (Ok (contents (tick f)), tick f)
  end.

(** [CasFile::compare_and_write]: the comparison and the replacement are one
    transaction. *)
Definition compare_and_write (expected : option Bytes) (new : Bytes)
    : st (FileState Bytes) IoError bool := fun f =>
  match step_fault (next_step f) with
  | Some e => (Err e, tick f)
  | None =>
      if decide (contents (tick f) = expected)
      then (Ok true, MkFileState (Some new) (env (tick f)))
      else (Ok false, tick f)
  end.
End file_operations.

(** [f'] is reached from [f] by environment steps alone: nothing of ours was
    written. *)
Inductive env_only {Bytes} : FileState Bytes -> FileState Bytes -> Prop :=
| env_refl f : env_only f f
| env_tick f f' : env_only (tick f) f' -> env_only f f'.

Lemma env_only_trans {Bytes} (f g h : FileState Bytes) :
  env_only f g -> env_only g h -> env_only f h.
Proof. induction 1; eauto using env_tick. Qed.

(** ** Documents *)

(** The serializer the code calls. *)
Class Serde (D Bytes : Type) := {
  to_string : D -> option Bytes;
  from_str : Bytes -> option D;
}.

Class SerdeLaws (D Bytes : Type) `{Serde D Bytes} : Prop :=
  from_to_string : forall (d : D) b, to_string d = Some b -> from_str b = Some d.

(** The refusals the protocol itself raises. *)
Class CasError (E : Type) := {
  cas_stale_revision : E;
  cas_corrupt : E;
}.

(** [trait CasDocument] *)
Class CasDocument (D E : Type) := {
  doc_revision : D -> N;
  doc_bump : D -> D;
  doc_validate : D -> result E unit;
}.

Class CasDocumentLaws (D E : Type) `{CasDocument D E} : Prop :=
  revision_bump : forall d : D, doc_revision (doc_bump d) = (doc_revision d + 1)%N.

Record CasSnapshot (D Bytes : Type) := MkCasSnapshot {
  cs_document : D;
  cs_observed : option Bytes;
}.
Global Arguments MkCasSnapshot {D Bytes} cs_document cs_observed.
Global Arguments cs_document {D Bytes} c : rename.
Global Arguments cs_observed {D Bytes} c : rename.

Definition MAX_CAS_UPDATE_ATTEMPTS : nat := 64.

(** ** [CasStore] *)
Section cas_store.
Context {D Bytes E : Type} `{EqDecision D} `{EqDecision Bytes} `{EqDecision E}
  `{Serde D Bytes} `{CasError E} `{CasDocument D E}.

Definition store (A : Type) : Type := st (FileState Bytes) (Failure E) A.

(** [?] converting an [io::Error] or a refusal into the failure type. *)
Definition io_op {A} (op : st (FileState Bytes) IoError A) : store A := fun f =>
  let (r, f') := op f in (map_err Io r, f').
Definition refuse {A} (r : result E A) : store A := st_lift (map_err Refused r).

Definition cas_load (absent : D) : store (CasSnapshot D Bytes) :=
  observed <-! io_op file_read ;;
  match observed with
  | None =>
      refuse (doc_validate absent) ;;;
      st_ret (MkCasSnapshot absent None)
  | Some observed =>
      document <-! refuse (ok_or (from_str observed) cas_corrupt) ;;
      (refuse (doc_validate document) ;;;
       st_ret (MkCasSnapshot document (Some observed)))
  end.

Definition cas_commit (snapshot : CasSnapshot D Bytes) (next : D)
    : store (CasSnapshot D Bytes) :=
  if bool_decide (doc_revision next <> (doc_revision (cs_document snapshot) + 1)%N)
  then st_throw (Refused cas_stale_revision)
  else
    refuse (doc_validate next) ;;;
    (contents <-! refuse (ok_or (to_string next) cas_corrupt) ;;
     (swapped <-! io_op (compare_and_write (cs_observed snapshot) contents) ;;
      if swapped : bool then st_ret (MkCasSnapshot next (Some contents))
      else st_throw (Refused cas_stale_revision))).

(** [change] runs on a copy of the loaded document; a refusal drops it. *)
Definition cas_update {T} (absent : D) (change : st D E T) : store (T * CasSnapshot D Bytes) :=
  snapshot <-! cas_load absent ;;
  let '(r, next) := change (cs_document snapshot) in
  value <-! refuse r ;;
  (if decide (next = cs_document snapshot) then st_ret (value, snapshot)
   else
     committed <-! cas_commit snapshot (doc_bump next) ;;
     st_ret (value, committed)).

Fixpoint update_loop {T} (attempts_remaining : nat) (absent : D) (change : st D E T)
    : store (T * CasSnapshot D Bytes) :=
  match attempts_remaining with
  | 0 => st_throw (Refused cas_stale_revision)
  | S attempts_remaining =>
      snapshot <-! cas_load absent ;;
      let '(r, next) := change (cs_document snapshot) in
      value <-! refuse r ;;
      (if decide (next = cs_document snapshot) then st_ret (value, snapshot)
       else fun f =>
         match cas_commit snapshot (doc_bump next) f with
         | (Ok committed, f') => (Ok (value, committed), f')
         | (Err failure, f') =>
             if decide (refusal failure = Some cas_stale_revision)
             then if decide (attempts_remaining = 0) then (Err failure, f')
                  else update_loop attempts_remaining absent change f'
             else (Err failure, f')
         end)
  end.

Definition cas_update_retrying {T} (absent : D) (change : st D E T)
    : store (T * CasSnapshot D Bytes) :=
  update_loop MAX_CAS_UPDATE_ATTEMPTS absent change.
End cas_store.

(** ** Laws *)
Section cas_laws.
Context {D Bytes E : Type} `{EqDecision D} `{EqDecision Bytes} `{EqDecision E}
  `{SerdeLaws D Bytes} `{CasError E} `{CasDocumentLaws D E}.
Implicit Types (f : FileState Bytes) (s : CasSnapshot D Bytes).

(** What a snapshot says about the bytes it was read from. *)
Definition snapshot_of (absent : D) (s : CasSnapshot D Bytes) : Prop :=
  doc_validate (cs_document s) = Ok tt /\
  match cs_observed s with
  | None => cs_document s = absent
  | Some b => from_str b = Some (cs_document s)
  end.

Lemma cas_load_spec absent f r f' :
  cas_load (E := E) absent f = (r, f') ->
  f' = tick f /\ forall s, r = Ok s ->
    step_fault (next_step f) = None /\ contents f' = cs_observed s /\ snapshot_of absent s.
Proof.
  unfold cas_load, io_op, refuse, file_read. unfold st_bind at 1.
  destruct (step_fault (next_step f)) eqn:Ef; simpl.
  { intros [= <- <-]. split; [done|]. by intros. }
  destruct (env_effect (next_step f) (contents f)) as [b|] eqn:Ec; st_simpl; unfold st_bind.
  - destruct (from_str b) as [d|] eqn:Ed; simpl; [|intros [= <- <-]; by split].
    destruct (doc_validate d) as [[]|] eqn:Ev; simpl; intros [= <- <-]; split; try done.
    intros s [= <-]. by split_and!.
  - destruct (doc_validate absent) as [[]|] eqn:Ev; simpl; intros [= <- <-]; split; try done.
    intros s [= <-]. by split_and!.
Qed.

(** A commit writes only when the bytes still are the ones the snapshot was
    read from; every failure writes nothing. *)
Lemma cas_commit_spec s next f r f' :
  cas_commit (E := E) s next f = (r, f') ->
  match r with
  | Ok s' =>
      exists b, to_string next = Some b /\ doc_validate next = Ok tt /\
        doc_revision next = (doc_revision (cs_document s) + 1)%N /\
        s' = MkCasSnapshot next (Some b) /\
        step_fault (next_step f) = None /\
        contents (tick f) = cs_observed s /\
        f' = MkFileState (Some b) (env (tick f))
  | Err e =>
      (f' = f \/ f' = tick f) /\
      (e = Refused cas_stale_revision ->
       doc_validate next <> Err cas_stale_revision -> @cas_stale_revision E _ <> cas_corrupt ->
       doc_revision next = (doc_revision (cs_document s) + 1)%N ->
       f' = tick f /\ contents (tick f) <> cs_observed s)
  end.
Proof.
  unfold cas_commit. destruct (bool_decide _) eqn:Er.
  { unfold st_throw. intros [= <- <-]. split; [by left|].
    intros _ _ _ E1. by apply bool_decide_eq_true in Er. }
  apply bool_decide_eq_false, dec_stable in Er.
  unfold refuse, io_op, compare_and_write, st_bind, st_lift.
  destruct (doc_validate next) as [[]|e] eqn:Ev; simpl.
  2:{ intros [= <- <-]. split; [by left|]. congruence. }
  destruct (to_string next) as [b|] eqn:Eb; simpl.
  2:{ intros [= <- <-]. split; [by left|]. congruence. }
  destruct (step_fault (next_step f)) eqn:Ef; simpl.
  { intros [= <- <-]. split; [by right|]. congruence. }
  unfold st_throw, st_ret. destruct (decide _) as [Ed|Ed]; intros [= <- <-].
  - exists b. by split_and!.
  - split; [by right|]. by intros.
Qed.

(** What one update attempt that reported [r] did to the file. *)
Definition update_outcome {T} (absent : D) (change : st D E T) (f : FileState Bytes)
    (r : result (Failure E) (T * CasSnapshot D Bytes)) (f' : FileState Bytes) : Prop :=
  match r with
  | Ok (v, s') =>
      exists s f0 next,
        env_only f f0 /\ contents f0 = cs_observed s /\ snapshot_of absent s /\
        change (cs_document s) = (Ok v, next) /\
        ((next = cs_document s /\ s' = s /\ f' = f0) \/
         (next <> cs_document s /\ cs_document s' = doc_bump next /\
          doc_validate (doc_bump next) = Ok tt /\
          contents (tick f0) = cs_observed s /\
          exists b, to_string (doc_bump next) = Some b /\ cs_observed s' = Some b /\
            f' = MkFileState (Some b) (env (tick f0))))
  | Err _ => env_only f f'
  end.

Lemma env_only_tick f f' : f' = f \/ f' = tick f -> env_only f f'.
Proof. intros [->| ->]; [apply env_refl|apply env_tick, env_refl]. Qed.

Lemma update_outcome_later {T} absent (change : st D E T) f g r f' :
  env_only f g -> update_outcome absent change g r f' -> update_outcome absent change f r f'.
Proof.
  intros Hfg. destruct r as [[v s']|e]; simpl.
  - intros (s & f0 & next & He & Hrest). exists s, f0, next.
    split; [by eapply env_only_trans|done].
  - by apply env_only_trans.
Qed.

(** One attempt: either the loop's body or the whole of [cas_update]. *)
Lemma update_attempt {T} absent (change : st D E T) f s f0 v next r1 f' :
  env_only f f0 -> contents f0 = cs_observed s -> snapshot_of absent s ->
  change (cs_document s) = (Ok v, next) -> next <> cs_document s ->
  cas_commit s (doc_bump next) f0 = (r1, f') ->
  update_outcome absent change f (map_ok (fun c => (v, c)) r1) f'.
Proof.
  intros He Hc Hs Hch Hne Hcommit. apply cas_commit_spec in Hcommit.
  destruct r1 as [s'|e]; simpl.
  - destruct Hcommit as (b & Hb & Hv & _ & -> & _ & Ht & ->).
    exists s, f0, next. split_and!; try done. right. split_and!; try done. by exists b.
  - eapply env_only_trans; [exact He|]. apply env_only_tick, Hcommit.
Qed.

Lemma cas_update_outcome {T} absent (change : st D E T) f r f' :
  cas_update absent change f = (r, f') -> update_outcome absent change f r f'.
Proof.
  unfold cas_update. intros Hu. apply st_bind_inv in Hu as [(s & f0 & Hl & Hu)|(e & Hl & ->)];
    apply cas_load_spec in Hl as [-> Hl].
  2:{ apply env_tick, env_refl. }
  destruct (Hl s eq_refl) as (_ & Hc & Hs). clear Hl.
  assert (He : env_only f (tick f)) by apply env_tick, env_refl.
  destruct (change (cs_document s)) as [[v|e] next] eqn:Ech; unfold refuse, st_bind, st_lift in Hu;
    simpl in Hu; [|by simplify_eq].
  destruct (decide _) as [Ed|Ed].
  - unfold st_ret in Hu. simplify_eq. exists s, (tick f), (cs_document s).
    split_and!; try done. by left.
  - destruct (cas_commit s (doc_bump next) (tick f)) as [r1 f1] eqn:Ec.
    pose proof (update_attempt _ _ _ _ _ _ _ _ _ He Hc Hs Ech Ed Ec) as Ho.
    unfold st_ret in Hu. destruct r1; simpl in *; by simplify_eq.
Qed.

Lemma update_loop_outcome {T} n absent (change : st D E T) f r f' :
  update_loop n absent change f = (r, f') -> update_outcome absent change f r f'.
Proof.
  revert f. induction n as [|n IH]; intros f Hu; cbn [update_loop] in Hu.
  { unfold st_throw in Hu. simplify_eq. apply env_refl. }
  apply st_bind_inv in Hu as [(s & f0 & Hl & Hu)|(e & Hl & ->)];
    apply cas_load_spec in Hl as [-> Hl].
  2:{ apply env_tick, env_refl. }
  destruct (Hl s eq_refl) as (_ & Hc & Hs). clear Hl.
  assert (He : env_only f (tick f)) by apply env_tick, env_refl.
  destruct (change (cs_document s)) as [[v|e] next] eqn:Ech; unfold refuse in Hu;
    unfold st_bind, st_lift in Hu; simpl in Hu; [|by simplify_eq].
  destruct (decide _) as [Ed|Ed].
  { unfold st_ret in Hu. simplify_eq. exists s, (tick f), (cs_document s).
    split_and!; try done. by left. }
  destruct (cas_commit s (doc_bump next) (tick f)) as [r1 f1] eqn:Ec.
  pose proof (update_attempt _ _ _ _ _ _ _ _ _ He Hc Hs Ech Ed Ec) as Ho.
  destruct r1 as [s'|e]; simpl in *; [by simplify_eq|].
  repeat case_decide; simplify_eq; try done.
  eapply update_outcome_later; [exact Ho|]. by apply IH.
Qed.

Definition env_writes (f : FileState Bytes) : nat := count is_env_write (env f).

Lemma env_writes_tick f :
  env_writes f = (if is_env_write (next_step f) then 1 else 0) + env_writes (tick f).
Proof.
  unfold env_writes, next_step, tick. destruct (env f) as [|e l]; [done|]. simpl.
  by rewrite count_cons.
Qed.

Lemma tick_changed f : contents (tick f) <> contents f -> is_env_write (next_step f) = true.
Proof. unfold tick. simpl. by destruct (next_step f). Qed.

(** What the protocol asks of a [change]: it leaves the revision to the store
    and does not itself report contention. *)
Definition plain_change {T} (change : st D E T) : Prop :=
  (forall d v d', change d = (Ok v, d') -> doc_revision d' = doc_revision d) /\
  (forall d d', change d <> (Err cas_stale_revision, d')).

Definition plain_document : Prop :=
  (forall d : D, doc_validate d <> Err (cas_stale_revision (E := E))) /\
  @cas_stale_revision E _ <> cas_corrupt.

Lemma cas_load_not_stale absent f f' :
  plain_document -> cas_load absent f <> (Err (Refused (@cas_stale_revision E _)), f').
Proof.
  intros [Hv Hc]. unfold cas_load, io_op, refuse, file_read, st_bind, st_lift.
  destruct (step_fault (next_step f)); simpl; [done|].
  destruct (env_effect (next_step f) (contents f)) as [b|]; simpl.
  - destruct (from_str b) as [d|]; simpl; [|congruence].
    pose proof (Hv d). destruct (doc_validate d); simpl; [done|congruence].
  - pose proof (Hv absent). destruct (doc_validate absent); simpl; [done|congruence].
Qed.

(** Each lost race is another writer's commit. *)
Lemma update_loop_contention {T} n absent (change : st D E T) f f' :
  plain_document -> plain_change change -> n <> 0 ->
  update_loop n absent change f = (Err (Refused cas_stale_revision), f') ->
  n + env_writes f' <= env_writes f.
Proof.
  intros Hd [Hrev Hst]. revert f. induction n as [|n IH]; intros f Hn Hu; [done|].
  cbn [update_loop] in Hu.
  apply st_bind_inv in Hu as [(s & f0 & Hl & Hu)|(e & Hl & He)].
  2:{ simplify_eq. by apply cas_load_not_stale in Hl. }
  apply cas_load_spec in Hl as [-> Hl]. destruct (Hl s eq_refl) as (_ & Hc & Hs). clear Hl.
  destruct (change (cs_document s)) as [[v|e] next] eqn:Ech; unfold refuse in Hu;
    unfold st_bind, st_lift in Hu; simpl in Hu.
  2:{ simplify_eq. by apply Hst in Ech. }
  destruct (decide _) as [Ed|Ed]; [done|].
  destruct (cas_commit s (doc_bump next) (tick f)) as [[s'|e] f1] eqn:Ec; [done|].
  apply cas_commit_spec in Ec as [_ Hstale].
  assert (He : e = Refused cas_stale_revision).
  { case_decide as E1; [|by simplify_eq]. destruct e; simpl in E1; congruence. }
  destruct (Hstale He) as [-> Hlost].
  { apply Hd. } { apply Hd. } { rewrite revision_bump. f_equal. by eapply Hrev. }
  rewrite decide_True in Hu by (by rewrite He).
  rewrite <- Hc in Hlost. apply tick_changed in Hlost.
  pose proof (env_writes_tick f). pose proof (env_writes_tick (tick f)) as Hw.
  rewrite Hlost in Hw. destruct (decide (n = 0)) as [->|Hn0].
  - simplify_eq. lia.
  - apply IH in Hu; [lia|done].
Qed.

Definition quiet (f : FileState Bytes) : Prop := forall x, x ∈ env f -> x = EnvIdle.

Lemma quiet_tick f :
  quiet f -> contents (tick f) = contents f /\ step_fault (next_step f) = None /\ quiet (tick f).
Proof.
  unfold quiet, tick, next_step. destruct (env f) as [|e l]; simpl; [done|].
  intros Hq. rewrite (Hq e) by left. split_and!; try done. intros x Hx. apply Hq. by right.
Qed.

Lemma cas_load_quiet absent f s :
  quiet f -> contents f = cs_observed s -> snapshot_of absent s ->
  cas_load (E := E) absent f = (Ok s, tick f).
Proof.
  intros (Hc & Hf & _)%quiet_tick Ho [Hv Hs]. unfold cas_load, io_op, refuse, file_read.
  unfold st_bind at 1. rewrite Hf. simpl. unfold tick in Hc. simpl in Hc. rewrite Hc, Ho.
  destruct s as [d [b|]]; simpl in *; unfold st_bind, st_lift.
  - by rewrite Hs; simpl; rewrite Hv.
  - subst d. by rewrite Hv.
Qed.

Lemma cas_commit_quiet s next b f :
  quiet f -> contents f = cs_observed s ->
  doc_revision next = (doc_revision (cs_document s) + 1)%N ->
  doc_validate next = Ok tt -> to_string next = Some b ->
  cas_commit (E := E) s next f =
  (Ok (MkCasSnapshot next (Some b)), MkFileState (Some b) (env (tick f))).
Proof.
  intros (Hc & Hf & _)%quiet_tick Ho Hrev Hv Hb. unfold cas_commit.
  rewrite bool_decide_eq_false_2 by auto.
  unfold refuse, io_op, compare_and_write, st_bind, st_lift.
  rewrite Hv. simpl. rewrite Hb. simpl. rewrite Hf. simpl. unfold tick in Hc. simpl in Hc.
  by rewrite Hc, Ho, decide_True.
Qed.

(** Without contention or faults an accepted change is committed by the first
    attempt. *)
Lemma update_loop_quiet {T} n absent (change : st D E T) f s v next b :
  n <> 0 -> quiet f -> contents f = cs_observed s -> snapshot_of absent s ->
  change (cs_document s) = (Ok v, next) -> next <> cs_document s ->
  doc_revision next = doc_revision (cs_document s) ->
  doc_validate (doc_bump next) = Ok tt -> to_string (doc_bump next) = Some b ->
  update_loop n absent change f =
  (Ok (v, MkCasSnapshot (doc_bump next) (Some b)), MkFileState (Some b) (env (tick (tick f)))).
Proof.
  intros Hn Hq Hc Hs Hch Hne Hrev Hv Hb. destruct n as [|n]; [done|]. cbn [update_loop].
  unfold st_bind at 1. rewrite (cas_load_quiet absent f s) by done. rewrite Hch.
  unfold refuse, st_bind, st_lift. simpl. rewrite decide_False by done.
  destruct (quiet_tick f Hq) as (Hc' & _ & Hq').
  rewrite (cas_commit_quiet s (doc_bump next) b); try done.
  - congruence.
  - rewrite revision_bump. congruence.
Qed.

(** ** Equal bytes mean no commit in between

    Every participant commits through the protocol, so the revision stored in
    the file grows with each commit: a file that holds the bytes a writer read
    has not been written since, and a swap cannot fall for an A-B-A change. *)
Definition stored_revision (absent : D) (c : option Bytes) : option N :=
  match c with
  | None => Some (doc_revision absent)
  | Some b => doc_revision <$> from_str b
  end.

Inductive history (absent : D) : nat -> option Bytes -> option Bytes -> Prop :=
| history_nil c : history absent 0 c c
| history_commit n c c' rev next b :
    history absent n c c' ->
    stored_revision absent c' = Some rev ->
    doc_revision next = (rev + 1)%N ->
    to_string next = Some b ->
    history absent (S n) c (Some b).

Lemma history_revision absent n c c' rev :
  history absent n c c' -> stored_revision absent c = Some rev ->
  stored_revision absent c' = Some (rev + N.of_nat n)%N.
Proof.
  induction 1 as [|n c c' rev' next b Hh IH Hr Hn Hb]; intros Hc.
  - by rewrite N.add_0_r.
  - specialize (IH Hc). rewrite IH in Hr. simplify_eq.
    simpl. rewrite (from_to_string next b) by done. simpl. f_equal. lia.
Qed.

Lemma history_same_bytes absent n c :
  history absent n c c -> is_Some (stored_revision absent c) -> n = 0.
Proof.
  intros Hh [rev Hr]. pose proof (history_revision _ _ _ _ _ Hh Hr) as E1.
  rewrite Hr in E1. simplify_eq. lia.
Qed.

(** the retry loop gives up only to real contention.  If an update reports a
    stale revision, at least sixty-four other commits landed between its reads
    and its writes; with fewer, it succeeds or reports another failure. *)
Theorem update_retrying_gives_up {T} absent (change : st D E T) f f' :
  plain_document -> plain_change change ->
  cas_update_retrying absent change f = (Err (Refused cas_stale_revision), f') ->
  64 + env_writes f' <= env_writes f.
Proof. intros Hd Hc. by apply update_loop_contention. Qed.

(** an accepted change is committed.  Without contention or faults, the
    update commits, at its first attempt, exactly the changed document with the
    next revision. *)
Theorem update_retrying_commits {T} absent (change : st D E T) f s v next b :
  quiet f -> contents f = cs_observed s -> snapshot_of absent s ->
  change (cs_document s) = (Ok v, next) -> next <> cs_document s ->
  doc_revision next = doc_revision (cs_document s) ->
  doc_validate (doc_bump next) = Ok tt -> to_string (doc_bump next) = Some b ->
  cas_update_retrying absent change f =
  (Ok (v, MkCasSnapshot (doc_bump next) (Some b)), MkFileState (Some b) (env (tick (tick f)))).
Proof. by apply update_loop_quiet. Qed.
End cas_laws.

(** A document with a revision and a payload, stored as itself. *)
Module CasExample.
Definition Doc : Type := N * N.
Inductive Error := Stale | Bad.
#[export] Instance error_eq_dec : EqDecision Error.
Proof. solve_decision. Defined.
#[export] Instance doc_serde : Serde Doc Doc := { to_string := Some; from_str := Some }.
#[export] Instance doc_error : CasError Error := { cas_stale_revision := Stale; cas_corrupt := Bad }.
#[export] Instance doc_cas : CasDocument Doc Error :=
  { doc_revision := fst; doc_bump := fun d => ((d.1 + 1)%N, d.2); doc_validate := fun _ => Ok tt }.
#[export] Instance doc_cas_laws : CasDocumentLaws Doc Error.
Proof. done. Qed.

Definition doc (r v : N) : Doc := (r, v).
Definition change : st Doc Error unit := fun d => (Ok tt, (d.1, (d.2 + 7)%N)).

(** Another writer commits between our read and our write, 64 times. *)
Definition contended : FileState Doc :=
  MkFileState (Some (doc 0 0))
    (concat ((fun n => [EnvIdle; EnvWrite (Some (doc (N.of_nat n) 0))]) <$> seq 1 64)).

Lemma change_plain : plain_change change.
Proof. split; [by intros ??? [= <- <-]|done]. Qed.
Lemma document_plain : plain_document (D := Doc) (E := Error).
Proof. by split. Qed.

Definition start : Doc := doc 0 0.
Definition contended_end : FileState Doc := snd (cas_update_retrying start change contended).
Lemma contended_run :
  cas_update_retrying start change contended = (Err (Refused Stale), contended_end).
Proof. vm_compute. reflexivity. Qed.
End CasExample.

Import CasExample.

Lemma update_retrying_gives_up_witness :
  cas_update_retrying start change contended = (Err (Refused Stale), contended_end) /\
  64 + env_writes contended_end <= env_writes contended.
Proof.
  split; [exact contended_run|].
  exact (update_retrying_gives_up start change contended contended_end
    document_plain change_plain contended_run).
Defined.

Lemma update_retrying_commits_witness :
  contents (snd (cas_update_retrying (doc 0 0) change (MkFileState (Some (doc 3 4)) [])))
  = Some (doc 4 11).
Proof.
  rewrite (update_retrying_commits (doc 0 0) change (MkFileState (Some (doc 3 4)) [])
    (MkCasSnapshot (doc 3 4) (Some (doc 3 4))) tt (doc 3 11) (doc 4 11)); try reflexivity.
  - intros x Hx. exfalso. exact (not_elem_of_nil x Hx).
  - split; reflexivity.
  - discriminate.
Defined.
