(* ===== verification/Registry.v ===== *)
(** * The durable cross-process generation registry
    ([crates/daemon/src/usecase/authority/registry.rs])

    The registry document, its validation, the transitions a writer may stage on
    a copy of it, and [GenerationRegistry], the compare-and-swap protocol that
    commits a staged copy.  The document is the state of an [st] program, so a
    refusal keeps whatever was assigned before it; that the refusals leave the
    document unchanged is proved, not assumed.

    [GenerationRegistry] is written out as the source has it and then shown equal
    to the generic protocol of [CasFile], from which its laws follow. *)
From S2P Require Export Generation CasFile.

Definition REGISTRY_SCHEMA : string := "usagi-generation-registry-v1".

Inductive HandoffPhase : Type := Preparing | Committed.
#[export] Instance handoff_phase_eq_dec : EqDecision HandoffPhase.
Proof. solve_decision. Defined.

Record HandoffRecord := MkHandoffRecord {
  hr_operation : IpcOperationId;
  hr_from : option DaemonGeneration;
  hr_to : DaemonGeneration;
  hr_endpoint : string;
  hr_phase : HandoffPhase;
}.
#[export] Instance handoff_record_eq_dec : EqDecision HandoffRecord.
Proof. solve_decision. Defined.

Record GenerationEntry := MkGenerationEntry {
  ge_generation : DaemonGeneration;
  ge_role : GenerationRole;
  ge_endpoint : string;
  ge_process : ProcessIdentity;
  ge_expected_build : BuildIdentity;
  ge_verified_build : option BuildIdentity;
  ge_revision : N;
}.
#[export] Instance generation_entry_eq_dec : EqDecision GenerationEntry.
Proof. solve_decision. Defined.

Definition is_build_verified (entry : GenerationEntry) : bool :=
  match ge_verified_build entry with
  | Some actual => same_artifact actual (ge_expected_build entry)
  | None => false
  end.

Record RegistryDocument := MkRegistryDocument {
  rd_schema : string;
  rd_revision : N;
  rd_current : option DaemonGeneration;
  rd_generations : list GenerationEntry;
  rd_handoff : option HandoffRecord;
  rd_completed_operation : option IpcOperationId;
}.
#[export] Instance registry_document_eq_dec : EqDecision RegistryDocument.
Proof. solve_decision. Defined.

Definition RegistryDocument_default : RegistryDocument :=
  MkRegistryDocument REGISTRY_SCHEMA 0 None [] None None.

Module RegistryError.
Inductive t : Type :=
| UnknownSchema | Corrupt | StaleRevision | DuplicateGeneration | UnknownGeneration
| GenerationLimit | InvalidTransition | MultipleActive | BuildIdentityUnknown
| BuildMismatch | HandoffInProgress | UnknownOperation | WrongPhase | AuthorityRetained.
#[export] Instance eq_dec : EqDecision t.
Proof. solve_decision. Defined.
End RegistryError.
Export (hints) RegistryError.

Definition RegistryFailure : Type := Failure RegistryError.t.

(** Assignments to one field. *)
Definition set_rd_revision (v : N) (d : RegistryDocument) :=
  MkRegistryDocument (rd_schema d) v (rd_current d) (rd_generations d) (rd_handoff d) (rd_completed_operation d).
Definition set_rd_current (v : option DaemonGeneration) (d : RegistryDocument) :=
  MkRegistryDocument (rd_schema d) (rd_revision d) v (rd_generations d) (rd_handoff d) (rd_completed_operation d).
Definition set_rd_generations (v : list GenerationEntry) (d : RegistryDocument) :=
  MkRegistryDocument (rd_schema d) (rd_revision d) (rd_current d) v (rd_handoff d) (rd_completed_operation d).
Definition set_rd_handoff (v : option HandoffRecord) (d : RegistryDocument) :=
  MkRegistryDocument (rd_schema d) (rd_revision d) (rd_current d) (rd_generations d) v (rd_completed_operation d).
Definition set_rd_completed (v : option IpcOperationId) (d : RegistryDocument) :=
  MkRegistryDocument (rd_schema d) (rd_revision d) (rd_current d) (rd_generations d) (rd_handoff d) v.

(** ** The document *)
Definition transition_allowed (from to : GenerationRole) : bool :=
  match from, to with
  | Standby, (Active | Retired) => true
  | Active, (Draining | Retired) => true
  | Draining, Retired => true
  | _, _ => false
  end.

Module RegistryDocument.
Import RegistryError.
Definition doc_st := st RegistryDocument RegistryError.t.

Definition entry (d : RegistryDocument) (g : DaemonGeneration) : option GenerationEntry :=
  find_first (at_key ge_generation g) (rd_generations d).

Definition role (d : RegistryDocument) (g : DaemonGeneration) : option GenerationRole :=
  ge_role <$> entry d g.

Definition active (d : RegistryDocument) : option GenerationEntry :=
  current ← rd_current d; entry d current.

Definition is_retained (e : GenerationEntry) : bool := negb (bool_decide (ge_role e = Retired)).
Definition is_active (e : GenerationEntry) : bool := bool_decide (ge_role e = Active).

Definition retained (d : RegistryDocument) : nat := count is_retained (rd_generations d).

Definition index_of (d : RegistryDocument) (g : DaemonGeneration) : result RegistryError.t nat :=
  ok_or (position (at_key ge_generation g) (rd_generations d)) UnknownGeneration.

Definition handoff_valid (d : RegistryDocument) : bool :=
  match rd_handoff d with
  | None => true
  | Some handoff =>
      if bool_decide (entry d (hr_to handoff) = None) then false
      else match hr_from handoff with
           | Some from => negb (bool_decide (entry d from = None))
           | None => true
           end
  end.

Definition actives (d : RegistryDocument) : list DaemonGeneration :=
  ge_generation <$> retain is_active (rd_generations d).

Definition validate (limit : nat) (d : RegistryDocument) : result RegistryError.t unit :=
  if bool_decide (rd_schema d <> REGISTRY_SCHEMA) then Err UnknownSchema
  else if negb (insert_all ∅ ((fun e => as_str (ge_generation e)) <$> rd_generations d))
  then Err Corrupt
  else if (limit <? retained d)%nat then Err GenerationLimit
  else if negb (match actives d, rd_current d with
                | [], None => true
                | [active], Some current => bool_decide (active = current)
                | _, _ => false
                end)
  then Err MultipleActive
  else if negb (handoff_valid d) then Err Corrupt
  else Ok tt.

Definition register_standby (limit : nat) (generation : DaemonGeneration) (endpoint : string)
    (process : ProcessIdentity) (expected_build : BuildIdentity) : doc_st unit := fun d =>
  if negb (is_known expected_build) then (Err BuildIdentityUnknown, d)
  else
    let candidate :=
      MkGenerationEntry generation Standby endpoint process expected_build None 1 in
    match entry d generation with
    | Some existing =>
        if bool_decide (ge_role existing = Standby)
           && bool_decide (ge_endpoint existing = ge_endpoint candidate)
           && bool_decide (ge_process existing = ge_process candidate)
           && bool_decide (ge_expected_build existing = ge_expected_build candidate)
        then (Ok tt, d) else (Err DuplicateGeneration, d)
    | None =>
        if (limit <=? retained d)%nat then (Err GenerationLimit, d)
        else (Ok tt, set_rd_generations (rd_generations d ++ [candidate]) d)
    end.

Definition activate_first (limit : nat) (generation : DaemonGeneration) (endpoint : string)
    (process : ProcessIdentity) (build : BuildIdentity) : doc_st unit := fun d =>
  let candidate :=
    MkGenerationEntry generation Active endpoint process build
      (if is_known build then Some build else None) 1 in
  match entry d generation with
  | Some existing =>
      if bool_decide (existing = candidate) && bool_decide (rd_current d = Some generation)
      then (Ok tt, d) else (Err DuplicateGeneration, d)
  | None =>
      if bool_decide (is_Some (rd_handoff d)) || (0 <? retained d)%nat
      then (Err AuthorityRetained, d)
      else if (limit =? 0)%nat then (Err GenerationLimit, d)
      else (Ok tt, set_rd_current (Some generation) (set_rd_generations [candidate] d))
  end.

Definition set_entry_role (role : GenerationRole) (e : GenerationEntry) : GenerationEntry :=
  MkGenerationEntry (ge_generation e) role (ge_endpoint e) (ge_process e)
    (ge_expected_build e) (ge_verified_build e) (ge_revision e + 1).

Definition set_entry_verified (actual : BuildIdentity) (e : GenerationEntry) : GenerationEntry :=
  MkGenerationEntry (ge_generation e) (ge_role e) (ge_endpoint e) (ge_process e)
    (ge_expected_build e) (Some actual) (ge_revision e + 1).

Definition transition (generation : DaemonGeneration) (role : GenerationRole)
    : doc_st unit := fun d =>
  match index_of d generation with
  | Err e => (Err e, d)
  | Ok index =>
      match rd_generations d !! index with
      | None => (Err UnknownGeneration, d)
      | Some entry =>
          if negb (transition_allowed (ge_role entry) role) then (Err InvalidTransition, d)
          else
            let d1 := set_rd_generations (alter (set_entry_role role) index (rd_generations d)) d in
            (Ok tt,
             if bool_decide (rd_current d = Some generation) && negb (bool_decide (role = Active))
             then set_rd_current None d1 else d1)
      end
  end.

Definition retire_self (generation : DaemonGeneration) : doc_st unit := fun d =>
  match role d generation with
  | None | Some Retired => (Ok tt, d)
  | Some _ => transition generation Retired d
  end.

Definition verify_standby_build (generation : DaemonGeneration) (actual : BuildIdentity)
    : doc_st unit := fun d =>
  match index_of d generation with
  | Err e => (Err e, d)
  | Ok index =>
      match rd_generations d !! index with
      | None => (Err UnknownGeneration, d)
      | Some entry =>
          if negb (bool_decide (ge_role entry = Standby)) then (Err InvalidTransition, d)
          else if negb (is_known (ge_expected_build entry)) || negb (is_known actual)
          then (Err BuildIdentityUnknown, d)
          else if negb (bool_decide
                 (build_artifact_decision actual (ge_expected_build entry) false = Reuse))
          then (Err BuildMismatch, d)
          else (Ok tt, set_rd_generations
                 (alter (set_entry_verified actual) index (rd_generations d)) d)
      end
  end.
End RegistryDocument.

(** ** The registry over its file *)
Record RegistrySnapshot (Bytes : Type) := MkRegistrySnapshot {
  rs_document : RegistryDocument;
  rs_observed : option Bytes;
}.
Global Arguments MkRegistrySnapshot {Bytes} rs_document rs_observed.
Global Arguments rs_document {Bytes} r : rename.
Global Arguments rs_observed {Bytes} r : rename.

Module GenerationRegistry.
Section registry.
Context {Bytes : Type} `{EqDecision Bytes} `{Serde RegistryDocument Bytes}.

Definition io {A} (op : st (FileState Bytes) IoError A)
  : st (FileState Bytes) RegistryFailure A :=
  fun f => let (r, f') := op f in (map_err Io r, f').
Definition refused {A} (r : result RegistryError.t A) : st (FileState Bytes) RegistryFailure A :=
  st_lift (map_err Refused r).

Definition load (limit : nat) : st (FileState Bytes) RegistryFailure (RegistrySnapshot Bytes) :=
  observed <-! io file_read ;;
  match observed with
  | None => st_ret (MkRegistrySnapshot RegistryDocument_default None)
  | Some observed =>
      document <-! refused (ok_or (from_str observed) RegistryError.Corrupt) ;;
      (refused (RegistryDocument.validate limit document) ;;;
       st_ret (MkRegistrySnapshot document (Some observed)))
  end.

Definition commit (limit : nat) (snapshot : RegistrySnapshot Bytes) (next : RegistryDocument)
    : st (FileState Bytes) RegistryFailure (RegistrySnapshot Bytes) :=
  if bool_decide (rd_revision next <> (rd_revision (rs_document snapshot) + 1)%N)
  then st_throw (Refused RegistryError.StaleRevision)
  else
    refused (RegistryDocument.validate limit next) ;;;
    (contents <-! refused (ok_or (to_string next) RegistryError.Corrupt) ;;
     (written <-! io (compare_and_write (rs_observed snapshot) contents) ;;
      if written : bool then st_ret (MkRegistrySnapshot next (Some contents))
      else st_throw (Refused RegistryError.StaleRevision))).

Definition commit_changed (limit : nat) (snapshot : RegistrySnapshot Bytes)
    (next : RegistryDocument) : st (FileState Bytes) RegistryFailure (RegistrySnapshot Bytes) :=
  if decide (next = rs_document snapshot) then st_ret snapshot
  else commit limit snapshot (set_rd_revision (rd_revision next + 1) next).

Definition update {T} (limit : nat) (change : RegistryDocument.doc_st T)
    : st (FileState Bytes) RegistryFailure (T * RegistrySnapshot Bytes) :=
  snapshot <-! load limit ;;
  let '(r, next) := change (rs_document snapshot) in
  value <-! refused r ;;
  committed <-! commit_changed limit snapshot next ;;
  st_ret (value, committed).
End registry.
End GenerationRegistry.

(** ** Validity *)
Section validity.
Import RegistryDocument.
Implicit Types (d : RegistryDocument) (g : DaemonGeneration) (e : GenerationEntry).

(** What [validate] accepts, as propositions: one entry per generation, the
    retention limit, [current] naming the single active generation, and a
    handoff between registered generations. *)
Record valid (limit : nat) (d : RegistryDocument) : Prop := MkValid {
  valid_schema : rd_schema d = REGISTRY_SCHEMA;
  valid_distinct : NoDup (ge_generation <$> rd_generations d);
  valid_limit : retained d <= limit;
  valid_active : forall e, e ∈ rd_generations d -> ge_role e = Active ->
    rd_current d = Some (ge_generation e);
  valid_current : forall g, rd_current d = Some g ->
    exists e, e ∈ rd_generations d /\ ge_generation e = g /\ ge_role e = Active;
  valid_handoff : forall h, rd_handoff d = Some h ->
    is_Some (entry d (hr_to h)) /\
    (forall g, hr_from h = Some g -> is_Some (entry d g));
}.

Lemma elem_of_actives d g :
  g ∈ actives d <-> exists e, e ∈ rd_generations d /\ ge_role e = Active /\ ge_generation e = g.
Proof.
  unfold actives. rewrite list_elem_of_fmap. split.
  - intros (e & -> & [He Ha]%elem_of_retain). apply bool_decide_eq_true in Ha. eauto.
  - intros (e & He & Ha & <-). exists e. split; [done|]. apply elem_of_retain.
    split; [done|]. by apply bool_decide_eq_true.
Qed.

Lemma actives_spec d :
  NoDup (ge_generation <$> rd_generations d) ->
  match actives d, rd_current d with
  | [], None => true
  | [active], Some current => bool_decide (active = current)
  | _, _ => false
  end = true <->
  (forall e, e ∈ rd_generations d -> ge_role e = Active -> rd_current d = Some (ge_generation e)) /\
  (forall g, rd_current d = Some g ->
     exists e, e ∈ rd_generations d /\ ge_generation e = g /\ ge_role e = Active).
Proof.
  intros Hnd. assert (Hact : NoDup (actives d)) by (by apply NoDup_keys_retain).
  pose proof (elem_of_actives d) as Hin.
  destruct (actives d) as [|a [|b l]] eqn:Ea; destruct (rd_current d) as [c|] eqn:Ec.
  - split; [done|]. intros [_ Hcur]. destruct (Hcur c eq_refl) as (e & ? & ? & ?).
    assert (Hc : c ∈ []) by (apply Hin; eauto). by apply not_elem_of_nil in Hc.
  - split; [|done]. intros _. split; [|done]. intros e He Hr.
    assert (Hc : ge_generation e ∈ []) by (apply Hin; eauto). by apply not_elem_of_nil in Hc.
  - rewrite bool_decide_eq_true. split.
    + intros ->. split.
      * intros e He Hr. assert (Hc : ge_generation e ∈ [c]) by (apply Hin; eauto).
        by apply list_elem_of_singleton in Hc as ->.
      * intros g [= <-]. destruct (proj1 (Hin c)) as (e & ? & ? & ?); [left|]. eauto.
    + intros [Ha _]. destruct (proj1 (Hin a)) as (e & He & Hr & <-); [left|].
      specialize (Ha e He Hr). congruence.
  - split; [done|]. intros [Ha _]. destruct (proj1 (Hin a)) as (e & He & Hr & <-); [left|].
    by specialize (Ha e He Hr).
  - split; [done|]. intros [Ha _].
    destruct (proj1 (Hin a)) as (e & He & Hr & <-); [left|].
    destruct (proj1 (Hin b)) as (e' & He' & Hr' & <-); [right; left|].
    pose proof (Ha e He Hr). pose proof (Ha e' He' Hr').
    apply list.NoDup_cons in Hact as [Hx _]. destruct Hx. apply elem_of_cons. left. congruence.
  - split; [done|]. intros [Ha _]. destruct (proj1 (Hin a)) as (e & He & Hr & <-); [left|].
    by specialize (Ha e He Hr).
Qed.

Lemma handoff_valid_spec d :
  handoff_valid d = true <->
  forall h, rd_handoff d = Some h ->
    is_Some (entry d (hr_to h)) /\ (forall g, hr_from h = Some g -> is_Some (entry d g)).
Proof.
  unfold handoff_valid. destruct (rd_handoff d) as [h|]; [|by split].
  case_bool_decide as Et.
  - split; [done|]. intros Hh. destruct (Hh h eq_refl) as [[e He] _]. congruence.
  - apply not_eq_None_Some in Et. destruct (hr_from h) as [g|] eqn:Ef.
    + rewrite negb_true_iff, bool_decide_eq_false, not_eq_None_Some. split.
      * intros Hg h' [= <-]. split; [done|]. rewrite Ef. by intros ? [= <-].
      * intros Hh. by destruct (Hh h eq_refl) as [_ Hg]; apply Hg.
    + split; [|done]. intros _ h' [= <-]. by rewrite Ef.
Qed.

Lemma validate_spec limit d : validate limit d = Ok tt <-> valid limit d.
Proof.
  unfold validate.
  assert (Hd : insert_all (∅ : gset string) ((fun e => as_str (ge_generation e)) <$> rd_generations d) = true
               <-> NoDup (ge_generation <$> rd_generations d)).
  { rewrite insert_all_empty.
    change (fun e => as_str (ge_generation e)) with (as_str ∘ ge_generation).
    rewrite list_fmap_compose. split; [apply NoDup_fmap_1|apply NoDup_fmap_2, _]. }
  destruct (bool_decide _) eqn:Es.
  { apply bool_decide_eq_true in Es. split; [done|]. by intros []. }
  apply bool_decide_eq_false, dec_stable in Es.
  destruct (insert_all _ _); simpl.
  2:{ split; [done|]. intros [_ Hn _ _ _ _]. by apply Hd in Hn. }
  pose proof (proj1 Hd eq_refl) as Hnd. clear Hd.
  destruct (Nat.ltb_spec limit (retained d)).
  { split; [done|]. intros []. lia. }
  pose proof (actives_spec d Hnd) as Ha. destruct (match actives d with [] => _ | _ => _ end); simpl.
  2:{ split; [done|]. intros [_ _ _ H1 H2 _]. by pose proof (proj2 Ha (conj H1 H2)). }
  pose proof (handoff_valid_spec d) as Hh. destruct (handoff_valid d); simpl.
  - split; [|done]. intros _. destruct (proj1 Ha eq_refl). constructor; auto. by apply Hh.
  - split; [done|]. intros [_ _ _ _ _ Hv]. by apply Hh in Hv.
Qed.

(** *** Looking entries up and replacing one *)
Lemma entry_Some d g e : entry d g = Some e -> e ∈ rd_generations d /\ ge_generation e = g.
Proof. apply kfind_Some. Qed.

Lemma entry_elem d e :
  NoDup (ge_generation <$> rd_generations d) -> e ∈ rd_generations d ->
  entry d (ge_generation e) = Some e.
Proof. apply kfind_elem. Qed.

Lemma index_of_entry d g :
  match index_of d g with
  | Ok i => exists e, rd_generations d !! i = Some e /\ entry d g = Some e /\
      forall f, alter f i (rd_generations d) =
                update_first (at_key ge_generation g) f (rd_generations d)
  | Err err => err = RegistryError.UnknownGeneration /\ entry d g = None
  end.
Proof.
  unfold index_of, entry. destruct (position _ _) as [i|] eqn:E; simpl.
  - destruct (position_find _ _ _ E) as (e & ? & ?). exists e. split_and!; try done.
    intros f. by apply position_alter.
  - split; [done|]. by apply position_None.
Qed.

Definition update_entry g (f : GenerationEntry -> GenerationEntry) d : RegistryDocument :=
  set_rd_generations (update_first (at_key ge_generation g) f (rd_generations d)) d.

Lemma transition_eq g r d :
  transition g r d =
  match entry d g with
  | None => (Err RegistryError.UnknownGeneration, d)
  | Some e =>
      if transition_allowed (ge_role e) r
      then (Ok tt,
            if bool_decide (rd_current d = Some g) && negb (bool_decide (r = Active))
            then set_rd_current None (update_entry g (set_entry_role r) d)
            else update_entry g (set_entry_role r) d)
      else (Err RegistryError.InvalidTransition, d)
  end.
Proof.
  unfold transition. pose proof (index_of_entry d g) as H.
  destruct (index_of d g) as [i|err]; [|by destruct H as [-> ->]].
  destruct H as (e & -> & -> & Ha). by destruct (transition_allowed _ _); simpl; rewrite ?Ha.
Qed.

Lemma verify_standby_build_eq g actual d :
  verify_standby_build g actual d =
  match entry d g with
  | None => (Err RegistryError.UnknownGeneration, d)
  | Some e =>
      if negb (bool_decide (ge_role e = Standby)) then (Err RegistryError.InvalidTransition, d)
      else if negb (is_known (ge_expected_build e)) || negb (is_known actual)
      then (Err RegistryError.BuildIdentityUnknown, d)
      else if negb (bool_decide (build_artifact_decision actual (ge_expected_build e) false = Reuse))
      then (Err RegistryError.BuildMismatch, d)
      else (Ok tt, update_entry g (set_entry_verified actual) d)
  end.
Proof.
  unfold verify_standby_build. pose proof (index_of_entry d g) as H.
  destruct (index_of d g) as [i|err]; [|by destruct H as [-> ->]].
  destruct H as (e & -> & -> & Ha). by rewrite Ha.
Qed.

Section update_entry.
Context (g : DaemonGeneration) (f : GenerationEntry -> GenerationEntry) (d : RegistryDocument)
  (Hf : forall e, ge_generation (f e) = ge_generation e).

Lemma entry_update g' :
  entry (update_entry g f d) g' = if decide (g' = g) then f <$> entry d g' else entry d g'.
Proof. unfold entry, update_entry. simpl. by rewrite kfind_update. Qed.

Lemma is_Some_entry_update g' : is_Some (entry (update_entry g f d) g') <-> is_Some (entry d g').
Proof. rewrite entry_update. case_decide; [apply fmap_is_Some|done]. Qed.

Lemma distinct_update :
  NoDup (ge_generation <$> rd_generations d) ->
  NoDup (ge_generation <$> rd_generations (update_entry g f d)).
Proof. unfold update_entry. simpl. by rewrite keys_update. Qed.

Lemma retained_update e :
  entry d g = Some e ->
  retained (update_entry g f d) + (if is_retained e then 1 else 0) =
  retained d + (if is_retained (f e) then 1 else 0).
Proof. apply count_update_first. Qed.

Lemma elem_of_update_entry e' :
  NoDup (ge_generation <$> rd_generations d) -> e' ∈ rd_generations (update_entry g f d) ->
  (e' ∈ rd_generations d /\ ge_generation e' <> g) \/
  exists e, entry d g = Some e /\ e' = f e.
Proof.
  intros Hnd He'. destruct (elem_of_kupdate _ _ _ _ _ Hnd He') as [?|(e & He & <- & ->)];
    [by left|right]. exists e. split; [|done]. by apply entry_elem.
Qed.
End update_entry.

(** Replacing one entry without changing its role's activity. *)
Lemma valid_update limit g f d e :
  valid limit d -> entry d g = Some e ->
  (forall e, ge_generation (f e) = ge_generation e) ->
  (ge_role (f e) = ge_role e) ->
  valid limit (update_entry g f d).
Proof.
  intros [Hs Hnd Hl Ha Hc Hh] He Hf Hr. constructor.
  - done.
  - by apply distinct_update.
  - pose proof (retained_update g f d e He) as E. unfold is_retained in E. rewrite Hr in E. lia.
  - intros e' [[? ?]|(e0 & He0 & ->)]%elem_of_update_entry; auto.
    rewrite He in He0. injection He0 as <-. rewrite Hr, Hf. apply Ha.
    by apply entry_Some in He as [? _].
  - simpl. intros g' Hg'. destruct (Hc g' Hg') as (e' & Hin & <- & Ha').
    pose proof (entry_elem d e' Hnd Hin) as Ee'.
    pose proof (entry_update g f d Hf (ge_generation e')) as Eu. rewrite Ee' in Eu.
    case_decide as Ed.
    + rewrite Ed in Ee'. simplify_eq. apply entry_Some in Eu as [Eu1 Eu2]. simpl in Eu1.
      exists (f e). split_and!; [done|done|congruence].
    + apply entry_Some in Eu as [Eu1 _]. by exists e'.
  - intros h Hh'. destruct (Hh h Hh') as [Ht Hfrom].
    split; [by apply is_Some_entry_update|]. intros g' Hg'. by apply is_Some_entry_update, Hfrom.
Qed.

(** Moving an entry to a role other than active. *)
Lemma transition_valid limit g r d res d' :
  r <> Active -> transition g r d = (res, d') -> valid limit d -> valid limit d'.
Proof.
  intros Hr H Hv. rewrite transition_eq in H. destruct (entry d g) as [e|] eqn:He; [|by simplify_eq].
  destruct (transition_allowed (ge_role e) r) eqn:Et; [|by simplify_eq].
  assert (Hret : is_retained e = true).
  { unfold is_retained. by destruct (ge_role e). }
  destruct Hv as [Hs Hnd Hl Ha Hc Hh].
  assert (Hf : forall e, ge_generation (set_entry_role r e) = ge_generation e) by done.
  pose proof (retained_update g (set_entry_role r) d e He) as Ecount. rewrite Hret in Ecount.
  assert (retained (update_entry g (set_entry_role r) d) <= limit) by (case_match; lia).
  assert (Hact : forall e', e' ∈ rd_generations (update_entry g (set_entry_role r) d) ->
    ge_role e' = Active -> rd_current d = Some (ge_generation e') /\ ge_generation e' <> g).
  { intros e' [[? ?]|(e0 & ? & ->)]%elem_of_update_entry; auto; done. }
  rewrite (bool_decide_eq_false_2 (r = Active)), andb_true_r in H by done.
  injection H as <- <-. case_bool_decide as Ec; constructor; simpl; try done.
  all: try by apply distinct_update.
  all: try (intros h Hh'; destruct (Hh h Hh') as [Ht Hfrom];
    split; [by apply (is_Some_entry_update g (set_entry_role r))|];
    intros g' Hg'; by apply (is_Some_entry_update g (set_entry_role r)), Hfrom).
  - intros e' He' Hr'. destruct (Hact e' He' Hr') as [E1 E2]. congruence.
  - intros e' He' Hr'. by apply Hact.
  - intros g' Hg'. destruct (Hc g' Hg') as (e' & Hin & <- & Ha').
    exists e'. split_and!; [|done|done].
    pose proof (entry_update g (set_entry_role r) d Hf (ge_generation e')) as Eu.
    rewrite decide_False in Eu by congruence. rewrite (entry_elem d e' Hnd Hin) in Eu.
    by apply entry_Some in Eu as [? _].
Qed.

Lemma default_valid limit : valid limit RegistryDocument_default.
Proof. apply validate_spec. unfold validate. by destruct limit. Qed.

Lemma entry_None d g : entry d g = None <-> g ∉ ge_generation <$> rd_generations d.
Proof. apply kfind_None. Qed.

Lemma entry_app d g l :
  entry (set_rd_generations (rd_generations d ++ l) d) g =
  match entry d g with Some e => Some e | None => find_first (at_key ge_generation g) l end.
Proof. apply find_first_app. Qed.

Lemma register_standby_valid limit g endpoint p b d r d' :
  register_standby limit g endpoint p b d = (r, d') -> valid limit d -> valid limit d'.
Proof.
  unfold register_standby. intros H Hv. destruct (negb (is_known b)); [by simplify_eq|].
  destruct (entry d g) as [e|] eqn:Ee; [by case_match; simplify_eq|].
  destruct (Nat.leb_spec limit (retained d)); simplify_eq; [done|].
  destruct Hv as [Hs Hnd Hl Ha Hc Hh]. set (c := MkGenerationEntry _ _ _ _ _ _ _).
  assert (Hmono : forall g', is_Some (entry d g') ->
    is_Some (entry (set_rd_generations (rd_generations d ++ [c]) d) g')).
  { intros g' [e' He']. rewrite entry_app, He'. eauto. }
  constructor; simpl; try done.
  - rewrite fmap_app. apply list.NoDup_app. split_and!; [done| |apply NoDup_singleton].
    intros g' Hg' ->%list_elem_of_singleton. by apply entry_None in Ee.
  - unfold retained. cbn [rd_generations set_rd_generations]. rewrite count_app.
    fold (retained d). change (count is_retained [c]) with 1. lia.
  - intros e He%elem_of_app Hr. destruct He as [He|He%list_elem_of_singleton]; [auto|by subst].
  - intros g' Hg'. destruct (Hc g' Hg') as (e & ? & ? & ?). exists e.
    split_and!; try done. apply elem_of_app. by left.
  - intros h Hh'. destruct (Hh h Hh') as [Ht Hf]. split; [by apply Hmono|]. eauto.
Qed.

Lemma retained_zero_current limit d : valid limit d -> retained d = 0 -> rd_current d = None.
Proof.
  intros Hv H0. destruct (rd_current d) as [g|] eqn:E; [|done]. exfalso.
  destruct (valid_current _ _ Hv g E) as (e & He & _ & Hr).
  apply (proj1 (count_zero _ _)) with (x := e) in H0; [|done].
  unfold is_retained in H0. by rewrite Hr in H0.
Qed.

Lemma activate_first_valid limit g endpoint p b d r d' :
  activate_first limit g endpoint p b d = (r, d') -> valid limit d -> valid limit d'.
Proof.
  unfold activate_first. intros H Hv. destruct (entry d g); [by case_match; simplify_eq|].
  destruct (bool_decide (is_Some (rd_handoff d))) eqn:Eh; simpl in H; [by simplify_eq|].
  apply bool_decide_eq_false, eq_None_not_Some in Eh.
  destruct (Nat.ltb_spec 0 (retained d)); [by simplify_eq|].
  destruct (Nat.eqb_spec limit 0); simplify_eq; [done|].
  constructor; simpl.
  - apply Hv.
  - apply NoDup_singleton.
  - unfold retained. simpl. unfold count. simpl. lia.
  - by intros e ->%list_elem_of_singleton _.
  - intros g' [= <-]. eexists. split_and!; [left|done|done].
  - rewrite Eh. done.
Qed.

Lemma retire_self_valid limit g d r d' :
  retire_self g d = (r, d') -> valid limit d -> valid limit d'.
Proof.
  unfold retire_self. intros H Hv. destruct (role d g) as [[]|]; simplify_eq; try done;
    (eapply transition_valid; [|exact H|done]; done).
Qed.

Lemma verify_standby_build_valid limit g b d r d' :
  verify_standby_build g b d = (r, d') -> valid limit d -> valid limit d'.
Proof.
  intros H Hv. rewrite verify_standby_build_eq in H.
  destruct (entry d g) as [e|] eqn:Ee; [|by simplify_eq].
  repeat case_match; simplify_eq; try done. by eapply valid_update.
Qed.

(** A standby's verified build, once recorded, is the exact expected artifact. *)
Lemma verify_standby_build_verified g b d d' :
  verify_standby_build g b d = (Ok tt, d') ->
  exists e, entry d g = Some e /\ ge_role e = Standby /\
    same_artifact b (ge_expected_build e) = true /\
    d' = update_entry g (set_entry_verified b) d.
Proof.
  rewrite verify_standby_build_eq. destruct (entry d g) as [e|] eqn:Ee; [|done].
  destruct (negb (is_known (ge_expected_build e)) || negb (is_known b));
    repeat case_bool_decide; simpl; try done.
  intros [= <-]. exists e. split_and!; try done. by apply decision_reuse.
Qed.

(** *** Roles only advance *)

(** One operation's effect on the role of any one generation. *)
Definition role_step (d d' : RegistryDocument) : Prop := forall g,
  match role d g, role d' g with
  | Some r, Some r' => r = r' \/ transition_allowed r r' = true
  | Some r, None => r = Retired
  | None, Some r' => r' = Standby \/ (r' = Active /\ retained d = 0)
  | None, None => True
  end.

Lemma role_step_refl d : role_step d d.
Proof. intros g. destruct (role d g); auto. Qed.

Lemma role_update g f d g' :
  (forall e, ge_generation (f e) = ge_generation e) ->
  role (update_entry g f d) g' =
  if decide (g' = g) then ge_role ∘ f <$> entry d g' else role d g'.
Proof.
  intros Hf. unfold role. rewrite entry_update by done. case_decide; [|done].
  by destruct (entry d g').
Qed.

Lemma role_same_entries d d' g : rd_generations d' = rd_generations d -> role d' g = role d g.
Proof. unfold role, entry. by intros ->. Qed.

(** A transition changes exactly the role of the generation it names. *)
Lemma role_transition g r d d' g' :
  transition g r d = (Ok tt, d') ->
  role d' g' = if decide (g' = g) then Some r else role d g'.
Proof.
  rewrite transition_eq. destruct (entry d g) as [e|] eqn:Ee; [|done].
  destruct (transition_allowed (ge_role e) r); [|done]. intros [= <-].
  assert (E : forall c, role (if c : bool then set_rd_current None
      (update_entry g (set_entry_role r) d) else update_entry g (set_entry_role r) d) g' =
    role (update_entry g (set_entry_role r) d) g') by (intros []; done).
  rewrite E, role_update by done. case_decide as Ed; [|done]. subst g'. by rewrite Ee.
Qed.

Lemma transition_role_step g r d res d' : transition g r d = (res, d') -> role_step d d'.
Proof.
  intros H. destruct res as [[]|err].
  - intros g'. rewrite (role_transition _ _ _ _ g' H). case_decide as Ed.
    + subst g'. rewrite transition_eq in H. unfold role. destruct (entry d g) as [e|]; [|done].
      simpl. destruct (transition_allowed (ge_role e) r); [by right|done].
    + apply role_step_refl.
  - rewrite transition_eq in H. repeat case_match; simplify_eq; apply role_step_refl.
Qed.

Lemma retire_self_role_step g d r d' : retire_self g d = (r, d') -> role_step d d'.
Proof.
  unfold retire_self. intros H. destruct (role d g) as [[]|]; simplify_eq;
    eauto using transition_role_step, role_step_refl.
Qed.

Lemma verify_role_step g b d r d' : verify_standby_build g b d = (r, d') -> role_step d d'.
Proof.
  intros H. destruct r as [[]|].
  - apply verify_standby_build_verified in H as (e & He & Hr & _ & ->). intros g'.
    rewrite role_update by done. unfold role. case_decide as Ed.
    + subst. rewrite He. simpl. by left.
    + destruct (entry d g'); simpl; auto.
  - rewrite verify_standby_build_eq in H. repeat case_match; simplify_eq; apply role_step_refl.
Qed.

Lemma register_role_step limit g endpoint p b d r d' :
  register_standby limit g endpoint p b d = (r, d') -> role_step d d'.
Proof.
  unfold register_standby. intros H. destruct (negb _); [simplify_eq; apply role_step_refl|].
  destruct (entry d g) eqn:Ee; [case_match; simplify_eq; apply role_step_refl|].
  destruct (limit <=? retained d); simplify_eq; [apply role_step_refl|].
  set (c := MkGenerationEntry _ _ _ _ _ _ _). intros g'.
  assert (E' : role (set_rd_generations (rd_generations d ++ [c]) d) g' =
    match role d g' with Some r => Some r | None => if decide (g = g') then Some Standby else None end).
  { unfold role. rewrite entry_app. destruct (entry d g'); [done|].
    simpl. unfold at_key. simpl. case_bool_decide; by case_decide. }
  rewrite E'. destruct (role d g'); [by left|]. case_decide; auto.
Qed.

Lemma activate_first_role_step limit g endpoint p b d r d' :
  activate_first limit g endpoint p b d = (r, d') -> role_step d d'.
Proof.
  unfold activate_first. intros H.
  destruct (entry d g) eqn:Ee; [case_match; simplify_eq; apply role_step_refl|].
  destruct (bool_decide (is_Some (rd_handoff d))); simpl in H;
    [simplify_eq; apply role_step_refl|].
  destruct (Nat.ltb_spec 0 (retained d)); simpl in H; [simplify_eq; apply role_step_refl|].
  destruct (limit =? 0); simplify_eq; [apply role_step_refl|].
  assert (Hz : retained d = 0) by lia. set (d' := set_rd_current _ _). intros g'.
  assert (E' : role d' g' = if decide (g = g') then Some Active else None).
  { unfold role, entry, d', at_key. simpl. case_bool_decide; by case_decide. }
  rewrite E'. case_decide as Eg.
  - subst g'. unfold role. rewrite Ee. simpl. auto.
  - unfold role. destruct (entry d g') as [e|] eqn:Ee'; simpl; [|done].
    apply entry_Some in Ee' as [He _]. apply (proj1 (count_zero _ _)) with (x := e) in Hz; [|done].
    unfold is_retained in Hz. by apply negb_false_iff, bool_decide_eq_true in Hz.
Qed.
End validity.

(** ** The registry runs the generic protocol *)
#[export] Instance registry_cas_error : CasError RegistryError.t := {
  cas_stale_revision := RegistryError.StaleRevision;
  cas_corrupt := RegistryError.Corrupt;
}.

(** A registry of a given retention limit, as a document of the store. *)
Definition registry_cas (limit : nat) : CasDocument RegistryDocument RegistryError.t := {|
  doc_revision := rd_revision;
  doc_bump := fun d => set_rd_revision (rd_revision d + 1) d;
  doc_validate := RegistryDocument.validate limit;
|}.

Section protocol.
Context {Bytes : Type} `{EqDecision Bytes} `{SerdeLaws RegistryDocument Bytes} (limit : nat).
#[local] Existing Instance registry_cas.
#[local] Instance this_registry : CasDocument RegistryDocument RegistryError.t := registry_cas limit.

Lemma registry_cas_laws : CasDocumentLaws RegistryDocument RegistryError.t.
Proof. done. Qed.

Definition to_cas (s : RegistrySnapshot Bytes) : CasSnapshot RegistryDocument Bytes :=
  MkCasSnapshot (rs_document s) (rs_observed s).

Lemma default_validates : RegistryDocument.validate limit RegistryDocument_default = Ok tt.
Proof. apply validate_spec, default_valid. Qed.

Lemma load_is_cas f :
  cas_load RegistryDocument_default f =
  let (r, f') := GenerationRegistry.load limit f in (map_ok to_cas r, f').
Proof.
  unfold cas_load, GenerationRegistry.load, io_op, GenerationRegistry.io, refuse,
    GenerationRegistry.refused, st_bind, st_lift.
  destruct (file_read f) as [[[b|]|e] f']; simpl; rewrite ?default_validates; try done.
  destruct (from_str b) as [d|]; simpl; [|done].
  by destruct (RegistryDocument.validate limit d).
Qed.

Lemma commit_is_cas s next f :
  cas_commit (to_cas s) next f =
  let (r, f') := GenerationRegistry.commit limit s next f in (map_ok to_cas r, f').
Proof.
  unfold cas_commit, GenerationRegistry.commit. simpl.
  destruct (bool_decide (rd_revision next <> _)); [done|].
  unfold io_op, GenerationRegistry.io, refuse, GenerationRegistry.refused, st_bind, st_lift.
  destruct (RegistryDocument.validate limit next); simpl; [|done].
  destruct (to_string next) as [b|]; simpl; [|done].
  by destruct (compare_and_write (rs_observed s) b f) as [[[]|e] f'].
Qed.

Lemma update_is_cas {T} (change : RegistryDocument.doc_st T) f :
  cas_update RegistryDocument_default change f =
  let (r, f') := GenerationRegistry.update limit change f in
  (map_ok (fun '(v, s) => (v, to_cas s)) r, f').
Proof.
  unfold cas_update, GenerationRegistry.update, st_bind. rewrite load_is_cas. destruct (GenerationRegistry.load limit f) as [[s|e] f1]; simpl; [|done].
  destruct (change (rs_document s)) as [[v|e] next];
    unfold refuse, GenerationRegistry.refused, st_lift; simpl; [|done].
  unfold GenerationRegistry.commit_changed. simpl. destruct (decide _); [done|].
  pose proof (commit_is_cas s (set_rd_revision (rd_revision next + 1) next) f1) as E.
  cbn [doc_bump this_registry registry_cas]. rewrite E.
  by destruct (GenerationRegistry.commit _ _ _ _) as [[]].
Qed.

(** What [update] did, whatever the other processes and the disk did. *)
Lemma registry_update_outcome {T} (change : RegistryDocument.doc_st T) f r f' :
  GenerationRegistry.update limit change f = (r, f') ->
  update_outcome RegistryDocument_default change f
    (map_ok (fun '(v, s) => (v, to_cas s)) r) f'.
Proof.
  intros Hu. pose proof (update_is_cas change f) as E. rewrite Hu in E.
  by apply (cas_update_outcome (E := RegistryError.t)) in E.
Qed.

(** Updating the registry is one compare-and-swap.  Whatever other writers
    and the disk do, a successful [update] applied the change to a validated
    document read from the file and either wrote nothing (the change converged)
    or replaced exactly the bytes it had read by the changed document with the
    next revision, validated; an unsuccessful one wrote nothing. *)
Theorem registry_update_atomic {T} (change : RegistryDocument.doc_st T) f r f' :
  GenerationRegistry.update limit change f = (r, f') ->
  match r with
  | Err _ => env_only f f'
  | Ok (v, s') =>
      exists s f0 next,
        env_only f f0 /\ contents f0 = rs_observed s /\
        RegistryDocument.validate limit (rs_document s) = Ok tt /\
        match rs_observed s with
        | None => rs_document s = RegistryDocument_default
        | Some b => from_str b = Some (rs_document s)
        end /\
        change (rs_document s) = (Ok v, next) /\
        ((next = rs_document s /\ s' = s /\ f' = f0) \/
         (contents (tick f0) = rs_observed s /\
          rs_document s' = set_rd_revision (rd_revision next + 1) next /\
          RegistryDocument.validate limit (rs_document s') = Ok tt /\
          exists b, rs_observed s' = Some b /\ from_str b = Some (rs_document s') /\
            f' = MkFileState (Some b) (env (tick f0))))
  end.
Proof.
  intros Hu%registry_update_outcome. destruct r as [[v s']|e]; [|done]. simpl in Hu.
  destruct Hu as (s & f0 & next & He & Hc & [Hv Hs] & Hch & Hout).
  exists (MkRegistrySnapshot (cs_document s) (cs_observed s)), f0, next.
  split_and!; try done. destruct s as [d o], s' as [d' o']; simpl in *.
  destruct Hout as [(-> & [= -> ->] & ->)|(_ & -> & Hv' & Ht & b & Hb & -> & ->)]; [by left|].
  right. split_and!; try done. exists b. split_and!; try done. by apply from_to_string.
Qed.
End protocol.

(** A registry stored as itself, and a run in which another writer commits first. *)
Module RegistryExample.
#[export] Instance document_serde : Serde RegistryDocument RegistryDocument :=
  { to_string := Some; from_str := Some }.
#[export] Instance document_serde_laws : SerdeLaws RegistryDocument RegistryDocument.
Proof. by intros d b [= <-]. Qed.

Definition g1 := MkDaemonGeneration "g1".
Definition p1 := MkProcessIdentity 11 "boot-11" 11.
Definition other : RegistryDocument := set_rd_revision 1 RegistryDocument_default.
Definition file : FileState RegistryDocument :=
  MkFileState None [EnvWrite (Some other); EnvIdle].
Definition activate : RegistryDocument.doc_st unit :=
  RegistryDocument.activate_first 2 g1 "sock" p1 BuildIdentity_default.
Definition run := GenerationRegistry.update 2 activate file.
Lemma run_committed : exists s', GenerationRegistry.update 2 activate file = (Ok (tt, s'), snd run).
Proof. eexists. vm_compute. reflexivity. Qed.
End RegistryExample.
Import RegistryExample.

Lemma registry_update_atomic_witness : exists s f0 next,
  env_only file f0 /\ contents f0 = rs_observed s /\
  activate (rs_document s) = (Ok tt, next).
Proof.
  destruct run_committed as [s' H].
  destruct (registry_update_atomic 2 activate file _ _ H)
    as (s & f0 & next & He & Hc & _ & _ & Hch & _).
  by exists s, f0, next.
Defined.
