(* ===== verification/Handoff.v ===== *)
(** * The multi-phase authority handoff and its crash recovery
    ([crates/daemon/src/usecase/authority/handoff.rs])

    The four document steps of a handoff (begin, commit, complete, abort) and
    the recovery planner that reconciles the registry with the published
    locator.  [observe] is the injected process evidence; every planner consults
    it at most once, so a function of the recorded identity represents it. *)
From S2P Require Export Registry.
Import RegistryDocument.

Inductive RolloverOutcome : Type := Advanced | AlreadyThere | AlreadyCompleted.
#[export] Instance rollover_outcome_eq_dec : EqDecision RolloverOutcome.
Proof. solve_decision. Defined.

Record PublishedLocator := MkPublishedLocator {
  pl_generation : DaemonGeneration;
  pl_endpoint : string;
}.
#[export] Instance published_locator_eq_dec : EqDecision PublishedLocator.
Proof. solve_decision. Defined.

Inductive LocatorObservation : Type :=
| Absent
| Published (locator : PublishedLocator)
| Unreadable.
#[export] Instance locator_observation_eq_dec : EqDecision LocatorObservation.
Proof. solve_decision. Defined.

Inductive RecoveryRefusal : Type := SuccessorGone | ActiveGone | StaleCurrent | UnreadableLocator.
#[export] Instance recovery_refusal_eq_dec : EqDecision RecoveryRefusal.
Proof. solve_decision. Defined.

Inductive RecoveryOutcome : Type :=
| Consistent
| AbortedIntent (operation : IpcOperationId)
| RolledForward (operation : IpcOperationId)
| RepairedCurrent
| FailedClosed (refusal : RecoveryRefusal).
#[export] Instance recovery_outcome_eq_dec : EqDecision RecoveryOutcome.
Proof. solve_decision. Defined.

Record RecoveryPlan := MkRecoveryPlan {
  rp_outcome : RecoveryOutcome;
  rp_retire_locator : bool;
  rp_publish : option PublishedLocator;
  rp_document : option RegistryDocument;
}.

Definition plan_consistent : RecoveryPlan := MkRecoveryPlan Consistent false None None.

(** ** Eligibility *)
Definition eligible_successor (d : RegistryDocument) (to : DaemonGeneration)
    : result RegistryError.t string :=
  entry <-? ok_or (entry d to) RegistryError.UnknownGeneration ;;
  if negb (bool_decide (ge_role entry = Standby)) then Err RegistryError.InvalidTransition
  else if negb (is_known (ge_expected_build entry)) then Err RegistryError.BuildIdentityUnknown
  else if negb (is_build_verified entry) then Err RegistryError.BuildMismatch
  else Ok (ge_endpoint entry).

Definition eligible_predecessor (d : RegistryDocument) (from : option DaemonGeneration)
    : result RegistryError.t unit :=
  if negb (bool_decide (rd_current d = from)) then Err RegistryError.MultipleActive
  else match from with
       | None => Ok tt
       | Some from =>
           if bool_decide (role d from = Some Active) then Ok tt
           else Err RegistryError.InvalidTransition
       end.

(** ** The document steps *)
Definition begin_handoff (operation : IpcOperationId) (from : option DaemonGeneration)
    (to : DaemonGeneration) : doc_st RolloverOutcome :=
  d <-! st_get ;;
  if bool_decide (rd_completed_operation d = Some operation) then st_ret AlreadyCompleted
  else match rd_handoff d with
       | Some existing =>
           if bool_decide (hr_operation existing = operation) then st_ret AlreadyThere
           else st_throw RegistryError.HandoffInProgress
       | None =>
           endpoint <-! st_lift (eligible_successor d to) ;;
           (st_lift (eligible_predecessor d from) ;;;
            (st_modify (set_rd_handoff
               (Some (MkHandoffRecord operation from to endpoint Preparing))) ;;;
             st_ret Advanced))
       end.

Definition not_in_flight (d : RegistryDocument) (operation : IpcOperationId)
    : doc_st RolloverOutcome :=
  if bool_decide (rd_completed_operation d = Some operation) then st_ret AlreadyCompleted
  else st_throw RegistryError.UnknownOperation.

Definition set_phase (p : HandoffPhase) (h : HandoffRecord) : HandoffRecord :=
  MkHandoffRecord (hr_operation h) (hr_from h) (hr_to h) (hr_endpoint h) p.

(** [if let Some(from) = handoff.from { document.transition(from, Draining)?; }] *)
Definition drain_predecessor (from : option DaemonGeneration) : doc_st unit :=
  match from with
  | Some from => transition from Draining
  | None => st_ret tt
  end.

Definition commit_registry (operation : IpcOperationId) : doc_st RolloverOutcome :=
  d <-! st_get ;;
  match rd_handoff d with
  | None => not_in_flight d operation
  | Some handoff =>
      if negb (bool_decide (hr_operation handoff = operation))
      then st_throw RegistryError.UnknownOperation
      else if bool_decide (hr_phase handoff = Committed) then st_ret AlreadyThere
      else
        st_lift (eligible_successor d (hr_to handoff)) ;;;
        (st_lift (eligible_predecessor d (hr_from handoff)) ;;;
         (drain_predecessor (hr_from handoff) ;;;
          (transition (hr_to handoff) Active ;;;
           (st_modify (set_rd_current (Some (hr_to handoff))) ;;;
            (st_modify (set_rd_handoff (Some (set_phase Committed handoff))) ;;;
             st_ret Advanced)))))
  end.

Definition complete_handoff (operation : IpcOperationId) : doc_st RolloverOutcome :=
  d <-! st_get ;;
  match rd_handoff d with
  | None => not_in_flight d operation
  | Some handoff =>
      if negb (bool_decide (hr_operation handoff = operation))
      then st_throw RegistryError.UnknownOperation
      else if negb (bool_decide (hr_phase handoff = Committed))
      then st_throw RegistryError.WrongPhase
      else
        st_modify (set_rd_handoff None) ;;;
        (st_modify (set_rd_completed (Some (hr_operation handoff))) ;;; st_ret Advanced)
  end.

Definition abort_handoff (operation : IpcOperationId) : doc_st RolloverOutcome :=
  d <-! st_get ;;
  match rd_handoff d with
  | None => st_throw RegistryError.UnknownOperation
  | Some handoff =>
      if negb (bool_decide (hr_operation handoff = operation))
      then st_throw RegistryError.UnknownOperation
      else if negb (bool_decide (hr_phase handoff = Preparing))
      then st_throw RegistryError.WrongPhase
      else
        st_modify (set_rd_handoff None) ;;;
        (st_modify (set_rd_completed (Some (hr_operation handoff))) ;;; st_ret Advanced)
  end.

(** ** Recovery *)
Section recovery.
Context (observe : ProcessIdentity -> ProcessObservation.t).

Definition verified_alive (process : ProcessIdentity) : bool :=
  bool_decide (observe process = ProcessObservation.VerifiedAlive process).

Definition retire_entry (e : GenerationEntry) : GenerationEntry :=
  if negb (bool_decide (ge_role e = Retired)) then set_entry_role Retired e else e.

(** [staged.handoff.take()] recorded as finished *)
Definition finish_in_flight (d : RegistryDocument) : RegistryDocument :=
  match rd_handoff d with
  | Some handoff => set_rd_completed (Some (hr_operation handoff)) (set_rd_handoff None d)
  | None => d
  end.

Definition fail_closed (d : RegistryDocument) (reason : RecoveryRefusal) : RecoveryPlan :=
  let staged :=
    finish_in_flight
      (set_rd_current None (set_rd_generations (retire_entry <$> rd_generations d) d)) in
  MkRecoveryPlan (FailedClosed reason) true None (Some staged).

Definition locator_of (e : GenerationEntry) : PublishedLocator :=
  MkPublishedLocator (ge_generation e) (ge_endpoint e).

Definition plan_steady_state (d : RegistryDocument) (locator : LocatorObservation) : RecoveryPlan :=
  match active d with
  | None =>
      match locator with
      | Absent => plan_consistent
      | Unreadable => fail_closed d UnreadableLocator
      | Published _ => fail_closed d StaleCurrent
      end
  | Some active =>
      if negb (verified_alive (ge_process active)) then fail_closed d ActiveGone
      else if bool_decide (locator = Published (locator_of active)) then plan_consistent
      else MkRecoveryPlan RepairedCurrent false (Some (locator_of active)) None
  end.

Definition is_failed_closed (o : RecoveryOutcome) : bool :=
  match o with FailedClosed _ => true | _ => false end.

Definition plan_abort (d : RegistryDocument) (handoff : HandoffRecord)
    (locator : LocatorObservation) : RecoveryPlan :=
  let operation := hr_operation handoff in
  let staged := set_rd_completed (Some operation) (set_rd_handoff None d) in
  let plan := plan_steady_state staged locator in
  if is_failed_closed (rp_outcome plan) then plan
  else MkRecoveryPlan (AbortedIntent operation) (rp_retire_locator plan) (rp_publish plan)
         (Some staged).

Definition plan_roll_forward (d : RegistryDocument) (handoff : HandoffRecord)
    (locator : LocatorObservation) : RecoveryPlan :=
  match entry d (hr_to handoff) with
  | Some successor =>
      if verified_alive (ge_process successor) then
        let staged :=
          set_rd_completed (Some (hr_operation handoff)) (set_rd_handoff None d) in
        MkRecoveryPlan (RolledForward (hr_operation handoff)) false
          (if bool_decide (locator = Published (locator_of successor)) then None
           else Some (locator_of successor))
          (Some staged)
      else fail_closed d SuccessorGone
  | None => fail_closed d SuccessorGone
  end.

Definition bump_staged (plan : RecoveryPlan) : RecoveryPlan :=
  MkRecoveryPlan (rp_outcome plan) (rp_retire_locator plan) (rp_publish plan)
    ((fun d => set_rd_revision (rd_revision d + 1) d) <$> rp_document plan).

Definition plan_recovery (d : RegistryDocument) (locator : LocatorObservation) : RecoveryPlan :=
  bump_staged
    match rd_handoff d with
    | Some handoff =>
        match hr_phase handoff with
        | Preparing => plan_abort d handoff locator
        | Committed => plan_roll_forward d handoff locator
        end
    | None => plan_steady_state d locator
    end.
End recovery.

(** Performing a plan: retire, publish, then commit; the prefixes are the states
    a crash in between leaves behind. *)
Definition locator_retired (plan : RecoveryPlan) (locator : LocatorObservation) : LocatorObservation :=
  if rp_retire_locator plan then Absent else locator.
Definition locator_after (plan : RecoveryPlan) (locator : LocatorObservation) : LocatorObservation :=
  match rp_publish plan with
  | Some p => Published p
  | None => locator_retired plan locator
  end.
Definition document_after (plan : RecoveryPlan) (d : RegistryDocument) : RegistryDocument :=
  default d (rp_document plan).

(** ** Laws of the document steps *)
Section handoff_laws.
Implicit Types (d : RegistryDocument) (g : DaemonGeneration) (op : IpcOperationId).

Lemma eligible_successor_ok d to endpoint :
  eligible_successor d to = Ok endpoint ->
  exists e, entry d to = Some e /\ ge_role e = Standby /\ is_known (ge_expected_build e) = true /\
    is_build_verified e = true /\ ge_endpoint e = endpoint.
Proof.
  unfold eligible_successor. destruct (entry d to) as [e|]; [|done]. simpl.
  case_bool_decide; simpl; [|done]. destruct (is_known _) eqn:?; simpl; [|done].
  destruct (is_build_verified e) eqn:?; simpl; [|done]. intros [= <-]. by exists e.
Qed.

Lemma eligible_predecessor_ok d from u :
  eligible_predecessor d from = Ok u ->
  rd_current d = from /\ (forall g, from = Some g -> role d g = Some Active).
Proof.
  unfold eligible_predecessor. case_bool_decide; simpl; [|done].
  destruct from as [g|]; [|done]. case_bool_decide; [|done]. intros _. split; [done|]. congruence.
Qed.

(** The document a commit produces. *)
Definition drained (from : option DaemonGeneration) d : RegistryDocument :=
  match from with
  | Some g => set_rd_current None (update_entry g (set_entry_role Draining) d)
  | None => d
  end.
Definition committed_document (h : HandoffRecord) d : RegistryDocument :=
  set_rd_handoff (Some (set_phase Committed h))
    (set_rd_current (Some (hr_to h))
      (update_entry (hr_to h) (set_entry_role Active) (drained (hr_from h) d))).

Lemma drained_step d from :
  eligible_predecessor d from = Ok tt ->
  drain_predecessor from d =
  (Ok tt, drained from d) /\ rd_current (drained from d) = None /\
  (forall g, role d g <> Some Active -> entry (drained from d) g = entry d g).
Proof.
  intros [Hc Hr]%eligible_predecessor_ok. destruct from as [g|]; [|done]. simpl.
  specialize (Hr g eq_refl). unfold role in Hr. rewrite transition_eq.
  destruct (entry d g) as [e|] eqn:Ee; [|done]. simpl in Hr. injection Hr as Hr. rewrite Hr. simpl.
  rewrite Hc, bool_decide_eq_true_2 by done. simpl.
  split_and!; [done|done|]. intros g' Hg'.
  assert (g' <> g).
  { intros ->. apply Hg'. unfold role. rewrite Ee. simpl. congruence. }
  transitivity (entry (update_entry g (set_entry_role Draining) d) g'); [done|].
  by rewrite entry_update, decide_False.
Qed.

Lemma commit_moves d h endpoint :
  rd_handoff d = Some h -> hr_phase h = Preparing ->
  eligible_successor d (hr_to h) = Ok endpoint -> eligible_predecessor d (hr_from h) = Ok tt ->
  commit_registry (hr_operation h) d = (Ok Advanced, committed_document h d).
Proof.
  intros Hh Hp Hs Hf. unfold commit_registry, st_bind, st_get, st_lift, st_modify, st_ret.
  rewrite Hh. cbn beta iota. rewrite bool_decide_eq_true_2, Hp by done.
  cbn [negb]. rewrite bool_decide_eq_false_2, Hs, Hf by done.
  destruct (drained_step _ _ Hf) as (Hd & Hcur & Hentry). rewrite Hd.
  destruct (eligible_successor_ok _ _ _ Hs) as (e & He & Hr & _).
  rewrite transition_eq, Hentry, He by (unfold role; rewrite He; simpl; congruence).
  by rewrite Hr, Hcur, bool_decide_eq_false_2.
Qed.

(** What a commit answers, on every branch. *)
Lemma commit_registry_cases op d r d' :
  commit_registry op d = (r, d') ->
  (r <> Ok Advanced /\ d' = d) \/
  (r = Ok Advanced /\ exists h endpoint, rd_handoff d = Some h /\ hr_operation h = op /\
     hr_phase h = Preparing /\ eligible_successor d (hr_to h) = Ok endpoint /\
     eligible_predecessor d (hr_from h) = Ok tt /\ d' = committed_document h d).
Proof.
  intros H. pose proof H as H'. unfold commit_registry in H'. unfold st_bind at 1, st_get in H'.
  destruct (rd_handoff d) as [h|] eqn:Eh.
  2:{ left. unfold not_in_flight, st_ret, st_throw in H'. case_bool_decide; by simplify_eq. }
  destruct (bool_decide (hr_operation h = op)) eqn:Eo; simpl in H'; [|left; unfold st_throw in H'; by simplify_eq].
  apply bool_decide_eq_true in Eo.
  destruct (bool_decide (hr_phase h = Committed)) eqn:Ep; [left; unfold st_ret in H'; by simplify_eq|].
  apply bool_decide_eq_false in Ep.
  unfold st_bind at 1, st_lift in H'. destruct (eligible_successor d (hr_to h)) eqn:Es; [|left; by simplify_eq].
  unfold st_bind at 1 in H'. destruct (eligible_predecessor d (hr_from h)) as [[]|] eqn:Ef; [|left; by simplify_eq].
  right. rewrite <- Eo in H. rewrite (commit_moves d h value) in H; try done.
  2:{ by destruct (hr_phase h). }
  simplify_eq. split; [done|]. exists h, value. split_and!; try done. by destruct (hr_phase h).
Qed.

Lemma set_handoff_valid limit d h :
  valid limit d ->
  (forall h', h = Some h' -> is_Some (entry d (hr_to h')) /\
     (forall g, hr_from h' = Some g -> is_Some (entry d g))) ->
  valid limit (set_rd_handoff h d).
Proof. intros [] Hh. by constructor. Qed.

Lemma set_completed_valid limit d o : valid limit d -> valid limit (set_rd_completed o d).
Proof. intros []. by constructor. Qed.

Lemma set_revision_valid limit d n : valid limit d -> valid limit (set_rd_revision n d).
Proof. intros []. by constructor. Qed.

(** Activating a standby of a document with no active generation. *)
Lemma activate_valid limit d g e :
  valid limit d -> rd_current d = None -> entry d g = Some e -> ge_role e = Standby ->
  valid limit (set_rd_current (Some g) (update_entry g (set_entry_role Active) d)).
Proof.
  intros [Hs Hnd Hl Ha Hc Hh] Hcur He Hr.
  assert (Hf : forall e, ge_generation (set_entry_role Active e) = ge_generation e) by done.
  constructor; simpl.
  - done.
  - by apply (distinct_update g (set_entry_role Active)).
  - pose proof (retained_update g (set_entry_role Active) d e He) as E.
    unfold is_retained in E. rewrite Hr in E. simpl in E.
    change (retained (update_entry g (set_entry_role Active) d) <= limit). lia.
  - intros e' He' Hr'.
    apply (elem_of_update_entry g (set_entry_role Active) d e' Hnd) in He'
      as [[Hin Hne]|(e0 & He0 & ->)].
    + rewrite (Ha e' Hin Hr') in Hcur. done.
    + apply entry_Some in He0 as [_ <-]. done.
  - intros g' [= <-]. exists (set_entry_role Active e).
    pose proof (entry_update g (set_entry_role Active) d Hf g) as Eu.
    rewrite decide_True, He in Eu by done. apply entry_Some in Eu as [? ?]. by split_and!.
  - intros h Hh'. destruct (Hh h Hh') as [Ht Hfrom].
    split; [by apply (is_Some_entry_update g (set_entry_role Active))|].
    intros g' Hg'. by apply (is_Some_entry_update g (set_entry_role Active)), Hfrom.
Qed.

Lemma commit_registry_valid limit op d r d' :
  commit_registry op d = (r, d') -> valid limit d -> valid limit d'.
Proof.
  intros [[_ ->]|(_ & h & endpoint & Hh & Ho & Hp & Hs & Hf & ->)]%commit_registry_cases Hv; [done|].
  destruct (drained_step _ _ Hf) as (Hd & Hcur & Hentry).
  destruct (eligible_successor_ok _ _ _ Hs) as (e & He & Hr & _).
  assert (Hv1 : valid limit (drained (hr_from h) d)).
  { destruct (hr_from h); [|done]. eapply transition_valid; [|exact Hd|done]. done. }
  assert (He1 : entry (drained (hr_from h) d) (hr_to h) = Some e).
  { rewrite Hentry; [done|]. unfold role. rewrite He. simpl. congruence. }
  apply set_handoff_valid; [by eapply activate_valid|].
  assert (Hh1 : rd_handoff (drained (hr_from h) d) = Some h) by (by destruct (hr_from h)).
  destruct (valid_handoff _ _ Hv1 h Hh1) as [Ht Hfr].
  intros h' [= <-]. simpl. split.
  - by apply (is_Some_entry_update (hr_to h) (set_entry_role Active)).
  - intros g Hg. by apply (is_Some_entry_update (hr_to h) (set_entry_role Active)), Hfr.
Qed.

Lemma begin_handoff_cases op from to d r d' :
  begin_handoff op from to d = (r, d') ->
  (r <> Ok Advanced /\ d' = d) \/
  (r = Ok Advanced /\ exists endpoint, rd_handoff d = None /\ rd_completed_operation d <> Some op /\
     eligible_successor d to = Ok endpoint /\ eligible_predecessor d from = Ok tt /\
     d' = set_rd_handoff (Some (MkHandoffRecord op from to endpoint Preparing)) d).
Proof.
  unfold begin_handoff, st_bind, st_get, st_lift, st_modify, st_ret, st_throw.
  case_bool_decide; [intros; simplify_eq; by left|].
  destruct (rd_handoff d); [case_bool_decide; intros; simplify_eq; by left|].
  destruct (eligible_successor d to) as [endpoint|] eqn:Es; [|intros; simplify_eq; by left].
  destruct (eligible_predecessor d from) as [[]|] eqn:Ef; [|intros; simplify_eq; by left].
  intros. simplify_eq. right. split; [done|]. by exists endpoint.
Qed.

Lemma begin_handoff_valid limit op from to d r d' :
  begin_handoff op from to d = (r, d') -> valid limit d -> valid limit d'.
Proof.
  intros [[_ ->]|(_ & endpoint & _ & _ & Hs & Hf & ->)]%begin_handoff_cases Hv; [done|].
  apply set_handoff_valid; [done|]. intros h' [= <-]. simpl.
  destruct (eligible_successor_ok _ _ _ Hs) as (e & He & _). split; [eauto|].
  apply eligible_predecessor_ok in Hf as [_ Hf]. intros g Hg. specialize (Hf g Hg).
  unfold role in Hf. destruct (entry d g); [eauto|done].
Qed.

(** Completing and aborting differ in the phase they require. *)
Definition finished_document op d : RegistryDocument :=
  set_rd_completed (Some op) (set_rd_handoff None d).

Lemma complete_handoff_cases op d r d' :
  complete_handoff op d = (r, d') ->
  (r <> Ok Advanced /\ d' = d) \/
  (r = Ok Advanced /\ exists h, rd_handoff d = Some h /\ hr_operation h = op /\
     hr_phase h = Committed /\ d' = finished_document op d).
Proof.
  unfold complete_handoff, not_in_flight, st_bind, st_get, st_modify, st_ret, st_throw.
  destruct (rd_handoff d) as [h|] eqn:Eh; [|case_bool_decide; intros; simplify_eq; by left].
  case_bool_decide; simpl; [|intros; simplify_eq; by left].
  case_bool_decide; simpl; [|intros; simplify_eq; by left].
  intros. simplify_eq. right. split; [done|]. by exists h.
Qed.

Lemma abort_handoff_cases op d r d' :
  abort_handoff op d = (r, d') ->
  (r <> Ok Advanced /\ d' = d) \/
  (r = Ok Advanced /\ exists h, rd_handoff d = Some h /\ hr_operation h = op /\
     hr_phase h = Preparing /\ d' = finished_document op d).
Proof.
  unfold abort_handoff, st_bind, st_get, st_modify, st_ret, st_throw.
  destruct (rd_handoff d) as [h|] eqn:Eh; [|intros; simplify_eq; by left].
  case_bool_decide; simpl; [|intros; simplify_eq; by left].
  case_bool_decide; simpl; [|intros; simplify_eq; by left].
  intros. simplify_eq. right. split; [done|]. by exists h.
Qed.

Lemma finished_valid limit op d : valid limit d -> valid limit (finished_document op d).
Proof. intros Hv. apply set_completed_valid, set_handoff_valid; [done|]. by intros. Qed.

(** *** Role steps *)
Lemma role_step_same d d' : rd_generations d' = rd_generations d -> role_step d d'.
Proof. intros E g. rewrite (role_same_entries d d' g E). apply (role_step_refl d g). Qed.

Lemma commit_role op d d' g h :
  commit_registry op d = (Ok Advanced, d') -> rd_handoff d = Some h ->
  role d' g = if decide (g = hr_to h) then Some Active
              else if decide (hr_from h = Some g) then Some Draining else role d g.
Proof.
  intros [[? _]|(_ & h' & endpoint & Hh & Ho & Hp & Hs & Hf & ->)]%commit_registry_cases Hh';
    [done|]. rewrite Hh in Hh'. injection Hh' as ->.
  destruct (drained_step _ _ Hf) as (Hd & Hcur & Hentry).
  destruct (eligible_successor_ok _ _ _ Hs) as (e & He & Hr & _).
  transitivity (role (update_entry (hr_to h) (set_entry_role Active) (drained (hr_from h) d)) g); [done|].
  rewrite role_update by done. case_decide as Eg.
  - subst g. rewrite Hentry, He; [done|]. unfold role. rewrite He. simpl. congruence.
  - destruct (hr_from h) as [from|] eqn:Efrom; [|done].
    rewrite (role_transition _ _ _ _ g Hd). repeat case_decide; congruence.
Qed.

Lemma commit_role_step op d r d' : commit_registry op d = (r, d') -> role_step d d'.
Proof.
  intros H. pose proof H as H'. apply commit_registry_cases in H' as
    [[_ ->]|(-> & h & endpoint & Hh & Ho & Hp & Hs & Hf & _)]; [apply role_step_refl|].
  intros g. rewrite (commit_role _ _ _ g h H Hh).
  destruct (eligible_successor_ok _ _ _ Hs) as (e & He & Hr & _).
  apply eligible_predecessor_ok in Hf as [_ Hf].
  case_decide as Eg; [subst g|case_decide as Ef].
  - unfold role. rewrite He. simpl. rewrite Hr. by right.
  - rewrite (Hf g Ef). by right.
  - apply role_step_refl.
Qed.
End handoff_laws.

(** ** Laws of recovery *)
Section recovery_laws.
Context (observe : ProcessIdentity -> ProcessObservation.t).
Implicit Types (d : RegistryDocument) (l : LocatorObservation).

(** A committed handoff still names the generation holding authority.  Every
    handoff step establishes it; only a successor that gives its own authority
    up before the handoff is completed breaks it. *)
Definition settled d : Prop :=
  forall h, rd_handoff d = Some h -> hr_phase h = Committed -> rd_current d = Some (hr_to h).

(** Registry and locator agree: the locator names the active generation, which
    is proved alive, or there is neither. *)
Definition agreed d l : Prop :=
  rd_handoff d = None /\
  match active d with
  | Some e => l = Published (locator_of e) /\ verified_alive observe (ge_process e) = true
  | None => rd_current d = None /\ l = Absent
  end.

Lemma active_current limit d :
  valid limit d -> active d = None -> rd_current d = None.
Proof.
  intros Hv Ha. unfold active in Ha. destruct (rd_current d) as [g|] eqn:Ec; [|done].
  simpl in Ha. destruct (valid_current _ _ Hv g Ec) as (e & He & <- & _).
  rewrite (entry_elem d e) in Ha; [done|apply Hv|done].
Qed.

Lemma retire_entry_generation e : ge_generation (retire_entry e) = ge_generation e.
Proof. unfold retire_entry. by destruct (negb _). Qed.

Lemma retire_entry_role e : ge_role (retire_entry e) = Retired.
Proof. unfold retire_entry. case_bool_decide; done. Qed.

Definition failed_document d : RegistryDocument :=
  finish_in_flight
    (set_rd_current None (set_rd_generations (retire_entry <$> rd_generations d) d)).

Lemma failed_document_fields d :
  rd_schema (failed_document d) = rd_schema d /\
  rd_generations (failed_document d) = retire_entry <$> rd_generations d /\
  rd_current (failed_document d) = None /\ rd_handoff (failed_document d) = None.
Proof.
  unfold failed_document, finish_in_flight. simpl. by destruct (rd_handoff d) eqn:E; simpl; rewrite ?E.
Qed.

Lemma failed_document_valid limit d : valid limit d -> valid limit (failed_document d).
Proof.
  intros [Hs Hnd Hl Ha Hc Hh]. destruct (failed_document_fields d) as (Es & Eg & Ec & Eh).
  constructor; rewrite ?Es, ?Eg, ?Ec, ?Eh; try done.
  - rewrite <- list_fmap_compose. erewrite list_fmap_ext; [exact Hnd|].
    intros ? e _. apply retire_entry_generation.
  - unfold retained. rewrite Eg. etransitivity; [|apply Nat.le_0_l].
    apply Nat.eq_le_incl, count_zero. intros e (e0 & -> & _)%list_elem_of_fmap.
    unfold is_retained. by rewrite retire_entry_role, bool_decide_eq_true_2.
  - intros e (e0 & -> & _)%list_elem_of_fmap. by rewrite retire_entry_role.
Qed.

Lemma failed_document_agreed d : agreed (failed_document d) Absent.
Proof.
  destruct (failed_document_fields d) as (_ & _ & Ec & Eh). split; [done|].
  unfold active. by rewrite Ec.
Qed.

Lemma agreed_same d d' l :
  rd_current d' = rd_current d -> rd_generations d' = rd_generations d ->
  rd_handoff d' = rd_handoff d -> agreed d l -> agreed d' l.
Proof. unfold agreed, active, entry. by intros -> -> ->. Qed.

(** What each planner leaves behind when its whole plan is performed. *)
Lemma steady_settles limit d l :
  valid limit d -> rd_handoff d = None ->
  let plan := plan_steady_state observe d l in
  valid limit (document_after plan d) /\ agreed (document_after plan d) (locator_after plan l).
Proof.
  intros Hv Hh. unfold plan_steady_state. destruct (active d) as [e|] eqn:Ea.
  - destruct (verified_alive observe (ge_process e)) eqn:Eal; simpl.
    + case_bool_decide as El; unfold document_after, locator_after, locator_retired; simpl;
        (split; [done|]); split; try done; rewrite Ea; done.
    + split; [by apply failed_document_valid|apply failed_document_agreed].
  - destruct l; simpl;
      try (split; [by apply failed_document_valid|apply failed_document_agreed]).
    split; [done|]. split; [done|]. unfold document_after. simpl. rewrite Ea.
    split; [by eapply active_current|done].
Qed.

Lemma document_after_bump plan d :
  document_after (bump_staged plan) d =
  match rp_document plan with
  | Some d' => set_rd_revision (rd_revision d' + 1) d'
  | None => d
  end.
Proof. unfold document_after. simpl. by destruct (rp_document plan). Qed.

Lemma bump_valid_agreed limit plan d l :
  valid limit (document_after plan d) -> agreed (document_after plan d) (locator_after plan l) ->
  valid limit (document_after (bump_staged plan) d) /\
  agreed (document_after (bump_staged plan) d) (locator_after (bump_staged plan) l).
Proof.
  rewrite document_after_bump. unfold document_after. intros Hv Ha.
  destruct (rp_document plan) as [d'|]; simpl in *; [|done].
  split; [by apply set_revision_valid|]. by apply (agreed_same d').
Qed.

Lemma plan_abort_after d h l :
  rd_handoff d = Some h ->
  let staged := finished_document (hr_operation h) d in
  document_after (plan_abort observe d h l) d =
    document_after (plan_steady_state observe staged l) staged /\
  locator_after (plan_abort observe d h l) l =
    locator_after (plan_steady_state observe staged l) l.
Proof.
  intros Hh staged. unfold plan_abort. fold staged.
  assert (E : rp_document (plan_steady_state observe staged l) = None \/
              is_failed_closed (rp_outcome (plan_steady_state observe staged l)) = true).
  { unfold plan_steady_state. destruct (active staged) as [e|].
    - destruct (negb _); [by right|]. case_bool_decide; by left.
    - destruct l; [by left|by right|by right]. }
  unfold finished_document in staged. fold staged.
  destruct (is_failed_closed (rp_outcome (plan_steady_state observe staged l))) eqn:Ef.
  - unfold document_after. split; [|done]. unfold plan_steady_state in *.
    destruct (active staged) as [e|]; [|by destruct l].
    destruct (negb _); [done|]. by destruct (bool_decide _).
  - destruct E as [E|]; [|done]. unfold document_after. by rewrite E.
Qed.

Lemma roll_forward_settles limit d h l :
  valid limit d -> settled d -> rd_handoff d = Some h -> hr_phase h = Committed ->
  let plan := plan_roll_forward observe d h l in
  valid limit (document_after plan d) /\ agreed (document_after plan d) (locator_after plan l).
Proof.
  intros Hv Hs Hh Hp. specialize (Hs h Hh Hp). unfold plan_roll_forward.
  destruct (entry d (hr_to h)) as [e|] eqn:Ee;
    [|split; [by apply failed_document_valid|apply failed_document_agreed]].
  destruct (verified_alive observe (ge_process e)) eqn:Eal;
    [|split; [by apply failed_document_valid|apply failed_document_agreed]].
  split; [by apply (finished_valid limit (hr_operation h) d)|].
  split; [done|]. unfold document_after. simpl.
  assert (Ea : active (set_rd_completed (Some (hr_operation h)) (set_rd_handoff None d)) = Some e).
  { unfold active. simpl. by rewrite Hs. }
  rewrite Ea. split; [|done]. unfold locator_after, locator_retired. simpl.
  by case_bool_decide.
Qed.

Lemma recovery_settles limit d l :
  valid limit d -> settled d ->
  let plan := plan_recovery observe d l in
  valid limit (document_after plan d) /\ agreed (document_after plan d) (locator_after plan l).
Proof.
  intros Hv Hs. unfold plan_recovery. cbv zeta.
  destruct (rd_handoff d) as [h|] eqn:Eh; [destruct (hr_phase h) eqn:Ep|].
  - destruct (plan_abort_after d h l Eh) as [E1 E2].
    destruct (steady_settles limit (finished_document (hr_operation h) d) l) as [H1 H2].
    { by apply finished_valid. } { done. }
    apply bump_valid_agreed; rewrite E1; [|rewrite E2]; done.
  - destruct (roll_forward_settles limit d h l) as [H1 H2]; try done.
    by apply bump_valid_agreed.
  - destruct (steady_settles limit d l) as [H1 H2]; try done. by apply bump_valid_agreed.
Qed.

Lemma free_settled d : rd_handoff d = None -> settled d.
Proof. intros Hh h. by rewrite Hh. Qed.

(** One recovery always ends the handoff, settled or not. *)
Lemma recovery_frees limit d l : valid limit d ->
  valid limit (document_after (plan_recovery observe d l) d) /\
  rd_handoff (document_after (plan_recovery observe d l) d) = None.
Proof.
  intros Hv. destruct (rd_handoff d) as [h|] eqn:Eh; [destruct (hr_phase h) eqn:Ep|].
  - assert (Hs : settled d) by (intros h' Hh' Hp; congruence).
    destruct (recovery_settles limit d l Hv Hs) as [? [? _]]. done.
  - unfold plan_recovery. rewrite Eh, Ep, document_after_bump.
    destruct (failed_document_fields d) as (_ & _ & _ & Hf). unfold plan_roll_forward.
    destruct (entry d (hr_to h)) as [e|]; [destruct (verified_alive observe (ge_process e))|];
      (split; [apply set_revision_valid; first [by apply (finished_valid limit (hr_operation h) d)|by apply failed_document_valid]|done]).
  - destruct (recovery_settles limit d l Hv (free_settled d Eh)) as [? [? _]]. done.
Qed.

(** Both durable objects after a recovery whose plan is performed. *)
Definition recovered d l : RegistryDocument * LocatorObservation :=
  let plan := plan_recovery observe d l in (document_after plan d, locator_after plan l).

(** Agreement is a fixed point. *)
Lemma agreed_consistent d l : agreed d l -> plan_recovery observe d l = plan_consistent.
Proof.
  intros [Hh Ha]. unfold plan_recovery, plan_steady_state. rewrite Hh.
  destruct (active d) as [e|]; destruct Ha as [Ha1 Ha2].
  - rewrite Ha2. simpl. by rewrite bool_decide_eq_true_2.
  - by rewrite Ha2.
Qed.

(** *** Where the authority ends up *)
Definition surviving_authority d : option GenerationEntry :=
  let e := match rd_handoff d with
           | Some h => match hr_phase h with Committed => entry d (hr_to h) | Preparing => active d end
           | None => active d
           end in
  match e with
  | Some e => if verified_alive observe (ge_process e) then Some e else None
  | None => None
  end.

Definition authority_locator (e : option GenerationEntry) : LocatorObservation :=
  match e with Some e => Published (locator_of e) | None => Absent end.

(** Whatever the locator said before, the recovered locator is decided by the
    registry and the process evidence alone. *)
Lemma recovery_locator d l :
  locator_after (plan_recovery observe d l) l = authority_locator (surviving_authority d).
Proof.
  assert (Hst : forall d, locator_after (plan_steady_state observe d l) l =
    authority_locator (match active d with
                       | Some e => if verified_alive observe (ge_process e) then Some e else None
                       | None => None end)).
  { intros d0. unfold plan_steady_state. destruct (active d0) as [e|]; [|by destruct l].
    destruct (verified_alive observe (ge_process e)); simpl; [|done].
    case_bool_decide as El; [|done]. by rewrite El. }
  unfold plan_recovery, surviving_authority.
  destruct (rd_handoff d) as [h|] eqn:Eh; [destruct (hr_phase h)|].
  - destruct (plan_abort_after d h l Eh) as [_ E2].
    change (locator_after (plan_abort observe d h l) l = authority_locator
      (match active d with
       | Some e => if verified_alive observe (ge_process e) then Some e else None
       | None => None end)).
    rewrite E2, Hst. done.
  - unfold plan_roll_forward. destruct (entry d (hr_to h)) as [e|]; [|done].
    destruct (verified_alive observe (ge_process e)); [|done].
    unfold locator_after, locator_retired. simpl. case_bool_decide as El; [|done]. by rewrite El.
  - apply Hst.
Qed.
End recovery_laws.

(** ** Every writer of the registry

    One step of a document under any of its operations, whatever it answers:
    the refusals are steps too. *)
Inductive handoff_op (limit : nat) (d : RegistryDocument) : RegistryDocument -> Prop :=
| op_register g endpoint p b r d' :
    register_standby limit g endpoint p b d = (r, d') -> handoff_op limit d d'
| op_activate_first g endpoint p b r d' :
    activate_first limit g endpoint p b d = (r, d') -> handoff_op limit d d'
| op_verify g b r d' : verify_standby_build g b d = (r, d') -> handoff_op limit d d'
| op_begin op from to r d' : begin_handoff op from to d = (r, d') -> handoff_op limit d d'
| op_commit op r d' : commit_registry op d = (r, d') -> handoff_op limit d d'
| op_complete op r d' : complete_handoff op d = (r, d') -> handoff_op limit d d'
| op_abort op r d' : abort_handoff op d = (r, d') -> handoff_op limit d d'
| op_recover observe l : handoff_op limit d (document_after (plan_recovery observe d l) d).

Inductive registry_op (limit : nat) (d : RegistryDocument) : RegistryDocument -> Prop :=
| op_handoff d' : handoff_op limit d d' -> registry_op limit d d'
| op_retire g r d' : retire_self g d = (r, d') -> registry_op limit d d'
| op_bump : registry_op limit d (set_rd_revision (rd_revision d + 1) d).

Section registry_writers.
Implicit Types (d : RegistryDocument).

Lemma recovery_document observe d l :
  let d' := document_after (plan_recovery observe d l) d in
  d' = d \/
  (exists d1, d' = set_rd_revision (rd_revision d1 + 1) d1 /\
    ((exists h, rd_handoff d = Some h /\ d1 = finished_document (hr_operation h) d) \/
     (exists d0, d1 = failed_document d0 /\
        rd_generations d0 = rd_generations d /\
        (d0 = d \/ exists h, rd_handoff d = Some h /\ d0 = finished_document (hr_operation h) d)))).
Proof.
  assert (Hst : forall d, rp_document (plan_steady_state observe d l) = None \/
    rp_document (plan_steady_state observe d l) = Some (failed_document d)).
  { intros d0. unfold plan_steady_state. destruct (active d0) as [e|].
    - destruct (negb _); [by right|]. case_bool_decide; by left.
    - destruct l; [by left|by right|by right]. }
  unfold plan_recovery. rewrite document_after_bump.
  destruct (rd_handoff d) as [h|] eqn:Eh; [destruct (hr_phase h)|].
  - set (d1 := finished_document (hr_operation h) d). unfold plan_abort.
    destruct (is_failed_closed _).
    + destruct (Hst d1) as [E|E]; fold d1; unfold d1, finished_document in E; rewrite E; [by left|].
      right. exists (failed_document d1). split; [done|]. right. exists d1.
      split_and!; [done|done|]. right. by exists h.
    + right. exists d1. split; [done|]. left. by exists h.
  - unfold plan_roll_forward.
    destruct (entry d (hr_to h)) as [e|]; [destruct (verified_alive _ _)|]; right.
    + exists (finished_document (hr_operation h) d). split; [done|]. left. by exists h.
    + exists (failed_document d). split; [done|]. right. exists d. auto.
    + exists (failed_document d). split; [done|]. right. exists d. auto.
  - destruct (Hst d) as [-> | ->]; [by left|]. right.
    exists (failed_document d). split; [done|]. right. exists d. auto.
Qed.

Lemma failed_document_revision d : rd_revision (failed_document d) = rd_revision d.
Proof. unfold failed_document, finish_in_flight. simpl. by destruct (rd_handoff d). Qed.

(** A planned document is what [commit] swaps in: the next revision. *)
Lemma plan_revision observe d l d' :
  rp_document (plan_recovery observe d l) = Some d' -> rd_revision d' = (rd_revision d + 1)%N.
Proof.
  assert (Hst : forall d d0, rp_document (plan_steady_state observe d l) = Some d0 ->
    rd_revision d0 = rd_revision d).
  { intros d1 d0. unfold plan_steady_state. destruct (active d1) as [e|].
    - destruct (negb _); [intros [= <-]; apply failed_document_revision|]. by case_bool_decide.
    - destruct l; [done|intros [= <-]; apply failed_document_revision..]. }
  unfold plan_recovery. simpl. intros (d0 & Hd0 & ->)%fmap_Some. simpl. f_equal.
  destruct (rd_handoff d) as [h|]; [destruct (hr_phase h)|by apply Hst].
  - unfold plan_abort in Hd0. destruct (is_failed_closed _); [by apply Hst in Hd0|].
    by injection Hd0 as <-.
  - unfold plan_roll_forward in Hd0. destruct (entry d (hr_to h)) as [e|];
      [destruct (verified_alive _ _)|]; injection Hd0 as <-; [done|apply failed_document_revision..].
Qed.

Lemma recover_valid limit observe d l :
  valid limit d -> valid limit (document_after (plan_recovery observe d l) d).
Proof.
  intros Hv. destruct (recovery_document observe d l) as [-> | (d1 & -> & H)]; [done|].
  apply set_revision_valid. destruct H as [(h & _ & ->)|(d0 & -> & _ & H)].
  - by apply finished_valid.
  - apply failed_document_valid. destruct H as [-> | (h & _ & ->)]; [done|by apply finished_valid].
Qed.

Lemma role_failed d g :
  role (failed_document d) g = (fun _ => Retired) <$> role d g.
Proof.
  destruct (failed_document_fields d) as (_ & Eg & _). unfold role, entry. rewrite Eg. clear Eg.
  induction (rd_generations d) as [|e gens IH]; [done|]. csimpl.
  unfold at_key at 1 3. rewrite retire_entry_generation.
  case_bool_decide; simpl; [by rewrite retire_entry_role|done].
Qed.

Lemma recover_role_step observe d l : role_step d (document_after (plan_recovery observe d l) d).
Proof.
  destruct (recovery_document observe d l) as [-> | (d1 & -> & H)]; [apply role_step_refl|].
  destruct H as [(h & _ & ->)|(d0 & -> & Eg & H)]; [by apply role_step_same|].
  intros g. change (role (set_rd_revision _ _) g) with (role (failed_document d0) g).
  rewrite role_failed, (role_same_entries d d0 g Eg). destruct (role d g) as [[]|]; simpl; auto.
Qed.

Lemma handoff_op_valid limit d d' : handoff_op limit d d' -> valid limit d -> valid limit d'.
Proof.
  destruct 1; intros Hv; eauto using register_standby_valid, activate_first_valid,
    verify_standby_build_valid, begin_handoff_valid, commit_registry_valid, recover_valid.
  - apply complete_handoff_cases in H as [[_ ->]|(_ & h & _ & _ & _ & ->)];
      [done|by apply finished_valid].
  - apply abort_handoff_cases in H as [[_ ->]|(_ & h & _ & _ & _ & ->)];
      [done|by apply finished_valid].
Qed.

Lemma registry_op_valid limit d d' : registry_op limit d d' -> valid limit d -> valid limit d'.
Proof.
  destruct 1; intros Hv; eauto using handoff_op_valid, retire_self_valid, set_revision_valid.
Qed.

Lemma registry_op_role_step limit d d' : registry_op limit d d' -> role_step d d'.
Proof.
  destruct 1 as [d' H|g r d' H|]; [|by eapply retire_self_role_step|by apply role_step_same].
  destruct H; eauto using register_role_step, activate_first_role_step, verify_role_step,
    commit_role_step, recover_role_step.
  - apply begin_handoff_cases in H as [[_ ->]|(_ & endpoint & _ & _ & _ & _ & ->)]; by apply role_step_same.
  - apply complete_handoff_cases in H as [[_ ->]|(_ & h & _ & _ & _ & ->)]; by apply role_step_same.
  - apply abort_handoff_cases in H as [[_ ->]|(_ & h & _ & _ & _ & ->)]; by apply role_step_same.
Qed.

Lemma handoff_op_settled limit d d' :
  handoff_op limit d d' -> valid limit d -> settled d -> settled d'.
Proof.
  destruct 1; intros Hv Hs.
  - unfold register_standby in H. repeat case_match; by simplify_eq.
  - unfold activate_first in H. destruct (entry d g); [repeat case_match; by simplify_eq|].
    destruct (bool_decide (is_Some (rd_handoff d))) eqn:Eh; simpl in H; [by simplify_eq|].
    apply bool_decide_eq_false, eq_None_not_Some in Eh.
    repeat case_match; simplify_eq; try done; intros h Hh; simpl in Hh; congruence.
  - rewrite verify_standby_build_eq in H. repeat case_match; by simplify_eq.
  - apply begin_handoff_cases in H as [[_ ->]|(_ & endpoint & _ & _ & _ & _ & ->)]; [done|].
    by intros h [= <-].
  - apply commit_registry_cases in H as [[_ ->]|(_ & h & endpoint & _ & _ & _ & _ & _ & ->)]; [done|].
    by intros h' [= <-].
  - apply complete_handoff_cases in H as [[_ ->]|(_ & h & _ & _ & _ & ->)]; done.
  - apply abort_handoff_cases in H as [[_ ->]|(_ & h & _ & _ & _ & ->)]; done.
  - destruct (recovery_settles observe limit d l Hv Hs) as [_ [Hh _]]. intros h. by rewrite Hh.
Qed.
End registry_writers.

(** ** Properties *)
Section properties.
Implicit Types (d : RegistryDocument).

Lemma registry_reachable_valid limit d :
  rtc (registry_op limit) RegistryDocument_default d -> valid limit d.
Proof.
  intros H. apply (rtc_ind_r (fun d => valid limit d) _ (default_valid limit)) with (2 := H).
  intros y z _ Hyz Hy. by eapply registry_op_valid.
Qed.

(** C2: whatever sequence of operations, recoveries and refusals produced a
    registry document, it holds one entry per generation, retains at most
    [limit] of them, has at most one active generation, which is exactly the one
    [current] names, and its handoff is between registered generations - so no
    operation ever stages a document its own validation would refuse. *)
Theorem registry_always_valid limit d :
  rtc (registry_op limit) RegistryDocument_default d ->
  validate limit d = Ok tt /\
  NoDup (ge_generation <$> rd_generations d) /\ retained d <= limit /\
  (forall e, e ∈ rd_generations d -> ge_role e = Active -> rd_current d = Some (ge_generation e)) /\
  (forall g, rd_current d = Some g -> role d g = Some Active).
Proof.
  intros Hv%registry_reachable_valid. split; [by apply validate_spec|]. destruct Hv as [Hs Hnd Hl Ha Hc Hh]. split_and!; try done.
  intros g Hg. destruct (Hc g Hg) as (e & He & <- & Hr). unfold role. rewrite entry_elem by done.
  simpl. congruence.
Qed.

(** No operation resurrects an authority.  For every generation, one step of
    any writer leaves its role alone or moves it along the transition table, an
    entry disappears only when it was retired, and an entry appears only as a
    standby or as the first active generation of a registry retaining nobody. *)
Theorem roles_only_advance limit d d' g :
  registry_op limit d d' ->
  match role d g, role d' g with
  | Some r, Some r' => r' = r \/ transition_allowed r r' = true
  | Some r, None => r = Retired
  | None, Some r' => r' = Standby \/ (r' = Active /\ retained d = 0)
  | None, None => True
  end.
Proof.
  intros H%registry_op_role_step. specialize (H g).
  destruct (role d g), (role d' g); try done. destruct H; auto.
Qed.

(** a handoff step either advances, in which case it did exactly its
    documented move, or leaves the document alone; a repeated operation
    converges instead of acting twice. *)
Theorem handoff_steps_converge op from to d :
  (forall r d', (begin_handoff op from to d = (r, d') \/ commit_registry op d = (r, d') \/
                 complete_handoff op d = (r, d') \/ abort_handoff op d = (r, d')) ->
     r <> Ok Advanced -> d' = d) /\
  (forall d', begin_handoff op from to d = (Ok Advanced, d') ->
     begin_handoff op from to d' = (Ok AlreadyThere, d')) /\
  (forall d', commit_registry op d = (Ok Advanced, d') ->
     commit_registry op d' = (Ok AlreadyThere, d') /\
     abort_handoff op d' = (Err RegistryError.WrongPhase, d')) /\
  (forall d', complete_handoff op d = (Ok Advanced, d') ->
     begin_handoff op from to d' = (Ok AlreadyCompleted, d') /\
     commit_registry op d' = (Ok AlreadyCompleted, d') /\
     complete_handoff op d' = (Ok AlreadyCompleted, d')) /\
  (forall d', abort_handoff op d = (Ok Advanced, d') ->
     begin_handoff op from to d' = (Ok AlreadyCompleted, d') /\
     rd_current d' = rd_current d /\ rd_generations d' = rd_generations d).
Proof.
  split_and!.
  - intros r d' [H|[H|[H|H]]] Hr;
      [apply begin_handoff_cases in H|apply commit_registry_cases in H
      |apply complete_handoff_cases in H|apply abort_handoff_cases in H];
      by destruct H as [[_ ?]|[? _]].
  - intros d' [[? _]|(_ & endpoint & _ & Hc & _ & _ & ->)]%begin_handoff_cases; [done|].
    unfold begin_handoff, st_bind, st_get. simpl.
    rewrite bool_decide_eq_false_2 by done. by rewrite bool_decide_eq_true_2.
  - intros d' [[? _]|(_ & h & endpoint & _ & <- & _ & _ & _ & ->)]%commit_registry_cases; [done|].
    unfold commit_registry, abort_handoff, st_bind, st_get. simpl.
    by rewrite bool_decide_eq_true_2.
  - intros d' [[? _]|(_ & h & _ & <- & _ & ->)]%complete_handoff_cases; [done|].
    unfold begin_handoff, commit_registry, complete_handoff, not_in_flight, st_bind, st_get.
    simpl. by rewrite bool_decide_eq_true_2.
  - intros d' [[? _]|(_ & h & _ & <- & _ & ->)]%abort_handoff_cases; [done|].
    unfold begin_handoff, st_bind, st_get. simpl. by rewrite bool_decide_eq_true_2.
Qed.

(** a commit hands authority over completely: the successor was a verified
    standby with a comparable build, the predecessor was the generation holding
    authority, and afterwards the successor is active and current, the
    predecessor drains and nobody else's role moved. *)
Theorem commit_hands_over limit op d d' :
  valid limit d -> commit_registry op d = (Ok Advanced, d') ->
  exists h e, rd_handoff d = Some h /\ hr_operation h = op /\ hr_phase h = Preparing /\
    entry d (hr_to h) = Some e /\ ge_role e = Standby /\ is_build_verified e = true /\
    rd_current d = hr_from h /\
    rd_current d' = Some (hr_to h) /\ role d' (hr_to h) = Some Active /\
    (forall g, hr_from h = Some g -> role d g = Some Active /\ role d' g = Some Draining) /\
    (forall g, g <> hr_to h -> hr_from h <> Some g -> role d' g = role d g) /\
    valid limit d'.
Proof.
  intros Hv H. pose proof (commit_registry_valid _ _ _ _ _ H Hv) as Hv'.
  pose proof H as [[? _]|(_ & h & endpoint & Hh & Ho & Hp & Hs & Hf & E)]%commit_registry_cases; [done|].
  destruct (eligible_successor_ok _ _ _ Hs) as (e & He & Hr & _ & Hb & _).
  destruct (eligible_predecessor_ok _ _ _ Hf) as [Hc Hf'].
  exists h, e. split_and!; try done.
  - by rewrite E.
  - rewrite (commit_role _ _ _ (hr_to h) h H Hh). by rewrite decide_True.
  - intros g Hg. split; [by apply Hf'|]. rewrite (commit_role _ _ _ g h H Hh).
    rewrite decide_False, decide_True; [done|done|]. intros ->.
    pose proof (Hf' _ Hg) as Ha. unfold role in Ha. rewrite He in Ha. simpl in Ha. congruence.
  - intros g H1 H2. rewrite (commit_role _ _ _ g h H Hh). by rewrite !decide_False.
Qed.

(** C3: recovery settles the two durable objects.  From any valid registry and
    any locator, one recovery leaves a valid registry without a handoff, and it
    settles the pair unless a successor gave its authority up after its commit
    ([settled] says it did not, as no handoff step does): either the locator
    names the active generation, proved alive by its recorded identity, or there
    is no active generation and no locator; planning again finds nothing to do.
    A second recovery, with whatever process evidence, always settles it. *)
Theorem recovery_converges observe1 observe2 limit d l :
  valid limit d ->
  let '(d1, l1) := recovered observe1 d l in
  let '(d2, l2) := recovered observe2 d1 l1 in
  validate limit d1 = Ok tt /\ rd_handoff d1 = None /\
  (settled d -> agreed observe1 d1 l1 /\ plan_recovery observe1 d1 l1 = plan_consistent) /\
  validate limit d2 = Ok tt /\ agreed observe2 d2 l2 /\ plan_recovery observe2 d2 l2 = plan_consistent.
Proof.
  intros Hv. unfold recovered. destruct (recovery_frees observe1 limit d l Hv) as [Hv1 Hh1].
  destruct (recovery_settles observe2 limit _ (locator_after (plan_recovery observe1 d l) l) Hv1 (free_settled _ Hh1)) as [Hv2 Ha2].
  split_and!; [by apply validate_spec|done| |by apply validate_spec|done|by apply agreed_consistent].
  intros Hs. destruct (recovery_settles observe1 limit d l Hv Hs) as [_ Ha]. split; [done|by apply agreed_consistent].
Qed.

(** Recovery is safe to interrupt and to race.  The locator it ends with is
    decided by the registry and the process evidence alone, whatever the locator
    said before: the plan repairs the locator before it commits the document, so
    recovering again after a crash in between reaches the same locator.  And a
    recovered locator only ever names a registered generation, at its registered
    endpoint, whose recorded process identity was proved alive. *)
Theorem recovery_crash_safe observe d l l1 :
  locator_after (plan_recovery observe d l1) l1 = locator_after (plan_recovery observe d l) l /\
  forall p, locator_after (plan_recovery observe d l) l = Published p ->
    exists e, entry d (pl_generation p) = Some e /\ pl_endpoint p = ge_endpoint e /\
      observe (ge_process e) = ProcessObservation.VerifiedAlive (ge_process e).
Proof.
  rewrite !recovery_locator. split; [done|].
  intros p Hp. unfold surviving_authority in Hp.
  set (o := match rd_handoff d with Some h => _ | None => _ end) in Hp.
  assert (Ho : forall e, o = Some e -> entry d (ge_generation e) = Some e).
  { intros e He.
    assert (exists g, entry d g = Some e) as (g & Hg).
    { unfold o, active in He. destruct (rd_handoff d) as [h|]; [destruct (hr_phase h)|];
        try destruct (rd_current d); simpl in He; eauto; done. }
    pose proof (entry_Some _ _ _ Hg) as [_ <-]. done. }
  destruct o as [e|]; [|done]. destruct (verified_alive observe (ge_process e)) eqn:Eal; [|done].
  injection Hp as <-. exists e. split_and!; [by apply Ho|done|by apply bool_decide_eq_true in Eal].
Qed.
End properties.

(** A standby replaces an active daemon: the four steps, and the states a crash
    between them leaves. *)
Module HandoffExample.
Definition build : BuildIdentity :=
  build_identity "1.0" "c" "x86_64" "release"
    "0123456789abcdef0123456789abcdef0123456789abcdef0123456789abcdef".
Definition g1 := MkDaemonGeneration "g1".
Definition g2 := MkDaemonGeneration "g2".
Definition p1 := MkProcessIdentity 11 "boot-11" 11.
Definition p2 := MkProcessIdentity 22 "boot-22" 22.
Definition op := MkIpcOperationId "rollover".
Definition all_alive (p : ProcessIdentity) := ProcessObservation.VerifiedAlive p.
Definition d1 := snd (activate_first 2 g1 "sock1" p1 build RegistryDocument_default).
Definition d2 := snd (register_standby 2 g2 "sock2" p2 build d1).
Definition d3 := snd (verify_standby_build g2 build d2).
Definition prepared := snd (begin_handoff op (Some g1) g2 d3).
Definition committed := snd (commit_registry op prepared).
Definition completed := snd (complete_handoff op committed).

Lemma committed_reachable : rtc (registry_op 2) RegistryDocument_default committed.
Proof.
  eapply rtc_l; [apply op_handoff, (op_activate_first 2 _ g1 "sock1" p1 build (Ok tt) d1);
    vm_compute; reflexivity|].
  eapply rtc_l; [apply op_handoff, (op_register 2 d1 g2 "sock2" p2 build (Ok tt) d2);
    vm_compute; reflexivity|].
  eapply rtc_l; [apply op_handoff, (op_verify 2 d2 g2 build (Ok tt) d3); vm_compute; reflexivity|].
  eapply rtc_l; [apply op_handoff, (op_begin 2 d3 op (Some g1) g2 (Ok Advanced) prepared);
    vm_compute; reflexivity|].
  eapply rtc_l; [apply op_handoff, (op_commit 2 prepared op (Ok Advanced) committed);
    vm_compute; reflexivity|].
  apply rtc_refl.
Qed.

Lemma prepared_valid : valid 2 prepared.
Proof. apply validate_spec. vm_compute. reflexivity. Qed.

Lemma committed_example_valid : valid 2 committed.
Proof. apply validate_spec. vm_compute. reflexivity. Qed.

Lemma commit_run : commit_registry op prepared = (Ok Advanced, committed).
Proof. vm_compute. reflexivity. Qed.
End HandoffExample.

Lemma registry_always_valid_witness :
  validate 2 HandoffExample.committed = Ok tt /\
  rd_current HandoffExample.committed = Some HandoffExample.g2.
Proof.
  split; [|vm_compute; reflexivity].
  exact (proj1 (registry_always_valid 2 HandoffExample.committed HandoffExample.committed_reachable)).
Defined.

Lemma roles_only_advance_witness :
  registry_op 2 HandoffExample.prepared HandoffExample.committed /\
  transition_allowed Active Draining = true.
Proof.
  assert (Hop : registry_op 2 HandoffExample.prepared HandoffExample.committed).
  { apply op_handoff, (op_commit 2 HandoffExample.prepared HandoffExample.op (Ok Advanced)).
    exact HandoffExample.commit_run. }
  split; [exact Hop|].
  pose proof (roles_only_advance 2 _ _ HandoffExample.g1 Hop) as H.
  vm_compute in H. destruct H as [H|H]; [discriminate H|exact H].
Defined.

Lemma commit_hands_over_witness :
  rd_current HandoffExample.committed = Some HandoffExample.g2 /\
  role HandoffExample.committed HandoffExample.g1 = Some Draining.
Proof.
  destruct (commit_hands_over 2 HandoffExample.op HandoffExample.prepared HandoffExample.committed
    HandoffExample.prepared_valid HandoffExample.commit_run)
    as (h & e & Hh & _ & _ & _ & _ & _ & _ & _ & _ & Hf & _).
  split; [vm_compute; reflexivity|]. vm_compute in Hh. injection Hh as <-.
  exact (proj2 (Hf HandoffExample.g1 eq_refl)).
Defined.

Lemma recovery_converges_witness :
  rp_outcome (plan_recovery HandoffExample.all_alive HandoffExample.committed Absent) =
    RolledForward HandoffExample.op /\
  plan_recovery HandoffExample.all_alive
    (document_after (plan_recovery HandoffExample.all_alive HandoffExample.committed Absent)
       HandoffExample.committed)
    (locator_after (plan_recovery HandoffExample.all_alive HandoffExample.committed Absent) Absent)
  = plan_consistent.
Proof.
  split; [vm_compute; reflexivity|].
  assert (Hs : settled HandoffExample.committed).
  { intros h Hh _. vm_compute in Hh. injection Hh as <-. vm_compute. reflexivity. }
  pose proof (recovery_converges HandoffExample.all_alive HandoffExample.all_alive 2 HandoffExample.committed
    Absent HandoffExample.committed_example_valid) as H.
  unfold recovered in H. destruct H as (_ & _ & H & _). exact (proj2 (H Hs)).
Defined.

(** What [settled] excludes: a successor that gives its authority up while its
    handoff is committed but not yet completed.  Its entry is retired, yet while
    its process still runs recovery rolls the handoff forward, publishing a
    locator to the retired generation; the next recovery then finds a locator with
    no active generation and fails closed. *)
Example recovery_publishes_retired_successor :
  let d := snd (retire_self HandoffExample.g2 HandoffExample.committed) in
  let plan := plan_recovery HandoffExample.all_alive d Absent in
  let d' := document_after plan d in
  let l' := locator_after plan Absent in
  validate 2 d = Ok tt /\
  rp_outcome plan = RolledForward HandoffExample.op /\
  l' = Published (MkPublishedLocator HandoffExample.g2 "sock2") /\
  role d' HandoffExample.g2 = Some Retired /\
  rp_outcome (plan_recovery HandoffExample.all_alive d' l') = FailedClosed StaleCurrent.
Proof. vm_compute. repeat split. Qed.
