(* ===== verification/Admission.v ===== *)
(** * Per-request admission and the leases that fence a handoff
    ([crates/daemon/src/usecase/authority/admission.rs])

    The gate is a mutex-protected [GateState]; every method is one critical
    section, so a step of the running process is one operation on that state
    together with the leases other threads hold ([System]).  [admit] is two
    critical sections - it reads the role and then acquires - and is modelled as
    such.  [await_drain] blocks: it is a transition enabled only once its wait
    condition holds. *)
From S2P Require Export Generation.

Inductive LeaseClass : Type := ActiveControl | OwnerTerminal.
#[export] Instance lease_class_eq_dec : EqDecision LeaseClass.
Proof. solve_decision. Defined.

Inductive RequestClass : Type := Rollover | Control | Spawn | TerminalIo | Read | Inventory.
#[export] Instance request_class_eq_dec : EqDecision RequestClass.
Proof. solve_decision. Defined.

Inductive ResourceOwner : Type := SelfGeneration | OtherGeneration | Unscoped.
#[export] Instance resource_owner_eq_dec : EqDecision ResourceOwner.
Proof. solve_decision. Defined.

Module AdmissionRefusal.
Inductive t : Type := NotActive | Closed | NotOwner | Retired | StaleRevision | StillOpen.
#[export] Instance eq_dec : EqDecision t.
Proof. solve_decision. Defined.
End AdmissionRefusal.
Export (hints) AdmissionRefusal.

Definition classify (role : GenerationRole) (request : RequestClass) (owner : ResourceOwner)
    : result AdmissionRefusal.t (option LeaseClass) :=
  if bool_decide (owner = OtherGeneration) then Err AdmissionRefusal.NotOwner
  else match role with
       | Retired => Err AdmissionRefusal.Retired
       | Standby =>
           match request with
           | Read | Inventory => Ok None
           | _ => Err AdmissionRefusal.NotActive
           end
       | Draining =>
           match request with
           | Read | Inventory => Ok None
           | TerminalIo =>
               if bool_decide (owner = SelfGeneration) then Ok (Some OwnerTerminal)
               else Err AdmissionRefusal.NotOwner
           | Rollover | Control | Spawn => Err AdmissionRefusal.NotActive
           end
       | Active =>
           match request with
           | Rollover | Read | Inventory => Ok None
           | TerminalIo =>
               if bool_decide (owner = SelfGeneration) then Ok (Some OwnerTerminal)
               else Err AdmissionRefusal.NotOwner
           | Control | Spawn => Ok (Some ActiveControl)
           end
       end.

Record GateState := MkGateState {
  gate_role : GenerationRole;
  gate_revision : N;
  active_open : bool;
  owner_open : bool;
  active_leases : nat;
  owner_leases : nat;
  barred : bool;
}.

Record AdmissionLease := MkAdmissionLease {
  lease_class : LeaseClass;
  lease_generation : DaemonGeneration;
  lease_revision : N;
}.
#[export] Instance admission_lease_eq_dec : EqDecision AdmissionLease.
Proof. solve_decision. Defined.

Definition gate_open (s : GateState) (class : LeaseClass) : bool :=
  match class with ActiveControl => active_open s | OwnerTerminal => owner_open s end.

Definition gate_count (s : GateState) (class : LeaseClass) : nat :=
  match class with ActiveControl => active_leases s | OwnerTerminal => owner_leases s end.

(** Writing through [count_mut]. *)
Definition set_count (class : LeaseClass) (n : nat) (s : GateState) : GateState :=
  match class with
  | ActiveControl =>
      MkGateState (gate_role s) (gate_revision s) (active_open s) (owner_open s) n
        (owner_leases s) (barred s)
  | OwnerTerminal =>
      MkGateState (gate_role s) (gate_revision s) (active_open s) (owner_open s)
        (active_leases s) n (barred s)
  end.

(** ** The gate *)
Module AdmissionGate.
Import AdmissionRefusal.
Definition gate_st := st GateState AdmissionRefusal.t.

Definition new (role : GenerationRole) : GateState :=
  MkGateState role 1 (bool_decide (role = Active))
    (bool_decide (role = Active) || bool_decide (role = Draining)) 0 0 false.

(** The roles in which [class] may be issued at all. *)
Definition role_permits (class : LeaseClass) (role : GenerationRole)
    : result AdmissionRefusal.t unit :=
  match class, role with
  | _, Generation.Retired => Err Retired
  | ActiveControl, Active => Ok tt
  | OwnerTerminal, (Active | Draining) => Ok tt
  | _, _ => Err NotActive
  end.

Definition acquire (generation : DaemonGeneration) (class : LeaseClass)
    : gate_st AdmissionLease := fun s =>
  match role_permits class (gate_role s) with
  | Err e => (Err e, s)
  | Ok _ =>
      if negb (gate_open s class) then (Err Closed, s)
      else (Ok (MkAdmissionLease class generation (gate_revision s)),
            set_count class (gate_count s class + 1) s)
  end.

(** [admit]: the role is read in one critical section, the lease acquired in a
    later one; [role] is what the first one saw. *)
Definition admit_after (generation : DaemonGeneration) (role : GenerationRole)
    (request : RequestClass) (owner : ResourceOwner) : gate_st (option AdmissionLease) :=
  class <-! st_lift (classify role request owner) ;;
  match class with
  | None => st_ret None
  | Some class => lease <-! acquire generation class ;; st_ret (Some lease)
  end.

Definition admit_ (generation : DaemonGeneration) (request : RequestClass)
    (owner : ResourceOwner) : gate_st (option AdmissionLease) := fun s =>
  admit_after generation (gate_role s) request owner s.

Definition close (class : LeaseClass) (s : GateState) : GateState :=
  match class with
  | ActiveControl =>
      MkGateState (gate_role s) (gate_revision s) false (owner_open s) (active_leases s)
        (owner_leases s) (barred s)
  | OwnerTerminal =>
      MkGateState (gate_role s) (gate_revision s) (active_open s) false (active_leases s)
        (owner_leases s) (barred s)
  end.

(** [None]: the caller is parked on the condition variable. *)
Definition await_drain (class : LeaseClass) (s : GateState)
    : option (result AdmissionRefusal.t unit) :=
  if gate_open s class then Some (Err StillOpen)
  else if (0 <? gate_count s class)%nat then None
  else Some (Ok tt).

Definition activate : gate_st N := fun s =>
  if negb (bool_decide (gate_role s = Standby)) then (Err NotActive, s)
  else
    let s' := MkGateState Active (gate_revision s + 1) true true (active_leases s)
                (owner_leases s) (barred s) in
    (Ok (gate_revision s'), s').

Definition enter_draining : gate_st N := fun s =>
  if negb (bool_decide (gate_role s = Active)) then (Err NotActive, s)
  else if active_open s then (Err StillOpen, s)
  else if (0 <? active_leases s)%nat then (Err Closed, s)
  else
    let s' := MkGateState Draining (gate_revision s + 1) (active_open s) (owner_open s)
                (active_leases s) (owner_leases s) true in
    (Ok (gate_revision s'), s').

Definition abort_draining : gate_st N := fun s =>
  if negb (barred s) || negb (bool_decide (gate_role s = Draining)) then (Err NotActive, s)
  else
    let s' := MkGateState Active (gate_revision s + 1) true (owner_open s)
                (active_leases s) (owner_leases s) false in
    (Ok (gate_revision s'), s').

Definition confirm_draining (s : GateState) : GateState :=
  MkGateState (gate_role s) (gate_revision s) (active_open s) (owner_open s)
    (active_leases s) (owner_leases s) false.

Definition handed_off (s : GateState) : bool :=
  match gate_role s with
  | Draining => negb (barred s)
  | Generation.Retired => true
  | Active | Standby => false
  end.

Definition enter_retired : gate_st N := fun s =>
  if active_open s || owner_open s then (Err StillOpen, s)
  else if (0 <? active_leases s)%nat || (0 <? owner_leases s)%nat then (Err Closed, s)
  else
    let s' := MkGateState Generation.Retired (gate_revision s + 1) (active_open s)
                (owner_open s) (active_leases s) (owner_leases s) (barred s) in
    (Ok (gate_revision s'), s').

(** *** Leases *)
Definition revalidate (lease : AdmissionLease) (s : GateState) : result AdmissionRefusal.t unit :=
  if bool_decide (gate_revision s = lease_revision lease) then Ok tt else Err StaleRevision.

(** [Drop for AdmissionLease]: [saturating_sub] *)
Definition drop_lease (lease : AdmissionLease) (s : GateState) : GateState :=
  set_count (lease_class lease) (gate_count s (lease_class lease) - 1) s.
End AdmissionGate.

(** ** The process: the gate and the leases its threads hold *)
Record System := MkSystem {
  sys_gate : GateState;
  sys_leases : list AdmissionLease;
}.

Section process.
Import AdmissionGate.
Context (generation : DaemonGeneration).

(** An operation that issues no lease; whatever it answers, its effect is the
    state it leaves. *)
Inductive gate_op : GateState -> GateState -> Prop :=
| gate_close class s : gate_op s (close class s)
| gate_activate s : gate_op s (snd (activate s))
| gate_enter_draining s : gate_op s (snd (enter_draining s))
| gate_abort_draining s : gate_op s (snd (abort_draining s))
| gate_confirm_draining s : gate_op s (confirm_draining s)
| gate_enter_retired s : gate_op s (snd (enter_retired s)).

Inductive step : System -> System -> Prop :=
| step_gate s s' ls : gate_op s s' -> step (MkSystem s ls) (MkSystem s' ls)
| step_acquire class s s' lease ls :
    acquire generation class s = (Ok lease, s') ->
    step (MkSystem s ls) (MkSystem s' (lease :: ls))
| step_admit role request owner s s' lease ls :
    admit_after generation role request owner s = (Ok (Some lease), s') ->
    step (MkSystem s ls) (MkSystem s' (lease :: ls))
| step_drop lease s ls1 ls2 :
    step (MkSystem s (ls1 ++ lease :: ls2)) (MkSystem (drop_lease lease s) (ls1 ++ ls2)).

Definition initial (role : GenerationRole) : System := MkSystem (new role) [].

Definition of_class (class : LeaseClass) (l : AdmissionLease) : bool :=
  bool_decide (lease_class l = class).

Record inv (s : System) : Prop := MkInv {
  inv_count : forall class, gate_count (sys_gate s) class = count (of_class class) (sys_leases s);
  inv_active_open : active_open (sys_gate s) = true -> gate_role (sys_gate s) = Active;
  inv_owner_open : owner_open (sys_gate s) = true ->
    gate_role (sys_gate s) = Active \/ gate_role (sys_gate s) = Draining;
  inv_active_leases : active_leases (sys_gate s) <> 0 -> gate_role (sys_gate s) = Active;
  inv_owner_leases : owner_leases (sys_gate s) <> 0 ->
    gate_role (sys_gate s) = Active \/ gate_role (sys_gate s) = Draining;
  inv_control : forall l, l ∈ sys_leases s -> lease_class l = ActiveControl ->
    lease_revision l = gate_revision (sys_gate s);
}.

Lemma initial_inv role : inv (initial role).
Proof.
  constructor; simpl; try done; destruct role; simpl; auto; try done.
  all: try (by intros []). all: by intros l Hl%not_elem_of_nil.
Qed.

Lemma no_control_lease s ls :
  active_leases s = 0 -> (forall class, gate_count s class = count (of_class class) ls) ->
  forall l, l ∈ ls -> lease_class l <> ActiveControl.
Proof.
  intros H0 Hc l Hl Hcl. specialize (Hc ActiveControl). simpl in Hc. rewrite H0 in Hc. symmetry in Hc.
  apply (proj1 (count_zero _ _)) with (x := l) in Hc; [|done].
  unfold of_class in Hc. by apply bool_decide_eq_false in Hc.
Qed.

(** A change of revision is allowed only while no control lease is held. *)
Lemma inv_gate s s' ls : gate_op s s' -> inv (MkSystem s ls) -> inv (MkSystem s' ls).
Proof.
  intros Hop Hsame. pose proof Hsame as [Hc Hao Hoo Hal Hol Hr]. simpl in *.
  assert (Hno : active_leases s = 0 -> forall r, forall l, l ∈ ls ->
    lease_class l = ActiveControl -> lease_revision l = r).
  { intros H0 r l Hl Hcl. by destruct (no_control_lease s ls H0 Hc l Hl). }
  destruct Hop.
  - destruct class; by constructor.
  - unfold activate. case_bool_decide as Es; simpl; [|by constructor].
    assert (active_leases s = 0) by (destruct (decide (active_leases s = 0)) as [|Hn];
      [done|rewrite (Hal Hn) in Es; done]).
    constructor; simpl; auto.
  - unfold enter_draining. case_bool_decide as Es; simpl; [|by constructor].
    destruct (active_open s) eqn:Eo; [done|].
    destruct (Nat.ltb_spec 0 (active_leases s)); [done|].
    constructor; simpl; auto; try lia; try congruence.
    intros l. apply Hno. lia.
  - unfold abort_draining. destruct (barred s); simpl; [|by constructor].
    case_bool_decide as Es; simpl; [|by constructor].
    assert (active_leases s = 0) by (destruct (decide (active_leases s = 0)) as [|Hn];
      [done|rewrite (Hal Hn) in Es; done]).
    constructor; simpl; auto.
  - by destruct Hsame; constructor.
  - unfold enter_retired. destruct (active_open s) eqn:Eo; simpl; [done|].
    destruct (owner_open s) eqn:Eoo; simpl; [done|].
    destruct (Nat.ltb_spec 0 (active_leases s)); simpl; [done|].
    destruct (Nat.ltb_spec 0 (owner_leases s)); simpl; [done|].
    constructor; simpl; auto; try lia; try congruence.
    intros l. apply Hno. lia.
Qed.

Lemma acquire_ok class s lease s' :
  acquire generation class s = (Ok lease, s') ->
  role_permits class (gate_role s) = Ok tt /\ gate_open s class = true /\
  lease = MkAdmissionLease class generation (gate_revision s) /\
  s' = set_count class (gate_count s class + 1) s.
Proof.
  unfold acquire. destruct (role_permits class (gate_role s)) as [[]|]; [|done].
  destruct (gate_open s class); simpl; [|done]. by intros [= <- <-].
Qed.

Lemma inv_acquire class s lease s' ls :
  acquire generation class s = (Ok lease, s') ->
  inv (MkSystem s ls) -> inv (MkSystem s' (lease :: ls)).
Proof.
  intros (Hp & _ & -> & ->)%acquire_ok [Hc Hao Hoo Hal Hol Hr]. simpl in *.
  pose proof (Hc ActiveControl) as Ha. pose proof (Hc OwnerTerminal) as Ho. simpl in Ha, Ho.
  destruct class; constructor; simpl; try done.
  - intros []; rewrite count_cons; unfold of_class in *; simpl in *; lia.
  - intros _. by destruct (gate_role s).
  - intros l [->|Hl]%elem_of_cons Hcl; [done|by apply Hr].
  - intros []; rewrite count_cons; unfold of_class in *; simpl in *; lia.
  - intros _. destruct (gate_role s); auto; done.
  - intros l [->|Hl]%elem_of_cons Hcl; [done|by apply Hr].
Qed.

Lemma inv_drop lease s ls1 ls2 :
  inv (MkSystem s (ls1 ++ lease :: ls2)) -> inv (MkSystem (drop_lease lease s) (ls1 ++ ls2)).
Proof.
  intros [Hc Hao Hoo Hal Hol Hr]. simpl in *.
  pose proof (Hc ActiveControl) as Ha. pose proof (Hc OwnerTerminal) as Ho. simpl in Ha, Ho.
  rewrite count_app, count_cons in Ha, Ho.
  assert (Hr' : forall l, l ∈ ls1 ++ ls2 -> l ∈ ls1 ++ lease :: ls2).
  { intros l. rewrite !elem_of_app, elem_of_cons. tauto. }
  unfold drop_lease. unfold of_class in Ha at 2. unfold of_class in Ho at 2.
  destruct (lease_class lease) eqn:Ecl; simpl in *; constructor; simpl; try done.
  all: try (intros []; simpl; rewrite ?count_app; lia).
  all: try (intros Hn; first [apply Hal|apply Hol]; lia).
  all: intros l Hl; by apply Hr, Hr'.
Qed.

Lemma admit_acquire role request owner s lease s' :
  admit_after generation role request owner s = (Ok (Some lease), s') ->
  exists class, classify role request owner = Ok (Some class) /\
    acquire generation class s = (Ok lease, s').
Proof.
  unfold admit_after, st_bind, st_lift, st_ret.
  destruct (classify role request owner) as [[class|]|]; try done.
  destruct (acquire generation class s) as [[l|] s1] eqn:E; [|done].
  intros [= -> ->]. by exists class.
Qed.

Lemma step_inv s s' : step s s' -> inv s -> inv s'.
Proof.
  destruct 1; [by apply inv_gate|by eapply inv_acquire| |by apply inv_drop].
  apply admit_acquire in H as (class & _ & H). by eapply inv_acquire.
Qed.

Lemma gate_system_inv role s : rtc step (initial role) s -> inv s.
Proof.
  intros H. apply (rtc_ind_r (fun s => inv s) _ (initial_inv role)) with (2 := H).
  intros y z _ Hyz Hy. by eapply step_inv.
Qed.

(** *** A class that stopped issuing *)
Definition reopens (s s' : GateState) : Prop :=
  fst (activate s) <> Err AdmissionRefusal.NotActive /\ s' = snd (activate s) \/
  fst (abort_draining s) <> Err AdmissionRefusal.NotActive /\ s' = snd (abort_draining s).

Lemma gate_op_closed class s s' :
  gate_op s s' -> gate_open s class = false ->
  (gate_open s' class = false /\ forall c, gate_count s' c = gate_count s c) \/ reopens s s'.
Proof.
  intros Hop Ho. destruct Hop.
  - left. destruct class, class0; simpl in *; split; try done; by intros [].
  - unfold activate. destruct (bool_decide (gate_role s = Standby)) eqn:E; simpl; [|by left]. right. left.
    unfold activate. by rewrite E.
  - left. unfold enter_draining. case_bool_decide; simpl; [|done].
    destruct (active_open s) eqn:Eo; [done|]. destruct (0 <? active_leases s); [done|].
    split; [by destruct class|by intros []].
  - unfold abort_draining. destruct (barred s) eqn:Eb; simpl; [|by left].
    destruct (bool_decide (gate_role s = Draining)) eqn:E; simpl; [|by left]. right. right. unfold abort_draining. by rewrite Eb, E.
  - left. split; [by destruct class|by intros []].
  - left. unfold enter_retired. destruct (active_open s || owner_open s); [done|].
    destruct (_ || _); [done|]. split; [by destruct class|by intros []].
Qed.

Lemma closed_step class s s' :
  step s s' -> gate_open (sys_gate s) class = false -> ~ reopens (sys_gate s) (sys_gate s') ->
  gate_open (sys_gate s') class = false /\
  gate_count (sys_gate s') class <= gate_count (sys_gate s) class.
Proof.
  destruct 1 as [g g' ls Hop|c g g' l ls Ha|role req own g g' l ls Ha|l g ls1 ls2];
    simpl; intros Ho Hn.
  - destruct (gate_op_closed class _ _ Hop Ho) as [[? E]|?]; [|done]. by rewrite E.
  - apply acquire_ok in Ha as (_ & Hopen & _ & ->).
    destruct c, class; simpl in *; (split; [done|]); try lia; congruence.
  - apply admit_acquire in Ha as (c & _ & Ha). apply acquire_ok in Ha as (_ & Hopen & _ & ->).
    destruct c, class; simpl in *; (split; [done|]); try lia; congruence.
  - unfold drop_lease. destruct (lease_class l), class; simpl in *; split; try done; lia.
Qed.

Lemma handed_off_step s s' : step s s' -> handed_off (sys_gate s) = true -> handed_off (sys_gate s') = true.
Proof.
  unfold handed_off. destruct 1 as [g g' ls Hop|c g g' l ls Ha|role req own g g' l ls Ha|l g ls1 ls2]; simpl.
  - destruct Hop; simpl.
    + by destruct class.
    + unfold activate. case_bool_decide as E; simpl; [by rewrite E|done].
    + unfold enter_draining. case_bool_decide as E; simpl; [by rewrite E|done].
    + unfold abort_draining. destruct (barred s) eqn:Eb; simpl; [|by rewrite Eb].
      case_bool_decide as E; simpl; [by rewrite E|by rewrite Eb].
    + by destruct (gate_role s).
    + unfold enter_retired. destruct (_ || _); [done|]. by destruct (_ || _).
  - apply acquire_ok in Ha as (_ & _ & _ & ->). by destruct c.
  - apply admit_acquire in Ha as (c & _ & Ha). apply acquire_ok in Ha as (_ & _ & _ & ->). by destruct c.
  - unfold drop_lease. by destruct (lease_class l).
Qed.

(** ** Properties *)

(** C4: in every interleaving, the gate's counters are exactly the leases held
    (so releasing one never underflows), control leases exist only while the
    generation is active, owner leases only while it is active or draining, and a
    control lease revalidates for as long as it is held: no role change can slip
    between a reservation and the commit it protects. *)
Theorem leases_fence_the_role role s :
  rtc step (initial role) s ->
  (forall class, gate_count (sys_gate s) class = count (of_class class) (sys_leases s)) /\
  forall l, l ∈ sys_leases s ->
    match lease_class l with
    | ActiveControl => gate_role (sys_gate s) = Active /\ revalidate l (sys_gate s) = Ok tt
    | OwnerTerminal => gate_role (sys_gate s) = Active \/ gate_role (sys_gate s) = Draining
    end.
Proof.
  intros [Hc _ _ Hal Hol Hr]%gate_system_inv. split; [done|]. intros l Hl.
  assert (Hpos : gate_count (sys_gate s) (lease_class l) <> 0).
  { rewrite Hc. intros Hz. apply (proj1 (count_zero _ _)) with (x := l) in Hz; [|done].
    unfold of_class in Hz. by apply bool_decide_eq_false in Hz. }
  destruct (lease_class l) eqn:Ecl; simpl in Hpos; [|by apply Hol].
  split; [by apply Hal|]. unfold revalidate. by rewrite bool_decide_eq_true_2 by (symmetry; by apply Hr).
Qed.

(** the handoff barrier.  Once control work is closed, whatever the other
    threads do short of reopening the gate, no further control lease is issued;
    and when the outstanding ones are released, [enter_draining] succeeds and
    leaves a draining gate under which nothing active-only is admitted, while
    terminals it owns still are. *)
Theorem control_barrier s s' ls :
  step s s' -> active_open (sys_gate s) = false -> ~ reopens (sys_gate s) (sys_gate s') ->
  active_open (sys_gate s') = false /\
  active_leases (sys_gate s') <= active_leases (sys_gate s) /\
  (await_drain ActiveControl (sys_gate s') = Some (Ok tt) ->
   gate_role (sys_gate s') = Active ->
   exists revision g, enter_draining (sys_gate s') = (Ok revision, g) /\
     gate_role g = Draining /\ handed_off g = false /\
     revision = (gate_revision (sys_gate s') + 1)%N /\
     forall role request lease s2,
       admit_after generation role request SelfGeneration g = (Ok (Some lease), s2) ->
       request = TerminalIo /\ step (MkSystem g ls) (MkSystem s2 (lease :: ls))).
Proof.
  intros Hstep Ho Hn. destruct (closed_step ActiveControl _ _ Hstep Ho Hn) as [Ho' Hle].
  split_and!; [done|done|]. intros Hw Hrole. simpl in Ho'.
  unfold await_drain in Hw. simpl in Hw. rewrite Ho' in Hw.
  destruct (Nat.ltb_spec 0 (active_leases (sys_gate s'))); [done|].
  eexists _, _. split.
  { unfold enter_draining. rewrite Hrole, bool_decide_eq_true_2, Ho' by done. simpl.
    destruct (Nat.ltb_spec 0 (active_leases (sys_gate s'))); [lia|]. done. }
  split_and!; try done.
  intros role request lease s2 Ha. split; [|by eapply step_admit].
  apply admit_acquire in Ha as (class & Hcl & Ha). apply acquire_ok in Ha as (Hp & _).
  destruct class; [done|]. unfold classify in Hcl. simpl in Hcl. by destruct role, request.
Qed.

(** handing authority on is final.  Once the drain is confirmed (or the
    generation retired), in every continuation it stays so: no control lease is
    ever issued again and the barrier cannot be reopened. *)
Theorem handed_off_is_final s s' :
  rtc step s s' -> handed_off (sys_gate s) = true ->
  handed_off (sys_gate s') = true /\
  fst (abort_draining (sys_gate s')) = Err AdmissionRefusal.NotActive /\
  forall role request owner lease g,
    admit_after generation role request owner (sys_gate s') = (Ok (Some lease), g) ->
    lease_class lease = OwnerTerminal.
Proof.
  intros Hrun Hh. assert (Hh' : handed_off (sys_gate s') = true).
  { induction Hrun; [done|]. eauto using handed_off_step. }
  split; [done|]. unfold handed_off in Hh'. split.
  - unfold abort_draining. destruct (gate_role (sys_gate s')), (barred (sys_gate s')); done.
  - intros role request owner lease g Ha. apply admit_acquire in Ha as (class & _ & Ha).
    apply acquire_ok in Ha as (Hp & _ & -> & _). destruct class; [|done].
    destruct (gate_role (sys_gate s')); done.
Qed.
End process.

(** A handoff while a control lease is held: it is waited for. *)
Module AdmissionExample.
Import AdmissionGate.
Definition g := MkDaemonGeneration "g".
Definition lease := MkAdmissionLease ActiveControl g 1.
Definition s0 := initial Active.
Definition s1 := MkSystem (snd (acquire g ActiveControl (new Active))) [lease].
Definition s2 := MkSystem (close ActiveControl (sys_gate s1)) [lease].
Definition s3 := MkSystem (drop_lease lease (sys_gate s2)) [].
Definition s4 := MkSystem (snd (enter_draining (sys_gate s3))) [].
Definition s5 := MkSystem (confirm_draining (sys_gate s4)) [].

Lemma run1 : rtc (step g) s0 s1.
Proof. apply rtc_once. by apply (step_acquire g ActiveControl). Qed.
Lemma run3 : step g s2 s3.
Proof. apply (step_drop g lease (sys_gate s2) [] []). Qed.
Lemma run5 : rtc (step g) s4 s5.
Proof. apply rtc_once, step_gate, gate_confirm_draining. Qed.
Lemma not_reopened : ~ reopens (sys_gate s2) (sys_gate s3).
Proof. intros [[H _]|[H _]]; by apply H. Qed.
End AdmissionExample.

Lemma leases_fence_the_role_witness :
  AdmissionGate.revalidate AdmissionExample.lease (sys_gate AdmissionExample.s1) = Ok tt.
Proof.
  destruct (leases_fence_the_role AdmissionExample.g Active AdmissionExample.s1 AdmissionExample.run1)
    as [_ H].
  exact (proj2 (H AdmissionExample.lease (list_elem_of_here _ _))).
Defined.

Lemma control_barrier_witness :
  exists g, AdmissionGate.enter_draining (sys_gate AdmissionExample.s3) = (Ok 2%N, g) /\
    gate_role g = Draining.
Proof.
  destruct (control_barrier AdmissionExample.g AdmissionExample.s2 AdmissionExample.s3 []
    AdmissionExample.run3 eq_refl AdmissionExample.not_reopened) as (_ & _ & H).
  destruct (H eq_refl eq_refl) as (rev & g & E & Hr & _ & -> & _).
  exists g. split; [exact E|exact Hr].
Defined.

Lemma handed_off_is_final_witness :
  AdmissionGate.handed_off (sys_gate AdmissionExample.s5) = true /\
  fst (AdmissionGate.abort_draining (sys_gate AdmissionExample.s5)) = Err AdmissionRefusal.NotActive.
Proof.
  destruct (handed_off_is_final AdmissionExample.g AdmissionExample.s5 AdmissionExample.s5
    (rtc_refl _ _) eq_refl) as (H1 & H2 & _).
  split; [exact H1|exact H2].
Defined.
