(* ===== verification/Fence.v ===== *)
(** * The fences in front of a daemon's dispatch
    ([crates/daemon/src/usecase/authority/{fence,pre_handshake,routing}.rs])

    Three independent gates: [RequestFence] names the kind of work a wire request
    performs, [PreHandshake] bounds the accepted sockets whose first frame is
    incomplete, and [Routing] decides whether a rollover may leave a draining
    generation behind.  The request body is a [serde_json::Value]; the model takes
    it as an abstract type with the two calls the code makes composed,
    [body.get(key).and_then(Value::as_str)]. *)
From S2P Require Export Admission Registry.

(** ** What a wire request asks for *)
Inductive OwnedRuntime : Type := Own | Nothing.

Definition named (o : OwnedRuntime) : ResourceOwner :=
  match o with Own => SelfGeneration | Nothing => OtherGeneration end.

Section request_fence.
Context {Value : Type} (get_str : Value -> string -> option string).

(** [matches!(value, Some("a" | "b" | ..))] *)
Definition one_of (value : option string) (texts : list string) : bool :=
  match value with Some v => bool_decide (v ∈ texts) | None => false end.

Definition terminal_class (body : Value) (owned : OwnedRuntime) : RequestClass * ResourceOwner :=
  let action := get_str body "action" in
  if one_of action ["launch"%string] then (Spawn, Unscoped)
  else if one_of action ["inventory"; "completed_inventory"]%string then (Inventory, Unscoped)
  else if one_of action ["input_outcome"%string] then (Read, named owned)
  else (TerminalIo, named owned).

Definition spawn_kinds : list string :=
  ["agent"; "resume_agent"; "resume_agent_headless"; "resume_agent_with_current_integration"].
Definition inventory_kinds : list string :=
  ["agent_inventory"; "agent_workspace_observation"; "diagnose_agents"].
Definition read_kinds : list string := ["metrics"; "pr"].

Definition classify_request (body : Value) (owned : OwnedRuntime) : RequestClass * ResourceOwner :=
  let kind := get_str body "kind" in
  if one_of kind ["rollover"%string] then (Rollover, Unscoped)
  else if one_of kind ["terminal"%string] then terminal_class body owned
  else if one_of kind spawn_kinds then (Spawn, Unscoped)
  else if one_of kind inventory_kinds then (Inventory, Unscoped)
  else if one_of kind ["tenant"%string] && one_of (get_str body "action") ["inventory"%string]
  then (Inventory, Unscoped)
  else if one_of kind read_kinds then (Read, Unscoped)
  else (Control, Unscoped).

(** The kinds the fence can name. *)
Definition known_kinds : list string :=
  ["rollover"; "terminal"; "tenant"]%string ++ spawn_kinds ++ inventory_kinds ++ read_kinds.

Lemma one_of_singleton value text : one_of value [text] = true -> value = Some text.
Proof.
  unfold one_of. destruct value; [|done]. intros H%bool_decide_eq_true.
  by apply list_elem_of_singleton in H as ->.
Qed.

Lemma terminal_class_owner body owned :
  let '(class, owner) := terminal_class body owned in
  (owner = named owned /\ (class = TerminalIo \/ class = Read)) \/
  (owner = Unscoped /\ (class = Spawn \/ class = Inventory)).
Proof. unfold terminal_class. repeat case_match; simplify_eq; auto. Qed.

Lemma classify_request_owner body owned :
  let '(class, owner) := classify_request body owned in
  (owner = Unscoped /\ class <> TerminalIo) \/
  (owner = named owned /\ get_str body "kind" = Some "terminal"%string /\
   (class = TerminalIo \/ class = Read)).
Proof.
  unfold classify_request. destruct (one_of _ ["rollover"%string]); [by left|].
  destruct (one_of _ ["terminal"%string]) eqn:Ek.
  - apply one_of_singleton in Ek. pose proof (terminal_class_owner body owned) as Ht.
    destruct (terminal_class body owned) as [class owner].
    destruct Ht as [[-> [-> | ->]]|[-> [-> | ->]]]; auto.
  - repeat (case_match; simplify_eq; try (by left)).
Qed.

Lemma classify_request_unknown body owned :
  (forall k, get_str body "kind" = Some k -> k ∉ known_kinds) ->
  classify_request body owned = (Control, Unscoped).
Proof.
  intros H. unfold classify_request.
  assert (Hn : forall texts, (forall t, t ∈ texts -> t ∈ known_kinds) ->
    one_of (get_str body "kind") texts = false).
  { intros texts Ht. unfold one_of. destruct (get_str body "kind") as [k|]; [|done].
    apply bool_decide_eq_false. intros Hk. apply (H k eq_refl). by apply Ht. }
  rewrite !Hn; [done|..]; unfold known_kinds; intros t Ht;
    rewrite !elem_of_app; try tauto; left; apply list_elem_of_singleton in Ht as ->;
    repeat (first [left|right]).
Qed.

(** The fence fails closed.  Composing the wire classification with the role
    table, a generation admits only what its role may do: a retired one nothing,
    a standby only reads and inventories and never a lease, a draining one in
    addition only IO on terminals, under an owner-terminal lease, when it owns
    runtime state; spawns and control work need the active role and its control
    lease.  A request of a kind this build cannot name is control work, hence
    refused by every role but active. *)
Theorem fence_fails_closed body owned role :
  let '(request, owner) := classify_request body owned in
  (forall lease, classify role request owner = Ok lease ->
     match role with
     | Retired => False
     | Standby => lease = None /\ (request = Read \/ request = Inventory)
     | Draining =>
         (lease = None /\ (request = Read \/ request = Inventory)) \/
         (lease = Some OwnerTerminal /\ request = TerminalIo /\ owned = Own /\
          get_str body "kind" = Some "terminal"%string)
     | Active =>
         lease = match request with
                 | Control | Spawn => Some ActiveControl
                 | TerminalIo => Some OwnerTerminal
                 | Rollover | Read | Inventory => None
                 end
     end) /\
  ((forall k, get_str body "kind" = Some k -> k ∉ known_kinds) ->
   request = Control /\ (role <> Active -> is_ok (classify role request owner) = false)).
Proof.
  pose proof (classify_request_owner body owned) as Ho.
  pose proof (classify_request_unknown body owned) as Hu.
  destruct (classify_request body owned) as [request owner].
  split.
  - intros lease H. unfold classify in H. case_bool_decide; [done|].
    destruct role, request; simplify_eq; auto; case_bool_decide; simplify_eq; auto.
    destruct Ho as [[_ ?]|(Eo & Ek & _)]; [done|]. right. split_and!; auto. by destruct owned.
  - intros Hk. specialize (Hu Hk). simplify_eq. split; [done|]. by destruct role.
Qed.
End request_fence.

(** ** Incomplete handshakes *)
Definition PRE_HANDSHAKE_CONNECTION_LIMIT : nat := 32.

Module PreHandshake.
(** The atomic counter; [limit] is fixed. *)
Definition try_admit (limit : nat) (in_flight : nat) : option unit * nat :=
  if (in_flight <? limit)%nat then (Some tt, in_flight + 1) else (None, in_flight).

(** [Drop for PreHandshakePermit]: [fetch_sub(1)], which wraps on zero; the
    machine counter is a [usize]. *)
Definition drop_permit (in_flight : nat) : Z := (Z.of_nat in_flight - 1)%Z.

(** Threads hold [permits] permits; each atomic operation is one step. *)
Inductive step (limit : nat) : nat * nat -> nat * nat -> Prop :=
| step_admit n p n' : try_admit limit n = (Some tt, n') -> step limit (n, p) (n', p + 1)
| step_refuse n p n' : try_admit limit n = (None, n') -> step limit (n, p) (n', p)
| step_drop n p n' : drop_permit n = Z.of_nat n' -> step limit (n, p + 1) (n', p).
End PreHandshake.

(** ** Owner routing of the connected clients *)
Module Routing.
Record RoutingState := MkRoutingState {
  participants : gmap ConnectionId bool;
  frozen : bool;
}.

Definition new : RoutingState := MkRoutingState ∅ false.

(** [ParticipantRouting::of] *)
Definition participant_of (hello : ClientHello) : bool :=
  supports_owner_generation_routing (ch_capabilities hello).

Inductive RolloverRefusal : Type :=
| ClientRoutingUnsupported (connections : nat)
| SuccessorRoutingUnsupported
| RegistrySchemaUnsupported
| RegistryRevisionMismatch (planned observed : N)
| RoutingAdmissionBusy
| McpAuthorityRetained (credentials : nat) (restart_requested : bool)
| McpAuthorityUnavailable
| AgentRestartRefused (reason : string).

(** [None]: the connection waits for the freeze to end. *)
Definition admit_ (connection : ConnectionId) (hello : ClientHello) (s : RoutingState)
    : option RoutingState :=
  if frozen s then None
  else Some (MkRoutingState (<[connection := participant_of hello]> (participants s)) (frozen s)).

Definition disconnect (connection : ConnectionId) (s : RoutingState) : RoutingState :=
  MkRoutingState (delete connection (participants s)) (frozen s).

Definition unsupported (s : RoutingState) : nat :=
  size (filter (fun kv => kv.2 = false) (participants s)).

Definition freeze_supported : st RoutingState RolloverRefusal unit := fun s =>
  if frozen s then (Err RoutingAdmissionBusy, s)
  else if (0 <? unsupported s)%nat then (Err (ClientRoutingUnsupported (unsupported s)), s)
  else (Ok tt, MkRoutingState (participants s) true).

(** [Drop for RoutingFreeze] *)
Definition unfreeze (s : RoutingState) : RoutingState := MkRoutingState (participants s) false.

Definition admit_rollover (document : RegistryDocument) (planned_revision : N)
    (successor : ServerHello) : st RoutingState RolloverRefusal unit :=
  if bool_decide (rd_schema document <> REGISTRY_SCHEMA) then st_throw RegistrySchemaUnsupported
  else if bool_decide (rd_revision document <> planned_revision)
  then st_throw (RegistryRevisionMismatch planned_revision (rd_revision document))
  else if negb (supports_owner_generation_routing (sh_capabilities successor))
  then st_throw SuccessorRoutingUnsupported
  else freeze_supported.

(** Everything other threads may do to the ledger while a freeze is held. *)
Inductive concurrent : RoutingState -> RoutingState -> Prop :=
| concurrent_admit c hello s s' : admit_ c hello s = Some s' -> concurrent s s'
| concurrent_disconnect c s : concurrent s (disconnect c s)
| concurrent_freeze s : frozen s = true -> concurrent s (snd (freeze_supported s)).
End Routing.

Section fence_properties.
(** incomplete handshakes are bounded.  In every interleaving of accepts and
    releases the counter is exactly the number of permits held, so releasing one
    never underflows the counter, and it never exceeds the limit; a refused
    socket changes nothing. *)
Theorem handshakes_bounded limit n p :
  rtc (PreHandshake.step limit) (0, 0) (n, p) ->
  n = p /\ n <= limit /\
  (fst (PreHandshake.try_admit limit n) = None -> n = limit /\ snd (PreHandshake.try_admit limit n) = n).
Proof.
  intros H. assert (Hi : fst (n, p) = snd (n, p) /\ fst (n, p) <= limit).
  { apply (rtc_ind_r (fun s => s.1 = s.2 /\ s.1 <= limit) (0, 0)) with (3 := H); [simpl; lia|].
    intros y z _ Hyz [E1 E2]. unfold PreHandshake.drop_permit in *.
    destruct Hyz as [n1 p1 n1' H1|n1 p1 n1' H1|n1 p1 n1' H1]; simpl in *;
      unfold PreHandshake.try_admit in *; try (destruct (Nat.ltb_spec n1 limit); simplify_eq; lia).
    unfold PreHandshake.drop_permit in H1. lia. }
  simpl in Hi. destruct Hi as [-> Hle]. split_and!; [done|done|].
  unfold PreHandshake.try_admit. destruct (Nat.ltb_spec p limit); [done|]. simpl. intros _. lia.
Qed.

Lemma unsupported_zero s :
  Routing.unsupported s = 0 <-> forall c b, Routing.participants s !! c = Some b -> b = true.
Proof.
  unfold Routing.unsupported. rewrite map_size_empty_iff. split.
  - intros H c b Hc. destruct b; [done|].
    assert (E : filter (fun kv => kv.2 = false) (Routing.participants s) !! c = Some false).
    { by apply map_lookup_filter_Some. }
    by rewrite H, lookup_empty in E.
  - intros H. apply map_empty. intros c. apply map_lookup_filter_None. right.
    intros b Hb. simpl. by rewrite (H c b Hb).
Qed.

(** a rollover that was admitted keeps its promise.  It is admitted only
    against the registry revision it was planned for and a successor that speaks
    owner routing, with every connected client able to route; and for as long as
    the freeze is held, whatever connects or disconnects meanwhile, no client
    that cannot address the draining generation becomes a participant. *)
Theorem rollover_strands_nobody document planned successor s s1 s2 :
  Routing.admit_rollover document planned successor s = (Ok tt, s1) ->
  rtc Routing.concurrent s1 s2 ->
  rd_schema document = REGISTRY_SCHEMA /\ rd_revision document = planned /\
  supports_owner_generation_routing (sh_capabilities successor) = true /\
  Routing.frozen s2 = true /\
  forall c b, Routing.participants s2 !! c = Some b -> b = true.
Proof.
  unfold Routing.admit_rollover, Routing.freeze_supported, st_throw.
  case_bool_decide as E1; [done|]. case_bool_decide as E2; [done|].
  destruct (supports_owner_generation_routing _); simpl; [|done].
  destruct (Routing.frozen s) eqn:Ef; [done|].
  destruct (Nat.ltb_spec 0 (Routing.unsupported s)) as [|Hz]; [done|]. intros [= <-] Hrun.
  assert (Hi : Routing.frozen s2 = true /\ Routing.unsupported s2 = 0).
  { apply (rtc_ind_r (fun s => Routing.frozen s = true /\ Routing.unsupported s = 0)
      (Routing.MkRoutingState (Routing.participants s) true)) with (3 := Hrun).
    - split; [done|]. change (Routing.unsupported s = 0). lia.
    - intros y z _ Hyz [Hf Hu]. destruct Hyz as [c hello y z Ha|c y|y _].
      + unfold Routing.admit_ in Ha. by rewrite Hf in Ha.
      + split; [done|]. rewrite unsupported_zero in Hu |- *. intros c' b.
        simpl. intros [_ ?]%lookup_delete_Some. eauto.
      + unfold Routing.freeze_supported. by rewrite Hf. }
  destruct Hi as [Hf Hu]. split_and!; try done. by apply unsupported_zero.
Qed.
End fence_properties.

Module FenceExample.
Definition hello : ServerHello :=
  MkServerHello "n" "c" "g2" WireStandby (MkProtocolVersion 1 0)
    ["owner-generation-routing.v1"%string] BuildIdentity_default ProtocolLimits_default None.
Definition c1 := MkConnectionId "c1".
Definition ledger := Routing.MkRoutingState {[ c1 := true ]} false.
Definition after := snd (Routing.admit_rollover RegistryDocument_default 0 hello ledger).
End FenceExample.

Lemma handshakes_bounded_witness :
  1 <= 32 /\ PreHandshake.try_admit 32 0 = (Some tt, 1).
Proof.
  split; [|reflexivity].
  assert (H : rtc (PreHandshake.step 32) (0, 0) (1, 1)).
  { apply rtc_once. apply (PreHandshake.step_admit 32 0 0 1). reflexivity. }
  exact (proj1 (proj2 (handshakes_bounded 32 1 1 H))).
Defined.

Lemma rollover_strands_nobody_witness :
  Routing.frozen (Routing.disconnect FenceExample.c1 FenceExample.after) = true.
Proof.
  assert (H : rtc Routing.concurrent FenceExample.after
                (Routing.disconnect FenceExample.c1 FenceExample.after)).
  { apply rtc_once, Routing.concurrent_disconnect. }
  pose proof (rollover_strands_nobody RegistryDocument_default 0 FenceExample.hello
    FenceExample.ledger FenceExample.after _ ltac:(vm_compute; reflexivity) H) as (_ & _ & _ & Hf & _).
  exact Hf.
Defined.
