(* ===== verification/Workers.v ===== *)
(** * Retiring the client workers a generation holds
    ([crates/daemon/src/usecase/authority/workers.rs])

    A worker is the pair of the connection that can be shut down and the thread
    that can be joined; what those two calls will answer ([cw_shutdown],
    [cw_panics]) belongs to the environment and is carried by the worker.  Each
    method returns its report together with the calls it made, in order. *)
From S2P Require Export CasFile.

Record ClientWorker := MkClientWorker {
  cw_id : nat;
  cw_shutdown : option IoError;
  cw_panics : bool;
}.

Inductive WorkerEvent : Type := EvShutdown (id : nat) | EvJoin (id : nat).

Record WorkerSet := MkWorkerSet {
  ws_entries : list ClientWorker;
  ws_retired : bool;
}.

Record RetireReport := MkRetireReport {
  rr_joined : nat;
  rr_panicked : nat;
  rr_shutdown_failures : list IoError;
}.

Definition RetireReport_default : RetireReport := MkRetireReport 0 0 [].

Definition is_clean (r : RetireReport) : bool :=
  (rr_panicked r =? 0)%nat && bool_decide (length (rr_shutdown_failures r) = 0).

Module ClientWorkers.
Definition new : WorkerSet := MkWorkerSet [] false.

(** The loop over the connections: every failure is pushed. *)
Fixpoint shutdown_all (workers : list ClientWorker) (report : RetireReport)
    : RetireReport * list WorkerEvent :=
  match workers with
  | [] => (report, [])
  | worker :: workers =>
      let report :=
        match cw_shutdown worker with
        | Some error =>
            MkRetireReport (rr_joined report) (rr_panicked report)
              (rr_shutdown_failures report ++ [error])
        | None => report
        end in
      let (report, events) := shutdown_all workers report in
      (report, EvShutdown (cw_id worker) :: events)
  end.

(** The loop over the thread handles. *)
Fixpoint join_all (workers : list ClientWorker) (report : RetireReport)
    : RetireReport * list WorkerEvent :=
  match workers with
  | [] => (report, [])
  | worker :: workers =>
      let panicked := if cw_panics worker then rr_panicked report + 1 else rr_panicked report in
      let (report, events) :=
        join_all workers (MkRetireReport (rr_joined report + 1) panicked (rr_shutdown_failures report)) in
      (report, EvJoin (cw_id worker) :: events)
  end.

Definition retire_workers (workers : list ClientWorker) : RetireReport * list WorkerEvent :=
  let (report, shutdowns) := shutdown_all workers RetireReport_default in
  let (report, joins) := join_all workers report in
  (report, shutdowns ++ joins).

Definition register (worker : ClientWorker) (s : WorkerSet)
    : RetireReport * list WorkerEvent * WorkerSet :=
  if ws_retired s then (retire_workers [worker], s)
  else (RetireReport_default, [], MkWorkerSet (ws_entries s ++ [worker]) (ws_retired s)).

(** [finished] is what [JoinHandle::is_finished] reports now. *)
Definition reap_finished (finished : ClientWorker -> bool) (s : WorkerSet)
    : RetireReport * list WorkerEvent * WorkerSet :=
  let done := retain finished (ws_entries s) in
  let live := retain (fun w => negb (finished w)) (ws_entries s) in
  (join_all done RetireReport_default, MkWorkerSet live (ws_retired s)).

Definition retire (s : WorkerSet) : RetireReport * list WorkerEvent * WorkerSet :=
  (retire_workers (ws_entries s), MkWorkerSet [] true).

(** ** Any schedule of the three calls *)
Inductive op : Type :=
| OpRegister (worker : ClientWorker)
| OpReap (finished : ClientWorker -> bool)
| OpRetire.

Definition apply_op (o : op) (s : WorkerSet) : RetireReport * list WorkerEvent * WorkerSet :=
  match o with
  | OpRegister worker => register worker s
  | OpReap finished => reap_finished finished s
  | OpRetire => retire s
  end.

Fixpoint run (ops : list op) (s : WorkerSet) : list WorkerEvent * WorkerSet :=
  match ops with
  | [] => ([], s)
  | o :: ops =>
      let '(_, events, s1) := apply_op o s in
      let (rest, s2) := run ops s1 in
      (events ++ rest, s2)
  end.

Definition registered (ops : list op) : list ClientWorker :=
  omap (fun o => match o with OpRegister w => Some w | _ => None end) ops.

Definition joined (events : list WorkerEvent) : list nat :=
  omap (fun e => match e with EvJoin id => Some id | _ => None end) events.

(** ** Laws *)
Lemma shutdown_all_spec workers report :
  shutdown_all workers report =
  (MkRetireReport (rr_joined report) (rr_panicked report)
     (rr_shutdown_failures report ++ omap cw_shutdown workers),
   (fun w => EvShutdown (cw_id w)) <$> workers).
Proof.
  revert report. induction workers as [|w workers IH]; intros report; csimpl.
  - rewrite app_nil_r. by destruct report.
  - rewrite IH. destruct (cw_shutdown w); simpl; [|done]. by rewrite <- app_assoc.
Qed.

Lemma join_all_spec workers report :
  join_all workers report =
  (MkRetireReport (rr_joined report + length workers)
     (rr_panicked report + count cw_panics workers) (rr_shutdown_failures report),
   (fun w => EvJoin (cw_id w)) <$> workers).
Proof.
  revert report. induction workers as [|w workers IH]; intros report; csimpl.
  - unfold count. simpl. rewrite !Nat.add_0_r. by destruct report.
  - rewrite IH, count_cons. simpl. f_equal. f_equal; [lia|]. destruct (cw_panics w); lia.
Qed.

Lemma retire_workers_spec workers :
  retire_workers workers =
  (MkRetireReport (length workers) (count cw_panics workers) (omap cw_shutdown workers),
   ((fun w => EvShutdown (cw_id w)) <$> workers) ++ ((fun w => EvJoin (cw_id w)) <$> workers)).
Proof. unfold retire_workers. by rewrite shutdown_all_spec, join_all_spec. Qed.

Lemma joined_app a b : joined (a ++ b) = joined a ++ joined b.
Proof. apply omap_app. Qed.

Lemma joined_joins workers : joined ((fun w => EvJoin (cw_id w)) <$> workers) = cw_id <$> workers.
Proof. induction workers as [|w workers IH]; [done|]. csimpl. f_equal. exact IH. Qed.

Lemma joined_shutdowns workers : joined ((fun w => EvShutdown (cw_id w)) <$> workers) = [].
Proof. induction workers as [|w workers IH]; [done|]. exact IH. Qed.

Lemma joined_retire workers : joined (snd (retire_workers workers)) = cw_id <$> workers.
Proof.
  rewrite retire_workers_spec. simpl. by rewrite joined_app, joined_shutdowns, joined_joins.
Qed.

Lemma retain_partition {A} (p : A -> bool) l :
  l ≡ₚ retain p l ++ retain (fun x => negb (p x)) l.
Proof.
  induction l as [|x l IH]; simpl; [done|]. destruct (p x); simpl.
  - by constructor.
  - rewrite <- Permutation_middle. by constructor.
Qed.

Definition is_retire (o : op) : bool := match o with OpRetire => true | _ => false end.

Lemma apply_op_spec o s :
  let '(report, events, s') := apply_op o s in
  (cw_id <$> registered [o]) ++ (cw_id <$> ws_entries s) ≡ₚ
    joined events ++ (cw_id <$> ws_entries s') /\
  rr_joined report = length (joined events) /\
  (is_retire o = true \/ ws_entries s = [] /\ ws_retired s = true -> ws_entries s' = []) /\
  ws_retired s' = is_retire o || ws_retired s.
Proof.
  destruct o as [w|finished|]; simpl.
  - unfold register. destruct (ws_retired s) eqn:Er.
    + pose proof (joined_retire [w]) as Hj. rewrite retire_workers_spec in *. simpl in *.
      split_and!; [done|done|intros [?|[? _]]; done|done].
    + simpl. split_and!; [|done|intros [?|[_ ?]]; done|done].
      rewrite fmap_app. simpl. by rewrite Permutation_app_comm.
  - rewrite join_all_spec. simpl. rewrite joined_joins, length_fmap.
    split_and!; [|done|intros [?|[E _]]; [done|by rewrite E]|done].
    rewrite <- fmap_app. apply fmap_Permutation, retain_partition.
  - pose proof (joined_retire (ws_entries s)) as Hj. rewrite retire_workers_spec in *. simpl in *.
    rewrite Hj, app_nil_r, length_fmap. by split_and!.
Qed.

Lemma run_spec ops s :
  let '(events, s') := run ops s in
  (cw_id <$> registered ops) ++ (cw_id <$> ws_entries s) ≡ₚ joined events ++ (cw_id <$> ws_entries s') /\
  (any is_retire ops = true \/ (ws_entries s = [] /\ ws_retired s = true) ->
     ws_entries s' = [] /\ ws_retired s' = true).
Proof.
  revert s. induction ops as [|o ops IH]; intros s; cbn [run].
  { split; [done|]. by intros [?|?]. }
  pose proof (apply_op_spec o s) as Ho. destruct (apply_op o s) as [[report events] s1].
  destruct Ho as (Hp & _ & He & Hr). specialize (IH s1).
  destruct (run ops s1) as [rest s2]. destruct IH as [IHp IHr]. split.
  - assert (E : registered (o :: ops) = registered [o] ++ registered ops) by (by destruct o).
    rewrite E, fmap_app, joined_app.
    transitivity ((cw_id <$> registered ops) ++ (cw_id <$> registered [o]) ++ (cw_id <$> ws_entries s)).
    { by rewrite !app_assoc, (Permutation_app_comm (cw_id <$> registered [o])). }
    rewrite Hp. transitivity (joined events ++ (cw_id <$> registered ops) ++ (cw_id <$> ws_entries s1)).
    { by rewrite !app_assoc, (Permutation_app_comm (cw_id <$> registered ops)). }
    by rewrite IHp, app_assoc.
  - unfold any in *. cbn [existsb]. intros H. apply IHr. destruct (is_retire o) eqn:Eo; simpl in *.
    + right. split; [apply He; by left|done].
    + destruct H as [H|H]; [by left|]. right. split; [apply He; by right|].
      rewrite Hr. apply H.
Qed.

(** No client worker is lost and none is joined twice.  Under any schedule of
    registrations, reaps and retirements, the workers registered are exactly
    those still retained plus those joined, each once; after a retirement, even
    for workers that register later, nothing is retained; a retirement shuts
    every connection down before it joins the first thread and its report counts
    every join, every panic and every failed shutdown. *)
Theorem workers_joined_once ops events s :
  run ops new = (events, s) ->
  cw_id <$> registered ops ≡ₚ joined events ++ (cw_id <$> ws_entries s) /\
  (any is_retire ops = true ->
     ws_entries s = [] /\ cw_id <$> registered ops ≡ₚ joined events) /\
  retire s =
    (MkRetireReport (length (ws_entries s)) (count cw_panics (ws_entries s))
       (omap cw_shutdown (ws_entries s)),
     ((fun w => EvShutdown (cw_id w)) <$> ws_entries s) ++
     ((fun w => EvJoin (cw_id w)) <$> ws_entries s),
     MkWorkerSet [] true).
Proof.
  intros H. pose proof (run_spec ops new) as Hr. rewrite H in Hr. destruct Hr as [Hp He].
  simpl in Hp. rewrite app_nil_r in Hp. split_and!; [done| |].
  - intros Ha. destruct (He (or_introl Ha)) as [E _]. split; [done|].
    by rewrite E, app_nil_r in Hp.
  - unfold retire. by rewrite retire_workers_spec.
Qed.
End ClientWorkers.

Lemma workers_joined_once_witness :
  let w1 := MkClientWorker 1 None false in
  let w2 := MkClientWorker 2 (Some (MkIoError "other" "gone")) true in
  let ops := [ClientWorkers.OpRegister w1; ClientWorkers.OpRetire; ClientWorkers.OpRegister w2] in
  [1; 2] ≡ₚ ClientWorkers.joined (fst (ClientWorkers.run ops ClientWorkers.new)).
Proof.
  intros w1 w2 ops.
  destruct (ClientWorkers.workers_joined_once ops (fst (ClientWorkers.run ops ClientWorkers.new))
    (snd (ClientWorkers.run ops ClientWorkers.new)) eq_refl) as (_ & H & _).
  exact (proj2 (H eq_refl)).
Defined.
