(* ===== verification/Rollover.v ===== *)
(** * Driving the handoff across both durable objects
    ([crates/daemon/src/usecase/authority/{rollover,collection}.rs])

    [World] is everything a rollover touches: the registry file, the published
    locator, the process-local admission gate, the routing ledger and the client
    workers, the file and the locator each with their environment.  A named hook
    ([step]) sits at every durable boundary, as in the code: a fault it injects is
    a crash there.  Waiting for leases parks the thread; [others] is what the
    other threads do to the gate meanwhile. *)
From S2P Require Export Handoff Fence Workers.
Import RegistryDocument.

(** ** The published locator *)
Inductive LocatorStep : Type :=
| LocatorIdle
| LocatorChanged (value : LocatorObservation)
| LocatorFault (error : IoError).

Record LocatorState := MkLocatorState {
  locator : LocatorObservation;
  locator_env : list LocatorStep;
}.

Definition locator_tick (s : LocatorState) : option IoError * LocatorState :=
  match locator_env s with
  | [] => (None, s)
  | LocatorIdle :: env => (None, MkLocatorState (locator s) env)
  | LocatorChanged value :: env => (None, MkLocatorState value env)
  | LocatorFault error :: env => (Some error, MkLocatorState (locator s) env)
  end.

Definition locator_op {A} (answer : LocatorObservation -> A)
    (effect : LocatorObservation -> LocatorObservation) : st LocatorState IoError A := fun s =>
  match locator_tick s with
  | (Some error, s) => (Err error, s)
  | (None, s) => (Ok (answer (locator s)), MkLocatorState (effect (locator s)) (locator_env s))
  end.

(** [trait CurrentLocator] *)
Definition locator_read : st LocatorState IoError LocatorObservation := locator_op id id.
Definition locator_publish (target : PublishedLocator) : st LocatorState IoError unit :=
  locator_op (fun _ => tt) (fun _ => Published target).
Definition locator_retire : st LocatorState IoError unit :=
  locator_op (fun _ => tt) (fun _ => Absent).

Inductive HandoffStep : Type :=
| BeforeIntent | AfterIntent | BeforeBarrier | AfterBarrier | BeforeRegistryCommit
| AfterRegistryCommit | BeforeLocatorPublish | AfterLocatorPublish | BeforeComplete | AfterComplete.
#[export] Instance handoff_step_eq_dec : EqDecision HandoffStep.
Proof. solve_decision. Defined.

Inductive HandoffFailure : Type :=
| HandoffRegistry (failure : RegistryFailure)
| HandoffAdmission (refusal : AdmissionRefusal.t)
| HandoffLocator (error : IoError)
| HandoffRouting (refusal : Routing.RolloverRefusal).

Record World (Bytes : Type) := MkWorld {
  w_file : FileState Bytes;
  w_locator : LocatorState;
  w_gate : GateState;
  w_routing : Routing.RoutingState;
  w_workers : WorkerSet;
  w_calls : list WorkerEvent;
}.
Global Arguments MkWorld {Bytes}.
Global Arguments w_file {Bytes} w : rename.
Global Arguments w_locator {Bytes} w : rename.
Global Arguments w_gate {Bytes} w : rename.
Global Arguments w_routing {Bytes} w : rename.
Global Arguments w_workers {Bytes} w : rename.
Global Arguments w_calls {Bytes} w : rename.

Section rollover.
Context {Bytes : Type} `{EqDecision Bytes} `{Serde RegistryDocument Bytes} (limit : nat)
  (others : LeaseClass -> GateState -> GateState).

Definition world_st (A : Type) : Type := st (World Bytes) HandoffFailure A.

(** Calls on one component of the world, [?] converting the error. *)
Definition on_registry {A} (op : st (FileState Bytes) RegistryFailure A) : world_st A := fun w =>
  let (r, f) := op (w_file w) in
  (map_err HandoffRegistry r,
   MkWorld f (w_locator w) (w_gate w) (w_routing w) (w_workers w) (w_calls w)).

Definition on_locator {A} (op : st LocatorState IoError A) : world_st A := fun w =>
  let (r, l) := op (w_locator w) in
  (map_err HandoffLocator r,
   MkWorld (w_file w) l (w_gate w) (w_routing w) (w_workers w) (w_calls w)).

Definition set_gate (g : GateState) (w : World Bytes) : World Bytes :=
  MkWorld (w_file w) (w_locator w) g (w_routing w) (w_workers w) (w_calls w).
Definition set_routing (s : Routing.RoutingState) (w : World Bytes) : World Bytes :=
  MkWorld (w_file w) (w_locator w) (w_gate w) s (w_workers w) (w_calls w).

Definition on_gate {A} (op : AdmissionGate.gate_st A) : world_st A := fun w =>
  let (r, g) := op (w_gate w) in (map_err HandoffAdmission r, set_gate g w).

Definition on_routing {A} (op : st Routing.RoutingState Routing.RolloverRefusal A) : world_st A :=
  fun w => let (r, s) := op (w_routing w) in (map_err HandoffRouting r, set_routing s w).

Definition close_gate (class : LeaseClass) : world_st unit :=
  st_modify (fun w => set_gate (AdmissionGate.close class (w_gate w)) w).

(** [await_drain]: refused on an open class, otherwise it returns once the
    count is zero, in whatever state the other threads left the gate. *)
Definition await_drain (class : LeaseClass) : world_st unit := fun w =>
  if gate_open (w_gate w) class then (Err (HandoffAdmission AdmissionRefusal.StillOpen), w)
  else (Ok tt, if (0 <? gate_count (w_gate w) class)%nat
               then set_gate (others class (w_gate w)) w else w).

(** The hook at a durable boundary. *)
Definition at_step (step : HandoffStep -> option IoError) (s : HandoffStep) : world_st unit :=
  match step s with
  | Some error => st_throw (HandoffLocator error)
  | None => st_ret tt
  end.

Definition target_of (snapshot : RegistrySnapshot Bytes) (to : DaemonGeneration)
    : result HandoffFailure PublishedLocator :=
  ok_or (locator_of <$> entry (rs_document snapshot) to)
    (HandoffRegistry (Refused RegistryError.UnknownGeneration)).

Definition commit_phase (operation : IpcOperationId) (step : HandoffStep -> option IoError)
    : world_st (RegistrySnapshot Bytes) :=
  at_step step AfterBarrier ;;;
  (at_step step BeforeRegistryCommit ;;;
   (committed <-! on_registry (GenerationRegistry.update limit (commit_registry operation)) ;;
    st_ret (snd committed))).

(** The gate this process closed for the handoff, when it holds authority. *)
Definition bar_gate (gate : bool) : world_st bool := fun w =>
  if gate && bool_decide (gate_role (w_gate w) = Active) then
    (close_gate ActiveControl ;;;
     (await_drain ActiveControl ;;;
      (on_gate AdmissionGate.enter_draining ;;; st_ret true))) w
  else (Ok false, w).

Definition abort_gate (w : World Bytes) : World Bytes :=
  set_gate (snd (AdmissionGate.abort_draining (w_gate w))) w.
Definition confirm_gate (w : World Bytes) : World Bytes :=
  set_gate (AdmissionGate.confirm_draining (w_gate w)) w.

(** [match commit_phase(..) { Err(failure) => { abort; return Err } .. }] *)
Definition guarded_commit (barred : bool) (operation : IpcOperationId)
    (step : HandoffStep -> option IoError) : world_st (RegistrySnapshot Bytes) := fun w =>
  match commit_phase operation step w with
  | (Ok committed, w) => (Ok committed, if barred then confirm_gate w else w)
  | (Err failure, w) => (Err failure, if barred then abort_gate w else w)
  end.

Definition publish_and_complete (operation : IpcOperationId) (to : DaemonGeneration)
    (committed : RegistrySnapshot Bytes) (step : HandoffStep -> option IoError)
    : world_st RolloverOutcome :=
  target <-! st_lift (target_of committed to) ;;
  (at_step step BeforeLocatorPublish ;;;
   (on_locator (locator_publish target) ;;;
    (at_step step AfterLocatorPublish ;;;
     (at_step step BeforeComplete ;;;
      (outcome <-! on_registry (GenerationRegistry.update limit (complete_handoff operation)) ;;
       (at_step step AfterComplete ;;; st_ret (fst outcome))))))).

Definition execute_rollover_with (gate : bool) (operation : IpcOperationId)
    (from : option DaemonGeneration) (to : DaemonGeneration)
    (step : HandoffStep -> option IoError) : world_st RolloverOutcome :=
  at_step step BeforeIntent ;;;
  (intent <-! on_registry (GenerationRegistry.update limit (begin_handoff operation from to)) ;;
   if bool_decide (fst intent = AlreadyCompleted) then st_ret (fst intent)
   else
     at_step step AfterIntent ;;;
     (at_step step BeforeBarrier ;;;
      (barred <-! bar_gate gate ;;
       (committed <-! guarded_commit barred operation step ;;
        (at_step step AfterRegistryCommit ;;;
         publish_and_complete operation to committed step))))).

Definition execute_rollover (gate : bool) (operation : IpcOperationId)
    (from : option DaemonGeneration) (to : DaemonGeneration) : world_st RolloverOutcome :=
  execute_rollover_with gate operation from to (fun _ => None).

(** *** The gated rollover *)
Record RolloverPlan := MkRolloverPlan {
  plan_successor : ServerHello;
  planned_revision : N;
  plan_from : option DaemonGeneration;
  plan_to : DaemonGeneration;
}.

(** [execute_prebarred_rollover] with [PrecommitBarrier]: dropping the barrier
    unconfirmed aborts the drain. *)
Definition prebarred_commit (operation : IpcOperationId) (plan : RolloverPlan)
    : world_st (RolloverOutcome + RegistrySnapshot Bytes) :=
  intent <-! on_registry (GenerationRegistry.update limit
               (begin_handoff operation (plan_from plan) (plan_to plan))) ;;
  if bool_decide (fst intent = AlreadyCompleted) then st_ret (inl (fst intent))
  else
    committed <-! on_registry (GenerationRegistry.update limit (commit_registry operation)) ;;
    st_ret (inr (snd committed)).

Definition prebarred_publish (operation : IpcOperationId) (plan : RolloverPlan)
    (committed : RegistrySnapshot Bytes) : world_st RolloverOutcome :=
  target <-! st_lift (target_of committed (plan_to plan)) ;;
  (on_locator (locator_publish target) ;;;
   (outcome <-! on_registry (GenerationRegistry.update limit (complete_handoff operation)) ;;
    st_ret (fst outcome))).

Definition execute_prebarred_rollover (operation : IpcOperationId) (plan : RolloverPlan)
    : world_st RolloverOutcome := fun w =>
  match prebarred_commit operation plan w with
  | (Err failure, w) => (Err failure, abort_gate w)
  | (Ok (inl outcome), w) => (Ok outcome, abort_gate w)
  | (Ok (inr committed), w) => prebarred_publish operation plan committed (confirm_gate w)
  end.

(** [_routing_freeze] is released on every exit. *)
Definition with_freeze (body : world_st RolloverOutcome) : world_st RolloverOutcome := fun w =>
  let (r, w) := body w in (r, set_routing (Routing.unfreeze (w_routing w)) w).

Definition already_decided (operation : IpcOperationId) (d : RegistryDocument) : bool :=
  bool_decide (rd_completed_operation d = Some operation) ||
  match rd_handoff d with
  | Some handoff =>
      bool_decide (hr_operation handoff = operation) && bool_decide (hr_phase handoff = Committed)
  | None => false
  end.

Definition admitted_rollover (operation : IpcOperationId) (plan : RolloverPlan)
    (guard : result Routing.RolloverRefusal unit) : world_st RolloverOutcome := fun w =>
  match on_registry (GenerationRegistry.load limit) w with
  | (Err failure, w) => (Err failure, abort_gate w)
  | (Ok snapshot, w) =>
      match on_routing (Routing.admit_rollover (rs_document snapshot) (planned_revision plan)
                          (plan_successor plan)) w with
      | (Err failure, w) => (Err failure, abort_gate w)
      | (Ok _, w) =>
          with_freeze (fun w =>
            match guard with
            | Err refusal => (Err (HandoffRouting refusal), abort_gate w)
            | Ok _ => execute_prebarred_rollover operation plan w
            end) w
      end
  end.

Definition execute_gated_rollover_with_guard (operation : IpcOperationId) (plan : RolloverPlan)
    (guard : result Routing.RolloverRefusal unit) : world_st RolloverOutcome :=
  snapshot <-! on_registry (GenerationRegistry.load limit) ;;
  if already_decided operation (rs_document snapshot) then st_ret AlreadyCompleted
  else
    close_gate ActiveControl ;;;
    (await_drain ActiveControl ;;;
     (on_gate AdmissionGate.enter_draining ;;;
      admitted_rollover operation plan guard)).

(** *** Recovery and collection *)
Definition recover (observe : ProcessIdentity -> ProcessObservation.t) : world_st RecoveryOutcome :=
  snapshot <-! on_registry (GenerationRegistry.load limit) ;;
  observation <-! on_locator locator_read ;;
  (let plan := plan_recovery observe (rs_document snapshot) observation in
   (if rp_retire_locator plan then on_locator locator_retire else st_ret tt) ;;;
   ((match rp_publish plan with
     | Some target => on_locator (locator_publish target)
     | None => st_ret tt
     end) ;;;
    ((match rp_document plan with
      | Some document =>
          on_registry (GenerationRegistry.commit limit snapshot document) ;;; st_ret tt
      | None => st_ret tt
      end) ;;;
     st_ret (rp_outcome plan)))).

Definition retire_workers_of : world_st RetireReport := fun w =>
  let '(report, calls, workers) := ClientWorkers.retire (w_workers w) in
  (Ok report, MkWorld (w_file w) (w_locator w) (w_gate w) (w_routing w) workers (w_calls w ++ calls)).

Definition collect_retired (generation : DaemonGeneration) : world_st RetireReport :=
  close_gate ActiveControl ;;;
  (close_gate OwnerTerminal ;;;
   (await_drain ActiveControl ;;;
    (await_drain OwnerTerminal ;;;
     (on_gate AdmissionGate.enter_retired ;;;
      (report <-! retire_workers_of ;;
       (on_registry (GenerationRegistry.update limit (transition generation Retired)) ;;;
        st_ret report)))))).

(** The runtime's verdict is observed twice; [B] and [F] are the blocker and the
    failure of that observation. *)
Inductive Collection (B : Type) : Type :=
| NotDraining
| Pending (blocker : B)
| Collected (report : RetireReport).
Global Arguments NotDraining {B}.
Global Arguments Pending {B} blocker.
Global Arguments Collected {B} report.

Inductive CollectionFailure (F : Type) : Type :=
| CollectionRuntime (error : F)
| CollectionAuthority (error : HandoffFailure).
Global Arguments CollectionRuntime {F} error.
Global Arguments CollectionAuthority {F} error.

Section collection.
Context {B F : Type} (first second : World Bytes -> result F (option B)).

Definition observe_runtime (blocker : World Bytes -> result F (option B))
    : st (World Bytes) (CollectionFailure F) (option B) :=
  fun w => (map_err CollectionRuntime (blocker w), w).
Definition authority {A} (op : world_st A) : st (World Bytes) (CollectionFailure F) A :=
  fun w => let (r, w) := op w in (map_err CollectionAuthority r, w).

Definition collect_if_drained (generation : DaemonGeneration)
    : st (World Bytes) (CollectionFailure F) (Collection B) := fun w =>
  if negb (bool_decide (gate_role (w_gate w) = Draining)) then (Ok NotDraining, w)
  else
    (blocker <-! observe_runtime first ;;
     match blocker with
     | Some blocker => st_ret (Pending blocker)
     | None =>
         authority (close_gate ActiveControl) ;;;
         (authority (close_gate OwnerTerminal) ;;;
          (authority (await_drain ActiveControl) ;;;
           (authority (await_drain OwnerTerminal) ;;;
            (blocker <-! observe_runtime second ;;
             match blocker with
             | Some blocker => st_ret (Pending blocker)
             | None =>
                 report <-! authority (collect_retired generation) ;;
                 st_ret (Collected report)
             end))))
     end) w.
End collection.
End rollover.

(** While a thread waits, the others release the awaited leases; they may take or
    release leases of an open class, but the role, the revision, the barrier and
    what is open are the waiting thread's to change. *)
Definition releases (others : LeaseClass -> GateState -> GateState) : Prop := forall c g,
  gate_role (others c g) = gate_role g /\ gate_revision (others c g) = gate_revision g /\
  (forall c', gate_open (others c g) c' = gate_open g c') /\ barred (others c g) = barred g /\
  gate_count (others c g) c = 0 /\
  (forall c', gate_open g c' = false -> gate_count (others c g) c' <= gate_count g c').

Lemma releases_fields others c g : releases others ->
  others c g = MkGateState (gate_role g) (gate_revision g) (active_open g) (owner_open g)
    (active_leases (others c g)) (owner_leases (others c g)) (barred g).
Proof.
  intros Hrel. destruct (Hrel c g) as (Hr & Hv & Ho & Hb & _).
  pose proof (Ho ActiveControl) as Ha. pose proof (Ho OwnerTerminal) as Hw. simpl in *.
  rewrite <- Hr, <- Hv, <- Ha, <- Hw, <- Hb. by destruct (others c g).
Qed.

(** ** Driving the rollover on a quiet store *)
Section crash_matrix.
Context {Bytes : Type} `{EqDecision Bytes} `{SerdeLaws RegistryDocument Bytes} (limit : nat)
  (others : LeaseClass -> GateState -> GateState).

(** Writing a document never fails in the serializer. *)
Hypothesis serializable : forall d : RegistryDocument, is_Some (to_string (Bytes := Bytes) d).
Hypothesis others_releases : releases others.

Lemma others_release g : others ActiveControl g =
  MkGateState (gate_role g) (gate_revision g) (active_open g) (owner_open g) 0
    (owner_leases (others ActiveControl g)) (barred g).
Proof.
  rewrite (releases_fields others ActiveControl g others_releases) at 1. f_equal.
  by destruct (others_releases ActiveControl g) as (_ & _ & _ & _ & Hc & _).
Qed.

Definition stored (d : RegistryDocument) (w : World Bytes) : Prop :=
  exists b, w_file w = MkFileState (Some b) [] /\ from_str b = Some d.

Definition set_file (f : FileState Bytes) (w : World Bytes) : World Bytes :=
  MkWorld f (w_locator w) (w_gate w) (w_routing w) (w_workers w) (w_calls w).

Definition bump (d : RegistryDocument) : RegistryDocument := set_rd_revision (rd_revision d + 1) d.

Lemma load_stored d b :
  from_str b = Some d -> validate limit d = Ok tt ->
  GenerationRegistry.load limit (MkFileState (Some b) []) =
  (Ok (MkRegistrySnapshot d (Some b)), MkFileState (Some b) []).
Proof.
  intros Hb Hv. unfold GenerationRegistry.load, GenerationRegistry.io, st_bind. simpl.
  rewrite Hb. unfold GenerationRegistry.refused, st_lift. simpl. by rewrite Hv.
Qed.

Lemma commit_stored d b next b' :
  rd_revision next = (rd_revision d + 1)%N -> validate limit next = Ok tt ->
  to_string next = Some b' ->
  GenerationRegistry.commit limit (MkRegistrySnapshot d (Some b)) next (MkFileState (Some b) []) =
  (Ok (MkRegistrySnapshot next (Some b')), MkFileState (Some b') []).
Proof.
  intros Hr Hv Hb. unfold GenerationRegistry.commit. simpl.
  rewrite bool_decide_eq_false_2 by auto.
  unfold GenerationRegistry.refused, GenerationRegistry.io, st_bind, st_lift. rewrite Hv. simpl.
  rewrite Hb. simpl. unfold compare_and_write. simpl. by rewrite decide_True.
Qed.

(** An accepted change of the document in a quiet file, and one that converges. *)
Lemma update_file {T} (change : doc_st T) d d' v b :
  from_str b = Some d -> validate limit d = Ok tt -> change d = (Ok v, d') -> d' <> d ->
  rd_revision d' = rd_revision d -> validate limit (bump d') = Ok tt ->
  exists b', from_str b' = Some (bump d') /\
    GenerationRegistry.update limit change (MkFileState (Some b) []) =
    (Ok (v, MkRegistrySnapshot (bump d') (Some b')), MkFileState (Some b') []).
Proof.
  intros Hb Hv Hch Hne Hrev Hv'. destruct (serializable (bump d')) as [b' Hb'].
  exists b'. split; [by apply from_to_string|]. unfold GenerationRegistry.update.
  erewrite st_bind_ok by (by apply load_stored). simpl. rewrite Hch.
  unfold GenerationRegistry.refused, st_lift. unfold st_bind at 1. simpl.
  unfold GenerationRegistry.commit_changed. simpl. rewrite decide_False by done.
  erewrite st_bind_ok; [done|]. apply (commit_stored d b (bump d') b'); try done.
  simpl. by rewrite Hrev.
Qed.

Lemma update_file_same {T} (change : doc_st T) d v b :
  from_str b = Some d -> validate limit d = Ok tt -> change d = (Ok v, d) ->
  GenerationRegistry.update limit change (MkFileState (Some b) []) =
  (Ok (v, MkRegistrySnapshot d (Some b)), MkFileState (Some b) []).
Proof.
  intros Hb Hv Hch. unfold GenerationRegistry.update.
  erewrite st_bind_ok by (by apply load_stored). simpl. rewrite Hch.
  unfold GenerationRegistry.refused, st_lift. unfold st_bind at 1. simpl.
  unfold GenerationRegistry.commit_changed. simpl. by rewrite decide_True.
Qed.

Lemma update_stored {T} (change : doc_st T) d d' v w :
  stored d w -> validate limit d = Ok tt -> change d = (Ok v, d') -> d' <> d ->
  rd_revision d' = rd_revision d -> validate limit (bump d') = Ok tt ->
  exists b, from_str b = Some (bump d') /\
    on_registry (GenerationRegistry.update limit change) w =
    (Ok (v, MkRegistrySnapshot (bump d') (Some b)), set_file (MkFileState (Some b) []) w).
Proof.
  intros (b & Hw & Hb) Hv Hch Hne Hrev Hv'.
  destruct (update_file change d d' v b Hb Hv Hch Hne Hrev Hv') as (b' & Hb' & E).
  exists b'. split; [done|]. unfold on_registry. by rewrite Hw, E.
Qed.

Lemma stored_set_file d b w : from_str b = Some d -> stored d (set_file (MkFileState (Some b) []) w).
Proof. intros Hb. by exists b. Qed.

(** Recovery performs its plan. *)
Lemma recover_stored observe d w :
  stored d w -> valid limit d -> locator_env (w_locator w) = [] ->
  let plan := plan_recovery observe d (locator (w_locator w)) in
  exists w', recover limit observe w = (Ok (rp_outcome plan), w') /\
    stored (document_after plan d) w' /\
    w_locator w' = MkLocatorState (locator_after plan (locator (w_locator w))) [].
Proof.
  intros (b & Hw & Hb) Hv Henv plan. unfold recover.
  destruct w as [f [obs env] g ro wk calls]. simpl in Hw, Henv, plan. subst f env.
  pose proof (proj2 (validate_spec limit d) Hv) as Hval.
  erewrite st_bind_ok; [|unfold on_registry; simpl; by rewrite (load_stored d b)].
  cbn [w_locator w_gate w_routing w_workers w_calls].
  set (w := MkWorld (MkFileState (Some b) []) (MkLocatorState obs []) g ro wk calls).
  rewrite (st_bind_ok (on_locator locator_read) _ w obs w) by reflexivity.
  cbn [rs_document]. cbv zeta. fold plan.
  pose proof (recover_valid limit observe d obs Hv) as Hv'. fold plan in Hv'.
  pose proof (plan_revision observe d obs) as Hrev. fold plan in Hrev.
  cbn [w_locator locator]. clearbody plan. unfold document_after, locator_after, locator_retired in *.
  assert (Hlast : forall l, exists w',
    ((match rp_document plan with
      | Some document =>
          on_registry (GenerationRegistry.commit limit (MkRegistrySnapshot d (Some b)) document) ;;;
          st_ret tt
      | None => st_ret tt
      end) ;;; st_ret (rp_outcome plan)) (MkWorld (MkFileState (Some b) []) l g ro wk calls) =
    (Ok (rp_outcome plan), w') /\ stored (default d (rp_document plan)) w' /\ w_locator w' = l).
  { intros l. destruct (rp_document plan) as [d'|]; simpl in *.
    - destruct (serializable d') as [b' Hb']. eexists. split.
      + erewrite st_bind_ok; [reflexivity|]. erewrite st_bind_ok; [reflexivity|].
        unfold on_registry. simpl. rewrite (commit_stored d b d' b'); [reflexivity| |by apply validate_spec|done].
        by apply Hrev.
      + split; [|done]. exists b'. split; [done|]. by apply from_to_string.
    - eexists. split; [reflexivity|]. split; [by exists b|done]. }
  destruct (rp_retire_locator plan); (erewrite st_bind_ok; [|reflexivity]);
    destruct (rp_publish plan) as [p|]; (erewrite st_bind_ok; [|reflexivity]); simpl; apply Hlast.
Qed.

(** *** The documents of a handoff *)
Context (op : IpcOperationId) (from : option DaemonGeneration) (to : DaemonGeneration)
  (endpoint : string) (d0 : RegistryDocument).
Hypothesis d0_valid : valid limit d0.
Hypothesis d0_free : rd_handoff d0 = None.
Hypothesis op_fresh : rd_completed_operation d0 <> Some op.
Hypothesis to_eligible : eligible_successor d0 to = Ok endpoint.
Hypothesis from_eligible : eligible_predecessor d0 from = Ok tt.

Definition intent : HandoffRecord := MkHandoffRecord op from to endpoint Preparing.
Definition d_intent : RegistryDocument := bump (set_rd_handoff (Some intent) d0).
Definition d_committed : RegistryDocument := bump (committed_document intent d_intent).
Definition d_completed : RegistryDocument := bump (finished_document op d_committed).

Lemma begin_runs : begin_handoff op from to d0 = (Ok Advanced, set_rd_handoff (Some intent) d0).
Proof.
  unfold begin_handoff, st_bind, st_get, st_lift, st_modify, st_ret.
  rewrite bool_decide_eq_false_2 by done. by rewrite d0_free, to_eligible, from_eligible.
Qed.

Lemma commit_runs : commit_registry op d_intent = (Ok Advanced, committed_document intent d_intent).
Proof. by apply (commit_moves d_intent intent endpoint). Qed.

Lemma committed_fields :
  rd_handoff d_committed = Some (set_phase Committed intent) /\
  rd_current d_committed = Some to /\ rd_revision d_committed = (rd_revision d_intent + 1)%N.
Proof. unfold d_committed, committed_document, drained, intent. by destruct from. Qed.

Lemma complete_runs :
  complete_handoff op d_committed = (Ok Advanced, finished_document op d_committed).
Proof.
  unfold complete_handoff, st_bind, st_get, st_modify, st_ret.
  destruct committed_fields as (-> & _). simpl. by rewrite bool_decide_eq_true_2.
Qed.

Lemma bump_valid d : valid limit d -> valid limit (bump d).
Proof. apply set_revision_valid. Qed.

Lemma intent_valid : valid limit d_intent.
Proof. apply bump_valid. eapply begin_handoff_valid; [apply begin_runs|done]. Qed.
Lemma committed_valid : valid limit d_committed.
Proof. apply bump_valid. eapply commit_registry_valid; [apply commit_runs|apply intent_valid]. Qed.
Lemma completed_valid : valid limit d_completed.
Proof. apply bump_valid, finished_valid, committed_valid. Qed.

Lemma committed_successor : exists e, entry d_committed to = Some e /\ ge_role e = Active.
Proof.
  destruct committed_fields as (_ & Hc & _).
  destruct (valid_current _ _ committed_valid to Hc) as (e & He & Eg & Hr).
  exists e. split; [|done]. apply entry_elem in He; [|apply committed_valid].
  by rewrite Eg in He.
Qed.

Definition crash_at (s : option HandoffStep) (s' : HandoffStep) : option IoError :=
  if bool_decide (s = Some s') then Some (MkIoError "other" "crash") else None.

(** The durable state a crash at each boundary leaves; [None] is no crash. *)
Definition document_at (s : option HandoffStep) : RegistryDocument :=
  match s with
  | Some BeforeIntent => d0
  | Some (AfterIntent | BeforeBarrier | AfterBarrier | BeforeRegistryCommit) => d_intent
  | Some (AfterRegistryCommit | BeforeLocatorPublish | AfterLocatorPublish | BeforeComplete) =>
      d_committed
  | Some AfterComplete | None => d_completed
  end.
Definition published_at (s : option HandoffStep) : bool :=
  match s with
  | Some (AfterLocatorPublish | BeforeComplete | AfterComplete) | None => true
  | _ => false
  end.
Definition crossed (s : option HandoffStep) : bool :=
  match s with
  | Some (BeforeIntent | AfterIntent | BeforeBarrier | AfterBarrier | BeforeRegistryCommit) => false
  | _ => true
  end.

Lemma set_handoff_differs h : set_rd_handoff (Some h) d0 <> d0.
Proof. intros E%(f_equal rd_handoff). simpl in E. congruence. Qed.

Lemma committed_differs : committed_document intent d_intent <> d_intent.
Proof. intros E%(f_equal rd_handoff). simpl in E. by injection E. Qed.

Lemma finished_differs : finished_document op d_committed <> d_committed.
Proof.
  intros E. pose proof committed_fields as (Eh & _). rewrite <- E in Eh. discriminate Eh.
Qed.

(** The three registry writes of the rollover, in any world holding the document
    they expect. *)
Lemma begin_write w : stored d0 w ->
  exists b, from_str b = Some d_intent /\
    on_registry (GenerationRegistry.update limit (begin_handoff op from to)) w =
    (Ok (Advanced, MkRegistrySnapshot d_intent (Some b)), set_file (MkFileState (Some b) []) w).
Proof.
  intros Hs. apply (update_stored _ d0 (set_rd_handoff (Some intent) d0));
    [done|by apply validate_spec|apply begin_runs|apply set_handoff_differs|done|].
  apply validate_spec, intent_valid.
Qed.

Lemma commit_write w : stored d_intent w ->
  exists b, from_str b = Some d_committed /\
    on_registry (GenerationRegistry.update limit (commit_registry op)) w =
    (Ok (Advanced, MkRegistrySnapshot d_committed (Some b)), set_file (MkFileState (Some b) []) w).
Proof.
  intros Hs. apply (update_stored _ d_intent (committed_document intent d_intent));
    [done|apply validate_spec, intent_valid|apply commit_runs|apply committed_differs| |].
  - unfold committed_document, drained, intent. by destruct from.
  - apply validate_spec, committed_valid.
Qed.

Lemma complete_write w : stored d_committed w ->
  exists b, from_str b = Some d_completed /\
    on_registry (GenerationRegistry.update limit (complete_handoff op)) w =
    (Ok (Advanced, MkRegistrySnapshot d_completed (Some b)), set_file (MkFileState (Some b) []) w).
Proof.
  intros Hs. apply (update_stored _ d_committed (finished_document op d_committed));
    [done|apply validate_spec, committed_valid|apply complete_runs|apply finished_differs|done|].
  apply validate_spec, completed_valid.
Qed.

(** The barrier of a gate that holds authority. *)
Definition barred_gate (g : GateState) : GateState :=
  MkGateState Draining (gate_revision g + 1) false (owner_open g) 0
    (if (0 <? active_leases g)%nat
     then owner_leases (others ActiveControl (AdmissionGate.close ActiveControl g))
     else owner_leases g) true.

Lemma bar_gate_active (w : World Bytes) :
  gate_role (w_gate w) = Active ->
  bar_gate others true w = (Ok true, set_gate (barred_gate (w_gate w)) w).
Proof.
  intros Hr. destruct w as [f l [r rev ao oo al ol ba] ro wk calls]. simpl in Hr. subst r.
  unfold bar_gate, close_gate, await_drain, on_gate, st_modify, st_bind, st_ret, set_gate,
    AdmissionGate.close, barred_gate. simpl. destruct (Nat.ltb_spec 0 al) as [Hal|Hal].
  - unfold set_gate. simpl. rewrite others_release. unfold AdmissionGate.enter_draining. done.
  - assert (al = 0) as -> by lia. done.
Qed.

Lemma at_step_ok {A} s x (k : unit -> world_st A) (w : World Bytes) :
  s <> Some x -> st_bind (at_step (crash_at s) x) k w = k tt w.
Proof. intros Hne. unfold at_step, crash_at. by rewrite bool_decide_eq_false_2. Qed.

Lemma at_step_crash {A} x (k : unit -> world_st A) (w : World Bytes) :
  st_bind (at_step (crash_at (Some x)) x) k w = (Err (HandoffLocator (MkIoError "other" "crash")), w).
Proof. unfold at_step, crash_at. by rewrite bool_decide_eq_true_2. Qed.

Lemma guarded_commit_crash s (w : World Bytes) :
  s = AfterBarrier \/ s = BeforeRegistryCommit ->
  guarded_commit limit true op (crash_at (Some s)) w =
  (Err (HandoffLocator (MkIoError "other" "crash")), abort_gate w).
Proof.
  unfold guarded_commit, commit_phase.
  intros [-> | ->]; rewrite ?at_step_ok by done; by rewrite at_step_crash.
Qed.

Lemma guarded_commit_ok s (w : World Bytes) :
  s <> Some AfterBarrier -> s <> Some BeforeRegistryCommit -> stored d_intent w ->
  exists b, from_str b = Some d_committed /\
    guarded_commit limit true op (crash_at s) w =
    (Ok (MkRegistrySnapshot d_committed (Some b)),
     confirm_gate (set_file (MkFileState (Some b) []) w)).
Proof.
  intros H1 H2 Hs. destruct (commit_write w Hs) as (b & Hb & E). exists b. split; [done|].
  unfold guarded_commit, commit_phase. rewrite !at_step_ok by done.
  by rewrite (st_bind_ok _ _ _ _ _ E).
Qed.

(** The rollover, crashed at [s], step by step. *)
Lemma rollover_runs s (w : World Bytes) :
  stored d0 w -> locator_env (w_locator w) = [] -> gate_role (w_gate w) = Active ->
  exists r w', execute_rollover_with limit others true op from to (crash_at s) w = (r, w') /\
    is_ok r = bool_decide (s = None) /\
    stored (document_at s) w' /\ locator_env (w_locator w') = [] /\
    (exists e, entry d_committed to = Some e /\
       locator (w_locator w') =
       if published_at s then Published (locator_of e) else locator (w_locator w)) /\
    (if crossed s then AdmissionGate.handed_off (w_gate w') = true
     else gate_role (w_gate w') = Active /\
          (active_open (w_gate w') = true \/ w_gate w' = w_gate w)).
Proof.
  intros Hs Henv Hg. destruct committed_successor as (e & He & _).
  destruct w as [f [obs env] g ro wk calls]. simpl in Henv, Hg. subst env.
  destruct (begin_write _ Hs) as (b1 & Hb1 & E1).
  set (w0 := MkWorld f (MkLocatorState obs []) g ro wk calls) in *.
  set (w1 := set_file (MkFileState (Some b1) []) w0) in *.
  assert (Eb : bar_gate others true w1 = (Ok true, set_gate (barred_gate g) w1))
    by (by apply bar_gate_active).
  set (w2 := set_gate (barred_gate g) w1) in *.
  assert (Hs2 : stored d_intent w2) by (by exists b1).
  assert (E3 : s <> Some AfterBarrier -> s <> Some BeforeRegistryCommit -> exists b,
    from_str b = Some d_committed /\
    guarded_commit limit true op (crash_at s) w2 =
    (Ok (MkRegistrySnapshot d_committed (Some b)),
     confirm_gate (set_file (MkFileState (Some b) []) w2))).
  { intros. by apply guarded_commit_ok. }
  unfold execute_rollover_with.
  destruct (decide (s = Some BeforeIntent)) as [->|N1].
  { rewrite at_step_crash. do 2 eexists. split; [done|]. cbn [crossed published_at document_at]. split_and!; try done; first [by exists e|by right]. }
  rewrite at_step_ok by done.
  rewrite (st_bind_ok _ _ _ _ _ E1); cbn [fst snd]; rewrite bool_decide_eq_false_2 by done.
  assert (Hs1 : stored d_intent w1) by (by exists b1).
  destruct (decide (s = Some AfterIntent)) as [->|N2].
  { rewrite at_step_crash. do 2 eexists. split; [done|]. cbn [crossed published_at document_at]. split_and!; try done; first [by exists e|by right]. }
  rewrite at_step_ok by done. destruct (decide (s = Some BeforeBarrier)) as [->|N3].
  { rewrite at_step_crash. do 2 eexists. split; [done|]. cbn [crossed published_at document_at]. split_and!; try done; first [by exists e|by right]. }
  rewrite at_step_ok, (st_bind_ok _ _ _ _ _ Eb) by done.
  destruct (decide (s = Some AfterBarrier)) as [->|N4].
  { rewrite (st_bind_err _ _ _ _ _ (guarded_commit_crash AfterBarrier w2 (or_introl eq_refl))).
    do 2 eexists. split; [done|]. cbn [crossed published_at document_at]. split_and!; try done; first [by exists b1|by exists e|by left]. }
  destruct (decide (s = Some BeforeRegistryCommit)) as [->|N5].
  { rewrite (st_bind_err _ _ _ _ _ (guarded_commit_crash BeforeRegistryCommit w2 (or_intror eq_refl))).
    do 2 eexists. split; [done|]. cbn [crossed published_at document_at]. split_and!; try done; first [by exists b1|by exists e|by left]. }
  destruct (E3 N4 N5) as (b3 & Hb3 & E4). rewrite (st_bind_ok _ _ _ _ _ E4).
  set (w3 := confirm_gate _). assert (Hs3 : stored d_committed w3) by (by exists b3).
  destruct (decide (s = Some AfterRegistryCommit)) as [->|N6].
  { rewrite at_step_crash. do 2 eexists. split; [done|]. cbn [crossed published_at document_at]. split_and!; try done. by exists e. }
  rewrite at_step_ok by done. unfold publish_and_complete.
  set (w4 := MkWorld (w_file w3) (MkLocatorState (Published (locator_of e)) []) (w_gate w3) ro wk calls).
  rewrite (st_bind_ok _ _ _ (locator_of e) w3);
    [|unfold st_lift, target_of; simpl; by rewrite He].
  destruct (decide (s = Some BeforeLocatorPublish)) as [->|N7].
  { rewrite at_step_crash. do 2 eexists. split; [done|]. cbn [crossed published_at document_at]. split_and!; try done. by exists e. }
  rewrite at_step_ok, (st_bind_ok _ _ _ tt w4) by done.
  assert (Hs4 : stored d_committed w4) by (by exists b3).
  destruct (decide (s = Some AfterLocatorPublish)) as [->|N8].
  { rewrite at_step_crash. do 2 eexists. split; [done|]. cbn [crossed published_at document_at]. split_and!; try done. by exists e. }
  rewrite at_step_ok by done. destruct (decide (s = Some BeforeComplete)) as [->|N9].
  { rewrite at_step_crash. do 2 eexists. split; [done|]. cbn [crossed published_at document_at]. split_and!; try done. by exists e. }
  rewrite at_step_ok by done. destruct (complete_write w4 Hs4) as (b5 & Hb5 & E5).
  rewrite (st_bind_ok _ _ _ _ _ E5).
  destruct (decide (s = Some AfterComplete)) as [->|N10].
  { rewrite at_step_crash. do 2 eexists. split; [done|]. cbn [crossed published_at document_at]. split_and!; try done; first [by exists b5|by exists e]. }
  rewrite at_step_ok by done. destruct s as [[]|]; try done.
  do 2 eexists. split; [done|]. cbn [crossed published_at document_at]. split_and!; try done; first [by exists b5|by exists e].
Qed.

Lemma document_at_valid s : valid limit (document_at s).
Proof. destruct s as [[]|]; eauto using intent_valid, committed_valid, completed_valid. Qed.

Lemma document_at_settled s : settled (document_at s).
Proof.
  assert (Hc : settled d_committed).
  { intros h Hh _. destruct committed_fields as (Eh & Ec & _). rewrite Eh in Hh.
    injection Hh as <-. exact Ec. }
  destruct s as [[]|]; try exact Hc; intros h Hh; try done.
  all: first [simpl in Hh; congruence|injection Hh as <-; done].
Qed.

Lemma document_at_handoff s :
  match rd_handoff (document_at s) with
  | Some h => hr_operation h = op
  | None => s <> Some BeforeIntent -> rd_completed_operation (document_at s) = Some op
  end.
Proof.
  destruct committed_fields as (Eh & _).
  destruct s as [[]|]; simpl; rewrite ?Eh, ?d0_free; try done.
Qed.

(** The generation authority belongs to, and whether its process is proved alive. *)
Definition heir (s : option HandoffStep) : option DaemonGeneration := if crossed s then Some to else from.
Definition alive_in (observe : ProcessIdentity -> ProcessObservation.t) (d : RegistryDocument)
    (g : DaemonGeneration) : bool :=
  match entry d g with Some e => verified_alive observe (ge_process e) | None => false end.

Lemma committed_process g : ge_process <$> entry d_committed g = ge_process <$> entry d0 g.
Proof.
  change (entry d_committed g) with (entry (update_entry to (set_entry_role Active) (drained from d_intent)) g).
  change (entry d0 g) with (entry d_intent g).
  rewrite entry_update by done. unfold drained. destruct from as [h|]; [|by case_decide; destruct (entry d_intent g)].
  change (entry (set_rd_current ?c ?d) g) with (entry d g).
  rewrite entry_update by done. by repeat case_decide; destruct (entry d_intent g).
Qed.

(** Who survives: the generation authority belongs to, if its process does. *)
Lemma survivor_at observe s :
  ge_generation <$> surviving_authority observe (document_at s) =
  (g ← heir s; if alive_in observe d0 g then Some g else None).
Proof.
  assert (Hent : forall d g, (ge_process <$> entry d g) = (ge_process <$> entry d0 g) ->
    ge_generation <$> match entry d g with Some e => if verified_alive observe (ge_process e) then Some e else None | None => None end
    = if alive_in observe d0 g then Some g else None).
  { intros d g Hp. unfold alive_in. destruct (entry d g) as [e|] eqn:He, (entry d0 g) as [e0|]; try done.
    injection Hp as ->. destruct (verified_alive _ _); [|done]. apply entry_Some in He as [_ <-]. done. }
  assert (Hact : forall d g, rd_current d = g -> (forall g, ge_process <$> entry d g = ge_process <$> entry d0 g) ->
    ge_generation <$> match active d with Some e => if verified_alive observe (ge_process e) then Some e else None | None => None end
    = (g ← g; if alive_in observe d0 g then Some g else None)).
  { intros d g <- Hp. unfold active. destruct (rd_current d) as [g|]; [|done]. cbn. by apply Hent. }
  assert (Hfrom : rd_current d0 = from) by (by apply eligible_predecessor_ok in from_eligible as [? _]).
  unfold surviving_authority. destruct committed_fields as (Eh & Ec & _).
  assert (Hcom := Hent d_committed to (committed_process to)).
  destruct s as [[]|]; cbn [document_at heir crossed]; rewrite ?Eh, ?d0_free; try exact Hcom;
    try (by apply (Hact d0)); try (by apply (Hact d_intent)); by apply (Hact d_completed); [exact Ec|exact committed_process].
Qed.

Lemma recover_finishes observe d l op' :
  valid limit d -> settled d ->
  match rd_handoff d with
  | Some h => hr_operation h = op'
  | None => rd_completed_operation d = Some op'
  end ->
  rd_completed_operation (document_after (plan_recovery observe d l) d) = Some op'.
Proof.
  intros Hv Hs Ho. destruct (recovery_settles observe limit d l Hv Hs) as [_ [Hh _]].
  destruct (recovery_document observe d l) as [E|(d1 & E & Hd1)]; rewrite E in *.
  - by rewrite Hh in Ho.
  - simpl in *. destruct Hd1 as [(h & Eh & ->)|(d2 & -> & _ & Hd2)].
    + rewrite Eh in Ho. simpl. by f_equal.
    + unfold failed_document, finish_in_flight. simpl.
      destruct Hd2 as [->|(h & Eh & ->)].
      * destruct (rd_handoff d); simpl; [by f_equal|done].
      * rewrite Eh in Ho. simpl. by f_equal.
Qed.

(** C1: the crash matrix of a rollover.  Take an eligible handoff (a verified
    standby successor, the current authority as predecessor, no handoff in
    flight, a fresh operation) over stores that answer.  Killed at any of its ten
    durable boundaries, or not at all, and then recovered under any process
    evidence, it leaves the predecessor as the only authority if the kill came
    before the registry commit and the successor from then on, in the registry
    and in the locator alike, when that generation's recorded process is proved
    alive, and no authority and no locator when it is not; no handoff is in
    flight and the operation is recorded as finished once its intent was written,
    so a retry converges.  Its own gate is active again in the first case and has
    durably handed off in the second. *)
Theorem rollover_crash_matrix observe s (w : World Bytes) :
  stored d0 w -> locator_env (w_locator w) = [] -> gate_role (w_gate w) = Active ->
  let run := execute_rollover_with limit others true op from to (crash_at s) w in
  is_ok (fst run) = bool_decide (s = None) /\
  (if crossed s then AdmissionGate.handed_off (w_gate (snd run)) = true
   else gate_role (w_gate (snd run)) = Active) /\
  exists outcome w2 d', recover limit observe (snd run) = (Ok outcome, w2) /\
    stored d' w2 /\ validate limit d' = Ok tt /\ rd_handoff d' = None /\
    rd_current d' = (g ← (if crossed s then Some to else from); if alive_in observe d0 g then Some g else None) /\
    locator (w_locator w2) = authority_locator (active d') /\
    (s <> Some BeforeIntent -> rd_completed_operation d' = Some op).
Proof.
  intros Hs Henv Hg. destruct (rollover_runs s w Hs Henv Hg)
    as (r & w1 & -> & Hr & Hs1 & Henv1 & _ & Hgate). cbv zeta. cbn [fst snd].
  split; [done|]. split; [by destruct (crossed s); [|destruct Hgate]|].
  pose proof (document_at_valid s) as Hv. pose proof (document_at_settled s) as Hset.
  destruct (recover_stored observe _ _ Hs1 Hv Henv1) as (w2 & Hrec & Hs2 & Hl2).
  destruct (recovery_settles observe limit _ (locator (w_locator w1)) Hv Hset) as [Hv2 Hag].
  pose proof (recovery_locator observe (document_at s) (locator (w_locator w1))) as Hloc.
  pose proof (survivor_at observe s) as Hsur. unfold heir in Hsur.
  set (d' := document_after _ _) in *.
  exists (rp_outcome (plan_recovery observe (document_at s) (locator (w_locator w1)))), w2, d'.
  assert (Hact : locator (w_locator w2) = authority_locator (active d')).
  { rewrite Hl2. simpl. destruct Hag as [_ Hag]. destruct (active d'); apply Hag. }
  split_and!; [done|done|by apply validate_spec|apply Hag| |done|].
  - rewrite <- Hsur. rewrite Hl2 in Hact. simpl in Hact. rewrite Hloc in Hact.
    destruct (active d') as [e|] eqn:Ea.
    + destruct (surviving_authority observe (document_at s)) as [e'|]; [|done].
      injection Hact as Eg _. simpl. rewrite Eg. unfold active in Ea.
      destruct (rd_current d') as [g|]; [|done]. simpl in Ea.
      apply entry_Some in Ea as [_ <-]. done.
    + destruct (surviving_authority observe (document_at s)); [done|].
      by apply (active_current limit).
  - intros Hne. apply recover_finishes; [done|done|].
    pose proof (document_at_handoff s) as Hh. destruct (rd_handoff (document_at s)); auto.
Qed.
End crash_matrix.

(** ** Refusals and collection *)
Section refusals.
Context {Bytes : Type} `{EqDecision Bytes} `{SerdeLaws RegistryDocument Bytes} (limit : nat)
  (others : LeaseClass -> GateState -> GateState).

Lemma load_file f r f' : GenerationRegistry.load (Bytes := Bytes) limit f = (r, f') -> f' = tick f.
Proof.
  intros Hl. pose proof (load_is_cas limit f) as E. rewrite Hl in E.
  by apply (cas_load_spec (E := RegistryError.t)) in E as [-> _].
Qed.

Lemma no_routing_registry {A} (op : st (FileState Bytes) RegistryFailure A) w refusal w' :
  on_registry op w <> (Err (HandoffRouting refusal), w').
Proof. unfold on_registry. by destruct (op (w_file w)) as [[]]. Qed.

Lemma no_routing_locator {A} (op : st LocatorState IoError A) (w : World Bytes) refusal w' :
  on_locator op w <> (Err (HandoffRouting refusal), w').
Proof. unfold on_locator. by destruct (op (w_locator w)) as [[]]. Qed.

Lemma no_routing_prebarred operation plan (w : World Bytes) refusal w' :
  execute_prebarred_rollover limit operation plan w <> (Err (HandoffRouting refusal), w').
Proof.
  unfold execute_prebarred_rollover.
  destruct (prebarred_commit limit operation plan w) as [[[o|snap]|e] w1] eqn:E; intros Hx.
  - done.
  - unfold prebarred_publish in Hx. apply st_bind_inv in Hx as [(t & w2 & Ht & Hx)|(e & Ht & Hx)].
    + apply st_bind_inv in Hx as [(u & w3 & _ & Hx)|(e & He & Hx)].
      * apply st_bind_inv in Hx as [(o & w4 & _ & Hx)|(e & He & Hx)]; [done|].
        simplify_eq. by apply no_routing_registry in He.
      * simplify_eq. by apply no_routing_locator in He.
    + unfold st_lift, target_of in Ht. simplify_eq. by destruct (entry _ _).
  - simplify_eq. unfold prebarred_commit in E.
    apply st_bind_inv in E as [(i & w2 & _ & E)|(e & He & E)].
    + destruct (bool_decide _); [done|].
      apply st_bind_inv in E as [(c & w3 & _ & E)|(e & He & E)]; [done|].
      simplify_eq. by apply no_routing_registry in He.
    + simplify_eq. by apply no_routing_registry in He.
Qed.

(** A gated rollover that is refused leaves the old authority exactly in
    place: this process wrote neither the registry nor the locator, its gate is
    active with control work open again, and the participants ledger is as it was,
    released unless it was another rollover that held it. *)
Theorem refused_rollover_restores operation plan guard w refusal w' :
  releases others -> gate_role (w_gate w) = Active ->
  execute_gated_rollover_with_guard limit others operation plan guard w =
    (Err (HandoffRouting refusal), w') ->
  env_only (w_file w) (w_file w') /\ w_locator w' = w_locator w /\
  gate_role (w_gate w') = Active /\ active_open (w_gate w') = true /\ barred (w_gate w') = false /\
  owner_open (w_gate w') = owner_open (w_gate w) /\
  Routing.participants (w_routing w') = Routing.participants (w_routing w) /\
  (refusal <> Routing.RoutingAdmissionBusy ->
   Routing.frozen (w_routing w) = false -> Routing.frozen (w_routing w') = false).
Proof.
  intros Hrel Hg Hx. unfold execute_gated_rollover_with_guard in Hx.
  apply st_bind_inv in Hx as [(snap & w1 & H1 & Hx)|(e & He & Hx)];
    [|simplify_eq; by apply no_routing_registry in He].
  destruct (already_decided operation (rs_document snap)); [done|].
  unfold on_registry in H1. destruct (GenerationRegistry.load limit (w_file w)) as [r f1] eqn:El.
  apply load_file in El as ->. simplify_eq.
  destruct w as [f l g ro wk calls]. simpl in *.
  apply st_bind_inv in Hx as [([] & w2 & H2 & Hx)|(e & He & _)]; [|done].
  unfold close_gate, st_modify in H2. simplify_eq. unfold set_gate in Hx. simpl in Hx.
  apply st_bind_inv in Hx as [([] & w3 & H3 & Hx)|(e & He & Hx)].
  2:{ unfold await_drain in He. simpl in He. simplify_eq. }
  assert (Hw3 : exists n m, w3 = MkWorld (tick f) l
    (MkGateState Active (gate_revision g) false (owner_open g) n m (barred g)) ro wk calls).
  { unfold await_drain in H3. simpl in H3. case_match; simplify_eq.
    - unfold set_gate. simpl. rewrite (releases_fields others _ _ Hrel). simpl.
      rewrite Hg. by eexists _, _.
    - rewrite Hg. by eexists _, _. }
  destruct Hw3 as (n & m & ->).
  apply st_bind_inv in Hx as [(rev & w4 & H4 & Hx)|(e & He & Hx)].
  2:{ unfold on_gate, AdmissionGate.enter_draining in He. simpl in He.
      destruct (0 <? n); simpl in He; by simplify_eq. }
  assert (w4 = MkWorld (tick f) l
    (MkGateState Draining (gate_revision g + 1) false (owner_open g) n m true) ro wk calls) as ->.
  { unfold on_gate, AdmissionGate.enter_draining in H4. simpl in H4.
    destruct (0 <? n); simpl in H4; by simplify_eq. }
  unfold admitted_rollover in Hx. unfold on_registry in Hx.
  destruct (GenerationRegistry.load limit _) as [[snap2|e] f2] eqn:El; apply load_file in El as ->;
    simpl in Hx; [|done].
  assert (He : env_only f (tick (tick f))) by (apply env_tick, env_tick, env_refl).
  unfold on_routing in Hx. destruct (Routing.admit_rollover _ _ _ _) as [[[]|e] ro'] eqn:Ead; simpl in Hx.
  - assert (Hro : Routing.participants ro' = Routing.participants ro).
    { unfold Routing.admit_rollover, Routing.freeze_supported, st_throw in Ead.
      repeat case_match; simplify_eq; done. }
    unfold with_freeze in Hx. destruct guard as [[]|re].
    + destruct (execute_prebarred_rollover limit operation plan _) as [r5 w5] eqn:Epre.
      simplify_eq. by apply no_routing_prebarred in Epre.
    + simpl in Hx. simplify_eq. by split_and!.
  - simplify_eq. simpl.
    assert (Hro : ro' = ro).
    { unfold Routing.admit_rollover, Routing.freeze_supported, st_throw in Ead.
      repeat case_match; simplify_eq; done. }
    subst ro'. by split_and!.
Qed.

(** C5: a draining generation is collected only when it is really drained.  A
    collection that reports success found the gate draining and the runtime
    without a blocker, then, with both lease classes closed and no lease
    outstanding, found it so again; it leaves the gate retired, every client
    worker joined, and its registry entry moved to retired by one committed
    update.  A collection that is not due changes neither the registry nor the
    locator nor the workers. *)
Theorem collection_is_final {B F} (first second : World Bytes -> result F (option B))
    generation w c w' :
  releases others ->
  collect_if_drained limit others first second generation w = (Ok c, w') ->
  match c with
  | Collected report =>
      gate_role (w_gate w) = Draining /\ first w = Ok None /\
      (exists w1, second w1 = Ok None /\ w_file w1 = w_file w /\
         (forall class, gate_open (w_gate w1) class = false /\ gate_count (w_gate w1) class = 0)) /\
      gate_role (w_gate w') = Retired /\ ws_entries (w_workers w') = [] /\
      rr_joined report = length (ws_entries (w_workers w)) /\
      exists snapshot, GenerationRegistry.update limit (transition generation Retired) (w_file w) =
        (Ok (tt, snapshot), w_file w')
  | _ => w_file w' = w_file w /\ w_locator w' = w_locator w /\ w_workers w' = w_workers w
  end.
Proof.
  intros Hrel Hx. unfold collect_if_drained in Hx.
  case_bool_decide as Hg; simpl in Hx; [|by simplify_eq].
  apply st_bind_inv in Hx as [(b & w0 & Hfirst & Hx)|(e & He & Hx)]; [|done].
  unfold observe_runtime in Hfirst. destruct (first w) as [b'|] eqn:Ef; [|done].
  simpl in Hfirst. simplify_eq.
  destruct b as [b|]; [unfold st_ret in Hx; by simplify_eq|].
  destruct w0 as [f l g ro wk calls]. simpl in *.
  apply st_bind_ok_inv in Hx as ([] & w1 & H1 & Hx). unfold authority, close_gate, st_modify in H1.
  simpl in H1. simplify_eq. unfold set_gate in Hx. simpl in Hx.
  apply st_bind_ok_inv in Hx as ([] & w2 & H2 & Hx). unfold authority, close_gate, st_modify in H2.
  simpl in H2. simplify_eq. unfold set_gate in Hx. simpl in Hx.
  apply st_bind_ok_inv in Hx as ([] & w3 & H3 & Hx).
  assert (Hw3 : exists m, w3 = MkWorld f l
    (MkGateState Draining (gate_revision g) false false 0 m (barred g)) ro wk calls).
  { unfold authority, await_drain in H3. simpl in H3. destruct (Nat.ltb_spec 0 (active_leases g));
      simpl in H3; simplify_eq.
    - destruct (Hrel ActiveControl (MkGateState (gate_role g) (gate_revision g) false false
        (active_leases g) (owner_leases g) (barred g))) as (_ & _ & _ & _ & Hc & _).
      unfold set_gate. simpl in *. rewrite (releases_fields others _ _ Hrel). simpl.
      rewrite Hg in *. rewrite Hc. by eexists.
    - rewrite Hg. assert (active_leases g = 0) as -> by lia. by eexists. }
  destruct Hw3 as (m & ->).
  apply st_bind_ok_inv in Hx as ([] & w4 & H4 & Hx).
  assert (w4 = MkWorld f l (MkGateState Draining (gate_revision g) false false 0 0 (barred g)) ro wk calls) as ->.
  { unfold authority, await_drain in H4. simpl in H4. destruct (Nat.ltb_spec 0 m);
      simpl in H4; simplify_eq.
    - destruct (Hrel OwnerTerminal (MkGateState Draining (gate_revision g) false false
        0 m (barred g))) as (_ & _ & _ & _ & Hc & Hle).
      pose proof (Hle ActiveControl eq_refl) as Hz. simpl in *. apply Nat.le_0_r in Hz.
      unfold set_gate. simpl. rewrite (releases_fields others _ _ Hrel). simpl. by rewrite Hc, Hz.
    - by assert (m = 0) as -> by lia. }
  apply st_bind_ok_inv in Hx as (b & w5 & H5 & Hx).
  unfold observe_runtime in H5. destruct (second _) as [b'|] eqn:Es; [|done]. simpl in H5. simplify_eq.
  destruct b as [b|]; [unfold st_ret in Hx; by simplify_eq|].
  apply st_bind_ok_inv in Hx as (report & w6 & H6 & Hx). unfold st_ret in Hx. simplify_eq.
  unfold authority, collect_retired in H6.
  unfold st_bind, close_gate, st_modify, await_drain, on_gate, set_gate, retire_workers_of, on_registry,
    st_ret in H6. simpl in H6.
  unfold ClientWorkers.retire in H6. rewrite ClientWorkers.retire_workers_spec in H6. simpl in H6.
  destruct (GenerationRegistry.update limit (transition generation Retired) f) as [[[[] snap]|e] f'] eqn:Eu;
    simpl in H6; simplify_eq. simpl.
  split_and!; try done; [|by exists snap].
  eexists. split; [exact Es|]. split; [done|]. by intros [].
Qed.
End refusals.

Module RolloverExample.
Import RegistryExample HandoffExample.
Definition release_all (c : LeaseClass) (g : GateState) : GateState := set_count c 0 g.
Definition before : RegistryDocument := HandoffExample.d3.
Definition gate : GateState := AdmissionGate.new Active.
Definition world : World RegistryDocument :=
  MkWorld (MkFileState (Some before) [])
    (MkLocatorState (Published (MkPublishedLocator HandoffExample.g1 "sock1")) [])
    gate Routing.new ClientWorkers.new [].
Definition plan : RolloverPlan :=
  MkRolloverPlan FenceExample.hello 7 (Some HandoffExample.g1) HandoffExample.g2.

Lemma releases_release_all : releases release_all.
Proof. intros [] []; split_and!; try done; intros []; simpl; try done; lia. Qed.
Lemma store_serializable (d : RegistryDocument) : is_Some (to_string (Bytes := RegistryDocument) d).
Proof. by exists d. Qed.
Lemma before_valid : valid 2 before.
Proof. apply validate_spec. vm_compute. reflexivity. Qed.
Lemma before_stored : stored before world.
Proof. by exists before. Qed.
Lemma before_fresh : rd_completed_operation before <> Some HandoffExample.op.
Proof. vm_compute. discriminate. Qed.

(** The rollover was planned against another revision. *)
Definition refused := execute_gated_rollover_with_guard 2 release_all HandoffExample.op plan (Ok tt) world.

Definition draining : World RegistryDocument :=
  MkWorld (MkFileState (Some (snd (complete_handoff HandoffExample.op HandoffExample.committed))) [])
    (MkLocatorState Absent []) (AdmissionGate.new Draining) Routing.new
    (MkWorkerSet [MkClientWorker 1 None false] false) [].
Definition drained_verdict (w : World RegistryDocument) : result unit (option unit) := Ok None.
Definition collected := collect_if_drained 2 release_all drained_verdict drained_verdict
  HandoffExample.g1 draining.
Definition collected_report : RetireReport := MkRetireReport 1 0 [].
Lemma collected_eq : collected = (Ok (Collected collected_report), snd collected).
Proof. vm_compute. reflexivity. Qed.
Definition mismatch : Routing.RolloverRefusal := Routing.RegistryRevisionMismatch 7 (rd_revision before).
Lemma refused_eq : refused = (Err (HandoffRouting mismatch), snd refused).
Proof. vm_compute. reflexivity. Qed.
End RolloverExample.
Import RegistryExample.

Lemma rollover_crash_matrix_witness :
  exists outcome w2 d',
    recover 2 HandoffExample.all_alive
      (snd (execute_rollover_with 2 RolloverExample.release_all true HandoffExample.op
         (Some HandoffExample.g1) HandoffExample.g2 (crash_at (Some AfterRegistryCommit))
         RolloverExample.world)) = (Ok outcome, w2) /\
    stored d' w2 /\ rd_current d' = Some HandoffExample.g2.
Proof.
  destruct (rollover_crash_matrix 2 RolloverExample.release_all RolloverExample.store_serializable
    RolloverExample.releases_release_all HandoffExample.op (Some HandoffExample.g1) HandoffExample.g2
    "sock2" RolloverExample.before RolloverExample.before_valid ltac:(vm_compute; reflexivity)
    RolloverExample.before_fresh ltac:(vm_compute; reflexivity) ltac:(vm_compute; reflexivity)
    HandoffExample.all_alive (Some AfterRegistryCommit) RolloverExample.world
    RolloverExample.before_stored eq_refl eq_refl)
    as (_ & _ & outcome & w2 & d' & H1 & H2 & _ & _ & H3 & _).
  exists outcome, w2, d'. split; [exact H1|]. split; [exact H2|]. rewrite H3. vm_compute. reflexivity.
Defined.

Lemma refused_rollover_restores_witness :
  gate_role (w_gate (snd RolloverExample.refused)) = Active /\
  w_locator (snd RolloverExample.refused) = w_locator RolloverExample.world.
Proof.
  destruct (refused_rollover_restores 2 RolloverExample.release_all HandoffExample.op
    RolloverExample.plan (Ok tt) RolloverExample.world RolloverExample.mismatch
    (snd RolloverExample.refused) RolloverExample.releases_release_all eq_refl
    RolloverExample.refused_eq) as (_ & Hl & Hg & _).
  split; [exact Hg|exact Hl].
Defined.

Lemma collection_is_final_witness :
  gate_role (w_gate (snd RolloverExample.collected)) = Retired /\
  rr_joined RolloverExample.collected_report = 1.
Proof.
  destruct (collection_is_final 2 RolloverExample.release_all RolloverExample.drained_verdict
    RolloverExample.drained_verdict HandoffExample.g1 RolloverExample.draining
    (Collected RolloverExample.collected_report) (snd RolloverExample.collected)
    RolloverExample.releases_release_all RolloverExample.collected_eq) as (_ & _ & _ & Hg & _ & Hj & _).
  split; [exact Hg|exact Hj].
Defined.
