(* ===== verification/Activation.v ===== *)
(** * Entering the registry: standby readiness, first activation, legacy adoption
    ([crates/daemon/src/usecase/authority/{standby,activation,migration}.rs])

    A standby proves its exact build before it may be handed authority; a daemon
    starting from nothing reconciles what its predecessors left and activates; a
    pre-registry owner is adopted only on exact evidence.  The probe of the private
    endpoint and the process observations are arguments. *)
From S2P Require Export Rollover.
Import RegistryDocument.

(** ** Standby readiness ([standby.rs]) *)
Inductive ReadinessRefusal : Type :=
| ReadinessGenerationMismatch | ReadinessIdentityUnknown | ReadinessIdentityMismatch
| ReadinessUnsupportedCapability.

Inductive StandbyFailure : Type :=
| StandbyRefused (refusal : ReadinessRefusal)
| StandbyRegistry (failure : RegistryFailure)
| StandbyProbe (error : IoError).

Record ActiveOwner := MkActiveOwner {
  owner_record : option DaemonRecord;
  owner_observation : DaemonProcessObservation.t;
}.

Inductive StandbyStartRefusal : Type :=
| NoGenerationRegistry | StartSchemaUnsupported | NoLiveOwner | OwnerUnregistered | HandoffInFlight.

Definition admissible_active (registry : option RegistryDocument) (owner : ActiveOwner)
    : result StandbyStartRefusal DaemonGeneration :=
  match registry with
  | None => Err NoGenerationRegistry
  | Some document =>
      if bool_decide (rd_schema document <> REGISTRY_SCHEMA) then Err StartSchemaUnsupported
      else
        record <-? ok_or
          (match owner_record owner with
           | Some record =>
               if bool_decide (owner_observation owner = DaemonProcessObservation.Exact)
               then Some record else None
           | None => None
           end) NoLiveOwner ;;
        if bool_decide (is_Some (rd_handoff document)) then Err HandoffInFlight
        else
          active <-? ok_or
            (match active document with
             | Some active =>
                 if bool_decide (pi_pid (ge_process active) = dr_pid record)
                    && bool_decide (Some (pi_start_identity (ge_process active))
                                    = dr_process_start_identity record)
                 then Some active else None
             | None => None
             end) OwnerUnregistered ;;
          Ok (ge_generation active)
  end.

Inductive StandbyCustodyLoss : Type := EntryAbsent | EntryRetired | EntryReplaced | IncumbentGone.

Inductive StandbyCustody : Type := Held | LostCustody (loss : StandbyCustodyLoss).

Definition evaluate_custody (document : RegistryDocument) (generation : DaemonGeneration)
    (process : ProcessIdentity) (observe : ProcessIdentity -> ProcessObservation.t)
    : StandbyCustody :=
  match entry document generation with
  | None => LostCustody EntryAbsent
  | Some entry =>
      if bool_decide (ge_role entry = Retired) then LostCustody EntryRetired
      else if bool_decide (ge_process entry <> process) then LostCustody EntryReplaced
      else if bool_decide (ge_role entry <> Standby) || bool_decide (is_Some (rd_handoff document))
      then Held
      else match active document with
           | Some active =>
               if bool_decide (observe (ge_process active)
                               = ProcessObservation.VerifiedAlive (ge_process active))
               then Held else LostCustody IncumbentGone
           | None => LostCustody IncumbentGone
           end
  end.

Definition verify_readiness (generation : DaemonGeneration) (expected : BuildIdentity)
    (hello : ServerHello) : result ReadinessRefusal unit :=
  if bool_decide (sh_daemon_generation hello <> as_str generation)
  then Err ReadinessGenerationMismatch
  else if existsb (fun required => negb (is_advertised_by required (sh_capabilities hello)))
            standby_readiness_required_capabilities
  then Err ReadinessUnsupportedCapability
  else match build_artifact_decision (sh_build hello) expected false with
       | Reuse => Ok tt
       | BuildUnknown => Err ReadinessIdentityUnknown
       | RolloverTrigger | ForceReplace => Err ReadinessIdentityMismatch
       end.

Section standby.
Context {Bytes : Type} `{EqDecision Bytes} `{Serde RegistryDocument Bytes} (limit : nat).

Definition standby_registry {A} (op : st (FileState Bytes) RegistryFailure A)
    : st (FileState Bytes) StandbyFailure A :=
  fun f => let (r, f) := op f in (map_err StandbyRegistry r, f).

(** [probe] is the answer of the private endpoint to a read-only hello. *)
Definition prepare_standby (probe : result IoError ServerHello) (generation : DaemonGeneration)
    (endpoint : string) (process : ProcessIdentity) (expected_build : BuildIdentity)
    : st (FileState Bytes) StandbyFailure (RegistrySnapshot Bytes) :=
  registered <-! standby_registry (GenerationRegistry.update limit
                   (register_standby limit generation endpoint process expected_build)) ;;
  if match entry (rs_document (snd registered)) generation with
     | Some entry => is_build_verified entry
     | None => false
     end
  then st_ret (snd registered)
  else
    hello <-! st_lift (map_err StandbyProbe probe) ;;
    (st_lift (map_err StandbyRefused (verify_readiness generation expected_build hello)) ;;;
     (verified <-! standby_registry (GenerationRegistry.update limit
                     (verify_standby_build generation (sh_build hello))) ;;
      st_ret (snd verified))).
End standby.

(** ** First activation ([activation.rs]) *)
Record AuthorityClaim := MkAuthorityClaim {
  claim_generation : DaemonGeneration;
  claim_endpoint : string;
  claim_process : ProcessIdentity;
  claim_build : BuildIdentity;
}.

Inductive ClaimFailure : Type :=
| ClaimRecovery (failure : HandoffFailure)
| ClaimRegistry (failure : RegistryFailure)
| ClaimLocator (error : IoError).

Section activation.
Context {Bytes : Type} `{EqDecision Bytes} `{Serde RegistryDocument Bytes} (limit : nat)
  (observe : ProcessIdentity -> ProcessObservation.t).

Definition dead_generations (d : RegistryDocument) : list DaemonGeneration :=
  ge_generation <$>
  retain (fun e => negb (verified_alive observe (ge_process e)))
    (retain (fun e => negb (bool_decide (ge_role e = Retired))) (rd_generations d)).

Definition reclaim_change : doc_st unit :=
  d <-! st_get ;; st_iter retire_self (dead_generations d).

Definition claim_registry {A} (op : st (FileState Bytes) RegistryFailure A)
    : st (World Bytes) ClaimFailure A := fun w =>
  let (r, f) := op (w_file w) in
  (map_err ClaimRegistry r,
   MkWorld f (w_locator w) (w_gate w) (w_routing w) (w_workers w) (w_calls w)).

Definition claim_recover : st (World Bytes) ClaimFailure RecoveryOutcome := fun w =>
  let (r, w) := recover limit observe w in (map_err ClaimRecovery r, w).

Definition claim_publish (target : PublishedLocator) : st (World Bytes) ClaimFailure unit := fun w =>
  let (r, l) := locator_publish target (w_locator w) in
  (map_err ClaimLocator r,
   MkWorld (w_file w) l (w_gate w) (w_routing w) (w_workers w) (w_calls w)).

Definition claim_change (claim : AuthorityClaim) : doc_st unit :=
  activate_first limit (claim_generation claim) (claim_endpoint claim) (claim_process claim)
    (claim_build claim).

Definition claim_authority (claim : AuthorityClaim) : st (World Bytes) ClaimFailure RecoveryOutcome :=
  recovery <-! claim_recover ;;
  (claim_registry (GenerationRegistry.update limit reclaim_change) ;;;
   (claim_registry (GenerationRegistry.update limit (claim_change claim)) ;;;
    (claim_publish (MkPublishedLocator (claim_generation claim) (claim_endpoint claim)) ;;;
     st_ret recovery))).

Definition release_authority (generation : DaemonGeneration)
    : st (FileState Bytes) RegistryFailure unit :=
  GenerationRegistry.update limit (retire_self generation) ;;; st_ret tt.
End activation.

(** ** Adopting a pre-registry owner ([migration.rs]) *)
Inductive MigrationRefusal : Type :=
| NoRecord | NoProcessIdentity | StaleOwner | UnverifiedOwner | MissingLocator
| MigrationUnreadableLocator.

Definition migrate_legacy (record : option DaemonRecord) (observation : DaemonProcessObservation.t)
    (locator : LocatorObservation) (process_group : N) : result MigrationRefusal RegistryDocument :=
  record <-? ok_or record NoRecord ;;
  identity <-? ok_or
    (match dr_process_start_identity record with
     | Some identity => if bool_decide (identity = ""%string) then None else Some identity
     | None => None
     end) NoProcessIdentity ;;
  match observation with
  | DaemonProcessObservation.Gone => Err StaleOwner
  | DaemonProcessObservation.IdentityMismatch | DaemonProcessObservation.Unknown => Err UnverifiedOwner
  | DaemonProcessObservation.Exact =>
      match locator with
      | Absent => Err MissingLocator
      | Unreadable => Err MigrationUnreadableLocator
      | Published published =>
          Ok (MkRegistryDocument REGISTRY_SCHEMA 1 (Some (pl_generation published))
                [MkGenerationEntry (pl_generation published) Active (pl_endpoint published)
                   (MkProcessIdentity (dr_pid record) identity process_group)
                   BuildIdentity_default None 1]
                None None)
      end
  end.

(** ** Laws *)
Section laws.
Implicit Types (d : RegistryDocument) (g : DaemonGeneration).

Lemma retire_self_total g d : exists d', retire_self g d = (Ok tt, d') /\
  (forall g', role d' g' = if decide (g' = g) then (fun _ => Retired) <$> role d g' else role d g') /\
  rd_revision d' = rd_revision d /\ rd_handoff d' = rd_handoff d.
Proof.
  unfold retire_self. destruct (role d g) as [r|] eqn:Er.
  - destruct (decide (r = Retired)) as [->|Hr].
    + exists d. split_and!; try done. intros g'. case_decide; [subst; by rewrite Er|done].
    + assert (E : match r with Retired => (Ok tt, d) | _ => transition g Retired d end =
                  transition g Retired d) by (by destruct r).
      assert (exists d', transition g Retired d = (Ok tt, d') /\
        rd_revision d' = rd_revision d /\ rd_handoff d' = rd_handoff d) as (d' & Ht & Hrev & Hh).
      { rewrite transition_eq. unfold role in Er. destruct (entry d g) as [e|]; [|done].
        simpl in Er. injection Er as Er. rewrite Er. destruct r; try done; simpl; case_bool_decide; by eexists. }
      exists d'. rewrite E. split_and!; try done. intros g'.
      rewrite (role_transition _ _ _ _ g' Ht). case_decide; [subst; by rewrite Er|done].
  - exists d. split_and!; try done. intros g'. case_decide; [subst; by rewrite Er|done].
Qed.

Lemma retire_all_total l d : exists d', st_iter retire_self l d = (Ok tt, d') /\
  (forall g', role d' g' = if decide (g' ∈ l) then (fun _ => Retired) <$> role d g' else role d g') /\
  rd_revision d' = rd_revision d /\ rd_handoff d' = rd_handoff d.
Proof.
  revert d. induction l as [|g l IH]; intros d; cbn [st_iter].
  - by exists d.
  - destruct (retire_self_total g d) as (d1 & H1 & Hr1 & Hv1 & Hh1).
    destruct (IH d1) as (d2 & H2 & Hr2 & Hv2 & Hh2). exists d2.
    rewrite (st_bind_ok _ _ _ _ _ H1). split_and!; [done| |congruence|congruence].
    intros g'. rewrite Hr2, Hr1.
    destruct (decide (g' = g)) as [->|Hne].
    + rewrite (decide_True (P := g ∈ g :: l)) by left. case_decide; [|done].
      by destruct (role d g).
    + destruct (decide (g' ∈ l)).
      * by rewrite decide_True by (by right).
      * rewrite decide_False; [done|]. by intros [->|?]%elem_of_cons.
Qed.

Lemma reclaim_role_step observe d : exists d', reclaim_change observe d = (Ok tt, d') /\
  (forall g, role d' g = if decide (g ∈ dead_generations observe d)
                         then (fun _ => Retired) <$> role d g else role d g) /\
  rd_revision d' = rd_revision d /\ rd_handoff d' = rd_handoff d.
Proof. unfold reclaim_change, st_bind, st_get. apply retire_all_total. Qed.

Lemma reclaim_valid limit observe d r d' :
  reclaim_change observe d = (r, d') -> valid limit d -> valid limit d'.
Proof.
  unfold reclaim_change. intros Hr. apply st_bind_inv in Hr as [(d1 & d2 & H1 & H2)|(e & H1 & _)];
    [|done]. unfold st_get in H1. simplify_eq.
  eapply st_iter_preserves; [|exact H2]. intros g d3 r3 d4 _ H3. by eapply retire_self_valid.
Qed.

Lemma activate_first_ok limit g endpoint p b d d' :
  activate_first limit g endpoint p b d = (Ok tt, d') ->
  rd_current d' = Some g /\ role d' g = Some Active /\
  exists e, entry d' g = Some e /\ ge_endpoint e = endpoint /\ ge_process e = p.
Proof.
  unfold activate_first. destruct (entry d g) as [e|] eqn:Ee.
  - case_bool_decide as E1; simpl; [|done]. case_bool_decide as E2; [|done]. intros [= <-].
    split; [done|]. unfold role. rewrite Ee. split; [by rewrite E1|]. exists e. by rewrite E1.
  - destruct (_ || _); [done|]. destruct (limit =? 0); [done|]. intros [= <-].
    assert (E : forall e, entry (set_rd_current (Some g) (set_rd_generations [e] d)) g =
      if decide (ge_generation e = g) then Some e else None).
    { intros e. unfold entry, at_key. simpl. case_bool_decide; by case_decide. }
    split; [done|]. unfold role. rewrite E. simpl. rewrite decide_True by done.
    split; [done|]. by eexists.
Qed.

Lemma register_standby_ok limit g endpoint p b d d' :
  register_standby limit g endpoint p b d = (Ok tt, d') ->
  is_known b = true /\
  exists e, entry d' g = Some e /\ ge_role e = Standby /\ ge_endpoint e = endpoint /\
    ge_process e = p /\ ge_expected_build e = b.
Proof.
  unfold register_standby. destruct (is_known b); simpl; [|done].
  destruct (entry d g) as [e|] eqn:Ee.
  - do 4 (case_bool_decide; simpl; [|done]). intros [= <-]. split; [done|]. by exists e.
  - destruct (limit <=? retained d); [done|]. intros [= <-]. split; [done|].
    rewrite entry_app, Ee. simpl. unfold at_key. simpl. rewrite bool_decide_eq_true_2 by done.
    by eexists.
Qed.

Lemma eligible_of d g e :
  entry d g = Some e -> ge_role e = Standby -> is_known (ge_expected_build e) = true ->
  is_build_verified e = true -> eligible_successor d g = Ok (ge_endpoint e).
Proof.
  intros He Hr Hk Hb. unfold eligible_successor. rewrite He. simpl.
  by rewrite bool_decide_eq_true_2, Hk, Hb by done.
Qed.
End laws.

(** ** Properties *)
Section properties.
Context {Bytes : Type} `{EqDecision Bytes} `{SerdeLaws RegistryDocument Bytes} (limit : nat)
  (observe : ProcessIdentity -> ProcessObservation.t).
Implicit Types (d : RegistryDocument) (w : World Bytes).

(** The document an update reports is the one in the file. *)
Lemma update_reports {T} (change : doc_st T) f v s f' :
  GenerationRegistry.update limit change f = (Ok (v, s), f') ->
  validate limit (rs_document s) = Ok tt /\ contents f' = rs_observed s /\
  match rs_observed s with
  | None => rs_document s = RegistryDocument_default
  | Some b => from_str b = Some (rs_document s)
  end /\
  exists d next, change d = (Ok v, next) /\
    (rs_document s = next \/ rs_document s = set_rd_revision (rd_revision next + 1) next).
Proof.
  intros Hu%registry_update_outcome. simpl in Hu.
  destruct Hu as (s0 & f0 & next & _ & Hc & [Hv Hs] & Hch & Hout).
  destruct s as [d o]; simpl in *.
  destruct Hout as [(-> & <- & ->)|(_ & E1 & Hv' & _ & b & Hb & E2 & ->)].
  - simpl in *. split_and!; try done. exists d, d. auto.
  - subst. simpl. split_and!; try done; [by apply from_to_string|].
    exists (cs_document s0), next. auto.
Qed.

(** A daemon that claimed authority has it.  When the claim succeeds - under
    any interleaving with other processes - the stored registry names exactly this
    generation as the single active and current one, at the claimed endpoint and
    process, and the locator publishes it. *)
Theorem claim_takes_authority claim w recovery w' :
  claim_authority limit observe claim w = (Ok recovery, w') ->
  exists b d e, contents (w_file w') = Some b /\ from_str b = Some d /\ validate limit d = Ok tt /\
    rd_current d = Some (claim_generation claim) /\
    entry d (claim_generation claim) = Some e /\ ge_role e = Active /\
    ge_endpoint e = claim_endpoint claim /\ ge_process e = claim_process claim /\
    (forall e', e' ∈ rd_generations d -> ge_role e' = Active -> e' = e) /\
    locator (w_locator w') =
      Published (MkPublishedLocator (claim_generation claim) (claim_endpoint claim)).
Proof.
  intros Hx. apply st_bind_ok_inv in Hx as (rec & w1 & _ & Hx).
  apply st_bind_ok_inv in Hx as (? & w2 & _ & Hx).
  apply st_bind_ok_inv in Hx as ([[] s] & w3 & H3 & Hx).
  apply st_bind_ok_inv in Hx as ([] & w4 & H4 & Hx). unfold st_ret in Hx. simplify_eq.
  unfold claim_registry in H3.
  destruct (GenerationRegistry.update limit (claim_change limit claim) (w_file w2)) as [r f] eqn:Eu.
  destruct r as [[[] s']|]; simplify_eq/=.
  unfold claim_publish, locator_publish, locator_op in H4. simpl in H4.
  destruct (locator_tick _) as [[e|] l]; simpl in H4; simplify_eq. simpl.
  apply update_reports in Eu as (Hv & Hc & Ho & d0 & next & Hch & Hd).
  apply activate_first_ok in Hch as (Hcur & Hrole & e & He & Hep & Hpr).
  assert (Hcur' : rd_current (rs_document s) = Some (claim_generation claim)) by (by destruct Hd as [-> | ->]).
  assert (He' : entry (rs_document s) (claim_generation claim) = Some e) by (by destruct Hd as [-> | ->]).
  pose proof (proj1 (validate_spec limit _) Hv) as Hvalid.
  destruct (rs_observed s) as [b|] eqn:Eo; [|by rewrite Ho in Hcur'].
  exists b, (rs_document s), e. split_and!; try done.
  - unfold role in Hrole. rewrite He in Hrole. simpl in Hrole. congruence.
  - intros e' Hin Hr'. pose proof (valid_active _ _ Hvalid e' Hin Hr') as E.
    apply entry_elem in Hin; [|apply Hvalid]. congruence.
Qed.

Lemma recover_no_handoff d l : rd_handoff (document_after (plan_recovery observe d l) d) = None.
Proof.
  assert (Hst : forall d l, rd_handoff d = None ->
    rd_handoff (default d (rp_document (plan_steady_state observe d l))) = None).
  { intros d1 l1 Hd. unfold plan_steady_state. destruct (active d1).
    - destruct (negb _); [apply failed_document_fields|]. by case_bool_decide.
    - destruct l1; [done|apply failed_document_fields..]. }
  unfold plan_recovery. rewrite document_after_bump.
  destruct (rd_handoff d) as [h|] eqn:Eh; [destruct (hr_phase h)|].
  - destruct (plan_abort_after observe d h l Eh) as [E _]. unfold document_after in E.
    pose proof (Hst (finished_document (hr_operation h) d) l eq_refl) as Hn. rewrite <- E in Hn.
    by destruct (rp_document (plan_abort observe d h l)).
  - unfold plan_roll_forward. destruct (entry d (hr_to h)); [destruct (verified_alive _ _)|];
      simpl; try done; apply failed_document_fields.
  - pose proof (Hst d l Eh). by destruct (rp_document (plan_steady_state observe d l)).
Qed.

Lemma recover_unregistered d l g :
  role d g = None -> role (document_after (plan_recovery observe d l) d) g = None.
Proof.
  intros Hr. destruct (recovery_document observe d l) as [-> | (d1 & -> & Hd1)]; [done|].
  destruct Hd1 as [(h & _ & ->)|(d2 & -> & Eg & _)]; [done|].
  change (role (failed_document d2) g = None).
  by rewrite role_failed, (role_same_entries d d2 g Eg), Hr.
Qed.

Lemma all_dead_retained d d' :
  (forall p, observe p <> ProcessObservation.VerifiedAlive p) -> valid limit d -> valid limit d' ->
  (forall g, role d' g = if decide (g ∈ dead_generations observe d)
                         then (fun _ => Retired) <$> role d g else role d g) ->
  retained d' = 0.
Proof.
  intros Hdead Hv Hv' Hr. apply count_zero. intros e He. unfold is_retained.
  apply negb_false_iff, bool_decide_eq_true.
  pose proof (entry_elem d' e (valid_distinct _ _ Hv') He) as Ee.
  specialize (Hr (ge_generation e)). unfold role at 1 in Hr. rewrite Ee in Hr. simpl in Hr.
  case_decide as Ed; [by destruct (role d _); simplify_eq/=|].
  unfold role in Hr. destruct (entry d (ge_generation e)) as [e0|] eqn:E0; [|done].
  simpl in Hr. injection Hr as Hr. destruct (decide (ge_role e0 = Retired)) as [|Hn]; [congruence|].
  exfalso. apply Ed. apply entry_Some in E0 as [Hin Eg]. unfold dead_generations. rewrite <- Eg.
  apply list_elem_of_fmap_2, elem_of_retain. split.
  - apply elem_of_retain. split; [done|]. by rewrite bool_decide_eq_false_2.
  - unfold verified_alive. by rewrite bool_decide_eq_false_2 by (by apply Hdead).
Qed.

(** Dead generations never block a start.  Whatever a previous incarnation
    left - an active, draining or standby entry, an unfinished handoff, any
    locator - once every recorded process is gone, a fresh daemon's claim succeeds
    (on a store that is not contended and does not fault). *)
Theorem dead_generations_never_block claim d w :
  (forall d : RegistryDocument, is_Some (to_string (Bytes := Bytes) d)) ->
  (forall p, observe p <> ProcessObservation.VerifiedAlive p) ->
  stored d w -> valid limit d -> locator_env (w_locator w) = [] ->
  limit <> 0 -> entry d (claim_generation claim) = None ->
  exists recovery w', claim_authority limit observe claim w = (Ok recovery, w').
Proof.
  intros Hser Hdead Hs Hv Henv Hlim Hnew.
  destruct (recover_stored limit Hser observe d w Hs Hv Henv) as (w1 & Hrec & Hs1 & Hl1).
  pose proof (recover_valid limit observe d (locator (w_locator w)) Hv) as Hv1.
  pose proof (recover_no_handoff d (locator (w_locator w))) as Hh1.
  assert (Hn1 : role (document_after (plan_recovery observe d (locator (w_locator w))) d)
                  (claim_generation claim) = None).
  { apply recover_unregistered. unfold role. by rewrite Hnew. }
  set (d1 := document_after _ _) in *.
  destruct (reclaim_role_step observe d1) as (d2 & H2 & Hr2 & Hrev2 & Hh2).
  pose proof (reclaim_valid limit observe _ _ _ H2 Hv1) as Hv2.
  destruct Hs1 as (b1 & Hw1 & Hb1).
  assert (exists b2 d2' s, from_str b2 = Some d2' /\ valid limit d2' /\
    rd_generations d2' = rd_generations d2 /\ rd_handoff d2' = rd_handoff d2 /\
    GenerationRegistry.update limit (reclaim_change observe) (MkFileState (Some b1) []) =
    (Ok (tt, s), MkFileState (Some b2) [])) as (b2 & d2' & s & Hb2 & Hv2' & Eg & Eh & E2).
  { pose proof (proj2 (validate_spec limit d1) Hv1) as Hval1.
    destruct (decide (d2 = d1)) as [->|Hne].
    - exists b1, d1. eexists. split_and!; try done. by apply update_file_same.
    - destruct (update_file limit Hser _ d1 d2 tt b1 Hb1 Hval1 H2 Hne Hrev2) as (b2 & Hb2 & E2).
      { by apply validate_spec, bump_valid. }
      exists b2, (bump d2). eexists. split_and!; try done. by apply bump_valid. }
  assert (Hret : retained d2' = 0).
  { unfold retained. rewrite Eg. by apply (all_dead_retained d1 d2). }
  assert (Hn2 : entry d2' (claim_generation claim) = None).
  { unfold entry. rewrite Eg. fold (entry d2 (claim_generation claim)).
    specialize (Hr2 (claim_generation claim)). rewrite Hn1 in Hr2. unfold role in Hr2.
    destruct (entry d2 _); [|done]. simpl in Hr2. by case_decide. }
  assert (Hact : exists d3, claim_change limit claim d2' = (Ok tt, d3) /\ d3 <> d2' /\
            rd_revision d3 = rd_revision d2').
  { unfold claim_change, activate_first. rewrite Hn2, Eh, Hh2, Hh1, Hret. simpl.
    destruct (Nat.eqb_spec limit 0); [done|]. eexists. split_and!; [done| |done].
    intros E%(f_equal rd_current). simpl in E. symmetry in E.
    rewrite (retained_zero_current limit d2' Hv2' Hret) in E. done. }
  destruct Hact as (d3 & H3 & Hne3 & Hrev3).
  destruct (update_file limit Hser _ d2' d3 tt b2 Hb2 (proj2 (validate_spec limit d2') Hv2') H3 Hne3 Hrev3)
    as (b3 & Hb3 & E3).
  { apply validate_spec, bump_valid. by eapply activate_first_valid. }
  destruct w1 as [f1 [l1 env1] g ro wk calls]. simpl in Hw1, Hl1. subst f1. injection Hl1 as -> ->.
  eexists _, _. unfold claim_authority.
  erewrite st_bind_ok; [|unfold claim_recover; rewrite Hrec; reflexivity].
  erewrite st_bind_ok; [|unfold claim_registry; simpl; rewrite E2; reflexivity].
  erewrite st_bind_ok; [|unfold claim_registry; simpl; rewrite E3; reflexivity].
  erewrite st_bind_ok; [|reflexivity]. reflexivity.
Qed.

(** a prepared standby can be handed authority.  When preparation succeeds,
    under any interleaving, the registry it reports holds the generation as a
    standby whose own hello proved the exact artifact its entry expects, so it is
    an eligible successor; an artifact that cannot be identified never gets a
    slot. *)
Theorem prepared_standby_is_eligible probe generation endpoint process expected f snapshot f' :
  prepare_standby limit probe generation endpoint process expected f = (Ok snapshot, f') ->
  is_known expected = true /\ contents f' = rs_observed snapshot /\
  exists e, entry (rs_document snapshot) generation = Some e /\
    eligible_successor (rs_document snapshot) generation = Ok (ge_endpoint e) /\
    (ge_verified_build e = None -> False).
Proof.
  unfold prepare_standby. intros Hx. apply st_bind_ok_inv in Hx as ([[] s1] & f1 & H1 & Hx).
  unfold standby_registry in H1.
  destruct (GenerationRegistry.update limit _ f) as [[[[] s1']|] f1'] eqn:E1; simplify_eq/=.
  apply update_reports in E1 as (_ & Hc1 & _ & d0 & next & Hch & Hd).
  apply register_standby_ok in Hch as (Hk & e & He & Hr & Hep & Hp & Hb).
  assert (He' : entry (rs_document s1) generation = Some e) by (by destruct Hd as [-> | ->]).
  split; [done|]. rewrite He' in Hx. destruct (is_build_verified e) eqn:Ev.
  - unfold st_ret in Hx. simplify_eq. split; [done|]. exists e. split_and!; [done| |].
    + by apply eligible_of; rewrite ?Hb.
    + intros Hn. unfold is_build_verified in Ev. by rewrite Hn in Ev.
  - apply st_bind_ok_inv in Hx as (hello & f2 & H2 & Hx). unfold st_lift in H2. simplify_eq.
    apply st_bind_ok_inv in Hx as (? & f2' & H3 & Hx). unfold st_lift in H3. simplify_eq.
    apply st_bind_ok_inv in Hx as ([[] s2] & f3 & H4 & Hx). unfold st_ret in Hx. simplify_eq/=.
    unfold standby_registry in H4.
    destruct (GenerationRegistry.update limit _ _) as [[[[] s2']|] f3'] eqn:E2; simplify_eq/=.
    apply update_reports in E2 as (_ & Hc2 & _ & d1 & next1 & Hch1 & Hd1).
    apply verify_standby_build_verified in Hch1 as (e1 & He1 & Hr1 & Hsame & ->).
    split; [done|]. exists (set_entry_verified (sh_build hello) e1).
    pose proof (entry_update generation (set_entry_verified (sh_build hello)) d1
      (fun _ => eq_refl) generation) as Eu. rewrite decide_True, He1 in Eu by done. simpl in Eu.
    assert (Heu : entry (rs_document snapshot) generation = Some (set_entry_verified (sh_build hello) e1)).
    { by destruct Hd1 as [-> | ->]. }
    split_and!; [done| |done]. apply same_artifact_spec in Hsame as Hs.
    apply eligible_of; try done; apply Hs.
Qed.

(** When a standby still holds its place: its entry is its own, not retired,
    and, while it is only a standby and no handoff is moving authority, the active
    generation it stands by for is proved alive. *)
Lemma custody_held_iff d g p :
  evaluate_custody d g p observe = Held <->
  exists e, entry d g = Some e /\ ge_role e <> Retired /\ ge_process e = p /\
    (ge_role e <> Standby \/ is_Some (rd_handoff d) \/
     exists a, active d = Some a /\
       observe (ge_process a) = ProcessObservation.VerifiedAlive (ge_process a)).
Proof.
  unfold evaluate_custody. destruct (entry d g) as [e|]; [|naive_solver].
  destruct (active d) as [a|]; repeat (case_bool_decide; simpl); naive_solver.
Qed.
End properties.

(** a legacy owner is adopted only on exact evidence, and only to be handed
    off from.  Adoption succeeds exactly when the record carries a process identity,
    the operating system confirms that exact process and the locator names an
    endpoint; the adopted registry is valid and names that endpoint's generation as
    active, but no generation of it can be handed authority. *)
Theorem legacy_owner_adopted_exactly record observation l process_group d :
  migrate_legacy record observation l process_group = Ok d <->
  exists r identity p, record = Some r /\ dr_process_start_identity r = Some identity /\
    identity <> ""%string /\ observation = DaemonProcessObservation.Exact /\ l = Published p /\
    d = MkRegistryDocument REGISTRY_SCHEMA 1 (Some (pl_generation p))
          [MkGenerationEntry (pl_generation p) Active (pl_endpoint p)
             (MkProcessIdentity (dr_pid r) identity process_group) BuildIdentity_default None 1]
          None None /\
    validate 1 d = Ok tt /\ (forall g, is_ok (eligible_successor d g) = false).
Proof.
  split.
  - unfold migrate_legacy. destruct record as [r|]; [|done]. simpl.
    destruct (dr_process_start_identity r) as [identity|] eqn:Ei; [|done].
    case_bool_decide as Ee; simpl; [done|].
    destruct observation; try done. destruct l as [|p|]; try done. intros [= <-].
    exists r, identity, p. split_and!; try done.
    + apply validate_spec. constructor; simpl;
        [done|apply NoDup_singleton|unfold retained, count; simpl; lia
        |by intros e ->%list_elem_of_singleton _
        |intros g [= <-]; eexists; split_and!; [left|done|done]|done].
    + intros g. unfold eligible_successor, entry, at_key. simpl. by case_bool_decide.
  - intros (r & identity & p & -> & Ei & Ee & -> & -> & -> & _). unfold migrate_legacy. simpl.
    by rewrite Ei, bool_decide_eq_false_2.
Qed.

(** A daemon starts where a killed rollover left a committed handoff behind, and a
    standby is prepared next to it. *)
Module ActivationExample.
Import RegistryExample.
Definition nobody (p : ProcessIdentity) : ProcessObservation.t := ProcessObservation.Gone.
Definition claim : AuthorityClaim :=
  MkAuthorityClaim (MkDaemonGeneration "g9") "sock9" (MkProcessIdentity 99 "boot-99" 99)
    BuildIdentity_default.
Definition abandoned : World RegistryDocument :=
  MkWorld (MkFileState (Some HandoffExample.committed) [])
    (MkLocatorState Unreadable []) (AdmissionGate.new Standby) Routing.new ClientWorkers.new [].
Definition claimed := claim_authority 2 nobody claim abandoned.
Definition recovery : RecoveryOutcome := FailedClosed SuccessorGone.
Lemma claimed_eq : claimed = (Ok recovery, snd claimed).
Proof. vm_compute. reflexivity. Qed.
Lemma abandoned_stored : stored HandoffExample.committed abandoned.
Proof. by exists HandoffExample.committed. Qed.
Lemma claim_serializable (d : RegistryDocument) : is_Some (to_string (Bytes := RegistryDocument) d).
Proof. by exists d. Qed.

Definition hello : ServerHello :=
  MkServerHello "n" "c" "g2" WireStandby (MkProtocolVersion 1 0)
    ["build.artifact.v1"; "daemon.generation-handoff.v1"]%string HandoffExample.build
    ProtocolLimits_default None.
Definition standby_file : FileState RegistryDocument := MkFileState (Some HandoffExample.d1) [].
Definition prepared := prepare_standby 2 (Ok hello) HandoffExample.g2 "sock2" HandoffExample.p2
  HandoffExample.build standby_file.
Definition snapshot : RegistrySnapshot RegistryDocument :=
  match fst prepared with Ok s => s | Err _ => MkRegistrySnapshot RegistryDocument_default None end.
Lemma prepared_eq : prepared = (Ok snapshot, snd prepared).
Proof. vm_compute. reflexivity. Qed.
End ActivationExample.
Import RegistryExample.

Lemma claim_takes_authority_witness :
  locator (w_locator (snd ActivationExample.claimed)) =
    Published (MkPublishedLocator (MkDaemonGeneration "g9") "sock9").
Proof.
  destruct (claim_takes_authority 2 ActivationExample.nobody ActivationExample.claim
    ActivationExample.abandoned ActivationExample.recovery (snd ActivationExample.claimed)
    ActivationExample.claimed_eq) as (b & d & e & _ & _ & _ & _ & _ & _ & _ & _ & _ & H).
  exact H.
Defined.

Lemma dead_generations_never_block_witness :
  exists recovery w', claim_authority 2 ActivationExample.nobody ActivationExample.claim
    ActivationExample.abandoned = (Ok recovery, w').
Proof.
  apply (dead_generations_never_block 2 ActivationExample.nobody ActivationExample.claim
    HandoffExample.committed ActivationExample.abandoned ActivationExample.claim_serializable
    ltac:(intros p; discriminate) ActivationExample.abandoned_stored HandoffExample.committed_example_valid
    eq_refl ltac:(discriminate)).
  vm_compute. reflexivity.
Defined.

Lemma prepared_standby_is_eligible_witness :
  exists e, eligible_successor (rs_document ActivationExample.snapshot) HandoffExample.g2
              = Ok (ge_endpoint e).
Proof.
  destruct (prepared_standby_is_eligible 2 (Ok ActivationExample.hello) HandoffExample.g2 "sock2"
    HandoffExample.p2 HandoffExample.build ActivationExample.standby_file ActivationExample.snapshot
    (snd ActivationExample.prepared) ActivationExample.prepared_eq) as (_ & _ & e & _ & He & _).
  exists e. exact He.
Defined.
