(* ===== verification/Child.v ===== *)
(** * Typed refusals and the identity of a spawned child
    ([crates/daemon/src/usecase/resources/mod.rs],
     [crates/daemon/src/usecase/resources/identity.rs])

    [ResourceError] is the refusal vocabulary of both runtime documents.
    [ChildIdentity] is a child as the operating system identified it; the
    platform probe ([ChildProcessProbe]) is a pair of functions from a pid to
    what the process table answered. *)
From S2P Require Export Generation CasFile.

Module ResourceError.
Inductive t : Type :=
| UnknownSchema
| Corrupt
| StaleRevision
| ForeignOwner
| CapacityExhausted
| OperationConflict
| OperationExpired
| RetentionBackpressure
| UnknownOperation
| UnknownResource
| DuplicateResource
| WrongOwner
| WrongState
| OwnershipUnknown
| IdentityUnverifiable
| NotCollectable.
#[export] Instance eq_dec : EqDecision t.
Proof. solve_decision. Defined.
End ResourceError.
Export (hints) ResourceError.

Definition ResourceFailure : Type := Failure ResourceError.t.

#[export] Instance resource_cas_error : CasError ResourceError.t := {
  cas_stale_revision := ResourceError.StaleRevision;
  cas_corrupt := ResourceError.Corrupt;
}.

(** ** Identities *)
Definition IDENTITY_SOURCE_OS : string := "os".
Definition IDENTITY_SOURCE_UNVERIFIED : string := "unverified".

Record ChildIdentity := MkChildIdentity {
  ci_pid : N;
  ci_process_group : N;
  ci_source : string;
  ci_start_identity : string;
}.
#[export] Instance child_identity_eq_dec : EqDecision ChildIdentity.
Proof. solve_decision. Defined.

Definition unverifiable (pid : N) (token : string) : ChildIdentity :=
  MkChildIdentity pid pid IDENTITY_SOURCE_UNVERIFIED token.

Definition is_verifiable (c : ChildIdentity) : bool :=
  bool_decide (ci_source c = IDENTITY_SOURCE_OS) && negb (is_empty (ci_start_identity c)).

Definition to_process_identity (c : ChildIdentity) : result ResourceError.t ProcessIdentity :=
  if negb (is_verifiable c) then Err ResourceError.IdentityUnverifiable
  else Ok (MkProcessIdentity (ci_pid c) (ci_start_identity c) (ci_process_group c)).

(** [trait ChildProcessProbe] *)
Record ChildProcessProbe := MkChildProcessProbe {
  probe_start_identity : N -> result IoError string;
  probe_process_group : N -> result IoError N;
}.

Module IdentityRefusal.
Inductive t : Type := Gone | Unobservable | Malformed.
#[export] Instance eq_dec : EqDecision t.
Proof. solve_decision. Defined.
End IdentityRefusal.
Export (hints) IdentityRefusal.

Module ChildObservation.
Inductive t : Type := Exact | Gone | Reused | Unknown.
#[export] Instance eq_dec : EqDecision t.
Proof. solve_decision. Defined.
End ChildObservation.
Export (hints) ChildObservation.

Definition is_definitely_gone (o : ChildObservation.t) : bool :=
  match o with ChildObservation.Gone | ChildObservation.Reused => true | _ => false end.

(** [error.kind() == io::ErrorKind::NotFound] *)
Definition NotFound : string := "NotFound".
Definition InvalidData : string := "InvalidData".
Definition not_found (e : IoError) : bool := bool_decide (io_kind e = NotFound).

(** [fn refusal] of identity.rs *)
Definition identity_refusal (e : IoError) : IdentityRefusal.t :=
  if not_found e then IdentityRefusal.Gone
  else if bool_decide (io_kind e = InvalidData) then IdentityRefusal.Malformed
  else IdentityRefusal.Unobservable.

Definition record_child (probe : ChildProcessProbe) (pid : N)
    : result IdentityRefusal.t ChildIdentity :=
  start_identity <-? map_err identity_refusal (probe_start_identity probe pid) ;;
  if is_empty start_identity then Err IdentityRefusal.Malformed
  else
    process_group <-? map_err identity_refusal (probe_process_group probe pid) ;;
    Ok (MkChildIdentity pid process_group IDENTITY_SOURCE_OS start_identity).

Definition observe_child (probe : ChildProcessProbe) (recorded : ChildIdentity)
    : ChildObservation.t :=
  if negb (is_verifiable recorded) then
    match probe_start_identity probe (ci_pid recorded) with
    | Err error => if not_found error then ChildObservation.Gone else ChildObservation.Unknown
    | Ok _ => ChildObservation.Unknown
    end
  else
    match probe_start_identity probe (ci_pid recorded) with
    | Err error => if not_found error then ChildObservation.Gone else ChildObservation.Unknown
    | Ok actual =>
        if bool_decide (actual <> ci_start_identity recorded) then ChildObservation.Reused
        else
          match probe_process_group probe (ci_pid recorded) with
          | Ok group =>
              if bool_decide (group = ci_process_group recorded) then ChildObservation.Exact
              else ChildObservation.Unknown
          | Err error => if not_found error then ChildObservation.Gone else ChildObservation.Unknown
          end
    end.

(** ** Laws *)
Lemma is_verifiable_spec c :
  is_verifiable c = true <-> ci_source c = IDENTITY_SOURCE_OS /\ ci_start_identity c <> EmptyString.
Proof.
  unfold is_verifiable. rewrite andb_true_iff, bool_decide_eq_true, negb_true_iff.
  by rewrite is_empty_false.
Qed.

Lemma record_child_spec probe pid c :
  record_child probe pid = Ok c <->
  ci_pid c = pid /\ is_verifiable c = true /\
  probe_start_identity probe pid = Ok (ci_start_identity c) /\
  probe_process_group probe pid = Ok (ci_process_group c).
Proof.
  rewrite is_verifiable_spec. unfold record_child, map_err, res_bind. split.
  - destruct (probe_start_identity probe pid) as [t|]; [|done].
    destruct (is_empty t) eqn:Et; [done|]. apply is_empty_false in Et.
    destruct (probe_process_group probe pid) as [g|]; [|done]. by intros [= <-].
  - destruct c as [p g s t]; simpl. intros (-> & [-> Ht%is_empty_false] & -> & ->).
    by rewrite Ht.
Qed.

(** A child is recognised only by what it was recorded with, and proved gone
    only by what cannot be it.  For every platform answer: an observation is
    exact precisely when the record is verifiable and the process table reports
    the recorded start token and process group for that pid; it proves the child
    gone only when the pid (or its group) no longer exists or carries another
    start token; and a child recorded from a platform is exact on it. *)
Theorem child_observed_exactly probe recorded :
  (observe_child probe recorded = ChildObservation.Exact <->
   is_verifiable recorded = true /\
   probe_start_identity probe (ci_pid recorded) = Ok (ci_start_identity recorded) /\
   probe_process_group probe (ci_pid recorded) = Ok (ci_process_group recorded)) /\
  (is_definitely_gone (observe_child probe recorded) = true <->
   (exists e, not_found e = true /\ probe_start_identity probe (ci_pid recorded) = Err e) \/
   (is_verifiable recorded = true /\
    ((exists t, probe_start_identity probe (ci_pid recorded) = Ok t /\
        t <> ci_start_identity recorded) \/
     (probe_start_identity probe (ci_pid recorded) = Ok (ci_start_identity recorded) /\
      exists e, not_found e = true /\ probe_process_group probe (ci_pid recorded) = Err e)))) /\
  (forall pid, record_child probe pid = Ok recorded ->
     observe_child probe recorded = ChildObservation.Exact) /\
  (forall process, to_process_identity recorded = Ok process ->
     pi_pid process = ci_pid recorded /\ is_verifiable recorded = true).
Proof.
  assert (Hexact : observe_child probe recorded = ChildObservation.Exact <->
   is_verifiable recorded = true /\
   probe_start_identity probe (ci_pid recorded) = Ok (ci_start_identity recorded) /\
   probe_process_group probe (ci_pid recorded) = Ok (ci_process_group recorded)).
  { unfold observe_child. destruct (is_verifiable recorded); simpl;
      destruct (probe_start_identity _ _) as [t|e]; try destruct (not_found _);
      try destruct (probe_process_group _ _) as [g|e']; repeat case_bool_decide;
      try destruct (not_found _); naive_solver. }
  split; [exact Hexact|]. split.
  - unfold observe_child. destruct (is_verifiable recorded); simpl;
      destruct (probe_start_identity _ _) as [t|e]; try destruct (not_found _) eqn:?;
      try destruct (probe_process_group _ _) as [g|e'] eqn:?; repeat case_bool_decide;
      try destruct (not_found _) eqn:?; simpl; naive_solver.
  - split.
    + intros pid (<- & ? & ? & ?)%record_child_spec. by apply Hexact.
    + intros process. unfold to_process_identity.
      destruct (is_verifiable recorded); simpl; [|done]. by intros [= <-].
Qed.
