(* ===== verification/Allocator.v ===== *)
(** * The global resource allocator
    ([crates/daemon/src/usecase/resources/allocator.rs])

    One durable document every retained generation compare-and-swaps: capacity
    claims, the ledger of producer operations with its tombstones and expiry
    watermark, and the owner events the active consumer applied.  A method taking
    [&mut self] is a function in [doc_st]; time is the logical clock's [u64]. *)
From S2P Require Export Child.

Definition ALLOCATOR_SCHEMA : string := "usagi-resource-allocator-v1".

Inductive ResourceKind : Type := AgentKind | TerminalKind.
#[export] Instance resource_kind_eq_dec : EqDecision ResourceKind.
Proof. solve_decision. Defined.

(** [ResourceKind::pool] *)
Definition pool (k : ResourceKind) : string :=
  match k with AgentKind => "agent" | TerminalKind => "terminal" end.

Record CapacityPolicy := MkCapacityPolicy { cp_agent : nat; cp_terminal : nat }.

(** [CapacityPolicy::limit] *)
Definition limit (p : CapacityPolicy) (kind : ResourceKind) : nat :=
  match kind with AgentKind => cp_agent p | TerminalKind => cp_terminal p end.

Module ClaimState.
Inductive t : Type := Reserved | Live | Released.
#[export] Instance eq_dec : EqDecision t.
Proof. solve_decision. Defined.
End ClaimState.
Export (hints) ClaimState.

Record ResourceClaim := MkResourceClaim {
  rc_resource : TerminalRef;
  rc_kind : ResourceKind;
  rc_owner : DaemonGeneration;
  rc_operation : OperationId;
  rc_digest : string;
  rc_state : ClaimState.t;
  rc_revision : N;
}.
#[export] Instance resource_claim_eq_dec : EqDecision ResourceClaim.
Proof. solve_decision. Defined.

Module LaunchFailure.
Inductive t : Type := Reservation | Spawn.
#[export] Instance eq_dec : EqDecision t.
Proof. solve_decision. Defined.
End LaunchFailure.
Export (hints) LaunchFailure.

Module OperationOutcome.
Inductive t : Type := Reserved | Spawned | Failed (reason : LaunchFailure.t) | Ambiguous.
#[export] Instance eq_dec : EqDecision t.
Proof. solve_decision. Defined.
End OperationOutcome.
Export (hints) OperationOutcome.

Definition is_final (o : OperationOutcome.t) : bool :=
  negb (bool_decide (o = OperationOutcome.Reserved)).

Definition is_collectable (o : OperationOutcome.t) : bool :=
  match o with OperationOutcome.Spawned | OperationOutcome.Failed _ => true | _ => false end.

Record OperationRecord := MkOperationRecord {
  or_operation : OperationId;
  or_digest : string;
  or_kind : ResourceKind;
  or_owner : DaemonGeneration;
  or_resource : TerminalRef;
  or_outcome : OperationOutcome.t;
  or_sealed_at : option N;
  or_revision : N;
}.
#[export] Instance operation_record_eq_dec : EqDecision OperationRecord.
Proof. solve_decision. Defined.

Inductive ExpiryClass : Type := ExpiredSpawned | ExpiredFailed.
#[export] Instance expiry_class_eq_dec : EqDecision ExpiryClass.
Proof. solve_decision. Defined.

Record OperationTombstone := MkOperationTombstone {
  ot_operation : OperationId;
  ot_digest : string;
  ot_class : ExpiryClass;
  ot_cutoff : N;
}.
#[export] Instance operation_tombstone_eq_dec : EqDecision OperationTombstone.
Proof. solve_decision. Defined.

Record ConsumedEvent := MkConsumedEvent {
  ce_resource : TerminalRef;
  ce_owner : DaemonGeneration;
  ce_event_revision : N;
}.
#[export] Instance consumed_event_eq_dec : EqDecision ConsumedEvent.
Proof. solve_decision. Defined.

Inductive Admission : Type :=
| Fresh
| Replay (resource : TerminalRef) (outcome : OperationOutcome.t) (revision : N).
#[export] Instance admission_eq_dec : EqDecision Admission.
Proof. solve_decision. Defined.

Inductive ConsumeOutcome : Type := Applied | AlreadyConsumed.
#[export] Instance consume_outcome_eq_dec : EqDecision ConsumeOutcome.
Proof. solve_decision. Defined.

Record AllocatorDocument := MkAllocatorDocument {
  ad_schema : string;
  ad_revision : N;
  ad_claims : list ResourceClaim;
  ad_operations : list OperationRecord;
  ad_tombstones : list OperationTombstone;
  ad_consumed : list ConsumedEvent;
  ad_watermark : option OperationId;
}.
#[export] Instance allocator_document_eq_dec : EqDecision AllocatorDocument.
Proof. solve_decision. Defined.

Definition AllocatorDocument_default : AllocatorDocument :=
  MkAllocatorDocument ALLOCATOR_SCHEMA 0 [] [] [] [] None.

(** Field assignments. *)
Definition set_ad_revision (v : N) (d : AllocatorDocument) :=
  MkAllocatorDocument (ad_schema d) v (ad_claims d) (ad_operations d) (ad_tombstones d)
    (ad_consumed d) (ad_watermark d).
Definition set_ad_claims (v : list ResourceClaim) (d : AllocatorDocument) :=
  MkAllocatorDocument (ad_schema d) (ad_revision d) v (ad_operations d) (ad_tombstones d)
    (ad_consumed d) (ad_watermark d).
Definition set_ad_operations (v : list OperationRecord) (d : AllocatorDocument) :=
  MkAllocatorDocument (ad_schema d) (ad_revision d) (ad_claims d) v (ad_tombstones d)
    (ad_consumed d) (ad_watermark d).
Definition set_ad_tombstones (v : list OperationTombstone) (d : AllocatorDocument) :=
  MkAllocatorDocument (ad_schema d) (ad_revision d) (ad_claims d) (ad_operations d) v
    (ad_consumed d) (ad_watermark d).
Definition set_ad_consumed (v : list ConsumedEvent) (d : AllocatorDocument) :=
  MkAllocatorDocument (ad_schema d) (ad_revision d) (ad_claims d) (ad_operations d)
    (ad_tombstones d) v (ad_watermark d).
Definition set_ad_watermark (v : option OperationId) (d : AllocatorDocument) :=
  MkAllocatorDocument (ad_schema d) (ad_revision d) (ad_claims d) (ad_operations d)
    (ad_tombstones d) (ad_consumed d) v.
Definition set_claim_state (s : ClaimState.t) (c : ResourceClaim) :=
  MkResourceClaim (rc_resource c) (rc_kind c) (rc_owner c) (rc_operation c) (rc_digest c) s
    (rc_revision c + 1).
Definition set_event_revision (v : N) (e : ConsumedEvent) :=
  MkConsumedEvent (ce_resource e) (ce_owner e) v.
Definition set_outcome (o : OperationOutcome.t) (now : N) (r : OperationRecord) :=
  MkOperationRecord (or_operation r) (or_digest r) (or_kind r) (or_owner r) (or_resource r) o
    (Some now) (or_revision r + 1).

(** The keys the lookups compare. *)
Definition claim_key (c : ResourceClaim) : TerminalId := tr_terminal_id (rc_resource c).
Definition event_key (e : ConsumedEvent) : TerminalId := tr_terminal_id (ce_resource e).

Definition precedes_or_equals (candidate watermark : OperationId) : bool :=
  str_le (as_str candidate) (as_str watermark).

Module AllocatorDocument.
Definition doc_st := st AllocatorDocument ResourceError.t.

Definition claim (d : AllocatorDocument) (resource : TerminalRef) : option ResourceClaim :=
  find_first (at_key claim_key (tr_terminal_id resource)) (ad_claims d).

Definition operation (d : AllocatorDocument) (operation : OperationId) : option OperationRecord :=
  find_first (at_key or_operation operation) (ad_operations d).

Definition tombstone (d : AllocatorDocument) (operation : OperationId)
    : option OperationTombstone :=
  find_first (at_key ot_operation operation) (ad_tombstones d).

Definition holds (c : ResourceClaim) : bool := negb (bool_decide (rc_state c = ClaimState.Released)).

Definition pool_used (d : AllocatorDocument) (kind : ResourceKind) : nat :=
  count (fun c => bool_decide (rc_kind c = kind) && holds c) (ad_claims d).

Definition owner_claims (d : AllocatorDocument) (owner : DaemonGeneration) : nat :=
  count (fun c => bool_decide (rc_owner c = owner) && holds c) (ad_claims d).

Definition consumed_revision (d : AllocatorDocument) (resource : TerminalRef) : option N :=
  ce_event_revision <$> find_first (at_key event_key (tr_terminal_id resource)) (ad_consumed d).

Definition is_expired (d : AllocatorDocument) (operation : OperationId) : bool :=
  bool_decide (is_Some (tombstone d operation)) ||
  match ad_watermark d with
  | Some watermark => precedes_or_equals operation watermark
  | None => false
  end.

(** [AllocatorDocument::admit] *)
Definition admit_ (d : AllocatorDocument) (op : OperationId) (digest : string)
    (kind : ResourceKind) (policy : CapacityPolicy) : result ResourceError.t Admission :=
  if is_expired d op then Err ResourceError.OperationExpired
  else
    match operation d op with
    | Some record =>
        if negb (bool_decide (or_digest record = digest)) then Err ResourceError.OperationConflict
        else Ok (Replay (or_resource record) (or_outcome record) (or_revision record))
    | None =>
        if (limit policy kind <=? pool_used d kind)%nat then Err ResourceError.CapacityExhausted
        else Ok Fresh
    end.

(** The loops of [validate] refuse with the same error wherever they stop. *)
Definition covered (d : AllocatorDocument) (op : OperationId) : bool :=
  match ad_watermark d with
  | Some watermark => precedes_or_equals op watermark
  | None => false
  end.

Definition claim_valid (d : AllocatorDocument) (c : ResourceClaim) : bool :=
  bool_decide (tr_daemon_generation (rc_resource c) = rc_owner c) &&
  bool_decide (is_Some (operation d (rc_operation c))).

Definition record_valid (d : AllocatorDocument) (r : OperationRecord) : bool :=
  bool_decide (tr_daemon_generation (or_resource r) = or_owner r) &&
  bool_decide (is_final (or_outcome r) = bool_decide (is_Some (or_sealed_at r))) &&
  negb (covered d (or_operation r)).

Definition validate (d : AllocatorDocument) : result ResourceError.t unit :=
  if negb (bool_decide (ad_schema d = ALLOCATOR_SCHEMA)) then Err ResourceError.UnknownSchema
  else if negb (insert_all (∅ : gset string) ((fun c => as_str (claim_key c)) <$> ad_claims d)
                && forallb (claim_valid d) (ad_claims d)) then Err ResourceError.Corrupt
  else if negb (insert_all (∅ : gset string)
                  (((fun r => as_str (or_operation r)) <$> ad_operations d) ++
                   ((fun t => as_str (ot_operation t)) <$> ad_tombstones d))
                && forallb (record_valid d) (ad_operations d)) then Err ResourceError.Corrupt
  else if negb (forallb (fun e => bool_decide (is_Some (claim d (ce_resource e)))) (ad_consumed d))
  then Err ResourceError.Corrupt
  else Ok tt.

(** [fn release] *)
Definition release (resource : TerminalRef) (d : AllocatorDocument) : AllocatorDocument :=
  match claim d resource with
  | Some c =>
      if holds c then
        set_ad_claims (update_first (at_key claim_key (tr_terminal_id resource))
                         (set_claim_state ClaimState.Released) (ad_claims d)) d
      else d
  | None => d
  end.

Definition expect_operation (d : AllocatorDocument) (op : OperationId)
    : result ResourceError.t OperationRecord :=
  ok_or (operation d op) ResourceError.UnknownOperation.

(** [fn seal] *)
Definition seal (op : OperationId) (outcome : OperationOutcome.t) (now : N) : doc_st unit := fun d =>
  match expect_operation d op with
  | Err e => (Err e, d)
  | Ok record =>
      if bool_decide (or_outcome record = outcome) then (Ok tt, d)
      else if is_final (or_outcome record) then (Err ResourceError.WrongState, d)
      else (Ok tt, set_ad_operations
                     (update_first (at_key or_operation op) (set_outcome outcome now)
                        (ad_operations d)) d)
  end.

Definition reserve (op : OperationId) (digest : string) (kind : ResourceKind)
    (owner : DaemonGeneration) (resource : TerminalRef) (policy : CapacityPolicy)
    : doc_st Admission := fun d =>
  match admit_ d op digest kind policy with
  | Err e => (Err e, d)
  | Ok admission =>
      if negb (bool_decide (admission = Fresh)) then (Ok admission, d)
      else if bool_decide (is_Some (claim d resource)) ||
              negb (bool_decide (tr_daemon_generation resource = owner))
      then (Err ResourceError.DuplicateResource, d)
      else
        let record :=
          MkOperationRecord op digest kind owner resource OperationOutcome.Reserved None 1 in
        let c := MkResourceClaim resource kind owner op digest ClaimState.Reserved 1 in
        (Ok Fresh,
         set_ad_claims (ad_claims d ++ [c])
           (set_ad_operations (ad_operations d ++ [record]) d))
  end.

(** Both finals re-read the record they sealed. *)
Definition mark_spawned (op : OperationId) (now : N) : doc_st unit :=
  seal op OperationOutcome.Spawned now ;;;
  (d <-! st_get ;;
   (record <-! st_lift (expect_operation d op) ;;
    match claim d (or_resource record) with
    | Some c =>
        if bool_decide (rc_state c = ClaimState.Reserved) then
          st_put (set_ad_claims
                    (update_first (at_key claim_key (tr_terminal_id (or_resource record)))
                       (set_claim_state ClaimState.Live) (ad_claims d)) d)
        else st_ret tt
    | None => st_ret tt
    end)).

Definition mark_failed (op : OperationId) (reason : LaunchFailure.t) (now : N) : doc_st unit :=
  seal op (OperationOutcome.Failed reason) now ;;;
  (d <-! st_get ;;
   (record <-! st_lift (expect_operation d op) ;;
    st_put (release (or_resource record) d))).

Definition mark_ambiguous (op : OperationId) (now : N) : doc_st unit :=
  seal op OperationOutcome.Ambiguous now.

Definition release_unowned (active : DaemonGeneration) (resource : TerminalRef)
    : doc_st unit := fun d =>
  match claim d resource with
  | None => (Err ResourceError.UnknownResource, d)
  | Some c =>
      if bool_decide (rc_owner c = active) then (Err ResourceError.WrongOwner, d)
      else (Ok tt, release resource d)
  end.

Definition unbacked (d : AllocatorDocument) (registered : gset DaemonGeneration)
    (backed : gset TerminalRef) : list TerminalRef :=
  rc_resource <$>
  retain (fun c =>
      match operation d (rc_operation c) with
      | Some record => negb (bool_decide (or_outcome record = OperationOutcome.Ambiguous))
      | None => true
      end)
    (retain (fun c => negb (bool_decide (rc_resource c ∈ backed)))
       (retain (fun c => negb (bool_decide (rc_owner c ∈ registered)))
          (retain holds (ad_claims d)))).

(** [fn consume_event] *)
Definition record_event (owner : DaemonGeneration) (resource : TerminalRef) (event_revision : N)
    (l : list ConsumedEvent) : list ConsumedEvent :=
  match find_first (at_key event_key (tr_terminal_id resource)) l with
  | Some _ =>
      update_first (at_key event_key (tr_terminal_id resource))
        (set_event_revision event_revision) l
  | None => l ++ [MkConsumedEvent resource owner event_revision]
  end.

Definition consume_event (owner : DaemonGeneration) (resource : TerminalRef)
    (event_revision : N) (terminal : bool) : doc_st ConsumeOutcome := fun d =>
  match claim d resource with
  | None => (Err ResourceError.UnknownResource, d)
  | Some c =>
      if negb (bool_decide (rc_owner c = owner)) then (Err ResourceError.WrongOwner, d)
      else if match consumed_revision d resource with
              | Some applied => (event_revision <=? applied)%N
              | None => false
              end
      then (Ok AlreadyConsumed, d)
      else
        let d1 := set_ad_consumed
                    (record_event owner resource event_revision (ad_consumed d)) d in
        (Ok Applied, if terminal then release resource d1 else d1)
  end.

Definition consume_progress owner resource event_revision : doc_st ConsumeOutcome :=
  consume_event owner resource event_revision false.
Definition consume_exit owner resource event_revision : doc_st ConsumeOutcome :=
  consume_event owner resource event_revision true.
End AllocatorDocument.

(** ** The allocator over its file *)
#[export] Instance allocator_cas : CasDocument AllocatorDocument ResourceError.t := {
  doc_revision := ad_revision;
  doc_bump := fun d => set_ad_revision (ad_revision d + 1) d;
  doc_validate := AllocatorDocument.validate;
}.
#[export] Instance allocator_cas_laws : CasDocumentLaws AllocatorDocument ResourceError.t.
Proof. done. Qed.

(** [ResourceAllocator::load] and [ResourceAllocator::update] *)
Section resource_allocator.
Context {Bytes : Type} `{EqDecision Bytes} `{Serde AllocatorDocument Bytes}.

Definition allocator_load
    : st (FileState Bytes) ResourceFailure (CasSnapshot AllocatorDocument Bytes) :=
  cas_load (E := ResourceError.t) AllocatorDocument_default.

Definition allocator_update {T} (change : AllocatorDocument.doc_st T)
    : st (FileState Bytes) ResourceFailure (T * CasSnapshot AllocatorDocument Bytes) :=
  cas_update_retrying AllocatorDocument_default change.
End resource_allocator.

(** ** Validity *)
Section validity.
Import AllocatorDocument.
Implicit Types (d : AllocatorDocument) (op : OperationId) (resource : TerminalRef).

Record valid d : Prop := {
  valid_schema : ad_schema d = ALLOCATOR_SCHEMA;
  valid_claims : NoDup (claim_key <$> ad_claims d);
  valid_claim : forall c, c ∈ ad_claims d ->
    tr_daemon_generation (rc_resource c) = rc_owner c /\ is_Some (operation d (rc_operation c));
  valid_operations :
    NoDup ((or_operation <$> ad_operations d) ++ (ot_operation <$> ad_tombstones d));
  valid_record : forall r, r ∈ ad_operations d ->
    tr_daemon_generation (or_resource r) = or_owner r /\
    (is_final (or_outcome r) = true <-> is_Some (or_sealed_at r)) /\
    covered d (or_operation r) = false;
  valid_consumed : forall e, e ∈ ad_consumed d -> is_Some (claim d (ce_resource e));
}.

Lemma forallb_elem {A} (p : A -> bool) l : forallb p l = true <-> forall x, x ∈ l -> p x = true.
Proof.
  rewrite forallb_forall. by setoid_rewrite list_elem_of_In.
Qed.

Lemma fmap_as_str {K A} `{AsStr K} (f : A -> K) (l : list A) :
  (fun x => as_str (f x)) <$> l = as_str <$> (f <$> l).
Proof. induction l as [|x l IH]; [done|]. by rewrite !fmap_cons, IH. Qed.

Lemma NoDup_as_str {K} `{AsStrInj K} (l : list K) : NoDup (as_str <$> l) <-> NoDup l.
Proof. apply NoDup_fmap. apply as_str_inj. Qed.

Lemma record_valid_spec d r :
  record_valid d r = true <->
  tr_daemon_generation (or_resource r) = or_owner r /\
  (is_final (or_outcome r) = true <-> is_Some (or_sealed_at r)) /\
  covered d (or_operation r) = false.
Proof.
  unfold record_valid. rewrite !andb_true_iff, !bool_decide_eq_true, negb_true_iff.
  assert (E : is_final (or_outcome r) = bool_decide (is_Some (or_sealed_at r)) <->
    (is_final (or_outcome r) = true <-> is_Some (or_sealed_at r))); [|rewrite E; tauto].
  case_bool_decide; destruct (is_final _); intuition congruence.
Qed.

Lemma allocator_validate_spec d : validate d = Ok tt <-> valid d.
Proof.
  assert (Hops : insert_all (∅ : gset string)
      (((fun r => as_str (or_operation r)) <$> ad_operations d) ++
       ((fun t => as_str (ot_operation t)) <$> ad_tombstones d)) = true <->
    NoDup ((or_operation <$> ad_operations d) ++ (ot_operation <$> ad_tombstones d))).
  { by rewrite insert_all_empty, (fmap_as_str or_operation), (fmap_as_str ot_operation),
      <- fmap_app, NoDup_as_str. }
  assert (Hkeys : insert_all (∅ : gset string) ((fun c => as_str (claim_key c)) <$> ad_claims d)
      = true <-> NoDup (claim_key <$> ad_claims d)).
  { by rewrite insert_all_empty, (fmap_as_str claim_key), NoDup_as_str. }
  assert (Hcl : forallb (claim_valid d) (ad_claims d) = true <-> forall c, c ∈ ad_claims d ->
    tr_daemon_generation (rc_resource c) = rc_owner c /\ is_Some (operation d (rc_operation c))).
  { rewrite forallb_elem. unfold claim_valid.
    by setoid_rewrite andb_true_iff; setoid_rewrite bool_decide_eq_true. }
  assert (Hr : forallb (record_valid d) (ad_operations d) = true <->
    forall r, r ∈ ad_operations d ->
    tr_daemon_generation (or_resource r) = or_owner r /\
    (is_final (or_outcome r) = true <-> is_Some (or_sealed_at r)) /\
    covered d (or_operation r) = false).
  { rewrite forallb_elem. apply forall_proper. intros r. by rewrite record_valid_spec. }
  assert (He : forallb (fun e => bool_decide (is_Some (claim d (ce_resource e)))) (ad_consumed d)
    = true <-> forall e, e ∈ ad_consumed d -> is_Some (claim d (ce_resource e))).
  { rewrite forallb_elem. by setoid_rewrite bool_decide_eq_true. }
  unfold validate. destruct (bool_decide (ad_schema d = _)) eqn:Es; simpl.
  2:{ apply bool_decide_eq_false in Es. split; [discriminate|]. by intros []. }
  apply bool_decide_eq_true in Es.
  destruct (insert_all ∅ (_ <$> _)); simpl.
  2:{ split; [discriminate|]. intros [_ Hn _ _ _ _]. by apply Hkeys in Hn. }
  destruct (forallb (claim_valid d) _); simpl.
  2:{ split; [discriminate|]. intros [_ _ Hn _ _ _]. by apply Hcl in Hn. }
  destruct (insert_all _ _); simpl.
  2:{ split; [discriminate|]. intros [_ _ _ Hn _ _]. by apply Hops in Hn. }
  destruct (forallb (record_valid d) _); simpl.
  2:{ split; [discriminate|]. intros [_ _ _ _ Hn _]. by apply Hr in Hn. }
  destruct (forallb _ _); simpl.
  2:{ split; [discriminate|]. intros [_ _ _ _ _ Hn]. by apply He in Hn. }
  split; [|done]. intros _. split; [done|by apply Hkeys|by apply Hcl|by apply Hops|by apply Hr|by apply He].
Qed.
End validity.
