(* ===== verification/Retention.v ===== *)
(** * Retention of the operation ledger
    ([crates/daemon/src/usecase/resources/retention.rs])

    Planning, applying and running the collection phases, and fitting a staged
    admission under the caps.  The serialized size of a document
    ([serde_json::to_vec(..).len()]) is a parameter. *)
From S2P Require Export Allocator.
Import AllocatorDocument.

Record RetentionLimits := MkRetentionLimits {
  max_operations : nat;
  max_bytes : nat;
  max_age : N;
  min_window : N;
  expiry_horizon : N;
}.

Definition RetentionLimits_new (max_operations max_bytes : nat)
    (max_age min_window expiry_horizon : N) : RetentionLimits :=
  MkRetentionLimits max_operations max_bytes max_age min_window (N.max expiry_horizon min_window).

Inductive GcPhase : Type :=
| Evict (operations : list OperationId)
| AdvanceWatermark (candidate : OperationId)
| Compact (operations : list OperationId).

Record GcPlan := MkGcPlan { gp_phases : list GcPhase; gp_backpressure : bool }.

Record GcReport := MkGcReport {
  gc_evicted : nat;
  gc_compacted : nat;
  gc_watermark_advanced : bool;
  gc_backpressure : bool;
}.

Definition is_evictable (d : AllocatorDocument) (op : OperationId) (limits : RetentionLimits)
    (now : N) : bool :=
  match find_first (at_key or_operation op) (ad_operations d) with
  | None => false
  | Some record =>
      if negb (is_collectable (or_outcome record)) then false
      else
        match or_sealed_at record with
        | Some sealed => (saturating_add sealed (min_window limits) <=? now)%N
        | None => false
        end &&
        match claim d (or_resource record) with
        | None => true
        | Some c => bool_decide (rc_state c = ClaimState.Released)
        end
  end.

(** [.min()] of the texts and [.max_by_key(as_str)] of the identities. *)
Definition min_text (l : list string) : option string :=
  foldl (fun acc x => match acc with
                      | None => Some x
                      | Some y => if str_le y x then Some y else Some x
                      end) None l.
Definition max_operation (l : list OperationId) : option OperationId :=
  foldl (fun acc x => match acc with
                      | None => Some x
                      | Some y => if str_le (as_str y) (as_str x) then Some x else Some y
                      end) None l.

Definition mem (x : OperationId) (l : list OperationId) : bool := bool_decide (x ∈ l).

Definition evict (op : OperationId) (limits : RetentionLimits) (now : N) : doc_st unit := fun d =>
  if bool_decide (is_Some (tombstone d op)) then (Ok tt, d)
  else if negb (is_evictable d op limits now) then (Err ResourceError.WrongState, d)
  else
    match operation d op with
    | None => (Err ResourceError.UnknownOperation, d)
    | Some record =>
        let class := match or_outcome record with
                     | OperationOutcome.Spawned => ExpiredSpawned
                     | _ => ExpiredFailed
                     end in
        let resource := as_str (tr_terminal_id (or_resource record)) in
        let d1 := set_ad_tombstones
                    (ad_tombstones d ++ [MkOperationTombstone op (or_digest record) class now]) d in
        let d2 := set_ad_operations
                    (retain (fun r => negb (bool_decide (or_operation r = op))) (ad_operations d1))
                    d1 in
        let d3 := set_ad_claims
                    (retain (fun c => negb (bool_decide (as_str (claim_key c) = resource)))
                       (ad_claims d2)) d2 in
        (Ok tt, set_ad_consumed
                  (retain (fun e => negb (bool_decide (as_str (event_key e) = resource)))
                     (ad_consumed d3)) d3)
    end.

Definition apply_phase (phase : GcPhase) (limits : RetentionLimits) (now : N) : doc_st unit :=
  match phase with
  | Evict operations => st_iter (fun op => evict op limits now) operations
  | AdvanceWatermark candidate => fun d =>
      if match ad_watermark d with
         | Some current => precedes_or_equals candidate current
         | None => false
         end
      then (Ok tt, d)
      else (Ok tt, set_ad_watermark (Some candidate) d)
  | Compact operations => fun d =>
      match ad_watermark d with
      | None => (Err ResourceError.WrongState, d)
      | Some watermark =>
          if negb (forallb (fun op => precedes_or_equals op watermark) operations)
          then (Err ResourceError.WrongState, d)
          else (Ok tt, set_ad_tombstones
                         (retain (fun t => negb (mem (ot_operation t) operations))
                            (ad_tombstones d)) d)
      end
  end.

Section planning.
Context (serialized_bytes : AllocatorDocument -> nat).

Definition retained_records (d : AllocatorDocument) : nat :=
  length (ad_operations d) + length (ad_tombstones d).

Definition over_cap (d : AllocatorDocument) (limits : RetentionLimits) : bool :=
  (max_operations limits <=? retained_records d)%nat ||
  (max_bytes limits <=? serialized_bytes d)%nat.

Definition evictable_operations (d : AllocatorDocument) (limits : RetentionLimits) (now : N)
    : list OperationId :=
  or_operation <$>
  retain (fun r => over_cap d limits ||
                   match or_sealed_at r with
                   | Some sealed => (saturating_add sealed (max_age limits) <=? now)%N
                   | None => false
                   end)
    (retain (fun r => is_evictable d (or_operation r) limits now) (ad_operations d)).

Definition live_floor (d : AllocatorDocument) (evictable : list OperationId) : option string :=
  min_text ((fun r => as_str (or_operation r)) <$>
              retain (fun r => negb (mem (or_operation r) evictable)) (ad_operations d)).

Definition watermark_candidate (d : AllocatorDocument) (evictable : list OperationId)
    : option OperationId :=
  max_operation
    (retain (fun op => match live_floor d evictable with
                       | None => true
                       | Some floor => str_lt (as_str op) floor
                       end)
       ((ot_operation <$> ad_tombstones d) ++ evictable)).

Definition advances (d : AllocatorDocument) (candidate : OperationId) : bool :=
  match ad_watermark d with
  | None => true
  | Some current => negb (bool_decide (current = candidate)) && precedes_or_equals current candidate
  end.

Definition compactable (d : AllocatorDocument) (limits : RetentionLimits) (now : N)
    (effective : option OperationId) : list OperationId :=
  ot_operation <$>
  retain (fun t => (saturating_add (ot_cutoff t) (expiry_horizon limits) <=? now)%N &&
                   match effective with
                   | Some watermark => precedes_or_equals (ot_operation t) watermark
                   | None => false
                   end) (ad_tombstones d).

Definition plan_gc (d : AllocatorDocument) (limits : RetentionLimits) (now : N) : GcPlan :=
  let evictable := evictable_operations d limits now in
  let candidate := watermark_candidate d evictable in
  let effective := match candidate with Some c => Some c | None => ad_watermark d end in
  let dropped := compactable d limits now effective in
  let phases :=
    (if bool_decide (evictable = []) then [] else [Evict evictable]) ++
    match candidate with
    | Some c => if advances d c then [AdvanceWatermark c] else []
    | None => []
    end ++
    (if bool_decide (dropped = []) then [] else [Compact dropped]) in
  MkGcPlan phases (over_cap d limits && bool_decide (length phases = 0)).

(** [u64::checked_ilog10], with fuel for the twenty digits of a [u64]. *)
Fixpoint ilog10_fuel (fuel : nat) (n : N) : nat :=
  match fuel with
  | 0 => 0
  | S fuel => if (n <? 10)%N then 0 else S (ilog10_fuel fuel (n / 10))
  end.
Definition ilog10 (n : N) : nat := ilog10_fuel 20 n.

Definition fits (d : AllocatorDocument) (limits : RetentionLimits) (growth : nat) : bool :=
  negb ((max_operations limits <? retained_records d)%nat ||
        (max_bytes limits <? serialized_bytes d + growth)%nat).

(** The [while] of [retain_for_admission]; [None] when the fuel ran out. *)
Fixpoint retain_loop (fuel : nat) (limits : RetentionLimits) (now : N) (growth : nat)
    (d : AllocatorDocument) : option (result ResourceError.t unit * AllocatorDocument) :=
  match fuel with
  | 0 => None
  | S fuel =>
      if fits d limits growth then Some (Ok tt, d)
      else
        let plan := plan_gc d limits now in
        if bool_decide (length (gp_phases plan) = 0)
        then Some (Err ResourceError.RetentionBackpressure, d)
        else
          match st_iter (fun phase => apply_phase phase limits now) (gp_phases plan) d with
          | (Err e, d') => Some (Err e, d')
          | (Ok _, d') => retain_loop fuel limits now growth d'
          end
  end.

(** The loop runs at most once per retained record and watermark move. *)
Definition retain_fuel (d : AllocatorDocument) : nat := 3 * retained_records d + 3.

Definition retain_for_admission (limits : RetentionLimits) (now : N) : doc_st unit := fun d =>
  if (U64_MAX <=? ad_revision d)%N then (Err ResourceError.WrongState, d)
  else
    let growth := ilog10 (ad_revision d + 1) - ilog10 (ad_revision d) in
    match retain_loop (retain_fuel d) limits now growth d with
    | Some r => r
    | None => (Err ResourceError.RetentionBackpressure, d)
    end.

(** ** The background pass *)
Section collection.
Context {Bytes : Type} `{EqDecision Bytes} `{Serde AllocatorDocument Bytes}.

Definition report_phase (phase : GcPhase) (r : GcReport) : GcReport :=
  match phase with
  | Evict operations =>
      MkGcReport (gc_evicted r + length operations) (gc_compacted r) (gc_watermark_advanced r)
        (gc_backpressure r)
  | AdvanceWatermark _ =>
      MkGcReport (gc_evicted r) (gc_compacted r) true (gc_backpressure r)
  | Compact operations =>
      MkGcReport (gc_evicted r) (gc_compacted r + length operations) (gc_watermark_advanced r)
        (gc_backpressure r)
  end.

Fixpoint run_phases (phases : list GcPhase) (limits : RetentionLimits) (now : N)
    (report : GcReport) : st (FileState Bytes) ResourceFailure GcReport :=
  match phases with
  | [] => st_ret report
  | phase :: phases =>
      applied <-! allocator_update (fun d =>
          let (r, d') := apply_phase phase limits now d in (Ok (is_ok r), d')) ;;
      if fst applied : bool then run_phases phases limits now (report_phase phase report)
      else st_ret report
  end.

Definition collect_garbage (limits : RetentionLimits) (now : N)
    : st (FileState Bytes) ResourceFailure GcReport :=
  snapshot <-! allocator_load ;;
  let plan := plan_gc (cs_document snapshot) limits now in
  run_phases (gp_phases plan) limits now (MkGcReport 0 0 false (gp_backpressure plan)).
End collection.
End planning.
