(* ===== verification/Ledger.v ===== *)
(** * Properties of the allocator and its ledger

    Every operation on the allocator document keeps it valid and keeps each
    claim linked to the operation it was taken for; capacity, claim states and
    replay safety are invariants of every interleaving of those operations with
    the retention phases; the retention loop terminates. *)
From S2P Require Export Retention.
Import AllocatorDocument.

Section invariant.
Implicit Types (d : AllocatorDocument) (op : OperationId) (resource : TerminalRef)
  (c : ResourceClaim).

(** Every claim is the one its operation's record names. *)
Definition linked d : Prop := forall c, c ∈ ad_claims d ->
  exists r, operation d (rc_operation c) = Some r /\
    or_resource r = rc_resource c /\ or_kind r = rc_kind c.

Record inv d : Prop := { inv_valid : valid d; inv_linked : linked d }.

Lemma operation_Some d op r : operation d op = Some r -> r ∈ ad_operations d /\ or_operation r = op.
Proof. apply kfind_Some. Qed.

Lemma claim_Some d resource c :
  claim d resource = Some c -> c ∈ ad_claims d /\ claim_key c = tr_terminal_id resource.
Proof. apply kfind_Some. Qed.

Lemma claim_self d resource c : claim d resource = Some c -> claim d (rc_resource c) = Some c.
Proof.
  intros H. destruct (claim_Some _ _ _ H) as [_ E]. unfold claim in *.
  change (tr_terminal_id (rc_resource c)) with (claim_key c). by rewrite E.
Qed.

Lemma claim_elem d c : valid d -> c ∈ ad_claims d -> claim d (rc_resource c) = Some c.
Proof. intros Hv. apply (kfind_elem claim_key), Hv. Qed.

Lemma operations_NoDup d : valid d -> NoDup (or_operation <$> ad_operations d).
Proof. intros Hv. by apply valid_operations, list.NoDup_app in Hv as [? _]. Qed.

Lemma operation_elem d r : valid d -> r ∈ ad_operations d -> operation d (or_operation r) = Some r.
Proof. intros Hv. by apply (kfind_elem or_operation), operations_NoDup. Qed.

Lemma operation_not_tombstone d op r :
  valid d -> operation d op = Some r -> tombstone d op = None.
Proof.
  intros Hv [Hr <-]%operation_Some. apply (kfind_None ot_operation).
  apply valid_operations, list.NoDup_app in Hv as (_ & Hx & _).
  apply Hx. by apply list_elem_of_fmap_2.
Qed.

Lemma claim_is_Some d resource :
  is_Some (claim d resource) <-> tr_terminal_id resource ∈ claim_key <$> ad_claims d.
Proof. symmetry. apply (kfind_is_Some claim_key). Qed.

Lemma operation_is_Some d op :
  is_Some (operation d op) <-> op ∈ or_operation <$> ad_operations d.
Proof. symmetry. apply (kfind_is_Some or_operation). Qed.

Lemma default_inv : inv AllocatorDocument_default.
Proof.
  split; [split; simpl; try apply base.NoDup_nil_2; try done|];
    intros x Hx; by apply not_elem_of_nil in Hx.
Qed.

(** *** One claim changes state *)
Definition update_claim (k : TerminalId) (s : ClaimState.t) d : AllocatorDocument :=
  set_ad_claims (update_first (at_key claim_key k) (set_claim_state s) (ad_claims d)) d.

Lemma keys_update_claim k s d : claim_key <$> ad_claims (update_claim k s d) = claim_key <$> ad_claims d.
Proof. by apply keys_update. Qed.

Lemma elem_of_update_claim k s d c :
  c ∈ ad_claims (update_claim k s d) ->
  exists c0, c0 ∈ ad_claims d /\ (c = c0 \/ c = set_claim_state s c0).
Proof.
  intros [Hc|(c0 & Hc0%find_first_Some & ->)]%elem_of_update_first; [by exists c; auto|].
  exists c0. split; [apply Hc0|by right].
Qed.

Lemma update_claim_inv k s d : inv d -> inv (update_claim k s d).
Proof.
  intros [[Hvs Hvc Hvcl Hvo Hvr Hve] Hl]. split; [split; simpl; try done|].
  - by rewrite keys_update.
  - intros c (c0 & Hc0 & Hc)%elem_of_update_claim.
    destruct (Hvcl _ Hc0). by destruct Hc as [->| ->].
  - intros e He. apply claim_is_Some. rewrite keys_update_claim. by apply claim_is_Some, Hve.
  - intros c (c0 & Hc0 & Hc)%elem_of_update_claim.
    destruct (Hl _ Hc0) as (r & ? & ? & ?). exists r. by destruct Hc as [->| ->].
Qed.

Lemma release_eq resource d :
  release resource d = d \/
  exists c, claim d resource = Some c /\ holds c = true /\
    release resource d = update_claim (tr_terminal_id resource) ClaimState.Released d.
Proof.
  unfold release. destruct (claim d resource) as [c|] eqn:Ec; [|by left].
  destruct (holds c) eqn:Eh; [|by left]. right. by exists c.
Qed.

Lemma release_inv resource d : inv d -> inv (release resource d).
Proof. intros. destruct (release_eq resource d) as [->|(c & _ & _ & ->)]; auto using update_claim_inv. Qed.

(** *** One operation is sealed *)
Definition seal_record op outcome now d : AllocatorDocument :=
  set_ad_operations (update_first (at_key or_operation op) (set_outcome outcome now)
                       (ad_operations d)) d.

Lemma seal_eq op outcome now d r d' :
  seal op outcome now d = (r, d') ->
  d' = d \/
  exists record, operation d op = Some record /\ or_outcome record = OperationOutcome.Reserved /\
    r = Ok tt /\ d' = seal_record op outcome now d.
Proof.
  unfold seal, expect_operation. destruct (operation d op) as [record|] eqn:Eo; simpl; [|by intros [= _ <-]; left].
  case_bool_decide; [by intros [= _ <-]; left|].
  destruct (is_final (or_outcome record)) eqn:Ef; [by intros [= _ <-]; left|].
  intros [= <- <-]. right. exists record. split_and!; try done.
  by apply negb_false_iff, bool_decide_eq_true in Ef.
Qed.

Lemma operation_seal op outcome now d op' :
  operation (seal_record op outcome now d) op' =
  if decide (op' = op) then set_outcome outcome now <$> operation d op' else operation d op'.
Proof. by apply kfind_update. Qed.

Lemma seal_record_inv op outcome now d :
  is_final outcome = true -> inv d -> inv (seal_record op outcome now d).
Proof.
  intros Hf [[Hvs Hvc Hvcl Hvo Hvr Hve] Hl].
  assert (Hops : or_operation <$> ad_operations (seal_record op outcome now d) =
                 or_operation <$> ad_operations d) by (by apply keys_update).
  split; [split; try done|].
  - intros c Hc. split; [by apply Hvcl|].
    apply operation_is_Some. rewrite Hops. by apply operation_is_Some, Hvcl.
  - by rewrite Hops.
  - intros r [Hr|(r0 & Hr0%find_first_Some & ->)]%elem_of_update_first; [by apply Hvr|].
    destruct (Hvr _ (proj1 Hr0)) as (? & _ & ?). simpl. split_and!; try done.
  - intros c Hc. destruct (Hl _ Hc) as (r & Hr & ? & ?).
    rewrite operation_seal, Hr. case_decide; [|by exists r].
    by exists (set_outcome outcome now r).
Qed.

Lemma seal_inv op outcome now d r d' :
  is_final outcome = true -> seal op outcome now d = (r, d') -> inv d -> inv d'.
Proof.
  intros Hf [->|(? & _ & _ & _ & ->)]%seal_eq; auto using seal_record_inv.
Qed.

(** *** The operations *)
Lemma mark_spawned_eq op now d r d' :
  mark_spawned op now d = (r, d') ->
  exists d1 r1, seal op OperationOutcome.Spawned now d = (r1, d1) /\
    (d' = d1 \/ exists record c, operation d1 op = Some record /\
       claim d1 (or_resource record) = Some c /\ rc_state c = ClaimState.Reserved /\
       d' = update_claim (tr_terminal_id (or_resource record)) ClaimState.Live d1).
Proof.
  unfold mark_spawned. intros H. st_inv H; [|exists d', (Err e); by auto].
  exists s, (Ok a). split; [done|]. unfold st_bind, st_get, st_lift, st_put, st_ret in *.
  unfold expect_operation in *. destruct (operation s op) as [record|] eqn:Eo; simpl in *; [|left; congruence].
  destruct (claim s (or_resource record)) as [c|] eqn:Ec; [|left; congruence].
  case_bool_decide; [|left; congruence]. right. exists record, c. split_and!; try done. by simplify_eq.
Qed.

Lemma mark_failed_eq op reason now d r d' :
  mark_failed op reason now d = (r, d') ->
  exists d1 r1, seal op (OperationOutcome.Failed reason) now d = (r1, d1) /\
    (d' = d1 \/ exists record, operation d1 op = Some record /\ d' = release (or_resource record) d1).
Proof.
  unfold mark_failed. intros H. st_inv H; [|exists d', (Err e); by auto].
  exists s, (Ok a). split; [done|]. unfold st_bind, st_get, st_lift, st_put in *.
  unfold expect_operation in *. destruct (operation s op) as [record|] eqn:Eo; simpl in *; [|left; congruence].
  right. exists record. split; [done|congruence].
Qed.

Lemma mark_spawned_inv op now d r d' : mark_spawned op now d = (r, d') -> inv d -> inv d'.
Proof.
  intros (d1 & r1 & Hs & H)%mark_spawned_eq Hi. eapply seal_inv in Hs; [|done..].
  destruct H as [->|(? & ? & _ & _ & _ & ->)]; auto using update_claim_inv.
Qed.

Lemma mark_failed_inv op reason now d r d' : mark_failed op reason now d = (r, d') -> inv d -> inv d'.
Proof.
  intros (d1 & r1 & Hs & H)%mark_failed_eq Hi. eapply seal_inv in Hs; [|done..].
  destruct H as [->|(? & _ & ->)]; auto using release_inv.
Qed.

(** [reserve] either replays, refuses, or appends one reserved pair. *)
Definition reserved op digest kind owner resource d : AllocatorDocument :=
  set_ad_claims
    (ad_claims d ++ [MkResourceClaim resource kind owner op digest ClaimState.Reserved 1])
    (set_ad_operations
       (ad_operations d ++
        [MkOperationRecord op digest kind owner resource OperationOutcome.Reserved None 1]) d).

Lemma admit_fresh d op digest kind policy :
  admit_ d op digest kind policy = Ok Fresh ->
  is_expired d op = false /\ operation d op = None /\ pool_used d kind < limit policy kind.
Proof.
  unfold admit_. destruct (is_expired d op); [done|].
  destruct (operation d op) as [record|]; [by case_bool_decide|].
  destruct (Nat.leb_spec (limit policy kind) (pool_used d kind)); [done|]. auto.
Qed.

Lemma reserve_eq op digest kind owner resource policy d r d' :
  reserve op digest kind owner resource policy d = (r, d') ->
  (d' = d /\ r <> Ok Fresh) \/
  (r = Ok Fresh /\ admit_ d op digest kind policy = Ok Fresh /\ claim d resource = None /\
   tr_daemon_generation resource = owner /\ d' = reserved op digest kind owner resource d).
Proof.
  unfold reserve. destruct (admit_ d op digest kind policy) as [a|e] eqn:Ea.
  2:{ intros [= <- <-]. by left. }
  case_bool_decide as Hf; simpl; [|by intros [= <- <-]; left; split; [|congruence]]. subst a.
  case_bool_decide as Hc; [intros [= <- <-]; by left|]. simpl.
  case_bool_decide as Ho; simpl; intros [= <- <-]; [|by left]. right. split_and!; try done.
  by apply eq_None_not_Some.
Qed.

Lemma operation_reserved op digest kind owner resource d op' :
  operation (reserved op digest kind owner resource d) op' =
  match operation d op' with
  | Some r => Some r
  | None => if decide (op' = op)
            then Some (MkOperationRecord op digest kind owner resource OperationOutcome.Reserved None 1)
            else None
  end.
Proof.
  unfold operation. simpl. rewrite find_first_app. destruct (find_first _ _); [done|]. simpl.
  unfold at_key. simpl. case_decide as E; [subst; by rewrite bool_decide_true|].
  by rewrite bool_decide_false by congruence.
Qed.

Lemma is_Some_operation_reserved op digest kind owner resource d op' :
  is_Some (operation d op') -> is_Some (operation (reserved op digest kind owner resource d) op').
Proof. intros [r Hr]. rewrite operation_reserved, Hr. by exists r. Qed.

Lemma reserved_inv op digest kind owner resource d :
  is_expired d op = false -> operation d op = None -> claim d resource = None ->
  tr_daemon_generation resource = owner -> inv d ->
  inv (reserved op digest kind owner resource d).
Proof.
  intros Hexp Hop Hcl Hown [[Hvs Hvc Hvcl Hvo Hvr Hve] Hl].
  apply orb_false_iff in Hexp as [Htomb%bool_decide_eq_false Hcov].
  assert (Hnew : operation (reserved op digest kind owner resource d) op =
    Some (MkOperationRecord op digest kind owner resource OperationOutcome.Reserved None 1)).
  { by rewrite operation_reserved, Hop, decide_True. }
  split; [split; simpl; try done|].
  - rewrite fmap_app. apply list.NoDup_app. split_and!; [done| |apply list.NoDup_singleton].
    intros k Hk ->%list_elem_of_singleton. by apply (kfind_None claim_key) in Hcl.
  - intros c [Hc| ->%list_elem_of_singleton]%elem_of_app.
    + destruct (Hvcl _ Hc). split; [done|]. by apply is_Some_operation_reserved.
    + split; [done|]. simpl. rewrite Hnew. by eexists.
  - rewrite fmap_app, <- app_assoc. apply (NoDup_Permutation_proper _ _
      (Permutation_middle _ _ _)). apply list.NoDup_cons. split; [|done].
    intros [H|(t & Ht & Hin)%list_elem_of_fmap]%elem_of_app.
    + by apply (kfind_None or_operation) in Hop.
    + apply Htomb, (kfind_is_Some ot_operation), list_elem_of_fmap. by exists t.
  - intros r [Hr| ->%list_elem_of_singleton]%elem_of_app; [by apply Hvr|]. simpl.
    split_and!; [done|split; [done|by intros []]|]. exact Hcov.
  - intros e He%Hve. rewrite claim_is_Some in *. simpl. rewrite fmap_app. set_solver.
  - intros c [Hc| ->%list_elem_of_singleton]%elem_of_app; [|by eexists].
    destruct (Hl _ Hc) as (r & Hr & ? & ?). exists r. by rewrite operation_reserved, Hr.
Qed.

Lemma reserve_inv op digest kind owner resource policy d r d' :
  reserve op digest kind owner resource policy d = (r, d') -> inv d -> inv d'.
Proof.
  intros [[-> _]|(_ & (? & ? & _)%admit_fresh & ? & ? & ->)]%reserve_eq; [done|].
  by apply reserved_inv.
Qed.

Lemma release_unowned_eq active resource d r d' :
  release_unowned active resource d = (r, d') -> d' = d \/ d' = release resource d.
Proof.
  unfold release_unowned. destruct (claim d resource); [|intros [= _ <-]; by left].
  case_bool_decide; intros [= _ <-]; auto.
Qed.

Lemma consume_event_eq owner resource rev terminal d r d' :
  consume_event owner resource rev terminal d = (r, d') ->
  (d' = d /\ r <> Ok Applied) \/
  (exists c, r = Ok Applied /\ claim d resource = Some c /\ rc_owner c = owner /\
   (forall a, consumed_revision d resource = Some a -> (a < rev)%N) /\
   let d1 := set_ad_consumed (record_event owner resource rev (ad_consumed d)) d in
   d' = if terminal then release resource d1 else d1).
Proof.
  unfold consume_event. destruct (claim d resource) as [c|] eqn:Ec; [|intros [= <- <-]; by left].
  case_bool_decide as Ho; simpl; [|intros [= <- <-]; by left].
  destruct (match consumed_revision d resource with Some _ => _ | None => _ end) eqn:Er;
    intros [= <- <-]; [by left|]. right. exists c. split_and!; try done.
  intros a Ha. rewrite Ha in Er. by apply N.leb_gt.
Qed.

Lemma record_event_elem owner resource rev l e :
  e ∈ record_event owner resource rev l ->
  ce_resource e = resource \/ exists e0, e0 ∈ l /\ ce_resource e = ce_resource e0.
Proof.
  unfold record_event. destruct (find_first _ _) as [e1|] eqn:E.
  - intros [?|(e0 & [? ?]%find_first_Some & ->)]%elem_of_update_first; right; eauto.
  - intros [?| ->%list_elem_of_singleton]%elem_of_app; [right; eauto|by left].
Qed.

Lemma consume_event_inv owner resource rev terminal d r d' :
  consume_event owner resource rev terminal d = (r, d') -> inv d -> inv d'.
Proof.
  intros [[-> _]|(c & _ & Hc & _ & _ & ->)]%consume_event_eq Hi; [done|].
  assert (H1 : inv (set_ad_consumed (record_event owner resource rev (ad_consumed d)) d)).
  { destruct Hi as [[Hvs Hvc Hvcl Hvo Hvr Hve] Hl]. split; [split; try done|done].
    intros e [-> |(e0 & ? & ->)]%record_event_elem; [by exists c|by apply Hve]. }
  destruct terminal; auto using release_inv.
Qed.

(** *** Collection *)
Definition evicted op (record : OperationRecord) (now : N) d : AllocatorDocument :=
  let resource := as_str (tr_terminal_id (or_resource record)) in
  let class := match or_outcome record with
               | OperationOutcome.Spawned => ExpiredSpawned
               | _ => ExpiredFailed
               end in
  MkAllocatorDocument (ad_schema d) (ad_revision d)
    (retain (fun c => negb (bool_decide (as_str (claim_key c) = resource))) (ad_claims d))
    (retain (fun r => negb (bool_decide (or_operation r = op))) (ad_operations d))
    (ad_tombstones d ++ [MkOperationTombstone op (or_digest record) class now])
    (retain (fun e => negb (bool_decide (as_str (event_key e) = resource))) (ad_consumed d))
    (ad_watermark d).

Lemma evict_eq op limits now d r d' :
  evict op limits now d = (r, d') ->
  (d' = d /\ (is_ok r = true -> is_Some (tombstone d op))) \/
  exists record, operation d op = Some record /\ tombstone d op = None /\
    is_evictable d op limits now = true /\ r = Ok tt /\ d' = evicted op record now d.
Proof.
  unfold evict. case_bool_decide as Ht; [intros [= <- <-]; by left|].
  destruct (is_evictable d op limits now) eqn:Ee; simpl; [|intros [= <- <-]; by left].
  destruct (operation d op) as [record|] eqn:Eo; [|intros [= <- <-]; by left].
  intros [= <- <-]. right. exists record. split_and!; try done. by apply eq_None_not_Some.
Qed.

Lemma retained_key {K A} `{AsStrInj K} (key : A -> K) k x :
  negb (bool_decide (as_str (key x) = as_str k)) = true <-> key x <> k.
Proof.
  rewrite negb_true_iff, bool_decide_eq_false. split; intros Hn E; apply Hn; [congruence|].
  by apply as_str_inj.
Qed.

Lemma claim_evicted op record now d resource :
  tr_terminal_id resource <> tr_terminal_id (or_resource record) ->
  claim (evicted op record now d) resource = claim d resource.
Proof.
  intros Hne. apply (kfind_retain claim_key). intros c _ E.
  apply (retained_key claim_key). rewrite E. exact Hne.
Qed.

Lemma operation_evicted op record now d op' :
  op' <> op -> operation (evicted op record now d) op' = operation d op'.
Proof.
  intros Hne. apply (kfind_retain or_operation). intros r _ E.
  apply negb_true_iff, bool_decide_eq_false. congruence.
Qed.

Lemma elem_of_evicted_claim op record now d c :
  c ∈ ad_claims (evicted op record now d) <->
  c ∈ ad_claims d /\ claim_key c <> tr_terminal_id (or_resource record).
Proof. simpl. rewrite elem_of_retain. by rewrite (retained_key claim_key). Qed.

Lemma evicted_inv op record now d :
  operation d op = Some record -> tombstone d op = None -> inv d -> inv (evicted op record now d).
Proof.
  intros Hop Ht [[Hvs Hvc Hvcl Hvo Hvr Hve] Hl].
  assert (Hother : forall c, c ∈ ad_claims (evicted op record now d) ->
    c ∈ ad_claims d /\ rc_operation c <> op).
  { intros c [Hc Hk]%elem_of_evicted_claim. split; [done|]. intros E.
    destruct (Hl _ Hc) as (r & Hr & Hres & _). rewrite E, Hop in Hr. simplify_eq.
    by rewrite Hres in Hk. }
  apply list.NoDup_app in Hvo as (Ho1 & Ho2 & Ho3).
  split; [split; simpl; try done|].
  - by apply NoDup_keys_retain.
  - intros c [Hc Hne]%Hother. rewrite operation_evicted by done. by apply Hvcl.
  - rewrite fmap_app. apply list.NoDup_app. split_and!; [by apply NoDup_keys_retain| |].
    + intros k (r & -> & [Hr Hne]%elem_of_retain)%list_elem_of_fmap.
      intros [H|E%list_elem_of_singleton]%elem_of_app.
      * eapply Ho2; [|exact H]. by apply list_elem_of_fmap_2.
      * by rewrite bool_decide_true in Hne.
    + apply list.NoDup_app. split_and!; [done| |apply list.NoDup_singleton].
      intros k Hk ->%list_elem_of_singleton. by apply (kfind_None ot_operation) in Ht.
  - intros r [Hr _]%elem_of_retain. by apply Hvr.
  - intros e [He Hk]%elem_of_retain. apply (retained_key event_key) in Hk.
    rewrite claim_evicted by done. by apply Hve.
  - intros c [Hc Hne]%Hother. rewrite operation_evicted by done. by apply Hl.
Qed.

Lemma evict_inv op limits now d r d' : evict op limits now d = (r, d') -> inv d -> inv d'.
Proof. intros [[-> _]|(record & ? & ? & _ & _ & ->)]%evict_eq ?; auto using evicted_inv. Qed.

Lemma evict_all_inv ops limits now d r d' :
  st_iter (fun op => evict op limits now) ops d = (r, d') -> inv d -> inv d'.
Proof. apply st_iter_preserves. intros x s r0 s' _. apply evict_inv. Qed.

Definition compacted (ops : list OperationId) d : AllocatorDocument :=
  set_ad_tombstones (retain (fun t => negb (mem (ot_operation t) ops)) (ad_tombstones d)) d.

Lemma compacted_inv ops d : inv d -> inv (compacted ops d).
Proof.
  intros [[Hvs Hvc Hvcl Hvo Hvr Hve] Hl]. split; [split; try done|done].
  eapply sublist_NoDup; [exact Hvo|]. apply sublist_app; [done|].
  apply fmap_sublist, sublist_retain.
Qed.

(** A new watermark must not cover an operation that is still recorded. *)
Lemma advance_inv candidate d :
  (forall r, r ∈ ad_operations d -> precedes_or_equals (or_operation r) candidate = false) ->
  inv d -> inv (set_ad_watermark (Some candidate) d).
Proof.
  intros Hc [[Hvs Hvc Hvcl Hvo Hvr Hve] Hl]. split; [split; try done|done].
  intros r Hr. destruct (Hvr _ Hr) as (? & ? & _). split_and!; try done. by apply Hc.
Qed.

Lemma compact_eq ops limits now d r d' :
  apply_phase (Compact ops) limits now d = (r, d') ->
  (d' = d /\ is_ok r = false) \/
  exists w, ad_watermark d = Some w /\ r = Ok tt /\ d' = compacted ops d /\
    forall op, op ∈ ops -> precedes_or_equals op w = true.
Proof.
  simpl. destruct (ad_watermark d) as [w|] eqn:Ew; [|intros [= <- <-]; by left].
  destruct (forallb _ _) eqn:Ef; simpl; intros [= <- <-]; [|by left].
  right. exists w. split_and!; try done. by apply forallb_elem.
Qed.

Lemma advance_eq candidate limits now d r d' :
  apply_phase (AdvanceWatermark candidate) limits now d = (r, d') ->
  r = Ok tt /\
  ((d' = d /\ exists w, ad_watermark d = Some w /\ precedes_or_equals candidate w = true) \/
   (d' = set_ad_watermark (Some candidate) d /\
    forall w, ad_watermark d = Some w -> precedes_or_equals w candidate = true)).
Proof.
  simpl. destruct (ad_watermark d) as [w|]; [|intros [= <- <-]; split; [done|right; by split]].
  destruct (precedes_or_equals candidate w) eqn:Ep; intros [= <- <-]; split; eauto.
  right. split; [done|]. intros w' [= <-]. unfold precedes_or_equals in *.
  destruct (str_le_total (as_str candidate) (as_str w)); congruence.
Qed.
End invariant.

(** ** Everything that is ever done to the document

    The commands the writers run, each on the document the store loaded; a
    collection phase may have been planned on any older document. *)
Inductive LedgerOp : Type :=
| OpReserve (op : OperationId) (digest : string) (kind : ResourceKind)
    (owner : DaemonGeneration) (resource : TerminalRef)
| OpSpawned (op : OperationId) (now : N)
| OpFailed (op : OperationId) (reason : LaunchFailure.t) (now : N)
| OpAmbiguous (op : OperationId) (now : N)
| OpReleaseUnowned (active : DaemonGeneration) (resource : TerminalRef)
| OpConsume (owner : DaemonGeneration) (resource : TerminalRef) (event_revision : N) (terminal : bool)
| OpPhase (phase : GcPhase) (limits : RetentionLimits) (now : N)
| OpBump.

Definition ledger_apply (policy : CapacityPolicy) (o : LedgerOp) (d : AllocatorDocument)
    : AllocatorDocument :=
  match o with
  | OpReserve op digest kind owner resource => snd (reserve op digest kind owner resource policy d)
  | OpSpawned op now => snd (mark_spawned op now d)
  | OpFailed op reason now => snd (mark_failed op reason now d)
  | OpAmbiguous op now => snd (mark_ambiguous op now d)
  | OpReleaseUnowned active resource => snd (release_unowned active resource d)
  | OpConsume owner resource rev terminal => snd (consume_event owner resource rev terminal d)
  | OpPhase phase limits now => snd (apply_phase phase limits now d)
  | OpBump => set_ad_revision (ad_revision d + 1) d
  end.

Definition ledger_run (policy : CapacityPolicy) (ops : list LedgerOp) (d : AllocatorDocument)
    : AllocatorDocument := foldl (fun d o => ledger_apply policy o d) d ops.

Lemma ledger_run_invariant (P : AllocatorDocument -> Prop) policy ops d :
  (forall o d, P d -> P (ledger_apply policy o d)) -> P d -> P (ledger_run policy ops d).
Proof.
  intros Hs. revert d. induction ops as [|o ops IH]; intros d Hd; [done|]. apply IH, Hs, Hd.
Qed.

(** What a command may do to the records: seal one, append a fresh one, or
    collect some. *)
Section effects.
Implicit Types (d : AllocatorDocument) (op : OperationId).

(** The sub-documents a command goes through. *)
Inductive micro (policy : CapacityPolicy) : AllocatorDocument -> AllocatorDocument -> Prop :=
| micro_bump d : micro policy d (set_ad_revision (ad_revision d + 1) d)
| micro_claim d c s :
    c ∈ ad_claims d -> claim d (rc_resource c) = Some c -> s <> ClaimState.Reserved ->
    (rc_state c = ClaimState.Reserved \/ (rc_state c = ClaimState.Live /\ s = ClaimState.Released)) ->
    micro policy d (update_claim (claim_key c) s d)
| micro_seal d op outcome now record :
    operation d op = Some record -> or_outcome record = OperationOutcome.Reserved ->
    is_final outcome = true -> micro policy d (seal_record op outcome now d)
| micro_reserve d op digest kind owner resource :
    admit_ d op digest kind policy = Ok Fresh -> claim d resource = None ->
    tr_daemon_generation resource = owner ->
    micro policy d (reserved op digest kind owner resource d)
| micro_consumed d owner resource rev c :
    claim d resource = Some c ->
    micro policy d (set_ad_consumed (record_event owner resource rev (ad_consumed d)) d)
| micro_evict d op limits now record :
    operation d op = Some record -> tombstone d op = None -> is_evictable d op limits now = true ->
    micro policy d (evicted op record now d)
| micro_compact d ops w :
    ad_watermark d = Some w -> (forall op, op ∈ ops -> precedes_or_equals op w = true) ->
    micro policy d (compacted ops d)
| micro_advance d candidate :
    (forall w, ad_watermark d = Some w -> precedes_or_equals w candidate = true) ->
    micro policy d (set_ad_watermark (Some candidate) d).

Lemma release_micro policy resource d : rtc (micro policy) d (release resource d).
Proof.
  destruct (release_eq resource d) as [->|(c & Hc & Hh & ->)]; [done|].
  destruct (claim_Some _ _ _ Hc) as [Hin Hk]. rewrite <- Hk. apply rtc_once.
  eapply micro_claim; [done| |done|].
  - by eapply claim_self.
  - unfold holds in Hh. destruct (rc_state c); auto. done.
Qed.

Lemma seal_micro policy op outcome now d r d' :
  is_final outcome = true -> seal op outcome now d = (r, d') -> rtc (micro policy) d d'.
Proof.
  intros Hf [->|(record & ? & ? & _ & ->)]%seal_eq; [done|]. apply rtc_once.
  by eapply micro_seal.
Qed.

Lemma evict_all_micro policy ops limits now d r d' :
  st_iter (fun op => evict op limits now) ops d = (r, d') -> rtc (micro policy) d d'.
Proof.
  intros H. eapply (st_iter_preserves (rtc (micro policy) d)); [|exact H|done].
  intros op s r0 s' _ He Hs. etransitivity; [exact Hs|].
  apply evict_eq in He as [[-> _]|(record & ? & ? & ? & _ & ->)]; [done|].
  apply rtc_once. by eapply micro_evict.
Qed.

Lemma phase_micro policy phase limits now d r d' :
  apply_phase phase limits now d = (r, d') -> rtc (micro policy) d d'.
Proof.
  destruct phase as [ops|candidate|ops].
  - apply evict_all_micro.
  - intros [_ [[-> _]|[-> ?]]]%advance_eq; [done|]. by apply rtc_once, micro_advance.
  - intros [[-> _]|(w & ? & _ & -> & ?)]%compact_eq; [done|]. by eapply rtc_once, micro_compact.
Qed.

Lemma ledger_micro policy o d : rtc (micro policy) d (ledger_apply policy o d).
Proof.
  destruct o; simpl.
  - destruct (reserve _ _ _ _ _ _ _) as [r d'] eqn:E. simpl.
    apply reserve_eq in E as [[-> _]|(_ & ? & ? & ? & ->)]; [done|]. by apply rtc_once, micro_reserve.
  - destruct (mark_spawned _ _ _) as [r d'] eqn:E. simpl.
    apply mark_spawned_eq in E as (d1 & r1 & Hs & H).
    eapply seal_micro in Hs; [|done]. etransitivity; [exact Hs|].
    destruct H as [->|(record & c & Ho & Hc & Hst & ->)]; [done|].
    destruct (claim_Some _ _ _ Hc) as [Hin Hk]. rewrite <- Hk. apply rtc_once.
    eapply micro_claim; [done| |done|by left]. by eapply claim_self.
  - destruct (mark_failed _ _ _ _) as [r d'] eqn:E. simpl.
    apply mark_failed_eq in E as (d1 & r1 & Hs & H).
    eapply seal_micro in Hs; [|done]. etransitivity; [exact Hs|].
    destruct H as [->|(record & _ & ->)]; [done|]. apply release_micro.
  - destruct (mark_ambiguous _ _ _) as [r d'] eqn:E. simpl. eapply seal_micro; [|exact E]. done.
  - destruct (release_unowned _ _ _) as [r d'] eqn:E. simpl.
    apply release_unowned_eq in E as [->| ->]; [done|apply release_micro].
  - destruct (consume_event _ _ _ _ _) as [r d'] eqn:E. simpl.
    apply consume_event_eq in E as [[-> _]|(c & _ & ? & _ & _ & ->)]; [done|].
    eapply rtc_l; [by eapply micro_consumed|]. destruct terminal; [apply release_micro|done].
  - destruct (apply_phase _ _ _ _) as [r d'] eqn:E. simpl. by eapply phase_micro.
  - apply rtc_once, micro_bump.
Qed.

Lemma micro_invariant (P : AllocatorDocument -> Prop) policy ops d :
  (forall d d', micro policy d d' -> P d -> P d') -> P d -> P (ledger_run policy ops d).
Proof.
  intros Hm. apply ledger_run_invariant. intros o d0 Hd.
  pose proof (ledger_micro policy o d0) as H. revert Hd. induction H as [|x y z Hxy _ IH]; [done|].
  intros Hd. apply IH. by eapply Hm.
Qed.
End effects.

(** ** Capacity *)
Section capacity.
Implicit Types (d : AllocatorDocument) (op : OperationId).

Lemma pool_used_claim kind c s d :
  claim d (rc_resource c) = Some c ->
  (rc_state c = ClaimState.Reserved \/ (rc_state c = ClaimState.Live /\ s = ClaimState.Released)) ->
  pool_used (update_claim (claim_key c) s d) kind <= pool_used d kind.
Proof.
  intros Hc Hst. unfold pool_used, update_claim. simpl.
  pose proof (count_update_first (fun c => bool_decide (rc_kind c = kind) && holds c)
    (at_key claim_key (claim_key c)) (set_claim_state s) (ad_claims d) c Hc) as H.
  simpl in H. unfold holds in *. simpl in *. revert H.
  destruct Hst as [-> |[-> ->]]; destruct (bool_decide (rc_kind c = kind)); simpl;
    repeat case_bool_decide; simpl; lia.
Qed.

Lemma pool_used_reserved op digest kind owner resource d k :
  pool_used (reserved op digest kind owner resource d) k =
  pool_used d k + if bool_decide (kind = k) then 1 else 0.
Proof.
  unfold pool_used. simpl. rewrite count_app, count_cons. unfold holds. simpl.
  rewrite andb_true_r. unfold count. simpl. lia.
Qed.

Lemma micro_capacity policy d d' :
  micro policy d d' -> (forall k, pool_used d k <= limit policy k) ->
  forall k, pool_used d' k <= limit policy k.
Proof.
  intros Hm Hd k. specialize (Hd k). destruct Hm; simpl; try exact Hd.
  - pose proof (pool_used_claim k c s d). etransitivity; [|exact Hd]. auto.
  - rewrite pool_used_reserved. apply admit_fresh in H as (_ & _ & H).
    case_bool_decide; subst; lia.
  - etransitivity; [|exact Hd]. apply count_retain_le.
Qed.

(** Capacity is never exceeded.  Whatever the writers do and in whatever order -
    reservations, finals, releases, consumed events, collection phases planned on
    any older document - no pool ever holds more than its limit; pools are
    independent; and a fresh reservation is refused for capacity exactly when its
    own pool is full. *)
Theorem capacity_never_exceeded policy ops kind :
  let d := ledger_run policy ops AllocatorDocument_default in
  pool_used d kind <= limit policy kind /\
  forall op digest owner resource,
    is_expired d op = false -> operation d op = None -> claim d resource = None ->
    tr_daemon_generation resource = owner ->
    let (r, d') := reserve op digest kind owner resource policy d in
    if (pool_used d kind <? limit policy kind)%nat
    then r = Ok Fresh /\ pool_used d' kind = pool_used d kind + 1 /\
         forall k, k <> kind -> pool_used d' k = pool_used d k
    else r = Err ResourceError.CapacityExhausted /\ d' = d.
Proof.
  intros d. split.
  - revert kind. subst d. apply (micro_invariant (fun d => forall kind, pool_used d kind <= limit policy kind) policy);
      [apply micro_capacity|].
    intros k. apply Nat.le_0_l.
  - intros op digest owner resource He Ho Hc Hg. unfold reserve, admit_. rewrite He, Ho.
    destruct (Nat.ltb_spec (pool_used d kind) (limit policy kind)) as [Hlt|Hle].
    + rewrite (proj2 (Nat.leb_gt _ _)) by done. simpl. rewrite Hc, bool_decide_false by by intros [].
      rewrite bool_decide_true by done. simpl.
      split_and!; [done| |].
      * rewrite (pool_used_reserved op digest kind owner resource d).
        by rewrite bool_decide_true.
      * intros k Hk. rewrite (pool_used_reserved op digest kind owner resource d).
        rewrite bool_decide_false by done. lia.
    + by rewrite (proj2 (Nat.leb_le _ _)).
Qed.
End capacity.

(** ** Replay safety *)
Section replay.
Implicit Types (d : AllocatorDocument) (op : OperationId) (record : OperationRecord).

Definition same_intent record record' : Prop :=
  or_operation record' = or_operation record /\ or_digest record' = or_digest record /\
  or_kind record' = or_kind record /\ or_owner record' = or_owner record /\
  or_resource record' = or_resource record.

(** The document still answers for [record]'s operation. *)
Definition remembered record d : Prop :=
  match operation d (or_operation record) with
  | Some record' =>
      same_intent record record' /\ (is_final (or_outcome record) = true -> record' = record)
  | None => is_expired d (or_operation record) = true
  end.

Lemma precedes_trans a b c :
  precedes_or_equals a b = true -> precedes_or_equals b c = true -> precedes_or_equals a c = true.
Proof. apply str_le_trans. Qed.

Lemma is_expired_spec d op :
  is_expired d op = true <->
  is_Some (tombstone d op) \/
  exists w, ad_watermark d = Some w /\ precedes_or_equals op w = true.
Proof.
  unfold is_expired. rewrite orb_true_iff, bool_decide_eq_true.
  destruct (ad_watermark d) as [w|]; naive_solver.
Qed.

Lemma tombstone_app d op t :
  is_Some (tombstone d op) ->
  is_Some (find_first (at_key ot_operation op) (ad_tombstones d ++ [t])).
Proof. intros [x Hx]. unfold tombstone in Hx. rewrite find_first_app, Hx. by exists x. Qed.

Lemma micro_expired policy d d' op :
  micro policy d d' -> is_expired d op = true -> is_expired d' op = true.
Proof.
  rewrite !is_expired_spec. intros Hm [Ht|(w & Hw & Hp)]; destruct Hm; simpl in *; eauto.
  - left. by apply tombstone_app.
  - destruct (decide (op ∈ ops)) as [Hin|Hin].
    + right. exists w. split; [done|auto].
    + left. unfold tombstone, compacted. simpl. rewrite (kfind_retain ot_operation); [done|].
      intros t _ <-. apply negb_true_iff, bool_decide_eq_false. done.
  - right. exists candidate. split; [done|]. eapply precedes_trans; eauto.
Qed.

Lemma operation_evicted_self op record now d : operation (evicted op record now d) op = None.
Proof.
  apply (kfind_None or_operation). intros (r & -> & [_ Hr]%elem_of_retain)%list_elem_of_fmap.
  by rewrite bool_decide_true in Hr.
Qed.

Lemma expired_evicted op record now d : is_expired (evicted op record now d) op = true.
Proof.
  apply is_expired_spec. left. unfold tombstone. simpl. rewrite find_first_app.
  destruct (find_first _ _); [by eexists|]. simpl. unfold at_key. simpl.
  rewrite bool_decide_true by done. by eexists.
Qed.

Lemma same_operation_kept record d d' :
  operation d' (or_operation record) = operation d (or_operation record) ->
  (is_expired d (or_operation record) = true -> is_expired d' (or_operation record) = true) ->
  remembered record d -> remembered record d'.
Proof.
  intros Ho He. unfold remembered. rewrite Ho. by destruct (operation d _).
Qed.

Lemma micro_remembered policy record d d' :
  micro policy d d' -> remembered record d -> remembered record d'.
Proof.
  intros Hm Hr. pose proof (micro_expired _ _ _ (or_operation record) Hm) as Hexp.
  destruct Hm;
    try (apply (same_operation_kept record d); [reflexivity|exact Hexp|exact Hr]).
  - unfold remembered in *. rewrite operation_seal. case_decide as E; [subst op|].
    2:{ destruct (operation d (or_operation record)); [exact Hr|exact (Hexp Hr)]. }
    rewrite H in *. simpl. destruct Hr as [(E1 & E2 & E3 & E4 & E5) Hf]. split; [done|].
    intros Hfin. rewrite <- Hf in Hfin by done. by rewrite H0 in Hfin.
  - unfold remembered in *. rewrite operation_reserved.
    destruct (operation d (or_operation record)) eqn:Eo; [done|].
    apply admit_fresh in H as (Hne & _ & _). case_decide; [congruence|exact (Hexp Hr)].
  - unfold remembered in *. destruct (decide (or_operation record = op)) as [E|E].
    2:{ rewrite operation_evicted by done. destruct (operation d (or_operation record)); [exact Hr|exact (Hexp Hr)]. }
    rewrite E, operation_evicted_self. apply expired_evicted.
Qed.

(** C20: An operation is never admitted twice.  Once the ledger has recorded an
    operation, then whatever all writers and collectors do afterwards, in any
    order, it is never admitted as fresh again - not even after its record, its
    tombstone and the watermark's history are compacted: a retry is answered with
    the same resource for the same intent, with the recorded final verbatim once
    there was one, or refused as expired; another intent is refused. *)
Theorem operation_never_readmitted policy ops d record :
  operation d (or_operation record) = Some record ->
  let d' := ledger_run policy ops d in
  forall digest kind policy',
    match admit_ d' (or_operation record) digest kind policy' with
    | Ok Fresh => False
    | Ok (Replay resource outcome revision) =>
        digest = or_digest record /\ resource = or_resource record /\
        (is_final (or_outcome record) = true ->
         outcome = or_outcome record /\ revision = or_revision record)
    | Err e =>
        e = ResourceError.OperationExpired \/
        (e = ResourceError.OperationConflict /\ digest <> or_digest record)
    end.
Proof.
  intros Ho d' digest kind policy'.
  assert (Hr : remembered record d').
  { apply (micro_invariant _ policy); [intros ?? Hm; by eapply micro_remembered|].
    unfold remembered. by rewrite Ho. }
  unfold remembered in Hr. unfold admit_. destruct (is_expired d' _); [by left|].
  destruct (operation d' _) as [record'|]; [|done].
  destruct Hr as [(E1 & E2 & E3 & E4 & E5) Hf]. rewrite E2.
  destruct (bool_decide _) eqn:Ed; simpl.
  - apply bool_decide_eq_true in Ed. split_and!; [done|done|].
    intros Hfin. by rewrite (Hf Hfin).
  - apply bool_decide_eq_false in Ed. right. split; [done|congruence].
Qed.
End replay.

(** ** Claims *)
Section claims.
Implicit Types (d : AllocatorDocument) (op : OperationId) (c : ResourceClaim).

(** What every document keeps, whatever collection phase ran on it. *)
Record sound d : Prop := {
  sound_resources : NoDup (claim_key <$> ad_claims d);
  sound_operations : NoDup (rc_operation <$> ad_claims d);
  sound_linked : linked d;
  sound_backed : forall r, r ∈ ad_operations d -> exists c, c ∈ ad_claims d /\
    rc_operation c = or_operation r /\ rc_resource c = or_resource r;
}.

Lemma default_sound : sound AllocatorDocument_default.
Proof.
  split; try apply base.NoDup_nil_2; intros c Hc; by apply not_elem_of_nil in Hc.
Qed.

Lemma linked_update_claim k s d : linked d -> linked (update_claim k s d).
Proof.
  intros Hl c (c0 & Hc0 & Hc)%elem_of_update_claim. destruct (Hl _ Hc0) as (r & ? & ? & ?).
  exists r. by destruct Hc as [->| ->].
Qed.

(** A claim of a record's resource is the record's claim. *)
Lemma claim_of_record d op record c :
  sound d -> operation d op = Some record -> c ∈ ad_claims d ->
  (claim_key c = tr_terminal_id (or_resource record) <-> rc_operation c = op).
Proof.
  intros Hs Hop Hc. split.
  - intros E. destruct (operation_Some _ _ _ Hop) as [Hr <-].
    destruct (sound_backed _ Hs _ Hr) as (c1 & Hc1 & <- & Hres).
    rewrite (keys_inj claim_key (ad_claims d) c c1); [done|apply Hs|done|done|].
    unfold claim_key in *. by rewrite Hres.
  - intros E. destruct (sound_linked _ Hs _ Hc) as (r & Hr & Hres & _).
    rewrite E, Hop in Hr. simplify_eq. unfold claim_key. by rewrite Hres.
Qed.

Lemma sound_elem_of_evicted op record now d c :
  sound d -> operation d op = Some record ->
  c ∈ ad_claims (evicted op record now d) <-> c ∈ ad_claims d /\ rc_operation c <> op.
Proof.
  intros Hs Hop. rewrite elem_of_evicted_claim. split; intros [Hc Hk]; (split; [done|]);
    intros E; apply Hk; by apply (claim_of_record d op record c).
Qed.

Lemma sound_update_claim k s d : sound d -> sound (update_claim k s d).
Proof.
  intros [Hk Ho Hl Hb]. split; simpl; [by rewrite keys_update|by rewrite fmap_update_first
    |by apply linked_update_claim|].
  intros r Hr. destruct (Hb _ Hr) as (c & Hc & Eo & Er).
  assert (Hin : (rc_operation c, rc_resource c) ∈
    (fun c => (rc_operation c, rc_resource c)) <$> ad_claims (update_claim k s d)).
  { unfold update_claim. simpl. rewrite fmap_update_first by done.
    by apply (list_elem_of_fmap_2 (fun c => (rc_operation c, rc_resource c))). }
  apply list_elem_of_fmap in Hin as (c' & [= E1 E2] & Hc'). exists c'. split; [done|]. split; congruence.
Qed.

Lemma sound_seal op outcome now d : sound d -> sound (seal_record op outcome now d).
Proof.
  intros [Hk Ho Hl Hb]. split; [done|done|..].
  - intros c Hc. destruct (Hl _ Hc) as (r & Hr & ? & ?).
    rewrite operation_seal, Hr. case_decide; [|by exists r]. by exists (set_outcome outcome now r).
  - intros r [Hr|(r0 & [Hr _]%find_first_Some & ->)]%elem_of_update_first; exact (Hb _ Hr).
Qed.

Lemma sound_reserved op digest kind owner resource d :
  operation d op = None -> claim d resource = None -> sound d ->
  sound (reserved op digest kind owner resource d).
Proof.
  intros Hop Hcl [Hk Ho Hl Hb]. split; simpl.
  - rewrite fmap_app. apply list.NoDup_app. split_and!; [done| |apply list.NoDup_singleton].
    intros k Hin ->%list_elem_of_singleton. by apply (kfind_None claim_key) in Hcl.
  - rewrite fmap_app. apply list.NoDup_app. split_and!; [done| |apply list.NoDup_singleton].
    intros k (c & -> & Hc)%list_elem_of_fmap Ek%list_elem_of_singleton. simpl in Ek.
    destruct (Hl _ Hc) as (r & Hr & _). rewrite Ek in Hr. congruence.
  - intros c [Hc| ->%list_elem_of_singleton]%elem_of_app.
    + destruct (Hl _ Hc) as (r & Hr & ? & ?). exists r. by rewrite operation_reserved, Hr.
    + eexists. rewrite operation_reserved. simpl. rewrite Hop, decide_True by done. done.
  - intros r [Hr| ->%list_elem_of_singleton]%elem_of_app.
    + destruct (Hb _ Hr) as (c & ? & ? & ?). exists c. set_solver.
    + eexists. split; [by apply elem_of_app; right; left|done].
Qed.

Lemma sound_evicted op record now d :
  operation d op = Some record -> sound d -> sound (evicted op record now d).
Proof.
  intros Hop Hs. pose proof (sound_elem_of_evicted op record now d) as Hev.
  pose proof Hs as [Hk Ho Hl Hb]. split; [by apply NoDup_keys_retain..| |].
  - intros c [Hin Hne]%Hev; [|done..]. rewrite operation_evicted by done. by apply Hl.
  - intros r [Hr Hne]%elem_of_retain. destruct (Hb _ Hr) as (c & Hc & Eo & Er). exists c.
    split; [|done]. apply Hev; [done..|]. split; [done|]. rewrite Eo.
    by apply negb_true_iff, bool_decide_eq_false in Hne.
Qed.

Lemma micro_sound policy d d' : micro policy d d' -> sound d -> sound d'.
Proof.
  intros [ | | | d0 op ??????? | | | | ] Hs;
    auto using sound_update_claim, sound_seal, sound_evicted;
    try (destruct Hs; split; done).
  apply sound_reserved; [|done..]. by eapply admit_fresh.
Qed.

Definition rank (s : ClaimState.t) : nat :=
  match s with ClaimState.Reserved => 0 | ClaimState.Live => 1 | ClaimState.Released => 2 end.

(** [c'] is [c], possibly advanced. *)
Definition advanced c c' : Prop :=
  rc_operation c' = rc_operation c /\ rc_resource c' = rc_resource c /\
  rc_kind c' = rc_kind c /\ rc_owner c' = rc_owner c /\
  (c' = c \/ rank (rc_state c) < rank (rc_state c')).

(** The claim [c] is still there, or its operation expired with it. *)
Definition tracked c d : Prop :=
  (exists c', c' ∈ ad_claims d /\ advanced c c') \/
  (is_expired d (rc_operation c) = true /\ operation d (rc_operation c) = None /\
   forall c', c' ∈ ad_claims d -> rc_operation c' <> rc_operation c).

Lemma micro_tracked_gone policy c d d' :
  micro policy d d' ->
  is_expired d (rc_operation c) = true -> operation d (rc_operation c) = None ->
  (forall c', c' ∈ ad_claims d -> rc_operation c' <> rc_operation c) ->
  operation d' (rc_operation c) = None /\
  forall c', c' ∈ ad_claims d' -> rc_operation c' <> rc_operation c.
Proof.
  intros Hm He Ho Hc. destruct Hm; try (split; [exact Ho|exact Hc]).
  - split; [done|]. intros c' (c1 & Hc1 & [->| ->])%elem_of_update_claim; exact (Hc _ Hc1).
  - rewrite operation_seal, Ho. by case_decide.
  - apply admit_fresh in H as (Hf & _ & _). rewrite operation_reserved, Ho.
    case_decide; [congruence|]. split; [done|].
    intros c' [?| ->%list_elem_of_singleton]%elem_of_app; [by apply Hc|done].
  - split.
    + apply (kfind_None or_operation). apply (kfind_None or_operation) in Ho.
      intros (r & E & [? _]%elem_of_retain)%list_elem_of_fmap. apply Ho. rewrite E.
      by apply list_elem_of_fmap_2.
    + intros c' [? _]%elem_of_evicted_claim. by apply Hc.
Qed.

Lemma evictable_released d op limits now record :
  operation d op = Some record -> is_evictable d op limits now = true ->
  is_collectable (or_outcome record) = true /\
  (exists sealed, or_sealed_at record = Some sealed /\
     (saturating_add sealed (min_window limits) <= now)%N) /\
  forall c, claim d (or_resource record) = Some c -> rc_state c = ClaimState.Released.
Proof.
  intros Ho. unfold is_evictable. unfold operation in Ho. rewrite Ho.
  destruct (is_collectable _); simpl; [|done].
  destruct (or_sealed_at record) as [sealed|]; [|done]. intros [Hw Hc]%andb_true_iff.
  split; [done|]. split; [exists sealed; split; [done|by apply N.leb_le]|].
  intros c Hcl. rewrite Hcl in Hc. by apply bool_decide_eq_true in Hc.
Qed.

Lemma advanced_state c c' s :
  rank (rc_state c') < rank s -> advanced c c' -> advanced c (set_claim_state s c').
Proof. intros Hr (? & ? & ? & ? & [->|?]); split_and!; try done; right; simpl; lia. Qed.

Lemma micro_tracked policy c d d' :
  micro policy d d' -> sound d -> tracked c d -> tracked c d'.
Proof.
  intros Hm Hs [(c' & Hc' & Ha)|(He & Ho & Hc)].
  2:{ right. destruct (micro_tracked_gone _ _ _ _ Hm He Ho Hc). split_and!; auto.
      by eapply micro_expired. }
  destruct Hm; try (by left; exists c').
  - destruct (decide (claim_key c' = claim_key c0)) as [E|E].
    + assert (c' = c0) as -> by (eapply (keys_inj claim_key); eauto; apply Hs).
      left. exists (set_claim_state s c0). split.
      * apply (kfind_Some claim_key (claim_key c0)). unfold update_claim. simpl.
        rewrite (kfind_update claim_key), decide_True by done. unfold claim, at_key in H0 |- *.
        by setoid_rewrite H0.
      * apply advanced_state; [|done]. destruct H2 as [->|[-> ->]]; simpl; [|lia].
        destruct s; simpl; [done|lia|lia].
    + left. exists c'. split; [|done]. apply (kfind_Some claim_key (claim_key c')).
      unfold update_claim. simpl. rewrite (kfind_update claim_key), decide_False by done.
      apply kfind_elem; [apply Hs|done].
  - left. exists c'. split; [|done]. simpl. set_solver.
  - destruct (evictable_released _ _ _ _ _ H H1) as (_ & _ & Hrel).
    destruct (decide (rc_operation c' = op)) as [E|E].
    + right. destruct Ha as [Eo _]. rewrite <- Eo, E. split_and!.
      * apply expired_evicted.
      * apply operation_evicted_self.
      * intros c1 Hc1. by apply (sound_elem_of_evicted _ _ now _ c1 Hs H) in Hc1 as [_ ?].
    + left. exists c'. split; [|done]. by apply (sound_elem_of_evicted _ _ now _ c' Hs H).
Qed.

(** *** What may release a claim *)
Definition evidence (o : LedgerOp) d c : Prop :=
  match o with
  | OpFailed op _ _ => rc_operation c = op
  | OpReleaseUnowned active resource =>
      claim_key c = tr_terminal_id resource /\ rc_owner c <> active
  | OpConsume owner resource rev true =>
      claim_key c = tr_terminal_id resource /\ rc_owner c = owner /\
      forall applied, consumed_revision d resource = Some applied -> (applied < rev)%N
  | _ => False
  end.

Lemma elem_of_release resource d c' :
  c' ∈ ad_claims (release resource d) ->
  c' ∈ ad_claims d \/
  exists c, claim d resource = Some c /\ c' = set_claim_state ClaimState.Released c.
Proof.
  destruct (release_eq resource d) as [->|(c & Hc & _ & ->)]; [by left|].
  intros [?|(c0 & Hc0 & ->)]%elem_of_update_first; [by left|]. right. by exists c0.
Qed.

Lemma operations_release resource d :
  rc_operation <$> ad_claims (release resource d) = rc_operation <$> ad_claims d.
Proof.
  destruct (release_eq resource d) as [->|(c & _ & _ & ->)]; [done|]. by apply fmap_update_first.
Qed.

Lemma seal_cases op outcome now d r d' :
  seal op outcome now d = (r, d') -> d' = d \/ d' = seal_record op outcome now d.
Proof. intros [->|(? & _ & _ & _ & ->)]%seal_eq; auto. Qed.

Lemma phase_claims phase limits now d r d' :
  apply_phase phase limits now d = (r, d') -> forall c, c ∈ ad_claims d' -> c ∈ ad_claims d.
Proof.
  destruct phase as [ops|candidate|ops].
  - intros H. eapply (st_iter_preserves (fun s => forall c, c ∈ ad_claims s -> c ∈ ad_claims d));
      [|exact H|done].
    intros op s r0 s' _ [[-> _]|(record & _ & _ & _ & _ & ->)]%evict_eq Hs c Hc; [by apply Hs|].
    apply elem_of_evicted_claim in Hc as [Hc _]. by apply Hs.
  - by intros [_ [[-> _]|[-> _]]]%advance_eq.
  - by intros [[-> _]|(w & _ & _ & -> & _)]%compact_eq.
Qed.

Lemma released_by_evidence policy o d c' :
  sound d -> c' ∈ ad_claims (ledger_apply policy o d) -> rc_state c' = ClaimState.Released ->
  c' ∈ ad_claims d \/
  exists c, c ∈ ad_claims d /\ c' = set_claim_state ClaimState.Released c /\ evidence o d c.
Proof.
  intros Hs Hc' Hst. destruct o; simpl in Hc'.
  - destruct (reserve _ _ _ _ _ _ _) as [r d'] eqn:E. simpl in Hc'.
    apply reserve_eq in E as [[-> _]|(_ & _ & _ & _ & ->)]; [by left|].
    apply elem_of_app in Hc' as [?| ->%list_elem_of_singleton]; [by left|done].
  - destruct (mark_spawned _ _ _) as [r d'] eqn:E. simpl in Hc'.
    apply mark_spawned_eq in E as (d1 & r1 & Hseal%seal_cases & H).
    assert (Hd1 : ad_claims d1 = ad_claims d) by (by destruct Hseal as [->| ->]).
    destruct H as [->|(record & c & _ & _ & _ & ->)]; [left; by rewrite <- Hd1|].
    apply elem_of_update_first in Hc' as [?|(c0 & _ & ->)]; [left; by rewrite <- Hd1|done].
  - destruct (mark_failed _ _ _ _) as [r d'] eqn:E. simpl in Hc'.
    apply mark_failed_eq in E as (d1 & r1 & Hseal%seal_cases & H).
    assert (Hd1 : ad_claims d1 = ad_claims d) by (by destruct Hseal as [->| ->]).
    assert (Hs1 : sound d1) by (destruct Hseal as [->| ->]; auto using sound_seal).
    destruct H as [->|(record & Hop & ->)]; [left; by rewrite <- Hd1|].
    apply elem_of_release in Hc' as [?|(c & [Hc Hk]%claim_Some & ->)]; [left; by rewrite <- Hd1|].
    right. exists c. split; [by rewrite <- Hd1|]. split; [done|].
    by apply (claim_of_record d1 op record c).
  - destruct (mark_ambiguous _ _ _) as [r d'] eqn:E. simpl in Hc'.
    apply seal_cases in E as [->| ->]; by left.
  - destruct (release_unowned _ _ _) as [r d'] eqn:E. simpl in Hc'. unfold release_unowned in E.
    destruct (claim d resource) as [c|] eqn:Ec; [|simplify_eq; by left].
    case_bool_decide as Ho; simplify_eq; [by left|].
    apply elem_of_release in Hc' as [?|(c1 & Hc1 & ->)]; [by left|]. rewrite Ec in Hc1. simplify_eq.
    right. exists c1. destruct (claim_Some _ _ _ Ec). by split_and!.
  - destruct (consume_event _ _ _ _ _) as [r d'] eqn:E. simpl in Hc'.
    apply consume_event_eq in E as [[-> _]|(c & _ & Hc & Ho & Hrev & ->)]; [by left|].
    destruct terminal; [|by left].
    apply elem_of_release in Hc' as [?|(c1 & Hc1 & ->)]; [by left|].
    change (claim d resource = Some c1) in Hc1. rewrite Hc in Hc1. simplify_eq.
    right. exists c1. destruct (claim_Some _ _ _ Hc). by split_and!.
  - destruct (apply_phase _ _ _ _) as [r d'] eqn:E. left. by eapply phase_claims.
  - by left.
Qed.

(** Outside collection no claim disappears. *)
Lemma operations_kept policy o d :
  (forall phase limits now, o <> OpPhase phase limits now) ->
  forall k, k ∈ rc_operation <$> ad_claims d ->
            k ∈ rc_operation <$> ad_claims (ledger_apply policy o d).
Proof.
  intros Hno k Hk. destruct o; simpl; try done.
  - destruct (reserve _ _ _ _ _ _ _) as [r d'] eqn:E. simpl.
    apply reserve_eq in E as [[-> _]|(_ & _ & _ & _ & ->)]; [done|]. simpl. rewrite fmap_app. set_solver.
  - destruct (mark_spawned _ _ _) as [r d'] eqn:E. simpl.
    apply mark_spawned_eq in E as (d1 & r1 & Hseal%seal_cases & H).
    assert (Hd1 : ad_claims d1 = ad_claims d) by (by destruct Hseal as [->| ->]).
    destruct H as [->|(record & c & _ & _ & _ & ->)]; [by rewrite Hd1|].
    unfold update_claim. simpl. by rewrite fmap_update_first, Hd1.
  - destruct (mark_failed _ _ _ _) as [r d'] eqn:E. simpl.
    apply mark_failed_eq in E as (d1 & r1 & Hseal%seal_cases & H).
    assert (Hd1 : ad_claims d1 = ad_claims d) by (by destruct Hseal as [->| ->]).
    destruct H as [->|(record & _ & ->)]; [by rewrite Hd1|]. by rewrite operations_release, Hd1.
  - destruct (mark_ambiguous _ _ _) as [r d'] eqn:E. simpl. by apply seal_cases in E as [->| ->].
  - destruct (release_unowned _ _ _) as [r d'] eqn:E. simpl.
    apply release_unowned_eq in E as [->| ->]; [done|]. by rewrite operations_release.
  - destruct (consume_event _ _ _ _ _) as [r d'] eqn:E. simpl.
    apply consume_event_eq in E as [[-> _]|(c & _ & _ & _ & _ & ->)]; [done|].
    destruct terminal; [|done]. by rewrite operations_release.
  - by destruct (Hno phase limits now).
Qed.

(** Collection never drops a claim that holds capacity. *)
Lemma phase_keeps_held phase limits now d r d' c :
  apply_phase phase limits now d = (r, d') -> sound d ->
  c ∈ ad_claims d -> rc_state c <> ClaimState.Released -> c ∈ ad_claims d'.
Proof.
  intros H Hs Hc Hst. destruct phase as [ops|candidate|ops].
  - assert (Hp : sound d' /\ c ∈ ad_claims d'); [|tauto].
    eapply (st_iter_preserves (fun s => sound s /\ c ∈ ad_claims s)); [|exact H|done].
    intros op s r0 s' _ [[-> _]|(record & Hop & _ & Hev & _ & ->)]%evict_eq [Hss Hin]; [done|].
    split; [by apply sound_evicted|]. apply elem_of_evicted_claim. split; [done|]. intros E.
    apply Hst. eapply (evictable_released _ _ _ _ _ Hop Hev). unfold claim. rewrite <- E.
    apply (kfind_elem claim_key); [apply Hss|done].
  - by apply advance_eq in H as [_ [[-> _]|[-> _]]].
  - by apply compact_eq in H as [[-> _]|(w & _ & _ & -> & _)].
Qed.

Lemma run_sound policy ops d : sound d -> sound (ledger_run policy ops d).
Proof. apply micro_invariant. intros ??. apply micro_sound. Qed.

(** Capacity is released exactly once, on evidence.  In every document the
    writers can produce, a claim only ever advances - reserved, live, released -
    and keeps its resource and owner; once released it is never held again, and
    it disappears only together with its operation's answer, which has expired.
    A claim that holds capacity survives every command, and no command releases
    it except a definite launch failure of its own operation, a newer exit event
    published by its own owner, or the active generation on a claim that is not
    its own. *)
Theorem capacity_released_once policy before after c :
  let d := ledger_run policy before AllocatorDocument_default in
  c ∈ ad_claims d ->
  tracked c (ledger_run policy after d) /\
  (rc_state c <> ClaimState.Released -> forall o, exists c',
     c' ∈ ad_claims (ledger_apply policy o d) /\ advanced c c' /\
     (rc_state c' = ClaimState.Released -> evidence o d c)).
Proof.
  intros d Hc.
  assert (Hs : sound d) by (apply run_sound, default_sound).
  assert (Ht : tracked c d) by (left; exists c; split; [done|]; split_and!; auto).
  split.
  - apply (micro_invariant (fun d => sound d /\ tracked c d) policy); [|done].
    intros d1 d2 Hm [H1 H2]. split; [by eapply micro_sound|by eapply micro_tracked].
  - intros Hheld o.
    assert (Hkept : rc_operation c ∈ rc_operation <$> ad_claims (ledger_apply policy o d)).
    { destruct o; try (apply operations_kept; [done|by apply list_elem_of_fmap_2]).
      apply list_elem_of_fmap_2. simpl. destruct (apply_phase _ _ _ _) eqn:E.
      by eapply phase_keeps_held. }
    assert (Hto : sound (ledger_apply policy o d) /\ tracked c (ledger_apply policy o d)).
    { apply (micro_invariant (fun d => sound d /\ tracked c d) policy [o]); [|done].
      intros d1 d2 Hm [H1 H2]. split; [by eapply micro_sound|by eapply micro_tracked]. }
    destruct Hto as [Hso [(c' & Hc' & Ha)|(_ & _ & Hgone)]].
    2:{ apply list_elem_of_fmap in Hkept as (c1 & E & Hc1). by destruct (Hgone _ Hc1). }
    exists c'. split_and!; [done|done|]. intros Hrel.
    destruct (released_by_evidence _ _ _ _ Hs Hc' Hrel) as [Hin|(c0 & Hc0 & -> & Hev)].
    + destruct Ha as (Eo & _). assert (c' = c) as ->; [|done].
      by apply (keys_inj rc_operation (ad_claims d)); [apply Hs|..].
    + destruct Ha as (Eo & _). assert (c0 = c) as ->; [|done].
      by apply (keys_inj rc_operation (ad_claims d)); [apply Hs|..].
Qed.
End claims.
