(* ===== verification/LedgerGc.v ===== *)
(** * Collecting the ledger

    A collection plan applied to the document it was planned on always applies
    completely, keeps the document valid, and removes only answers whose replay
    window has passed and whose capacity was released.  The loop that fits a
    staged admission under the caps terminates. *)
From S2P Require Export Ledger.
Import AllocatorDocument.

(** ** What a collection may change *)
Section kept.
Context (limits : RetentionLimits) (now : N).
Implicit Types (d : AllocatorDocument) (op : OperationId).

(** The replay window of a collectable final has passed. *)
Definition window_passed (r : OperationRecord) : Prop :=
  is_collectable (or_outcome r) = true /\
  exists sealed, or_sealed_at r = Some sealed /\
    (saturating_add sealed (min_window limits) <= now)%N.

Record kept d d' : Prop := {
  kept_answers : forall op r, operation d op = Some r ->
    operation d' op = Some r \/
    (operation d' op = None /\ is_expired d' op = true /\ window_passed r);
  kept_capacity : forall c, c ∈ ad_claims d -> rc_state c <> ClaimState.Released -> c ∈ ad_claims d';
  kept_unknown : forall op, operation d op = None -> operation d' op = None;
  kept_expired : forall op, is_expired d op = true -> is_expired d' op = true;
}.

#[export] Instance kept_preorder : PreOrder kept.
Proof.
  split.
  - intros d. split; auto.
  - intros d1 d2 d3 [A1 B1 C1 D1] [A2 B2 C2 D2]. split; auto.
    intros op r [Hr|(Hn & He & Hw)]%A1; [by apply A2|]. right. auto.
Qed.

Lemma kept_evicted d op record :
  sound d -> operation d op = Some record -> tombstone d op = None ->
  is_evictable d op limits now = true ->
  kept d (evicted op record now d).
Proof.
  intros Hs Hop Ht Hev. destruct (evictable_released _ _ _ _ _ Hop Hev) as (Hc & Hw & Hrel). split.
  - intros op' r Hr. destruct (decide (op' = op)) as [->|Hne].
    + right. rewrite operation_evicted_self, expired_evicted. rewrite Hop in Hr. by simplify_eq.
    + left. by rewrite operation_evicted.
  - intros c Hin Hst. apply elem_of_evicted_claim. split; [done|]. intros E. apply Hst, Hrel.
    unfold claim. rewrite <- E. apply (kfind_elem claim_key); [apply Hs|done].
  - intros op' Hn. destruct (decide (op' = op)) as [->|Hne]; [by apply operation_evicted_self|].
    by rewrite operation_evicted.
  - intros op'. apply (micro_expired (MkCapacityPolicy 0 0)). by eapply micro_evict.
Qed.

Lemma kept_watermark d candidate :
  (forall w, ad_watermark d = Some w -> precedes_or_equals w candidate = true) ->
  kept d (set_ad_watermark (Some candidate) d).
Proof.
  intros H. split; auto. intros op. apply (micro_expired (MkCapacityPolicy 0 0)). by apply micro_advance.
Qed.

Lemma kept_compacted d ops w :
  ad_watermark d = Some w -> (forall op, op ∈ ops -> precedes_or_equals op w = true) ->
  kept d (compacted ops d).
Proof.
  intros Hw H. split; auto. intros op. apply (micro_expired (MkCapacityPolicy 0 0)).
  by eapply micro_compact.
Qed.

(** ** The progress measure *)
Definition ids d : list OperationId :=
  (or_operation <$> ad_operations d) ++ (ot_operation <$> ad_tombstones d).

Definition uncovered d : nat := count (fun op => negb (covered d op)) (ids d).

Definition measure d : nat :=
  2 * length (ad_operations d) + length (ad_tombstones d) + uncovered d.

Lemma measure_fuel d : measure d < retain_fuel d.
Proof.
  unfold measure, uncovered, retain_fuel, retained_records.
  pose proof (count_le (fun op => negb (covered d op)) (ids d)) as H. unfold ids in H at 2.
  rewrite length_app, !length_fmap in H. lia.
Qed.

Lemma remove_one l op r :
  NoDup (or_operation <$> l) -> find_first (at_key or_operation op) l = Some r ->
  exists l', l ≡ₚ r :: l' /\ retain (fun r => negb (bool_decide (or_operation r = op))) l ≡ₚ l'.
Proof.
  intros Hnd Hf. destruct (kfind_Some _ _ _ _ Hf) as [Hin <-].
  apply elem_of_Permutation in Hin as [l' El]. exists l'. split; [done|].
  assert (Hp : forall p (l1 l2 : list OperationRecord), l1 ≡ₚ l2 -> retain p l1 ≡ₚ retain p l2).
  { intros p l1 l2. induction 1; simpl; try (by etransitivity); repeat case_match;
      first [done | by apply perm_skip | by apply perm_swap]. }
  rewrite (Hp _ _ _ El). simpl. rewrite bool_decide_true by done. simpl.
  rewrite retain_all; [done|]. intros x Hx. apply negb_true_iff, bool_decide_eq_false. intros E.
  rewrite El, fmap_cons in Hnd. apply list.NoDup_cons in Hnd as [Hn _]. apply Hn.
  rewrite <- E. by apply list_elem_of_fmap_2.
Qed.

Lemma evicted_measure d op record :
  NoDup (or_operation <$> ad_operations d) -> operation d op = Some record ->
  ids (evicted op record now d) ≡ₚ ids d /\
  length (ad_operations (evicted op record now d)) + 1 = length (ad_operations d) /\
  length (ad_tombstones (evicted op record now d)) = length (ad_tombstones d) + 1.
Proof.
  intros Hnd Hop. destruct (operation_Some _ _ _ Hop) as [_ Eo].
  destruct (remove_one _ _ _ Hnd Hop) as (l' & El & Er). unfold ids. simpl. split_and!.
  - rewrite Er, El, fmap_cons, fmap_app, Eo. simpl. rewrite app_assoc.
    by rewrite (Permutation_app_comm _ [op]).
  - rewrite Er, El. simpl. lia.
  - rewrite length_app. done.
Qed.
End kept.

(** ** The phases of a fresh plan *)
Section plan.
Context (serialized_bytes : AllocatorDocument -> nat) (limits : RetentionLimits) (now : N).
Implicit Types (d : AllocatorDocument) (op : OperationId).
Local Notation kept := (kept limits now).
Local Notation apply := (fun phase => apply_phase phase limits now).

Lemma is_evictable_evicted d op op' record :
  op' <> op -> is_evictable d op' limits now = true ->
  is_evictable (evicted op record now d) op' limits now = true.
Proof.
  intros Hne. unfold is_evictable.
  change (find_first (at_key or_operation op') (ad_operations (evicted op record now d)))
    with (operation (evicted op record now d) op').
  change (find_first (at_key or_operation op') (ad_operations d)) with (operation d op').
  rewrite operation_evicted by done. destruct (operation d op') as [r|]; [|done].
  destruct (is_collectable _); simpl; [|done]. intros [-> Hc]%andb_true_iff. simpl.
  destruct (claim (evicted op record now d) (or_resource r)) as [c|] eqn:Ec; [|done].
  assert (Hne' : tr_terminal_id (or_resource r) <> tr_terminal_id (or_resource record)).
  { apply claim_Some in Ec as [Hin <-]. by apply elem_of_evicted_claim in Hin as [_ ?]. }
  rewrite claim_evicted in Ec by done. by rewrite Ec in Hc.
Qed.

(** What evicting [ops] leaves. *)
Record evicted_all (ops : list OperationId) d d' : Prop := {
  ea_inv : inv d'; ea_sound : sound d'; ea_kept : kept d d';
  ea_watermark : ad_watermark d' = ad_watermark d;
  ea_operations : forall r, r ∈ ad_operations d' -> r ∈ ad_operations d /\ or_operation r ∉ ops;
  ea_ids : ids d' ≡ₚ ids d;
  ea_count : length (ad_operations d') + length ops = length (ad_operations d);
  ea_tombstones : length (ad_tombstones d') = length (ad_tombstones d) + length ops;
  ea_tombstone : forall op, op ∈ ot_operation <$> ad_tombstones d' <->
                            op ∈ ot_operation <$> ad_tombstones d \/ op ∈ ops;
}.

Lemma evict_all_ok ops d :
  inv d -> sound d -> NoDup ops ->
  (forall op, op ∈ ops -> is_evictable d op limits now = true) ->
  exists d', st_iter (fun op => evict op limits now) ops d = (Ok tt, d') /\ evicted_all ops d d'.
Proof.
  revert d. induction ops as [|op ops IH]; intros d Hi Hs Hnd Hev.
  - exists d. split; [done|]. split; try done; [intros r Hr; split; [done|apply not_elem_of_nil]
      |simpl; lia..|]. intros op. set_solver.
  - apply list.NoDup_cons in Hnd as [Hnin Hnd].
    assert (He : is_evictable d op limits now = true) by (apply Hev; left).
    assert (exists record, operation d op = Some record) as [record Hop].
    { unfold is_evictable in He. unfold operation. destruct (find_first _ _); [eauto|done]. }
    pose proof (operation_not_tombstone _ _ _ (inv_valid _ Hi) Hop) as Ht.
    destruct (evicted_measure now d op record) as (Hids & Hlo & Hlt);
      [apply operations_NoDup, Hi|done|].
    destruct (IH (evicted op record now d)) as (d' & Hrun & [A1 A2 A3 A4 A5 A6 A7 A8 A9]);
      [by apply evicted_inv|by apply sound_evicted|done| |].
    { intros op' Hin. apply is_evictable_evicted; [by intros ->|]. apply Hev. by right. }
    exists d'. split.
    + simpl. unfold st_bind, evict at 1. rewrite Ht, bool_decide_false by by intros [].
      rewrite He, Hop. simpl. exact Hrun.
    + split; try done.
      * etransitivity; [by apply kept_evicted|done].
      * intros r [Hr Hno]%A5. apply elem_of_retain in Hr as [Hr Hne].
        apply negb_true_iff, bool_decide_eq_false in Hne. split; [done|].
        rewrite not_elem_of_cons. done.
      * by rewrite A6.
      * simpl length. lia.
      * simpl length. lia.
      * intros op'. rewrite A9. simpl. rewrite fmap_app. set_solver.
Qed.

(** *** Minimum and maximum *)
Lemma min_text_spec l :
  match min_text l with
  | Some m => forall x, x ∈ l -> str_le m x = true
  | None => l = []
  end.
Proof.
  unfold min_text. set (f := fun acc x => _).
  assert (H : forall l m, exists m', foldl f (Some m) l = Some m' /\ str_le m' m = true /\
    forall x, x ∈ l -> str_le m' x = true).
  { clear l. induction l as [|y l IH]; intros m; simpl.
    - exists m. split_and!; [done|apply str_le_refl|intros x Hx; by apply not_elem_of_nil in Hx].
    - destruct (str_le m y) eqn:E.
      + destruct (IH m) as (m' & -> & Hm & Hall). exists m'. split_and!; [done|done|].
        intros x [->|Hx]%elem_of_cons; [by eapply str_le_trans|auto].
      + destruct (IH y) as (m' & -> & Hm & Hall). exists m'.
        assert (str_le y m = true) by (destruct (str_le_total m y); congruence).
        split_and!; [done|by eapply str_le_trans|].
        intros x [->|Hx]%elem_of_cons; [done|auto]. }
  destruct l as [|y l]; simpl; [done|].
  destruct (H l y) as (m & -> & Hm & Hall). intros x [->|Hx]%elem_of_cons; auto.
Qed.

Lemma max_operation_elem l m : max_operation l = Some m -> m ∈ l.
Proof.
  unfold max_operation. set (f := fun acc x => _).
  assert (H : forall l a, foldl f (Some a) l = Some m -> m = a \/ m ∈ l).
  { clear l. induction l as [|y l IH]; intros a; simpl; [intros [= ->]; by left|].
    destruct (str_le _ _); intros [->|?]%IH; [right; left|right; by right|by left|right; by right]. }
  destruct l as [|y l]; simpl; [done|]. intros [->|?]%H; [left|by right].
Qed.

(** *** The three stages *)
Definition after_phase (nonempty : bool) d d' : Prop :=
  inv d' /\ sound d' /\ kept d d' /\
  if nonempty then measure d' < measure d else d' = d.

Lemma evictable_spec d :
  inv d ->
  NoDup (evictable_operations serialized_bytes d limits now) /\
  forall op, op ∈ evictable_operations serialized_bytes d limits now ->
    is_evictable d op limits now = true.
Proof.
  intros Hi. split.
  - do 2 apply NoDup_keys_retain. apply operations_NoDup, Hi.
  - intros op (r & -> & [[_ Hr]%elem_of_retain _]%elem_of_retain)%list_elem_of_fmap. done.
Qed.

Lemma covered_watermark d d' op : ad_watermark d' = ad_watermark d -> covered d' op = covered d op.
Proof. unfold covered. by intros ->. Qed.

Lemma evict_stage d E :
  inv d -> sound d -> NoDup E -> (forall op, op ∈ E -> is_evictable d op limits now = true) ->
  exists d1, st_iter apply (if bool_decide (E = []) then [] else [Evict E]) d = (Ok tt, d1) /\
    evicted_all E d d1 /\ after_phase (negb (bool_decide (E = []))) d d1.
Proof.
  intros Hi Hs Hnd Hev. case_bool_decide as HE.
  - exists d. subst E. split; [done|].
    destruct (evict_all_ok [] d Hi Hs Hnd Hev) as (d' & [= <-] & Ha). split; [done|].
    split_and!; done.
  - destruct (evict_all_ok E d Hi Hs Hnd Hev) as (d' & Hrun & Ha). exists d'.
    split; [simpl; unfold st_bind; by rewrite Hrun|]. split; [done|].
    destruct Ha as [A1 A2 A3 A4 A5 A6 A7 A8 A9]. split_and!; [done..|]. simpl.
    assert (Hu : uncovered d' = uncovered d).
    { unfold uncovered. rewrite (count_Permutation _ _ _ A6). apply count_ext.
      intros op _. f_equal. by apply covered_watermark. }
    unfold measure. rewrite Hu. destruct E; [done|]. simpl in *. lia.
Qed.

Lemma advance_stage d candidate :
  inv d -> sound d -> candidate ∈ ids d -> advances d candidate = true ->
  (forall r, r ∈ ad_operations d -> precedes_or_equals (or_operation r) candidate = false) ->
  exists d', apply (AdvanceWatermark candidate) d = (Ok tt, d') /\
    d' = set_ad_watermark (Some candidate) d /\ after_phase true d d'.
Proof.
  intros Hi Hs Hin Hadv Hfresh.
  assert (Hle : forall w, ad_watermark d = Some w -> precedes_or_equals w candidate = true).
  { intros w Hw. unfold advances in Hadv. rewrite Hw in Hadv. by apply andb_true_iff in Hadv as [_ ?]. }
  assert (Hnot : covered d candidate = false).
  { unfold covered, advances in *. destruct (ad_watermark d) as [w|]; [|done].
    apply andb_true_iff in Hadv as [Hne%negb_true_iff%bool_decide_eq_false Hp].
    destruct (precedes_or_equals candidate w) eqn:Ep; [|done]. exfalso. apply Hne.
    apply as_str_inj. by apply str_le_antisym. }
  exists (set_ad_watermark (Some candidate) d). unfold after_phase. split_and!.
  - unfold apply_phase. unfold covered in Hnot. by rewrite Hnot.
  - done.
  - by apply advance_inv.
  - eapply (micro_sound (MkCapacityPolicy 0 0)); [by apply micro_advance|done].
  - by apply kept_watermark.
  - unfold measure. simpl. assert (uncovered (set_ad_watermark (Some candidate) d) < uncovered d); [|lia].
    apply (count_lt _ _ _ candidate); [|done|by rewrite Hnot|].
    + intros op _ Hc. apply negb_true_iff in Hc. apply negb_true_iff. unfold covered in *. simpl in Hc.
      destruct (ad_watermark d) as [w|] eqn:Ew; [|done].
      destruct (precedes_or_equals op w) eqn:Ep; [|done].
      rewrite (precedes_trans op w candidate) in Hc; auto.
    + unfold covered. simpl. unfold precedes_or_equals. by rewrite str_le_refl.
Qed.

Lemma compact_stage d D w :
  inv d -> sound d -> D <> [] -> (forall op, op ∈ D -> op ∈ ot_operation <$> ad_tombstones d) ->
  ad_watermark d = Some w -> (forall op, op ∈ D -> precedes_or_equals op w = true) ->
  apply (Compact D) d = (Ok tt, compacted D d) /\ after_phase true d (compacted D d).
Proof.
  intros Hi Hs Hne Hin Hw Hle. split.
  - unfold apply_phase. rewrite Hw, (proj2 (forallb_elem _ _) Hle). done.
  - unfold after_phase. split_and!; [by apply compacted_inv| |by eapply kept_compacted|].
    { eapply (micro_sound (MkCapacityPolicy 0 0)); [by eapply micro_compact|done]. }
    assert (Hsub : sublist (ids (compacted D d)) (ids d)).
    { apply sublist_app; [done|]. apply fmap_sublist, sublist_retain. }
    pose proof (count_sublist (fun op => negb (covered d op)) _ _ Hsub) as Hu.
    assert (Ht : length (ad_tombstones (compacted D d)) < length (ad_tombstones d)).
    { destruct D as [|op D]; [done|]. destruct (list_elem_of_fmap_1 _ _ _ (Hin op (list_elem_of_here _ _)))
        as (t & -> & Ht). simpl.
      apply Nat.lt_le_trans with (count (fun _ => true) (ad_tombstones d)); [|apply count_le].
      apply (count_lt _ _ _ t); [done|done|done|].
      apply negb_false_iff, bool_decide_eq_true. left. }
    unfold measure. simpl in *. unfold uncovered in *.
    change (fun op => negb (covered (compacted D d) op)) with (fun op => negb (covered d op)). lia.
Qed.

Lemma after_phase_trans b1 b2 d d1 d2 :
  after_phase b1 d d1 -> after_phase b2 d1 d2 -> after_phase (b1 || b2) d d2.
Proof.
  intros (I1 & S1 & K1 & M1) (I2 & S2 & K2 & M2). unfold after_phase. split_and!; [done|done| |].
  - by etransitivity.
  - destruct b1, b2; simpl in *; subst; try done; lia.
Qed.

Lemma st_iter_phases l1 l2 l3 d d1 d2 r :
  st_iter apply l1 d = (Ok tt, d1) -> st_iter apply l2 d1 = (Ok tt, d2) ->
  st_iter apply l3 d2 = r -> st_iter apply (l1 ++ l2 ++ l3) d = r.
Proof. intros H1 H2 <-. by rewrite (st_iter_app _ _ _ _ _ H1), (st_iter_app _ _ _ _ _ H2). Qed.

Lemma st_iter_one phase d d1 : apply phase d = (Ok tt, d1) -> st_iter apply [phase] d = (Ok tt, d1).
Proof. intros H. simpl. unfold st_bind. by rewrite H. Qed.

(** The watermark never reaches an operation that stays recorded. *)
Lemma candidate_below d E c r :
  watermark_candidate d E = Some c -> r ∈ ad_operations d -> or_operation r ∉ E ->
  precedes_or_equals (or_operation r) c = false.
Proof.
  intros Hc Hr Hn. apply max_operation_elem, elem_of_retain in Hc as [_ Hf].
  pose proof (min_text_spec ((fun r => as_str (or_operation r)) <$>
    retain (fun r => negb (mem (or_operation r) E)) (ad_operations d))) as Hmin.
  fold (live_floor d E) in Hmin.
  assert (Hin : as_str (or_operation r) ∈ (fun r => as_str (or_operation r)) <$>
    retain (fun r => negb (mem (or_operation r) E)) (ad_operations d)).
  { apply (list_elem_of_fmap_2 (fun r => as_str (or_operation r))), elem_of_retain. split; [done|].
    by apply negb_true_iff, bool_decide_eq_false. }
  destruct (live_floor d E) as [floor|].
  - apply Hmin in Hin. rewrite str_lt_le in Hf. apply negb_true_iff in Hf.
    destruct (precedes_or_equals (or_operation r) c) eqn:Ele; [|reflexivity].
    unfold precedes_or_equals in Ele. by rewrite (str_le_trans _ _ _ Hin Ele) in Hf.
  - rewrite Hmin in Hin. by apply not_elem_of_nil in Hin.
Qed.

Lemma candidate_ids d E c :
  (forall op, op ∈ E -> op ∈ or_operation <$> ad_operations d) ->
  watermark_candidate d E = Some c -> c ∈ ids d.
Proof.
  intros HE Hc. apply max_operation_elem, elem_of_retain in Hc as [Hin _].
  unfold ids. rewrite elem_of_app in *. destruct Hin; auto.
Qed.

Lemma watermark_stage d E d1 :
  (forall op, op ∈ E -> op ∈ or_operation <$> ad_operations d) -> evicted_all E d d1 ->
  let A := match watermark_candidate d E with
           | Some c => if advances d c then [AdvanceWatermark c] else []
           | None => []
           end in
  exists d2, st_iter apply A d1 = (Ok tt, d2) /\ after_phase (negb (bool_decide (A = []))) d1 d2 /\
    ad_tombstones d2 = ad_tombstones d1 /\
    forall w, match watermark_candidate d E with Some c => Some c | None => ad_watermark d end = Some w ->
      exists w', ad_watermark d2 = Some w' /\ precedes_or_equals w w' = true.
Proof.
  intros HE [A1 A2 A3 A4 A5 A6 A7 A8 A9] A.
  assert (Hid : after_phase false d1 d1) by (unfold after_phase; split_and!; [done|done|reflexivity|done]).
  unfold A. destruct (watermark_candidate d E) as [c|] eqn:Ec.
  2:{ exists d1. split_and!; try done. intros w Hw. exists w. rewrite A4. split; [done|apply str_le_refl]. }
  destruct (advances d c) eqn:Ea.
  - destruct (advance_stage d1 c) as (d2 & Hrun & -> & Hafter); try done.
    + rewrite A6. by eapply candidate_ids.
    + unfold advances. by rewrite A4.
    + intros r [Hr Hn]%A5. by eapply candidate_below.
    + eexists. split; [by apply st_iter_one|]. split_and!; [done|done|].
      intros w [= <-]. exists c. split; [done|apply str_le_refl].
  - exists d1. split_and!; try done. intros w [= <-]. rewrite A4. unfold advances in Ea.
    destruct (ad_watermark d) as [cur|]; [|done]. exists cur. split; [done|].
    apply andb_false_iff in Ea as [->%negb_false_iff%bool_decide_eq_true|Ea]; [apply str_le_refl|].
    unfold precedes_or_equals in *. destruct (str_le_total (as_str c) (as_str cur)); congruence.
Qed.

Lemma plan_applies d :
  inv d -> sound d ->
  let phases := gp_phases (plan_gc serialized_bytes d limits now) in
  exists d', st_iter apply phases d = (Ok tt, d') /\
    after_phase (negb (bool_decide (phases = []))) d d'.
Proof.
  intros Hi Hs. destruct (evictable_spec d Hi) as [Hnd Hev].
  unfold plan_gc. cbn [gp_phases].
  set (E := evictable_operations serialized_bytes d limits now) in *.
  set (A := match watermark_candidate d E with
            | Some c => if advances d c then [AdvanceWatermark c] else []
            | None => []
            end).
  set (effective := match watermark_candidate d E with
                    | Some c => Some c
                    | None => ad_watermark d
                    end).
  set (D := compactable d limits now effective).
  assert (HE : forall op, op ∈ E -> op ∈ or_operation <$> ad_operations d).
  { intros op Hop%Hev. unfold is_evictable in Hop. apply operation_is_Some. unfold operation.
    destruct (find_first _ _); [by eexists|done]. }
  destruct (evict_stage d E Hi Hs Hnd Hev) as (d1 & Hrun1 & Ha & Hp1).
  destruct (watermark_stage d E d1 HE Ha) as (d2 & Hrun2 & Hp2 & Ht2 & Hw2). fold A effective in Hrun2, Hp2, Hw2.
  pose proof (after_phase_trans _ _ _ _ _ Hp1 Hp2) as Hp12.
  destruct (decide (D = [])) as [HD|HD].
  - exists d2. split.
    + rewrite (bool_decide_true _ HD). by apply (st_iter_phases _ _ _ _ _ _ _ Hrun1 Hrun2).
    + rewrite (bool_decide_true _ HD), app_nil_r.
      assert (Eb : bool_decide ((if bool_decide (E = []) then [] else [Evict E]) ++ A = []) =
                   bool_decide (E = []) && bool_decide (A = [])).
      { destruct (bool_decide (E = [])); [done|]. by rewrite bool_decide_false. }
      by rewrite Eb, negb_andb.
  - destruct effective as [w|].
    2:{ exfalso. apply HD. unfold D, compactable. rewrite retain_none; [done|].
        intros x _. by rewrite andb_false_r. }
    destruct (Hw2 w eq_refl) as (w' & Hw' & Hle).
    destruct Hp2 as (Hi2 & Hs2 & _).
    destruct (compact_stage d2 D w') as [Hrun3 Hp3]; try done.
    + intros op (t & -> & [Ht _]%elem_of_retain)%list_elem_of_fmap. rewrite Ht2.
      apply (ea_tombstone _ _ _ Ha). left. by apply list_elem_of_fmap_2.
    + intros op (t & -> & [_ Hb]%elem_of_retain)%list_elem_of_fmap.
      apply andb_true_iff in Hb as [_ Hb]. by eapply precedes_trans.
    + exists (compacted D d2). rewrite (bool_decide_false _ HD). split.
      * apply (st_iter_phases _ _ _ _ _ _ _ Hrun1 Hrun2). by apply st_iter_one.
      * pose proof (after_phase_trans _ _ _ _ _ Hp12 Hp3) as Hp.
        rewrite orb_true_r in Hp. rewrite bool_decide_false; [exact Hp|].
        intros [_ [_ Hx]%app_eq_nil]%app_eq_nil. done.
Qed.
End plan.

(** ** Properties *)
Section properties.
Context (serialized_bytes : AllocatorDocument -> nat).
Implicit Types (d : AllocatorDocument) (op : OperationId).

(** A writer's command on the document it loaded; a collection is planned on
    that same document. *)
Inductive current_step (policy : CapacityPolicy) : AllocatorDocument -> AllocatorDocument -> Prop :=
| current_command o d :
    (forall phase limits now, o <> OpPhase phase limits now) ->
    current_step policy d (ledger_apply policy o d)
| current_plan limits now d r d' :
    st_iter (fun phase => apply_phase phase limits now)
      (gp_phases (plan_gc serialized_bytes d limits now)) d = (r, d') ->
    current_step policy d d'.

Lemma command_inv policy o d :
  (forall phase limits now, o <> OpPhase phase limits now) -> inv d ->
  inv (ledger_apply policy o d).
Proof.
  intros Hno Hi. destruct o; simpl.
  - destruct (reserve _ _ _ _ _ _ _) eqn:E. by eapply reserve_inv.
  - destruct (mark_spawned _ _ _) eqn:E. by eapply mark_spawned_inv.
  - destruct (mark_failed _ _ _ _) eqn:E. by eapply mark_failed_inv.
  - destruct (mark_ambiguous _ _ _) eqn:E. eapply seal_inv; [|exact E|done]. done.
  - destruct (release_unowned _ _ _) eqn:E. apply release_unowned_eq in E as [->| ->]; simpl; auto using release_inv.
  - destruct (consume_event _ _ _ _ _) eqn:E. by eapply consume_event_inv.
  - by destruct (Hno phase limits now).
  - destruct Hi as [[] ?]. by split; [split|].
Qed.

Lemma current_step_inv policy d d' :
  current_step policy d d' -> inv d /\ sound d -> inv d' /\ sound d'.
Proof.
  intros [o d0 Hno|limits now d0 r d0' Hrun] [Hi Hs].
  - split; [by apply command_inv|]. apply (run_sound policy [o] d0 Hs).
  - destruct (plan_applies serialized_bytes limits now d0 Hi Hs) as (d1 & H1 & Hi1 & Hs1 & _).
    rewrite H1 in Hrun. by simplify_eq.
Qed.

(** The allocator document is always valid.  Whatever sequence of reservations,
    finals, releases, consumed events and collections produced it - refused and
    repeated ones included - the document a writer stages passes its own
    validation, so no such commit is ever refused as corrupt. *)
Theorem ledger_always_valid policy d :
  rtc (current_step policy) AllocatorDocument_default d -> validate d = Ok tt.
Proof.
  intros H. apply allocator_validate_spec, inv_valid.
  assert (Hp : forall d0, rtc (current_step policy) d0 d -> inv d0 /\ sound d0 -> inv d /\ sound d).
  { intros d0. induction 1; [done|]. intros. eauto using current_step_inv. }
  apply (Hp _ H). split; [apply default_inv|apply default_sound].
Qed.

(** A collection pass is safe and complete.  The plan made for a document applies
    to it without a refusal and leaves a valid document; an answer it removes was
    a collectable final whose guaranteed replay window had passed, is answered as
    expired from then on, and held no capacity; ambiguous and undecided
    operations, and claims holding capacity, are never touched; and a plan with
    anything to do makes progress. *)
Theorem gc_pass_safe limits now d :
  inv d -> sound d ->
  let plan := plan_gc serialized_bytes d limits now in
  exists d', st_iter (fun phase => apply_phase phase limits now) (gp_phases plan) d = (Ok tt, d') /\
    validate d' = Ok tt /\ kept limits now d d' /\
    (gp_phases plan = [] -> d' = d) /\ (gp_phases plan <> [] -> measure d' < measure d).
Proof.
  intros Hi Hs plan.
  destruct (plan_applies serialized_bytes limits now d Hi Hs) as (d' & Hrun & Hi' & _ & Hk & Hm).
  fold plan in Hrun, Hm. exists d'. split_and!; [done|by apply allocator_validate_spec, inv_valid|done|..].
  - intros E. by rewrite E in Hm.
  - intros E. by rewrite bool_decide_false in Hm.
Qed.

Lemma retain_loop_ok limits now growth fuel d :
  inv d -> sound d -> measure d < fuel ->
  exists r d', retain_loop serialized_bytes fuel limits now growth d = Some (r, d') /\
    inv d' /\ sound d' /\ kept limits now d d' /\
    match r with
    | Ok _ => fits serialized_bytes d' limits growth = true
    | Err e => e = ResourceError.RetentionBackpressure /\
        fits serialized_bytes d' limits growth = false /\
        gp_phases (plan_gc serialized_bytes d' limits now) = []
    end.
Proof.
  revert d. induction fuel as [|fuel IH]; intros d Hi Hs Hm; [lia|].
  cbn [retain_loop]. destruct (fits _ _ _ _) eqn:Ef; [exists (Ok tt), d; by split_and!|].
  destruct (plan_applies serialized_bytes limits now d Hi Hs) as (d1 & Hrun & Hi1 & Hs1 & Hk1 & Hm1).
  set (phases := gp_phases (plan_gc serialized_bytes d limits now)) in *.
  destruct (decide (phases = [])) as [E|E].
  - exists (Err ResourceError.RetentionBackpressure), d. rewrite E. split_and!; try done.
  - rewrite (bool_decide_false (length phases = 0)) by (by intros ?%nil_length_inv).
    rewrite Hrun. rewrite bool_decide_false in Hm1 by done. simpl in Hm1.
    destruct (IH d1 Hi1 Hs1) as (r & d' & Hloop & Hi' & Hs' & Hk' & Hr); [lia|].
    exists r, d'. split_and!; try done. by etransitivity.
Qed.

(** Fitting an admission under the caps always ends.  The loop of
    [retain_for_admission] stops within the stated number of rounds on every
    valid document; it ends with a valid document that fits both caps, or refuses
    with back-pressure exactly when the caps are exceeded and nothing at all is
    safe to collect; and it removes only answers whose replay window has passed. *)
Theorem admission_retention_terminates limits now d :
  inv d -> sound d -> (ad_revision d < U64_MAX)%N ->
  let growth := ilog10 (ad_revision d + 1) - ilog10 (ad_revision d) in
  exists r d', retain_loop serialized_bytes (retain_fuel d) limits now growth d = Some (r, d') /\
    retain_for_admission serialized_bytes limits now d = (r, d') /\
    validate d' = Ok tt /\ kept limits now d d' /\
    match r with
    | Ok _ => fits serialized_bytes d' limits growth = true
    | Err e => e = ResourceError.RetentionBackpressure /\
        fits serialized_bytes d' limits growth = false /\
        gp_phases (plan_gc serialized_bytes d' limits now) = []
    end.
Proof.
  intros Hi Hs Hrev growth.
  destruct (retain_loop_ok limits now growth (retain_fuel d) d Hi Hs (measure_fuel d))
    as (r & d' & Hloop & Hi' & _ & Hk & Hr).
  exists r, d'. split_and!; [done| |by apply allocator_validate_spec, inv_valid|done|done].
  unfold retain_for_admission. rewrite (proj2 (N.leb_gt _ _)) by done.
  fold growth. by rewrite Hloop.
Qed.
End properties.

(** ** A ledger at work *)
Module LedgerExample.
Definition policy := MkCapacityPolicy 1 2.
Definition limits := RetentionLimits_new 1 4096 100 10 20.
Definition size (d : AllocatorDocument) : nat := 0.
Definition g1 := MkDaemonGeneration "g1".
Definition g2 := MkDaemonGeneration "g2".
Definition op1 := MkOperationId "op-1".
Definition op2 := MkOperationId "op-2".
Definition t1 := MkTerminalRef g1 (MkTerminalId "t1") (MkWorkspaceId "w") None (MkWorktreeId "k").
Definition t2 := MkTerminalRef g1 (MkTerminalId "t2") (MkWorkspaceId "w") None (MkWorktreeId "k").

(** [op2] runs, exits and is consumed. *)
Definition history : list LedgerOp :=
  [OpReserve op2 "d" AgentKind g1 t2; OpSpawned op2 5; OpConsume g1 t2 1 true].
Definition d1 : AllocatorDocument := ledger_run policy history AllocatorDocument_default.
Definition record : OperationRecord :=
  MkOperationRecord op2 "d" AgentKind g1 t2 OperationOutcome.Spawned (Some 5%N) 2.
Definition collection : list LedgerOp :=
  [OpPhase (Evict [op2]) limits 100; OpPhase (AdvanceWatermark op2) limits 100;
   OpPhase (Compact [op2]) limits 200].

Lemma d1_record : operation d1 (or_operation record) = Some record.
Proof. vm_compute. reflexivity. Qed.

Lemma run_inv ops d :
  (forall o, o ∈ ops -> forall phase limits now, o <> OpPhase phase limits now) ->
  inv d -> inv (ledger_run policy ops d).
Proof.
  revert d. induction ops as [|o ops IH]; intros d Hno Hi; [done|].
  apply IH; [intros o' Ho'; apply Hno; by right|]. apply command_inv; [apply Hno; left|done].
Qed.

Lemma d1_inv : inv d1.
Proof.
  apply run_inv; [|apply default_inv]. intros o Ho. unfold history in Ho.
  intros phase limits now. apply elem_of_cons in Ho as [->|Ho]; [done|].
  apply elem_of_cons in Ho as [->|Ho]; [done|]. by apply list_elem_of_singleton in Ho as ->.
Qed.

Lemma d1_sound : sound d1.
Proof. apply run_sound, default_sound. Qed.

Definition reserved_claim : ResourceClaim :=
  MkResourceClaim t2 AgentKind g1 op2 "d" ClaimState.Reserved 1.
Lemma reserved_claim_in :
  reserved_claim ∈ ad_claims (ledger_run policy (take 1 history) AllocatorDocument_default).
Proof. vm_compute. left. Qed.

#[export] Instance allocator_serde : Serde AllocatorDocument AllocatorDocument :=
  { to_string := Some; from_str := Some }.

(** A collection is planned; before its watermark is committed another writer
    admits an operation with an older identity. *)
Definition evicted_document : AllocatorDocument :=
  set_ad_revision 1 (ledger_apply policy (OpPhase (Evict [op2]) limits 100) d1).
Definition raced_document : AllocatorDocument :=
  set_ad_revision 2 (ledger_apply policy (OpReserve op1 "e" AgentKind g1 t1) evicted_document).
Definition raced_file : FileState AllocatorDocument :=
  MkFileState (Some d1) [EnvIdle; EnvIdle; EnvIdle; EnvWrite (Some raced_document)].
End LedgerExample.
Import LedgerExample.

(** The pass does not drop the phase that stopped being safe: it stages a
    watermark over the live operation and reports the document as corrupt. *)
Example stale_watermark_reported_corrupt :
  fst (collect_garbage size limits 100 raced_file) = Err (Refused ResourceError.Corrupt).
Proof. vm_compute. reflexivity. Qed.

Lemma operation_never_readmitted_witness :
  match admit_ (ledger_run policy collection d1) op2 "d" AgentKind policy with
  | Ok Fresh => False
  | Ok (Replay resource outcome revision) =>
      "d" = or_digest record /\ resource = or_resource record /\
      (is_final (or_outcome record) = true ->
       outcome = or_outcome record /\ revision = or_revision record)
  | Err e =>
      e = ResourceError.OperationExpired \/
      (e = ResourceError.OperationConflict /\ "d" <> or_digest record)
  end.
Proof. exact (operation_never_readmitted policy collection d1 record d1_record "d" AgentKind policy). Defined.

Lemma capacity_released_once_witness :
  tracked reserved_claim
    (ledger_run policy (drop 1 history)
       (ledger_run policy (take 1 history) AllocatorDocument_default)).
Proof.
  exact (proj1 (capacity_released_once policy (take 1 history) (drop 1 history) reserved_claim
    reserved_claim_in)).
Defined.

Lemma ledger_always_valid_witness :
  validate (ledger_apply policy (OpReserve op2 "d" AgentKind g1 t2) AllocatorDocument_default) = Ok tt.
Proof.
  apply (ledger_always_valid size policy).
  apply rtc_once, current_command. discriminate.
Defined.

Lemma gc_pass_safe_witness : exists d',
  st_iter (fun phase => apply_phase phase limits 200) (gp_phases (plan_gc size d1 limits 200)) d1
    = (Ok tt, d') /\ kept limits 200 d1 d'.
Proof.
  destruct (gc_pass_safe size limits 200 d1 d1_inv d1_sound) as (d' & Hrun & _ & Hk & _).
  by exists d'.
Defined.

Lemma admission_retention_terminates_witness : exists r d',
  retain_for_admission size limits 200 d1 = (r, d') /\ kept limits 200 d1 d'.
Proof.
  destruct (admission_retention_terminates size limits 200 d1 d1_inv d1_sound)
    as (r & d' & _ & Hrun & _ & Hk & _); [vm_compute; reflexivity|].
  by exists r, d'.
Defined.
