(* ===== verification/SharedWrite.v ===== *)
(** * The fence over the other shared documents
    ([crates/daemon/src/usecase/resources/fence.rs])

    Which generation may write which shared document, and the pull-request
    inventory behind that fence.  The inventory port is a parameter: its [load]
    and [save] act on a store of any type. *)
From S2P Require Export Handoff.
Import RegistryDocument.

Inductive WriteMode : Type := WholeSnapshot | AppendOnly.
#[export] Instance write_mode_eq_dec : EqDecision WriteMode.
Proof. solve_decision. Defined.

Inductive SharedWriter : Type :=
| PrInventory
| SessionLifecycle
| DispatchRegistry
| WorkspaceDispatchRegistry
| CompletionInbox.
#[export] Instance shared_writer_eq_dec : EqDecision SharedWriter.
Proof. solve_decision. Defined.

Definition mode (w : SharedWriter) : WriteMode :=
  match w with
  | PrInventory | SessionLifecycle | WorkspaceDispatchRegistry => WholeSnapshot
  | DispatchRegistry | CompletionInbox => AppendOnly
  end.

Definition is_deferrable (w : SharedWriter) : bool :=
  match w with PrInventory => true | _ => false end.

Definition SHARED_WRITERS : list SharedWriter :=
  [PrInventory; SessionLifecycle; DispatchRegistry; WorkspaceDispatchRegistry; CompletionInbox].

Inductive WriteVerdict : Type := Allowed | DeferToOutbox | WriteRefused.
#[export] Instance write_verdict_eq_dec : EqDecision WriteVerdict.
Proof. solve_decision. Defined.

Definition shared_write_verdict (writer : SharedWriter) (role : GenerationRole) : WriteVerdict :=
  match role with
  | Active => Allowed
  | Draining =>
      match mode writer with
      | AppendOnly => Allowed
      | WholeSnapshot => if is_deferrable writer then DeferToOutbox else WriteRefused
      end
  | Standby | Retired => WriteRefused
  end.

Record FenceRefusal := MkFenceRefusal { fr_writer : SharedWriter; fr_role : GenerationRole }.

Inductive FencedError (E : Type) : Type := FencePort (error : E) | FenceRefused (refusal : FenceRefusal).
Global Arguments FencePort {E} error.
Global Arguments FenceRefused {E} refusal.

(** [FencedPrInventory] over a port whose operations act on a store [S]. *)
Section fenced.
Context {S E V : Type} (port_load : st S E V) (port_save : V -> st S E unit).

Definition writable (role : GenerationRole) : bool :=
  bool_decide (shared_write_verdict PrInventory role = Allowed).

Definition fenced_load : st S (FencedError E) V := fun s =>
  let (r, s') := port_load s in (map_err FencePort r, s').

Definition fenced_save (role : GenerationRole) (sessions : V) : st S (FencedError E) unit := fun s =>
  if negb (writable role) then (Err (FenceRefused (MkFenceRefusal PrInventory role)), s)
  else let (r, s') := port_save sessions s in (map_err FencePort r, s').

End fenced.

Lemma verdict_snapshot writer role :
  mode writer = WholeSnapshot ->
  (shared_write_verdict writer role = Allowed <-> role = Active).
Proof. intros Hm. destruct role; simpl; rewrite ?Hm; try destruct (is_deferrable _); naive_solver. Qed.

Lemma active_iff_current limit d g r :
  valid limit d -> role d g = Some r -> (r = Active <-> rd_current d = Some g).
Proof.
  intros Hv Hr. unfold role in Hr. destruct (entry d g) as [e|] eqn:Ee; [|done].
  simpl in Hr. simplify_eq. destruct (entry_Some _ _ _ Ee) as [He <-]. split.
  - apply Hv, He.
  - intros Hc. destruct (valid_current _ _ Hv _ Hc) as (e' & He' & Eg & <-).
    f_equal. apply (keys_inj ge_generation (rd_generations d)); [apply Hv|done..].
Qed.

(** A whole-snapshot document has one writer.  In every registry the operations
    can produce, at most one generation is allowed to replace a whole-snapshot
    document: the current one.  Every other generation's save of the fenced
    inventory is refused without touching the store, the current one's goes
    through to the port unchanged, and reads stay open to everyone. *)
Theorem one_snapshot_writer {S E V} (port_load : st S E V) (port_save : V -> st S E unit)
    limit d g r writer :
  rtc (registry_op limit) RegistryDocument_default d -> role d g = Some r ->
  mode writer = WholeSnapshot ->
  (shared_write_verdict writer r = Allowed <-> rd_current d = Some g) /\
  writer ∈ SHARED_WRITERS /\
  forall sessions s,
    fenced_save port_save r sessions s =
      (if bool_decide (rd_current d = Some g)
       then (map_err FencePort (fst (port_save sessions s)), snd (port_save sessions s))
       else (Err (FenceRefused (MkFenceRefusal PrInventory r)), s)) /\
    fenced_load port_load s = (map_err FencePort (fst (port_load s)), snd (port_load s)).
Proof.
  intros Hv%registry_reachable_valid Hr Hm.
  pose proof (active_iff_current _ _ _ _ Hv Hr) as Hcur. split_and!.
  - by rewrite verdict_snapshot.
  - destruct writer; unfold SHARED_WRITERS; set_solver.
  - unfold fenced_save, writable, fenced_load. intros sessions s.
    destruct (port_load s) as [rl sl]. split; [|done].
    assert (Hw : shared_write_verdict PrInventory r = Allowed <-> rd_current d = Some g)
      by (by rewrite verdict_snapshot).
    destruct (decide (rd_current d = Some g)) as [Ec|Ec].
    + rewrite !bool_decide_true by tauto. by destruct (port_save sessions s).
    + by rewrite !bool_decide_false by tauto.
Qed.

Lemma one_snapshot_writer_witness :
  fenced_save (S := nat) (E := unit) (fun v _ => (Ok tt, v)) Draining 7 3 =
  (Err (FenceRefused (MkFenceRefusal PrInventory Draining)), 3).
Proof.
  exact (proj1 (proj2 (proj2 (one_snapshot_writer (fun s => (Ok s, s)) (fun v _ => (Ok tt, v)) 2
    HandoffExample.committed HandoffExample.g1 Draining PrInventory
    HandoffExample.committed_reachable ltac:(vm_compute; reflexivity) eq_refl)) 7 3)).
Defined.
