(* ===== verification/Shard.v ===== *)
(** * One owner generation's runtime shard
    ([crates/daemon/src/usecase/resources/shard.rs])

    The document exactly one process writes: the resources of a generation, its
    outbox of events for the active consumer, and the commands in flight. *)
From S2P Require Export Allocator.

Definition SHARD_SCHEMA : string := "usagi-owner-shard-v1".

Module ResourceState.
Inductive t : Type := Reserved | Running | Exited (status : option Z) | OwnershipUnknown.
#[export] Instance eq_dec : EqDecision t.
Proof. solve_decision. Defined.
Definition is_live (s : t) : bool := match s with Reserved | Running => true | _ => false end.
Definition is_exited (s : t) : bool := match s with Exited _ => true | _ => false end.
End ResourceState.
Export (hints) ResourceState.

Record ShardResource := MkShardResource {
  sr_resource : TerminalRef;
  sr_kind : ResourceKind;
  sr_operation : OperationId;
  sr_digest : string;
  sr_process : option ChildIdentity;
  sr_state : ResourceState.t;
  sr_payload : option string;
  sr_revision : N;
}.
#[export] Instance shard_resource_eq_dec : EqDecision ShardResource.
Proof. solve_decision. Defined.

Module OwnerEvent.
Inductive t : Type :=
| Output (offset : N)
| CommandCompleted (command : OperationId)
| Exit (status : option Z).
#[export] Instance eq_dec : EqDecision t.
Proof. solve_decision. Defined.
Definition is_terminal (e : t) : bool := match e with Exit _ => true | _ => false end.
End OwnerEvent.
Export (hints) OwnerEvent.

Record OutboxEvent := MkOutboxEvent {
  oe_event_revision : N;
  oe_resource : TerminalRef;
  oe_event : OwnerEvent.t;
}.
#[export] Instance outbox_event_eq_dec : EqDecision OutboxEvent.
Proof. solve_decision. Defined.

Record InFlightCommand := MkInFlightCommand { if_resource : TerminalRef; if_command : OperationId }.
#[export] Instance in_flight_command_eq_dec : EqDecision InFlightCommand.
Proof. solve_decision. Defined.

Record ShardDocument := MkShardDocument {
  sd_schema : string;
  sd_owner : DaemonGeneration;
  sd_revision : N;
  sd_resources : list ShardResource;
  sd_outbox : list OutboxEvent;
  sd_in_flight : list InFlightCommand;
  sd_event_sequence : N;
}.
#[export] Instance shard_document_eq_dec : EqDecision ShardDocument.
Proof. solve_decision. Defined.

(** Field assignments. *)
Definition set_sd_revision (v : N) (d : ShardDocument) :=
  MkShardDocument (sd_schema d) (sd_owner d) v (sd_resources d) (sd_outbox d) (sd_in_flight d)
    (sd_event_sequence d).
Definition set_sd_resources (v : list ShardResource) (d : ShardDocument) :=
  MkShardDocument (sd_schema d) (sd_owner d) (sd_revision d) v (sd_outbox d) (sd_in_flight d)
    (sd_event_sequence d).
Definition set_sd_outbox (v : list OutboxEvent) (d : ShardDocument) :=
  MkShardDocument (sd_schema d) (sd_owner d) (sd_revision d) (sd_resources d) v (sd_in_flight d)
    (sd_event_sequence d).
Definition set_sd_in_flight (v : list InFlightCommand) (d : ShardDocument) :=
  MkShardDocument (sd_schema d) (sd_owner d) (sd_revision d) (sd_resources d) (sd_outbox d) v
    (sd_event_sequence d).
Definition set_sd_event_sequence (v : N) (d : ShardDocument) :=
  MkShardDocument (sd_schema d) (sd_owner d) (sd_revision d) (sd_resources d) (sd_outbox d)
    (sd_in_flight d) v.
Definition set_sr_state (s : ResourceState.t) (e : ShardResource) :=
  MkShardResource (sr_resource e) (sr_kind e) (sr_operation e) (sr_digest e) (sr_process e) s
    (sr_payload e) (sr_revision e + 1).
Definition set_sr_spawned (i : ChildIdentity) (e : ShardResource) :=
  MkShardResource (sr_resource e) (sr_kind e) (sr_operation e) (sr_digest e) (Some i)
    ResourceState.Running (sr_payload e) (sr_revision e + 1).
Definition set_sr_payload (p : string) (e : ShardResource) :=
  MkShardResource (sr_resource e) (sr_kind e) (sr_operation e) (sr_digest e) (sr_process e)
    (sr_state e) (Some p) (sr_revision e + 1).

(** The key the lookups compare. *)
Definition resource_key (e : ShardResource) : TerminalId := tr_terminal_id (sr_resource e).
Definition outbox_key (e : OutboxEvent) : TerminalId := tr_terminal_id (oe_resource e).

(** [fn applied] *)
Definition applied (allocator : AllocatorDocument) (event : OutboxEvent) : bool :=
  bool_decide (AllocatorDocument.claim allocator (oe_resource event) = None) ||
  match AllocatorDocument.consumed_revision allocator (oe_resource event) with
  | Some revision => (oe_event_revision event <=? revision)%N
  | None => false
  end.

Module ShardDocument.
Definition doc_st := st ShardDocument ResourceError.t.

Definition empty (owner : DaemonGeneration) : ShardDocument :=
  MkShardDocument SHARD_SCHEMA owner 0 [] [] [] 0.

Definition resource (d : ShardDocument) (r : TerminalRef) : option ShardResource :=
  find_first (at_key resource_key (tr_terminal_id r)) (sd_resources d).

Definition update (r : TerminalRef) (f : ShardResource -> ShardResource) (d : ShardDocument)
    : ShardDocument :=
  set_sd_resources (update_first (at_key resource_key (tr_terminal_id r)) f (sd_resources d)) d.

(** The loops of [validate] refuse with the same error wherever they stop. *)
Definition entry_valid (d : ShardDocument) (e : ShardResource) : bool :=
  bool_decide (tr_daemon_generation (sr_resource e) = sd_owner d) &&
  match sr_state e with
  | ResourceState.Running =>
      match sr_process e with Some p => is_verifiable p | None => false end
  | ResourceState.Reserved => bool_decide (sr_process e = None)
  | _ => true
  end.

Definition validate (d : ShardDocument) : result ResourceError.t unit :=
  if negb (bool_decide (sd_schema d = SHARD_SCHEMA)) then Err ResourceError.UnknownSchema
  else if negb (insert_all (∅ : gset string) ((fun e => as_str (resource_key e)) <$> sd_resources d)
                && forallb (entry_valid d) (sd_resources d)) then Err ResourceError.Corrupt
  else if negb (insert_all (∅ : gset N) (oe_event_revision <$> sd_outbox d) &&
                forallb (fun e => (oe_event_revision e <=? sd_event_sequence d)%N &&
                                  bool_decide (is_Some (resource d (oe_resource e)))) (sd_outbox d))
  then Err ResourceError.Corrupt
  else if negb (forallb (fun c => bool_decide (is_Some (resource d (if_resource c)))) (sd_in_flight d))
  then Err ResourceError.Corrupt
  else Ok tt.

Definition live_resources (d : ShardDocument) : nat :=
  count (fun e => ResourceState.is_live (sr_state e)) (sd_resources d).

Definition reserve (op : OperationId) (digest : string) (kind : ResourceKind) (r : TerminalRef)
    : doc_st unit := fun d =>
  if negb (bool_decide (tr_daemon_generation r = sd_owner d)) then (Err ResourceError.ForeignOwner, d)
  else
    match resource d r with
    | Some existing =>
        if bool_decide (sr_operation existing = op) && bool_decide (sr_digest existing = digest) &&
           bool_decide (sr_kind existing = kind)
        then (Ok tt, d) else (Err ResourceError.DuplicateResource, d)
    | None =>
        (Ok tt, set_sd_resources
                  (sd_resources d ++
                   [MkShardResource r kind op digest None ResourceState.Reserved None 1]) d)
    end.

Definition set_payload (r : TerminalRef) (payload : string) : doc_st unit := fun d =>
  match resource d r with
  | None => (Err ResourceError.UnknownResource, d)
  | Some entry =>
      if bool_decide (sr_payload entry = Some payload) then (Ok tt, d)
      else (Ok tt, update r (set_sr_payload payload) d)
  end.

Definition record_spawn (r : TerminalRef) (identity : ChildIdentity) : doc_st unit := fun d =>
  if negb (is_verifiable identity) then (Err ResourceError.IdentityUnverifiable, d)
  else
    match resource d r with
    | None => (Err ResourceError.UnknownResource, d)
    | Some entry =>
        match sr_state entry with
        | ResourceState.Reserved => (Ok tt, update r (set_sr_spawned identity) d)
        | ResourceState.Running =>
            if bool_decide (sr_process entry = Some identity) then (Ok tt, d)
            else (Err ResourceError.WrongState, d)
        | _ => (Err ResourceError.WrongState, d)
        end
    end.

Definition mark_ownership_unknown (r : TerminalRef) : doc_st unit := fun d =>
  match resource d r with
  | None => (Err ResourceError.UnknownResource, d)
  | Some entry =>
      if bool_decide (sr_state entry = ResourceState.OwnershipUnknown) then (Ok tt, d)
      else (Ok tt, update r (set_sr_state ResourceState.OwnershipUnknown) d)
  end.

Definition publish (r : TerminalRef) (event : OwnerEvent.t) (d : ShardDocument) : ShardDocument :=
  let d1 := set_sd_event_sequence (sd_event_sequence d + 1) d in
  set_sd_outbox (sd_outbox d1 ++ [MkOutboxEvent (sd_event_sequence d1) r event]) d1.

Definition commit_exit (r : TerminalRef) (status : option Z) : doc_st unit := fun d =>
  match resource d r with
  | None => (Err ResourceError.UnknownResource, d)
  | Some entry =>
      let exit :=
        let d1 := update r (set_sr_state (ResourceState.Exited status)) d in
        let d2 := set_sd_in_flight
                    (retain (fun c => negb (bool_decide (tr_terminal_id (if_resource c) =
                                                         tr_terminal_id r))) (sd_in_flight d1)) d1 in
        (Ok tt, publish r (OwnerEvent.Exit status) d2) in
      match sr_state entry with
      | ResourceState.Exited recorded =>
          if bool_decide (recorded = status) then (Ok tt, d) else (Err ResourceError.WrongState, d)
      | ResourceState.Running | ResourceState.Reserved => exit
      | ResourceState.OwnershipUnknown => (Err ResourceError.WrongState, d)
      end
  end.

(** [reclaim] returns how many outbox entries it dropped. *)
Definition reclaim (allocator : AllocatorDocument) (d : ShardDocument) : nat * ShardDocument :=
  let before := length (sd_outbox d) in
  let d1 := set_sd_outbox (retain (fun e => negb (applied allocator e)) (sd_outbox d)) d in
  let d2 := set_sd_resources
              (retain (fun e => negb (ResourceState.is_exited (sr_state e)) ||
                                bool_decide (is_Some (sr_payload e)) ||
                                any (fun event => bool_decide (outbox_key event = resource_key e))
                                    (sd_outbox d1)) (sd_resources d1)) d1 in
  (before - length (sd_outbox d2), d2).

Definition forget (r : TerminalRef) : doc_st unit := fun d =>
  match resource d r with
  | None => (Ok tt, d)
  | Some entry =>
      if ResourceState.is_live (sr_state entry) then (Err ResourceError.WrongState, d)
      else
        let d1 := set_sd_resources
                    (retain (fun e => negb (bool_decide (resource_key e = tr_terminal_id r)))
                       (sd_resources d)) d in
        (Ok tt, set_sd_outbox
                  (retain (fun e => negb (bool_decide (outbox_key e = tr_terminal_id r)))
                     (sd_outbox d1)) d1)
  end.

Definition unacked_outbox (d : ShardDocument) : nat := length (sd_outbox d).

Definition unconsumed_outbox (allocator : AllocatorDocument) (d : ShardDocument) : nat :=
  count (fun e => negb (applied allocator e)) (sd_outbox d).
End ShardDocument.

(** ** Collection *)
Inductive CollectionBlocker : Type := LiveResource | InFlight | UnackedOutbox | CapacityClaim.
#[export] Instance collection_blocker_eq_dec : EqDecision CollectionBlocker.
Proof. solve_decision. Defined.

(** [fn drained] *)
Definition shard_drained (shard : ShardDocument) (allocator : AllocatorDocument) (pending : nat)
    : result CollectionBlocker unit :=
  if (0 <? ShardDocument.live_resources shard)%nat then Err LiveResource
  else if negb (bool_decide (sd_in_flight shard = [])) then Err InFlight
  else if (0 <? pending)%nat then Err UnackedOutbox
  else if (0 <? AllocatorDocument.owner_claims allocator (sd_owner shard))%nat then Err CapacityClaim
  else Ok tt.

Definition collectable (shard : ShardDocument) (allocator : AllocatorDocument) :=
  shard_drained shard allocator (ShardDocument.unacked_outbox shard).

Definition retired_collectable (shard : ShardDocument) (allocator : AllocatorDocument) :=
  shard_drained shard allocator (ShardDocument.unconsumed_outbox allocator shard).

(** ** The shard over its file *)
#[export] Instance shard_cas : CasDocument ShardDocument ResourceError.t := {
  doc_revision := sd_revision;
  doc_bump := fun d => set_sd_revision (sd_revision d + 1) d;
  doc_validate := ShardDocument.validate;
}.
#[export] Instance shard_cas_laws : CasDocumentLaws ShardDocument ResourceError.t.
Proof. done. Qed.

Definition owned_by (d : ShardDocument) (owner : DaemonGeneration) : result ResourceError.t unit :=
  if bool_decide (sd_owner d = owner) then Ok tt else Err ResourceError.ForeignOwner.

Section owner_shard.
Context {Bytes : Type} `{EqDecision Bytes} `{Serde ShardDocument Bytes}.

(** [OwnerShard::load] and [OwnerShard::update] *)
Definition shard_load (owner : DaemonGeneration)
    : st (FileState Bytes) ResourceFailure (CasSnapshot ShardDocument Bytes) :=
  cas_load (E := ResourceError.t) (ShardDocument.empty owner).

Definition shard_update {T} (owner : DaemonGeneration) (change : ShardDocument.doc_st T)
    : st (FileState Bytes) ResourceFailure (T * CasSnapshot ShardDocument Bytes) :=
  cas_update (ShardDocument.empty owner) (fun document =>
    st_bind (st_lift (owned_by document owner)) (fun _ => change) document).
End owner_shard.
