(* ===== verification/Drain.v ===== *)
(** * Handing a draining owner's events to the active consumer
    ([crates/daemon/src/usecase/resources/drain.rs])

    The consumer over the allocator's file, and the exactly-once protocol
    between one shard and the allocator as a transition system: the owner
    publishes (E1), the consumer applies (E2), the owner reclaims what it saw
    applied (E3), while the owner drops records it no longer retains and every
    other writer of the allocator interleaves. *)
From S2P Require Export Shard LedgerGc.

Record ConsumeReport := MkConsumeReport {
  cr_applied : nat;
  cr_duplicates : nat;
  cr_refused : nat;
}.

Definition ConsumeReport_default : ConsumeReport := MkConsumeReport 0 0 0.

(** [sort_by_key(|event| event.event_revision)] *)
Definition revision_le (a b : OutboxEvent) : Prop := (oe_event_revision a <= oe_event_revision b)%N.
#[export] Instance revision_le_dec : RelDecision revision_le.
Proof. intros a b. unfold revision_le. apply _. Defined.

Section consumer.
Context {Bytes : Type} `{EqDecision Bytes} `{Serde AllocatorDocument Bytes}.

Local Notation consumer_st := (st (FileState Bytes) ResourceFailure).

(** [ActiveConsumer::apply]: a refusal is data, it must not roll anything back. *)
Definition consume_change (owner : DaemonGeneration) (event : OutboxEvent)
    : AllocatorDocument.doc_st (result ResourceError.t ConsumeOutcome) := fun document =>
  let (r, document') :=
    (if OwnerEvent.is_terminal (oe_event event)
     then AllocatorDocument.consume_exit owner (oe_resource event) (oe_event_revision event)
     else AllocatorDocument.consume_progress owner (oe_resource event) (oe_event_revision event))
      document in
  (Ok r, document').

Definition apply_event (owner : DaemonGeneration) (event : OutboxEvent)
    : consumer_st (result ResourceError.t ConsumeOutcome) :=
  outcome <-! allocator_update (consume_change owner event) ;; st_ret (fst outcome).

Definition count_outcome (r : result ResourceError.t ConsumeOutcome) (report : ConsumeReport)
    : ConsumeReport :=
  match r with
  | Ok Applied => MkConsumeReport (cr_applied report + 1) (cr_duplicates report) (cr_refused report)
  | Ok AlreadyConsumed =>
      MkConsumeReport (cr_applied report) (cr_duplicates report + 1) (cr_refused report)
  | Err _ => MkConsumeReport (cr_applied report) (cr_duplicates report) (cr_refused report + 1)
  end.

Fixpoint consume_events (owner : DaemonGeneration) (events : list OutboxEvent)
    (report : ConsumeReport) : consumer_st ConsumeReport :=
  match events with
  | [] => st_ret report
  | event :: events =>
      r <-! apply_event owner event ;; consume_events owner events (count_outcome r report)
  end.

(** [ActiveConsumer::consume] *)
Definition consume (shard : ShardDocument) : consumer_st ConsumeReport :=
  consume_events (sd_owner shard) (merge_sort revision_le (sd_outbox shard)) ConsumeReport_default.
End consumer.

(** ** The protocol as a transition system *)

(** The owner's own transitions that keep its records; [ShardDocument.forget],
    with which a save drops the records its owner no longer retains, is a step
    of its own below. *)
Inductive OwnerOp : Type :=
| OwnReserve (op : OperationId) (digest : string) (kind : ResourceKind) (r : TerminalRef)
| OwnSpawn (r : TerminalRef) (identity : ChildIdentity)
| OwnUnknown (r : TerminalRef)
| OwnPayload (r : TerminalRef) (payload : string)
| OwnExit (r : TerminalRef) (status : option Z).

Definition owner_apply (o : OwnerOp) (s : ShardDocument) : ShardDocument :=
  match o with
  | OwnReserve op digest kind r => snd (ShardDocument.reserve op digest kind r s)
  | OwnSpawn r identity => snd (ShardDocument.record_spawn r identity s)
  | OwnUnknown r => snd (ShardDocument.mark_ownership_unknown r s)
  | OwnPayload r payload => snd (ShardDocument.set_payload r payload s)
  | OwnExit r status => snd (ShardDocument.commit_exit r status s)
  end.

(** The shard, the allocator, every event ever published, every terminal whose
    claim was ever taken, and the allocator snapshots processes still hold. *)
Record System := MkSystem {
  s_shard : ShardDocument;
  s_ledger : AllocatorDocument;
  s_published : list OutboxEvent;
  s_used : list TerminalId;
  s_seen : list AllocatorDocument;
}.

(** A ledger command that takes no claim and applies no event of [owner]. *)
Definition unrelated (owner : DaemonGeneration) (o : LedgerOp) : Prop :=
  match o with
  | OpReserve _ _ _ _ resource => tr_daemon_generation resource <> owner
  | OpConsume o' resource _ _ => tr_daemon_generation resource <> owner
  | _ => True
  end.

Section protocol.
(** Terminal identities are minted once: an identity belongs to one generation
    ([TerminalId::new], a never-reused UUID). *)
Context (minted : TerminalId -> DaemonGeneration) (policy : CapacityPolicy).

Definition genuine (r : TerminalRef) : Prop :=
  minted (tr_terminal_id r) = tr_daemon_generation r.

Definition command_genuine (o : LedgerOp) : Prop :=
  match o with
  | OpReserve _ _ _ _ resource | OpConsume _ resource _ _ => genuine resource
  | _ => True
  end.

Definition owner_genuine (o : OwnerOp) : Prop :=
  match o with
  | OwnReserve _ _ _ r | OwnSpawn r _ | OwnUnknown r | OwnPayload r _ | OwnExit r _ => genuine r
  end.

(** What one owner transition published. *)
Definition outbox_step (s s' : ShardDocument) : list OutboxEvent :=
  drop (length (sd_outbox s)) (sd_outbox s').

(** Reclaims read a snapshot that may be older than the ledger, but not than the
    claims of the events that are still waiting: an owner sweeps its outbox when
    it is draining and takes no new claim. *)
Inductive step : System -> System -> Prop :=
| step_owner s a p u v o :
    owner_genuine o ->
    step (MkSystem s a p u v)
      (MkSystem (owner_apply o s) a (p ++ outbox_step s (owner_apply o s)) u v)
| step_forget s a p u v r :
    step (MkSystem s a p u v) (MkSystem (snd (ShardDocument.forget r s)) a p u v)
| step_claim s a p u v op digest kind r :
    tr_daemon_generation r = sd_owner s -> genuine r -> tr_terminal_id r ∉ u ->
    (forall e, ShardDocument.resource s r = Some e -> ResourceState.is_exited (sr_state e) = false) ->
    step (MkSystem s a p u v)
      (MkSystem s (ledger_apply policy (OpReserve op digest kind (sd_owner s) r) a) p
         (tr_terminal_id r :: u) v)
| step_consume s a p u v e :
    e ∈ p ->
    step (MkSystem s a p u v)
      (MkSystem s (ledger_apply policy (OpConsume (sd_owner s) (oe_resource e)
         (oe_event_revision e) (OwnerEvent.is_terminal (oe_event e))) a) p u v)
| step_ledger s a p u v o :
    unrelated (sd_owner s) o -> command_genuine o ->
    step (MkSystem s a p u v) (MkSystem s (ledger_apply policy o a) p u v)
| step_load s a p u v : step (MkSystem s a p u v) (MkSystem s a p u (a :: v))
| step_reclaim s a p u v a0 :
    a0 ∈ v ->
    (forall e, e ∈ sd_outbox s -> is_Some (AllocatorDocument.claim a (oe_resource e)) ->
       is_Some (AllocatorDocument.claim a0 (oe_resource e))) ->
    step (MkSystem s a p u v) (MkSystem (snd (ShardDocument.reclaim a0 s)) a p u v).

(** *** What a ledger command does to one of the owner's terminals *)
Import AllocatorDocument.

Record evolves (r : TerminalRef) (a a' : AllocatorDocument) : Prop := {
  evolves_none : claim a r = None -> claim a' r = None;
  evolves_some : forall c', claim a' r = Some c' -> exists c, claim a r = Some c /\
    rc_owner c' = rc_owner c /\ (holds c' = true -> holds c = true) /\
    consumed_revision a' r = consumed_revision a r;
  evolves_unclaimed : (claim a r = None -> consumed_revision a r = None) ->
    claim a' r = None -> consumed_revision a' r = None;
}.

#[export] Instance evolves_preorder r : PreOrder (evolves r).
Proof.
  split.
  - intros a. split; [done| |auto]. intros c Hc. by exists c.
  - intros a b c [N1 S1 U1] [N2 S2 U2]. split; [auto| |auto]. intros c3 H3.
    destruct (S2 _ H3) as (c2 & Hc2 & ? & ? & ?). destruct (S1 _ Hc2) as (c1 & Hc1 & ? & ? & ?).
    exists c1. split_and!; [done|congruence|auto|congruence].
Qed.

Lemma evolves_same r a a' :
  ad_claims a' = ad_claims a -> ad_consumed a' = ad_consumed a -> evolves r a a'.
Proof.
  intros Hc He. split; unfold claim, consumed_revision; rewrite Hc, ?He; [done| |done].
  intros c H. by exists c.
Qed.

Lemma evolves_update_claim r a k s :
  (forall c, find_first (at_key claim_key k) (ad_claims a) = Some c ->
     holds (set_claim_state s c) = true -> holds c = true) ->
  evolves r a (update_claim k s a).
Proof.
  intros Hs. assert (E : claim (update_claim k s a) r =
    if decide (tr_terminal_id r = k) then set_claim_state s <$> claim a r else claim a r)
    by (by apply (kfind_update claim_key)).
  split; rewrite E; [intros ->; by case_decide| |].
  2:{ intros Hu. case_decide; [|exact Hu]. intros Hn. apply Hu. by destruct (claim a r). }
  intros c'. case_decide as Ek; [|intros Hc; by exists c'].
  destruct (claim a r) as [c|] eqn:Ec; [|done]. intros [= <-]. exists c. split_and!; try done.
  apply Hs. by rewrite <- Ek.
Qed.

Lemma evolves_release r a resource : evolves r a (release resource a).
Proof.
  destruct (release_eq resource a) as [->|(c & _ & _ & ->)]; [reflexivity|].
  by apply evolves_update_claim.
Qed.

Lemma evolves_evicted r a op record now : evolves r a (evicted op record now a).
Proof.
  destruct (decide (tr_terminal_id r = tr_terminal_id (or_resource record))) as [E|E].
  - assert (Hn : claim (evicted op record now a) r = None); [|split; rewrite Hn; [done|done|]].
    2:{ intros _ _. unfold consumed_revision.
        assert (Hn' : find_first (at_key event_key (tr_terminal_id r))
                        (ad_consumed (evicted op record now a)) = None); [|by rewrite Hn'].
        apply (kfind_None event_key). intros (x & Ex & [_ Hx]%elem_of_retain)%list_elem_of_fmap.
        apply (retained_key event_key) in Hx. congruence. }
    apply (kfind_None claim_key). intros (c & Ec & Hc)%list_elem_of_fmap.
    apply elem_of_evicted_claim in Hc as [_ Hne]. congruence.
  - assert (Hc : consumed_revision (evicted op record now a) r = consumed_revision a r).
    { unfold consumed_revision. f_equal. apply (kfind_retain event_key). intros x _ Ex.
      apply (retained_key event_key). congruence. }
    split; rewrite claim_evicted, ?Hc by done; [done| |auto]. intros c Hcl. by exists c.
Qed.

Lemma evolves_reserved r a op digest kind owner resource :
  tr_terminal_id resource <> tr_terminal_id r ->
  evolves r a (reserved op digest kind owner resource a).
Proof.
  intros Hne. assert (E : claim (reserved op digest kind owner resource a) r = claim a r).
  { unfold claim. simpl. rewrite find_first_app. destruct (find_first _ _); [done|]. simpl.
    unfold at_key, claim_key. simpl. by rewrite bool_decide_false. }
  split; rewrite E; [done| |done]. intros c Hc. by exists c.
Qed.

Lemma consumed_record_event a r owner resource rev :
  consumed_revision (set_ad_consumed (record_event owner resource rev (ad_consumed a)) a) r =
  if decide (tr_terminal_id r = tr_terminal_id resource) then Some rev else consumed_revision a r.
Proof.
  unfold consumed_revision, record_event. simpl.
  destruct (find_first (at_key event_key (tr_terminal_id resource)) (ad_consumed a)) as [e|] eqn:Ee.
  - rewrite (kfind_update event_key) by done. case_decide as E; [|done]. by rewrite E, Ee.
  - rewrite find_first_app. case_decide as E.
    + rewrite E, Ee. simpl. unfold at_key, event_key. simpl. by rewrite bool_decide_true.
    + destruct (find_first (at_key event_key (tr_terminal_id r)) (ad_consumed a)); [done|]. simpl.
      unfold at_key, event_key. simpl. by rewrite bool_decide_false by congruence.
Qed.

Lemma evolves_consumed r a owner resource rev :
  tr_terminal_id resource <> tr_terminal_id r ->
  evolves r a (set_ad_consumed (record_event owner resource rev (ad_consumed a)) a).
Proof.
  intros Hne. assert (E : tr_terminal_id r <> tr_terminal_id resource) by congruence.
  split; [done| |]; rewrite consumed_record_event, decide_False by done; [|auto].
  intros c Hc. by exists c.
Qed.

Lemma evolves_seal r a op outcome now d1 res :
  seal op outcome now a = (res, d1) -> evolves r a d1.
Proof. intros [->|(? & _ & _ & _ & ->)]%seal_eq; [reflexivity|by apply evolves_same]. Qed.

Lemma evolves_phase r a phase limits now d1 res :
  apply_phase phase limits now a = (res, d1) -> evolves r a d1.
Proof.
  destruct phase as [ops|candidate|ops].
  - intros H. eapply (st_iter_preserves (evolves r a)); [|exact H|reflexivity].
    intros op s r0 s' _ [[-> _]|(record & _ & _ & _ & _ & ->)]%evict_eq Hs; [done|].
    etransitivity; [exact Hs|apply evolves_evicted].
  - intros [_ [[-> _]|[-> _]]]%advance_eq; [reflexivity|by apply evolves_same].
  - intros [[-> _]|(w & _ & _ & -> & _)]%compact_eq; [reflexivity|by apply evolves_same].
Qed.

Lemma evolves_command owner o a r :
  unrelated owner o -> command_genuine o -> tr_daemon_generation r = owner -> genuine r ->
  evolves r a (ledger_apply policy o a).
Proof.
  intros Hu Hg Hr Hgr.
  assert (Hne : forall resource, tr_daemon_generation resource <> owner -> genuine resource ->
    tr_terminal_id resource <> tr_terminal_id r).
  { unfold genuine. intros resource H1 H2 E. apply H1. congruence. }
  destruct o; simpl in *.
  - destruct (reserve _ _ _ _ _ _ _) as [res d1] eqn:E. simpl.
    apply reserve_eq in E as [[-> _]|(_ & _ & _ & _ & ->)]; [reflexivity|].
    by apply evolves_reserved, Hne.
  - destruct (mark_spawned _ _ _) as [res d1] eqn:E. simpl.
    apply mark_spawned_eq in E as (d2 & r1 & Hs & H).
    etransitivity; [by eapply evolves_seal|].
    destruct H as [->|(record & c & _ & Hc & Hst & ->)]; [reflexivity|].
    apply evolves_update_claim. intros c' Hc' _. change (claim d2 (or_resource record) = Some c') in Hc'.
    rewrite Hc in Hc'. simplify_eq. unfold holds. by rewrite Hst.
  - destruct (mark_failed _ _ _ _) as [res d1] eqn:E. simpl.
    apply mark_failed_eq in E as (d2 & r1 & Hs & H).
    etransitivity; [by eapply evolves_seal|].
    destruct H as [->|(record & _ & ->)]; [reflexivity|apply evolves_release].
  - destruct (mark_ambiguous _ _ _) as [res d1] eqn:E. by eapply evolves_seal.
  - destruct (release_unowned _ _ _) as [res d1] eqn:E. simpl.
    apply release_unowned_eq in E as [->| ->]; [reflexivity|apply evolves_release].
  - destruct (consume_event _ _ _ _ _) as [res d1] eqn:E. simpl.
    apply consume_event_eq in E as [[-> _]|(c & _ & _ & _ & _ & ->)]; [reflexivity|].
    etransitivity; [by apply evolves_consumed, Hne|].
    destruct terminal; [apply evolves_release|reflexivity].
  - destruct (apply_phase _ _ _ _) as [res d1] eqn:E. by eapply evolves_phase.
  - by apply evolves_same.
Qed.

(** *** What an owner transition does to the shard *)
Definition own (owner : DaemonGeneration) (r : TerminalRef) : Prop :=
  tr_daemon_generation r = owner /\ genuine r.

Lemma own_same_key owner r r' :
  own owner r -> genuine r' -> tr_terminal_id r = tr_terminal_id r' -> own owner r'.
Proof. unfold own, genuine. intros [? ?] ? E. split; [congruence|done]. Qed.

Record tidy (s : ShardDocument) : Prop := {
  tidy_keys : NoDup (resource_key <$> sd_resources s);
  tidy_own : forall e, e ∈ sd_resources s -> own (sd_owner s) (sr_resource e);
}.

Definition exited (e : ShardResource) : bool := ResourceState.is_exited (sr_state e).

(** [s'] is [s] after one owner transition that published [new]. *)
Record evolved (s s' : ShardDocument) (new : list OutboxEvent) : Prop := {
  ev_owner : sd_owner s' = sd_owner s;
  ev_tidy : tidy s';
  ev_outbox : sd_outbox s' = sd_outbox s ++ new;
  ev_sequence : (sd_event_sequence s <= sd_event_sequence s')%N;
  ev_new : forall e, e ∈ new -> OwnerEvent.is_terminal (oe_event e) = true /\
    own (sd_owner s) (oe_resource e) /\
    (sd_event_sequence s < oe_event_revision e <= sd_event_sequence s')%N;
  ev_exited : forall e', e' ∈ sd_resources s' -> exited e' = true ->
    (exists e, e ∈ sd_resources s /\ resource_key e = resource_key e' /\ exited e = true) \/
    (exists e, e ∈ new /\ outbox_key e = resource_key e');
}.

Lemma evolved_refl s : tidy s -> evolved s s [].
Proof.
  intros Ht. split; try done; [by rewrite app_nil_r|intros e He; by apply not_elem_of_nil in He|].
  intros e' He' Hx. left. by exists e'.
Qed.

(** One record is replaced by one that did not exit. *)
Lemma evolved_update s r f :
  tidy s -> (forall e, sr_resource (f e) = sr_resource e) ->
  (forall e, e ∈ sd_resources s -> resource_key e = tr_terminal_id r -> exited (f e) = true ->
     exited e = true) ->
  evolved s (ShardDocument.update r f s) [].
Proof.
  intros [Hk Ho] Hf Hx. split; try done; simpl.
  - split; simpl.
    + rewrite keys_update; [done|]. intros e. unfold resource_key. by rewrite Hf.
    + intros e [He|(e0 & [He0 _]%find_first_Some & ->)]%elem_of_update_first; [by apply Ho|].
      rewrite Hf. by apply Ho.
  - by rewrite app_nil_r.
  - intros e He. by apply not_elem_of_nil in He.
  - intros e' [He|(e0 & [He0 Hkey]%kfind_Some & ->)]%elem_of_update_first Hex; left; [by exists e'|].
    exists e0. unfold resource_key in *. rewrite Hf. split_and!; auto.
Qed.

Lemma evolved_exit s r status e0 :
  tidy s -> genuine r -> ShardDocument.resource s r = Some e0 ->
  evolved s (ShardDocument.publish r (OwnerEvent.Exit status)
     (set_sd_in_flight
        (retain (fun c => negb (bool_decide (tr_terminal_id (if_resource c) = tr_terminal_id r)))
           (sd_in_flight s))
        (ShardDocument.update r (set_sr_state (ResourceState.Exited status)) s)))
    [MkOutboxEvent (sd_event_sequence s + 1) r (OwnerEvent.Exit status)].
Proof.
  intros [Hk Ho] Hg He0. destruct (kfind_Some _ _ _ _ He0) as [Hin0 Hkey0]. split; try done; simpl.
  - split; simpl; [by rewrite keys_update|].
    intros e [He|(e1 & [He1 _]%find_first_Some & ->)]%elem_of_update_first;
      [by apply Ho|exact (Ho e1 He1)].
  - lia.
  - intros e ->%list_elem_of_singleton. simpl. split_and!; [done| |lia|lia].
    eapply own_same_key; [apply (Ho e0 Hin0)|done|done].
  - intros e' [He|(e1 & [He1 Hkey]%kfind_Some & ->)]%elem_of_update_first Hex.
    + left. by exists e'.
    + right. eexists. split; [left|]. unfold outbox_key, resource_key in *. simpl. by rewrite Hkey.
Qed.

Lemma owner_evolved o s :
  tidy s -> owner_genuine o -> exists new, evolved s (owner_apply o s) new.
Proof.
  intros Ht Hg. pose proof (evolved_refl s Ht) as Hrefl. destruct o; simpl in *.
  - unfold ShardDocument.reserve. case_bool_decide as Ho; simpl; [|eauto].
    destruct (ShardDocument.resource s r) as [e|] eqn:Er; [repeat case_bool_decide; simpl; eauto|].
    exists []. destruct Ht as [Hk Ho']. split; try done; simpl.
    + split; simpl.
      * rewrite fmap_app. apply list.NoDup_app. split_and!; [done| |apply list.NoDup_singleton].
        intros k Hin ->%list_elem_of_singleton. by apply (kfind_None resource_key) in Er.
      * intros e [?| ->%list_elem_of_singleton]%elem_of_app; [by apply Ho'|]. by split.
    + by rewrite app_nil_r.
    + intros e He. by apply not_elem_of_nil in He.
    + intros e [?| ->%list_elem_of_singleton]%elem_of_app Hx; [left; by exists e|done].
  - unfold ShardDocument.record_spawn. destruct (is_verifiable _); simpl; [|eauto].
    destruct (ShardDocument.resource s r) as [e|] eqn:Er; simpl; [|eauto].
    destruct (sr_state e); simpl; eauto; [|case_bool_decide; eauto].
    exists []. by apply evolved_update.
  - unfold ShardDocument.mark_ownership_unknown.
    destruct (ShardDocument.resource s r) as [e|] eqn:Er; simpl; [|eauto].
    case_bool_decide; simpl; [eauto|]. exists []. by apply evolved_update.
  - unfold ShardDocument.set_payload.
    destruct (ShardDocument.resource s r) as [e|] eqn:Er; simpl; [|eauto].
    case_bool_decide; simpl; [eauto|]. exists []. by apply evolved_update.
  - unfold ShardDocument.commit_exit.
    destruct (ShardDocument.resource s r) as [e|] eqn:Er; simpl; [|eauto].
    destruct (sr_state e); simpl; eauto; [| |case_bool_decide; eauto];
      eexists; by eapply evolved_exit.
Qed.

(** *** The invariant *)
Record good (owner : DaemonGeneration) (x : System) : Prop := {
  g_owner : sd_owner (s_shard x) = owner;
  g_tidy : tidy (s_shard x);
  g_published : forall e, e ∈ s_published x -> OwnerEvent.is_terminal (oe_event e) = true /\
    own owner (oe_resource e) /\ (oe_event_revision e <= sd_event_sequence (s_shard x))%N;
  g_outbox : forall e, e ∈ sd_outbox (s_shard x) -> e ∈ s_published x;
  g_bound : forall r rev, own owner r -> consumed_revision (s_ledger x) r = Some rev ->
    (rev <= sd_event_sequence (s_shard x))%N;
  g_unclaimed : forall r, own owner r -> claim (s_ledger x) r = None ->
    consumed_revision (s_ledger x) r = None;
  g_used : forall r, own owner r -> is_Some (claim (s_ledger x) r) -> tr_terminal_id r ∈ s_used x;
  g_seen_used : forall a0 r, a0 ∈ s_seen x -> own owner r -> is_Some (claim a0 r) ->
    tr_terminal_id r ∈ s_used x;
  g_seen : forall a0 r rev, a0 ∈ s_seen x -> own owner r -> is_Some (claim a0 r) ->
    is_Some (claim (s_ledger x) r) -> consumed_revision a0 r = Some rev ->
    exists rev', consumed_revision (s_ledger x) r = Some rev' /\ (rev <= rev')%N;
  g_claim_owner : forall r c, own owner r -> claim (s_ledger x) r = Some c -> rc_owner c = owner;
  g_exits : forall e c, e ∈ sd_resources (s_shard x) -> exited e = true ->
    claim (s_ledger x) (sr_resource e) = Some c -> holds c = true ->
    exists ev, ev ∈ sd_outbox (s_shard x) /\ outbox_key ev = resource_key e /\
      applied (s_ledger x) ev = false;
}.

Lemma applied_key a ev ev' :
  tr_terminal_id (oe_resource ev) = tr_terminal_id (oe_resource ev') ->
  oe_event_revision ev = oe_event_revision ev' -> applied a ev = applied a ev'.
Proof. unfold applied, claim, consumed_revision. by intros -> ->. Qed.

Lemma applied_false a ev :
  applied a ev = false <->
  is_Some (claim a (oe_resource ev)) /\
  forall rev, consumed_revision a (oe_resource ev) = Some rev -> (rev < oe_event_revision ev)%N.
Proof.
  unfold applied. rewrite orb_false_iff, bool_decide_eq_false, not_eq_None_Some.
  destruct (consumed_revision _ _) as [rev|]; [|naive_solver].
  rewrite N.leb_gt. naive_solver.
Qed.

Lemma claim_key_eq a r r' : tr_terminal_id r = tr_terminal_id r' -> claim a r = claim a r'.
Proof. unfold claim. by intros ->. Qed.

Lemma consumed_key_eq a r r' :
  tr_terminal_id r = tr_terminal_id r' -> consumed_revision a r = consumed_revision a r'.
Proof. unfold consumed_revision. by intros ->. Qed.

Definition let_go (c : ResourceClaim) : ResourceClaim :=
  if holds c then set_claim_state ClaimState.Released c else c.

Lemma holds_let_go c : holds (let_go c) = false.
Proof. unfold let_go. by destruct (holds c) eqn:E. Qed.

Lemma owner_let_go c : rc_owner (let_go c) = rc_owner c.
Proof. unfold let_go. by destruct (holds c). Qed.

Lemma claim_release a r r' :
  claim (release r a) r' =
  if decide (tr_terminal_id r' = tr_terminal_id r) then let_go <$> claim a r' else claim a r'.
Proof.
  unfold release. destruct (claim a r) as [c|] eqn:Ec.
  - destruct (holds c) eqn:Eh.
    + etransitivity; [by apply (kfind_update claim_key)|]. case_decide as E; [|done].
      fold (claim a r'). rewrite (claim_key_eq _ _ _ E), Ec. unfold let_go. simpl. by rewrite Eh.
    + case_decide as E; [|done]. rewrite (claim_key_eq _ _ _ E), Ec. unfold let_go. simpl. by rewrite Eh.
  - case_decide as E; [|done]. by rewrite (claim_key_eq _ _ _ E), Ec.
Qed.

Lemma consumed_release a r r' : consumed_revision (release r a) r' = consumed_revision a r'.
Proof. by destruct (release_eq r a) as [->|(? & _ & _ & ->)]. Qed.

(** A ledger change under which the owner's claims only evolve. *)
Lemma good_evolves owner s a a' p u v :
  (forall r, own owner r -> evolves r a a') ->
  good owner (MkSystem s a p u v) -> good owner (MkSystem s a' p u v).
Proof.
  intros Hev [Ho Ht Hp Hb Hbd Hun Hu Hsu Hs Hco Hx]; simpl in *.
  assert (Hsame : forall r c', own owner r -> claim a' r = Some c' ->
    exists c, claim a r = Some c /\ (holds c' = true -> holds c = true) /\
      consumed_revision a' r = consumed_revision a r).
  { intros r c' Hr Hc'. destruct (evolves_some _ _ _ (Hev r Hr) _ Hc') as (c & ? & _ & ? & ?). eauto. }
  split; simpl; try done.
  - intros r rev Hr Hc. destruct (claim a' r) as [c'|] eqn:Ec.
    + destruct (Hsame _ _ Hr Ec) as (c & _ & _ & E). rewrite E in Hc. by eapply Hbd.
    + rewrite (evolves_unclaimed _ _ _ (Hev r Hr) (Hun r Hr) Ec) in Hc. done.
  - intros r Hr Ec. by apply (evolves_unclaimed _ _ _ (Hev r Hr) (Hun r Hr)).
  - intros r Hr [c' Hc']. destruct (Hsame _ _ Hr Hc') as (c & Hc & _). eauto.
  - intros a0 r rev Ha0 Hr H0 [c' Hc'] Hrev. destruct (Hsame _ _ Hr Hc') as (c & Hc & _ & E).
    rewrite E. eauto.
  - intros r c' Hr Hc'. destruct (evolves_some _ _ _ (Hev r Hr) _ Hc') as (c & Hc & -> & _). eauto.
  - intros e c' He Hex Hc' Hh. assert (Hr : own owner (sr_resource e)) by (rewrite <- Ho; by apply Ht).
    destruct (Hsame _ _ Hr Hc') as (c & Hc & Hh' & E).
    destruct (Hx e c He Hex Hc (Hh' Hh)) as (ev & Hev' & Hk & Ha). exists ev. split_and!; try done.
    apply applied_false. apply applied_false in Ha as [_ Ha].
    unfold outbox_key, resource_key in Hk. rewrite (claim_key_eq _ _ _ Hk), (consumed_key_eq _ _ _ Hk), E.
    rewrite (consumed_key_eq _ _ _ Hk) in Ha. split; [by exists c'|done].
Qed.

Lemma good_owner_step owner s a p u v o :
  owner_genuine o -> good owner (MkSystem s a p u v) ->
  good owner (MkSystem (owner_apply o s) a (p ++ outbox_step s (owner_apply o s)) u v).
Proof.
  intros Hg [Ho Ht Hp Hb Hbd Hun Hu Hsu Hs Hco Hx]; simpl in *.
  destruct (owner_evolved o s Ht Hg) as (new & [Eo Et Eb Es En Ex]).
  assert (Hnew : outbox_step s (owner_apply o s) = new).
  { unfold outbox_step. by rewrite Eb, drop_app_length. }
  rewrite Hnew. subst owner. split; simpl; try done.
  - intros e [He|He]%elem_of_app.
    + destruct (Hp e He) as (? & ? & ?). split_and!; [done|done|lia].
    + destruct (En e He) as (? & ? & ? & ?). by split_and!.
  - intros e. rewrite Eb. intros [He|He]%elem_of_app; apply elem_of_app; auto.
  - intros r rev Hr Hrev. specialize (Hbd r rev Hr Hrev). lia.
  - intros e c He Hex Hc Hh. rewrite Eb.
    destruct (Ex e He Hex) as [(e0 & He0 & Hk & Hex0)|(ev & Hev & Hk)].
    + rewrite (claim_key_eq a (sr_resource e) (sr_resource e0)) in Hc by done.
      destruct (Hx e0 c He0 Hex0 Hc Hh) as (ev & Hin & Hkey & Ha). exists ev.
      split_and!; [by apply elem_of_app; left|congruence|done].
    + exists ev. split_and!; [by apply elem_of_app; right|done|].
      destruct (En ev Hev) as (_ & Hown & Hlt & _). apply applied_false.
      unfold outbox_key, resource_key in Hk. rewrite (claim_key_eq _ _ _ Hk). split; [by exists c|].
      intros rev Hrev. specialize (Hbd _ _ Hown Hrev). lia.
Qed.

Lemma good_claim owner s a p u v op digest kind r :
  own owner r -> tr_terminal_id r ∉ u ->
  (forall e, ShardDocument.resource s r = Some e -> exited e = false) ->
  good owner (MkSystem s a p u v) ->
  good owner (MkSystem s (ledger_apply policy (OpReserve op digest kind owner r) a) p
                (tr_terminal_id r :: u) v).
Proof.
  intros Hr Hnu Hnx Hgood. simpl. destruct (reserve _ _ _ _ _ _ _) as [res a'] eqn:E. simpl.
  assert (Hmore : forall a1, good owner (MkSystem s a1 p u v) ->
    good owner (MkSystem s a1 p (tr_terminal_id r :: u) v)).
  { intros a1 [Ho Ht Hp Hb Hbd Hun Hu Hsu Hs Hco Hx]. split; simpl in *; try done.
    - intros r' Hr' Hc. right. by apply Hu.
    - intros a0 r' Ha0 Hr' Hc. right. by eapply Hsu. }
  apply reserve_eq in E as [[-> _]|(_ & _ & Hnone & _ & ->)]; [by apply Hmore|].
  set (a' := reserved op digest kind owner r a).
  assert (Hother : forall r', tr_terminal_id r' <> tr_terminal_id r -> claim a' r' = claim a r').
  { intros r' Hne. unfold claim, a'. simpl. rewrite find_first_app.
    destruct (find_first _ _); [done|]. simpl. unfold at_key, claim_key. simpl.
    by rewrite bool_decide_false by congruence. }
  destruct Hgood as [Ho Ht Hp Hb Hbd Hun Hu Hsu Hs Hco Hx]; simpl in *. split; simpl; try done.
  - intros r' Hr' Hc. change (consumed_revision a' r') with (consumed_revision a r').
    apply Hun; [done|]. destruct (decide (tr_terminal_id r' = tr_terminal_id r)) as [E|E].
    + by rewrite (claim_key_eq _ _ _ E).
    + by rewrite <- Hother.
  - intros r' Hr' Hc. destruct (decide (tr_terminal_id r' = tr_terminal_id r)) as [E|E].
    + rewrite E. left.
    + right. apply Hu; [done|]. by rewrite <- Hother.
  - intros a0 r' Ha0 Hr' Hc. right. by eapply Hsu.
  - intros a0 r' rev Ha0 Hr' H0 Hc Hrev. change (consumed_revision a' r') with (consumed_revision a r').
    destruct (decide (tr_terminal_id r' = tr_terminal_id r)) as [E|E].
    + exfalso. apply Hnu. rewrite <- E. by eapply Hsu.
    + rewrite Hother in Hc by done. eauto.
  - intros r' c Hr'. unfold a', claim. simpl. rewrite find_first_app.
    destruct (find_first _ (ad_claims a)) as [c0|] eqn:Ec; [intros [= <-]; by eapply Hco|]. simpl.
    destruct (at_key _ _ _); [|done]. by intros [= <-].
  - intros e c He Hex Hc Hh.
    assert (Hne : tr_terminal_id (sr_resource e) <> tr_terminal_id r).
    { intros E. assert (Hf : ShardDocument.resource s r = Some e).
      { unfold ShardDocument.resource. rewrite <- E. apply (kfind_elem resource_key); [apply Ht|done]. }
      by rewrite (Hnx e Hf) in Hex. }
    rewrite Hother in Hc by done. destruct (Hx e c He Hex Hc Hh) as (ev & Hin & Hk & Ha).
    exists ev. split_and!; try done. revert Ha. rewrite !applied_false.
    unfold outbox_key, resource_key in Hk. rewrite Hother by congruence. done.
Qed.

Lemma good_consume owner s a p u v e :
  e ∈ p -> good owner (MkSystem s a p u v) ->
  good owner (MkSystem s (ledger_apply policy (OpConsume owner (oe_resource e)
    (oe_event_revision e) (OwnerEvent.is_terminal (oe_event e))) a) p u v).
Proof.
  intros He Hgood. pose proof (g_published _ _ Hgood e He) as (Hterm & Hown & Hle). simpl in Hle.
  rewrite Hterm. simpl. destruct (consume_event _ _ _ _ _) as [res a'] eqn:E. simpl.
  apply consume_event_eq in E as [[-> _]|(c & _ & Hc & _ & Hlt & ->)]; [done|].
  set (r := oe_resource e) in *. set (rev := oe_event_revision e) in *.
  set (a1 := set_ad_consumed (record_event owner r rev (ad_consumed a)) a).
  assert (Hcons : forall r', consumed_revision (release r a1) r' =
    if decide (tr_terminal_id r' = tr_terminal_id r) then Some rev else consumed_revision a r')
    by (intros r'; by rewrite consumed_release, <- (consumed_record_event a r' owner r rev)).
  assert (Hcl : forall r', claim (release r a1) r' =
    if decide (tr_terminal_id r' = tr_terminal_id r) then let_go <$> claim a r' else claim a r')
    by (intros r'; by rewrite claim_release).
  set (a' := release r a1) in *. clearbody a'.
  destruct Hgood as [Ho Ht Hp Hb Hbd Hun Hu Hsu Hs Hco Hx]; simpl in *.
  assert (Hsome : forall r', is_Some (claim a' r') <-> is_Some (claim a r'))
    by (intros r'; rewrite Hcl; case_decide; by rewrite ?fmap_is_Some).
  split; simpl; try done.
  - intros r' rev' Hr'. rewrite Hcons. case_decide; [by intros [= <-]|by apply Hbd].
  - intros r' Hr'. rewrite Hcons, Hcl. case_decide as Ek; [|by apply Hun].
    by rewrite (claim_key_eq _ _ _ Ek), Hc.
  - intros r' Hr'. rewrite Hsome. by apply Hu.
  - intros a0 r' rev' Ha0 Hr' H0 H1 Hrev. rewrite Hsome in H1. rewrite Hcons.
    destruct (Hs a0 r' rev' Ha0 Hr' H0 H1 Hrev) as (rev'' & E & Hle').
    case_decide as Ek; [|by exists rev'']. exists rev. split; [done|].
    rewrite (consumed_key_eq _ _ _ Ek) in E. specialize (Hlt _ E). lia.
  - intros r' c' Hr'. rewrite Hcl. case_decide as Ek; [|by apply Hco].
    intros (c1 & Hc1 & ->)%fmap_Some. rewrite owner_let_go. by apply (Hco r' c1).
  - intros x c' Hin Hex. rewrite Hcl. case_decide as Ek; intros Hc' Hh.
    { apply fmap_Some in Hc' as (c1 & _ & ->). by rewrite holds_let_go in Hh. }
    destruct (Hx x c' Hin Hex Hc' Hh) as (ev & Hev & Hk & Ha).
    exists ev. split_and!; try done. revert Ha. rewrite !applied_false.
    unfold outbox_key, resource_key in Hk.
    rewrite Hsome, Hcons, decide_False by congruence. done.
Qed.

Lemma good_ledger owner s a p u v o :
  unrelated owner o -> command_genuine o -> good owner (MkSystem s a p u v) ->
  good owner (MkSystem s (ledger_apply policy o a) p u v).
Proof.
  intros Hu Hg. apply good_evolves. intros r [Hr Hgr]. by eapply evolves_command.
Qed.

Lemma good_load owner s a p u v :
  good owner (MkSystem s a p u v) -> good owner (MkSystem s a p u (a :: v)).
Proof.
  intros [Ho Ht Hp Hb Hbd Hun Hu Hsu Hs Hco Hx]. split; simpl in *; try done.
  - intros a0 r [->|Ha0]%elem_of_cons; [apply Hu|by apply Hsu].
  - intros a0 r rev [->|Ha0]%elem_of_cons Hr H0 Hc Hrev; [by exists rev|by eapply Hs].
Qed.

Lemma good_reclaim owner s a p u v a0 :
  a0 ∈ v ->
  (forall e, e ∈ sd_outbox s -> is_Some (claim a (oe_resource e)) -> is_Some (claim a0 (oe_resource e))) ->
  good owner (MkSystem s a p u v) ->
  good owner (MkSystem (snd (ShardDocument.reclaim a0 s)) a p u v).
Proof.
  intros Ha0 Hcl [Ho Ht Hp Hb Hbd Hun Hu Hsu Hs Hco Hx]. split; simpl in *; try done.
  - destruct Ht as [Hk Hown]. split; simpl.
    + by apply NoDup_keys_retain.
    + intros e [He _]%elem_of_retain. by apply Hown.
  - intros e [He _]%elem_of_retain. by apply Hb.
  - intros e c [He _]%elem_of_retain Hex Hc Hh. destruct (Hx e c He Hex Hc Hh) as (ev & Hev & Hk & Ha).
    exists ev. split_and!; [|done|done]. apply elem_of_retain. split; [done|]. apply negb_true_iff.
    destruct (Hp ev (Hb ev Hev)) as (_ & Hown & _).
    apply applied_false in Ha as [Hsome Ha]. apply applied_false.
    split; [by apply Hcl|]. intros rev Hrev.
    destruct (Hs a0 _ rev Ha0 Hown (Hcl ev Hev Hsome) Hsome Hrev) as (rev' & Hrev' & Hle).
    specialize (Ha rev' Hrev'). lia.
Qed.

(** Giving a record up takes its events with it and touches no other record. *)
Lemma good_forget owner s a p u v r :
  good owner (MkSystem s a p u v) -> good owner (MkSystem (snd (ShardDocument.forget r s)) a p u v).
Proof.
  intros [Ho Ht Hp Hb Hbd Hun Hu Hsu Hs Hco Hx]; simpl in *. unfold ShardDocument.forget.
  destruct (ShardDocument.resource s r) as [entry|]; [|done].
  destruct (ResourceState.is_live _); [done|]. destruct Ht as [Hk Hown]. split; simpl; try done.
  - split; simpl; [by apply NoDup_keys_retain|]. intros e [He _]%elem_of_retain. by apply Hown.
  - intros e [He _]%elem_of_retain. by apply Hb.
  - intros e c [He Hne]%elem_of_retain Hex Hc Hh. destruct (Hx e c He Hex Hc Hh) as (ev & Hev & Hkey & Ha).
    exists ev. split_and!; [|done|done]. apply elem_of_retain. by rewrite Hkey.
Qed.

Lemma good_step owner x y : step x y -> good owner x -> good owner y.
Proof.
  destruct 1 as [s a p u v o Hg|s a p u v r|s a p u v op digest kind r Hr Hg Hu Hnx|s a p u v e He
    |s a p u v o Hu Hg|s a p u v|s a p u v a0 Ha0 Hcl]; intros Hgood;
    assert (E : sd_owner s = owner) by (by destruct Hgood).
  - by apply good_owner_step.
  - by apply good_forget.
  - rewrite E. rewrite E in Hr. by apply good_claim.
  - rewrite E. by apply good_consume.
  - rewrite E in Hu. by apply good_ledger.
  - by apply good_load.
  - by apply good_reclaim.
Qed.

(** A generation that starts: an empty shard, and no trace of it in the ledger. *)
Definition start (owner : DaemonGeneration) (a : AllocatorDocument) : System :=
  MkSystem (ShardDocument.empty owner) a [] [] [].

Definition untouched (owner : DaemonGeneration) (a : AllocatorDocument) : Prop :=
  forall r, own owner r -> claim a r = None /\ consumed_revision a r = None.

Lemma good_start owner a : untouched owner a -> good owner (start owner a).
Proof.
  intros Hu. split; simpl; try done.
  - split; [constructor|]. intros e He. by apply not_elem_of_nil in He.
  - intros e He. by apply not_elem_of_nil in He.
  - intros r rev Hr. by rewrite (proj2 (Hu r Hr)).
  - intros r Hr _. by apply Hu.
  - intros r Hr. rewrite (proj1 (Hu r Hr)). by intros [].
  - intros a0 r Ha0. by apply not_elem_of_nil in Ha0.
  - intros a0 r rev Ha0. by apply not_elem_of_nil in Ha0.
  - intros r c Hr. by rewrite (proj1 (Hu r Hr)).
  - intros e c He. by apply not_elem_of_nil in He.
Qed.

Lemma good_reachable owner a x : untouched owner a -> rtc step (start owner a) x -> good owner x.
Proof.
  intros Hu H. apply (rtc_ind_r (good owner) _ (good_start owner a Hu)) with (2 := H).
  intros y z _ Hyz Hy. by eapply good_step.
Qed.

(** Applying an unapplied exit releases the claim it is for. *)
Lemma consume_exit_releases owner a ev c :
  claim a (oe_resource ev) = Some c -> rc_owner c = owner -> applied a ev = false ->
  exists a', consume_exit owner (oe_resource ev) (oe_event_revision ev) a = (Ok Applied, a') /\
    exists c', claim a' (oe_resource ev) = Some c' /\ holds c' = false.
Proof.
  intros Hc Ho [_ Ha]%applied_false. unfold consume_exit, consume_event.
  rewrite Hc, bool_decide_true by done. cbn [negb].
  replace (match consumed_revision a (oe_resource ev) with
    | Some applied => (oe_event_revision ev <=? applied)%N | None => false end) with false.
  - eexists. split; [done|]. exists (let_go c). split; [|apply holds_let_go].
    rewrite claim_release, decide_True by done. change (let_go <$> claim a (oe_resource ev) = Some (let_go c)).
    by rewrite Hc.
  - destruct (consumed_revision _ _) as [rev|]; [|done]. symmetry. apply N.leb_gt. by apply Ha.
Qed.

(** C21: No exit on record is lost.  Take any interleaving of the owner's
    transitions, of records it forgets, of claims for its new terminals (an
    identity is minted once), of (re)deliveries of anything it ever published, of
    reclaims against snapshots read any time earlier that know the claims of the
    waiting events, and of every other writer's ledger commands, garbage
    collection included.  As long as a terminal on the owner's record exited and
    still holds capacity, its exit is still in the outbox and still unapplied,
    and applying it releases the capacity.  A terminal whose record the owner
    forgot is not covered ([forget_drops_unapplied_exit]). *)
Theorem exit_never_lost owner a x e c :
  untouched owner a -> rtc step (start owner a) x ->
  e ∈ sd_resources (s_shard x) -> ResourceState.is_exited (sr_state e) = true ->
  claim (s_ledger x) (sr_resource e) = Some c -> holds c = true ->
  exists ev, ev ∈ sd_outbox (s_shard x) /\ outbox_key ev = resource_key e /\
    OwnerEvent.is_terminal (oe_event ev) = true /\ applied (s_ledger x) ev = false /\
    exists a', consume_exit owner (oe_resource ev) (oe_event_revision ev) (s_ledger x) =
                 (Ok Applied, a') /\
      exists c', claim a' (sr_resource e) = Some c' /\ holds c' = false.
Proof.
  intros Hu Hr He Hex Hc Hh. pose proof (good_reachable _ _ _ Hu Hr) as Hg.
  destruct (g_exits _ _ Hg e c He Hex Hc Hh) as (ev & Hev & Hk & Ha).
  destruct (g_published _ _ Hg ev (g_outbox _ _ Hg ev Hev)) as (Ht & Hown & _).
  exists ev. split_and!; try done. unfold outbox_key, resource_key in Hk.
  rewrite <- (claim_key_eq _ _ _ Hk) in Hc. setoid_rewrite <- (claim_key_eq _ _ _ Hk).
  eapply consume_exit_releases; [done| |done]. by eapply (g_claim_owner _ _ Hg).
Qed.
End protocol.

(** ** A concrete run *)
Module DrainExample.
Import LedgerExample.
Definition minted (t : TerminalId) : DaemonGeneration := g1.
Definition identity : ChildIdentity := MkChildIdentity 7 7 IDENTITY_SOURCE_OS "start".
Definition s1 : ShardDocument :=
  owner_apply (OwnSpawn t1 identity)
    (owner_apply (OwnReserve op1 "d" TerminalKind t1) (ShardDocument.empty g1)).
Definition s2 : ShardDocument := owner_apply (OwnExit t1 (Some 0%Z)) s1.
Definition a1 : AllocatorDocument :=
  ledger_apply policy (OpReserve op1 "d" TerminalKind g1 t1) AllocatorDocument_default.
Definition exit_event : OutboxEvent := MkOutboxEvent 1 t1 (OwnerEvent.Exit (Some 0%Z)).
Definition t1_exited : ShardResource :=
  MkShardResource t1 TerminalKind op1 "d" (Some identity) (ResourceState.Exited (Some 0%Z)) None 3.
Definition t1_claim : ResourceClaim :=
  MkResourceClaim t1 TerminalKind g1 op1 "d" ClaimState.Reserved 1.
Definition final : System :=
  MkSystem (snd (ShardDocument.reclaim a1 s2)) a1 [exit_event] [tr_terminal_id t1] [a1].

Lemma start_untouched : untouched minted g1 AllocatorDocument_default.
Proof. done. Qed.

Lemma run_claim : step minted policy (start g1 AllocatorDocument_default)
  (MkSystem (ShardDocument.empty g1) a1 [] [tr_terminal_id t1] []).
Proof.
  apply (step_claim minted policy (ShardDocument.empty g1) AllocatorDocument_default [] [] []
    op1 "d" TerminalKind t1); [done|done|apply not_elem_of_nil|done].
Qed.

Lemma run_owner : rtc (step minted policy)
  (MkSystem (ShardDocument.empty g1) a1 [] [tr_terminal_id t1] [])
  (MkSystem s2 a1 [exit_event] [tr_terminal_id t1] []).
Proof.
  eapply rtc_l; [by apply (step_owner minted policy _ a1 [] _ [] (OwnReserve op1 "d" TerminalKind t1))|].
  eapply rtc_l; [by apply (step_owner minted policy _ a1 _ _ [] (OwnSpawn t1 identity))|].
  apply rtc_once. exact (step_owner minted policy s1 a1 [] _ [] (OwnExit t1 (Some 0%Z)) eq_refl).
Qed.

Lemma run_reclaim : rtc (step minted policy)
  (MkSystem s2 a1 [exit_event] [tr_terminal_id t1] []) final.
Proof.
  eapply rtc_l; [apply step_load|]. apply rtc_once.
  apply step_reclaim; [apply list_elem_of_singleton; done|auto].
Qed.

Lemma run : rtc (step minted policy) (start g1 AllocatorDocument_default) final.
Proof. eapply rtc_l; [apply run_claim|]. etransitivity; [apply run_owner|apply run_reclaim]. Qed.

Lemma final_resource : t1_exited ∈ sd_resources (s_shard final).
Proof. vm_compute. left. Qed.
Lemma final_claim : AllocatorDocument.claim (s_ledger final) (sr_resource t1_exited) = Some t1_claim.
Proof. vm_compute. reflexivity. Qed.

(** Giving the record up before its exit was applied drops the exit too: the
    capacity stays claimed and no later pass over this shard releases it. *)
Example forget_drops_unapplied_exit :
  let s := snd (ShardDocument.forget t1 s2) in
  sd_outbox s = [] /\ sd_resources s = [] /\
  AllocatorDocument.holds <$> AllocatorDocument.claim a1 t1 = Some true.
Proof. vm_compute. done. Qed.
End DrainExample.

Lemma exit_never_lost_witness : exists ev,
  ev ∈ sd_outbox (s_shard DrainExample.final) /\ OwnerEvent.is_terminal (oe_event ev) = true.
Proof.
  destruct (exit_never_lost DrainExample.minted LedgerExample.policy LedgerExample.g1
    AllocatorDocument_default DrainExample.final DrainExample.t1_exited DrainExample.t1_claim
    DrainExample.start_untouched DrainExample.run DrainExample.final_resource eq_refl
    DrainExample.final_claim eq_refl) as (ev & Hev & _ & Ht & _).
  exists ev. split; [exact Hev|exact Ht].
Defined.
