(* ===== verification/Projection.v ===== *)
(** * Production records projected onto the shard and the allocator
    ([crates/daemon/src/usecase/resources/durable.rs], the document changes;
    [migration.rs], adoption of the legacy stores;
    [TerminalRuntimeState] of [usecase/terminal.rs])

    What one save does to the two documents it commits: the claim of one record
    ([claim_one]), its shard entry ([project_one]), and the entries the owner no
    longer retains ([forget_absent]). *)
From S2P Require Export Drain.

Inductive TerminalReconcileState : Type :=
| SpawnAmbiguous | PersistAfterSpawn | IdentityUnknown | OrphanRunning | PersistAfterExit.
#[export] Instance terminal_reconcile_state_eq_dec : EqDecision TerminalReconcileState.
Proof. solve_decision. Defined.

Module TerminalRuntimeState.
Inductive t : Type :=
| Reserved | Running | Interrupted | Sleeping | Exited | Reclaimed
| ReconcileRequired (s : TerminalReconcileState) | SpawnFailed.
#[export] Instance eq_dec : EqDecision t.
Proof. solve_decision. Defined.
End TerminalRuntimeState.
Export (hints) TerminalRuntimeState.

Definition requires_termination (s : TerminalRuntimeState.t) : bool :=
  match s with
  | TerminalRuntimeState.Running
  | TerminalRuntimeState.ReconcileRequired (SpawnAmbiguous | PersistAfterSpawn | OrphanRunning) => true
  | _ => false
  end.

Module ProjectedState.
Inductive t : Type := Reserved | Running (identity : ChildIdentity) | Exited | SpawnFailed | Unproven.
#[export] Instance eq_dec : EqDecision t.
Proof. solve_decision. Defined.
End ProjectedState.
Export (hints) ProjectedState.

Definition holds_capacity (s : ProjectedState.t) : bool :=
  match s with
  | ProjectedState.Reserved | ProjectedState.Running _ | ProjectedState.Unproven => true
  | _ => false
  end.

Record RuntimeProjection := MkRuntimeProjection {
  rp_resource : TerminalRef;
  rp_kind : ResourceKind;
  rp_operation : OperationId;
  rp_digest : string;
  rp_state : ProjectedState.t;
  rp_payload : string;
}.
#[export] Instance runtime_projection_eq_dec : EqDecision RuntimeProjection.
Proof. solve_decision. Defined.

Definition projection_key (p : RuntimeProjection) : TerminalId := tr_terminal_id (rp_resource p).

(** [format!("{}:{digest}", kind.pool())] *)
Definition digest_of (kind : ResourceKind) (digest : string) : string :=
  pool kind +:+ ":" +:+ digest.

Definition projected_state (state : TerminalRuntimeState.t) (observed : option ChildIdentity)
    : ProjectedState.t :=
  match state, observed with
  | TerminalRuntimeState.Reserved, _ => ProjectedState.Reserved
  | TerminalRuntimeState.Running, Some identity => ProjectedState.Running identity
  | TerminalRuntimeState.Running, None
  | TerminalRuntimeState.ReconcileRequired _, _ => ProjectedState.Unproven
  | TerminalRuntimeState.Interrupted, _
  | TerminalRuntimeState.Sleeping, _
  | TerminalRuntimeState.Exited, _
  | TerminalRuntimeState.Reclaimed, _ => ProjectedState.Exited
  | TerminalRuntimeState.SpawnFailed, _ => ProjectedState.SpawnFailed
  end.

Definition interrupt_if_unfinished (s : TerminalRuntimeState.t) : TerminalRuntimeState.t :=
  match s with
  | TerminalRuntimeState.Reserved | TerminalRuntimeState.Running
  | TerminalRuntimeState.ReconcileRequired _ => TerminalRuntimeState.Interrupted
  | terminal => terminal
  end.

Definition owns_child (s : TerminalRuntimeState.t) : bool :=
  match s with TerminalRuntimeState.Reserved | TerminalRuntimeState.Running => true | _ => false end.

Definition unterminated (s : TerminalRuntimeState.t) : bool :=
  match s with
  | TerminalRuntimeState.Reserved | TerminalRuntimeState.Running
  | TerminalRuntimeState.ReconcileRequired _ => true
  | _ => false
  end.

(** ** The live census of one shard *)
Record LiveCensus := MkLiveCensus { lc_agents : nat; lc_terminals : nat }.
Definition LiveCensus_default : LiveCensus := MkLiveCensus 0 0.

Definition census_add (c : LiveCensus) (kind : ResourceKind) : LiveCensus :=
  match kind with
  | AgentKind => MkLiveCensus (lc_agents c + 1) (lc_terminals c)
  | TerminalKind => MkLiveCensus (lc_agents c) (lc_terminals c + 1)
  end.

Definition shard_census (document : ShardDocument) : LiveCensus :=
  foldl (fun c e => census_add c (sr_kind e)) LiveCensus_default
    (retain (fun e => ResourceState.is_live (sr_state e)) (sd_resources document)).

(** ** The allocator's side *)

(** [fn release_each]: every refusal is skipped. *)
Fixpoint release_each (owner : DaemonGeneration) (terminated : list TerminalRef)
    (document : AllocatorDocument) : nat * AllocatorDocument :=
  match terminated with
  | [] => (0, document)
  | r :: terminated =>
      let (res, document1) := AllocatorDocument.release_unowned owner r document in
      let (n, document2) := release_each owner terminated document1 in
      ((if is_ok res then S n else n), document2)
  end.

(** [fn claim_one] *)
Definition claim_one (p : RuntimeProjection) (owner : DaemonGeneration) (policy : CapacityPolicy)
    (now : N) : AllocatorDocument.doc_st unit :=
  (if holds_capacity (rp_state p)
   then AllocatorDocument.reserve (rp_operation p) (rp_digest p) (rp_kind p) owner (rp_resource p)
          policy ;;; st_ret tt
   else st_ret tt) ;;;
  (document <-! st_get ;;
   match AllocatorDocument.operation document (rp_operation p) with
   | None => st_ret tt
   | Some record =>
       if negb (bool_decide (or_resource record = rp_resource p))
       then st_throw ResourceError.OwnershipUnknown
       else if is_final (or_outcome record) then st_ret tt
       else
         match rp_state p with
         | ProjectedState.Running _ | ProjectedState.Exited =>
             AllocatorDocument.mark_spawned (rp_operation p) now
         | ProjectedState.SpawnFailed =>
             AllocatorDocument.mark_failed (rp_operation p) LaunchFailure.Spawn now
         | ProjectedState.Unproven => AllocatorDocument.mark_ambiguous (rp_operation p) now
         | ProjectedState.Reserved => st_ret tt
         end
   end).

(** The closure of [ShardedRuntimeState::claim]. *)
Fixpoint claim_each (ps : list RuntimeProjection) (owner : DaemonGeneration)
    (policy : CapacityPolicy) (now : N) (fresh : bool) : AllocatorDocument.doc_st bool :=
  match ps with
  | [] => st_ret fresh
  | p :: ps =>
      document <-! st_get ;;
      let fresh :=
        fresh || (holds_capacity (rp_state p) &&
                  bool_decide (AllocatorDocument.operation document (rp_operation p) = None)) in
      (claim_one p owner policy now ;;; claim_each ps owner policy now fresh)
  end.

Definition claim_change (serialized_bytes : AllocatorDocument -> nat) (limits : RetentionLimits)
    (ps : list RuntimeProjection) (owner : DaemonGeneration) (policy : CapacityPolicy) (now : N)
    : AllocatorDocument.doc_st unit :=
  fresh <-! claim_each ps owner policy now false ;;
  if fresh : bool then retain_for_admission serialized_bytes limits now else st_ret tt.

(** ** The shard's side *)

(** [fn project_one] *)
Definition project_one (p : RuntimeProjection) : ShardDocument.doc_st unit :=
  ShardDocument.reserve (rp_operation p) (rp_digest p) (rp_kind p) (rp_resource p) ;;;
  (match rp_state p with
   | ProjectedState.Reserved => st_ret tt
   | ProjectedState.Running identity => ShardDocument.record_spawn (rp_resource p) identity
   | ProjectedState.Exited | ProjectedState.SpawnFailed => fun document =>
       match ShardDocument.commit_exit (rp_resource p) None document with
       | (Err ResourceError.WrongState, document') => (Ok tt, document')
       | other => other
       end
   | ProjectedState.Unproven => ShardDocument.mark_ownership_unknown (rp_resource p)
   end) ;;;
  ShardDocument.set_payload (rp_resource p) (rp_payload p).

(** [fn forget_absent] *)
Definition is_absent (kind : ResourceKind) (present : list TerminalId) (e : ShardResource) : bool :=
  bool_decide (sr_kind e = kind) && negb (bool_decide (resource_key e ∈ present)).

Definition forget_or_mark (document : ShardDocument) (r : TerminalRef) : ShardDocument :=
  let (res, document1) := ShardDocument.forget r document in
  if is_ok res then document1 else snd (ShardDocument.mark_ownership_unknown r document1).

Definition forget_absent (kind : ResourceKind) (ps : list RuntimeProjection)
    (document : ShardDocument) : ShardDocument :=
  foldl forget_or_mark document
    (sr_resource <$> retain (is_absent kind (projection_key <$> ps)) (sd_resources document)).

(** The closure of [ShardedRuntimeState::project]. *)
Definition project_change (kind : ResourceKind) (ps : list RuntimeProjection)
    : ShardDocument.doc_st unit :=
  st_iter project_one ps ;;; st_modify (forget_absent kind ps).

(** ** Adopting the legacy stores *)
Record LegacyRuntimeRecord := MkLegacyRuntimeRecord {
  lr_resource : TerminalRef;
  lr_kind : ResourceKind;
  lr_operation : option OperationId;
  lr_digest : option string;
  lr_process : option ChildIdentity;
  lr_live : bool;
}.

Inductive AdoptionRefusal : Type := ForeignGeneration | NoOperation | UnverifiableIdentity | Duplicate.
#[export] Instance adoption_refusal_eq_dec : EqDecision AdoptionRefusal.
Proof. solve_decision. Defined.

Record UnknownRecord := MkUnknownRecord { ur_resource : TerminalRef; ur_refusal : AdoptionRefusal }.

Record AdoptionReport := MkAdoptionReport { ar_shard : ShardDocument; ar_unknown : list UnknownRecord }.

Definition adopted (r : AdoptionReport) : nat := ShardDocument.live_resources (ar_shard r).

(** [fn classify] of migration.rs *)
Definition classify_legacy (record : LegacyRuntimeRecord) : option AdoptionRefusal :=
  match lr_operation record with
  | None => Some NoOperation
  | Some _ =>
      if negb (match lr_process record with Some p => is_verifiable p | None => false end)
      then Some UnverifiableIdentity else None
  end.

Definition legacy_operation_placeholder : OperationId :=
  MkOperationId "00000000-0000-7000-8000-000000000000".

Definition legacy_identity (pid : N) (start_identity : string) : ChildIdentity :=
  unverifiable pid start_identity.

(** One iteration of the loop of [adopt_legacy]. *)
Definition adopt_one (owner : DaemonGeneration) (report : AdoptionReport)
    (record : LegacyRuntimeRecord) : AdoptionReport :=
  let shard := ar_shard report in
  let rejected :=
    if negb (bool_decide (tr_daemon_generation (lr_resource record) = owner))
    then Some ForeignGeneration
    else if bool_decide (is_Some (ShardDocument.resource shard (lr_resource record)))
    then Some Duplicate else None in
  match rejected with
  | Some refusal =>
      MkAdoptionReport shard (ar_unknown report ++ [MkUnknownRecord (lr_resource record) refusal])
  | None =>
      let refusal := classify_legacy record in
      let state :=
        if bool_decide (refusal = None) && lr_live record then ResourceState.Running
        else ResourceState.OwnershipUnknown in
      let unknown :=
        match refusal with
        | Some refusal => ar_unknown report ++ [MkUnknownRecord (lr_resource record) refusal]
        | None => ar_unknown report
        end in
      MkAdoptionReport
        (set_sd_resources
           (sd_resources shard ++
            [MkShardResource (lr_resource record) (lr_kind record)
               (default legacy_operation_placeholder (lr_operation record))
               (default "" (lr_digest record)) (lr_process record) state None 1]) shard)
        unknown
  end.

Definition adopt_legacy (owner : DaemonGeneration) (records : list LegacyRuntimeRecord)
    : AdoptionReport :=
  foldl (adopt_one owner) (MkAdoptionReport (ShardDocument.empty owner) []) records.

(** [fn adopt_into] *)
Definition adopt_into (resources : list ShardResource) (document : ShardDocument)
    : nat * ShardDocument :=
  if (0 <? sd_revision document)%N then (0, document)
  else (length resources, set_sd_resources resources document).
