(* ===== verification/Saves.v ===== *)
(** * Properties of one save
    (the document changes of [Projection])

    What the owner's shard holds after a save, what the allocator holds before
    the shard is written, and what the adoption of a legacy store produces. *)
From S2P Require Export Projection.

Section shard_side.
Import ShardDocument.
Implicit Types (d : ShardDocument) (r : TerminalRef) (p : RuntimeProjection) (e : ShardResource).

Lemma resource_Some d r e :
  resource d r = Some e -> e ∈ sd_resources d /\ resource_key e = tr_terminal_id r.
Proof. apply kfind_Some. Qed.

Lemma resource_update d r r' f :
  (forall e, resource_key (f e) = resource_key e) ->
  resource (update r f d) r' =
  if decide (tr_terminal_id r' = tr_terminal_id r) then f <$> resource d r' else resource d r'.
Proof. intros Hf. by apply (kfind_update resource_key). Qed.

Lemma keys_shard_update d r f :
  (forall e, resource_key (f e) = resource_key e) ->
  resource_key <$> sd_resources (update r f d) = resource_key <$> sd_resources d.
Proof. intros Hf. by apply keys_update. Qed.

(** What a projected record is in the shard. *)
Definition state_matches (s : ProjectedState.t) (e : ShardResource) : Prop :=
  match s with
  | ProjectedState.Reserved => True
  | ProjectedState.Running identity =>
      sr_state e = ResourceState.Running /\ sr_process e = Some identity
  | ProjectedState.Exited | ProjectedState.SpawnFailed => ResourceState.is_live (sr_state e) = false
  | ProjectedState.Unproven => sr_state e = ResourceState.OwnershipUnknown
  end.

Definition projects p e : Prop :=
  sr_operation e = rp_operation p /\ sr_digest e = rp_digest p /\
  sr_kind e = rp_kind p /\ state_matches (rp_state p) e /\ sr_payload e = Some (rp_payload p).

(** [d'] is [d] with the record of [k] replaced or added. *)
Record changed_at (k : TerminalId) d d' : Prop := {
  ca_keys : NoDup (resource_key <$> sd_resources d) -> NoDup (resource_key <$> sd_resources d');
  ca_other : forall r, tr_terminal_id r <> k -> resource d' r = resource d r;
}.

#[export] Instance changed_at_preorder k : PreOrder (changed_at k).
Proof.
  split; [by split|]. intros a b c [K1 O1] [K2 O2]. split; [auto|].
  intros r Hr. by rewrite O2, O1.
Qed.

Lemma changed_at_update d r f :
  (forall e, resource_key (f e) = resource_key e) -> changed_at (tr_terminal_id r) d (update r f d).
Proof.
  intros Hf. split; [by rewrite keys_shard_update|].
  intros r' Hr'. by rewrite resource_update, decide_False.
Qed.

Lemma resource_ext d d' r : sd_resources d' = sd_resources d -> resource d' r = resource d r.
Proof. unfold resource. by intros ->. Qed.

Lemma reserve_spec op digest kind r d d' :
  reserve op digest kind r d = (Ok tt, d') ->
  changed_at (tr_terminal_id r) d d' /\
  exists e, resource d' r = Some e /\ sr_operation e = op /\ sr_digest e = digest /\ sr_kind e = kind.
Proof.
  unfold reserve. destruct (bool_decide _); simpl; [|done].
  destruct (resource d r) as [e|] eqn:Er.
  - repeat case_bool_decide; simpl; intros [= <-]. split; [reflexivity|]. by exists e.
  - intros [= <-]. split.
    + split; simpl.
      * intros Hk. rewrite fmap_app. apply list.NoDup_app. split_and!; [done| |apply list.NoDup_singleton].
        intros k Hin ->%list_elem_of_singleton. by apply (kfind_None resource_key) in Er.
      * intros r' Hr'. unfold resource. simpl. rewrite find_first_app. destruct (find_first _ _); [done|].
        simpl. unfold at_key, resource_key. simpl. by rewrite bool_decide_false by congruence.
    + eexists. unfold resource in Er |- *. simpl. rewrite find_first_app, Er. simpl.
      unfold at_key, resource_key. simpl. by rewrite bool_decide_true.
Qed.

Lemma record_spawn_spec r identity d d' e :
  record_spawn r identity d = (Ok tt, d') -> resource d r = Some e ->
  changed_at (tr_terminal_id r) d d' /\
  exists e', resource d' r = Some e' /\ sr_state e' = ResourceState.Running /\
    sr_process e' = Some identity /\
    sr_operation e' = sr_operation e /\ sr_digest e' = sr_digest e /\ sr_kind e' = sr_kind e.
Proof.
  unfold record_spawn. destruct (is_verifiable identity); simpl; [|done]. intros H Er. rewrite Er in H.
  destruct (sr_state e) eqn:Es; try done.
  - injection H as <-. split; [by apply changed_at_update|]. exists (set_sr_spawned identity e).
    by rewrite resource_update, decide_True, Er by done.
  - case_bool_decide; [|done]. injection H as <-. split; [reflexivity|]. by exists e.
Qed.

Lemma mark_unknown_spec r d e :
  resource d r = Some e ->
  exists d', mark_ownership_unknown r d = (Ok tt, d') /\ changed_at (tr_terminal_id r) d d' /\
  exists e', resource d' r = Some e' /\ sr_state e' = ResourceState.OwnershipUnknown /\
    sr_process e' = sr_process e /\ sr_payload e' = sr_payload e /\
    sr_operation e' = sr_operation e /\ sr_digest e' = sr_digest e /\ sr_kind e' = sr_kind e.
Proof.
  unfold mark_ownership_unknown. intros Er. rewrite Er. case_bool_decide.
  - exists d. split_and!; [done|reflexivity|]. by exists e.
  - eexists. split_and!; [done|by apply changed_at_update|].
    exists (set_sr_state ResourceState.OwnershipUnknown e).
    by rewrite resource_update, decide_True, Er by done.
Qed.

Lemma exit_spec r d e :
  resource d r = Some e ->
  let (res, d') := commit_exit r None d in
  (res = Ok tt \/ res = Err ResourceError.WrongState) /\ changed_at (tr_terminal_id r) d d' /\
  exists e', resource d' r = Some e' /\ ResourceState.is_live (sr_state e') = false /\
    sr_operation e' = sr_operation e /\ sr_digest e' = sr_digest e /\ sr_kind e' = sr_kind e.
Proof.
  unfold commit_exit. intros Er. rewrite Er.
  assert (Hexit : forall d', sd_resources d' =
      sd_resources (update r (set_sr_state (ResourceState.Exited None)) d) ->
    changed_at (tr_terminal_id r) d d' /\
    exists e', resource d' r = Some e' /\ ResourceState.is_live (sr_state e') = false /\
    sr_operation e' = sr_operation e /\ sr_digest e' = sr_digest e /\ sr_kind e' = sr_kind e).
  { intros d' E. split; [split|].
    - rewrite E. by rewrite keys_shard_update.
    - intros r' Hr'. rewrite (resource_ext _ _ _ E). by rewrite resource_update, decide_False.
    - exists (set_sr_state (ResourceState.Exited None) e). rewrite (resource_ext _ _ _ E).
      by rewrite resource_update, decide_True, Er by done. }
  destruct (sr_state e) eqn:Es; simpl.
  - split; [by left|]. by apply Hexit.
  - split; [by left|]. by apply Hexit.
  - case_bool_decide; (split; [auto|split; [reflexivity|]]); exists e; by rewrite Es.
  - split; [by right|]. split; [reflexivity|]. exists e. by rewrite Es.
Qed.

Lemma set_payload_spec r payload d d' e :
  set_payload r payload d = (Ok tt, d') -> resource d r = Some e ->
  changed_at (tr_terminal_id r) d d' /\
  exists e', resource d' r = Some e' /\ sr_payload e' = Some payload /\
    sr_state e' = sr_state e /\ sr_process e' = sr_process e /\
    sr_operation e' = sr_operation e /\ sr_digest e' = sr_digest e /\ sr_kind e' = sr_kind e.
Proof.
  unfold set_payload. intros H Er. rewrite Er in H. case_bool_decide; injection H as <-.
  - split; [reflexivity|]. by exists e.
  - split; [by apply changed_at_update|]. exists (set_sr_payload payload e).
    by rewrite resource_update, decide_True, Er by done.
Qed.

Lemma project_one_spec p d d' :
  project_one p d = (Ok tt, d') ->
  changed_at (projection_key p) d d' /\ exists e, resource d' (rp_resource p) = Some e /\ projects p e.
Proof.
  unfold project_one. intros H. st_inv H. destruct a. apply reserve_spec in H0 as [Hc1 (e1 & He1 & Ho1 & Hd1 & Hk1)].
  st_inv H1. destruct a.
  assert (Hmid : changed_at (projection_key p) s s0 /\ exists e2, resource s0 (rp_resource p) = Some e2 /\
    state_matches (rp_state p) e2 /\
    sr_operation e2 = sr_operation e1 /\ sr_digest e2 = sr_digest e1 /\ sr_kind e2 = sr_kind e1).
  { clear H0. destruct (rp_state p) as [|identity| | |]; simpl.
    - injection H as <-. split; [reflexivity|]. by exists e1.
    - destruct (record_spawn_spec _ _ _ _ _ H He1) as (? & e2 & ? & ? & ? & ?). split; [done|]. by exists e2.
    - pose proof (exit_spec _ _ _ He1) as Hx. destruct (commit_exit _ _ _) as [res d2].
      destruct Hx as (Hres & Hc & e2 & ? & ? & ?).
      assert (d2 = s0) as -> by (destruct Hres as [-> | ->]; congruence). split; [done|]. by exists e2.
    - pose proof (exit_spec _ _ _ He1) as Hx. destruct (commit_exit _ _ _) as [res d2].
      destruct Hx as (Hres & Hc & e2 & ? & ? & ?).
      assert (d2 = s0) as -> by (destruct Hres as [-> | ->]; congruence). split; [done|]. by exists e2.
    - destruct (mark_unknown_spec _ _ _ He1) as (d2 & E & Hc & e2 & ? & ? & ? & ? & ?).
      rewrite E in H. injection H as ->. split; [done|]. by exists e2. }
  destruct Hmid as (Hc2 & e2 & He2 & Hs2 & Ho2 & Hd2 & Hk2).
  destruct (set_payload_spec _ _ _ _ _ H0 He2) as (Hc3 & e3 & He3 & Hp3 & Hs3 & Hpr3 & Ho3 & Hd3 & Hk3).
  split; [etransitivity; [exact Hc1|]; etransitivity; [exact Hc2|exact Hc3]|].
  exists e3. split; [done|]. split_and!; try congruence; try done.
  unfold state_matches in *. rewrite Hs3, Hpr3. done.
Qed.

Lemma resource_forgotten r r' d :
  tr_terminal_id r' <> tr_terminal_id r ->
  find_first (at_key resource_key (tr_terminal_id r'))
    (retain (fun e => negb (bool_decide (resource_key e = tr_terminal_id r))) (sd_resources d)) =
  resource d r'.
Proof.
  intros Hne. apply (kfind_retain resource_key). intros e _ Ek. apply negb_true_iff.
  apply bool_decide_eq_false. congruence.
Qed.

(** What a save does with one record the owner no longer retains. *)
Definition leave (e : ShardResource) : option ShardResource :=
  if ResourceState.is_live (sr_state e)
  then Some (set_sr_state ResourceState.OwnershipUnknown e) else None.

Lemma forget_or_mark_spec d r :
  changed_at (tr_terminal_id r) d (forget_or_mark d r) /\
  resource (forget_or_mark d r) r = (resource d r ≫= leave).
Proof.
  unfold forget_or_mark, forget, leave. destruct (resource d r) as [e|] eqn:Er; simpl.
  - destruct (ResourceState.is_live (sr_state e)) eqn:El; simpl.
    + unfold mark_ownership_unknown. rewrite Er. rewrite bool_decide_false by (intros E; by rewrite E in El).
      simpl. split; [by apply changed_at_update|]. by rewrite resource_update, decide_True, Er by done.
    + split; [split; simpl|].
      * intros Hk. by apply NoDup_keys_retain.
      * intros r' Hr'. by apply resource_forgotten.
      * apply (kfind_None resource_key). intros (e' & Ek & [_ He']%elem_of_retain)%list_elem_of_fmap.
        by rewrite bool_decide_true in He'.
  - split; [reflexivity|]. by rewrite Er.
Qed.

Lemma forget_all_spec rs d :
  NoDup (tr_terminal_id <$> rs) ->
  (NoDup (resource_key <$> sd_resources d) ->
   NoDup (resource_key <$> sd_resources (foldl forget_or_mark d rs))) /\
  forall r, resource (foldl forget_or_mark d rs) r =
    if decide (tr_terminal_id r ∈ tr_terminal_id <$> rs) then resource d r ≫= leave else resource d r.
Proof.
  revert d. induction rs as [|r0 rs IH]; intros d Hnd; cbn [foldl].
  { split; [done|]. intros r. by rewrite decide_False by apply not_elem_of_nil. }
  rewrite fmap_cons in Hnd. apply list.NoDup_cons in Hnd as [Hnin Hnd].
  destruct (forget_or_mark_spec d r0) as [[Hk Ho] Hself].
  destruct (IH (forget_or_mark d r0) Hnd) as [IHk IHr]. split; [auto|]. intros r.
  rewrite IHr, fmap_cons.
  destruct (decide (tr_terminal_id r = tr_terminal_id r0)) as [E|E].
  - rewrite decide_False by (by rewrite E). rewrite decide_True by (rewrite E; left).
    unfold resource in Hself |- *. rewrite E. exact Hself.
  - rewrite Ho by done.
    destruct (decide (tr_terminal_id r ∈ tr_terminal_id <$> rs)) as [Hin|Hin].
    + by rewrite decide_True by (by right).
    + rewrite decide_False; [done|]. by intros [?|?]%elem_of_cons.
Qed.

Lemma forget_absent_spec kind ps d :
  NoDup (resource_key <$> sd_resources d) ->
  NoDup (resource_key <$> sd_resources (forget_absent kind ps d)) /\
  forall r, resource (forget_absent kind ps d) r =
    e ← resource d r; if is_absent kind (projection_key <$> ps) e then leave e else Some e.
Proof.
  intros Hk. unfold forget_absent.
  set (rs := sr_resource <$> retain (is_absent kind (projection_key <$> ps)) (sd_resources d)).
  assert (Hkeys : tr_terminal_id <$> rs =
    resource_key <$> retain (is_absent kind (projection_key <$> ps)) (sd_resources d))
    by (unfold rs; by rewrite <- list_fmap_compose).
  destruct (forget_all_spec rs d) as [Hnd Hr]; [rewrite Hkeys; by apply NoDup_keys_retain|].
  split; [auto|]. intros r. rewrite Hr. destruct (resource d r) as [e|] eqn:Er; simpl; [|by case_decide].
  destruct (resource_Some _ _ _ Er) as [Hin Hkey].
  destruct (is_absent _ _ e) eqn:Ea.
  - rewrite decide_True; [done|]. rewrite Hkeys, <- Hkey. apply list_elem_of_fmap_2.
    by apply elem_of_retain.
  - rewrite decide_False; [done|]. rewrite Hkeys, <- Hkey.
    intros (e' & Ek & [He' Ha']%elem_of_retain)%list_elem_of_fmap.
    assert (e = e') by (by eapply (keys_inj resource_key)). congruence.
Qed.

(** The records of one pass over the projections. *)
Lemma project_all_spec ps d d' :
  NoDup (projection_key <$> ps) -> st_iter project_one ps d = (Ok tt, d') ->
  (NoDup (resource_key <$> sd_resources d) -> NoDup (resource_key <$> sd_resources d')) /\
  (forall r, tr_terminal_id r ∉ projection_key <$> ps -> resource d' r = resource d r) /\
  forall p, p ∈ ps -> exists e, resource d' (rp_resource p) = Some e /\ projects p e.
Proof.
  revert d. induction ps as [|p ps IH]; intros d Hnd H; simpl in H.
  { injection H as <-. split_and!; [done|done|]. intros p Hp. by apply not_elem_of_nil in Hp. }
  rewrite fmap_cons in Hnd. apply list.NoDup_cons in Hnd as [Hnin Hnd].
  st_inv H. destruct a. apply project_one_spec in H0 as [[Hk Ho] (e & He & Hp)].
  destruct (IH s Hnd H1) as (IHk & IHo & IHp). split_and!; [auto| |].
  - intros r Hr. rewrite fmap_cons in Hr. apply not_elem_of_cons in Hr as [Hne Hr].
    rewrite IHo by done. by apply Ho.
  - intros q [->|Hq]%elem_of_cons; [|by apply IHp]. exists e. split; [|done]. by rewrite IHo.
Qed.

Lemma project_change_spec kind ps d d' :
  NoDup (resource_key <$> sd_resources d) -> NoDup (projection_key <$> ps) ->
  project_change kind ps d = (Ok tt, d') ->
  NoDup (resource_key <$> sd_resources d') /\
  (forall p, p ∈ ps -> exists e, resource d' (rp_resource p) = Some e /\ projects p e) /\
  forall r, tr_terminal_id r ∉ projection_key <$> ps ->
    resource d' r = e ← resource d r; if bool_decide (sr_kind e = kind) then leave e else Some e.
Proof.
  intros Hk Hnd H. unfold project_change in H. st_inv H. injection H1 as <-. destruct a.
  destruct (project_all_spec _ _ _ Hnd H0) as (Hk' & Ho & Hp). specialize (Hk' Hk).
  destruct (forget_absent_spec kind ps s Hk') as [Hk2 Hr]. split_and!; [done| |].
  - intros p Hin. destruct (Hp p Hin) as (e & He & Hpe). exists e. split; [|done].
    rewrite Hr, He. simpl. unfold is_absent. rewrite (bool_decide_true (_ ∈ _)); [by rewrite andb_false_r|].
    destruct (resource_Some _ _ _ He) as [_ ->]. by apply (list_elem_of_fmap_2 projection_key).
  - intros r Hr'. rewrite Hr, Ho by done. destruct (resource d r) as [e|] eqn:Er; [|done]. simpl.
    destruct (resource_Some _ _ _ Er) as [_ Hkey]. unfold is_absent.
    rewrite (bool_decide_false (_ ∈ _)) by (by rewrite Hkey). by rewrite andb_true_r.
Qed.

Lemma validate_keys d : validate d = Ok tt -> NoDup (resource_key <$> sd_resources d).
Proof.
  unfold validate. destruct (bool_decide _); simpl; [|done].
  destruct (insert_all ∅ _) eqn:E; simpl; [|done]. intros _.
  by rewrite insert_all_empty, (fmap_as_str resource_key), NoDup_as_str in E.
Qed.

(** A save leaves the owner's truth in its shard.  Every record the owner
    passed is there with its operation, digest and payload and in a state its
    projection allows - a running child under the identity it was observed with,
    an ended one not live, an unproven one ownership-unknown; a record of the
    kind the owner no longer passes is dropped when nothing can be running and
    otherwise kept as ownership-unknown; the other kind's records are untouched. *)
Theorem save_projects_the_owners_truth kind ps d d' :
  validate d = Ok tt -> NoDup (projection_key <$> ps) ->
  project_change kind ps d = (Ok tt, d') ->
  NoDup (resource_key <$> sd_resources d') /\
  (forall p, p ∈ ps -> exists e, resource d' (rp_resource p) = Some e /\ projects p e) /\
  forall r, tr_terminal_id r ∉ projection_key <$> ps ->
    resource d' r =
    match resource d r with
    | None => None
    | Some e =>
        if bool_decide (sr_kind e <> kind) then Some e
        else if ResourceState.is_live (sr_state e)
        then Some (set_sr_state ResourceState.OwnershipUnknown e) else None
    end.
Proof.
  intros Hv Hnd H. destruct (project_change_spec _ _ _ _ (validate_keys _ Hv) Hnd H) as (Hk & Hp & Hr).
  split_and!; [done|done|]. intros r Hin. rewrite (Hr r Hin). destruct (resource d r) as [e|]; [|done].
  simpl. unfold leave. do 2 case_bool_decide; done.
Qed.

(** The document a commit writes: the change under the next revision. *)
Definition committed_shard d : ShardDocument := set_sd_revision (sd_revision d + 1) d.

(** The child a save protects is given up by the next one.  A live record that
    left the owner's truth is kept by the first save as ownership-unknown, with
    its child's identity; a second save of the same truth drops the record, which
    is what refusing to forget a live record was to prevent. *)
Theorem second_save_forgets_the_child kind ps d d1 d2 r e :
  validate d = Ok tt -> NoDup (projection_key <$> ps) ->
  project_change kind ps d = (Ok tt, d1) ->
  project_change kind ps (committed_shard d1) = (Ok tt, d2) ->
  resource d r = Some e -> sr_kind e = kind -> ResourceState.is_live (sr_state e) = true ->
  tr_terminal_id r ∉ projection_key <$> ps ->
  (exists e1, resource d1 r = Some e1 /\ sr_state e1 = ResourceState.OwnershipUnknown /\
     sr_process e1 = sr_process e) /\
  resource d2 r = None.
Proof.
  intros Hv Hnd H1 H2 He Hkind Hl Hr.
  destruct (project_change_spec _ _ _ _ (validate_keys _ Hv) Hnd H1) as (Hk1 & _ & Hr1).
  destruct (project_change_spec kind ps (committed_shard d1) d2 Hk1 Hnd H2) as (_ & _ & Hr2).
  specialize (Hr1 r Hr). rewrite He in Hr1. simpl in Hr1.
  unfold leave in Hr1. rewrite bool_decide_true, Hl in Hr1 by done.
  split; [by eexists|]. rewrite (Hr2 r Hr). change (resource (committed_shard d1) r) with (resource d1 r).
  rewrite Hr1. simpl. by rewrite bool_decide_true.
Qed.
End shard_side.

(** ** The allocator's side *)
Section allocator_side.
Import AllocatorDocument.
Implicit Types (d : AllocatorDocument) (p : RuntimeProjection).

(** [d'] is reached from [d] by ledger commands. *)
Definition runs (policy : CapacityPolicy) d d' : Prop := exists ops, d' = ledger_run policy ops d.

#[export] Instance runs_preorder policy : PreOrder (runs policy).
Proof.
  split; [intros d; by exists []|]. intros a b c [o1 ->] [o2 ->]. exists (o1 ++ o2).
  unfold ledger_run. by rewrite foldl_app.
Qed.

Lemma runs_one policy o d d' : ledger_apply policy o d = d' -> runs policy d d'.
Proof. intros <-. by exists [o]. Qed.

Lemma runs_phases policy limits now phases d r d' :
  st_iter (fun phase => apply_phase phase limits now) phases d = (r, d') -> runs policy d d'.
Proof.
  intros H. eapply (st_iter_preserves (runs policy d)); [|exact H|reflexivity].
  intros phase s r0 s' _ Hp Hs. etransitivity; [exact Hs|].
  apply (runs_one policy (OpPhase phase limits now)). simpl. by rewrite Hp.
Qed.

(** Anything collection phases keep, the admission's retention keeps. *)
Lemma retain_loop_preserves (P : AllocatorDocument -> Prop) sb fuel limits now growth d r d' :
  (forall phases d r d', st_iter (fun phase => apply_phase phase limits now) phases d = (r, d') ->
     P d -> P d') ->
  retain_loop sb fuel limits now growth d = Some (r, d') -> P d -> P d'.
Proof.
  intros Hph. revert d. induction fuel as [|fuel IH]; intros d; [done|]. cbn [retain_loop].
  destruct (fits _ _ _ _); [by intros [= <- <-]|].
  case_bool_decide; [by intros [= <- <-]|].
  destruct (st_iter _ _ d) as [[[]|e] d1] eqn:E; [|intros [= <- <-]; by eapply Hph].
  intros Hl Hd. eapply IH; [exact Hl|]. by eapply Hph.
Qed.

Lemma retention_preserves (P : AllocatorDocument -> Prop) sb limits now d r d' :
  (forall phases d r d', st_iter (fun phase => apply_phase phase limits now) phases d = (r, d') ->
     P d -> P d') ->
  retain_for_admission sb limits now d = (r, d') -> P d -> P d'.
Proof.
  intros Hph. unfold retain_for_admission. destruct (U64_MAX <=? _)%N; [by intros [= <- <-]|].
  cbv zeta. destruct (retain_loop _ _ _ _ _ _) as [[r1 d1]|] eqn:E; intros [= <- <-]; [|done].
  by apply (retain_loop_preserves P _ _ _ _ _ _ _ _ Hph E).
Qed.

(** One claim: perhaps a reservation, then perhaps a seal of the record that
    answers for the projected resource. *)
Lemma claim_one_steps p owner policy now d d' :
  claim_one p owner policy now d = (Ok tt, d') ->
  exists d1,
    ((holds_capacity (rp_state p) = false /\ d1 = d) \/
     (holds_capacity (rp_state p) = true /\ exists a,
        reserve (rp_operation p) (rp_digest p) (rp_kind p) owner (rp_resource p) policy d = (Ok a, d1))) /\
    ((operation d1 (rp_operation p) = None /\ d' = d1) \/
     exists record, operation d1 (rp_operation p) = Some record /\
       or_resource record = rp_resource p /\
       (d' = d1 \/ mark_spawned (rp_operation p) now d1 = (Ok tt, d') \/
        (holds_capacity (rp_state p) = false /\
         mark_failed (rp_operation p) LaunchFailure.Spawn now d1 = (Ok tt, d')) \/
        mark_ambiguous (rp_operation p) now d1 = (Ok tt, d'))).
Proof.
  unfold claim_one. intros H. st_inv H. exists s. split.
  - clear H1. destruct (holds_capacity _); [right|left].
    + split; [done|]. st_inv H0. injection H1 as _ <-. by exists a0.
    + by injection H0 as _ <-.
  - clear H0. unfold st_bind, st_get in H1. destruct (operation s _) as [record|] eqn:Eo.
    2:{ left. split; [done|]. by injection H1 as <-. }
    right. exists record. split; [done|]. case_bool_decide as Er; simpl in H1; [|done]. split; [done|].
    destruct (is_final _); [left; by injection H1 as <-|].
    destruct (rp_state p); simpl in *; auto. left. by injection H1 as <-.
Qed.

(** The resource's claim holds capacity for the operation. *)
Definition held (t : TerminalRef) (op : OperationId) d : Prop :=
  exists c, claim d t = Some c /\ holds c = true /\ rc_operation c = op.

Lemma held_update_live k t op d : held t op d -> held t op (update_claim k ClaimState.Live d).
Proof.
  intros (c & Hc & Hh & Ho). unfold held.
  assert (E : claim (update_claim k ClaimState.Live d) t =
    if decide (tr_terminal_id t = k) then set_claim_state ClaimState.Live <$> claim d t else claim d t)
    by (by apply (kfind_update claim_key)).
  rewrite E, Hc. case_decide; by eexists.
Qed.

Lemma held_release t t' op d :
  tr_terminal_id t <> tr_terminal_id t' -> held t op d -> held t op (release t' d).
Proof.
  intros Hne (c & Hc & Hh & Ho). exists c. split; [|done]. by rewrite claim_release, decide_False.
Qed.

Lemma seal_effect op outcome now d r d' :
  seal op outcome now d = (r, d') ->
  (forall t op', held t op' d -> held t op' d') /\
  forall op', or_resource <$> operation d' op' = or_resource <$> operation d op'.
Proof.
  intros [->| ->]%seal_cases; [done|]. split; [done|]. intros op'. rewrite operation_seal.
  case_decide; [|done]. by destruct (operation d op').
Qed.

(** The seal of a projection's record is a ledger command; it keeps every
    record's resource, and every held claim but the one a failed spawn gives back. *)
Lemma claim_one_effect p owner policy now d d' :
  claim_one p owner policy now d = (Ok tt, d') ->
  exists d1,
    ((holds_capacity (rp_state p) = false /\ d1 = d) \/
     (holds_capacity (rp_state p) = true /\ exists a,
        reserve (rp_operation p) (rp_digest p) (rp_kind p) owner (rp_resource p) policy d = (Ok a, d1))) /\
    (forall record, operation d1 (rp_operation p) = Some record -> or_resource record = rp_resource p) /\
    runs policy d1 d' /\
    (forall op, or_resource <$> operation d' op = or_resource <$> operation d1 op) /\
    (forall t op, tr_terminal_id t <> projection_key p \/ holds_capacity (rp_state p) = true ->
       held t op d1 -> held t op d').
Proof.
  intros (d1 & H1 & H2)%claim_one_steps. exists d1. split; [exact H1|]. clear H1.
  destruct H2 as [[Hn ->]|(record & Hr & Hres & H)]; [by rewrite Hn|].
  split; [intros record' E; congruence|]. destruct H as [->|[H|[[Hh H]|H]]]; [done| | |].
  - split; [apply (runs_one policy (OpSpawned (rp_operation p) now)); simpl; by rewrite H|].
    apply mark_spawned_eq in H as (d2 & r1 & [Hs Ho]%seal_effect & H).
    destruct H as [->|(record' & c & _ & _ & _ & ->)]; [by auto|].
    split; [done|]. intros t op _ Ht. by apply held_update_live, Hs.
  - split; [apply (runs_one policy (OpFailed (rp_operation p) LaunchFailure.Spawn now)); simpl; by rewrite H|].
    apply mark_failed_eq in H as (d2 & r1 & [Hs Ho]%seal_effect & H).
    destruct H as [->|(record' & Hr' & ->)]; [by auto|]. split.
    + intros op. rewrite <- Ho. by destruct (release_eq (or_resource record') d2) as [->|(? & _ & _ & ->)].
    + intros t op [Hne|Hh']; [|congruence]. intros Ht. apply held_release; [|by apply Hs].
      specialize (Ho (rp_operation p)). rewrite Hr, Hr' in Ho. injection Ho as ->. by rewrite Hres.
  - split; [apply (runs_one policy (OpAmbiguous (rp_operation p) now)); simpl; by rewrite H|].
    apply seal_effect in H as [Hs Ho]. by auto.
Qed.

Lemma reserve_ok op digest kind owner resource policy d a d1 :
  reserve op digest kind owner resource policy d = (Ok a, d1) ->
  runs policy d d1 /\
  ((exists record, operation d op = Some record /\ or_digest record = digest /\
      is_expired d op = false /\ d1 = d) \/
   (operation d op = None /\ is_expired d op = false /\ claim d resource = None /\
      d1 = reserved op digest kind owner resource d)).
Proof.
  intros H. split; [apply (runs_one policy (OpReserve op digest kind owner resource)); simpl; by rewrite H|].
  pose proof (reserve_eq _ _ _ _ _ _ _ _ _ H) as [[-> Hne]|(_ & (? & Hn & _)%admit_fresh & Hc & _ & ->)];
    [left|by right].
  unfold reserve in H. destruct (admit_ d op digest kind policy) as [a'|] eqn:Ea; [|done].
  unfold admit_ in Ea. destruct (is_expired d op); [done|].
  destruct (operation d op) as [record|].
  - destruct (bool_decide (or_digest record = digest)) eqn:Ed; simpl in Ea; [|done].
    apply bool_decide_eq_true in Ed. by exists record.
  - destruct (_ <=? _)%nat; [done|]. injection Ea as <-. rewrite bool_decide_true in H by done.
    simpl in H. destruct (_ || _); [done|]. injection H as <- _. done.
Qed.

Lemma claim_reserved op digest kind owner resource d t :
  claim (reserved op digest kind owner resource d) t =
  match claim d t with
  | Some c => Some c
  | None => if decide (tr_terminal_id t = tr_terminal_id resource)
            then Some (MkResourceClaim resource kind owner op digest ClaimState.Reserved 1) else None
  end.
Proof.
  unfold claim. simpl. rewrite find_first_app. destruct (find_first _ _); [done|]. simpl.
  unfold at_key, claim_key. simpl. case_decide; [by rewrite bool_decide_true|].
  by rewrite bool_decide_false by congruence.
Qed.

(** A first claim is durable and holds capacity. *)
Lemma claim_one_takes p owner policy now d d' :
  claim_one p owner policy now d = (Ok tt, d') -> holds_capacity (rp_state p) = true ->
  operation d (rp_operation p) = None -> held (rp_resource p) (rp_operation p) d'.
Proof.
  intros (d1 & H1 & _ & _ & _ & Hh)%claim_one_effect Hcap Hn.
  destruct H1 as [[? _]|(_ & a & [_ [(record & Hr & _)|(_ & _ & Hc & ->)]]%reserve_ok)]; [congruence..|].
  apply Hh; [by right|]. eexists. rewrite claim_reserved, Hc, decide_True by done. done.
Qed.

Lemma claim_one_held p owner policy now d d' t op :
  claim_one p owner policy now d = (Ok tt, d') -> tr_terminal_id t <> projection_key p ->
  held t op d -> held t op d'.
Proof.
  intros (d1 & H1 & _ & _ & _ & Hh)%claim_one_effect Hne Ht. apply Hh; [by left|].
  destruct H1 as [[_ ->]|(_ & a & [_ [(record & _ & _ & _ & ->)|(_ & _ & _ & ->)]]%reserve_ok)]; [done..|].
  destruct Ht as (c & Hc & ?). exists c. by rewrite claim_reserved, Hc.
Qed.

Lemma claim_one_new p owner policy now d d' op record :
  claim_one p owner policy now d = (Ok tt, d') -> operation d op = None ->
  operation d' op = Some record -> op = rp_operation p /\ or_resource record = rp_resource p.
Proof.
  intros (d1 & H1 & _ & _ & Ho & _)%claim_one_effect Hn Hs.
  specialize (Ho op). rewrite Hs in Ho.
  destruct H1 as [[_ ->]|(_ & a & [_ [(record' & _ & _ & _ & ->)|(_ & _ & _ & ->)]]%reserve_ok)];
    [by rewrite Hn in Ho..|].
  rewrite operation_reserved, Hn in Ho. case_decide; [|done]. by injection Ho as ->.
Qed.

(** The record that answers for a capacity-holding projection is its own. *)
Definition answered p d : Prop := exists record,
  or_operation record = rp_operation p /\ or_digest record = rp_digest p /\
  or_resource record = rp_resource p /\ remembered record d.

Lemma remembered_self record d : operation d (or_operation record) = Some record -> remembered record d.
Proof. unfold remembered, same_intent. intros ->. done. Qed.

Lemma runs_remembered policy record d d' : runs policy d d' -> remembered record d -> remembered record d'.
Proof. intros [ops ->]. apply micro_invariant. intros ??. apply micro_remembered. Qed.

Lemma claim_one_answers p owner policy now d d' :
  claim_one p owner policy now d = (Ok tt, d') -> holds_capacity (rp_state p) = true -> answered p d'.
Proof.
  intros (d1 & H1 & Hres & Hruns & _)%claim_one_effect Hcap.
  destruct H1 as [[? _]|(_ & a & [_ H]%reserve_ok)]; [congruence|].
  assert (exists record, operation d1 (rp_operation p) = Some record /\ or_digest record = rp_digest p)
    as (record & Hr & Hd).
  { destruct H as [(record & ? & ? & _ & ->)|(Hn & He & _ & ->)]; [eauto|].
    rewrite operation_reserved, Hn, decide_True by done. by eexists. }
  destruct (operation_Some _ _ _ Hr) as [_ Hop].
  exists record. split_and!; [done|done|by apply Hres|]. eapply runs_remembered; [exact Hruns|].
  apply remembered_self. by rewrite Hop.
Qed.

(** A record that was there first keeps its resource, whoever claims it next. *)
Lemma claim_one_same p owner policy now d d' record :
  claim_one p owner policy now d = (Ok tt, d') -> holds_capacity (rp_state p) = true ->
  or_operation record = rp_operation p -> remembered record d -> or_resource record = rp_resource p.
Proof.
  intros (d1 & H1 & Hres & _)%claim_one_effect Hcap Hop Hrem.
  destruct H1 as [[? _]|(_ & a & [_ H]%reserve_ok)]; [congruence|].
  unfold remembered in Hrem. rewrite Hop in Hrem.
  destruct H as [(record' & Hr & _ & _ & ->)|(Hn & He & _ & ->)].
  - rewrite Hr in Hrem. destruct Hrem as [(_ & _ & _ & _ & <-) _]. by apply Hres.
  - rewrite Hn in Hrem. congruence.
Qed.

Lemma claim_one_runs p owner policy now d d' :
  claim_one p owner policy now d = (Ok tt, d') -> runs policy d d'.
Proof.
  intros (d1 & H1 & _ & Hr & _)%claim_one_effect. etransitivity; [|exact Hr].
  destruct H1 as [[_ ->]|(_ & a & [H _]%reserve_ok)]; [reflexivity|done].
Qed.

Lemma claim_each_runs ps owner policy now fresh d v d' :
  claim_each ps owner policy now fresh d = (Ok v, d') ->
  runs policy d d' /\
  forall t op, tr_terminal_id t ∉ projection_key <$> ps -> held t op d -> held t op d'.
Proof.
  revert d fresh. induction ps as [|p ps IH]; intros d fresh H; cbn [claim_each] in H.
  { injection H as _ <-. by split. }
  unfold st_bind at 1, st_get in H. st_inv H. destruct a.
  destruct (IH _ _ H1) as [Hruns Hheld]. split.
  - etransitivity; [by eapply claim_one_runs|exact Hruns].
  - intros t op Hnin Ht. rewrite fmap_cons in Hnin. apply not_elem_of_cons in Hnin as [Hne Hnin].
    apply Hheld; [done|]. by eapply claim_one_held.
Qed.

Lemma claim_each_answers ps owner policy now fresh d v d' p :
  claim_each ps owner policy now fresh d = (Ok v, d') -> p ∈ ps ->
  holds_capacity (rp_state p) = true ->
  answered p d' /\
  forall record, or_operation record = rp_operation p -> remembered record d ->
    or_resource record = rp_resource p.
Proof.
  revert d fresh. induction ps as [|q ps IH]; intros d fresh H Hp Hcap; cbn [claim_each] in H.
  { by apply not_elem_of_nil in Hp. }
  unfold st_bind at 1, st_get in H. st_inv H. destruct a.
  apply elem_of_cons in Hp as [<-|Hp].
  - split; [|intros record; by eapply claim_one_same].
    destruct (claim_one_answers _ _ _ _ _ _ H0 Hcap) as (record & ? & ? & ? & Hrem).
    exists record. split_and!; try done. eapply runs_remembered; [|exact Hrem].
    by eapply claim_each_runs.
  - destruct (IH _ _ H1 Hp Hcap) as [Ha Hsame]. split; [done|].
    intros record Hop Hrem. apply Hsame; [done|]. eapply runs_remembered; [|exact Hrem].
    by eapply claim_one_runs.
Qed.

Lemma claim_each_takes ps owner policy now fresh d v d' p :
  NoDup (projection_key <$> ps) ->
  claim_each ps owner policy now fresh d = (Ok v, d') -> p ∈ ps ->
  holds_capacity (rp_state p) = true -> operation d (rp_operation p) = None ->
  held (rp_resource p) (rp_operation p) d'.
Proof.
  revert d fresh. induction ps as [|q ps IH]; intros d fresh Hnd H Hp Hcap Hn; cbn [claim_each] in H.
  { by apply not_elem_of_nil in Hp. }
  rewrite fmap_cons in Hnd. apply list.NoDup_cons in Hnd as [Hnin Hnd].
  unfold st_bind at 1, st_get in H. st_inv H. destruct a.
  apply elem_of_cons in Hp as [<-|Hp].
  - destruct (claim_each_runs _ _ _ _ _ _ _ _ H1) as [_ Hheld]. apply Hheld; [done|].
    by eapply claim_one_takes.
  - destruct (operation s (rp_operation p)) as [record|] eqn:Er; [|by eapply (IH s)].
    exfalso. destruct (claim_one_new _ _ _ _ _ _ _ _ H0 Hn Er) as [_ Hres].
    destruct (claim_each_answers _ _ _ _ _ _ _ _ p H1 Hp Hcap) as [_ Hsame].
    destruct (operation_Some _ _ _ Er) as [_ Hop].
    assert (E : or_resource record = rp_resource p)
      by (apply Hsame; [done|]; apply remembered_self; by rewrite Hop).
    apply Hnin. unfold projection_key. rewrite <- Hres, E.
    by apply (list_elem_of_fmap_2 projection_key).
Qed.

(** What the admission's retention keeps. *)
Lemma phases_held limits now phases t op d r d' :
  st_iter (fun phase => apply_phase phase limits now) phases d = (r, d') ->
  sound d /\ held t op d -> sound d' /\ held t op d'.
Proof.
  intros H. eapply (st_iter_preserves (fun d => sound d /\ held t op d)); [|exact H].
  intros phase s r0 s' _ Hp [Hs (c & Hc & Hh & Ho)].
  assert (Hs' : sound s').
  { pose proof (run_sound (MkCapacityPolicy 0 0) [OpPhase phase limits now] s Hs) as Hr.
    simpl in Hr. by rewrite Hp in Hr. }
  split; [done|]. exists c. split; [|done]. destruct (claim_Some _ _ _ Hc) as [Hin Hk].
  unfold claim. rewrite <- Hk. apply (kfind_elem claim_key); [apply Hs'|].
  eapply phase_keeps_held; [exact Hp|done|done|]. unfold holds in Hh. by intros E; rewrite E in Hh.
Qed.

Lemma claim_change_runs sb limits ps owner policy now d d' :
  claim_change sb limits ps owner policy now d = (Ok tt, d') ->
  exists v d1, claim_each ps owner policy now false d = (Ok v, d1) /\ runs policy d d1 /\
    runs policy d1 d' /\
    (v = false -> d' = d1) /\ (v = true -> retain_for_admission sb limits now d1 = (Ok tt, d')).
Proof.
  intros H. unfold claim_change in H. st_inv H. exists a, s. split; [done|].
  split; [by eapply claim_each_runs|]. destruct a.
  - split; [|by split]. eapply (retention_preserves (runs policy s)); [|exact H1|reflexivity].
    intros phases d1 r d2 Hp Hd1. etransitivity; [exact Hd1|by eapply runs_phases].
  - injection H1 as <-. by split.
Qed.

Lemma claim_change_answers sb limits ps owner policy now d d' p :
  claim_change sb limits ps owner policy now d = (Ok tt, d') -> p ∈ ps ->
  holds_capacity (rp_state p) = true -> answered p d'.
Proof.
  intros (v & d1 & Hc & _ & Hruns & _)%claim_change_runs Hp Hcap.
  destruct (claim_each_answers _ _ _ _ _ _ _ _ p Hc Hp Hcap) as [(record & ? & ? & ? & Hrem) _].
  exists record. split_and!; try done. by eapply runs_remembered.
Qed.

(** The authority leads the effect.  When the allocator accepts a save - before
    the owner's shard is touched - the change is a run of ledger commands, and
    for every record that holds capacity the document remembers its operation
    with its digest and exactly its terminal; when the operation was not in the
    ledger before, its claim is there and holds capacity, retention included. *)
Theorem claims_precede_the_shard sb limits ps owner policy now d d' :
  sound d -> NoDup (projection_key <$> ps) ->
  claim_change sb limits ps owner policy now d = (Ok tt, d') ->
  sound d' /\ runs policy d d' /\
  forall p, p ∈ ps -> holds_capacity (rp_state p) = true ->
    answered p d' /\
    (operation d (rp_operation p) = None -> held (rp_resource p) (rp_operation p) d').
Proof.
  intros Hs Hnd H. destruct (claim_change_runs _ _ _ _ _ _ _ _ H) as (v & d1 & Hc & Hr1 & Hr2 & Hf & Ht).
  assert (Hss : sound d1) by (destruct Hr1 as [ops ->]; by apply run_sound).
  split_and!; [destruct Hr2 as [ops ->]; by apply run_sound|by etransitivity|].
  intros p Hp Hcap. split; [by eapply claim_change_answers|].
  intros Hn. pose proof (claim_each_takes _ _ _ _ _ _ _ _ p Hnd Hc Hp Hcap Hn) as Hheld.
  destruct v; [|by rewrite Hf].
  refine (proj2 (retention_preserves (fun d => sound d /\ held (rp_resource p) (rp_operation p) d)
    _ _ _ _ _ _ _ (Ht eq_refl) (conj Hss Hheld))). intros phases d2 r d3. apply phases_held.
Qed.
End allocator_side.

(** ** Adopting a legacy store *)
Section adoption.
Import ShardDocument.
Implicit Types (records : list LegacyRuntimeRecord) (record : LegacyRuntimeRecord).

Lemma adopt_legacy_snoc owner records record :
  adopt_legacy owner (records ++ [record]) = adopt_one owner (adopt_legacy owner records) record.
Proof. unfold adopt_legacy. by rewrite foldl_app. Qed.

(** A live adopted record is a live legacy record that proves its child. *)
Definition proved record (e : ShardResource) : Prop :=
  lr_live record = true /\ lr_resource record = sr_resource e /\
  lr_operation record = Some (sr_operation e) /\
  exists p, lr_process record = Some p /\ sr_process e = Some p /\ is_verifiable p = true.

Record adoption (owner : DaemonGeneration) records (r : AdoptionReport) : Prop := {
  ad_owner : sd_owner (ar_shard r) = owner;
  ad_schema_ : sd_schema (ar_shard r) = SHARD_SCHEMA;
  ad_empty : sd_outbox (ar_shard r) = [] /\ sd_in_flight (ar_shard r) = [] /\ sd_revision (ar_shard r) = 0%N;
  ad_keys : NoDup (resource_key <$> sd_resources (ar_shard r));
  ad_entries : forall e, e ∈ sd_resources (ar_shard r) ->
    tr_daemon_generation (sr_resource e) = owner /\
    (sr_state e = ResourceState.OwnershipUnknown \/
     sr_state e = ResourceState.Running /\ exists record, record ∈ records /\ proved record e);
  ad_own : forall record, record ∈ records -> tr_daemon_generation (lr_resource record) = owner ->
    exists e, e ∈ sd_resources (ar_shard r) /\ resource_key e = tr_terminal_id (lr_resource record);
  ad_foreign : forall record, record ∈ records -> tr_daemon_generation (lr_resource record) <> owner ->
    MkUnknownRecord (lr_resource record) ForeignGeneration ∈ ar_unknown r;
}.

Lemma elem_of_snoc {A} (l : list A) x y : x ∈ l ++ [y] <-> x ∈ l \/ x = y.
Proof. by rewrite elem_of_app, list_elem_of_singleton. Qed.

Lemma adoption_more owner records record r u :
  adoption owner records r -> tr_daemon_generation (lr_resource record) <> owner \/
    is_Some (resource (ar_shard r) (lr_resource record)) ->
  (tr_daemon_generation (lr_resource record) <> owner -> u = ForeignGeneration) ->
  adoption owner (records ++ [record])
    (MkAdoptionReport (ar_shard r) (ar_unknown r ++ [MkUnknownRecord (lr_resource record) u])).
Proof.
  intros [Ho Hsch He Hk Hent Hown Hfor] Hwhy Hu. split; simpl; try done.
  - intros e Hin. destruct (Hent e Hin) as [? [?|(? & r0 & ? & ?)]]; split; auto.
    right. split; [done|]. exists r0. split; [|done]. apply elem_of_snoc. by left.
  - intros r0 [Hr| ->]%elem_of_snoc Hg; [by apply Hown|]. destruct Hwhy as [?|[e He']]; [done|].
    exists e. by apply kfind_Some in He'.
  - intros r0 [Hr| ->]%elem_of_snoc Hg; apply elem_of_snoc; [left; by apply Hfor|right; by rewrite Hu].
Qed.

Lemma adopt_one_adoption owner records record r :
  adoption owner records r -> adoption owner (records ++ [record]) (adopt_one owner r record).
Proof.
  intros Hr. unfold adopt_one.
  destruct (bool_decide (tr_daemon_generation (lr_resource record) = owner)) eqn:Eg; simpl.
  2:{ apply bool_decide_eq_false in Eg. by apply adoption_more; [|left|]. }
  apply bool_decide_eq_true in Eg.
  destruct (bool_decide (is_Some (resource (ar_shard r) (lr_resource record)))) eqn:Ed.
  { apply bool_decide_eq_true in Ed. apply adoption_more; [done|by right|done]. }
  apply bool_decide_eq_false, eq_None_not_Some in Ed.
  destruct Hr as [Ho Hsch He Hk Hent Hown Hfor]. split; simpl; try done.
  - rewrite fmap_app. apply list.NoDup_app. split_and!; [done| |apply list.NoDup_singleton].
    intros k Hin ->%list_elem_of_singleton. by apply (kfind_None resource_key) in Ed.
  - intros e [Hin| ->]%elem_of_snoc; simpl.
    + destruct (Hent e Hin) as [? [?|(? & r0 & ? & ?)]]; split; auto.
      right. split; [done|]. exists r0. split; [|done]. apply elem_of_snoc. by left.
    + split; [done|]. unfold proved, classify_legacy. simpl.
      destruct (lr_operation record) as [op|] eqn:Eo; [|by left].
      destruct (lr_process record) as [p|] eqn:Ep; [|by left].
      destruct (is_verifiable p) eqn:Ev; [|by left].
      destruct (lr_live record) eqn:El; [|by left]. right. split; [done|]. exists record.
      split; [apply elem_of_snoc; by right|]. rewrite Eo, Ep, El. split_and!; try done. by exists p.
  - intros r0 [Hin| ->]%elem_of_snoc Hg.
    + destruct (Hown r0 Hin Hg) as (e & ? & ?). exists e. split; [|done]. apply elem_of_snoc. by left.
    + eexists. split; [apply elem_of_snoc; by right|done].
  - intros r0 [Hin| ->]%elem_of_snoc Hg; [|done]. specialize (Hfor r0 Hin Hg).
    destruct (classify_legacy record); [|done]. apply elem_of_snoc. by left.
Qed.

Lemma adopt_legacy_adoption owner records : adoption owner records (adopt_legacy owner records).
Proof.
  induction records as [|record records IH] using rev_ind.
  - split; simpl; try apply base.NoDup_nil_2; try done; intros x Hx; by apply not_elem_of_nil in Hx.
  - rewrite adopt_legacy_snoc. by apply adopt_one_adoption.
Qed.

(** Adopting a legacy store is sound.  Whatever records it holds, the shard it
    builds is a valid document with nothing published; a record is adopted as
    running only when a live legacy record of this generation names its producer
    and a verifiable child; every record of this generation has an entry, and
    every other one is reported as foreign. *)
Theorem adoption_is_sound owner records :
  let report := adopt_legacy owner records in
  validate (ar_shard report) = Ok tt /\
  sd_owner (ar_shard report) = owner /\ sd_outbox (ar_shard report) = [] /\
  (forall e, e ∈ sd_resources (ar_shard report) -> ResourceState.is_live (sr_state e) = true ->
     exists record, record ∈ records /\ proved record e) /\
  (forall record, record ∈ records -> tr_daemon_generation (lr_resource record) = owner ->
     exists e, e ∈ sd_resources (ar_shard report) /\
       resource_key e = tr_terminal_id (lr_resource record)) /\
  (forall record, record ∈ records -> tr_daemon_generation (lr_resource record) <> owner ->
     MkUnknownRecord (lr_resource record) ForeignGeneration ∈ ar_unknown report).
Proof.
  destruct (adopt_legacy_adoption owner records) as [Ho Hsch (Hout & Hin & _) Hk Hent Hown Hfor].
  cbv zeta. split_and!; try done.
  - unfold validate. rewrite Hsch, Hout, Hin, bool_decide_true by done. simpl.
    replace (insert_all ∅ _) with true
      by (symmetry; by rewrite insert_all_empty, (fmap_as_str resource_key), NoDup_as_str).
    replace (forallb _ _) with true; [done|]. symmetry. apply forallb_elem. intros e He.
    unfold entry_valid. destruct (Hent e He) as [Hg Hst]. rewrite Hg, Ho, bool_decide_true by done.
    destruct Hst as [->|(-> & r & _ & _ & _ & _ & p & _ & -> & ->)]; done.
  - intros e He Hl. destruct (Hent e He) as [_ [E|(_ & ?)]]; [by rewrite E in Hl|done].
Qed.

(** Of two legacy records with one terminal the first is adopted - live, when it
    proves its child - and only the second is reported. *)
Example first_duplicate_is_adopted : 
  let t := MkTerminalRef (MkDaemonGeneration "g") (MkTerminalId "t") (MkWorkspaceId "w") None
             (MkWorktreeId "k") in
  let record pid := MkLegacyRuntimeRecord t AgentKind (Some (MkOperationId "op")) None
                      (Some (MkChildIdentity pid pid IDENTITY_SOURCE_OS "start")) true in
  let report := adopt_legacy (MkDaemonGeneration "g") [record 7%N; record 8%N] in
  (sr_state <$> sd_resources (ar_shard report)) = [ResourceState.Running] /\
  ar_unknown report = [MkUnknownRecord t Duplicate].
Proof. vm_compute. done. Qed.
End adoption.

(** ** Concrete saves *)
Module SaveExample.
Import LedgerExample DrainExample.
Definition running : RuntimeProjection :=
  MkRuntimeProjection t1 AgentKind op1 "agent:d" (ProjectedState.Running identity) "payload".
Definition other : RuntimeProjection :=
  MkRuntimeProjection t2 AgentKind op2 "agent:e" ProjectedState.Reserved "other".
Definition wide : CapacityPolicy := MkCapacityPolicy 2 2.
Definition bounds : RetentionLimits := RetentionLimits_new 8 4096 100 10 20.
Definition shard0 : ShardDocument := ShardDocument.empty g1.
Definition shard1 : ShardDocument := snd (project_change AgentKind [running; other] shard0).
(** The second save no longer names [running]. *)
Definition shard2 : ShardDocument := snd (project_change AgentKind [other] shard1).
Definition shard3 : ShardDocument :=
  snd (project_change AgentKind [other] (committed_shard shard2)).
Definition t1_running : ShardResource :=
  MkShardResource t1 AgentKind op1 "agent:d" (Some identity) ResourceState.Running (Some "payload") 3.
Definition ledger1 : AllocatorDocument :=
  snd (claim_change size bounds [running; other] g1 wide 5 AllocatorDocument_default).

Lemma keys2 : NoDup (projection_key <$> [running; other]).
Proof.
  apply list.NoDup_cons. split; [intros H; apply list_elem_of_singleton in H; discriminate H|].
  apply list.NoDup_singleton.
Qed.
Lemma keys1 : NoDup (projection_key <$> [other]).
Proof. apply list.NoDup_singleton. Qed.
Lemma saved_once : project_change AgentKind [running; other] shard0 = (Ok tt, shard1).
Proof. vm_compute. reflexivity. Qed.
Lemma saved_twice : project_change AgentKind [other] shard1 = (Ok tt, shard2).
Proof. vm_compute. reflexivity. Qed.
Lemma saved_thrice : project_change AgentKind [other] (committed_shard shard2) = (Ok tt, shard3).
Proof. vm_compute. reflexivity. Qed.
Lemma valid0 : ShardDocument.validate shard0 = Ok tt.
Proof. vm_compute. reflexivity. Qed.
Lemma valid1 : ShardDocument.validate shard1 = Ok tt.
Proof. vm_compute. reflexivity. Qed.
Lemma t1_in_shard1 : ShardDocument.resource shard1 t1 = Some t1_running.
Proof. vm_compute. reflexivity. Qed.
Lemma t1_absent : tr_terminal_id t1 ∉ projection_key <$> [other].
Proof. intros H. apply list_elem_of_singleton in H. discriminate H. Qed.
Lemma claim_run :
  claim_change size bounds [running; other] g1 wide 5 AllocatorDocument_default = (Ok tt, ledger1).
Proof. vm_compute. reflexivity. Qed.
End SaveExample.
Import SaveExample.

Lemma save_projects_the_owners_truth_witness :
  exists e, ShardDocument.resource shard1 (rp_resource running) = Some e /\ projects running e.
Proof.
  destruct (save_projects_the_owners_truth AgentKind [running; other] shard0 shard1 valid0 keys2 saved_once)
    as (_ & H & _). exact (H running (list_elem_of_here _ _)).
Defined.

Lemma second_save_forgets_the_child_witness : ShardDocument.resource shard3 LedgerExample.t1 = None.
Proof.
  destruct (second_save_forgets_the_child AgentKind [other] shard1 shard2 shard3 LedgerExample.t1
    t1_running valid1 keys1 saved_twice saved_thrice t1_in_shard1 eq_refl eq_refl t1_absent) as [_ H]. exact H.
Defined.

Lemma claims_precede_the_shard_witness : held LedgerExample.t1 LedgerExample.op1 ledger1.
Proof.
  destruct (claims_precede_the_shard LedgerExample.size bounds [running; other]
    LedgerExample.g1 wide 5 AllocatorDocument_default ledger1 default_sound keys2 claim_run)
    as (_ & _ & H).
  exact (proj2 (H running (list_elem_of_here _ _) eq_refl) eq_refl).
Defined.
