(* ===== verification/Durable.v ===== *)
(** * One generation's durable runtime state
    ([crates/daemon/src/usecase/resources/durable.rs], [ShardedRuntimeState];
    the shard directory of [infrastructure/resource_store.rs])

    The handlers over the three durable things a generation reaches: the shared
    allocator, its own shard, and the directory of every retained shard.  Each is
    a file (or directory) with its own environment of other processes' writes and
    of faults, so a handler is a function in [durable_st]; an error keeps every
    write made before it. *)
From S2P Require Export Saves SharedWrite.

(** ** The shard directory *)
Inductive ArchiveStep (Bytes : Type) : Type :=
| ArIdle
| ArReplace (shards : gmap string Bytes)
| ArFault (error : IoError).
Global Arguments ArIdle {Bytes}.
Global Arguments ArReplace {Bytes} shards.
Global Arguments ArFault {Bytes} error.

(** The files by name, what the other processes do to them, and the log of our
    own removals. *)
Record ArchiveFiles (Bytes : Type) := MkArchiveFiles {
  af_shards : gmap string Bytes;
  af_env : list (ArchiveStep Bytes);
  af_removed : list DaemonGeneration;
}.
Global Arguments MkArchiveFiles {Bytes} af_shards af_env af_removed.
Global Arguments af_shards {Bytes} a : rename.
Global Arguments af_env {Bytes} a : rename.
Global Arguments af_removed {Bytes} a : rename.

Definition archive_tick {Bytes} (a : ArchiveFiles Bytes) : option IoError * ArchiveFiles Bytes :=
  match af_env a with
  | [] => (None, a)
  | ArIdle :: e => (None, MkArchiveFiles (af_shards a) e (af_removed a))
  | ArReplace m :: e => (None, MkArchiveFiles m e (af_removed a))
  | ArFault error :: e => (Some error, MkArchiveFiles (af_shards a) e (af_removed a))
  end.

Definition name_le {Bytes} (a b : string * Bytes) : Prop := str_le (fst a) (fst b) = true.
#[export] Instance name_le_dec {Bytes} : RelDecision (@name_le Bytes).
Proof. intros a b. unfold name_le. apply _. Defined.

(** [ShardArchiveFiles::documents]: every file of the directory, by name. *)
Definition archive_documents {Bytes} : st (ArchiveFiles Bytes) IoError (list Bytes) := fun a =>
  match archive_tick a with
  | (Some e, a') => (Err e, a')
  | (None, a') => (Ok (snd <$> merge_sort name_le (map_to_list (af_shards a'))), a')
  end.

(** [ShardArchiveFiles::collect]: an absent file is not an error. *)
Definition archive_collect {Bytes} (owner : DaemonGeneration)
    : st (ArchiveFiles Bytes) IoError unit := fun a =>
  match archive_tick a with
  | (Some e, a') => (Err e, a')
  | (None, a') =>
      (Ok tt, MkArchiveFiles (delete (as_str owner) (af_shards a')) (af_env a')
                (af_removed a' ++ [owner]))
  end.

(** ** The state a generation reaches

    [df_shard] is the owner's own shard.  Its file is also one of the directory;
    what a save writes there shows in [df_archive] as an [ArReplace]. *)
Record DurableFiles (Bytes : Type) := MkDurableFiles {
  df_allocator : FileState Bytes;
  df_shard : FileState Bytes;
  df_archive : ArchiveFiles Bytes;
}.
Global Arguments MkDurableFiles {Bytes} df_allocator df_shard df_archive.
Global Arguments df_allocator {Bytes} d : rename.
Global Arguments df_shard {Bytes} d : rename.
Global Arguments df_archive {Bytes} d : rename.

(** The fields of [ShardedRuntimeState] that are not files. *)
Record ShardedRuntimeState := MkShardedRuntimeState {
  ss_owner : DaemonGeneration;
  ss_role : GenerationRole;
  ss_registered : option (gset DaemonGeneration);
  ss_policy : CapacityPolicy;
  ss_observe : ChildIdentity -> ChildObservation.t;
  ss_retention_limits : RetentionLimits;
}.

Definition with_registered_generations (registered : gset DaemonGeneration)
    (s : ShardedRuntimeState) : ShardedRuntimeState :=
  MkShardedRuntimeState (ss_owner s) (ss_role s) (Some registered) (ss_policy s) (ss_observe s)
    (ss_retention_limits s).

Definition shipping_retention_limits : RetentionLimits :=
  RetentionLimits_new 4096 4194304 (7 * 24 * 3600) 3600 (30 * 24 * 3600).

Record CommitReport := MkCommitReport {
  cm_owned : nat;
  cm_foreign : nat;
  cm_released : nat;
  cm_consumed : nat;
}.

(** A child this process can prove gone ([hydrate], [retired_collection_view]). *)
Definition definitely_gone (observe : ChildIdentity -> ChildObservation.t) (e : ShardResource) : bool :=
  match sr_state e with
  | ResourceState.Running | ResourceState.OwnershipUnknown =>
      match sr_process e with
      | Some identity => is_definitely_gone (observe identity)
      | None => false
      end
  | _ => false
  end.

Definition set_exited_view (e : ShardResource) : ShardResource :=
  MkShardResource (sr_resource e) (sr_kind e) (sr_operation e) (sr_digest e) (sr_process e)
    (ResourceState.Exited None) (sr_payload e) (sr_revision e).

(** [ShardedRuntimeState::retired_collection_view] *)
Definition retired_collection_view (observe : ChildIdentity -> ChildObservation.t)
    (document : ShardDocument) : ShardDocument :=
  let gone := resource_key <$> retain (definitely_gone observe) (sd_resources document) in
  if bool_decide (gone = []) then document
  else
    set_sd_in_flight
      (retain (fun c => negb (bool_decide (tr_terminal_id (if_resource c) ∈ gone)))
         (sd_in_flight document))
      (set_sd_resources
         ((fun e => if bool_decide (resource_key e ∈ gone) then set_exited_view e else e)
            <$> sd_resources document) document).

Section durable.
Context {Bytes : Type} `{EqDecision Bytes} `{Serde AllocatorDocument Bytes}
  `{Serde ShardDocument Bytes} (serialized_bytes : AllocatorDocument -> nat).

Definition durable_st := st (DurableFiles Bytes) ResourceFailure.

Definition on_allocator {A} (op : st (FileState Bytes) ResourceFailure A) : durable_st A := fun w =>
  let (r, f) := op (df_allocator w) in (r, MkDurableFiles f (df_shard w) (df_archive w)).
Definition on_shard {A} (op : st (FileState Bytes) ResourceFailure A) : durable_st A := fun w =>
  let (r, f) := op (df_shard w) in (r, MkDurableFiles (df_allocator w) f (df_archive w)).
Definition on_archive {A} (op : st (ArchiveFiles Bytes) IoError A) : durable_st A := fun w =>
  let (r, a) := op (df_archive w) in
  (map_err Io r, MkDurableFiles (df_allocator w) (df_shard w) a).
Definition refused {A} (r : result ResourceError.t A) : durable_st A := st_lift (map_err Refused r).

(** [ShardedRuntimeState::claim]; [now] is what the clock answered. *)
Definition claim (s : ShardedRuntimeState) (now : N) (ps : list RuntimeProjection) : durable_st unit :=
  if bool_decide (ps = []) then st_ret tt
  else
    on_allocator (allocator_update
      (claim_change serialized_bytes (ss_retention_limits s) ps (ss_owner s) (ss_policy s) now)) ;;;
    st_ret tt.

(** [ShardedRuntimeState::project] *)
Definition project (s : ShardedRuntimeState) (kind : ResourceKind) (ps : list RuntimeProjection)
    : durable_st ShardDocument :=
  committed <-! on_shard (shard_update (ss_owner s) (project_change kind ps)) ;;
  st_ret (cs_document (snd committed)).

(** [release_each] as the closure of an update. *)
Definition release_change (owner : DaemonGeneration) (terminated : list TerminalRef)
    : AllocatorDocument.doc_st nat := fun document =>
  let (n, document') := release_each owner terminated document in (Ok n, document').

(** [ShardedRuntimeState::release_retired] *)
Definition release_retired (s : ShardedRuntimeState) (ps : list RuntimeProjection) : durable_st nat :=
  let terminated := rp_resource <$> retain (fun p => negb (holds_capacity (rp_state p))) ps in
  if bool_decide (terminated = []) then st_ret 0
  else
    released <-! on_allocator (allocator_update (release_change (ss_owner s) terminated)) ;;
    st_ret (fst released).

Definition reclaim_change (allocator : AllocatorDocument) : ShardDocument.doc_st nat := fun document =>
  let (n, document') := ShardDocument.reclaim allocator document in (Ok n, document').

(** [ShardedRuntimeState::drain] *)
Definition drain (s : ShardedRuntimeState) (shard : ShardDocument) : durable_st nat :=
  if negb (bool_decide (ss_role s = Active)) || bool_decide (sd_outbox shard = []) then st_ret 0
  else
    report <-! on_allocator (consume shard) ;;
    (consumed <-! on_allocator allocator_load ;;
     (on_shard (shard_update (ss_owner s) (reclaim_change (cs_document consumed))) ;;;
      st_ret (cr_applied report))).

Definition owned_by_self (s : ShardedRuntimeState) (p : RuntimeProjection) : bool :=
  bool_decide (tr_daemon_generation (rp_resource p) = ss_owner s).

(** [ShardedRuntimeState::commit] *)
Definition commit (s : ShardedRuntimeState) (now : N) (kind : ResourceKind)
    (projections : list RuntimeProjection) : durable_st CommitReport :=
  let owned := retain (owned_by_self s) projections in
  let foreign := retain (fun p => negb (owned_by_self s p)) projections in
  claim s now owned ;;;
  (shard <-! project s kind owned ;;
   (released <-! release_retired s foreign ;;
    (consumed <-! drain s shard ;;
     st_ret (MkCommitReport (length owned) (length foreign) released consumed)))).

(** [ShardedRuntimeState::self_collectable] *)
Definition self_collectable (s : ShardedRuntimeState) : durable_st (option CollectionBlocker) :=
  snapshot <-! on_allocator allocator_load ;;
  (swept <-! on_shard (shard_update (ss_owner s) (reclaim_change (cs_document snapshot))) ;;
   st_ret (match collectable (cs_document (snd swept)) (cs_document snapshot) with
           | Ok _ => None
           | Err blocker => Some blocker
           end)).

(** [ShardedRuntimeState::retained] *)
Fixpoint parse_documents (raw : list Bytes) : result ResourceError.t (list ShardDocument) :=
  match raw with
  | [] => Ok []
  | b :: raw =>
      document <-? ok_or (from_str b) ResourceError.Corrupt ;;
      (_ <-? ShardDocument.validate document ;;
       (rest <-? parse_documents raw ;; Ok (document :: rest)))
  end.

Definition owner_le (a b : ShardDocument) : Prop :=
  str_le (as_str (sd_owner a)) (as_str (sd_owner b)) = true.
#[export] Instance owner_le_dec : RelDecision owner_le.
Proof. intros a b. unfold owner_le. apply _. Defined.

Definition retained : durable_st (list ShardDocument) :=
  raw <-! on_archive archive_documents ;;
  (documents <-! refused (parse_documents raw) ;;
   st_ret (merge_sort owner_le documents)).

(** One shard of [collect_retired]. *)
Definition removable (s : ShardedRuntimeState) (allocator : AllocatorDocument)
    (kept : gset string) (document : ShardDocument) : bool :=
  negb (bool_decide (sd_owner document = ss_owner s)) &&
  is_ok (retired_collectable (retired_collection_view (ss_observe s) document) allocator) &&
  negb (any (fun e => bool_decide (as_str (resource_key e) ∈ kept)) (sd_resources document)).

Fixpoint collect_loop (s : ShardedRuntimeState) (allocator : AllocatorDocument)
    (kept : gset string) (documents : list ShardDocument) (collected : nat) : durable_st nat :=
  match documents with
  | [] => st_ret collected
  | document :: documents =>
      if removable s allocator kept document
      then on_archive (archive_collect (sd_owner document)) ;;;
           collect_loop s allocator kept documents (collected + 1)
      else collect_loop s allocator kept documents collected
  end.

(** [ShardedRuntimeState::collect_retired] *)
Definition collect_retired_shards (s : ShardedRuntimeState) (kept : gset string) : durable_st nat :=
  snapshot <-! on_allocator allocator_load ;;
  (documents <-! retained ;;
   collect_loop s (cs_document snapshot) kept documents 0).

(** [ShardedRuntimeState::collect] *)
Definition collect (s : ShardedRuntimeState) (now : N) (kept : gset string) (limits : RetentionLimits)
    : durable_st (GcReport * nat) :=
  ledger <-! on_allocator (collect_garbage serialized_bytes limits now) ;;
  (shards <-! collect_retired_shards s kept ;; st_ret (ledger, shards)).

(** [ShardedRuntimeState::reclaim_unbacked] *)
Definition unbacked_change (owner : DaemonGeneration) (registered : gset DaemonGeneration)
    (backed : gset TerminalRef) : AllocatorDocument.doc_st nat := fun document =>
  release_change owner (AllocatorDocument.unbacked document registered backed) document.

Definition reclaim_unbacked (s : ShardedRuntimeState) (shards : list ShardDocument) : durable_st nat :=
  match ss_registered s with
  | None => st_ret 0
  | Some registered =>
      if negb (bool_decide (ss_role s = Active)) then st_ret 0
      else
        let backed := list_to_set (sr_resource <$> (shards ≫= sd_resources)) in
        released <-! on_allocator (allocator_update (unbacked_change (ss_owner s) registered backed)) ;;
        st_ret (fst released)
  end.

(** [ShardedRuntimeState::consume_retained] *)
Fixpoint consume_each (shards : list ShardDocument) : durable_st unit :=
  match shards with
  | [] => st_ret tt
  | document :: shards => on_allocator (consume document) ;;; consume_each shards
  end.
Definition consume_retained (s : ShardedRuntimeState) (shards : list ShardDocument) : durable_st unit :=
  if negb (bool_decide (ss_role s = Active)) then st_ret tt else consume_each shards.

(** The release of the children [hydrate] proves gone. *)
Definition release_gone (s : ShardedRuntimeState) (shards : list ShardDocument)
    : durable_st (list TerminalRef) :=
  let gone :=
    sr_resource <$> retain (definitely_gone (ss_observe s))
      (retain (fun d => negb (bool_decide (sd_owner d = ss_owner s))) shards ≫= sd_resources) in
  if bool_decide (gone = []) then st_ret gone
  else
    on_allocator (allocator_update
      (fun document => (Ok tt, snd (release_each (ss_owner s) gone document)))) ;;;
    st_ret gone.
End durable.

(** ** Properties *)
Section durable_laws.
Context {Bytes : Type} `{EqDecision Bytes} `{SerdeLaws AllocatorDocument Bytes}
  `{SerdeLaws ShardDocument Bytes} (serialized_bytes : AllocatorDocument -> nat).
Implicit Types (w : DurableFiles Bytes) (s : ShardedRuntimeState).

(** An operation on one file leaves the others alone. *)
Lemma on_allocator_inv {A} (op : st (FileState Bytes) ResourceFailure A) w r w' :
  on_allocator op w = (r, w') ->
  op (df_allocator w) = (r, df_allocator w') /\ df_shard w' = df_shard w /\
  df_archive w' = df_archive w.
Proof. unfold on_allocator. destruct (op (df_allocator w)) eqn:E. by intros [= <- <-]. Qed.

Lemma on_shard_inv {A} (op : st (FileState Bytes) ResourceFailure A) w r w' :
  on_shard op w = (r, w') ->
  op (df_shard w) = (r, df_shard w') /\ df_allocator w' = df_allocator w /\
  df_archive w' = df_archive w.
Proof. unfold on_shard. destruct (op (df_shard w)) eqn:E. by intros [= <- <-]. Qed.

Lemma allocator_update_outcome {T} (change : AllocatorDocument.doc_st T) f r f' :
  allocator_update change f = (r, f') ->
  update_outcome AllocatorDocument_default change f r f'.
Proof. apply update_loop_outcome. Qed.

Lemma shard_update_outcome {T} owner (change : ShardDocument.doc_st T) f r f' :
  shard_update owner change f = (r, f') ->
  update_outcome (ShardDocument.empty owner) (fun document =>
    st_bind (st_lift (owned_by document owner)) (fun _ => change) document) f r f'.
Proof. apply cas_update_outcome. Qed.

Lemma answered_bump p d : answered p (doc_bump d) <-> answered p d.
Proof. done. Qed.

(** The allocator accepted the save: it holds a document that answers for every
    capacity-holding record. *)
Definition accepted s (now : N) (owned : list RuntimeProjection) (f f' : FileState Bytes) : Prop :=
  exists sn, update_outcome AllocatorDocument_default
      (claim_change serialized_bytes (ss_retention_limits s) owned (ss_owner s) (ss_policy s) now)
      f (Ok (tt, sn)) f' /\
    forall p, p ∈ owned -> holds_capacity (rp_state p) = true -> answered p (cs_document sn).

Lemma claim_spec s now owned w r w' :
  claim serialized_bytes s now owned w = (r, w') ->
  df_shard w' = df_shard w /\ df_archive w' = df_archive w /\
  match r with
  | Err _ => env_only (df_allocator w) (df_allocator w')
  | Ok _ => owned = [] /\ w' = w \/ accepted s now owned (df_allocator w) (df_allocator w')
  end.
Proof.
  unfold claim. case_bool_decide as Hn; [intros [= <- <-]; by auto|].
  intros Hc. apply st_bind_inv in Hc as [([[] sn] & w1 & H3 & H4)|(e & H3 & ->)].
  - injection H4 as <- <-. apply on_allocator_inv in H3 as (H3 & -> & ->). split_and!; try done. right.
    apply allocator_update_outcome in H3. exists sn. split; [done|].
    intros p Hp Hcap. destruct H3 as (sn0 & f0 & next & _ & _ & _ & Hch & Hd).
    apply (claim_change_answers _ _ _ _ _ _ _ _ p) in Hch; [|done..].
    destruct Hd as [(-> & -> & _)|(_ & -> & _)]; [done|]. by apply answered_bump.
  - apply on_allocator_inv in H3 as (H3 & -> & ->). by apply allocator_update_outcome in H3.
Qed.

(** Where the shard was written, if anywhere: by the projection, or later. *)
Lemma project_spec s kind owned w r w' :
  project s kind owned w = (r, w') ->
  df_allocator w' = df_allocator w /\
  forall e, r = Err e -> env_only (df_shard w) (df_shard w').
Proof.
  unfold project. intros Hp. apply st_bind_inv in Hp as [([v sn] & w1 & H3 & H4)|(e & H3 & ->)].
  - injection H4 as <- <-. by apply on_shard_inv in H3 as (_ & -> & _).
  - apply on_shard_inv in H3 as (H3 & -> & _). split; [done|]. intros _ _.
    by apply shard_update_outcome in H3.
Qed.

(** No shard is written before its claims.  A save whose claims are refused -
    a full pool, a conflicting or foreign operation, contention, a fault - fails
    with that refusal, has no effect on the owner's shard and none of its own on
    the allocator; and when a save did change the owner's shard, the allocator
    had durably accepted it, with a record for every terminal that holds
    capacity. *)
Theorem save_authority_first s now kind projections w r w' :
  commit serialized_bytes s now kind projections w = (r, w') ->
  let owned := retain (owned_by_self s) projections in
  (forall e, fst (claim serialized_bytes s now owned w) = Err e ->
     r = Err e /\ df_shard w' = df_shard w /\ env_only (df_allocator w) (df_allocator w')) /\
  (env_only (df_shard w) (df_shard w') \/ owned = [] \/
   exists f, accepted s now owned (df_allocator w) f).
Proof.
  cbv zeta. unfold commit. set (owned := retain (owned_by_self s) projections). intros Hc.
  apply st_bind_inv in Hc as [([] & w1 & Hcl1 & Hrest)|(e & Hcl1 & ->)]; rewrite Hcl1; simpl;
    pose proof (claim_spec _ _ _ _ _ _ Hcl1) as (Hs & Ha & Hcl).
  - split; [by intros e|]. destruct Hcl as [[-> _]|Hacc]; [by right; left|]. right. right. by eexists.
  - split; [|left; rewrite Hs; apply env_refl]. intros e' [= <-]. by split_and!.
Qed.

End durable_laws.

(** ** Sweeping and collecting *)
Section collection_laws.
Context {Bytes : Type} `{EqDecision Bytes} `{SerdeLaws AllocatorDocument Bytes}
  `{SerdeLaws ShardDocument Bytes}.
Implicit Types (w : DurableFiles Bytes) (s : ShardedRuntimeState).

Lemma drained_ok shard allocator pending :
  shard_drained shard allocator pending = Ok tt <->
  ShardDocument.live_resources shard = 0 /\ sd_in_flight shard = [] /\ pending = 0 /\
  AllocatorDocument.owner_claims allocator (sd_owner shard) = 0.
Proof.
  unfold shard_drained.
  destruct (Nat.ltb_spec 0 (ShardDocument.live_resources shard)); [naive_solver lia|].
  destruct (bool_decide (sd_in_flight shard = [])) eqn:Ei; simpl;
    [apply bool_decide_eq_true in Ei|apply bool_decide_eq_false in Ei; naive_solver].
  destruct (Nat.ltb_spec 0 pending); [naive_solver lia|].
  destruct (Nat.ltb_spec 0 (AllocatorDocument.owner_claims allocator (sd_owner shard)));
    naive_solver lia.
Qed.

Lemma allocator_load_spec f r f' :
  allocator_load f = (r, f') ->
  env_only f f' /\ forall sn, r = Ok sn -> AllocatorDocument.validate (cs_document sn) = Ok tt /\
    match cs_observed sn with
    | None => cs_document sn = AllocatorDocument_default
    | Some b => from_str b = Some (cs_document sn)
    end.
Proof.
  intros (-> & Hs)%cas_load_spec. split; [apply env_tick, env_refl|].
  intros sn E. by destruct (Hs sn E) as (_ & _ & ?).
Qed.

(** A draining owner learns that it may retire exactly when nothing of it is
    left.  The answer is about the allocator document that was read and the
    owner's shard as this call left it: entries were swept from its outbox only
    when that document had applied them, and no blocker is reported if and only
    if the shard has no live resource, no command in flight, an empty outbox,
    and the owner holds no capacity. *)
Theorem self_collectable_exact s w r w' :
  self_collectable s w = (Ok r, w') ->
  exists allocator before after,
    AllocatorDocument.validate allocator = Ok tt /\
    ShardDocument.validate before = Ok tt /\ sd_owner before = ss_owner s /\
    sd_owner after = ss_owner s /\
    (forall event, event ∈ sd_outbox after <->
       event ∈ sd_outbox before /\ applied allocator event = false) /\
    (forall e, e ∈ sd_resources after -> e ∈ sd_resources before) /\
    env_only (df_allocator w) (df_allocator w') /\
    (r = None <->
     ShardDocument.live_resources after = 0 /\ sd_in_flight after = [] /\ sd_outbox after = [] /\
     AllocatorDocument.owner_claims allocator (ss_owner s) = 0).
Proof.
  unfold self_collectable. intros (a & w1 & (Hl & _ & _)%on_allocator_inv & Hrest)%st_bind_ok_inv.
  apply allocator_load_spec in Hl as [Henv Ha]. destruct (Ha a eq_refl) as [Hav _]. clear Ha.
  apply st_bind_ok_inv in Hrest as ([n sn] & w2 & (Hup & Hal & _)%on_shard_inv & Hrest).
  injection Hrest as Hr <-. apply shard_update_outcome in Hup as (s2 & f0 & next & _ & _ & [Hv _] & Hch & Hout).
  unfold st_bind, st_lift, owned_by in Hch. case_bool_decide as Hown; [|done].
  unfold reclaim_change in Hch. destruct (ShardDocument.reclaim _ _) as [m d1] eqn:Er.
  injection Hch as <- ->. unfold ShardDocument.reclaim in Er. injection Er as _ Hnext.
  set (allocator := cs_document a) in *. set (before := cs_document s2) in *.
  assert (Hafter : sd_owner (cs_document sn) = sd_owner next /\
    sd_outbox (cs_document sn) = sd_outbox next /\ sd_resources (cs_document sn) = sd_resources next /\
    sd_in_flight (cs_document sn) = sd_in_flight next).
  { destruct Hout as [(-> & -> & _)|(_ & -> & _)]; done. }
  destruct Hafter as (Ho & Hob & Hres & Hif).
  exists allocator, before, (cs_document sn). split_and!; try done.
  - by rewrite Ho, <- Hnext.
  - intros event. rewrite Hob, <- Hnext. simpl. rewrite elem_of_retain, negb_true_iff. done.
  - intros e. rewrite Hres, <- Hnext. simpl. by intros [? _]%elem_of_retain.
  - by rewrite Hal.
  - rewrite <- Hr. assert (E : sd_owner (cs_document sn) = ss_owner s) by (by rewrite Ho, <- Hnext).
    pose proof (drained_ok (cs_document sn) allocator
      (ShardDocument.unacked_outbox (cs_document sn))) as Hd. fold (collectable (cs_document sn) allocator) in Hd.
    rewrite E in Hd. unfold ShardDocument.unacked_outbox in Hd.
    assert (Hl : length (sd_outbox (cs_document sn)) = 0 <-> sd_outbox (cs_document sn) = [])
      by (by destruct (sd_outbox (cs_document sn))).
    rewrite Hl in Hd. rewrite <- Hd. by destruct (collectable _ _) as [[]|].
Qed.

Lemma archive_tick_removed (a a' : ArchiveFiles Bytes) e :
  archive_tick a = (e, a') -> af_removed a' = af_removed a.
Proof. unfold archive_tick. destruct (af_env a) as [|[]]; by intros [= <- <-]. Qed.

Lemma on_archive_inv {A} (op : st (ArchiveFiles Bytes) IoError A) w r w' :
  on_archive op w = (r, w') ->
  exists r0, op (df_archive w) = (r0, df_archive w') /\ r = map_err Io r0 /\
    df_allocator w' = df_allocator w /\ df_shard w' = df_shard w.
Proof. unfold on_archive. destruct (op (df_archive w)) as [r0 a] eqn:E. intros [= <- <-]. by exists r0. Qed.

Lemma parse_documents_valid raw documents :
  parse_documents raw = Ok documents -> forall d, d ∈ documents -> ShardDocument.validate d = Ok tt.
Proof.
  revert documents. induction raw as [|b raw IH]; intros documents; simpl.
  { intros [= <-] d Hd. by apply not_elem_of_nil in Hd. }
  unfold res_bind, ok_or. destruct (from_str b) as [d0|]; [|done].
  destruct (ShardDocument.validate d0) as [[]|] eqn:Ev; [|done].
  destruct (parse_documents raw) as [rest|]; [|done]. intros [= <-] d [->|Hd]%elem_of_cons; [done|].
  by eapply IH.
Qed.

Lemma retained_spec w r w' :
  retained w = (r, w') ->
  df_allocator w' = df_allocator w /\ df_shard w' = df_shard w /\
  af_removed (df_archive w') = af_removed (df_archive w) /\
  forall documents, r = Ok documents -> forall d, d ∈ documents -> ShardDocument.validate d = Ok tt.
Proof.
  unfold retained. intros Hr.
  assert (Hlist : forall r0 a, archive_documents (df_archive w) = (r0, a) ->
    af_removed a = af_removed (df_archive w)).
  { unfold archive_documents. intros r0 a.
    destruct (archive_tick (df_archive w)) as [[e|] a'] eqn:Et; intros [= _ <-];
      by apply archive_tick_removed in Et. }
  apply st_bind_inv in Hr as [(raw & w1 & Ha & Hr)|(e & Ha & ->)];
    apply on_archive_inv in Ha as (r0 & Hop & _ & Hal & Hsh); apply Hlist in Hop; [|by split_and!].
  unfold refused, st_bind, st_lift, st_ret in Hr.
  destruct (parse_documents raw) as [documents|] eqn:Ep; simpl in Hr; injection Hr as <- <-;
    split_and!; try done.
  intros ? [= <-] d. rewrite (merge_sort_Permutation owner_le documents).
  by apply (parse_documents_valid raw).
Qed.

(** What made a shard removable. *)
Definition gone_for_good s (kept : gset string) (g : DaemonGeneration)
    (allocator : AllocatorDocument) (document : ShardDocument) : Prop :=
  sd_owner document = g /\ g <> ss_owner s /\
  (forall e, e ∈ sd_resources document -> ResourceState.is_live (sr_state e) = true ->
     definitely_gone (ss_observe s) e = true) /\
  (forall c, c ∈ sd_in_flight document -> exists e, e ∈ sd_resources document /\
     resource_key e = tr_terminal_id (if_resource c) /\ definitely_gone (ss_observe s) e = true) /\
  (forall event, event ∈ sd_outbox document -> applied allocator event = true) /\
  AllocatorDocument.owner_claims allocator g = 0 /\
  forall e, e ∈ sd_resources document -> as_str (resource_key e) ∉ kept.

Lemma view_live s document :
  NoDup (resource_key <$> sd_resources document) ->
  ShardDocument.live_resources (retired_collection_view (ss_observe s) document) = 0 ->
  forall e, e ∈ sd_resources document -> ResourceState.is_live (sr_state e) = true ->
  definitely_gone (ss_observe s) e = true.
Proof.
  intros Hnd Hz e He Hl. unfold retired_collection_view in Hz.
  set (gone := resource_key <$> retain _ _) in Hz.
  assert (Hin : resource_key e ∈ gone).
  { case_bool_decide as Hg; unfold ShardDocument.live_resources in Hz;
      rewrite count_zero in Hz; [by rewrite (Hz e He) in Hl|]. simpl in Hz.
    destruct (decide (resource_key e ∈ gone)) as [|Hn]; [done|].
    specialize (Hz e). rewrite Hz in Hl; [done|]. apply list_elem_of_fmap. exists e.
    by rewrite bool_decide_false. }
  apply list_elem_of_fmap in Hin as (e' & Ek & [He' Hg]%elem_of_retain).
  by rewrite (keys_inj resource_key (sd_resources document) e e').
Qed.

Lemma view_in_flight s document :
  sd_in_flight (retired_collection_view (ss_observe s) document) = [] ->
  forall c, c ∈ sd_in_flight document -> exists e, e ∈ sd_resources document /\
    resource_key e = tr_terminal_id (if_resource c) /\ definitely_gone (ss_observe s) e = true.
Proof.
  unfold retired_collection_view. set (gone := resource_key <$> retain _ _). intros Hn c Hc.
  assert (Hin : tr_terminal_id (if_resource c) ∈ gone).
  { revert Hn. case_bool_decide as Hg; simpl; intros Hn.
    - rewrite Hn in Hc. by apply not_elem_of_nil in Hc.
    - destruct (decide (tr_terminal_id (if_resource c) ∈ gone)) as [|Ho]; [done|]. exfalso.
      apply (not_elem_of_nil c). rewrite <- Hn. apply elem_of_retain. by rewrite bool_decide_false. }
  apply list_elem_of_fmap in Hin as (e & Ek & [He Hg]%elem_of_retain). by exists e.
Qed.

Lemma view_owner s document :
  sd_owner (retired_collection_view (ss_observe s) document) = sd_owner document /\
  sd_outbox (retired_collection_view (ss_observe s) document) = sd_outbox document.
Proof. unfold retired_collection_view. by case_bool_decide. Qed.

Lemma removable_spec s allocator kept document :
  ShardDocument.validate document = Ok tt -> removable s allocator kept document = true ->
  gone_for_good s kept (sd_owner document) allocator document.
Proof.
  intros Hv. unfold removable. rewrite !andb_true_iff, !negb_true_iff, bool_decide_eq_false.
  intros [[Ho Hc] Hk]. unfold retired_collectable in Hc.
  destruct (shard_drained _ _ _) as [[]|] eqn:Ed; [|done].
  apply drained_ok in Ed as (Hl & Hf & Hp & Hcl). destruct (view_owner s document) as [Eo Eb].
  rewrite Eo in Hcl. split_and!; try done.
  - by apply view_live; [apply validate_keys|].
  - by apply view_in_flight.
  - intros event Hev. unfold ShardDocument.unconsumed_outbox in Hp. rewrite Eb, count_zero in Hp.
    by apply negb_false_iff, Hp.
  - intros e He Hin. assert (Hany : any (fun e => bool_decide (as_str (resource_key e) ∈ kept))
      (sd_resources document) = true); [|by rewrite Hany in Hk].
    apply existsb_exists. exists e. split; [by apply list_elem_of_In|by apply bool_decide_eq_true].
Qed.

Lemma collect_loop_spec s allocator kept documents n w r w' :
  (forall d, d ∈ documents -> ShardDocument.validate d = Ok tt) ->
  collect_loop s allocator kept documents n w = (r, w') ->
  df_allocator w' = df_allocator w /\ df_shard w' = df_shard w /\
  exists removed, af_removed (df_archive w') = af_removed (df_archive w) ++ removed /\
    (forall m, r = Ok m -> m = n + length removed) /\
    forall g, g ∈ removed -> exists document, document ∈ documents /\
      gone_for_good s kept g allocator document.
Proof.
  revert n w. induction documents as [|d documents IH]; intros n w Hv Hc; simpl in Hc.
  { injection Hc as <- <-. split_and!; try done. exists []. rewrite app_nil_r. split_and!; [done| |].
    - intros m [= ->]. simpl. lia.
    - intros g Hg. by apply not_elem_of_nil in Hg. }
  assert (Hv' : forall d, d ∈ documents -> ShardDocument.validate d = Ok tt) by (intros x Hx; apply Hv; by right).
  destruct (removable s allocator kept d) eqn:Er.
  2:{ destruct (IH n w Hv' Hc) as (? & ? & removed & ? & ? & Hg). split_and!; try done.
      exists removed. split_and!; try done. intros g Hin. destruct (Hg g Hin) as (x & ? & ?).
      exists x. split; [by right|done]. }
  apply removable_spec in Er; [|apply Hv; left].
  apply st_bind_inv in Hc as [([] & w1 & Ha & Hc)|(e & Ha & ->)];
    apply on_archive_inv in Ha as (r0 & Hop & Hr0 & Hal & Hsh); unfold archive_collect in Hop;
    destruct (archive_tick (df_archive w)) as [[e0|] a0] eqn:Et; apply archive_tick_removed in Et;
    injection Hop as <- Ea; try done.
  - destruct (IH (n + 1) w1 Hv' Hc) as (Hal1 & Hsh1 & removed & Hrem & Hn & Hg).
    rewrite Hal1, Hsh1. split_and!; try done. exists (sd_owner d :: removed).
    rewrite Hrem, <- Ea. simpl. rewrite Et, <- app_assoc. split_and!; [done| |].
    + intros m Hm. rewrite (Hn m Hm). lia.
    + intros g [->|Hin]%elem_of_cons; [exists d; split; [left|done]|].
      destruct (Hg g Hin) as (x & ? & ?). exists x. split; [by right|done].
  - split_and!; try done. exists []. rewrite <- Ea, Et, app_nil_r. split_and!; [done|done|].
    intros g Hg. by apply not_elem_of_nil in Hg.
Qed.

(** Only a shard nothing depends on is removed.  Whatever the directory holds
    and the other processes do meanwhile, and however far the pass gets, every
    shard it removes belonged to another generation, in a document in which every
    live child is proved gone by the operating system, every command in flight is
    addressed to such a child and every event is applied, whose owner holds no
    capacity in the allocator, and none of whose resources the caller retains;
    the pass writes neither the allocator nor this generation's shard, and
    reports the number it removed. *)
Theorem only_drained_shards_removed s kept w r w' :
  collect_retired_shards s kept w = (r, w') ->
  df_shard w' = df_shard w /\ env_only (df_allocator w) (df_allocator w') /\
  exists removed, af_removed (df_archive w') = af_removed (df_archive w) ++ removed /\
    (forall n, r = Ok n -> n = length removed) /\
    forall g, g ∈ removed -> exists allocator document,
      AllocatorDocument.validate allocator = Ok tt /\ ShardDocument.validate document = Ok tt /\
      gone_for_good s kept g allocator document.
Proof.
  unfold collect_retired_shards. intros Hc.
  assert (Hnone : forall w2 : DurableFiles Bytes, af_removed (df_archive w2) = af_removed (df_archive w) -> forall e : Failure ResourceError.t,
    exists removed, af_removed (df_archive w2) = af_removed (df_archive w) ++ removed /\
    (forall n : nat, Err e = Ok n -> n = length removed) /\
    forall g, g ∈ removed -> exists allocator document,
      AllocatorDocument.validate allocator = Ok tt /\ ShardDocument.validate document = Ok tt /\
      gone_for_good s kept g allocator document).
  { intros w2 E e. exists []. rewrite app_nil_r. split_and!; [done|done|].
    intros g Hg. by apply not_elem_of_nil in Hg. }
  apply st_bind_inv in Hc as [(sn & w1 & Ha & Hc)|(e & Ha & ->)];
    apply on_allocator_inv in Ha as (Ha & Hsh & Har); apply allocator_load_spec in Ha as [Henv Ha];
    [|split_and!; [done|done|apply Hnone; by rewrite Har]].
  destruct (Ha sn eq_refl) as [Hav _]. clear Ha.
  apply st_bind_inv in Hc as [(documents & w2 & Hr & Hc)|(e & Hr & ->)];
    apply retained_spec in Hr as (Hal2 & Hsh2 & Hrm2 & Hv);
    [|split_and!; [congruence|by rewrite Hal2|apply Hnone; congruence]].
  destruct (collect_loop_spec _ _ _ _ _ _ _ _ (Hv documents eq_refl) Hc)
    as (Hal3 & Hsh3 & removed & Hrm & Hn & Hg).
  split_and!; [congruence|by rewrite Hal3, Hal2|]. exists removed. split_and!.
  - rewrite Hrm. congruence.
  - intros n Hm. rewrite (Hn n Hm). lia.
  - intros g Hin. destruct (Hg g Hin) as (document & Hd & Hgone). exists (cs_document sn), document.
    split_and!; [done|by apply (Hv documents eq_refl)|done].
Qed.
End collection_laws.

(** ** Concrete runs

    Both documents are stored as themselves. *)
Module DurableExample.
Definition Stored : Type := AllocatorDocument + ShardDocument.
#[export] Instance stored_allocator : Serde AllocatorDocument Stored :=
  { to_string d := Some (inl d); from_str b := match b with inl d => Some d | inr _ => None end }.
#[export] Instance stored_shard : Serde ShardDocument Stored :=
  { to_string d := Some (inr d); from_str b := match b with inr d => Some d | inl _ => None end }.
#[export] Instance stored_allocator_laws : SerdeLaws AllocatorDocument Stored.
Proof. by intros d b [= <-]. Qed.
#[export] Instance stored_shard_laws : SerdeLaws ShardDocument Stored.
Proof. by intros d b [= <-]. Qed.

Import LedgerExample SaveExample.
Definition state (role : GenerationRole) : ShardedRuntimeState :=
  MkShardedRuntimeState g1 role None wide (fun _ => ChildObservation.Gone) bounds.
Definition fresh : DurableFiles Stored :=
  MkDurableFiles (MkFileState None []) (MkFileState None []) (MkArchiveFiles ∅ [] []).
Definition saved : result ResourceFailure CommitReport * DurableFiles Stored :=
  commit size (state Active) 5 AgentKind [running; other] fresh.
Definition running_shard : ShardDocument := SaveExample.shard1.

(** The predecessor's whole shard: a child the probe proves gone. *)
Definition dead : DurableFiles Stored :=
  MkDurableFiles (MkFileState None []) (MkFileState None [])
    (MkArchiveFiles {[ "g1" := inr running_shard ]} [] []).
Definition successor : ShardedRuntimeState :=
  MkShardedRuntimeState g2 Active None wide (fun _ => ChildObservation.Gone) bounds.
Definition exited_shard : ShardDocument :=
  snd (project_change AgentKind
         [MkRuntimeProjection t1 AgentKind op1 "d" ProjectedState.Exited "p"] (ShardDocument.empty g1)).
Definition collected : result ResourceFailure nat * DurableFiles Stored :=
  collect_retired_shards successor ∅
    (MkDurableFiles (MkFileState None []) (MkFileState None [])
       (MkArchiveFiles {[ "g1" := inr exited_shard ]} [] [])).

Lemma saved_ok : is_ok (fst saved) = true.
Proof. vm_compute. reflexivity. Qed.
Lemma saved_shard :
  ShardDocument.live_resources <$> (contents (df_shard (snd saved)) ≫= from_str) = Some 2.
Proof. vm_compute. reflexivity. Qed.
Lemma collected_one : fst collected = Ok 1.
Proof. vm_compute. reflexivity. Qed.
(** A drained owner, and one that is not. *)
Lemma fresh_collectable : fst (self_collectable (state Draining) fresh) = Ok None.
Proof. vm_compute. reflexivity. Qed.
Example saved_not_collectable : fst (self_collectable (state Draining) (snd saved)) = Ok (Some LiveResource).
Proof. vm_compute. reflexivity. Qed.
(** The reserved record of the dead predecessor still blocks. *)
Example reserved_blocks : fst (collect_retired_shards successor ∅ dead) = Ok 0.
Proof. vm_compute. reflexivity. Qed.
End DurableExample.
Import DurableExample.

Lemma save_authority_first_witness :
  env_only (df_shard fresh) (df_shard (snd saved)) \/
  retain (owned_by_self (state Active)) [SaveExample.running; SaveExample.other] = [] \/
  exists f, accepted LedgerExample.size (state Active) 5
    (retain (owned_by_self (state Active)) [SaveExample.running; SaveExample.other]) (df_allocator fresh) f.
Proof.
  exact (proj2 (save_authority_first LedgerExample.size (state Active) 5 AgentKind [SaveExample.running; SaveExample.other]
    fresh (fst saved) (snd saved) (surjective_pairing saved))).
Defined.

Definition draining_answer := self_collectable (state Draining) fresh.

Lemma draining_run : self_collectable (state Draining) fresh = (Ok None, snd draining_answer).
Proof. vm_compute. reflexivity. Qed.

Lemma self_collectable_exact_witness : exists after,
  sd_owner after = LedgerExample.g1 /\ sd_outbox after = [].
Proof.
  destruct (self_collectable_exact (state Draining) fresh None (snd draining_answer) draining_run)
    as (allocator & before & after & _ & _ & _ & Ho & _ & _ & _ & Hn).
  exists after. split; [exact Ho|]. exact (proj1 (proj2 (proj2 (proj1 Hn eq_refl)))).
Defined.

Lemma only_drained_shards_removed_witness : exists removed,
  af_removed (df_archive (snd collected)) = removed /\ 1 = length removed.
Proof.
  destruct (only_drained_shards_removed successor ∅ _ (fst collected) (snd collected)
    (surjective_pairing collected)) as (_ & _ & removed & Hr & Hn & _).
  exists removed. split; [exact Hr|exact (Hn 1 collected_one)].
Defined.
