(* ===== verification/Lifecycle.v ===== *)
(** * The session lifecycle reducer
    ([crates/core/src/domain/session_lifecycle.rs])

    The durable state of a workspace's sessions and of the operations that act on
    them, and the pure reducer every lifecycle event goes through.  An instant is
    its number of nanoseconds; the identities [SessionId::new] and
    [WorktreeId::new] mint are an argument of the reducer; revisions, attempts
    and progress counters are unbounded. *)
From S2P Require Export Ids.

Definition DateTime : Type := Z.

Module SessionLifecycle.
Inductive t : Type := Creating | Initializing | Available | Deleting | Failed.
#[export] Instance eq_dec : EqDecision t.
Proof. solve_decision. Defined.
End SessionLifecycle.
Export (hints) SessionLifecycle.

Module AgentPhase.
Inductive t : Type := Absent | Ready | Running | Waiting | Sleeping | Ended | Exited | Interrupted.
#[export] Instance eq_dec : EqDecision t.
Proof. solve_decision. Defined.

Definition ALL : list t :=
  [Absent; Ready; Running; Waiting; Sleeping; Ended; Exited; Interrupted].

Definition as_token (p : t) : string :=
  match p with
  | Absent => "none" | Ready => "ready" | Running => "running" | Waiting => "waiting"
  | Sleeping => "sleeping" | Ended => "ended" | Exited => "exited" | Interrupted => "interrupted"
  end.

Definition parse_token (token : string) : option t :=
  find_first (fun phase => bool_decide (as_token phase = token)) ALL.

Definition is_reportable (p : t) : bool :=
  match p with Absent | Sleeping | Interrupted => false | _ => true end.

Definition AGENT_PHASE_HOOK_EVENTS : list (string * t) :=
  [("SessionStart", Ready); ("UserPromptSubmit", Running); ("PreToolUse", Running);
   ("PostToolUse", Waiting); ("PermissionRequest", Waiting); ("Notification", Waiting);
   ("Stop", Ended); ("SessionEnd", Exited)].

Definition for_hook_event (event : string) : option t :=
  snd <$> find_first (fun wired => bool_decide (fst wired = event)) AGENT_PHASE_HOOK_EVENTS.
End AgentPhase.
Export (hints) AgentPhase.

Record LifecycleCapabilities := MkLifecycleCapabilities {
  can_use : bool;
  can_remove : bool;
  can_cancel : bool;
  can_recover : bool;
}.

Definition capabilities (l : SessionLifecycle.t) : LifecycleCapabilities :=
  match l with
  | SessionLifecycle.Creating | SessionLifecycle.Initializing =>
      MkLifecycleCapabilities false false true false
  | SessionLifecycle.Available => MkLifecycleCapabilities true true false false
  | SessionLifecycle.Deleting => MkLifecycleCapabilities false false false false
  | SessionLifecycle.Failed => MkLifecycleCapabilities false true false true
  end.

Record SetupPlan := MkSetupPlan { sp_commands : list string }.
#[export] Instance setup_plan_eq_dec : EqDecision SetupPlan.
Proof. solve_decision. Defined.

Record DeletePlan := MkDeletePlan {
  dp_targets : list string;
  dp_force : bool;
  dp_delete_branch : bool;
  dp_branch_name : option string;
  dp_force_delete_branch : bool;
  dp_merged_head_oid : option string;
}.
#[export] Instance delete_plan_eq_dec : EqDecision DeletePlan.
Proof. solve_decision. Defined.

Module FailureStage.
Inductive t : Type := Create | Initialize | Delete | Integrity.
#[export] Instance eq_dec : EqDecision t.
Proof. solve_decision. Defined.
End FailureStage.
Export (hints) FailureStage.

Record Failure_ := MkFailure { fl_stage : FailureStage.t; fl_summary : string }.
#[export] Instance failure_eq_dec : EqDecision Failure_.
Proof. solve_decision. Defined.

Record RoleId := MkRoleId { role_id_text : string }.
#[export] Instance role_id_eq_dec : EqDecision RoleId.
Proof. solve_decision. Defined.

Record ManagedSession := MkManagedSession {
  ms_session_id : SessionId;
  ms_worktree_id : WorktreeId;
  ms_name : string;
  ms_parent_session_id : option SessionId;
  ms_creator_agent_id : option AgentId;
  ms_creator_continuation : option AgentContinuationRef;
  ms_director_continuation : option AgentContinuationRef;
  ms_role_id : option RoleId;
  ms_lifecycle : SessionLifecycle.t;
  ms_attempt : N;
  ms_operation_id : option OperationId;
  ms_changed_at : DateTime;
  ms_setup_plan : option SetupPlan;
  ms_delete_plan : option DeletePlan;
  ms_failure : option Failure_;
}.
#[export] Instance managed_session_eq_dec : EqDecision ManagedSession.
Proof. solve_decision. Defined.

(** What a session constructor mints. *)
Record Minted := MkMinted { mint_session : SessionId; mint_worktree : WorktreeId }.

Definition new_creating_with_role_parent_and_creator (m : Minted) (name : string)
    (operation_id : OperationId) (now : DateTime) (role_id : option RoleId)
    (parent : option SessionId) (creator : option AgentId) : ManagedSession :=
  MkManagedSession (mint_session m) (mint_worktree m) name parent creator None None role_id
    SessionLifecycle.Creating 1 (Some operation_id) now None None None.

Definition adopt_available (m : Minted) (name : string) (created_at : DateTime) : ManagedSession :=
  MkManagedSession (mint_session m) (mint_worktree m) name None None None None None
    SessionLifecycle.Available 1 None created_at None None None.

Definition adopt_orphan (m : Minted) (name : string) (failure : Failure_) (created_at : DateTime)
    : ManagedSession :=
  MkManagedSession (mint_session m) (mint_worktree m) name None None None None None
    SessionLifecycle.Failed 1 None created_at None None (Some failure).

Module OperationStatus.
Inductive t : Type := Accepted | Running | CancelRequested | Succeeded | Failed | Cancelled | Ambiguous.
#[export] Instance eq_dec : EqDecision t.
Proof. solve_decision. Defined.
Definition terminal (s : t) : bool :=
  match s with Succeeded | Failed | Cancelled | Ambiguous => true | _ => false end.
End OperationStatus.
Export (hints) OperationStatus.

Record OperationJournal := MkOperationJournal {
  oj_operation_id : OperationId;
  oj_owner_daemon_generation : DaemonGeneration;
  oj_status : OperationStatus.t;
  oj_execution_attempt : N;
  oj_progress_revision : N;
  oj_semantic_key : string;
}.
#[export] Instance operation_journal_eq_dec : EqDecision OperationJournal.
Proof. solve_decision. Defined.

Record WorkspaceLifecycleState := MkWorkspaceLifecycleState {
  wl_format : string;
  wl_major : N;
  wl_minor : N;
  wl_workspace_id : WorkspaceId;
  wl_state_revision : N;
  wl_sessions : list ManagedSession;
  wl_operations : list OperationJournal;
  wl_updated_at : DateTime;
}.
#[export] Instance lifecycle_state_eq_dec : EqDecision WorkspaceLifecycleState.
Proof. solve_decision. Defined.

Module LifecycleError.
Inductive t : Type :=
| UnsupportedFormat | UnsupportedVersion | InvalidSessionName | DuplicateSessionName
| DuplicateSessionId | InvalidTransition | StaleCompletion | MissingSession | MissingOperation.
#[export] Instance eq_dec : EqDecision t.
Proof. solve_decision. Defined.
End LifecycleError.
Export (hints) LifecycleError.

(** Field assignments. *)
Definition set_sessions (v : list ManagedSession) (s : WorkspaceLifecycleState) :=
  MkWorkspaceLifecycleState (wl_format s) (wl_major s) (wl_minor s) (wl_workspace_id s)
    (wl_state_revision s) v (wl_operations s) (wl_updated_at s).
Definition set_operations (v : list OperationJournal) (s : WorkspaceLifecycleState) :=
  MkWorkspaceLifecycleState (wl_format s) (wl_major s) (wl_minor s) (wl_workspace_id s)
    (wl_state_revision s) (wl_sessions s) v (wl_updated_at s).
Definition set_lifecycle (l : SessionLifecycle.t) (now : DateTime) (s : ManagedSession) :=
  MkManagedSession (ms_session_id s) (ms_worktree_id s) (ms_name s) (ms_parent_session_id s)
    (ms_creator_agent_id s) (ms_creator_continuation s) (ms_director_continuation s) (ms_role_id s)
    l (ms_attempt s) (ms_operation_id s) now (ms_setup_plan s) (ms_delete_plan s) (ms_failure s).
Definition set_ms_operation (o : option OperationId) (s : ManagedSession) :=
  MkManagedSession (ms_session_id s) (ms_worktree_id s) (ms_name s) (ms_parent_session_id s)
    (ms_creator_agent_id s) (ms_creator_continuation s) (ms_director_continuation s) (ms_role_id s)
    (ms_lifecycle s) (ms_attempt s) o (ms_changed_at s) (ms_setup_plan s) (ms_delete_plan s)
    (ms_failure s).
Definition set_ms_setup (p : option SetupPlan) (s : ManagedSession) :=
  MkManagedSession (ms_session_id s) (ms_worktree_id s) (ms_name s) (ms_parent_session_id s)
    (ms_creator_agent_id s) (ms_creator_continuation s) (ms_director_continuation s) (ms_role_id s)
    (ms_lifecycle s) (ms_attempt s) (ms_operation_id s) (ms_changed_at s) p (ms_delete_plan s)
    (ms_failure s).
Definition set_ms_failure (f : option Failure_) (s : ManagedSession) :=
  MkManagedSession (ms_session_id s) (ms_worktree_id s) (ms_name s) (ms_parent_session_id s)
    (ms_creator_agent_id s) (ms_creator_continuation s) (ms_director_continuation s) (ms_role_id s)
    (ms_lifecycle s) (ms_attempt s) (ms_operation_id s) (ms_changed_at s) (ms_setup_plan s)
    (ms_delete_plan s) f.
Definition set_ms_delete (p : option DeletePlan) (s : ManagedSession) :=
  MkManagedSession (ms_session_id s) (ms_worktree_id s) (ms_name s) (ms_parent_session_id s)
    (ms_creator_agent_id s) (ms_creator_continuation s) (ms_director_continuation s) (ms_role_id s)
    (ms_lifecycle s) (ms_attempt s) (ms_operation_id s) (ms_changed_at s) (ms_setup_plan s) p
    (ms_failure s).
Definition set_ms_attempt (a : N) (s : ManagedSession) :=
  MkManagedSession (ms_session_id s) (ms_worktree_id s) (ms_name s) (ms_parent_session_id s)
    (ms_creator_agent_id s) (ms_creator_continuation s) (ms_director_continuation s) (ms_role_id s)
    (ms_lifecycle s) a (ms_operation_id s) (ms_changed_at s) (ms_setup_plan s) (ms_delete_plan s)
    (ms_failure s).
Definition set_ms_continuations (creator director : option AgentContinuationRef)
    (s : ManagedSession) :=
  MkManagedSession (ms_session_id s) (ms_worktree_id s) (ms_name s) (ms_parent_session_id s)
    (ms_creator_agent_id s) creator director (ms_role_id s) (ms_lifecycle s) (ms_attempt s)
    (ms_operation_id s) (ms_changed_at s) (ms_setup_plan s) (ms_delete_plan s) (ms_failure s).
Definition set_oj_status (st : OperationStatus.t) (o : OperationJournal) :=
  MkOperationJournal (oj_operation_id o) (oj_owner_daemon_generation o) st (oj_execution_attempt o)
    (oj_progress_revision o) (oj_semantic_key o).
Definition bump_progress (o : OperationJournal) :=
  MkOperationJournal (oj_operation_id o) (oj_owner_daemon_generation o) (oj_status o)
    (oj_execution_attempt o) (oj_progress_revision o + 1) (oj_semantic_key o).

Module WorkspaceLifecycle.
Definition FORMAT : string := "usagi-workspace-lifecycle".
Definition MAJOR : N := 2.

Definition state_st := st WorkspaceLifecycleState LifecycleError.t.

Definition new (workspace_id : WorkspaceId) (now : DateTime) : WorkspaceLifecycleState :=
  MkWorkspaceLifecycleState FORMAT MAJOR 0 workspace_id 0 [] [] now.

Definition changed (now : DateTime) (s : WorkspaceLifecycleState) : WorkspaceLifecycleState :=
  MkWorkspaceLifecycleState (wl_format s) (wl_major s) (wl_minor s) (wl_workspace_id s)
    (wl_state_revision s + 1) (wl_sessions s) (wl_operations s) now.

(** [char::is_ascii_alphanumeric], or a hyphen or underscore, on the bytes of the
    name: a character outside ASCII is encoded in bytes above 127. *)
Definition name_char (c : Ascii.ascii) : bool :=
  let n := Ascii.N_of_ascii c in
  ((48 <=? n) && (n <=? 57) || (65 <=? n) && (n <=? 90) || (97 <=? n) && (n <=? 122) ||
   (n =? 45) || (n =? 95))%N%bool.

Definition validate_session_name (name : string) : result LifecycleError.t unit :=
  if negb (bool_decide (name = EmptyString)) && (String.length name <=? 64)%nat &&
     forallb name_char (String.list_ascii_of_string name)
  then Ok tt else Err LifecycleError.InvalidSessionName.

(** The loop of [validate] over the sessions, with the names and identities seen. *)
Fixpoint validate_sessions (names : gset string) (ids : gset SessionId)
    (sessions : list ManagedSession) : result LifecycleError.t unit :=
  match sessions with
  | [] => Ok tt
  | s :: sessions =>
      _ <-? validate_session_name (ms_name s) ;;
      if bool_decide (ms_name s ∈ names) then Err LifecycleError.DuplicateSessionName
      else if bool_decide (ms_session_id s ∈ ids) then Err LifecycleError.DuplicateSessionId
      else validate_sessions ({[ms_name s]} ∪ names) ({[ms_session_id s]} ∪ ids) sessions
  end.

Definition validate (s : WorkspaceLifecycleState) : result LifecycleError.t unit :=
  if negb (bool_decide (wl_format s = FORMAT)) then Err LifecycleError.UnsupportedFormat
  else if negb (bool_decide (wl_major s = MAJOR)) || negb (bool_decide (wl_minor s = 0%N))
  then Err LifecycleError.UnsupportedVersion
  else validate_sessions ∅ ∅ (wl_sessions s).

Definition session (sessions : list ManagedSession) (id : SessionId) : option ManagedSession :=
  find_first (at_key ms_session_id id) sessions.

(** The [while] of [director_continuation]; [None] when the fuel ran out. *)
Fixpoint director_from (fuel : nat) (sessions : list ManagedSession) (current : SessionId)
    (visited : gset SessionId) : option (option AgentContinuationRef) :=
  match fuel with
  | 0 => None
  | S fuel =>
      if bool_decide (current ∈ visited) then Some None
      else
        match session sessions current with
        | None => Some None
        | Some s =>
            match ms_director_continuation s with
            | Some continuation => Some (Some continuation)
            | None =>
                match ms_parent_session_id s with
                | Some parent => director_from fuel sessions parent ({[current]} ∪ visited)
                | None => Some (ms_creator_continuation s)
                end
            end
        end
  end.

(** Each iteration visits another session, or is the last. *)
Definition director_fuel (sessions : list ManagedSession) : nat := S (length sessions).

Definition director_of (sessions : list ManagedSession) (id : SessionId)
    : option AgentContinuationRef :=
  default None (director_from (director_fuel sessions) sessions id ∅).

Definition director_continuation (s : WorkspaceLifecycleState) (id : SessionId)
    : option AgentContinuationRef := director_of (wl_sessions s) id.

(** *** The reducer *)
Definition session_pos_of (fence : CompletionFence) (s : ManagedSession) : bool :=
  bool_decide (cf_session_id fence = Some (ms_session_id s)) &&
  bool_decide (ms_attempt s = cf_lifecycle_attempt fence) &&
  bool_decide (ms_operation_id s = Some (cf_operation_id fence)).

Definition fenced_session (s : WorkspaceLifecycleState) (fence : CompletionFence)
    : result LifecycleError.t (nat * nat) :=
  if negb (bool_decide (cf_workspace_id fence = wl_workspace_id s)) ||
     negb (bool_decide (cf_expected_revision fence = wl_state_revision s))
  then Err LifecycleError.StaleCompletion
  else
    match position (at_key oj_operation_id (cf_operation_id fence)) (wl_operations s) with
    | None => Err LifecycleError.StaleCompletion
    | Some operation_pos =>
        match wl_operations s !! operation_pos with
        | None => Err LifecycleError.StaleCompletion
        | Some op =>
            if negb (bool_decide (oj_owner_daemon_generation op = cf_owner_daemon_generation fence)) ||
               negb (bool_decide (oj_execution_attempt op = cf_execution_attempt fence)) ||
               OperationStatus.terminal (oj_status op)
            then Err LifecycleError.StaleCompletion
            else
              match position (session_pos_of fence) (wl_sessions s) with
              | None => Err LifecycleError.StaleCompletion
              | Some session_pos => Ok (session_pos, operation_pos)
              end
        end
    end.

Definition alter_session (pos : nat) (f : ManagedSession -> ManagedSession)
    (s : WorkspaceLifecycleState) : WorkspaceLifecycleState :=
  set_sessions (alter f pos (wl_sessions s)) s.
Definition alter_operation (pos : nat) (f : OperationJournal -> OperationJournal)
    (s : WorkspaceLifecycleState) : WorkspaceLifecycleState :=
  set_operations (alter f pos (wl_operations s)) s.

(** [state.sessions[pos].lifecycle]; the position came from a search. *)
Definition lifecycle_at (s : WorkspaceLifecycleState) (pos : nat) : option SessionLifecycle.t :=
  ms_lifecycle <$> wl_sessions s !! pos.

Module LifecycleEvent.
Inductive t : Type :=
| AdoptOrphan (name : string) (failure : Failure_)
| ReserveCreate (name : string) (role_id : option RoleId) (parent_session_id : option SessionId)
    (creator_agent_id : option AgentId) (creator_continuation : option AgentContinuationRef)
    (operation : OperationJournal)
| CreateCompleted (fence : CompletionFence) (setup_plan : option SetupPlan)
| BeginRemove (session_id : SessionId) (operation : OperationJournal) (delete_plan : DeletePlan)
| Completed (fence : CompletionFence)
| Failed (fence : CompletionFence) (failure : Failure_)
| ReconcileInterrupted (session_id : SessionId) (operation_id : OperationId)
    (stage : FailureStage.t)
| RequestCancel (operation_id : OperationId).
End LifecycleEvent.

Definition begin_remove (session_id : SessionId) (operation : OperationJournal)
    (delete_plan : DeletePlan) (now : DateTime) : state_st unit :=
  s <-! st_get ;;
  match find_first (at_key ms_session_id session_id) (wl_sessions s) with
  | None => st_throw LifecycleError.MissingSession
  | Some session =>
      match ms_lifecycle session with
      | SessionLifecycle.Available | SessionLifecycle.Failed =>
          st_put
            (changed now
               (set_operations (wl_operations s ++ [operation])
                  (set_sessions
                     (update_first (at_key ms_session_id session_id)
                        (fun session =>
                           set_lifecycle SessionLifecycle.Deleting now
                             (set_ms_attempt (ms_attempt session + 1)
                                (set_ms_operation (Some (oj_operation_id operation))
                                   (set_ms_delete (Some delete_plan)
                                      (set_ms_setup None (set_ms_failure None session))))))
                        (wl_sessions s)) s)))
      | _ => st_throw LifecycleError.InvalidTransition
      end
  end.

Definition name_taken (name : string) (s : WorkspaceLifecycleState) : bool :=
  any (fun session => bool_decide (ms_name session = name)) (wl_sessions s).

Definition reserve_create (m : Minted) (name : string) (role_id : option RoleId)
    (parent_session_id : option SessionId) (creator_agent_id : option AgentId)
    (creator_continuation : option AgentContinuationRef) (operation : OperationJournal)
    (now : DateTime) : state_st unit :=
  st_lift (validate_session_name name) ;;;
  s <-! st_get ;;
  st_ensure (negb (name_taken name s)) LifecycleError.DuplicateSessionName ;;;
  let session :=
    set_ms_continuations creator_continuation
      match parent_session_id with
      | Some parent => director_continuation s parent
      | None => creator_continuation
      end
      (new_creating_with_role_parent_and_creator m name (oj_operation_id operation) now role_id
         parent_session_id creator_agent_id) in
  st_put (changed now (set_operations (wl_operations s ++ [operation])
                         (set_sessions (wl_sessions s ++ [session]) s))).

Definition adopt (m : Minted) (name : string) (failure : Failure_) (now : DateTime)
    : state_st unit :=
  st_lift (validate_session_name name) ;;;
  s <-! st_get ;;
  st_ensure (negb (name_taken name s)) LifecycleError.DuplicateSessionName ;;;
  st_put (changed now (set_sessions (wl_sessions s ++ [adopt_orphan m name failure now]) s)).

Definition create_completed (fence : CompletionFence) (setup_plan : option SetupPlan)
    (now : DateTime) : state_st unit :=
  s <-! st_get ;;
  positions <-! st_lift (fenced_session s fence) ;;
  let '(pos, operation_pos) := positions in
  st_ensure (bool_decide (lifecycle_at s pos = Some SessionLifecycle.Creating))
    LifecycleError.InvalidTransition ;;;
  match setup_plan with
  | Some _ =>
      st_put
        (changed now
           (alter_operation operation_pos bump_progress
              (alter_session pos
                 (fun session => set_ms_setup setup_plan
                                   (set_lifecycle SessionLifecycle.Initializing now session)) s)))
  | None =>
      st_put
        (changed now
           (alter_operation operation_pos
              (fun op => set_oj_status OperationStatus.Succeeded (bump_progress op))
              (alter_session pos
                 (fun session => set_ms_operation None
                                   (set_ms_setup None
                                      (set_lifecycle SessionLifecycle.Available now session))) s)))
  end.

(** The loop of [complete] over the children of the session it removes. *)
Definition backfill (removed : SessionId) (continuation : option AgentContinuationRef)
    (child : ManagedSession) : ManagedSession :=
  if bool_decide (ms_parent_session_id child = Some removed) &&
     bool_decide (ms_director_continuation child = None)
  then set_ms_continuations (ms_creator_continuation child) continuation child
  else child.

Definition complete (fence : CompletionFence) (now : DateTime) : state_st unit :=
  s <-! st_get ;;
  positions <-! st_lift (fenced_session s fence) ;;
  let '(pos, operation_pos) := positions in
  let succeed s :=
    st_put (changed now
              (alter_operation operation_pos
                 (fun op => bump_progress (set_oj_status OperationStatus.Succeeded op)) s)) in
  match wl_sessions s !! pos with
  | None => st_throw LifecycleError.StaleCompletion
  | Some session =>
      match ms_lifecycle session with
      | SessionLifecycle.Initializing =>
          succeed (alter_session pos
                     (fun session =>
                        set_ms_operation None
                          (set_ms_setup None
                             (set_lifecycle SessionLifecycle.Available now session))) s)
      | SessionLifecycle.Deleting =>
          let removed := ms_session_id session in
          let continuation := director_continuation s removed in
          succeed (set_sessions (delete pos (backfill removed continuation <$> wl_sessions s)) s)
      | _ => st_throw LifecycleError.InvalidTransition
      end
  end.

Definition fail (fence : CompletionFence) (failure : Failure_) (now : DateTime) : state_st unit :=
  s <-! st_get ;;
  positions <-! st_lift (fenced_session s fence) ;;
  let '(pos, operation_pos) := positions in
  st_put
    (changed now
       (alter_operation operation_pos
          (fun op => bump_progress (set_oj_status OperationStatus.Failed op))
          (alter_session pos
             (fun session => set_lifecycle SessionLifecycle.Failed now
                               (set_ms_failure (Some failure) session)) s))).

Definition request_cancel (operation_id : OperationId) (now : DateTime) : state_st unit :=
  s <-! st_get ;;
  match find_first (at_key oj_operation_id operation_id) (wl_operations s) with
  | None => st_throw LifecycleError.MissingOperation
  | Some op =>
      if OperationStatus.terminal (oj_status op)
      then st_throw LifecycleError.InvalidTransition
      else
        st_put
          (changed now
             (set_operations
                (update_first (at_key oj_operation_id operation_id)
                   (fun op => bump_progress (set_oj_status OperationStatus.CancelRequested op))
                   (wl_operations s)) s))
  end.

Definition INTERRUPTED : string := "interrupted; explicit recovery required".

Definition attached_to (session_id : SessionId) (operation_id : OperationId)
    (s : ManagedSession) : bool :=
  bool_decide (ms_session_id s = session_id) &&
  bool_decide (ms_operation_id s = Some operation_id).

Definition reconcile_interrupted (session_id : SessionId) (operation_id : OperationId)
    (stage : FailureStage.t) (now : DateTime) : state_st unit :=
  s <-! st_get ;;
  let operation := find_first (at_key oj_operation_id operation_id) (wl_operations s) in
  if from_option (fun op => OperationStatus.terminal (oj_status op)) false operation
  then st_throw LifecycleError.StaleCompletion
  else
    match find_first (attached_to session_id operation_id) (wl_sessions s) with
    | None => st_throw LifecycleError.StaleCompletion
    | Some _ =>
        st_put
          (changed now
             (set_operations
                (update_first (at_key oj_operation_id operation_id)
                   (fun op => bump_progress (set_oj_status OperationStatus.Failed op))
                   (wl_operations s))
                (set_sessions
                   (update_first (attached_to session_id operation_id)
                      (fun session =>
                         set_lifecycle SessionLifecycle.Failed now
                           (set_ms_failure (Some (MkFailure stage INTERRUPTED)) session))
                      (wl_sessions s)) s)))
    end.

Definition reduce (m : Minted) (event : LifecycleEvent.t) (now : DateTime) : state_st unit :=
  s <-! st_get ;;
  st_lift (validate s) ;;;
  match event with
  | LifecycleEvent.AdoptOrphan name failure => adopt m name failure now
  | LifecycleEvent.ReserveCreate name role parent creator continuation operation =>
      reserve_create m name role parent creator continuation operation now
  | LifecycleEvent.CreateCompleted fence setup_plan => create_completed fence setup_plan now
  | LifecycleEvent.BeginRemove id operation plan => begin_remove id operation plan now
  | LifecycleEvent.Completed fence => complete fence now
  | LifecycleEvent.Failed fence failure => fail fence failure now
  | LifecycleEvent.ReconcileInterrupted id operation_id stage =>
      reconcile_interrupted id operation_id stage now
  | LifecycleEvent.RequestCancel operation_id => request_cancel operation_id now
  end.

(** *** The repair of legacy failed outcomes *)
Fixpoint rposition {A} (p : A -> bool) (l : list A) : option nat :=
  match l with
  | [] => None
  | x :: l =>
      match rposition p l with
      | Some i => Some (S i)
      | None => if p x then Some 0 else None
      end
  end.

Definition repair_key (failure : Failure_) (session : ManagedSession) : string :=
  ((if bool_decide (fl_stage failure = FailureStage.Delete) then "remove" else "create")
     +:+ ":" +:+ ms_name session).

Definition succeeded_as (key : string) (op : OperationJournal) : bool :=
  bool_decide (oj_semantic_key op = key) && bool_decide (oj_status op = OperationStatus.Succeeded).

Definition repair_target (session : ManagedSession) (s : WorkspaceLifecycleState) : option nat :=
  if negb (bool_decide (ms_lifecycle session = SessionLifecycle.Failed)) then None
  else
    failure ← ms_failure session ;
    let key := repair_key failure session in
    match ms_operation_id session ≫= fun id =>
            position (fun op => at_key oj_operation_id id op && succeeded_as key op)
              (wl_operations s)
    with
    | Some pos => Some pos
    | None => rposition (succeeded_as key) (wl_operations s)
    end.

(** One iteration of the loop, at the session in position [pos]. *)
Definition repair_session (acc : nat * WorkspaceLifecycleState) (pos : nat)
    : nat * WorkspaceLifecycleState :=
  let '(repaired, s) := acc in
  match wl_sessions s !! pos ≫= fun session => repair_target session s with
  | None => (repaired, s)
  | Some operation_pos =>
      match wl_operations s !! operation_pos with
      | None => (repaired, s)
      | Some op =>
          (S repaired,
           alter_session pos (set_ms_operation (Some (oj_operation_id op)))
             (alter_operation operation_pos
                (fun op => bump_progress (set_oj_status OperationStatus.Failed op)) s))
      end
  end.

Definition repair_legacy_failed_outcomes (now : DateTime) (s : WorkspaceLifecycleState)
    : nat * WorkspaceLifecycleState :=
  let '(repaired, s) := foldl repair_session (0, s) (seq 0 (length (wl_sessions s))) in
  (repaired, if bool_decide (repaired = 0) then s else changed now s).
End WorkspaceLifecycle.

Import WorkspaceLifecycle.

(** ** What [validate] accepts *)
Definition valid (s : WorkspaceLifecycleState) : Prop :=
  wl_format s = FORMAT /\ wl_major s = MAJOR /\ wl_minor s = 0%N /\
  (forall x, x ∈ wl_sessions s -> validate_session_name (ms_name x) = Ok tt) /\
  NoDup (ms_name <$> wl_sessions s) /\ NoDup (ms_session_id <$> wl_sessions s).

Lemma validate_sessions_ok names ids l :
  validate_sessions names ids l = Ok tt <->
  (forall x, x ∈ l -> validate_session_name (ms_name x) = Ok tt) /\
  insert_all names (ms_name <$> l) = true /\ insert_all ids (ms_session_id <$> l) = true.
Proof.
  revert names ids. induction l as [|x l IH]; intros names ids; csimpl.
  - split; [|done]. intros _. split_and!; [|done..]. by intros x ?%not_elem_of_nil.
  - destruct (validate_session_name (ms_name x)) as [[]|e] eqn:E; simpl.
    + destruct (bool_decide (ms_name x ∈ names)); [naive_solver|].
      destruct (bool_decide (ms_session_id x ∈ ids)); [naive_solver|].
      rewrite IH. setoid_rewrite elem_of_cons. naive_solver.
    + split; [done|]. intros [H _]. rewrite (H x) in E; [done|left].
Qed.

Lemma validate_ok s : validate s = Ok tt <-> valid s.
Proof.
  unfold validate, valid. repeat case_bool_decide; simpl; try naive_solver.
  rewrite validate_sessions_ok, !insert_all_empty. naive_solver.
Qed.

Lemma name_taken_false name s : name_taken name s = false <-> name ∉ ms_name <$> wl_sessions s.
Proof.
  unfold name_taken, any. rewrite <- not_true_iff_false, existsb_exists. split.
  - intros H (x & -> & Hx)%list_elem_of_fmap. apply H. exists x.
    split; [by apply list_elem_of_In|by apply bool_decide_eq_true].
  - intros H (x & Hx%list_elem_of_In & E%bool_decide_eq_true). apply H. subst.
    by apply list_elem_of_fmap_2.
Qed.

(** ** The fence *)
Record fenced (s : WorkspaceLifecycleState) (f : CompletionFence) (pos opos : nat)
    (x : ManagedSession) (op : OperationJournal) : Prop := MkFenced {
  fenced_workspace : cf_workspace_id f = wl_workspace_id s;
  fenced_revision : cf_expected_revision f = wl_state_revision s;
  fenced_session_at : wl_sessions s !! pos = Some x;
  fenced_operation_at : wl_operations s !! opos = Some op;
  fenced_first : find_first (at_key oj_operation_id (cf_operation_id f)) (wl_operations s) = Some op;
  fenced_first_pos : position (at_key oj_operation_id (cf_operation_id f)) (wl_operations s) = Some opos;
  fenced_session_pos : position (session_pos_of f) (wl_sessions s) = Some pos;
  fenced_live : OperationStatus.terminal (oj_status op) = false;
  fenced_owner : oj_owner_daemon_generation op = cf_owner_daemon_generation f;
  fenced_execution : oj_execution_attempt op = cf_execution_attempt f;
  fenced_id : cf_session_id f = Some (ms_session_id x);
  fenced_attempt : ms_attempt x = cf_lifecycle_attempt f;
  fenced_operation : ms_operation_id x = Some (cf_operation_id f);
}.

Lemma fenced_session_ok s f pos opos :
  fenced_session s f = Ok (pos, opos) -> exists x op, fenced s f pos opos x op.
Proof.
  unfold fenced_session.
  destruct (negb (bool_decide (cf_workspace_id f = _)) || _) eqn:E1; [done|].
  apply orb_false_iff in E1 as [Ew%negb_false_iff%bool_decide_eq_true
                                Er%negb_false_iff%bool_decide_eq_true].
  destruct (position (at_key _ _) _) as [opos'|] eqn:Eo; [|done].
  destruct (position_find _ _ _ Eo) as (op & Hop & Hfirst). rewrite Hop.
  destruct (_ || _ || _) eqn:E2; [done|].
  apply orb_false_iff in E2 as [[Eg%negb_false_iff%bool_decide_eq_true
    Ex%negb_false_iff%bool_decide_eq_true]%orb_false_iff Et].
  destruct (position (session_pos_of f) _) as [pos'|] eqn:Es; [|done].
  intros [= -> ->]. destruct (position_find _ _ _ Es) as (x & Hx & Hxf).
  apply find_first_Some in Hxf as [_ Hxf]. unfold session_pos_of in Hxf.
  apply andb_true_iff in Hxf as [[?%bool_decide_eq_true ?%bool_decide_eq_true]%andb_true_iff
    ?%bool_decide_eq_true].
  exists x, op. by split.
Qed.

Lemma fenced_session_complete s f pos opos x op :
  fenced s f pos opos x op -> fenced_session s f = Ok (pos, opos).
Proof.
  intros []. unfold fenced_session.
  rewrite !bool_decide_true by done. cbn [negb orb]. rewrite fenced_first_pos0, fenced_operation_at0.
  rewrite !bool_decide_true by done. rewrite fenced_live0. cbn [negb orb].
  by rewrite fenced_session_pos0.
Qed.

(** ** The rules of the reducer

    One rule per way an event is accepted, with the session and the journal
    entry it replaces. *)
Definition created (setup_plan : option SetupPlan) (now : DateTime) (x : ManagedSession)
    : ManagedSession :=
  match setup_plan with
  | Some _ => set_ms_setup setup_plan (set_lifecycle SessionLifecycle.Initializing now x)
  | None => set_ms_operation None (set_ms_setup None (set_lifecycle SessionLifecycle.Available now x))
  end.

Definition created_operation (setup_plan : option SetupPlan) (op : OperationJournal)
    : OperationJournal :=
  match setup_plan with
  | Some _ => bump_progress op
  | None => set_oj_status OperationStatus.Succeeded (bump_progress op)
  end.

Definition initialized (now : DateTime) (x : ManagedSession) : ManagedSession :=
  set_ms_operation None (set_ms_setup None (set_lifecycle SessionLifecycle.Available now x)).

Definition failed (now : DateTime) (failure : Failure_) (x : ManagedSession) : ManagedSession :=
  set_lifecycle SessionLifecycle.Failed now (set_ms_failure (Some failure) x).

Definition deleting (now : DateTime) (operation : OperationJournal) (plan : DeletePlan)
    (x : ManagedSession) : ManagedSession :=
  set_lifecycle SessionLifecycle.Deleting now
    (set_ms_attempt (ms_attempt x + 1)
       (set_ms_operation (Some (oj_operation_id operation))
          (set_ms_delete (Some plan) (set_ms_setup None (set_ms_failure None x))))).

Definition finished (status : OperationStatus.t) (op : OperationJournal) : OperationJournal :=
  bump_progress (set_oj_status status op).

Definition reserved (m : Minted) (name : string) (role : option RoleId) (parent : option SessionId)
    (creator : option AgentId) (continuation : option AgentContinuationRef)
    (operation : OperationJournal) (now : DateTime) (s : WorkspaceLifecycleState)
    : ManagedSession :=
  set_ms_continuations continuation
    match parent with Some parent => director_continuation s parent | None => continuation end
    (new_creating_with_role_parent_and_creator m name (oj_operation_id operation) now role
       parent creator).

Definition removable (l : SessionLifecycle.t) : Prop :=
  l = SessionLifecycle.Available \/ l = SessionLifecycle.Failed.

Section rules.
Context (m : Minted) (now : DateTime) (s : WorkspaceLifecycleState).
Notation ss := (wl_sessions s).
Notation ops := (wl_operations s).

Inductive accepts : LifecycleEvent.t -> list ManagedSession -> list OperationJournal -> Prop :=
| acc_adopt name failure :
    validate_session_name name = Ok tt -> name ∉ ms_name <$> ss ->
    accepts (LifecycleEvent.AdoptOrphan name failure) (ss ++ [adopt_orphan m name failure now]) ops
| acc_reserve name role parent creator continuation op :
    validate_session_name name = Ok tt -> name ∉ ms_name <$> ss ->
    accepts (LifecycleEvent.ReserveCreate name role parent creator continuation op)
      (ss ++ [reserved m name role parent creator continuation op now s]) (ops ++ [op])
| acc_created f plan pos opos x op :
    fenced s f pos opos x op -> ms_lifecycle x = SessionLifecycle.Creating ->
    accepts (LifecycleEvent.CreateCompleted f plan)
      (<[pos := created plan now x]> ss) (<[opos := created_operation plan op]> ops)
| acc_remove id op plan pos x :
    position (at_key ms_session_id id) ss = Some pos -> ss !! pos = Some x ->
    ms_session_id x = id -> removable (ms_lifecycle x) ->
    accepts (LifecycleEvent.BeginRemove id op plan)
      (<[pos := deleting now op plan x]> ss) (ops ++ [op])
| acc_initialized f pos opos x op :
    fenced s f pos opos x op -> ms_lifecycle x = SessionLifecycle.Initializing ->
    accepts (LifecycleEvent.Completed f)
      (<[pos := initialized now x]> ss) (<[opos := finished OperationStatus.Succeeded op]> ops)
| acc_removed f pos opos x op :
    fenced s f pos opos x op -> ms_lifecycle x = SessionLifecycle.Deleting ->
    accepts (LifecycleEvent.Completed f)
      (delete pos (backfill (ms_session_id x) (director_continuation s (ms_session_id x)) <$> ss))
      (<[opos := finished OperationStatus.Succeeded op]> ops)
| acc_failed f failure pos opos x op :
    fenced s f pos opos x op ->
    accepts (LifecycleEvent.Failed f failure)
      (<[pos := failed now failure x]> ss) (<[opos := finished OperationStatus.Failed op]> ops)
| acc_interrupted id oid stage pos x :
    position (attached_to id oid) ss = Some pos -> ss !! pos = Some x ->
    ms_session_id x = id -> ms_operation_id x = Some oid ->
    oid ∉ oj_operation_id <$> ops ->
    accepts (LifecycleEvent.ReconcileInterrupted id oid stage)
      (<[pos := failed now (MkFailure stage INTERRUPTED) x]> ss) ops
| acc_interrupted_live id oid stage pos opos x op :
    position (attached_to id oid) ss = Some pos -> ss !! pos = Some x ->
    ms_session_id x = id -> ms_operation_id x = Some oid ->
    position (at_key oj_operation_id oid) ops = Some opos -> ops !! opos = Some op ->
    OperationStatus.terminal (oj_status op) = false ->
    accepts (LifecycleEvent.ReconcileInterrupted id oid stage)
      (<[pos := failed now (MkFailure stage INTERRUPTED) x]> ss)
      (<[opos := finished OperationStatus.Failed op]> ops)
| acc_cancel oid opos op :
    position (at_key oj_operation_id oid) ops = Some opos -> ops !! opos = Some op ->
    OperationStatus.terminal (oj_status op) = false ->
    accepts (LifecycleEvent.RequestCancel oid) ss
      (<[opos := finished OperationStatus.CancelRequested op]> ops).
End rules.

Definition with_rows (now : DateTime) (ss : list ManagedSession) (ops : list OperationJournal)
    (s : WorkspaceLifecycleState) : WorkspaceLifecycleState :=
  changed now (set_operations ops (set_sessions ss s)).

Lemma alter_at {A} (f : A -> A) (l : list A) (i : nat) x : l !! i = Some x -> alter f i l = <[i := f x]> l.
Proof.
  revert i. induction l as [|y l IH]; intros [|i]; simpl; try done; [congruence|].
  intros H. f_equal. by apply IH.
Qed.

Lemma find_position {A} (p : A -> bool) (l : list A) x :
  find_first p l = Some x -> exists i, position p l = Some i /\ l !! i = Some x.
Proof.
  intros H. destruct (position p l) as [i|] eqn:E.
  - destruct (position_find _ _ _ E) as (y & Hy & Hy'). exists i. split; congruence.
  - apply position_None in E. congruence.
Qed.

Lemma update_at {A} (p : A -> bool) f (l : list A) x i :
  position p l = Some i -> l !! i = Some x -> update_first p f l = <[i := f x]> l.
Proof. intros H Hx. rewrite <- (position_alter _ _ _ _ H). by apply alter_at. Qed.

Lemma attached_find id oid l x :
  find_first (attached_to id oid) l = Some x -> ms_session_id x = id /\ ms_operation_id x = Some oid.
Proof.
  intros [_ [?%bool_decide_eq_true ?%bool_decide_eq_true]%andb_true_iff]%find_first_Some. done.
Qed.

Section cases.
Context (m : Minted) (now : DateTime).

(** What a step of the reducer leaves: nothing changed, or one rule's rows. *)
Definition settled (e : LifecycleEvent.t) (s : WorkspaceLifecycleState)
    (r : result LifecycleError.t unit) (s' : WorkspaceLifecycleState) : Prop :=
  (exists err, r = Err err /\ s' = s) \/
  (r = Ok tt /\ exists ss ops, accepts m now s e ss ops /\ s' = with_rows now ss ops s).

Lemma settled_err e s err : settled e s (Err err) s.
Proof. left. eauto. Qed.

Lemma settled_ok e s ss ops : accepts m now s e ss ops -> settled e s (Ok tt) (with_rows now ss ops s).
Proof. right. eauto 10. Qed.

Local Hint Resolve settled_err settled_ok : core.

Lemma begin_remove_cases id op plan s r s' :
  begin_remove id op plan now s = (r, s') -> settled (LifecycleEvent.BeginRemove id op plan) s r s'.
Proof.
  unfold begin_remove. cbn. destruct (find_first _ _) as [x|] eqn:E; [|intros [= <- <-]; auto].
  destruct (find_position _ _ _ E) as (i & Hi & Hx). apply kfind_Some in E as [_ Hid].
  rewrite (update_at _ _ _ _ _ Hi Hx).
  destruct (ms_lifecycle x) eqn:El; intros [= <- <-]; auto;
    apply settled_ok, (acc_remove m now s id op plan i x); unfold removable; auto.
Qed.

Lemma reserve_create_cases name role parent creator continuation op s r s' :
  reserve_create m name role parent creator continuation op now s = (r, s') ->
  settled (LifecycleEvent.ReserveCreate name role parent creator continuation op) s r s'.
Proof.
  unfold reserve_create, st_lift, st_bind.
  destruct (validate_session_name name) as [[]|err] eqn:En; [|intros [= <- <-]; auto]. cbn.
  destruct (name_taken name s) eqn:Et; cbn; intros [= <- <-]; auto.
  apply settled_ok, acc_reserve; [done|]. by apply name_taken_false.
Qed.

Lemma adopt_cases name failure s r s' :
  adopt m name failure now s = (r, s') -> settled (LifecycleEvent.AdoptOrphan name failure) s r s'.
Proof.
  unfold adopt, st_lift, st_bind.
  destruct (validate_session_name name) as [[]|err] eqn:En; [|intros [= <- <-]; auto]. cbn.
  destruct (name_taken name s) eqn:Et; cbn; intros [= <- <-]; auto.
  apply (settled_ok _ s _ (wl_operations s)), acc_adopt; [done|]. by apply name_taken_false.
Qed.

Lemma create_completed_cases f plan s r s' :
  create_completed f plan now s = (r, s') -> settled (LifecycleEvent.CreateCompleted f plan) s r s'.
Proof.
  unfold create_completed, st_bind, st_get, st_lift.
  destruct (fenced_session s f) as [[pos opos]|err] eqn:Ef; [|intros [= <- <-]; auto].
  destruct (fenced_session_ok _ _ _ _ Ef) as (x & op & F). unfold lifecycle_at.
  rewrite (fenced_session_at _ _ _ _ _ _ F). cbn. unfold st_ensure.
  destruct (bool_decide _) eqn:El; [|intros [= <- <-]; auto]. apply bool_decide_eq_true in El.
  assert (ms_lifecycle x = SessionLifecycle.Creating) by congruence.
  assert (A := acc_created m now s f plan pos opos x op F ltac:(done)). apply settled_ok in A.
  unfold alter_operation, alter_session. cbn.
  rewrite !(alter_at _ _ _ _ (fenced_operation_at _ _ _ _ _ _ F)),
    !(alter_at _ _ _ _ (fenced_session_at _ _ _ _ _ _ F)).
  destruct plan; intros [= <- <-]; exact A.
Qed.

Lemma complete_cases f s r s' :
  complete f now s = (r, s') -> settled (LifecycleEvent.Completed f) s r s'.
Proof.
  unfold complete, st_bind, st_get, st_lift.
  destruct (fenced_session s f) as [[pos opos]|err] eqn:Ef; [|intros [= <- <-]; auto].
  destruct (fenced_session_ok _ _ _ _ Ef) as (x & op & F).
  rewrite (fenced_session_at _ _ _ _ _ _ F). unfold alter_operation, alter_session. cbn.
  rewrite !(alter_at _ _ _ _ (fenced_operation_at _ _ _ _ _ _ F)),
    !(alter_at _ _ _ _ (fenced_session_at _ _ _ _ _ _ F)).
  destruct (ms_lifecycle x) eqn:El; intros [= <- <-]; auto;
    [apply settled_ok, (acc_initialized m now s f pos opos x op)
    |apply settled_ok, (acc_removed m now s f pos opos x op)]; done.
Qed.

Lemma fail_cases f failure s r s' :
  fail f failure now s = (r, s') -> settled (LifecycleEvent.Failed f failure) s r s'.
Proof.
  unfold fail, st_bind, st_get, st_lift.
  destruct (fenced_session s f) as [[pos opos]|err] eqn:Ef; [|intros [= <- <-]; auto].
  destruct (fenced_session_ok _ _ _ _ Ef) as (x & op & F).
  unfold alter_operation, alter_session. cbn.
  rewrite !(alter_at _ _ _ _ (fenced_operation_at _ _ _ _ _ _ F)),
    !(alter_at _ _ _ _ (fenced_session_at _ _ _ _ _ _ F)).
  intros [= <- <-]. by apply settled_ok, (acc_failed m now s f failure pos opos x op).
Qed.

Lemma request_cancel_cases oid s r s' :
  request_cancel oid now s = (r, s') -> settled (LifecycleEvent.RequestCancel oid) s r s'.
Proof.
  unfold request_cancel. cbn. destruct (find_first _ _) as [op|] eqn:E; [|intros [= <- <-]; auto].
  destruct (find_position _ _ _ E) as (i & Hi & Hx). rewrite (update_at _ _ _ _ _ Hi Hx).
  destruct (OperationStatus.terminal _) eqn:Et; intros [= <- <-]; auto.
  by apply (settled_ok _ s (wl_sessions s)), (acc_cancel m now s oid i op).
Qed.

Lemma reconcile_cases id oid stage s r s' :
  reconcile_interrupted id oid stage now s = (r, s') ->
  settled (LifecycleEvent.ReconcileInterrupted id oid stage) s r s'.
Proof.
  unfold reconcile_interrupted. cbn.
  destruct (from_option _ _ _) eqn:Et; [intros [= <- <-]; auto|].
  destruct (find_first (attached_to id oid) _) as [x|] eqn:Ex; [|intros [= <- <-]; auto].
  destruct (attached_find _ _ _ _ Ex). destruct (find_position _ _ _ Ex) as (i & Hi & Hx).
  rewrite (update_at _ _ _ _ _ Hi Hx). intros [= <- <-].
  destruct (find_first (at_key _ _) _) as [op|] eqn:E.
  - destruct (find_position _ _ _ E) as (j & Hj & Hop). rewrite (update_at _ _ _ _ _ Hj Hop).
    by apply settled_ok, (acc_interrupted_live m now s id oid stage i j x op).
  - rewrite update_first_None by done.
    apply settled_ok, (acc_interrupted m now s id oid stage i x); auto. by apply kfind_None in E.
Qed.

Lemma reduce_cases e s r s' :
  reduce m e now s = (r, s') -> settled e s r s' /\ (r = Ok tt -> valid s).
Proof.
  unfold reduce, st_bind, st_get, st_lift.
  destruct (validate s) as [[]|err] eqn:Ev; [|intros [= <- <-]; split; [auto|done]].
  apply validate_ok in Ev. intros H. split; [|done].
  destruct e; cbn beta iota in H;
    eauto using adopt_cases, reserve_create_cases, create_completed_cases, begin_remove_cases,
      complete_cases, fail_cases, reconcile_cases, request_cancel_cases.
Qed.

Lemma reduce_ok e s s' :
  reduce m e now s = (Ok tt, s') ->
  valid s /\ exists ss ops, accepts m now s e ss ops /\ s' = with_rows now ss ops s.
Proof.
  intros H. apply reduce_cases in H as [[(? & ? & ?)|(_ & H)] V]; [done|]. auto.
Qed.
End cases.

Lemma position_first {A} (p : A -> bool) (l : list A) i x :
  position p l = Some i -> l !! i = Some x -> find_first p l = Some x.
Proof. intros (y & ? & ?)%position_find ?. congruence. Qed.

Section rules_complete.
Context (m : Minted) (now : DateTime) (s : WorkspaceLifecycleState) (valid_s : valid s).

(** Every event a rule accepts is accepted by the reducer, with the rule's rows. *)
Lemma reduce_complete e ss ops :
  accepts m now s e ss ops -> reduce m e now s = (Ok tt, with_rows now ss ops s).
Proof.
  intros A. unfold reduce, st_bind, st_get, st_lift. rewrite (proj2 (validate_ok s) valid_s).
  destruct A as [name failure Hn Hf|name role parent creator continuation op Hn Hf
    |f plan pos opos x op F El|id op plan pos x Hp Hx Hid El|f pos opos x op F El
    |f pos opos x op F El|f failure pos opos x op F|id oid stage pos x Hp Hx Hid Ho Hn
    |id oid stage pos opos x op Hp Hx Hid Ho Hop Hopx Ht|oid opos op Hop Hopx Ht]; cbn beta iota.
  - unfold adopt. unfold st_bind, st_lift, st_get.
    rewrite Hn, (proj2 (name_taken_false _ _) Hf). done.
  - unfold reserve_create. unfold st_bind, st_lift, st_get.
    rewrite Hn, (proj2 (name_taken_false _ _) Hf). done.
  - unfold create_completed, st_bind, st_get, st_lift, lifecycle_at.
    rewrite (fenced_session_complete _ _ _ _ _ _ F), (fenced_session_at _ _ _ _ _ _ F). cbn.
    rewrite El. cbn. unfold alter_operation, alter_session. cbn.
    rewrite !(alter_at _ _ _ _ (fenced_operation_at _ _ _ _ _ _ F)),
      !(alter_at _ _ _ _ (fenced_session_at _ _ _ _ _ _ F)). by destruct plan.
  - unfold begin_remove. cbn. rewrite (position_first _ _ _ _ Hp Hx), (update_at _ _ _ _ _ Hp Hx).
    by destruct El as [-> | ->].
  - unfold complete, st_bind, st_get, st_lift.
    rewrite (fenced_session_complete _ _ _ _ _ _ F), (fenced_session_at _ _ _ _ _ _ F), El.
    unfold alter_operation, alter_session. cbn.
    rewrite !(alter_at _ _ _ _ (fenced_operation_at _ _ _ _ _ _ F)),
      !(alter_at _ _ _ _ (fenced_session_at _ _ _ _ _ _ F)). done.
  - unfold complete, st_bind, st_get, st_lift.
    rewrite (fenced_session_complete _ _ _ _ _ _ F), (fenced_session_at _ _ _ _ _ _ F), El.
    unfold alter_operation. cbn. by rewrite !(alter_at _ _ _ _ (fenced_operation_at _ _ _ _ _ _ F)).
  - unfold fail, st_bind, st_get, st_lift.
    rewrite (fenced_session_complete _ _ _ _ _ _ F). unfold alter_operation, alter_session. cbn.
    by rewrite !(alter_at _ _ _ _ (fenced_operation_at _ _ _ _ _ _ F)),
      !(alter_at _ _ _ _ (fenced_session_at _ _ _ _ _ _ F)).
  - unfold reconcile_interrupted. cbn. rewrite (proj2 (kfind_None _ _ _) Hn). cbn.
    rewrite (position_first _ _ _ _ Hp Hx), (update_at _ _ _ _ _ Hp Hx).
    by rewrite update_first_None by (by apply kfind_None).
  - unfold reconcile_interrupted. cbn. rewrite (position_first _ _ _ _ Hop Hopx). cbn. rewrite Ht.
    by rewrite (position_first _ _ _ _ Hp Hx), (update_at _ _ _ _ _ Hp Hx),
      (update_at _ _ _ _ _ Hop Hopx).
  - unfold request_cancel. cbn. rewrite (position_first _ _ _ _ Hop Hopx), Ht.
    by rewrite (update_at _ _ _ _ _ Hop Hopx).
Qed.
End rules_complete.
