(* ===== verification/LifecycleLaws.v ===== *)
(** * What the lifecycle reducer keeps

    The invariant of a workspace's lifecycle state and its preservation by every
    event, the completion fence, the finality of terminal operations, and the
    progress of sessions whose operation is under way. *)
From S2P Require Export Lifecycle.
Import WorkspaceLifecycle.

(** ** Replacing one element of a list *)
Section replace.
Context {A : Type}.
Implicit Types (l : list A) (i : nat) (x y z : A).

Lemma elem_of_replace l i x y z :
  l !! i = Some x -> z ∈ <[i := y]> l -> z = y \/ exists j, j <> i /\ l !! j = Some z.
Proof.
  intros Hx (j & Hj)%list_elem_of_lookup. apply list_lookup_insert_Some in Hj.
  destruct Hj as [(-> & -> & _)|[? ?]]; [by left|]. right. eauto.
Qed.

Lemma replace_all (P : A -> Prop) l i y :
  (forall z, z ∈ l -> P z) -> P y -> forall z, z ∈ <[i := y]> l -> P z.
Proof.
  intros Hl Hy z (j & Hj)%list_elem_of_lookup. apply list_lookup_insert_Some in Hj.
  destruct Hj as [(_ & -> & _)|[_ Hj]]; [done|]. apply Hl. by eapply list_elem_of_lookup_2.
Qed.

Lemma fmap_replace {B} (f : A -> B) l i x y : l !! i = Some x -> f y = f x -> f <$> <[i := y]> l = f <$> l.
Proof.
  intros Hx E. rewrite list_fmap_insert, E. apply list_insert_id. by rewrite list_lookup_fmap, Hx.
Qed.

Lemma replaced_elem l i x y : l !! i = Some x -> y ∈ <[i := y]> l.
Proof.
  intros Hx. apply list_elem_of_lookup. exists i. apply list_lookup_insert_eq.
  by eapply lookup_lt_Some.
Qed.

Lemma kept_elem l i j y z : l !! j = Some z -> j <> i -> z ∈ <[i := y]> l.
Proof.
  intros Hz Hn. apply list_elem_of_lookup. exists j. by rewrite list_lookup_insert_ne.
Qed.

Lemma key_index {K} (key : A -> K) l i j x y :
  NoDup (key <$> l) -> l !! i = Some x -> l !! j = Some y -> key x = key y -> i = j.
Proof.
  intros Hnd Hx Hy E. eapply (NoDup_lookup (key <$> l) i j (key x)); [done|..];
    rewrite list_lookup_fmap; [by rewrite Hx|by rewrite Hy, E].
Qed.
End replace.

(** ** The invariant *)
Definition in_progress (l : SessionLifecycle.t) : bool :=
  match l with
  | SessionLifecycle.Creating | SessionLifecycle.Initializing | SessionLifecycle.Deleting => true
  | SessionLifecycle.Available | SessionLifecycle.Failed => false
  end.

(** The fields each lifecycle goes with. *)
Definition shape (x : ManagedSession) : Prop :=
  match ms_lifecycle x with
  | SessionLifecycle.Creating =>
      is_Some (ms_operation_id x) /\ ms_setup_plan x = None /\ ms_delete_plan x = None /\
      ms_failure x = None
  | SessionLifecycle.Initializing =>
      is_Some (ms_operation_id x) /\ is_Some (ms_setup_plan x) /\ ms_delete_plan x = None /\
      ms_failure x = None
  | SessionLifecycle.Available =>
      ms_operation_id x = None /\ ms_setup_plan x = None /\ ms_delete_plan x = None /\
      ms_failure x = None
  | SessionLifecycle.Deleting =>
      is_Some (ms_operation_id x) /\ ms_setup_plan x = None /\ is_Some (ms_delete_plan x) /\
      ms_failure x = None
  | SessionLifecycle.Failed => is_Some (ms_failure x)
  end.

Definition entry_at (ops : list OperationJournal) (id : OperationId) (over : bool) : Prop :=
  exists op, op ∈ ops /\ oj_operation_id op = id /\ OperationStatus.terminal (oj_status op) = over.

Record journaled (ss : list ManagedSession) (ops : list OperationJournal) : Prop := MkJournaled {
  journal_ids : NoDup (oj_operation_id <$> ops);
  journal_owner : forall x y id, x ∈ ss -> y ∈ ss -> ms_operation_id x = Some id ->
    ms_operation_id y = Some id -> ms_session_id x = ms_session_id y;
  journal_attached : forall x id, x ∈ ss -> ms_operation_id x = Some id ->
    entry_at ops id (negb (in_progress (ms_lifecycle x)));
}.

Record inv (s : WorkspaceLifecycleState) : Prop := MkInv {
  inv_valid : valid s;
  inv_shape : forall x, x ∈ wl_sessions s -> shape x;
  inv_journal : journaled (wl_sessions s) (wl_operations s);
}.

(** A minted identity nothing in the state mentions, and a journal entry that is
    admitted under a new operation identity. *)
Definition fresh_mint (m : Minted) (s : WorkspaceLifecycleState) : Prop :=
  forall x, x ∈ wl_sessions s -> ms_session_id x <> mint_session m /\
    ms_parent_session_id x <> Some (mint_session m).

Definition fresh_operation (op : OperationJournal) (s : WorkspaceLifecycleState) : Prop :=
  OperationStatus.terminal (oj_status op) = false /\
  oj_operation_id op ∉ oj_operation_id <$> wl_operations s /\
  (forall x, x ∈ wl_sessions s -> ms_operation_id x <> Some (oj_operation_id op)).

Definition admissible (m : Minted) (e : LifecycleEvent.t) (s : WorkspaceLifecycleState) : Prop :=
  match e with
  | LifecycleEvent.AdoptOrphan _ _ => fresh_mint m s
  | LifecycleEvent.ReserveCreate _ _ parent _ _ op =>
      fresh_mint m s /\ parent <> Some (mint_session m) /\ fresh_operation op s
  | LifecycleEvent.BeginRemove _ op _ => fresh_operation op s
  | _ => True
  end.

#[export] Instance all_in_dec {A} (P : A -> Prop) `{forall x, Decision (P x)} (l : list A) :
  Decision (forall x, x ∈ l -> P x).
Proof.
  refine (cast_if (decide (Forall P l))); abstract (rewrite <- Forall_forall; done).
Defined.

#[export] Instance admissible_dec m e s : Decision (admissible m e s).
Proof. unfold admissible, fresh_mint, fresh_operation. destruct e; apply _. Defined.

Lemma fresh_mint_ids m s : fresh_mint m s -> mint_session m ∉ ms_session_id <$> wl_sessions s.
Proof. intros H (x & E & Hx)%list_elem_of_fmap. by destruct (H x Hx) as [? _]. Qed.

Lemma finished_id st op : oj_operation_id (finished st op) = oj_operation_id op.
Proof. done. Qed.

Lemma created_operation_id plan op : oj_operation_id (created_operation plan op) = oj_operation_id op.
Proof. by destruct plan. Qed.

Lemma created_keeps plan now x :
  ms_session_id (created plan now x) = ms_session_id x /\ ms_name (created plan now x) = ms_name x.
Proof. by destruct plan. Qed.

Section preservation.
Context (m : Minted) (now : DateTime) (s : WorkspaceLifecycleState).
Notation ss := (wl_sessions s).
Notation ops := (wl_operations s).

Lemma valid_rows ss' ops' :
  valid s -> (forall x, x ∈ ss' -> validate_session_name (ms_name x) = Ok tt) ->
  NoDup (ms_name <$> ss') -> NoDup (ms_session_id <$> ss') -> valid (with_rows now ss' ops' s).
Proof. intros (? & ? & ? & _) ???. by split_and!. Qed.

Lemma valid_replace i x y ops' :
  valid s -> ss !! i = Some x -> ms_session_id y = ms_session_id x -> ms_name y = ms_name x ->
  valid (with_rows now (<[i := y]> ss) ops' s).
Proof.
  intros V Hx Eid En. destruct (V) as (_ & _ & _ & Hn & Nn & Ni). apply valid_rows; [done|..].
  - apply replace_all; [done|]. rewrite En. apply Hn. by eapply list_elem_of_lookup_2.
  - by rewrite (fmap_replace _ _ _ x).
  - by rewrite (fmap_replace _ _ _ x).
Qed.

Lemma valid_add y ops' :
  valid s -> validate_session_name (ms_name y) = Ok tt -> ms_name y ∉ ms_name <$> ss ->
  ms_session_id y ∉ ms_session_id <$> ss -> valid (with_rows now (ss ++ [y]) ops' s).
Proof.
  intros V Hy Nn' Ni'. destruct (V) as (_ & _ & _ & Hn & Nn & Ni). apply valid_rows; [done|..].
  - intros x [Hx| ->%list_elem_of_singleton]%elem_of_app; [by apply Hn|done].
  - rewrite fmap_app. apply list.NoDup_app. split_and!; [done| |apply list.NoDup_singleton].
    by intros n Hin ->%list_elem_of_singleton.
  - rewrite fmap_app. apply list.NoDup_app. split_and!; [done| |apply list.NoDup_singleton].
    by intros n Hin ->%list_elem_of_singleton.
Qed.

Lemma backfill_keeps removed continuation x :
  ms_session_id (backfill removed continuation x) = ms_session_id x /\
  ms_name (backfill removed continuation x) = ms_name x /\
  ms_lifecycle (backfill removed continuation x) = ms_lifecycle x /\
  ms_operation_id (backfill removed continuation x) = ms_operation_id x /\
  ms_parent_session_id (backfill removed continuation x) = ms_parent_session_id x /\
  (shape x -> shape (backfill removed continuation x)).
Proof. unfold backfill. by destruct (_ && _). Qed.

Lemma backfill_fmap {B} (f : ManagedSession -> B) removed continuation :
  (forall x, f (backfill removed continuation x) = f x) ->
  f <$> (backfill removed continuation <$> ss) = f <$> ss.
Proof. intros H. rewrite <- list_fmap_compose. apply list_fmap_ext. intros ? x _. apply H. Qed.

Lemma elem_of_removed removed continuation pos x :
  x ∈ delete pos (backfill removed continuation <$> ss) ->
  exists j y, j <> pos /\ ss !! j = Some y /\ x = backfill removed continuation y.
Proof.
  intros (j & Hj)%list_elem_of_lookup.
  assert (exists k, k <> pos /\ (backfill removed continuation <$> ss) !! k = Some x) as (k & Hk & Hx).
  { destruct (decide (j < pos)).
    - rewrite list_lookup_delete_lt in Hj by done. exists j. split; [lia|done].
    - rewrite list_lookup_delete_ge in Hj by lia. exists (S j). split; [lia|done]. }
  rewrite list_lookup_fmap in Hx. apply fmap_Some in Hx as (y & Hy & ->). eauto.
Qed.

Lemma valid_removed removed continuation pos ops' :
  valid s -> valid (with_rows now (delete pos (backfill removed continuation <$> ss)) ops' s).
Proof.
  intros V. destruct (V) as (_ & _ & _ & Hn & Nn & Ni). apply valid_rows; [done|..].
  - intros x (j & y & _ & Hy & ->)%elem_of_removed.
    rewrite (proj1 (proj2 (backfill_keeps _ _ _))). apply Hn. by eapply list_elem_of_lookup_2.
  - eapply sublist_NoDup; [|apply fmap_sublist, sublist_delete].
    rewrite backfill_fmap; [done|]. intros x. apply backfill_keeps.
  - eapply sublist_NoDup; [|apply fmap_sublist, sublist_delete].
    rewrite backfill_fmap; [done|]. intros x. apply backfill_keeps.
Qed.

Lemma valid_preserved e ss' ops' :
  valid s -> admissible m e s -> accepts m now s e ss' ops' -> valid (with_rows now ss' ops' s).
Proof.
  intros V Adm A. destruct A.
  - apply valid_add; [done..|]. by apply fresh_mint_ids.
  - apply valid_add; [done..|]. destruct Adm as [? _]. by apply fresh_mint_ids.
  - eapply valid_replace; [done|by eapply fenced_session_at|apply created_keeps..].
  - by eapply valid_replace.
  - eapply valid_replace; [done|by eapply fenced_session_at|done..].
  - by apply valid_removed.
  - eapply valid_replace; [done|by eapply fenced_session_at|done..].
  - by eapply valid_replace.
  - by eapply valid_replace.
  - destruct V as (? & ? & ? & ? & ? & ?). by apply valid_rows.
Qed.

Lemma shape_preserved e ss' ops' :
  (forall x, x ∈ ss -> shape x) -> accepts m now s e ss' ops' -> forall x, x ∈ ss' -> shape x.
Proof.
  intros Hs A.
  assert (Hat : forall i x, ss !! i = Some x -> shape x).
  { intros i x Hx. apply Hs. by eapply list_elem_of_lookup_2. }
  assert (Hf : forall f i j x op, fenced s f i j x op -> shape x).
  { intros f i j x op F. eapply Hat, fenced_session_at, F. }
  destruct A as [| |f plan i j x op F El|id op plan i x Hp Hx Hid El|f i j x op F El
    |f i j x op F El|f failure i j x op F| | |].
  - intros x [Hx| ->%list_elem_of_singleton]%elem_of_app; [auto|]. unfold shape; cbn; eauto 10.
  - intros x [Hx| ->%list_elem_of_singleton]%elem_of_app; [auto|]. unfold shape; cbn; eauto 10.
  - apply replace_all; [done|]. specialize (Hf _ _ _ _ _ F). unfold shape in Hf. rewrite El in Hf.
    destruct plan; unfold shape; cbn; naive_solver.
  - apply replace_all; [done|]. specialize (Hat _ _ Hx). unfold shape; cbn. naive_solver.
  - apply replace_all; [done|]. specialize (Hf _ _ _ _ _ F). unfold shape in Hf. rewrite El in Hf.
    unfold shape; cbn; naive_solver.
  - intros z (k & y & _ & Hy & ->)%elem_of_removed. apply backfill_keeps. eauto.
  - apply replace_all; [done|]. unfold shape; cbn. eauto.
  - apply replace_all; [done|]. unfold shape; cbn. eauto.
  - apply replace_all; [done|]. unfold shape; cbn. eauto.
  - done.
Qed.

Lemma entry_replace i op op' id over :
  entry_at ops id over -> ops !! i = Some op -> oj_operation_id op' = oj_operation_id op ->
  (oj_operation_id op = id -> OperationStatus.terminal (oj_status op') = over) ->
  entry_at (<[i := op']> ops) id over.
Proof.
  intros (q & Hq & Eq & Lq) Hi E H. destruct (decide (oj_operation_id op = id)) as [Ei|Ei].
  - exists op'. split_and!; [by eapply replaced_elem|congruence|auto].
  - apply list_elem_of_lookup in Hq as (j & Hj). exists q. split_and!; [|done..].
    eapply kept_elem; [done|]. intros ->. congruence.
Qed.

Lemma entry_add op id over : entry_at ops id over -> entry_at (ops ++ [op]) id over.
Proof. intros (q & ? & ? & ?). exists q. rewrite elem_of_app. auto. Qed.

Lemma entry_new op : entry_at (ops ++ [op]) (oj_operation_id op) (OperationStatus.terminal (oj_status op)).
Proof. exists op. split_and!; [|done..]. apply elem_of_app. right. left. Qed.

Lemma journal_ids_add op :
  fresh_operation op s -> NoDup (oj_operation_id <$> ops) -> NoDup (oj_operation_id <$> (ops ++ [op])).
Proof.
  intros (_ & Hf & _) Hn. rewrite fmap_app. apply list.NoDup_app.
  split_and!; [done| |apply list.NoDup_singleton]. by intros id Hid ->%list_elem_of_singleton.
Qed.

(** A fenced session's replacement: it keeps its operation, or has none. *)
Lemma journaled_fenced i j x y op op' :
  NoDup (ms_session_id <$> ss) -> journaled ss ops -> ss !! i = Some x -> ops !! j = Some op ->
  ms_operation_id x = Some (oj_operation_id op) -> ms_session_id y = ms_session_id x ->
  oj_operation_id op' = oj_operation_id op ->
  ms_operation_id y = None \/
  (ms_operation_id y = ms_operation_id x /\
   OperationStatus.terminal (oj_status op') = negb (in_progress (ms_lifecycle y))) ->
  journaled (<[i := y]> ss) (<[j := op']> ops).
Proof.
  intros Nd [Ni Ho Hl] Hx Hop Ex Ey Eop Hy.
  assert (Hin : x ∈ ss) by by eapply list_elem_of_lookup_2.
  split.
  - by rewrite (fmap_replace _ _ _ op).
  - assert (Hz : forall z id, z ∈ <[i := y]> ss -> ms_operation_id z = Some id ->
      exists w, w ∈ ss /\ ms_operation_id w = Some id /\ ms_session_id w = ms_session_id z).
    { intros z id [->|(k & _ & Hk)]%(elem_of_replace _ _ x) Hid; [|eauto using list_elem_of_lookup_2|done].
      exists x. destruct Hy as [|[]]; split_and!; congruence. }
    intros z1 z2 id H1 H2 E1 E2. destruct (Hz z1 id H1 E1) as (w1 & W1 & F1 & <-).
    destruct (Hz z2 id H2 E2) as (w2 & W2 & F2 & <-). by eapply Ho.
  - intros z id [->|(k & Hk & Hz)]%(elem_of_replace _ _ x) Eid; [| |done].
    + destruct Hy as [|[E <-]]; [congruence|]. exists op'.
      split_and!; [by eapply replaced_elem|congruence|done].
    + assert (Hzs : z ∈ ss) by by eapply list_elem_of_lookup_2.
      eapply entry_replace; [by apply Hl|done..|]. intros E. exfalso. apply Hk.
      eapply (key_index ms_session_id); [exact Nd|done..|]. eapply Ho; [done..|]. congruence.
Qed.

Lemma journaled_keep ss' ops' :
  journaled ss ops -> NoDup (oj_operation_id <$> ops') ->
  (forall x, x ∈ ss' -> exists y, y ∈ ss /\ ms_session_id y = ms_session_id x /\
     ms_operation_id y = ms_operation_id x /\ ms_lifecycle y = ms_lifecycle x) ->
  (forall x id over, x ∈ ss' -> ms_operation_id x = Some id ->
     entry_at ops id over -> entry_at ops' id over) ->
  journaled ss' ops'.
Proof.
  intros [Ni Ho Hl] Nd Hk Hlive. split; [done|..].
  - intros x y id Hx Hy Ex Ey. destruct (Hk x Hx) as (x' & ? & <- & ? & _).
    destruct (Hk y Hy) as (y' & ? & <- & ? & _). eapply (Ho x' y' id); congruence.
  - intros x id Hx Ex. destruct (Hk x Hx) as (x' & Hx' & _ & E & <-).
    eapply Hlive; [done..|]. apply Hl; congruence.
Qed.

(** A new operation attached to a session of its own. *)
Lemma journaled_attach ss' op :
  journaled ss ops -> fresh_operation op s ->
  (forall x, x ∈ ss' ->
     x ∈ ss \/ (ms_operation_id x = Some (oj_operation_id op) /\
                in_progress (ms_lifecycle x) = true /\
                forall y, y ∈ ss' -> ms_operation_id y = ms_operation_id x ->
                  ms_session_id y = ms_session_id x)) ->
  journaled ss' (ops ++ [op]).
Proof.
  intros J F Hk. destruct (J) as [Ni Ho Hl]. split; [by apply journal_ids_add|..].
  - intros x y id Hx Hy Ex Ey. destruct (Hk x Hx) as [Hx'|(E & _ & U)].
    + destruct (Hk y Hy) as [Hy'|(E & _ & U)]; [by eapply Ho|]. apply U; congruence.
    + symmetry. apply U; congruence.
  - intros x id Hx Ex. destruct (Hk x Hx) as [Hx'|(E & P & _)]; [by apply entry_add, Hl|].
    rewrite P. assert (id = oj_operation_id op) as -> by congruence.
    change (negb true) with false. rewrite <- (proj1 F). apply entry_new.
Qed.

Lemma fenced_id_of f pos opos x op :
  fenced s f pos opos x op -> oj_operation_id op = cf_operation_id f.
Proof. intros F. eapply kfind_Some, fenced_first, F. Qed.

Lemma journaled_removed i j x op :
  NoDup (ms_session_id <$> ss) -> journaled ss ops -> ss !! i = Some x -> ops !! j = Some op ->
  ms_operation_id x = Some (oj_operation_id op) ->
  journaled (delete i (backfill (ms_session_id x) (director_continuation s (ms_session_id x)) <$> ss))
    (<[j := finished OperationStatus.Succeeded op]> ops).
Proof.
  intros Nd J Hx Hop Ex. destruct (J) as [Ni Ho Hl]. eapply journaled_keep; [done|..].
  - by rewrite (fmap_replace _ _ _ op).
  - intros z (k & y & _ & Hy & ->)%elem_of_removed. exists y.
    destruct (backfill_keeps (ms_session_id x) (director_continuation s (ms_session_id x)) y)
      as (-> & _ & -> & -> & _). split_and!; [by eapply list_elem_of_lookup_2|done..].
  - intros z id over (k & y & Hk & Hy & ->)%elem_of_removed Eid L.
    destruct (backfill_keeps (ms_session_id x) (director_continuation s (ms_session_id x)) y)
      as (_ & _ & _ & Eb & _). rewrite Eb in Eid.
    eapply entry_replace; [done..|]. intros E. exfalso. apply Hk.
    eapply (key_index ms_session_id); [exact Nd|done..|].
    eapply (Ho y x id); [by eapply list_elem_of_lookup_2..|done|congruence].
Qed.

Lemma journaled_preserved e ss' ops' :
  inv s -> admissible m e s -> accepts m now s e ss' ops' -> journaled ss' ops'.
Proof.
  intros [V Hs J] Adm A. destruct (V) as (_ & _ & _ & _ & _ & Nd).
  assert (Hat : forall i x, ss !! i = Some x -> x ∈ ss)
    by (intros; by eapply list_elem_of_lookup_2).
  destruct A as [name failure Hn Hf|name role parent creator continuation op Hn Hf
    |f plan i j x op F El|id op plan i x Hp Hx Hid El|f i j x op F El|f i j x op F El
    |f failure i j x op F|id oid stage i x Hp Hx Hid Hoid Hno
    |id oid stage i j x op Hp Hx Hid Hoid Hop Hopx Ht|oid j op Hop Hopx Ht].
  - destruct (J) as [Ni Ho Hl]. split; [done|..].
    + intros x y id [Hx| ->%list_elem_of_singleton]%elem_of_app
        [Hy| ->%list_elem_of_singleton]%elem_of_app Ex Ey; try done. by eapply Ho.
    + intros x id [Hx| ->%list_elem_of_singleton]%elem_of_app Ex; [by apply Hl|done].
  - destruct Adm as (_ & _ & F). apply journaled_attach; [done..|].
    intros x [Hx| ->%list_elem_of_singleton]%elem_of_app; [by left|right].
    split_and!; [done..|]. intros y [Hy| ->%list_elem_of_singleton]%elem_of_app E; [|done].
    exfalso. by apply (proj2 (proj2 F) y Hy).
  - eapply journaled_fenced;
      [done|done|by eapply fenced_session_at|by eapply fenced_operation_at|..].
    + rewrite (fenced_id_of _ _ _ _ _ F). apply F.
    + apply created_keeps.
    + by destruct plan.
    + destruct plan; [right|by left]. split; [done|]. apply F.
  - apply journaled_attach; [done..|].
    intros y [->|(k & Hk & Hy)]%(elem_of_replace _ _ x); [right|left; eauto|done].
    split_and!; [done..|]. intros z [->|(k & Hk & Hz)]%(elem_of_replace _ _ x) E; [done| |done].
    exfalso. by apply (proj2 (proj2 Adm) z (Hat _ _ Hz)).
  - eapply journaled_fenced;
      [done|done|by eapply fenced_session_at|by eapply fenced_operation_at| |done|done|by left].
    rewrite (fenced_id_of _ _ _ _ _ F). apply F.
  - apply journaled_removed; [done|done|by eapply fenced_session_at|by eapply fenced_operation_at|].
    rewrite (fenced_id_of _ _ _ _ _ F). apply F.
  - eapply journaled_fenced;
      [done|done|by eapply fenced_session_at|by eapply fenced_operation_at| |done|done|by right].
    rewrite (fenced_id_of _ _ _ _ _ F). apply F.
  - exfalso. destruct (journal_attached _ _ J x oid (Hat _ _ Hx) Hoid) as (op & Hop & <- & _).
    apply Hno. by apply list_elem_of_fmap_2.
  - assert (oj_operation_id op = oid) by by eapply kfind_Some, position_first.
    eapply journaled_fenced; [done|done|done|done|congruence|done|done|by right].
  - eapply journaled_keep; [done| | |].
    + destruct J. by rewrite (fmap_replace _ _ _ op).
    + intros x Hx. exists x. auto.
    + intros x id over Hx Ex L. eapply entry_replace; [done..|]. intros E.
      destruct L as (q & Hq & Eq & <-). replace q with op; [done|].
      eapply (keys_inj oj_operation_id ops); [apply J|by eapply list_elem_of_lookup_2|done|congruence].
Qed.

Lemma inv_step e s' : inv s -> admissible m e s -> reduce m e now s = (Ok tt, s') -> inv s'.
Proof.
  intros I Adm H. apply reduce_ok in H as (V & ss' & ops' & A & ->). split.
  - by eapply valid_preserved.
  - eapply shape_preserved; [apply I|exact A].
  - by eapply journaled_preserved.
Qed.
End preservation.
(** ** Runs of the reducer *)
Record step := MkStep { step_mint : Minted; step_event : LifecycleEvent.t; step_now : DateTime }.

Definition step_state (s : WorkspaceLifecycleState) (e : step) : WorkspaceLifecycleState :=
  snd (reduce (step_mint e) (step_event e) (step_now e) s).

Definition run (es : list step) (s : WorkspaceLifecycleState) : WorkspaceLifecycleState :=
  foldl step_state s es.

(** The states of a workspace: the events may be refused. *)
Inductive reachable (workspace : WorkspaceId) (now : DateTime) : WorkspaceLifecycleState -> Prop :=
| reach_new : reachable workspace now (new workspace now)
| reach_step s e :
    reachable workspace now s -> admissible (step_mint e) (step_event e) s ->
    reachable workspace now (step_state s e).

Lemma reduce_unchanged m e now s err s' : reduce m e now s = (Err err, s') -> s' = s.
Proof. intros [[(? & _ & ?)|(? & _)] _]%reduce_cases; [done|congruence]. Qed.

Lemma reduce_revision m e now s s' :
  reduce m e now s = (Ok tt, s') ->
  wl_state_revision s' = (wl_state_revision s + 1)%N /\ wl_updated_at s' = now.
Proof. by intros (_ & ss & ops & _ & ->)%reduce_ok. Qed.

Lemma inv_new workspace now : inv (new workspace now).
Proof.
  split.
  - split_and!; try done; [by intros x ?%not_elem_of_nil|constructor..].
  - by intros x ?%not_elem_of_nil.
  - split; [apply base.NoDup_nil_2|intros x ?? Hx|intros x ? Hx]; by apply not_elem_of_nil in Hx.
Qed.

Lemma inv_any_step s e : inv s -> admissible (step_mint e) (step_event e) s -> inv (step_state s e).
Proof.
  unfold step_state. intros I Adm.
  destruct (reduce _ _ _ s) as [[[]|err] s'] eqn:E; simpl.
  - by eapply inv_step.
  - by rewrite (reduce_unchanged _ _ _ _ _ _ E).
Qed.

Lemma run_revision es s : (wl_state_revision s <= wl_state_revision (run es s))%N.
Proof.
  revert s. induction es as [|e es IH]; intros s; simpl; [lia|].
  etransitivity; [|apply IH]. unfold step_state.
  destruct (reduce _ _ _ s) as [[[]|err] s'] eqn:E; simpl.
  - apply reduce_revision in E as [-> _]. lia.
  - by rewrite (reduce_unchanged _ _ _ _ _ _ E).
Qed.

Fixpoint admissible_run (es : list step) (s : WorkspaceLifecycleState) : Prop :=
  match es with
  | [] => True
  | e :: es => admissible (step_mint e) (step_event e) s /\ admissible_run es (step_state s e)
  end.

#[export] Instance admissible_run_dec es s : Decision (admissible_run es s).
Proof. revert s. induction es as [|e es IH]; intros s; simpl; apply _. Defined.

Lemma reachable_run workspace now es s :
  reachable workspace now s -> admissible_run es s -> reachable workspace now (run es s).
Proof.
  revert s. induction es as [|e es IH]; intros s H; simpl; [done|]. intros [Adm Hr].
  apply IH; [|done]. by apply reach_step.
Qed.

(** Every state a workspace can reach, from its creation and through any
    sequence of accepted and refused events under fresh identities, is one the
    reducer validates: names are canonical and unique, identities are unique,
    every session carries the fields its lifecycle calls for, no two sessions
    share an operation, every operation a session is attached to is in the
    journal, and it is terminal exactly when the session is not under way. *)
Theorem reachable_states_are_well_formed workspace now s :
  reachable workspace now s -> inv s /\ validate s = Ok tt.
Proof.
  intros H. assert (I : inv s).
  { induction H as [|s e _ IH Adm]; [apply inv_new|by apply inv_any_step]. }
  split; [done|]. apply validate_ok, I.
Qed.

(** An event the reducer refuses leaves the state as it was; one it accepts
    advances the state revision by exactly one and stamps its instant. *)
Theorem event_settles_or_changes_nothing m e now s :
  match reduce m e now s with
  | (Err _, s') => s' = s
  | (Ok _, s') => wl_state_revision s' = (wl_state_revision s + 1)%N /\ wl_updated_at s' = now
  end.
Proof.
  destruct (reduce m e now s) as [[[]|err] s'] eqn:E.
  - by eapply reduce_revision.
  - by eapply reduce_unchanged.
Qed.

(** ** A fence is used once *)
Definition fence_of (e : LifecycleEvent.t) : option CompletionFence :=
  match e with
  | LifecycleEvent.CreateCompleted f _ | LifecycleEvent.Completed f | LifecycleEvent.Failed f _ =>
      Some f
  | _ => None
  end.

Lemma accepts_fence m now s e f ss ops :
  accepts m now s e ss ops -> fence_of e = Some f -> cf_expected_revision f = wl_state_revision s.
Proof. intros A; destruct A; simpl; intros [= <-]; by eapply fenced_revision. Qed.

Lemma stale_fence s f :
  cf_expected_revision f <> wl_state_revision s ->
  fenced_session s f = Err LifecycleError.StaleCompletion.
Proof.
  intros H. unfold fenced_session. rewrite (bool_decide_false (cf_expected_revision f = _)) by done.
  by rewrite orb_true_r.
Qed.

Lemma stale_completion m e now s f :
  fence_of e = Some f -> cf_expected_revision f <> wl_state_revision s ->
  reduce m e now s =
    (match validate s with Ok _ => Err LifecycleError.StaleCompletion | Err err => Err err end, s).
Proof.
  intros Hf Hr%stale_fence. unfold reduce, st_bind, st_get, st_lift.
  destruct (validate s) as [[]|err]; [|done].
  destruct e; simpl in Hf; simplify_eq;
    [unfold create_completed|unfold complete|unfold fail];
    unfold st_bind, st_get, st_lift; by rewrite Hr.
Qed.

(** A completion is applied at most once.  After an event carrying a fence
    has been accepted, and whatever happens to the workspace afterwards, every
    event that carries a fence of the same revision is refused as stale and
    changes nothing: no late or repeated worker outcome reaches a session. *)
Theorem used_fence_is_stale_forever m e now s s1 f es m' e' now' f' :
  reduce m e now s = (Ok tt, s1) -> fence_of e = Some f -> validate (run es s1) = Ok tt ->
  fence_of e' = Some f' -> cf_expected_revision f' = cf_expected_revision f ->
  reduce m' e' now' (run es s1) = (Err LifecycleError.StaleCompletion, run es s1).
Proof.
  intros H Hf I Hf' Er. destruct (reduce_ok _ _ _ _ _ H) as (_ & ss & ops & A & _).
  apply (accepts_fence _ _ _ _ f) in A; [|done]. apply reduce_revision in H as [Hr _].
  assert (Hle := run_revision es s1).
  rewrite (stale_completion m' e' now' _ f') by (done || lia).
  by rewrite I.
Qed.

(** ** Terminal operations *)
Lemma kept_terminal (ops : list OperationJournal) j op op' i q :
  ops !! j = Some op -> OperationStatus.terminal (oj_status op) = false ->
  ops !! i = Some q -> OperationStatus.terminal (oj_status q) = true -> <[j := op']> ops !! i = Some q.
Proof. intros Hj Lj Hi Li. rewrite list_lookup_insert_ne; [done|]. congruence. Qed.

(** A terminal operation is final: whatever event the reducer accepts, a
    journal entry that has succeeded, failed, been cancelled or become ambiguous
    keeps its place and every field, and no entry is ever dropped. *)
Theorem terminal_operations_are_final m e now s s' i op :
  reduce m e now s = (Ok tt, s') -> wl_operations s !! i = Some op ->
  OperationStatus.terminal (oj_status op) = true ->
  wl_operations s' !! i = Some op /\ (length (wl_operations s) <= length (wl_operations s')).
Proof.
  intros (_ & ss & ops & A & ->)%reduce_ok Hi Ht. cbn.
  destruct A as [| |f plan pos j x q F El| |f pos j x q F El|f pos j x q F El
    |f failure pos j x q F| |id oid stage pos j x q ???? Hp Hj Lj|oid j q Hp Hj Lj];
    try (destruct F as [? ? ? Hj ? ? ? Lj _ _ _ _ _]);
    rewrite ?length_insert, ?length_app; (split; [|simpl; lia]);
    first [done|by apply lookup_app_l_Some|by eapply kept_terminal].
Qed.

(** ** Progress *)
Definition fence_for (s : WorkspaceLifecycleState) (x : ManagedSession) (op : OperationJournal)
    : CompletionFence :=
  MkCompletionFence (wl_workspace_id s) (Some (ms_session_id x)) (oj_operation_id op)
    (oj_owner_daemon_generation op) (oj_execution_attempt op) (ms_attempt x) (wl_state_revision s).

Lemma journal_live s x :
  inv s -> x ∈ wl_sessions s -> in_progress (ms_lifecycle x) = true ->
  exists id, ms_operation_id x = Some id /\ entry_at (wl_operations s) id false.
Proof.
  intros I Hx Hp. assert (S := inv_shape _ I x Hx). unfold shape in S.
  destruct (ms_operation_id x) as [id|] eqn:E.
  - exists id. split; [done|]. assert (A := journal_attached _ _ (inv_journal _ I) x id Hx E).
    by rewrite Hp in A.
  - destruct (ms_lifecycle x); try done; destruct S as [[? ?] _]; done.
Qed.

Lemma fence_for_fenced s x op :
  inv s -> x ∈ wl_sessions s -> op ∈ wl_operations s ->
  ms_operation_id x = Some (oj_operation_id op) ->
  OperationStatus.terminal (oj_status op) = false ->
  exists pos opos, fenced s (fence_for s x op) pos opos x op.
Proof.
  intros I Hx Hop E L. destruct (inv_valid _ I) as (_ & _ & _ & _ & _ & Nd).
  assert (Ho := kfind_elem _ _ _ (journal_ids _ _ (inv_journal _ I)) Hop).
  destruct (find_position _ _ _ Ho) as (opos & Po & Lo).
  assert (Hs : find_first (session_pos_of (fence_for s x op)) (wl_sessions s) = Some x).
  { destruct (find_first_is_Some (session_pos_of (fence_for s x op)) _ x Hx) as [y Hy].
    - unfold session_pos_of. cbn. by rewrite !bool_decide_true.
    - rewrite Hy. apply find_first_Some in Hy as [Hin Hy]. unfold session_pos_of in Hy. cbn in Hy.
      apply andb_true_iff in Hy as [[Hy%bool_decide_eq_true _]%andb_true_iff _].
      f_equal. apply (keys_inj ms_session_id (wl_sessions s)); [done..|congruence]. }
  destruct (find_position _ _ _ Hs) as (pos & Ps & Ls).
  exists pos, opos. by split.
Qed.

Definition lifecycle_of (s : WorkspaceLifecycleState) (id : SessionId) : option SessionLifecycle.t :=
  ms_lifecycle <$> session (wl_sessions s) id.

Lemma lifecycle_replaced s (l : list ManagedSession) i x y ops now :
  NoDup (ms_session_id <$> l) -> l !! i = Some x -> ms_session_id y = ms_session_id x ->
  lifecycle_of (with_rows now (<[i := y]> l) ops s) (ms_session_id x) = Some (ms_lifecycle y).
Proof.
  intros Nd Hx E. unfold lifecycle_of, session. cbn. rewrite <- E, (kfind_elem _ _ y); [done| |].
  - by rewrite (fmap_replace _ _ _ x).
  - by eapply replaced_elem.
Qed.

(** A session under way is never stuck.  In every well-formed state, a
    session that is being created, set up or deleted has a live operation whose
    fence the reducer accepts: reporting completion makes it available (or
    removes it), and reporting failure makes it a failed session that can be
    removed. *)
Theorem sessions_under_way_can_finish s x now m failure :
  inv s -> x ∈ wl_sessions s -> in_progress (ms_lifecycle x) = true ->
  exists f s1 s2 e,
    reduce m (LifecycleEvent.Failed f failure) now s = (Ok tt, s1) /\
    lifecycle_of s1 (ms_session_id x) = Some SessionLifecycle.Failed /\
    e = (if bool_decide (ms_lifecycle x = SessionLifecycle.Creating)
         then LifecycleEvent.CreateCompleted f None else LifecycleEvent.Completed f) /\
    reduce m e now s = (Ok tt, s2) /\
    lifecycle_of s2 (ms_session_id x) =
      (if bool_decide (ms_lifecycle x = SessionLifecycle.Deleting) then None
       else Some SessionLifecycle.Available).
Proof.
  intros I Hx Hp. destruct (inv_valid _ I) as (_ & _ & _ & _ & _ & Nd).
  destruct (journal_live s x I Hx Hp) as (id & Eid & op & Hop & <- & L).
  destruct (fence_for_fenced s x op I Hx Hop Eid L) as (pos & opos & F).
  assert (Hpos := fenced_session_at _ _ _ _ _ _ F). set (f := fence_for s x op) in *.
  exists f. destruct (ms_lifecycle x) eqn:El; try done; simpl; do 3 eexists;
    (split; [eapply reduce_complete; [apply I|by eapply acc_failed]|]);
    (split; [by eapply lifecycle_replaced|]); (split; [done|]).
  - split; [eapply reduce_complete; [apply I|by eapply (acc_created _ _ _ f None)]|].
    by eapply lifecycle_replaced.
  - split; [eapply reduce_complete; [apply I|by eapply acc_initialized]|].
    by eapply lifecycle_replaced.
  - split; [eapply reduce_complete; [apply I|by eapply acc_removed]|].
    unfold lifecycle_of, session. cbn. apply fmap_None, kfind_None.
    intros (z & E & Hz)%list_elem_of_fmap.
    apply elem_of_removed in Hz as (k & y & Hk & Hy & ->). apply Hk.
    eapply (key_index ms_session_id); [exact Nd|done..|]. rewrite E. symmetry. apply backfill_keeps.
Qed.
