(* ===== verification/Lineage.v ===== *)
(** * Which conversation a session belongs to

    [director_continuation] against its reference reading: an inductive
    membership relation over the durable creation facts.  The loop terminates,
    computes that relation, and every accepted event keeps the membership of the
    sessions that survive it, the removal of an ancestor included. *)
From S2P Require Export LifecycleLaws.
Import WorkspaceLifecycle.

(** ** The reference reading *)
Inductive belongs (ss : list ManagedSession) : nat -> SessionId -> AgentContinuationRef -> Prop :=
| belongs_own id x c :
    session ss id = Some x -> ms_director_continuation x = Some c -> belongs ss 0 id c
| belongs_creator id x c :
    session ss id = Some x -> ms_director_continuation x = None -> ms_parent_session_id x = None ->
    ms_creator_continuation x = Some c -> belongs ss 0 id c
| belongs_parent n id x p c :
    session ss id = Some x -> ms_director_continuation x = None ->
    ms_parent_session_id x = Some p -> belongs ss n p c -> belongs ss (S n) id c.

Definition member_of (ss : list ManagedSession) (id : SessionId) (c : AgentContinuationRef) : Prop :=
  exists n, belongs ss n id c.

Lemma size_list_to_set_le_length (l : list SessionId) :
  size (list_to_set l : gset SessionId) <= length l.
Proof.
  induction l as [|id l IH]; cbn [list_to_set length]; [done|].
  rewrite size_union_alt, size_singleton. apply le_n_S.
  etransitivity; [|exact IH]. apply subseteq_size. set_solver.
Qed.

Section lineage.
Context (ss : list ManagedSession).

Lemma belongs_det n id c n' c' : belongs ss n id c -> belongs ss n' id c' -> n = n' /\ c = c'.
Proof.
  intros H. revert n' c'. induction H; intros n' c' H'; inversion H'; simplify_eq; try done.
  edestruct IHbelongs; [eassumption|]. by subst.
Qed.

(** *** Termination *)
Lemma session_known id x : session ss id = Some x -> id ∈ (list_to_set (ms_session_id <$> ss) : gset SessionId).
Proof.
  intros [Hx <-]%kfind_Some. apply elem_of_list_to_set. by apply list_elem_of_fmap_2.
Qed.

Lemma known_size (visited : gset SessionId) :
  visited ⊆ list_to_set (ms_session_id <$> ss) -> size visited <= length ss.
Proof.
  intros H%subseteq_size. etransitivity; [exact H|].
  rewrite size_list_to_set_le_length. by rewrite length_fmap.
Qed.

Lemma director_from_total fuel id visited :
  visited ⊆ list_to_set (ms_session_id <$> ss) -> length ss < fuel + size visited ->
  exists r, director_from fuel ss id visited = Some r.
Proof.
  revert id visited. induction fuel as [|fuel IH]; intros id visited Hv Hf; simpl.
  - apply known_size in Hv. lia.
  - case_bool_decide as Hin; [eauto|]. destruct (session ss id) as [x|] eqn:E; [|eauto].
    destruct (ms_director_continuation x); [eauto|]. destruct (ms_parent_session_id x); [|eauto].
    apply IH.
    + apply session_known in E. set_solver.
    + rewrite size_union by set_solver. rewrite size_singleton. lia.
Qed.

Lemma director_total id : exists r, director_from (director_fuel ss) ss id ∅ = Some r.
Proof. apply director_from_total; [set_solver|]. unfold director_fuel. lia. Qed.

(** *** Agreement *)
Lemma director_from_sound fuel id visited c :
  director_from fuel ss id visited = Some (Some c) -> member_of ss id c.
Proof.
  revert id visited. induction fuel as [|fuel IH]; intros id visited; simpl; [done|].
  case_bool_decide; [done|]. destruct (session ss id) as [x|] eqn:E; [|done].
  destruct (ms_director_continuation x) as [d|] eqn:Ed.
  - intros [= ->]. exists 0. by eapply belongs_own.
  - destruct (ms_parent_session_id x) as [p|] eqn:Ep.
    + intros [n H']%IH. exists (S n). by eapply belongs_parent.
    + intros [= H']. exists 0. by eapply belongs_creator.
Qed.

Lemma unvisited n id c (visited : gset SessionId) :
  belongs ss n id c -> (forall v, v ∈ visited -> exists k, n < k /\ belongs ss k v c) ->
  id ∉ visited.
Proof.
  intros H Hv Hin. destruct (Hv id Hin) as (k & Hk & H').
  destruct (belongs_det _ _ _ _ _ H H'). lia.
Qed.

Lemma director_from_complete n id c fuel visited r :
  belongs ss n id c -> (forall v, v ∈ visited -> exists k, n < k /\ belongs ss k v c) ->
  director_from fuel ss id visited = Some r -> r = Some c.
Proof.
  intros H. revert fuel visited. induction H as [id x c E Ed|id x c E Ed Ep Ec|n id x p c E Ed Ep H IH];
    intros [|fuel] visited Hv; simpl; try done.
  - rewrite bool_decide_false by (eapply unvisited; [by eapply belongs_own|done]).
    rewrite E, Ed. congruence.
  - rewrite bool_decide_false by (eapply unvisited; [by eapply belongs_creator|done]).
    rewrite E, Ed, Ep. congruence.
  - rewrite bool_decide_false by (eapply unvisited; [by eapply belongs_parent|done]).
    rewrite E, Ed, Ep. apply IH. intros v [->%elem_of_singleton|Hin]%elem_of_union.
    + exists (S n). split; [lia|]. by eapply belongs_parent.
    + destruct (Hv v Hin) as (k & ? & ?). exists k. split; [lia|done].
Qed.

Lemma director_of_spec id c : director_of ss id = Some c <-> member_of ss id c.
Proof.
  unfold director_of. destruct (director_total id) as [r E]. rewrite E. simpl. split.
  - intros ->. by eapply director_from_sound.
  - intros [n H]. eapply director_from_complete; [done| |done]. set_solver.
Qed.

Lemma director_from_mono fuel fuel' id visited r :
  fuel <= fuel' -> director_from fuel ss id visited = Some r ->
  director_from fuel' ss id visited = Some r.
Proof.
  revert fuel' id visited. induction fuel as [|fuel IH]; intros [|fuel'] id visited Hle; simpl;
    try done; [lia|].
  case_bool_decide; [done|]. destruct (session ss id) as [x|]; [|done].
  destruct (ms_director_continuation x); [done|]. destruct (ms_parent_session_id x); [|done].
  apply IH. lia.
Qed.
End lineage.

(** The walk up the creators always ends, whatever the ancestry, missing or
    cyclic: with one unit of fuel per session and one more it has a result, more
    fuel gives the same one, and the result is the conversation that the durable
    creation facts put the session in, and none exactly when they put it in none. *)
Theorem director_is_membership ss id :
  (exists r, forall fuel, director_fuel ss <= fuel -> director_from fuel ss id ∅ = Some r) /\
  (forall c, director_of ss id = Some c <-> member_of ss id c) /\
  (director_of ss id = None <-> forall c, ~ member_of ss id c).
Proof.
  split_and!.
  - destruct (director_total ss id) as [r E]. exists r. intros fuel Hle.
    by eapply director_from_mono.
  - intros c. apply director_of_spec.
  - setoid_rewrite <- director_of_spec. destruct (director_of ss id) as [c|]; [|naive_solver].
    split; [done|]. intros H. by destruct (H c).
Qed.

(** ** Membership across events *)
Definition lineage (x : ManagedSession)
    : option AgentContinuationRef * option SessionId * option AgentContinuationRef :=
  (ms_director_continuation x, ms_parent_session_id x, ms_creator_continuation x).

(** Two lists whose rows agree on a set of identities closed under parents. *)
Lemma member_agree (P : SessionId -> Prop) ss ss' id c :
  (forall id, P id -> lineage <$> session ss' id = lineage <$> session ss id) ->
  (forall id x p, P id -> session ss id = Some x -> ms_parent_session_id x = Some p -> P p) ->
  P id -> member_of ss id c -> member_of ss' id c.
Proof.
  intros Hag Hcl HP [n H]. exists n. induction H as [id x c E Ed|id x c E Ed Ep Ec|n id x p c E Ed Ep H IH].
  all: assert (Hx := Hag id HP); rewrite E in Hx; apply fmap_Some in Hx as (y & Ey & El);
    unfold lineage in El; injection El as El1 El2 El3.
  - eapply belongs_own; [done|congruence].
  - eapply belongs_creator; [done|congruence..].
  - eapply (belongs_parent _ _ _ y p); [done|congruence..|]. apply IH. by eapply Hcl.
Qed.

Lemma session_replaced ss i x y id :
  NoDup (ms_session_id <$> ss) -> ss !! i = Some x -> ms_session_id y = ms_session_id x ->
  session (<[i := y]> ss) id = if bool_decide (id = ms_session_id x) then Some y else session ss id.
Proof.
  intros Nd Hx E. unfold session. revert i Hx. induction ss as [|z l IH]; intros i Hx; [done|].
  apply list.NoDup_cons in Nd as [Hz Nd]. destruct i as [|i]; simpl in Hx |- *.
  - injection Hx as ->. unfold at_key. rewrite E. repeat case_bool_decide; congruence.
  - rewrite (IH Nd i Hx). destruct (at_key _ id z) eqn:Ez; [|done].
    apply (proj1 (at_key_true _ _ _)) in Ez. rewrite bool_decide_false; [done|]. intros ->. apply Hz. rewrite Ez.
    by eapply list_elem_of_fmap_2, list_elem_of_lookup_2.
Qed.

Lemma session_find ss i x :
  NoDup (ms_session_id <$> ss) -> ss !! i = Some x -> session ss (ms_session_id x) = Some x.
Proof. intros Nd Hx. apply kfind_elem; [done|]. by eapply list_elem_of_lookup_2. Qed.

Lemma lineage_replaced ss i x y id :
  NoDup (ms_session_id <$> ss) -> ss !! i = Some x -> ms_session_id y = ms_session_id x ->
  lineage y = lineage x -> lineage <$> session (<[i := y]> ss) id = lineage <$> session ss id.
Proof.
  intros Nd Hx E El. rewrite (session_replaced _ _ x) by done. case_bool_decide as Hid; [|done].
  subst. rewrite (session_find _ i) by done. simpl. by rewrite El.
Qed.

Lemma director_same (P : SessionId -> Prop) ss ss' id :
  (forall id, P id -> lineage <$> session ss' id = lineage <$> session ss id) ->
  (forall id x p, P id -> session ss id = Some x -> ms_parent_session_id x = Some p -> P p) ->
  P id -> director_of ss' id = director_of ss id.
Proof.
  intros Hag Hcl HP. apply option_eq. intros c. rewrite !director_of_spec.
  split; [|by apply (member_agree P)].
  apply (member_agree P); [by intros; symmetry; apply Hag| |done].
  intros id' y p HP' Ey Ep. assert (Hx := Hag id' HP'). rewrite Ey in Hx. symmetry in Hx.
  apply fmap_Some in Hx as (x & Ex & El). unfold lineage in El. injection El as _ El _.
  eapply Hcl; [done..|congruence].
Qed.

Lemma director_replaced ss i x y id :
  NoDup (ms_session_id <$> ss) -> ss !! i = Some x -> ms_session_id y = ms_session_id x ->
  lineage y = lineage x -> director_of (<[i := y]> ss) id = director_of ss id.
Proof.
  intros Nd Hx E El. apply (director_same (fun _ => True)); [|done..].
  intros id' _. by apply (lineage_replaced _ _ x).
Qed.

(** *** Additions *)
Lemma session_added ss y id :
  ms_session_id y ∉ ms_session_id <$> ss ->
  session (ss ++ [y]) id = if bool_decide (id = ms_session_id y) then Some y else session ss id.
Proof.
  intros Hy. unfold session. rewrite find_first_app. simpl. case_bool_decide as Hid.
  - subst. rewrite (proj2 (kfind_None _ _ _)) by done. by rewrite (proj2 (at_key_true _ _ _)).
  - rewrite (proj2 (at_key_false _ _ _)) by congruence. by destruct (find_first _ ss).
Qed.

Lemma director_added ss y id :
  (forall x, x ∈ ss -> ms_session_id x <> ms_session_id y /\
     ms_parent_session_id x <> Some (ms_session_id y)) ->
  id <> ms_session_id y -> director_of (ss ++ [y]) id = director_of ss id.
Proof.
  intros Hf. apply (director_same (fun id => id <> ms_session_id y)).
  - intros id' Hid. rewrite session_added; [by rewrite bool_decide_false|].
    intros (x & E & Hx)%list_elem_of_fmap. by destruct (Hf x Hx).
  - intros id' x p _ [Hx _]%kfind_Some Ep ->. by destruct (Hf x Hx).
Qed.

(** *** Removal *)
Lemma session_removed ss i x removed continuation id :
  NoDup (ms_session_id <$> ss) -> ss !! i = Some x ->
  session (delete i (backfill removed continuation <$> ss)) id =
  if bool_decide (id = ms_session_id x) then None
  else backfill removed continuation <$> session ss id.
Proof.
  intros Nd. unfold session. revert i. induction ss as [|z l IH]; intros i Hx; [done|].
  apply list.NoDup_cons in Nd as [Hz Nd].
  assert (Hb : forall z, at_key ms_session_id id (backfill removed continuation z) =
                         at_key ms_session_id id z).
  { intros w. unfold at_key. by rewrite (proj1 (backfill_keeps removed continuation w)). }
  assert (Hfind : find_first (at_key ms_session_id id) (backfill removed continuation <$> l) =
                  backfill removed continuation <$> find_first (at_key ms_session_id id) l).
  { clear -Hb. induction l as [|w l IH]; [done|]. simpl. rewrite Hb.
    by destruct (at_key ms_session_id id w). }
  destruct i as [|i]; csimpl in *.
  - injection Hx as ->. rewrite Hfind. case_bool_decide as Hid.
    + subst. by rewrite (proj2 (kfind_None _ _ _)).
    + by rewrite (proj2 (at_key_false _ _ _)) by congruence.
  - rewrite Hb, (IH Nd i Hx). destruct (at_key _ id z) eqn:Ez; [|done].
    apply (proj1 (at_key_true _ _ _)) in Ez. rewrite bool_decide_false; [done|]. intros ->. apply Hz. rewrite Ez.
    by eapply list_elem_of_fmap_2, list_elem_of_lookup_2.
Qed.

Lemma backfill_lineage removed continuation x :
  ms_parent_session_id (backfill removed continuation x) = ms_parent_session_id x /\
  ms_creator_continuation (backfill removed continuation x) = ms_creator_continuation x /\
  ms_director_continuation (backfill removed continuation x) =
    (if bool_decide (ms_parent_session_id x = Some removed) &&
        bool_decide (ms_director_continuation x = None)
     then continuation else ms_director_continuation x).
Proof. unfold backfill. by destruct (_ && _). Qed.

Section removal.
Context (ss : list ManagedSession) (i : nat) (r : ManagedSession).
Hypothesis ids_unique : NoDup (ms_session_id <$> ss).
Hypothesis removed_at : ss !! i = Some r.
Notation continuation := (director_of ss (ms_session_id r)).
Notation ss' := (delete i (backfill (ms_session_id r) continuation <$> ss)).

Lemma surviving id x :
  id <> ms_session_id r ->
  session ss id = Some x -> session ss' id = Some (backfill (ms_session_id r) continuation x).
Proof. intros Hid E. rewrite (session_removed _ _ r) by done. by rewrite bool_decide_false, E. Qed.

Lemma removal_keeps n id c :
  id <> ms_session_id r -> belongs ss n id c -> member_of ss' id c.
Proof.
  intros Hid H. revert Hid.
  induction H as [id x c E Ed|id x c E Ed Ep Ec|n id x p c E Ed Ep H IH]; intros Hid;
    apply (surviving _ _ Hid) in E;
    destruct (backfill_lineage (ms_session_id r) continuation x) as (Bp & Bc & Bd).
  - exists 0. eapply belongs_own; [done|]. rewrite Bd, Ed.
    by rewrite (bool_decide_false (Some c = None)), andb_false_r.
  - exists 0. eapply belongs_creator; [done|..]; [|congruence..]. rewrite Bd, Ep. by rewrite bool_decide_false.
  - destruct (decide (p = ms_session_id r)) as [->|Hp].
    + exists 0. eapply belongs_own; [done|]. rewrite Bd, Ep, Ed, !bool_decide_true by done.
      apply director_of_spec. by exists n.
    + destruct (IH Hp) as [k Hk]. exists (S k). eapply (belongs_parent _ _ _ _ p); [done|..|done].
      * rewrite Bd, Ep. rewrite bool_decide_false; [done|]. congruence.
      * congruence.
Qed.

Lemma removal_adds_none n id c :
  belongs ss' n id c -> id <> ms_session_id r /\ member_of ss id c.
Proof.
  intros H. induction H as [id x c E Ed|id x c E Ed Ep Ec|n id x p c E Ed Ep H [Hp [k IH]]];
    rewrite (session_removed _ _ r) in E by done; case_bool_decide as Hid; try done;
    apply fmap_Some in E as (y & E & ->); (split; [done|]);
    destruct (backfill_lineage (ms_session_id r) continuation y) as (Bp & Bc & Bd); rewrite Bd in Ed.
  - destruct (_ && _) eqn:Eb.
    + apply andb_true_iff in Eb as [Ep%bool_decide_eq_true Edn%bool_decide_eq_true].
      apply director_of_spec in Ed as [n Hn]. exists (S n). by eapply belongs_parent.
    + exists 0. by eapply belongs_own.
  - exists 0. eapply belongs_creator; [done|..]; [|congruence..].
    destruct (_ && _) eqn:Eb; [|done]. by apply andb_true_iff in Eb as [_ ?%bool_decide_eq_true].
  - exists (S k). eapply (belongs_parent _ _ _ _ p); [done|..|done]; [|congruence].
    destruct (_ && _) eqn:Eb; [|done]. by apply andb_true_iff in Eb as [_ ?%bool_decide_eq_true].
Qed.

Lemma director_removed id :
  id <> ms_session_id r -> director_of ss' id = director_of ss id.
Proof.
  intros Hid. apply option_eq. intros c. rewrite !director_of_spec. split; intros [n H].
  - by eapply removal_adds_none.
  - by eapply removal_keeps.
Qed.
End removal.

Lemma created_lineage plan now x : lineage (created plan now x) = lineage x.
Proof. by destruct plan. Qed.

Lemma director_stable m now s e ss ops id :
  valid s -> admissible m e s -> accepts m now s e ss ops ->
  is_Some (session (wl_sessions s) id) -> is_Some (session ss id) ->
  director_of ss id = director_of (wl_sessions s) id.
Proof.
  intros (_ & _ & _ & _ & _ & Nd) Adm A [x0 E0] E1.
  assert (Hn : fresh_mint m s -> id <> mint_session m).
  { intros F ->. apply kfind_Some in E0 as [Hin E0]. by destruct (F _ Hin). }
  destruct A as [name failure Hnm Hf|name role parent creator continuation op Hnm Hf
    |f plan i j x op F El|id' op plan i x Hp Hx Hid El|f i j x op F El|f i j x op F El
    |f failure i j x op F|id' oid stage i x Hp Hx Hid Hoid Hno
    |id' oid stage i j x op Hp Hx Hid Hoid Hop Hopx Ht|oid j op Hop Hopx Ht];
    try apply fenced_session_at in F; try (by eapply director_replaced).
  - apply director_added; [exact Adm|]. by apply Hn.
  - destruct Adm as (F & _). apply director_added; [exact F|by apply Hn].
  - eapply director_replaced; [done..|apply created_keeps|apply created_lineage].
  - eapply director_removed; [done..|]. intros ->.
    rewrite (session_removed _ _ x), bool_decide_true in E1 by done. by destruct E1.
  - done.
Qed.

Lemma director_of_reserved m name role parent creator continuation op now s :
  fresh_mint m s -> parent <> Some (mint_session m) ->
  director_of (wl_sessions s ++ [reserved m name role parent creator continuation op now s])
    (mint_session m) =
  match parent with Some p => director_continuation s p | None => continuation end.
Proof.
  intros F Hpar. set (y := reserved _ _ _ _ _ _ _ _ _).
  assert (Ey : session (wl_sessions s ++ [y]) (mint_session m) = Some y).
  { rewrite session_added by by apply (fresh_mint_ids m). by rewrite bool_decide_true. }
  assert (Hy : forall p, parent = Some p ->
    director_of (wl_sessions s ++ [y]) p = director_of (wl_sessions s) p).
  { intros p Ep. apply director_added; [exact F|]. intros ->. by apply Hpar. }
  apply option_eq. intros c. rewrite director_of_spec. split.
  - intros [n H]. inversion H as [? ? ? E Ed|? ? ? E Ed Ep Ec|k ? ? p ? E Ed Ep Hb]; subst;
      rewrite Ey in E; injection E as <-; cbn in *; [done|by subst|].
    subst parent. unfold director_continuation. rewrite <- (Hy p) by done.
    apply director_of_spec. by exists k.
  - intros H. exists 0. by eapply belongs_own.
Qed.

(** Organization membership is durable.  Whatever event the reducer
    accepts, every session that survives it belongs to the same conversation as
    before, the sessions created by one that is removed included; and a new
    session belongs to the conversation of its parent, or to its creator's. *)
Theorem membership_survives_every_event m e now s s' id :
  admissible m e s -> reduce m e now s = (Ok tt, s') ->
  is_Some (session (wl_sessions s) id) -> is_Some (session (wl_sessions s') id) ->
  (forall c, member_of (wl_sessions s') id c <-> member_of (wl_sessions s) id c) /\
  (forall name role parent creator continuation op,
     e = LifecycleEvent.ReserveCreate name role parent creator continuation op ->
     director_continuation s' (mint_session m) =
       match parent with Some p => director_continuation s p | None => continuation end).
Proof.
  intros Adm (V & ss & ops & A & ->)%reduce_ok E0 E1.
  change (wl_sessions (with_rows now ss ops s)) with ss in *. split.
  - intros c. rewrite <- !director_of_spec. by rewrite (director_stable m now s e ss ops id).
  - intros ?????? ->. destruct Adm as (F & Hpar & _). inversion A; subst.
    by apply director_of_reserved.
Qed.
