(* ===== verification/LifecycleSpec.v ===== *)
(** * The abstract session life cycle

    A workspace promises its clients a small state machine: a partial map from
    session identities to lifecycles, in which a session is created or adopted,
    moves along a fixed table and disappears only from [Deleting].  The reducer
    implements it, and a session's creation facts never change.  Then the
    start-up repair of legacy failed outcomes: what it may touch, and a
    reachable journal it rewrites wrongly. *)
From S2P Require Export Lineage.
Import WorkspaceLifecycle.

(** ** The abstract machine *)
Notation lifecycles := (gmap SessionId SessionLifecycle.t).

Inductive moves : SessionLifecycle.t -> SessionLifecycle.t -> Prop :=
| created_with_setup : moves SessionLifecycle.Creating SessionLifecycle.Initializing
| created_without_setup : moves SessionLifecycle.Creating SessionLifecycle.Available
| setup_done : moves SessionLifecycle.Initializing SessionLifecycle.Available
| available_removed : moves SessionLifecycle.Available SessionLifecycle.Deleting
| failed_removed : moves SessionLifecycle.Failed SessionLifecycle.Deleting
| gave_up l : in_progress l = true -> moves l SessionLifecycle.Failed.

Inductive spec_step : lifecycles -> lifecycles -> Prop :=
| spec_create σ id : σ !! id = None -> spec_step σ (<[id := SessionLifecycle.Creating]> σ)
| spec_adopt σ id : σ !! id = None -> spec_step σ (<[id := SessionLifecycle.Failed]> σ)
| spec_move σ id l l' : σ !! id = Some l -> moves l l' -> spec_step σ (<[id := l']> σ)
| spec_remove σ id : σ !! id = Some SessionLifecycle.Deleting -> spec_step σ (delete id σ)
| spec_skip σ : spec_step σ σ.

Definition abstract_rows (ss : list ManagedSession) : lifecycles :=
  list_to_map ((fun x => (ms_session_id x, ms_lifecycle x)) <$> ss).

Definition abstract (s : WorkspaceLifecycleState) : lifecycles := abstract_rows (wl_sessions s).

Lemma abstract_lookup ss id : abstract_rows ss !! id = ms_lifecycle <$> session ss id.
Proof.
  unfold abstract_rows, session. induction ss as [|x ss IH]; [done|].
  rewrite fmap_cons. cbv beta. rewrite list_to_map_cons, lookup_insert, IH.
  cbn [find_first]. unfold at_key at 2. repeat case_decide; simplify_eq.
  - by rewrite bool_decide_true.
  - by rewrite bool_decide_false.
Qed.

Lemma abstract_replaced ss i x y :
  NoDup (ms_session_id <$> ss) -> ss !! i = Some x -> ms_session_id y = ms_session_id x ->
  abstract_rows (<[i := y]> ss) = <[ms_session_id x := ms_lifecycle y]> (abstract_rows ss).
Proof.
  intros Nd Hx E. apply map_eq. intros id. rewrite lookup_insert, !abstract_lookup.
  rewrite (session_replaced _ _ x) by done. case_bool_decide; case_decide; by subst.
Qed.

Lemma abstract_added ss y :
  ms_session_id y ∉ ms_session_id <$> ss ->
  abstract_rows (ss ++ [y]) = <[ms_session_id y := ms_lifecycle y]> (abstract_rows ss).
Proof.
  intros Hy. apply map_eq. intros id. rewrite lookup_insert, !abstract_lookup.
  rewrite session_added by done. case_bool_decide; case_decide; by subst.
Qed.

Lemma abstract_removed ss i x removed continuation :
  NoDup (ms_session_id <$> ss) -> ss !! i = Some x ->
  abstract_rows (delete i (backfill removed continuation <$> ss)) =
  delete (ms_session_id x) (abstract_rows ss).
Proof.
  intros Nd Hx. apply map_eq. intros id. rewrite lookup_delete, !abstract_lookup.
  rewrite (session_removed _ _ x) by done. case_bool_decide; case_decide; subst; try done.
  destruct (session ss id) as [y|]; [|done]. simpl. f_equal.
  apply (backfill_keeps removed continuation y).
Qed.

Lemma abstract_absent ss id : id ∉ ms_session_id <$> ss -> abstract_rows ss !! id = None.
Proof. intros H. rewrite abstract_lookup. by apply fmap_None, kfind_None. Qed.

Lemma abstract_present ss i x :
  NoDup (ms_session_id <$> ss) -> ss !! i = Some x ->
  abstract_rows ss !! ms_session_id x = Some (ms_lifecycle x).
Proof. intros Nd Hx. rewrite abstract_lookup, (session_find _ i x); done. Qed.

Lemma fenced_in_progress s f i j x op :
  inv s -> fenced s f i j x op -> in_progress (ms_lifecycle x) = true.
Proof.
  intros I F. assert (Hx := fenced_session_at _ _ _ _ _ _ F).
  destruct (journal_attached _ _ (inv_journal _ I) x (cf_operation_id f)) as (q & Hq & Eq & Lq).
  - by eapply list_elem_of_lookup_2.
  - apply F.
  - replace q with op in Lq.
    + rewrite (fenced_live _ _ _ _ _ _ F) in Lq. by destruct (in_progress _).
    + apply (keys_inj oj_operation_id (wl_operations s)); [apply (inv_journal _ I)| |done|].
      * eapply list_elem_of_lookup_2, fenced_operation_at, F.
      * rewrite Eq. eapply fenced_id_of, F.
Qed.

Lemma attached_in_progress s i x oid op :
  inv s -> wl_sessions s !! i = Some x -> ms_operation_id x = Some oid ->
  op ∈ wl_operations s -> oj_operation_id op = oid ->
  OperationStatus.terminal (oj_status op) = false -> in_progress (ms_lifecycle x) = true.
Proof.
  intros I Hx Ho Hop E L.
  destruct (journal_attached _ _ (inv_journal _ I) x oid) as (q & Hq & Eq & Lq);
    [by eapply list_elem_of_lookup_2|done|].
  replace q with op in Lq; [rewrite L in Lq; by destruct (in_progress _)|].
  apply (keys_inj oj_operation_id (wl_operations s)); [apply (inv_journal _ I)|done..|congruence].
Qed.

(** C22: The reducer implements the abstract machine: in every well-formed
    state, an accepted event takes the map from sessions to lifecycles along one
    step of the specification, so a session is only ever created as [Creating],
    adopted as [Failed], moved along the table, or removed while it is being
    deleted. *)
Theorem reducer_refines_life_cycle m e now s s' :
  inv s -> admissible m e s -> reduce m e now s = (Ok tt, s') ->
  spec_step (abstract s) (abstract s').
Proof.
  intros I Adm (V & ss & ops & A & ->)%reduce_ok. unfold abstract. cbn [wl_sessions with_rows changed
    set_operations set_sessions]. destruct V as (_ & _ & _ & _ & _ & Nd).
  destruct A as [name failure Hnm Hf|name role parent creator continuation op Hnm Hf
    |f plan i j x op F El|id' op plan i x Hp Hx Hid El|f i j x op F El|f i j x op F El
    |f failure i j x op F|id' oid stage i x Hp Hx Hid Hoid Hno
    |id' oid stage i j x op Hp Hx Hid Hoid Hop Hopx Ht|oid j op Hop Hopx Ht];
    try assert (P := fenced_in_progress _ _ _ _ _ _ I F); try apply fenced_session_at in F.
  - rewrite abstract_added by by apply (fresh_mint_ids m).
    by apply spec_adopt, abstract_absent, (fresh_mint_ids m).
  - destruct Adm as [Adm _]. rewrite abstract_added by by apply (fresh_mint_ids m).
    by apply spec_create, abstract_absent, (fresh_mint_ids m).
  - rewrite (abstract_replaced _ _ x); [|done..|apply created_keeps].
    eapply spec_move; [by eapply abstract_present|]. rewrite El. destruct plan; constructor.
  - rewrite (abstract_replaced _ _ x) by done.
    eapply spec_move; [by eapply abstract_present|]. destruct El as [-> | ->]; constructor.
  - rewrite (abstract_replaced _ _ x) by done.
    eapply spec_move; [by eapply abstract_present|]. rewrite El. constructor.
  - rewrite (abstract_removed _ _ x) by done. apply spec_remove.
    rewrite (abstract_present _ i) by done. by rewrite El.
  - rewrite (abstract_replaced _ _ x) by done.
    eapply spec_move; [by eapply abstract_present|]. by constructor.
  - exfalso. destruct (journal_attached _ _ (inv_journal _ I) x oid) as (q & Hq & Eq & _);
      [by eapply list_elem_of_lookup_2|done|]. apply Hno. rewrite <- Eq. by apply list_elem_of_fmap_2.
  - rewrite (abstract_replaced _ _ x) by done.
    eapply spec_move; [by eapply abstract_present|]. apply gave_up.
    eapply attached_in_progress; [done..|by eapply list_elem_of_lookup_2| |done].
    by eapply kfind_Some, position_first.
  - apply spec_skip.
Qed.

(** ** The repair of legacy failed outcomes *)
Lemma rposition_Some {A} (p : A -> bool) (l : list A) i :
  rposition p l = Some i -> exists x, l !! i = Some x /\ p x = true.
Proof.
  revert i. induction l as [|y l IH]; intros i; simpl; [done|].
  destruct (rposition p l) as [j|].
  - intros [= <-]. destruct (IH j eq_refl) as (x & ? & ?). eauto.
  - destruct (p y) eqn:E; [|done]. intros [= <-]. eauto.
Qed.

Lemma repair_target_Some x s pos :
  repair_target x s = Some pos ->
  ms_lifecycle x = SessionLifecycle.Failed /\
  exists failure op, ms_failure x = Some failure /\ wl_operations s !! pos = Some op /\
    oj_semantic_key op = repair_key failure x /\ oj_status op = OperationStatus.Succeeded.
Proof.
  unfold repair_target. destruct (bool_decide _) eqn:El; [|done]. apply bool_decide_eq_true in El.
  destruct (ms_failure x) as [failure|]; [|done]. cbn [negb mbind option_bind]. intros H.
  split; [done|]. exists failure.
  assert (exists op, wl_operations s !! pos = Some op /\ succeeded_as (repair_key failure x) op = true)
    as (op & Hop & [Ek%bool_decide_eq_true Es%bool_decide_eq_true]%andb_true_iff); [|by exists op].
  destruct (ms_operation_id x ≫= _) as [pos'|] eqn:E.
  - injection H as ->. destruct (ms_operation_id x) as [id|]; [|done]. cbn in E.
    apply position_find in E as (op & Hop & [_ [_ Hp]%andb_true_iff]%find_first_Some). eauto.
  - by apply rposition_Some.
Qed.

(** A succeeded entry that carries the canonical key of a failed session's
    failure, turned into a failed one. *)
Definition rewritten (s : WorkspaceLifecycleState) (q op : OperationJournal) : Prop :=
  op = finished OperationStatus.Failed q /\ oj_status q = OperationStatus.Succeeded /\
  exists y failure, y ∈ wl_sessions s /\ ms_lifecycle y = SessionLifecycle.Failed /\
    ms_failure y = Some failure /\ oj_semantic_key q = repair_key failure y.

(** What the loop has done so far, relative to the state it started from. *)
Record repaired_from (s0 : WorkspaceLifecycleState) (n : nat) (s : WorkspaceLifecycleState)
    : Prop := MkRepaired {
  rep_sessions : forall i x, wl_sessions s !! i = Some x -> exists y o,
    wl_sessions s0 !! i = Some y /\ x = set_ms_operation o y /\
    (ms_lifecycle y <> SessionLifecycle.Failed -> o = ms_operation_id y);
  rep_length : length (wl_sessions s) = length (wl_sessions s0);
  rep_operations : forall i op, wl_operations s !! i = Some op ->
    wl_operations s0 !! i = Some op \/
    (exists q, wl_operations s0 !! i = Some q /\ rewritten s0 q op);
  rep_operations_length : length (wl_operations s) = length (wl_operations s0);
  rep_rest : set_sessions (wl_sessions s0) (set_operations (wl_operations s0) s) = s0;
  rep_none : n = 0 -> s = s0;
}.

Lemma set_ms_operation_id x : set_ms_operation (ms_operation_id x) x = x.
Proof. by destruct x. Qed.

Lemma repaired_refl s : repaired_from s 0 s.
Proof.
  split; try done.
  - intros i x Hx. exists x, (ms_operation_id x). by rewrite set_ms_operation_id.
  - auto.
  - by destruct s.
Qed.

Lemma repair_session_step s0 n s pos n' s' :
  repaired_from s0 n s -> repair_session (n, s) pos = (n', s') -> repaired_from s0 n' s'.
Proof.
  intros R. unfold repair_session. destruct (wl_sessions s !! pos) as [x|] eqn:Hx; [|by intros [= <- <-]].
  cbn [mbind option_bind]. destruct (repair_target x s) as [opos|] eqn:Ht; [|by intros [= <- <-]].
  apply repair_target_Some in Ht as (El & failure & op & Ef & Hop & Ek & Es). rewrite Hop.
  intros [= <- <-]. destruct R as [Rs Rl Ro Rol Rr _].
  destruct (Rs pos x Hx) as (y & o & Hy & -> & _).
  unfold alter_session, alter_operation. rewrite (alter_at _ _ _ _ Hop).
  cbn [wl_sessions set_operations]. rewrite (alter_at _ _ _ _ Hx). split; cbn [wl_sessions
    wl_operations set_sessions set_operations].
  - intros i z [(-> & <- & _)|[_ Hz]]%list_lookup_insert_Some; [|by apply Rs].
    exists y, (Some (oj_operation_id op)). by split_and!.
  - by rewrite length_insert.
  - intros i q [(-> & <- & _)|[_ Hq]]%list_lookup_insert_Some; [right|by apply Ro].
    destruct (Ro i op Hop) as [Hop0|(q & _ & -> & _)]; [|done].
    exists op. do 3 (split; [done|]). exists y, failure. split_and!; try done.
    by eapply list_elem_of_lookup_2.
  - by rewrite length_insert.
  - rewrite <- Rr. by destruct s.
  - done.
Qed.

Lemma repair_loop l s0 n s n' s' :
  repaired_from s0 n s -> foldl repair_session (n, s) l = (n', s') -> repaired_from s0 n' s'.
Proof.
  revert n s. induction l as [|pos l IH]; intros n s R; cbn [foldl]; [by intros [= <- <-]|].
  destruct (repair_session (n, s) pos) as [n1 s1] eqn:E. apply IH. by eapply repair_session_step.
Qed.

(** The repair fails closed.  It changes no session beyond the operation a
    failed one is attached to, so no session becomes available; the only journal
    entries it rewrites succeeded, carry the canonical key of a failed session's
    recorded failure, and become failed; a state with nothing to repair is left
    alone, and one repair advances the revision once. *)
Theorem repair_fails_closed now s n s' :
  repair_legacy_failed_outcomes now s = (n, s') ->
  (forall i x, wl_sessions s' !! i = Some x -> exists y o, wl_sessions s !! i = Some y /\
     x = set_ms_operation o y /\ (ms_lifecycle y <> SessionLifecycle.Failed -> x = y)) /\
  (forall i op, wl_operations s' !! i = Some op -> wl_operations s !! i = Some op \/
     exists q, wl_operations s !! i = Some q /\ rewritten s q op) /\
  (if decide (n = 0) then s' = s else wl_state_revision s' = (wl_state_revision s + 1)%N) /\
  (valid s -> valid s').
Proof.
  unfold repair_legacy_failed_outcomes.
  destruct (foldl _ _ _) as [n1 s1] eqn:E. apply (repair_loop _ s) in E; [|apply repaired_refl].
  destruct E as [Rs Rl Ro Rol Rr Rn]. intros [= <- <-].
  set (s2 := if bool_decide (n1 = 0) then s1 else changed now s1).
  assert (E2 : wl_sessions s2 = wl_sessions s1 /\ wl_operations s2 = wl_operations s1)
    by (unfold s2; by case_bool_decide).
  destruct E2 as [Es Eo]. rewrite Es, Eo. split_and!.
  - intros i x Hx. destruct (Rs i x Hx) as (y & o & Hy & -> & Ho). exists y, o.
    split_and!; [done..|]. intros Hl. by rewrite (Ho Hl), set_ms_operation_id.
  - exact Ro.
  - unfold s2. case_decide; case_bool_decide; try done; [by apply Rn|]. by rewrite <- Rr.
  - assert (Hk : forall (B : Type) (f : ManagedSession -> B),
      (forall o x, f (set_ms_operation o x) = f x) -> f <$> wl_sessions s1 = f <$> wl_sessions s).
    { intros B f Hf. apply list_eq. intros i. rewrite !list_lookup_fmap.
      destruct (wl_sessions s1 !! i) as [x|] eqn:Hx.
      - destruct (Rs i x Hx) as (y & o & -> & -> & _). simpl. by rewrite Hf.
      - apply lookup_ge_None in Hx. rewrite Rl in Hx. apply lookup_ge_None in Hx. by rewrite Hx. }
    intros (F & M & Mi & Hn & Nn & Ni). unfold valid.
    assert (wl_format s2 = wl_format s /\ wl_major s2 = wl_major s /\ wl_minor s2 = wl_minor s)
      as (-> & -> & ->) by (rewrite <- Rr; unfold s2; by case_bool_decide).
    rewrite Es, !Hk by done. split_and!; try done.
    intros x (i & Hi)%list_elem_of_lookup. destruct (Rs i x Hi) as (y & o & Hy & -> & _).
    apply (Hn y). by eapply list_elem_of_lookup_2.
Qed.

(** ** A workspace at work *)
Module LifecycleExample.
Definition workspace := MkWorkspaceId "w".
Definition daemon := MkDaemonGeneration "d1".
Definition op_id (n : string) := MkOperationId n.
Definition journal (n key : string) : OperationJournal :=
  MkOperationJournal (op_id n) daemon OperationStatus.Accepted 1 0 key.
Definition mint (n : string) : Minted := MkMinted (MkSessionId n) (MkWorktreeId n).
Definition fence (sid oid : string) (attempt revision : N) : CompletionFence :=
  MkCompletionFence workspace (Some (MkSessionId sid)) (op_id oid) daemon 1 attempt revision.
Definition talk (n : string) := MkAgentContinuationRef n.
Definition plan : DeletePlan := MkDeletePlan ["/w/a"] false true None false None.
Definition reserve (sid oid name : string) (parent : option SessionId)
    (continuation : option AgentContinuationRef) : step :=
  MkStep (mint sid)
    (LifecycleEvent.ReserveCreate name None parent None continuation
       (journal oid ("create:" +:+ name))) 1%Z.
Definition happen (e : LifecycleEvent.t) : step := MkStep (mint "unused") e 2%Z.
Definition broken := MkFailure FailureStage.Create "branch exists".

(** Session "a" is created and removed; a second session of that name fails. *)
Definition recreated : list step :=
  [reserve "s1" "o1" "a" None (Some (talk "c1"));
   happen (LifecycleEvent.CreateCompleted (fence "s1" "o1" 1 1) None);
   happen (LifecycleEvent.BeginRemove (MkSessionId "s1") (journal "o2" "remove:a") plan);
   happen (LifecycleEvent.Completed (fence "s1" "o2" 2 3));
   reserve "s2" "o3" "a" None None;
   happen (LifecycleEvent.Failed (fence "s2" "o3" 1 5) broken)].
Definition start := new workspace 0%Z.
Definition after_failure := run recreated start.

(** A parent, its child under way and the removal of the parent. *)
Definition family : list step :=
  [reserve "s1" "o1" "lead" None (Some (talk "c1"));
   happen (LifecycleEvent.CreateCompleted (fence "s1" "o1" 1 1) None);
   reserve "s2" "o2" "work" (Some (MkSessionId "s1")) (Some (talk "c2"));
   happen (LifecycleEvent.BeginRemove (MkSessionId "s1") (journal "o3" "remove:lead") plan)].
Definition removing := run family start.
Definition removal := LifecycleEvent.Completed (fence "s1" "o3" 2 4).
Definition removed := snd (reduce (mint "unused") removal 3%Z removing).

Definition statuses (s : WorkspaceLifecycleState) : list (string * OperationStatus.t) :=
  (fun op => (operation_id_text (oj_operation_id op), oj_status op)) <$> wl_operations s.
Definition attachments (s : WorkspaceLifecycleState)
    : list (string * SessionLifecycle.t * option OperationId) :=
  (fun x => (session_id_text (ms_session_id x), ms_lifecycle x, ms_operation_id x)) <$> wl_sessions s.

Lemma recreated_reachable : reachable workspace 0%Z after_failure.
Proof. apply reachable_run; [apply reach_new|]. apply (bool_decide_unpack _). vm_compute. exact I. Qed.

Lemma removing_reachable : reachable workspace 0%Z removing.
Proof. apply reachable_run; [apply reach_new|]. apply (bool_decide_unpack _). vm_compute. exact I. Qed.
End LifecycleExample.
Import LifecycleExample.

(** The repair rewrites a journal no legacy reducer wrote.  From a new
    workspace, create a session, remove it, and let a second creation of the
    same name fail: its own operation is already [Failed].  The repair that runs
    at the next start finds the first creation, which did succeed, by its key,
    turns it into a failure and attaches the failed session to it. *)
Theorem repair_rewrites_an_unrelated_success :
  reachable workspace 0%Z after_failure /\
  attachments after_failure = [("s2", SessionLifecycle.Failed, Some (op_id "o3"))] /\
  statuses after_failure = [("o1", OperationStatus.Succeeded); ("o2", OperationStatus.Succeeded);
                            ("o3", OperationStatus.Failed)] /\
  fst (repair_legacy_failed_outcomes 9%Z after_failure) = 1 /\
  attachments (snd (repair_legacy_failed_outcomes 9%Z after_failure)) =
    [("s2", SessionLifecycle.Failed, Some (op_id "o1"))] /\
  statuses (snd (repair_legacy_failed_outcomes 9%Z after_failure)) =
    [("o1", OperationStatus.Failed); ("o2", OperationStatus.Succeeded);
     ("o3", OperationStatus.Failed)].
Proof. split; [exact recreated_reachable|]. by vm_compute. Qed.

(** ** Witnesses *)
Lemma reachable_states_are_well_formed_witness :
  reachable workspace 0%Z after_failure /\ inv after_failure /\ validate after_failure = Ok tt.
Proof.
  split; [exact recreated_reachable|].
  exact (reachable_states_are_well_formed workspace 0%Z after_failure recreated_reachable).
Defined.

Lemma removing_well_formed : inv removing.
Proof.
  assert (H := removing_reachable). induction H as [|s e _ IH Adm]; [apply inv_new|by apply inv_any_step].
Qed.

Lemma removal_accepted : reduce (mint "unused") removal 3%Z removing = (Ok tt, removed).
Proof. by vm_compute. Qed.

(** The completion of the removal, replayed after a later reservation. *)
Lemma used_fence_is_stale_forever_witness :
  reduce (mint "x") removal 9%Z (run [reserve "s9" "o9" "z" None None] removed) =
  (Err LifecycleError.StaleCompletion, run [reserve "s9" "o9" "z" None None] removed).
Proof.
  refine (used_fence_is_stale_forever (mint "unused") removal 3%Z removing removed
            (fence "s1" "o3" 2 4) _ (mint "x") removal 9%Z (fence "s1" "o3" 2 4)
            removal_accepted eq_refl _ eq_refl eq_refl).
  vm_compute. reflexivity.
Defined.

Lemma terminal_operations_are_final_witness :
  exists op, wl_operations removed !! 0 = Some op /\ oj_status op = OperationStatus.Succeeded.
Proof.
  eexists. split.
  - refine (proj1 (terminal_operations_are_final (mint "unused") removal 3%Z removing removed 0 _
                     removal_accepted _ _)).
    + vm_compute. reflexivity.
    + vm_compute. reflexivity.
  - vm_compute. reflexivity.
Defined.

Definition leaving : ManagedSession :=
  default (adopt_available (mint "none") "none" 0%Z) (wl_sessions removing !! 0).

Lemma sessions_under_way_can_finish_witness :
  exists f s1, reduce (mint "m") (LifecycleEvent.Failed f broken) 5%Z removing = (Ok tt, s1) /\
    lifecycle_of s1 (MkSessionId "s1") = Some SessionLifecycle.Failed.
Proof.
  destruct (sessions_under_way_can_finish removing leaving 5%Z (mint "m") broken)
    as (f & s1 & _ & _ & H & L & _).
  - exact removing_well_formed.
  - apply list_elem_of_lookup. exists 0. vm_compute. reflexivity.
  - vm_compute. reflexivity.
  - exists f, s1. split; [exact H|exact L].
Defined.

Lemma membership_survives_every_event_witness :
  member_of (wl_sessions removed) (MkSessionId "s2") (talk "c1")
  /\ director_continuation removing (MkSessionId "s2") = Some (talk "c1")
  /\ session (wl_sessions removed) (MkSessionId "s1") = None.
Proof.
  split.
  - refine (proj2 (proj1 (membership_survives_every_event (mint "unused") removal 3%Z removing removed
                     (MkSessionId "s2") I removal_accepted _ _) (talk "c1")) _).
    + vm_compute. eexists. reflexivity.
    + vm_compute. eexists. reflexivity.
    + apply director_of_spec. vm_compute. reflexivity.
  - split; vm_compute; reflexivity.
Defined.

Lemma reducer_refines_life_cycle_witness :
  spec_step (abstract removing) (abstract removed) /\
  abstract removed !! MkSessionId "s1" = None.
Proof.
  split.
  - exact (reducer_refines_life_cycle (mint "unused") removal 3%Z removing removed
             removing_well_formed I removal_accepted).
  - vm_compute. reflexivity.
Defined.

Lemma repair_fails_closed_witness :
  valid (snd (repair_legacy_failed_outcomes 9%Z after_failure)).
Proof.
  destruct (repair_legacy_failed_outcomes 9%Z after_failure) as [n s'] eqn:E.
  refine (proj2 (proj2 (proj2 (repair_fails_closed 9%Z after_failure n s' E))) _).
  apply validate_ok. vm_compute. reflexivity.
Defined.
