(* ===== verification/Frontmatter.v ===== *)
(** * Frontmatter documents
    ([crates/core/src/domain/frontmatter.rs])

    The line-based envelope shared by issues and memories, the list escaping and
    the slugs.  A text is its list of Unicode scalar values; [str::trim] removes
    the characters with the property [White_Space]. *)
From S2P Require Export Prelude.

Notation char := N (only parsing).
Notation text := (list N) (only parsing).

(** A literal of the source. *)
Definition txt (s : string) : text := Ascii.N_of_ascii <$> String.list_ascii_of_string s.

Definition NL : char := 10%N.
Definition CR : char := 13%N.
Definition SP : char := 32%N.
Definition PLUS : char := 43%N.
Definition COMMA : char := 44%N.
Definition HYPHEN : char := 45%N.
Definition COLON : char := 58%N.
Definition LBRACKET : char := 91%N.
Definition BACKSLASH : char := 92%N.
Definition RBRACKET : char := 93%N.
Definition LOWER_S : char := 115%N.

(** [char::is_whitespace] *)
Definition is_whitespace (c : char) : bool :=
  ((9 <=? c) && (c <=? 13) || (c =? 32) || (c =? 133) || (c =? 160) || (c =? 5760) ||
   (8192 <=? c) && (c <=? 8202) || (c =? 8232) || (c =? 8233) || (c =? 8239) || (c =? 8287) ||
   (c =? 12288))%N%bool.

Definition is_char (k c : char) : bool := (c =? k)%N.
Definition is_newline (c : char) : bool := is_char NL c || is_char CR c.

(** *** [str] methods *)
Fixpoint trim_start_matches (p : char -> bool) (t : text) : text :=
  match t with
  | [] => []
  | c :: t' => if p c then trim_start_matches p t' else t
  end.
Definition trim_end_matches (p : char -> bool) (t : text) : text :=
  reverse (trim_start_matches p (reverse t)).
Definition trim_matches (p : char -> bool) (t : text) : text :=
  trim_end_matches p (trim_start_matches p t).
Definition trim (t : text) : text := trim_matches is_whitespace t.

Definition strip_prefix_char (k : char) (t : text) : option text :=
  match t with c :: t => if is_char k c then Some t else None | [] => None end.
Definition strip_suffix_char (k : char) (t : text) : option text :=
  reverse <$> strip_prefix_char k (reverse t).

Fixpoint strip_prefix (prefix t : text) : option text :=
  match prefix, t with
  | [], t => Some t
  | k :: prefix, c :: t => if is_char k c then strip_prefix prefix t else None
  | _ :: _, [] => None
  end.

Fixpoint split_once (k : char) (t : text) : option (text * text) :=
  match t with
  | [] => None
  | c :: t =>
      if is_char k c then Some ([], t)
      else '(before, after) ← split_once k t ; Some (c :: before, after)
  end.

(** [str::split_inclusive('\n')] *)
Fixpoint split_inclusive (t : text) : list text :=
  match t with
  | [] => []
  | c :: t =>
      if is_char NL c then [c] :: split_inclusive t
      else match split_inclusive t with
           | [] => [[c]]
           | line :: lines => (c :: line) :: lines
           end
  end.

(** [str::lines] *)
Definition strip_line_end (line : text) : text :=
  match strip_suffix_char NL line with
  | None => line
  | Some line => default line (strip_suffix_char CR line)
  end.
Definition lines (t : text) : list text := strip_line_end <$> split_inclusive t.

Definition is_empty (t : text) : bool := match t with [] => true | _ => false end.

(** *** Slugs *)
Definition is_ascii_alphanumeric (c : char) : bool :=
  ((48 <=? c) && (c <=? 57) || (65 <=? c) && (c <=? 90) || (97 <=? c) && (c <=? 122))%N%bool.
Definition to_ascii_lowercase (c : char) : char :=
  if ((65 <=? c) && (c <=? 90))%N%bool then (c + 32)%N else c.

Fixpoint slug_chars (prev_dash : bool) (t : text) : text :=
  match t with
  | [] => []
  | c :: t =>
      if is_ascii_alphanumeric c then to_ascii_lowercase c :: slug_chars false t
      else if negb prev_dash then HYPHEN :: slug_chars true t
      else slug_chars prev_dash t
  end.

Definition slugify (t fallback : text) : text :=
  let trimmed := trim_matches (is_char HYPHEN) (slug_chars false t) in
  if is_empty trimmed then fallback else trimmed.

(** *** Lists *)
Definition inline (value : text) : text :=
  (fun c => if is_newline c then SP else c) <$> value.

Definition is_structural (c : char) : bool :=
  is_char BACKSLASH c || is_char COMMA c || is_char LBRACKET c || is_char RBRACKET c.

Definition escaped_space : text := [BACKSLASH; LOWER_S].
Definition escape_char (c : char) : text := if is_structural c then [BACKSLASH; c] else [c].

Definition escape_list_item (item : text) : text :=
  let after_leading := trim_start_matches (is_char SP) item in
  let core := trim_end_matches (is_char SP) after_leading in
  let leading := length item - length after_leading in
  let trailing := length after_leading - length core in
  mjoin (replicate leading escaped_space) ++ mjoin (escape_char <$> core) ++
  mjoin (replicate trailing escaped_space).

Fixpoint join (separator : text) (items : list text) : text :=
  match items with
  | [] => []
  | [item] => item
  | item :: items => item ++ separator ++ join separator items
  end.

Definition list_separator : text := [COMMA; SP].

Definition format_string_list (items : list text) : text :=
  [LBRACKET] ++ join list_separator ((fun s => escape_list_item (inline s)) <$> items) ++
  [RBRACKET].

(** [current] is [inner[start..idx]]. *)
Fixpoint split_escaped_list (current inner : text) : list text :=
  match inner with
  | [] => [current]
  | c :: inner' =>
      if is_char BACKSLASH c then
        match inner' with
        | [] => [current ++ [c]]
        | d :: inner'' => split_escaped_list (current ++ [c; d]) inner''
        end
      else if is_char COMMA c then current :: split_escaped_list [] inner'
      else split_escaped_list (current ++ [c]) inner'
  end.

Fixpoint unescape_list_item (item : text) : text :=
  match item with
  | [] => []
  | c :: item' =>
      if is_char BACKSLASH c then
        match item' with
        | d :: item'' =>
            if is_structural d then d :: unescape_list_item item''
            else if is_char LOWER_S d then SP :: unescape_list_item item''
            else c :: unescape_list_item item'
        | [] => c :: unescape_list_item item'
        end
      else c :: unescape_list_item item'
  end.

Definition parse_string_list (value : text) : list text :=
  let inner := default value (strip_prefix_char LBRACKET value ≫= strip_suffix_char RBRACKET) in
  retain (fun s => negb (is_empty s))
    ((fun s => unescape_list_item (trim s)) <$> split_escaped_list [] inner).

(** *** The envelope *)
Inductive ParseFrontmatterError : Type :=
| MissingClosing
| InvalidTimestamp (value : text)
| MissingOpening
| InvalidLine (line : text).

Definition FENCE : text := txt "---".

Definition is_closing (line : text) : bool :=
  bool_decide (trim_end_matches (is_char CR) (trim_end_matches (is_char NL) line) = FENCE).

(** The loop of [split_frontmatter]: [front] is [rest[..offset]]. *)
Fixpoint split_at_closing (front : text) (lines : list text)
    : result ParseFrontmatterError (text * text) :=
  match lines with
  | [] => Err MissingClosing
  | line :: lines =>
      if is_closing line then Ok (front, mjoin lines)
      else split_at_closing (front ++ line) lines
  end.

Definition split_frontmatter (rest : text) : result ParseFrontmatterError (text * text) :=
  split_at_closing [] (split_inclusive rest).

(** [fields] is what [write_fields] appended. *)
Definition to_markdown (body fields : text) : text :=
  FENCE ++ [NL] ++ fields ++ FENCE ++ [NL; NL] ++ trim_end_matches (is_char NL) body ++ [NL].

Section from_markdown.
Context {E D : Type} (from : ParseFrontmatterError -> E)
  (dispatch : text -> text -> text -> D -> result E D).

(** The loop over the lines; [dispatch] carries the fields it assigns. *)
Fixpoint dispatch_lines (ls : list text) (d : D) : result E D :=
  match ls with
  | [] => Ok d
  | line :: ls =>
      if is_empty (trim line) then dispatch_lines ls d
      else
        match split_once COLON line with
        | None => Err (from (InvalidLine line))
        | Some (key, value) =>
            let text_value := default value (strip_prefix_char SP value) in
            d <-? dispatch (trim key) (trim value) text_value d ;;
            dispatch_lines ls d
        end
  end.

Definition strip_opening (t : text) : option text :=
  match strip_prefix (FENCE ++ [NL]) t with
  | Some rest => Some rest
  | None => strip_prefix (FENCE ++ [CR; NL]) t
  end.

Definition from_markdown (t : text) (d : D) : result E (D * text) :=
  match strip_opening t with
  | None => Err (from MissingOpening)
  | Some rest =>
      match split_frontmatter rest with
      | Err e => Err (from e)
      | Ok (frontmatter, body) =>
          d <-? dispatch_lines (lines frontmatter) d ;;
          Ok (d, trim_end_matches is_newline (trim_start_matches is_newline body))
      end
  end.
End from_markdown.

(** *** Numbers: [u32]'s [Display] and [FromStr] *)
Definition U32_MAX : N := 4294967295.
Definition digit (n : N) : char := (48 + n)%N.

Fixpoint print_digits (fuel : nat) (n : N) (acc : text) : text :=
  match fuel with
  | 0 => acc
  | S fuel =>
      if (n <? 10)%N then digit n :: acc
      else print_digits fuel (n / 10) (digit (n mod 10) :: acc)
  end.
(** A [u32] has at most ten digits. *)
Definition print_u32 (n : N) : text := print_digits 10 n [].

(** [FromStr] of the unsigned type with the maximum [max]: an optional plus sign
    and at least one digit; a number past the maximum is an error. *)
Fixpoint parse_digits (max : N) (t : text) (n : N) : option N :=
  match t with
  | [] => Some n
  | c :: t =>
      if ((48 <=? c) && (c <=? 57))%N%bool then
        let n := (n * 10 + (c - 48))%N in
        if (n <=? max)%N then parse_digits max t n else None
      else None
  end.

Definition parse_uint (max : N) (t : text) : option N :=
  let digits := default t (strip_prefix_char PLUS t) in
  if is_empty digits then None else parse_digits max digits 0.

Definition parse_u32 (t : text) : option N := parse_uint U32_MAX t.

(** *** Entities: [ParseError], [str_enum!] and [parse_timestamp] *)
Inductive ParseError : Type :=
| Envelope (error : ParseFrontmatterError)
| Invalid (noun : string) (value : text)
| Missing (field : string).

(** The table of a [str_enum!]: the variants with their tokens. *)
Definition as_str {A} (table : list (A * string)) `{EqDecision A} (a : A) : text :=
  from_option (fun row => txt row.2) [] (find_first (fun row => bool_decide (row.1 = a)) table).
Definition from_str {A} (table : list (A * string)) (noun : string) (s : text)
    : result ParseError A :=
  match find_first (fun row => bool_decide (txt row.2 = trim s)) table with
  | Some row => Ok row.1
  | None => Err (Invalid noun (trim s))
  end.

(** [chrono]: the instants, their RFC 3339 text and its parser. *)
Class Chrono := {
  DateTime : Type;
  to_rfc3339 : DateTime -> text;
  parse_from_rfc3339 : text -> option DateTime
}.

(** What the documents rely on: an instant of a four digit year is read back
    from its text, which has no white space. *)
Class ChronoLaws (C : Chrono) := {
  four_digit_year : DateTime -> Prop;
  parse_to_rfc3339 t : four_digit_year t -> parse_from_rfc3339 (to_rfc3339 t) = Some t;
  to_rfc3339_plain t : four_digit_year t -> forallb (fun c => negb (is_whitespace c)) (to_rfc3339 t) = true
}.

Definition parse_timestamp `{Chrono} (value : text) : result ParseError DateTime :=
  ok_or (parse_from_rfc3339 value) (Envelope (InvalidTimestamp value)).

(** ** Laws of the text operations *)
Section trimming.
Context (p : char -> bool).

Lemma trim_start_app t u :
  forallb p t = true -> trim_start_matches p (t ++ u) = trim_start_matches p u.
Proof.
  induction t as [|c t IH]; simpl; [done|]. intros [-> H]%andb_true_iff. by apply IH.
Qed.

Lemma trim_start_stop c t : p c = false -> trim_start_matches p (c :: t) = c :: t.
Proof. simpl. by intros ->. Qed.

Lemma trim_start_spec t :
  exists u, t = u ++ trim_start_matches p t /\ forallb p u = true /\
    (forall c v, trim_start_matches p t = c :: v -> p c = false).
Proof.
  induction t as [|c t (u & E & H & Hs)]; simpl; [by exists []|].
  destruct (p c) eqn:Ec.
  - exists (c :: u). simpl. rewrite Ec, H. split_and!; [by rewrite E at 1|done|done].
  - exists []. split_and!; [done..|]. by intros ?? [= <- <-].
Qed.

Lemma trim_start_idemp t : trim_start_matches p (trim_start_matches p t) = trim_start_matches p t.
Proof.
  destruct (trim_start_spec t) as (u & _ & _ & Hs).
  destruct (trim_start_matches p t) as [|c v]; [done|]. by apply trim_start_stop, (Hs c v).
Qed.

Lemma trim_end_snoc t c : p c = true -> trim_end_matches p (t ++ [c]) = trim_end_matches p t.
Proof. unfold trim_end_matches. rewrite reverse_app. simpl. by intros ->. Qed.

Lemma trim_end_stop t c : p c = false -> trim_end_matches p (t ++ [c]) = t ++ [c].
Proof.
  unfold trim_end_matches. rewrite reverse_app. simpl. intros ->.
  rewrite reverse_cons, reverse_involutive. done.
Qed.

Lemma trim_end_nil : trim_end_matches p [] = [].
Proof. done. Qed.

Lemma trim_end_none t : forallb (fun c => negb (p c)) t = true -> trim_end_matches p t = t.
Proof.
  induction t as [|c t _] using rev_ind; [done|]. rewrite forallb_app. simpl.
  intros [_ Hc]%andb_true_iff. apply trim_end_stop. by destruct (p c).
Qed.

Lemma trim_start_none t : forallb (fun c => negb (p c)) t = true -> trim_start_matches p t = t.
Proof. destruct t as [|c t]; simpl; [done|]. by destruct (p c). Qed.

Lemma trim_end_app_stop t u :
  (forall v c, u = v ++ [c] -> p c = false) -> u <> [] -> trim_end_matches p (t ++ u) = t ++ u.
Proof.
  intros H Hu. destruct u as [|c u _] using rev_ind; [done|].
  rewrite (assoc_L (++)). apply trim_end_stop. by apply (H u).
Qed.
End trimming.

(** No character of the text satisfies [p]. *)
Definition free (p : char -> bool) (t : text) : bool := forallb (fun c => negb (p c)) t.

Lemma free_app p t u : free p (t ++ u) = free p t && free p u.
Proof. apply forallb_app. Qed.

Lemma free_elem p t c : free p t = true -> c ∈ t -> p c = false.
Proof.
  unfold free. rewrite forallb_forall. intros H Hc. apply list_elem_of_In, H in Hc. by destruct (p c).
Qed.

Lemma split_inclusive_line l t :
  free (is_char NL) l = true -> split_inclusive (l ++ NL :: t) = (l ++ [NL]) :: split_inclusive t.
Proof.
  induction l as [|c l IH]; simpl; [done|]. intros [Hc Hl]%andb_true_iff.
  apply negb_true_iff in Hc. rewrite Hc, (IH Hl). done.
Qed.

Lemma split_inclusive_lines ls t :
  Forall (fun l => free (is_char NL) l = true) ls ->
  split_inclusive (mjoin ((fun l => l ++ [NL]) <$> ls) ++ t) =
  ((fun l => l ++ [NL]) <$> ls) ++ split_inclusive t.
Proof.
  induction 1 as [|l ls Hl _ IH]; [done|]. rewrite fmap_cons. cbn [mjoin list_join app].
  rewrite <- !(assoc_L (++)). cbn [app]. rewrite split_inclusive_line by done. f_equal. exact IH.
Qed.

Lemma mjoin_split_inclusive t : mjoin (split_inclusive t) = t.
Proof.
  induction t as [|c t IH]; [done|]. simpl. destruct (is_char NL c).
  - simpl. by rewrite IH.
  - destruct (split_inclusive t) as [|line ls]; simpl in *; by rewrite <- IH.
Qed.

Lemma strip_suffix_snoc k t : strip_suffix_char k (t ++ [k]) = Some t.
Proof.
  unfold strip_suffix_char. rewrite reverse_app. simpl. unfold is_char. rewrite N.eqb_refl.
  simpl. by rewrite reverse_involutive.
Qed.

Lemma strip_suffix_none k t : free (is_char k) t = true -> strip_suffix_char k t = None.
Proof.
  unfold strip_suffix_char. destruct t as [|c t _] using rev_ind; [done|].
  rewrite free_app. simpl. rewrite andb_true_r. intros [_ Hc%negb_true_iff]%andb_true_iff.
  rewrite reverse_app. simpl. by rewrite Hc.
Qed.

Lemma strip_line_end_line l :
  free is_newline l = true -> strip_line_end (l ++ [NL]) = l.
Proof.
  intros H. unfold strip_line_end. rewrite strip_suffix_snoc, strip_suffix_none; [done|].
  revert H. unfold free. rewrite !forallb_forall. intros H c Hc. specialize (H c Hc).
  unfold is_newline in H. by destruct (is_char CR c); rewrite ?orb_true_r in H.
Qed.

Lemma free_weaken p q t :
  (forall c, q c = true -> p c = true) -> free p t = true -> free q t = true.
Proof.
  intros Hpq. unfold free. rewrite !forallb_forall. intros H c Hc. specialize (H c Hc).
  destruct (q c) eqn:E; [|done]. by rewrite (Hpq c E) in H.
Qed.

Lemma newline_whitespace c : is_newline c = true -> is_whitespace c = true.
Proof.
  unfold is_newline, is_char, NL, CR. rewrite orb_true_iff, !N.eqb_eq. by intros [-> | ->].
Qed.

Lemma inline_cons c t : inline (c :: t) = (if is_newline c then SP else c) :: inline t.
Proof. done. Qed.

Lemma inline_free t : free is_newline (inline t) = true.
Proof.
  induction t as [|c t IH]; [done|]. rewrite inline_cons. unfold free in *. cbn [forallb].
  rewrite IH, andb_true_r. by destruct (is_newline c) eqn:E; rewrite ?E.
Qed.

Lemma inline_id t : free is_newline t = true -> inline t = t.
Proof.
  induction t as [|c t IH]; [done|]. intros [Hc Ht]%andb_true_iff.
  rewrite inline_cons, (IH Ht). by destruct (is_newline c).
Qed.

Lemma inline_idemp t : inline (inline t) = inline t.
Proof. apply inline_id, inline_free. Qed.

(** ** Lists: what the format keeps of an item *)

(** An item that starts (ends) with a white space other than a space loses it,
    and everything that is white after (before) it. *)
Definition kept_item (item : text) : text :=
  let after_leading := trim_start_matches (is_char SP) item in
  let core := trim_end_matches (is_char SP) after_leading in
  let leading := length item - length after_leading in
  let trailing := length after_leading - length core in
  let core := if leading =? 0 then trim_start_matches is_whitespace core else core in
  let core := if trailing =? 0 then trim_end_matches is_whitespace core else core in
  replicate leading SP ++ core ++ replicate trailing SP.

Definition spaces (n : nat) : text := mjoin (replicate n escaped_space).
Definition escape (t : text) : text := mjoin (escape_char <$> t).

Lemma escape_app t u : escape (t ++ u) = escape t ++ escape u.
Proof. unfold escape. by rewrite fmap_app, join_app. Qed.

Lemma escape_cons c t : escape (c :: t) = escape_char c ++ escape t.
Proof. done. Qed.

Lemma spaces_S n : spaces (S n) = BACKSLASH :: LOWER_S :: spaces n.
Proof. done. Qed.

Lemma structural_not_white c : is_structural c = true -> is_whitespace c = false.
Proof.
  unfold is_structural, is_char, BACKSLASH, COMMA, LBRACKET, RBRACKET.
  rewrite !orb_true_iff, !N.eqb_eq. by intros [[[-> | ->]| ->]| ->].
Qed.

Lemma escape_white c : is_whitespace c = true -> escape_char c = [c].
Proof.
  intros H. unfold escape_char. destruct (is_structural c) eqn:E; [|done].
  apply structural_not_white in E. congruence.
Qed.

(** Trimming an escaped item trims the item. *)
Lemma trim_start_escape t u :
  (forall c v, u = c :: v -> is_whitespace c = false) ->
  trim_start_matches is_whitespace (escape t ++ u) =
  escape (trim_start_matches is_whitespace t) ++ u.
Proof.
  intros Hu. induction t as [|c t IH].
  - cbn. destruct u as [|c v]; [done|]. by apply trim_start_stop, (Hu c v).
  - rewrite escape_cons. destruct (is_whitespace c) eqn:E.
    + rewrite escape_white by done. cbn [app trim_start_matches]. by rewrite E.
    + cbn [trim_start_matches]. rewrite E. unfold escape_char. destruct (is_structural c) eqn:Es.
      * cbn [app]. rewrite trim_start_stop by done. by rewrite escape_cons; unfold escape_char; rewrite Es.
      * cbn [app]. rewrite trim_start_stop by done. by rewrite escape_cons; unfold escape_char; rewrite Es.
Qed.

Lemma trim_end_escape t u :
  (forall c v, u = v ++ [c] -> is_whitespace c = false) ->
  trim_end_matches is_whitespace (u ++ escape t) =
  u ++ escape (trim_end_matches is_whitespace t).
Proof.
  intros Hu. induction t as [|c t IH] using rev_ind.
  - cbn. rewrite !app_nil_r. destruct u as [|c v _] using rev_ind; [done|].
    by apply trim_end_stop, (Hu c v).
  - rewrite escape_app, escape_cons. cbn [escape mjoin list_join fmap list_fmap]. rewrite app_nil_r.
    destruct (is_whitespace c) eqn:E.
    + rewrite escape_white by done. rewrite (assoc_L (++)), !trim_end_snoc by done. exact IH.
    + rewrite (trim_end_stop _ t c) by done. rewrite escape_app, escape_cons.
      cbn [escape mjoin list_join fmap list_fmap]. rewrite app_nil_r. unfold escape_char.
      destruct (is_structural c); rewrite (assoc_L (++)).
      * replace (u ++ escape t ++ [BACKSLASH; c]) with ((u ++ escape t ++ [BACKSLASH]) ++ [c])
          by by rewrite <- !(assoc_L (++)).
        rewrite <- (assoc_L (++)). cbn [app].
        replace (u ++ escape t ++ [BACKSLASH; c]) with ((u ++ escape t ++ [BACKSLASH]) ++ [c])
          by by rewrite <- !(assoc_L (++)).
        by apply trim_end_stop.
      * by rewrite trim_end_stop by done.
Qed.

Lemma unescape_escape_app t u :
  unescape_list_item (escape t ++ u) = t ++ unescape_list_item u.
Proof.
  induction t as [|c t IH]; [done|]. rewrite escape_cons, <- (assoc_L (++)).
  unfold escape_char. destruct (is_structural c) eqn:Es; cbn [app unescape_list_item].
  - rewrite Es. cbn. by rewrite IH.
  - assert (Eb : is_char BACKSLASH c = false)
      by (unfold is_structural in Es; by destruct (is_char BACKSLASH c)).
    rewrite Eb. by rewrite IH.
Qed.

Lemma unescape_escape t : unescape_list_item (escape t) = t.
Proof.
  assert (H := unescape_escape_app t []). rewrite !app_nil_r in H. done.
Qed.

Lemma unescape_spaces_app n u :
  unescape_list_item (spaces n ++ u) = replicate n SP ++ unescape_list_item u.
Proof. induction n as [|n IH]; [done|]. rewrite spaces_S. cbn. by rewrite <- IH. Qed.

(** An escaped text holds no delimiter and no dangling backslash. *)
Inductive closed : text -> Prop :=
| closed_nil : closed []
| closed_pair c t : closed t -> closed (BACKSLASH :: c :: t)
| closed_char c t :
    is_char BACKSLASH c = false -> is_char COMMA c = false -> closed t -> closed (c :: t).

Lemma closed_app t u : closed t -> closed u -> closed (t ++ u).
Proof. induction 1; simpl; [done|..]; intros; by constructor; auto. Qed.

Lemma closed_spaces n : closed (spaces n).
Proof. induction n as [|n IH]; [constructor|]. rewrite spaces_S. by constructor. Qed.

Lemma closed_escape t : closed (escape t).
Proof.
  induction t as [|c t IH]; [constructor|]. rewrite escape_cons. unfold escape_char.
  destruct (is_structural c) eqn:Es; cbn [app]; [by constructor|].
  unfold is_structural in Es. by constructor; destruct (is_char BACKSLASH c), (is_char COMMA c).
Qed.

Lemma split_closed t rest current :
  closed t -> split_escaped_list current (t ++ rest) = split_escaped_list (current ++ t) rest.
Proof.
  intros H. revert current. induction H as [|c t _ IH|c t Hb Hc _ IH]; intros current; cbn [app].
  - by rewrite app_nil_r.
  - cbn [split_escaped_list]. cbn. rewrite IH. by rewrite <- (assoc_L (++)).
  - cbn [split_escaped_list]. rewrite Hb, Hc, IH. by rewrite <- (assoc_L (++)).
Qed.

Lemma split_comma rest current :
  split_escaped_list current (COMMA :: rest) = current :: split_escaped_list [] rest.
Proof. done. Qed.

(** The parts of a joined list: all but the first carry the cosmetic space. *)
Lemma split_join e es :
  closed e -> Forall closed es ->
  split_escaped_list [] (join list_separator (e :: es)) = e :: ((fun e => SP :: e) <$> es).
Proof.
  intros He Hes. assert (H : forall current, split_escaped_list current (join list_separator (e :: es)) =
    (current ++ e) :: ((fun e => SP :: e) <$> es)); [|apply H].
  revert e He. induction Hes as [|e' es He' _ IH]; intros e He current; cbn [join].
  - rewrite <- (app_nil_r e) at 1. by rewrite split_closed.
  - rewrite split_closed by done. unfold list_separator at 1. cbn [app]. rewrite split_comma. f_equal.
    cbn [split_escaped_list]. cbn [is_char]. 
    change (split_escaped_list ([] ++ [SP]) (join list_separator (e' :: es)) =
      ((fun e => SP :: e) <$> e' :: es)). by rewrite IH.
Qed.

Lemma escape_list_item_eq item :
  let after_leading := trim_start_matches (is_char SP) item in
  let core := trim_end_matches (is_char SP) after_leading in
  escape_list_item item =
    spaces (length item - length after_leading) ++ escape core ++
    spaces (length after_leading - length core).
Proof. done. Qed.

Lemma spaces_head n c v : spaces n = c :: v -> is_whitespace c = false.
Proof. destruct n; [done|]. rewrite spaces_S. by intros [= <- _]. Qed.

Lemma spaces_last n c v : spaces n = v ++ [c] -> is_whitespace c = false.
Proof.
  destruct n as [|n]; [by destruct v|]. revert v. induction n as [|n IH]; intros v.
  - destruct v as [|a [|b [|d v]]]; try done. by intros [= _ <-].
  - rewrite spaces_S. destruct v as [|a [|b v]]; try done. intros [= _ _ E]. by apply (IH v).
Qed.

Lemma spaces_nonempty n : n <> 0 -> spaces n <> [].
Proof. destruct n; [done|]. by rewrite spaces_S. Qed.

Lemma trim_trim t : trim (SP :: t) = trim t.
Proof. done. Qed.

(** Reading an item back gives what the format keeps of it. *)
Lemma read_item item : unescape_list_item (trim (escape_list_item item)) = kept_item item.
Proof.
  rewrite escape_list_item_eq. unfold kept_item.
  set (after := trim_start_matches (is_char SP) item).
  set (core := trim_end_matches (is_char SP) after).
  set (leading := length item - length after). set (trailing := length after - length core).
  unfold trim, trim_matches.
  set (core1 := if leading =? 0 then trim_start_matches is_whitespace core else core).
  assert (E1 : trim_start_matches is_whitespace (spaces leading ++ escape core ++ spaces trailing) =
               spaces leading ++ escape core1 ++ spaces trailing).
  { unfold core1. destruct leading as [|n]; cbn [Nat.eqb].
    - cbn [spaces replicate mjoin list_join app]. apply trim_start_escape. apply spaces_head.
    - rewrite spaces_S. cbn [app]. by apply trim_start_stop. }
  rewrite E1. clear E1.
  assert (E2 : trim_end_matches is_whitespace (spaces leading ++ escape core1 ++ spaces trailing) =
    spaces leading ++ escape (if trailing =? 0 then trim_end_matches is_whitespace core1 else core1)
      ++ spaces trailing).
  { destruct trailing as [|n]; cbn [Nat.eqb].
    - cbn [spaces replicate mjoin list_join]. rewrite !app_nil_r.
      apply trim_end_escape. intros c v. apply spaces_last.
    - rewrite !(assoc_L (++)). apply trim_end_app_stop; [|by apply spaces_nonempty].
      intros v c. apply spaces_last. }
  rewrite E2, unescape_spaces_app, unescape_escape_app. f_equal. f_equal.
  assert (H := unescape_spaces_app trailing []). rewrite !app_nil_r in H. exact H.
Qed.

Definition kept_items (items : list text) : list text :=
  retain (fun s => negb (is_empty s)) ((fun s => kept_item (inline s)) <$> items).

Lemma parse_format_string_list items :
  parse_string_list (format_string_list items) = kept_items items.
Proof.
  unfold parse_string_list, format_string_list, kept_items. cbn [app].
  change (strip_prefix_char LBRACKET (LBRACKET :: ?t)) with (Some t).
  cbn [mbind option_bind]. rewrite strip_suffix_snoc. cbn [default from_option id].
  destruct items as [|item items]; [done|]. rewrite fmap_cons.
  rewrite split_join.
  - rewrite !fmap_cons. rewrite read_item. f_equal. f_equal. rewrite <- !list_fmap_compose.
    apply list_fmap_ext. intros i s _. cbn [compose]. rewrite trim_trim. apply read_item.
  - rewrite escape_list_item_eq. auto using closed_app, closed_spaces, closed_escape.
  - apply Forall_fmap, Forall_true. intros s. cbn. rewrite escape_list_item_eq.
    auto using closed_app, closed_spaces, closed_escape.
Qed.

(** *** Items the format keeps exactly *)
Definition edge_ok (c : char) : bool := is_char SP c || negb (is_whitespace c).
Definition clean_item (item : text) : bool :=
  match item, reverse item with
  | first :: _, last :: _ => edge_ok first && edge_ok last && free is_newline item
  | _, _ => false
  end.

Lemma trim_start_replicate k t :
  t = replicate (length t - length (trim_start_matches (is_char k) t)) k ++
      trim_start_matches (is_char k) t.
Proof.
  destruct (trim_start_spec (is_char k) t) as (u & E & Hu & _).
  rewrite E at 2. rewrite length_app, Nat.add_sub, E at 1. f_equal.
  clear E. induction u as [|c u IH]; [done|]. simpl in *.
  apply andb_true_iff in Hu as [Hc Hu]. apply N.eqb_eq in Hc as ->. f_equal. auto.
Qed.

Lemma trim_end_replicate k t :
  t = trim_end_matches (is_char k) t ++
      replicate (length t - length (trim_end_matches (is_char k) t)) k.
Proof.
  unfold trim_end_matches. rewrite length_reverse, <- (length_reverse t) at 1.
  rewrite <- (reverse_involutive t) at 1. rewrite (trim_start_replicate k (reverse t)) at 1.
  rewrite reverse_app, reverse_replicate. done.
Qed.

Lemma clean_kept item : clean_item item = true -> kept_item item = item.
Proof.
  unfold clean_item. destruct item as [|first item'] eqn:Ei; [done|]. rewrite <- Ei.
  destruct (reverse item) as [|last ritem] eqn:Er; [done|].
  intros [[Hf Hl]%andb_true_iff _]%andb_true_iff. unfold kept_item.
  set (after := trim_start_matches (is_char SP) item).
  set (core := trim_end_matches (is_char SP) after).
  set (leading := length item - length after). set (trailing := length after - length core).
  assert (E1 : item = replicate leading SP ++ after) by apply trim_start_replicate.
  assert (E2 : after = core ++ replicate trailing SP) by apply trim_end_replicate.
  assert (H1 : (if leading =? 0 then trim_start_matches is_whitespace core else core) = core).
  { destruct (leading =? 0) eqn:El; [|done]. apply Nat.eqb_eq in El. rewrite El in E1.
    destruct core as [|c core'] eqn:Ec; [done|]. apply trim_start_stop.
    rewrite E2 in E1. cbn in E1. rewrite Ei in E1. injection E1 as -> _.
    destruct (trim_start_spec (is_char SP) item) as (u & _ & _ & Hs). fold after in Hs.
    specialize (Hs c (core' ++ replicate trailing SP)). unfold edge_ok in Hf.
    rewrite E2 in Hs. specialize (Hs eq_refl). rewrite Hs in Hf. cbn in Hf. by apply negb_true_iff. }
  rewrite H1.
  assert (H2 : (if trailing =? 0 then trim_end_matches is_whitespace core else core) = core).
  { destruct (trailing =? 0) eqn:El; [|done]. apply Nat.eqb_eq in El. rewrite El in E2.
    cbn in E2. rewrite app_nil_r in E2.
    destruct core as [|c core' _] eqn:Ec using rev_ind; [done|]. apply trim_end_stop.
    rewrite E1, E2, reverse_app, reverse_snoc in Er. injection Er as -> _.
    assert (Hc : is_char SP last = false).
    { destruct (is_char SP last) eqn:E; [|done]. exfalso.
      assert (Hx : trim_end_matches (is_char SP) (core' ++ [last]) = core' ++ [last]).
      { rewrite <- E2 at 1. exact Ec. }
      rewrite trim_end_snoc in Hx by done.
      assert (Hlen : length (trim_end_matches (is_char SP) core') <= length core').
      { unfold trim_end_matches. rewrite length_reverse, <- (length_reverse core').
        destruct (trim_start_spec (is_char SP) (reverse core')) as (u & Eu & _).
        rewrite Eu at 2. rewrite length_app. lia. }
      rewrite Hx, length_app in Hlen. simpl in Hlen. lia. }
    unfold edge_ok in Hl. rewrite Hc in Hl. by apply negb_true_iff in Hl. }
  rewrite H2, <- E2, <- E1. done.
Qed.

Lemma clean_items_kept items :
  Forall (fun i => clean_item i = true) items -> kept_items items = items.
Proof.
  unfold kept_items. induction 1 as [|item items Hi _ IH]; [done|]. rewrite fmap_cons.
  assert (Hn : free is_newline item = true /\ is_empty item = false).
  { unfold clean_item in Hi. destruct item; [done|]. destruct (reverse _); [done|].
    split; [|done]. by apply andb_true_iff in Hi as [_ ?]. }
  rewrite inline_id by apply Hn. rewrite clean_kept by done. cbn [retain].
  rewrite (proj2 Hn). cbn [negb]. by rewrite IH.
Qed.

(** ** The envelope *)
Definition field_line (field : text * text) : text := field.1 ++ [COLON; SP] ++ field.2.
Definition write_fields (fields : list (text * text)) : text :=
  mjoin ((fun f => field_line f ++ [NL]) <$> fields).

Definition good_key (key : text) : bool :=
  match key with
  | [] => false
  | _ => bool_decide (trim key = key) && free (is_char COLON) key && free is_newline key
  end.
Definition good_field (field : text * text) : bool :=
  good_key field.1 && free is_newline field.2.

Lemma trim_nonempty t c : c ∈ t -> is_whitespace c = false -> is_empty (trim t) = false.
Proof.
  intros Hc Hw. unfold trim, trim_matches.
  destruct (trim_start_spec is_whitespace t) as (u & E & Hu & Hs).
  destruct (trim_start_matches is_whitespace t) as [|d v] eqn:Et.
  - rewrite app_nil_r in E. subst u. rewrite forallb_forall in Hu.
    apply list_elem_of_In, Hu in Hc. congruence.
  - specialize (Hs d v eq_refl). unfold trim_end_matches. rewrite reverse_cons.
    destruct (trim_start_spec is_whitespace (reverse v ++ [d])) as (w & Ew & Hw' & _).
    destruct (trim_start_matches is_whitespace (reverse v ++ [d])) as [|x y] eqn:Ex.
    + rewrite app_nil_r in Ew. subst w. rewrite forallb_app in Hw'.
      apply andb_true_iff in Hw' as [_ Hd]. cbn in Hd. by rewrite Hs in Hd.
    + rewrite reverse_cons. by destruct (reverse y).
Qed.

Lemma split_once_key k key v :
  free (is_char k) key = true -> split_once k (key ++ k :: v) = Some (key, v).
Proof.
  induction key as [|c key IH]; simpl.
  - unfold is_char. by rewrite N.eqb_refl.
  - intros [Hc%negb_true_iff Hk]%andb_true_iff. rewrite Hc, (IH Hk). done.
Qed.

Lemma field_line_free field : good_field field = true -> free is_newline (field_line field) = true.
Proof.
  unfold good_field, good_key, field_line. destruct field as [[|c key] v]; cbn [fst snd]; [done|].
  intros [[_ Hk]%andb_true_iff Hv]%andb_true_iff. rewrite !free_app, Hk, Hv. done.
Qed.

Lemma trim_end_free q p t u :
  (forall c, q c = true -> p c = true) -> free p t = true -> forallb q u = true ->
  trim_end_matches q (t ++ u) = t.
Proof.
  intros Hpq Ht Hu. induction u as [|c u IH] using rev_ind.
  - rewrite app_nil_r. apply trim_end_none. by apply (free_weaken p).
  - rewrite forallb_app in Hu. apply andb_true_iff in Hu as [Hu Hc]. cbn in Hc.
    rewrite andb_true_r in Hc. rewrite (assoc_L (++)), trim_end_snoc by done. auto.
Qed.

Lemma field_not_closing field :
  good_field field = true -> is_closing (field_line field ++ [NL]) = false.
Proof.
  intros Hg. apply field_line_free in Hg. unfold is_closing. apply bool_decide_eq_false.
  rewrite (trim_end_free (is_char NL) is_newline) by (done || (intros c Hc; unfold is_newline; by rewrite Hc)).
  rewrite <- (app_nil_r (field_line field)).
  rewrite (trim_end_free (is_char CR) is_newline)
    by (done || (intros c Hc; unfold is_newline; by rewrite Hc, orb_true_r)).
  intros E. assert (Hin : COLON ∈ field_line field).
  { unfold field_line. apply elem_of_app. right. left. }
  rewrite E in Hin. vm_compute in Hin. repeat (apply elem_of_cons in Hin as [Hin|Hin]; [done|]).
  by apply not_elem_of_nil in Hin.
Qed.

Lemma split_written fields front rest :
  Forall (fun f => good_field f = true) fields ->
  split_at_closing front (split_inclusive (write_fields fields ++ FENCE ++ NL :: rest)) =
  Ok (front ++ write_fields fields, rest).
Proof.
  intros H. revert front. induction H as [|f fields Hf _ IH]; intros front.
  - cbn [write_fields fmap list_fmap mjoin list_join app].
    change (FENCE ++ NL :: rest) with (FENCE ++ NL :: rest).
    rewrite split_inclusive_line by done. cbn [split_at_closing].
    replace (is_closing (FENCE ++ [NL])) with true by done.
    by rewrite mjoin_split_inclusive, app_nil_r.
  - unfold write_fields. rewrite fmap_cons. cbn [mjoin list_join]. fold (write_fields fields).
    change (mjoin ((fun f => field_line f ++ [NL]) <$> fields)) with (write_fields fields).
    rewrite <- !(assoc_L (++)). cbn [app].
    rewrite split_inclusive_line
      by (apply (free_weaken is_newline), field_line_free; [|done]; intros c Hc; unfold is_newline; by rewrite Hc).
    cbn [split_at_closing]. rewrite field_not_closing by done. rewrite IH.
    by rewrite <- !(assoc_L (++)).
Qed.

Lemma lines_written fields :
  Forall (fun f => good_field f = true) fields ->
  lines (write_fields fields) = field_line <$> fields.
Proof.
  intros H. unfold lines, write_fields.
  assert (E : split_inclusive (mjoin ((fun f => field_line f ++ [NL]) <$> fields)) =
              (fun f => field_line f ++ [NL]) <$> fields).
  { induction H as [|f fields Hf _ IH]; [done|]. rewrite fmap_cons. cbn [mjoin list_join].
    rewrite <- (assoc_L (++)). cbn [app]. rewrite split_inclusive_line.
    - f_equal. exact IH.
    - apply (free_weaken is_newline); [|by apply field_line_free].
      intros c Hc. unfold is_newline. by rewrite Hc. }
  rewrite E. rewrite <- list_fmap_compose. apply list_fmap_ext. intros i f Hf.
  cbn [compose]. apply strip_line_end_line, field_line_free.
  rewrite Forall_lookup in H. by apply (H i).
Qed.

(** What the reader keeps of a body. *)
Definition kept_body (body : text) : text :=
  trim_end_matches is_newline (trim_start_matches is_newline body).

Lemma kept_body_app t u :
  forallb is_newline u = true -> kept_body (t ++ u) = kept_body t.
Proof.
  intros Hu. unfold kept_body.
  assert (Hend : forall v, trim_end_matches is_newline (v ++ u) = trim_end_matches is_newline v).
  { clear t. induction u as [|c u IH] using rev_ind; intros v; [by rewrite app_nil_r|].
    rewrite forallb_app in Hu. apply andb_true_iff in Hu as [Hu Hc]. cbn in Hc.
    rewrite andb_true_r in Hc. rewrite (assoc_L (++)), trim_end_snoc by done. auto. }
  destruct (trim_start_spec is_newline t) as (w & E & Hw & Hs).
  destruct (trim_start_matches is_newline t) as [|c v] eqn:Et.
  - rewrite app_nil_r in E. subst w. rewrite trim_start_app by done.
    rewrite <- (app_nil_r u). by rewrite trim_start_app.
  - rewrite E, <- (assoc_L (++)), trim_start_app by done. cbn [app].
    rewrite trim_start_stop by by apply (Hs c v). apply (Hend (c :: v)).
Qed.

Lemma kept_body_written body :
  trim_end_matches is_newline (trim_start_matches is_newline
    (NL :: trim_end_matches (is_char NL) body ++ [NL])) = kept_body body.
Proof.
  cbn [trim_start_matches]. cbn [is_newline is_char orb].
  change (kept_body (trim_end_matches (is_char NL) body ++ [NL]) = kept_body body).
  rewrite kept_body_app by done. rewrite (trim_end_replicate NL body) at 2.
  symmetry. apply kept_body_app. induction (_ - _); [done|]. cbn. done.
Qed.

(** A body without newlines at its ends. *)
Definition clean_body (body : text) : Prop :=
  (forall c v, body = c :: v -> is_newline c = false) /\
  (forall c v, body = v ++ [c] -> is_newline c = false).

Lemma kept_body_clean body : clean_body body -> kept_body body = body.
Proof.
  intros [Hs He]. unfold kept_body. destruct body as [|c v]; [done|].
  rewrite trim_start_stop by by apply (Hs c v).
  destruct (c :: v) as [|d w _] eqn:E using rev_ind; [done|]. by apply trim_end_stop, (He d w).
Qed.

Section envelope.
Context {E D : Type} (from : ParseFrontmatterError -> E)
  (dispatch : text -> text -> text -> D -> result E D).

(** The fields as the dispatcher sees them. *)
Fixpoint dispatch_fields (fields : list (text * text)) (d : D) : result E D :=
  match fields with
  | [] => Ok d
  | (key, v) :: fields => d <-? dispatch key (trim v) v d ;; dispatch_fields fields d
  end.

Lemma dispatch_written fields d :
  Forall (fun f => good_field f = true) fields ->
  dispatch_lines from dispatch (field_line <$> fields) d = dispatch_fields fields d.
Proof.
  intros H. revert d. induction H as [|[key v] fields Hf _ IH]; intros d; [done|].
  rewrite fmap_cons. cbn [dispatch_lines dispatch_fields].
  assert (Hk := Hf). unfold good_field, good_key in Hk. cbn [fst snd] in Hk.
  apply andb_true_iff in Hk as [Hk _]. destruct key as [|c key]; [done|].
  apply andb_true_iff in Hk as [[Ht%bool_decide_eq_true Hcol]%andb_true_iff _].
  rewrite (trim_nonempty _ COLON); [|unfold field_line; apply elem_of_app; right; left|done].
  unfold field_line. cbn [fst snd]. change ([COLON; SP] ++ v) with (COLON :: SP :: v).
  rewrite split_once_key by done. change (strip_prefix_char SP (SP :: v)) with (Some v).
  cbn [default from_option id]. rewrite Ht, trim_trim.
  destruct (dispatch (c :: key) (trim v) v d) as [d'|e]; cbn [res_bind]; [apply IH|done].
Qed.

Lemma dispatch_fields_app fs fs' d :
  dispatch_fields (fs ++ fs') d = (d' <-? dispatch_fields fs d ;; dispatch_fields fs' d').
Proof.
  revert d. induction fs as [|[key v] fs IH]; intros d; [done|]. cbn [app dispatch_fields].
  destruct (dispatch key (trim v) v d) as [d'|e]; cbn [res_bind]; [apply IH|done].
Qed.

(** Reading what was written hands every field to the dispatcher and returns
    the kept body. *)
Lemma from_to_markdown body fields d :
  Forall (fun f => good_field f = true) fields ->
  from_markdown from dispatch (to_markdown body (write_fields fields)) d =
  (d <-? dispatch_fields fields d ;; Ok (d, kept_body body)).
Proof.
  intros H. unfold from_markdown.
  assert (Eo : strip_opening (to_markdown body (write_fields fields)) =
    Some (write_fields fields ++ FENCE ++ NL :: NL :: trim_end_matches (is_char NL) body ++ [NL])).
  { unfold to_markdown. by vm_compute. }
  rewrite Eo. unfold split_frontmatter. rewrite split_written by done. cbn [app].
  rewrite lines_written by done. rewrite dispatch_written by done.
  destruct (dispatch_fields fields d) as [d'|e]; cbn [res_bind]; [|done].
  by rewrite kept_body_written.
Qed.
End envelope.

(** ** Numbers *)
Lemma digit_value d : (d < 10)%N -> (48 <=? digit d)%N && (digit d <=? 57)%N = true /\ (digit d - 48 = d)%N.
Proof. unfold digit. intros. rewrite andb_true_iff, !N.leb_le. lia. Qed.

Lemma parse_print_digits max fuel n acc :
  (n < 10 ^ N.of_nat fuel)%N -> (n <= max)%N -> 0 < fuel ->
  parse_digits max (print_digits fuel n acc) 0 = parse_digits max acc n.
Proof.
  revert n acc. induction fuel as [|fuel IH]; intros n acc Hf Hn H0; [lia|]. cbn [print_digits].
  destruct (n <? 10)%N eqn:E.
  - apply N.ltb_lt in E. cbn [parse_digits]. destruct (digit_value n E) as [-> ->].
    rewrite N.mul_0_l, N.add_0_l, (proj2 (N.leb_le n max) Hn). done.
  - apply N.ltb_ge in E. destruct (digit_value (n mod 10)) as [Hd1 Hd2]; [by apply N.mod_lt|].
    assert (Hdiv := N.div_mod n 10 ltac:(lia)). assert (Hm := N.mod_lt n 10 ltac:(lia)).
    assert (Hp : (10 ^ N.of_nat (S fuel) = 10 * 10 ^ N.of_nat fuel)%N)
      by by rewrite Nat2N.inj_succ, N.pow_succ_r'.
    rewrite IH.
    + cbn [parse_digits]. rewrite Hd1, Hd2. replace (n / 10 * 10 + n mod 10)%N with n by lia.
      by rewrite (proj2 (N.leb_le n max) Hn).
    + apply N.Div0.div_lt_upper_bound. lia.
    + lia.
    + destruct fuel; [|lia]. cbn in Hf. lia.
Qed.

Lemma print_digits_digits fuel n acc :
  0 < fuel -> exists d l, print_digits fuel n acc = digit d :: l /\ (d < 10)%N.
Proof.
  revert n acc. induction fuel as [|fuel IH]; intros n acc H; [lia|]. cbn [print_digits].
  destruct (n <? 10)%N eqn:E; [apply N.ltb_lt in E; eauto|].
  destruct fuel as [|fuel]; [|apply IH; lia]. cbn [print_digits].
  exists (n mod 10)%N, acc. split; [done|]. by apply N.mod_lt.
Qed.

Lemma parse_print_uint max fuel n :
  (n < 10 ^ N.of_nat fuel)%N -> (n <= max)%N -> 0 < fuel ->
  parse_uint max (print_digits fuel n []) = Some n.
Proof.
  intros Hf Hn H0. unfold parse_uint.
  destruct (print_digits_digits fuel n [] H0) as (d & l & E & Hd).
  assert (Hs : strip_prefix_char PLUS (print_digits fuel n []) = None).
  { rewrite E. cbn. unfold is_char. replace (digit d =? PLUS)%N with false; [done|].
    symmetry. apply N.eqb_neq. unfold digit, PLUS. lia. }
  rewrite Hs. cbn [default from_option id]. rewrite E at 1. cbn [is_empty].
  by rewrite parse_print_digits.
Qed.

Lemma parse_print_u32 n : (n <= U32_MAX)%N -> parse_u32 (print_u32 n) = Some n.
Proof.
  intros Hn. apply parse_print_uint; [|done|lia]. unfold U32_MAX in Hn. cbn. lia.
Qed.

Lemma print_digits_chars fuel n acc :
  forallb (fun c => (48 <=? c) && (c <=? 57))%N acc = true ->
  forallb (fun c => (48 <=? c) && (c <=? 57))%N (print_digits fuel n acc) = true.
Proof.
  revert n acc. induction fuel as [|fuel IH]; intros n acc H; cbn [print_digits]; [done|].
  destruct (n <? 10)%N eqn:E.
  - apply N.ltb_lt in E. cbn [forallb]. rewrite H. by destruct (digit_value n E) as [-> _].
  - apply IH. cbn [forallb]. rewrite H. destruct (digit_value (n mod 10)) as [-> _]; [|done].
    by apply N.mod_lt.
Qed.

Lemma print_u32_chars n : forallb (fun c => (48 <=? c) && (c <=? 57))%N (print_u32 n) = true.
Proof. by apply print_digits_chars. Qed.

Lemma print_u32_nonempty n : is_empty (print_u32 n) = false.
Proof.
  unfold print_u32. by destruct (print_digits_digits 10 n [] ltac:(lia)) as (d & l & -> & _).
Qed.

Lemma digit_char_plain c :
  ((48 <=? c) && (c <=? 57))%N = true -> is_whitespace c = false /\ is_structural c = false.
Proof.
  rewrite andb_true_iff, !N.leb_le. intros [H1 H2].
  unfold is_whitespace, is_structural, is_char, BACKSLASH, COMMA, LBRACKET, RBRACKET. split.
  - repeat (apply orb_false_iff; split); rewrite ?andb_false_iff, ?N.leb_gt, ?N.eqb_neq; lia.
  - repeat (apply orb_false_iff; split); rewrite ?N.eqb_neq; lia.
Qed.

(** ** Values of fields *)

(** A text without white space is its own trim. *)
Lemma trim_plain t : free is_whitespace t = true -> trim t = t.
Proof.
  intros H. unfold trim, trim_matches. rewrite trim_start_none by done. by apply trim_end_none.
Qed.

Lemma trim_bracketed t : trim (LBRACKET :: t ++ [RBRACKET]) = LBRACKET :: t ++ [RBRACKET].
Proof.
  unfold trim, trim_matches. rewrite trim_start_stop by done.
  change (LBRACKET :: t ++ [RBRACKET]) with ((LBRACKET :: t) ++ [RBRACKET]). by rewrite trim_end_stop.
Qed.

Lemma plain_no_newline t : free is_whitespace t = true -> free is_newline t = true.
Proof. apply free_weaken, newline_whitespace. Qed.

Lemma free_concat p ts : Forall (fun t => free p t = true) ts -> free p (mjoin ts) = true.
Proof. induction 1 as [|t ts Ht _ IH]; [done|]. cbn [mjoin list_join]. by rewrite free_app, Ht. Qed.

Lemma free_join p ts :
  free p list_separator = true -> Forall (fun t => free p t = true) ts -> free p (join list_separator ts) = true.
Proof.
  intros Hs. induction 1 as [|t ts Ht H IH]; [done|]. destruct ts as [|u ts]; [done|].
  change (join list_separator (t :: u :: ts)) with (t ++ list_separator ++ join list_separator (u :: ts)).
  by rewrite !free_app, Ht, Hs.
Qed.

Lemma sub_free_start p q t : free p t = true -> free p (trim_start_matches q t) = true.
Proof.
  intros H. destruct (trim_start_spec q t) as (u & E & _). rewrite E, free_app in H.
  by apply andb_true_iff in H as [_ ?].
Qed.

Lemma free_reverse p t : free p (reverse t) = free p t.
Proof.
  induction t as [|c t IH]; [done|]. rewrite reverse_cons, free_app, IH. unfold free. cbn.
  by rewrite andb_true_r, andb_comm.
Qed.

Lemma sub_free_end p q t : free p t = true -> free p (trim_end_matches q t) = true.
Proof. intros H. unfold trim_end_matches. rewrite free_reverse. apply sub_free_start. by rewrite free_reverse. Qed.

Lemma escape_free t : free is_newline t = true -> free is_newline (escape t) = true.
Proof.
  induction t as [|c t IH]; [done|]. intros [Hc Ht]%andb_true_iff. rewrite escape_cons, free_app, (IH Ht), andb_true_r.
  unfold escape_char. by destruct (is_structural c); cbn; rewrite Hc.
Qed.

Lemma spaces_free n : free is_newline (spaces n) = true.
Proof. induction n as [|n IH]; [done|]. rewrite spaces_S. exact IH. Qed.

Lemma format_string_list_free items : free is_newline (format_string_list items) = true.
Proof.
  unfold format_string_list. rewrite !free_app.
  assert (H : free is_newline (join list_separator
    ((fun s => escape_list_item (inline s)) <$> items)) = true); [|by rewrite H].
  apply free_join; [done|]. apply Forall_fmap, Forall_true. intros s.
  change (free is_newline (escape_list_item (inline s)) = true).
  rewrite escape_list_item_eq, !free_app, !spaces_free, andb_true_r. cbn [andb].
  apply escape_free, sub_free_end, sub_free_start, inline_free.
Qed.

Lemma format_string_list_trim items : trim (format_string_list items) = format_string_list items.
Proof. unfold format_string_list. apply trim_bracketed. Qed.

(** *** Lists of numbers *)
Lemma digits_plain t :
  forallb (fun c => (48 <=? c) && (c <=? 57))%N t = true ->
  free is_whitespace t = true /\ free is_structural t = true.
Proof.
  unfold free. rewrite !forallb_forall. intros H.
  split; intros c Hc; apply H, digit_char_plain in Hc as [E1 E2]; by rewrite ?E1, ?E2.
Qed.

Lemma print_u32_plain n : free is_whitespace (print_u32 n) = true.
Proof. apply digits_plain, print_u32_chars. Qed.

Lemma escape_plain t : free is_structural t = true -> escape t = t.
Proof.
  induction t as [|c t IH]; [done|]. intros [Hc%negb_true_iff Ht]%andb_true_iff.
  rewrite escape_cons, (IH Ht). unfold escape_char. by rewrite Hc.
Qed.

Lemma escape_item_plain t :
  free is_structural t = true -> free is_whitespace t = true -> escape_list_item (inline t) = t.
Proof.
  intros Hs Hw. rewrite inline_id by by apply plain_no_newline.
  assert (Hsp : free (is_char SP) t = true).
  { apply (free_weaken is_whitespace); [|done]. intros c Hc. apply N.eqb_eq in Hc as ->. done. }
  rewrite escape_list_item_eq. rewrite trim_start_none by done. rewrite trim_end_none by done.
  rewrite Nat.sub_diag. cbn [spaces replicate mjoin list_join]. by rewrite app_nil_r, escape_plain.
Qed.

Lemma escape_numbers (ns : list N) : (fun s => escape_list_item (inline s)) <$> (print_u32 <$> ns) = print_u32 <$> ns.
Proof.
  rewrite <- list_fmap_compose. apply list_fmap_ext. intros i n _. cbn.
  apply escape_item_plain; [|apply print_u32_plain]. apply digits_plain, print_u32_chars.
Qed.

Lemma clean_plain t : t <> [] -> free is_whitespace t = true -> clean_item t = true.
Proof.
  intros Hne Hw. unfold clean_item. assert (Hn := plain_no_newline _ Hw).
  assert (Hr : free is_whitespace (reverse t) = true) by by rewrite free_reverse.
  destruct t as [|c t]; [done|]. destruct (reverse (c :: t)) as [|d u] eqn:E.
  { apply (f_equal length) in E. rewrite length_reverse in E. done. }
  apply andb_true_iff in Hw as [Hc _], Hr as [Hd _]. unfold edge_ok.
  by rewrite Hc, Hd, Hn, !orb_true_r.
Qed.

Lemma print_u32_clean n : clean_item (print_u32 n) = true.
Proof.
  apply clean_plain; [|apply print_u32_plain]. intros E. assert (H := print_u32_nonempty n). by rewrite E in H.
Qed.

(** *** Values the writers put into fields *)
Lemma field_value key v :
  good_key (txt key) = true -> free is_newline v = true -> good_field (txt key, v) = true.
Proof. intros Hk Hv. unfold good_field. cbn [fst snd]. by rewrite Hk, Hv. Qed.

Lemma timestamp_free `{ChronoLaws} t :
  four_digit_year t -> free is_newline (to_rfc3339 t) = true.
Proof. intros Ht. by apply plain_no_newline, to_rfc3339_plain. Qed.

Lemma timestamp_value `{ChronoLaws} t :
  four_digit_year t -> parse_timestamp (trim (to_rfc3339 t)) = Ok t.
Proof.
  intros Ht. unfold parse_timestamp. rewrite trim_plain by by apply to_rfc3339_plain.
  by rewrite parse_to_rfc3339.
Qed.

Lemma number_free n : free is_newline (print_u32 n) = true.
Proof. apply plain_no_newline, print_u32_plain. Qed.

#[export] Hint Resolve inline_free format_string_list_free number_free timestamp_free : usagi.

(** The fields an entity writes are good: literal keys, values without line
    breaks. *)
Ltac good_fields :=
  repeat first [ apply Forall_app; split | apply Forall_cons; split | apply Forall_nil; exact I
               | apply field_value; [reflexivity|] ];
  eauto with usagi.

(** ** Normal forms *)

Lemma trim_start_head p t c v : trim_start_matches p t = c :: v -> p c = false.
Proof. destruct (trim_start_spec p t) as (_ & _ & _ & H). apply H. Qed.

Lemma trim_end_last p t c v : trim_end_matches p t = v ++ [c] -> p c = false.
Proof.
  unfold trim_end_matches. intros E. apply (f_equal reverse) in E.
  rewrite reverse_involutive, reverse_snoc in E. by apply trim_start_head in E.
Qed.

Lemma trim_end_head p t c v d w :
  t = c :: v -> trim_end_matches p t = d :: w -> c = d.
Proof.
  intros -> E. unfold trim_end_matches in E. destruct (trim_start_spec p (reverse (c :: v))) as (u & Eu & _).
  apply (f_equal reverse) in Eu. rewrite reverse_involutive, reverse_app, E in Eu. by injection Eu.
Qed.

Lemma kept_body_normal body : clean_body (kept_body body).
Proof.
  unfold kept_body. split; intros c v E; [|by apply trim_end_last in E].
  destruct (trim_start_matches is_newline body) as [|d w] eqn:Es; [done|].
  assert (Ed := trim_end_head is_newline (d :: w) d w c v eq_refl E). subst c.
  by apply trim_start_head in Es.
Qed.

(** [clean_item] by its ends. *)
Lemma clean_item_ends item :
  item <> [] -> free is_newline item = true ->
  (forall c v, item = c :: v -> edge_ok c = true) ->
  (forall c v, item = v ++ [c] -> edge_ok c = true) -> clean_item item = true.
Proof.
  intros Hne Hn Hs He. unfold clean_item. destruct item as [|c t]; [done|].
  destruct (reverse (c :: t)) as [|d u] eqn:E.
  { apply (f_equal length) in E. by rewrite length_reverse in E. }
  apply (f_equal reverse) in E. rewrite reverse_involutive, reverse_cons in E.
  by rewrite (Hs c t eq_refl), (He d (reverse u) E), Hn.
Qed.

Lemma kept_item_start item c v : kept_item item = c :: v -> edge_ok c = true.
Proof.
  unfold kept_item. set (after := trim_start_matches _ item). set (core := trim_end_matches _ after).
  destruct (length item - length after) as [|n]; cbn [Nat.eqb replicate app]; [|by intros [= <- _]].
  set (core1 := trim_start_matches is_whitespace core).
  set (core2 := if _ =? 0 then trim_end_matches is_whitespace core1 else core1).
  destruct core2 as [|d w] eqn:E2; cbn [app].
  - destruct (length after - length core); [done|]. by intros [= <- _].
  - intros [= -> _]. assert (Hd : is_whitespace c = false).
    { unfold core2 in E2. destruct core1 as [|d v'] eqn:E1; [by destruct (_ =? 0)|].
      assert (Ed : d = c).
      { destruct (_ =? 0); [|congruence]. exact (trim_end_head _ _ _ _ _ _ eq_refl E2). }
      subst d. by apply trim_start_head in E1. }
    unfold edge_ok. by rewrite Hd, orb_true_r.
Qed.

Lemma kept_item_end item c v : kept_item item = v ++ [c] -> edge_ok c = true.
Proof.
  unfold kept_item. set (after := trim_start_matches _ item). set (core := trim_end_matches _ after).
  set (core1 := if _ =? 0 then _ else core). set (trailing := length after - length core).
  destruct trailing as [|n] eqn:Et; cbn [Nat.eqb].
  - rewrite app_nil_r. intros E.
    destruct (trim_end_matches is_whitespace core1) as [|d w _] eqn:E1 using rev_ind.
    + rewrite app_nil_r in E. assert (Hc : c ∈ replicate (length item - length after) SP).
      { rewrite E. apply elem_of_app. right. left. }
      by apply elem_of_replicate in Hc as [-> _].
    + rewrite (assoc_L (++)) in E. apply app_inj_tail in E as [_ ->].
      apply trim_end_last in E1. unfold edge_ok. by rewrite E1, orb_true_r.
  - rewrite replicate_S_end, !(assoc_L (++)). by intros [_ <-]%app_inj_tail.
Qed.

Lemma kept_item_free item : free is_newline item = true -> free is_newline (kept_item item) = true.
Proof.
  intros H. unfold kept_item. rewrite !free_app.
  assert (Hsp : forall n, free is_newline (replicate n SP) = true) by by induction 0.
  rewrite !Hsp, andb_true_r. cbn [andb]. repeat case_match; auto using sub_free_start, sub_free_end.
Qed.

Lemma kept_items_normal items : Forall (fun i => clean_item i = true) (kept_items items).
Proof.
  unfold kept_items. apply Forall_forall. intros x [Hx Hne]%elem_of_retain.
  apply list_elem_of_fmap in Hx as (s & -> & _). apply clean_item_ends.
  - by destruct (kept_item _).
  - apply kept_item_free, inline_free.
  - intros c v. apply kept_item_start.
  - intros c v. apply kept_item_end.
Qed.

#[export] Hint Resolve kept_items_normal kept_body_normal : usagi.

(** Decide which arm of a dispatcher a literal key takes. *)
Ltac decide_keys :=
  repeat match goal with
  | |- context [bool_decide (txt ?a = txt ?b)] =>
      let r := eval vm_compute in (bool_decide (txt a = txt b)) in
      change (bool_decide (txt a = txt b)) with r
  end; cbv iota.

(** A concrete calendar: an instant is a count of seconds. *)
Module SecondsCalendar.
#[export] Instance seconds : Chrono := {
  DateTime := N;
  to_rfc3339 n := txt "@" ++ print_u32 n;
  parse_from_rfc3339 t := strip_prefix (txt "@") t ≫= parse_u32
}.

Lemma seconds_parse n : (n <= U32_MAX)%N -> parse_from_rfc3339 (to_rfc3339 n) = Some n.
Proof. intros H. change (parse_u32 (print_u32 n) = Some n). by apply parse_print_u32. Qed.

#[export] Instance seconds_laws : ChronoLaws seconds := {
  four_digit_year (n : N) := (n <= U32_MAX)%N;
  parse_to_rfc3339 := seconds_parse;
  to_rfc3339_plain n _ := print_u32_plain n
}.
End SecondsCalendar.

(** ** Slugs *)
Definition slug_char (c : char) : bool :=
  ((48 <=? c) && (c <=? 57) || (97 <=? c) && (c <=? 122))%N%bool || is_char HYPHEN c.

(** No two hyphens in a row; [prev_dash]: one precedes the text. *)
Fixpoint single_dashes (prev_dash : bool) (t : text) : bool :=
  match t with
  | [] => true
  | c :: t => if is_char HYPHEN c then negb prev_dash && single_dashes true t else single_dashes false t
  end.

Definition is_slug (t : text) : Prop :=
  t <> [] /\ forallb slug_char t = true /\ single_dashes false t = true /\
  (forall c v, t = c :: v -> is_char HYPHEN c = false) /\
  (forall c v, t = v ++ [c] -> is_char HYPHEN c = false).

Lemma lowercase_slug_char c :
  is_ascii_alphanumeric c = true ->
  slug_char (to_ascii_lowercase c) = true /\ is_char HYPHEN (to_ascii_lowercase c) = false.
Proof.
  unfold is_ascii_alphanumeric, slug_char, to_ascii_lowercase, is_char, HYPHEN.
  rewrite !orb_true_iff, !andb_true_iff, !N.leb_le, N.eqb_neq.
  destruct ((65 <=? c) && (c <=? 90))%N eqn:E.
  - apply andb_true_iff in E as [?%N.leb_le ?%N.leb_le]. lia.
  - apply andb_false_iff in E as [E%N.leb_gt|E%N.leb_gt]; lia.
Qed.

Lemma slug_char_stable c :
  slug_char c = true -> is_char HYPHEN c = false ->
  is_ascii_alphanumeric c = true /\ to_ascii_lowercase c = c.
Proof.
  unfold is_ascii_alphanumeric, slug_char, to_ascii_lowercase. intros H Hh.
  rewrite Hh, orb_false_r in H.
  rewrite !orb_true_iff, !andb_true_iff, !N.leb_le in *.
  replace ((65 <=? c) && (c <=? 90))%N with false; [split; [lia|done]|].
  symmetry. apply andb_false_iff. rewrite !N.leb_gt. lia.
Qed.

Lemma slug_chars_ok b t :
  forallb slug_char (slug_chars b t) = true /\ single_dashes b (slug_chars b t) = true.
Proof.
  revert b. induction t as [|c t IH]; intros b; [done|]. cbn [slug_chars].
  destruct (is_ascii_alphanumeric c) eqn:E.
  - destruct (lowercase_slug_char c E) as [H1 H2]. cbn [forallb single_dashes].
    rewrite H1, H2. apply IH.
  - destruct b; cbn [negb]; [apply IH|]. apply (IH true).
Qed.

Lemma single_dashes_weaken b t : single_dashes b t = true -> single_dashes false t = true.
Proof.
  destruct t as [|c t]; [done|]. cbn. destruct (is_char HYPHEN c); [|done].
  by intros [_ ?]%andb_true_iff.
Qed.

Lemma single_dashes_app b t u :
  single_dashes b (t ++ u) = true -> single_dashes b t = true /\ single_dashes false u = true.
Proof.
  revert b. induction t as [|c t IH]; intros b; [intros H; split; [done|by eapply single_dashes_weaken]|].
  cbn [app single_dashes]. destruct (is_char HYPHEN c); [|apply IH].
  rewrite !andb_true_iff. intros [-> H]. apply IH in H. tauto.
Qed.

Lemma slug_chars_stable t :
  forallb slug_char t = true -> forall b, single_dashes b t = true -> slug_chars b t = t.
Proof.
  induction t as [|c t IH]; [done|]. cbn [forallb single_dashes slug_chars].
  intros [Hc Ht]%andb_true_iff b. destruct (is_char HYPHEN c) eqn:E.
  - intros [Hb Hs]%andb_true_iff. apply N.eqb_eq in E. subst c.
    change (is_ascii_alphanumeric HYPHEN) with false. cbv iota. rewrite Hb. by rewrite IH.
  - intros Hs. destruct (slug_char_stable c Hc E) as [-> ->]. by rewrite IH.
Qed.

Lemma trim_end_spec p t :
  exists u, t = trim_end_matches p t ++ u.
Proof.
  destruct (trim_start_spec p (reverse t)) as (u & E & _). exists (reverse u).
  unfold trim_end_matches. rewrite <- reverse_app, <- E. by rewrite reverse_involutive.
Qed.

(** Every slug is filename safe: lower-case ASCII letters and digits joined by
    single hyphens, not empty, without a hyphen at either end; and a slug is its
    own slug, so the names derived from a name are stable. *)
Theorem slug_is_filename_safe t fallback :
  is_slug fallback ->
  is_slug (slugify t fallback) /\
  slugify (slugify t fallback) fallback = slugify t fallback /\
  (is_slug t -> slugify t fallback = t).
Proof.
  intros Hf.
  assert (Hid : forall s, is_slug s -> slugify s fallback = s).
  { intros s (Hne & Hc & Hd & Hs & He). unfold slugify. rewrite slug_chars_stable by done.
    unfold trim_matches. destruct s as [|c v]; [done|].
    rewrite trim_start_stop by by apply (Hs c v).
    destruct (c :: v) as [|d w _] eqn:E using rev_ind; [done|].
    rewrite trim_end_stop by by apply (He d w). by destruct w. }
  assert (H : is_slug (slugify t fallback)).
  { unfold slugify. set (all := slug_chars false t). set (kept := trim_matches _ all).
    destruct kept as [|c v] eqn:Ek; [done|]. cbn [is_empty]. rewrite <- Ek.
    destruct (slug_chars_ok false t) as [Hc Hd]. fold all in Hc, Hd.
    unfold kept, trim_matches in *.
    destruct (trim_start_spec (is_char HYPHEN) all) as (u & Eu & _ & Hs).
    set (after := trim_start_matches _ all) in *.
    destruct (trim_end_spec (is_char HYPHEN) after) as (w & Ew).
    rewrite Eu, Ew in Hc, Hd. rewrite !forallb_app, !andb_true_iff in Hc.
    apply single_dashes_app in Hd as [_ [Hd _]%single_dashes_app].
    split_and!; [by rewrite Ek|tauto|done| |].
    - intros d x Ex. rewrite Ek in Ex. destruct after as [|a r] eqn:Ea; [done|].
      assert (Ead := trim_end_head _ _ _ _ _ _ eq_refl Ek). injection Ex as -> ->.
      rewrite <- Ead. by apply (Hs a r).
    - intros d x. apply trim_end_last. }
  split_and!; [done|by apply Hid|by apply Hid].
Qed.

Lemma slug_is_filename_safe_witness :
  is_slug (slugify (txt "  Fix: the CLI's -- flags! ") (txt "issue")) /\
  slugify (slugify (txt "  Fix: the CLI's -- flags! ") (txt "issue")) (txt "issue") =
    slugify (txt "  Fix: the CLI's -- flags! ") (txt "issue") /\
  (is_slug (txt "  Fix: the CLI's -- flags! ") ->
     slugify (txt "  Fix: the CLI's -- flags! ") (txt "issue") = txt "  Fix: the CLI's -- flags! ").
Proof.
  apply (slug_is_filename_safe (txt "  Fix: the CLI's -- flags! ") (txt "issue")).
  split_and!; [done|reflexivity|reflexivity|by intros ?? [= <- _]|].
  intros c v E. apply (f_equal reverse) in E. rewrite reverse_snoc in E. by injection E as <-.
Defined.

Example slug_example :
  slugify (txt "  Fix: the CLI's -- flags! ") (txt "issue") = txt "fix-the-cli-s-flags".
Proof. reflexivity. Qed.
