(* ===== verification/IssueDoc.v ===== *)
(** * Issues as markdown documents
    ([crates/core/src/domain/issue/mod.rs], [issue/markdown.rs])

    The entity, its file name and its frontmatter document.  Writing an issue and
    reading it back gives the issue in the normal form [normalize] states: a
    title cannot forge a field, and what the format does not carry is explicit. *)
From S2P Require Export Frontmatter.

Inductive IssueStatus : Type := Todo | InProgress | Done.
Inductive IssuePriority : Type := High | Medium | Low.

#[export] Instance issue_status_eq_dec : EqDecision IssueStatus.
Proof. solve_decision. Defined.
#[export] Instance issue_priority_eq_dec : EqDecision IssuePriority.
Proof. solve_decision. Defined.

Definition status_tokens : list (IssueStatus * string) :=
  [(Todo, "todo"); (InProgress, "in-progress"); (Done, "done")]%string.
Definition priority_tokens : list (IssuePriority * string) :=
  [(High, "high"); (Medium, "medium"); (Low, "low")]%string.

Definition status_default : IssueStatus := Todo.
Definition priority_default : IssuePriority := Medium.

Section issue.
Context `{C : Chrono}.

Record Issue : Type := mkIssue {
  number : N;
  title : text;
  status : IssueStatus;
  priority : IssuePriority;
  labels : list text;
  dependson : list N;
  related : list N;
  parent : option N;
  milestone : option text;
  created_at : DateTime;
  updated_at : DateTime;
  body : text
}.

Record IssueSummary : Type := mkIssueSummary {
  summary_number : N;
  summary_title : text;
  summary_status : IssueStatus;
  summary_priority : IssuePriority;
  summary_labels : list text;
  summary_dependson : list N;
  summary_related : list N;
  summary_parent : option N;
  summary_milestone : option text;
  summary_file : text;
  summary_created_at : DateTime;
  summary_updated_at : DateTime
}.

(** *** File names *)
Definition slug (i : Issue) : text := slugify (title i) (txt "issue").

(** [{:03}] *)
Definition pad3 (t : text) : text := replicate (3 - length t) (digit 0) ++ t.
Definition file_name (i : Issue) : text :=
  pad3 (print_u32 (number i)) ++ [HYPHEN] ++ slug i ++ txt ".md".

Definition summary (i : Issue) (file : text) : IssueSummary :=
  {| summary_number := number i; summary_title := title i; summary_status := status i;
     summary_priority := priority i; summary_labels := labels i;
     summary_dependson := dependson i; summary_related := related i;
     summary_parent := parent i; summary_milestone := milestone i; summary_file := file;
     summary_created_at := created_at i; summary_updated_at := updated_at i |}.

(** *** Number lists *)
Fixpoint write_numbers (first : bool) (ns : list N) : text :=
  match ns with
  | [] => []
  | n :: ns => (if first then [] else list_separator) ++ print_u32 n ++ write_numbers false ns
  end.
Definition format_number_list (items : list N) : text :=
  [LBRACKET] ++ write_numbers true items ++ [RBRACKET].

Definition parse_number (noun : string) (s : text) : result ParseError N :=
  ok_or (parse_u32 s) (Invalid noun s).

Fixpoint collect {A B} (f : A -> result ParseError B) (l : list A) : result ParseError (list B) :=
  match l with
  | [] => Ok []
  | x :: l => y <-? f x ;; ys <-? collect f l ;; Ok (y :: ys)
  end.

Definition parse_number_list (value : text) : result ParseError (list N) :=
  collect (parse_number "issue number") (parse_string_list value).

(** *** Writing *)
Definition optional_field (key : string) (value : option text) : list (text * text) :=
  match value with Some v => [(txt key, v)] | None => [] end.

Definition issue_fields (i : Issue) : list (text * text) :=
  [(txt "number", print_u32 (number i));
   (txt "title", inline (title i));
   (txt "status", as_str status_tokens (status i));
   (txt "priority", as_str priority_tokens (priority i));
   (txt "labels", format_string_list (labels i));
   (txt "dependson", format_number_list (dependson i));
   (txt "related", format_number_list (related i))] ++
  optional_field "parent" (print_u32 <$> parent i) ++
  optional_field "milestone" (inline <$> milestone i) ++
  [(txt "created_at", to_rfc3339 (created_at i)); (txt "updated_at", to_rfc3339 (updated_at i))].

Definition issue_to_markdown (i : Issue) : text :=
  to_markdown (body i) (write_fields (issue_fields i)).

(** *** Reading: the locals of [from_markdown] *)
Record IssueLocals : Type := mkIssueLocals {
  l_number : option N;
  l_title : option text;
  l_status : IssueStatus;
  l_priority : IssuePriority;
  l_labels : list text;
  l_dependson : list N;
  l_related : list N;
  l_parent : option N;
  l_milestone : option text;
  l_created_at : option DateTime;
  l_updated_at : option DateTime
}.

Definition issue_locals : IssueLocals :=
  mkIssueLocals None None status_default priority_default [] [] [] None None None None.

Definition issue_dispatch (key value text_value : text) (d : IssueLocals)
    : result ParseError IssueLocals :=
  let 'mkIssueLocals n t s p l dep rel par m c u := d in
  if bool_decide (key = txt "number") then
    n <-? parse_number "number" value ;; Ok (mkIssueLocals (Some n) t s p l dep rel par m c u)
  else if bool_decide (key = txt "title") then
    Ok (mkIssueLocals n (Some text_value) s p l dep rel par m c u)
  else if bool_decide (key = txt "status") then
    s <-? from_str status_tokens "status" value ;; Ok (mkIssueLocals n t s p l dep rel par m c u)
  else if bool_decide (key = txt "priority") then
    p <-? from_str priority_tokens "priority" value ;; Ok (mkIssueLocals n t s p l dep rel par m c u)
  else if bool_decide (key = txt "labels") then
    Ok (mkIssueLocals n t s p (parse_string_list value) dep rel par m c u)
  else if bool_decide (key = txt "dependson") then
    dep <-? parse_number_list value ;; Ok (mkIssueLocals n t s p l dep rel par m c u)
  else if bool_decide (key = txt "related") then
    rel <-? parse_number_list value ;; Ok (mkIssueLocals n t s p l dep rel par m c u)
  else if bool_decide (key = txt "parent") then
    if is_empty value then Ok (mkIssueLocals n t s p l dep rel None m c u)
    else
      x <-? parse_number "parent" value ;; Ok (mkIssueLocals n t s p l dep rel (Some x) m c u)
  else if bool_decide (key = txt "milestone") then
    Ok (mkIssueLocals n t s p l dep rel par (if is_empty value then None else Some text_value) c u)
  else if bool_decide (key = txt "created_at") then
    c <-? parse_timestamp value ;; Ok (mkIssueLocals n t s p l dep rel par m (Some c) u)
  else if bool_decide (key = txt "updated_at") then
    u <-? parse_timestamp value ;; Ok (mkIssueLocals n t s p l dep rel par m c (Some u))
  else Ok d.

Definition issue_from_markdown (t : text) : result ParseError Issue :=
  read <-? from_markdown Envelope issue_dispatch t issue_locals ;;
  let '(d, body) := read in
  n <-? ok_or (l_number d) (Missing "number") ;;
  t <-? ok_or (l_title d) (Missing "title") ;;
  c <-? ok_or (l_created_at d) (Missing "created_at") ;;
  u <-? ok_or (l_updated_at d) (Missing "updated_at") ;;
  Ok (mkIssue n t (l_status d) (l_priority d) (l_labels d) (l_dependson d) (l_related d)
        (l_parent d) (l_milestone d) c u body).

(** ** Reading back what was written *)

(** The numbers are [u32]s and the instants have a four digit year. *)
Definition well_formed `{!ChronoLaws C} (i : Issue) : Prop :=
  (number i <= U32_MAX)%N /\ Forall (fun n => n <= U32_MAX)%N (dependson i) /\
  Forall (fun n => n <= U32_MAX)%N (related i) /\
  (forall n, parent i = Some n -> n <= U32_MAX)%N /\
  four_digit_year (created_at i) /\ four_digit_year (updated_at i).

(** A milestone of white space only reads as none. *)
Definition kept_milestone (m : option text) : option text :=
  m ≫= fun m => if is_empty (trim m) then None else Some (inline m).

Definition normalize (i : Issue) : Issue :=
  mkIssue (number i) (inline (title i)) (status i) (priority i) (kept_items (labels i))
    (dependson i) (related i) (parent i) (kept_milestone (milestone i))
    (created_at i) (updated_at i) (kept_body (body i)).

(** The issues the format carries exactly. *)
Definition clean (i : Issue) : Prop :=
  free is_newline (title i) = true /\
  Forall (fun l => clean_item l = true) (labels i) /\
  (forall m, milestone i = Some m -> free is_newline m = true /\ is_empty (trim m) = false) /\
  clean_body (body i).

Lemma write_numbers_join ns :
  write_numbers true ns = join list_separator (print_u32 <$> ns).
Proof.
  destruct ns as [|n ns]; [done|]. cbn [write_numbers app]. revert n.
  induction ns as [|m ns IH]; intros n; [cbn; by rewrite app_nil_r|].
  specialize (IH m). cbn [write_numbers]. rewrite !fmap_cons. rewrite fmap_cons in IH.
  change (join list_separator (print_u32 n :: print_u32 m :: (print_u32 <$> ns)))
    with (print_u32 n ++ list_separator ++ join list_separator (print_u32 m :: (print_u32 <$> ns))).
  by rewrite <- IH.
Qed.

Lemma format_numbers ns : format_number_list ns = format_string_list (print_u32 <$> ns).
Proof.
  unfold format_number_list, format_string_list. by rewrite write_numbers_join, escape_numbers.
Qed.

Lemma read_numbers ns :
  Forall (fun n => n <= U32_MAX)%N ns -> parse_number_list (format_number_list ns) = Ok ns.
Proof.
  intros H. unfold parse_number_list. rewrite format_numbers, parse_format_string_list.
  rewrite clean_items_kept by (apply Forall_fmap, Forall_true; intros n; apply print_u32_clean).
  induction H as [|n ns Hn _ IH]; [done|]. rewrite fmap_cons. cbn [collect].
  unfold parse_number at 1. rewrite parse_print_u32 by done. cbn [ok_or res_bind]. by rewrite IH.
Qed.

Lemma numbers_value ns :
  trim (format_number_list ns) = format_number_list ns /\
  free is_newline (format_number_list ns) = true.
Proof. rewrite format_numbers. split; [apply format_string_list_trim|apply format_string_list_free]. Qed.

Lemma read_status s :
  from_str status_tokens "status" (trim (as_str status_tokens s)) = Ok s /\
  free is_newline (as_str status_tokens s) = true.
Proof. by destruct s; vm_compute. Qed.

Lemma read_priority p :
  from_str priority_tokens "priority" (trim (as_str priority_tokens p)) = Ok p /\
  free is_newline (as_str priority_tokens p) = true.
Proof. by destruct p; vm_compute. Qed.

Lemma optional_good key v :
  good_key (txt key) = true -> (forall x, v = Some x -> free is_newline x = true) ->
  Forall (fun f => good_field f = true) (optional_field key v).
Proof.
  intros Hk Hv. destruct v as [x|]; cbn [optional_field]; constructor; [|constructor].
  unfold good_field. cbn [fst snd]. by rewrite Hk, Hv.
Qed.

Lemma fields_good `{!ChronoLaws C} i :
  well_formed i -> Forall (fun f => good_field f = true) (issue_fields i).
Proof.
  intros (_ & _ & _ & _ & Hc & Hu). unfold issue_fields. good_fields.
  - apply read_status.
  - apply read_priority.
  - apply numbers_value.
  - apply numbers_value.
  - apply optional_good; [reflexivity|]. intros x (n & _ & ->)%fmap_Some. eauto with usagi.
  - apply optional_good; [reflexivity|]. intros x (m & _ & ->)%fmap_Some. eauto with usagi.
Qed.

Lemma inline_blank m : is_empty (trim (inline m)) = is_empty (trim m).
Proof.
  destruct (is_empty (trim m)) eqn:E.
  - assert (Hw : free (fun c => negb (is_whitespace c)) m = true).
    { unfold free. apply forallb_forall. intros c Hc. rewrite negb_involutive.
      destruct (is_whitespace c) eqn:Ew; [done|]. apply list_elem_of_In in Hc.
      by rewrite (trim_nonempty m c Hc Ew) in E. }
    assert (Hi : forallb is_whitespace (inline m) = true).
    { unfold inline. apply forallb_forall. intros c Hc%list_elem_of_In.
      apply list_elem_of_fmap in Hc as (d & -> & Hd). destruct (is_newline d); [done|].
      apply (free_elem _ _ _ Hw) in Hd. by apply negb_false_iff in Hd. }
    unfold trim, trim_matches. rewrite <- (app_nil_r (inline m)). by rewrite trim_start_app.
  - destruct (trim m) as [|c t] eqn:Et; [done|].
    assert (Hx : exists c, c ∈ m /\ is_whitespace c = false).
    { destruct (forallb is_whitespace m) eqn:Ew.
      - unfold trim, trim_matches in Et. rewrite <- (app_nil_r m), trim_start_app in Et by done. done.
      - rewrite <- not_true_iff_false, forallb_forall in Ew.
        destruct (find_first (fun c => negb (is_whitespace c)) m) as [d|] eqn:Ef.
        + apply find_first_Some in Ef as [? ?%negb_true_iff]. eauto.
        + exfalso. apply Ew. intros d Hd. apply list_elem_of_In in Hd.
          apply (proj1 (find_first_None _ _) Ef) in Hd. by apply negb_false_iff in Hd. }
    destruct Hx as (d & Hd & Hw). apply (trim_nonempty _ d); [|done].
    unfold inline. apply list_elem_of_fmap. exists d. split; [|done].
    destruct (is_newline d) eqn:En; [|done]. apply newline_whitespace in En. congruence.
Qed.

Lemma number_value noun n : (n <= U32_MAX)%N -> parse_number noun (trim (print_u32 n)) = Ok n.
Proof.
  intros H. unfold parse_number. rewrite trim_plain by apply print_u32_plain.
  by rewrite parse_print_u32.
Qed.

(** One line read by the dispatcher. *)
Ltac read_field := unfold issue_dispatch at 1; decide_keys; cbn [res_bind].

Lemma read_parent n t s p l dep rel par m c u :
  (forall x, par = Some x -> x <= U32_MAX)%N ->
  dispatch_fields issue_dispatch (optional_field "parent" (print_u32 <$> par))
    (mkIssueLocals n t s p l dep rel None m c u) = Ok (mkIssueLocals n t s p l dep rel par m c u).
Proof.
  intros Hp. destruct par as [x|]; [|done]. cbn [fmap option_fmap option_map optional_field].
  cbn [dispatch_fields]. read_field. rewrite number_value by by apply Hp.
  rewrite trim_plain by apply print_u32_plain. by rewrite print_u32_nonempty.
Qed.

Lemma read_milestone n t s p l dep rel par m c u :
  dispatch_fields issue_dispatch (optional_field "milestone" (inline <$> m))
    (mkIssueLocals n t s p l dep rel par None c u) =
  Ok (mkIssueLocals n t s p l dep rel par (kept_milestone m) c u).
Proof.
  destruct m as [x|]; [|done]. cbn [fmap option_fmap option_map optional_field].
  cbn [dispatch_fields]. read_field. unfold kept_milestone. cbn [mbind option_bind].
  by rewrite inline_blank.
Qed.

(** Reading the written fields gives the locals of the normal form. *)
Lemma fields_read `{!ChronoLaws C} i :
  well_formed i ->
  dispatch_fields issue_dispatch (issue_fields i) issue_locals =
  Ok (mkIssueLocals (Some (number i)) (Some (inline (title i))) (status i) (priority i)
        (kept_items (labels i)) (dependson i) (related i) (parent i)
        (kept_milestone (milestone i)) (Some (created_at i)) (Some (updated_at i))).
Proof.
  intros (Hn & Hd & Hr & Hp & Hc & Hu). unfold issue_fields, issue_locals.
  cbn [app dispatch_fields]. read_field. rewrite number_value by done. cbn [res_bind].
  do 2 read_field. rewrite (proj1 (read_status _)). cbn [res_bind].
  read_field. rewrite (proj1 (read_priority _)). cbn [res_bind].
  read_field. rewrite format_string_list_trim, parse_format_string_list.
  read_field. rewrite (proj1 (numbers_value _)), read_numbers by done. cbn [res_bind].
  read_field. rewrite (proj1 (numbers_value _)), read_numbers by done. cbn [res_bind].
  rewrite !dispatch_fields_app, read_parent by done. cbn [res_bind].
  rewrite dispatch_fields_app, read_milestone. cbn [res_bind dispatch_fields].
  read_field. rewrite timestamp_value by done. cbn [res_bind].
  read_field. by rewrite timestamp_value.
Qed.

Lemma read_written `{!ChronoLaws C} i :
  well_formed i -> issue_from_markdown (issue_to_markdown i) = Ok (normalize i).
Proof.
  intros H. unfold issue_from_markdown, issue_to_markdown.
  rewrite from_to_markdown by by apply fields_good. by rewrite fields_read.
Qed.

Lemma normalize_clean i : clean (normalize i).
Proof.
  unfold clean, normalize. cbn. split_and!.
  - apply inline_free.
  - apply kept_items_normal.
  - unfold kept_milestone. destruct (milestone i) as [m|]; cbn; [|done].
    intros x. destruct (is_empty (trim m)) eqn:E; [done|]. intros [= <-].
    by rewrite inline_free, inline_blank.
  - apply kept_body_normal.
Qed.

Lemma clean_normal i : clean i -> normalize i = i.
Proof.
  destruct i as [n t s p l dep rel par m c u b]. unfold clean, normalize.
  cbn [number title status priority labels dependson related parent milestone created_at updated_at body].
  intros (Ht & Hl & Hm & Hb). rewrite inline_id, clean_items_kept, kept_body_clean by done.
  f_equal. destruct m as [m|]; [|done]. destruct (Hm m eq_refl) as [H1 H2].
  unfold kept_milestone. cbn. by rewrite H2, inline_id.
Qed.

Lemma normalize_well_formed `{!ChronoLaws C} i : well_formed i -> well_formed (normalize i).
Proof. by destruct i. Qed.

(** C40: A written issue reads back as its normal form: every text a title, a
    label or a milestone carries stays in its own field, with line breaks as
    spaces and without the white space and the empty items the list format
    trims.  The normal form is stable under another write and read, and an issue
    that is already clean comes back exactly. *)
Theorem issue_reads_back `{!ChronoLaws C} i :
  well_formed i ->
  issue_from_markdown (issue_to_markdown i) = Ok (normalize i) /\
  issue_from_markdown (issue_to_markdown (normalize i)) = Ok (normalize i) /\
  (clean i -> issue_from_markdown (issue_to_markdown i) = Ok i).
Proof.
  intros H. assert (Hn := normalize_well_formed i H). split_and!.
  - by apply read_written.
  - rewrite read_written by done. f_equal. apply clean_normal, normalize_clean.
  - intros Hc. rewrite read_written by done. by rewrite clean_normal.
Qed.
End issue.

(** ** A concrete calendar *)
Section calendar.
Import SecondsCalendar.

(** A title that tries to forge a field, labels the list format trims, a blank
    milestone and a body with newlines around it. *)
Definition wild_issue : Issue :=
  mkIssue 7 (txt "Fix" ++ [NL] ++ txt "status: done") InProgress High
    [txt "a,b"; []; [9%N] ++ txt "x "; txt " [y]\"] [1; 4294967295]%N [] (Some 3%N)
    (Some (txt "  ")) 100%N 200%N ([NL] ++ txt "text" ++ [CR; NL; NL]).

Example wild_issue_read :
  issue_from_markdown (issue_to_markdown wild_issue) =
  Ok (mkIssue 7%N (txt "Fix status: done") InProgress High
        [txt "a,b"; txt "x "; txt " [y]\"] [1; 4294967295]%N [] (Some 3%N) None 100%N 200%N (txt "text")).
Proof. reflexivity. Qed.

Example wild_issue_file : file_name wild_issue = txt "007-fix-status-done.md".
Proof. reflexivity. Qed.

Lemma issue_reads_back_witness :
  issue_from_markdown (issue_to_markdown wild_issue) = Ok (normalize wild_issue) /\
  issue_from_markdown (issue_to_markdown (normalize wild_issue)) = Ok (normalize wild_issue) /\
  (clean wild_issue -> issue_from_markdown (issue_to_markdown wild_issue) = Ok wild_issue).
Proof.
  apply (issue_reads_back wild_issue). unfold well_formed. cbn. unfold U32_MAX.
  split_and!; try lia; repeat constructor; try lia. intros n [= <-]. lia.
Defined.
End calendar.
