(* ===== verification/MemoryDoc.v ===== *)
(** * Memories as markdown documents
    ([crates/core/src/domain/memory/mod.rs], [memory/markdown.rs])

    The entity, its file name and its frontmatter document, read back like an
    issue; and what the reader does with any document of the format: a field it
    does not know is ignored, a later field wins, a missing one is an error. *)
From S2P Require Export Frontmatter.

Inductive MemoryType : Type := User | Feedback | Project | Reference.

#[export] Instance memory_type_eq_dec : EqDecision MemoryType.
Proof. solve_decision. Defined.

Definition type_tokens : list (MemoryType * string) :=
  [(User, "user"); (Feedback, "feedback"); (Project, "project"); (Reference, "reference")]%string.
Definition type_default : MemoryType := Project.

Definition slugify_memory (t : text) : text := slugify t (txt "memory").

Section memory.
Context `{C : Chrono}.

Record Memory : Type := mkMemory {
  name : text;
  title : text;
  kind : MemoryType;
  related : list text;
  created_at : DateTime;
  updated_at : DateTime;
  body : text
}.

Record MemorySummary : Type := mkMemorySummary {
  summary_name : text;
  summary_title : text;
  summary_kind : MemoryType;
  summary_related : list text;
  summary_file : text;
  summary_created_at : DateTime;
  summary_updated_at : DateTime
}.

Definition memory_file_name (m : Memory) : text := name m ++ txt ".md".

Definition memory_summary (m : Memory) (file : text) : MemorySummary :=
  {| summary_name := name m; summary_title := title m; summary_kind := kind m;
     summary_related := related m; summary_file := file;
     summary_created_at := created_at m; summary_updated_at := updated_at m |}.

Definition memory_fields (m : Memory) : list (text * text) :=
  [(txt "name", inline (name m));
   (txt "title", inline (title m));
   (txt "type", as_str type_tokens (kind m));
   (txt "related", format_string_list (related m));
   (txt "created_at", to_rfc3339 (created_at m));
   (txt "updated_at", to_rfc3339 (updated_at m))].

Definition memory_to_markdown (m : Memory) : text :=
  to_markdown (body m) (write_fields (memory_fields m)).

Record MemoryLocals : Type := mkMemoryLocals {
  l_name : option text;
  l_title : option text;
  l_kind : MemoryType;
  l_related : list text;
  l_created_at : option DateTime;
  l_updated_at : option DateTime
}.

Definition memory_locals : MemoryLocals :=
  mkMemoryLocals None None type_default [] None None.

Definition memory_dispatch (key value text_value : text) (d : MemoryLocals)
    : result ParseError MemoryLocals :=
  let 'mkMemoryLocals n t k r c u := d in
  if bool_decide (key = txt "name") then Ok (mkMemoryLocals (Some text_value) t k r c u)
  else if bool_decide (key = txt "title") then Ok (mkMemoryLocals n (Some text_value) k r c u)
  else if bool_decide (key = txt "type") then
    k <-? from_str type_tokens "type" value ;; Ok (mkMemoryLocals n t k r c u)
  else if bool_decide (key = txt "related") then
    Ok (mkMemoryLocals n t k (parse_string_list value) c u)
  else if bool_decide (key = txt "created_at") then
    c <-? parse_timestamp value ;; Ok (mkMemoryLocals n t k r (Some c) u)
  else if bool_decide (key = txt "updated_at") then
    u <-? parse_timestamp value ;; Ok (mkMemoryLocals n t k r c (Some u))
  else Ok d.

(** What follows the loop of [from_markdown]. *)
Definition memory_of_locals (d : MemoryLocals) (body : text) : result ParseError Memory :=
  n <-? ok_or (l_name d) (Missing "name") ;;
  t <-? ok_or (l_title d) (Missing "title") ;;
  c <-? ok_or (l_created_at d) (Missing "created_at") ;;
  u <-? ok_or (l_updated_at d) (Missing "updated_at") ;;
  Ok (mkMemory n t (l_kind d) (l_related d) c u body).

Definition memory_from_markdown (t : text) : result ParseError Memory :=
  read <-? from_markdown Envelope memory_dispatch t memory_locals ;;
  memory_of_locals read.1 read.2.

(** ** Reading back what was written *)
Definition normalize (m : Memory) : Memory :=
  mkMemory (inline (name m)) (inline (title m)) (kind m) (kept_items (related m))
    (created_at m) (updated_at m) (kept_body (body m)).

Definition clean (m : Memory) : Prop :=
  free is_newline (name m) = true /\ free is_newline (title m) = true /\
  Forall (fun r => clean_item r = true) (related m) /\ clean_body (body m).

Lemma read_type k :
  from_str type_tokens "type" (trim (as_str type_tokens k)) = Ok k /\
  free is_newline (as_str type_tokens k) = true.
Proof. by destruct k; vm_compute. Qed.

Definition memory_well_formed `{!ChronoLaws C} (m : Memory) : Prop :=
  four_digit_year (created_at m) /\ four_digit_year (updated_at m).

(** The keys the reader knows. *)
Definition known (f : text * text) : bool :=
  bool_decide (f.1 ∈ [txt "name"; txt "title"; txt "type"; txt "related"; txt "created_at"; txt "updated_at"]).

Lemma dispatch_unknown key value text_value d :
  (forall v, known (key, v) = false) -> memory_dispatch key value text_value d = Ok d.
Proof.
  intros H. specialize (H value). unfold known in H. apply bool_decide_eq_false in H. cbn [fst] in H.
  destruct d as [n t k r c u]. unfold memory_dispatch.
  rewrite !bool_decide_eq_false_2; [done|..]; intros ->; apply H; repeat (left + right).
Qed.

Lemma dispatch_known fs d :
  dispatch_fields memory_dispatch fs d = dispatch_fields memory_dispatch (retain known fs) d.
Proof.
  revert d. induction fs as [|[key v] fs IH]; intros d; [done|]. cbn [retain].
  destruct (known (key, v)) eqn:E; cbn [dispatch_fields].
  - destruct (memory_dispatch key (trim v) v d) as [d'|e]; cbn [res_bind]; [apply IH|done].
  - rewrite dispatch_unknown by done. cbn [res_bind]. apply IH.
Qed.

Ltac read_field := unfold memory_dispatch at 1; decide_keys; cbn [res_bind].

Lemma memory_read `{!ChronoLaws C} m :
  memory_well_formed m ->
  dispatch_fields memory_dispatch (memory_fields m) memory_locals =
  Ok (mkMemoryLocals (Some (inline (name m))) (Some (inline (title m))) (kind m)
        (kept_items (related m)) (Some (created_at m)) (Some (updated_at m))).
Proof.
  intros (Hc & Hu). unfold memory_fields, memory_locals. cbn [dispatch_fields].
  do 3 read_field. rewrite (proj1 (read_type _)). cbn [res_bind].
  read_field. rewrite format_string_list_trim, parse_format_string_list.
  read_field. rewrite timestamp_value by done. cbn [res_bind].
  read_field. by rewrite timestamp_value.
Qed.

Lemma memory_normalize_clean m : clean (normalize m).
Proof.
  split_and!; [apply inline_free..|apply kept_items_normal|apply kept_body_normal].
Qed.

Lemma memory_clean_normal m : clean m -> normalize m = m.
Proof.
  destruct m as [n t k r c u b]. unfold clean, normalize.
  cbn [name title kind related created_at updated_at body]. intros (Hn & Ht & Hr & Hb).
  by rewrite !inline_id, clean_items_kept, kept_body_clean.
Qed.

Lemma memory_fields_good `{!ChronoLaws C} m :
  memory_well_formed m -> Forall (fun f => good_field f = true) (memory_fields m).
Proof.
  intros (Hc & Hu). unfold memory_fields. good_fields. apply read_type.
Qed.

(** A memory is read back in its normal form from every document that
    carries its fields, in order, among fields the reader does not know: a file
    of a newer writer reads the same.  The file it writes itself is such a
    document, reading and writing again changes nothing, and a clean memory
    comes back exactly. *)
Theorem memory_reads_back `{!ChronoLaws C} m fs :
  memory_well_formed m -> Forall (fun f => good_field f = true) fs ->
  retain known fs = memory_fields m ->
  memory_from_markdown (to_markdown (body m) (write_fields fs)) = Ok (normalize m) /\
  memory_from_markdown (memory_to_markdown m) = Ok (normalize m) /\
  memory_from_markdown (memory_to_markdown (normalize m)) = Ok (normalize m) /\
  (clean m -> normalize m = m).
Proof.
  intros Hw Hg Hk.
  assert (H : forall x gs, memory_well_formed x -> Forall (fun f => good_field f = true) gs ->
    retain known gs = memory_fields x ->
    memory_from_markdown (to_markdown (body x) (write_fields gs)) = Ok (normalize x)).
  { intros x gs Hx Hgs E. unfold memory_from_markdown. rewrite from_to_markdown by done.
    by rewrite dispatch_known, E, memory_read. }
  assert (Hself : forall x, memory_well_formed x -> memory_from_markdown (memory_to_markdown x) = Ok (normalize x)).
  { intros x Hx. apply H; [done|by apply memory_fields_good|done]. }
  split_and!; [by apply H|by apply Hself| |apply memory_clean_normal].
  rewrite Hself by done. f_equal. apply memory_clean_normal, memory_normalize_clean.
Qed.
End memory.

(** ** A concrete calendar *)
Section calendar.
Import SecondsCalendar.

Definition a_memory : Memory :=
  mkMemory (txt "user-prefers-tabs") (txt "Tabs: always") User [txt "style"] 1%N 2%N (txt "Use tabs.").

(** The fields of a writer that also stores [pinned]. *)
Definition newer_fields : list (text * text) :=
  take 3 (memory_fields a_memory) ++ [(txt "pinned", txt "yes: [1]")] ++ drop 3 (memory_fields a_memory).

Example missing_title :
  memory_from_markdown (to_markdown [] (write_fields [(txt "name", txt "n")])) =
  Err (Missing "title").
Proof. reflexivity. Qed.

Lemma memory_reads_back_witness :
  memory_from_markdown (to_markdown (body a_memory) (write_fields newer_fields)) = Ok (normalize a_memory) /\
  memory_from_markdown (memory_to_markdown a_memory) = Ok (normalize a_memory) /\
  memory_from_markdown (memory_to_markdown (normalize a_memory)) = Ok (normalize a_memory) /\
  (clean a_memory -> normalize a_memory = a_memory).
Proof.
  apply (memory_reads_back a_memory newer_fields).
  - by split.
  - repeat constructor.
  - reflexivity.
Defined.
End calendar.
