(* ===== verification/NumberSequence.v ===== *)
(** * Issue number reservations
    ([crates/core/src/infrastructure/store/issue_number_sequence.rs])

    The authority that hands out issue numbers across every worktree of a
    workspace: a high-water sequence, one durable marker per reserved number, and
    the counters of an older format that are folded in and fenced.  Everything is
    a text file, replaced atomically; a process may be killed, and a write may
    fail, between any two of them.  The enumeration of the older counters walks
    the file system and Git: its answer is an argument, in path order.  A call
    holds the authority's lock and the locks of all the counters throughout, so
    calls follow one another. *)
From S2P Require Export Frontmatter.
From stdpp Require Import functions.

Definition RESERVATION_SUFFIX : text := txt ".reserved".
Definition SEQUENCE_VERSION : N := 1.
Definition LEGACY_V2_SENTINEL_PREFIX : text := txt "migrated-to-usagi-issue-numbers:".

Record SequenceFile : Type := mkSequenceFile { version : N; last_reserved : N }.

(** [serde_json] on a [SequenceFile]. *)
Class SequenceJson := {
  to_json : SequenceFile -> text;
  from_json : text -> option SequenceFile
}.
Class SequenceJsonLaws (J : SequenceJson) : Prop := {
  from_to_json f :
    (version f <= U32_MAX)%N -> (last_reserved f <= U32_MAX)%N -> from_json (to_json f) = Some f;
  from_json_u32 t f : from_json t = Some f -> (last_reserved f <= U32_MAX)%N
}.

Inductive LegacyState : Type :=
| Missing
| Active (floor : N)
| Fenced (floor : N).

#[export] Instance legacy_state_eq_dec : EqDecision LegacyState.
Proof. solve_decision. Defined.

Definition state_floor (s : LegacyState) : N :=
  match s with Missing => 0%N | Active floor | Fenced floor => floor end.

(** What [anyhow] reports, by its cause. *)
Inductive SequenceError : Type :=
| Unreadable
| WriteFailed
| Refused (why : string).

(** [std::fs::read_to_string], with [path_is_missing] for an absent file. *)
Inductive File : Type :=
| Absent
| Contents (t : text)
| Broken.

(** A directory listing; [None] is a name that is not UTF-8. *)
Inductive Directory : Type :=
| NoDirectory
| Entries (entries : list (option text * File))
| BrokenDirectory.

Definition read_optional_text (f : File) : result SequenceError (option text) :=
  match f with
  | Absent => Ok None
  | Contents t => Ok (Some t)
  | Broken => Err Unreadable
  end.

Definition strip_suffix (suffix t : text) : option text :=
  reverse <$> strip_prefix (reverse suffix) (reverse t).

(** [format!("{number}\n")] *)
Definition number_line (n : N) : text := print_u32 n ++ [NL].

(** [format!("{number:010}.reserved")] *)
Definition reservation_name (n : N) : text :=
  replicate (10 - length (print_u32 n)) (digit 0) ++ print_u32 n ++ RESERVATION_SUFFIX.

Definition legacy_sentinel (n : N) : text := LEGACY_V2_SENTINEL_PREFIX ++ number_line n.

Definition parse_legacy_sentinel (t : text) : option (result SequenceError N) :=
  (fun tail =>
     match strip_suffix_char NL tail with
     | None => Err (Refused "legacy v2 migration sentinel has no canonical newline")
     | Some digits =>
         n <-? ok_or (parse_u32 digits) (Refused "legacy v2 migration sentinel has an invalid floor") ;;
         if bool_decide (t = legacy_sentinel n) then Ok n
         else Err (Refused "legacy v2 migration sentinel is not canonical")
     end) <$> strip_prefix LEGACY_V2_SENTINEL_PREFIX t.

Section sequence.
Context {P : Type} `{EqDecision P} `{J : SequenceJson}.

(** The files below the authority's directory, and the older counters. *)
Record Authority : Type := mkAuthority {
  sequence_file : File;
  migration_file : File;
  reservations : Directory;
  legacy : P -> File
}.

(** *** Reading *)
Definition read_sequence (a : Authority) : result SequenceError N :=
  t <-? read_optional_text (sequence_file a) ;;
  match t with
  | None => Ok 0%N
  | Some t =>
      f <-? ok_or (from_json t) (Refused "failed to parse the issue sequence") ;;
      if (version f =? SEQUENCE_VERSION)%N then Ok (last_reserved f)
      else Err (Refused "unsupported issue sequence version")
  end.

Definition read_legacy_v2_sequence (a : Authority) (path : P) : result SequenceError LegacyState :=
  t <-? read_optional_text (legacy a path) ;;
  match t with
  | None => Ok Missing
  | Some t =>
      match parse_legacy_sentinel t with
      | Some number => map_ok Fenced number
      | None => map_ok Active (ok_or (parse_u32 (trim t)) (Refused "invalid legacy v2 issue sequence"))
      end
  end.

Definition read_legacy_v2_migration (a : Authority) : result SequenceError (option N) :=
  t <-? read_optional_text (migration_file a) ;;
  match t with
  | None => Ok None
  | Some t =>
      n <-? ok_or (parse_u32 (trim t)) (Refused "invalid legacy v2 issue migration") ;;
      if bool_decide (t = number_line n) then Ok (Some n)
      else Err (Refused "invalid legacy v2 issue migration format")
  end.

Fixpoint max_entry (max : N) (entries : list (option text * File)) : result SequenceError N :=
  match entries with
  | [] => Ok max
  | (None, _) :: _ => Err (Refused "issue reservation filename is not UTF-8")
  | (Some name, file) :: entries =>
      match strip_suffix RESERVATION_SUFFIX name with
      | None => max_entry max entries
      | Some stem =>
          n <-? ok_or (parse_u32 stem) (Refused "invalid issue reservation marker name") ;;
          if negb (bool_decide (name = reservation_name n)) then
            Err (Refused "non-canonical issue reservation marker name")
          else
            match file with
            | Contents t =>
                if bool_decide (t = number_line n) then max_entry (N.max max n) entries
                else Err (Refused "filename and contents disagree")
            | _ => Err Unreadable
            end
      end
  end.

Definition max_reservation (a : Authority) : result SequenceError N :=
  match reservations a with
  | NoDirectory => Ok 0%N
  | Entries entries => max_entry 0 entries
  | BrokenDirectory => Err Unreadable
  end.

Fixpoint read_all {A} (read : P -> result SequenceError A) (paths : list P)
    : result SequenceError (list (P * A)) :=
  match paths with
  | [] => Ok []
  | p :: paths => x <-? read p ;; xs <-? read_all read paths ;; Ok ((p, x) :: xs)
  end.

(** *** Writing: an atomic replacement that may be the last thing that happens *)
Record World : Type := mkWorld {
  authority : Authority;
  writes_left : nat
}.

Notation M := (st World SequenceError).

Definition write (f : Authority -> Authority) : M unit :=
  fun w =>
    match writes_left w with
    | 0 => (Err WriteFailed, w)
    | S n => (Ok tt, mkWorld (f (authority w)) n)
    end.

Definition put_sequence (file : File) (a : Authority) : Authority :=
  mkAuthority file (migration_file a) (reservations a) (legacy a).
Definition put_migration (file : File) (a : Authority) : Authority :=
  mkAuthority (sequence_file a) file (reservations a) (legacy a).
Definition put_reservations (dir : Directory) (a : Authority) : Authority :=
  mkAuthority (sequence_file a) (migration_file a) dir (legacy a).
Definition put_legacy (path : P) (file : File) (a : Authority) : Authority :=
  mkAuthority (sequence_file a) (migration_file a) (reservations a) (<[path := file]> (legacy a)).

(** [fs::create_dir_all] *)
Definition create_directory (d : Directory) : Directory :=
  match d with NoDirectory => Entries [] | d => d end.

(** A rename onto [name] in a listing. *)
Fixpoint put_entry (name : text) (file : File) (entries : list (option text * File))
    : list (option text * File) :=
  match entries with
  | [] => [(Some name, file)]
  | (other, old) :: entries =>
      if bool_decide (other = Some name) then (other, file) :: entries
      else (other, old) :: put_entry name file entries
  end.
Definition put_file (name : text) (file : File) (d : Directory) : Directory :=
  match d with Entries entries => Entries (put_entry name file entries) | d => d end.

Definition write_legacy_sentinel (path : P) (n : N) : M unit :=
  write (put_legacy path (Contents (legacy_sentinel n))).

Definition write_reservation_marker (n : N) : M unit :=
  write (fun a => put_reservations (create_directory (reservations a)) a) ;;;
  write (fun a => put_reservations
                    (put_file (reservation_name n) (Contents (number_line n)) (reservations a)) a).

Definition write_sequence (n : N) : M unit :=
  write (put_sequence (Contents (to_json (mkSequenceFile SEQUENCE_VERSION n)))).

Definition write_migration (n : N) : M unit := write (put_migration (Contents (number_line n))).

Definition write_reservation (n : N) : M unit := write_reservation_marker n ;;; write_sequence n.

(** *** One reservation *)
Record Observed : Type := mkObserved {
  o_existing : N;
  o_sequence : N;
  o_migration : option N;
  o_journal : N;
  o_legacy : list (P * LegacyState)
}.

(** Every authority input is read before the first write. *)
Definition observe (paths : result SequenceError (list P)) (max_existing : result SequenceError N)
    (a : Authority) : result SequenceError Observed :=
  paths <-? paths ;;
  existing <-? max_existing ;;
  sequence <-? read_sequence a ;;
  migration <-? read_legacy_v2_migration a ;;
  journal <-? max_reservation a ;;
  legacy_states <-? read_all (read_legacy_v2_sequence a) paths ;;
  Ok (mkObserved existing sequence migration journal legacy_states).

(** [shared] is the path of the shared counter of a Git repository; a workspace
    outside Git has none. *)
Definition shared_fence_agrees (shared : option P) (o : Observed) : result SequenceError unit :=
  match shared, o_migration o with
  | Some shared, Some marker_floor =>
      match find_first (at_key fst shared) (o_legacy o) with
      | None => Err (Refused "Git issue allocation did not inspect its shared legacy authority")
      | Some (_, Fenced floor) =>
          if (marker_floor <=? floor)%N then Ok tt
          else Err (Refused "shared legacy v2 issue sequence fence disagrees with migration marker")
      | Some _ => Err (Refused "shared legacy v2 issue sequence fence disagrees with migration marker")
      end
  | _, _ => Ok tt
  end.

(** [iter().max().unwrap_or(0)] *)
Definition legacy_floor (states : list (P * LegacyState)) : N :=
  foldr (fun s floor => N.max (state_floor s.2) floor) 0%N states.

Definition floor_of (o : Observed) : N :=
  N.max (N.max (N.max (N.max (o_existing o) (o_sequence o)) (o_journal o))
           (default 0%N (o_migration o))) (legacy_floor (o_legacy o)).

Definition is_fenced (s : P * LegacyState) : bool := match s.2 with Fenced _ => true | _ => false end.
Definition fenced_at (floor : N) (s : P * LegacyState) : bool := bool_decide (s.2 = Fenced floor).

Definition needs_migration (shared : option P) (o : Observed) : bool :=
  let git_marker_incomplete := bool_decide (is_Some shared) && negb (bool_decide (is_Some (o_migration o))) in
  let fences_match_git_marker :=
    match o_migration o with
    | Some marker_floor => forallb (fenced_at marker_floor) (o_legacy o)
    | None => false
    end in
  git_marker_incomplete ||
  (if bool_decide (is_Some shared) then negb fences_match_git_marker
   else existsb (fun s => negb (is_fenced s)) (o_legacy o)).

Definition terminal_exhaustion (shared : option P) (o : Observed) : bool :=
  (floor_of o =? U32_MAX)%N && (o_sequence o =? U32_MAX)%N &&
  forallb (fenced_at U32_MAX) (o_legacy o) &&
  (negb (bool_decide (is_Some shared)) || bool_decide (o_migration o = Some U32_MAX)).

Definition exhausted : SequenceError :=
  Refused "cannot allocate another issue number because the u32 range is exhausted".

Definition single_unfenced_legacy (states : list (P * LegacyState))
    : result SequenceError (option (P * LegacyState)) :=
  match retain (fun s => negb (is_fenced s)) states with
  | [] => Ok None
  | [first] => Ok (Some first)
  | _ => Err (Refused "multiple independent legacy v2 issue authorities are not fenced")
  end.

Definition finish_exhausted_migration (shared : option P) (states : list (P * LegacyState)) : M unit :=
  st_lift (single_unfenced_legacy states) ;;;
  st_iter (fun s => write_legacy_sentinel s.1 U32_MAX) states ;;;
  (if bool_decide (is_Some shared) then write_migration U32_MAX else st_ret tt) ;;;
  write_sequence U32_MAX.

(** Sorting by priority and path: the states come in path order. *)
Definition fence_order (states : list (P * LegacyState)) : list (P * LegacyState) :=
  retain (fun s => match s.2 with Active _ => true | _ => false end) states ++
  retain (fun s => match s.2 with Missing => true | _ => false end) states ++
  retain is_fenced states.

(** [u32::checked_add] *)
Definition checked_succ (floor : N) : result SequenceError N :=
  if (floor <? U32_MAX)%N then Ok (floor + 1)%N
  else Err (Refused "a non-exhausted issue floor must have a following number").

Definition migrate_and_reserve (shared : option P) (floor : N) (states : list (P * LegacyState)) : M N :=
  number <-! st_lift (checked_succ floor) ;;
  st_lift (single_unfenced_legacy states) ;;;
  st_iter (fun s => write_legacy_sentinel s.1 number) (fence_order states) ;;;
  write_reservation_marker number ;;;
  (if bool_decide (is_Some shared) then write_migration number else st_ret tt) ;;;
  write_sequence number ;;;
  st_ret number.

(** [reserve_with_max] *)
Definition reserve (shared : option P) (paths : result SequenceError (list P))
    (max_existing : result SequenceError N) : M N :=
  w <-! st_get ;;
  o <-! st_lift (observe paths max_existing (authority w)) ;;
  st_lift (shared_fence_agrees shared o) ;;;
  let floor := floor_of o in
  if terminal_exhaustion shared o then st_throw exhausted
  else if (floor =? U32_MAX)%N then
    finish_exhausted_migration shared (o_legacy o) ;;;
    st_throw exhausted
  else if negb (needs_migration shared o) then
    number <-! st_lift (checked_succ floor) ;;
    write_reservation number ;;;
    st_ret number
  else migrate_and_reserve shared floor (o_legacy o).

End sequence.
Arguments Authority : clear implicits.
Arguments World : clear implicits.
