(* ===== verification/NumberLaws.v ===== *)
(** * No issue number is handed out twice

    The reservation of [NumberSequence] under crashes: every number it returns is
    fresh for ever, a reservation cut short at any write leaves a workspace the
    next one accepts, and a successful one fences every older counter. *)
From S2P Require Export NumberSequence.
From stdpp Require Import functions.

(** ** Texts that are read back *)
Lemma strip_prefix_app p t : strip_prefix p (p ++ t) = Some t.
Proof.
  induction p as [|c p IH]; [done|]. cbn [app strip_prefix]. unfold is_char. by rewrite N.eqb_refl.
Qed.

Lemma strip_suffix_app s t : strip_suffix s (t ++ s) = Some t.
Proof. unfold strip_suffix. rewrite reverse_app, strip_prefix_app. cbn. by rewrite reverse_involutive. Qed.

Lemma trim_number_line n : trim (number_line n) = print_u32 n.
Proof.
  unfold number_line, trim, trim_matches. assert (Hp := print_u32_plain n).
  destruct (print_u32 n) as [|c t] eqn:E; [by assert (H := print_u32_nonempty n); rewrite E in H|].
  cbn [app]. rewrite trim_start_stop by by apply (free_elem _ _ _ Hp); left.
  change (c :: t ++ [NL]) with ((c :: t) ++ [NL]). rewrite trim_end_snoc by done. by apply trim_end_none.
Qed.

Lemma parse_zeros k t : parse_digits U32_MAX (replicate k (digit 0) ++ t) 0 = parse_digits U32_MAX t 0.
Proof. induction k as [|k IH]; [done|]. cbn [replicate app parse_digits]. exact IH. Qed.

Lemma parse_padded k n :
  (n <= U32_MAX)%N -> parse_u32 (replicate k (digit 0) ++ print_u32 n) = Some n.
Proof.
  intros Hn. destruct k as [|k]; [by apply parse_print_u32|].
  unfold parse_u32, parse_uint. cbn [replicate app]. change (strip_prefix_char PLUS (digit 0 :: ?t)) with (@None text).
  cbn [default from_option id is_empty]. change (digit 0 :: replicate k (digit 0) ++ print_u32 n)
    with (replicate (S k) (digit 0) ++ print_u32 n).
  rewrite parse_zeros. assert (H := parse_print_u32 n Hn). unfold parse_u32, parse_uint in H.
  destruct (print_u32 n) as [|c t] eqn:E; [done|].
  assert (Hc := print_u32_chars n). rewrite E in Hc. cbn [forallb] in Hc.
  apply andb_true_iff in Hc as [Hc _]. cbn [strip_prefix_char] in H. unfold is_char in H.
  replace (c =? PLUS)%N with false in H; [exact H|].
  symmetry. apply N.eqb_neq. intros ->. done.
Qed.

Lemma parse_digits_bound t n m : (n <= U32_MAX)%N -> parse_digits U32_MAX t n = Some m -> (m <= U32_MAX)%N.
Proof.
  revert n. induction t as [|c t IH]; intros n Hn; cbn [parse_digits]; [by intros [= <-]|].
  destruct ((48 <=? c) && (c <=? 57))%N; [|done].
  destruct (n * 10 + (c - 48) <=? U32_MAX)%N eqn:E; [|done]. apply IH. by apply N.leb_le.
Qed.

Lemma parse_u32_bound t n : parse_u32 t = Some n -> (n <= U32_MAX)%N.
Proof.
  unfold parse_u32, parse_uint. destruct (is_empty _); [done|]. by apply parse_digits_bound.
Qed.

Lemma parse_sentinel n :
  (n <= U32_MAX)%N -> parse_legacy_sentinel (legacy_sentinel n) = Some (Ok n).
Proof.
  intros Hn. unfold parse_legacy_sentinel, legacy_sentinel. rewrite strip_prefix_app.
  cbn [fmap option_fmap option_map]. unfold number_line at 1. rewrite strip_suffix_snoc.
  rewrite parse_print_u32 by done. cbn [ok_or res_bind]. by rewrite bool_decide_eq_true_2.
Qed.

(** An old writer, which reads its counter as a decimal number, rejects a fence. *)
Lemma sentinel_rejected n : parse_u32 (trim (legacy_sentinel n)) = None.
Proof.
  destruct (trim (legacy_sentinel n)) as [|c t] eqn:E; [done|].
  assert (Hc : c = 109%N).
  { unfold trim, trim_matches, legacy_sentinel in E.
    change (LEGACY_V2_SENTINEL_PREFIX ++ number_line n)
      with (109%N :: tail LEGACY_V2_SENTINEL_PREFIX ++ number_line n) in E.
    rewrite trim_start_stop in E by done. symmetry. exact (trim_end_head _ _ _ _ _ _ eq_refl E). }
  subst c. reflexivity.
Qed.

Lemma read_reservation_name n :
  (n <= U32_MAX)%N -> exists stem,
    strip_suffix RESERVATION_SUFFIX (reservation_name n) = Some stem /\ parse_u32 stem = Some n.
Proof.
  intros Hn. exists (replicate (10 - length (print_u32 n)) (digit 0) ++ print_u32 n).
  split; [|by apply parse_padded]. unfold reservation_name. rewrite (assoc_L (++)).
  apply strip_suffix_app.
Qed.

Lemma reservation_name_inj n m :
  (n <= U32_MAX)%N -> (m <= U32_MAX)%N -> reservation_name n = reservation_name m -> n = m.
Proof.
  intros Hn Hm E. destruct (read_reservation_name n Hn) as (s1 & E1 & P1).
  destruct (read_reservation_name m Hm) as (s2 & E2 & P2). rewrite E in E1. congruence.
Qed.

(** ** Programs over the authority

    [spec Pre k m Post Any]: started on an authority of [Pre], [m] either makes
    its [k] writes and ends in [Post], or runs out of writes and leaves the
    authority in [Any]. *)
Section spec.
Context {P : Type} `{EqDecision P} `{J : SequenceJson}.
Notation A := (Authority P).
Notation M := (st (World P) SequenceError).

Definition spec {X} (Pre : A -> Prop) (k : nat) (m : M X) (Post : X -> A -> Prop) (Any : A -> Prop) : Prop :=
  forall w, Pre (authority w) ->
    (exists x w', m w = (Ok x, w') /\ Post x (authority w') /\ writes_left w = k + writes_left w') \/
    (exists w', m w = (Err WriteFailed, w') /\ writes_left w < k /\ Any (authority w')).

Lemma spec_ret {X} (Pre : A -> Prop) (x : X) Post Any :
  (forall a, Pre a -> Post x a) -> spec Pre 0 (st_ret x) Post Any.
Proof. intros H w Hw. left. exists x, w. auto. Qed.

Lemma spec_lift {X} (Pre : A -> Prop) (x : X) Post Any :
  (forall a, Pre a -> Post x a) -> spec Pre 0 (st_lift (Ok x)) Post Any.
Proof. apply spec_ret. Qed.

Lemma spec_write (Pre : A -> Prop) f Post Any :
  (forall a, Pre a -> Post tt (f a)) -> (forall a, Pre a -> Any a) -> spec Pre 1 (write f) Post Any.
Proof.
  intros H1 H2 [a [|n]] Hw; [right|left]; cbn in *.
  - exists (mkWorld a 0). split_and!; [done|lia|by apply H2].
  - exists tt, (mkWorld (f a) n). split_and!; [done|by apply H1|done].
Qed.

Lemma spec_bind {X Y} (Pre : A -> Prop) k1 k2 (m : M X) (f : X -> M Y) Mid Post Any :
  spec Pre k1 m Mid Any -> (forall x, spec (Mid x) k2 (f x) Post Any) ->
  spec Pre (k1 + k2) (st_bind m f) Post Any.
Proof.
  intros Hm Hf w Hw. unfold st_bind.
  destruct (Hm w Hw) as [(x & w1 & -> & H1 & E1)|(w1 & -> & E1 & H1)].
  - destruct (Hf x w1 H1) as [(y & w2 & -> & H2 & E2)|(w2 & -> & E2 & H2)]; [left|right].
    + exists y, w2. split_and!; [done|done|lia].
    + exists w2. split_and!; [done|lia|done].
  - right. exists w1. split_and!; [done|lia|done].
Qed.

Lemma spec_pure {X Y} (Pre : A -> Prop) k (r : result SequenceError X) (f : X -> M Y) x Post Any :
  r = Ok x -> spec Pre k (f x) Post Any -> spec Pre k (st_bind (st_lift r) f) Post Any.
Proof. intros -> Hf w Hw. exact (Hf w Hw). Qed.

Lemma spec_weaken {X} (Pre Pre' : A -> Prop) k (m : M X) (Post Post' : X -> A -> Prop) (Any Any' : A -> Prop) :
  spec Pre k m Post Any -> (forall a, Pre' a -> Pre a) ->
  (forall x a, Post x a -> Post' x a) -> (forall a, Any a -> Any' a) -> spec Pre' k m Post' Any'.
Proof.
  intros Hm H1 H2 H3 w Hw. destruct (Hm w (H1 _ Hw)) as [(x & w1 & E & H & L)|(w1 & E & L & H)].
  - left. exists x, w1. auto.
  - right. exists w1. auto.
Qed.

(** A loop: [I l] holds when the elements of [l] have been handled. *)
Lemma spec_iter {Y} (I : list Y -> A -> Prop) (body : Y -> M unit) l Any :
  (forall done x rest, l = done ++ x :: rest -> spec (I done) 1 (body x) (fun _ => I (done ++ [x])) Any) ->
  spec (I []) (length l) (st_iter body l) (fun _ => I l) Any.
Proof.
  assert (H : forall rest done, l = done ++ rest ->
    (forall done x rest, l = done ++ x :: rest -> spec (I done) 1 (body x) (fun _ => I (done ++ [x])) Any) ->
    spec (I done) (length rest) (st_iter body rest) (fun _ => I l) Any).
  { induction rest as [|x rest IH]; intros dn E Hb.
    - rewrite app_nil_r in E. subst dn. by apply spec_ret.
    - change (length (x :: rest)) with (1 + length rest). cbn [st_iter].
      apply (spec_bind _ _ _ _ _ (fun _ => I (dn ++ [x]))); [by apply (Hb dn x rest)|].
      intros _. apply IH; [|done]. by rewrite <- (assoc_L (++)). }
  intros Hb. by apply (H l []).
Qed.
End spec.

(** ** Reading back what was written *)
Section readback.
Context {P : Type} `{EqDecision P} {J : SequenceJson} `{!SequenceJsonLaws J}.
Notation A := (Authority P).

Lemma read_put_sequence (a : A) n :
  (n <= U32_MAX)%N ->
  read_sequence (put_sequence (Contents (to_json (mkSequenceFile SEQUENCE_VERSION n))) a) = Ok n.
Proof.
  intros Hn. unfold read_sequence. cbn [put_sequence sequence_file read_optional_text res_bind].
  by rewrite from_to_json.
Qed.

Lemma read_put_migration (a : A) n :
  (n <= U32_MAX)%N -> read_legacy_v2_migration (put_migration (Contents (number_line n)) a) = Ok (Some n).
Proof.
  intros Hn. unfold read_legacy_v2_migration. cbn [put_migration migration_file read_optional_text res_bind].
  rewrite trim_number_line, parse_print_u32 by done. cbn [ok_or res_bind]. by rewrite bool_decide_eq_true_2.
Qed.

Lemma read_put_legacy (a : A) p q n :
  (n <= U32_MAX)%N ->
  read_legacy_v2_sequence (put_legacy p (Contents (legacy_sentinel n)) a) q =
  if decide (p = q) then Ok (Fenced n) else read_legacy_v2_sequence a q.
Proof.
  intros Hn. unfold read_legacy_v2_sequence. cbn [put_legacy legacy].
  destruct (decide (p = q)) as [<-|Hne].
  - rewrite fn_lookup_insert. cbn [read_optional_text res_bind]. by rewrite parse_sentinel.
  - by rewrite fn_lookup_insert_ne.
Qed.

(** *** The journal *)
Definition marked (n : N) (a : A) : Prop :=
  exists es, reservations a = Entries es /\ (Some (reservation_name n), Contents (number_line n)) ∈ es.

Lemma max_entry_ge es m j : max_entry m es = Ok j -> (m <= j)%N.
Proof.
  revert m. induction es as [|[[name|] file] es IH]; intros m; cbn [max_entry]; [by intros [= <-]| |done].
  destruct (strip_suffix _ name) as [stem|]; [|apply IH].
  destruct (parse_u32 stem) as [n|]; cbn [ok_or res_bind]; [|done].
  destruct (negb _); [done|]. destruct file as [|t|]; [done| |done].
  destruct (bool_decide _); [|done]. intros H%IH. lia.
Qed.

Lemma max_entry_bound es m j : (m <= U32_MAX)%N -> max_entry m es = Ok j -> (j <= U32_MAX)%N.
Proof.
  revert m. induction es as [|[[name|] file] es IH]; intros m Hm; cbn [max_entry]; [by intros [= <-]| |done].
  destruct (strip_suffix _ name) as [stem|]; [|by apply IH].
  destruct (parse_u32 stem) as [n|] eqn:E; cbn [ok_or res_bind]; [|done]. apply parse_u32_bound in E.
  destruct (negb _); [done|]. destruct file as [|t|]; [done| |done].
  destruct (bool_decide _); [|done]. apply IH. lia.
Qed.

Lemma max_entry_marked es m j n :
  (n <= U32_MAX)%N -> max_entry m es = Ok j ->
  (Some (reservation_name n), Contents (number_line n)) ∈ es -> (n <= j)%N.
Proof.
  intros Hn. revert m. induction es as [|[name file] es IH]; intros m Hm Hin; [by apply not_elem_of_nil in Hin|].
  apply elem_of_cons in Hin as [[= <- <-]|Hin].
  - cbn [max_entry] in Hm. destruct (read_reservation_name n Hn) as (stem & Es & Ep). rewrite Es, Ep in Hm.
    cbn [ok_or res_bind] in Hm. rewrite !bool_decide_eq_true_2 in Hm by done. cbn [negb] in Hm.
    apply max_entry_ge in Hm. lia.
  - destruct name as [name|]; cbn [max_entry] in Hm; [|done].
    destruct (strip_suffix _ name) as [stem|]; [|by eapply IH].
    destruct (parse_u32 stem) as [x|]; cbn [ok_or res_bind] in Hm; [|done].
    destruct (negb _); [done|]. destruct file as [|t|]; [done| |done].
    destruct (bool_decide _); [|done]. by eapply IH.
Qed.

Lemma max_entry_mono es m m' j :
  max_entry m es = Ok j -> max_entry (N.max m m') es = Ok (N.max j m').
Proof.
  revert m. induction es as [|[[name|] file] es IH]; intros m; cbn [max_entry]; [by intros [= <-]| |done].
  destruct (strip_suffix _ name) as [stem|]; [|apply IH].
  destruct (parse_u32 stem) as [n|]; cbn [ok_or res_bind]; [|done].
  destruct (negb _); [done|]. destruct file as [|t|]; [done| |done].
  destruct (bool_decide _); [|done]. intros H%IH. rewrite <- H. f_equal. lia.
Qed.

Lemma max_entry_put es m j n :
  (n <= U32_MAX)%N -> max_entry m es = Ok j ->
  max_entry m (put_entry (reservation_name n) (Contents (number_line n)) es) = Ok (N.max j n).
Proof.
  intros Hn. destruct (read_reservation_name n Hn) as (stem & Es & Ep). revert m.
  assert (Hone : forall m es', max_entry m ((Some (reservation_name n), Contents (number_line n)) :: es') =
    max_entry (N.max m n) es').
  { intros m es'. cbn [max_entry]. rewrite Es, Ep. cbn [ok_or res_bind]. by rewrite !bool_decide_eq_true_2. }
  induction es as [|[name file] es IH]; intros m Hm; cbn [put_entry].
  - rewrite Hone. cbn in *. by injection Hm as <-.
  - destruct (bool_decide (name = Some (reservation_name n))) eqn:E.
    + apply bool_decide_eq_true in E. subst name. rewrite Hone.
      assert (Hx : exists m', max_entry m' es = Ok j /\ (N.max m n <= m')%N /\ (m' <= N.max m n)%N).
      { cbn [max_entry] in Hm. rewrite Es, Ep in Hm. cbn [ok_or res_bind] in Hm.
        rewrite bool_decide_eq_true_2 in Hm by done. cbn [negb] in Hm.
        destruct file as [|t|]; [done| |done]. destruct (bool_decide _); [|done].
        exists (N.max m n). split_and!; [done|lia|lia]. }
      destruct Hx as (m' & Hm' & ? & ?). replace (N.max m n) with m' by lia. rewrite Hm'. f_equal.
      apply max_entry_ge in Hm'. lia.
    + destruct name as [name|]; cbn [max_entry] in *; [|done].
      destruct (strip_suffix _ name) as [st|]; [|by apply IH].
      destruct (parse_u32 st) as [x|]; cbn [ok_or res_bind] in *; [|done].
      destruct (negb _); [done|]. destruct file as [|t|]; [done| |done].
      destruct (bool_decide _); [|done]. by apply IH.
Qed.

Lemma put_entry_in name file es : (Some name, file) ∈ put_entry name file es.
Proof.
  induction es as [|[other old] es IH]; cbn [put_entry]; [left|].
  destruct (bool_decide _) eqn:E; [|by right]. apply bool_decide_eq_true in E. subst. left.
Qed.

Lemma put_entry_keeps n m es :
  (n <= U32_MAX)%N -> (m <= U32_MAX)%N ->
  (Some (reservation_name m), Contents (number_line m)) ∈ es ->
  (Some (reservation_name m), Contents (number_line m)) ∈
    put_entry (reservation_name n) (Contents (number_line n)) es.
Proof.
  intros Hn Hm. induction es as [|[other old] es IH]; cbn [put_entry]; [by intros ?%not_elem_of_nil|].
  intros Hin. destruct (bool_decide (other = _)) eqn:E.
  - apply bool_decide_eq_true in E. subst other. apply elem_of_cons in Hin as [[= E1 E2]|Hin]; [|by right].
    apply reservation_name_inj in E1; [|done..]. subst m. left.
  - apply elem_of_cons in Hin as [<-|Hin]; [left|right; auto].
Qed.

Definition after_marker (n : N) (a : A) : A :=
  let a := put_reservations (create_directory (reservations a)) a in
  put_reservations (put_file (reservation_name n) (Contents (number_line n)) (reservations a)) a.

Lemma journal_after (a : A) j n :
  (n <= U32_MAX)%N -> max_reservation a = Ok j ->
  max_reservation (after_marker n a) = Ok (N.max j n) /\ marked n (after_marker n a).
Proof.
  intros Hn. unfold max_reservation, marked, after_marker. cbn [put_reservations reservations].
  destruct (reservations a) as [|es|]; cbn [create_directory put_file]; [|intros Hj|done].
  - intros [= <-]. split; [by rewrite (max_entry_put [] 0 0 n)|]. eexists. split; [done|]. apply put_entry_in.
  - split; [by apply max_entry_put|]. eexists. split; [done|]. apply put_entry_in.
Qed.

Lemma marked_after (a : A) n m :
  (n <= U32_MAX)%N -> (m <= U32_MAX)%N -> marked m a -> marked m (after_marker n a).
Proof.
  intros Hn Hm (es & E & Hin). unfold marked, after_marker. cbn [put_reservations reservations].
  rewrite E. cbn [create_directory put_file]. eexists. split; [done|]. by apply put_entry_keeps.
Qed.

Lemma journal_covers (a : A) j n :
  (n <= U32_MAX)%N -> max_reservation a = Ok j -> marked n a -> (n <= j)%N.
Proof.
  intros Hn Hj (es & E & Hin). unfold max_reservation in Hj. rewrite E in Hj. by eapply max_entry_marked.
Qed.
End readback.

(** ** Numbers stay fresh *)
Section freshness.
Context {P : Type} `{EqDecision P} {J : SequenceJson} `{!SequenceJsonLaws J}.
Notation A := (Authority P).
Notation M := (st (World P) SequenceError).

(** [m] keeps [Q] on every path, a failing one included. *)
Definition keeps {X} (Q : A -> Prop) (m : M X) : Prop :=
  forall w r w', m w = (r, w') -> Q (authority w) -> Q (authority w').

Lemma keeps_ret {X} Q (x : X) : keeps Q (st_ret x).
Proof. by intros w r w' [= _ <-]. Qed.
Lemma keeps_throw {X} Q e : keeps Q (st_throw e : M X).
Proof. by intros w r w' [= _ <-]. Qed.
Lemma keeps_lift {X} Q (x : result SequenceError X) : keeps Q (st_lift x).
Proof. by intros w r w' [= _ <-]. Qed.
Lemma keeps_get Q : keeps Q (st_get : M (World P)).
Proof. by intros w r w' [= _ <-]. Qed.

Lemma keeps_write (Q : A -> Prop) f : (forall a, Q a -> Q (f a)) -> keeps Q (write f).
Proof.
  intros Hf w r w' H. unfold write in H. destruct (writes_left w); injection H as _ <-; [done|]. apply Hf.
Qed.

Lemma keeps_bind {X Y} Q (m : M X) (f : X -> M Y) :
  keeps Q m -> (forall x w w', m w = (Ok x, w') -> keeps Q (f x)) -> keeps Q (st_bind m f).
Proof.
  intros Hm Hf w r w' H Hw. apply st_bind_inv in H as [(x & s & H1 & H2)|(e & H1 & _)].
  - eapply Hf; [exact H1|exact H2|]. by eapply Hm.
  - by eapply Hm.
Qed.

Lemma keeps_iter {Y} Q (body : Y -> M unit) l : (forall x, keeps Q (body x)) -> keeps Q (st_iter body l).
Proof.
  intros Hb. induction l as [|x l IH]; [apply keeps_ret|]. cbn [st_iter].
  apply keeps_bind; [apply Hb|]. intros _ _ _ _. exact IH.
Qed.

Lemma keeps_if {X} Q (b : bool) (m1 m2 : M X) : keeps Q m1 -> keeps Q m2 -> keeps Q (if b then m1 else m2).
Proof. by destruct b. Qed.

Lemma checked_succ_ok floor n : checked_succ floor = Ok n -> n = (floor + 1)%N /\ (n <= U32_MAX)%N.
Proof. unfold checked_succ. destruct (floor <? U32_MAX)%N eqn:E; [|done]. apply N.ltb_lt in E. intros [= <-]. lia. Qed.

Lemma lifted_succ floor (w : World P) n w' :
  st_lift (checked_succ floor) w = (Ok n, w') -> (n <= U32_MAX)%N.
Proof. intros [= H _]. by apply checked_succ_ok in H as [_ ?]. Qed.

Ltac keep :=
  repeat lazymatch goal with
  | |- keeps _ (st_bind _ _) => apply keeps_bind; [|intros]
  | |- keeps _ (st_iter _ _) => apply keeps_iter; intros ?
  | |- keeps _ (if _ then _ else _) => apply keeps_if
  | |- keeps _ (st_lift _) => apply keeps_lift
  | |- keeps _ (st_ret _) => apply keeps_ret
  | |- keeps _ (st_throw _) => apply keeps_throw
  | |- keeps _ st_get => apply keeps_get
  | |- keeps _ (let _ := _ in _) => cbv zeta
  end.

Lemma marker_keeps n m :
  (n <= U32_MAX)%N -> (m <= U32_MAX)%N -> keeps (marked m) (write_reservation_marker n).
Proof.
  intros Hn Hm. unfold write_reservation_marker.
  apply keeps_bind; [|intros _ _ _ _]; apply keeps_write; intros a (es & E & Hin).
  - exists es. cbn. by rewrite E.
  - eexists. cbn. rewrite E. split; [done|]. by apply put_entry_keeps.
Qed.

Lemma elsewhere_keeps n f :
  (forall a, reservations (f a) = reservations a) -> keeps (marked n) (write f : M unit).
Proof. intros Hf. apply keeps_write. intros a (es & E & Hin). exists es. by rewrite Hf. Qed.

(** No reservation removes a marker, whatever it reads and wherever it stops. *)
Lemma reserve_keeps shared paths existing m :
  (m <= U32_MAX)%N -> keeps (marked m) (reserve shared paths existing).
Proof.
  intros Hm. unfold reserve, migrate_and_reserve, finish_exhausted_migration, write_reservation.
  keep; try by (apply elsewhere_keeps).
  - apply marker_keeps; eauto using lifted_succ.
  - apply marker_keeps; eauto using lifted_succ.
Qed.

Lemma write_ok (f : A -> A) (w w' : World P) u : write f w = (Ok u, w') -> authority w' = f (authority w).
Proof. unfold write. destruct (writes_left w); [done|]. by intros [= <- <-]. Qed.

Lemma marker_marks n (w w' : World P) u :
  (exists j, max_reservation (authority w) = Ok j) -> (n <= U32_MAX)%N ->
  write_reservation_marker n w = (Ok u, w') -> marked n (authority w').
Proof.
  intros [j Hj] Hn H. unfold write_reservation_marker in H.
  apply st_bind_ok_inv in H as (v & w1 & H1%write_ok & H2%write_ok).
  destruct (journal_after (authority w) j n Hn Hj) as [_ Hmark]. rewrite H2, H1. exact Hmark.
Qed.
End freshness.

(** ** A reservation against the values it reads *)
Section tracked.
Context {P : Type} `{EqDecision P} {J : SequenceJson} `{!SequenceJsonLaws J}.
Context (shared : option P) (paths : list P).
Notation A := (Authority P).
Notation M := (st (World P) SequenceError).

(** The authority reads as a sequence, a migration marker, a journal maximum and
    the state of every older counter. *)
Definition holds (s : N) (m : option N) (j : N) (F : P -> LegacyState) (a : A) : Prop :=
  read_sequence a = Ok s /\ read_legacy_v2_migration a = Ok m /\ max_reservation a = Ok j /\
  (forall p, p ∈ paths -> read_legacy_v2_sequence a p = Ok (F p)).

Definition unfenced (l : LegacyState) : Prop := match l with Fenced _ => False | _ => True end.

(** The values a reservation accepts. *)
Definition acceptable (s : N) (m : option N) (j : N) (F : P -> LegacyState) : Prop :=
  (s <= U32_MAX)%N /\ (default 0 m <= U32_MAX)%N /\ (j <= U32_MAX)%N /\
  (forall p, p ∈ paths -> (state_floor (F p) <= U32_MAX)%N) /\
  (forall p q, p ∈ paths -> q ∈ paths -> unfenced (F p) -> unfenced (F q) -> p = q) /\
  (forall sh f, shared = Some sh -> m = Some f -> exists g, F sh = Fenced g /\ (f <= g)%N).

Definition healthy (a : A) : Prop :=
  exists s m j F, holds s m j F a /\ acceptable s m j F.

Definition fence (dn : list P) (n : N) (F : P -> LegacyState) (p : P) : LegacyState :=
  if bool_decide (p ∈ dn) then Fenced n else F p.

Lemma holds_ext s m j F G a : (forall p, p ∈ paths -> F p = G p) -> holds s m j F a -> holds s m j G a.
Proof. intros HFG (H1 & H2 & H3 & H4). split_and!; auto. intros p Hp. rewrite <- HFG by done. auto. Qed.

(** Fencing some of the counters at a number no floor exceeds. *)
Lemma acceptable_fence s m j F dn n :
  acceptable s m j F -> (n <= U32_MAX)%N -> (default 0 m <= n)%N -> acceptable s m j (fence dn n F).
Proof.
  intros (H1 & H2 & H3 & H4 & H5 & H6) Hn Hm. split_and!; [done..| | |].
  - intros p Hp. unfold fence. case_bool_decide; [done|auto].
  - intros p q Hp Hq. unfold fence. do 2 case_bool_decide; try done. auto.
  - intros sh f Esh Ef. unfold fence. case_bool_decide; [|eauto].
    exists n. split; [done|]. subst m. exact Hm.
Qed.

Lemma acceptable_journal s m j F n :
  acceptable s m j F -> (n <= U32_MAX)%N -> acceptable s m (N.max j n) F.
Proof. intros (H1 & H2 & H3 & H4 & H5 & H6) Hn. split_and!; [done|done|lia|done..]. Qed.

Lemma acceptable_sequence s m j F n :
  acceptable s m j F -> (n <= U32_MAX)%N -> acceptable n m j F.
Proof. intros (H1 & H2 & H3 & H4 & H5 & H6) Hn. split_and!; done. Qed.

Lemma acceptable_migration s m j F n :
  acceptable s m j F -> (n <= U32_MAX)%N -> (forall sh, shared = Some sh -> F sh = Fenced n) ->
  acceptable s (Some n) j F.
Proof.
  intros (H1 & H2 & H3 & H4 & H5 & H6) Hn Hsh. split_and!; [done..|].
  intros sh f Esh [= <-]. exists n. split; [auto|done].
Qed.

Lemma holds_healthy s m j F a : acceptable s m j F -> holds s m j F a -> healthy a.
Proof. intros H1 H2. by exists s, m, j, F. Qed.

(** *** The writes *)
Lemma spec_sequence s m j F n :
  acceptable s m j F -> (n <= U32_MAX)%N -> spec (holds s m j F) 1 (write_sequence n) (fun _ => holds n m j F) healthy.
Proof.
  intros Hok Hn. apply spec_write; [|intros a; by apply holds_healthy].
  intros a (H1 & H2 & H3 & H4). split_and!; [by apply read_put_sequence|done..].
Qed.

Lemma spec_migration s m j F n :
  acceptable s m j F -> (n <= U32_MAX)%N ->
  spec (holds s m j F) 1 (write_migration n) (fun _ => holds s (Some n) j F) healthy.
Proof.
  intros Hok Hn. apply spec_write; [|intros a; by apply holds_healthy].
  intros a (H1 & H2 & H3 & H4). split_and!; [done|by apply read_put_migration|done..].
Qed.

Lemma spec_marker s m j F n :
  acceptable s m j F -> (n <= U32_MAX)%N ->
  spec (holds s m j F) 2 (write_reservation_marker n) (fun _ => holds s m (N.max j n) F) healthy.
Proof.
  intros Hok Hn. unfold write_reservation_marker.
  apply (spec_bind _ 1 1 _ _ (fun _ a => holds s m j F a /\ exists es, reservations a = Entries es)).
  - apply spec_write; [|intros a; by apply holds_healthy].
    intros a (H1 & H2 & H3 & H4). unfold max_reservation in H3. split.
    + split_and!; [done|done| |done]. unfold max_reservation. cbn [put_reservations reservations].
      by destruct (reservations a).
    + cbn [put_reservations reservations]. destruct (reservations a); [by eexists|by eexists|done].
  - intros _. apply spec_write; [|intros a [Ha _]; by apply (holds_healthy s m j F)].
    intros a ((H1 & H2 & H3 & H4) & es & E). split_and!; [done|done| |done].
    unfold max_reservation in *. cbn [put_reservations reservations]. rewrite E in *.
    cbn [put_file]. by apply max_entry_put.
Qed.

Lemma spec_fence {T} s m j F n (l : list (P * T)) :
  acceptable s m j F -> (n <= U32_MAX)%N -> (default 0 m <= n)%N ->
  spec (holds s m j F) (length l) (st_iter (fun x => write_legacy_sentinel x.1 n) l)
    (fun _ => holds s m j (fence l.*1 n F)) healthy.
Proof.
  intros Hok Hn Hm.
  assert (H := spec_iter (fun dn : list (P * T) => holds s m j (fence dn.*1 n F))
    (fun x => write_legacy_sentinel x.1 n) l healthy).
  eapply spec_weaken; [apply H| |done|done].
  2: { intros a. apply holds_ext. intros p _. unfold fence. cbn.
       by rewrite bool_decide_eq_false_2 by apply not_elem_of_nil. }
  clear H.
  intros dn x rest _. apply spec_write; [|intros a; apply holds_healthy; by apply acceptable_fence].
  intros a (H1 & H2 & H3 & H4). split_and!; [done..|]. intros p Hp.
  rewrite read_put_legacy by done. rewrite fmap_app. unfold fence in *.
  destruct (decide (x.1 = p)) as [<-|Hne].
  - rewrite bool_decide_eq_true_2; [done|]. apply elem_of_app. right. left.
  - rewrite H4 by done. f_equal.
    assert (E : p ∈ dn.*1 ++ [x].*1 <-> p ∈ dn.*1).
    { rewrite elem_of_app. cbn. split; [|auto]. intros [?|Hp1]; [done|].
      apply elem_of_cons in Hp1 as [->|Hp1]; [done|by apply not_elem_of_nil in Hp1]. }
    by rewrite (bool_decide_ext _ _ E).
Qed.

(** *** What a reservation observes *)
Definition states (F : P -> LegacyState) : list (P * LegacyState) := (fun p => (p, F p)) <$> paths.
Definition seen existing s m j F : Observed := mkObserved existing s m j (states F).

Lemma read_all_map (a : A) F l :
  (forall p, p ∈ l -> read_legacy_v2_sequence a p = Ok (F p)) ->
  read_all (read_legacy_v2_sequence a) l = Ok ((fun p => (p, F p)) <$> l).
Proof.
  induction l as [|p l IH]; intros H; [done|]. cbn [read_all]. rewrite H by left. cbn [res_bind].
  rewrite IH; [done|]. intros q Hq. apply H. by right.
Qed.

Lemma observe_holds s m j F a existing :
  holds s m j F a -> observe (Ok paths) (Ok existing) a = Ok (seen existing s m j F).
Proof.
  intros (H1 & H2 & H3 & H4). unfold observe. cbn [res_bind]. rewrite H1, H2, H3. cbn [res_bind].
  by rewrite (read_all_map a F).
Qed.

Lemma find_state F sh : sh ∈ paths -> find_first (at_key fst sh) (states F) = Some (sh, F sh).
Proof.
  intros Hin. destruct (find_first_is_Some (at_key fst sh) (states F) (sh, F sh)) as [[q l] E].
  - apply list_elem_of_fmap. eauto.
  - by apply at_key_true.
  - rewrite E. apply kfind_Some in E as [E Eq]. apply list_elem_of_fmap in E as (x & [= -> ->] & _).
    cbn in Eq. by subst x.
Qed.

Lemma fence_agrees existing s m j F :
  acceptable s m j F -> (forall sh, shared = Some sh -> sh ∈ paths) ->
  shared_fence_agrees shared (seen existing s m j F) = Ok tt.
Proof.
  intros (_ & _ & _ & _ & _ & H) Hin. unfold shared_fence_agrees, seen. cbn [o_migration o_legacy].
  destruct shared as [sh|]; [|done]. destruct m as [f|]; [|done].
  rewrite find_state by by apply Hin. destruct (H sh f eq_refl eq_refl) as (g & -> & Hg).
  by rewrite (proj2 (N.leb_le _ _) Hg).
Qed.

Lemma legacy_floor_ge F p : p ∈ paths -> (state_floor (F p) <= legacy_floor (states F))%N.
Proof.
  unfold states, legacy_floor. induction paths as [|q l IH]; intros Hp; [by apply not_elem_of_nil in Hp|].
  rewrite fmap_cons. cbn [foldr snd]. apply elem_of_cons in Hp as [->|Hp]; [lia|]. specialize (IH Hp). lia.
Qed.

Lemma legacy_floor_le F b :
  (forall p, p ∈ paths -> (state_floor (F p) <= b)%N) -> (legacy_floor (states F) <= b)%N.
Proof.
  unfold states, legacy_floor. induction paths as [|q l IH]; intros H; [cbn; lia|].
  rewrite fmap_cons. cbn [foldr snd]. assert (Hq := H q (list_elem_of_here _ _)).
  assert (H' := IH (fun p Hp => H p (list_elem_of_further _ _ _ Hp))). lia.
Qed.

Lemma floor_bounds existing s m j F :
  acceptable s m j F -> (existing <= U32_MAX)%N ->
  let floor := floor_of (seen existing s m j F) in
  (floor <= U32_MAX /\ existing <= floor /\ s <= floor /\ default 0 m <= floor /\ j <= floor /\
   forall p, p ∈ paths -> state_floor (F p) <= floor)%N.
Proof.
  intros (H1 & H2 & H3 & H4 & _) He. unfold floor_of, seen.
  cbn [o_existing o_sequence o_migration o_journal o_legacy]. cbv zeta.
  assert (Hl := legacy_floor_le F U32_MAX H4).
  split_and!; try lia. intros p Hp. assert (H := legacy_floor_ge F p Hp). lia.
Qed.

Lemma is_fenced_unfenced (F : P -> LegacyState) p : is_fenced (p, F p) = false <-> unfenced (F p).
Proof. unfold is_fenced, unfenced. cbn. by destruct (F p). Qed.

Lemma single_accepted s m j F :
  acceptable s m j F -> NoDup paths -> exists first, single_unfenced_legacy (states F) = Ok first.
Proof.
  intros (_ & _ & _ & _ & Hone & _) Hnd. unfold single_unfenced_legacy.
  destruct (retain (fun x => negb (is_fenced x)) (states F)) as [|x [|y l]] eqn:E; [by eexists|by eexists|].
  exfalso.
  assert (Hsub : forall z, z ∈ x :: y :: l -> exists p, p ∈ paths /\ z = (p, F p) /\ unfenced (F p)).
  { intros z Hz. rewrite <- E in Hz. apply elem_of_retain in Hz as [Hz Hf%negb_true_iff].
    apply list_elem_of_fmap in Hz as (p & -> & Hp). exists p. split_and!; [done..|]. by apply is_fenced_unfenced. }
  destruct (Hsub x) as (p & Hp & -> & Up); [left|].
  destruct (Hsub y) as (q & Hq & -> & Uq); [right; left|].
  assert (p = q) by by apply Hone. subst q.
  assert (Hnd2 : NoDup (states F)).
  { apply NoDup_fmap_2_strong; [|done]. by intros ???? [= -> _]. }
  assert (Hsl := sublist_retain (fun x => negb (is_fenced x)) (states F)). rewrite E in Hsl.
  apply (sublist_NoDup _ _ Hnd2) in Hsl. apply list.NoDup_cons in Hsl as [Hx _]. apply Hx. left.
Qed.

Lemma fence_order_length (l : list (P * LegacyState)) : length (fence_order l) = length l.
Proof.
  unfold fence_order. rewrite !length_app. induction l as [|[p x] l IH]; [done|].
  cbn [retain]. destruct x; cbn [is_fenced snd length]; lia.
Qed.

Lemma fence_order_paths (F : P -> LegacyState) p : p ∈ paths -> p ∈ (fence_order (states F)).*1.
Proof.
  intros Hp. apply list_elem_of_fmap. exists (p, F p). split; [done|].
  assert (Hin : (p, F p) ∈ states F) by (apply list_elem_of_fmap; eauto).
  unfold fence_order. rewrite !elem_of_app, !elem_of_retain. unfold is_fenced. cbn.
  destruct (F p); auto.
Qed.

Definition marker_after (n : N) (m : option N) : option N :=
  if bool_decide (is_Some shared) then Some n else m.
Definition marker_writes : nat := if bool_decide (is_Some shared) then 1 else 0.

(** The migration marker, published only in a Git repository. *)
Lemma spec_publish s m j F n :
  acceptable s m j F -> (n <= U32_MAX)%N ->
  spec (holds s m j F) marker_writes
    (if bool_decide (is_Some shared) then write_migration n else st_ret tt)
    (fun _ => holds s (marker_after n m) j F) healthy.
Proof.
  intros Hok Hn. unfold marker_after, marker_writes. case_bool_decide; [by apply spec_migration|].
  by apply spec_ret.
Qed.

Lemma acceptable_marker s m j F n :
  acceptable s m j F -> (n <= U32_MAX)%N -> (forall sh, shared = Some sh -> F sh = Fenced n) ->
  acceptable s (marker_after n m) j F.
Proof.
  intros Hok Hn Hsh. unfold marker_after. case_bool_decide; [by apply (acceptable_migration s m)|done].
Qed.
End tracked.

(** ** The reservation as a whole *)
Section whole.
Context {P : Type} `{EqDecision P} {J : SequenceJson} `{!SequenceJsonLaws J}.
Context (shared : option P) (paths : list P).
Context (paths_distinct : NoDup paths) (shared_known : forall sh, shared = Some sh -> sh ∈ paths).
Notation A := (Authority P).
Notation holds := (holds paths).
Notation acceptable := (acceptable shared paths).
Notation healthy := (healthy shared paths).
Notation seen := (seen paths).
Notation states := (states paths).

Lemma spec_migrate s m j F floor :
  acceptable s m j F -> (floor < U32_MAX)%N -> (default 0 m <= floor)%N -> (j <= floor)%N ->
  spec (holds s m j F) (length paths + (2 + (marker_writes shared + 1)))
    (migrate_and_reserve shared floor (states F))
    (fun n a => n = (floor + 1)%N /\ holds n (marker_after shared n m) n (fun _ => Fenced n) a) healthy.
Proof.
  intros Hok Hf Hm Hj. unfold migrate_and_reserve, checked_succ. rewrite (proj2 (N.ltb_lt _ _) Hf).
  set (n := (floor + 1)%N). assert (Hn : (n <= U32_MAX)%N) by lia.
  destruct (single_accepted shared paths s m j F Hok paths_distinct) as [first ->].
  set (G := fence (fence_order (states F)).*1 n F).
  assert (HG : acceptable s m j G) by (apply acceptable_fence; [done|done|lia]).
  assert (HGall : forall p, p ∈ paths -> G p = Fenced n).
  { intros p Hp. unfold G, fence. by rewrite bool_decide_eq_true_2 by by apply fence_order_paths. }
  assert (HGsh : forall sh, shared = Some sh -> G sh = Fenced n) by auto.
  assert (Hjn : N.max j n = n) by lia.
  eapply spec_pure; [reflexivity|]. eapply spec_pure; [reflexivity|].
  replace (length paths) with (length (fence_order (states F)))
    by (rewrite fence_order_length; apply length_fmap).
  eapply spec_bind; [apply spec_fence; [done|done|lia]|]. intros []. fold G.
  eapply spec_bind; [by apply spec_marker|]. intros []. rewrite Hjn.
  assert (HG' : acceptable s m n G) by (rewrite <- Hjn; by apply acceptable_journal).
  eapply spec_bind; [by apply spec_publish|]. intros [].
  apply (spec_bind _ 1 0 _ _ (fun _ => holds n (marker_after shared n m) n G)).
  - apply spec_sequence; [by apply acceptable_marker|done].
  - intros []. apply spec_ret. intros a Ha. split; [done|]. by apply (holds_ext paths _ _ _ G).
Qed.

Lemma spec_reservation s m j F n :
  acceptable s m j F -> (n <= U32_MAX)%N -> (j <= n)%N ->
  spec (holds s m j F) 3 (write_reservation n) (fun _ => holds n m n F) healthy.
Proof.
  intros Hok Hn Hj. unfold write_reservation. assert (E : N.max j n = n) by lia.
  assert (Hm := spec_marker shared paths s m j F n Hok Hn). rewrite E in Hm.
  apply (spec_bind _ 2 1 _ _ _ _ _ Hm). intros []. apply spec_sequence; [|done].
  rewrite <- E. by apply acceptable_journal.
Qed.

Lemma spec_exhaust s m j F :
  acceptable s m j F ->
  spec (holds s m j F) (length paths + (marker_writes shared + 1))
    (finish_exhausted_migration shared (states F))
    (fun _ => holds U32_MAX (marker_after shared U32_MAX m) j (fun _ => Fenced U32_MAX)) healthy.
Proof.
  intros Hok. unfold finish_exhausted_migration.
  destruct (single_accepted shared paths s m j F Hok paths_distinct) as [first ->].
  set (G := fence (states F).*1 U32_MAX F). assert (Hm := Hok). destruct Hm as (_ & Hm & _).
  assert (HG : acceptable s m j G) by by apply acceptable_fence.
  assert (HGall : forall p, p ∈ paths -> G p = Fenced U32_MAX).
  { intros p Hp. unfold G, fence. rewrite bool_decide_eq_true_2; [done|].
    unfold NumberLaws.states. rewrite <- list_fmap_compose. apply list_elem_of_fmap. by exists p. }
  eapply spec_pure; [reflexivity|].
  replace (length paths) with (length (states F)) by apply length_fmap.
  eapply spec_bind; [by apply spec_fence|]. intros []. fold G.
  eapply spec_bind; [by apply spec_publish|]. intros [].
  assert (Hs := spec_sequence shared paths s (marker_after shared U32_MAX m) j G U32_MAX
    (acceptable_marker shared paths s m j G U32_MAX HG (N.le_refl _) (fun sh E => HGall sh (shared_known sh E)))
    (N.le_refl _)).
  apply (spec_weaken _ _ _ _ _ _ _ _ Hs); [done| |done].
  intros _ a Ha. by apply (holds_ext paths _ _ _ G).
Qed.

(** A counter an old writer no longer reads. *)
Definition retired (a : A) (p : P) : Prop :=
  exists t, legacy a p = Contents t /\ parse_u32 (trim t) = None.

Lemma fenced_retired (a : A) p g : read_legacy_v2_sequence a p = Ok (Fenced g) -> retired a p.
Proof.
  unfold read_legacy_v2_sequence, retired. destruct (legacy a p) as [|t|]; cbn [read_optional_text res_bind]; try done.
  unfold parse_legacy_sentinel. destruct (strip_prefix _ t) as [tail|]; cbn [fmap option_fmap option_map].
  - destruct (strip_suffix_char NL tail) as [ds|]; [|done].
    destruct (parse_u32 ds) as [n|]; cbn [ok_or res_bind]; [|done].
    case_bool_decide as E; [|done]. intros _. exists t. split; [done|]. rewrite E. apply sentinel_rejected.
  - by destruct (parse_u32 (trim t)).
Qed.

Lemma settled_fenced s m j F existing p :
  acceptable s m j F -> p ∈ paths ->
  needs_migration shared (seen existing s m j F) = false -> exists g, F p = Fenced g.
Proof.
  intros Hok Hp. unfold needs_migration, NumberLaws.seen. cbn [o_migration o_legacy].
  assert (Hin : (p, F p) ∈ states F) by (apply list_elem_of_fmap; eauto).
  intros [_ H]%orb_false_iff. destruct (bool_decide (is_Some shared)).
  - apply negb_false_iff in H. destruct m as [f|]; [|done].
    rewrite forallb_forall in H. apply list_elem_of_In, H in Hin. unfold fenced_at in Hin.
    apply bool_decide_eq_true in Hin. eauto.
  - destruct (F p) eqn:E; [| |eauto]; exfalso;
      (assert (Ht : existsb (fun s => negb (is_fenced s)) (states F) = true); [|congruence]);
      apply existsb_exists; eexists; (split; [by apply list_elem_of_In|done]).
Qed.

(** An exhausted workspace answers without writing. *)
Lemma exhausted_silent m j a existing k :
  (existing <= U32_MAX)%N -> (default 0 m <= U32_MAX)%N -> (j <= U32_MAX)%N ->
  holds U32_MAX (marker_after shared U32_MAX m) j (fun _ => Fenced U32_MAX) a ->
  reserve shared (Ok paths) (Ok existing) (mkWorld a k) = (Err exhausted, mkWorld a k).
Proof.
  intros He Hm Hj Hh.
  assert (Hok : acceptable U32_MAX (marker_after shared U32_MAX m) j (fun _ => Fenced U32_MAX)).
  { unfold marker_after. split_and!; try done.
    - by case_bool_decide.
    - intros sh f Esh. rewrite bool_decide_eq_true_2 by (rewrite Esh; by eexists). intros [= <-].
      by exists U32_MAX. }
  unfold reserve. cbn [st_bind st_get authority].
  rewrite (observe_holds paths _ _ _ _ _ _ Hh). cbn [st_bind st_lift].
  rewrite (fence_agrees shared paths _ _ _ _ _ Hok shared_known).
  destruct (floor_bounds shared paths existing _ _ _ _ Hok He) as (B1 & _ & B2 & _).
  assert (Ef : floor_of (seen existing U32_MAX (marker_after shared U32_MAX m) j (fun _ => Fenced U32_MAX)) = U32_MAX) by lia.
  unfold terminal_exhaustion. rewrite Ef. cbn [o_sequence o_legacy o_migration NumberLaws.seen].
  rewrite !N.eqb_refl. cbn [andb].
  assert (Eall : forallb (fenced_at U32_MAX) (states (fun _ => Fenced U32_MAX)) = true).
  { apply forallb_forall. intros x Hx%list_elem_of_In. apply list_elem_of_fmap in Hx as (p & -> & _).
    by apply bool_decide_eq_true. }
  rewrite Eall. unfold marker_after. case_bool_decide; cbn [negb orb andb].
  - by rewrite bool_decide_eq_true_2.
  - done.
Qed.

Lemma reserve_observed s m j F existing a k :
  acceptable s m j F -> holds s m j F a -> (existing <= U32_MAX)%N ->
  reserve shared (Ok paths) (Ok existing) (mkWorld a k) =
  (let o := seen existing s m j F in
   if terminal_exhaustion shared o then st_throw exhausted
   else if (floor_of o =? U32_MAX)%N then
     finish_exhausted_migration shared (states F) ;;; st_throw exhausted
   else if negb (needs_migration shared o) then
     number <-! st_lift (checked_succ (floor_of o)) ;; write_reservation number ;;; st_ret number
   else migrate_and_reserve shared (floor_of o) (states F)) (mkWorld a k).
Proof.
  intros Hok Hh He. unfold reserve. cbn [st_bind st_get authority].
  rewrite (observe_holds paths _ _ _ _ _ _ Hh). cbn [st_bind st_lift].
  by rewrite (fence_agrees shared paths _ _ _ _ _ Hok shared_known).
Qed.

Lemma marker_writes_le : marker_writes shared <= 1.
Proof. unfold marker_writes. case_bool_decide; lia. Qed.

Lemma settled_acceptable s m j F n existing :
  acceptable s m j F -> (n <= U32_MAX)%N -> acceptable n m n F ->
  needs_migration shared (seen existing s m j F) = false ->
  forall a, holds n m n F a -> forall p, p ∈ paths -> retired a p.
Proof.
  intros Hok Hn Hok' Hs a (_ & _ & _ & H) p Hp.
  destruct (settled_fenced s m j F existing p Hok Hp Hs) as [g E].
  apply (fenced_retired a p g). rewrite H by done. by f_equal.
Qed.

(** One attempt below the end of the range. *)
Lemma attempt_below s m j F existing a k :
  acceptable s m j F -> holds s m j F a -> (existing <= U32_MAX)%N ->
  (floor_of (seen existing s m j F) < U32_MAX)%N ->
  exists r w, reserve shared (Ok paths) (Ok existing) (mkWorld a k) = (r, w) /\ healthy (authority w) /\
    (length paths + 4 <= k ->
       r = Ok (floor_of (seen existing s m j F) + 1)%N /\ read_sequence (authority w) = r /\
       forall p, p ∈ paths -> retired (authority w) p).
Proof.
  intros Hok Hh He Hlt. rewrite (reserve_observed s m j F) by done. cbv zeta.
  destruct (floor_bounds shared paths existing s m j F Hok He) as (B & Be & Bs & Bm & Bj & Bl).
  set (floor := floor_of (seen existing s m j F)) in *.
  assert (Et : terminal_exhaustion shared (seen existing s m j F) = false).
  { unfold terminal_exhaustion. fold floor. by rewrite (proj2 (N.eqb_neq floor U32_MAX)) by lia. }
  rewrite Et, (proj2 (N.eqb_neq floor U32_MAX)) by lia. clear Et.
  assert (Hmw := marker_writes_le).
  destruct (needs_migration shared (seen existing s m j F)) eqn:En; cbn [negb].
  - destruct (spec_migrate s m j F floor Hok Hlt Bm Bj (mkWorld a k) Hh)
      as [(n & w & E & [-> Hw] & L)|(w & E & L & Hw)]; rewrite E; eexists _, w; cbn [writes_left] in *.
    + assert (Hok' : acceptable (floor + 1)%N (marker_after shared (floor + 1) m) (floor + 1)%N (fun _ => Fenced (floor + 1))).
      { apply acceptable_marker; [|lia|done]. unfold NumberLaws.acceptable. destruct Hok as (? & ? & ? & ? & ? & ?).
        split_and!; [lia|done|lia|intros; cbn; lia|by intros ???? []|]. intros sh f Esh ->. exists (floor + 1)%N. split; [done|]. cbn in Bm. lia. }
      split_and!; [done|by eapply holds_healthy|].
      intros _. destruct Hw as (Hs & _ & _ & Hl). split_and!; [done|done|].
      intros p Hp. by apply (fenced_retired _ p (floor + 1)%N), Hl.
    + split_and!; [done|done|intros; lia].
  - unfold checked_succ. rewrite (proj2 (N.ltb_lt _ _) Hlt). cbn [st_bind st_lift].
    assert (Hn : (floor + 1 <= U32_MAX)%N) by lia. unfold st_bind at 1.
    assert (Hok' : acceptable (floor + 1)%N m (floor + 1)%N F).
    { replace (floor + 1)%N with (N.max j (floor + 1)) at 2 by lia.
      apply acceptable_journal; [|done]. by apply (acceptable_sequence shared paths s). }
    destruct (spec_reservation s m j F (floor + 1) Hok Hn ltac:(lia) (mkWorld a k) Hh)
      as [([] & w & -> & Hw & L)|(w & -> & L & Hw)]; cbn [writes_left] in *.
    + exists (Ok (floor + 1)%N), w. split_and!; [done|by eapply holds_healthy|]. intros _. split_and!; [done|apply Hw|].
      by apply (settled_acceptable s m j F (floor + 1) existing).
    + exists (Err WriteFailed), w. split_and!; [done|done|intros; lia].
Qed.

(** One attempt at the end of the range. *)
Lemma attempt_at_end s m j F existing a k :
  acceptable s m j F -> holds s m j F a -> (existing <= U32_MAX)%N ->
  floor_of (seen existing s m j F) = U32_MAX ->
  exists r w, reserve shared (Ok paths) (Ok existing) (mkWorld a k) = (r, w) /\ healthy (authority w) /\
    (length paths + 4 <= k -> r = Err exhausted /\
       forall k', reserve shared (Ok paths) (Ok existing) (mkWorld (authority w) k') =
                  (Err exhausted, mkWorld (authority w) k')).
Proof.
  intros Hok Hh He Hmax. rewrite (reserve_observed s m j F) by done. cbv zeta. rewrite Hmax, N.eqb_refl.
  assert (Hmw := marker_writes_le).
  destruct (terminal_exhaustion shared (seen existing s m j F)) eqn:Et.
  - exists (Err exhausted), (mkWorld a k). split_and!; [done|by apply (holds_healthy shared paths s m j F)|].
    intros _. split; [done|]. intros k'. cbn [authority].
    rewrite (reserve_observed s m j F) by done. cbv zeta. by rewrite Et.
  - destruct (spec_exhaust s m j F Hok (mkWorld a k) Hh) as [([] & w & E & Hw & L)|(w & E & L & Hw)];
      cbn [writes_left] in *; unfold st_bind; rewrite E; eexists _, w.
    + assert (Hb := Hok). destruct Hb as (_ & Hm & Hj & _).
      split_and!; [done| |].
      * eapply holds_healthy; [|exact Hw]. apply acceptable_marker; [|done|done].
        destruct Hok as (? & ? & ? & ? & ? & ?).
        split_and!; [done|done|done|done|by intros ???? []|]. intros sh f Esh ->. exists U32_MAX. done.
      * intros _. split; [done|]. intros k'. destruct w as [aw kw]. by apply (exhausted_silent m j).
    + split_and!; [done|done|intros; lia].
Qed.

(** Whatever a crash left behind is picked up by the next reservation.  From a
    workspace whose files read back and whose counters are fenced but for one,
    an attempt cut short at any write leaves such a workspace; an attempt that
    gets all its writes returns the number after every floor it observed, makes
    it the new high-water mark and retires every older counter, whose format no
    old writer reads any more.  At the end of the range it refuses, and refuses
    for ever without writing. *)
Theorem reservation_survives_crashes existing a k :
  healthy a -> (existing <= U32_MAX)%N ->
  exists o r w, observe (Ok paths) (Ok existing) a = Ok o /\
    reserve shared (Ok paths) (Ok existing) (mkWorld a k) = (r, w) /\ healthy (authority w) /\
    (length paths + 4 <= k -> (floor_of o < U32_MAX)%N ->
       r = Ok (floor_of o + 1)%N /\ read_sequence (authority w) = r /\
       forall p, p ∈ paths -> retired (authority w) p) /\
    (length paths + 4 <= k -> (U32_MAX <= floor_of o)%N ->
       r = Err exhausted /\
       forall k', reserve shared (Ok paths) (Ok existing) (mkWorld (authority w) k') =
                  (Err exhausted, mkWorld (authority w) k')).
Proof.
  intros (s & m & j & F & Hh & Hok) He. exists (seen existing s m j F).
  destruct (floor_bounds shared paths existing s m j F Hok He) as (B & _).
  destruct (decide (floor_of (seen existing s m j F) < U32_MAX)%N) as [Hlt|Hge].
  - destruct (attempt_below s m j F existing a k Hok Hh He Hlt) as (r & w & E & Hw & Hr).
    exists r, w. split_and!; [by apply observe_holds|done|done|auto|intros; lia].
  - destruct (attempt_at_end s m j F existing a k Hok Hh He) as (r & w & E & Hw & Hr); [lia|].
    exists r, w. split_and!; [by apply observe_holds|done|done|intros; lia|auto].
Qed.
End whole.

(** ** Histories *)
Section histories.
Context {P : Type} `{EqDecision P} {J : SequenceJson} `{!SequenceJsonLaws J}.
Notation A := (Authority P).

Lemma sequence_keeps n m : keeps (P := P) (marked m) (write_sequence n).
Proof. by apply elsewhere_keeps. Qed.

Lemma reserve_ok_inv shared paths existing (w w' : World P) n :
  reserve shared paths existing w = (Ok n, w') ->
  exists o, observe paths existing (authority w) = Ok o /\ n = (floor_of o + 1)%N /\ (n <= U32_MAX)%N /\
    marked n (authority w').
Proof.
  unfold reserve. cbn [st_bind st_get]. intros H.
  apply st_bind_ok_inv in H as (o & w1 & [= Ho <-] & H).
  apply st_bind_ok_inv in H as (u & w1 & [= _ <-] & H).
  assert (Hj : exists j, max_reservation (authority w) = Ok j).
  { revert Ho. unfold observe. destruct paths; [|done]. destruct existing; [|done]. cbn [res_bind].
    destruct (read_sequence _); [|done]. destruct (read_legacy_v2_migration _); [|done]. cbn [res_bind].
    destruct (max_reservation _); [eauto|done]. }
  destruct (terminal_exhaustion shared o); [done|]. destruct (floor_of o =? U32_MAX)%N.
  { by apply st_bind_ok_inv in H as (? & ? & _ & [=]). }
  exists o. destruct (negb (needs_migration shared o)).
  - apply st_bind_ok_inv in H as (x & w1 & [= Hs <-] & H). apply checked_succ_ok in Hs as [-> Hn].
    apply st_bind_ok_inv in H as ([] & w1 & H & [= <- <-]). unfold write_reservation in H.
    apply st_bind_ok_inv in H as ([] & w2 & Hm & H). split_and!; [done..|].
    apply (sequence_keeps _ _ _ _ _ H). by eapply marker_marks.
  - unfold migrate_and_reserve in H.
    apply st_bind_ok_inv in H as (x & w1 & [= Hs <-] & H). apply checked_succ_ok in Hs as [-> Hn].
    apply st_bind_ok_inv in H as (f & w1 & [= _ <-] & H).
    apply st_bind_ok_inv in H as ([] & w1 & Hf & H).
    apply st_bind_ok_inv in H as ([] & w2 & Hm & H).
    apply st_bind_ok_inv in H as ([] & w3 & Hp & H).
    apply st_bind_ok_inv in H as ([] & w4 & Hq & [= <- <-]).
    split_and!; [done..|].
    apply (sequence_keeps _ _ _ _ _ Hq).
    assert (Hk : keeps (marked (floor_of o + 1)%N)
      (if bool_decide (is_Some shared) then write_migration (floor_of o + 1) else st_ret tt : st (World P) SequenceError unit)).
    { apply keeps_if; [by apply elsewhere_keeps|apply keeps_ret]. }
    apply (Hk _ _ _ Hp). eapply marker_marks; [|done|exact Hm].
    destruct Hj as [j Hj]. exists j.
    assert (Hi : keeps (fun a : A => max_reservation a = Ok j)
      (st_iter (fun s : P * LegacyState => write_legacy_sentinel s.1 (floor_of o + 1)) (fence_order (o_legacy o)))).
    { apply keeps_iter. intros s. by apply keeps_write. }
    by apply (Hi _ _ _ Hf).
Qed.

(** What happens to a workspace: reservations that see any set of older
    counters and any issue files and stop anywhere, and everything else that may
    be done to the older counters. *)
Inductive Event : Type :=
| Attempt (shared : option P) (paths : result SequenceError (list P))
    (max_existing : result SequenceError N) (writes : nat)
| Elsewhere (counters : P -> File).

Definition answer (a : A) (e : Event) : option N :=
  match e with
  | Attempt shared paths existing k =>
      match fst (reserve shared paths existing (mkWorld a k)) with Ok n => Some n | Err _ => None end
  | Elsewhere _ => None
  end.

Definition after (a : A) (e : Event) : A :=
  match e with
  | Attempt shared paths existing k => authority (snd (reserve shared paths existing (mkWorld a k)))
  | Elsewhere counters => mkAuthority (sequence_file a) (migration_file a) (reservations a) counters
  end.

(** The numbers a history hands out. *)
Fixpoint issued (a : A) (es : list Event) : list N :=
  match es with
  | [] => []
  | e :: es => from_option (fun n => [n]) [] (answer a e) ++ issued (after a e) es
  end.

Lemma after_keeps a e n : (n <= U32_MAX)%N -> marked n a -> marked n (after a e).
Proof.
  intros Hn Ha. destruct e as [shared paths existing k|counters]; cbn [after].
  - destruct (reserve shared paths existing (mkWorld a k)) as [r w] eqn:E.
    by apply (reserve_keeps shared paths existing n Hn _ _ _ E).
  - exact Ha.
Qed.

Lemma answer_marked a e n :
  answer a e = Some n ->
  (n <= U32_MAX)%N /\ marked n (after a e) /\ (forall m, (m <= U32_MAX)%N -> marked m a -> (m < n)%N).
Proof.
  destruct e as [shared paths existing k|counters]; cbn [answer after]; [|done].
  destruct (reserve shared paths existing (mkWorld a k)) as [[x|e] w] eqn:E; cbn [fst snd]; [|done].
  intros [= ->]. destruct (reserve_ok_inv _ _ _ _ _ _ E) as (o & Ho & -> & Hn & Hm). split_and!; [done..|].
  intros m Hmb Hmm. cbn [authority] in Ho. revert Ho. unfold observe.
  destruct paths; [|done]. destruct existing; [|done]. cbn [res_bind].
  destruct (read_sequence a); [|done]. destruct (read_legacy_v2_migration a); [|done]. cbn [res_bind].
  destruct (max_reservation a) as [j|] eqn:Ej; [|done]. cbn [res_bind].
  destruct (read_all _ _); [|done]. intros [= <-].
  assert (H := journal_covers a j m Hmb Ej Hmm). unfold floor_of. cbn [o_existing o_sequence o_journal o_migration o_legacy]. lia.
Qed.

Lemma issued_above a es m n :
  (m <= U32_MAX)%N -> marked m a -> n ∈ issued a es -> (m < n)%N.
Proof.
  intros Hm. revert a. induction es as [|e es IH]; intros a Ha Hin; cbn [issued] in Hin;
    [by apply not_elem_of_nil in Hin|].
  apply elem_of_app in Hin as [Hin|Hin]; [|by eapply IH; [apply after_keeps|]].
  destruct (answer a e) as [x|] eqn:E; cbn in Hin; [|by apply not_elem_of_nil in Hin].
  apply elem_of_cons in Hin as [->|Hin]; [|by apply not_elem_of_nil in Hin].
  destruct (answer_marked a e x E) as (_ & _ & H). by apply H.
Qed.

Lemma read_all_elem (a : A) paths l p :
  read_all (read_legacy_v2_sequence a) paths = Ok l -> p ∈ paths ->
  exists s, read_legacy_v2_sequence a p = Ok s /\ (p, s) ∈ l.
Proof.
  intros El Hp. revert l El. induction paths as [|q paths IH]; intros l El; [by apply not_elem_of_nil in Hp|].
  cbn [read_all] in El. destruct (read_legacy_v2_sequence a q) as [y|] eqn:Ey; [|done]. cbn [res_bind] in El.
  destruct (read_all _ paths) as [ys|]; [|done]. injection El as <-.
  apply elem_of_cons in Hp as [->|Hp]; [exists y; split; [done|left]|].
  destruct (IH Hp ys eq_refl) as (s & ? & ?). exists s. split; [done|by right].
Qed.

Lemma legacy_floor_elem (l : list (P * LegacyState)) p s :
  (p, s) ∈ l -> (state_floor s <= legacy_floor l)%N.
Proof.
  unfold legacy_floor. induction l as [|x l IH]; intros Hin; [by apply not_elem_of_nil in Hin|].
  cbn [foldr]. apply elem_of_cons in Hin as [<-|Hin]; [cbn [snd]; lia|]. apply IH in Hin. lia.
Qed.

(** C38: No issue number is handed out twice.  In every history of a workspace,
    reservations failing or killed at any write included, whatever counters they
    are shown and whatever old writers and the file system do to those counters,
    the numbers handed out grow strictly; and each lies above the largest
    existing issue, the sequence file, the migration marker, every reservation
    marker and every older counter, all of which its reservation has read. *)
Theorem issue_numbers_never_repeat (a : A) (es : list Event) :
  StronglySorted N.lt (issued a es) /\
  (forall shared paths existing k (b : A) n,
     answer b (Attempt shared (Ok paths) (Ok existing) k) = Some n ->
     (existing < n)%N /\
     (exists s, read_sequence b = Ok s /\ (s < n)%N) /\
     (exists m, read_legacy_v2_migration b = Ok m /\ forall x, m = Some x -> (x < n)%N) /\
     (exists j, max_reservation b = Ok j /\ (j < n)%N) /\
     forall p, p ∈ paths -> exists s, read_legacy_v2_sequence b p = Ok s /\ (state_floor s < n)%N).
Proof.
  split.
  - revert a. induction es as [|e es IH]; intros a; cbn [issued]; [constructor|].
    destruct (answer a e) as [n|] eqn:E; cbn [from_option app]; [|apply IH].
    destruct (answer_marked a e n E) as (Hn & Hm & _). constructor; [apply IH|].
    apply Forall_forall. intros x Hx%list_elem_of_In. exact (issued_above (after a e) es n x Hn Hm Hx).
  - intros shared paths existing k b n. cbn [answer].
    destruct (reserve shared (Ok paths) (Ok existing) (mkWorld b k)) as [[x|e] w] eqn:E; cbn [fst]; [|done].
    intros [= ->]. destruct (reserve_ok_inv _ _ _ _ _ _ E) as (o & Ho & -> & Hn & _).
    cbn [authority] in Ho. revert Ho. unfold observe. cbn [res_bind].
    destruct (read_sequence b) as [sq|]; [|done]. destruct (read_legacy_v2_migration b) as [m|]; [|done]. cbn [res_bind].
    destruct (max_reservation b) as [j|]; [|done]. cbn [res_bind].
    destruct (read_all (read_legacy_v2_sequence b) paths) as [l|] eqn:El; [|done]. intros [= <-].
    unfold floor_of. cbn [o_existing o_sequence o_journal o_migration o_legacy].
    split_and!; [lia|exists sq; split; [done|lia]|exists m; split; [done|]|exists j; split; [done|lia]|].
    + intros x ->. cbn. lia.
    + intros p Hp. destruct (read_all_elem b paths l p El Hp) as (s & Hs & Hin). exists s. split; [done|].
      assert (Hfl := legacy_floor_elem l p s Hin). lia.
Qed.
End histories.

(** ** A concrete workspace *)
Section example.

(** Two decimal numbers separated by a comma. *)
#[local] Instance pair_json : SequenceJson := {
  to_json f := print_u32 (version f) ++ COMMA :: print_u32 (last_reserved f);
  from_json t :=
    '(v, l) ← split_once COMMA t ; v ← parse_u32 v ; l ← parse_u32 l ; Some (mkSequenceFile v l)
}.

Lemma pair_round_trip f :
  (version f <= U32_MAX)%N -> (last_reserved f <= U32_MAX)%N -> from_json (to_json f) = Some f.
Proof.
  intros Hv Hl. destruct f as [v l]. unfold from_json, to_json, pair_json. cbn [version last_reserved] in *.
  rewrite split_once_key.
  - cbn [mbind option_bind]. rewrite !parse_print_u32 by done. done.
  - apply (free_weaken is_structural); [|apply digits_plain, print_u32_chars].
    intros c Hc%N.eqb_eq. by subst c.
Qed.

Lemma pair_u32 t f : from_json t = Some f -> (last_reserved f <= U32_MAX)%N.
Proof.
  cbn. destruct (split_once COMMA t) as [[v l]|]; cbn [mbind option_bind]; [|done].
  destruct (parse_u32 v); cbn [mbind option_bind]; [|done].
  destruct (parse_u32 l) eqn:E; cbn [mbind option_bind]; [|done]. intros [= <-]. by apply parse_u32_bound in E.
Qed.

#[local] Instance pair_laws : SequenceJsonLaws pair_json := {
  from_to_json := pair_round_trip;
  from_json_u32 := pair_u32
}.

(** A Git workspace whose shared counter [0] still has the old format, and a
    nested store whose counter [1] was fenced at a lower number. *)
Definition old_workspace : Authority nat :=
  mkAuthority Absent Absent NoDirectory
    (fun p => if p =? 0 then Contents (txt "41" ++ [NL]) else Contents (legacy_sentinel 7)).

Definition attempt (k : nat) : Event := Attempt (Some 0) (Ok [0; 1]) (Ok 12%N) k.

(** Killed after the first fence, after the marker, then twice to the end. *)
Example old_workspace_issued :
  issued old_workspace [attempt 1; attempt 4; attempt 9; attempt 9] = [44%N; 45%N].
Proof. vm_compute. reflexivity. Qed.

Lemma old_workspace_healthy : healthy (Some 0) [0; 1] old_workspace.
Proof.
  exists 0%N, None, 0%N, (fun p => if p =? 0 then Active 41%N else Fenced 7%N). split.
  - split_and!; [reflexivity..|]. intros p [->|[->|[]%not_elem_of_nil]%elem_of_cons]%elem_of_cons; reflexivity.
  - split_and!; try (unfold U32_MAX; cbn; lia).
    + intros p _. destruct (p =? 0); unfold U32_MAX; cbn; lia.
    + intros p q _ _. destruct (p =? 0) eqn:Ep, (q =? 0) eqn:Eq; cbn; try done.
      apply Nat.eqb_eq in Ep, Eq. congruence.
    + done.
Qed.

Lemma reservation_survives_crashes_witness :
  exists o r w, observe (Ok [0; 1]) (Ok 12%N) old_workspace = Ok o /\
    reserve (Some 0) (Ok [0; 1]) (Ok 12%N) (mkWorld old_workspace 9) = (r, w) /\
    healthy (Some 0) [0; 1] (authority w) /\
    (length [0; 1] + 4 <= 9 -> (floor_of o < U32_MAX)%N ->
       r = Ok (floor_of o + 1)%N /\ read_sequence (authority w) = r /\
       forall p, p ∈ [0; 1] -> retired (authority w) p) /\
    (length [0; 1] + 4 <= 9 -> (U32_MAX <= floor_of o)%N ->
       r = Err exhausted /\
       forall k', reserve (Some 0) (Ok [0; 1]) (Ok 12%N) (mkWorld (authority w) k') =
                  (Err exhausted, mkWorld (authority w) k')).
Proof.
  apply (reservation_survives_crashes (Some 0) [0; 1]).
  - by apply (bool_decide_unpack _).
  - intros sh [= <-]. left.
  - apply old_workspace_healthy.
  - unfold U32_MAX. lia.
Defined.

Lemma issue_numbers_never_repeat_witness :
  StronglySorted N.lt (issued old_workspace [attempt 1; attempt 4; attempt 9; attempt 9]) /\
  (forall shared paths existing k (b : Authority nat) n,
     answer b (Attempt shared (Ok paths) (Ok existing) k) = Some n ->
     (existing < n)%N /\
     (exists s, read_sequence b = Ok s /\ (s < n)%N) /\
     (exists m, read_legacy_v2_migration b = Ok m /\ forall x, m = Some x -> (x < n)%N) /\
     (exists j, max_reservation b = Ok j /\ (j < n)%N) /\
     forall p, p ∈ paths -> exists s, read_legacy_v2_sequence b p = Ok s /\ (state_floor s < n)%N).
Proof. exact (issue_numbers_never_repeat old_workspace [attempt 1; attempt 4; attempt 9; attempt 9]). Defined.
End example.
