(* ===== verification/Negotiation.v ===== *)
(** * The handshake
    ([crates/core/src/infrastructure/ipc/mod.rs]: workspace admission, [negotiate]
    and the decisions a client takes on the negotiated connection)

    A hello is answered by exactly one of: the generation fence, the workspace
    fence, a protocol or capability refusal, or a server hello for the best common
    protocol version. *)
From S2P Require Export Ipc.

Inductive ErrorCode : Type :=
| ProtocolMismatch | CapabilityMissing | GenerationMismatch | Unauthenticated | PermissionDenied
| InvalidArgument | NotFound | StaleTarget | GenerationRolledOver | RevisionConflict
| IdempotencyConflict | IdempotencyExpired | SequenceGap | ResourceExhausted | Backpressure | Busy
| DeadlineExceeded | Cancelled | OwnershipUnknown | Unavailable | Internal | ResyncRequired.
#[export] Instance error_code_eq_dec : EqDecision ErrorCode.
Proof. solve_decision. Defined.

Inductive RetryMode : Type := Never | SameRequest | SameOperation | Reconnect | Resync | Manual.
Inductive SideEffect : Type := NoEffect | OperationAccepted | Applied | PartialOrUnknown.

(** [details], an arbitrary JSON value, is never set by this module. *)
Record ProtocolError : Type := MkProtocolError {
  pe_code : ErrorCode;
  pe_message : string;
  pe_retry_mode : RetryMode;
  pe_side_effect : SideEffect;
  pe_error_id : string;
  pe_current_daemon_generation : option string;
  pe_current_protocol : option ProtocolVersion;
}.

Definition ProtocolError_new (code : ErrorCode) (message : string) : ProtocolError :=
  let retry_mode :=
    match code with
    | ResyncRequired => Resync
    | Unavailable => Reconnect
    | DeadlineExceeded => SameRequest
    | _ => Never
    end in
  MkProtocolError code message retry_mode NoEffect "protocol" None None.

Record ServerProtocol : Type := MkServerProtocol {
  sp_daemon_generation : string;
  sp_connection_id : string;
  sp_generation_role : WireGenerationRole;
  sp_supported_protocols : list ProtocolRange;
  sp_capabilities : list string;
  sp_build : BuildIdentity;
  sp_limits : ProtocolLimits;
  sp_daemon_process : option DaemonRecord;
  sp_workspace_root : string;
}.

Definition WORKSPACE_MISMATCH_ERROR_ID : string := "workspace-mismatch".
Definition TERMINAL_WIRE_GENERATION : N := 1.
Definition TERMINAL_CHECKPOINT_REVISION : N := 2.
Definition USER_DECISION_DELIVERY_REVISION : N := 4.

(** ** Paths: an absolute Unix path is compared by its components *)
Definition slash : Ascii.ascii := Ascii.Ascii true true true true false true false false.

Definition is_absolute (path : string) : bool :=
  match path with String c _ => Ascii.eqb c slash | EmptyString => false end.

(** [Path::components] of an absolute path, after its root directory: separators
    repeat and trail without meaning, and [.] is the directory itself. *)
Definition components (path : string) : list string :=
  retain (fun part => negb (bool_decide (part = ""%string)) && negb (bool_decide (part = "."%string)))
    (split_char slash path).

Fixpoint is_prefix_of (prefix parts : list string) : bool :=
  match prefix, parts with
  | [], _ => true
  | a :: prefix, b :: parts => bool_decide (a = b) && is_prefix_of prefix parts
  | _ :: _, [] => false
  end.

(** [comparable_root], as the components of the path. *)
Definition comparable_root (root : string) : option (list string) :=
  if is_absolute root then Some (components root) else None.

(** ** The workspace fence *)
Definition with_error_id (id : string) (e : ProtocolError) : ProtocolError :=
  MkProtocolError (pe_code e) (pe_message e) (pe_retry_mode e) (pe_side_effect e) id
    (pe_current_daemon_generation e) (pe_current_protocol e).

Definition workspace_refused (reason trusted_root : string) : ProtocolError :=
  let root := if is_empty trusted_root then "unavailable"%string else trusted_root in
  with_error_id WORKSPACE_MISMATCH_ERROR_ID
    (ProtocolError_new PermissionDenied
       (reason +:+ "; this daemon serves the workspace " +:+ root)).

Definition workspace_refusal (reason trusted_root : string) : ProtocolError :=
  workspace_refused reason trusted_root.

Fixpoint join_comma (names : list string) : string :=
  match names with
  | [] => ""
  | [name] => name
  | name :: names => name +:+ ", " +:+ join_comma names
  end.

Definition describe_served (served : list string) : string :=
  match retain (fun root => negb (is_empty root)) served with
  | [] => "this daemon serves no workspace yet"
  | [only] => "this daemon serves the workspace " +:+ only
  | many => "this daemon serves the workspaces " +:+ join_comma many
  end.

Definition workspace_refusal_serving (reason : string) (served : list string) : ProtocolError :=
  with_error_id WORKSPACE_MISMATCH_ERROR_ID
    (ProtocolError_new PermissionDenied (reason +:+ "; " +:+ describe_served served)).

Definition is_workspace_mismatch (e : ProtocolError) : bool :=
  bool_decide (pe_code e = PermissionDenied) &&
  bool_decide (pe_error_id e = WORKSPACE_MISMATCH_ERROR_ID).

Definition workspace_admission (declared : option ClientWorkspace) (trusted_root : string)
    : result ProtocolError unit :=
  let trusted := comparable_root trusted_root in
  match declared with
  | Some Unbound => Ok tt
  | Some (Bound root) =>
      match trusted, comparable_root root with
      | Some trusted, Some declared =>
          if is_prefix_of trusted declared then Ok tt
          else Err (workspace_refused "client workspace is not inside this daemon's workspace" trusted_root)
      | _, _ => Err (workspace_refused "workspace roots cannot be compared" trusted_root)
      end
  | Some (Selected root) =>
      match trusted, comparable_root root with
      | Some trusted, Some declared =>
          if bool_decide (declared = trusted) then Ok tt
          else Err (workspace_refused "this daemon does not serve the selected workspace" trusted_root)
      | _, _ => Err (workspace_refused "workspace roots cannot be compared" trusted_root)
      end
  | None => Err (workspace_refused "client did not declare its workspace" trusted_root)
  end.

(** ** Negotiation *)

(** The versions both peers support at their common highest revision. *)
Definition common_versions (client server : list ProtocolRange) : list ProtocolVersion :=
  c ← client ;
  d ← server ;
  if (pr_generation c =? pr_generation d)%N then
    let v := MkProtocolVersion (pr_generation c) (N.min (pr_max_revision c) (pr_max_revision d)) in
    if ((pr_min_revision c <=? pv_revision v) && (pr_min_revision d <=? pv_revision v))%N then [v] else []
  else [].

Definition version_le (v w : ProtocolVersion) : bool :=
  ((pv_generation v <? pv_generation w) ||
   (pv_generation v =? pv_generation w) && (pv_revision v <=? pv_revision w))%N.

(** [Iterator::max_by_key]: the last of the greatest. *)
Definition max_version (vs : list ProtocolVersion) : option ProtocolVersion :=
  match vs with
  | [] => None
  | v :: vs => Some (foldl (fun best v => if version_le best v then v else best) v vs)
  end.

Definition negotiate_with (hello : ClientHello) (server : ServerProtocol)
    (resolve : option ClientWorkspace -> result ProtocolError string)
    : result ProtocolError ServerHello :=
  if from_option (fun g => negb (bool_decide (g = sp_daemon_generation server))) false
       (ch_expected_daemon_generation hello) then
    let e := ProtocolError_new GenerationMismatch "target daemon generation does not match" in
    Err (MkProtocolError (pe_code e) (pe_message e) (pe_retry_mode e) (pe_side_effect e) (pe_error_id e)
           (Some (sp_daemon_generation server)) (pe_current_protocol e))
  else
    trusted <-? resolve (ch_workspace hello) ;;
    _ <-? workspace_admission (ch_workspace hello) trusted ;;
    protocol <-? ok_or (max_version (common_versions (ch_supported_protocols hello) (sp_supported_protocols server)))
                   (ProtocolError_new ProtocolMismatch "no compatible protocol generation and revision") ;;
    match find_first (fun c => negb (bool_decide (c ∈ sp_capabilities server))) (ch_required_capabilities hello) with
    | Some capability =>
        Err (ProtocolError_new CapabilityMissing ("required capability missing: " +:+ capability))
    | None =>
        Ok (MkServerHello (ch_connection_nonce hello) (sp_connection_id server) (sp_daemon_generation server)
              (sp_generation_role server) protocol (sp_capabilities server) (sp_build server)
              (sp_limits server) (sp_daemon_process server))
    end.

(** [FixedWorkspace] *)
Definition fixed_workspace (root : string) (declared : option ClientWorkspace)
    : result ProtocolError string := Ok root.

Definition negotiate (hello : ClientHello) (server : ServerProtocol) : result ProtocolError ServerHello :=
  negotiate_with hello server (fixed_workspace (sp_workspace_root server)).

(** ** What a client does on a negotiated connection *)
Inductive TerminalSnapshotMode : Type := Checkpoint | SnapshotLegacyFailClosed.
Inductive TerminalInputReplayMode : Type := DurableOperation | InputLegacyFailClosed.

Definition terminal_snapshot_mode (protocol : ProtocolVersion) (capabilities : list string)
    : TerminalSnapshotMode :=
  if is_advertised_by TerminalScreenCheckpoint capabilities &&
     (pv_generation protocol =? TERMINAL_WIRE_GENERATION)%N &&
     (TERMINAL_CHECKPOINT_REVISION <=? pv_revision protocol)%N
  then Checkpoint else SnapshotLegacyFailClosed.

Definition terminal_input_replay_mode (capabilities : list string) : TerminalInputReplayMode :=
  if is_advertised_by TerminalInputOperation capabilities then DurableOperation
  else InputLegacyFailClosed.

Definition require_user_decision_delivery (protocol : ProtocolVersion) (capabilities : list string)
    : result ProtocolError unit :=
  if (pv_generation protocol =? TERMINAL_WIRE_GENERATION)%N &&
     (USER_DECISION_DELIVERY_REVISION <=? pv_revision protocol)%N &&
     is_advertised_by UserDecisionDelivery capabilities
  then Ok tt
  else Err (ProtocolError_new CapabilityMissing
              ("user decisions require IPC revision 4 and " +:+ wire_name UserDecisionDelivery +:+
               "; update the daemon and reconnect clients")).

(** ** The fence *)

(** What a declaration may ask of the workspace [trusted]: a bound client lives
    in it, a selecting client means exactly it. *)
Definition admits (declared : option ClientWorkspace) (trusted : string) : Prop :=
  match declared with
  | None => False
  | Some Unbound => True
  | Some (Bound root) =>
      is_absolute trusted = true /\ is_absolute root = true /\
      components trusted `prefix_of` components root
  | Some (Selected root) =>
      is_absolute trusted = true /\ is_absolute root = true /\ components root = components trusted
  end.

Lemma is_prefix_of_spec a b : is_prefix_of a b = true <-> a `prefix_of` b.
Proof.
  revert b. induction a as [|x a IH]; intros b; cbn [is_prefix_of].
  - split; [intros _; apply prefix_nil|done].
  - destruct b as [|y b]; [split; [done|by intros ?%prefix_nil_not]|].
    rewrite andb_true_iff, bool_decide_eq_true, IH. split.
    + intros [-> H]. by apply prefix_cons.
    + intros H. split; [by eapply prefix_cons_inv_1|by eapply prefix_cons_inv_2].
Qed.

Lemma comparable_root_spec root parts :
  comparable_root root = Some parts <-> is_absolute root = true /\ parts = components root.
Proof. unfold comparable_root. destruct (is_absolute root); naive_solver. Qed.

Lemma refused_is_mismatch reason root : is_workspace_mismatch (workspace_refused reason root) = true.
Proof. reflexivity. Qed.

Lemma admission_spec declared trusted :
  (workspace_admission declared trusted = Ok tt <-> admits declared trusted) /\
  (forall e, workspace_admission declared trusted = Err e -> is_workspace_mismatch e = true).
Proof.
  unfold workspace_admission, admits, comparable_root.
  destruct declared as [[root|root|]|]; try (split; [split; [done|by try intros []]|by intros e [= <-]]).
  - destruct (is_absolute trusted), (is_absolute root); try (split; [split; naive_solver|by intros e [= <-]]).
    destruct (is_prefix_of _ _) eqn:E.
    + apply is_prefix_of_spec in E. split; [split; done|done].
    + split; [|by intros e [= <-]]. split; [done|]. intros (_ & _ & H).
      apply is_prefix_of_spec in H. congruence.
  - destruct (is_absolute trusted), (is_absolute root); try (split; [split; naive_solver|by intros e [= <-]]).
    case_bool_decide; (split; [split; naive_solver|by try intros e [= <-]]).
Qed.

(** ** The version *)
Definition supports (ranges : list ProtocolRange) (v : ProtocolVersion) : Prop :=
  exists r, r ∈ ranges /\ pr_generation r = pv_generation v /\
    (pr_min_revision r <= pv_revision v <= pr_max_revision r)%N.

Definition common (client server : list ProtocolRange) (v : ProtocolVersion) : Prop :=
  supports client v /\ supports server v.

Definition best (client server : list ProtocolRange) (v : ProtocolVersion) : Prop :=
  common client server v /\ forall w, common client server w -> version_le w v = true.

Lemma version_le_spec v w :
  version_le v w = true <->
  (pv_generation v < pv_generation w \/
   pv_generation v = pv_generation w /\ pv_revision v <= pv_revision w)%N.
Proof. unfold version_le. rewrite orb_true_iff, andb_true_iff, N.ltb_lt, N.eqb_eq, N.leb_le. done. Qed.

Lemma version_le_refl v : version_le v v = true.
Proof. apply version_le_spec. lia. Qed.
Lemma version_le_trans u v w : version_le u v = true -> version_le v w = true -> version_le u w = true.
Proof. rewrite !version_le_spec. lia. Qed.
Lemma version_le_total v w : version_le v w = true \/ version_le w v = true.
Proof. rewrite !version_le_spec. lia. Qed.
Lemma version_le_antisym v w : version_le v w = true -> version_le w v = true -> v = w.
Proof. rewrite !version_le_spec. destruct v, w; cbn. intros. f_equal; lia. Qed.

Lemma elem_common_versions client server v :
  v ∈ common_versions client server <->
  exists c d, c ∈ client /\ d ∈ server /\ pr_generation c = pr_generation d /\
    v = MkProtocolVersion (pr_generation c) (N.min (pr_max_revision c) (pr_max_revision d)) /\
    (pr_min_revision c <= pv_revision v)%N /\ (pr_min_revision d <= pv_revision v)%N.
Proof.
  unfold common_versions. rewrite list_elem_of_bind. setoid_rewrite list_elem_of_bind. split.
  - intros (c & (d & Hv & Hd) & Hc). exists c, d.
    destruct (N.eqb_spec (pr_generation c) (pr_generation d)) as [E|]; [|by apply not_elem_of_nil in Hv].
    destruct (_ && _) eqn:B; [|by apply not_elem_of_nil in Hv].
    apply elem_of_cons in Hv as [->|Hv]; [|by apply not_elem_of_nil in Hv].
    apply andb_true_iff in B as [B1%N.leb_le B2%N.leb_le]. done.
  - intros (c & d & Hc & Hd & E & -> & B1 & B2). exists c. split; [|done]. exists d. split; [|done].
    rewrite (proj2 (N.eqb_eq _ _) E). cbn [pv_revision] in *.
    rewrite (proj2 (N.leb_le _ _) B1), (proj2 (N.leb_le _ _) B2). left.
Qed.

(** Every listed version is common, and every common version is below one. *)
Lemma common_versions_sound client server v :
  v ∈ common_versions client server -> common client server v.
Proof.
  intros (c & d & Hc & Hd & E & -> & B1 & B2)%elem_common_versions. cbn [pv_revision] in *.
  split; [exists c|exists d]; cbn; split_and!; try done; lia.
Qed.

Lemma common_versions_complete client server w :
  common client server w -> exists v, v ∈ common_versions client server /\ version_le w v = true.
Proof.
  intros [(c & Hc & Ec & Bc) (d & Hd & Ed & Bd)].
  exists (MkProtocolVersion (pr_generation c) (N.min (pr_max_revision c) (pr_max_revision d))). split.
  - apply elem_common_versions. exists c, d. cbn. split_and!; try done; try congruence; lia.
  - apply version_le_spec. cbn. lia.
Qed.

Lemma foldl_max vs v :
  let m := foldl (fun b x => if version_le b x then x else b) v vs in
  m ∈ v :: vs /\ forall w, w ∈ v :: vs -> version_le w m = true.
Proof.
  revert v. induction vs as [|x vs IH]; intros v; cbn [foldl].
  - split; [left|]. intros w [->|H]%elem_of_cons; [apply version_le_refl|by apply not_elem_of_nil in H].
  - destruct (IH (if version_le v x then x else v)) as [Hin Hle]. split.
    + apply elem_of_cons in Hin as [->|Hin]; [|by right; right].
      destruct (version_le v x); [right; left|left].
    + assert (Hstep : version_le v (if version_le v x then x else v) = true /\
                      version_le x (if version_le v x then x else v) = true).
      { destruct (version_le v x) eqn:E; [by split; [|apply version_le_refl]|].
        split; [apply version_le_refl|]. destruct (version_le_total v x); congruence. }
      intros w [->|[->|Hw]%elem_of_cons]%elem_of_cons.
      * eapply version_le_trans; [apply Hstep|]. apply Hle. left.
      * eapply version_le_trans; [apply Hstep|]. apply Hle. left.
      * apply Hle. by right.
Qed.

Lemma max_version_best client server v :
  max_version (common_versions client server) = Some v <-> best client server v.
Proof.
  destruct (common_versions client server) as [|x vs] eqn:E; cbn [max_version].
  - split; [done|]. intros [Hc _]. apply common_versions_complete in Hc as (u & Hu & _).
    rewrite E in Hu. by apply not_elem_of_nil in Hu.
  - destruct (foldl_max vs x) as [Hin Hle]. set (m := foldl _ x vs) in *.
    assert (Hbest : best client server m).
    { split; [apply common_versions_sound; by rewrite E|].
      intros w Hw. apply common_versions_complete in Hw as (u & Hu & Hwu). rewrite E in Hu.
      eapply version_le_trans; [exact Hwu|by apply Hle]. }
    split; [by intros [= <-]|]. intros [Hc Hb]. f_equal. apply version_le_antisym; [|apply Hbest, Hc].
    by apply Hb, Hbest.
Qed.

Lemma no_version client server :
  max_version (common_versions client server) = None <-> forall v, ~ common client server v.
Proof.
  destruct (common_versions client server) as [|x vs] eqn:E; cbn [max_version].
  - split; [|done]. intros _ v Hv. apply common_versions_complete in Hv as (u & Hu & _).
    rewrite E in Hu. by apply not_elem_of_nil in Hu.
  - split; [done|]. intros H. exfalso. apply (H x), common_versions_sound. rewrite E. left.
Qed.

(** ** The whole handshake *)
Definition generation_matches (hello : ClientHello) (server : ServerProtocol) : Prop :=
  forall g, ch_expected_daemon_generation hello = Some g -> g = sp_daemon_generation server.

Definition answer (hello : ClientHello) (server : ServerProtocol) (v : ProtocolVersion) : ServerHello :=
  MkServerHello (ch_connection_nonce hello) (sp_connection_id server) (sp_daemon_generation server)
    (sp_generation_role server) v (sp_capabilities server) (sp_build server) (sp_limits server)
    (sp_daemon_process server).

Lemma generation_fence hello server :
  from_option (fun g => negb (bool_decide (g = sp_daemon_generation server))) false
    (ch_expected_daemon_generation hello) = false <-> generation_matches hello server.
Proof.
  unfold generation_matches. destruct (ch_expected_daemon_generation hello) as [g|]; cbn.
  - rewrite negb_false_iff, bool_decide_eq_true. naive_solver.
  - naive_solver.
Qed.

Lemma missing_capability (required offered : list string) :
  find_first (fun c => negb (bool_decide (c ∈ offered))) required = None <->
  forall c : string, c ∈ required -> c ∈ offered.
Proof.
  rewrite find_first_None. setoid_rewrite negb_false_iff. by setoid_rewrite bool_decide_eq_true.
Qed.

(** C39: A handshake succeeds exactly when the client meant this generation, the
    workspace that serves it admits its declaration, both sides share a protocol
    version and every capability the client requires is offered; the answer names
    the greatest version both sides support.  A declaration the workspace does
    not admit is refused as a workspace mismatch whatever else the peers could
    agree on. *)
Theorem negotiation_exact hello server resolve :
  (forall sh,
     negotiate_with hello server resolve = Ok sh <->
     exists trusted v,
       generation_matches hello server /\ resolve (ch_workspace hello) = Ok trusted /\
       admits (ch_workspace hello) trusted /\
       best (ch_supported_protocols hello) (sp_supported_protocols server) v /\
       (forall c, c ∈ ch_required_capabilities hello -> c ∈ sp_capabilities server) /\
       sh = answer hello server v) /\
  (forall trusted,
     generation_matches hello server -> resolve (ch_workspace hello) = Ok trusted ->
     ~ admits (ch_workspace hello) trusted ->
     exists e, negotiate_with hello server resolve = Err e /\ is_workspace_mismatch e = true).
Proof.
  unfold negotiate_with. assert (Hg := generation_fence hello server).
  destruct (from_option _ false _) eqn:Eg.
  { split.
    - intros sh. split; [done|]. intros (t & v & H & _). apply Hg in H. done.
    - intros t H. apply Hg in H. done. }
  assert (Hm : generation_matches hello server) by by apply Hg. clear Hg.
  destruct (resolve (ch_workspace hello)) as [trusted|e] eqn:Er; cbn [res_bind].
  2: { split; [|intros; congruence]. intros sh. split; [done|]. intros (t & v & _ & H & _). congruence. }
  destruct (admission_spec (ch_workspace hello) trusted) as [Hadm Herr].
  destruct (workspace_admission (ch_workspace hello) trusted) as [[]|e] eqn:Ew; cbn [res_bind].
  2: { split.
    - intros sh. split; [done|]. intros (t & v & _ & [= <-] & H & _). apply Hadm in H. done.
    - intros t _ _ _. exists e. split; [done|by apply Herr]. }
  assert (Ha : admits (ch_workspace hello) trusted) by by apply Hadm.
  split; [|intros t _ [= <-] H; done]. intros sh.
  destruct (max_version _) as [v|] eqn:Ev; cbn [ok_or res_bind].
  2: { split; [done|]. intros (t & v & _ & _ & _ & [Hc _] & _).
    exact (False_ind _ (proj1 (no_version _ _) Ev v Hc)). }
  assert (Hc := missing_capability (ch_required_capabilities hello) (sp_capabilities server)).
  destruct (find_first _ _) as [c|] eqn:Ec.
  - split; [done|]. intros (t & w & _ & _ & _ & _ & H & _). apply Hc in H. done.
  - split.
    + intros [= <-]. exists trusted, v. split_and!; try done; [by apply max_version_best|by apply Hc].
    + intros (t & w & _ & _ & _ & Hb & _ & ->). apply max_version_best in Hb. rewrite Ev in Hb.
      by injection Hb as <-.
Qed.

(** A sibling is no child, a trailing separator no difference, a subdirectory no
    selection. *)
Example fence_examples :
  workspace_admission (Some (Bound "/w/a-2")) "/w/a" <> Ok tt /\
  workspace_admission (Some (Bound "/w/a/.usagi/sessions/x")) "/w/a/" = Ok tt /\
  workspace_admission (Some (Selected "/w//a/")) "/w/a" = Ok tt /\
  workspace_admission (Some (Selected "/w/a/sub")) "/w/a" <> Ok tt.
Proof. by vm_compute. Qed.

(** The capabilities every production client requires are advertised by a daemon
    of the same source in every role, and no standby may be bound as an owner. *)
Lemma production_capabilities_offered expects_owner workspace role c :
  c ∈ client_required_capabilities expects_owner workspace -> c ∈ server_advertised_capabilities role.
Proof.
  intros Hc. unfold server_advertised_capabilities. apply elem_of_app. left.
  unfold client_required_capabilities in Hc. revert Hc. rewrite !elem_of_app.
  intros [Hc|[Hc|Hc]].
  - revert c Hc. apply Forall_forall. repeat (constructor; [by apply (bool_decide_unpack _)|]). constructor.
  - destruct expects_owner; [|by apply not_elem_of_nil in Hc].
    apply elem_of_cons in Hc as [->|Hc]; [by apply (bool_decide_unpack _)|by apply not_elem_of_nil in Hc].
  - destruct workspace; try (by apply not_elem_of_nil in Hc);
      (apply elem_of_cons in Hc as [->|Hc]; [by apply (bool_decide_unpack _)|by apply not_elem_of_nil in Hc]).
Qed.

(** *** A production handshake *)
Definition a_hello : ClientHello :=
  MkClientHello "c" (Some Tui) "nonce" None [MkProtocolRange 1 1 4; MkProtocolRange 2 0 0]
    client_advertised_capabilities (client_required_capabilities true (Selected "/w/a"))
    BuildIdentity_default (Some (Selected "/w/a/")).
Definition a_server : ServerProtocol :=
  MkServerProtocol "g" "k" WireActive [MkProtocolRange 1 2 9] (server_advertised_capabilities WireActive)
    BuildIdentity_default ProtocolLimits_default None "/w/a".

Example a_handshake : negotiate a_hello a_server = Ok (answer a_hello a_server (MkProtocolVersion 1 4)).
Proof. vm_compute. reflexivity. Qed.

Lemma negotiation_exact_witness :
  (forall sh,
     negotiate_with a_hello a_server (fixed_workspace "/w/a") = Ok sh <->
     exists trusted v,
       generation_matches a_hello a_server /\ fixed_workspace "/w/a" (ch_workspace a_hello) = Ok trusted /\
       admits (ch_workspace a_hello) trusted /\
       best (ch_supported_protocols a_hello) (sp_supported_protocols a_server) v /\
       (forall c, c ∈ ch_required_capabilities a_hello -> c ∈ sp_capabilities a_server) /\
       sh = answer a_hello a_server v) /\
  (forall trusted,
     generation_matches a_hello a_server -> fixed_workspace "/w/a" (ch_workspace a_hello) = Ok trusted ->
     ~ admits (ch_workspace a_hello) trusted ->
     exists e, negotiate_with a_hello a_server (fixed_workspace "/w/a") = Err e /\
       is_workspace_mismatch e = true).
Proof. exact (negotiation_exact a_hello a_server (fixed_workspace "/w/a")). Defined.
