(* ===== verification/Framing.v ===== *)
(** * Frames on a byte stream
    ([crates/core/src/infrastructure/ipc/mod.rs], the frame codec)

    One frame is a big-endian [u32] length and that many bytes of JSON.  A reader
    is what will arrive: pieces of any size, interruptions, failures, and the end
    of the stream when nothing is left.  Reading gives back the frames that were
    written however the stream is cut into pieces, and tells a clean close from a
    truncation. *)
From S2P Require Export CasFile.

(** A byte is a number below 256. *)
Notation bytes := (list N) (only parsing).

Definition DEFAULT_MAX_FRAME_BYTES : N := 1048576.
Definition U32_LIMIT : N := 4294967295.

Inductive IoError : Type :=
| InvalidInput
| InvalidData
| UnexpectedEof
| InterruptedRead
| OtherFailure.

(** What one call of [read] meets. *)
Inductive Arrival : Type :=
| Bytes (b : bytes)
| Interrupted
| Failed.

Definition Reader : Type := list Arrival.

(** *** [u32::to_be_bytes], [u32::from_be_bytes] *)
Definition to_be_bytes (n : N) : bytes :=
  [(n / 16777216) mod 256; (n / 65536) mod 256; (n / 256) mod 256; n mod 256]%N.

Definition from_be_bytes (b : bytes) : N := foldl (fun acc x => acc * 256 + x)%N 0%N b.

(** [write_frame_with_limit], to a writer that takes everything. *)
Definition write_frame_with_limit (payload : bytes) (max_frame_bytes : N) : result IoError bytes :=
  let len := N.of_nat (length payload) in
  if bool_decide (payload = []) || (max_frame_bytes <? len)%N || (U32_LIMIT <? len)%N
  then Err InvalidInput
  else Ok (to_be_bytes len ++ payload).

Definition write_frame (payload : bytes) : result IoError bytes :=
  write_frame_with_limit payload DEFAULT_MAX_FRAME_BYTES.

(** What is left of an arrival of which [k] bytes were taken. *)
Definition remaining (k : nat) (b : bytes) (r : Reader) : Reader :=
  match drop k b with [] => r | b => Bytes b :: r end.

(** The loop over the four bytes of the prefix: [need] are missing, [got] were
    read.  An empty read ends the stream. *)
Fixpoint read_prefix (need : nat) (got : bytes) (r : Reader) : result IoError (option bytes) * Reader :=
  match r with
  | [] => (if bool_decide (got = []) then Ok None else Err UnexpectedEof, [])
  | Bytes b :: r =>
      if bool_decide (b = []) then (if bool_decide (got = []) then Ok None else Err UnexpectedEof, r)
      else if need <=? length b then (Ok (Some (got ++ take need b)), remaining need b r)
      else read_prefix (need - length b) (got ++ b) r
  | Interrupted :: r => (Err InterruptedRead, r)
  | Failed :: r => (Err OtherFailure, r)
  end.

(** [Read::read_exact], which reads again after an interruption. *)
Fixpoint read_exact (need : nat) (got : bytes) (r : Reader) : result IoError bytes * Reader :=
  match r with
  | [] => (Err UnexpectedEof, [])
  | Bytes b :: r =>
      if bool_decide (b = []) then (Err UnexpectedEof, r)
      else if need <=? length b then (Ok (got ++ take need b), remaining need b r)
      else read_exact (need - length b) (got ++ b) r
  | Interrupted :: r => read_exact need got r
  | Failed :: r => (Err OtherFailure, r)
  end.

Definition read_frame_with_limit (max_frame_bytes : N) (r : Reader)
    : result IoError (option bytes) * Reader :=
  match read_prefix 4 [] r with
  | (Err e, r) => (Err e, r)
  | (Ok None, r) => (Ok None, r)
  | (Ok (Some prefix), r) =>
      let length := from_be_bytes prefix in
      if (length =? 0)%N || (max_frame_bytes <? length)%N || (DEFAULT_MAX_FRAME_BYTES <? length)%N
      then (Err InvalidData, r)
      else
        match read_exact (N.to_nat length) [] r with
        | (Ok payload, r) => (Ok (Some payload), r)
        | (Err e, r) => (Err e, r)
        end
  end.

Definition read_frame (r : Reader) : result IoError (option bytes) * Reader :=
  read_frame_with_limit DEFAULT_MAX_FRAME_BYTES r.

Section json.
Context {T : Type} `{Serde T (list N)}.

Definition read_json_frame (max_frame_bytes : N) (r : Reader) : result IoError (option T) * Reader :=
  match read_frame_with_limit max_frame_bytes r with
  | (Err e, r) => (Err e, r)
  | (Ok None, r) => (Ok None, r)
  | (Ok (Some b), r) => (map_ok Some (ok_or (from_str b) InvalidData), r)
  end.

Definition write_json_frame (value : T) (max_frame_bytes : N) : result IoError bytes :=
  b <-? ok_or (to_string value) InvalidData ;;
  write_frame_with_limit b max_frame_bytes.
End json.

(** ** Reading what was written *)

Lemma be_bytes_round_trip n : (n <= U32_LIMIT)%N -> from_be_bytes (to_be_bytes n) = n.
Proof.
  unfold U32_LIMIT, from_be_bytes, to_be_bytes. intros Hn. cbn [foldl].
  rewrite N.add_0_l in *.
  assert (H1 := N.div_mod n 256 ltac:(lia)).
  assert (H2 := N.div_mod (n / 256) 256 ltac:(lia)).
  assert (H3 := N.div_mod (n / 256 / 256) 256 ltac:(lia)).
  rewrite !N.Div0.div_div in *. change (256 * 256)%N with 65536%N in *.
  change (65536 * 256)%N with 16777216%N in *.
  assert (H4 : (n / 16777216 < 256)%N) by (apply N.Div0.div_lt_upper_bound; lia).
  rewrite (N.mod_small _ 256 H4). lia.
Qed.

(** A reader that only delivers: every piece has a byte. *)
Definition delivers (pieces : list bytes) (data : bytes) : Prop :=
  Forall (fun b => b <> []) pieces /\ mjoin pieces = data.

Lemma delivers_remaining k b pieces data :
  delivers pieces data ->
  exists pieces', remaining k b (Bytes <$> pieces) = Bytes <$> pieces' /\ delivers pieces' (drop k b ++ data).
Proof.
  intros [Hf <-]. unfold remaining. destruct (drop k b) as [|x d] eqn:E.
  - by exists pieces.
  - exists ((x :: d) :: pieces). split; [done|]. split; [by constructor|done].
Qed.

(** The two read loops on a delivering reader. *)
Section loops.
Context (X : Type) (loop : nat -> bytes -> Reader -> result IoError X * Reader) (wrap : bytes -> X).
Context (loop_enough : forall need got b r,
  b <> [] -> need <= length b -> loop need got (Bytes b :: r) = (Ok (wrap (got ++ take need b)), remaining need b r)).
Context (loop_more : forall need got b r,
  b <> [] -> length b < need -> loop need got (Bytes b :: r) = loop (need - length b) (got ++ b) r).

Lemma loop_reads pieces data need got :
  0 < need -> delivers pieces data -> need <= length data ->
  exists pieces', loop need got (Bytes <$> pieces) = (Ok (wrap (got ++ take need data)), Bytes <$> pieces') /\
    delivers pieces' (drop need data).
Proof.
  revert data need got. induction pieces as [|b pieces IH]; intros data need got Hn [Hf <-] Hl.
  { cbn in Hl. lia. }
  apply Forall_cons in Hf as [Hb Hf]. change (mjoin (b :: pieces)) with (b ++ mjoin pieces) in *.
  rewrite fmap_cons. destruct (decide (need <= length b)) as [Hle|Hgt].
  - rewrite loop_enough by done.
    destruct (delivers_remaining need b pieces (mjoin pieces)) as (pieces' & -> & Hp); [done|].
    exists pieces'. rewrite take_app_le, drop_app_le by done. done.
  - rewrite loop_more by (done || lia). rewrite length_app in Hl.
    destruct (IH (mjoin pieces) (need - length b) (got ++ b)) as (pieces' & -> & Hp); [lia|done|lia|].
    exists pieces'. rewrite take_app_ge, drop_app_ge by lia. by rewrite (assoc_L (++)).
Qed.

Context (loop_end : forall need got, got <> [] -> loop need got [] = (Err UnexpectedEof, [])).

Lemma loop_truncated pieces data need got :
  delivers pieces data -> length data < need -> got ++ data <> [] ->
  loop need got (Bytes <$> pieces) = (Err UnexpectedEof, []).
Proof.
  revert data need got. induction pieces as [|b pieces IH]; intros data need got [Hf <-] Hl Hg.
  - cbn in *. apply loop_end. by rewrite app_nil_r in Hg.
  - apply Forall_cons in Hf as [Hb Hf]. change (mjoin (b :: pieces)) with (b ++ mjoin pieces) in *.
    rewrite length_app in Hl. rewrite fmap_cons, loop_more by (done || lia).
    apply (IH (mjoin pieces)); [done|lia|]. by rewrite <- (assoc_L (++)).
Qed.
End loops.

Lemma prefix_reads pieces data :
  delivers pieces data -> 4 <= length data ->
  exists pieces', read_prefix 4 [] (Bytes <$> pieces) = (Ok (Some (take 4 data)), Bytes <$> pieces') /\
    delivers pieces' (drop 4 data).
Proof.
  intros Hd Hl. refine (loop_reads (option bytes) read_prefix Some _ _ pieces data 4 [] _ Hd Hl); [| |lia].
  - intros need got b r Hb Hn. cbn [read_prefix]. rewrite bool_decide_eq_false_2 by done.
    by rewrite (proj2 (Nat.leb_le _ _) Hn).
  - intros need got b r Hb Hn. cbn [read_prefix]. rewrite bool_decide_eq_false_2 by done.
    by rewrite (proj2 (Nat.leb_gt _ _) Hn).
Qed.

Lemma prefix_truncated pieces data :
  delivers pieces data -> length data < 4 -> data <> [] ->
  read_prefix 4 [] (Bytes <$> pieces) = (Err UnexpectedEof, []).
Proof.
  intros Hd Hl Hne. refine (loop_truncated (option bytes) read_prefix _ _ pieces data 4 [] Hd Hl Hne).
  - intros need got b r Hb Hn. cbn [read_prefix]. rewrite bool_decide_eq_false_2 by done.
    by rewrite (proj2 (Nat.leb_gt _ _) Hn).
  - intros need got Hg. cbn [read_prefix]. by rewrite bool_decide_eq_false_2.
Qed.

Lemma exact_reads pieces data need :
  0 < need -> delivers pieces data -> need <= length data ->
  exists pieces', read_exact need [] (Bytes <$> pieces) = (Ok (take need data), Bytes <$> pieces') /\
    delivers pieces' (drop need data).
Proof.
  intros Hn Hd Hl. refine (loop_reads bytes read_exact id _ _ pieces data need [] Hn Hd Hl).
  - intros k got b r Hb Hk. cbn [read_exact]. rewrite bool_decide_eq_false_2 by done.
    by rewrite (proj2 (Nat.leb_le _ _) Hk).
  - intros k got b r Hb Hk. cbn [read_exact]. rewrite bool_decide_eq_false_2 by done.
    by rewrite (proj2 (Nat.leb_gt _ _) Hk).
Qed.

Lemma exact_truncated pieces data need :
  delivers pieces data -> length data < need ->
  read_exact need [] (Bytes <$> pieces) = (Err UnexpectedEof, []).
Proof.
  intros Hd Hl. destruct pieces as [|b pieces]; [done|].
  assert (Hne : data <> []).
  { destruct Hd as [Hf <-]. apply Forall_cons in Hf as [Hb _]. cbn. by destruct b. }
  refine (loop_truncated bytes read_exact _ _ (b :: pieces) data need [] Hd Hl Hne).
  - intros k got c r Hb Hk. cbn [read_exact]. rewrite bool_decide_eq_false_2 by done.
    by rewrite (proj2 (Nat.leb_gt _ _) Hk).
  - done.
Qed.

(** ** Frames *)

(** The payloads the codec carries under a limit. *)
Definition frameable (limit : N) (payload : bytes) : Prop :=
  payload <> [] /\ (N.of_nat (length payload) <= limit)%N /\
  (N.of_nat (length payload) <= DEFAULT_MAX_FRAME_BYTES)%N.

Definition frame (payload : bytes) : bytes := to_be_bytes (N.of_nat (length payload)) ++ payload.

Lemma write_frame_frame limit payload :
  frameable limit payload -> write_frame_with_limit payload limit = Ok (frame payload).
Proof.
  intros (Hne & Hl & Hd). unfold write_frame_with_limit. rewrite bool_decide_eq_false_2 by done.
  unfold DEFAULT_MAX_FRAME_BYTES, U32_LIMIT in *.
  rewrite !(proj2 (N.ltb_ge _ _)) by lia. done.
Qed.

Lemma frame_length payload : length (frame payload) = 4 + length payload.
Proof. done. Qed.

Lemma frame_prefix payload rest : take 4 (frame payload ++ rest) = to_be_bytes (N.of_nat (length payload)).
Proof. done. Qed.

Lemma frame_rest payload rest : drop 4 (frame payload ++ rest) = payload ++ rest.
Proof. done. Qed.

Lemma length_accepted limit payload :
  frameable limit payload ->
  let length := from_be_bytes (to_be_bytes (N.of_nat (length payload))) in
  ((length =? 0)%N || (limit <? length)%N || (DEFAULT_MAX_FRAME_BYTES <? length)%N) = false /\
  length = N.of_nat (List.length payload).
Proof.
  intros (Hne & Hl & Hd). cbv zeta. unfold DEFAULT_MAX_FRAME_BYTES in *.
  rewrite be_bytes_round_trip by (unfold U32_LIMIT; lia).
  rewrite !(proj2 (N.ltb_ge _ _)) by lia.
  rewrite (proj2 (N.eqb_neq _ _)); [done|]. destruct payload; [done|]. cbn. lia.
Qed.

Lemma read_one limit payload pieces rest :
  frameable limit payload -> delivers pieces (frame payload ++ rest) ->
  exists pieces', read_frame_with_limit limit (Bytes <$> pieces) = (Ok (Some payload), Bytes <$> pieces') /\
    delivers pieces' rest.
Proof.
  intros Hf Hd. unfold read_frame_with_limit.
  destruct (prefix_reads pieces (frame payload ++ rest)) as (p1 & -> & H1); [done|rewrite length_app, frame_length; lia|].
  rewrite frame_prefix. rewrite frame_rest in H1. destruct (length_accepted limit payload Hf) as [-> ->].
  rewrite Nat2N.id.
  destruct (exact_reads p1 (payload ++ rest) (length payload)) as (p2 & -> & H2); [|done|rewrite length_app; lia|].
  { destruct Hf as [Hne _]. destruct payload; [done|]. cbn. lia. }
  exists p2. rewrite take_app_length, drop_app_length in *. done.
Qed.

(** A frame cut short, anywhere but at its start. *)
Lemma read_cut limit payload pieces cut rest :
  frameable limit payload -> delivers pieces cut -> frame payload = cut ++ rest -> cut <> [] -> rest <> [] ->
  read_frame_with_limit limit (Bytes <$> pieces) = (Err UnexpectedEof, []).
Proof.
  intros Hf Hd E Hc Hr. unfold read_frame_with_limit.
  destruct (decide (length cut < 4)) as [Hlt|Hge].
  - by rewrite (prefix_truncated pieces cut).
  - destruct (prefix_reads pieces cut Hd) as (p1 & -> & H1); [lia|].
    assert (Ep : take 4 cut = to_be_bytes (N.of_nat (length payload))).
    { transitivity (take 4 (frame payload)); [|done]. rewrite E, take_app_le by lia. done. }
    rewrite Ep. destruct (length_accepted limit payload Hf) as [-> ->]. rewrite Nat2N.id.
    rewrite (exact_truncated p1 (drop 4 cut)); [done|done|].
    apply (f_equal length) in E. rewrite frame_length, length_app in E. rewrite length_drop.
    destruct rest; [done|]. cbn in E. lia.
Qed.

(** [n] frames read one after the other. *)
Fixpoint read_frames (limit : N) (n : nat) (r : Reader) : list (result IoError (option bytes)) :=
  match n with
  | 0 => []
  | S n => let '(x, r) := read_frame_with_limit limit r in x :: read_frames limit n r
  end.

Lemma read_exact_length need got r p r' :
  read_exact need got r = (Ok p, r') -> length p = length got + need.
Proof.
  revert need got. induction r as [|[b| |] r IH]; intros need got; cbn [read_exact]; [done| |apply IH|done].
  case_bool_decide; [done|]. destruct (need <=? length b) eqn:E.
  - apply Nat.leb_le in E. intros [= <- _]. rewrite length_app, length_take. lia.
  - apply Nat.leb_gt in E. intros H1%IH. rewrite length_app in H1. lia.
Qed.

Lemma read_bounded limit r payload rest :
  read_frame_with_limit limit r = (Ok (Some payload), rest) ->
  payload <> [] /\ (N.of_nat (length payload) <= N.min limit DEFAULT_MAX_FRAME_BYTES)%N.
Proof.
  unfold read_frame_with_limit. destruct (read_prefix 4 [] r) as [[[prefix|]|e] r1]; [|done|done].
  destruct (_ || _) eqn:E; [done|]. apply orb_false_iff in E as [[E1 E2]%orb_false_iff E3].
  apply N.eqb_neq in E1. apply N.ltb_ge in E2, E3.
  destruct (read_exact _ [] r1) as [[p|e] r2] eqn:Er; [|done]. intros [= -> _].
  apply read_exact_length in Er. cbn [length plus] in Er. split; [|lia].
  intros ->. cbn in Er. lia.
Qed.

Lemma read_all limit payloads pieces tail last r' :
  Forall (frameable limit) payloads ->
  delivers pieces (mjoin (frame <$> payloads) ++ tail) ->
  (forall ps, delivers ps tail -> read_frame_with_limit limit (Bytes <$> ps) = (last, r')) ->
  read_frames limit (S (length payloads)) (Bytes <$> pieces) = ((fun p => Ok (Some p)) <$> payloads) ++ [last].
Proof.
  intros Hf Hd Hlast. revert pieces Hd. induction Hf as [|p payloads Hp _ IH]; intros pieces Hd.
  - cbn [length read_frames]. by rewrite (Hlast pieces).
  - rewrite !fmap_cons in *. change (length (p :: payloads)) with (S (length payloads)).
    cbn [read_frames]. change (mjoin (frame p :: (frame <$> payloads)))
      with (frame p ++ mjoin (frame <$> payloads)) in Hd. rewrite <- (assoc_L (++)) in Hd.
    destruct (read_one limit p pieces _ Hp Hd) as (ps & -> & Hps). cbn [app].
    f_equal. exact (IH ps Hps).
Qed.

(** What was written is read back, however the stream is cut into pieces:
    frame by frame, in order, and then a clean close.  A stream that ends inside
    a frame delivers the frames before it and then the truncation, never a
    partial payload; and no reader, whatever it delivers, obtains a payload that
    is empty or beyond the limits. *)
Theorem frames_survive_fragmentation limit payloads pieces tail :
  Forall (frameable limit) payloads ->
  delivers pieces (mjoin (frame <$> payloads) ++ tail) ->
  (tail = [] ->
     read_frames limit (S (length payloads)) (Bytes <$> pieces) = ((fun p => Ok (Some p)) <$> payloads) ++ [Ok None]) /\
  (forall payload rest, frameable limit payload -> frame payload = tail ++ rest -> tail <> [] -> rest <> [] ->
     read_frames limit (S (length payloads)) (Bytes <$> pieces) =
       ((fun p => Ok (Some p)) <$> payloads) ++ [Err UnexpectedEof]) /\
  (forall reader payload rest, read_frame_with_limit limit reader = (Ok (Some payload), rest) ->
     payload <> [] /\ (N.of_nat (length payload) <= N.min limit DEFAULT_MAX_FRAME_BYTES)%N).
Proof.
  intros Hf Hd. split_and!.
  - intros ->. apply (read_all limit payloads pieces [] (Ok None) []); [done|done|].
    intros ps [Hps E]. destruct ps as [|b ps]; [done|].
    apply Forall_cons in Hps as [Hb _]. by destruct b.
  - intros payload rest Hp E Ht Hr. apply (read_all limit payloads pieces tail _ []); [done|done|].
    intros ps Hps. by apply (read_cut limit payload ps tail rest).
  - apply read_bounded.
Qed.

(** A value that serializes within the limits goes through one frame. *)
Lemma json_frame_round_trip {T} `{SerdeLaws T (list N)} (value : T) limit b pieces :
  to_string value = Some b -> frameable limit b -> delivers pieces (frame b) ->
  write_json_frame value limit = Ok (frame b) /\
  fst (read_json_frame limit (Bytes <$> pieces)) = Ok (Some value).
Proof.
  intros Es Hf Hd. split.
  - unfold write_json_frame. rewrite Es. cbn [ok_or res_bind]. by apply write_frame_frame.
  - rewrite <- (app_nil_r (frame b)) in Hd. unfold read_json_frame.
    destruct (read_one limit b pieces [] Hf Hd) as (ps & -> & _). cbn [fst].
    by rewrite (from_to_string value b Es).
Qed.

Lemma frames_survive_fragmentation_witness :
  let payloads := [[123; 125]; [49]]%N in
  let pieces := [[0; 0]; [0; 2; 123]; [125; 0; 0; 0; 1; 49; 0]; [0]]%N in
  let tail := [0; 0]%N in
  (tail = [] ->
     read_frames 8 (S (length payloads)) (Bytes <$> pieces) = ((fun p => Ok (Some p)) <$> payloads) ++ [Ok None]) /\
  (forall payload rest, frameable 8 payload -> frame payload = tail ++ rest -> tail <> [] -> rest <> [] ->
     read_frames 8 (S (length payloads)) (Bytes <$> pieces) =
       ((fun p => Ok (Some p)) <$> payloads) ++ [Err UnexpectedEof]) /\
  (forall reader payload rest, read_frame_with_limit 8 reader = (Ok (Some payload), rest) ->
     payload <> [] /\ (N.of_nat (length payload) <= N.min 8 DEFAULT_MAX_FRAME_BYTES)%N).
Proof.
  apply (frames_survive_fragmentation 8 [[123; 125]; [49]]%N
    [[0; 0]; [0; 2; 123]; [125; 0; 0; 0; 1; 49; 0]; [0]]%N [0; 0]%N).
  - repeat constructor; try done; unfold DEFAULT_MAX_FRAME_BYTES; cbn; lia.
  - split; [|reflexivity]. by repeat constructor.
Defined.

(** An interruption between two pieces of a payload is read over; in the prefix
    it ends the connection. *)
Example interruptions :
  fst (read_frame [Bytes [0; 0; 0; 2; 123]; Interrupted; Bytes [125]])%N = Ok (Some [123; 125]%N) /\
  fst (read_frame [Bytes [0; 0]; Interrupted; Bytes [0; 2; 123; 125]])%N = Err InterruptedRead.
Proof. by vm_compute. Qed.
