(* ===== verification/Utf8.v ===== *)
(** * UTF-8 of the standard library

    [str::from_utf8] with the well-formed byte sequences of the Unicode
    standard, for the code that reads text out of raw bytes. *)
From S2P Require Export Prelude.

Definition in_range (lo hi n : N) : bool := ((lo <=? n) && (n <=? hi))%N.

Definition continuation_byte (b : N) : bool := in_range 128 191 b.

(** The first character and the bytes after it. *)
Definition utf8_next (bytes : list N) : option (N * list N) :=
  match bytes with
  | [] => None
  | b0 :: rest =>
      if (b0 <? 128)%N then Some (b0, rest)
      else if in_range 194 223 b0 then
        match rest with
        | b1 :: rest =>
            if continuation_byte b1 then Some ((b0 mod 32 * 64 + b1 mod 64)%N, rest) else None
        | _ => None
        end
      else if in_range 224 239 b0 then
        match rest with
        | b1 :: b2 :: rest =>
            if in_range (if (b0 =? 224)%N then 160 else 128) (if (b0 =? 237)%N then 159 else 191) b1
               && continuation_byte b2
            then Some (((b0 mod 16 * 64 + b1 mod 64) * 64 + b2 mod 64)%N, rest) else None
        | _ => None
        end
      else if in_range 240 244 b0 then
        match rest with
        | b1 :: b2 :: b3 :: rest =>
            if in_range (if (b0 =? 240)%N then 144 else 128) (if (b0 =? 244)%N then 143 else 191) b1
               && continuation_byte b2 && continuation_byte b3
            then Some ((((b0 mod 8 * 64 + b1 mod 64) * 64 + b2 mod 64) * 64 + b3 mod 64)%N, rest)
            else None
        | _ => None
        end
      else None
  end.

(** Every round takes at least a byte. *)
Fixpoint from_utf8 (fuel : nat) (bytes : list N) : option (list N) :=
  match bytes, fuel with
  | [], _ => Some []
  | _, S fuel => '(c, rest) ← utf8_next bytes; t ← from_utf8 fuel rest; Some (c :: t)
  | _, 0 => None
  end.

Definition valid_utf8 (bytes : list N) : bool :=
  match from_utf8 (length bytes) bytes with Some _ => true | None => false end.
