(* ===== verification/VtSgr.v ===== *)
(** * Graphic renditions of the terminal screen
    ([crates/core/src/usecase/vt_screen.rs], [SgrState])

    A screen keeps the rendition of the next printed cell as the canonical
    escape sequence of its attributes and colours.  A select-graphic-rendition
    control reads that sequence back, changes the attributes and writes it
    again.  The laws show that reading inverts writing, so the string is a
    faithful representation of the attributes, and bound its length. *)
From S2P Require Export Utf8 Frontmatter.

Definition ESC : char := 27%N.
Definition SEMICOLON : char := 59%N.
Definition LOWER_M : char := 109%N.

(** [str::split] on one character: always at least one piece. *)
Fixpoint split_on (k : char) (t : text) : list text :=
  match t with
  | [] => [[]]
  | c :: t =>
      if is_char k c then [] :: split_on k t
      else match split_on k t with
           | piece :: pieces => (c :: piece) :: pieces
           | [] => [[c]]
           end
  end.

(** ** State *)
Inductive SgrColor : Type :=
| Standard (code : N)
| Indexed (index : N)
| Rgb (red green blue : N).

#[export] Instance sgr_color_eq_dec : EqDecision SgrColor.
Proof. solve_decision. Defined.

Record SgrState := MkSgrState {
  sg_attributes : N;
  sg_foreground : option SgrColor;
  sg_background : option SgrColor
}.

#[export] Instance sgr_state_eq_dec : EqDecision SgrState.
Proof. solve_decision. Defined.

Definition sgr_default : SgrState := MkSgrState 0 None None.

Definition BOLD : N := 1.
Definition DIM : N := 2.
Definition UNDERLINE : N := 4.
Definition REVERSE : N := 8.

Definition set_attributes (x : N) (st : SgrState) : SgrState :=
  MkSgrState x (sg_foreground st) (sg_background st).
Definition set_foreground (x : option SgrColor) (st : SgrState) : SgrState :=
  MkSgrState (sg_attributes st) x (sg_background st).
Definition set_background (x : option SgrColor) (st : SgrState) : SgrState :=
  MkSgrState (sg_attributes st) (sg_foreground st) x.

(** ** Reading *)
Definition U16_MAX : N := 65535.
Definition U8_MAX : N := 255.

Definition parse_u16 (t : text) : option N := parse_uint U16_MAX t.
Definition parse_u8 (t : text) : option N := parse_uint U8_MAX t.

(** The colour after [38] or [48], with the number of values it takes. *)
Definition parse_extended_color (values : list text) : option (SgrColor * nat) :=
  match values with
  | kind :: index :: rest =>
      if bool_decide (kind = txt "5") then index ← parse_u8 index; Some (Indexed index, 2)
      else if bool_decide (kind = txt "2") then
        match rest with
        | green :: blue :: _ =>
            red ← parse_u8 index; green ← parse_u8 green; blue ← parse_u8 blue;
            Some (Rgb red green blue, 4)
        | _ => None
        end
      else None
  | _ => None
  end.

Definition foreground_code (n : N) : bool := in_range 30 37 n || in_range 90 97 n.
Definition background_code (n : N) : bool := in_range 40 47 n || in_range 100 107 n.

(** One value with the values after it: the new state and how many of those
    values it consumed. *)
Definition apply_code (code : option N) (rest : list text) (st : SgrState) : SgrState * nat :=
  match code with
  | None => (st, 0)
  | Some n =>
      if (n =? 0)%N then (sgr_default, 0)
      else if (n =? 1)%N then (set_attributes (N.lor (sg_attributes st) BOLD) st, 0)
      else if (n =? 2)%N then (set_attributes (N.lor (sg_attributes st) DIM) st, 0)
      else if (n =? 4)%N then (set_attributes (N.lor (sg_attributes st) UNDERLINE) st, 0)
      else if (n =? 7)%N then (set_attributes (N.lor (sg_attributes st) REVERSE) st, 0)
      else if (n =? 22)%N then (set_attributes (N.ldiff (sg_attributes st) (N.lor BOLD DIM)) st, 0)
      else if (n =? 24)%N then (set_attributes (N.ldiff (sg_attributes st) UNDERLINE) st, 0)
      else if (n =? 27)%N then (set_attributes (N.ldiff (sg_attributes st) REVERSE) st, 0)
      else if foreground_code n then (set_foreground (Some (Standard n)) st, 0)
      else if (n =? 39)%N then (set_foreground None st, 0)
      else if background_code n then (set_background (Some (Standard n)) st, 0)
      else if (n =? 49)%N then (set_background None st, 0)
      else if (n =? 38)%N || (n =? 48)%N then
        match parse_extended_color rest with
        | Some (color, consumed) =>
            ((if (n =? 38)%N then set_foreground (Some color) st
              else set_background (Some color) st), consumed)
        | None => (st, 0)
        end
      else (st, 0)
  end.

Definition value_code (value : text) : option N :=
  if is_empty value then Some 0%N else parse_u16 value.

(** The loop over the values; every round takes at least one of them. *)
Fixpoint apply_values (fuel : nat) (values : list text) (st : SgrState) : SgrState :=
  match fuel, values with
  | S fuel, value :: rest =>
      let '(st, consumed) := apply_code (value_code value) rest st in
      apply_values fuel (drop consumed rest) st
  | _, _ => st
  end.

Definition sgr_apply (params : text) (st : SgrState) : SgrState :=
  if is_empty params then sgr_default
  else let values := split_on SEMICOLON params in apply_values (length values) values st.

Definition CSI_PREFIX : text := [ESC; LBRACKET].

Fixpoint read_style (fuel : nat) (style : text) (st : SgrState) : SgrState :=
  match strip_prefix CSI_PREFIX style, fuel with
  | Some params_and_rest, S fuel =>
      match split_once LOWER_M params_and_rest with
      | None => sgr_default
      | Some (params, style) => read_style fuel style (sgr_apply params st)
      end
  | Some _, 0 => st
  | None, _ => if is_empty style then st else sgr_default
  end.
(** Every round removes a prefix of the style. *)
Definition from_style (style : text) : SgrState := read_style (length style) style sgr_default.

(** ** Writing *)
Definition push_sgr_param (params : text) (value : N) : text :=
  (if is_empty params then [] else params ++ [SEMICOLON]) ++ print_u32 value.

Definition push_color (params : text) (selector : N) (color : SgrColor) : text :=
  match color with
  | Standard code => push_sgr_param params code
  | Indexed index =>
      push_sgr_param (push_sgr_param (push_sgr_param params selector) 5) index
  | Rgb red green blue =>
      push_sgr_param (push_sgr_param (push_sgr_param
        (push_sgr_param (push_sgr_param params selector) 2) red) green) blue
  end.

Definition push_attribute (st : SgrState) (params : text) (row : N * N) : text :=
  if (N.land (sg_attributes st) row.1 =? 0)%N then params else push_sgr_param params row.2.

Definition ATTRIBUTE_CODES : list (N * N) :=
  [(BOLD, 1%N); (DIM, 2%N); (UNDERLINE, 4%N); (REVERSE, 7%N)].

Definition canonical (st : SgrState) : text :=
  let params := foldl (push_attribute st) [] ATTRIBUTE_CODES in
  let params := from_option (push_color params 38) params (sg_foreground st) in
  let params := from_option (push_color params 48) params (sg_background st) in
  if is_empty params then [] else CSI_PREFIX ++ params ++ [LOWER_M].

Example sgr_red_bold : canonical (sgr_apply (txt "1;31") sgr_default) = ESC :: txt "[1;31m".
Proof. reflexivity. Qed.
Example sgr_extended :
  from_style (ESC :: txt "[1;38;5;200;48;2;1;2;3m")
  = MkSgrState 1 (Some (Indexed 200)) (Some (Rgb 1 2 3)).
Proof. reflexivity. Qed.
Example sgr_incomplete_colour : sgr_apply (txt "38;2;1;2") sgr_default = MkSgrState 3 None None.
Proof. reflexivity. Qed.

(** ** Laws *)

(** The states the code can hold: four attribute bits, standard colours with
    the codes of their side and eight bit components. *)
Definition color_ok (standard : N -> bool) (color : SgrColor) : Prop :=
  match color with
  | Standard code => standard code = true
  | Indexed index => (index <= U8_MAX)%N
  | Rgb red green blue => (red <= U8_MAX /\ green <= U8_MAX /\ blue <= U8_MAX)%N
  end.
Definition sgr_ok (st : SgrState) : Prop :=
  (sg_attributes st < 16)%N /\
  from_option (color_ok foreground_code) True (sg_foreground st) /\
  from_option (color_ok background_code) True (sg_background st).

(** The values of a canonical sequence. *)
Definition attribute_values (attributes : N) : list N :=
  row ← ATTRIBUTE_CODES; if (N.land attributes row.1 =? 0)%N then [] else [row.2].
Definition color_values (selector : N) (color : SgrColor) : list N :=
  match color with
  | Standard code => [code]
  | Indexed index => [selector; 5%N; index]
  | Rgb red green blue => [selector; 2%N; red; green; blue]
  end.
Definition sgr_values (st : SgrState) : list N :=
  attribute_values (sg_attributes st) ++
  from_option (color_values 38) [] (sg_foreground st) ++
  from_option (color_values 48) [] (sg_background st).
Definition params_of (values : list N) : text := foldl push_sgr_param [] values.

Lemma params_of_app vs ws : params_of (vs ++ ws) = foldl push_sgr_param (params_of vs) ws.
Proof. apply foldl_app. Qed.

Lemma canonical_params st :
  canonical st = let params := params_of (sgr_values st) in
                 if is_empty params then [] else CSI_PREFIX ++ params ++ [LOWER_M].
Proof.
  unfold canonical, sgr_values. rewrite !params_of_app.
  assert (foldl (push_attribute st) [] ATTRIBUTE_CODES = params_of (attribute_values (sg_attributes st))) as ->.
  { unfold attribute_values, ATTRIBUTE_CODES, params_of, push_attribute. cbn.
    by repeat case_match. }
  by destruct st as [a [[]|] [[]|]].
Qed.

(** *** Splitting *)
Lemma split_on_free k t : free (is_char k) t = true -> split_on k t = [t].
Proof.
  induction t as [|c t IH]; [done|]. unfold free. cbn [forallb split_on].
  rewrite andb_true_iff, negb_true_iff. intros [-> H]. by rewrite (IH H).
Qed.

Lemma split_on_nonempty k t : split_on k t <> [].
Proof. destruct t; cbn; [done|]. repeat case_match; done. Qed.

Lemma split_on_app k t u : split_on k (t ++ k :: u) = split_on k t ++ split_on k u.
Proof.
  induction t as [|c t IH]; cbn.
  - unfold is_char. by rewrite N.eqb_refl.
  - rewrite IH. destruct (is_char k c); [done|].
    destruct (split_on k t) eqn:E; [by apply split_on_nonempty in E|done].
Qed.

Lemma digits_free_of k n :
  ((48 <=? k) && (k <=? 57))%N = false -> free (is_char k) (print_u32 n) = true.
Proof.
  intros Hk. assert (H := print_u32_chars n). revert H. unfold free.
  induction (print_u32 n) as [|c t IH]; cbn; [done|]. rewrite !andb_true_iff.
  intros [Hc Ht]. split; [|by apply IH]. unfold is_char.
  destruct (c =? k)%N eqn:E; [|done]. apply N.eqb_eq in E. subst. exfalso.
  apply andb_true_iff in Hc. by rewrite Hk in Hc.
Qed.

Lemma params_of_snoc vs v : vs <> [] ->
  params_of (vs ++ [v]) = params_of vs ++ SEMICOLON :: print_u32 v /\
  is_empty (params_of vs) = false.
Proof.
  revert v. induction vs as [|w vs IH] using rev_ind; [done|]. intros v _.
  assert (H : is_empty (params_of (vs ++ [w])) = false).
  { rewrite params_of_app. cbn. unfold push_sgr_param. destruct (is_empty _).
    - apply print_u32_nonempty.
    - destruct (params_of vs); done. }
  split; [|done]. rewrite (params_of_app (vs ++ [w])). cbn [foldl]. unfold push_sgr_param. rewrite H.
  by rewrite <- app_assoc.
Qed.

Lemma params_of_nonempty vs : vs <> [] -> is_empty (params_of vs) = false.
Proof. intros H. exact (proj2 (params_of_snoc vs 0 H)). Qed.

Lemma split_params vs : vs <> [] -> split_on SEMICOLON (params_of vs) = print_u32 <$> vs.
Proof.
  induction vs as [|v vs IH] using rev_ind; [done|]. intros _.
  destruct (decide (vs = [])) as [->|Hvs].
  - cbn. apply split_on_free, digits_free_of. reflexivity.
  - destruct (params_of_snoc vs v Hvs) as [-> _]. rewrite split_on_app, IH, fmap_app by done.
    f_equal. apply split_on_free, digits_free_of. reflexivity.
Qed.

Lemma params_free vs : free (is_char LOWER_M) (params_of vs) = true.
Proof.
  induction vs as [|v vs IH] using rev_ind; [done|].
  destruct (decide (vs = [])) as [->|Hvs].
  - by apply digits_free_of.
  - destruct (params_of_snoc vs v Hvs) as [-> _]. rewrite free_app, IH.
    by apply (digits_free_of LOWER_M v).
Qed.

(** *** The loop over the values *)
Definition apply_all (values : list text) (st : SgrState) : SgrState :=
  apply_values (length values) values st.

Lemma apply_values_fuel fuel values st :
  length values <= fuel -> apply_values fuel values st = apply_all values st.
Proof.
  unfold apply_all. assert (Hn : length values <= length values) by done. revert Hn.
  generalize (length values) at 2 as n. intros n. revert values fuel st.
  induction n as [|n IH]; intros [|v rest] fuel st Hn Hf; cbn in Hn, Hf; try lia;
    [by destruct fuel..|].
  destruct fuel as [|fuel]; [lia|]. cbn [apply_values length].
  destruct (apply_code (value_code v) rest st) as [st' c].
  assert (Hd : length (drop c rest) <= length rest) by (rewrite length_drop; lia).
  rewrite IH by lia. symmetry. by rewrite IH by lia.
Qed.

Lemma apply_all_cons v rest st :
  apply_all (v :: rest) st =
  let '(st, consumed) := apply_code (value_code v) rest st in apply_all (drop consumed rest) st.
Proof.
  unfold apply_all at 1. cbn [length apply_values]. destruct (apply_code _ _ _) as [st' c].
  apply apply_values_fuel. rewrite length_drop. lia.
Qed.

Lemma parse_printed max n : (n <= max)%N -> (max <= U32_MAX)%N -> parse_uint max (print_u32 n) = Some n.
Proof.
  intros Hn Hm. apply parse_print_uint; [|done|lia]. unfold U32_MAX in Hm. cbn. lia.
Qed.

Lemma value_code_print n : (n <= U16_MAX)%N -> value_code (print_u32 n) = Some n.
Proof.
  intros Hn. unfold value_code, parse_u16. rewrite print_u32_nonempty.
  by apply parse_printed.
Qed.

Lemma in_range_true lo hi n : in_range lo hi n = true <-> (lo <= n /\ n <= hi)%N.
Proof. unfold in_range. rewrite andb_true_iff, !N.leb_le. done. Qed.

(** The bounds of the two code ranges, for [lia]. *)
Lemma foreground_code_bounds n : foreground_code n = true -> (30 <= n <= 37 \/ 90 <= n <= 97)%N.
Proof. unfold foreground_code. rewrite orb_true_iff, !in_range_true. lia. Qed.
Lemma background_code_bounds n : background_code n = true -> (40 <= n <= 47 \/ 100 <= n <= 107)%N.
Proof. unfold background_code. rewrite orb_true_iff, !in_range_true. lia. Qed.

Lemma parse_indexed index rest : (index <= U8_MAX)%N ->
  parse_extended_color (print_u32 5 :: print_u32 index :: rest) = Some (Indexed index, 2).
Proof.
  intros H. unfold parse_extended_color, parse_u8. rewrite bool_decide_true by done.
  by rewrite parse_printed.
Qed.

Lemma parse_rgb r g b rest : color_ok foreground_code (Rgb r g b) ->
  parse_extended_color (print_u32 2 :: print_u32 r :: print_u32 g :: print_u32 b :: rest)
  = Some (Rgb r g b, 4).
Proof.
  intros (Hr & Hg & Hb). unfold parse_extended_color, parse_u8.
  rewrite bool_decide_false, bool_decide_true by done. by rewrite !parse_printed.
Qed.

Ltac skip_codes := repeat match goal with
  | |- context [(?n =? ?k)%N] => rewrite (proj2 (N.eqb_neq n k)) by lia
  end.

Lemma apply_foreground color rest st : color_ok foreground_code color ->
  apply_all ((print_u32 <$> color_values 38 color) ++ rest) st
  = apply_all rest (set_foreground (Some color) st).
Proof.
  destruct color as [code|index|r g b]; cbn [color_ok color_values fmap list_fmap app];
    rewrite apply_all_cons.
  - intros H. assert (Hb := foreground_code_bounds _ H).
    rewrite value_code_print by (unfold U16_MAX; lia). unfold apply_code. skip_codes.
    by rewrite H, drop_0.
  - intros H. rewrite value_code_print by done. unfold apply_code.
    by rewrite (parse_indexed index) by done.
  - intros H. rewrite value_code_print by done. unfold apply_code.
    by rewrite (parse_rgb r g b) by done.
Qed.

Lemma apply_background color rest st : color_ok background_code color ->
  apply_all ((print_u32 <$> color_values 48 color) ++ rest) st
  = apply_all rest (set_background (Some color) st).
Proof.
  destruct color as [code|index|r g b]; cbn [color_ok color_values fmap list_fmap app];
    rewrite apply_all_cons.
  - intros H. assert (Hb := background_code_bounds _ H).
    rewrite value_code_print by (unfold U16_MAX; lia). unfold apply_code. skip_codes.
    assert (foreground_code code = false) as ->.
    { apply not_true_iff_false. intros E%foreground_code_bounds. lia. }
    by rewrite H, drop_0.
  - intros H. rewrite value_code_print by done. unfold apply_code.
    by rewrite (parse_indexed index) by done.
  - intros H. rewrite value_code_print by done. unfold apply_code.
    by rewrite (parse_rgb r g b) by done.
Qed.

Lemma apply_attributes a rest : (a < 16)%N ->
  apply_all ((print_u32 <$> attribute_values a) ++ rest) sgr_default
  = apply_all rest (MkSgrState a None None).
Proof.
  intros Ha.
  assert (E : a ∈ N.of_nat <$> seq 0 16).
  { apply list_elem_of_fmap. exists (N.to_nat a). split; [lia|]. apply elem_of_seq. lia. }
  cbn in E. repeat (apply elem_of_cons in E as [->|E];
    [cbn [attribute_values ATTRIBUTE_CODES mbind list_bind N.land N.eqb BOLD DIM UNDERLINE REVERSE fst snd app fmap list_fmap];
     cbn; rewrite ?apply_all_cons; reflexivity|]). by apply not_elem_of_nil in E.
Qed.

Lemma apply_values_of st : sgr_ok st -> apply_all (print_u32 <$> sgr_values st) sgr_default = st.
Proof.
  destruct st as [a fg bg]. intros (Ha & Hf & Hb). cbn in Ha, Hf, Hb. unfold sgr_values.
  cbn [sg_attributes sg_foreground sg_background]. rewrite !fmap_app, apply_attributes by done.
  destruct fg as [f|]; cbn [from_option] in *.
  - rewrite apply_foreground by done. destruct bg as [b|]; cbn [from_option] in *; [|done].
    rewrite <- (app_nil_r (print_u32 <$> color_values 48 b)). by rewrite apply_background.
  - cbn [fmap list_fmap app]. destruct bg as [b|]; cbn [from_option] in *; [|done].
    rewrite <- (app_nil_r (print_u32 <$> color_values 48 b)). by rewrite apply_background.
Qed.

(** *** Reading what was written *)
Lemma sgr_values_nil st : sgr_ok st -> sgr_values st = [] -> st = sgr_default.
Proof. intros H E. rewrite <- (apply_values_of st H), E. done. Qed.

Lemma read_canonical fuel st st' : sgr_ok st -> 0 < fuel -> st' = sgr_default ->
  read_style fuel (canonical st) st' = st.
Proof.
  intros Hok Hf ->. destruct fuel as [|fuel]; [lia|]. rewrite canonical_params. cbn zeta.
  destruct (decide (sgr_values st = [])) as [E|E].
  { rewrite E. cbn. symmetry. by apply sgr_values_nil. }
  assert (Hp := params_of_nonempty _ E). rewrite Hp. cbn [app CSI_PREFIX read_style strip_prefix].
  unfold is_char. rewrite !N.eqb_refl, split_once_key by apply params_free.
  unfold sgr_apply. rewrite Hp. cbn zeta. rewrite split_params by done.
  fold (apply_all (print_u32 <$> sgr_values st) sgr_default). rewrite apply_values_of by done.
  by destruct fuel.
Qed.

(** The string a screen keeps for the next cell's rendition is a faithful
    encoding of it: reading the canonical sequence of any attribute state gives
    the state back. *)
Theorem from_style_canonical st (Hok : sgr_ok st) : from_style (canonical st) = st.
Proof.
  unfold from_style. destruct (canonical st) as [|c t] eqn:E.
  - cbn. symmetry. apply sgr_values_nil; [done|]. destruct (sgr_values st) as [|v vs] eqn:Ev; [done|].
    rewrite canonical_params, Ev in E. cbn zeta in E. by rewrite params_of_nonempty in E.
  - rewrite <- E at 2. apply read_canonical; [done|cbn; lia|done].
Qed.

Lemma from_style_canonical_witness :
  let st := MkSgrState 9 (Some (Standard 91)) (Some (Rgb 255 0 7)) in
  sgr_ok st /\ from_style (canonical st) = st.
Proof.
  assert (H : sgr_ok (MkSgrState 9 (Some (Standard 91)) (Some (Rgb 255 0 7)))) by by vm_compute.
  split; [exact H|]. exact (from_style_canonical _ H).
Defined.

(** *** Every state the code reaches is one of those *)
Lemma parse_digits_max max t n m :
  (n <= max)%N -> parse_digits max t n = Some m -> (m <= max)%N.
Proof.
  revert n. induction t as [|c t IH]; intros n Hn; cbn [parse_digits]; [by intros [= <-]|].
  destruct ((48 <=? c) && (c <=? 57))%N; [|done].
  destruct (n * 10 + (c - 48) <=? max)%N eqn:E; [|done]. apply N.leb_le in E. by apply IH.
Qed.

Lemma parse_uint_max max t n : parse_uint max t = Some n -> (n <= max)%N.
Proof. unfold parse_uint. destruct (is_empty _); [done|]. apply parse_digits_max. lia. Qed.

Lemma parse_extended_ok code values c n :
  parse_extended_color values = Some (c, n) -> color_ok code c.
Proof.
  unfold parse_extended_color, parse_u8. repeat case_match; try done; intros HE;
    repeat match goal with
    | E : (x ← ?o; _) = Some _ |- _ =>
        let n := fresh "n" in apply bind_Some in E as (n & ?%parse_uint_max & E)
    end; injection HE as <- <-; cbn; auto.
Qed.

Lemma lor_low a b : (a < 16)%N -> (b < 16)%N -> (N.lor a b < 16)%N.
Proof.
  intros Ha Hb.
  assert (N.lor a b = N.land (N.lor a b) 15) as ->.
  { rewrite N.land_lor_distr_l. change 15%N with (N.ones 4). rewrite !N.land_ones.
    by rewrite !N.mod_small. }
  change 15%N with (N.ones 4). rewrite N.land_ones. by apply N.mod_lt.
Qed.

Lemma ldiff_low a b : (a < 16)%N -> (N.ldiff a b < 16)%N.
Proof.
  intros Ha. assert (N.ldiff a b <= a)%N; [|lia]. apply N.ldiff_le. 
  rewrite N.ldiff_ldiff_l. apply N.bits_inj. intros n. rewrite N.ldiff_spec, N.lor_spec, N.bits_0.
  by destruct (N.testbit a n), (N.testbit b n).
Qed.

Lemma apply_code_ok code rest st : sgr_ok st -> sgr_ok (fst (apply_code code rest st)).
Proof.
  destruct st as [a fg bg]. intros (Ha & Hf & Hb). cbn in Ha, Hf, Hb. unfold apply_code.
  repeat case_match; cbn; unfold sgr_ok; cbn; try done;
    repeat split; auto using lor_low, ldiff_low; try (by apply lor_low);
    try (by eapply parse_extended_ok).
Qed.

Lemma apply_values_ok fuel values st : sgr_ok st -> sgr_ok (apply_values fuel values st).
Proof.
  revert values st. induction fuel as [|fuel IH]; intros [|v rest] st H; cbn; try done.
  assert (Hc := apply_code_ok (value_code v) rest st H).
  destruct (apply_code _ _ _) as [st' c]. by apply IH.
Qed.

Lemma sgr_default_ok : sgr_ok sgr_default.
Proof. by vm_compute. Qed.

Lemma sgr_apply_ok params st : sgr_ok st -> sgr_ok (sgr_apply params st).
Proof.
  intros H. unfold sgr_apply. destruct (is_empty params); [apply sgr_default_ok|].
  by apply apply_values_ok.
Qed.

Lemma read_style_ok fuel style st : sgr_ok st -> sgr_ok (read_style fuel style st).
Proof.
  revert style st. induction fuel as [|fuel IH]; intros style st H; cbn [read_style];
    repeat case_match; auto using sgr_default_ok, sgr_apply_ok.
Qed.

Lemma from_style_ok style : sgr_ok (from_style style).
Proof. apply read_style_ok, sgr_default_ok. Qed.

(** *** The length of a style *)
Lemma print_u32_length n : (n < 1000)%N -> length (print_u32 n) <= 3.
Proof.
  intros H. unfold print_u32.
  assert (Hlen : forall k m acc, (m < 10 ^ N.of_nat k)%N -> 0 < k ->
            forall fuel, length (print_digits fuel m acc) <= k + length acc).
  { induction k as [|k IH]; intros m acc Hm Hk fuel; [lia|].
    destruct fuel as [|fuel]; cbn [print_digits]; [lia|].
    destruct (m <? 10)%N eqn:E; cbn [length]; [lia|]. apply N.ltb_ge in E.
    assert (Hp : (10 ^ N.of_nat (S k) = 10 * 10 ^ N.of_nat k)%N)
      by by rewrite Nat2N.inj_succ, N.pow_succ_r'.
    destruct k as [|k]; [cbn in Hm; lia|].
    etrans; [apply IH; [apply N.Div0.div_lt_upper_bound; lia|lia]|]. cbn [length]. lia. }
  specialize (Hlen 3 n [] H ltac:(lia) 10). cbn [length] in Hlen. lia.
Qed.

Lemma params_length vs : Forall (fun v => (v < 1000)%N) vs -> length (params_of vs) <= 4 * length vs.
Proof.
  induction vs as [|v vs IH] using rev_ind; [cbn; lia|].
  rewrite Forall_app, Forall_singleton. intros [Hvs Hv]. specialize (IH Hvs).
  rewrite params_of_app, length_app. cbn [foldl length]. unfold push_sgr_param.
  rewrite length_app. assert (Hl := print_u32_length v Hv).
  destruct (is_empty _); rewrite ?length_app; cbn [length]; lia.
Qed.

Lemma attribute_values_small a :
  Forall (fun v => (v < 1000)%N) (attribute_values a) /\ length (attribute_values a) <= 4.
Proof.
  unfold attribute_values, ATTRIBUTE_CODES. cbn.
  repeat case_match; cbn; (split; [repeat constructor|lia]).
Qed.

Lemma color_values_small code selector c :
  (forall n, code n = true -> (n < 1000)%N) -> (selector < 1000)%N -> color_ok code c ->
  Forall (fun v => (v < 1000)%N) (color_values selector c) /\ length (color_values selector c) <= 5.
Proof.
  intros Hcode Hs. unfold color_ok, U8_MAX.
  destruct c; intros; cbn; (split; [repeat constructor; auto; lia|lia]).
Qed.

Lemma canonical_length st : sgr_ok st -> length (canonical st) <= 59.
Proof.
  destruct st as [a fg bg]. intros (Ha & Hf & Hb). cbn in Ha, Hf, Hb.
  rewrite canonical_params. cbn zeta. set (vs := sgr_values _).
  assert (Hvs : Forall (fun v => (v < 1000)%N) vs /\ length vs <= 14).
  { subst vs. unfold sgr_values. cbn [sg_attributes sg_foreground sg_background]. rewrite !Forall_app, !length_app.
    assert (Hatt := attribute_values_small a).
    assert (Hfg : Forall (fun v => (v < 1000)%N) (from_option (color_values 38) [] fg) /\
                  length (from_option (color_values 38) [] fg) <= 5).
    { destruct fg as [c|]; cbn in *; [|by split; [constructor|lia]].
      apply (color_values_small foreground_code); [|done..].
      intros n Hn%foreground_code_bounds. lia. }
    assert (Hbg : Forall (fun v => (v < 1000)%N) (from_option (color_values 48) [] bg) /\
                  length (from_option (color_values 48) [] bg) <= 5).
    { destruct bg as [c|]; cbn in *; [|by split; [constructor|lia]].
      apply (color_values_small background_code); [|done..].
      intros n Hn%background_code_bounds. lia. }
    destruct Hatt, Hfg, Hbg. split_and!; auto; lia. }
  destruct Hvs as [Hvs Hlen]. assert (Hp := params_length vs Hvs).
  destruct (is_empty _); [cbn; lia|]. cbn [app CSI_PREFIX length]. rewrite length_app. cbn [length]. lia.
Qed.

(** Canonical sequences are ASCII. *)
Lemma digits_ascii fuel n acc :
  Forall (fun c => (c < 128)%N) acc -> Forall (fun c => (c < 128)%N) (print_digits fuel n acc).
Proof.
  revert n acc. induction fuel as [|fuel IH]; intros n acc H; cbn [print_digits]; [done|].
  destruct (n <? 10)%N eqn:E.
  - apply N.ltb_lt in E. constructor; [unfold digit; lia|done].
  - apply IH. constructor; [|done]. unfold digit. assert (n mod 10 < 10)%N by by apply N.mod_lt. lia.
Qed.

Lemma canonical_ascii st : Forall (fun c => (c < 128)%N) (canonical st).
Proof.
  rewrite canonical_params. cbn zeta. set (vs := sgr_values st). clearbody vs.
  assert (H : Forall (fun c => (c < 128)%N) (params_of vs)).
  { induction vs as [|v vs IH] using rev_ind; [constructor|]. rewrite params_of_app. cbn [foldl].
    unfold push_sgr_param. apply Forall_app. split; [|apply digits_ascii; constructor].
    destruct (is_empty _); [constructor|]. apply Forall_app. split; [done|].
    by repeat constructor. }
  destruct (is_empty _); [constructor|]. cbn. repeat constructor; try by vm_compute.
  apply Forall_app. split; [done|]. by repeat constructor.
Qed.
