(* ===== verification/VtScreen.v ===== *)
(** * Terminal screen
    ([crates/core/src/usecase/vt_screen.rs])

    The interpreter of terminal output: a grid of cells, the history above it,
    and the incremental decoder that a byte advances.  The fields of the buffer
    being drawn are grouped in a [ScreenBuffer], the record the source uses for
    the primary buffer saved behind the alternate one.

    A result [None] is a panic: an index, a range or a [Vec::insert] outside the
    vector.  [VtScreenLaws] shows that it never happens.  The dimensions of a
    screen are at least one, so [rows - 1] and [cols - 1] are the machine's
    subtraction; sizes of retained rows are far below the width of [usize], and
    the two additions of an unbounded parameter to a coordinate wrap at that
    width, as the released build does. *)
From S2P Require Export VtSgr.

(** ** Bounds ([checkpoint.rs]) *)
Definition ROWS_MAX : N := 1024.
Definition COLS_MAX : N := 2048.
Definition SCROLLBACK_MAX : N := 10000.
Definition PARAMS_MAX : N := 64.
Definition STYLE_BYTES_MAX : N := PARAMS_MAX + 3.
Definition SYNCHRONIZED_OUTPUT_MAX : N := 128 * 1024.

(** [usize] is 64 bits wide. *)
Definition parse_usize (t : text) : option N := parse_uint U64_MAX t.
Definition usize_add (a b : N) : N := ((a + b) mod 18446744073709551616)%N.

(** [str::len], in bytes. *)
Definition len_utf8 (c : char) : N :=
  if (c <? 128)%N then 1%N else if (c <? 2048)%N then 2%N else if (c <? 65536)%N then 3%N else 4%N.
Definition str_len (t : text) : N := foldr (fun c n => (len_utf8 c + n)%N) 0%N t.

Definition REPLACEMENT : char := 65533%N.
Definition NUL : char := 0%N.

(** [unicode_width::UnicodeWidthChar::width] *)
Class UnicodeWidth := { char_width : char -> option nat }.

(** ** Data *)
Inductive ActiveBuffer : Type := Primary | Alternate.
Inductive MouseProtocolEncoding : Type := DefaultEncoding | Utf8 | Sgr.
Inductive MouseProtocolMode : Type := NoMouse | Press | PressRelease | ButtonMotion | AnyMotion.
Inductive Phase : Type := Ground | Escape | Csi | CsiOverflow | Osc | Charset.

#[export] Instance active_buffer_eq_dec : EqDecision ActiveBuffer.
Proof. solve_decision. Defined.
#[export] Instance mouse_encoding_eq_dec : EqDecision MouseProtocolEncoding.
Proof. solve_decision. Defined.
#[export] Instance mouse_mode_eq_dec : EqDecision MouseProtocolMode.
Proof. solve_decision. Defined.
#[export] Instance phase_eq_dec : EqDecision Phase.
Proof. solve_decision. Defined.

Inductive RetainedRowMotion : Type :=
| Reset (buffer : ActiveBuffer)
| Up (buffer : ActiveBuffer) (top bottom count : nat)
| Down (buffer : ActiveBuffer) (top bottom count : nat).

Definition motion_buffer (m : RetainedRowMotion) : ActiveBuffer :=
  match m with Reset b => b | Up b _ _ _ => b | Down b _ _ _ => b end.

Record Cell := MkCell {
  cl_ch : char;
  cl_style : text;
  cl_continuation : bool;
  cl_wrapped : bool
}.
#[export] Instance cell_eq_dec : EqDecision Cell.
Proof. solve_decision. Defined.

Definition blank : Cell := MkCell SP [] false false.
Definition set_wrapped (x : bool) (c : Cell) : Cell :=
  MkCell (cl_ch c) (cl_style c) (cl_continuation c) x.
Definition set_ch (x : char) (c : Cell) : Cell :=
  MkCell x (cl_style c) (cl_continuation c) (cl_wrapped c).

Notation row := (list Cell) (only parsing).

Record ScreenBuffer := MkScreenBuffer {
  sb_grid : list (list Cell);
  sb_scrollback : list (list Cell);
  sb_scrollback_origin : N;
  sb_cursor_row : nat;
  sb_cursor_col : nat;
  sb_style : text;
  sb_saved_cursor : option (nat * nat);
  sb_scroll_top : nat;
  sb_scroll_bottom : nat
}.

Definition set_sb_grid (x : list (list Cell)) (s : ScreenBuffer) : ScreenBuffer :=
  MkScreenBuffer x (sb_scrollback s) (sb_scrollback_origin s) (sb_cursor_row s) (sb_cursor_col s)
    (sb_style s) (sb_saved_cursor s) (sb_scroll_top s) (sb_scroll_bottom s).
Definition set_sb_scrollback (x : list (list Cell)) (s : ScreenBuffer) : ScreenBuffer :=
  MkScreenBuffer (sb_grid s) x (sb_scrollback_origin s) (sb_cursor_row s) (sb_cursor_col s)
    (sb_style s) (sb_saved_cursor s) (sb_scroll_top s) (sb_scroll_bottom s).
Definition set_sb_scrollback_origin (x : N) (s : ScreenBuffer) : ScreenBuffer :=
  MkScreenBuffer (sb_grid s) (sb_scrollback s) x (sb_cursor_row s) (sb_cursor_col s) (sb_style s)
    (sb_saved_cursor s) (sb_scroll_top s) (sb_scroll_bottom s).
Definition set_sb_cursor_row (x : nat) (s : ScreenBuffer) : ScreenBuffer :=
  MkScreenBuffer (sb_grid s) (sb_scrollback s) (sb_scrollback_origin s) x (sb_cursor_col s)
    (sb_style s) (sb_saved_cursor s) (sb_scroll_top s) (sb_scroll_bottom s).
Definition set_sb_cursor_col (x : nat) (s : ScreenBuffer) : ScreenBuffer :=
  MkScreenBuffer (sb_grid s) (sb_scrollback s) (sb_scrollback_origin s) (sb_cursor_row s) x
    (sb_style s) (sb_saved_cursor s) (sb_scroll_top s) (sb_scroll_bottom s).
Definition set_sb_style (x : text) (s : ScreenBuffer) : ScreenBuffer :=
  MkScreenBuffer (sb_grid s) (sb_scrollback s) (sb_scrollback_origin s) (sb_cursor_row s)
    (sb_cursor_col s) x (sb_saved_cursor s) (sb_scroll_top s) (sb_scroll_bottom s).
Definition set_sb_saved_cursor (x : option (nat * nat)) (s : ScreenBuffer) : ScreenBuffer :=
  MkScreenBuffer (sb_grid s) (sb_scrollback s) (sb_scrollback_origin s) (sb_cursor_row s)
    (sb_cursor_col s) (sb_style s) x (sb_scroll_top s) (sb_scroll_bottom s).
Definition set_sb_scroll_top (x : nat) (s : ScreenBuffer) : ScreenBuffer :=
  MkScreenBuffer (sb_grid s) (sb_scrollback s) (sb_scrollback_origin s) (sb_cursor_row s)
    (sb_cursor_col s) (sb_style s) (sb_saved_cursor s) x (sb_scroll_bottom s).
Definition set_sb_scroll_bottom (x : nat) (s : ScreenBuffer) : ScreenBuffer :=
  MkScreenBuffer (sb_grid s) (sb_scrollback s) (sb_scrollback_origin s) (sb_cursor_row s)
    (sb_cursor_col s) (sb_style s) (sb_saved_cursor s) (sb_scroll_top s) x.
#[export] Instance screen_buffer_eq_dec : EqDecision ScreenBuffer.
Proof. solve_decision. Defined.

Record VtScreen := MkVtScreen {
  vs_rows : nat;
  vs_cols : nat;
  vs_live : ScreenBuffer;
  vs_phase : Phase;
  vs_params : text;
  vs_utf8_pending : list N;
  vs_utf8_needed : nat;
  vs_application_cursor : bool;
  vs_bracketed_paste : bool;
  vs_mouse_protocol_mode : MouseProtocolMode;
  vs_mouse_encoding : MouseProtocolEncoding;
  vs_synchronized_output : option (list N);
  vs_replaying_synchronized_output : bool;
  vs_primary_screen : option ScreenBuffer;
  vs_retained_row_motions : list RetainedRowMotion
}.

Definition set_live (x : ScreenBuffer) (s : VtScreen) : VtScreen :=
  MkVtScreen (vs_rows s) (vs_cols s) x (vs_phase s) (vs_params s) (vs_utf8_pending s)
    (vs_utf8_needed s) (vs_application_cursor s) (vs_bracketed_paste s) (vs_mouse_protocol_mode s)
    (vs_mouse_encoding s) (vs_synchronized_output s) (vs_replaying_synchronized_output s)
    (vs_primary_screen s) (vs_retained_row_motions s).
Definition set_phase (x : Phase) (s : VtScreen) : VtScreen :=
  MkVtScreen (vs_rows s) (vs_cols s) (vs_live s) x (vs_params s) (vs_utf8_pending s)
    (vs_utf8_needed s) (vs_application_cursor s) (vs_bracketed_paste s) (vs_mouse_protocol_mode s)
    (vs_mouse_encoding s) (vs_synchronized_output s) (vs_replaying_synchronized_output s)
    (vs_primary_screen s) (vs_retained_row_motions s).
Definition set_params (x : text) (s : VtScreen) : VtScreen :=
  MkVtScreen (vs_rows s) (vs_cols s) (vs_live s) (vs_phase s) x (vs_utf8_pending s)
    (vs_utf8_needed s) (vs_application_cursor s) (vs_bracketed_paste s) (vs_mouse_protocol_mode s)
    (vs_mouse_encoding s) (vs_synchronized_output s) (vs_replaying_synchronized_output s)
    (vs_primary_screen s) (vs_retained_row_motions s).
Definition set_utf8_pending (x : list N) (s : VtScreen) : VtScreen :=
  MkVtScreen (vs_rows s) (vs_cols s) (vs_live s) (vs_phase s) (vs_params s) x (vs_utf8_needed s)
    (vs_application_cursor s) (vs_bracketed_paste s) (vs_mouse_protocol_mode s)
    (vs_mouse_encoding s) (vs_synchronized_output s) (vs_replaying_synchronized_output s)
    (vs_primary_screen s) (vs_retained_row_motions s).
Definition set_utf8_needed (x : nat) (s : VtScreen) : VtScreen :=
  MkVtScreen (vs_rows s) (vs_cols s) (vs_live s) (vs_phase s) (vs_params s) (vs_utf8_pending s) x
    (vs_application_cursor s) (vs_bracketed_paste s) (vs_mouse_protocol_mode s)
    (vs_mouse_encoding s) (vs_synchronized_output s) (vs_replaying_synchronized_output s)
    (vs_primary_screen s) (vs_retained_row_motions s).
Definition set_application_cursor (x : bool) (s : VtScreen) : VtScreen :=
  MkVtScreen (vs_rows s) (vs_cols s) (vs_live s) (vs_phase s) (vs_params s) (vs_utf8_pending s)
    (vs_utf8_needed s) x (vs_bracketed_paste s) (vs_mouse_protocol_mode s) (vs_mouse_encoding s)
    (vs_synchronized_output s) (vs_replaying_synchronized_output s) (vs_primary_screen s)
    (vs_retained_row_motions s).
Definition set_bracketed_paste (x : bool) (s : VtScreen) : VtScreen :=
  MkVtScreen (vs_rows s) (vs_cols s) (vs_live s) (vs_phase s) (vs_params s) (vs_utf8_pending s)
    (vs_utf8_needed s) (vs_application_cursor s) x (vs_mouse_protocol_mode s) (vs_mouse_encoding s)
    (vs_synchronized_output s) (vs_replaying_synchronized_output s) (vs_primary_screen s)
    (vs_retained_row_motions s).
Definition set_mouse_protocol_mode (x : MouseProtocolMode) (s : VtScreen) : VtScreen :=
  MkVtScreen (vs_rows s) (vs_cols s) (vs_live s) (vs_phase s) (vs_params s) (vs_utf8_pending s)
    (vs_utf8_needed s) (vs_application_cursor s) (vs_bracketed_paste s) x (vs_mouse_encoding s)
    (vs_synchronized_output s) (vs_replaying_synchronized_output s) (vs_primary_screen s)
    (vs_retained_row_motions s).
Definition set_mouse_encoding (x : MouseProtocolEncoding) (s : VtScreen) : VtScreen :=
  MkVtScreen (vs_rows s) (vs_cols s) (vs_live s) (vs_phase s) (vs_params s) (vs_utf8_pending s)
    (vs_utf8_needed s) (vs_application_cursor s) (vs_bracketed_paste s) (vs_mouse_protocol_mode s) x
    (vs_synchronized_output s) (vs_replaying_synchronized_output s) (vs_primary_screen s)
    (vs_retained_row_motions s).
Definition set_synchronized_output (x : option (list N)) (s : VtScreen) : VtScreen :=
  MkVtScreen (vs_rows s) (vs_cols s) (vs_live s) (vs_phase s) (vs_params s) (vs_utf8_pending s)
    (vs_utf8_needed s) (vs_application_cursor s) (vs_bracketed_paste s) (vs_mouse_protocol_mode s)
    (vs_mouse_encoding s) x (vs_replaying_synchronized_output s) (vs_primary_screen s)
    (vs_retained_row_motions s).
Definition set_replaying_synchronized_output (x : bool) (s : VtScreen) : VtScreen :=
  MkVtScreen (vs_rows s) (vs_cols s) (vs_live s) (vs_phase s) (vs_params s) (vs_utf8_pending s)
    (vs_utf8_needed s) (vs_application_cursor s) (vs_bracketed_paste s) (vs_mouse_protocol_mode s)
    (vs_mouse_encoding s) (vs_synchronized_output s) x (vs_primary_screen s)
    (vs_retained_row_motions s).
Definition set_primary_screen (x : option ScreenBuffer) (s : VtScreen) : VtScreen :=
  MkVtScreen (vs_rows s) (vs_cols s) (vs_live s) (vs_phase s) (vs_params s) (vs_utf8_pending s)
    (vs_utf8_needed s) (vs_application_cursor s) (vs_bracketed_paste s) (vs_mouse_protocol_mode s)
    (vs_mouse_encoding s) (vs_synchronized_output s) (vs_replaying_synchronized_output s) x
    (vs_retained_row_motions s).
Definition set_retained_row_motions (x : list RetainedRowMotion) (s : VtScreen) : VtScreen :=
  MkVtScreen (vs_rows s) (vs_cols s) (vs_live s) (vs_phase s) (vs_params s) (vs_utf8_pending s)
    (vs_utf8_needed s) (vs_application_cursor s) (vs_bracketed_paste s) (vs_mouse_protocol_mode s)
    (vs_mouse_encoding s) (vs_synchronized_output s) (vs_replaying_synchronized_output s)
    (vs_primary_screen s) x.

Definition on_live (f : ScreenBuffer -> ScreenBuffer) (s : VtScreen) : VtScreen :=
  set_live (f (vs_live s)) s.
Definition set_cursor_row (x : nat) : VtScreen -> VtScreen := on_live (set_sb_cursor_row x).
Definition set_cursor_col (x : nat) : VtScreen -> VtScreen := on_live (set_sb_cursor_col x).
Notation vs_cursor_row s := (sb_cursor_row (vs_live s)) (only parsing).
Notation vs_cursor_col s := (sb_cursor_col (vs_live s)) (only parsing).
Notation vs_grid s := (sb_grid (vs_live s)) (only parsing).
Notation vs_scrollback s := (sb_scrollback (vs_live s)) (only parsing).

(** ** Vectors *)

(** [v[i] = x] and an update in place; both panic outside the vector. *)
Definition write {A} (i : nat) (x : A) (l : list A) : option (list A) :=
  if decide (i < length l) then Some (<[i := x]> l) else None.
Definition modify {A} (i : nat) (f : A -> option A) (l : list A) : option (list A) :=
  x ← l !! i; y ← f x; Some (<[i := y]> l).
(** [Vec::remove] and [Vec::insert] *)
Definition remove {A} (i : nat) (l : list A) : option (A * list A) :=
  x ← l !! i; Some (x, take i l ++ drop (S i) l).
Definition insert_at {A} (i : nat) (x : A) (l : list A) : option (list A) :=
  if decide (i <= length l) then Some (take i l ++ x :: drop i l) else None.
(** [for i in range { .. }] *)
Fixpoint for_each {A} (f : nat -> A -> option A) (range : list nat) (a : A) : option A :=
  match range with
  | [] => Some a
  | i :: range => a ← f i a; for_each f range a
  end.
(** [start..end] *)
Definition range (start end_ : nat) : list nat := seq start (end_ - start).

Section screen.
Context {U : UnicodeWidth}.

(** [UnicodeWidthChar::width(ch).unwrap_or(0).max(1)] *)
Definition glyph_width (ch : char) : nat := Nat.max (default 0 (char_width ch)) 1.

(** ** Rows *)

(** The loop that steps back to the cell that starts a glyph. *)
Fixpoint leader_of (cells : row) (column : nat) : option nat :=
  match column with
  | 0 => Some 0
  | S before =>
      cell ← cells !! column;
      if cl_continuation cell then leader_of cells before else Some column
  end.

Fixpoint blank_continuations (cells : row) : row :=
  match cells with
  | cell :: cells => if cl_continuation cell then blank :: blank_continuations cells else cell :: cells
  | [] => []
  end.

Definition clear_glyph_at (column : nat) (cells : row) : option row :=
  leader ← leader_of cells column;
  cells ← write leader blank cells;
  Some (take (S leader) cells ++ blank_continuations (drop (S leader) cells)).

Definition clear_glyph_range (start end_ : nat) (cells : row) : option row :=
  for_each clear_glyph_at (range (Nat.min start (length cells)) (Nat.min end_ (length cells))) cells.

(** The pass of [resize_row] over the glyphs; every round takes a cell. *)
Fixpoint repair_glyphs (fuel : nat) (cells : row) : row :=
  match fuel, cells with
  | S fuel, cell :: cells =>
      if cl_continuation cell then blank :: repair_glyphs fuel cells
      else
        let width := glyph_width (cl_ch cell) in
        if 1 <? width then
          let rest := take (width - 1) cells in
          if (length rest =? width - 1) && forallb cl_continuation rest
          then cell :: rest ++ repair_glyphs fuel (drop (width - 1) cells)
          else set_ch REPLACEMENT cell :: repair_glyphs fuel cells
        else cell :: repair_glyphs fuel cells
  | _, _ => []
  end.

(** [Vec::resize] after [truncate]. *)
Definition fit {A} (n : nat) (x : A) (l : list A) : list A :=
  take n l ++ replicate (n - length l) x.

Definition mark_last (cells : row) : row :=
  match reverse cells with
  | last :: before => reverse (set_wrapped true last :: before)
  | [] => []
  end.

Definition resize_row (cols : nat) (cells : row) : row :=
  let wrapped := existsb cl_wrapped cells in
  let cells := set_wrapped false <$> fit cols blank cells in
  let cells := if wrapped then mark_last cells else cells in
  repair_glyphs (length cells) cells.

Definition blank_row (cols : nat) : row := replicate cols blank.

Definition resize_grid (rows cols : nat) (grid : list row) : list row :=
  fit rows (blank_row cols) (resize_row cols <$> take rows grid).

Definition resize_buffer (rows cols old_rows : nat) (b : ScreenBuffer) : ScreenBuffer :=
  let top := Nat.min (sb_scroll_top b) (rows - 1) in
  let bottom := if sb_scroll_bottom b + 1 =? old_rows then rows - 1
                else Nat.min (sb_scroll_bottom b) (rows - 1) in
  let whole := bottom <=? top in
  MkScreenBuffer
    (resize_grid rows cols (sb_grid b))
    (resize_row cols <$> sb_scrollback b)
    (sb_scrollback_origin b)
    (Nat.min (sb_cursor_row b) (rows - 1))
    (Nat.min (sb_cursor_col b) (cols - 1))
    (sb_style b)
    ((fun '(r, c) => (Nat.min r (rows - 1), Nat.min c (cols - 1))) <$> sb_saved_cursor b)
    (if whole then 0 else top)
    (if whole then rows - 1 else bottom).

(** Drops the oldest rows so at most [keep_rows] remain. *)
Definition trim_rows (keep_rows : N) (rows : list row) : list row * nat :=
  let dropped := N.to_nat (N.of_nat (length rows) - keep_rows) in
  (drop dropped rows, dropped).

Definition append_scrollback (max_rows : N) (cells : row) (rows : list row) : list row * bool :=
  if (max_rows =? 0)%N then (rows, false)
  else if (max_rows <=? N.of_nat (length rows))%N then (drop 1 rows ++ [cells], true)
  else (rows ++ [cells], false).

(** ** Construction and projections *)
Definition clamp_rows (rows : nat) : nat := Nat.min (Nat.max rows 1) (N.to_nat ROWS_MAX).
Definition clamp_cols (cols : nat) : nat := Nat.min (Nat.max cols 1) (N.to_nat COLS_MAX).

Definition blank_buffer (rows cols : nat) : ScreenBuffer :=
  MkScreenBuffer (replicate rows (blank_row cols)) [] 0 0 0 [] None 0 (rows - 1).

Definition new (rows cols : nat) : VtScreen :=
  let rows := clamp_rows rows in
  let cols := clamp_cols cols in
  MkVtScreen rows cols (blank_buffer rows cols) Ground [] [] 0 false false NoMouse DefaultEncoding
    None false None [].

Definition active_buffer (s : VtScreen) : ActiveBuffer :=
  match vs_primary_screen s with Some _ => Alternate | None => Primary end.
Definition is_primary (s : VtScreen) : bool :=
  match vs_primary_screen s with Some _ => false | None => true end.
Definition mouse_protocol (s : VtScreen) : bool :=
  negb (bool_decide (vs_mouse_protocol_mode s = NoMouse)).
Definition scrollback_row (s : VtScreen) (i : nat) : option row := vs_scrollback s !! i.
Definition cursor (s : VtScreen) : nat * nat := (vs_cursor_row s, vs_cursor_col s).

Definition row_text (cells : row) : text :=
  cl_ch <$> retain (fun cell => negb (cl_continuation cell)) cells.
Definition cells (s : VtScreen) : list text := row_text <$> vs_grid s.
(** [while last is empty { pop }] *)
Fixpoint drop_empty (rows : list text) : list text :=
  match rows with
  | [] :: rows => drop_empty rows
  | rows => rows
  end.
Definition cells_with_scrollback (s : VtScreen) : list text :=
  reverse (drop_empty (reverse (row_text <$> vs_scrollback s ++ vs_grid s))).
Definition soft_wraps_with_scrollback (s : VtScreen) : list bool :=
  existsb cl_wrapped <$> vs_scrollback s ++ vs_grid s.

(** ** Retention *)
Definition retained_cells (s : VtScreen) : nat :=
  (vs_rows s + length (vs_scrollback s) +
   from_option (fun p => length (sb_grid p) + length (sb_scrollback p)) 0 (vs_primary_screen s))
  * vs_cols s.

Definition trim_buffer (keep_rows : N) (b : ScreenBuffer) : ScreenBuffer * nat :=
  let '(rows, dropped) := trim_rows keep_rows (sb_scrollback b) in
  (set_sb_scrollback rows
     (set_sb_scrollback_origin (saturating_add (sb_scrollback_origin b) (N.of_nat dropped)) b),
   dropped).

Definition trim_to_cells (max_cells : N) (s : VtScreen) : VtScreen * nat :=
  let buffers := from_option (fun _ => 2%N) 1%N (vs_primary_screen s) in
  let grid_rows := N.of_nat (vs_rows s + from_option (fun p => length (sb_grid p)) 0 (vs_primary_screen s)) in
  let history_rows := (max_cells / N.of_nat (vs_cols s) - grid_rows)%N in
  let keep_rows := (history_rows / buffers)%N in
  let '(live, dropped) := trim_buffer keep_rows (vs_live s) in
  let s := set_live live s in
  match vs_primary_screen s with
  | Some primary =>
      let '(primary, primary_dropped) := trim_buffer keep_rows primary in
      (set_primary_screen (Some primary) s, dropped + primary_dropped)
  | None => (s, dropped)
  end.

Definition resize (rows cols : nat) (s : VtScreen) : VtScreen :=
  let rows := clamp_rows rows in
  let cols := clamp_cols cols in
  if (vs_rows s =? rows) && (vs_cols s =? cols) then s
  else
    MkVtScreen rows cols (resize_buffer rows cols (vs_rows s) (vs_live s)) (vs_phase s) (vs_params s)
      (vs_utf8_pending s) (vs_utf8_needed s) (vs_application_cursor s) (vs_bracketed_paste s)
      (vs_mouse_protocol_mode s) (vs_mouse_encoding s) (vs_synchronized_output s)
      (vs_replaying_synchronized_output s)
      (resize_buffer rows cols (vs_rows s) <$> vs_primary_screen s) (vs_retained_row_motions s).

Definition clear_buffer (rows : nat) (b : ScreenBuffer) : ScreenBuffer :=
  MkScreenBuffer ((fun cells => blank_row (length cells)) <$> sb_grid b) []
    (saturating_add (sb_scrollback_origin b) (N.of_nat (length (sb_scrollback b))))
    0 0 (sb_style b) None 0 (rows - 1).

Definition clear_primary_for_user (s : VtScreen) : VtScreen * bool :=
  match vs_primary_screen s with
  | Some _ => (s, false)
  | None =>
      (set_replaying_synchronized_output false (set_synchronized_output None
         (set_utf8_needed 0 (set_utf8_pending [] (set_params [] (set_phase Ground
            (on_live (clear_buffer (vs_rows s)) s)))))), true)
  end.

(** ** Scrolling *)
Definition push_motion (m : RetainedRowMotion) (s : VtScreen) : VtScreen :=
  set_retained_row_motions (vs_retained_row_motions s ++ [m]) s.

(** One round of [scroll_region_up]. *)
Definition scroll_row_up (s : VtScreen) : option VtScreen :=
  let b := vs_live s in
  let retained_offset := length (sb_scrollback b) in
  '(cells, grid) ← remove (sb_scroll_top b) (sb_grid b);
  let s := on_live (set_sb_grid grid) s in
  let s :=
    if is_primary s && (sb_scroll_top b =? 0) then
      let '(rows, evicted) := append_scrollback SCROLLBACK_MAX cells (sb_scrollback b) in
      let s := on_live (set_sb_scrollback rows) s in
      if evicted : bool then
        push_motion (Up (active_buffer s) 0 (retained_offset + vs_rows s - 1) 1)
          (on_live (set_sb_scrollback_origin (saturating_add (sb_scrollback_origin b) 1)) s)
      else s
    else
      push_motion (Up (active_buffer s) (retained_offset + sb_scroll_top b)
                     (retained_offset + sb_scroll_bottom b) 1) s in
  grid ← insert_at (sb_scroll_bottom b) (blank_row (vs_cols s)) grid;
  Some (on_live (set_sb_grid grid) s).

(** One round of [scroll_down]. *)
Definition scroll_row_down (s : VtScreen) : option VtScreen :=
  let b := vs_live s in
  let retained_offset := length (sb_scrollback b) in
  let s := push_motion (Down (active_buffer s) (retained_offset + sb_scroll_top b)
                          (retained_offset + sb_scroll_bottom b) 1) s in
  '(_, grid) ← remove (sb_scroll_bottom b) (sb_grid b);
  grid ← insert_at (sb_scroll_top b) (blank_row (vs_cols s)) grid;
  Some (on_live (set_sb_grid grid) s).

(** [for _ in 0..count.min(region)] *)
Definition region_rows (count : N) (s : VtScreen) : list nat :=
  range 0 (N.to_nat (N.min count
    (N.of_nat (sb_scroll_bottom (vs_live s) - sb_scroll_top (vs_live s) + 1)))).

Definition scroll_region_up (count : N) (s : VtScreen) : option VtScreen :=
  for_each (fun _ => scroll_row_up) (region_rows count s) s.
Definition scroll_up (count : N) (s : VtScreen) : option VtScreen := scroll_region_up count s.
Definition scroll_down (count : N) (s : VtScreen) : option VtScreen :=
  for_each (fun _ => scroll_row_down) (region_rows count s) s.

Definition line_feed (s : VtScreen) : option VtScreen :=
  if sb_scroll_bottom (vs_live s) <=? vs_cursor_row s then scroll_region_up 1 s
  else Some (set_cursor_row (vs_cursor_row s + 1) s).

Definition reverse_index (s : VtScreen) : option VtScreen :=
  if vs_cursor_row s =? sb_scroll_top (vs_live s) then scroll_down 1 s
  else Some (set_cursor_row (vs_cursor_row s - 1) s).

(** ** Cells *)
Definition on_grid (f : list row -> option (list row)) (s : VtScreen) : option VtScreen :=
  grid ← f (vs_grid s); Some (on_live (set_sb_grid grid) s).
Definition on_row (i : nat) (f : row -> option row) (s : VtScreen) : option VtScreen :=
  on_grid (modify i f) s.

(** The last cell of the row is where the automatic wrap is marked. *)
Definition wrap_line (s : VtScreen) : option VtScreen :=
  s ← on_row (vs_cursor_row s) (modify (vs_cols s - 1) (fun cell => Some (set_wrapped true cell))) s;
  line_feed (set_cursor_col 0 s).

Definition put_glyph (ch : char) (style : text) (column width : nat) (cells : row) : option row :=
  cells ← clear_glyph_range column (column + width) cells;
  cells ← write column (MkCell ch style false false) cells;
  for_each (fun offset => write (column + offset) (MkCell NUL style true false)) (range 1 width) cells.

Definition print (ch : char) (s : VtScreen) : option VtScreen :=
  let '(ch, width) :=
    if vs_cols s <? glyph_width ch then (REPLACEMENT, 1) else (ch, glyph_width ch) in
  s ← (if (vs_cols s <=? vs_cursor_col s) || (vs_cols s <? vs_cursor_col s + width)
       then wrap_line s else Some s);
  s ← on_row (vs_cursor_row s) (put_glyph ch (sb_style (vs_live s)) (vs_cursor_col s) width) s;
  Some (set_cursor_col (vs_cursor_col s + width) s).

Definition tab (s : VtScreen) : VtScreen :=
  set_cursor_col (Nat.min ((vs_cursor_col s / 8 + 1) * 8) (vs_cols s - 1)) s.

(** ** Parameters *)
Definition param (idx : nat) (default_ : N) (s : VtScreen) : N :=
  default default_ (value ← split_on SEMICOLON (vs_params s) !! idx; parse_usize value).

Definition QUESTION : char := 63%N.
Definition private_modes (s : VtScreen) : list N :=
  match strip_prefix_char QUESTION (vs_params s) with
  | None => []
  | Some values => omap parse_usize (split_on SEMICOLON values)
  end.

(** A parameter turned into a zero-based coordinate of an axis. *)
Definition coordinate (p : N) (size : nat) : nat := N.to_nat (N.min (p - 1) (N.of_nat (size - 1))).
Definition advanced (from : nat) (p : N) (size : nat) : nat :=
  N.to_nat (N.min (usize_add (N.of_nat from) p) (N.of_nat (size - 1))).
Definition receded (from : nat) (p : N) : nat := N.to_nat (N.of_nat from - p).

Definition set_scroll_region (s : VtScreen) : VtScreen :=
  let top := coordinate (param 0 1 s) (vs_rows s) in
  let bottom := coordinate (param 1 (N.of_nat (vs_rows s)) s) (vs_rows s) in
  let region := if top <? bottom then (top, bottom) else (0, vs_rows s - 1) in
  on_live (fun b => set_sb_cursor_col 0 (set_sb_cursor_row 0
    (set_sb_scroll_top region.1 (set_sb_scroll_bottom region.2 b)))) s.

Definition erase_line (s : VtScreen) : option VtScreen :=
  let mode := param 0 0 s in
  let '(start, end_) :=
    if (mode =? 1)%N then (0, vs_cursor_col s + 1)
    else if (mode =? 2)%N then (0, vs_cols s)
    else (vs_cursor_col s, vs_cols s) in
  on_row (vs_cursor_row s) (clear_glyph_range start (Nat.min end_ (vs_cols s))) s.

Definition blank_row_at (i : nat) (grid : list row) : option (list row) :=
  modify i (fun cells => Some (blank_row (length cells))) grid.

Definition erase_display (s : VtScreen) : option VtScreen :=
  let mode := param 0 0 s in
  let here := vs_cursor_row s in
  on_grid (fun grid =>
    if (mode =? 1)%N then
      grid ← for_each blank_row_at (range 0 here) grid;
      modify here (clear_glyph_range 0 (Nat.min (vs_cursor_col s) (vs_cols s - 1) + 1)) grid
    else if (mode =? 2)%N then for_each blank_row_at (range 0 (vs_rows s)) grid
    else
      grid ← modify here (clear_glyph_range (vs_cursor_col s) (vs_cols s)) grid;
      for_each blank_row_at (range (here + 1) (vs_rows s)) grid) s.

(** The cells an editing control acts on: from the cursor, at least one and at
    most the rest of the row. *)
Definition edit_start (s : VtScreen) : nat := Nat.min (vs_cursor_col s) (vs_cols s - 1).
Definition edit_count (s : VtScreen) : nat :=
  N.to_nat (N.min (N.max (param 0 1 s) 1) (N.of_nat (vs_cols s - edit_start s))).

(** [Vec::drain(start..end)] *)
Definition drain {A} (start end_ : nat) (l : list A) : option (list A) :=
  if decide (start <= end_ /\ end_ <= length l) then Some (take start l ++ drop end_ l) else None.

Definition clear_if_continuation (column : nat) (cells : row) : option row :=
  cell ← cells !! column;
  if cl_continuation cell then clear_glyph_at column cells else Some cells.

Definition delete_cells (start count : nat) (cells : row) : option row :=
  cells ← clear_if_continuation start cells;
  cells ← (if start + count <? length cells then clear_if_continuation (start + count) cells
           else Some cells);
  cells ← drain start (start + count) cells;
  Some (cells ++ replicate count blank).

Definition delete_characters (s : VtScreen) : option VtScreen :=
  on_row (vs_cursor_row s) (delete_cells (edit_start s) (edit_count s)) s.

Definition erase_characters (s : VtScreen) : option VtScreen :=
  on_row (vs_cursor_row s) (clear_glyph_range (edit_start s) (edit_start s + edit_count s)) s.

(** ** Modes *)
Definition sgr (s : VtScreen) : VtScreen :=
  on_live (fun b => set_sb_style (canonical (sgr_apply (vs_params s) (from_style (sb_style b)))) b) s.

Definition save_cursor (s : VtScreen) : VtScreen :=
  on_live (fun b => set_sb_saved_cursor (Some (sb_cursor_row b, sb_cursor_col b)) b) s.

Definition restore_cursor (s : VtScreen) : VtScreen :=
  match sb_saved_cursor (vs_live s) with
  | Some (r, c) => set_cursor_col c (set_cursor_row r s)
  | None => s
  end.

Definition enter_alternate_screen (s : VtScreen) : VtScreen :=
  match vs_primary_screen s with
  | Some _ => s
  | None => set_live (blank_buffer (vs_rows s) (vs_cols s)) (set_primary_screen (Some (vs_live s)) s)
  end.

Definition leave_alternate_screen (s : VtScreen) : VtScreen :=
  match vs_primary_screen s with
  | None => s
  | Some primary => set_live primary (set_primary_screen None s)
  end.

Definition is_buffer_mode (mode : N) : bool :=
  ((mode =? 47) || (mode =? 1047) || (mode =? 1049))%N.

Definition set_private_mode (s : VtScreen) (mode : N) : VtScreen :=
  if (mode =? 1)%N then set_application_cursor true s
  else if (mode =? 9)%N then set_mouse_protocol_mode Press s
  else if (mode =? 1000)%N then set_mouse_protocol_mode PressRelease s
  else if (mode =? 1002)%N then set_mouse_protocol_mode ButtonMotion s
  else if (mode =? 1003)%N then set_mouse_protocol_mode AnyMotion s
  else if (mode =? 1005)%N then set_mouse_encoding Utf8 s
  else if (mode =? 1006)%N then set_mouse_encoding Sgr s
  else if (mode =? 2004)%N then set_bracketed_paste true s
  else if (mode =? 2026)%N && negb (vs_replaying_synchronized_output s) then
    set_synchronized_output (Some []) s
  else if is_buffer_mode mode then enter_alternate_screen s
  else s.

Definition reset_mouse_mode (held : MouseProtocolMode) (s : VtScreen) : VtScreen :=
  if bool_decide (vs_mouse_protocol_mode s = held) then set_mouse_protocol_mode NoMouse s else s.
Definition reset_mouse_encoding (held : MouseProtocolEncoding) (s : VtScreen) : VtScreen :=
  if bool_decide (vs_mouse_encoding s = held) then set_mouse_encoding DefaultEncoding s else s.

Definition reset_private_mode (s : VtScreen) (mode : N) : VtScreen :=
  if (mode =? 1)%N then set_application_cursor false s
  else if (mode =? 9)%N then reset_mouse_mode Press s
  else if (mode =? 1000)%N then reset_mouse_mode PressRelease s
  else if (mode =? 1002)%N then reset_mouse_mode ButtonMotion s
  else if (mode =? 1003)%N then reset_mouse_mode AnyMotion s
  else if (mode =? 1005)%N then reset_mouse_encoding Utf8 s
  else if (mode =? 1006)%N then reset_mouse_encoding Sgr s
  else if (mode =? 2004)%N then set_bracketed_paste false s
  else if is_buffer_mode mode then leave_alternate_screen s
  else s.

Definition set_private_modes (s : VtScreen) : VtScreen := foldl set_private_mode s (private_modes s).
Definition reset_private_modes (s : VtScreen) : VtScreen := foldl reset_private_mode s (private_modes s).

(** ** The decoder *)
Definition UPPER_R : char := 82%N.
Definition cursor_report (s : VtScreen) : list N :=
  CSI_PREFIX ++ print_u32 (N.of_nat (Nat.min (vs_cursor_row s) (vs_rows s - 1) + 1)) ++
  [SEMICOLON] ++ print_u32 (N.of_nat (Nat.min (vs_cursor_col s) (vs_cols s - 1) + 1)) ++ [UPPER_R].

(** The code of a character literal. *)
Definition code (s : string) : N := default 0%N (head (txt s)).

Definition dispatch_csi (final : N) (s : VtScreen) : option (VtScreen * list N) :=
  let quiet (s : VtScreen) := Some (s, []) in
  let final_is (c : string) := (final =? code c)%N in
  if final_is "A"%string then quiet (set_cursor_row (receded (vs_cursor_row s) (param 0 1 s)) s)
  else if final_is "B"%string then quiet (set_cursor_row (advanced (vs_cursor_row s) (param 0 1 s) (vs_rows s)) s)
  else if final_is "C"%string then quiet (set_cursor_col (advanced (vs_cursor_col s) (param 0 1 s) (vs_cols s)) s)
  else if final_is "D"%string then quiet (set_cursor_col (receded (vs_cursor_col s) (param 0 1 s)) s)
  else if final_is "G"%string then quiet (set_cursor_col (coordinate (param 0 1 s) (vs_cols s)) s)
  else if final_is "d"%string then quiet (set_cursor_row (coordinate (param 0 1 s) (vs_rows s)) s)
  else if final_is "H"%string || final_is "f"%string then
    quiet (set_cursor_col (coordinate (param 1 1 s) (vs_cols s))
             (set_cursor_row (coordinate (param 0 1 s) (vs_rows s)) s))
  else if final_is "K"%string then s ← erase_line s; quiet s
  else if final_is "J"%string then s ← erase_display s; quiet s
  else if final_is "P"%string then s ← delete_characters s; quiet s
  else if final_is "X"%string then s ← erase_characters s; quiet s
  else if final_is "r"%string then quiet (set_scroll_region s)
  else if final_is "S"%string then s ← scroll_up (param 0 1 s) s; quiet s
  else if final_is "T"%string then s ← scroll_down (param 0 1 s) s; quiet s
  else if final_is "m"%string then quiet (sgr s)
  else if final_is "s"%string then quiet (save_cursor s)
  else if final_is "u"%string then quiet (restore_cursor s)
  else if final_is "h"%string then quiet (set_private_modes s)
  else if final_is "l"%string then quiet (reset_private_modes s)
  else if final_is "n"%string && bool_decide (vs_params s = txt "6") then Some (s, cursor_report s)
  else quiet s.

Definition utf8_len (lead : N) : nat :=
  if in_range 240 247 lead then 4
  else if in_range 224 239 lead then 3
  else if in_range 192 223 lead then 2
  else 1.

Definition clear_utf8 (s : VtScreen) : VtScreen := set_utf8_needed 0 (set_utf8_pending [] s).

Definition flush_utf8 (s : VtScreen) : option VtScreen :=
  s ← match from_utf8 (length (vs_utf8_pending s)) (vs_utf8_pending s) with
      | Some (ch :: _) => print ch s
      | _ => Some s
      end;
  Some (clear_utf8 s).

(** A byte that starts no pending sequence. *)
Definition ground_byte (byte : N) (s : VtScreen) : option VtScreen :=
  if (byte =? 27)%N then Some (set_phase Escape s)
  else if (byte =? 13)%N then Some (set_cursor_col 0 s)
  else if (byte =? 10)%N then line_feed s
  else if (byte =? 8)%N then Some (set_cursor_col (vs_cursor_col s - 1) s)
  else if (byte =? 9)%N then Some (tab s)
  else if in_range 32 126 byte then print byte s
  else if in_range 0 31 byte || (byte =? 127)%N then Some s
  else if 1 <? utf8_len byte then
    Some (set_utf8_pending (vs_utf8_pending s ++ [byte]) (set_utf8_needed (utf8_len byte) s))
  else Some s.

Definition ground (byte : N) (s : VtScreen) : option VtScreen :=
  if negb (is_empty (vs_utf8_pending s)) then
    if continuation_byte byte then
      let s := set_utf8_pending (vs_utf8_pending s ++ [byte]) s in
      if vs_utf8_needed s <=? length (vs_utf8_pending s) then flush_utf8 s else Some s
    else ground_byte byte (clear_utf8 s)
  else ground_byte byte s.

Definition escape_byte (byte : N) (s : VtScreen) : option VtScreen :=
  if (byte =? code "[")%N then Some (set_phase Csi (set_params [] s))
  else if (byte =? code "]")%N then Some (set_phase Osc s)
  else if (byte =? code "(")%N || (byte =? code ")")%N then Some (set_phase Charset s)
  else if (byte =? code "7")%N then Some (set_phase Ground (save_cursor s))
  else if (byte =? code "8")%N then Some (set_phase Ground (restore_cursor s))
  else if (byte =? code "M")%N then s ← reverse_index s; Some (set_phase Ground s)
  else Some (set_phase Ground s).

Definition csi (byte : N) (s : VtScreen) : option (VtScreen * list N) :=
  if in_range 32 63 byte then
    if (str_len (vs_params s) <? PARAMS_MAX)%N then Some (set_params (vs_params s ++ [byte]) s, [])
    else Some (set_phase CsiOverflow (set_params [] s), [])
  else if in_range 64 126 byte then
    '(s, replies) ← dispatch_csi byte s; Some (set_phase Ground s, replies)
  else Some (set_phase Ground s, []).

Definition csi_overflow (byte : N) (s : VtScreen) : VtScreen :=
  if in_range 64 126 byte then set_phase Ground s else s.

Definition osc (byte : N) (s : VtScreen) : VtScreen :=
  if (byte =? 7)%N then set_phase Ground s
  else if (byte =? 27)%N then set_phase Escape s
  else s.

Definition feed_parsed (byte : N) (s : VtScreen) : option (VtScreen * list N) :=
  let quiet (s : VtScreen) := Some (s, []) in
  match vs_phase s with
  | Ground => s ← ground byte s; quiet s
  | Escape => s ← escape_byte byte s; quiet s
  | Csi => csi byte s
  | CsiOverflow => quiet (csi_overflow byte s)
  | Osc => quiet (osc byte s)
  | Charset => quiet (set_phase Ground s)
  end.

(** A loop over bytes that collects the replies. *)
Fixpoint feed_all (step : N -> VtScreen -> option (VtScreen * list N)) (bytes : list N) (s : VtScreen)
    : option (VtScreen * list N) :=
  match bytes with
  | [] => Some (s, [])
  | byte :: bytes =>
      '(s, replies) ← step byte s;
      '(s, more) ← feed_all step bytes s;
      Some (s, replies ++ more)
  end.

Definition SYNCHRONIZED_OUTPUT_END : list N := ESC :: txt "[?2026l".

Definition ends_with (suffix l : list N) : bool :=
  (length suffix <=? length l) && bool_decide (drop (length l - length suffix) l = suffix).

Definition commit_synchronized_output (s : VtScreen) : option (VtScreen * list N) :=
  let pending := default [] (vs_synchronized_output s) in
  let s := set_replaying_synchronized_output true (set_synchronized_output None s) in
  '(s, replies) ← feed_all feed_parsed pending s;
  Some (set_replaying_synchronized_output false s, replies).

Definition feed (byte : N) (s : VtScreen) : option (VtScreen * list N) :=
  match vs_synchronized_output s, vs_replaying_synchronized_output s with
  | Some pending, false =>
      let pending := pending ++ [byte] in
      let s := set_synchronized_output (Some pending) s in
      if ends_with SYNCHRONIZED_OUTPUT_END pending ||
         (SYNCHRONIZED_OUTPUT_MAX <? N.of_nat (length pending))%N
      then commit_synchronized_output s
      else Some (s, [])
  | _, _ => feed_parsed byte s
  end.

Definition advance_with_replies_and_row_motions (bytes : list N) (s : VtScreen)
    : option (VtScreen * (list N * list RetainedRowMotion)) :=
  '(s, replies) ← feed_all feed bytes (set_retained_row_motions [] s);
  Some (set_retained_row_motions [] s, (replies, vs_retained_row_motions s)).

Definition advance_with_replies (bytes : list N) (s : VtScreen) : option (VtScreen * list N) :=
  '(s, (replies, _)) ← advance_with_replies_and_row_motions bytes s; Some (s, replies).

Definition advance (bytes : list N) (s : VtScreen) : option VtScreen :=
  '(s, _) ← advance_with_replies_and_row_motions bytes s; Some s.
End screen.

(** ** Examples: the cases of the module's unit tests *)

(** A width function for the examples: two columns for the CJK ranges and the
    sparkles sign, one elsewhere. *)
Definition cjk_width : UnicodeWidth :=
  {| char_width c := if in_range 12288 40959 c || (c =? 10024)%N then Some 2 else Some 1 |}.

Definition shown (s : option VtScreen) : option (list text) :=
  (fun s => trim_end_matches (is_char SP) <$> cells s) <$> s.
Definition shown_history (s : option VtScreen) : option (list text) :=
  (fun s => trim_end_matches (is_char SP) <$> cells_with_scrollback s) <$> s.

Section examples.
#[local] Existing Instance cjk_width.
Definition feed_text (rows cols : nat) (bytes : list N) : option VtScreen := advance bytes (new rows cols).

Example plain_text : shown (feed_text 2 10 (txt "hello")) = Some [txt "hello"; []].
Proof. vm_compute. reflexivity. Qed.
Example wraps :
  shown (feed_text 2 3 (txt "abcd")) = Some [txt "abc"; txt "d"] /\
  (soft_wraps_with_scrollback <$> feed_text 2 3 (txt "abcd")) = Some [true; false].
Proof. vm_compute. split; reflexivity. Qed.
Example wide_glyphs :
  shown (feed_text 2 4 (txt "A" ++ [227; 129; 130]%N ++ txt "B")) = Some [[65; 12354; 66]%N; []] /\
  (cursor <$> feed_text 2 4 (txt "A" ++ [227; 129; 130]%N ++ txt "B")) = Some (0, 4).
Proof. vm_compute. split; reflexivity. Qed.
Example one_column :
  shown_history (feed_text 1 1 ([226; 156; 168]%N ++ txt "!")) = Some [[65533%N]; txt "!"].
Proof. vm_compute. reflexivity. Qed.
Example overwrite_half :
  shown (feed_text 1 4 ([227; 129; 130; 27]%N ++ txt "[2GX")) = Some [txt " X"].
Proof. vm_compute. reflexivity. Qed.
Example scrolls :
  shown_history (feed_text 2 3 (txt "one" ++ [13; 10]%N ++ txt "two" ++ [13; 10]%N ++ txt "end"))
  = Some [txt "one"; txt "two"; txt "end"].
Proof. vm_compute. reflexivity. Qed.
Example delete_character : shown (feed_text 1 6 (txt "abcd" ++ [8; 8; 27]%N ++ txt "[P")) = Some [txt "abd"].
Proof. vm_compute. reflexivity. Qed.
(** A parameter near the width of [usize] wraps: "cursor down" goes up a row. *)
Example cursor_down_wraps :
  (cursor <$> feed_text 4 4 ([27]%N ++ txt "[3d" ++ [27]%N ++ txt "[18446744073709551615B"))
  = Some (1, 0).
Proof. vm_compute. reflexivity. Qed.
Example synchronized_frame_is_hidden :
  shown (feed_text 1 4 ([27]%N ++ txt "[?2026hab")) = Some [[]] /\
  shown (feed_text 1 4 ([27]%N ++ txt "[?2026hab" ++ [27]%N ++ txt "[?2026l")) = Some [txt "ab"].
Proof. vm_compute. split; reflexivity. Qed.
Example alternate_screen :
  shown (feed_text 1 4 (txt "ab" ++ [27]%N ++ txt "[?1049hxyz")) = Some [txt "xyz"] /\
  shown (feed_text 1 4 (txt "ab" ++ [27]%N ++ txt "[?1049hxyz" ++ [27]%N ++ txt "[?1049l"))
  = Some [txt "ab"].
Proof. vm_compute. split; reflexivity. Qed.
End examples.
