(* ===== verification/VtCheckpoint.v ===== *)
(** * Screen checkpoints
    ([crates/core/src/usecase/vt_screen.rs],
    [crates/core/src/usecase/vt_screen/checkpoint.rs])

    The serializable snapshot of a screen, the encoder that interns styles and
    run-length encodes rows, and the decoder that checks every bound of a
    received snapshot before it builds a screen.  The casts to narrower integers
    are written out. *)
From S2P Require Export VtScreen.

Definition SCHEMA_VERSION : N := 1.
Definition CELLS_PER_TERMINAL_MAX : N := ROWS_MAX * COLS_MAX.
Definition STYLES_MAX : N := 2 * ((SCROLLBACK_MAX + ROWS_MAX) * COLS_MAX + 1).
Definition UTF8_PENDING_MAX : N := 3.
Definition UTF8_NEEDED_MAX : N := 4.

Definition as_u32 (n : nat) : N := (N.of_nat n mod 4294967296)%N.
Definition as_u8 (n : nat) : N := (N.of_nat n mod 256)%N.
(** [u32::checked_add], [u32::checked_mul] *)
Definition checked_u32 (n : N) : option N := if (n <=? U32_MAX)%N then Some n else None.

(** ** Data *)
Record Geometry := MkGeometry { ge_rows : N; ge_cols : N }.

Record CellRun := MkCellRun {
  cr_style_id : N;
  cr_ch : char;
  cr_continuation : bool;
  cr_wrapped : bool;
  cr_repeat : N
}.

Notation RowCheckpoint := (list CellRun) (only parsing).

Record BufferCheckpoint := MkBufferCheckpoint {
  bc_grid : list (list CellRun);
  bc_scrollback : list (list CellRun);
  bc_scrollback_origin : N;
  bc_cursor : N * N;
  bc_saved_cursor : option (N * N);
  bc_scroll_region : N * N;
  bc_style_id : N
}.

(** The decoder's position is [Phase]: the two enumerations and the two maps
    between them are the identity. *)
Record DecoderCheckpoint := MkDecoderCheckpoint {
  dc_phase : Phase;
  dc_params : text;
  dc_utf8_pending : list N;
  dc_utf8_needed : N;
  dc_synchronized_output : option (list N)
}.

Record ScreenCheckpoint := MkScreenCheckpoint {
  sc_schema_version : N;
  sc_geometry : Geometry;
  sc_active : ActiveBuffer;
  sc_primary : BufferCheckpoint;
  sc_alternate : option BufferCheckpoint;
  sc_styles : list text;
  sc_decoder : DecoderCheckpoint;
  sc_application_cursor : bool;
  sc_bracketed_paste : bool;
  sc_mouse_protocol_mode : MouseProtocolMode;
  sc_mouse_encoding : MouseProtocolEncoding
}.

Inductive CheckpointError : Type :=
| UnknownSchemaVersion (found expected : N)
| RowsOutOfRange (rows : N)
| ColsOutOfRange (cols : N)
| CellCountOverflow
| TooManyCells (cells : N)
| ScrollbackTooLong (len : nat)
| TooManyStyles (len : nat)
| StyleTooLong (len : N)
| StyleIdOutOfRange (id : N) (styles : nat)
| RowRepeatOverflow
| RowLength (expected actual : N)
| GridRowCount (expected : N) (actual : nat)
| CursorOutOfRange (row col : N)
| ScrollRegionInvalid (top bottom : N)
| ParamsTooLong (len : N)
| Utf8PendingTooLong (len : nat)
| Utf8NeededOutOfRange (needed : N)
| SynchronizedOutputTooLong (len : nat)
| ActiveBufferMismatch.

(** ** Encoding *)

(** The index of each distinct style met so far, with the table itself. *)
Record StyleInterner := MkStyleInterner {
  si_ids : gmap text N;
  si_table : list text
}.
Definition interner_default : StyleInterner := MkStyleInterner ∅ [].

Definition intern (style : text) (si : StyleInterner) : N * StyleInterner :=
  match si_ids si !! style with
  | Some id => (id, si)
  | None =>
      let id := as_u32 (length (si_table si)) in
      (id, MkStyleInterner (<[style := id]> (si_ids si)) (si_table si ++ [style]))
  end.

Definition extends_run (last : CellRun) (style_id : N) (cell : Cell) : bool :=
  (cr_style_id last =? style_id)%N && (cr_ch last =? cl_ch cell)%N &&
  eqb (cr_continuation last) (cl_continuation cell) && eqb (cr_wrapped last) (cl_wrapped cell).

Definition grow_run (r : CellRun) : CellRun :=
  MkCellRun (cr_style_id r) (cr_ch r) (cr_continuation r) (cr_wrapped r) (cr_repeat r + 1).

(** The runs so far are kept last first. *)
Definition push_cell (style_id : N) (cell : Cell) (runs : list CellRun) : list CellRun :=
  let fresh := MkCellRun style_id (cl_ch cell) (cl_continuation cell) (cl_wrapped cell) 1 in
  match runs with
  | last :: before => if extends_run last style_id cell then grow_run last :: before else fresh :: runs
  | [] => [fresh]
  end.

Fixpoint encode_cells (cells : list Cell) (runs : list CellRun) (si : StyleInterner)
    : list CellRun * StyleInterner :=
  match cells with
  | [] => (reverse runs, si)
  | cell :: cells =>
      let '(style_id, si) := intern (cl_style cell) si in
      encode_cells cells (push_cell style_id cell runs) si
  end.
Definition encode_row (cells : list Cell) (si : StyleInterner) : list CellRun * StyleInterner :=
  encode_cells cells [] si.

Fixpoint encode_rows (rows : list (list Cell)) (si : StyleInterner)
    : list (list CellRun) * StyleInterner :=
  match rows with
  | [] => ([], si)
  | cells :: rows =>
      let '(r, si) := encode_row cells si in
      let '(rs, si) := encode_rows rows si in
      (r :: rs, si)
  end.

Definition buffer_checkpoint_from (b : ScreenBuffer) (si : StyleInterner)
    : BufferCheckpoint * StyleInterner :=
  let '(grid, si) := encode_rows (sb_grid b) si in
  let '(scrollback, si) := encode_rows (sb_scrollback b) si in
  let '(style_id, si) := intern (sb_style b) si in
  (MkBufferCheckpoint grid scrollback (sb_scrollback_origin b)
     (as_u32 (sb_cursor_row b), as_u32 (sb_cursor_col b))
     ((fun '(r, c) => (as_u32 r, as_u32 c)) <$> sb_saved_cursor b)
     (as_u32 (sb_scroll_top b), as_u32 (sb_scroll_bottom b)) style_id, si).

Definition live_buffer_checkpoint (s : VtScreen) (si : StyleInterner)
    : BufferCheckpoint * StyleInterner := buffer_checkpoint_from (vs_live s) si.

Definition checkpoint (s : VtScreen) : ScreenCheckpoint :=
  let '(active, primary, alternate, si) :=
    match vs_primary_screen s with
    | Some saved =>
        let '(alternate, si) := live_buffer_checkpoint s interner_default in
        let '(primary, si) := buffer_checkpoint_from saved si in
        (Alternate, primary, Some alternate, si)
    | None =>
        let '(primary, si) := live_buffer_checkpoint s interner_default in
        (Primary, primary, None, si)
    end in
  MkScreenCheckpoint SCHEMA_VERSION (MkGeometry (as_u32 (vs_rows s)) (as_u32 (vs_cols s)))
    active primary alternate (si_table si)
    (MkDecoderCheckpoint (vs_phase s) (vs_params s) (vs_utf8_pending s)
       (as_u8 (vs_utf8_needed s)) (vs_synchronized_output s))
    (vs_application_cursor s) (vs_bracketed_paste s) (vs_mouse_protocol_mode s) (vs_mouse_encoding s).

(** ** Decoding *)
Definition require (b : bool) (e : CheckpointError) : result CheckpointError unit :=
  if b then Ok tt else Err e.

Definition validate_style_count (len : nat) (limit : N) : result CheckpointError unit :=
  require (N.of_nat len <=? limit)%N (TooManyStyles len).

Definition validated_geometry (cp : ScreenCheckpoint) : result CheckpointError (nat * nat) :=
  let dc := sc_decoder cp in
  let pending := length (dc_utf8_pending dc) in
  _ <-? require (sc_schema_version cp =? SCHEMA_VERSION)%N
          (UnknownSchemaVersion (sc_schema_version cp) SCHEMA_VERSION) ;;
  let rows := ge_rows (sc_geometry cp) in
  let cols := ge_cols (sc_geometry cp) in
  cells <-? ok_or (checked_u32 (rows * cols)) CellCountOverflow ;;
  _ <-? require (cells <=? CELLS_PER_TERMINAL_MAX)%N (TooManyCells cells) ;;
  _ <-? require (negb (rows =? 0) && (rows <=? ROWS_MAX))%N (RowsOutOfRange rows) ;;
  _ <-? require (negb (cols =? 0) && (cols <=? COLS_MAX))%N (ColsOutOfRange cols) ;;
  _ <-? validate_style_count (length (sc_styles cp)) STYLES_MAX ;;
  _ <-? match find_first (fun style => STYLE_BYTES_MAX <? str_len style)%N (sc_styles cp) with
        | Some style => Err (StyleTooLong (str_len style))
        | None => Ok tt
        end ;;
  _ <-? require (str_len (dc_params dc) <=? PARAMS_MAX)%N (ParamsTooLong (str_len (dc_params dc))) ;;
  _ <-? require (N.of_nat pending <=? UTF8_PENDING_MAX)%N (Utf8PendingTooLong pending) ;;
  _ <-? require (dc_utf8_needed dc <=? UTF8_NEEDED_MAX)%N (Utf8NeededOutOfRange (dc_utf8_needed dc)) ;;
  let hidden := from_option length 0 (dc_synchronized_output dc) in
  _ <-? require (N.of_nat hidden <=? SYNCHRONIZED_OUTPUT_MAX)%N (SynchronizedOutputTooLong hidden) ;;
  let has_alternate := match sc_alternate cp with Some _ => true | None => false end in
  _ <-? require (eqb (bool_decide (sc_active cp = Alternate)) has_alternate) ActiveBufferMismatch ;;
  Ok (N.to_nat rows, N.to_nat cols).

(** The sum of a row's repeats, with the checks of its loop. *)
Fixpoint row_total (styles : list text) (runs : list CellRun) (total : N) : result CheckpointError N :=
  match runs with
  | [] => Ok total
  | run :: runs =>
      _ <-? require (cr_style_id run <? N.of_nat (length styles))%N
              (StyleIdOutOfRange (cr_style_id run) (length styles)) ;;
      total <-? ok_or (checked_u32 (total + cr_repeat run)) RowRepeatOverflow ;;
      row_total styles runs total
  end.

(** [styles[id]]: the ids were checked just before. *)
Definition style_at (styles : list text) (id : N) : text := default [] (styles !! N.to_nat id).

Definition run_cells (styles : list text) (run : CellRun) : list Cell :=
  replicate (N.to_nat (cr_repeat run))
    (MkCell (cr_ch run) (style_at styles (cr_style_id run)) (cr_continuation run) (cr_wrapped run)).

Definition decode_row (cols : nat) (styles : list text) (runs : list CellRun)
    : result CheckpointError (list Cell) :=
  total <-? row_total styles runs 0 ;;
  _ <-? require (total =? N.of_nat cols)%N (RowLength (as_u32 cols) total) ;;
  Ok (run ← runs; run_cells styles run).

(** [collect::<Result<Vec<_>, _>>()] *)
Fixpoint collect {A B} (f : A -> result CheckpointError B) (l : list A) : result CheckpointError (list B) :=
  match l with
  | [] => Ok []
  | a :: l => b <-? f a ;; bs <-? collect f l ;; Ok (b :: bs)
  end.

Definition check_cursor (rows cols : nat) (cursor : N * N) : result CheckpointError unit :=
  require ((cursor.1 <? N.of_nat rows) && (cursor.2 <=? N.of_nat cols))%N
    (CursorOutOfRange cursor.1 cursor.2).

Definition decode_buffer (rows cols : nat) (styles : list text) (b : BufferCheckpoint)
    : result CheckpointError ScreenBuffer :=
  _ <-? require (length (bc_grid b) =? rows) (GridRowCount (as_u32 rows) (length (bc_grid b))) ;;
  _ <-? require (N.of_nat (length (bc_scrollback b)) <=? SCROLLBACK_MAX)%N
          (ScrollbackTooLong (length (bc_scrollback b))) ;;
  _ <-? require (bc_style_id b <? N.of_nat (length styles))%N
          (StyleIdOutOfRange (bc_style_id b) (length styles)) ;;
  _ <-? check_cursor rows cols (bc_cursor b) ;;
  _ <-? from_option (check_cursor rows cols) (Ok tt) (bc_saved_cursor b) ;;
  let '(top, bottom) := bc_scroll_region b in
  _ <-? require ((bottom <? N.of_nat rows) && (top <=? bottom))%N (ScrollRegionInvalid top bottom) ;;
  grid <-? collect (decode_row cols styles) (bc_grid b) ;;
  scrollback <-? collect (decode_row cols styles) (bc_scrollback b) ;;
  Ok (MkScreenBuffer grid scrollback (bc_scrollback_origin b)
        (N.to_nat (bc_cursor b).1) (N.to_nat (bc_cursor b).2) (style_at styles (bc_style_id b))
        ((fun '(r, c) => (N.to_nat r, N.to_nat c)) <$> bc_saved_cursor b)
        (N.to_nat top) (N.to_nat bottom)).

(** The live buffer replaces the one of the blank screen. *)
Definition install_live_buffer (b : ScreenBuffer) (s : VtScreen) : VtScreen := set_live b s.

Definition from_checkpoint (cp : ScreenCheckpoint) : result CheckpointError VtScreen :=
  geometry <-? validated_geometry cp ;;
  let '(rows, cols) := geometry in
  primary <-? decode_buffer rows cols (sc_styles cp) (sc_primary cp) ;;
  alternate <-? match sc_alternate cp with
                | Some alt => map_ok Some (decode_buffer rows cols (sc_styles cp) alt)
                | None => Ok None
                end ;;
  let blank := new rows cols in
  let dc := sc_decoder cp in
  let screen :=
    MkVtScreen (vs_rows blank) (vs_cols blank) (vs_live blank) (dc_phase dc) (dc_params dc)
      (dc_utf8_pending dc) (N.to_nat (dc_utf8_needed dc)) (sc_application_cursor cp)
      (sc_bracketed_paste cp) (sc_mouse_protocol_mode cp) (sc_mouse_encoding cp)
      (dc_synchronized_output dc) false None [] in
  match alternate with
  | Some alt => Ok (set_primary_screen (Some primary) (install_live_buffer alt screen))
  | None => Ok (install_live_buffer primary screen)
  end.

Section examples.
#[local] Existing Instance cjk_width.
Example checkpoint_resumes_inside_a_sequence :
  (s ← feed_text 2 3 (txt "ab" ++ [27]%N ++ txt "[3"); Some (from_checkpoint (checkpoint s)))
  = Ok <$> feed_text 2 3 (txt "ab" ++ [27]%N ++ txt "[3").
Proof. vm_compute. reflexivity. Qed.
Example unknown_schema_is_rejected :
  from_checkpoint
    (let cp := checkpoint (new 1 1) in
     MkScreenCheckpoint 2 (sc_geometry cp) (sc_active cp) (sc_primary cp) (sc_alternate cp)
       (sc_styles cp) (sc_decoder cp) false false NoMouse DefaultEncoding)
  = Err (UnknownSchemaVersion 2 1).
Proof. vm_compute. reflexivity. Qed.
End examples.
