(* ===== verification/VtScreenLaws.v ===== *)
(** * The terminal screen never panics and stays well formed

    [screen_ok] is the invariant of a screen: every row of both buffers and of
    their histories has the width of the grid and the shape in question, cursors,
    saved cursors and scroll regions are inside it, and the decoder's pending
    input is bounded.  Every operation is total on such screens ([total]: no
    panic) and keeps the invariant. *)
From S2P Require Export VtScreen.

(** ** Rows of the terminal screen

    Computations that do not panic ([total]), and the operations of a row: each
    is total on rows of the screen's width, returns such a row, and keeps any
    further [shape] of rows that the primitive operations keep. *)
(** ** Computations that do not panic *)
Definition total {A} (o : option A) (P : A -> Prop) : Prop :=
  match o with Some a => P a | None => False end.

Lemma total_bind {A B} (o : option A) (f : A -> option B) (P : A -> Prop) (Q : B -> Prop) :
  total o P -> (forall a, P a -> total (f a) Q) -> total (o ≫= f) Q.
Proof. destruct o; cbn; [auto|done]. Qed.

Section total.
Context {A : Type}.

Lemma total_mono (o : option A) (P Q : A -> Prop) : total o P -> (forall a, P a -> Q a) -> total o Q.
Proof. destruct o; cbn; auto. Qed.

Lemma total_Some (o : option A) P : total o P -> exists a, o = Some a /\ P a.
Proof. destruct o; cbn; [eauto|done]. Qed.

Lemma total_for_each (I : A -> Prop) (f : nat -> A -> option A) range a :
  (forall i a, i ∈ range -> I a -> total (f i a) I) -> I a -> total (for_each f range a) I.
Proof.
  revert a. induction range as [|i range IH]; intros a Hf Ha; cbn [for_each]; [done|].
  apply (total_bind _ _ I); [apply Hf; [left|done]|].
  intros a' Ha'. apply IH; [|done]. intros j b Hj. apply Hf. by right.
Qed.

Lemma total_write i x (l : list A) : i < length l -> total (write i x l) (eq (<[i := x]> l)).
Proof. intros H. unfold write. by rewrite decide_True. Qed.

Lemma total_modify i f (l : list A) (P : A -> Prop) :
  i < length l -> (forall x, l !! i = Some x -> total (f x) P) ->
  total (modify i f l) (fun l' => exists y, P y /\ l' = <[i := y]> l).
Proof.
  intros Hi Hf. unfold modify. destruct (lookup_lt_is_Some_2 l i Hi) as [x Hx]. rewrite Hx.
  cbn. specialize (Hf x Hx). destruct (f x); cbn in *; [eauto|done].
Qed.

Lemma total_remove i (l : list A) : i < length l ->
  total (remove i l) (fun '(x, l') => l !! i = Some x /\ l' = take i l ++ drop (S i) l).
Proof.
  intros Hi. unfold remove. destruct (lookup_lt_is_Some_2 l i Hi) as [x Hx]. by rewrite Hx.
Qed.

Lemma total_insert_at i x (l : list A) : i <= length l ->
  total (insert_at i x l) (eq (take i l ++ x :: drop i l)).
Proof. intros Hi. unfold insert_at. by rewrite decide_True. Qed.
End total.

Lemma elem_of_range i a b : i ∈ range a b <-> a <= i /\ i < b.
Proof. unfold range. rewrite elem_of_seq. lia. Qed.

(** ** Well formed rows *)
Definition style_ok (style : text) : Prop := (str_len style <= STYLE_BYTES_MAX)%N.
Definition cell_ok (c : Cell) : Prop := style_ok (cl_style c).
Definition row_ok (cols : nat) (cells : list Cell) : Prop :=
  length cells = cols /\ Forall cell_ok cells.

Lemma blank_ok : cell_ok blank.
Proof. by vm_compute. Qed.

Lemma blank_row_ok cols : row_ok cols (blank_row cols).
Proof.
  split; [apply length_replicate|]. apply Forall_replicate, blank_ok.
Qed.

Lemma row_ok_insert cols i c cells : row_ok cols cells -> cell_ok c -> row_ok cols (<[i := c]> cells).
Proof.
  intros [Hl Hf] Hc. split; [by rewrite length_insert|]. by apply Forall_insert.
Qed.

Section rows.
Context {U : UnicodeWidth}.

Lemma leader_of_total cells column :
  column < length cells -> total (leader_of cells column) (fun l => l <= column).
Proof.
  induction column as [|c IH]; intros H; cbn [leader_of]; [cbn; lia|].
  destruct (lookup_lt_is_Some_2 cells (S c) H) as [x ->]. cbn.
  destruct (cl_continuation x); [|cbn; lia].
  apply (total_mono _ (fun l => l <= c)); [apply IH|]; lia.
Qed.

Lemma blank_continuations_length cells : length (blank_continuations cells) = length cells.
Proof.
  induction cells as [|c cells IH]; cbn; [done|]. destruct (cl_continuation c); cbn; auto.
Qed.

Lemma blank_continuations_ok cells : Forall cell_ok cells -> Forall cell_ok (blank_continuations cells).
Proof.
  induction 1 as [|c cells Hc Hcells IH]; cbn; [constructor|].
  destruct (cl_continuation c); constructor; auto using blank_ok.
Qed.

Lemma clear_glyph_at_total cols column cells :
  column < cols -> row_ok cols cells -> total (clear_glyph_at column cells) (row_ok cols).
Proof.
  intros Hc Hr. assert (Hlen := proj1 Hr). unfold clear_glyph_at.
  eapply total_bind; [apply leader_of_total; lia|]. cbn beta. intros leader Hl.
  eapply total_bind; [apply total_write; lia|]. cbn beta. intros cells' <-.
  destruct (row_ok_insert cols leader blank cells Hr blank_ok) as [Hl' Hf']. split.
  - rewrite length_app, length_take, blank_continuations_length, length_drop. lia.
  - apply Forall_app. split; [by apply Forall_take|]. by apply blank_continuations_ok, Forall_drop.
Qed.

Lemma clear_glyph_range_total cols start end_ cells :
  row_ok cols cells -> total (clear_glyph_range start end_ cells) (row_ok cols).
Proof.
  intros Hr. apply total_for_each; [|done]. intros i cells' Hi Hr'.
  apply clear_glyph_at_total; [|done]. apply elem_of_range in Hi. rewrite (proj1 Hr) in Hi. lia.
Qed.

Lemma clear_if_continuation_total cols column cells :
  column < cols -> row_ok cols cells -> total (clear_if_continuation column cells) (row_ok cols).
Proof.
  intros Hc Hr. unfold clear_if_continuation.
  destruct (lookup_lt_is_Some_2 cells column) as [x ->]; [by rewrite (proj1 Hr)|]. cbn.
  destruct (cl_continuation x); [by apply clear_glyph_at_total|done].
Qed.

Lemma delete_cells_total cols start count cells :
  start + count <= cols -> 0 < count -> row_ok cols cells ->
  total (delete_cells start count cells) (row_ok cols).
Proof.
  intros Hle Hc Hr. unfold delete_cells.
  eapply total_bind; [apply (clear_if_continuation_total cols); [lia|done]|]. cbn beta. intros c1 H1.
  apply (total_bind _ _ (row_ok cols)).
  { rewrite (proj1 H1). destruct (start + count <? cols) eqn:E; [|done]. apply Nat.ltb_lt in E.
    by apply clear_if_continuation_total. }
  intros c2 [Hl2 Hf2]. unfold drain. rewrite decide_True by lia. cbn. split.
  - rewrite !length_app, length_take, length_drop, length_replicate. lia.
  - rewrite !Forall_app. split_and!; [by apply Forall_take|by apply Forall_drop|].
    apply Forall_replicate, blank_ok.
Qed.

Lemma put_glyph_total cols ch style column width cells :
  column + width <= cols -> 0 < width -> style_ok style -> row_ok cols cells ->
  total (put_glyph ch style column width cells) (row_ok cols).
Proof.
  intros Hle Hw Hs Hr. unfold put_glyph.
  eapply total_bind; [by apply clear_glyph_range_total|]. cbn beta. intros c1 H1.
  assert (Hl1 := proj1 H1). eapply total_bind; [apply total_write; lia|]. cbn beta. intros c2 <-.
  apply total_for_each; [|by apply row_ok_insert].
  intros i c3 Hi H3. apply elem_of_range in Hi. assert (Hl3 := proj1 H3).
  eapply total_mono; [apply total_write; lia|]. cbn beta. intros c4 <-. by apply row_ok_insert.
Qed.

(** *** Resizing *)
Lemma length_fit {A} n (x : A) l : length (fit n x l) = n.
Proof. unfold fit. rewrite length_app, length_take, length_replicate. lia. Qed.

Lemma Forall_fit {A} (P : A -> Prop) n x l : Forall P l -> P x -> Forall P (fit n x l).
Proof. intros Hl Hx. apply Forall_app. split; [by apply Forall_take|by apply Forall_replicate]. Qed.

Lemma mark_last_length cells : length (mark_last cells) = length cells.
Proof.
  unfold mark_last. destruct (reverse cells) as [|c cs] eqn:E.
  - apply (f_equal length) in E. by rewrite length_reverse in E.
  - rewrite length_reverse. cbn. apply (f_equal length) in E. by rewrite length_reverse in E.
Qed.

Lemma mark_last_ok cells : Forall cell_ok cells -> Forall cell_ok (mark_last cells).
Proof.
  intros H. unfold mark_last. apply Forall_reverse in H.
  destruct (reverse cells) as [|c cs]; [constructor|]. apply Forall_reverse.
  inversion_clear H. by constructor.
Qed.

Lemma repair_glyphs_ok fuel cells : length cells <= fuel -> Forall cell_ok cells ->
  length (repair_glyphs fuel cells) = length cells /\ Forall cell_ok (repair_glyphs fuel cells).
Proof.
  revert cells. induction fuel as [|fuel IH]; intros [|c cs] Hl Hf; cbn in Hl; try lia;
    [by split; [|constructor]..|].
  inversion_clear Hf as [|? ? Hc Hcs]. cbn [repair_glyphs].
  destruct (IH cs ltac:(lia) Hcs) as [Hlen Hok].
  destruct (cl_continuation c).
  { split; [cbn; lia|]. constructor; [apply blank_ok|done]. }
  destruct (1 <? _); [|by split; [cbn; lia|constructor]].
  destruct (_ && _) eqn:E; [|by split; [cbn; lia|constructor]].
  apply andb_true_iff in E as [E%Nat.eqb_eq _]. rewrite length_take in E.
  destruct (IH (drop (glyph_width (cl_ch c) - 1) cs)) as [Hlen' Hok'].
  { rewrite length_drop. lia. }
  { by apply Forall_drop. }
  split.
  - cbn. rewrite length_app, Hlen', length_take, length_drop. lia.
  - constructor; [done|]. apply Forall_app. split; [by apply Forall_take|done].
Qed.

Lemma resize_row_ok cols cells : Forall cell_ok cells -> row_ok cols (resize_row cols cells).
Proof.
  intros H. unfold resize_row.
  set (fitted := set_wrapped false <$> fit cols blank cells).
  assert (Hf : row_ok cols fitted).
  { split; [subst fitted; by rewrite length_fmap, length_fit|].
    apply Forall_fmap, (Forall_impl cell_ok); [|done]. apply Forall_fit; [done|apply blank_ok]. }
  set (marked := if existsb cl_wrapped cells then mark_last fitted else fitted).
  assert (Hm : row_ok cols marked).
  { subst marked. destruct (existsb _ _); [|done]. destruct Hf. split.
    - by rewrite mark_last_length.
    - by apply mark_last_ok. }
  destruct Hm as [Hl Hok]. destruct (repair_glyphs_ok (length marked) marked) as [Hlen Hok']; [done..|].
  split; [by rewrite Hlen|done].
Qed.
End rows.

(** ** Shapes

    A property of rows that the operations on rows keep; the laws of the screen
    are stated for any of them. *)
Class RowShape {U : UnicodeWidth} := {
  shape : list Cell -> Prop;
  shape_blank n : shape (blank_row n);
  shape_clear start end_ cells cells' :
    shape cells -> clear_glyph_range start end_ cells = Some cells' -> shape cells';
  shape_delete start count cells cells' :
    start + count <= length cells -> 0 < count -> shape cells -> delete_cells start count cells = Some cells' -> shape cells';
  shape_put ch style column cells cells' :
    column + glyph_width ch <= length cells -> shape cells -> put_glyph ch style column (glyph_width ch) cells = Some cells' -> shape cells';
  shape_replace style column cells cells' :
    column + 1 <= length cells -> shape cells -> put_glyph REPLACEMENT style column 1 cells = Some cells' -> shape cells';
  shape_wrap column cells cells' :
    shape cells -> modify column (fun cell => Some (set_wrapped true cell)) cells = Some cells' ->
    shape cells';
  shape_resize cols cells : shape (resize_row cols cells)
}.

(** No further property. *)
Definition any_shape {U : UnicodeWidth} : RowShape.
Proof. by refine {| shape := fun _ => True |}. Defined.

Section lines.
Context {U : UnicodeWidth} {R : RowShape}.

Definition line_ok (cols : nat) (cells : list Cell) : Prop := row_ok cols cells /\ shape cells.

Lemma total_and {A} (o : option A) (P Q : A -> Prop) :
  total o P -> (forall a, o = Some a -> Q a) -> total o (fun a => P a /\ Q a).
Proof. destruct o; cbn; auto. Qed.

Lemma line_blank cols : line_ok cols (blank_row cols).
Proof. split; [apply blank_row_ok|apply shape_blank]. Qed.

Lemma line_clear cols start end_ cells :
  line_ok cols cells -> total (clear_glyph_range start end_ cells) (line_ok cols).
Proof.
  intros [Hr Hs]. apply total_and; [by apply clear_glyph_range_total|]. intros cells'. by apply shape_clear.
Qed.

Lemma line_delete cols start count cells :
  start + count <= cols -> 0 < count -> line_ok cols cells ->
  total (delete_cells start count cells) (line_ok cols).
Proof.
  intros H1 H2 [Hr Hs]. apply total_and; [by apply delete_cells_total|]. intros cells'.
  apply shape_delete; try done. by rewrite (proj1 Hr).
Qed.

(** The glyph a screen of [cols] columns prints for a character. *)
Definition fitted (cols : nat) (ch : char) : char * nat :=
  if cols <? glyph_width ch then (REPLACEMENT, 1) else (ch, glyph_width ch).

Lemma line_put cols ch style column cells :
  column + (fitted cols ch).2 <= cols -> style_ok style -> line_ok cols cells ->
  total (put_glyph (fitted cols ch).1 style column (fitted cols ch).2 cells) (line_ok cols).
Proof.
  intros H1 H2 [Hr Hs]. apply total_and.
  - apply put_glyph_total; try done. unfold fitted, glyph_width. destruct (_ <? _); cbn; lia.
  - intros cells'. destruct Hr as [<- _]. revert H1. unfold fitted. destruct (_ <? _); cbn [fst snd]; intros H1.
    + by apply shape_replace.
    + by apply shape_put.
Qed.

Lemma line_wrap cols column cells :
  column < cols -> line_ok cols cells ->
  total (modify column (fun cell => Some (set_wrapped true cell)) cells) (line_ok cols).
Proof.
  intros H [Hr Hs]. apply total_and; [|intros cells'; by apply shape_wrap]. eapply total_mono.
  - apply (total_modify _ _ cells cell_ok); [rewrite (proj1 Hr); lia|]. intros x Hx.
    apply (Forall_lookup_1 _ _ _ _ (proj2 Hr) Hx).
  - intros l (y & Hy & ->). by apply row_ok_insert.
Qed.

Lemma line_resize old cols cells : line_ok old cells -> line_ok cols (resize_row cols cells).
Proof. intros [[_ H] _]. split; [by apply resize_row_ok|apply shape_resize]. Qed.
End lines.

Ltac open_buffer H :=
  let Hlen := fresh "Hlen" in let Hgrid := fresh "Hgrid" in let Hsb := fresh "Hsb" in
  let Hhist := fresh "Hhist" in let Hcur := fresh "Hcur" in let Hsaved := fresh "Hsaved" in
  let Hreg := fresh "Hreg" in let Hsty := fresh "Hsty" in
  destruct H as [Hlen Hgrid Hsb Hhist Hcur Hsaved Hreg Hsty].

(** ** The life of a screen *)

(** What a holder does with a screen; [TrimToCells] and [Clear] return a count
    and a flag that do not matter here. *)
Inductive ScreenOp : Type :=
| Advance (bytes : list N)
| Resize (rows cols : nat)
| TrimToCells (max_cells : N)
| Clear.

Section life.
Context {U : UnicodeWidth}.

Definition screen_op (op : ScreenOp) (s : VtScreen) : option VtScreen :=
  match op with
  | Advance bytes => advance bytes s
  | Resize rows cols => Some (resize rows cols s)
  | TrimToCells max_cells => Some (trim_to_cells max_cells s).1
  | Clear => Some (clear_primary_for_user s).1
  end.

Fixpoint screen_ops (ops : list ScreenOp) (s : VtScreen) : option VtScreen :=
  match ops with
  | [] => Some s
  | op :: ops => s ← screen_op op s; screen_ops ops s
  end.
End life.

(** ** Well formed screens *)
Section shaped.
Context {U : UnicodeWidth} {R : RowShape}.

Definition inside (rows cols : nat) (p : nat * nat) : Prop := p.1 < rows /\ p.2 <= cols.

Record buffer_ok (rows cols : nat) (b : ScreenBuffer) : Prop := {
  bo_rows : length (sb_grid b) = rows;
  bo_grid : Forall (line_ok cols) (sb_grid b);
  bo_scrollback : Forall (line_ok cols) (sb_scrollback b);
  bo_history : (N.of_nat (length (sb_scrollback b)) <= SCROLLBACK_MAX)%N;
  bo_cursor : inside rows cols (sb_cursor_row b, sb_cursor_col b);
  bo_saved : from_option (inside rows cols) True (sb_saved_cursor b);
  bo_region : sb_scroll_top b <= sb_scroll_bottom b < rows;
  bo_style : style_ok (sb_style b)
}.

(** The invariant is stated for a bound on the pending bytes of a character: it
    is three between bytes, four while a completed character is printed; and for
    the mark of a replay of hidden output, which is false between bytes. *)
Section bounded.
Context (pending_max : nat) (replaying : bool).

Record screen_ok (s : VtScreen) : Prop := {
  so_rows : 1 <= vs_rows s /\ (N.of_nat (vs_rows s) <= ROWS_MAX)%N;
  so_cols : 1 <= vs_cols s /\ (N.of_nat (vs_cols s) <= COLS_MAX)%N;
  so_live : buffer_ok (vs_rows s) (vs_cols s) (vs_live s);
  so_primary : from_option (buffer_ok (vs_rows s) (vs_cols s)) True (vs_primary_screen s);
  so_params : (str_len (vs_params s) <= PARAMS_MAX)%N;
  so_pending : length (vs_utf8_pending s) <= pending_max;
  so_needed : vs_utf8_needed s <= 4;
  so_replaying : vs_replaying_synchronized_output s = replaying;
  so_hidden : (N.of_nat (from_option length 0%nat (vs_synchronized_output s)) <= SYNCHRONIZED_OUTPUT_MAX)%N
}.

(** What an operation on the drawn buffer leaves alone: everything outside it. *)
Definition same_frame (s s' : VtScreen) : Prop := s' = set_live (vs_live s') s.

Lemma screen_ok_live s b :
  screen_ok s -> buffer_ok (vs_rows s) (vs_cols s) b -> screen_ok (set_live b s).
Proof. intros [] Hb. by split. Qed.

(** Fields of the drawn buffer. *)
Lemma set_cursor_row_ok r s : screen_ok s -> r < vs_rows s -> screen_ok (set_cursor_row r s).
Proof.
  intros Hs Hr. apply screen_ok_live; [done|]. assert (Hb := so_live s Hs). open_buffer Hb.
  split; try done. by split; [|apply Hcur].
Qed.

Lemma set_cursor_col_ok c s : screen_ok s -> c <= vs_cols s -> screen_ok (set_cursor_col c s).
Proof.
  intros Hs Hr. apply screen_ok_live; [done|]. assert (Hb := so_live s Hs). open_buffer Hb.
  split; try done. by split; [apply Hcur|].
Qed.

Lemma set_grid_ok rows cols grid b :
  buffer_ok rows cols b -> length grid = rows -> Forall (line_ok cols) grid ->
  buffer_ok rows cols (set_sb_grid grid b).
Proof. intros Hb Hl Hf. open_buffer Hb. by split. Qed.

Lemma cursor_row_in s : screen_ok s -> vs_cursor_row s < vs_rows s.
Proof. intros H. apply (bo_cursor _ _ _ (so_live s H)). Qed.
Lemma cursor_col_in s : screen_ok s -> vs_cursor_col s <= vs_cols s.
Proof. intros H. apply (bo_cursor _ _ _ (so_live s H)). Qed.

(** The invariant with the frame: the form in which operations compose. *)
Definition drawn (s s' : VtScreen) : Prop := screen_ok s' /\ same_frame s s'.

Lemma same_frame_dims s s' : same_frame s s' -> vs_rows s' = vs_rows s /\ vs_cols s' = vs_cols s.
Proof. intros ->. done. Qed.

Lemma same_frame_trans s1 s2 s3 : same_frame s1 s2 -> same_frame s2 s3 -> same_frame s1 s3.
Proof. unfold same_frame. intros H1 H2. rewrite H2. cbn. rewrite H1. by destruct s1. Qed.

Lemma same_frame_refl s : same_frame s s.
Proof. by destruct s. Qed.

Lemma drawn_live s b :
  screen_ok s -> buffer_ok (vs_rows s) (vs_cols s) b -> drawn s (set_live b s).
Proof. intros Hs Hb. split; [by apply screen_ok_live|]. done. Qed.

Lemma drawn_trans s1 s2 s3 : drawn s1 s2 -> drawn s2 s3 -> drawn s1 s3.
Proof. intros [_ H1] [Hok H2]. split; [done|]. by eapply same_frame_trans. Qed.

Section screens.

Lemma total_on_grid s f :
  screen_ok s ->
  total (f (vs_grid s)) (fun g => length g = vs_rows s /\ Forall (line_ok (vs_cols s)) g) ->
  total (on_grid f s) (fun s' => exists g, s' = on_live (set_sb_grid g) s /\ drawn s s').
Proof.
  intros Hs Hf. unfold on_grid. eapply total_bind; [exact Hf|]. intros g [Hl Hg]. cbn.
  exists g. split; [done|]. apply drawn_live; [done|]. apply set_grid_ok; [apply Hs|done..].
Qed.

Lemma grid_modify rows cols i f g :
  length g = rows -> Forall (line_ok cols) g -> i < rows ->
  (forall cells, line_ok cols cells -> total (f cells) (line_ok cols)) ->
  total (modify i f g) (fun g => length g = rows /\ Forall (line_ok cols) g).
Proof.
  intros Hl Hg Hi Hf. eapply total_mono.
  - apply (total_modify i f g (line_ok cols)); [lia|]. intros x Hx. apply Hf.
    by apply (Forall_lookup_1 _ _ _ _ Hg Hx).
  - intros g' (y & Hy & ->). split; [by rewrite length_insert|by apply Forall_insert].
Qed.

Lemma total_on_row s i f :
  screen_ok s -> i < vs_rows s ->
  (forall cells, line_ok (vs_cols s) cells -> total (f cells) (line_ok (vs_cols s))) ->
  total (on_row i f s) (fun s' => exists g, s' = on_live (set_sb_grid g) s /\ drawn s s').
Proof.
  intros Hs Hi Hf. apply total_on_grid; [done|]. apply grid_modify; try done; apply Hs.
Qed.

(** *** Scrolling *)
Lemma grid_shift rows cols i j g g' r :
  length g = rows -> Forall (line_ok cols) g -> i < rows -> j < rows -> line_ok cols r ->
  g' = take i g ++ drop (S i) g ->
  length (take j g' ++ r :: drop j g') = rows /\ Forall (line_ok cols) (take j g' ++ r :: drop j g').
Proof.
  intros Hl Hg Hi Hj Hr ->. split.
  - rewrite length_app. cbn. rewrite length_take, length_drop, length_app, length_take, length_drop. lia.
  - assert (Hf : Forall (line_ok cols) (take i g ++ drop (S i) g))
      by (apply Forall_app; split; [by apply Forall_take|by apply Forall_drop]).
    apply Forall_app. split; [by apply Forall_take|]. constructor; [done|by apply Forall_drop].
Qed.

Lemma append_scrollback_ok cols cells rows :
  line_ok cols cells -> Forall (line_ok cols) rows -> (N.of_nat (length rows) <= SCROLLBACK_MAX)%N ->
  Forall (line_ok cols) (append_scrollback SCROLLBACK_MAX cells rows).1 /\
  (N.of_nat (length (append_scrollback SCROLLBACK_MAX cells rows).1) <= SCROLLBACK_MAX)%N.
Proof.
  intros Hc Hr Hl. unfold append_scrollback. change (SCROLLBACK_MAX =? 0)%N with false. cbn [negb].
  destruct (SCROLLBACK_MAX <=? N.of_nat (length rows))%N eqn:E; cbn [fst].
  - apply N.leb_le in E. split.
    + apply Forall_app. split; [by apply Forall_drop|by constructor].
    + rewrite length_app, length_drop. cbn [length]. unfold SCROLLBACK_MAX in *. lia.
  - apply N.leb_gt in E. split; [apply Forall_app; by split; [|constructor]|].
    rewrite length_app. cbn [length]. lia.
Qed.

(** A scroll keeps the cursor and the region, so it can be repeated. *)
Record scrolled (s s' : VtScreen) : Prop := {
  sd_ok : screen_ok s';
  sd_rows : vs_rows s' = vs_rows s;
  sd_cols : vs_cols s' = vs_cols s;
  sd_cursor : cursor s' = cursor s;
  sd_primary : vs_primary_screen s' = vs_primary_screen s
}.

Lemma scrolled_refl s : screen_ok s -> scrolled s s.
Proof. by split. Qed.
Lemma scrolled_trans s1 s2 s3 : scrolled s1 s2 -> scrolled s2 s3 -> scrolled s1 s3.
Proof. intros [] []. split; congruence. Qed.

Lemma scroll_row_up_total s : screen_ok s -> total (scroll_row_up s) (scrolled s).
Proof.
  intros Hs. assert (Hb := so_live s Hs). open_buffer Hb. unfold scroll_row_up.
  eapply total_bind; [apply total_remove; lia|]. intros [cells g] [Hx Hg].
  assert (Hcells := Forall_lookup_1 _ _ _ _ Hgrid Hx).
  destruct (grid_shift (vs_rows s) (vs_cols s) (sb_scroll_top (vs_live s))
              (sb_scroll_bottom (vs_live s)) (vs_grid s) g (blank_row (vs_cols s)))
    as [Hl' Hg']; [done|done|lia|lia|apply line_blank|done|].
  assert (Hgl : sb_scroll_bottom (vs_live s) <= length g).
  { rewrite Hg, length_app, length_take, length_drop. lia. }
  destruct (append_scrollback_ok (vs_cols s) cells (sb_scrollback (vs_live s))) as [Ha1 Ha2]; [done..|].
  change (is_primary (on_live (set_sb_grid g) s)) with (is_primary s).
  destruct (is_primary s && (sb_scroll_top (vs_live s) =? 0));
    [destruct (append_scrollback _ _ _) as [rows [|]]|];
    (eapply total_bind; [by apply total_insert_at|]; cbn beta; intros g2 <-;
     split; [|done..]; destruct Hs; split; try done; split; done).
Qed.

Lemma scroll_row_down_total s : screen_ok s -> total (scroll_row_down s) (scrolled s).
Proof.
  intros Hs. assert (Hb := so_live s Hs). open_buffer Hb. unfold scroll_row_down.
  eapply total_bind; [apply total_remove; lia|]. intros [cells g] [Hx Hg].
  destruct (grid_shift (vs_rows s) (vs_cols s) (sb_scroll_bottom (vs_live s))
              (sb_scroll_top (vs_live s)) (vs_grid s) g (blank_row (vs_cols s)))
    as [Hl' Hg']; [done|done|lia|lia|apply line_blank|done|].
  eapply total_bind.
  { apply total_insert_at. rewrite Hg, length_app, length_take, length_drop. lia. }
  cbn beta. intros g2 <-. split; [|done..]. destruct Hs. split; try done; split; done.
Qed.

Lemma repeat_scroll step range s :
  (forall s, screen_ok s -> total (step s) (scrolled s)) -> screen_ok s ->
  total (for_each (fun _ => step) range s) (scrolled s).
Proof.
  intros Hstep Hs. apply total_for_each; [|by apply scrolled_refl].
  intros _ s' _ Hs'. eapply total_mono; [apply Hstep, Hs'|]. intros s'' H.
  by eapply scrolled_trans.
Qed.

Lemma scroll_region_up_total n s : screen_ok s -> total (scroll_region_up n s) (scrolled s).
Proof. apply repeat_scroll, scroll_row_up_total. Qed.
Lemma scroll_down_total n s : screen_ok s -> total (scroll_down n s) (scrolled s).
Proof. apply repeat_scroll, scroll_row_down_total. Qed.
End screens.

(** ** Operations *)
Lemma str_len_ascii t : Forall (fun c => (c < 128)%N) t -> str_len t = N.of_nat (length t).
Proof.
  induction 1 as [|c t Hc _ IH]; [done|]. cbn [str_len foldr length]. fold (str_len t). rewrite IH.
  unfold len_utf8. rewrite (proj2 (N.ltb_lt c 128) Hc). lia.
Qed.

Lemma str_len_snoc t c : (c < 128)%N -> str_len (t ++ [c]) = (str_len t + 1)%N.
Proof.
  intros Hc. induction t as [|d t IH]; cbn [str_len foldr app].
  - unfold len_utf8. rewrite (proj2 (N.ltb_lt c 128) Hc). lia.
  - unfold str_len in IH. rewrite IH. lia.
Qed.

Lemma canonical_style_ok st : sgr_ok st -> style_ok (canonical st).
Proof.
  intros H. unfold style_ok. rewrite str_len_ascii by apply canonical_ascii.
  assert (Hl := canonical_length st H). unfold STYLE_BYTES_MAX, PARAMS_MAX. lia.
Qed.

Lemma clamp_rows_bounds n : 1 <= clamp_rows n /\ (N.of_nat (clamp_rows n) <= ROWS_MAX)%N.
Proof. unfold clamp_rows, ROWS_MAX. lia. Qed.
Lemma clamp_cols_bounds n : 1 <= clamp_cols n /\ (N.of_nat (clamp_cols n) <= COLS_MAX)%N.
Proof. unfold clamp_cols, COLS_MAX. lia. Qed.

Lemma blank_buffer_ok rows cols : 1 <= rows -> buffer_ok rows cols (blank_buffer rows cols).
Proof.
  intros H. split; cbn; try done.
  - apply length_replicate.
  - apply Forall_replicate, line_blank.
  - split; cbn; lia.
  - lia.
Qed.

Section operations.

Lemma resize_buffer_ok rows cols old_rows old_cols b :
  1 <= rows -> buffer_ok old_rows old_cols b -> buffer_ok rows cols (resize_buffer rows cols old_rows b).
Proof.
  intros Hr Hb. open_buffer Hb.
  assert (Hrows : forall l, Forall (line_ok old_cols) l -> Forall (line_ok cols) (resize_row cols <$> l)).
  { intros l Hl. apply Forall_fmap, (Forall_impl _ _ _ Hl). intros r. apply line_resize. }
  split; cbn [resize_buffer sb_grid sb_scrollback sb_cursor_row sb_cursor_col sb_saved_cursor
              sb_scroll_top sb_scroll_bottom sb_style].
  - apply length_fit.
  - apply Forall_fit; [by apply Hrows, Forall_take|apply line_blank].
  - by apply Hrows.
  - by rewrite length_fmap.
  - split; cbn; lia.
  - destruct (sb_saved_cursor b) as [[r c]|]; [|done]. split; cbn; lia.
  - repeat case_match; try lia.
    all: try (match goal with E : (_ <=? _) = false |- _ => apply Nat.leb_gt in E end; lia).
  - done.
Qed.

Lemma resize_ok rows cols s : screen_ok s -> screen_ok (resize rows cols s).
Proof.
  intros Hs. unfold resize. destruct (_ && _); [done|].
  assert (Hr := clamp_rows_bounds rows). assert (Hc := clamp_cols_bounds cols).
  destruct Hs. split; cbn; try done.
  - eapply resize_buffer_ok; [apply Hr|done].
  - destruct (vs_primary_screen s); cbn in *; [eapply resize_buffer_ok; [apply Hr|done]|done].
Qed.

Lemma line_feed_total s : screen_ok s ->
  total (line_feed s) (fun s' => screen_ok s' /\ vs_rows s' = vs_rows s /\ vs_cols s' = vs_cols s /\
                                 vs_cursor_col s' = vs_cursor_col s).
Proof.
  intros Hs. assert (Hr := bo_region _ _ _ (so_live s Hs)). unfold line_feed.
  destruct (sb_scroll_bottom (vs_live s) <=? vs_cursor_row s) eqn:E.
  - eapply total_mono; [by apply scroll_region_up_total|]. intros s' [H1 H2 H3 H4 _].
    unfold cursor in H4. injection H4 as H5 H6. done.
  - apply Nat.leb_gt in E. cbn. split; [|done]. apply set_cursor_row_ok; [done|lia].
Qed.

Lemma reverse_index_total s : screen_ok s -> total (reverse_index s) screen_ok.
Proof.
  intros Hs. unfold reverse_index. destruct (_ =? _).
  - eapply total_mono; [by apply scroll_down_total|]. by intros s' [].
  - apply set_cursor_row_ok; [done|]. assert (H := cursor_row_in s Hs). lia.
Qed.

Lemma wrap_line_total s : screen_ok s ->
  total (wrap_line s) (fun s' => screen_ok s' /\ vs_cols s' = vs_cols s /\ vs_cursor_col s' = 0).
Proof.
  intros Hs. assert (Hc := so_cols s Hs). unfold wrap_line. eapply total_bind.
  { apply total_on_row; [done|by apply cursor_row_in|]. intros cells Hr.
    apply line_wrap; [lia|done]. }
  cbn beta. intros s1 (g & -> & H1 & _). eapply total_mono.
  { apply line_feed_total, set_cursor_col_ok; [done|]. cbn. lia. }
  intros s2 (H2 & _ & H3 & H4). split_and!; [done|by rewrite H3|by rewrite H4].
Qed.

Lemma print_total ch s : screen_ok s -> total (print ch s) screen_ok.
Proof.
  intros Hs. assert (Hc := so_cols s Hs). unfold print. fold (fitted (vs_cols s) ch).
  assert (Hput := fun column style cells => line_put (vs_cols s) ch style column cells).
  assert (Hw : (fitted (vs_cols s) ch).2 <= vs_cols s).
  { unfold fitted. destruct (vs_cols s <? glyph_width ch) eqn:E; cbn; [lia|]. by apply Nat.ltb_ge in E. }
  destruct (fitted (vs_cols s) ch) as [ch' width]. cbn [fst snd] in Hw, Hput.
  eapply total_bind with (P := fun s' => screen_ok s' /\ vs_cols s' = vs_cols s /\
                                         vs_cursor_col s' + width <= vs_cols s).
  { destruct (_ || _) eqn:E.
    - eapply total_mono; [by apply wrap_line_total|]. intros s' (H1 & H2 & ->). split_and!; try done; lia.
    - apply orb_false_iff in E as [E1%Nat.leb_gt E2%Nat.ltb_ge]. cbn. done. }
  cbn beta. intros s1 (H1 & H2 & H3). eapply total_bind.
  { apply total_on_row; [done|by apply cursor_row_in|]. intros cells Hr. rewrite H2 in Hr |- *.
    apply Hput; [done| |done]. apply (bo_style _ _ _ (so_live s1 H1)). }
  cbn beta. intros s2 (g & -> & H4 & _). apply set_cursor_col_ok; [done|]. cbn. by rewrite H2.
Qed.
End operations.

Section decoder.

(** *** Fields outside the buffers *)
Ltac field_ok := intros Hs **; destruct Hs; split; cbn; try done; try lia.

Lemma set_phase_ok p s : screen_ok s -> screen_ok (set_phase p s).
Proof. field_ok. Qed.
Lemma set_params_ok t s : screen_ok s -> (str_len t <= PARAMS_MAX)%N -> screen_ok (set_params t s).
Proof. field_ok. Qed.
Lemma set_pending_ok l s : screen_ok s -> length l <= pending_max -> screen_ok (set_utf8_pending l s).
Proof. field_ok. Qed.
Lemma set_needed_ok n s : screen_ok s -> n <= 4 -> screen_ok (set_utf8_needed n s).
Proof. field_ok. Qed.
Lemma set_application_cursor_ok b s : screen_ok s -> screen_ok (set_application_cursor b s).
Proof. field_ok. Qed.
Lemma set_bracketed_paste_ok b s : screen_ok s -> screen_ok (set_bracketed_paste b s).
Proof. field_ok. Qed.
Lemma set_mouse_mode_ok m s : screen_ok s -> screen_ok (set_mouse_protocol_mode m s).
Proof. field_ok. Qed.
Lemma set_mouse_encoding_ok m s : screen_ok s -> screen_ok (set_mouse_encoding m s).
Proof. field_ok. Qed.
Lemma set_motions_ok l s : screen_ok s -> screen_ok (set_retained_row_motions l s).
Proof. field_ok. Qed.
Lemma set_hidden_ok o s : screen_ok s ->
  (N.of_nat (from_option length 0%nat o) <= SYNCHRONIZED_OUTPUT_MAX)%N ->
  screen_ok (set_synchronized_output o s).
Proof. field_ok. Qed.

#[local] Hint Resolve set_phase_ok set_params_ok set_pending_ok set_needed_ok set_application_cursor_ok
  set_bracketed_paste_ok set_mouse_mode_ok set_mouse_encoding_ok set_motions_ok
  set_hidden_ok : usagi.

Lemma clear_utf8_ok s : screen_ok s -> screen_ok (clear_utf8 s).
Proof. intros. apply set_needed_ok; [apply set_pending_ok|]; cbn; auto; lia. Qed.

(** *** Modes *)
Lemma enter_alternate_ok s : screen_ok s -> screen_ok (enter_alternate_screen s).
Proof.
  intros Hs. unfold enter_alternate_screen. destruct (vs_primary_screen s); [done|].
  destruct Hs. split; cbn; try done. apply blank_buffer_ok. lia.
Qed.

Lemma leave_alternate_ok s : screen_ok s -> screen_ok (leave_alternate_screen s).
Proof.
  intros Hs. unfold leave_alternate_screen. destruct (vs_primary_screen s) as [p|] eqn:E; [|done].
  destruct Hs as [? ? ? Hp]. rewrite E in Hp. by split.
Qed.
#[local] Hint Resolve enter_alternate_ok leave_alternate_ok : usagi.

Lemma set_private_mode_ok s mode : screen_ok s -> screen_ok (set_private_mode s mode).
Proof.
  intros Hs. unfold set_private_mode. repeat case_match; auto with usagi.
  apply set_hidden_ok; [done|]. by vm_compute.
Qed.

Lemma reset_private_mode_ok s mode : screen_ok s -> screen_ok (reset_private_mode s mode).
Proof.
  intros Hs. unfold reset_private_mode, reset_mouse_mode, reset_mouse_encoding.
  repeat case_match; auto with usagi.
Qed.

Lemma foldl_ok {A} (f : VtScreen -> A -> VtScreen) l s :
  (forall s a, screen_ok s -> screen_ok (f s a)) -> screen_ok s -> screen_ok (foldl f s l).
Proof. intros Hf. revert s. induction l; cbn; auto. Qed.

(** *** Cursor, rendition and region *)
Lemma restore_cursor_ok s : screen_ok s -> screen_ok (restore_cursor s).
Proof.
  intros Hs. unfold restore_cursor. assert (H := bo_saved _ _ _ (so_live s Hs)).
  destruct (sb_saved_cursor (vs_live s)) as [[r c]|]; [|done]. destruct H as [H1 H2]. cbn in H1, H2.
  apply set_cursor_col_ok; [|done]. by apply set_cursor_row_ok.
Qed.

Lemma save_cursor_ok s : screen_ok s -> screen_ok (save_cursor s).
Proof.
  intros Hs. apply screen_ok_live; [done|]. assert (Hb := so_live s Hs). open_buffer Hb. by split.
Qed.

Lemma sgr_screen_ok s : screen_ok s -> screen_ok (sgr s).
Proof.
  intros Hs. apply screen_ok_live; [done|]. assert (Hb := so_live s Hs). open_buffer Hb.
  split; try done. apply canonical_style_ok, sgr_apply_ok, from_style_ok.
Qed.

Lemma coordinate_lt p size : 1 <= size -> coordinate p size < size.
Proof. unfold coordinate. lia. Qed.
Lemma advanced_lt from p size : 1 <= size -> advanced from p size < size.
Proof. unfold advanced. lia. Qed.
Lemma receded_le from p : receded from p <= from.
Proof. unfold receded. lia. Qed.

Lemma set_scroll_region_ok s : screen_ok s -> screen_ok (set_scroll_region s).
Proof.
  intros Hs. unfold set_scroll_region. destruct (so_rows s Hs) as [Hr _].
  set (top := coordinate _ _). set (bottom := coordinate (param 1 _ s) _).
  assert (Hb : bottom < vs_rows s) by by apply coordinate_lt. clearbody top bottom.
  apply screen_ok_live; [done|]. assert (Hl := so_live s Hs). open_buffer Hl.
  destruct (top <? bottom) eqn:E; cbn; [apply Nat.ltb_lt in E|]; split; cbn; try done; try lia;
    split; cbn; lia.
Qed.

Lemma tab_ok s : screen_ok s -> screen_ok (tab s).
Proof. intros Hs. apply set_cursor_col_ok; [done|]. lia. Qed.

(** *** Erasing *)
Lemma total_screen_grid s f :
  screen_ok s ->
  total (f (vs_grid s)) (fun g => length g = vs_rows s /\ Forall (line_ok (vs_cols s)) g) ->
  total (on_grid f s) screen_ok.
Proof.
  intros Hs Hf. eapply total_mono; [by apply total_on_grid|]. by intros s' (g & _ & H & _).
Qed.

Lemma total_cursor_row s f :
  screen_ok s ->
  (forall cells, line_ok (vs_cols s) cells -> total (f cells) (line_ok (vs_cols s))) ->
  total (on_row (vs_cursor_row s) f s) screen_ok.
Proof.
  intros Hs Hf. eapply total_mono; [by apply total_on_row; [|apply cursor_row_in|]|].
  by intros s' (g & _ & H & _).
Qed.

Lemma erase_line_total s : screen_ok s -> total (erase_line s) screen_ok.
Proof.
  intros Hs. unfold erase_line. repeat case_match; apply total_cursor_row; try done;
    intros; by apply line_clear.
Qed.

Lemma blank_rows_total rows cols a b g :
  length g = rows -> Forall (line_ok cols) g -> b <= rows ->
  total (for_each blank_row_at (range a b) g) (fun g => length g = rows /\ Forall (line_ok cols) g).
Proof.
  intros Hl Hg Hb. apply total_for_each; [|done]. intros i g' Hi [Hl' Hg'].
  apply elem_of_range in Hi. apply grid_modify; [done|done|lia|]. intros cells [[Hc _] _]. cbn.
  rewrite Hc. apply line_blank.
Qed.

Lemma erase_display_total s : screen_ok s -> total (erase_display s) screen_ok.
Proof.
  intros Hs. assert (Hr := cursor_row_in s Hs). assert (Hb := so_live s Hs). open_buffer Hb.
  unfold erase_display. apply total_screen_grid; [done|]. cbn beta.
  destruct (_ =? 1)%N; [|destruct (_ =? 2)%N].
  - eapply total_bind; [apply (blank_rows_total (vs_rows s) (vs_cols s)); [done|done|lia]|].
    intros g [Hl Hg].
    apply grid_modify; try done. intros. by apply line_clear.
  - by apply blank_rows_total.
  - eapply total_bind.
    { apply (grid_modify (vs_rows s) (vs_cols s)); try done. intros. by apply line_clear. }
    intros g [Hl Hg]. by apply blank_rows_total.
Qed.

Lemma edit_bounds s : screen_ok s -> 0 < edit_count s /\ edit_start s + edit_count s <= vs_cols s.
Proof.
  intros Hs. destruct (so_cols s Hs) as [Hc _]. unfold edit_count, edit_start.
  generalize (param 0 1 s). intros p. lia.
Qed.

Lemma delete_characters_total s : screen_ok s -> total (delete_characters s) screen_ok.
Proof.
  intros Hs. destruct (edit_bounds s Hs). apply total_cursor_row; [done|].
  intros. by apply line_delete.
Qed.

Lemma erase_characters_total s : screen_ok s -> total (erase_characters s) screen_ok.
Proof. intros Hs. apply total_cursor_row; [done|]. intros. by apply line_clear. Qed.

(** *** The decoder *)
Ltac quietly lem := eapply total_bind; [by apply lem|]; intros ? ?; done.

Lemma dispatch_csi_total final s : screen_ok s -> total (dispatch_csi final s) (fun p => screen_ok p.1).
Proof.
  intros Hs. destruct (so_rows s Hs) as [Hr _]. destruct (so_cols s Hs) as [Hc _].
  assert (Hcr := cursor_row_in s Hs). assert (Hcc := cursor_col_in s Hs).
  assert (Hcol : forall c, c < vs_cols s -> screen_ok (set_cursor_col c s)).
  { intros c H. apply set_cursor_col_ok; [done|lia]. }
  unfold dispatch_csi. cbn zeta.
  repeat match goal with
  | |- total (if ?b then _ else _) _ => destruct b; [try (cbn [total fst])|]
  end.
  - apply set_cursor_row_ok; [done|]. assert (H := receded_le (vs_cursor_row s) (param 0 1 s)). lia.
  - apply set_cursor_row_ok; [done|]. by apply advanced_lt.
  - apply Hcol. by apply advanced_lt.
  - apply set_cursor_col_ok; [done|]. assert (H := receded_le (vs_cursor_col s) (param 0 1 s)). lia.
  - apply Hcol. by apply coordinate_lt.
  - apply set_cursor_row_ok; [done|]. by apply coordinate_lt.
  - apply set_cursor_col_ok; [apply set_cursor_row_ok; [done|]; by apply coordinate_lt|].
    apply Nat.lt_le_incl. by apply (coordinate_lt (param 1 1 s) (vs_cols s)).
  - quietly erase_line_total.
  - quietly erase_display_total.
  - quietly delete_characters_total.
  - quietly erase_characters_total.
  - by apply set_scroll_region_ok.
  - eapply total_bind; [by apply scroll_region_up_total|]. by intros ? [].
  - eapply total_bind; [by apply scroll_down_total|]. by intros ? [].
  - by apply sgr_screen_ok.
  - by apply save_cursor_ok.
  - by apply restore_cursor_ok.
  - apply foldl_ok; [apply set_private_mode_ok|done].
  - apply foldl_ok; [apply reset_private_mode_ok|done].
  - done.
  - done.
Qed.

End decoder.
End bounded.

#[local] Notation sound := (screen_ok 3 false).

Lemma set_replaying_ok k r r' s :
  screen_ok k r s -> screen_ok k r' (set_replaying_synchronized_output r' s).
Proof. intros []. by split. Qed.

Lemma new_ok rows cols : sound (new rows cols).
Proof.
  assert (Hr := clamp_rows_bounds rows). assert (Hc := clamp_cols_bounds cols).
  split; cbn; try done; try lia. apply blank_buffer_ok. lia.
Qed.

Section decoder.

Lemma screen_ok_pending k k' r s :
  screen_ok k r s -> length (vs_utf8_pending s) <= k' -> screen_ok k' r s.
Proof. intros [] H. by split. Qed.

Lemma flush_utf8_total k r s : screen_ok k r s -> total (flush_utf8 s) (screen_ok 3 r).
Proof.
  intros Hs. unfold flush_utf8. apply (total_bind _ _ (screen_ok k r)).
  - repeat case_match; try done. by apply print_total.
  - intros s' Hs'. eapply screen_ok_pending; [by apply clear_utf8_ok|]. cbn. lia.
Qed.

Lemma utf8_len_le b : utf8_len b <= 4.
Proof. unfold utf8_len. repeat case_match; lia. Qed.

Lemma ground_byte_total r b s :
  screen_ok 3 r s -> vs_utf8_pending s = [] -> total (ground_byte b s) (screen_ok 3 r).
Proof.
  intros Hs Hp. unfold ground_byte.
  repeat match goal with
  | |- total (if ?b then _ else _) _ => destruct b; [try (cbn [total])|]
  end; try done.
  - by apply set_phase_ok.
  - apply set_cursor_col_ok; [done|lia].
  - eapply total_mono; [by apply line_feed_total|]. by intros ? [].
  - apply set_cursor_col_ok; [done|]. assert (H := cursor_col_in _ _ s Hs). lia.
  - by apply tab_ok.
  - by apply print_total.
  - apply set_pending_ok; [apply set_needed_ok; [done|apply utf8_len_le]|]. rewrite Hp. cbn. lia.
Qed.

Lemma ground_total r b s : screen_ok 3 r s -> total (ground b s) (screen_ok 3 r).
Proof.
  intros Hs. assert (Hn := so_needed _ _ s Hs). assert (Hp := so_pending _ _ s Hs). unfold ground.
  destruct (vs_utf8_pending s) as [|p pending] eqn:E; cbn [is_empty negb].
  { by apply ground_byte_total. }
  destruct (continuation_byte b); [|apply ground_byte_total; [by apply clear_utf8_ok|done]].
  assert (Hl : length ((p :: pending) ++ [b]) <= 4) by (rewrite length_app; cbn in *; lia).
  cbv zeta. destruct (_ <=? _) eqn:Efull.
  - apply (flush_utf8_total 4 r). apply set_pending_ok; [|done].
    eapply screen_ok_pending; [done|]. rewrite E. cbn in *. lia.
  - apply Nat.leb_gt in Efull. cbn [total]. cbn [vs_utf8_needed vs_utf8_pending set_utf8_pending] in Efull.
    apply set_pending_ok; [done|]. lia.
Qed.

Lemma escape_byte_total r b s : screen_ok 3 r s -> total (escape_byte b s) (screen_ok 3 r).
Proof.
  intros Hs. unfold escape_byte.
  repeat match goal with
  | |- total (if ?b then _ else _) _ => destruct b; [try (cbn [total])|]
  end; try by apply set_phase_ok.
  - apply set_phase_ok, set_params_ok; [done|]. by vm_compute.
  - by apply set_phase_ok, save_cursor_ok.
  - by apply set_phase_ok, restore_cursor_ok.
  - eapply total_bind; [by apply reverse_index_total|]. intros s' Hs'. by apply set_phase_ok.
Qed.

Lemma csi_total r b s : screen_ok 3 r s -> total (csi b s) (fun p => screen_ok 3 r p.1).
Proof.
  intros Hs. unfold csi. destruct (in_range 32 63 b) eqn:E.
  - destruct (_ <? _)%N eqn:El; cbn [total fst].
    + apply set_params_ok; [done|]. apply in_range_true in E. apply N.ltb_lt in El.
      rewrite str_len_snoc by lia. unfold PARAMS_MAX in *. lia.
    + apply set_phase_ok, set_params_ok; [done|]. by vm_compute.
  - destruct (in_range 64 126 b); [|by apply set_phase_ok].
    eapply total_bind; [by apply dispatch_csi_total|]. intros [s' replies] Hs'. by apply set_phase_ok.
Qed.

Lemma feed_parsed_total r b s : screen_ok 3 r s -> total (feed_parsed b s) (fun p => screen_ok 3 r p.1).
Proof.
  intros Hs. unfold feed_parsed. destruct (vs_phase s).
  - eapply total_bind; [by apply ground_total|]. done.
  - eapply total_bind; [by apply escape_byte_total|]. done.
  - by apply csi_total.
  - cbn. unfold csi_overflow. destruct (in_range _ _ _); [by apply set_phase_ok|done].
  - cbn. unfold osc. repeat case_match; [by apply set_phase_ok..|done].
  - by apply set_phase_ok.
Qed.

Lemma feed_all_total r step bytes s :
  (forall b s, screen_ok 3 r s -> total (step b s) (fun p => screen_ok 3 r p.1)) ->
  screen_ok 3 r s -> total (feed_all step bytes s) (fun p => screen_ok 3 r p.1).
Proof.
  intros Hstep. revert s. induction bytes as [|b bytes IH]; intros s Hs; cbn [feed_all]; [done|].
  eapply total_bind; [by apply Hstep|]. intros [s1 r1] H1.
  eapply total_bind; [by apply IH|]. by intros [s2 r2] H2.
Qed.

Lemma commit_total s : sound (set_synchronized_output None s) ->
  total (commit_synchronized_output s) (fun p => sound p.1).
Proof.
  intros Hs. unfold commit_synchronized_output. eapply total_bind.
  { apply (feed_all_total true); [apply feed_parsed_total|]. by eapply set_replaying_ok. }
  intros [s' r] H. by eapply set_replaying_ok.
Qed.

Lemma feed_total b s : sound s -> total (feed b s) (fun p => sound p.1).
Proof.
  intros Hs. unfold feed. destruct (vs_synchronized_output s) as [pending|] eqn:E;
    [|by apply feed_parsed_total].
  destruct (vs_replaying_synchronized_output s); [by apply feed_parsed_total|]. cbv zeta.
  destruct (_ || _) eqn:Ef.
  - apply commit_total. change (sound (set_synchronized_output None s)).
    apply set_hidden_ok; [done|]. by vm_compute.
  - apply orb_false_iff in Ef as [_ Hl%N.ltb_ge]. cbn [total fst].
    by apply set_hidden_ok.
Qed.

Lemma advance_motions_total bytes s : sound s ->
  total (advance_with_replies_and_row_motions bytes s) (fun p => sound p.1).
Proof.
  intros Hs. unfold advance_with_replies_and_row_motions. eapply total_bind.
  { apply (feed_all_total false); [apply feed_total|]. by apply set_motions_ok. }
  intros [s' r] H. by apply set_motions_ok.
Qed.

Lemma advance_total bytes s : sound s -> total (advance bytes s) sound.
Proof.
  intros Hs. unfold advance. eapply total_bind; [by apply advance_motions_total|].
  by intros [s' [r m]].
Qed.
End decoder.

(** ** Runs *)
Lemma trim_buffer_ok rows cols keep b :
  buffer_ok rows cols b -> buffer_ok rows cols (trim_buffer keep b).1.
Proof.
  intros Hb. open_buffer Hb. split; cbn; try done.
  - by apply Forall_drop.
  - rewrite length_drop. lia.
Qed.

Lemma trim_to_cells_ok k r n s : screen_ok k r s -> screen_ok k r (trim_to_cells n s).1.
Proof.
  intros Hs. unfold trim_to_cells. set (keep := ((_ / _ - _) / _)%N). clearbody keep.
  destruct Hs as [? ? Hl Hp ? ? ? ?].
  assert (Hl' := trim_buffer_ok _ _ keep _ Hl). destruct (trim_buffer keep (vs_live s)) as [b d].
  change (vs_primary_screen (set_live b s)) with (vs_primary_screen s).
  destruct (vs_primary_screen s) as [p|] eqn:E; cbn [fst from_option] in *.
  - assert (Hp' := trim_buffer_ok _ _ keep _ Hp). destruct (trim_buffer keep p) as [pb pd].
    by split.
  - split; try done. cbn. by rewrite E.
Qed.

Lemma clear_primary_ok s : sound s -> sound (clear_primary_for_user s).1.
Proof.
  intros Hs. unfold clear_primary_for_user. destruct (vs_primary_screen s) eqn:E; [done|].
  destruct Hs as [Hr ? Hb ? ? ? ? ?]. split; cbn; try done; [|lia..].
  open_buffer Hb. split; cbn; try done; try lia.
  - by rewrite length_fmap.
  - apply Forall_fmap, (Forall_impl _ _ _ Hgrid). intros cells [[<- _] _]. apply line_blank.
  - split; cbn; lia.
Qed.

Lemma screen_op_total op s : sound s -> total (screen_op op s) sound.
Proof.
  intros Hs. destruct op; cbn [screen_op].
  - by apply advance_total.
  - by apply resize_ok.
  - by apply trim_to_cells_ok.
  - by apply clear_primary_ok.
Qed.

Lemma screen_ops_total ops s : sound s -> total (screen_ops ops s) sound.
Proof.
  revert s. induction ops as [|op ops IH]; intros s Hs; cbn [screen_ops]; [done|].
  eapply total_bind; [by apply screen_op_total|]. intros s' Hs'. by apply IH.
Qed.
End shaped.

(** The invariant without a shape. *)
Notation vt_ok := (screen_ok (R := any_shape) 3 false).

(** C7: no terminal output and no sequence of resizes, trims and clears makes
    the interpreter index outside its grid: from a new screen every operation
    returns, with every row exactly as wide as the grid, the cursors and the
    scroll region inside it and the history and pending input within their
    bounds. *)
Theorem vt_never_panics {U : UnicodeWidth} rows cols ops :
  exists s, screen_ops ops (new rows cols) = Some s /\ vt_ok s.
Proof. apply total_Some, screen_ops_total, new_ok. Qed.
