(* ===== verification/VtRoundTrip.v ===== *)
(** * A checkpoint restores the screen it was taken from

    The encoder interns every style of both buffers into one table and
    run-length encodes the rows; the decoder checks every bound before it
    allocates.  On every well formed screen between two bytes the decoder
    accepts the encoder's output and returns the screen itself, so a client that
    restores a checkpoint and feeds the later bytes holds the same screen as the
    daemon.  Conversely whatever the decoder accepts is a well formed screen. *)
From S2P Require Export VtCheckpoint VtScreenLaws.

Section round_trip.
Context {U : UnicodeWidth}.
#[local] Existing Instance any_shape.

(** ** The interner *)
Definition si_ok (si : StyleInterner) : Prop :=
  (forall style id, si_ids si !! style = Some id -> si_table si !! N.to_nat id = Some style) /\
  Forall style_ok (si_table si).

(** Room for [n] more styles. *)
Definition room (n : nat) (si : StyleInterner) : Prop :=
  (N.of_nat (length (si_table si) + n) <= STYLES_MAX)%N.

(** One interner extends another by at most [n] styles. *)
Record grows (n : nat) (si si' : StyleInterner) : Prop := {
  gr_ok : si_ok si';
  gr_prefix : si_table si `prefix_of` si_table si';
  gr_length : length (si_table si') <= length (si_table si) + n
}.

Lemma grows_refl si : si_ok si -> grows 0 si si.
Proof. intros H. by split; [| |lia]. Qed.

Lemma grows_trans n m si1 si2 si3 : grows n si1 si2 -> grows m si2 si3 -> grows (n + m) si1 si3.
Proof. intros [_ Hp1 Hl1] [Hok Hp2 Hl2]. split; [done|by etrans|lia]. Qed.

Lemma grows_room n m si si' : grows n si si' -> room (n + m) si -> room m si'.
Proof. intros [_ _ H]. unfold room. lia. Qed.

Lemma as_u32_small n : (N.of_nat n <= U32_MAX)%N -> as_u32 n = N.of_nat n.
Proof. intros H. unfold as_u32. apply N.mod_small. unfold U32_MAX in H. lia. Qed.

(** [style_at] of an id issued before the table was complete. *)
Definition issued (table : list text) (id : N) (style : text) : Prop :=
  table !! N.to_nat id = Some style.

Lemma issued_prefix t t' id style : t `prefix_of` t' -> issued t id style -> issued t' id style.
Proof. intros Hp Hi. by apply (prefix_lookup_Some t). Qed.

Lemma issued_style_at t id style : issued t id style -> style_at t id = style.
Proof. intros H. unfold style_at. by rewrite H. Qed.

Lemma issued_lt t id style : issued t id style -> (id < N.of_nat (length t))%N.
Proof. intros H%lookup_lt_Some. lia. Qed.

Lemma intern_grows style si : si_ok si -> style_ok style -> room 1 si ->
  let '(id, si') := intern style si in grows 1 si si' /\ issued (si_table si') id style.
Proof.
  intros [Hids Hst] Hs Hroom. unfold intern. destruct (si_ids si !! style) as [id|] eqn:E.
  - split; [by split; [| |lia]|]. by apply Hids.
  - assert (Hid : as_u32 (length (si_table si)) = N.of_nat (length (si_table si))).
    { apply as_u32_small. unfold room, STYLES_MAX, SCROLLBACK_MAX, ROWS_MAX, COLS_MAX in Hroom.
      unfold U32_MAX. lia. }
    rewrite Hid. assert (Hlast : issued (si_table si ++ [style]) (N.of_nat (length (si_table si))) style).
    { unfold issued. rewrite Nat2N.id. by apply list_lookup_middle. }
    split; [|done]. split; cbn.
    + split; cbn; [|apply Forall_app; by split; [|constructor]].
      intros style' id'. rewrite lookup_insert. case_decide as Heq; [by intros [= <-]; subst|].
      intros H%Hids. by apply lookup_app_l_Some.
    + by apply prefix_app_r.
    + rewrite length_app. cbn. lia.
Qed.

(** ** Rows *)

(** A checkpoint row decodes to the cells with any table that extends the
    encoder's. *)
Definition decodes (table : list text) (runs : list CellRun) (cells : list Cell) : Prop :=
  Forall (fun run => cr_style_id run < N.of_nat (length table))%N runs /\
  (run ← runs; run_cells table run) = cells.

Lemma push_cell_decodes table id cell runs cells :
  issued table id (cl_style cell) -> decodes table (reverse runs) cells ->
  decodes table (reverse (push_cell id cell runs)) (cells ++ [cell]).
Proof.
  intros Hid [Hids Hcells]. assert (Hlt := issued_lt _ _ _ Hid).
  assert (Hat := issued_style_at _ _ _ Hid).
  assert (Hfresh : decodes table (reverse runs ++ [MkCellRun id (cl_ch cell) (cl_continuation cell) (cl_wrapped cell) 1])
                     (cells ++ [cell])).
  { split; [apply Forall_app; by split; [|constructor]|]. rewrite bind_app, Hcells. f_equal.
    cbn. unfold run_cells. cbn. rewrite Hat. by destruct cell. }
  unfold push_cell. cbn zeta. destruct runs as [|last before]; [done|].
  destruct (extends_run last id cell) eqn:E; [|by rewrite reverse_cons].
  unfold extends_run in E. repeat rewrite andb_true_iff in E. destruct E as [[[E1 E2] E3] E4].
  apply N.eqb_eq in E1, E2. apply eqb_prop in E3, E4.
  rewrite reverse_cons in Hids, Hcells |- *. apply Forall_app in Hids as [Hb Hl].
  rewrite bind_app in Hcells. split.
  - apply Forall_app. split; [done|]. inversion_clear Hl. constructor; [done|constructor].
  - rewrite bind_app, <- Hcells, <- app_assoc. f_equal. cbn. rewrite !app_nil_r. unfold run_cells. cbn.
    rewrite N2Nat.inj_add, Nat.add_comm. cbn [N.to_nat Pos.to_nat Pos.iter_op Nat.add].
    change (Pos.to_nat 1 + ?n) with (S n). rewrite replicate_S_end. f_equal. rewrite E1, E2, E3, E4, Hat.
    by destruct cell.
Qed.

Lemma encode_cells_decodes cells runs done si table :
  si_ok si -> Forall cell_ok cells -> room (length cells) si ->
  let '(out, si') := encode_cells cells runs si in
  grows (length cells) si si' /\
  (si_table si' `prefix_of` table -> decodes table (reverse runs) done -> decodes table out (done ++ cells)).
Proof.
  revert runs done si. induction cells as [|cell cells IH]; intros runs done si Hsi Hf Hroom.
  - cbn. split; [by apply grows_refl|]. by rewrite app_nil_r.
  - cbn [encode_cells]. inversion_clear Hf as [|? ? Hc Hcells].
    assert (Hi := intern_grows (cl_style cell) si Hsi Hc). destruct (intern (cl_style cell) si) as [id si1].
    destruct Hi as [Hg Hid]. { revert Hroom. unfold room. cbn. lia. }
    assert (Hroom1 := grows_room 1 (length cells) _ _ Hg Hroom).
    specialize (IH (push_cell id cell runs) (done ++ [cell]) si1 (gr_ok _ _ _ Hg) Hcells Hroom1).
    destruct (encode_cells cells (push_cell id cell runs) si1) as [out si2]. destruct IH as [Hg2 IH].
    split; [exact (grows_trans 1 _ _ _ _ Hg Hg2)|]. intros Hp Hdone. rewrite cons_middle, app_assoc.
    apply IH; [done|]. apply push_cell_decodes; [|done].
    apply (issued_prefix (si_table si1)); [|done]. etrans; [apply (gr_prefix _ _ _ Hg2)|done].
Qed.

Lemma encode_row_decodes cells si table :
  si_ok si -> Forall cell_ok cells -> room (length cells) si ->
  let '(out, si') := encode_row cells si in
  grows (length cells) si si' /\ (si_table si' `prefix_of` table -> decodes table out cells).
Proof.
  intros Hsi Hf Hroom. unfold encode_row.
  assert (H := encode_cells_decodes cells [] [] si table Hsi Hf Hroom).
  destruct (encode_cells cells [] si) as [out si']. destruct H as [Hg H]. split; [done|].
  intros Hp. by apply H.
Qed.

Lemma encode_rows_decodes cols rows si table :
  si_ok si -> Forall (line_ok cols) rows -> room (length rows * cols) si ->
  let '(out, si') := encode_rows rows si in
  grows (length rows * cols) si si' /\
  (si_table si' `prefix_of` table -> Forall2 (decodes table) out rows).
Proof.
  revert si. induction rows as [|cells rows IH]; intros si Hsi Hf Hroom.
  - cbn. split; [by apply grows_refl|]. by constructor.
  - cbn [encode_rows]. inversion_clear Hf as [|? ? [[Hl Hc] _] Hrows]. cbn in Hroom.
    assert (H := encode_row_decodes cells si table Hsi Hc). rewrite Hl in H.
    destruct (encode_row cells si) as [r si1]. destruct H as [Hg H].
    { revert Hroom. unfold room. lia. }
    specialize (IH si1 (gr_ok _ _ _ Hg) Hrows (grows_room _ _ _ _ Hg Hroom)).
    destruct (encode_rows rows si1) as [rs si2]. destruct IH as [Hg2 IH].
    split; [exact (grows_trans _ _ _ _ _ Hg Hg2)|]. intros Hp. constructor; [|by apply IH].
    apply H. etrans; [apply (gr_prefix _ _ _ Hg2)|done].
Qed.

Lemma run_cells_length table run : length (run_cells table run) = N.to_nat (cr_repeat run).
Proof. apply length_replicate. Qed.

Lemma row_total_decodes table runs cells t :
  decodes table runs cells -> (t + N.of_nat (length cells) <= U32_MAX)%N ->
  row_total table runs t = Ok (t + N.of_nat (length cells))%N.
Proof.
  revert cells t. induction runs as [|run runs IH]; intros cells t [Hids Hcells] Hb.
  - cbn in Hcells. subst. cbn. by rewrite N.add_0_r.
  - rewrite bind_cons in Hcells. inversion_clear Hids as [|? ? Hid Hids']. subst cells.
    rewrite length_app, run_cells_length in Hb |- *.
    cbn [row_total]. rewrite (proj2 (N.ltb_lt _ _) Hid). cbn [require res_bind].
    unfold checked_u32. rewrite (proj2 (N.leb_le _ _)) by lia. cbn [ok_or res_bind].
    rewrite (IH (run ← runs; run_cells table run)); [|done|lia].
    by rewrite Nat2N.inj_add, N2Nat.id, N.add_assoc.
Qed.

Lemma decode_row_decodes cols table runs cells :
  decodes table runs cells -> length cells = cols -> (N.of_nat cols <= COLS_MAX)%N ->
  decode_row cols table runs = Ok cells.
Proof.
  intros Hd Hl Hc. unfold decode_row. unfold COLS_MAX in Hc.
  rewrite (row_total_decodes table runs cells 0 Hd) by (unfold U32_MAX; lia).
  cbn [res_bind]. rewrite N.add_0_l, Hl, N.eqb_refl. cbn [require res_bind]. by rewrite (proj2 Hd).
Qed.

Lemma collect_rows cols table out rows :
  Forall2 (decodes table) out rows -> Forall (line_ok cols) rows -> (N.of_nat cols <= COLS_MAX)%N ->
  collect (decode_row cols table) out = Ok rows.
Proof.
  intros H2 Hr Hc. induction H2 as [|r cells out rows Hd _ IH]; [done|].
  inversion_clear Hr as [|? ? [[Hl _] _] Hrows]. cbn [collect].
  rewrite (decode_row_decodes cols table r cells) by done. cbn [res_bind]. by rewrite (IH Hrows).
Qed.

(** ** Buffers *)
Definition buffer_styles (rows cols : nat) (b : ScreenBuffer) : nat :=
  rows * cols + length (sb_scrollback b) * cols + 1.

Lemma inside_checked rows cols p :
  inside rows cols p -> (N.of_nat rows <= ROWS_MAX)%N -> (N.of_nat cols <= COLS_MAX)%N ->
  check_cursor rows cols (as_u32 p.1, as_u32 p.2) = Ok tt /\
  (N.to_nat (as_u32 p.1), N.to_nat (as_u32 p.2)) = p.
Proof.
  intros [H1 H2] Hr Hc. destruct p as [r c]. cbn in *. unfold ROWS_MAX, COLS_MAX in *.
  rewrite !as_u32_small by (unfold U32_MAX; lia). rewrite !Nat2N.id. split; [|done].
  unfold check_cursor. cbn. rewrite (proj2 (N.ltb_lt _ _)), (proj2 (N.leb_le _ _)) by lia. done.
Qed.

Lemma buffer_round_trip rows cols b si :
  buffer_ok rows cols b -> (N.of_nat rows <= ROWS_MAX)%N -> (N.of_nat cols <= COLS_MAX)%N ->
  si_ok si -> room (buffer_styles rows cols b) si ->
  let '(cp, si') := buffer_checkpoint_from b si in
  grows (buffer_styles rows cols b) si si' /\
  forall table, si_table si' `prefix_of` table -> decode_buffer rows cols table cp = Ok b.
Proof.
  intros Hb Hr Hc Hsi Hroom. open_buffer Hb. unfold buffer_checkpoint_from, buffer_styles in *.
  assert (H1 := fun t => encode_rows_decodes cols (sb_grid b) si t Hsi Hgrid). rewrite Hlen in H1.
  destruct (encode_rows (sb_grid b) si) as [grid si1].
  assert (Hr1 : room (rows * cols) si) by (revert Hroom; unfold room; lia).
  destruct (H1 [] Hr1) as [Hg1 _].
  assert (Hroom1 : room (length (sb_scrollback b) * cols + 1) si1).
  { apply (grows_room (rows * cols) _ si); [done|]. by rewrite Nat.add_assoc. }
  assert (H2 := fun t => encode_rows_decodes cols (sb_scrollback b) si1 t (gr_ok _ _ _ Hg1) Hsb).
  destruct (encode_rows (sb_scrollback b) si1) as [scrollback si2].
  assert (Hr2 : room (length (sb_scrollback b) * cols) si1) by (revert Hroom1; unfold room; lia).
  destruct (H2 [] Hr2) as [Hg2 _].
  assert (H3 := intern_grows (sb_style b) si2 (gr_ok _ _ _ Hg2) Hsty).
  destruct (intern (sb_style b) si2) as [id si3].
  destruct H3 as [Hg3 Hid]; [by apply (grows_room (length (sb_scrollback b) * cols) _ si1)|].
  split.
  { apply (grows_trans _ _ _ _ _ (grows_trans _ _ _ _ _ Hg1 Hg2) Hg3). }
  intros table Hp.
  assert (Hp2 : si_table si2 `prefix_of` table) by (etrans; [apply (gr_prefix _ _ _ Hg3)|done]).
  assert (Hp1 : si_table si1 `prefix_of` table) by (etrans; [apply (gr_prefix _ _ _ Hg2)|done]).
  destruct (H1 table Hr1) as [_ Hd1]. destruct (H2 table Hr2) as [_ Hd2].
  specialize (Hd1 Hp1). specialize (Hd2 Hp2).
  assert (Hidt := issued_prefix _ _ _ _ Hp Hid).
  destruct (inside_checked rows cols _ Hcur Hr Hc) as [Ec1 Ec2]. cbn [fst snd] in Ec1, Ec2.
  injection Ec2 as Ecr Ecc.
  assert (Es : from_option (check_cursor rows cols) (Ok tt)
                 ((fun '(r, c) => (as_u32 r, as_u32 c)) <$> sb_saved_cursor b) = Ok tt /\
               (fun '(r, c) => (N.to_nat r, N.to_nat c)) <$>
                 ((fun '(r, c) => (as_u32 r, as_u32 c)) <$> sb_saved_cursor b) = sb_saved_cursor b).
  { destruct (sb_saved_cursor b) as [[r c]|]; [|done]. cbn in *.
    destruct (inside_checked rows cols (r, c) Hsaved Hr Hc) as [E1 E]. cbn [fst snd] in E1, E.
    by rewrite E1, E. }
  destruct Es as [Es1 Es2].
  assert (Et : as_u32 (sb_scroll_top b) = N.of_nat (sb_scroll_top b))
    by (apply as_u32_small; unfold ROWS_MAX, U32_MAX in *; lia).
  assert (Eb : as_u32 (sb_scroll_bottom b) = N.of_nat (sb_scroll_bottom b))
    by (apply as_u32_small; unfold ROWS_MAX, U32_MAX in *; lia).
  unfold decode_buffer. cbn [bc_grid bc_scrollback bc_scrollback_origin bc_cursor bc_saved_cursor
    bc_scroll_region bc_style_id].
  rewrite (Forall2_length _ _ _ Hd1), Hlen, Nat.eqb_refl. cbn [require res_bind].
  rewrite (Forall2_length _ _ _ Hd2), (proj2 (N.leb_le _ _) Hhist). cbn [require res_bind].
  rewrite (proj2 (N.ltb_lt _ _) (issued_lt _ _ _ Hidt)). cbn [require res_bind].
  rewrite Ec1. cbn [res_bind]. rewrite Es1. cbn [res_bind]. rewrite Et, Eb.
  rewrite (proj2 (N.ltb_lt _ _)), (proj2 (N.leb_le _ _)) by lia. cbn [require res_bind andb].
  rewrite (collect_rows cols table grid (sb_grid b)) by done. cbn [res_bind].
  rewrite (collect_rows cols table scrollback (sb_scrollback b)) by done. cbn [res_bind fst snd].
  rewrite Ecr, Ecc, Es2, !Nat2N.id, (issued_style_at _ _ _ Hidt). by destruct b.
Qed.

(** ** Screens *)
Lemma buffer_styles_bound rows cols b :
  buffer_ok rows cols b -> (N.of_nat rows <= ROWS_MAX)%N -> (N.of_nat cols <= COLS_MAX)%N ->
  (N.of_nat (buffer_styles rows cols b) <= (SCROLLBACK_MAX + ROWS_MAX) * COLS_MAX + 1)%N.
Proof.
  intros Hb Hr Hc. assert (Hh := bo_history _ _ _ Hb). unfold buffer_styles.
  assert (H1 := N.mul_le_mono _ _ _ _ Hr Hc). assert (H2 := N.mul_le_mono _ _ _ _ Hh Hc).
  rewrite !Nat2N.inj_add, !Nat2N.inj_mul, N.mul_add_distr_r. lia.
Qed.

Lemma styles_accepted table :
  Forall style_ok table -> find_first (fun style => STYLE_BYTES_MAX <? str_len style)%N table = None.
Proof.
  intros H. apply find_first_None. intros style Hin. apply N.ltb_ge.
  rewrite Forall_forall in H. by apply H.
Qed.

Lemma checkpoint_validated s table decoder primary alternate active :
  vt_ok s -> Forall style_ok table -> (N.of_nat (length table) <= STYLES_MAX)%N ->
  decoder = MkDecoderCheckpoint (vs_phase s) (vs_params s) (vs_utf8_pending s)
              (as_u8 (vs_utf8_needed s)) (vs_synchronized_output s) ->
  bool_decide (active = Alternate) = match alternate with Some _ => true | None => false end ->
  validated_geometry
    (MkScreenCheckpoint SCHEMA_VERSION (MkGeometry (as_u32 (vs_rows s)) (as_u32 (vs_cols s)))
       active primary alternate table decoder (vs_application_cursor s) (vs_bracketed_paste s)
       (vs_mouse_protocol_mode s) (vs_mouse_encoding s)) = Ok (vs_rows s, vs_cols s) /\
  N.to_nat (as_u8 (vs_utf8_needed s)) = vs_utf8_needed s.
Proof.
  intros [[Hr1 Hr2] [Hc1 Hc2] _ _ Hp Hpend Hneed _ Hhid] Hst Hlen -> Hact.
  assert (En : as_u8 (vs_utf8_needed s) = N.of_nat (vs_utf8_needed s)) by (apply N.mod_small; lia).
  assert (Er : as_u32 (vs_rows s) = N.of_nat (vs_rows s))
    by (apply as_u32_small; unfold ROWS_MAX, U32_MAX in *; lia).
  assert (Ec : as_u32 (vs_cols s) = N.of_nat (vs_cols s))
    by (apply as_u32_small; unfold COLS_MAX, U32_MAX in *; lia).
  assert (Hcells := N.mul_le_mono _ _ _ _ Hr2 Hc2).
  rewrite En. split; [|apply Nat2N.id]. unfold validated_geometry.
  cbn [sc_schema_version sc_geometry ge_rows ge_cols sc_styles sc_decoder dc_params dc_utf8_pending
       dc_utf8_needed dc_synchronized_output sc_active sc_alternate].
  rewrite Er, Ec. rewrite N.eqb_refl. cbn [require res_bind]. unfold checked_u32, validate_style_count.
  unfold CELLS_PER_TERMINAL_MAX. rewrite (proj2 (N.leb_le (N.of_nat (vs_rows s) * _) U32_MAX))
    by (unfold ROWS_MAX, COLS_MAX, U32_MAX in *; lia).
  cbn [ok_or res_bind]. rewrite (proj2 (N.leb_le _ _) Hcells). cbn [require res_bind].
  rewrite !(proj2 (N.eqb_neq _ 0)) by lia. rewrite (proj2 (N.leb_le _ _) Hr2), (proj2 (N.leb_le _ _) Hc2).
  cbn [require res_bind andb negb]. rewrite (proj2 (N.leb_le _ _) Hlen). cbn [require res_bind].
  rewrite styles_accepted by done. cbn [res_bind]. rewrite (proj2 (N.leb_le _ _) Hp).
  cbn [require res_bind]. unfold UTF8_PENDING_MAX, UTF8_NEEDED_MAX.
  rewrite (proj2 (N.leb_le _ 3)), (proj2 (N.leb_le _ 4)) by lia. cbn [require res_bind].
  rewrite (proj2 (N.leb_le _ _) Hhid). cbn [require res_bind]. rewrite Hact, eqb_reflx.
  cbn [require res_bind]. by rewrite !Nat2N.id.
Qed.

Lemma room_default n : (N.of_nat n <= STYLES_MAX)%N -> room n interner_default.
Proof. done. Qed.

Lemma interner_default_ok : si_ok interner_default.
Proof. split; [|constructor]. intros style id H. cbn in H. by rewrite lookup_empty in H. Qed.

Lemma new_dims rows cols :
  1 <= rows /\ (N.of_nat rows <= ROWS_MAX)%N -> 1 <= cols /\ (N.of_nat cols <= COLS_MAX)%N ->
  vs_rows (new rows cols) = rows /\ vs_cols (new rows cols) = cols.
Proof. intros Hr Hc. cbn [new vs_rows vs_cols]. unfold clamp_rows, clamp_cols. lia. Qed.

Lemma checkpoint_restores s :
  vt_ok s -> vs_retained_row_motions s = [] -> from_checkpoint (checkpoint s) = Ok s.
Proof.
  intros Hs Hm. destruct (so_rows _ _ s Hs) as [Hr1 Hr2]. destruct (so_cols _ _ s Hs) as [Hc1 Hc2].
  assert (Hlive := so_live _ _ s Hs). assert (Hprim := so_primary _ _ s Hs).
  assert (Hrep := so_replaying _ _ s Hs).
  destruct (new_dims _ _ (so_rows _ _ s Hs) (so_cols _ _ s Hs)) as [En1 En2].
  assert (Hb1 := buffer_styles_bound _ _ _ Hlive Hr2 Hc2).
  set (n1 := buffer_styles _ _ _) in Hb1.
  assert (Hdef := interner_default_ok). unfold checkpoint, live_buffer_checkpoint.
  destruct (vs_primary_screen s) as [p|] eqn:Ep; cbn [from_option] in Hprim.
  - assert (Hb2 := buffer_styles_bound _ _ _ Hprim Hr2 Hc2). set (n2 := buffer_styles _ _ _) in Hb2.
    assert (Hroom : room (n1 + n2) interner_default) by (apply room_default; unfold STYLES_MAX; lia).
    assert (Hroom1 : room n1 interner_default) by (revert Hroom; unfold room; lia).
    assert (H1 := buffer_round_trip _ _ _ interner_default Hlive Hr2 Hc2 Hdef Hroom1).
    destruct (buffer_checkpoint_from (vs_live s) interner_default) as [alt si1].
    destruct H1 as [Hg1 H1]. assert (Hroom2 := grows_room _ _ _ _ Hg1 Hroom).
    assert (H2 := buffer_round_trip _ _ _ si1 Hprim Hr2 Hc2 (gr_ok _ _ _ Hg1) Hroom2).
    destruct (buffer_checkpoint_from p si1) as [prim si2]. destruct H2 as [Hg2 H2].
    destruct (gr_ok _ _ _ Hg2) as [_ Hst].
    assert (Hlen : (N.of_nat (length (si_table si2)) <= STYLES_MAX)%N).
    { assert (Hl := gr_length _ _ _ (grows_trans _ _ _ _ _ Hg1 Hg2)). cbn in Hl.
      revert Hroom. unfold room. cbn. fold n1 n2 in Hl. lia. }
    unfold from_checkpoint. edestruct checkpoint_validated as [-> En]; try done.
    cbn [res_bind sc_primary sc_alternate sc_styles sc_decoder dc_utf8_needed].
    rewrite (H2 (si_table si2)) by reflexivity. cbn [res_bind].
    rewrite (H1 (si_table si2)) by apply (gr_prefix _ _ _ Hg2). cbn [map_ok res_bind]. cbn zeta.
    rewrite En, En1, En2. clear En En1 En2. destruct s. cbn in *. by subst.
  - assert (Hroom : room n1 interner_default) by (apply room_default; unfold STYLES_MAX; lia).
    assert (H1 := buffer_round_trip _ _ _ interner_default Hlive Hr2 Hc2 Hdef Hroom).
    destruct (buffer_checkpoint_from (vs_live s) interner_default) as [prim si1].
    destruct H1 as [Hg1 H1]. destruct (gr_ok _ _ _ Hg1) as [_ Hst].
    assert (Hlen : (N.of_nat (length (si_table si1)) <= STYLES_MAX)%N).
    { assert (Hl := gr_length _ _ _ Hg1). cbn in Hl. revert Hroom. unfold room. cbn. fold n1 in Hl. lia. }
    unfold from_checkpoint. edestruct checkpoint_validated as [-> En]; try done.
    cbn [res_bind sc_primary sc_alternate sc_styles sc_decoder dc_utf8_needed].
    rewrite (H1 (si_table si1)) by reflexivity. cbn [res_bind]. cbn zeta.
    rewrite En, En1, En2. clear En En1 En2. destruct s. cbn in *. by subst.
Qed.

(** ** Accepted checkpoints *)
Lemma res_bind_Ok {E A B} (c : result E A) (k : A -> result E B) b :
  res_bind c k = Ok b -> exists a, c = Ok a /\ k a = Ok b.
Proof. destruct c; cbn; [eauto|done]. Qed.

Lemma require_Ok b e u : require b e = Ok u -> b = true.
Proof. by destruct b. Qed.

Ltac res_inv H :=
  let a := fresh "a" in let E := fresh "Hr" in
  apply res_bind_Ok in H as (a & E & H); try apply require_Ok in E.

Lemma collect_Ok {A B} (f : A -> result CheckpointError B) (P : B -> Prop) l out :
  (forall a b, f a = Ok b -> P b) -> collect f l = Ok out -> Forall P out /\ length out = length l.
Proof.
  intros Hf. revert out. induction l as [|a l IH]; intros out H; cbn [collect] in H.
  - by injection H as <-.
  - apply res_bind_Ok in H as (b & Hb & H). apply res_bind_Ok in H as (bs & Hbs & H).
    injection H as <-. destruct (IH _ Hbs). split; [constructor; eauto|cbn; lia].
Qed.

Lemma row_total_sum table runs t n :
  row_total table runs t = Ok n -> n = (t + N.of_nat (length (run ← runs; run_cells table run)))%N.
Proof.
  revert t. induction runs as [|run runs IH]; intros t H; cbn [row_total] in H.
  - injection H as <-. cbn. by rewrite N.add_0_r.
  - res_inv H. apply res_bind_Ok in H as (m & Hm & H). unfold checked_u32 in Hm.
    destruct (_ <=? _)%N; [|done]. injection Hm as <-. rewrite (IH _ H), bind_cons, length_app, run_cells_length.
    by rewrite Nat2N.inj_add, N2Nat.id, N.add_assoc.
Qed.

Lemma style_at_ok table id : Forall style_ok table -> style_ok (style_at table id).
Proof.
  intros H. unfold style_at. destruct (table !! N.to_nat id) eqn:E; [|by vm_compute].
  by apply (Forall_lookup_1 _ _ _ _ H E).
Qed.

Lemma decode_row_ok cols table runs cells :
  Forall style_ok table -> decode_row cols table runs = Ok cells -> line_ok cols cells.
Proof.
  intros Ht H. unfold decode_row in H. apply res_bind_Ok in H as (n & Hn & H). res_inv H.
  injection H as <-. apply row_total_sum in Hn. apply N.eqb_eq in Hr. split; [|done]. split; [lia|].
  apply Forall_bind, Forall_forall. intros run _. apply Forall_replicate. unfold cell_ok. cbn.
  by apply style_at_ok.
Qed.

Lemma check_cursor_Ok rows cols p :
  ((p.1 <? N.of_nat rows) && (p.2 <=? N.of_nat cols))%N = true ->
  inside rows cols (N.to_nat p.1, N.to_nat p.2).
Proof.
  intros H. apply andb_true_iff in H as [H1%N.ltb_lt H2%N.leb_le].
  split; cbn; lia.
Qed.

Lemma decode_buffer_ok rows cols table cp b :
  Forall style_ok table -> decode_buffer rows cols table cp = Ok b -> buffer_ok rows cols b.
Proof.
  intros Ht H. unfold decode_buffer in H. res_inv H. res_inv H. res_inv H. res_inv H. res_inv H.
  destruct (bc_scroll_region cp) as [top bottom]. res_inv H.
  apply res_bind_Ok in H as (grid & Hg & H). apply res_bind_Ok in H as (sb & Hs & H).
  injection H as <-.
  apply (collect_Ok _ (line_ok cols)) in Hg as [Hg1 Hg2]; [|intros ? ?; by apply decode_row_ok].
  apply (collect_Ok _ (line_ok cols)) in Hs as [Hs1 Hs2]; [|intros ? ?; by apply decode_row_ok].
  apply Nat.eqb_eq in Hr. apply N.leb_le in Hr0. apply andb_true_iff in Hr4 as [Hb1%N.ltb_lt Hb2%N.leb_le].
  split; cbn; try done.
  - congruence.
  - by rewrite Hs2.
  - by apply check_cursor_Ok in Hr2.
  - destruct (bc_saved_cursor cp) as [[r c]|]; [|done]. cbn in Hr3 |- *.
    by apply require_Ok, check_cursor_Ok in Hr3.
  - lia.
  - by apply style_at_ok.
Qed.

Lemma validated_ok cp rows cols :
  validated_geometry cp = Ok (rows, cols) ->
  (1 <= rows /\ (N.of_nat rows <= ROWS_MAX)%N) /\ (1 <= cols /\ (N.of_nat cols <= COLS_MAX)%N) /\
  Forall style_ok (sc_styles cp) /\ (str_len (dc_params (sc_decoder cp)) <= PARAMS_MAX)%N /\
  length (dc_utf8_pending (sc_decoder cp)) <= 3 /\ N.to_nat (dc_utf8_needed (sc_decoder cp)) <= 4 /\
  (N.of_nat (from_option length 0%nat (dc_synchronized_output (sc_decoder cp)))
     <= SYNCHRONIZED_OUTPUT_MAX)%N.
Proof.
  intros H. unfold validated_geometry in H. res_inv H.
  apply res_bind_Ok in H as (cells & Hcells & H). res_inv H. res_inv H. res_inv H.
  apply res_bind_Ok in H as (u1 & _ & H). apply res_bind_Ok in H as (u2 & Hst & H).
  res_inv H. res_inv H. res_inv H. res_inv H. res_inv H. injection H as <- <-.
  apply andb_true_iff in Hr1 as [H1%negb_true_iff%N.eqb_neq H2%N.leb_le].
  apply andb_true_iff in Hr2 as [H3%negb_true_iff%N.eqb_neq H4%N.leb_le].
  apply N.leb_le in Hr3, Hr4, Hr5, Hr6. unfold UTF8_PENDING_MAX, UTF8_NEEDED_MAX in *.
  split_and!; try done; try lia.
  destruct (find_first _ _) eqn:E; [done|]. apply Forall_forall. intros style Hin.
  assert (Hf := proj1 (find_first_None _ _) E style Hin). by apply N.ltb_ge in Hf.
Qed.

Lemma from_checkpoint_ok cp s :
  from_checkpoint cp = Ok s -> vt_ok s /\ vs_retained_row_motions s = [].
Proof.
  intros H. unfold from_checkpoint in H. apply res_bind_Ok in H as ([rows cols] & Hv & H).
  destruct (validated_ok _ _ _ Hv) as (Hrows & Hcols & Hst & Hp & Hpend & Hneed & Hhid).
  destruct (new_dims rows cols Hrows Hcols) as [En1 En2].
  apply res_bind_Ok in H as (prim & Hprim & H). apply decode_buffer_ok in Hprim; [|done].
  apply res_bind_Ok in H as (alt & Halt & H). cbn zeta in H. rewrite En1, En2 in H.
  destruct (sc_alternate cp) as [acp|].
  - destruct (decode_buffer _ _ _ acp) as [ab|] eqn:Ea; cbn in Halt; [|done].
    apply decode_buffer_ok in Ea; [|done]. injection Halt as <-. injection H as <-. by split.
  - injection Halt as <-. injection H as <-. by split.
Qed.

(** ** The life of a screen *)
Definition settled (s : VtScreen) : Prop := vt_ok s /\ vs_retained_row_motions s = [].

Lemma screen_op_motions op s s' :
  screen_op op s = Some s' -> vs_retained_row_motions s = [] -> vs_retained_row_motions s' = [].
Proof.
  destruct op; cbn [screen_op].
  - unfold advance, advance_with_replies_and_row_motions.
    destruct (feed_all _ _ _) as [[s1 r]|]; cbn; [|done]. by intros [= <-].
  - intros [= <-]. unfold resize. by destruct (_ && _).
  - intros [= <-]. unfold trim_to_cells. set (keep := ((_ / _ - _) / _)%N). clearbody keep.
    destruct (trim_buffer keep (vs_live s)) as [b d].
    change (vs_primary_screen (set_live b s)) with (vs_primary_screen s).
    by destruct (vs_primary_screen s).
  - intros [= <-]. unfold clear_primary_for_user. by destruct (vs_primary_screen s).
Qed.

Lemma screen_ops_settled ops s : settled s -> total (screen_ops ops s) settled.
Proof.
  revert s. induction ops as [|op ops IH]; intros s [Hs Hm]; cbn [screen_ops]; [done|].
  assert (Ht := screen_op_total op s Hs). destruct (screen_op op s) as [s'|] eqn:E; [|done].
  cbn in Ht |- *. apply IH. split; [done|]. by eapply screen_op_motions.
Qed.

Lemma screen_ops_app ops later s : screen_ops (ops ++ later) s = screen_ops ops s ≫= screen_ops later.
Proof.
  revert s. induction ops as [|op ops IH]; intros s; cbn [app screen_ops]; [done|].
  destruct (screen_op op s); [|done]. apply IH.
Qed.

(** C6: a client that restores a checkpoint taken at any moment in the life of a
    screen, even inside an escape sequence, a multi-byte character or a hidden
    frame, holds the daemon's screen: the decoder accepts what the encoder
    wrote, and whatever happens later happens to both alike. *)
Theorem checkpoint_resumes rows cols ops :
  exists s restored, screen_ops ops (new rows cols) = Some s /\
    from_checkpoint (checkpoint s) = Ok restored /\
    forall later, screen_ops later restored = screen_ops (ops ++ later) (new rows cols).
Proof.
  assert (Hnew : settled (new rows cols)) by (split; [apply new_ok|done]).
  destruct (total_Some _ _ (screen_ops_settled ops _ Hnew)) as (s & E & Hs & Hm).
  exists s, s. split; [done|]. split; [by apply checkpoint_restores|].
  intros later. by rewrite screen_ops_app, E.
Qed.

(** C10: the decoder fails closed: whatever a peer sends, a checkpoint that is
    accepted yields a well formed screen, on which no later operation panics,
    and which is itself restored by its own checkpoint. *)
Theorem checkpoint_decoding_is_safe cp s (Haccepted : from_checkpoint cp = Ok s) :
  vt_ok s /\ from_checkpoint (checkpoint s) = Ok s /\
  forall ops, exists s', screen_ops ops s = Some s' /\ vt_ok s'.
Proof.
  destruct (from_checkpoint_ok cp s Haccepted) as [Hs Hm].
  split; [done|]. split; [by apply checkpoint_restores|].
  intros ops. apply total_Some. eapply total_mono; [by apply screen_ops_settled|]. by intros s' [].
Qed.
End round_trip.

(** A checkpoint that no screen of this program wrote: an orphan continuation
    cell and a one-row scroll region. *)
Definition foreign_checkpoint : ScreenCheckpoint :=
  MkScreenCheckpoint 1 (MkGeometry 2 2) Primary
    (MkBufferCheckpoint
       [[MkCellRun 0 NUL true false 1; MkCellRun 0 12354 false false 1]; [MkCellRun 0 SP false true 2]]
       [] 7 (1%N, 2%N) (Some (0%N, 2%N)) (1%N, 1%N) 0)
    None [[]] (MkDecoderCheckpoint Csi (txt "3") [] 0 (Some [])) false true AnyMotion Sgr.

Section example.
#[local] Existing Instance cjk_width.
Lemma checkpoint_decoding_is_safe_witness :
  exists s, from_checkpoint foreign_checkpoint = Ok s /\ vt_ok s /\
    exists s', screen_ops [Resize 1 1; Advance (txt "x")] s = Some s' /\ vt_ok s'.
Proof.
  destruct (from_checkpoint foreign_checkpoint) as [s|e] eqn:E.
  - exists s. split; [done|].
    destruct (checkpoint_decoding_is_safe foreign_checkpoint s E) as (H1 & _ & H2).
    split; [done|]. apply H2.
  - exfalso. revert E. vm_compute. discriminate.
Defined.
End example.
