(* ===== verification/VtGlyphs.v ===== *)
(** * Every row is a sequence of complete glyphs

    A wide character takes a leading cell and continuation cells.  The editing
    controls address columns, so they can land inside a glyph; the code clears
    the whole glyph then.  The law: with the widths of the blank and of the
    replacement character one, every operation keeps every row, visible or
    retained, a sequence of complete glyphs, with no orphan half. *)
From S2P Require Export VtScreenLaws.

(** What the code relies on of [unicode-width]. *)
Class UnicodeWidthLaws (U : UnicodeWidth) : Prop := {
  width_space : char_width SP = Some 1;
  width_replacement : char_width REPLACEMENT = Some 1
}.

#[export] Instance cjk_width_laws : UnicodeWidthLaws cjk_width.
Proof. by split. Qed.

Section glyphs.
Context {U : UnicodeWidth} {L : UnicodeWidthLaws U}.

Definition continuations (cells : list Cell) : Prop := Forall (fun c => cl_continuation c = true) cells.

Inductive glyphs : list Cell -> Prop :=
| glyphs_nil : glyphs []
| glyphs_cons c rest cells :
    cl_continuation c = false -> continuations rest -> glyph_width (cl_ch c) = S (length rest) ->
    glyphs cells -> glyphs (c :: rest ++ cells).

Lemma glyph_width_space : glyph_width SP = 1.
Proof. unfold glyph_width. by rewrite width_space. Qed.
Lemma glyph_width_replacement : glyph_width REPLACEMENT = 1.
Proof. unfold glyph_width. by rewrite width_replacement. Qed.
Lemma glyph_width_pos ch : 1 <= glyph_width ch.
Proof. unfold glyph_width. lia. Qed.

Lemma glyphs_single c cells :
  cl_continuation c = false -> glyph_width (cl_ch c) = 1 -> glyphs cells -> glyphs (c :: cells).
Proof. intros Hc Hw Hg. by apply (glyphs_cons c [] cells Hc (Forall_nil_2 _) Hw). Qed.

Lemma glyphs_app l1 l2 : glyphs l1 -> glyphs l2 -> glyphs (l1 ++ l2).
Proof.
  induction 1 as [|c rest cells Hc Hr Hw Hg IH]; intros H2; [done|].
  rewrite <- app_comm_cons, <- app_assoc. constructor; auto.
Qed.

Lemma glyphs_blanks n : glyphs (replicate n blank).
Proof.
  induction n as [|n IH]; cbn; [constructor|]. apply glyphs_single; [done|apply glyph_width_space|done].
Qed.

Lemma glyphs_cons_inv c cells : glyphs (c :: cells) ->
  exists rest post, cells = rest ++ post /\ cl_continuation c = false /\ continuations rest /\
    glyph_width (cl_ch c) = S (length rest) /\ glyphs post.
Proof. inversion_clear 1; eauto 10. Qed.

(** The glyph that covers a column. *)
Lemma glyph_at cells column : glyphs cells -> column < length cells ->
  exists pre c rest post, cells = pre ++ c :: rest ++ post /\
    length pre <= column <= length pre + length rest /\ cl_continuation c = false /\
    continuations rest /\ glyph_width (cl_ch c) = S (length rest) /\ glyphs pre /\ glyphs post.
Proof.
  intros Hg. revert column. induction Hg as [|c rest cells Hc Hr Hw Hg IH]; intros column Hl; [cbn in Hl; lia|].
  destruct (decide (column <= length rest)) as [Hle|Hgt].
  - exists [], c, rest, cells. cbn. split_and!; try done; [lia|constructor].
  - destruct (IH (column - S (length rest))) as (pre & d & r & post & -> & ? & ? & ? & ? & ? & ?).
    { cbn in Hl. rewrite length_app in Hl. lia. }
    exists (c :: rest ++ pre), d, r, post. cbn. rewrite length_app.
    split_and!; try done; try lia; [by rewrite <- app_assoc|by constructor].
Qed.

(** A column whose cell starts a glyph is a boundary. *)
Lemma glyphs_boundary cells j c : glyphs cells -> cells !! j = Some c -> cl_continuation c = false ->
  glyphs (take j cells) /\ glyphs (drop j cells).
Proof.
  intros Hg Hj Hc. destruct (glyph_at cells j Hg) as (pre & d & rest & post & -> & Hb & Hd & Hr & Hw & Hp & Hq).
  { by eapply lookup_lt_Some. }
  destruct (decide (j = length pre)) as [->|Hne].
  - rewrite take_app_length, drop_app_length. split; [done|by constructor].
  - exfalso. rewrite lookup_app_r in Hj by lia.
    destruct (j - length pre) as [|k] eqn:Ek; [lia|]. change ((rest ++ post) !! k = Some c) in Hj.
    rewrite lookup_app_l in Hj by lia. unfold continuations in Hr.
    by rewrite (Forall_lookup_1 _ _ _ _ Hr Hj) in Hc.
Qed.

(** *** Clearing *)
Lemma insert_middle {A} (pre : list A) x y post : <[length pre := y]> (pre ++ x :: post) = pre ++ y :: post.
Proof. induction pre as [|z pre IH]; cbn; [done|]. f_equal. exact IH. Qed.

Lemma leader_of_spec pre c rest post column :
  cl_continuation c = false -> continuations rest ->
  length pre <= column <= length pre + length rest ->
  leader_of (pre ++ c :: rest ++ post) column = Some (length pre).
Proof.
  intros Hc Hr. induction column as [|column IH]; intros Hb; cbn [leader_of]; [f_equal; lia|].
  destruct (decide (S column = length pre)) as [->|Hne].
  - rewrite list_lookup_middle by done. cbn. by rewrite Hc.
  - rewrite lookup_app_r by lia. replace (S column - length pre) with (S (column - length pre)) by lia.
    change ((c :: rest ++ post) !! S ?k) with ((rest ++ post) !! k). rewrite lookup_app_l by lia.
    destruct (lookup_lt_is_Some_2 rest (column - length pre)) as [x Hx]; [lia|]. rewrite Hx. cbn.
    rewrite (Forall_lookup_1 _ _ _ _ Hr Hx). apply IH. lia.
Qed.

Lemma blank_continuations_app rest cells :
  continuations rest -> glyphs cells ->
  blank_continuations (rest ++ cells) = replicate (length rest) blank ++ cells.
Proof.
  induction 1 as [|c rest Hc Hr IH]; intros Hg; cbn.
  - inversion_clear Hg as [|? ? ? Hc]; cbn; [done|]. by rewrite Hc.
  - rewrite Hc. by rewrite IH.
Qed.

Lemma clear_glyph_at_spec pre c rest post column :
  cl_continuation c = false -> continuations rest -> glyphs post ->
  length pre <= column <= length pre + length rest ->
  clear_glyph_at column (pre ++ c :: rest ++ post)
  = Some (pre ++ replicate (S (length rest)) blank ++ post).
Proof.
  intros Hc Hr Hp Hb. unfold clear_glyph_at. rewrite leader_of_spec by done. cbn [mbind option_bind].
  unfold write. rewrite decide_True by (rewrite length_app; cbn; lia). cbn [mbind option_bind].
  rewrite insert_middle. f_equal.
  replace (pre ++ blank :: rest ++ post) with ((pre ++ [blank]) ++ rest ++ post) by by rewrite <- app_assoc.
  replace (S (length pre)) with (length (pre ++ [blank])) by (rewrite length_app; cbn; lia).
  rewrite take_app_length, drop_app_length, blank_continuations_app by done.
  by rewrite <- app_assoc.
Qed.

(** An invariant of a counting loop. *)
Lemma for_each_steps {A} (I : nat -> A -> Prop) (f : nat -> A -> option A) a n x y :
  (forall i x y, a <= i < a + n -> I i x -> f i x = Some y -> I (S i) y) ->
  I a x -> for_each f (seq a n) x = Some y -> I (a + n) y.
Proof.
  revert a x. induction n as [|n IH]; intros a x Hf Hx H; cbn [seq for_each] in H.
  - injection H as <-. by rewrite Nat.add_0_r.
  - apply bind_Some in H as (z & Hz & H). rewrite Nat.add_succ_r.
    apply (IH (S a) z); [|by eapply Hf; [lia| |]|done]. intros i x' y' Hi. apply Hf. lia.
Qed.

(** What clearing does to the row, cell by cell. *)
Record cleared (a i : nat) (cells cells' : list Cell) : Prop := {
  cd_glyphs : glyphs cells';
  cd_length : length cells' = length cells;
  cd_blank : forall j, a <= j < i -> cells' !! j = Some blank;
  cd_other : forall j c, cells' !! j = Some c -> cells !! j = Some c \/ c = blank
}.

Lemma clear_at_cleared a i cells x y :
  cleared a i cells x -> i < length x -> clear_glyph_at i x = Some y -> cleared a (S i) cells y.
Proof.
  intros [Hg Hl Hbl Ho] Hi H.
  destruct (glyph_at x i Hg Hi) as (pre & c & rest & post & -> & Hb & Hc & Hr & Hw & Hp & Hq).
  rewrite clear_glyph_at_spec in H by done. apply (inj Some) in H. subst y.
  assert (Hlook : forall j, (pre ++ replicate (S (length rest)) blank ++ post) !! j =
            if decide (length pre <= j <= length pre + length rest) then Some blank
            else (pre ++ c :: rest ++ post) !! j).
  { intros j. destruct (decide (j < length pre)).
    { rewrite decide_False by lia. by rewrite !lookup_app_l by lia. }
    rewrite !lookup_app_r by lia. case_decide.
    - rewrite lookup_app_l by (rewrite length_replicate; lia). apply lookup_replicate_2. lia.
    - rewrite lookup_app_r by (rewrite length_replicate; lia). rewrite length_replicate.
      rewrite (lookup_app_r pre (c :: rest ++ post)) by lia.
      replace (j - length pre) with (S (j - length pre - 1)) at 2 by lia.
      change ((c :: rest ++ post) !! S ?k) with ((rest ++ post) !! k).
      rewrite lookup_app_r by lia. f_equal. lia. }
  split.
  - apply glyphs_app; [done|]. apply (glyphs_app (replicate (S (length rest)) blank)); [apply glyphs_blanks|done].
  - rewrite <- Hl, !(length_app pre). f_equal. rewrite (length_app (replicate _ _)), length_replicate.
    cbn [length]. rewrite length_app. lia.
  - intros j Hj. rewrite Hlook. case_decide; [done|]. apply Hbl. lia.
  - intros j d. rewrite Hlook. case_decide; [intros [= <-]; by right|]. apply Ho.
Qed.

Lemma cleared_refl a cells : glyphs cells -> cleared a a cells cells.
Proof. intros Hg. split; try done; [lia|auto]. Qed.

Lemma clear_glyph_range_cleared a b cells cells' : a <= length cells -> glyphs cells ->
  clear_glyph_range a b cells = Some cells' -> cleared a (Nat.min b (length cells)) cells cells'.
Proof.
  intros Ha Hg H. unfold clear_glyph_range, range in H. rewrite (Nat.min_l a) in H by lia.
  destruct (decide (Nat.min b (length cells) <= a)) as [Hle|Hgt].
  - replace (_ - a) with 0 in H by lia. injection H as <-.
    destruct (cleared_refl a cells Hg). split; try done. lia.
  - apply (for_each_steps (fun i x => cleared a i cells x)) in H.
    + by replace (a + _) with (Nat.min b (length cells)) in H by lia.
    + intros i x y Hi Hx Hy. apply (clear_at_cleared a i cells x y Hx); [|done].
      rewrite (cd_length _ _ _ _ Hx). lia.
    + by apply cleared_refl.
Qed.

Lemma clear_glyph_range_glyphs a b cells cells' :
  glyphs cells -> clear_glyph_range a b cells = Some cells' -> glyphs cells'.
Proof.
  intros Hg H. destruct (decide (a <= length cells)) as [Ha|Ha].
  - by eapply cd_glyphs, clear_glyph_range_cleared.
  - unfold clear_glyph_range, range in H. replace (_ - _) with 0 in H by lia. by injection H as <-.
Qed.

(** *** Printing *)
Lemma glyphs_after j cells : glyphs cells -> cells !! j = Some blank ->
  glyphs (take j cells) /\ glyphs (drop (S j) cells).
Proof.
  intros Hg Hj. destruct (glyphs_boundary cells j blank Hg Hj eq_refl) as [H1 H2]. split; [done|].
  rewrite (drop_S _ _ _ Hj) in H2. apply glyphs_cons_inv in H2 as (rest & post & E & _ & _ & Hw & Hq).
  cbn in Hw. rewrite glyph_width_space in Hw. destruct rest; [|done]. by rewrite E.
Qed.

(** The row after the cells of a glyph are written over blanks. *)
Lemma write_glyph_spec ch style column width cells cells' :
  0 < width -> column + width <= length cells ->
  (cells ← write column (MkCell ch style false false) cells;
   for_each (fun offset => write (column + offset) (MkCell NUL style true false)) (range 1 width) cells)
    = Some cells' ->
  cells' = take column cells ++ MkCell ch style false false ::
           replicate (width - 1) (MkCell NUL style true false) ++ drop (column + width) cells.
Proof.
  intros Hw Hl H. apply bind_Some in H as (c1 & H1 & H). unfold write in H1.
  rewrite decide_True in H1 by lia. injection H1 as <-. unfold range in H.
  apply (for_each_steps (fun i x => length x = length cells /\ forall j, x !! j =
    if decide (j = column) then Some (MkCell ch style false false)
    else if decide (column < j < column + i) then Some (MkCell NUL style true false)
    else cells !! j)) in H.
  - destruct H as [Hlen Hlook]. apply list_eq. intros j. rewrite Hlook.
    replace (1 + (width - 1)) with width by lia.
    destruct (decide (j < column)).
    { rewrite !decide_False by lia. rewrite lookup_app_l by (rewrite length_take; lia).
      by rewrite lookup_take_lt by lia. }
    rewrite lookup_app_r, length_take, Nat.min_l by (rewrite ?length_take; lia).
    destruct (decide (j = column)) as [->|]; [by rewrite Nat.sub_diag|].
    replace (j - column) with (S (j - column - 1)) by lia.
    change ((?c :: ?l) !! S ?k) with (l !! k). case_decide.
    + rewrite lookup_app_l by (rewrite length_replicate; lia). symmetry. apply lookup_replicate_2. lia.
    + rewrite lookup_app_r, length_replicate by (rewrite length_replicate; lia).
      rewrite lookup_drop. f_equal. lia.
  - intros i x y Hi [Hlen Hlook] Hy. unfold write in Hy. rewrite decide_True in Hy by lia.
    injection Hy as <-. split; [by rewrite length_insert|]. intros j.
    destruct (decide (j = column + i)) as [->|].
    + rewrite list_lookup_insert_eq by lia. rewrite decide_False, decide_True by lia. done.
    + rewrite list_lookup_insert_ne by lia. rewrite Hlook.
      repeat case_decide; try done; lia.
  - split; [by rewrite length_insert|]. intros j. destruct (decide (j = column)) as [->|].
    + rewrite list_lookup_insert_eq by lia. done.
    + rewrite list_lookup_insert_ne by lia. rewrite decide_False by lia. done.
Qed.

Lemma put_glyph_glyphs ch style column width cells cells' :
  glyph_width ch = width -> column + width <= length cells -> glyphs cells ->
  put_glyph ch style column width cells = Some cells' -> glyphs cells'.
Proof.
  intros Hw Hl Hg H. assert (Hpos := glyph_width_pos ch). unfold put_glyph in H.
  apply bind_Some in H as (c1 & H1 & H).
  apply clear_glyph_range_cleared in H1 as [Hg1 Hl1 Hb1 _]; [|lia|done]. rewrite Nat.min_l in Hb1 by lia.
  apply write_glyph_spec in H as ->; [|lia..].
  destruct (glyphs_after column c1 Hg1) as [Hpre _]; [apply Hb1; lia|].
  destruct (glyphs_after (column + width - 1) c1 Hg1) as [_ Hpost]; [apply Hb1; lia|].
  replace (S (column + width - 1)) with (column + width) in Hpost by lia.
  apply glyphs_app; [done|]. constructor; try done.
  - apply Forall_replicate. done.
  - cbn. rewrite length_replicate. lia.
Qed.

(** *** Deleting *)
Lemma clear_if_continuation_cleared column cells cells' :
  glyphs cells -> column < length cells -> clear_if_continuation column cells = Some cells' ->
  cleared column column cells cells' /\
  exists c, cells' !! column = Some c /\ cl_continuation c = false.
Proof.
  intros Hg Hl H. unfold clear_if_continuation in H. apply bind_Some in H as (c & Hc & H).
  destruct (cl_continuation c) eqn:E.
  - apply (clear_at_cleared column column cells) in H; [|by apply cleared_refl|done].
    destruct H as [H1 H2 H3 H4]. split; [split; try done; lia|]. exists blank. split; [|done].
    apply H3. lia.
  - injection H as <-. split; [by apply cleared_refl|eauto].
Qed.

Lemma delete_cells_glyphs start count cells cells' :
  start + count <= length cells -> 0 < count -> glyphs cells ->
  delete_cells start count cells = Some cells' -> glyphs cells'.
Proof.
  intros Hl Hc Hg H. unfold delete_cells in H. apply bind_Some in H as (c1 & H1 & H).
  apply clear_if_continuation_cleared in H1 as [[Hg1 Hl1 _ _] (x & Hx & Hxc)]; [|done|lia].
  apply bind_Some in H as (c2 & H2 & H).
  assert (H3 : glyphs c2 /\ length c2 = length cells /\ glyphs (take start c2) /\
               glyphs (drop (start + count) c2)).
  { destruct (start + count <? length c1) eqn:E.
    - apply Nat.ltb_lt in E.
      apply clear_if_continuation_cleared in H2 as [[Hg2 Hl2 _ Ho] (y & Hy & Hyc)]; [|done|lia].
      destruct (lookup_lt_is_Some_2 c2 start) as [z Hz]; [lia|].
      assert (Hzc : cl_continuation z = false).
      { destruct (Ho _ _ Hz) as [Hz'| ->]; [|done]. by rewrite Hx in Hz'; injection Hz' as <-. }
      split_and!; [done|congruence|by eapply glyphs_boundary|by eapply glyphs_boundary].
    - apply Nat.ltb_ge in E. injection H2 as <-. split_and!; try done.
      + by eapply glyphs_boundary.
      + rewrite drop_ge by lia. constructor. }
  destruct H3 as (_ & Hl2 & Hpre & Hpost).
  apply bind_Some in H as (c3 & H3 & H). injection H as <-. unfold drain in H3.
  rewrite decide_True in H3 by lia. injection H3 as <-.
  apply glyphs_app; [by apply glyphs_app|apply glyphs_blanks].
Qed.

(** *** Marks and resizing *)

(** Only the characters and the continuation flags matter. *)
Lemma glyphs_same cells cells' :
  Forall2 (fun c d => cl_ch c = cl_ch d /\ cl_continuation c = cl_continuation d) cells cells' ->
  glyphs cells -> glyphs cells'.
Proof.
  intros H2 Hg. revert cells' H2. induction Hg as [|c rest cells Hc Hr Hw Hg IH]; intros cells' H2.
  - inversion_clear H2. constructor.
  - apply Forall2_cons_inv_l in H2 as (d & l & [Hd1 Hd2] & H2 & ->).
    apply Forall2_app_inv_l in H2 as (rest' & post & Hrest & Hpost & ->).
    constructor; [congruence| |by rewrite <- Hd1, <- (Forall2_length _ _ _ Hrest)|by apply IH].
    clear - Hr Hrest. induction Hrest as [|x y l l' [_ Hxy] _ IHl]; [constructor|].
    inversion_clear Hr. constructor; [congruence|by apply IHl].
Qed.

Lemma wrap_glyphs column cells cells' :
  glyphs cells -> modify column (fun cell => Some (set_wrapped true cell)) cells = Some cells' ->
  glyphs cells'.
Proof.
  intros Hg H. unfold modify in H. apply bind_Some in H as (c & Hc & H). injection H as <-.
  eapply glyphs_same; [|exact Hg]. apply Forall2_same_length_lookup_2; [by rewrite length_insert|].
  intros i x y Hx Hy. destruct (decide (i = column)) as [->|].
  - rewrite list_lookup_insert_eq in Hy by (by eapply lookup_lt_Some). injection Hy as <-.
    rewrite Hc in Hx. by injection Hx as <-.
  - rewrite list_lookup_insert_ne in Hy by done. rewrite Hx in Hy. by injection Hy as <-.
Qed.

(** Resizing needs no assumption: the pass repairs whatever it finds. *)
Lemma repair_glyphs_glyphs fuel cells : length cells <= fuel -> glyphs (repair_glyphs fuel cells).
Proof.
  revert cells. induction fuel as [|fuel IH]; intros [|c cs] Hl; cbn in Hl; try lia; [constructor..|].
  cbn [repair_glyphs]. destruct (cl_continuation c) eqn:Ec.
  { apply glyphs_single; [done|apply glyph_width_space|apply IH; lia]. }
  destruct (1 <? glyph_width (cl_ch c)) eqn:Ew.
  - apply Nat.ltb_lt in Ew. destruct (_ && _) eqn:E.
    + apply andb_true_iff in E as [El%Nat.eqb_eq Ef]. apply glyphs_cons; [done| |lia|].
      * apply Forall_forall. intros x Hx. rewrite forallb_forall in Ef.
        apply Ef. by apply list_elem_of_In.
      * apply IH. rewrite length_drop. lia.
    + apply glyphs_single; [done|apply glyph_width_replacement|apply IH; lia].
  - apply Nat.ltb_ge in Ew. assert (Hp := glyph_width_pos (cl_ch c)).
    apply glyphs_single; [done|lia|apply IH; lia].
Qed.

Lemma resize_row_glyphs cols cells : glyphs (resize_row cols cells).
Proof. unfold resize_row. by apply repair_glyphs_glyphs. Qed.

#[export] Instance glyph_shape : RowShape.
Proof.
  refine {| shape := glyphs |}.
  - apply glyphs_blanks.
  - apply clear_glyph_range_glyphs.
  - apply delete_cells_glyphs.
  - intros ch style column cells cells' H1 H2 H3. by eapply put_glyph_glyphs.
  - intros style column cells cells' H1 H2 H3. eapply put_glyph_glyphs; [|done..].
    apply glyph_width_replacement.
  - apply wrap_glyphs.
  - apply resize_row_glyphs.
Defined.

(** Every row a screen holds. *)
Definition screen_rows (s : VtScreen) : list (list Cell) :=
  vs_grid s ++ vs_scrollback s ++
  from_option (fun p => sb_grid p ++ sb_scrollback p) [] (vs_primary_screen s).

Lemma sound_rows k r s :
  screen_ok (R := glyph_shape) k r s ->
  Forall (fun cells => length cells = vs_cols s /\ glyphs cells) (screen_rows s).
Proof.
  intros Hs. unfold screen_rows.
  assert (Hline : forall l, Forall (line_ok (R := glyph_shape) (vs_cols s)) l ->
                   Forall (fun cells => length cells = vs_cols s /\ glyphs cells) l).
  { intros l Hl. apply (Forall_impl _ _ _ Hl). by intros cells [[? _] ?]. }
  assert (Hb := so_live _ _ s Hs). assert (Hp := so_primary _ _ s Hs).
  apply Forall_app. split; [apply Hline, Hb|]. apply Forall_app. split; [apply Hline, Hb|].
  destruct (vs_primary_screen s) as [p|]; [|constructor]. cbn in Hp |- *.
  apply Forall_app. split; apply Hline, Hp.
Qed.

(** C8: editing controls address columns, but no output, resize, trim or clear
    ever leaves half a wide character: every row of every screen, visible or
    retained, in either buffer, has the width of the grid and is a sequence of
    complete glyphs, each a leading cell and the continuation cells its width
    calls for. *)
Theorem wide_glyphs_stay_whole rows cols ops :
  exists s, screen_ops ops (new rows cols) = Some s /\
    Forall (fun cells => length cells = vs_cols s /\ glyphs cells) (screen_rows s).
Proof.
  destruct (total_Some _ _ (screen_ops_total (R := glyph_shape) ops _ (new_ok rows cols)))
    as (s & E & Hs).
  exists s. split; [done|]. by apply (sound_rows _ _ s Hs).
Qed.
End glyphs.

Lemma wide_glyphs_stay_whole_witness :
  let U := cjk_width in
  exists s, screen_ops [Advance ([227; 129; 130; 27]%N ++ txt "[2GX"); Resize 1 3] (new 2 4) = Some s /\
    Forall (fun cells => length cells = vs_cols s /\ glyphs cells) (screen_rows s).
Proof. exact (@wide_glyphs_stay_whole cjk_width cjk_width_laws 2 4 _). Defined.
