(* ===== verification/VtDecoder.v ===== *)
(** * The incremental decoder

    A terminal's output arrives cut at arbitrary places.  The laws: how the
    stream is cut makes no difference to the screen or to the replies; every
    character encoded in UTF-8 is printed exactly once, wherever its bytes are
    cut, and no other byte sequence prints one; and a synchronized frame changes
    the screen in one step, when its last byte arrives. *)
From S2P Require Export VtScreenLaws.

(** ** Cutting the stream *)

(** The record of row motions is the one thing a call starts afresh: two
    screens that differ in it only are indistinguishable to the decoder. *)
Definition erase (s : VtScreen) : VtScreen := set_retained_row_motions [] s.
Definition same (s1 s2 : VtScreen) : Prop := erase s1 = erase s2.
Definition same_option (o1 o2 : option VtScreen) : Prop := erase <$> o1 = erase <$> o2.
Definition same_output (o1 o2 : option (VtScreen * list N)) : Prop :=
  (fun p => (erase p.1, p.2)) <$> o1 = (fun p => (erase p.1, p.2)) <$> o2.

#[export] Instance same_equivalence : Equivalence same.
Proof. split; [done|by intros s1 s2|]. intros s1 s2 s3 H1 H2. by transitivity (erase s2). Qed.

(** Opens a pair of screens that differ in their motions only. *)
Ltac open_same :=
  match goal with
  | |- forall s1 s2, same s1 s2 -> _ =>
      let H := fresh in
      intros [] [] H; unfold same, erase in H; cbn in H; injection H; intros; subst; clear H
  end.
Ltac same_step :=
  open_same; unfold same, same_option, same_output; repeat case_match; reflexivity.

Lemma same_Some s1 s2 : same s1 s2 -> same_option (Some s1) (Some s2).
Proof. unfold same, same_option. cbn. by intros ->. Qed.

Lemma same_quiet s1 s2 r : same s1 s2 -> same_output (Some (s1, r)) (Some (s2, r)).
Proof. unfold same, same_output. cbn. by intros ->. Qed.

Lemma same_option_inv o1 o2 : same_option o1 o2 ->
  (o1 = None /\ o2 = None) \/ exists s1 s2, o1 = Some s1 /\ o2 = Some s2 /\ same s1 s2.
Proof.
  destruct o1 as [s1|], o2 as [s2|]; intros H; try done; [|by left].
  assert (H' : same s1 s2) by exact (@inj _ _ (=) (=) Some _ _ _ H). right. by exists s1, s2.
Qed.

Lemma same_bind o1 o2 (f1 f2 : VtScreen -> option VtScreen) :
  same_option o1 o2 -> (forall s1 s2, same s1 s2 -> same_option (f1 s1) (f2 s2)) ->
  same_option (o1 ≫= f1) (o2 ≫= f2).
Proof. intros [[-> ->]|(s1 & s2 & -> & -> & H)]%same_option_inv Hf; [done|]. by apply Hf. Qed.

Lemma same_bind_output o1 o2 (f1 f2 : VtScreen -> option (VtScreen * list N)) :
  same_option o1 o2 -> (forall s1 s2, same s1 s2 -> same_output (f1 s1) (f2 s2)) ->
  same_output (o1 ≫= f1) (o2 ≫= f2).
Proof. intros [[-> ->]|(s1 & s2 & -> & -> & H)]%same_option_inv Hf; [done|]. by apply Hf. Qed.

Lemma same_output_bind o1 o2 (f1 f2 : VtScreen * list N -> option (VtScreen * list N)) :
  same_output o1 o2 -> (forall s1 s2 r, same s1 s2 -> same_output (f1 (s1, r)) (f2 (s2, r))) ->
  same_output (o1 ≫= f1) (o2 ≫= f2).
Proof.
  intros H Hf. destruct o1 as [[s1 r1]|], o2 as [[s2 r2]|]; try done.
  assert (H' : (erase s1, r1) = (erase s2, r2)) by exact (@inj _ _ (=) (=) Some _ _ _ H).
  apply (inj2 pair) in H' as [Hs <-]. by apply Hf.
Qed.

Lemma same_for_each (f : VtScreen -> option VtScreen) range1 range2 s1 s2 :
  (forall s1 s2, same s1 s2 -> same_option (f s1) (f s2)) -> range1 = range2 -> same s1 s2 ->
  same_option (for_each (fun _ => f) range1 s1) (for_each (fun _ => f) range2 s2).
Proof.
  intros Hf <-. revert s1 s2. induction range1 as [|i range IH]; intros s1 s2 H; cbn [for_each].
  - by apply same_Some.
  - apply same_bind; [by apply Hf|]. intros. by apply IH.
Qed.

Section cutting.
Context {U : UnicodeWidth}.

Lemma same_scroll_row_up : forall s1 s2, same s1 s2 -> same_option (scroll_row_up s1) (scroll_row_up s2).
Proof.
  open_same. unfold scroll_row_up. cbn -[append_scrollback insert_at remove]. destruct (remove _ _) as [[cells g]|]; cbn -[append_scrollback insert_at remove]; [|done].
  destruct vs_primary_screen0; cbn -[append_scrollback insert_at remove]; [by destruct (insert_at _ _ _)|].
  destruct (sb_scroll_top vs_live0 =? 0); cbn -[append_scrollback insert_at remove]; [|by destruct (insert_at _ _ _)].
  destruct (append_scrollback _ _ _) as [rows [|]]; cbn -[append_scrollback insert_at remove]; by destruct (insert_at _ _ _).
Qed.

Lemma same_scroll_row_down : forall s1 s2, same s1 s2 -> same_option (scroll_row_down s1) (scroll_row_down s2).
Proof.
  open_same. unfold scroll_row_down. cbn -[append_scrollback insert_at remove]. destruct (remove _ _) as [[cells g]|]; cbn -[append_scrollback insert_at remove]; [|done].
  destruct (insert_at _ _ _); reflexivity.
Qed.

Lemma same_region n s1 s2 : same s1 s2 -> region_rows n s1 = region_rows n s2.
Proof. revert s1 s2. open_same. reflexivity. Qed.

Lemma same_scroll_up n s1 s2 : same s1 s2 -> same_option (scroll_region_up n s1) (scroll_region_up n s2).
Proof.
  intros H. apply same_for_each; [apply same_scroll_row_up|by apply same_region|done].
Qed.
Lemma same_scroll_down n s1 s2 : same s1 s2 -> same_option (scroll_down n s1) (scroll_down n s2).
Proof.
  intros H. apply same_for_each; [apply same_scroll_row_down|by apply same_region|done].
Qed.

(** Equal projections of screens that are the same. *)
Lemma same_proj {A} (p : VtScreen -> A) s1 s2 :
  (forall s, p (erase s) = p s) -> same s1 s2 -> p s1 = p s2.
Proof. intros Hp H. by rewrite <- (Hp s1), <- (Hp s2), H. Qed.
Lemma same_pure (f : VtScreen -> VtScreen) s1 s2 :
  (forall s, erase (f (erase s)) = erase (f s)) -> same s1 s2 -> same (f s1) (f s2).
Proof. intros Hf H. unfold same. by rewrite <- (Hf s1), <- (Hf s2), H. Qed.

Lemma same_line_feed s1 s2 : same s1 s2 -> same_option (line_feed s1) (line_feed s2).
Proof.
  intros H. unfold line_feed.
  rewrite (same_proj (fun s => sb_scroll_bottom (vs_live s) <=? vs_cursor_row s) s1 s2) by done.
  destruct (_ <=? _); [by apply same_scroll_up|]. apply same_Some.
  by apply (same_pure (fun s => set_cursor_row (vs_cursor_row s + 1) s)).
Qed.

Lemma same_reverse_index s1 s2 : same s1 s2 -> same_option (reverse_index s1) (reverse_index s2).
Proof.
  intros H. unfold reverse_index.
  rewrite (same_proj (fun s => vs_cursor_row s =? sb_scroll_top (vs_live s)) s1 s2) by done.
  destruct (_ =? _); [by apply same_scroll_down|]. apply same_Some.
  by apply (same_pure (fun s => set_cursor_row (vs_cursor_row s - 1) s)).
Qed.

Lemma same_on_grid f s1 s2 : same s1 s2 -> same_option (on_grid f s1) (on_grid f s2).
Proof.
  intros H. unfold on_grid. rewrite (same_proj (fun s => vs_grid s) s1 s2) by done.
  destruct (f _) as [g|]; [|done]. apply same_Some.
  by apply (same_pure (fun s => on_live (set_sb_grid g) s)).
Qed.

Lemma same_print ch s1 s2 : same s1 s2 -> same_option (print ch s1) (print ch s2).
Proof.
  intros H. unfold print. rewrite (same_proj vs_cols s1 s2) by done.
  destruct (if _ : bool then _ else _) as [ch' width].
  rewrite (same_proj (fun s => vs_cursor_col s) s1 s2) by done. apply same_bind.
  - destruct (_ || _); [|by apply same_Some]. unfold wrap_line, on_row.
    rewrite (same_proj vs_cols s1 s2), (same_proj (fun s => vs_cursor_row s) s1 s2) by done.
    apply same_bind; [by apply same_on_grid|]. intros. apply same_line_feed.
    by apply (same_pure (set_cursor_col 0)).
  - intros s3 s4 H'. unfold on_row.
    rewrite (same_proj (fun s => vs_cursor_row s) s3 s4), (same_proj (fun s => vs_cursor_col s) s3 s4),
      (same_proj (fun s => sb_style (vs_live s)) s3 s4) by done.
    apply same_bind; [by apply same_on_grid|]. intros s5 s6 H''. apply same_Some.
    rewrite (same_proj (fun s => vs_cursor_col s) s5 s6) by done.
    by apply (same_pure (fun s => set_cursor_col _ s)).
Qed.

Lemma same_set_phase p s1 s2 : same s1 s2 -> same (set_phase p s1) (set_phase p s2).
Proof. by apply (same_pure (set_phase p)). Qed.

Lemma same_foldl {A} (f : VtScreen -> A -> VtScreen) l s1 s2 :
  (forall a s1 s2, same s1 s2 -> same (f s1 a) (f s2 a)) -> same s1 s2 -> same (foldl f s1 l) (foldl f s2 l).
Proof. intros Hf. revert s1 s2. induction l as [|a l IH]; intros s1 s2 H; cbn; auto. Qed.

Lemma same_set_mode mode : forall s1 s2, same s1 s2 -> same (set_private_mode s1 mode) (set_private_mode s2 mode).
Proof.
  open_same. unfold set_private_mode, enter_alternate_screen, same. cbn [vs_replaying_synchronized_output vs_primary_screen].
  repeat case_match; reflexivity.
Qed.

Lemma same_reset_mode mode : forall s1 s2, same s1 s2 -> same (reset_private_mode s1 mode) (reset_private_mode s2 mode).
Proof.
  open_same. unfold reset_private_mode, reset_mouse_mode, reset_mouse_encoding, leave_alternate_screen, same.
  cbn [vs_mouse_protocol_mode vs_mouse_encoding vs_primary_screen]. repeat case_match; reflexivity.
Qed.

Ltac same_row :=
  match goal with
  | H : same ?s1 ?s2 |- _ =>
      rewrite (same_proj (fun s => vs_cursor_row s) s1 s2) by done; by apply same_on_grid
  end.

Lemma same_erase_line s1 s2 : same s1 s2 -> same_option (erase_line s1) (erase_line s2).
Proof.
  intros H. unfold erase_line, on_row.
  rewrite (same_proj (fun s => param 0 0 s) s1 s2), (same_proj (fun s => vs_cursor_col s) s1 s2),
    (same_proj vs_cols s1 s2) by done.
  destruct (if _ : bool then _ else _) as [start end_]. same_row.
Qed.

Lemma same_erase_display s1 s2 : same s1 s2 -> same_option (erase_display s1) (erase_display s2).
Proof.
  intros H. unfold erase_display.
  rewrite (same_proj (fun s => param 0 0 s) s1 s2), (same_proj (fun s => vs_cursor_col s) s1 s2),
    (same_proj vs_cols s1 s2), (same_proj vs_rows s1 s2) by done. same_row.
Qed.

Lemma same_edits s1 s2 : same s1 s2 -> edit_start s1 = edit_start s2 /\ edit_count s1 = edit_count s2.
Proof. intros H. split; [by apply (same_proj edit_start)|by apply (same_proj edit_count)]. Qed.

Lemma same_delete s1 s2 : same s1 s2 -> same_option (delete_characters s1) (delete_characters s2).
Proof.
  intros H. unfold delete_characters, on_row. destruct (same_edits _ _ H) as [-> ->]. same_row.
Qed.

Lemma same_erase_chars s1 s2 : same s1 s2 -> same_option (erase_characters s1) (erase_characters s2).
Proof.
  intros H. unfold erase_characters, on_row. destruct (same_edits _ _ H) as [-> ->]. same_row.
Qed.

Lemma same_restore : forall s1 s2, same s1 s2 -> same (restore_cursor s1) (restore_cursor s2).
Proof. open_same. unfold restore_cursor, same. cbn [vs_live]. repeat case_match; reflexivity. Qed.

Lemma same_dispatch final s1 s2 : same s1 s2 -> same_output (dispatch_csi final s1) (dispatch_csi final s2).
Proof.
  intros H. unfold dispatch_csi. cbn zeta.
  rewrite (same_proj (fun s => param 0 1 s) s1 s2) by done.
  rewrite (same_proj vs_params s1 s2) by done.
  repeat match goal with
  | |- same_output (if ?b then _ else _) (if ?b then _ else _) => destruct b
  end;
  try (apply same_quiet; lazymatch goal with
       | |- same s1 s2 => exact H
       | |- same (?f s1) (?f s2) => by apply (same_pure f)
       | _ => idtac
       end);
  try (eapply same_bind_output; [|intros; by apply same_quiet]).
  all: auto using same_erase_line, same_erase_display, same_delete, same_erase_chars, same_scroll_up,
         same_scroll_down, same_restore.
  - by apply (same_pure (fun s => set_cursor_row (receded (vs_cursor_row s) (param 0 1 s2)) s)).
  - by apply (same_pure (fun s => set_cursor_row (advanced (vs_cursor_row s) (param 0 1 s2) (vs_rows s)) s)).
  - by apply (same_pure (fun s => set_cursor_col (advanced (vs_cursor_col s) (param 0 1 s2) (vs_cols s)) s)).
  - by apply (same_pure (fun s => set_cursor_col (receded (vs_cursor_col s) (param 0 1 s2)) s)).
  - by apply (same_pure (fun s => set_cursor_col (coordinate (param 0 1 s2) (vs_cols s)) s)).
  - by apply (same_pure (fun s => set_cursor_row (coordinate (param 0 1 s2) (vs_rows s)) s)).
  - by apply (same_pure (fun s => set_cursor_col (coordinate (param 1 1 s) (vs_cols s))
                                    (set_cursor_row (coordinate (param 0 1 s2) (vs_rows s)) s))).
  - by apply same_quiet, same_restore.
  - apply same_quiet. unfold set_private_modes. rewrite (same_proj private_modes s1 s2) by done.
    apply same_foldl; [intros; by apply same_set_mode|done].
  - apply same_quiet. unfold reset_private_modes. rewrite (same_proj private_modes s1 s2) by done.
    apply same_foldl; [intros; by apply same_reset_mode|done].
  - rewrite (same_proj cursor_report s1 s2) by done. by apply same_quiet.
Qed.

Lemma same_clear_utf8 s1 s2 : same s1 s2 -> same (clear_utf8 s1) (clear_utf8 s2).
Proof. by apply (same_pure clear_utf8). Qed.

Lemma same_flush s1 s2 : same s1 s2 -> same_option (flush_utf8 s1) (flush_utf8 s2).
Proof.
  intros H. unfold flush_utf8. rewrite (same_proj vs_utf8_pending s1 s2) by done. apply same_bind.
  - destruct (from_utf8 _ _) as [[|ch t]|]; [by apply same_Some|by apply same_print|by apply same_Some].
  - intros. by apply same_Some, same_clear_utf8.
Qed.

Lemma same_ground_byte b s1 s2 : same s1 s2 -> same_option (ground_byte b s1) (ground_byte b s2).
Proof.
  intros H. unfold ground_byte.
  repeat match goal with
  | |- same_option (if ?b then _ else _) (if ?b then _ else _) => destruct b
  end; try (by apply same_Some); try (by apply same_print); try (by apply same_line_feed).
  - by apply same_Some, same_set_phase.
  - apply same_Some. by apply (same_pure (set_cursor_col 0)).
  - apply same_Some. by apply (same_pure (fun s => set_cursor_col (vs_cursor_col s - 1) s)).
  - apply same_Some. by apply (same_pure tab).
  - apply same_Some.
    by apply (same_pure (fun s => set_utf8_pending (vs_utf8_pending s ++ [b]) (set_utf8_needed (utf8_len b) s))).
Qed.

Lemma same_ground b s1 s2 : same s1 s2 -> same_option (ground b s1) (ground b s2).
Proof.
  intros H. unfold ground. rewrite (same_proj vs_utf8_pending s1 s2) by done.
  destruct (negb _); [|by apply same_ground_byte].
  destruct (continuation_byte b); [|by apply same_ground_byte, same_clear_utf8].
  assert (H' : same (set_utf8_pending (vs_utf8_pending s2 ++ [b]) s1)
                    (set_utf8_pending (vs_utf8_pending s2 ++ [b]) s2))
    by by apply (same_pure (set_utf8_pending _)).
  cbv zeta. rewrite (same_proj (fun s => vs_utf8_needed s <=? length (vs_utf8_pending s)) _ _ ltac:(done) H').
  destruct (_ <=? _); [by apply same_flush|by apply same_Some].
Qed.

Lemma same_escape b s1 s2 : same s1 s2 -> same_option (escape_byte b s1) (escape_byte b s2).
Proof.
  intros H. unfold escape_byte.
  repeat match goal with
  | |- same_option (if ?b then _ else _) (if ?b then _ else _) => destruct b
  end; try (by apply same_Some, same_set_phase).
  - apply same_Some. by apply (same_pure (fun s => set_phase Csi (set_params [] s))).
  - apply same_Some. by apply (same_pure (fun s => set_phase Ground (save_cursor s))).
  - by apply same_Some, same_set_phase, same_restore.
  - apply same_bind; [by apply same_reverse_index|]. intros. by apply same_Some, same_set_phase.
Qed.

Lemma same_csi b s1 s2 : same s1 s2 -> same_output (csi b s1) (csi b s2).
Proof.
  intros H. unfold csi. rewrite (same_proj vs_params s1 s2) by done.
  destruct (in_range 32 63 b); [destruct (_ <? _)%N|destruct (in_range 64 126 b)].
  - apply same_quiet. by apply (same_pure (set_params _)).
  - apply same_quiet. by apply (same_pure (fun s => set_phase CsiOverflow (set_params [] s))).
  - apply same_output_bind; [by apply same_dispatch|]. intros. by apply same_quiet, same_set_phase.
  - by apply same_quiet, same_set_phase.
Qed.

Lemma same_feed_parsed b s1 s2 : same s1 s2 -> same_output (feed_parsed b s1) (feed_parsed b s2).
Proof.
  intros H. unfold feed_parsed. rewrite (same_proj vs_phase s1 s2) by done.
  destruct (vs_phase s2).
  - apply same_bind_output; [by apply same_ground|]. intros. by apply same_quiet.
  - apply same_bind_output; [by apply same_escape|]. intros. by apply same_quiet.
  - by apply same_csi.
  - apply same_quiet. unfold csi_overflow. destruct (in_range _ _ _); [by apply same_set_phase|done].
  - apply same_quiet. unfold osc. repeat case_match; [by apply same_set_phase..|done].
  - by apply same_quiet, same_set_phase.
Qed.

Lemma same_feed_all step bytes s1 s2 :
  (forall b s1 s2, same s1 s2 -> same_output (step b s1) (step b s2)) -> same s1 s2 ->
  same_output (feed_all step bytes s1) (feed_all step bytes s2).
Proof.
  intros Hstep. revert s1 s2. induction bytes as [|b bytes IH]; intros s1 s2 H; cbn [feed_all].
  - by apply same_quiet.
  - apply same_output_bind; [by apply Hstep|]. intros s3 s4 r H'.
    apply same_output_bind; [by apply IH|]. intros. by apply same_quiet.
Qed.

Lemma same_feed b s1 s2 : same s1 s2 -> same_output (feed b s1) (feed b s2).
Proof.
  intros H. unfold feed. rewrite (same_proj vs_synchronized_output s1 s2),
    (same_proj vs_replaying_synchronized_output s1 s2) by done.
  destruct (vs_synchronized_output s2) as [pending|]; [|by apply same_feed_parsed].
  destruct (vs_replaying_synchronized_output s2); [by apply same_feed_parsed|]. cbv zeta.
  destruct (_ || _).
  - unfold commit_synchronized_output. cbn [vs_synchronized_output set_synchronized_output].
    apply same_output_bind.
    + apply same_feed_all; [apply same_feed_parsed|].
      by apply (same_pure (fun s => set_replaying_synchronized_output true
                  (set_synchronized_output None (set_synchronized_output (Some (pending ++ [b])) s)))).
    + intros s3 s4 r H'. apply same_quiet. by apply (same_pure (set_replaying_synchronized_output false)).
  - apply same_quiet. by apply (same_pure (set_synchronized_output _)).
Qed.

(** *** The law *)
Lemma feed_all_app step a b s :
  feed_all step (a ++ b) s =
  ('(s, r1) ← feed_all step a s; '(s, r2) ← feed_all step b s; Some (s, r1 ++ r2)).
Proof.
  revert s. induction a as [|byte a IH]; intros s; cbn [app feed_all].
  - cbn. by destruct (feed_all step b s) as [[s' r]|].
  - destruct (step byte s) as [[s1 r1]|]; cbn; [|done]. rewrite IH.
    destruct (feed_all step a s1) as [[s2 r2]|]; cbn; [|done].
    destruct (feed_all step b s2) as [[s3 r3]|]; cbn; [|done]. by rewrite app_assoc.
Qed.

(** A stream handed over in chunks, with the replies collected. *)
Fixpoint advance_chunks (chunks : list (list N)) (s : VtScreen) : option (VtScreen * list N) :=
  match chunks with
  | [] => Some (s, [])
  | chunk :: chunks =>
      '(s, replies) ← advance_with_replies chunk s;
      '(s, more) ← advance_chunks chunks s;
      Some (s, replies ++ more)
  end.

Lemma advance_with_replies_eq bytes s :
  advance_with_replies bytes s =
  (fun p => (erase p.1, p.2)) <$> feed_all feed bytes (erase s).
Proof.
  unfold advance_with_replies, advance_with_replies_and_row_motions. fold (erase s).
  by destruct (feed_all feed bytes (erase s)) as [[s' r]|].
Qed.

(** C9: how the terminal's output is cut into chunks makes no difference: the
    screen and the replies are those of the whole stream. *)
Theorem cutting_is_invisible chunks s (Hs : vs_retained_row_motions s = []) :
  advance_chunks chunks s = advance_with_replies (mjoin chunks) s.
Proof.
  revert s Hs. induction chunks as [|chunk chunks IH]; intros s Hs; cbn [advance_chunks].
  - rewrite advance_with_replies_eq. cbn. destruct s. cbn in *. by subst.
  - change (mjoin (chunk :: chunks)) with (chunk ++ mjoin chunks).
    rewrite !advance_with_replies_eq, feed_all_app.
    destruct (feed_all feed chunk (erase s)) as [[s1 r1]|]; cbn; [|done].
    rewrite IH by done. rewrite advance_with_replies_eq.
    assert (H : same_output (feed_all feed (mjoin chunks) (erase (erase s1))) (feed_all feed (mjoin chunks) s1))
      by by apply same_feed_all; [apply same_feed|].
    change (set_retained_row_motions [] s1) with (erase s1).
    unfold same_output in H. rewrite H. by destruct (feed_all feed (mjoin chunks) s1) as [[s2 r2]|].
Qed.
End cutting.

Lemma cutting_is_invisible_witness :
  let U := cjk_width in
  let s := new 2 3 in
  vs_retained_row_motions s = [] /\
  advance_chunks [[97; 227]; [129]; [130; 27]; txt "[6"; txt "n"]%N s
  = advance_with_replies ([97; 227; 129; 130; 27]%N ++ txt "[6n") s.
Proof. split; [reflexivity|]. exact (@cutting_is_invisible cjk_width
    [[97; 227]; [129]; [130; 27]; txt "[6"; txt "n"]%N (new 2 3) eq_refl). Defined.

(** ** Characters *)

(** The Unicode scalar values and their encoding ([char::encode_utf8]). *)
Definition scalar (c : char) : Prop := (c < 55296 \/ 57344 <= c <= 1114111)%N.
Definition encode_utf8 (c : char) : list N :=
  (if c <? 128 then [c]
   else if c <? 2048 then [192 + c / 64; 128 + c mod 64]
   else if c <? 65536 then [224 + c / 4096; 128 + c / 64 mod 64; 128 + c mod 64]
   else [240 + c / 262144; 128 + c / 4096 mod 64; 128 + c / 64 mod 64; 128 + c mod 64])%N.

Lemma in_range_false lo hi n : in_range lo hi n = false <-> (n < lo \/ hi < n)%N.
Proof. unfold in_range. rewrite andb_false_iff, !N.leb_gt. done. Qed.

(** Decides the comparisons of a decoder step from linear facts. *)
Ltac range_true := rewrite (proj2 (in_range_true _ _ _)) by lia.
Ltac range_false := rewrite (proj2 (in_range_false _ _ _)) by lia.

Ltac Zify.zify_post_hook ::= Z.to_euclidean_division_equations.

Lemma decode_two c : (128 <= c < 2048)%N ->
  utf8_next [192 + c / 64; 128 + c mod 64]%N = Some (c, []).
Proof.
  intros H. unfold utf8_next, continuation_byte.
  rewrite (proj2 (N.ltb_ge _ _)) by lia. range_true. range_true. do 2 f_equal. lia.
Qed.

Lemma decode_three c : (2048 <= c < 65536)%N -> scalar c ->
  utf8_next [224 + c / 4096; 128 + c / 64 mod 64; 128 + c mod 64]%N = Some (c, []).
Proof.
  intros H Hs. unfold scalar in Hs. unfold utf8_next, continuation_byte.
  rewrite (proj2 (N.ltb_ge _ _)) by lia. range_false. range_true.
  assert (in_range (if (224 + c / 4096 =? 224)%N then 160 else 128)
            (if (224 + c / 4096 =? 237)%N then 159 else 191) (128 + c / 64 mod 64) = true) as ->.
  { apply in_range_true. destruct (N.eqb_spec (224 + c / 4096) 224), (N.eqb_spec (224 + c / 4096) 237); lia. }
  range_true. cbn [andb]. do 2 f_equal. lia.
Qed.

Lemma decode_four c : (65536 <= c)%N -> scalar c ->
  utf8_next [240 + c / 262144; 128 + c / 4096 mod 64; 128 + c / 64 mod 64; 128 + c mod 64]%N = Some (c, []).
Proof.
  intros H Hs. unfold scalar in Hs. unfold utf8_next, continuation_byte.
  rewrite (proj2 (N.ltb_ge _ _)) by lia. range_false. range_false. range_true.
  assert (in_range (if (240 + c / 262144 =? 240)%N then 144 else 128)
            (if (240 + c / 262144 =? 244)%N then 143 else 191) (128 + c / 4096 mod 64) = true) as ->.
  { apply in_range_true. destruct (N.eqb_spec (240 + c / 262144) 240), (N.eqb_spec (240 + c / 262144) 244); lia. }
  range_true. range_true. cbn [andb]. do 2 f_equal. lia.
Qed.

Lemma from_utf8_encode c : scalar c -> (128 <= c)%N ->
  from_utf8 (length (encode_utf8 c)) (encode_utf8 c) = Some [c].
Proof.
  intros Hs Hc. unfold encode_utf8. rewrite (proj2 (N.ltb_ge c 128)) by lia.
  destruct (N.ltb_spec c 2048); [|destruct (N.ltb_spec c 65536)]; cbn [length from_utf8].
  - by rewrite decode_two.
  - by rewrite decode_three.
  - by rewrite decode_four.
Qed.

(** A decoded character is a scalar value, written in its only encoding. *)
Lemma utf8_next_sound b bytes c rest :
  (128 <= b)%N -> utf8_next (b :: bytes) = Some (c, rest) ->
  scalar c /\ (128 <= c)%N /\ b :: bytes = encode_utf8 c ++ rest /\ utf8_len b = length (encode_utf8 c).
Proof.
  intros Hb H. unfold utf8_next, continuation_byte in H. rewrite (proj2 (N.ltb_ge b 128)) in H by lia.
  unfold encode_utf8, scalar, utf8_len.
  destruct (in_range 194 223 b) eqn:E1; [|destruct (in_range 224 239 b) eqn:E2;
    [|destruct (in_range 240 244 b) eqn:E3; [|done]]].
  - destruct bytes as [|b1 bytes]; [done|]. destruct (in_range 128 191 b1) eqn:C1; [|done].
    injection H as <- <-. apply in_range_true in E1, C1.
    rewrite (proj2 (N.ltb_ge _ 128)), (proj2 (N.ltb_lt _ 2048)) by lia. range_false. range_false. range_true.
    cbn [app length]. split_and!; try lia. repeat f_equal; lia.
  - destruct bytes as [|b1 [|b2 bytes]]; try done.
    destruct (in_range _ _ b1 && _) eqn:C; [|done]. injection H as <- <-.
    apply andb_true_iff in C as [C1 C2]. apply in_range_true in E2, C1, C2.
    destruct (N.eqb_spec b 224), (N.eqb_spec b 237); try lia;
      (rewrite (proj2 (N.ltb_ge _ 128)), (proj2 (N.ltb_ge _ 2048)), (proj2 (N.ltb_lt _ 65536)) by lia;
       try range_false; try range_true; cbn [app length]; split_and!; try lia; repeat f_equal; lia).
  - destruct bytes as [|b1 [|b2 [|b3 bytes]]]; try done.
    destruct (in_range _ _ b1 && _ && _) eqn:C; [|done]. injection H as <- <-.
    apply andb_true_iff in C as [[C1 C2]%andb_true_iff C3]. apply in_range_true in E3, C1, C2, C3.
    destruct (N.eqb_spec b 240), (N.eqb_spec b 244); try lia;
      (rewrite (proj2 (N.ltb_ge _ 128)), (proj2 (N.ltb_ge _ 2048)), (proj2 (N.ltb_ge _ 65536)) by lia;
       try range_true; cbn [app length]; split_and!; try lia; repeat f_equal; lia).
Qed.

Lemma from_utf8_sound b bytes t :
  (128 <= b)%N -> length (b :: bytes) = utf8_len b ->
  from_utf8 (length (b :: bytes)) (b :: bytes) = Some t ->
  exists c, scalar c /\ (128 <= c)%N /\ b :: bytes = encode_utf8 c /\ t = [c].
Proof.
  intros Hb Hl H. cbn [length from_utf8] in H. apply bind_Some in H as ([c rest] & Hn & H).
  apply utf8_next_sound in Hn as (Hs & Hc & E & Hlen); [|done]. exists c.
  assert (rest = []) as ->.
  { apply length_zero_iff_nil. apply (f_equal length) in E. rewrite length_app in E. lia. }
  rewrite app_nil_r in E. split_and!; try done. apply bind_Some in H as (t' & Ht & H). injection H as <-.
  destruct (length bytes); by injection Ht as <-.
Qed.

(** *** The loop that collects the bytes of a character *)
Section characters.
Context {U : UnicodeWidth}.

(** Between two characters of plain text. *)
Record at_text (s : VtScreen) : Prop := {
  tx_phase : vs_phase s = Ground;
  tx_pending : vs_utf8_pending s = [];
  tx_hidden : vs_synchronized_output s = None
}.

Definition collecting (bytes : list N) (needed : nat) (s : VtScreen) : VtScreen :=
  set_utf8_pending bytes (set_utf8_needed needed s).

Lemma feed_ground b s : vs_phase s = Ground -> vs_synchronized_output s = None ->
  feed b s = (s ← ground b s; Some (s, [])).
Proof. intros Hp Hh. unfold feed, feed_parsed. by rewrite Hh, Hp. Qed.

Lemma collect_bytes bytes got needed s :
  at_text s -> Forall (fun b => continuation_byte b = true) bytes -> got <> [] -> bytes <> [] ->
  length got + length bytes = needed ->
  feed_all feed bytes (collecting got needed s)
  = (s ← flush_utf8 (collecting (got ++ bytes) needed s); Some (s, [])).
Proof.
  intros [Hp _ Hh] Hc Hgot Hne Hl. revert got Hgot Hl.
  induction Hc as [|b bytes Hb Hbytes IH]; intros got Hgot Hl; [done|]. cbn [feed_all].
  rewrite feed_ground by done. unfold ground.
  replace (is_empty (vs_utf8_pending (collecting got needed s))) with false by (by destruct got).
  cbn [negb]. rewrite Hb. cbv zeta.
  change (set_utf8_pending (vs_utf8_pending (collecting got needed s) ++ [b]) (collecting got needed s))
    with (collecting (got ++ [b]) needed s).
  change (vs_utf8_needed (collecting (got ++ [b]) needed s)) with needed.
  change (vs_utf8_pending (collecting (got ++ [b]) needed s)) with (got ++ [b]).
  rewrite length_app. cbn [length] in Hl |- *. destruct bytes as [|b' bytes].
  - rewrite (proj2 (Nat.leb_le _ _)) by (cbn in Hl; lia).
    destruct (flush_utf8 _) as [s'|]; cbn; [|done]. done.
  - rewrite (proj2 (Nat.leb_gt _ _)) by (cbn in Hl; lia). cbn [mbind option_bind].
    rewrite (IH ltac:(done) (got ++ [b])); [|by destruct got|rewrite length_app; cbn in Hl |- *; lia].
    rewrite <- app_assoc. cbn [app].
    destruct (flush_utf8 _) as [s'|]; cbn; done.
Qed.

Lemma feed_sequence b bytes s :
  at_text s -> (128 <= b)%N -> bytes <> [] -> length (b :: bytes) = utf8_len b ->
  Forall (fun b => continuation_byte b = true) bytes ->
  feed_all feed (b :: bytes) s
  = (s ← flush_utf8 (collecting (b :: bytes) (utf8_len b) s); Some (s, [])).
Proof.
  intros Hs Hb Hne Hl Hc. cbn [feed_all]. destruct Hs as [Hp Hpend Hh].
  rewrite feed_ground by done. unfold ground. rewrite Hpend. cbn [is_empty negb].
  unfold ground_byte. rewrite !(proj2 (N.eqb_neq b _)) by lia. range_false. range_false. cbn [orb].
  assert (Hlen : 1 < utf8_len b) by (rewrite <- Hl; destruct bytes; [done|cbn; lia]).
  rewrite (proj2 (Nat.ltb_lt _ _) Hlen), Hpend. cbn [app mbind option_bind].
  fold (collecting [b] (utf8_len b) s).
  rewrite (collect_bytes bytes [b] (utf8_len b) s); [|done..|by rewrite <- Hl].
  by destruct (flush_utf8 _) as [s'|].
Qed.

(** Text is decoded exactly: a leading byte and the continuation bytes it
    announces print one character if they are the UTF-8 encoding of a scalar
    value, the character they encode, and print nothing otherwise; either way
    the decoder is ready for the next character. *)
Theorem characters_are_decoded_exactly b bytes s
    (Htext : at_text s) (Hlead : (128 <= b)%N) (Hlen : length (b :: bytes) = utf8_len b)
    (Hcont : Forall (fun b => continuation_byte b = true) bytes) (Hmany : bytes <> []) :
  let s' := collecting (b :: bytes) (utf8_len b) s in
  (forall c, scalar c -> b :: bytes = encode_utf8 c ->
     feed_all feed (b :: bytes) s = (s ← print c s'; Some (clear_utf8 s, []))) /\
  ((forall c, scalar c -> b :: bytes <> encode_utf8 c) ->
     feed_all feed (b :: bytes) s = Some (clear_utf8 s, [])).
Proof.
  cbn zeta. rewrite feed_sequence by done. unfold flush_utf8.
  change (vs_utf8_pending (collecting (b :: bytes) (utf8_len b) s)) with (b :: bytes). split.
  - intros c Hc E. assert (Hc128 : (128 <= c)%N).
    { destruct (decide (c < 128)%N) as [Hlt|]; [|lia]. unfold encode_utf8 in E.
      rewrite (proj2 (N.ltb_lt c 128) Hlt) in E. injection E as _ ->. done. }
    assert (Hd : from_utf8 (length (b :: bytes)) (b :: bytes) = Some [c])
      by (rewrite E; by apply from_utf8_encode).
    rewrite Hd. by destruct (print c _).
  - intros Hno. destruct (from_utf8 _ _) as [t|] eqn:Hd; [|by destruct s].
    apply from_utf8_sound in Hd as (c & Hc & _ & E & _); [|done..]. by destruct (Hno c Hc).
Qed.
End characters.

Lemma characters_are_decoded_exactly_witness :
  let U := cjk_width in
  at_text (new 1 4) /\
  feed_all feed [227; 129; 130]%N (new 1 4)
  = (s ← print 12354%N (collecting [227; 129; 130]%N 3 (new 1 4)); Some (clear_utf8 s, [])) /\
  feed_all feed [224; 128; 128]%N (new 1 4) = Some (clear_utf8 (new 1 4), []).
Proof.
  assert (H : at_text (new 1 4)) by by split.
  split; [done|]. split.
  - apply (@characters_are_decoded_exactly cjk_width 227 [129; 130]%N (new 1 4) H);
      [done|done|by repeat constructor|done|left; done|done].
  - apply (@characters_are_decoded_exactly cjk_width 224 [128; 128]%N (new 1 4) H);
      [done|done|by repeat constructor|done|].
    intros c Hc E. unfold encode_utf8 in E. repeat case_match; try done.
    injection E as E1 E2 E3.
    match goal with H : (c <? 2048)%N = false |- _ => apply N.ltb_ge in H end. lia.
Defined.
