(* ===== verification/VtRetention.v ===== *)
(** * Hidden frames and bounded history

    A synchronized frame is kept back and committed in one step.  Trimming
    drops the oldest history only, and brings a screen inside any budget its
    visible grids fit. *)
From S2P Require Export VtDecoder.

Section retention.
Context {U : UnicodeWidth}.

(** ** Synchronized output *)

(** A screen whose frame has been opened and holds [pending]. *)
Definition holding (pending : list N) (s : VtScreen) : VtScreen :=
  set_synchronized_output (Some pending) s.

(** The bytes do not complete a frame: no prefix of them ends with the marker,
    and they fit the bound. *)
Definition incomplete (bytes : list N) : Prop :=
  (forall before after, bytes = before ++ after -> ends_with SYNCHRONIZED_OUTPUT_END before = false) /\
  (N.of_nat (length bytes) <= SYNCHRONIZED_OUTPUT_MAX)%N.

Lemma incomplete_prefix before after : incomplete (before ++ after) -> incomplete before.
Proof.
  intros [H Hl]. split.
  - intros b a E. apply (H b (a ++ after)). by rewrite E, app_assoc.
  - rewrite length_app in Hl. lia.
Qed.

Lemma hold_bytes bytes pending s :
  vs_replaying_synchronized_output s = false -> incomplete (pending ++ bytes) ->
  feed_all feed bytes (holding pending s) = Some (holding (pending ++ bytes) s, []).
Proof.
  intros Hr. revert pending. induction bytes as [|b bytes IH]; intros pending Hi.
  - cbn. by rewrite app_nil_r.
  - rewrite cons_middle, app_assoc in Hi. cbn [feed_all].
    assert (Hb := incomplete_prefix _ _ Hi). destruct Hb as [He Hl].
    assert (E : feed b (holding pending s) = Some (holding (pending ++ [b]) s, [])).
    { unfold feed. cbn [vs_synchronized_output vs_replaying_synchronized_output holding set_synchronized_output].
      rewrite Hr. cbv zeta. rewrite (He (pending ++ [b]) []) by by rewrite app_nil_r.
      by rewrite (proj2 (N.ltb_ge _ _) Hl). }
    rewrite E. cbn [mbind option_bind]. rewrite (IH (pending ++ [b]) Hi). cbn.
    by rewrite <- app_assoc.
Qed.

Lemma ends_with_app suffix l : ends_with suffix (l ++ suffix) = true.
Proof.
  unfold ends_with. rewrite length_app. rewrite (proj2 (Nat.leb_le _ _)) by lia.
  replace (length l + length suffix - length suffix) with (length l) by lia.
  by rewrite drop_app_length, bool_decide_true.
Qed.

(** The closing marker of a frame is at its end and nowhere before. *)
Definition closes_last (frame : list N) : bool :=
  forallb (fun n => negb (ends_with SYNCHRONIZED_OUTPUT_END (take n frame))) (seq 0 (length frame)).

Lemma closes_last_incomplete frame before after :
  closes_last frame = true -> (N.of_nat (length frame) <= SYNCHRONIZED_OUTPUT_MAX)%N ->
  frame = before ++ after -> after <> [] -> incomplete before.
Proof.
  intros Hc Hl -> Hne. unfold closes_last in Hc. rewrite forallb_forall in Hc. rewrite length_app in Hl, Hc.
  split; [|lia]. intros b a ->. apply negb_true_iff.
  assert (H := Hc (length b)). rewrite <- !app_assoc, take_app_length in H. apply H.
  apply in_seq. rewrite length_app. destruct after; [done|cbn]. lia.
Qed.

(** A synchronized frame is atomic: while its bytes arrive nothing of the
    screen moves, however much of the body is there; the byte that completes the
    closing marker applies the whole body at once, in one step that reads the
    body as the decoder would, except that a nested opening marker is ignored. *)
Theorem synchronized_frames_are_atomic body s
    (Hr : vs_replaying_synchronized_output s = false)
    (Hlast : closes_last (body ++ SYNCHRONIZED_OUTPUT_END) = true)
    (Hfits : (N.of_nat (length (body ++ SYNCHRONIZED_OUTPUT_END)) <= SYNCHRONIZED_OUTPUT_MAX)%N) :
  (forall shown after, body = shown ++ after ->
     feed_all feed shown (holding [] s) = Some (holding shown s, [])) /\
  feed_all feed (body ++ SYNCHRONIZED_OUTPUT_END) (holding [] s)
  = ('(s, replies) ← feed_all feed_parsed (body ++ SYNCHRONIZED_OUTPUT_END)
        (set_replaying_synchronized_output true (set_synchronized_output None s));
     Some (set_replaying_synchronized_output false s, replies)).
Proof.
  assert (Hbody := fun before after => closes_last_incomplete _ before after Hlast Hfits).
  assert (Hhold : forall shown after, body ++ SYNCHRONIZED_OUTPUT_END = shown ++ after -> after <> [] ->
            feed_all feed shown (holding [] s) = Some (holding shown s, [])).
  { intros shown after E Hne. rewrite (hold_bytes shown [] s Hr); [done|]. by eapply Hbody. }
  split.
  - intros shown after ->. eapply (Hhold shown (after ++ SYNCHRONIZED_OUTPUT_END)).
    + by rewrite app_assoc.
    + by destruct after.
  - destruct (exists_last (l := body ++ SYNCHRONIZED_OUTPUT_END)) as (shown & last & E); [by destruct body|].
    rewrite E, feed_all_app, (Hhold shown [last]) by done. cbn [mbind option_bind feed_all].
    unfold feed at 1. cbn [vs_synchronized_output vs_replaying_synchronized_output holding set_synchronized_output].
    rewrite Hr. cbv zeta. rewrite <- E, ends_with_app. cbn [orb].
    unfold commit_synchronized_output. cbn [vs_synchronized_output set_synchronized_output default].
    change (set_synchronized_output None (set_synchronized_output _ ?s)) with (set_synchronized_output None s).
    destruct (feed_all feed_parsed _ _) as [[s' r]|]; cbn; [|done]. by rewrite app_nil_r.
Qed.

(** ** Trimming *)
Lemma trim_rows_spec keep (rows : list (list Cell)) :
  (trim_rows keep rows).1 = drop (trim_rows keep rows).2 rows /\
  (N.of_nat (length (trim_rows keep rows).1) <= keep)%N /\
  (trim_rows keep rows).2 = length rows - length (trim_rows keep rows).1.
Proof. unfold trim_rows. cbn. rewrite length_drop. split_and!; try done; lia. Qed.

(** Cells of the visible grids: what trimming can not go below. *)
Definition visible_cells (s : VtScreen) : nat :=
  (vs_rows s + from_option (fun p => length (sb_grid p)) 0 (vs_primary_screen s)) * vs_cols s.

Lemma div_mul_le a b : (b <> 0)%N -> (a / b * b <= a)%N.
Proof. intros. rewrite N.mul_comm. by apply N.Div0.mul_div_le. Qed.

Lemma visible_le_retained s : visible_cells s <= retained_cells s.
Proof.
  unfold visible_cells, retained_cells. apply Nat.mul_le_mono_r.
  destruct (vs_primary_screen s); cbn; lia.
Qed.

Lemma trim_within n s : 0 < vs_cols s ->
  (N.of_nat (retained_cells (trim_to_cells n s).1) <= N.max n (N.of_nat (visible_cells s)))%N.
Proof.
  intros Hc. unfold trim_to_cells, retained_cells, visible_cells.
  set (cols := vs_cols s) in *. set (rows := vs_rows s).
  set (grid := from_option (fun p => length (sb_grid p)) 0 (vs_primary_screen s)).
  set (buffers := from_option (fun _ => 2%N) 1%N (vs_primary_screen s)).
  set (keep := ((n / N.of_nat cols - N.of_nat (rows + grid)) / buffers)%N).
  assert (Hq : (n / N.of_nat cols * N.of_nat cols <= n)%N) by (apply div_mul_le; lia).
  assert (Hk : (keep * buffers <= n / N.of_nat cols - N.of_nat (rows + grid))%N).
  { apply div_mul_le. unfold buffers. by destruct (vs_primary_screen s). }
  assert (Hl := proj1 (proj2 (trim_rows_spec keep (vs_scrollback s)))). cbn in Hl.
  assert (Hfin : forall m, (N.of_nat m <= keep * buffers)%N ->
            (N.of_nat ((rows + grid + m) * cols) <= N.max n (N.of_nat ((rows + grid) * cols)))%N).
  { intros m Hm. destruct (decide (m = 0)) as [->|Hm0]; [rewrite Nat.add_0_r; lia|].
    assert (Hle : (N.of_nat (rows + grid + m) <= n / N.of_nat cols)%N) by lia.
    rewrite Nat2N.inj_mul. assert (H := N.mul_le_mono_r _ _ (N.of_nat cols) Hle). lia. }
  unfold trim_buffer. cbn [trim_rows]. change (vs_primary_screen (set_live _ s)) with (vs_primary_screen s).
  subst grid buffers. destruct (vs_primary_screen s) as [p|] eqn:Ep; cbn in *.
  - assert (Hp := proj1 (proj2 (trim_rows_spec keep (sb_scrollback p)))). cbn in Hp.
    rewrite !length_drop in *. eapply N.le_trans; [|apply (Hfin
      (length (vs_scrollback s) - N.to_nat (N.of_nat (length (vs_scrollback s)) - keep) +
       (length (sb_scrollback p) - N.to_nat (N.of_nat (length (sb_scrollback p)) - keep)))); lia].
    apply N.eq_le_incl. f_equal. fold cols rows. lia.
  - rewrite Ep. cbn. rewrite !length_drop in *. eapply N.le_trans; [|apply (Hfin
      (length (vs_scrollback s) - N.to_nat (N.of_nat (length (vs_scrollback s)) - keep))); lia].
    apply N.eq_le_incl. f_equal. fold cols rows. lia.
Qed.
End retention.

Lemma synchronized_frames_are_atomic_witness :
  let U := cjk_width in
  let s := new 1 4 in
  let body := txt "ab" ++ [27]%N ++ txt "[1;1Hc" in
  closes_last (body ++ SYNCHRONIZED_OUTPUT_END) = true /\
  feed_all feed (txt "ab") (holding [] s) = Some (holding (txt "ab") s, []).
Proof.
  assert (Hlast : closes_last ((txt "ab" ++ [27]%N ++ txt "[1;1Hc") ++ SYNCHRONIZED_OUTPUT_END) = true)
    by reflexivity.
  split; [exact Hlast|].
  assert (Hfits : (N.of_nat (length ((txt "ab" ++ [27]%N ++ txt "[1;1Hc") ++ SYNCHRONIZED_OUTPUT_END))
                     <= SYNCHRONIZED_OUTPUT_MAX)%N) by by vm_compute.
  exact (proj1 (@synchronized_frames_are_atomic cjk_width _ (new 1 4) eq_refl Hlast Hfits)
           (txt "ab") ([27]%N ++ txt "[1;1Hc") eq_refl).
Defined.
