(* ===== verification/InputOperations.v ===== *)
(** * The ledger of terminal input operations
      ([crates/daemon/src/usecase/terminal.rs], [InputOperationLedger])

    A client that lost an acknowledgement reconnects and asks again under the
    same operation identity; the daemon must then answer from this ledger and
    never write the bytes a second time.  The ledger is bounded in count, in
    count per client, in bytes and in age.

    The hash map of records is a [gmap]; [expire] collects the expired keys in
    the order of the map, which no result depends on. *)
From S2P Require Export Ids.

Inductive InputAck : Type :=
| Written
| Failed
| Ambiguous (applied_prefix : N)
| Cached (inner : InputAck).

#[export] Instance input_ack_eq_dec : EqDecision InputAck.
Proof. solve_decision. Defined.

Record InputOperationBounds := MkInputOperationBounds {
  iob_max_operations : nat;
  iob_max_operations_per_client : nat;
  iob_max_bytes : N;
  iob_max_age_ms : N
}.

(** The default bounds; [N.to_nat] keeps the literal in binary. *)
Definition InputOperationBounds_default : InputOperationBounds :=
  MkInputOperationBounds (N.to_nat 4096) 256 (1024 * 1024) (5 * 60 * 1000).

Inductive OperationLookup : Type :=
| Absent
| Recorded (ack : InputAck)
| Conflict.

Record InputOperationRecord := MkInputOperationRecord {
  ior_terminal : string;
  ior_digest : string;
  ior_ack : InputAck;
  ior_bytes : N;
  ior_recorded_at_ms : N
}.

Notation operation_key := (ClientId * OperationId)%type (only parsing).

Record InputOperationLedger := MkInputOperationLedger {
  iol_bounds : InputOperationBounds;
  iol_records : gmap (ClientId * OperationId) InputOperationRecord;
  iol_order : list (ClientId * OperationId);
  iol_bytes : N
}.

Definition InputOperationLedger_new (bounds : InputOperationBounds) : InputOperationLedger :=
  MkInputOperationLedger bounds ∅ [] 0.

Definition release (key : operation_key) (l : InputOperationLedger) : InputOperationLedger :=
  match iol_records l !! key with
  | Some record =>
      MkInputOperationLedger (iol_bounds l) (delete key (iol_records l))
        (retain (fun queued => bool_decide (queued <> key)) (iol_order l))
        (iol_bytes l - ior_bytes record)
  | None => l
  end.

Definition expired (now_ms max_age_ms : N) (record : InputOperationRecord) : bool :=
  (max_age_ms <? now_ms - ior_recorded_at_ms record)%N.

Definition release_all (keys : list operation_key) (l : InputOperationLedger) : InputOperationLedger :=
  foldl (fun l key => release key l) l keys.

Definition expire (now_ms : N) (l : InputOperationLedger) : InputOperationLedger :=
  let old := filter (fun kr => expired now_ms (iob_max_age_ms (iol_bounds l)) kr.2 = true)
               (map_to_list (iol_records l)) in
  release_all old.*1 l.

Definition lookup_operation (client : ClientId) (operation : OperationId) (terminal digest : string)
    (now_ms : N) (l : InputOperationLedger) : OperationLookup * InputOperationLedger :=
  let l := expire now_ms l in
  (match iol_records l !! (client, operation) with
   | Some record =>
       if bool_decide (ior_terminal record = terminal) && bool_decide (ior_digest record = digest)
       then Recorded (ior_ack record) else Conflict
   | None => Absent
   end, l).

Definition recorded (client : ClientId) (operation : OperationId) (terminal : string)
    (now_ms : N) (l : InputOperationLedger) : option InputAck * InputOperationLedger :=
  let l := expire now_ms l in
  (match iol_records l !! (client, operation) with
   | Some record => if bool_decide (ior_terminal record = terminal) then Some (ior_ack record) else None
   | None => None
   end, l).

Definition owned_by (client : ClientId) (key : operation_key) : bool := bool_decide (key.1 = client).

Definition per_client (client : ClientId) (l : InputOperationLedger) : nat :=
  count (owned_by client) (map_to_list (iol_records l)).*1.

(** A loop [while over && let Some(oldest) = next { release(oldest) }].  Every
    round takes a key out of the queue, so the length of the queue is enough
    fuel ([release_while_done]). *)
Fixpoint release_while (fuel : nat) (over : InputOperationLedger -> bool)
    (next : list operation_key -> option operation_key) (l : InputOperationLedger) : InputOperationLedger :=
  match fuel with
  | O => l
  | S fuel =>
      if over l then
        match next (iol_order l) with
        | Some oldest => release_while fuel over next (release oldest l)
        | None => l
        end
      else l
  end.

Definition over_client (client : ClientId) (l : InputOperationLedger) : bool :=
  iob_max_operations_per_client (iol_bounds l) <? per_client client l.
Definition over_total (l : InputOperationLedger) : bool :=
  (iob_max_operations (iol_bounds l) <? size (iol_records l)) ||
  (iob_max_bytes (iol_bounds l) <? iol_bytes l)%N.

Definition enforce_bounds (client : ClientId) (l : InputOperationLedger) : InputOperationLedger :=
  let l := release_while (length (iol_order l)) (over_client client) (find_first (owned_by client)) l in
  release_while (length (iol_order l)) over_total head l.

Definition record_operation (client : ClientId) (operation : OperationId)
    (record : InputOperationRecord) (now_ms : N) (l : InputOperationLedger) : InputOperationLedger :=
  let l := expire now_ms l in
  if (iob_max_operations (iol_bounds l) =? 0) || (iob_max_operations_per_client (iol_bounds l) =? 0)
  then l
  else
    let key := (client, operation) in
    let l := release key l in
    enforce_bounds client
      (MkInputOperationLedger (iol_bounds l) (<[key := record]> (iol_records l))
         (iol_order l ++ [key]) (saturating_add (iol_bytes l) (ior_bytes record))).
