(* ===== verification/InputOperationLaws.v ===== *)
(** * The operation ledger stays within its bounds and keeps recent finals

    [ledger_ok] ties the queue, the records and the byte count together; the
    operations keep it, the eviction loops end with every bound restored, and a
    record leaves only when later records, bytes or age push it out ([holds]). *)
From S2P Require Export InputOperations.

Definition key_bytes (records : gmap (ClientId * OperationId) InputOperationRecord) (k : operation_key) : N :=
  from_option ior_bytes 0%N (records !! k).
Fixpoint weight records (keys : list operation_key) : N :=
  match keys with
  | [] => 0%N
  | k :: keys => (key_bytes records k + weight records keys)%N
  end.

Record ledger_ok (l : InputOperationLedger) : Prop := {
  lo_nodup : NoDup (iol_order l);
  lo_dom k : k ∈ iol_order l <-> is_Some (iol_records l !! k);
  lo_bytes : iol_bytes l = weight (iol_records l) (iol_order l)
}.

(** Every bound the ledger promises. *)
Record within_bounds (l : InputOperationLedger) : Prop := {
  wb_total : length (iol_order l) <= iob_max_operations (iol_bounds l);
  wb_client c : count (owned_by c) (iol_order l) <= iob_max_operations_per_client (iol_bounds l);
  wb_bytes : (iol_bytes l <= iob_max_bytes (iol_bounds l))%N
}.

Lemma new_ledger_ok bounds : ledger_ok (InputOperationLedger_new bounds).
Proof. split; cbn; [constructor| |done]. intros k. rewrite lookup_empty. split; [by intros ?%not_elem_of_nil|by intros [? ?]]. Qed.
Lemma new_ledger_bounds bounds : within_bounds (InputOperationLedger_new bounds).
Proof. split; cbn; lia. Qed.

Lemma weight_app records a b : weight records (a ++ b) = (weight records a + weight records b)%N.
Proof. induction a; cbn; [done|]. rewrite IHa. lia. Qed.

Lemma weight_ext records records' keys :
  (forall k, k ∈ keys -> records !! k = records' !! k) -> weight records keys = weight records' keys.
Proof.
  induction keys as [|k keys IH]; intros H; [done|]. cbn. unfold key_bytes. rewrite H by set_solver.
  rewrite IH by set_solver. done.
Qed.

Lemma weight_sublist records a b : sublist a b -> (weight records a <= weight records b)%N.
Proof. induction 1; cbn; lia. Qed.

Notation other k := (fun queued : operation_key => bool_decide (queued <> k)).

Lemma elem_of_other k q keys : q ∈ retain (other k) keys <-> q ∈ keys /\ q <> k.
Proof. by rewrite elem_of_retain, bool_decide_eq_true. Qed.

Lemma retain_other_id k keys : k ∉ keys -> retain (other k) keys = keys.
Proof. intros H. apply retain_all. intros q Hq. apply bool_decide_eq_true. set_solver. Qed.

Lemma retain_other_head k keys : NoDup (k :: keys) -> retain (other k) (k :: keys) = keys.
Proof.
  intros [Hk Hn]%list.NoDup_cons. cbn. rewrite bool_decide_eq_false_2 by auto. by apply retain_other_id.
Qed.

Lemma weight_other records k keys : NoDup keys -> k ∈ keys ->
  weight records keys = (key_bytes records k + weight (delete k records) (retain (other k) keys))%N.
Proof.
  induction keys as [|q keys IH]; intros Hn Hk; [by apply not_elem_of_nil in Hk|].
  destruct (decide (q = k)) as [->|Hne].
  - rewrite retain_other_head by done. apply list.NoDup_cons in Hn as [Hk' _]. cbn. f_equal.
    apply weight_ext. intros q Hq. rewrite lookup_delete_ne by set_solver. done.
  - apply list.NoDup_cons in Hn as [Hq Hn]. cbn. rewrite bool_decide_eq_true_2 by done. cbn.
    rewrite IH by set_solver.
    assert (He : key_bytes (delete k records) q = key_bytes records q)
      by (unfold key_bytes; by rewrite lookup_delete_ne).
    rewrite He. lia.
Qed.

(** ** Releasing one record *)
Lemma release_bounds k l : iol_bounds (release k l) = iol_bounds l.
Proof. unfold release. by destruct (iol_records l !! k). Qed.

Lemma release_records k l : iol_records (release k l) = delete k (iol_records l).
Proof. unfold release. destruct (iol_records l !! k) eqn:E; [done|]. by rewrite delete_id. Qed.

Lemma release_order k l : ledger_ok l -> iol_order (release k l) = retain (other k) (iol_order l).
Proof.
  intros H. unfold release. destruct (iol_records l !! k) eqn:E; [done|].
  rewrite retain_other_id; [done|]. rewrite (lo_dom l H), E. by intros [? ?].
Qed.

Lemma release_ok k l : ledger_ok l -> ledger_ok (release k l).
Proof.
  intros H. split.
  - rewrite release_order by done. eapply sublist_NoDup; [apply (lo_nodup l H)|apply sublist_retain].
  - intros q. rewrite release_order, release_records, elem_of_other, (lo_dom l H) by done.
    destruct (decide (q = k)) as [->|Hne].
    + rewrite lookup_delete_eq. split; [by intros [_ []]|by intros [? ?]].
    + rewrite lookup_delete_ne by done. tauto.
  - unfold release. destruct (iol_records l !! k) as [r|] eqn:E; [|apply H]. cbn.
    rewrite (lo_bytes l H), (weight_other _ k); [|apply H|apply H; by eexists].
    unfold key_bytes. rewrite E. cbn. lia.
Qed.

Lemma release_bytes_le k l : (iol_bytes (release k l) <= iol_bytes l)%N.
Proof. unfold release. destruct (iol_records l !! k); cbn; lia. Qed.

Lemma release_shrinks k l : ledger_ok l -> k ∈ iol_order l ->
  length (iol_order (release k l)) < length (iol_order l).
Proof.
  intros H Hk. rewrite release_order by done.
  apply elem_of_Permutation in Hk as [keys Hp].
  assert (Hn : NoDup (k :: keys)) by (rewrite <- Hp; apply H).
  assert (Hle : count (other k) (iol_order l) = count (other k) (k :: keys)) by by apply count_Permutation.
  unfold count in Hle. rewrite retain_other_head in Hle by done.
  apply Permutation_length in Hp. cbn in Hp. lia.
Qed.

Lemma release_within k l : ledger_ok l -> within_bounds l -> within_bounds (release k l).
Proof.
  intros H Hb. split; rewrite ?release_bounds, ?release_order by done.
  - etrans; [apply retain_length|apply Hb].
  - intros c. etrans; [apply count_sublist, sublist_retain|apply Hb].
  - etrans; [apply release_bytes_le|apply Hb].
Qed.

(** A property every release keeps is kept by whatever only releases. *)
Lemma release_all_keeps (P : InputOperationLedger -> Prop) keys l :
  (forall k l, k ∈ keys -> P l -> P (release k l)) -> P l -> P (release_all keys l).
Proof.
  intros Hstep. unfold release_all. revert l Hstep. induction keys as [|k keys IH]; intros l Hstep Hl; cbn; [done|].
  apply IH; [intros; apply Hstep; [set_solver|done]|]. apply Hstep; [set_solver|done].
Qed.

Lemma release_while_keeps (P : InputOperationLedger -> Prop) fuel over next l :
  (forall k l, P l -> over l = true -> next (iol_order l) = Some k -> P (release k l)) ->
  P l -> P (release_while fuel over next l).
Proof.
  intros Hstep. revert l. induction fuel as [|fuel IH]; intros l Hl; cbn; [done|].
  destruct (over l) eqn:Eo; [|done]. destruct (next (iol_order l)) as [k|] eqn:En; [|done].
  apply IH. by eapply Hstep.
Qed.

Lemma expire_ok now l : ledger_ok l -> ledger_ok (expire now l).
Proof. intros H. unfold expire. apply release_all_keeps; [|done]. intros; by apply release_ok. Qed.

Lemma expire_bounds now l : iol_bounds (expire now l) = iol_bounds l.
Proof.
  unfold expire. apply (release_all_keeps (fun l' => iol_bounds l' = iol_bounds l)); [|done].
  intros k l' _ Hl'. by rewrite release_bounds.
Qed.

Lemma expire_bytes_le now l : (iol_bytes (expire now l) <= iol_bytes l)%N.
Proof.
  unfold expire. apply (release_all_keeps (fun l' => (iol_bytes l' <= iol_bytes l)%N)); [|done].
  intros k l' _ Hl'. etrans; [apply release_bytes_le|done].
Qed.

Lemma expire_within now l : ledger_ok l -> within_bounds l -> within_bounds (expire now l).
Proof.
  intros H Hb. unfold expire. eapply (release_all_keeps (fun l => ledger_ok l /\ within_bounds l)); [|done].
  intros k l' _ []. split; [by apply release_ok|by apply release_within].
Qed.

(** ** The eviction loops end *)
Lemma release_while_done over next l :
  ledger_ok l -> (forall l k, next (iol_order l) = Some k -> k ∈ iol_order l) ->
  let l' := release_while (length (iol_order l)) over next l in
  over l' = false \/ next (iol_order l') = None.
Proof.
  intros H Hnext. cbv zeta. remember (length (iol_order l)) as fuel eqn:Ef.
  assert (Hle : length (iol_order l) <= fuel) by lia. clear Ef. revert l H Hle.
  induction fuel as [|fuel IH]; intros l H Hle; cbn.
  - right. destruct (next (iol_order l)) as [k|] eqn:E; [|done].
    apply Hnext in E. destruct (iol_order l); [by apply not_elem_of_nil in E|cbn in Hle; lia].
  - destruct (over l) eqn:Eo; [|by left]. destruct (next (iol_order l)) as [k|] eqn:E; [|by right].
    apply IH; [by apply release_ok|]. assert (Hlt := release_shrinks k l H (Hnext _ _ E)). lia.
Qed.

Lemma release_while_ok fuel over next l : ledger_ok l -> ledger_ok (release_while fuel over next l).
Proof. intros H. apply release_while_keeps; [|done]. intros; by apply release_ok. Qed.

Lemma release_while_bounds fuel over next l : iol_bounds (release_while fuel over next l) = iol_bounds l.
Proof.
  apply (release_while_keeps (fun l' => iol_bounds l' = iol_bounds l)); [|done].
  intros k l' Hl' _ _. by rewrite release_bounds.
Qed.

(** The keys of the map are the queue, in another order. *)
Lemma keys_order l : ledger_ok l -> (map_to_list (iol_records l)).*1 ≡ₚ iol_order l.
Proof.
  intros H. apply NoDup_Permutation; [apply NoDup_fst_map_to_list|apply H|]. intros k.
  rewrite (lo_dom l H), list_elem_of_fmap. split.
  - intros [[k' r] [-> Hr]]. apply elem_of_map_to_list in Hr. by eexists.
  - intros [r Hr]. exists (k, r). by rewrite elem_of_map_to_list.
Qed.

Lemma per_client_order c l : ledger_ok l -> per_client c l = count (owned_by c) (iol_order l).
Proof. intros H. unfold per_client. by apply count_Permutation, keys_order. Qed.

Lemma size_order l : ledger_ok l -> size (iol_records l) = length (iol_order l).
Proof. intros H. rewrite <- keys_order, length_fmap by done. by rewrite length_map_to_list. Qed.

Lemma head_elem (keys : list operation_key) k : head keys = Some k -> k ∈ keys.
Proof. destruct keys; cbn; [done|]. intros [= ->]. set_solver. Qed.

Lemma over_client_order c l : ledger_ok l ->
  over_client c l = (iob_max_operations_per_client (iol_bounds l) <? count (owned_by c) (iol_order l)).
Proof. intros H. unfold over_client. by rewrite per_client_order. Qed.

Lemma over_total_order l : ledger_ok l ->
  over_total l = (iob_max_operations (iol_bounds l) <? length (iol_order l)) ||
                 (iob_max_bytes (iol_bounds l) <? iol_bytes l)%N.
Proof. intros H. unfold over_total. by rewrite size_order. Qed.

Lemma total_restored l : ledger_ok l ->
  over_total l = false \/ iol_order l = [] ->
  length (iol_order l) <= iob_max_operations (iol_bounds l) /\ (iol_bytes l <= iob_max_bytes (iol_bounds l))%N.
Proof.
  intros H [Ho|Ho].
  - rewrite over_total_order in Ho by done. apply orb_false_iff in Ho as [?%Nat.ltb_ge ?%N.ltb_ge]. done.
  - rewrite (lo_bytes l H), Ho. cbn. lia.
Qed.

(** Releasing the oldest record of [client] does not add records of others. *)
Lemma release_while_count fuel over next c l : ledger_ok l ->
  count (owned_by c) (iol_order (release_while fuel over next l)) <= count (owned_by c) (iol_order l).
Proof.
  intros H. apply (release_while_keeps (fun l' => ledger_ok l' /\
    count (owned_by c) (iol_order l') <= count (owned_by c) (iol_order l))); [|by split].
  intros k l' [Hok Hle] _ _. split; [by apply release_ok|]. rewrite release_order by done.
  etrans; [apply count_sublist, sublist_retain|done].
Qed.

Lemma enforce_bounds_restores client l : ledger_ok l ->
  (forall c, c <> client -> count (owned_by c) (iol_order l) <= iob_max_operations_per_client (iol_bounds l)) ->
  ledger_ok (enforce_bounds client l) /\ within_bounds (enforce_bounds client l) /\
  iol_bounds (enforce_bounds client l) = iol_bounds l.
Proof.
  intros H Hother. unfold enforce_bounds.
  set (l1 := release_while _ (over_client client) _ l).
  assert (H1 : ledger_ok l1) by by apply release_while_ok.
  assert (Hb1 : iol_bounds l1 = iol_bounds l) by apply release_while_bounds.
  set (l2 := release_while _ over_total _ l1).
  assert (H2 : ledger_ok l2) by by apply release_while_ok.
  assert (Hb2 : iol_bounds l2 = iol_bounds l1) by apply release_while_bounds.
  split_and!; [done| |congruence].
  destruct (total_restored l2 H2) as [Ht Hb].
  { destruct (release_while_done over_total head l1 H1 (fun l k E => head_elem (iol_order l) k E)) as [?|Hn]; [by left|].
    right. fold l2 in Hn. by destruct (iol_order l2). }
  split; [done| |done]. intros c.
  etrans; [apply release_while_count; done|]. rewrite Hb2, Hb1.
  destruct (decide (c = client)) as [->|Hne]; [|etrans; [apply release_while_count; done|by apply Hother]].
  destruct (release_while_done (over_client client) (find_first (owned_by client)) l H) as [Ho|Hn].
  - intros l0 k Hk. by apply find_first_Some in Hk as [? _].
  - fold l1 in Ho. rewrite over_client_order in Ho by done. apply Nat.ltb_ge in Ho. by rewrite Hb1 in Ho.
  - fold l1 in Hn. enough (count (owned_by client) (iol_order l1) = 0) by lia.
    apply count_zero. by apply find_first_None.
Qed.

(** ** Recording *)
Definition pushed (key : operation_key) (record : InputOperationRecord) (l : InputOperationLedger)
    : InputOperationLedger :=
  MkInputOperationLedger (iol_bounds l) (<[key := record]> (iol_records l))
    (iol_order l ++ [key]) (saturating_add (iol_bytes l) (ior_bytes record)).

Lemma weight_insert_fresh records key record keys : key ∉ keys ->
  weight (<[key := record]> records) keys = weight records keys.
Proof. intros H. apply weight_ext. intros k Hk. rewrite lookup_insert_ne by set_solver. done. Qed.

Lemma weight_single records key record : weight (<[key := record]> records) [key] = ior_bytes record.
Proof. cbn. unfold key_bytes. rewrite lookup_insert_eq. cbn. lia. Qed.

Lemma pushed_ok key record l : ledger_ok l -> key ∉ iol_order l ->
  (iol_bytes l + ior_bytes record <= U64_MAX)%N -> ledger_ok (pushed key record l).
Proof.
  intros H Hk Hfit. split; cbn.
  - apply list.NoDup_app. split_and!; [apply H| |apply NoDup_singleton]. intros k Hin. set_solver.
  - intros k. rewrite elem_of_app, list_elem_of_singleton, (lo_dom l H).
    destruct (decide (k = key)) as [->|Hne].
    + rewrite lookup_insert_eq. split; [by eexists|by right].
    + rewrite lookup_insert_ne by done. split; [by intros [?|?]|by left].
  - rewrite weight_app, weight_insert_fresh, weight_single, <- (lo_bytes l H) by done.
    unfold saturating_add. lia.
Qed.

Lemma record_operation_eq client operation record now l :
  record_operation client operation record now l =
  if (iob_max_operations (iol_bounds l) =? 0) || (iob_max_operations_per_client (iol_bounds l) =? 0)
  then expire now l
  else enforce_bounds client (pushed (client, operation) record (release (client, operation) (expire now l))).
Proof.
  unfold record_operation, pushed. rewrite expire_bounds, release_bounds, expire_bounds.
  by destruct (_ || _).
Qed.

Lemma release_fresh key l : ledger_ok l -> key ∉ iol_order (release key l).
Proof. intros H. rewrite release_order, elem_of_other by done. by intros [_ []]. Qed.

Lemma record_operation_ok client operation record now l :
  ledger_ok l -> within_bounds l ->
  (iob_max_bytes (iol_bounds l) + ior_bytes record <= U64_MAX)%N ->
  ledger_ok (record_operation client operation record now l) /\
  within_bounds (record_operation client operation record now l) /\
  iol_bounds (record_operation client operation record now l) = iol_bounds l.
Proof.
  intros H Hb Hfit. rewrite record_operation_eq.
  assert (H1 := expire_ok now l H). assert (Hb1 := expire_within now l H Hb). assert (Eb := expire_bounds now l).
  destruct (_ || _); [done|]. set (key := (client, operation)).
  set (l1 := release key (expire now l)).
  assert (H2 : ledger_ok l1) by by apply release_ok.
  assert (Hb2 : within_bounds l1) by by apply release_within.
  assert (Eb2 : iol_bounds l1 = iol_bounds l) by (unfold l1; by rewrite release_bounds).
  assert (Hby := wb_bytes l1 Hb2). rewrite Eb2 in Hby.
  destruct (enforce_bounds_restores client (pushed key record l1)) as (?&?&E).
  - apply pushed_ok; [done|by apply release_fresh|lia].
  - intros c Hc. change (count (owned_by c) (iol_order l1 ++ [key]) <= iob_max_operations_per_client (iol_bounds l1)).
    rewrite count_app, (proj2 (count_zero _ [key])), Nat.add_0_r; [apply Hb2|].
    intros q ->%list_elem_of_singleton. by apply bool_decide_eq_false.
  - by rewrite E.
Qed.

(** ** A record survives what fits behind it *)

(** [k] is still recorded as [r], and at most [n] records holding [b] bytes are
    behind it in the queue. *)
Record holds (k : operation_key) (r : InputOperationRecord) (n : nat) (b : N) (l : InputOperationLedger)
    : Prop := {
  hd_record : iol_records l !! k = Some r;
  hd_queue : exists before behind, iol_order l = before ++ k :: behind /\
    length behind <= n /\ (weight (iol_records l) behind <= b)%N
}.

Lemma retain_sublist_weight records k keys : NoDup keys ->
  (weight (delete k records) (retain (other k) keys) <= weight records keys)%N.
Proof.
  intros Hn. destruct (decide (k ∈ keys)) as [Hk|Hk].
  - rewrite (weight_other records k keys) by done. lia.
  - rewrite retain_other_id by done. apply N.eq_le_incl, weight_ext. intros q Hq.
    rewrite lookup_delete_ne by set_solver. done.
Qed.

Lemma holds_release k r n b q l : ledger_ok l -> q <> k -> holds k r n b l -> holds k r n b (release q l).
Proof.
  intros H Hq [Hr (before & behind & Ho & Hlen & Hw)]. split.
  - by rewrite release_records, lookup_delete_ne.
  - exists (retain (other q) before), (retain (other q) behind).
    rewrite release_order, Ho, retain_app, release_records by done. cbn.
    rewrite bool_decide_eq_true_2 by done. split_and!; [done| |].
    + etrans; [apply retain_length|done].
    + etrans; [apply retain_sublist_weight|done]. assert (Hn := lo_nodup l H). rewrite Ho in Hn.
      apply list.NoDup_app in Hn as (_&_&Hn). by apply list.NoDup_cons in Hn as [_ ?].
Qed.

Lemma expired_keys now l k :
  k ∈ (filter (fun kr => expired now (iob_max_age_ms (iol_bounds l)) kr.2 = true)
         (map_to_list (iol_records l))).*1 <->
  exists r, iol_records l !! k = Some r /\ expired now (iob_max_age_ms (iol_bounds l)) r = true.
Proof.
  rewrite list_elem_of_fmap. split.
  - intros [[k' r] [-> Hr]]. apply list_elem_of_filter in Hr as [He Hr].
    apply elem_of_map_to_list in Hr. by exists r.
  - intros (r & Hr & He). exists (k, r). split; [done|]. apply list_elem_of_filter.
    by rewrite elem_of_map_to_list.
Qed.

Lemma holds_expire k r n b now l : ledger_ok l -> holds k r n b l ->
  expired now (iob_max_age_ms (iol_bounds l)) r = false -> holds k r n b (expire now l).
Proof.
  intros H Hh He. unfold expire.
  eapply (release_all_keeps (fun l => ledger_ok l /\ holds k r n b l)); [|done].
  intros q l' Hq [Hok Hl']. split; [by apply release_ok|]. apply holds_release; [done| |done].
  intros ->. apply expired_keys in Hq as (r' & Hr' & He'). rewrite (hd_record _ _ _ _ _ Hh) in Hr'.
  injection Hr' as <-. congruence.
Qed.

Lemma holds_pushed k r n b q record l : ledger_ok l -> q ∉ iol_order l -> holds k r n b l ->
  holds k r (S n) (b + ior_bytes record) (pushed q record l).
Proof.
  intros H Hq [Hr (before & behind & Ho & Hlen & Hw)].
  assert (Hne : q <> k) by (intros ->; apply Hq; rewrite Ho; set_solver).
  split; cbn; [by rewrite lookup_insert_ne|].
  exists before, (behind ++ [q]). rewrite Ho, <- app_assoc. split_and!; [done|rewrite length_app; cbn; lia|].
  rewrite weight_app, weight_insert_fresh, weight_single by (rewrite Ho in Hq; set_solver). lia.
Qed.

Lemma find_first_before (p : operation_key -> bool) before k behind :
  find_first p (before ++ k :: behind) = Some k -> k ∉ before -> find_first p before = None.
Proof.
  rewrite find_first_app. destruct (find_first p before) as [x|] eqn:E; [|done].
  intros [= ->] Hk. by apply find_first_Some in E as [? _].
Qed.

Lemma holds_enforce k r n b client l : ledger_ok l -> holds k r n b l ->
  S n <= iob_max_operations_per_client (iol_bounds l) -> S n <= iob_max_operations (iol_bounds l) ->
  (ior_bytes r + b <= iob_max_bytes (iol_bounds l))%N ->
  holds k r n b (enforce_bounds client l).
Proof.
  intros H Hh Hc Ht Hb. unfold enforce_bounds.
  set (P := fun l' => iol_bounds l' = iol_bounds l /\ ledger_ok l' /\ holds k r n b l').
  enough (Hend : P (release_while (length (iol_order (release_while (length (iol_order l)) (over_client client)
     (find_first (owned_by client)) l))) over_total head (release_while (length (iol_order l)) (over_client client)
     (find_first (owned_by client)) l))) by apply Hend.
  assert (Hstep : forall q l', P l' -> (q = k -> False) -> P (release q l')).
  { intros q l' (Eb & Hok & Hl') Hq. split_and!; [by rewrite release_bounds|by apply release_ok|].
    by apply holds_release. }
  assert (Hfresh : forall l' before behind, ledger_ok l' -> iol_order l' = before ++ k :: behind -> k ∉ before).
  { intros l' before behind Hok Ho. assert (Hn := lo_nodup l' Hok). rewrite Ho in Hn.
    apply list.NoDup_app in Hn as (_&Hd&_). intros Hk. apply (Hd k Hk). set_solver. }
  apply release_while_keeps.
  - intros q l' HP Hover Hnext. apply Hstep; [done|]. intros ->.
    destruct HP as (Eb & Hok & [Hr (before & behind & Ho & Hlen & Hw)]).
    assert (before = []) as ->.
    { destruct before as [|q before]; [done|]. rewrite Ho in Hnext. cbn in Hnext. injection Hnext as ->.
      exfalso. apply (Hfresh _ _ _ Hok Ho). set_solver. }
    rewrite over_total_order, (lo_bytes l' Hok), Ho, Eb in Hover by done. cbn in Hover.
    unfold key_bytes in Hover. rewrite Hr in Hover. cbn in Hover.
    apply orb_true_iff in Hover as [Hover|Hover%N.ltb_lt]; [|lia].
    apply Nat.leb_le in Hover. lia.
  - apply release_while_keeps; [|done]. intros q l' HP Hover Hnext. apply Hstep; [done|]. intros ->.
    destruct HP as (Eb & Hok & [Hr (before & behind & Ho & Hlen & Hw)]).
    rewrite over_client_order, Ho, Eb in Hover by done. apply Nat.ltb_lt in Hover.
    rewrite count_app in Hover. rewrite Ho in Hnext.
    rewrite (proj2 (count_zero _ before)) in Hover.
    + assert (Hle := count_le (owned_by client) (k :: behind)). cbn [length] in Hle. lia.
    + apply find_first_None. eapply find_first_before; [done|]. by eapply Hfresh.
Qed.

(** Recording another operation leaves [k] recorded as long as its age, the
    counts and the bytes behind it stay within the bounds. *)
Lemma holds_record k r n b client operation record now l :
  ledger_ok l -> holds k r n b l -> (client, operation) <> k ->
  (iol_bytes l + ior_bytes record <= U64_MAX)%N ->
  expired now (iob_max_age_ms (iol_bounds l)) r = false ->
  S (S n) <= iob_max_operations_per_client (iol_bounds l) -> S (S n) <= iob_max_operations (iol_bounds l) ->
  (ior_bytes r + (b + ior_bytes record) <= iob_max_bytes (iol_bounds l))%N ->
  holds k r (S n) (b + ior_bytes record) (record_operation client operation record now l).
Proof.
  intros H Hh Hne Hfit He Hc Ht Hb. rewrite record_operation_eq.
  assert (H1 := expire_ok now l H). assert (Hh1 := holds_expire k r n b now l H Hh He).
  destruct (_ || _) eqn:E0.
  { apply orb_true_iff in E0 as [?%Nat.eqb_eq|?%Nat.eqb_eq]; lia. }
  set (l1 := release (client, operation) (expire now l)).
  assert (H2 : ledger_ok l1) by by apply release_ok.
  assert (Eb : iol_bounds l1 = iol_bounds l) by (unfold l1; by rewrite release_bounds, expire_bounds).
  assert (Hle : (iol_bytes l1 <= iol_bytes l)%N) by (etrans; [apply release_bytes_le|apply expire_bytes_le]).
  apply holds_enforce; cbn; rewrite ?Eb; try done.
  - apply pushed_ok; [done|by apply release_fresh|lia].
  - apply holds_pushed; [done|by apply release_fresh|]. by apply holds_release.
Qed.

(** The operation just recorded is the last of the queue. *)
Lemma record_holds client operation record now l :
  ledger_ok l -> (iol_bytes l + ior_bytes record <= U64_MAX)%N ->
  1 <= iob_max_operations_per_client (iol_bounds l) -> 1 <= iob_max_operations (iol_bounds l) ->
  (ior_bytes record <= iob_max_bytes (iol_bounds l))%N ->
  holds (client, operation) record 0 0 (record_operation client operation record now l).
Proof.
  intros H Hfit Hc Ht Hb. rewrite record_operation_eq.
  assert (H1 := expire_ok now l H). destruct (_ || _) eqn:E0.
  { apply orb_true_iff in E0 as [?%Nat.eqb_eq|?%Nat.eqb_eq]; lia. }
  set (l1 := release (client, operation) (expire now l)).
  assert (H2 : ledger_ok l1) by by apply release_ok.
  assert (Eb : iol_bounds l1 = iol_bounds l) by (unfold l1; by rewrite release_bounds, expire_bounds).
  assert (Hle : (iol_bytes l1 <= iol_bytes l)%N) by (etrans; [apply release_bytes_le|apply expire_bytes_le]).
  apply holds_enforce; cbn; rewrite ?Eb; try done; [| |lia].
  - apply pushed_ok; [done|by apply release_fresh|lia].
  - split; cbn; [by rewrite lookup_insert_eq|]. exists (iol_order l1), []. cbn. split_and!; [done|lia|lia].
Qed.
