(* ===== verification/TerminalRegistry.v ===== *)
(** * The daemon's terminal registry ([crates/daemon/src/usecase/terminal.rs])

    The registry owns, for every terminal, the authoritative [VtScreen], a
    bounded journal of the newest output bytes, the attachments of the
    connections that watch it, the pane sizes their clients ask for and the
    ledgers that keep a retried input from being written twice.

    - [&mut self] becomes [st World Failure]: the registry, the process-wide
      counters ([static AtomicU64]) and the log of what the PTY was asked to do.
      [Failure] is a [RegistryError] the operation returns, or a panic.
    - A [BTreeMap] whose order is observed (terminals, attachments) is a list in
      the order of its keys; the other maps are [gmap]s.
    - [PtyWriter] is the adapter: [PtyAnswers] says what it answers after the
      calls it has already seen.  The [serde_json] size of a checkpoint and the
      [sha2] digest are parameters.
    - Every operation holds [SCREEN_BUDGET_MUTATION] or changes a counter by one
      atomic instruction, so an operation is one step; what other registries of
      the process hold is in the counter. *)
From S2P Require Export InputOperations VtRetention VtRoundTrip.
From S2P Require Import Negotiation.
From stdpp Require Import sorting.

Definition MAX_RETAINED_OUTPUT_BYTES : N := 64 * 1024.
Definition SCREEN_CELLS_PER_TERMINAL_MAX : N := 512 * 1024.
Definition SCREEN_CELLS_AGGREGATE_MAX : N := 2 * 1024 * 1024.
Definition CHECKPOINT_BYTES_MAX : N := 1024 * 1024 - 4 * 1024.

(** ** Runtime states *)
Inductive TerminalReconcileState : Type :=
| SpawnAmbiguous | PersistAfterSpawn | IdentityUnknown | OrphanRunning | PersistAfterExit.

Inductive TerminalRuntimeState : Type :=
| Reserved | Running | Interrupted | Sleeping | Exited | Reclaimed
| ReconcileRequired (state : TerminalReconcileState) | SpawnFailed.

Definition requires_termination (s : TerminalRuntimeState) : bool :=
  match s with
  | Running | ReconcileRequired (SpawnAmbiguous | PersistAfterSpawn | OrphanRunning) => true
  | _ => false
  end.

(** ** Data *)
Record Geometry := MkGeometry { tg_cols : N; tg_rows : N }.
#[export] Instance geometry_eq_dec : EqDecision Geometry.
Proof. solve_decision. Defined.

Record Output := MkOutput {
  out_terminal : TerminalRef;
  out_start : N;
  out_end : N;
  out_data : list N
}.
#[export] Instance output_eq_dec : EqDecision Output.
Proof. solve_decision. Defined.

Record Snapshot := MkSnapshot {
  sn_terminal : TerminalRef;
  sn_revision : N;
  sn_base_offset : N;
  sn_output_offset : N;
  sn_geometry : Geometry;
  sn_replay : list N;
  sn_screen : ScreenCheckpoint;
  sn_exited : option Z
}.

Record OutputWindow := MkOutputWindow {
  ow_base_offset : N;
  ow_output_offset : N;
  ow_exited : option Z
}.

Inductive SnapshotWire : Type := RawTail | ScreenCheckpointWire.

Definition SnapshotWire_for_revision (revision : N) : SnapshotWire :=
  if (TERMINAL_CHECKPOINT_REVISION <=? revision)%N then ScreenCheckpointWire else RawTail.

Inductive SnapshotContent : Type :=
| RawTailContent (replay : list N)
| ScreenContent (screen : ScreenCheckpoint).

Definition content_replay (c : SnapshotContent) : option (list N) :=
  match c with RawTailContent replay => Some replay | ScreenContent _ => None end.
Definition content_screen (c : SnapshotContent) : option ScreenCheckpoint :=
  match c with ScreenContent screen => Some screen | RawTailContent _ => None end.

Record SnapshotFrame := MkSnapshotFrame {
  sf_terminal : TerminalRef;
  sf_revision : N;
  sf_base_offset : N;
  sf_output_offset : N;
  sf_geometry : Geometry;
  sf_content : SnapshotContent;
  sf_exited : option Z
}.

Definition snapshot_into_frame (s : Snapshot) (wire : SnapshotWire) : SnapshotFrame :=
  let '(base_offset, content) :=
    match wire with
    | RawTail => (sn_base_offset s, RawTailContent (sn_replay s))
    | ScreenCheckpointWire => (sn_output_offset s, ScreenContent (sn_screen s))
    end in
  MkSnapshotFrame (sn_terminal s) (sn_revision s) base_offset (sn_output_offset s) (sn_geometry s)
    content (sn_exited s).

Inductive Event : Type :=
| OutputEvent (output : Output)
| ExitedEvent (terminal : TerminalRef) (revision final_output_offset : N) (status : Z)
| ResyncRequiredEvent (terminal : TerminalRef).

Record Attached := MkAttached {
  at_subscription : N;
  at_snapshot : Snapshot;
  at_next_input_seq : option N
}.

Record AttachedFrame := MkAttachedFrame {
  atf_subscription : N;
  atf_snapshot : SnapshotFrame;
  atf_next_input_seq : option N
}.

Definition attached_into_frame (a : Attached) (wire : SnapshotWire) : AttachedFrame :=
  MkAttachedFrame (at_subscription a) (snapshot_into_frame (at_snapshot a) wire) (at_next_input_seq a).

Record InputRequest := MkInputRequest {
  ir_subscription : N;
  ir_connection : ConnectionId;
  ir_client : ClientId;
  ir_request : RequestId;
  ir_input_seq : N;
  ir_operation : option OperationId
}.

Inductive RegistryError : Type :=
| ResyncRequired | StaleTarget | UnknownSubscription | NotAttached | SequenceGap
| IdempotencyExpired | IdempotencyConflict | ExitedTerminal | PtyResizeFailed
| ScreenBudgetExceeded | CheckpointUnavailable.

#[export] Instance registry_error_eq_dec : EqDecision RegistryError.
Proof. solve_decision. Defined.

(** What an operation ends with when it does not return a value. *)
Inductive Failure : Type :=
| Refused (error : RegistryError)
| Panicked.
#[export] Instance failure_eq_dec : EqDecision Failure.
Proof. solve_decision. Defined.

Record Attachment := MkAttachment { att_connection : ConnectionId; att_client : option ClientId }.

Record ClientViewport := MkClientViewport { cv_requested : option Geometry; cv_seen : Geometry }.

Record InputLedger := MkInputLedger {
  il_next_seq : N;
  il_entries : list (N * RequestId * InputAck)
}.
Definition InputLedger_default : InputLedger := MkInputLedger 0 [].

Record Entry := MkEntry {
  en_reference : TerminalRef;
  en_revision : N;
  en_geometry : Geometry;
  en_journal : list Output;
  en_retained_bytes : N;
  en_next_offset : N;
  en_exited : option Z;
  en_attachments : list (N * Attachment);
  en_viewports : gmap ClientId ClientViewport;
  en_next_subscription : N;
  en_inputs : gmap (ConnectionId * ClientId) InputLedger;
  en_screen : VtScreen;
  en_screen_cells : nat
}.

Record TerminalRegistry := MkTerminalRegistry {
  tr_entries : list (string * Entry);
  tr_journal_limit : N;
  tr_input_cache_limit : nat;
  tr_checkpoint_bytes_limit : N;
  tr_screen_cells_limit : N;
  tr_screen_cells_aggregate_limit : N;
  tr_screen_cells_process_shared : bool;
  tr_operations : InputOperationLedger
}.

(** The process-wide counters. *)
Record OutputPipelineCounters := MkOutputPipelineCounters {
  pc_dropped_bytes : N;
  pc_coalesced_bytes : N;
  pc_screen_trimmed_rows : N;
  pc_checkpoint_trimmed_rows : N;
  pc_retained_screen_cells : N
}.

(** What a PTY was asked, with its answer: whether it took the size, and how
    many bytes a failed write may have delivered.  A write goes to the terminal
    the caller selected on the adapter. *)
Inductive PtyEffect : Type :=
| PtyResized (terminal : TerminalRef) (geometry : Geometry) (accepted : bool)
| PtyWrote (bytes : list N) (failure : option N).

Class PtyAnswers := {
  pty_resize : list PtyEffect -> TerminalRef -> Geometry -> bool;
  pty_write : list PtyEffect -> list N -> option N
}.

(** The part of the world an operation on one terminal shares with the others. *)
Record Shared := MkShared { sh_counters : OutputPipelineCounters; sh_log : list PtyEffect }.

Record World := MkWorld { wo_registry : TerminalRegistry; wo_shared : Shared }.

(** Field updates. *)
Definition set_en_reference (v : TerminalRef) (e : Entry) : Entry :=
  MkEntry v (en_revision e) (en_geometry e) (en_journal e) (en_retained_bytes e) (en_next_offset e)
    (en_exited e) (en_attachments e) (en_viewports e) (en_next_subscription e) (en_inputs e) (en_screen e)
    (en_screen_cells e).
Definition set_en_revision (v : N) (e : Entry) : Entry :=
  MkEntry (en_reference e) v (en_geometry e) (en_journal e) (en_retained_bytes e) (en_next_offset e)
    (en_exited e) (en_attachments e) (en_viewports e) (en_next_subscription e) (en_inputs e) (en_screen e)
    (en_screen_cells e).
Definition set_en_geometry (v : Geometry) (e : Entry) : Entry :=
  MkEntry (en_reference e) (en_revision e) v (en_journal e) (en_retained_bytes e) (en_next_offset e)
    (en_exited e) (en_attachments e) (en_viewports e) (en_next_subscription e) (en_inputs e) (en_screen e)
    (en_screen_cells e).
Definition set_en_journal (v : list Output) (e : Entry) : Entry :=
  MkEntry (en_reference e) (en_revision e) (en_geometry e) v (en_retained_bytes e) (en_next_offset e)
    (en_exited e) (en_attachments e) (en_viewports e) (en_next_subscription e) (en_inputs e) (en_screen e)
    (en_screen_cells e).
Definition set_en_retained_bytes (v : N) (e : Entry) : Entry :=
  MkEntry (en_reference e) (en_revision e) (en_geometry e) (en_journal e) v (en_next_offset e) (en_exited e)
    (en_attachments e) (en_viewports e) (en_next_subscription e) (en_inputs e) (en_screen e)
    (en_screen_cells e).
Definition set_en_next_offset (v : N) (e : Entry) : Entry :=
  MkEntry (en_reference e) (en_revision e) (en_geometry e) (en_journal e) (en_retained_bytes e) v (en_exited
    e) (en_attachments e) (en_viewports e) (en_next_subscription e) (en_inputs e) (en_screen e)
    (en_screen_cells e).
Definition set_en_exited (v : option Z) (e : Entry) : Entry :=
  MkEntry (en_reference e) (en_revision e) (en_geometry e) (en_journal e) (en_retained_bytes e)
    (en_next_offset e) v (en_attachments e) (en_viewports e) (en_next_subscription e) (en_inputs e)
    (en_screen e) (en_screen_cells e).
Definition set_en_attachments (v : list (N * Attachment)) (e : Entry) : Entry :=
  MkEntry (en_reference e) (en_revision e) (en_geometry e) (en_journal e) (en_retained_bytes e)
    (en_next_offset e) (en_exited e) v (en_viewports e) (en_next_subscription e) (en_inputs e) (en_screen e)
    (en_screen_cells e).
Definition set_en_viewports (v : gmap ClientId ClientViewport) (e : Entry) : Entry :=
  MkEntry (en_reference e) (en_revision e) (en_geometry e) (en_journal e) (en_retained_bytes e)
    (en_next_offset e) (en_exited e) (en_attachments e) v (en_next_subscription e) (en_inputs e) (en_screen
    e) (en_screen_cells e).
Definition set_en_next_subscription (v : N) (e : Entry) : Entry :=
  MkEntry (en_reference e) (en_revision e) (en_geometry e) (en_journal e) (en_retained_bytes e)
    (en_next_offset e) (en_exited e) (en_attachments e) (en_viewports e) v (en_inputs e) (en_screen e)
    (en_screen_cells e).
Definition set_en_inputs (v : gmap (ConnectionId * ClientId) InputLedger) (e : Entry) : Entry :=
  MkEntry (en_reference e) (en_revision e) (en_geometry e) (en_journal e) (en_retained_bytes e)
    (en_next_offset e) (en_exited e) (en_attachments e) (en_viewports e) (en_next_subscription e) v
    (en_screen e) (en_screen_cells e).
Definition set_en_screen (v : VtScreen) (e : Entry) : Entry :=
  MkEntry (en_reference e) (en_revision e) (en_geometry e) (en_journal e) (en_retained_bytes e)
    (en_next_offset e) (en_exited e) (en_attachments e) (en_viewports e) (en_next_subscription e) (en_inputs
    e) v (en_screen_cells e).
Definition set_en_screen_cells (v : nat) (e : Entry) : Entry :=
  MkEntry (en_reference e) (en_revision e) (en_geometry e) (en_journal e) (en_retained_bytes e)
    (en_next_offset e) (en_exited e) (en_attachments e) (en_viewports e) (en_next_subscription e) (en_inputs
    e) (en_screen e) v.
Definition set_pc_dropped_bytes (v : N) (c : OutputPipelineCounters) : OutputPipelineCounters :=
  MkOutputPipelineCounters v (pc_coalesced_bytes c) (pc_screen_trimmed_rows c) (pc_checkpoint_trimmed_rows
    c) (pc_retained_screen_cells c).
Definition set_pc_coalesced_bytes (v : N) (c : OutputPipelineCounters) : OutputPipelineCounters :=
  MkOutputPipelineCounters (pc_dropped_bytes c) v (pc_screen_trimmed_rows c) (pc_checkpoint_trimmed_rows c)
    (pc_retained_screen_cells c).
Definition set_pc_screen_trimmed_rows (v : N) (c : OutputPipelineCounters) : OutputPipelineCounters :=
  MkOutputPipelineCounters (pc_dropped_bytes c) (pc_coalesced_bytes c) v (pc_checkpoint_trimmed_rows c)
    (pc_retained_screen_cells c).
Definition set_pc_checkpoint_trimmed_rows (v : N) (c : OutputPipelineCounters) : OutputPipelineCounters :=
  MkOutputPipelineCounters (pc_dropped_bytes c) (pc_coalesced_bytes c) (pc_screen_trimmed_rows c) v
    (pc_retained_screen_cells c).
Definition set_pc_retained_screen_cells (v : N) (c : OutputPipelineCounters) : OutputPipelineCounters :=
  MkOutputPipelineCounters (pc_dropped_bytes c) (pc_coalesced_bytes c) (pc_screen_trimmed_rows c)
    (pc_checkpoint_trimmed_rows c) v.
Definition set_tr_entries (v : list (string * Entry)) (r : TerminalRegistry) : TerminalRegistry :=
  MkTerminalRegistry v (tr_journal_limit r) (tr_input_cache_limit r) (tr_checkpoint_bytes_limit r)
    (tr_screen_cells_limit r) (tr_screen_cells_aggregate_limit r) (tr_screen_cells_process_shared r)
    (tr_operations r).
Definition set_tr_checkpoint_bytes_limit (v : N) (r : TerminalRegistry) : TerminalRegistry :=
  MkTerminalRegistry (tr_entries r) (tr_journal_limit r) (tr_input_cache_limit r) v (tr_screen_cells_limit
    r) (tr_screen_cells_aggregate_limit r) (tr_screen_cells_process_shared r) (tr_operations r).
Definition set_tr_operations (v : InputOperationLedger) (r : TerminalRegistry) : TerminalRegistry :=
  MkTerminalRegistry (tr_entries r) (tr_journal_limit r) (tr_input_cache_limit r) (tr_checkpoint_bytes_limit
    r) (tr_screen_cells_limit r) (tr_screen_cells_aggregate_limit r) (tr_screen_cells_process_shared r) v.

(** ** Process-wide counters: wrapping atomics *)
Definition U64_MODULUS : N := 18446744073709551616.
Definition fetch_add (a b : N) : N := ((a + b) mod U64_MODULUS)%N.
Definition fetch_sub (a b : N) : N := ((a + (U64_MODULUS - b mod U64_MODULUS)) mod U64_MODULUS)%N.

Definition on_counters (f : OutputPipelineCounters -> OutputPipelineCounters) (s : Shared) : Shared :=
  MkShared (f (sh_counters s)) (sh_log s).
Definition record_effect (x : PtyEffect) (s : Shared) : Shared :=
  MkShared (sh_counters s) (sh_log s ++ [x]).

Definition add_dropped (n : N) : Shared -> Shared :=
  on_counters (fun c => set_pc_dropped_bytes (fetch_add (pc_dropped_bytes c) n) c).
Definition add_coalesced (n : N) : Shared -> Shared :=
  on_counters (fun c => set_pc_coalesced_bytes (fetch_add (pc_coalesced_bytes c) n) c).
Definition add_screen_trimmed (n : N) : Shared -> Shared :=
  on_counters (fun c => set_pc_screen_trimmed_rows (fetch_add (pc_screen_trimmed_rows c) n) c).
Definition add_checkpoint_trimmed (n : N) : Shared -> Shared :=
  on_counters (fun c => set_pc_checkpoint_trimmed_rows (fetch_add (pc_checkpoint_trimmed_rows c) n) c).
Definition reserve_screen_cells (cells : nat) : Shared -> Shared :=
  on_counters (fun c =>
    set_pc_retained_screen_cells (fetch_add (pc_retained_screen_cells c) (N.of_nat cells)) c).
Definition release_screen_cells (cells : nat) : Shared -> Shared :=
  on_counters (fun c =>
    set_pc_retained_screen_cells (fetch_sub (pc_retained_screen_cells c) (N.of_nat cells)) c).

Definition output_pipeline_counters (w : World) : OutputPipelineCounters := sh_counters (wo_shared w).

(** ** Budgets *)
Record ScreenBudgets := MkScreenBudgets {
  bu_per_terminal : N;
  bu_process_aggregate : N;
  bu_retained_cells : N
}.

Definition key (reference : TerminalRef) : string := Ids.as_str (tr_terminal_id reference).

Definition clamp (low high n : N) : N := N.min (N.max n low) high.
Definition screen_dimensions (g : Geometry) : nat * nat :=
  (N.to_nat (clamp 1 ROWS_MAX (tg_rows g)), N.to_nat (clamp 1 COLS_MAX (tg_cols g))).

(** The product can not reach [usize::MAX]: both factors are bounded. *)
Definition visible_of (g : Geometry) : N :=
  let '(rows, cols) := screen_dimensions g in N.of_nat (rows * cols).

Definition ensure_screen_geometry_fits (g : Geometry) (budgets : ScreenBudgets) (current_cells : nat)
    : bool :=
  let visible := visible_of g in
  let retained_elsewhere := (bu_retained_cells budgets - N.of_nat current_cells)%N in
  let aggregate_available := (bu_process_aggregate budgets - retained_elsewhere)%N in
  (visible <=? bu_per_terminal budgets)%N && (visible <=? aggregate_available)%N.

(** The cells accounted for are [en_screen_cells] of the result. *)
Definition account_screen (es : Entry * Shared) : Entry * Shared :=
  let '(e, s) := es in
  let cells := retained_cells (en_screen e) in
  (set_en_screen_cells cells e,
   if en_screen_cells e <=? cells then reserve_screen_cells (cells - en_screen_cells e) s
   else release_screen_cells (en_screen_cells e - cells) s).

Definition trim_screen (target : N) (es : Entry * Shared) : Entry * Shared :=
  let '(e, s) := es in
  let '(screen, dropped) := trim_to_cells target (en_screen e) in
  account_screen (set_en_screen screen e, add_screen_trimmed (N.of_nat dropped) s).

Definition budget_of (budgets : ScreenBudgets) (previous_cells : nat) : N :=
  let others := (bu_retained_cells budgets - N.of_nat previous_cells)%N in
  N.min (bu_per_terminal budgets) (bu_process_aggregate budgets - others)%N.

Definition enforce_screen_budget (budgets : ScreenBudgets) (es : Entry * Shared) : Entry * Shared :=
  let previous_cells := en_screen_cells es.1 in
  let es := account_screen es in
  let budget := budget_of budgets previous_cells in
  if (N.of_nat (en_screen_cells es.1) <=? budget)%N then es else trim_screen budget es.

(** ** Viewports *)
Definition attached_clients (e : Entry) : list ClientId := omap (fun a => att_client a.2) (en_attachments e).

Definition prune_viewports (requester : option ClientId) (e : Entry) : Entry :=
  set_en_viewports
    (filter (fun cv => cv.1 ∈ attached_clients e \/ requester = Some cv.1) (en_viewports e)) e.

Definition geometry_min (a b : Geometry) : Geometry :=
  MkGeometry (N.min (tg_cols a) (tg_cols b)) (N.min (tg_rows a) (tg_rows b)).

(** [Iterator::reduce] *)
Definition reduce {A} (f : A -> A -> A) (l : list A) : option A :=
  match l with [] => None | x :: l => Some (foldl f x l) end.

Definition requests (e : Entry) : list Geometry :=
  omap (fun cv => cv_requested cv.2) (map_to_list (en_viewports e)).
Definition requested_geometry (e : Entry) : option Geometry := reduce geometry_min (requests e).

Section registry.
Context {U : UnicodeWidth} {P : PtyAnswers}.

Definition commit_geometry (g : Geometry) (budgets : ScreenBudgets) (es : Entry * Shared)
    : Entry * Shared :=
  let '(e, s) := es in
  let e := set_en_revision (en_revision e + 1) (set_en_geometry g e) in
  let '(rows, cols) := screen_dimensions g in
  enforce_screen_budget budgets (set_en_screen (VtScreen.resize rows cols (en_screen e)) e, s).

(** ** The input digest ([crates/core/src/infrastructure/ipc/mod.rs])

    Each component is preceded by its length, so the text that is hashed
    determines the target and the bytes. *)
Definition u64_be_bytes (n : N) : list N :=
  (fun k => (n / 256 ^ N.of_nat k) mod 256)%N <$> [7; 6; 5; 4; 3; 2; 1; 0].

Definition string_bytes (s : string) : list N := Ascii.N_of_ascii <$> String.list_ascii_of_string s.

Definition digest_component (component : list N) : list N :=
  u64_be_bytes (N.of_nat (length component)) ++ component.

Definition digest_input (target : string) (bytes : list N) : list N :=
  digest_component (string_bytes "usagi-terminal-input-v1") ++
  digest_component (string_bytes target) ++ digest_component bytes.

Definition hex_digit (n : N) : Ascii.ascii :=
  Ascii.ascii_of_N (if (n <? 10)%N then 48 + n else 87 + n)%N.
Definition hex_byte (b : N) : list Ascii.ascii := [hex_digit (b / 16)%N; hex_digit (b mod 16)%N].

(** ** Checkpoints that fit the frame budget *)
Definition drop_oldest_half {A} (rows : list A) : list A * nat :=
  let dropped := (length rows + 1) / 2 in (drop dropped rows, dropped).

Definition halve_buffer (b : BufferCheckpoint) : BufferCheckpoint * nat :=
  let '(rows, dropped) := drop_oldest_half (bc_scrollback b) in
  (MkBufferCheckpoint (bc_grid b) rows (saturating_add (bc_scrollback_origin b) (N.of_nat dropped))
     (bc_cursor b) (bc_saved_cursor b) (bc_scroll_region b) (bc_style_id b), dropped).

Definition set_sc_buffers (primary : BufferCheckpoint) (alternate : option BufferCheckpoint)
    (cp : ScreenCheckpoint) : ScreenCheckpoint :=
  MkScreenCheckpoint (sc_schema_version cp) (sc_geometry cp) (sc_active cp) primary alternate
    (sc_styles cp) (sc_decoder cp) (sc_application_cursor cp) (sc_bracketed_paste cp)
    (sc_mouse_protocol_mode cp) (sc_mouse_encoding cp).

Definition halve_history (cp : ScreenCheckpoint) : ScreenCheckpoint * nat :=
  let '(primary, dropped) := halve_buffer (sc_primary cp) in
  match sc_alternate cp with
  | Some alternate =>
      let '(alternate, alternate_dropped) := halve_buffer alternate in
      (set_sc_buffers primary (Some alternate) cp, dropped + alternate_dropped)
  | None => (set_sc_buffers primary None cp, dropped)
  end.

Definition history_rows (cp : ScreenCheckpoint) : nat :=
  length (bc_scrollback (sc_primary cp)) +
  from_option (fun b => length (bc_scrollback b)) 0 (sc_alternate cp).

Definition base_offset (e : Entry) : N :=
  match en_journal e with [] => en_next_offset e | segment :: _ => out_start segment end.

Definition btree_get {V} (k : string) (m : list (string * V)) : option V :=
  snd <$> find_first (at_key fst k) m.
Definition btree_put {V} (k : string) (v : V) (m : list (string * V)) : list (string * V) :=
  update_first (at_key fst k) (fun kv => (kv.1, v)) m.
Fixpoint btree_insert {V} (k : string) (v : V) (m : list (string * V)) : list (string * V) :=
  match m with
  | [] => [(k, v)]
  | (k', v') :: rest =>
      match String.compare k k' with
      | Lt => (k, v) :: m
      | Eq => (k, v) :: rest
      | Gt => (k', v') :: btree_insert k v rest
      end
  end.

(** The length of [serde_json::to_vec], or [None] when it fails. *)
Context (json_length : ScreenCheckpoint -> option N) (sha256 : list N -> list N).

Definition terminal_input_digest (target : string) (bytes : list N) : string :=
  String.string_of_list_ascii (mjoin (hex_byte <$> sha256 (digest_input target bytes))).

Definition checkpoint_bytes (cp : ScreenCheckpoint) : N := default U64_MAX (json_length cp).

(** Each round drops rows or ends, so one round more than there are rows of
    history is enough fuel ([checkpoint_within_total]). *)
Fixpoint fit_checkpoint (fuel : nat) (bytes_limit : N) (cp : ScreenCheckpoint) (s : Shared)
    : option (result RegistryError ScreenCheckpoint * Shared) :=
  match fuel with
  | O => None
  | S fuel =>
      if (bytes_limit <? checkpoint_bytes cp)%N then
        let '(cp, dropped) := halve_history cp in
        if dropped =? 0 then Some (Err CheckpointUnavailable, s)
        else fit_checkpoint fuel bytes_limit cp (add_checkpoint_trimmed (N.of_nat dropped) s)
      else Some (Ok cp, s)
  end.

Definition checkpoint_within (screen : VtScreen) (bytes_limit : N) (s : Shared)
    : result RegistryError ScreenCheckpoint * Shared :=
  let cp := checkpoint screen in
  default (Err CheckpointUnavailable, s) (fit_checkpoint (S (history_rows cp)) bytes_limit cp s).

Definition snapshot_entry (e : Entry) (bytes_limit : N) (s : Shared)
    : result RegistryError Snapshot * Shared :=
  let '(screen, s) := checkpoint_within (en_screen e) bytes_limit s in
  (map_ok (fun screen =>
     MkSnapshot (en_reference e) (en_revision e) (base_offset e) (en_next_offset e) (en_geometry e)
       (mjoin (out_data <$> en_journal e)) screen (en_exited e)) screen, s).

Definition reconcile_geometry (requester : option ClientId) (budgets : ScreenBudgets)
    (es : Entry * Shared) : Entry * Shared :=
  let '(e, s) := es in
  if bool_decide (is_Some (en_exited e)) then (e, s)
  else
    let e := prune_viewports requester e in
    match requested_geometry e with
    | None => (e, s)
    | Some g =>
        if bool_decide (g = en_geometry e) then (e, s)
        else if negb (ensure_screen_geometry_fits g budgets (en_screen_cells e)) then (e, s)
        else
          let accepted := pty_resize (sh_log s) (en_reference e) g in
          let s := record_effect (PtyResized (en_reference e) g accepted) s in
          if accepted then commit_geometry g budgets (e, s) else (e, s)
    end.

(** ** Journal *)
Fixpoint update_last {A} (f : A -> A) (l : list A) : option (list A) :=
  match l with
  | [] => None
  | [x] => Some [f x]
  | x :: l => cons x <$> update_last f l
  end.

(** [journal.front_mut().expect(..)] and [data.drain(..overflow)] panic on an
    empty journal and on a first segment shorter than the overflow. *)
Definition drop_front (overflow : N) (journal : list Output) : option (list Output) :=
  match journal with
  | [] => None
  | front :: rest =>
      if (N.of_nat (length (out_data front)) <? overflow)%N then None
      else Some (MkOutput (out_terminal front) (out_start front + overflow) (out_end front)
                   (drop (N.to_nat overflow) (out_data front)) :: rest)
  end.

Definition journal_append (limit : N) (output : Output) (es : Entry * Shared) : option (Entry * Shared) :=
  let '(e, s) := es in
  let len := N.of_nat (length (out_data output)) in
  if (limit <=? len)%N then
    let s := add_dropped (saturating_add (en_retained_bytes e) (len - limit)) s in
    let journal :=
      if (limit =? 0)%N then []
      else [MkOutput (out_terminal output) (out_end output - limit) (out_end output)
              (drop (N.to_nat (len - limit)) (out_data output))] in
    Some (set_en_journal journal (set_en_retained_bytes limit e), s)
  else
    let e := set_en_retained_bytes (en_retained_bytes e + len) e in
    let extend tail := MkOutput (out_terminal tail) (out_start tail) (out_end output)
                         (out_data tail ++ out_data output) in
    let '(e, s) :=
      match update_last extend (en_journal e) with
      | Some journal => (set_en_journal journal e, add_coalesced len s)
      | None => (set_en_journal [output] e, s)
      end in
    if (limit <? en_retained_bytes e)%N then
      let overflow := (en_retained_bytes e - limit)%N in
      journal ← drop_front overflow (en_journal e);
      Some (set_en_journal journal (set_en_retained_bytes (en_retained_bytes e - overflow) e),
            add_dropped overflow s)
    else Some (e, s).

Definition append_entry (limit : N) (budgets : ScreenBudgets) (data : list N)
    : st (Entry * Shared) Failure (Output * list N) := fun '(e, s) =>
  match advance_with_replies data (en_screen e) with
  | None => (Err Panicked, (e, s))
  | Some (screen, replies) =>
      let '(e, s) := enforce_screen_budget budgets (set_en_screen screen e, s) in
      let start_offset := en_next_offset e in
      let e := set_en_next_offset (start_offset + N.of_nat (length data)) e in
      let output := MkOutput (en_reference e) start_offset (en_next_offset e) data in
      match journal_append limit output (e, s) with
      | None => (Err Panicked, (e, s))
      | Some es => (Ok (output, replies), es)
      end
  end.

Definition replay_segment (offset : N) (segment : Output) : Output :=
  if (offset <=? out_start segment)%N then segment
  else
    let remaining := N.to_nat (out_end segment - offset) in
    let consumed := length (out_data segment) - remaining in
    MkOutput (out_terminal segment) offset (out_end segment) (drop consumed (out_data segment)).

Definition stale_viewport (client : option ClientId) (e : Entry) : bool :=
  match client ≫= fun c => en_viewports e !! c with
  | Some viewport => bool_decide (cv_seen viewport <> en_geometry e)
  | None => false
  end.

Definition replay_entry (offset : N) (client : option ClientId) (e : Entry)
    : result RegistryError (list Output) :=
  if stale_viewport client e then Err ResyncRequired
  else if (offset <? base_offset e)%N || (en_next_offset e <? offset)%N then Err ResyncRequired
  else Ok (replay_segment offset <$>
           retain (fun segment => offset <? out_end segment)%N (en_journal e)).

(** ** Attachments *)
Definition refuse {S A} (e : RegistryError) : st S Failure A := st_throw (Refused e).

(** [viewports.entry(client).and_modify(f).or_insert(fresh)] *)
Definition upsert (f : ClientViewport -> ClientViewport) (fresh : ClientViewport) (c : ClientId)
    (m : gmap ClientId ClientViewport) : gmap ClientId ClientViewport :=
  partial_alter (fun held => Some (from_option f fresh held)) c m.

Definition claim_viewport (c : ClientId) (viewport : option Geometry) (e : Entry) : Entry :=
  set_en_viewports
    (upsert (fun held => MkClientViewport (match viewport with Some g => Some g | None => cv_requested held end)
                           (cv_seen held))
       (MkClientViewport viewport (en_geometry e)) c (en_viewports e)) e.

Definition mark_seen (c : ClientId) (e : Entry) : Entry :=
  set_en_viewports
    (alter (fun held => MkClientViewport (cv_requested held) (en_geometry e)) c (en_viewports e)) e.

(** Subscriptions are issued in ascending order, so a new one is last. *)
Definition subscribe (connection : ConnectionId) (client : option ClientId) (e : Entry) : N * Entry :=
  let subscription := en_next_subscription e in
  (subscription,
   set_en_attachments (en_attachments e ++ [(subscription, MkAttachment connection client)])
     (set_en_next_subscription (subscription + 1) e)).

Definition connected (connection : ConnectionId) (a : N * Attachment) : bool :=
  bool_decide (att_connection a.2 = connection).

Definition attach_entry (connection : ConnectionId) (client : option ClientId) (viewport : option Geometry)
    (bytes_limit : N) (budgets : ScreenBudgets) : st (Entry * Shared) Failure Attached := fun '(e, s) =>
  let existing := fst <$> find_first (connected connection) (en_attachments e) in
  let '(e, s) :=
    match client with
    | Some c => reconcile_geometry (Some c) budgets (claim_viewport c viewport e, s)
    | None => (e, s)
    end in
  let '(captured, s) := snapshot_entry e bytes_limit s in
  match captured with
  | Err error => (Err (Refused error), (e, s))
  | Ok snapshot =>
      let e := match client with Some c => mark_seen c e | None => e end in
      let '(subscription, e) :=
        match existing with
        | Some subscription => (subscription, e)
        | None => subscribe connection client e
        end in
      (Ok (MkAttached subscription snapshot None), (e, s))
  end.

Definition detach_entry (subscription : N) (connection : ConnectionId) (budgets : ScreenBudgets)
    : st (Entry * Shared) Failure unit := fun '(e, s) =>
  match find_first (at_key fst subscription) (en_attachments e) with
  | Some attachment =>
      if connected connection attachment then
        let e := set_en_attachments
                   (retain (fun a => negb (at_key fst subscription a)) (en_attachments e)) e in
        (Ok tt, reconcile_geometry None budgets (e, s))
      else (Err (Refused UnknownSubscription), (e, s))
  | None => (Err (Refused UnknownSubscription), (e, s))
  end.

(** One round of [disconnect] and of [retain_live_connections]. *)
Definition keep_connections (keep : ConnectionId -> bool) (budgets : ScreenBudgets) (es : Entry * Shared)
    : Entry * Shared :=
  let '(e, s) := es in
  let before := length (en_attachments e) in
  let e := set_en_attachments (retain (fun a => keep (att_connection a.2)) (en_attachments e)) e in
  let '(e, s) :=
    if length (en_attachments e) =? before then (e, s) else reconcile_geometry None budgets (e, s) in
  (set_en_inputs (filter (fun kl => keep kl.1.1 = true) (en_inputs e)) e, s).

(** ** Resizing *)
(** [PTY.resize] and the commit, when the target differs. *)
Definition apply_target (target : Geometry) (budgets : ScreenBudgets)
    : st (Entry * Shared) Failure unit := fun '(e, s) =>
  if bool_decide (target = en_geometry e) then (Ok tt, (e, s))
  else if negb (ensure_screen_geometry_fits target budgets (en_screen_cells e))
  then (Err (Refused ScreenBudgetExceeded), (e, s))
  else
    let accepted := pty_resize (sh_log s) (en_reference e) target in
    let s := record_effect (PtyResized (en_reference e) target accepted) s in
    if accepted then (Ok tt, commit_geometry target budgets (e, s))
    else (Err (Refused PtyResizeFailed), (e, s)).

(** A client that was current before the commit stays current. *)
Definition stay_current (previous : Geometry) (c : ClientId) (e : Entry) : Entry :=
  set_en_viewports
    (alter (fun viewport =>
       if bool_decide (cv_seen viewport = previous)
       then MkClientViewport (cv_requested viewport) (en_geometry e) else viewport) c (en_viewports e)) e.

Definition resize_entry (g : Geometry) (client : option ClientId) (bytes_limit : N)
    (budgets : ScreenBudgets) : st (Entry * Shared) Failure Snapshot := fun '(e, s) =>
  if bool_decide (is_Some (en_exited e)) then (Err (Refused ExitedTerminal), (e, s))
  else
    let previous := en_geometry e in
    let e :=
      match client with
      | Some c =>
          prune_viewports (Some c)
            (set_en_viewports
               (upsert (fun viewport => MkClientViewport (Some g) (cv_seen viewport))
                  (MkClientViewport (Some g) (en_geometry e)) c (en_viewports e)) e)
      | None => e
      end in
    let target := default g (requested_geometry e) in
    match apply_target target budgets (e, s) with
    | (Err failure, es) => (Err failure, es)
    | (Ok _, (e, s)) =>
        let e := match client with Some c => stay_current previous c e | None => e end in
        let '(captured, s) := snapshot_entry e bytes_limit s in
        (map_err Refused captured, (e, s))
    end.

(** ** Input *)
Fixpoint find_input (seq : N) (request : RequestId) (entries : list (N * RequestId * InputAck))
    : option InputAck :=
  match entries with
  | [] => None
  | (seq', request', ack) :: entries =>
      if (seq' =? seq)%N && bool_decide (request' = request) then Some ack
      else find_input seq request entries
  end.

Definition ack_of (failure : option N) : InputAck :=
  match failure with
  | None => Written
  | Some prefix => if (prefix =? 0)%N then Failed else Ambiguous prefix
  end.

(** [while entries.len() > limit { entries.pop_front() }] *)
Definition keep_newest {A} (limit : nat) (l : list A) : list A := drop (length l - limit) l.

(** The part of [write_input] after the durable identity was looked up; the
    value is the acknowledgement and whether the PTY was written. *)
Definition write_entry (cache_limit : nat) (input : InputRequest) (bytes : list N)
    : st (Entry * Shared) Failure (InputAck * bool) := fun '(e, s) =>
  let holder := att_connection ∘ snd <$> find_first (at_key fst (ir_subscription input)) (en_attachments e) in
  if bool_decide (holder <> Some (ir_connection input)) then (Err (Refused NotAttached), (e, s))
  else if bool_decide (is_Some (en_exited e)) then (Err (Refused ExitedTerminal), (e, s))
  else
    let lane := (ir_connection input, ir_client input) in
    let ledger := default InputLedger_default (en_inputs e !! lane) in
    let e := set_en_inputs (<[lane := ledger]> (en_inputs e)) e in
    if (ir_input_seq input <? il_next_seq ledger)%N then
      (match find_input (ir_input_seq input) (ir_request input) (il_entries ledger) with
       | Some ack => Ok (Cached ack, false)
       | None => Err (Refused IdempotencyExpired)
       end, (e, s))
    else if (il_next_seq ledger <? ir_input_seq input)%N then (Err (Refused SequenceGap), (e, s))
    else
      let failure := pty_write (sh_log s) bytes in
      let s := record_effect (PtyWrote bytes failure) s in
      let ack := ack_of failure in
      let ledger := MkInputLedger (il_next_seq ledger + 1)
        (keep_newest cache_limit (il_entries ledger ++ [(ir_input_seq input, ir_request input, ack)])) in
      (Ok (ack, true), (set_en_inputs (<[lane := ledger]> (en_inputs e)) e, s)).

Definition clear_entry : st (Entry * Shared) Failure bool := fun '(e, s) =>
  let '(screen, cleared) := clear_primary_for_user (en_screen e) in
  let e := set_en_screen screen e in
  if cleared then
    let s := add_dropped (en_retained_bytes e) s in
    (Ok true, account_screen (set_en_retained_bytes 0 (set_en_journal [] e), s))
  else (Ok false, (e, s)).

Definition exit_entry (status : Z) : st (Entry * Shared) Failure Event := fun '(e, s) =>
  let e := set_en_revision (en_revision e + 1) (set_en_exited (Some status) e) in
  (Ok (ExitedEvent (en_reference e) (en_revision e) (en_next_offset e) status), (e, s)).

(** ** The registry *)
Definition new_registry (journal_limit : N) (input_cache_limit : nat) : TerminalRegistry :=
  MkTerminalRegistry [] (N.min journal_limit MAX_RETAINED_OUTPUT_BYTES) input_cache_limit
    CHECKPOINT_BYTES_MAX SCREEN_CELLS_PER_TERMINAL_MAX SCREEN_CELLS_AGGREGATE_MAX true
    (InputOperationLedger_new InputOperationBounds_default).

Definition with_input_operation_bounds (bounds : InputOperationBounds) (r : TerminalRegistry)
    : TerminalRegistry := set_tr_operations (InputOperationLedger_new bounds) r.
Definition with_checkpoint_bytes_limit (bytes : N) (r : TerminalRegistry) : TerminalRegistry :=
  set_tr_checkpoint_bytes_limit bytes r.
Definition with_screen_cell_budgets (per_terminal process_aggregate : N) (r : TerminalRegistry)
    : TerminalRegistry :=
  MkTerminalRegistry (tr_entries r) (tr_journal_limit r) (tr_input_cache_limit r)
    (tr_checkpoint_bytes_limit r) per_terminal process_aggregate false (tr_operations r).

Definition retained_screen_cells (r : TerminalRegistry) : N :=
  foldr (fun ke n => N.of_nat (en_screen_cells ke.2) + n)%N 0%N (tr_entries r).

Definition screen_budgets (w : World) : ScreenBudgets :=
  let r := wo_registry w in
  MkScreenBudgets (tr_screen_cells_limit r) (tr_screen_cells_aggregate_limit r)
    (if tr_screen_cells_process_shared r then pc_retained_screen_cells (sh_counters (wo_shared w))
     else retained_screen_cells r).

Definition entry (reference : TerminalRef) (r : TerminalRegistry) : option Entry :=
  match btree_get (key reference) (tr_entries r) with
  | Some e => if TerminalRef_fences (en_reference e) reference then Some e else None
  | None => None
  end.

Definition set_entry (reference : TerminalRef) (e : Entry) (s : Shared) (w : World) : World :=
  MkWorld (set_tr_entries (btree_put (key reference) e (tr_entries (wo_registry w))) (wo_registry w)) s.

(** [self.entry_mut(reference)?], then the body on the borrowed entry. *)
Definition on_entry {A} (reference : TerminalRef) (body : st (Entry * Shared) Failure A)
    : st World Failure A := fun w =>
  match entry reference (wo_registry w) with
  | None => (Err (Refused StaleTarget), w)
  | Some e =>
      let '(r, (e, s)) := body (e, wo_shared w) in
      (r, set_entry reference e s w)
  end.

(** [self.entry(reference)?], then a pure reading. *)
Definition reading {A} (reference : TerminalRef) (f : Entry -> result RegistryError A) (r : TerminalRegistry)
    : result RegistryError A :=
  e <-? ok_or (entry reference r) StaleTarget ;; f e.

(** Reclaiming: exited screens first, then the largest, then by key. *)
Definition reclaim_key (ke : string * Entry) : bool * nat * string :=
  (bool_decide (en_exited ke.2 = None), en_screen_cells ke.2, ke.1).
Definition reclaim_le (a b : bool * nat * string) : Prop :=
  let '(live, cells, k) := a in
  let '(live', cells', k') := b in
  match live, live' with
  | false, true => True
  | true, false => False
  | _, _ => cells' < cells \/ (cells = cells' /\ str_le k k' = true)
  end.
#[export] Instance reclaim_le_dec : RelDecision reclaim_le.
Proof. intros [[[] c] k] [[[] c'] k']; cbn; apply _. Defined.

Definition reclaim_order (entries : list (string * Entry)) : list string :=
  snd <$> merge_sort reclaim_le (reclaim_key <$> entries).

Fixpoint reclaim (order : list string) (remaining : N) (w : World) : World :=
  match order with
  | [] => w
  | k :: order =>
      if (remaining =? 0)%N then w
      else
        match btree_get k (tr_entries (wo_registry w)) with
        | None => w
        | Some e =>
            let before := en_screen_cells e in
            let '(e, s) := trim_screen (N.of_nat before - remaining) (e, wo_shared w) in
            reclaim order (remaining - N.of_nat (before - en_screen_cells e))
              (MkWorld (set_tr_entries (btree_put k e (tr_entries (wo_registry w))) (wo_registry w)) s)
        end
  end.

Definition reclaim_screen_cells (needed : N) (w : World) : World :=
  reclaim (reclaim_order (tr_entries (wo_registry w))) needed w.

Definition new_entry (reference : TerminalRef) (g : Geometry) (screen : VtScreen) : Entry :=
  MkEntry reference 0 g [] 0 0 None [] ∅ 1 ∅ screen (retained_cells screen).

Definition register (reference : TerminalRef) (g : Geometry) : st World Failure unit := fun w =>
  match btree_get (key reference) (tr_entries (wo_registry w)) with
  | Some _ => (Err (Refused StaleTarget), w)
  | None =>
      let '(rows, cols) := screen_dimensions g in
      let budgets := screen_budgets w in
      let visible := N.of_nat (rows * cols) in
      let available := (bu_process_aggregate budgets - bu_retained_cells budgets)%N in
      let w :=
        if (available <? visible)%N && (visible <=? bu_per_terminal budgets)%N
        then reclaim_screen_cells (visible - available) w else w in
      if negb (ensure_screen_geometry_fits g (screen_budgets w) 0)
      then (Err (Refused ScreenBudgetExceeded), w)
      else
        let screen := VtScreen.new rows cols in
        let r := wo_registry w in
        (Ok tt,
         MkWorld (set_tr_entries (btree_insert (key reference) (new_entry reference g screen) (tr_entries r)) r)
           (reserve_screen_cells (retained_cells screen) (wo_shared w)))
  end.

Definition attach_client (reference : TerminalRef) (connection : ConnectionId) (client : option ClientId)
    (viewport : option Geometry) : st World Failure Attached := fun w =>
  on_entry reference
    (attach_entry connection client viewport (tr_checkpoint_bytes_limit (wo_registry w)) (screen_budgets w)) w.

Definition attach (reference : TerminalRef) (connection : ConnectionId) : st World Failure Attached :=
  attach_client reference connection None None.

Definition attach_for_client (reference : TerminalRef) (connection : ConnectionId) (client : ClientId)
    (viewport : option Geometry) : st World Failure Attached :=
  attached <-! attach_client reference connection (Some client) viewport ;;
  w <-! st_get ;;
  next <-! st_lift (map_err Refused (reading reference
    (fun e => Ok (from_option il_next_seq 0%N (en_inputs e !! (connection, client)))) (wo_registry w))) ;;
  st_ret (MkAttached (at_subscription attached) (at_snapshot attached) (Some next)).

Definition detach (reference : TerminalRef) (subscription : N) (connection : ConnectionId)
    : st World Failure unit := fun w =>
  on_entry reference (detach_entry subscription connection (screen_budgets w)) w.

(** [for entry in self.entries.values_mut()] *)
Fixpoint sweep (f : Entry * Shared -> Entry * Shared) (entries : list (string * Entry)) (s : Shared)
    : list (string * Entry) * Shared :=
  match entries with
  | [] => ([], s)
  | (k, e) :: entries =>
      let '(e, s) := f (e, s) in
      let '(entries, s) := sweep f entries s in
      ((k, e) :: entries, s)
  end.

(** The budgets are read once, before the sweep. *)
Definition sweep_connections (keep : ConnectionId -> bool) (w : World) : World :=
  let budgets := screen_budgets w in
  let '(entries, s) := sweep (keep_connections keep budgets) (tr_entries (wo_registry w)) (wo_shared w) in
  MkWorld (set_tr_entries entries (wo_registry w)) s.

Definition disconnect (connection : ConnectionId) : World -> World :=
  sweep_connections (fun c => negb (bool_decide (c = connection))).
Definition retain_live_connections (live : gset ConnectionId) : World -> World :=
  sweep_connections (fun c => bool_decide (c ∈ live)).

Definition append_output_with_replies (reference : TerminalRef) (data : list N)
    : st World Failure (Output * list N) := fun w =>
  on_entry reference (append_entry (tr_journal_limit (wo_registry w)) (screen_budgets w) data) w.

Definition append_output (reference : TerminalRef) (data : list N) : st World Failure Output :=
  answered <-! append_output_with_replies reference data ;; st_ret answered.1.

Definition replay_from (reference : TerminalRef) (offset : N) (client : option ClientId)
    (r : TerminalRegistry) : result RegistryError (list Output) :=
  reading reference (replay_entry offset client) r.

Definition resize (reference : TerminalRef) (g : Geometry) (client : option ClientId)
    : st World Failure Snapshot := fun w =>
  on_entry reference
    (resize_entry g client (tr_checkpoint_bytes_limit (wo_registry w)) (screen_budgets w)) w.

Definition on_operations {A} (f : InputOperationLedger -> A * InputOperationLedger) : st World Failure A :=
  fun w =>
    let '(a, l) := f (tr_operations (wo_registry w)) in
    (Ok a, MkWorld (set_tr_operations l (wo_registry w)) (wo_shared w)).

(** What the ledger says of the identity the request carries, if any. *)
Definition lookup_input (reference : TerminalRef) (input : InputRequest) (bytes : list N) (now_ms : N)
    : st World Failure OperationLookup :=
  match ir_operation input with
  | Some operation =>
      on_operations (lookup_operation (ir_client input) operation (key reference)
        (terminal_input_digest (key reference) bytes) now_ms)
  | None => st_ret Absent
  end.

Definition record_input (reference : TerminalRef) (input : InputRequest) (bytes : list N) (now_ms : N)
    (ack : InputAck) : st World Failure unit :=
  match ir_operation input with
  | Some operation =>
      on_operations (fun l => (tt, record_operation (ir_client input) operation
        (MkInputOperationRecord (key reference) (terminal_input_digest (key reference) bytes) ack
           (N.of_nat (length bytes)) now_ms) now_ms l))
  | None => st_ret tt
  end.

Definition write_input (reference : TerminalRef) (input : InputRequest) (bytes : list N) (now_ms : N)
    : st World Failure InputAck :=
  found <-! lookup_input reference input bytes now_ms ;;
  match found with
  | Recorded ack => on_entry reference (st_ret (Cached ack))
  | Conflict => refuse IdempotencyConflict
  | Absent =>
      w <-! st_get ;;
      answered <-! on_entry reference (write_entry (tr_input_cache_limit (wo_registry w)) input bytes) ;;
      (if answered.2 : bool then record_input reference input bytes now_ms answered.1 else st_ret tt) ;;;
      st_ret answered.1
  end.

Definition clear_primary (reference : TerminalRef) : st World Failure bool :=
  on_entry reference clear_entry.

Definition input_outcome (reference : TerminalRef) (client : ClientId) (operation : OperationId) (now_ms : N)
    : st World Failure (option InputAck) :=
  on_entry reference (st_ret tt) ;;;
  on_operations (recorded client operation (key reference) now_ms).

Definition exited (reference : TerminalRef) (status : Z) : st World Failure Event :=
  on_entry reference (exit_entry status).

Definition snapshot (reference : TerminalRef) : st World Failure Snapshot := fun w =>
  on_entry reference (fun '(e, s) =>
    let '(captured, s) := snapshot_entry e (tr_checkpoint_bytes_limit (wo_registry w)) s in
    (map_err Refused captured, (e, s))) w.

Definition exit_status (reference : TerminalRef) : TerminalRegistry -> result RegistryError (option Z) :=
  reading reference (fun e => Ok (en_exited e)).
Definition output_window (reference : TerminalRef) : TerminalRegistry -> result RegistryError OutputWindow :=
  reading reference (fun e => Ok (MkOutputWindow (base_offset e) (en_next_offset e) (en_exited e))).
Definition retained_bytes (reference : TerminalRef) (r : TerminalRegistry) : N :=
  from_option en_retained_bytes 0%N (entry reference r).
Definition is_attached (reference : TerminalRef) (r : TerminalRegistry) : bool :=
  from_option (fun e => negb (length (en_attachments e) =? 0)) false (entry reference r).

(** Dropping the entry releases its cells ([Drop for Entry]). *)
Definition forget (reference : TerminalRef) (w : World) : bool * World :=
  match entry reference (wo_registry w) with
  | None => (false, w)
  | Some e =>
      (true, MkWorld (set_tr_entries
                        (retain (fun ke => negb (at_key fst (key reference) ke)) (tr_entries (wo_registry w)))
                        (wo_registry w))
               (release_screen_cells (en_screen_cells e) (wo_shared w)))
  end.
End registry.
