(* ===== verification/TerminalJournal.v ===== *)
(** * The registry's entries stay well formed, and its journal exact

    [entry_ok] is the invariant of one terminal: a sound screen whose cells are
    accounted for exactly, a journal that is one segment ending at the newest
    byte, attachments in order.  Everything the registry does to an entry keeps
    it, and none of it can panic. *)
From S2P Require Export TerminalRegistry.

Section laws.
Context {U : UnicodeWidth} {P : PtyAnswers}.

(** ** The journal: one segment that ends where the stream ends *)
Inductive journal_ok (limit : N) (e : Entry) : Prop :=
| journal_empty : en_journal e = [] -> en_retained_bytes e = 0%N -> journal_ok limit e
| journal_segment segment :
    en_journal e = [segment] -> out_end segment = en_next_offset e ->
    (out_start segment + N.of_nat (length (out_data segment)))%N = out_end segment ->
    en_retained_bytes e = N.of_nat (length (out_data segment)) -> (en_retained_bytes e <= limit)%N ->
    journal_ok limit e.

Record entry_ok (limit : N) (e : Entry) : Prop := {
  eo_screen : settled (en_screen e);
  eo_cells : en_screen_cells e = retained_cells (en_screen e);
  eo_journal : journal_ok limit e;
  eo_attachments : StronglySorted N.lt (fst <$> en_attachments e);
  eo_next : Forall (fun a => (a.1 < en_next_subscription e)%N) (en_attachments e);
  eo_connections : NoDup ((fun a => att_connection a.2) <$> en_attachments e)
}.

(** What the journal is about; geometry, viewports and screens do not touch it. *)
Definition stream (e : Entry) :=
  (en_reference e, en_journal e, en_retained_bytes e, en_next_offset e, en_exited e).
Definition lanes (e : Entry) := (en_attachments e, en_next_subscription e).

Lemma journal_ok_stream limit e e' : stream e' = stream e -> journal_ok limit e -> journal_ok limit e'.
Proof.
  unfold stream. intros [= _ Hj Hr Hn _] [].
  - apply journal_empty; congruence.
  - apply (journal_segment _ _ segment); congruence.
Qed.

Lemma entry_ok_frame limit e e' : stream e' = stream e -> lanes e' = lanes e ->
  settled (en_screen e') -> en_screen_cells e' = retained_cells (en_screen e') ->
  entry_ok limit e -> entry_ok limit e'.
Proof.
  unfold lanes. intros Hs [= Ha Hn] Hset Hc []. split; rewrite ?Ha, ?Hn; try done.
  by eapply journal_ok_stream.
Qed.


(** ** Screens *)
Lemma settled_cols s : settled s -> 0 < vs_cols s.
Proof. intros [H _]. apply H. Qed.

Lemma screen_op_settled op s : settled s -> total (screen_op op s) settled.
Proof.
  intros [H Hm]. assert (Ht := screen_op_total op s H). destruct (screen_op op s) as [s'|] eqn:E; [|done].
  split; [done|]. by eapply screen_op_motions.
Qed.

Lemma trim_settled n s : settled s -> settled (trim_to_cells n s).1.
Proof. apply (screen_op_settled (TrimToCells n)). Qed.
Lemma resize_settled rows cols s : settled s -> settled (VtScreen.resize rows cols s).
Proof. apply (screen_op_settled (Resize rows cols)). Qed.
Lemma clear_settled s : settled s -> settled (clear_primary_for_user s).1.
Proof. apply (screen_op_settled Clear). Qed.
Lemma new_settled rows cols : settled (VtScreen.new rows cols).
Proof. split; [apply new_ok|done]. Qed.

Lemma advance_of_replies bytes s : advance bytes s = fst <$> advance_with_replies bytes s.
Proof.
  unfold advance, advance_with_replies.
  by destruct (advance_with_replies_and_row_motions bytes s) as [[? [? ?]]|].
Qed.

Lemma advance_replies_total bytes s : settled s -> total (advance_with_replies bytes s) (fun p => settled p.1).
Proof.
  intros H. assert (Ht := screen_op_settled (Advance bytes) s H). cbn [screen_op] in Ht.
  rewrite advance_of_replies in Ht. by destruct (advance_with_replies bytes s) as [[? ?]|].
Qed.

(** ** Accounting and trimming *)
Definition screened (e e' : Entry) : Prop :=
  stream e' = stream e /\ lanes e' = lanes e /\ settled (en_screen e') /\
  en_screen_cells e' = retained_cells (en_screen e').

Lemma screened_ok limit e e' : screened e e' -> entry_ok limit e -> entry_ok limit e'.
Proof. intros (?&?&?&?). by apply entry_ok_frame. Qed.

Lemma screened_trans e1 e2 e3 : screened e1 e2 -> screened e2 e3 -> screened e1 e3.
Proof. intros (?&?&_&_) (?&?&?&?). unfold screened. split_and!; congruence. Qed.

Lemma account_screened e s : settled (en_screen e) -> screened e (account_screen (e, s)).1.
Proof. intros H. by repeat split; apply H. Qed.

Lemma trim_screened n e s : settled (en_screen e) -> screened e (trim_screen n (e, s)).1.
Proof.
  intros H. unfold trim_screen. assert (Ht := trim_settled n _ H).
  destruct (trim_to_cells n (en_screen e)) as [screen dropped]. by repeat split; apply Ht.
Qed.

Lemma enforce_screened budgets e s : settled (en_screen e) ->
  screened e (enforce_screen_budget budgets (e, s)).1.
Proof.
  intros H. unfold enforce_screen_budget. cbv zeta. assert (Ha := account_screened e s H).
  destruct (account_screen (e, s)) as [e1 s1] eqn:E. cbn [fst] in *.
  destruct (_ <=? _)%N; [done|]. eapply screened_trans; [done|]. apply trim_screened, Ha.
Qed.

Lemma commit_screened g budgets e s : settled (en_screen e) ->
  screened e (commit_geometry g budgets (e, s)).1.
Proof.
  intros H. unfold commit_geometry. destruct (screen_dimensions g) as [rows cols].
  apply (resize_settled rows cols) in H.
  apply (enforce_screened budgets (set_en_screen (VtScreen.resize rows cols (en_screen e))
    (set_en_revision (en_revision e + 1) (set_en_geometry g e))) s H).
Qed.

Lemma reconcile_screened requester budgets limit e s : entry_ok limit e ->
  screened e (reconcile_geometry requester budgets (e, s)).1.
Proof.
  intros H. assert (Hself : screened e e) by (repeat split; apply H).
  assert (Hpruned : screened e (prune_viewports requester e)) by apply Hself.
  unfold reconcile_geometry. case_bool_decide; [done|].
  destruct (requested_geometry _) as [g|]; [|done]. case_bool_decide; [done|].
  destruct (negb _); [done|]. destruct (pty_resize _ _ _); [|done].
  eapply screened_trans; [exact Hpruned|]. apply commit_screened, H.
Qed.

(** ** Appending to the journal *)
Definition journal_data (e : Entry) : list N := mjoin (out_data <$> en_journal e).

(** The newest [limit] elements. *)
Definition newest {A} (limit : N) (l : list A) : list A := drop (length l - N.to_nat limit) l.

Lemma newest_length {A} limit (l : list A) : length (newest limit l) = Nat.min (length l) (N.to_nat limit).
Proof. unfold newest. rewrite length_drop. lia. Qed.

Lemma newest_newest {A} limit (l l' : list A) : newest limit (newest limit l ++ l') = newest limit (l ++ l').
Proof.
  unfold newest. rewrite <- (drop_app_le l l' (length l - N.to_nat limit)) by lia.
  rewrite drop_drop, !length_drop, !length_app. f_equal. lia.
Qed.

Lemma newest_all {A} limit (l : list A) : (N.of_nat (length l) <= limit)%N -> newest limit l = l.
Proof. intros H. unfold newest. by replace (length l - N.to_nat limit) with 0 by lia. Qed.

Lemma newest_suffix {A} limit (l l' : list A) : (limit <= N.of_nat (length l'))%N ->
  newest limit (l ++ l') = drop (N.to_nat (N.of_nat (length l') - limit)) l'.
Proof.
  intros H. unfold newest. rewrite drop_app_ge by (rewrite length_app; lia). f_equal. rewrite length_app. lia.
Qed.

(** The journal before the new output's end offset is stored. *)
Definition journal_at (limit offset : N) (e : Entry) : Prop := journal_ok limit (set_en_next_offset offset e).

Definition off_journal (e : Entry) :=
  (en_reference e, en_next_offset e, en_exited e, lanes e, en_screen e, en_screen_cells e,
   en_geometry e, en_viewports e, en_revision e).

Record appended (limit : N) (e : Entry) (data : list N) (e' : Entry) : Prop := {
  ap_ok : journal_ok limit e';
  ap_data : journal_data e' = newest limit (journal_data e ++ data);
  ap_frame : off_journal e' = off_journal e
}.

Lemma journal_append_total limit output e s :
  journal_at limit (out_start output) e -> en_next_offset e = out_end output ->
  out_end output = (out_start output + N.of_nat (length (out_data output)))%N ->
  total (journal_append limit output (e, s)) (fun p => appended limit e (out_data output) p.1).
Proof.
  intros Hj Hn Hend. unfold journal_append. set (len := N.of_nat (length (out_data output))) in *.
  destruct (N.leb_spec limit len) as [Hle|Hlt]; cbn [total fst].
  { split; [|unfold journal_data; cbn|done].
    - destruct (N.eqb_spec limit 0) as [->|Hl]; [by apply journal_empty|].
      eapply journal_segment; cbn; [done|done|..]; cbn; unfold len in *; rewrite ?length_drop; lia.
    - rewrite newest_suffix by done. fold len. destruct (N.eqb_spec limit 0) as [->|Hl]; cbn.
      + rewrite N.sub_0_r. unfold len. by rewrite Nat2N.id, drop_all.
      + by rewrite app_nil_r. }
  destruct Hj as [Ej Er|segment Ej Hseg Hlen Er Hlim]; cbn in *; rewrite Ej; cbn.
  - rewrite Er, N.add_0_l, (proj2 (N.ltb_ge _ _)) by lia. split; [|unfold journal_data; cbn|done].
    + eapply journal_segment; cbn; [done|done|lia|done|lia].
    + rewrite Ej, app_nil_r. symmetry. apply newest_all. cbn. unfold len in *. lia.
  - assert (Hall : journal_data e = out_data segment) by (unfold journal_data; rewrite Ej; cbn; by rewrite app_nil_r).
    destruct (N.ltb_spec limit (en_retained_bytes e + len)) as [Hover|Hfit].
    + rewrite (proj2 (N.ltb_ge _ _)) by (unfold len in *; rewrite length_app; lia). cbn.
      split; [|unfold journal_data at 1; cbn|done].
      * eapply journal_segment; cbn; [done|done|..]; cbn; unfold len in *; rewrite ?length_drop, ?length_app; lia.
      * rewrite app_nil_r, Hall. unfold newest. f_equal. unfold len in *. rewrite length_app. lia.
    + cbn. split; [|unfold journal_data at 1; cbn|done].
      * eapply journal_segment; cbn; [done|done|..]; cbn; unfold len in *; rewrite ?length_app; lia.
      * rewrite app_nil_r, Hall, newest_all; [done|]. unfold len in *. rewrite length_app. lia.
Qed.

Lemma journal_shift limit n e : journal_at limit (en_next_offset e) (set_en_next_offset n e) <-> journal_ok limit e.
Proof.
  unfold journal_at. cbn. split; intros [Ej Er|seg Ej ????]; cbn in *;
    [by apply journal_empty|by eapply journal_segment|by apply journal_empty|by eapply journal_segment].
Qed.

(** ** Every operation keeps the invariant *)
Lemma entry_ok_stream_lanes limit e e' :
  journal_ok limit e' -> lanes e' = lanes e -> settled (en_screen e') ->
  en_screen_cells e' = retained_cells (en_screen e') -> entry_ok limit e -> entry_ok limit e'.
Proof. unfold lanes. intros Hj [= Ha Hn] Hs Hc []. by split; rewrite ?Ha, ?Hn. Qed.

(** Which terminal an entry is of, and whether its process has ended. *)
Definition standing (e : Entry) := (en_reference e, en_exited e).

Lemma append_entry_standing limit budgets data e s r e' s' : entry_ok limit e ->
  append_entry limit budgets data (e, s) = (r, (e', s')) ->
  ((exists p, r = Ok p /\ out_data p.1 = data /\ out_start p.1 = en_next_offset e /\
     out_terminal p.1 = en_reference e) /\ entry_ok limit e' /\
  journal_data e' = newest limit (journal_data e ++ data) /\
  en_next_offset e' = (en_next_offset e + N.of_nat (length data))%N) /\
  standing e' = standing e.
Proof.
  intros H. unfold append_entry. assert (Ht := advance_replies_total data (en_screen e) (eo_screen _ _ H)).
  destruct (advance_with_replies data (en_screen e)) as [[screen replies]|]; [|done]. cbn [total fst] in Ht.
  assert (Hs := enforce_screened budgets (set_en_screen screen e) s Ht).
  destruct (enforce_screen_budget budgets (set_en_screen screen e, s)) as [e1 s1]. cbn [fst] in Hs.
  destruct Hs as (Hst & Hln & Hset & Hcells). unfold stream in Hst. cbn in Hst. injection Hst as Er Ej Eb En Ex.
  set (e2 := set_en_next_offset _ e1).
  set (output := MkOutput _ _ _ data).
  assert (Hap : total (journal_append limit output (e2, s1)) (fun p => appended limit e2 data p.1)).
  { apply (journal_append_total limit output e2 s1); [|done|done].
    apply journal_shift. cbn. eapply journal_ok_stream; [|apply H]. unfold stream. congruence. }
  destruct (journal_append limit output (e2, s1)) as [[e3 s3]|]; [|done]. intros [= <- <- <-].
  destruct Hap as [Hok Hdata Hframe]. unfold off_journal in Hframe. injection Hframe as F1 F2 F3 F4 F5 F6 F7 F8 F9.
  cbn in *. split_and!.
  - exists (output, replies). by split_and!.
  - apply (entry_ok_stream_lanes limit e e3); try done; try congruence. unfold lanes in *. cbn in *. congruence.
  - rewrite Hdata. unfold journal_data. cbn. by rewrite Ej.
  - congruence.
  - unfold standing. congruence.
Qed.

Lemma append_entry_ok limit budgets data e s r e' s' : entry_ok limit e ->
  append_entry limit budgets data (e, s) = (r, (e', s')) ->
  (exists p, r = Ok p /\ out_data p.1 = data /\ out_start p.1 = en_next_offset e /\
     out_terminal p.1 = en_reference e) /\ entry_ok limit e' /\
  journal_data e' = newest limit (journal_data e ++ data) /\
  en_next_offset e' = (en_next_offset e + N.of_nat (length data))%N /\
  en_reference e' = en_reference e.
Proof.
  intros H Ha. destruct (append_entry_standing _ _ _ _ _ _ _ _ H Ha) as [(?&?&?&?) [= Hr _]]. by split_and!.
Qed.

Lemma claim_ok limit c viewport e : entry_ok limit e -> entry_ok limit (claim_viewport c viewport e).
Proof. intros H. apply (entry_ok_frame limit e); try done; apply H. Qed.

Lemma mark_seen_ok limit c e : entry_ok limit e -> entry_ok limit (mark_seen c e).
Proof. intros H. apply (entry_ok_frame limit e); try done; apply H. Qed.

Lemma sorted_snoc l n : StronglySorted N.lt l -> Forall (fun m => (m < n)%N) l -> StronglySorted N.lt (l ++ [n]).
Proof.
  induction 1 as [|m l Hl IH Hm]; cbn; intros Hf; [by repeat constructor|].
  inversion_clear Hf. constructor; [by apply IH|]. apply Forall_app. split; [done|]. by repeat constructor.
Qed.

Lemma sorted_sublist (l l' : list N) : sublist l l' -> StronglySorted N.lt l' -> StronglySorted N.lt l.
Proof.
  induction 1 as [|n l l' Hl IH|n l l' Hl IH]; intros Hs; [constructor|..]; inversion_clear Hs as [|? ? Hs' Hf].
  - constructor; [by apply IH|]. rewrite Forall_forall in Hf |- *. intros m Hm. apply Hf.
    by eapply elem_of_sublist.
  - by apply IH.
Qed.

Lemma subscribe_ok limit connection client e : entry_ok limit e ->
  find_first (connected connection) (en_attachments e) = None ->
  entry_ok limit (subscribe connection client e).2.
Proof.
  intros [Hs Hc Hj Ha Hn Hd] Hfree. split; cbn; try done.
  - by apply (journal_ok_stream limit e).
  - rewrite fmap_app. apply sorted_snoc; [done|]. by apply Forall_fmap.
  - apply Forall_app. split; [|repeat constructor; cbn; lia].
    eapply Forall_impl; [done|]. cbn. intros; lia.
  - rewrite fmap_app. apply list.NoDup_app. split_and!; [done| |apply NoDup_singleton].
    intros k Hk ->%list_elem_of_singleton. apply list_elem_of_fmap in Hk as (a & Hk & Ha').
    assert (Hf := proj1 (find_first_None _ _) Hfree a Ha'). unfold connected in Hf.
    apply bool_decide_eq_false in Hf. cbn in Hk. congruence.
Qed.

Lemma attachments_sublist_ok limit e l : sublist l (en_attachments e) ->
  entry_ok limit e -> entry_ok limit (set_en_attachments l e).
Proof.
  intros Hl [Hs Hc Hj Ha Hn Hd]. split; cbn; try done.
  - by apply (journal_ok_stream limit e).
  - eapply sorted_sublist; [|done]. by apply fmap_sublist.
  - rewrite Forall_forall in Hn |- *. intros a Hin. apply Hn. by eapply elem_of_sublist.
  - eapply sublist_NoDup; [done|]. by apply fmap_sublist.
Qed.

Lemma reconcile_ok requester budgets limit e s : entry_ok limit e ->
  entry_ok limit (reconcile_geometry requester budgets (e, s)).1.
Proof. intros H. eapply screened_ok; [|done]. by eapply reconcile_screened. Qed.

(** *** Attaching, detaching, resizing *)
Section bodies.
Context (json_length : ScreenCheckpoint -> option N) (limit : N).

Lemma attach_entry_ok connection client viewport bytes_limit budgets e s r e' s' : entry_ok limit e ->
  attach_entry json_length connection client viewport bytes_limit budgets (e, s) = (r, (e', s')) ->
  r <> Err Panicked /\ entry_ok limit e' /\ stream e' = stream e.
Proof.
  intros H. unfold attach_entry.
  set (existing := find_first (connected connection) (en_attachments e)).
  set (moved := match client with Some c => _ | None => _ end).
  assert (Hm : screened e moved.1).
  { unfold moved. destruct client as [c|]; [|by repeat split; apply H].
    apply (screened_trans e (claim_viewport c viewport e)); [by repeat split; apply H|].
    eapply reconcile_screened. by apply claim_ok. }
  destruct moved as [e1 s1]. cbn [fst] in Hm.
  destruct (snapshot_entry json_length e1 bytes_limit s1) as [[snap|error] s2]; cycle 1.
  { intros [= <- <- <-]. split_and!; [done|by eapply screened_ok|apply Hm]. }
  assert (H1 : entry_ok limit e1) by by eapply screened_ok.
  set (e2 := match client with Some c => mark_seen c e1 | None => e1 end).
  assert (H2 : entry_ok limit e2 /\ stream e2 = stream e /\ lanes e2 = lanes e).
  { destruct Hm as (?&?&_). unfold e2. destruct client; split_and!; try done. by apply mark_seen_ok. }
  destruct H2 as (H2&Hs2&Hl2). clearbody e2.
  destruct existing as [[subscription attachment]|] eqn:Eex; cbn [fmap option_fmap option_map].
  - intros [= <- <- <-]. by split_and!.
  - intros [= <- <- <-]. split_and!; [done| |done].
    apply (subscribe_ok limit connection client e2); [done|].
    assert (Ea : en_attachments e2 = en_attachments e) by (unfold lanes in Hl2; congruence). by rewrite Ea.
Qed.

Lemma detach_entry_ok subscription connection budgets e s r e' s' : entry_ok limit e ->
  detach_entry subscription connection budgets (e, s) = (r, (e', s')) ->
  r <> Err Panicked /\ entry_ok limit e' /\ stream e' = stream e.
Proof.
  intros H. unfold detach_entry. destruct (find_first _ _) as [a|]; [|by intros [= <- <- <-]].
  destruct (connected connection a); [|by intros [= <- <- <-]].
  set (e1 := set_en_attachments _ e).
  assert (H1 : entry_ok limit e1) by by apply attachments_sublist_ok; [apply sublist_retain|].
  assert (Hr := reconcile_screened None budgets limit e1 s H1).
  destruct (reconcile_geometry None budgets (e1, s)) as [e2 s2]. intros [= <- <- <-].
  split_and!; [done|by eapply screened_ok|apply Hr].
Qed.

Lemma keep_connections_ok keep budgets e s : entry_ok limit e ->
  entry_ok limit (keep_connections keep budgets (e, s)).1 /\
  stream (keep_connections keep budgets (e, s)).1 = stream e.
Proof.
  intros H. unfold keep_connections. set (e1 := set_en_attachments _ e).
  assert (H1 : entry_ok limit e1) by by apply attachments_sublist_ok; [apply sublist_retain|].
  destruct (_ =? _).
  - split; [|done]. apply (entry_ok_frame limit e1); try done; apply H1.
  - assert (Hr := reconcile_screened None budgets limit e1 s H1).
    destruct (reconcile_geometry None budgets (e1, s)) as [e2 s2]. cbn [fst] in *.
    split; [|apply Hr]. assert (H2 : entry_ok limit e2) by by eapply screened_ok.
    apply (entry_ok_frame limit e2); try done; apply H2.
Qed.

Lemma apply_target_ok target budgets e s r e' s' : entry_ok limit e ->
  apply_target target budgets (e, s) = (r, (e', s')) -> r <> Err Panicked /\ screened e e'.
Proof.
  intros H. assert (Hself : screened e e) by (repeat split; apply H).
  unfold apply_target. case_bool_decide; [by intros [= <- <- <-]|].
  destruct (negb _); [by intros [= <- <- <-]|]. destruct (pty_resize _ _ _); [|by intros [= <- <- <-]].
  set (s1 := record_effect _ s). assert (Hc := commit_screened target budgets e s1 (eo_screen _ _ H)).
  destruct (commit_geometry target budgets (e, s1)). by intros [= <- <- <-].
Qed.

Lemma resize_entry_ok g client bytes_limit budgets e s r e' s' : entry_ok limit e ->
  resize_entry json_length g client bytes_limit budgets (e, s) = (r, (e', s')) ->
  r <> Err Panicked /\ entry_ok limit e' /\ stream e' = stream e.
Proof.
  intros H. unfold resize_entry. case_bool_decide; [by intros [= <- <- <-]|].
  set (e1 := match client with Some c => prune_viewports _ _ | None => e end).
  assert (H1 : screened e e1) by (unfold e1; destruct client; repeat split; apply H).
  assert (Ho1 : entry_ok limit e1) by by eapply screened_ok. clearbody e1.
  destruct (apply_target _ budgets (e1, s)) as [[[]|failure] [e2 s2]] eqn:Ea;
    destruct (apply_target_ok _ _ _ _ _ _ _ Ho1 Ea) as [Hp H2];
    assert (H12 := screened_trans _ _ _ H1 H2).
  2: { intros [= <- <- <-]. split_and!; [intros [= ->]; by apply Hp|by eapply screened_ok|apply H12]. }
  - set (e3 := match client with Some c => stay_current _ c e2 | None => e2 end).
    assert (H3 : screened e e3) by (unfold e3; destruct client; repeat split; apply H12).
    clearbody e3. destruct (snapshot_entry json_length e3 bytes_limit s2) as [captured s3].
    intros [= <- <- <-]. split_and!; [by destruct captured|by eapply screened_ok|apply H3].
Qed.

Lemma write_entry_ok cache_limit input bytes e s r e' s' : entry_ok limit e ->
  write_entry cache_limit input bytes (e, s) = (r, (e', s')) -> r <> Err Panicked /\ screened e e'.
Proof.
  intros H. assert (Hf : forall inputs, screened e (set_en_inputs inputs e)) by (intros; repeat split; apply H).
  assert (Hself : screened e e) by (repeat split; apply H).
  unfold write_entry. case_bool_decide; [by intros [= <- <- <-]|].
  case_bool_decide; [by intros [= <- <- <-]|]. cbv zeta.
  destruct (_ <? _)%N; [intros [= <- <- <-]; by destruct (find_input _ _ _)|].
  destruct (_ <? _)%N; by intros [= <- <- <-].
Qed.

Lemma clear_entry_ok e s r e' s' : entry_ok limit e -> clear_entry (e, s) = (r, (e', s')) ->
  (exists cleared : bool, r = Ok cleared /\
     (if cleared then en_journal e' = [] /\ en_retained_bytes e' = 0%N
      else journal_data e' = journal_data e)) /\
  entry_ok limit e' /\ en_next_offset e' = en_next_offset e /\ en_reference e' = en_reference e.
Proof.
  intros H. unfold clear_entry. assert (Hs := clear_settled (en_screen e) (eo_screen _ _ H)).
  destruct (clear_primary_for_user (en_screen e)) as [screen cleared] eqn:E. cbn [fst] in Hs.
  destruct cleared.
  - cbn. intros [= <- <- <-]. split_and!; [by exists true| |done|done].
    apply (entry_ok_stream_lanes limit e); try done. by apply journal_empty.
  - intros [= <- <- <-]. split_and!; [by exists false| |done|done].
    apply (entry_ok_frame limit e); try done. cbn. rewrite (eo_cells _ _ H).
    unfold clear_primary_for_user in E. destruct (vs_primary_screen (en_screen e)); [|done].
    by injection E as ->.
Qed.

Lemma exit_entry_ok status e s r e' s' : entry_ok limit e -> exit_entry status (e, s) = (r, (e', s')) ->
  r <> Err Panicked /\ entry_ok limit e' /\ en_reference e' = en_reference e.
Proof.
  intros H [= <- <- <-]. split_and!; [done| |done]. apply (entry_ok_stream_lanes limit e); try done; try apply H.
  destruct (eo_journal _ _ H); [by apply journal_empty|by eapply journal_segment].
Qed.

Lemma new_entry_ok reference g rows cols : entry_ok limit (new_entry reference g (VtScreen.new rows cols)).
Proof.
  split; cbn; try done; [apply new_settled|by apply journal_empty|constructor..].
Qed.
End bodies.
End laws.
