(* ===== verification/TerminalLife.v ===== *)
(** * The life of a terminal registry

    [RegistryOp] names every operation of the registry, [registry_op] runs one
    and [registry_ops] a sequence.  [entries_ok] holds of every registry reached
    from a new one, so none of its panics can happen and the replay is exact. *)
From S2P Require Export TerminalJournal.

Inductive RegistryOp : Type :=
| Register (reference : TerminalRef) (g : Geometry)
| Attach (reference : TerminalRef) (connection : ConnectionId)
| AttachForClient (reference : TerminalRef) (connection : ConnectionId) (client : ClientId)
    (viewport : option Geometry)
| Detach (reference : TerminalRef) (subscription : N) (connection : ConnectionId)
| Disconnect (connection : ConnectionId)
| RetainLive (live : gset ConnectionId)
| AppendOutput (reference : TerminalRef) (data : list N)
| ResizeTerminal (reference : TerminalRef) (g : Geometry) (client : option ClientId)
| WriteInput (reference : TerminalRef) (input : InputRequest) (bytes : list N) (now_ms : N)
| ClearPrimary (reference : TerminalRef)
| InputOutcome (reference : TerminalRef) (client : ClientId) (operation : OperationId) (now_ms : N)
| ExitedOp (reference : TerminalRef) (status : Z)
| TakeSnapshot (reference : TerminalRef)
| Forget (reference : TerminalRef).

Section life.
Context {U : UnicodeWidth} {P : PtyAnswers}.
Context (json_length : ScreenCheckpoint -> option N) (sha256 : list N -> list N).

Definition failure_of {A} (p : result Failure A * World) : option Failure * World :=
  (match p.1 with Ok _ => None | Err f => Some f end, p.2).

Definition registry_op (op : RegistryOp) (w : World) : option Failure * World :=
  match op with
  | Register r g => failure_of (register r g w)
  | Attach r c => failure_of (attach json_length r c w)
  | AttachForClient r c client v => failure_of (attach_for_client json_length r c client v w)
  | Detach r n c => failure_of (detach r n c w)
  | Disconnect c => (None, disconnect c w)
  | RetainLive live => (None, retain_live_connections live w)
  | AppendOutput r data => failure_of (append_output_with_replies r data w)
  | ResizeTerminal r g client => failure_of (resize json_length r g client w)
  | WriteInput r input bytes now => failure_of (write_input sha256 r input bytes now w)
  | ClearPrimary r => failure_of (clear_primary r w)
  | InputOutcome r client operation now => failure_of (input_outcome r client operation now w)
  | ExitedOp r status => failure_of (exited r status w)
  | TakeSnapshot r => failure_of (snapshot json_length r w)
  | Forget r => (None, (forget r w).2)
  end.

Fixpoint registry_ops (ops : list RegistryOp) (w : World) : list (option Failure) * World :=
  match ops with
  | [] => ([], w)
  | op :: ops =>
      let '(f, w) := registry_op op w in
      let '(fs, w) := registry_ops ops w in
      (f :: fs, w)
  end.

(** ** The invariant of the entries *)
Definition kept_entry (limit : N) (ke : string * Entry) : Prop :=
  ke.1 = key (en_reference ke.2) /\ entry_ok limit ke.2.

Record entries_ok (r : TerminalRegistry) : Prop := {
  es_keys : NoDup (fst <$> tr_entries r);
  es_entries : Forall (kept_entry (tr_journal_limit r)) (tr_entries r)
}.

Definition world_ok (w : World) : Prop := entries_ok (wo_registry w).

Lemma btree_get_elem {V} k (m : list (string * V)) v : btree_get k m = Some v -> (k, v) ∈ m.
Proof.
  unfold btree_get. destruct (find_first (at_key fst k) m) as [[k' v']|] eqn:E; [|done].
  intros [= <-]. apply kfind_Some in E as [E <-]. done.
Qed.

Lemma btree_get_put {V} k k' (v : V) m :
  btree_get k (btree_put k' v m) = if decide (k = k') then (fun _ => v) <$> btree_get k' m else btree_get k m.
Proof.
  unfold btree_get, btree_put. rewrite (kfind_update fst) by done. case_decide as Hk; [|done].
  subst. by destruct (find_first _ m).
Qed.

Lemma btree_keys_put {V} k (v : V) m : fst <$> btree_put k v m = fst <$> m.
Proof. unfold btree_put. by apply keys_update. Qed.

Lemma btree_put_Forall {V} (Q : string * V -> Prop) k v m :
  Q (k, v) -> Forall Q m -> Forall Q (btree_put k v m).
Proof.
  intros Hv Hm. unfold btree_put. induction Hm as [|[k' v'] m Hq Hm IH]; cbn; [done|].
  destruct (at_key fst k (k', v')) eqn:E; [|by apply Forall_cons].
  apply (at_key_true fst k (k', v')) in E as <-. by apply Forall_cons.
Qed.

Lemma btree_insert_Permutation {V} k (v : V) m : btree_get k m = None -> btree_insert k v m ≡ₚ (k, v) :: m.
Proof.
  unfold btree_get. induction m as [|[k' v'] m IH]; cbn; [done|].
  destruct (at_key fst k (k', v')) eqn:E; [done|]. apply (at_key_false fst k (k', v')) in E. cbn in E. intros H.
  destruct (String.compare k k') eqn:Ec; [|done|rewrite IH by done; apply Permutation_swap].
  apply String.compare_eq_iff in Ec. congruence.
Qed.

Lemma entry_get reference r e : entry reference r = Some e ->
  btree_get (key reference) (tr_entries r) = Some e /\ en_reference e = reference.
Proof.
  unfold entry, TerminalRef_fences. destruct (btree_get _ _) as [e'|]; [|done].
  case_bool_decide as Hf; [|done]. by intros [= <-].
Qed.

Lemma entry_kept reference r e : entries_ok r -> entry reference r = Some e ->
  entry_ok (tr_journal_limit r) e.
Proof.
  intros [_ Hf] [He _]%entry_get. apply btree_get_elem in He. rewrite Forall_forall in Hf.
  by destruct (Hf _ He).
Qed.

(** An operation on one entry keeps the invariant when its body does. *)
Lemma on_entry_ok {A} reference (body : st (Entry * Shared) Failure A) w r w' :
  world_ok w ->
  (forall e s r e' s', entry_ok (tr_journal_limit (wo_registry w)) e -> en_reference e = reference ->
     body (e, s) = (r, (e', s')) ->
     r <> Err Panicked /\ entry_ok (tr_journal_limit (wo_registry w)) e' /\ en_reference e' = reference) ->
  on_entry reference body w = (r, w') -> r <> Err Panicked /\ world_ok w'.
Proof.
  intros Hw Hbody. unfold on_entry. destruct (entry reference (wo_registry w)) as [e|] eqn:Ee; [|by intros [= <- <-]].
  assert (He := entry_kept _ _ _ Hw Ee). apply entry_get in Ee as [Eg Er].
  destruct (body (e, wo_shared w)) as [r1 [e1 s1]] eqn:Eb. intros [= <- <-].
  destruct (Hbody _ _ _ _ _ He Er Eb) as (Hp & He1 & Er1). split; [done|]. destruct Hw as [Hk Hf].
  split; cbn; [by rewrite btree_keys_put|]. apply btree_put_Forall; [|done]. split; cbn; [by rewrite Er1|done].
Qed.

Lemma set_operations_ok l w s :
  world_ok w -> world_ok (MkWorld (set_tr_operations l (wo_registry w)) s).
Proof. by intros [? ?]. Qed.

Lemma on_operations_ok {A} (f : InputOperationLedger -> A * InputOperationLedger) w r w' :
  world_ok w -> on_operations f w = (r, w') -> (exists a, r = Ok a) /\ world_ok w'.
Proof.
  intros Hw. unfold on_operations. destruct (f _) as [a l]. intros [= <- <-].
  split; [by eexists|by apply set_operations_ok].
Qed.

Lemma sweep_ok limit f entries s :
  (forall e s, entry_ok limit e -> entry_ok limit (f (e, s)).1 /\ en_reference (f (e, s)).1 = en_reference e) ->
  Forall (kept_entry limit) entries ->
  Forall (kept_entry limit) (sweep f entries s).1 /\ fst <$> (sweep f entries s).1 = fst <$> entries.
Proof.
  intros Hstep. revert s. induction entries as [|[k e] entries IH]; intros s Hf; cbn; [done|].
  inversion_clear Hf as [|? ? [Hk He] Hf']. cbn in Hk, He. destruct (Hstep e s He) as [He' Hr].
  destruct (f (e, s)) as [e' s'] eqn:E. cbn in He', Hr. destruct (IH s' Hf') as [IHf IHk].
  destruct (sweep f entries s') as [rest s2]. cbn in *. split; [|by rewrite IHk].
  constructor; [|done]. split; cbn; [by rewrite Hr|done].
Qed.

Lemma stream_reference e e' : stream e' = stream e -> en_reference e' = en_reference e.
Proof. unfold stream. congruence. Qed.

Lemma sweep_connections_ok keep w : world_ok w -> world_ok (sweep_connections keep w).
Proof.
  intros [Hk Hf]. unfold sweep_connections.
  destruct (sweep_ok (tr_journal_limit (wo_registry w)) (keep_connections keep (screen_budgets w))
              (tr_entries (wo_registry w)) (wo_shared w)) as [Hf' Hk']; [|done|].
  { intros e s He. destruct (keep_connections_ok (tr_journal_limit (wo_registry w)) keep (screen_budgets w) e s He).
    split; [done|by apply stream_reference]. }
  destruct (sweep _ _ _) as [entries s]. cbn in *. split; cbn; [by rewrite Hk'|done].
Qed.

Lemma trim_screen_kept limit k n e s : kept_entry limit (k, e) -> kept_entry limit (k, (trim_screen n (e, s)).1).
Proof.
  intros [Hk He]. cbn in Hk. assert (Ht := trim_screened n e s (eo_screen _ _ He)).
  split; cbn; [|by eapply screened_ok]. rewrite (stream_reference e); [done|apply Ht].
Qed.

Lemma reclaim_ok order needed w : world_ok w ->
  world_ok (reclaim order needed w) /\
  fst <$> tr_entries (wo_registry (reclaim order needed w)) = fst <$> tr_entries (wo_registry w) /\
  tr_journal_limit (wo_registry (reclaim order needed w)) = tr_journal_limit (wo_registry w).
Proof.
  revert needed w. induction order as [|k order IH]; intros needed w Hw; cbn [reclaim]; [done|].
  destruct (_ =? _)%N; [done|]. destruct (btree_get k _) as [e|] eqn:Ee; [|done].
  destruct Hw as [Hk Hf]. assert (Hke := Ee). apply btree_get_elem in Hke.
  assert (Hkept : kept_entry (tr_journal_limit (wo_registry w)) (k, e)) by (rewrite Forall_forall in Hf; auto).
  cbv zeta. set (n := (_ - needed)%N). apply (trim_screen_kept _ _ n e (wo_shared w)) in Hkept.
  destruct (trim_screen n (e, wo_shared w)) as [e1 s1]. cbn [fst] in Hkept.
  match goal with |- world_ok (reclaim _ ?m ?w1) /\ _ => destruct (IH m w1) as (H1&H2&H3) end.
  - split; cbn; [by rewrite btree_keys_put|by apply btree_put_Forall].
  - rewrite H2, H3. cbn. by rewrite btree_keys_put.
Qed.

Lemma btree_get_keys {V} k (m : list (string * V)) : btree_get k m = None <-> k ∉ fst <$> m.
Proof.
  unfold btree_get. rewrite <- (kfind_None fst). by destruct (find_first _ _).
Qed.

Lemma register_ok reference g w r w' : world_ok w -> register reference g w = (r, w') ->
  r <> Err Panicked /\ world_ok w'.
Proof.
  intros Hw. unfold register.
  destruct (btree_get (key reference) (tr_entries (wo_registry w))) eqn:Eg; [by intros [= <- <-]|].
  destruct (screen_dimensions g) as [rows cols]. cbv zeta.
  set (w1 := if _ && _ then reclaim_screen_cells _ w else w).
  assert (H1 : world_ok w1 /\ fst <$> tr_entries (wo_registry w1) = fst <$> tr_entries (wo_registry w)).
  { unfold w1. destruct (_ && _); [|done]. unfold reclaim_screen_cells.
    split; [by apply reclaim_ok|by apply reclaim_ok]. }
  destruct H1 as [[Hk Hf] Hkeys]. clearbody w1.
  destruct (negb _); [by intros [= <- <-]|]. intros [= <- <-]. split; [done|].
  assert (Hfree : btree_get (key reference) (tr_entries (wo_registry w1)) = None).
  { apply btree_get_keys. rewrite Hkeys. by apply btree_get_keys. }
  assert (Hp := btree_insert_Permutation (key reference) (new_entry reference g (VtScreen.new rows cols)) _ Hfree).
  split; cbn.
  - rewrite Hp. cbn. apply list.NoDup_cons. split; [by apply btree_get_keys|done].
  - rewrite Hp. constructor; [|done]. split; [done|apply new_entry_ok].
Qed.

Lemma forget_ok reference w : world_ok w -> world_ok (forget reference w).2.
Proof.
  intros [Hk Hf]. unfold forget. destruct (entry reference (wo_registry w)); [|done]. split; cbn.
  - by apply (NoDup_keys_retain fst).
  - rewrite Forall_forall in Hf |- *. intros ke [Hin _]%elem_of_retain. by apply Hf.
Qed.


(** ** Operations that can not panic *)
Definition fine {A} (c : st World Failure A) (w : World) : Prop :=
  (c w).1 <> Err Panicked /\ world_ok (c w).2.

Lemma fine_intro {A} (c : st World Failure A) w :
  (forall r w', c w = (r, w') -> r <> Err Panicked /\ world_ok w') -> fine c w.
Proof. intros H. unfold fine. destruct (c w) as [r w'] eqn:E. by apply H. Qed.

(** An operation that reads the world before it borrows the entry. *)
Lemma fine_at {A} (c c' : st World Failure A) w : c w = c' w -> fine c' w -> fine c w.
Proof. unfold fine. by intros ->. Qed.

Lemma fine_bind {A B} (c : st World Failure A) (k : A -> st World Failure B) w :
  fine c w -> (forall a w1, world_ok w1 -> fine (k a) w1) -> fine (st_bind c k) w.
Proof.
  unfold fine, st_bind. intros [Hp Hw] Hk. destruct (c w) as [[a|e] w1]; cbn in *; [by apply Hk|].
  split; [|done]. intros [= ->]. by apply Hp.
Qed.

Lemma fine_ret {A} (a : A) w : world_ok w -> fine (st_ret a) w.
Proof. done. Qed.
Lemma fine_get w : world_ok w -> fine st_get w.
Proof. done. Qed.
Lemma fine_refuse {A} e w : world_ok w -> fine (A := A) (refuse e) w.
Proof. done. Qed.
Lemma fine_lift {A} (r : result RegistryError A) w : world_ok w -> fine (st_lift (map_err Refused r)) w.
Proof. intros H. split; [by destruct r|done]. Qed.
Lemma fine_operations {A} (f : InputOperationLedger -> A * InputOperationLedger) w :
  world_ok w -> fine (on_operations f) w.
Proof. intros Hw. apply fine_intro. intros r w' H. by destruct (on_operations_ok f w r w' Hw H) as [[a ->] ?]. Qed.

Lemma fine_entry {A} reference (body : st (Entry * Shared) Failure A) w :
  world_ok w ->
  (forall e s r e' s', entry_ok (tr_journal_limit (wo_registry w)) e -> body (e, s) = (r, (e', s')) ->
     r <> Err Panicked /\ entry_ok (tr_journal_limit (wo_registry w)) e' /\ en_reference e' = en_reference e) ->
  fine (on_entry reference body) w.
Proof.
  intros Hw Hbody. apply fine_intro. intros r w' H. eapply on_entry_ok; [exact Hw| |exact H].
  intros e s r0 e' s' He <- Hb. by eapply Hbody.
Qed.

Ltac frame_body lemma H :=
  let e := fresh in let He := fresh in
  intros e ? ? ? ? He H; apply lemma in H as (?&?&?); [|exact He];
  split_and!; [done|done|by apply stream_reference].

Lemma lookup_input_fine reference input bytes now w :
  world_ok w -> fine (lookup_input sha256 reference input bytes now) w.
Proof. intros Hw. unfold lookup_input. destruct (ir_operation input); [by apply fine_operations|by apply fine_ret]. Qed.

Lemma record_input_fine reference input bytes now ack w :
  world_ok w -> fine (record_input sha256 reference input bytes now ack) w.
Proof. intros Hw. unfold record_input. destruct (ir_operation input); [by apply fine_operations|by apply fine_ret]. Qed.

Lemma write_input_fine reference input bytes now w : world_ok w ->
  fine (write_input sha256 reference input bytes now) w.
Proof.
  intros Hw. apply fine_bind; [by apply lookup_input_fine|]. intros found w1 H1.
  destruct found as [|ack|]; [|apply fine_entry; [done|by intros ????? ? [= <- <- <-]]|by apply fine_refuse].
  apply fine_bind; [by apply fine_get|]. intros w2 w3 H3.
  apply fine_bind.
  { apply fine_entry; [done|]. intros e s r e' s' He Hb.
    destruct (write_entry_ok _ _ _ _ _ _ _ _ _ He Hb) as [Hp Hs].
    split_and!; [done|by eapply screened_ok|apply stream_reference, Hs]. }
  intros [ack written] w4 H4. apply fine_bind; [|intros; by apply fine_ret].
  destruct written; [by apply record_input_fine|by apply fine_ret].
Qed.

Lemma attach_client_fine reference connection client viewport w : world_ok w ->
  fine (attach_client json_length reference connection client viewport) w.
Proof.
  intros Hw. apply (fine_at _ (on_entry reference (attach_entry json_length connection client viewport
    (tr_checkpoint_bytes_limit (wo_registry w)) (screen_budgets w)))); [reflexivity|]. apply fine_entry; [done|].
  frame_body (attach_entry_ok json_length (tr_journal_limit (wo_registry w))) H.
Qed.

Lemma detach_fine reference subscription connection w : world_ok w ->
  fine (detach reference subscription connection) w.
Proof.
  intros Hw. apply (fine_at _ (on_entry reference (detach_entry subscription connection (screen_budgets w)))); [reflexivity|]. apply fine_entry; [done|].
  frame_body (detach_entry_ok (tr_journal_limit (wo_registry w))) H.
Qed.

Lemma append_fine reference data w : world_ok w -> fine (append_output_with_replies reference data) w.
Proof.
  intros Hw. apply (fine_at _ (on_entry reference (append_entry (tr_journal_limit (wo_registry w)) (screen_budgets w) data))); [reflexivity|]. apply fine_entry; [done|]. intros e s r e' s' He Hb.
  destruct (append_entry_ok _ _ _ _ _ _ _ _ He Hb) as ((p & -> & _) & H1 & _ & _ & H2). done.
Qed.

Lemma resize_fine reference g client w : world_ok w -> fine (resize json_length reference g client) w.
Proof.
  intros Hw. apply (fine_at _ (on_entry reference (resize_entry json_length g client
    (tr_checkpoint_bytes_limit (wo_registry w)) (screen_budgets w)))); [reflexivity|]. apply fine_entry; [done|].
  frame_body (resize_entry_ok json_length (tr_journal_limit (wo_registry w))) H.
Qed.

Lemma clear_fine reference w : world_ok w -> fine (clear_primary reference) w.
Proof.
  intros Hw. apply fine_entry; [done|]. intros e s r e' s' He Hb.
  destruct (clear_entry_ok _ _ _ _ _ _ He Hb) as ((c & -> & _) & H1 & _ & H2). done.
Qed.

Lemma exited_fine reference status w : world_ok w -> fine (exited reference status) w.
Proof.
  intros Hw. apply fine_entry; [done|]. intros e s r e' s' He Hb.
  by destruct (exit_entry_ok _ _ _ _ _ _ _ He Hb) as (? & ? & ?).
Qed.

Lemma snapshot_fine reference w : world_ok w -> fine (snapshot json_length reference) w.
Proof.
  intros Hw. apply (fine_at _ (on_entry reference (fun '(e, s) =>
    let '(captured, s) := snapshot_entry json_length e (tr_checkpoint_bytes_limit (wo_registry w)) s in
    (map_err Refused captured, (e, s))))); [reflexivity|]. apply fine_entry; [done|].
  intros e s r e' s' He. cbn beta iota. destruct (snapshot_entry _ _ _ _) as [captured s1].
  intros [= <- <- <-]. split_and!; [by destruct captured|done|done].
Qed.

Lemma registry_op_ok op w : world_ok w ->
  (registry_op op w).1 <> Some Panicked /\ world_ok (registry_op op w).2.
Proof.
  intros Hw.
  assert (Hfail : forall A (c : st World Failure A), fine c w ->
            (failure_of (c w)).1 <> Some Panicked /\ world_ok (failure_of (c w)).2).
  { intros A c [Hp Hw']. unfold failure_of. cbn. split; [|done].
    destruct (c w) as [[a|e] w1]; cbn in *; [done|]. intros [= ->]. by apply Hp. }
  destruct op; cbn [registry_op]; try apply Hfail.
  - apply fine_intro. intros r w' H. by eapply register_ok.
  - by apply attach_client_fine.
  - apply fine_bind; [by apply attach_client_fine|]. intros a w1 H1.
    apply fine_bind; [by apply fine_get|]. intros w2 w3 H3.
    apply fine_bind; [by apply fine_lift|]. intros. by apply fine_ret.
  - by apply detach_fine.
  - split; [done|by apply sweep_connections_ok].
  - split; [done|by apply sweep_connections_ok].
  - by apply append_fine.
  - by apply resize_fine.
  - by apply write_input_fine.
  - by apply clear_fine.
  - apply fine_bind; [apply fine_entry; [done|by intros ????? ? [= <- <- <-]]|]. intros. by apply fine_operations.
  - by apply exited_fine.
  - by apply snapshot_fine.
  - split; [done|by apply forget_ok].
Qed.

Lemma registry_ops_ok ops w : world_ok w ->
  Some Panicked ∉ (registry_ops ops w).1 /\ world_ok (registry_ops ops w).2.
Proof.
  revert w. induction ops as [|op ops IH]; intros w Hw; cbn; [split; [by apply not_elem_of_nil|done]|].
  destruct (registry_op_ok op w Hw) as [Hp Hw']. destruct (registry_op op w) as [f w1]. cbn in Hp, Hw'.
  destruct (IH w1 Hw') as [Hps Hw2]. destruct (registry_ops ops w1) as [fs w2]. cbn in *.
  split; [|done]. intros [<-|?]%elem_of_cons; auto.
Qed.

Lemma new_registry_ok journal_limit cache_limit : entries_ok (new_registry journal_limit cache_limit).
Proof. split; cbn; constructor. Qed.

(** Whatever the clients ask for and the terminals print, the registry never
    panics: the journal the code expects to hold a segment holds one, no slice
    of it is out of range and no screen is indexed outside its grid.  In every
    reachable registry each terminal is stored under its own id, its screen is
    sound and its cells are accounted for exactly, and its journal is one
    contiguous segment that ends at the newest byte. *)
Theorem registry_never_panics ops journal_limit cache_limit shared :
  let '(failures, w) := registry_ops ops (MkWorld (new_registry journal_limit cache_limit) shared) in
  Some Panicked ∉ failures /\ world_ok w.
Proof.
  assert (H := registry_ops_ok ops (MkWorld (new_registry journal_limit cache_limit) shared)
                 (new_registry_ok journal_limit cache_limit)).
  by destruct (registry_ops ops _).
Qed.
End life.

(** ** Small concrete worlds *)
Module RegistryExample.
(** A PTY that takes every size and every byte. *)
Definition quiet_pty : PtyAnswers := Build_PtyAnswers (fun _ _ _ => true) (fun _ _ => None).
Definition small_json (_ : ScreenCheckpoint) : option N := Some 100%N.
Definition terminal (id : string) : TerminalRef :=
  MkTerminalRef (MkDaemonGeneration "g") (MkTerminalId id) (MkWorkspaceId "w") None (MkWorktreeId "k").
Definition shell : TerminalRef := terminal "t".
Definition client : ClientId := MkClientId "c".
Definition other_client : ClientId := MkClientId "d".
Definition first_lane : ConnectionId := MkConnectionId "n1".
Definition second_lane : ConnectionId := MkConnectionId "n2".
Definition counters : OutputPipelineCounters := MkOutputPipelineCounters 0 0 0 0 0.
Definition empty (journal_limit : N) : World := MkWorld (new_registry journal_limit 4) (MkShared counters []).
End RegistryExample.
