(* ===== verification/TerminalReplay.v ===== *)
(** * Incremental replay is exact

    A client that holds a screen at one offset asks for the bytes after it.  The
    registry answers with exactly the bytes the terminal printed since, or with
    [ResyncRequired]; a client that feeds the answer into the screen it restored
    holds the daemon's screen. *)
From S2P Require Export TerminalLife.

Section replay.
Context {U : UnicodeWidth} {P : PtyAnswers}.
Context (json_length : ScreenCheckpoint -> option N) (sha256 : list N -> list N).

Notation registry_op := (registry_op json_length sha256).

(** ** One entry *)
Lemma base_offset_eq limit e : journal_ok limit e ->
  (base_offset e + N.of_nat (length (journal_data e)))%N = en_next_offset e.
Proof.
  unfold base_offset, journal_data. intros [Ej Er|seg Ej Hend Hlen Er Hl]; rewrite Ej; cbn; [lia|].
  rewrite app_nil_r. lia.
Qed.

Record replayed (e : Entry) (offset : N) (outs : list Output) : Prop := {
  rp_data : mjoin (out_data <$> outs) = drop (N.to_nat (offset - base_offset e)) (journal_data e);
  rp_span : outs = [] /\ offset = en_next_offset e \/
    exists out, outs = [out] /\ out_start out = offset /\ out_end out = en_next_offset e
}.

Lemma replay_entry_spec limit e offset : journal_ok limit e ->
  if (base_offset e <=? offset)%N && (offset <=? en_next_offset e)%N
  then exists outs, replay_entry offset None e = Ok outs /\ replayed e offset outs
  else replay_entry offset None e = Err ResyncRequired.
Proof.
  intros Hj. assert (Hb := base_offset_eq limit e Hj). unfold replay_entry, stale_viewport. cbn [mbind option_bind].
  destruct (N.leb_spec (base_offset e) offset) as [Hlo|Hlo]; cbn [andb].
  2: { by rewrite (proj2 (N.ltb_lt _ _) Hlo). }
  rewrite (proj2 (N.ltb_ge _ _) Hlo). cbn [orb].
  destruct (N.leb_spec offset (en_next_offset e)) as [Hhi|Hhi].
  2: { by rewrite (proj2 (N.ltb_lt _ _) Hhi). }
  rewrite (proj2 (N.ltb_ge _ _) Hhi). eexists. split; [done|].
  destruct Hj as [Ej Er|seg Ej Hend Hlen Er Hl]; unfold base_offset, journal_data in *; rewrite Ej in *; cbn in *.
  - split; cbn; [|left; split; [done|lia]]. unfold journal_data. rewrite Ej. symmetry. apply drop_nil.
  - rewrite app_nil_r in Hb. destruct (N.ltb_spec offset (out_end seg)) as [Hlt|Hge]; cbn.
    + split; cbn.
      * unfold base_offset, journal_data. rewrite Ej. cbn. rewrite !app_nil_r. unfold replay_segment.
        destruct (N.leb_spec offset (out_start seg)) as [Hs|Hs]; cbn.
        { by replace (N.to_nat (offset - out_start seg)) with 0 by lia. }
        f_equal. lia.
      * right. eexists. split; [done|]. unfold replay_segment.
        destruct (N.leb_spec offset (out_start seg)) as [Hs|Hs]; cbn; [|done]. lia.
    + split; cbn; [|left; split; [done|lia]]. unfold base_offset, journal_data. rewrite Ej. cbn.
      rewrite app_nil_r. symmetry. apply drop_ge. lia.
Qed.

(** A client that saw another geometry is sent back; any other is nobody. *)
Lemma replay_entry_client offset client e :
  replay_entry offset client e =
  if match client ≫= fun c => en_viewports e !! c with
     | Some viewport => negb (bool_decide (cv_seen viewport = en_geometry e))
     | None => false
     end
  then Err ResyncRequired else replay_entry offset None e.
Proof.
  unfold replay_entry at 1, stale_viewport. destruct (client ≫= _) as [v|]; [|done].
  case_bool_decide as Hd; destruct (bool_decide_reflect (cv_seen v = en_geometry e)); done.
Qed.

(** ** How one operation changes the entry of [reference] *)

(** What the replay depends on. *)
Definition told (e : Entry) := (en_journal e, en_retained_bytes e, en_next_offset e).

Lemma told_stream e e' : stream e' = stream e -> told e' = told e.
Proof. unfold stream, told. congruence. Qed.

Lemma entries_set reference e s w :
  tr_entries (wo_registry (set_entry reference e s w)) =
  btree_put (key reference) e (tr_entries (wo_registry w)).
Proof. done. Qed.

Lemma entry_set reference e s w : en_reference e = reference ->
  is_Some (btree_get (key reference) (tr_entries (wo_registry w))) ->
  entry reference (wo_registry (set_entry reference e s w)) = Some e.
Proof.
  intros Hr [e0 H0]. unfold entry. rewrite entries_set, btree_get_put, decide_True, H0 by done. cbn.
  unfold TerminalRef_fences. by rewrite bool_decide_eq_true_2.
Qed.

Lemma entry_set_other reference r e s w : key r <> key reference ->
  entry reference (wo_registry (set_entry r e s w)) = entry reference (wo_registry w).
Proof.
  intros Hk. unfold entry. by rewrite entries_set, btree_get_put, decide_False by (intros E; by apply Hk).
Qed.

Lemma on_entry_entry {A} r (body : st (Entry * Shared) Failure A) w reference e :
  entry reference (wo_registry w) = Some e ->
  (r = reference -> en_reference (body (e, wo_shared w)).2.1 = reference) ->
  entry reference (wo_registry (on_entry r body w).2) =
  Some (if decide (r = reference) then (body (e, wo_shared w)).2.1 else e).
Proof.
  intros He Hkeep. assert (Hg := He). apply entry_get in Hg as [Hg Hr]. unfold on_entry.
  case_decide as Hd.
  - subst r. rewrite He. assert (Hk := Hkeep eq_refl). destruct (body (e, wo_shared w)) as [r1 [e1 s1]]. cbn [fst snd] in *.
    apply entry_set; [done|]. by eexists.
  - destruct (decide (key r = key reference)) as [Hk|Hk].
    + unfold entry. rewrite Hk, Hg. unfold TerminalRef_fences. rewrite bool_decide_eq_false_2 by congruence. done.
    + destruct (entry r (wo_registry w)) as [e0|]; [|done].
      destruct (body (e0, wo_shared w)) as [r1 [e1 s1]]. cbn [snd]. by rewrite entry_set_other.
Qed.

(** [reference] keeps its entry, changed as [Q] says. *)
Definition goes_on (reference : TerminalRef) (Q : Entry -> Entry -> Prop) (w w' : World) : Prop :=
  forall e, entry reference (wo_registry w) = Some e ->
  exists e', entry reference (wo_registry w') = Some e' /\ Q e e'.

Definition untouched (e e' : Entry) : Prop := told e' = told e.

Lemma goes_on_id reference w w' : tr_entries (wo_registry w') = tr_entries (wo_registry w) ->
  goes_on reference untouched w w'.
Proof. intros Ht e He. exists e. split; [|done]. unfold entry in *. by rewrite Ht. Qed.

Lemma goes_on_trans reference w1 w2 w3 :
  goes_on reference untouched w1 w2 -> goes_on reference untouched w2 w3 -> goes_on reference untouched w1 w3.
Proof.
  intros H1 H2 e He. destruct (H1 e He) as (e2 & He2 & Q2). destruct (H2 e2 He2) as (e3 & He3 & Q3).
  exists e3. split; [done|]. unfold untouched in *. congruence.
Qed.

Lemma on_entry_goes_on {A} r (body : st (Entry * Shared) Failure A) reference w :
  world_ok w ->
  (forall e s r e' s', entry_ok (tr_journal_limit (wo_registry w)) e -> body (e, s) = (r, (e', s')) ->
     en_reference e' = en_reference e /\ told e' = told e) ->
  goes_on reference untouched w (on_entry r body w).2.
Proof.
  intros Hw Hbody e He. assert (Ho := entry_kept _ _ _ Hw He).
  destruct (body (e, wo_shared w)) as [r1 [e1 s1]] eqn:Eb. destruct (Hbody _ _ _ _ _ Ho Eb) as [Hr Ht].
  assert (Hg := proj2 (entry_get _ _ _ He)).
  assert (H := on_entry_entry r body w reference e He). rewrite Eb in H. cbn [fst snd] in H.
  rewrite H by congruence. eexists. split; [done|]. by destruct (decide (r = reference)).
Qed.

Lemma st_bind_snd {A B} (c : st World Failure A) (k : A -> st World Failure B) w :
  (st_bind c k w).2 = match (c w).1 with Ok a => (k a (c w).2).2 | Err _ => (c w).2 end.
Proof. unfold st_bind. by destruct (c w) as [[a|e] w1]. Qed.

(** A chain of steps each of which leaves [reference] untouched. *)
Lemma bind_goes_on {A B} reference (c : st World Failure A) (k : A -> st World Failure B) w :
  fine c w -> goes_on reference untouched w (c w).2 ->
  (forall a w1, world_ok w1 -> goes_on reference untouched w1 (k a w1).2) ->
  goes_on reference untouched w (st_bind c k w).2.
Proof.
  intros [_ Hw] Hc Hk. rewrite st_bind_snd. destruct ((c w).1); [|done].
  eapply goes_on_trans; [done|]. by apply Hk.
Qed.

Lemma operations_goes_on {A} (f : InputOperationLedger -> A * InputOperationLedger) reference w :
  goes_on reference untouched w (on_operations f w).2.
Proof. unfold on_operations. destruct (f _) as [a l]. by apply goes_on_id. Qed.

Lemma find_sweep f k entries s :
  match btree_get k entries with
  | Some e => exists s', btree_get k (sweep f entries s).1 = Some (f (e, s')).1
  | None => btree_get k (sweep f entries s).1 = None
  end.
Proof.
  revert s. induction entries as [|[k' e] entries IH]; intros s; [done|].
  unfold btree_get. cbn [sweep find_first].
  destruct (f (e, s)) as [e' s'] eqn:Ef. specialize (IH s').
  destruct (sweep f entries s') as [rest s2]. cbn [fst find_first]. unfold btree_get in IH.
  replace (at_key fst k (k', e')) with (at_key fst k (k', e)) by done.
  destruct (at_key fst k (k', e)); cbn [fst snd fmap option_fmap option_map]; [|done].
  exists s. by rewrite Ef.
Qed.

Lemma sweep_goes_on keep reference w : world_ok w ->
  goes_on reference untouched w (sweep_connections keep w).
Proof.
  intros Hw e He. assert (Ho := entry_kept _ _ _ Hw He). assert (Hg := He). apply entry_get in Hg as [Hg Hr].
  unfold sweep_connections. set (f := keep_connections keep (screen_budgets w)).
  assert (Hf := find_sweep f (key reference) (tr_entries (wo_registry w)) (wo_shared w)). rewrite Hg in Hf.
  destruct Hf as [s' Hs']. destruct (keep_connections_ok _ keep (screen_budgets w) e s' Ho) as [_ Hst]. fold f in Hst.
  destruct (sweep f _ _) as [entries s2]. cbn [fst] in Hs'. exists (f (e, s')).1.
  split; [|by apply told_stream]. unfold entry. cbn [wo_registry tr_entries set_tr_entries]. rewrite Hs'.
  unfold TerminalRef_fences. by rewrite bool_decide_eq_true_2 by (by rewrite (stream_reference e)).
Qed.

(** Replacing the entry under one key by one with the same stream. *)
Lemma put_goes_on k e e' reference w s :
  btree_get k (tr_entries (wo_registry w)) = Some e -> stream e' = stream e ->
  goes_on reference untouched w
    (MkWorld (set_tr_entries (btree_put k e' (tr_entries (wo_registry w))) (wo_registry w)) s).
Proof.
  intros Hk Hst e0 He0. assert (Hg := He0). apply entry_get in Hg as [Hg Hr].
  unfold entry. cbn [wo_registry tr_entries set_tr_entries]. rewrite btree_get_put.
  destruct (decide (key reference = k)) as [<-|Hne].
  - rewrite Hk in Hg |- *. injection Hg as ->. exists e'. split; [|by apply told_stream]. cbn.
    unfold TerminalRef_fences. by rewrite bool_decide_eq_true_2 by (by rewrite (stream_reference e0)).
  - exists e0. split; [|done]. rewrite Hg. unfold TerminalRef_fences. by rewrite bool_decide_eq_true_2.
Qed.

Lemma put_ok k e' w s : world_ok w -> kept_entry (tr_journal_limit (wo_registry w)) (k, e') ->
  world_ok (MkWorld (set_tr_entries (btree_put k e' (tr_entries (wo_registry w))) (wo_registry w)) s).
Proof. intros [Hk Hf] H. split; cbn; [by rewrite btree_keys_put|by apply btree_put_Forall]. Qed.

Lemma reclaim_goes_on order needed reference w : world_ok w ->
  goes_on reference untouched w (reclaim order needed w).
Proof.
  revert needed w. induction order as [|k order IH]; intros needed w Hw; cbn [reclaim]; [by apply goes_on_id|].
  destruct (_ =? _)%N; [by apply goes_on_id|].
  destruct (btree_get k (tr_entries (wo_registry w))) as [e|] eqn:Ee; [|by apply goes_on_id].
  assert (Hk : kept_entry (tr_journal_limit (wo_registry w)) (k, e)).
  { apply btree_get_elem in Ee. destruct Hw as [_ Hf]. rewrite Forall_forall in Hf. by apply Hf. }
  cbv zeta. set (n := (_ - needed)%N).
  assert (Ht := trim_screened n e (wo_shared w) (eo_screen _ _ (proj2 Hk))).
  apply (trim_screen_kept _ _ n e (wo_shared w)) in Hk.
  destruct (trim_screen n (e, wo_shared w)) as [e1 s1]. cbn [fst] in Ht, Hk.
  eapply goes_on_trans; [apply (put_goes_on k e e1 reference w s1); [done|apply Ht]|].
  apply IH. by apply put_ok.
Qed.

Lemma btree_get_insert_ne {V} k k' (v : V) m : k <> k' -> btree_get k (btree_insert k' v m) = btree_get k m.
Proof.
  intros Hk. unfold btree_get. f_equal. induction m as [|[k1 v1] m IH]; cbn [btree_insert].
  - cbn. destruct (at_key fst k (k', v)) eqn:E; [|done]. by apply (at_key_true fst k (k', v)) in E.
  - assert (Hno : forall rest, find_first (at_key fst k) ((k', v) :: rest) = find_first (at_key fst k) rest).
    { intros rest. cbn. destruct (at_key fst k (k', v)) eqn:E; [|done]. by apply (at_key_true fst k (k', v)) in E. }
    destruct (String.compare k' k1) eqn:Ec.
    + apply String.compare_eq_iff in Ec. subst k1. rewrite Hno. cbn.
      destruct (at_key fst k (k', v1)) eqn:E; [|done]. by apply (at_key_true fst k (k', v1)) in E.
    + by rewrite Hno.
    + cbn. by rewrite IH.
Qed.

Lemma register_goes_on r g reference w : world_ok w ->
  goes_on reference untouched w (register r g w).2.
Proof.
  intros Hw. unfold register.
  destruct (btree_get (key r) (tr_entries (wo_registry w))) eqn:Eg; [by apply goes_on_id|].
  destruct (screen_dimensions g) as [rows cols]. cbv zeta.
  set (w1 := if _ && _ then reclaim_screen_cells _ w else w).
  assert (H1 : goes_on reference untouched w w1).
  { unfold w1. destruct (_ && _); [by apply reclaim_goes_on|by apply goes_on_id]. }
  clearbody w1. destruct (negb _); [done|].
  intros e He. destruct (H1 e He) as (e1 & He1 & Q1). exists e1. split; [|done].
  unfold entry in *. cbn [wo_registry tr_entries set_tr_entries snd]. rewrite btree_get_insert_ne; [done|].
  intros Hk. destruct (btree_get (key reference) (tr_entries (wo_registry w))) eqn:E; [|done]. congruence.
Qed.

Lemma forget_goes_on r reference w : r <> reference -> goes_on reference untouched w (forget r w).2.
Proof.
  intros Hne e He. exists e. split; [|done]. assert (Hg := He). apply entry_get in Hg as [Hg Hr].
  unfold forget. destruct (entry r (wo_registry w)) as [e0|] eqn:E0; [|done].
  assert (Hk : key r <> key reference).
  { intros Hk. apply entry_get in E0 as [E0 Er]. rewrite Hk in E0. congruence. }
  unfold entry, btree_get in *. cbn [wo_registry tr_entries set_tr_entries snd].
  rewrite (kfind_retain fst); [done|]. intros x _ Hx. unfold at_key. rewrite bool_decide_eq_false_2; [done|]. congruence.
Qed.

(** ** What no operation on entries changes *)

(** A view of the world that does not depend on the entries and the counters. *)
Section view.
Context {X : Type} (view : World -> X).
Hypothesis view_entries : forall w entries s,
  view (MkWorld (set_tr_entries entries (wo_registry w)) s) = view w.

Definition keeps {A} (c : st World Failure A) : Prop := forall w, view (c w).2 = view w.

Lemma entry_keeps {A} r (body : st (Entry * Shared) Failure A) : keeps (on_entry r body).
Proof.
  intros w. unfold on_entry. destruct (entry r (wo_registry w)) as [e|]; [|done].
  destruct (body (e, wo_shared w)) as [? [? ?]]. apply view_entries.
Qed.
Lemma ret_keeps {A} (r : result Failure A) : keeps (fun w => (r, w)).
Proof. done. Qed.
Lemma bind_keeps {A B} (c : st World Failure A) (k : A -> st World Failure B) :
  keeps c -> (forall a, keeps (k a)) -> keeps (st_bind c k).
Proof.
  intros Hc Hk w. rewrite st_bind_snd. assert (H := Hc w). destruct (c w) as [[a|e] w1]; cbn in *; [|done].
  by rewrite Hk.
Qed.

Lemma reclaim_keeps order needed w : view (reclaim order needed w) = view w.
Proof.
  revert needed w. induction order as [|k order IH]; intros needed w; cbn [reclaim]; [done|].
  destruct (_ =? _)%N; [done|]. destruct (btree_get k _); [|done]. cbv zeta.
  destruct (trim_screen _ _) as [e1 s1]. by rewrite IH, view_entries.
Qed.

Lemma register_keeps r g : keeps (register r g).
Proof.
  intros w. unfold register. destruct (btree_get _ _); [done|].
  destruct (screen_dimensions g) as [rows cols]. cbv zeta.
  set (w1 := if _ && _ then reclaim_screen_cells _ w else w).
  assert (H1 : view w1 = view w) by (unfold w1; destruct (_ && _); [apply reclaim_keeps|done]).
  clearbody w1. destruct (negb _); [done|]. cbn [snd]. by rewrite view_entries.
Qed.

Lemma attach_keeps r connection client viewport :
  keeps (attach_client json_length r connection client viewport).
Proof. intros w. apply (entry_keeps r (attach_entry json_length connection client viewport _ _)). Qed.

Lemma sweep_keeps keep w : view (sweep_connections keep w) = view w.
Proof. unfold sweep_connections. destruct (sweep _ _ _). apply view_entries. Qed.

(** Everything but the operations that consult the input ledger. *)
Definition consults (op : RegistryOp) : bool :=
  match op with WriteInput _ _ _ _ | InputOutcome _ _ _ _ => true | _ => false end.

Lemma op_keeps op w : consults op = false -> view (registry_op op w).2 = view w.
Proof.
  intros Hop. destruct op; try discriminate Hop;
    cbn [TerminalLife.registry_op]; try apply sweep_keeps; unfold failure_of; cbn [snd].
  - apply register_keeps.
  - apply attach_keeps.
  - apply (bind_keeps _ _ (attach_keeps reference connection (Some client) viewport)). intros a.
    apply bind_keeps; [done|]. intros w0. apply bind_keeps; [apply ret_keeps|]. intros. apply ret_keeps.
  - apply (entry_keeps reference (detach_entry subscription connection _)).
  - apply (entry_keeps reference (append_entry _ _ data)).
  - apply (entry_keeps reference (resize_entry json_length g client _ _)).
  - apply entry_keeps.
  - apply entry_keeps.
  - apply (entry_keeps reference (fun '(e, s) => let '(captured, s) := snapshot_entry json_length e _ s in _)).
  - unfold forget. destruct (entry reference (wo_registry w)); [apply view_entries|done].
Qed.
End view.

Definition settings (w : World) :=
  let r := wo_registry w in
  (tr_journal_limit r, tr_input_cache_limit r, tr_checkpoint_bytes_limit r, tr_screen_cells_limit r,
   tr_screen_cells_aggregate_limit r, tr_screen_cells_process_shared r).

Lemma settings_entries w entries s :
  settings (MkWorld (set_tr_entries entries (wo_registry w)) s) = settings w.
Proof. done. Qed.

Lemma operations_settings {A} (f : InputOperationLedger -> A * InputOperationLedger) :
  keeps settings (on_operations f).
Proof. intros w. unfold on_operations. by destruct (f _). Qed.

Lemma write_settings r input bytes now : keeps settings (write_input sha256 r input bytes now).
Proof.
  apply bind_keeps.
  { unfold lookup_input. destruct (ir_operation input); [apply operations_settings|apply ret_keeps]. }
  intros found. destruct found; [|apply entry_keeps, settings_entries|apply ret_keeps].
  apply bind_keeps; [done|]. intros w0. apply bind_keeps; [apply entry_keeps, settings_entries|].
  intros [ack written]. apply bind_keeps; [|intros; apply ret_keeps]. destruct written; [|apply ret_keeps].
  unfold record_input. destruct (ir_operation input); [apply operations_settings|apply ret_keeps].
Qed.

Lemma op_settings op w : settings (registry_op op w).2 = settings w.
Proof.
  destruct (consults op) eqn:E; [|by apply op_keeps].
  destruct op; try discriminate E; cbn [TerminalLife.registry_op]; unfold failure_of; cbn [snd].
  - apply write_settings.
  - apply bind_keeps; [apply entry_keeps, settings_entries|]. intros. apply operations_settings.
Qed.

Lemma ops_settings ops w : settings (registry_ops json_length sha256 ops w).2 = settings w.
Proof.
  revert w. induction ops as [|op ops IH]; intros w; cbn [registry_ops]; [done|].
  assert (Ho := op_settings op w). destruct (registry_op op w) as [f w1]. cbn [snd] in Ho. specialize (IH w1).
  destruct (registry_ops json_length sha256 ops w1) as [fs w2]. cbn [snd] in *. congruence.
Qed.

(** ** The history of one terminal *)
Definition cleared_by (reference : TerminalRef) (w : World) : bool :=
  bool_decide ((clear_primary reference w).1 = Ok true).

(** The offset of the first byte kept since the last clear, and the bytes
    printed since. *)
Fixpoint history (reference : TerminalRef) (ops : list RegistryOp) (w : World) (h : N * list N)
    : N * list N :=
  match ops with
  | [] => h
  | op :: ops =>
      history reference ops (registry_op op w).2
        (match op with
         | AppendOutput r data => if bool_decide (r = reference) then (h.1, h.2 ++ data) else h
         | ClearPrimary r =>
             if bool_decide (r = reference) && cleared_by reference w
             then ((h.1 + N.of_nat (length h.2))%N, []) else h
         | _ => h
         end)
  end.

Definition forgets (reference : TerminalRef) (op : RegistryOp) : bool :=
  match op with Forget r => bool_decide (r = reference) | _ => false end.

(** What the journal holds of a history. *)
Record tells (limit : N) (h : N * list N) (e : Entry) : Prop := {
  tl_offset : en_next_offset e = (h.1 + N.of_nat (length h.2))%N;
  tl_data : journal_data e = newest limit h.2
}.

Lemma tells_untouched limit h e e' : untouched e e' -> tells limit h e -> tells limit h e'.
Proof.
  unfold untouched, told. intros [= Ej Er En] [Ho Hd]. split; [congruence|]. unfold journal_data in *. congruence.
Qed.

(** ** Operations that leave a stream alone *)
Lemma write_input_goes_on r input bytes now reference w : world_ok w ->
  goes_on reference untouched w (write_input sha256 r input bytes now w).2.
Proof.
  intros Hw.
  assert (Hl : goes_on reference untouched w (lookup_input sha256 r input bytes now w).2).
  { unfold lookup_input. destruct (ir_operation input); [apply operations_goes_on|by apply goes_on_id]. }
  apply bind_goes_on; [by apply lookup_input_fine|done|]. intros found w1 H1.
  destruct found; [|apply on_entry_goes_on; [done|by intros ????? ? [= <- <- <-]]|by apply goes_on_id].
  apply bind_goes_on; [by apply fine_get|by apply goes_on_id|]. intros w2 w3 H3.
  assert (Hbody : forall e s r0 e' s', entry_ok (tr_journal_limit (wo_registry w3)) e ->
            write_entry (tr_input_cache_limit (wo_registry w2)) input bytes (e, s) = (r0, (e', s')) ->
            r0 <> Err Panicked /\ screened e e').
  { intros e s r0 e' s' He Hb. by eapply write_entry_ok. }
  apply bind_goes_on.
  - apply fine_entry; [done|]. intros e s r0 e' s' He Hb. destruct (Hbody _ _ _ _ _ He Hb) as [Hp Hs].
    split_and!; [done|by eapply screened_ok|apply stream_reference, Hs].
  - apply on_entry_goes_on; [done|]. intros e s r0 e' s' He Hb. destruct (Hbody _ _ _ _ _ He Hb) as [_ Hs].
    split; [apply stream_reference, Hs|apply told_stream, Hs].
  - intros [ack written] w4 H4.
    assert (Hrec : goes_on reference untouched w4
              ((if written : bool then record_input sha256 r input bytes now ack else st_ret tt) w4).2).
    { destruct written; [|by apply goes_on_id]. unfold record_input.
      destruct (ir_operation input); [apply operations_goes_on|by apply goes_on_id]. }
    apply bind_goes_on; [|done|intros; by apply goes_on_id].
    destruct written; [by apply record_input_fine|by apply fine_ret].
Qed.

Ltac frame_stream lemma H :=
  apply on_entry_goes_on; [done|]; let He := fresh in
  intros ????? He H; apply lemma in H as (_&_&H); [|exact He];
  split; [by apply stream_reference|by apply told_stream].

(** Everything but new output, a clear and [Forget]. *)
Lemma quiet_goes_on op reference w : world_ok w -> forgets reference op = false ->
  match op with AppendOutput r _ | ClearPrimary r => r <> reference | _ => True end ->
  goes_on reference untouched w (registry_op op w).2.
Proof.
  intros Hw Hf Hop. set (limit := tr_journal_limit (wo_registry w)).
  assert (Hat : forall r connection client viewport,
            goes_on reference untouched w (attach_client json_length r connection client viewport w).2).
  { intros r connection client viewport. unfold attach_client.
    frame_stream (attach_entry_ok json_length limit) H. }
  destruct op; cbn [TerminalLife.registry_op]; unfold failure_of; cbn [snd].
  - by apply register_goes_on.
  - apply Hat.
  - apply bind_goes_on; [by apply attach_client_fine|apply Hat|]. intros a w1 H1.
    apply bind_goes_on; [by apply fine_get|by apply goes_on_id|]. intros w2 w3 H3.
    apply bind_goes_on; [by apply fine_lift|by apply goes_on_id|]. intros. by apply goes_on_id.
  - unfold detach. frame_stream (detach_entry_ok limit) H.
  - by apply sweep_goes_on.
  - by apply sweep_goes_on.
  - intros e He. exists e. split; [|done].
    unfold append_output_with_replies. rewrite (on_entry_entry _ _ _ _ _ He); [|done]. by rewrite decide_False.
  - unfold resize. frame_stream (resize_entry_ok json_length limit) H.
  - by apply write_input_goes_on.
  - intros e He. exists e. split; [|done].
    unfold clear_primary. rewrite (on_entry_entry _ _ _ _ _ He); [|done]. by rewrite decide_False.
  - apply bind_goes_on; [apply fine_entry; [done|by intros ????? ? [= <- <- <-]]| |].
    + apply on_entry_goes_on; [done|]. by intros ????? ? [= <- <- <-].
    + intros. apply operations_goes_on.
  - unfold exited. apply on_entry_goes_on; [done|]. by intros ????? ? [= <- <- <-].
  - unfold snapshot. apply on_entry_goes_on; [done|]. intros e s r e' s' He. cbn beta iota.
    destruct (snapshot_entry _ _ _ _) as [captured s1]. by intros [= <- <- <-].
  - apply forget_goes_on. by apply bool_decide_eq_false in Hf.
Qed.

Definition next_history (reference : TerminalRef) (op : RegistryOp) (w : World) (h : N * list N) : N * list N :=
  history reference [op] w h.

Lemma history_cons reference op ops w h :
  history reference (op :: ops) w h = history reference ops (registry_op op w).2 (next_history reference op w h).
Proof. done. Qed.

Lemma step_tells op reference w h e : world_ok w -> entry reference (wo_registry w) = Some e ->
  forgets reference op = false -> tells (tr_journal_limit (wo_registry w)) h e ->
  exists e', entry reference (wo_registry (registry_op op w).2) = Some e' /\
    tells (tr_journal_limit (wo_registry w)) (next_history reference op w h) e'.
Proof.
  intros Hw He Hf Ht. set (limit := tr_journal_limit (wo_registry w)) in *.
  assert (Ho := entry_kept _ _ _ Hw He). fold limit in Ho.
  assert (Hquiet : match op with AppendOutput r _ | ClearPrimary r => r <> reference | _ => True end ->
            exists e', entry reference (wo_registry (registry_op op w).2) = Some e' /\ tells limit h e').
  { intros Hop. destruct (quiet_goes_on op reference w Hw Hf Hop e He) as (e' & He' & Q).
    exists e'. split; [done|]. by eapply tells_untouched. }
  unfold next_history. cbn [history].
  destruct op; try by apply Hquiet.
  - case_bool_decide as Hr; [|by apply Hquiet]. subst reference0.
    cbn [TerminalLife.registry_op]. unfold failure_of, append_output_with_replies. cbn [snd].
    destruct (append_entry limit (screen_budgets w) data (e, wo_shared w)) as [r [e1 s1]] eqn:Eb.
    destruct (append_entry_ok _ _ _ _ _ _ _ _ Ho Eb) as (_ & Ho1 & Hd & Hn & Hr).
    rewrite (on_entry_entry _ _ _ _ _ He), decide_True by
      (done || (intros _; fold limit; rewrite Eb; cbn; rewrite Hr; by apply entry_get in He as [_ ?])).
    fold limit. rewrite Eb. cbn [fst snd]. exists e1. split; [done|]. destruct Ht as [Hto Htd]. split; cbn.
    + rewrite Hn, Hto, length_app. lia.
    + by rewrite Hd, Htd, newest_newest.
  - unfold cleared_by. case_bool_decide as Hr; [|by apply Hquiet]. subst reference0. cbn [andb].
    cbn [TerminalLife.registry_op]. unfold failure_of. cbn [snd]. unfold clear_primary.
    destruct (clear_entry (e, wo_shared w)) as [r [e1 s1]] eqn:Eb.
    destruct (clear_entry_ok _ _ _ _ _ _ Ho Eb) as ((cleared & -> & Hd) & Ho1 & Hn & Hr).
    assert (Ee : en_reference e = reference) by by apply entry_get in He as [_ ?].
    rewrite (on_entry_entry _ _ _ _ _ He), decide_True by (done || (intros _; rewrite Eb; cbn; congruence)).
    assert (Er : (on_entry reference clear_entry w).1 = Ok cleared).
    { unfold on_entry. by rewrite He, Eb. }
    rewrite Er, Eb. cbn [fst snd]. exists e1. split; [done|]. destruct Ht as [Hto Htd]. destruct cleared.
    + rewrite bool_decide_eq_true_2 by done. destruct Hd as [Hj Hb]. split; cbn; [rewrite Hn, Hto; lia|].
      unfold journal_data. by rewrite Hj.
    + rewrite bool_decide_eq_false_2 by done. split; [by rewrite Hn|by rewrite Hd].
Qed.

Lemma history_tells ops reference w h e : world_ok w -> entry reference (wo_registry w) = Some e ->
  existsb (forgets reference) ops = false -> tells (tr_journal_limit (wo_registry w)) h e ->
  exists e', entry reference (wo_registry (registry_ops json_length sha256 ops w).2) = Some e' /\
    tells (tr_journal_limit (wo_registry w)) (history reference ops w h) e'.
Proof.
  revert w h e. induction ops as [|op ops IH]; intros w h e Hw He Hf Ht; [by exists e|].
  cbn [existsb] in Hf. apply orb_false_iff in Hf as [Hf1 Hf2].
  destruct (step_tells op reference w h e Hw He Hf1 Ht) as (e1 & He1 & Ht1).
  assert (Hs := op_settings op w). destruct (registry_op_ok json_length sha256 op w Hw) as [_ Hw1].
  rewrite history_cons. cbn [registry_ops]. destruct (registry_op op w) as [f w1]. cbn [fst snd] in *.
  assert (El : tr_journal_limit (wo_registry w1) = tr_journal_limit (wo_registry w)) by (unfold settings in Hs; congruence).
  destruct (IH w1 (next_history reference op w h) e1) as (e' & He' & Ht'); try done; [by rewrite El|].
  exists e'. rewrite El in Ht'. destruct (registry_ops json_length sha256 ops w1) as [fs w2]. done.
Qed.

Lemma register_entry reference g w w1 : register reference g w = (Ok tt, w1) ->
  exists e, entry reference (wo_registry w1) = Some e /\ told e = ([], 0%N, 0%N) /\ en_geometry e = g.
Proof.
  unfold register. destruct (btree_get (key reference) (tr_entries (wo_registry w))) eqn:Eg; [done|].
  destruct (screen_dimensions g) as [rows cols]. cbv zeta.
  set (w0 := if _ && _ then reclaim_screen_cells _ w else w). clearbody w0.
  destruct (negb _); [done|]. intros [= <-].
  exists (new_entry reference g (VtScreen.new rows cols)). split; [|done].
  unfold entry. cbn [wo_registry tr_entries set_tr_entries].
  set (e := new_entry _ _ _). generalize (tr_entries (wo_registry w0)). intros m.
  assert (Hget : btree_get (key reference) (btree_insert (key reference) e m) = Some e).
  { assert (Hhead : forall rest, btree_get (key reference) ((key reference, e) :: rest) = Some e).
    { intros rest. unfold btree_get. cbn. unfold at_key. by rewrite bool_decide_eq_true_2. }
    induction m as [|[k1 v1] m IH]; cbn [btree_insert]; [apply Hhead|].
    destruct (String.compare (key reference) k1) eqn:Ec; [apply Hhead|apply Hhead|].
    unfold btree_get in *. cbn [find_first].
    destruct (at_key fst (key reference) (k1, v1)) eqn:E; [|done].
    apply (at_key_true fst (key reference) (k1, v1)) in E. cbn in E. subst k1.
    rewrite string_compare_refl in Ec. done. }
  rewrite Hget. unfold TerminalRef_fences. by rewrite bool_decide_eq_true_2.
Qed.

(** C11: incremental replay is exact.  Whatever else happened to the registry
    before and after a terminal was registered, as long as it was not forgotten,
    and whoever asks, a registered client or nobody in particular.  A client whose
    last seen geometry is not the terminal's is answered with [ResyncRequired].
    Anyone else who asks from an offset inside the retained window gets exactly
    the bytes the terminal printed from that offset on, as one segment that
    starts at the offset and ends at the newest byte; the window is the newest
    [journal_limit] bytes printed since the last clear, and a request from
    outside it is answered with [ResyncRequired], never with wrong bytes. *)
Theorem replay_is_exact journal_limit cache_limit shared before reference g ops offset client
    (w := (registry_ops json_length sha256 before
             (MkWorld (new_registry journal_limit cache_limit) shared)).2) w1
    (Hregistered : register reference g w = (Ok tt, w1))
    (Hkept : existsb (forgets reference) ops = false) :
  let '(base, printed) := history reference ops w1 (0%N, []) in
  let newest_offset := (base + N.of_nat (length printed))%N in
  let limit := N.min journal_limit MAX_RETAINED_OUTPUT_BYTES in
  let oldest_offset := (newest_offset - N.min limit (N.of_nat (length printed)))%N in
  let registry := wo_registry (registry_ops json_length sha256 ops w1).2 in
  let answer := replay_from reference offset client registry in
  exists e, entry reference registry = Some e /\
  if match client ≫= fun c => en_viewports e !! c with
     | Some viewport => negb (bool_decide (cv_seen viewport = en_geometry e))
     | None => false
     end
  then answer = Err ResyncRequired
  else if (oldest_offset <=? offset)%N && (offset <=? newest_offset)%N
  then exists outs, answer = Ok outs /\
         mjoin (out_data <$> outs) = drop (N.to_nat (offset - base)) printed /\
         (outs = [] /\ offset = newest_offset \/
          exists out, outs = [out] /\ out_start out = offset /\ out_end out = newest_offset)
  else answer = Err ResyncRequired.
Proof.
  assert (Hw0 : world_ok w) by apply registry_ops_ok, new_registry_ok.
  assert (Hl0 : tr_journal_limit (wo_registry w) = N.min journal_limit MAX_RETAINED_OUTPUT_BYTES).
  { assert (Hs := ops_settings before (MkWorld (new_registry journal_limit cache_limit) shared)).
    fold w in Hs. by injection Hs. }
  destruct (register_ok reference g w (Ok tt) w1 Hw0 Hregistered) as [_ Hw1].
  assert (Hl1 : tr_journal_limit (wo_registry w1) = N.min journal_limit MAX_RETAINED_OUTPUT_BYTES).
  { assert (Hs := register_keeps settings settings_entries reference g w). rewrite Hregistered in Hs.
    injection Hs as Hs _ _ _ _ _. by rewrite <- Hl0. }
  destruct (register_entry _ _ _ _ Hregistered) as (e & He & Htold & _). unfold told in Htold.
  destruct (history_tells ops reference w1 (0%N, []) e) as (e' & He' & [Ho Hd]); try done.
  { injection Htold as Ej _ En. split; [by rewrite En|unfold journal_data; by rewrite Ej]. }
  rewrite Hl1 in Hd. destruct (history reference ops w1 (0%N, [])) as [base printed]. cbn [fst snd] in *.
  assert (Hok : world_ok (registry_ops json_length sha256 ops w1).2) by by apply registry_ops_ok.
  assert (Hj := eo_journal _ _ (entry_kept _ _ _ Hok He')).
  assert (Hb := base_offset_eq _ _ Hj). assert (Hspec := replay_entry_spec _ _ offset Hj).
  cbv zeta. exists e'. split; [done|]. unfold replay_from, reading. rewrite He'. cbn [ok_or res_bind].
  rewrite replay_entry_client.
  match goal with |- if ?b then _ else _ => destruct b; [done|] end.
  set (limit := N.min journal_limit MAX_RETAINED_OUTPUT_BYTES) in *.
  assert (Hlen : length (journal_data e') = Nat.min (length printed) (N.to_nat limit)) by (by rewrite Hd, newest_length).
  assert (Hbase : base_offset e' = (base + N.of_nat (length printed) - N.min limit (N.of_nat (length printed)))%N) by lia.
  rewrite <- Hbase, <- Ho. destruct ((base_offset e' <=? offset)%N && (offset <=? en_next_offset e')%N) eqn:Ein; [|done].
  destruct Hspec as (outs & -> & [Hdata Hspan]). exists outs. split_and!; [done| |].
  - rewrite Hdata, Hd. unfold newest. rewrite drop_drop. f_equal.
    apply andb_true_iff in Ein as [?%N.leb_le ?%N.leb_le]. lia.
  - destruct Hspan as [[-> ->]|(out & -> & ? & ?)]; [by left|right; by exists out].
Qed.
End replay.

(** ** Witnesses *)
Section replay_example.
Import RegistryExample.
Local Existing Instance cjk_width.
Local Existing Instance quiet_pty.
Let sha (l : list N) : list N := l.
Let step := registry_ops small_json sha.

Lemma replay_is_exact_witness :
  let w1 := (register shell (MkGeometry 4 2) (empty 4)).2 in
  let w2 := (step [AppendOutput shell [104; 105; 33]%N; AppendOutput shell [97; 98; 99]%N] w1).2 in
  replay_from shell 1 None (wo_registry w2) = Err ResyncRequired /\
  exists outs, replay_from shell 3 None (wo_registry w2) = Ok outs /\ mjoin (out_data <$> outs) = [97; 98; 99]%N.
Proof.
  intros w1 w2.
  set (ops := [AppendOutput shell [104; 105; 33]%N; AppendOutput shell [97; 98; 99]%N]).
  assert (Hreg : register shell (MkGeometry 4 2) (registry_ops small_json sha [] (empty 4)).2 = (Ok tt, w1)) by done.
  assert (H1 := replay_is_exact small_json sha 4 4 (MkShared counters []) [] shell (MkGeometry 4 2) ops 1 None w1 Hreg eq_refl).
  assert (H3 := replay_is_exact small_json sha 4 4 (MkShared counters []) [] shell (MkGeometry 4 2) ops 3 None w1 Hreg eq_refl).
  assert (Hh : history small_json sha shell ops w1 (0%N, []) = (0, [104; 105; 33; 97; 98; 99])%N) by by vm_compute.
  rewrite Hh in H1, H3. destruct H1 as (e1 & _ & H1). split; [exact H1|].
  destruct H3 as (e3 & _ & H3). destruct H3 as (outs & Ho & Hd & _). exists outs. split; [exact Ho|]. exact Hd.
Defined.

(** A resize that is undone before the first window polls leaves no trace: the
    window is handed the bytes the program drew for the narrow grid, and shows
    one line where the daemon's screen has two. *)
Definition wide : Geometry := MkGeometry 8 5.
Definition narrow : Geometry := MkGeometry 5 2.
Definition letters : list N := [97; 98; 99; 100; 101; 102; 103; 104]%N.
Definition watched : World :=
  (step [Register shell wide; AttachForClient shell first_lane client (Some wide)] (empty 64)).2.
Definition visited : World :=
  (step [AttachForClient shell second_lane other_client (Some narrow); AppendOutput shell letters;
         Detach shell 2 second_lane] watched).2.

Example restored_size_hides_a_resync :
  map_ok (fmap out_data) (replay_from shell 0 (Some client) (wo_registry visited)) = Ok [letters] /\
  (entry shell (wo_registry watched) ≫= fun e => shown (advance letters (en_screen e))) =
    Some [letters; []; []; []; []] /\
  shown (en_screen <$> entry shell (wo_registry visited)) =
    Some [take 5 letters; drop 5 letters; []; []; []].
Proof. split_and!; by vm_compute. Qed.
End replay_example.
