(* ===== verification/TerminalInput.v ===== *)
(** * A terminal input is written to the PTY at most once

    A client that did not hear back presents the same operation identity again,
    from another connection and another subscription.  As long as the bounded
    ledger keeps the record, the registry answers from it and writes nothing. *)
From S2P Require Export TerminalReplay InputOperationLaws.

(** ** The hashed text determines the target and the bytes *)
Lemma digit_step n k : (n / 256 ^ k = 256 * (n / 256 ^ (k + 1)) + (n / 256 ^ k) mod 256)%N.
Proof.
  rewrite N.pow_add_r, N.pow_1_r, <- N.Div0.div_div. by apply N.div_mod.
Qed.

Lemma u64_be_bytes_inj n m : (n < U64_MODULUS)%N -> (m < U64_MODULUS)%N ->
  u64_be_bytes n = u64_be_bytes m -> n = m.
Proof.
  intros Hn Hm. unfold u64_be_bytes. cbn [fmap list_fmap]. intros H.
  apply (f_equal (fun l => (l !! 0, l !! 1, l !! 2, l !! 3, l !! 4, l !! 5, l !! 6, l !! 7))) in H.
  cbn [lookup list_lookup] in H. injection H as H7 H6 H5 H4 H3 H2 H1 H0.
  assert (Sn := digit_step n). assert (Sm := digit_step m).
  assert (Zn : (n / 256 ^ 8 = 0)%N) by by apply N.div_small.
  assert (Zm : (m / 256 ^ 8 = 0)%N) by by apply N.div_small.
  assert (E7 := Sn 7%N). assert (F7 := Sm 7%N). assert (E6 := Sn 6%N). assert (F6 := Sm 6%N).
  assert (E5 := Sn 5%N). assert (F5 := Sm 5%N). assert (E4 := Sn 4%N). assert (F4 := Sm 4%N).
  assert (E3 := Sn 3%N). assert (F3 := Sm 3%N). assert (E2 := Sn 2%N). assert (F2 := Sm 2%N).
  assert (E1 := Sn 1%N). assert (F1 := Sm 1%N). assert (E0 := Sn 0%N). assert (F0 := Sm 0%N).
  clear Sn Sm.
  change (7 + 1)%N with 8%N in *. change (6 + 1)%N with 7%N in *. change (5 + 1)%N with 6%N in *.
  change (4 + 1)%N with 5%N in *. change (3 + 1)%N with 4%N in *. change (2 + 1)%N with 3%N in *.
  change (1 + 1)%N with 2%N in *. change (0 + 1)%N with 1%N in *.
  change (N.of_nat 7) with 7%N in *. change (N.of_nat 6) with 6%N in *. change (N.of_nat 5) with 5%N in *.
  change (N.of_nat 4) with 4%N in *. change (N.of_nat 3) with 3%N in *. change (N.of_nat 2) with 2%N in *.
  change (N.of_nat 1) with 1%N in *. change (N.of_nat 0) with 0%N in *. rewrite ?N.pow_0_r, ?N.div_1_r in *.
  congruence.
Qed.

Definition addressable (l : list N) : Prop := (N.of_nat (length l) < U64_MODULUS)%N.

Lemma digest_component_inj a b x y : addressable a -> addressable b ->
  digest_component a ++ x = digest_component b ++ y -> a = b /\ x = y.
Proof.
  unfold addressable, digest_component. intros Ha Hb. rewrite <- !app_assoc. intros H.
  apply app_inj_1 in H as [Hl H]; [|done]. apply u64_be_bytes_inj in Hl; [|done|done].
  apply app_inj_1 in H; [done|lia].
Qed.

Lemma string_bytes_inj s t : string_bytes s = string_bytes t -> s = t.
Proof.
  unfold string_bytes. intros H.
  assert (E : String.list_ascii_of_string s = String.list_ascii_of_string t).
  { revert H. generalize (String.list_ascii_of_string s), (String.list_ascii_of_string t).
    induction l as [|a l IH]; intros [|b l'] H; try done. cbn in H. injection H as Hab H.
    f_equal; [|by apply IH]. rewrite <- (Ascii.ascii_N_embedding a), Hab. apply Ascii.ascii_N_embedding. }
  rewrite <- (String.string_of_list_ascii_of_string s), E. apply String.string_of_list_ascii_of_string.
Qed.

Lemma digest_input_inj target target' bytes bytes' :
  addressable (string_bytes target) -> addressable (string_bytes target') ->
  addressable bytes -> addressable bytes' ->
  digest_input target bytes = digest_input target' bytes' -> target = target' /\ bytes = bytes'.
Proof.
  intros Ht Ht' Hb Hb' H. unfold digest_input in H. apply app_inv_head in H.
  apply digest_component_inj in H as [Hs H]; [|done|done].
  rewrite <- (app_nil_r (digest_component bytes)), <- (app_nil_r (digest_component bytes')) in H.
  apply digest_component_inj in H as [Hbytes _]; [|done|done]. split; [by apply string_bytes_inj|done].
Qed.

Section input.
Context {U : UnicodeWidth} {P : PtyAnswers}.
Context (json_length : ScreenCheckpoint -> option N) (sha256 : list N -> list N).

Notation registry_op := (registry_op json_length sha256).
Notation registry_ops := (registry_ops json_length sha256).
Notation write_input := (write_input sha256).
Notation terminal_input_digest := (terminal_input_digest sha256).
Notation ledger w := (tr_operations (wo_registry w)).
Notation log w := (sh_log (wo_shared w)).

Lemma operations_entries w entries s :
  tr_operations (wo_registry (MkWorld (set_tr_entries entries (wo_registry w)) s)) = ledger w.
Proof. done. Qed.

(** ** What a write does to the ledger and to the PTY *)
Lemma on_entry_ledger {A} r (body : st (Entry * Shared) Failure A) w : ledger (on_entry r body w).2 = ledger w.
Proof. apply (entry_keeps (fun w => ledger w) operations_entries). Qed.

(** [Written], [Failed] or [Ambiguous]: the answer of the PTY itself. *)
Definition direct (ack : InputAck) : bool := match ack with Cached _ => false | _ => true end.

Lemma write_entry_log cache_limit input bytes e s r e' s' :
  write_entry cache_limit input bytes (e, s) = (r, (e', s')) ->
  match r with
  | Ok (ack, true) => exists failure, ack = ack_of failure /\ sh_log s' = sh_log s ++ [PtyWrote bytes failure]
  | Ok (ack, false) => sh_log s' = sh_log s /\ direct ack = false
  | Err _ => sh_log s' = sh_log s
  end.
Proof.
  unfold write_entry. case_bool_decide; [by intros [= <- <- <-]|]. case_bool_decide; [by intros [= <- <- <-]|].
  cbv zeta. destruct (_ <? _)%N; [intros [= <- <- <-]; by destruct (find_input _ _ _)|].
  destruct (_ <? _)%N; [by intros [= <- <- <-]|]. intros [= <- <- <-]. by eexists.
Qed.

Lemma direct_ack_of failure : direct (ack_of failure) = true.
Proof. destruct failure as [p|]; [|done]. cbn. by destruct (p =? 0)%N. Qed.

Definition record_of (reference : TerminalRef) (bytes : list N) (ack : InputAck) (now : N) : InputOperationRecord :=
  MkInputOperationRecord (key reference) (terminal_input_digest (key reference) bytes) ack
    (N.of_nat (length bytes)) now.

(** The three things a write can do: refuse or answer without touching the PTY,
    or write once and record the answer. *)
Lemma write_input_cases reference input bytes now w r w' :
  write_input reference input bytes now w = (r, w') ->
  match ir_operation input with
  | None => ledger w' = ledger w
  | Some operation =>
      ledger w' = expire now (ledger w) /\ log w' = log w /\ (forall ack, r = Ok ack -> direct ack = false) \/
      iol_records (expire now (ledger w)) !! (ir_client input, operation) = None /\
      exists failure, r = Ok (ack_of failure) /\ log w' = log w ++ [PtyWrote bytes failure] /\
        ledger w' = record_operation (ir_client input) operation (record_of reference bytes (ack_of failure) now)
                      now (expire now (ledger w))
  end.
Proof.
  unfold TerminalRegistry.write_input, lookup_input, record_input. destruct (ir_operation input) as [operation|].
  2: { intros H. assert (Hk : keeps (fun w => ledger w) (fun w0 => (
         found <-! st_ret Absent ;;
         match found with
         | Recorded ack => on_entry reference (st_ret (Cached ack))
         | Conflict => refuse IdempotencyConflict
         | Absent =>
             w <-! st_get ;;
             answered <-! on_entry reference (write_entry (tr_input_cache_limit (wo_registry w)) input bytes) ;;
             (if answered.2 : bool then st_ret tt else st_ret tt) ;;; st_ret answered.1
         end) w0)).
       { apply bind_keeps; [done|]. intros found. destruct found; [|apply entry_keeps, operations_entries|done].
         apply bind_keeps; [done|]. intros w0. apply bind_keeps; [apply entry_keeps, operations_entries|].
         intros [ack written]. apply bind_keeps; [by destruct written|done]. }
       specialize (Hk w). cbn beta in Hk. rewrite H in Hk. exact Hk. }
  set (l1 := expire now (ledger w)).
  assert (Hlook : on_operations (lookup_operation (ir_client input) operation (key reference)
            (terminal_input_digest (key reference) bytes) now) w =
          (Ok (lookup_operation (ir_client input) operation (key reference)
                 (terminal_input_digest (key reference) bytes) now (ledger w)).1,
           MkWorld (set_tr_operations l1 (wo_registry w)) (wo_shared w))) by done.
  unfold st_bind at 1. rewrite Hlook. clear Hlook. unfold lookup_operation. fold l1. cbn [fst].
  set (w1 := MkWorld (set_tr_operations l1 (wo_registry w)) (wo_shared w)).
  assert (Hl1 : ledger w1 = l1) by done. assert (Hlog1 : log w1 = log w) by done. clearbody w1.
  destruct (iol_records l1 !! (ir_client input, operation)) as [record|] eqn:Erec.
  - intros H. left. destruct (_ && _).
    + revert H. unfold on_entry. destruct (entry reference (wo_registry w1)) as [e|]; intros [= <- <-]; cbn.
      * split_and!; [done|done|by intros ? [= <-]].
      * by split_and!.
    + injection H as <- <-. by split_and!.
  - intros H. unfold st_bind at 1, st_get in H. unfold st_bind at 1 in H.
    destruct (on_entry reference _ w1) as [r2 w2] eqn:E2.
    assert (Hl2 : ledger w2 = l1).
    { rewrite <- Hl1. change w2 with (r2, w2).2. rewrite <- E2. apply on_entry_ledger. }
    assert (Hlog2 : match r2 with
                    | Ok (ack, true) => exists failure, ack = ack_of failure /\ log w2 = log w1 ++ [PtyWrote bytes failure]
                    | Ok (ack, false) => log w2 = log w1 /\ direct ack = false
                    | Err _ => log w2 = log w1
                    end).
    { unfold on_entry in E2. destruct (entry reference (wo_registry w1)) as [e|]; [|by injection E2 as <- <-].
      destruct (write_entry _ input bytes (e, wo_shared w1)) as [r3 [e3 s3]] eqn:E3.
      apply write_entry_log in E3. injection E2 as <- <-. exact E3. }
    destruct r2 as [[ack [|]]|failure].
    + destruct Hlog2 as (failure & -> & Hlog2). right. split; [done|]. exists failure.
      revert H. unfold st_bind, on_operations. cbn [fst snd]. rewrite Hl2. intros [= <- <-].
      split_and!; [done| |done]. cbn. by rewrite Hlog2, Hlog1.
    + injection H as <- <-. left. destruct Hlog2 as [Hlog2 Hd]. split_and!; [done|congruence|by intros ? [= <-]].
    + injection H as <- <-. left. split_and!; [done|congruence|done].
Qed.

(** ** The ledger along the life of a registry *)

(** A slice holds at most [isize::MAX] bytes. *)
Definition SLICE_MAX : N := 9223372036854775807.
Definition in_memory (op : RegistryOp) : Prop :=
  match op with WriteInput _ _ bytes _ => (N.of_nat (length bytes) <= SLICE_MAX)%N | _ => True end.

Definition ledger_fine (bounds : InputOperationBounds) (w : World) : Prop :=
  ledger_ok (ledger w) /\ within_bounds (ledger w) /\ iol_bounds (ledger w) = bounds.

Lemma ledger_fine_eq bounds w w' : ledger w' = ledger w -> ledger_fine bounds w -> ledger_fine bounds w'.
Proof. unfold ledger_fine. by intros ->. Qed.

Lemma ledger_fine_expire bounds now w w' : ledger w' = expire now (ledger w) ->
  ledger_fine bounds w -> ledger_fine bounds w'.
Proof.
  unfold ledger_fine. intros -> (H & Hb & E).
  split_and!; [by apply expire_ok|by apply expire_within|by rewrite expire_bounds].
Qed.

Lemma input_outcome_ledger r client operation now w :
  ledger (input_outcome r client operation now w).2 = ledger w \/
  ledger (input_outcome r client operation now w).2 = expire now (ledger w).
Proof.
  unfold input_outcome. rewrite st_bind_snd. assert (Hl := on_entry_ledger r (st_ret tt) w).
  destruct (on_entry r (st_ret tt) w) as [[[]|e] w1]; cbn [fst snd] in *; [|by left].
  right. rewrite <- Hl. unfold on_operations, recorded. done.
Qed.

Lemma op_ledger_fine bounds op w : (iob_max_bytes bounds <= SLICE_MAX)%N -> in_memory op ->
  ledger_fine bounds w -> ledger_fine bounds (registry_op op w).2.
Proof.
  intros Hmax Hop Hw. destruct (consults op) eqn:Ec.
  2: { eapply ledger_fine_eq; [|done]. by apply (op_keeps json_length sha256 (fun w => ledger w) operations_entries). }
  destruct op; try discriminate Ec; cbn [TerminalLife.registry_op]; unfold failure_of; cbn [snd].
  - destruct (write_input reference input bytes now_ms w) as [r w'] eqn:E. cbn [snd].
    apply write_input_cases in E. destruct (ir_operation input) as [operation|]; [|by eapply ledger_fine_eq].
    destruct E as [(E & _)|(_ & failure & _ & _ & E)]; [by eapply ledger_fine_expire|].
    destruct (ledger_fine_expire bounds now_ms w
                (MkWorld (set_tr_operations (expire now_ms (ledger w)) (wo_registry w)) (wo_shared w)) eq_refl Hw)
      as (H1 & Hb1 & E1). cbn [wo_registry tr_operations set_tr_operations] in *.
    destruct (record_operation_ok (ir_client input) operation (record_of reference bytes (ack_of failure) now_ms)
                now_ms _ H1 Hb1) as (H2 & Hb2 & E2).
    { rewrite E1. cbn in *. unfold SLICE_MAX, U64_MAX in *. lia. }
    unfold ledger_fine. rewrite E. by rewrite E2.
  - destruct (input_outcome_ledger reference client operation now_ms w) as [E|E];
      [by eapply ledger_fine_eq|by eapply ledger_fine_expire].
Qed.

Lemma ops_ledger_fine bounds ops w : (iob_max_bytes bounds <= SLICE_MAX)%N -> Forall in_memory ops ->
  ledger_fine bounds w -> ledger_fine bounds (registry_ops ops w).2.
Proof.
  intros Hmax Hops. revert w. induction Hops as [|op ops Hop Hops IH]; intros w Hw; cbn [TerminalLife.registry_ops]; [done|].
  apply (op_ledger_fine bounds op w Hmax Hop) in Hw. destruct (registry_op op w) as [f w1]. cbn [snd] in Hw.
  specialize (IH w1 Hw). by destruct (TerminalLife.registry_ops json_length sha256 ops w1).
Qed.

(** ** Presenting a recorded operation *)
Lemma present_recorded reference input operation bytes now w record :
  ir_operation input = Some operation ->
  iol_records (expire now (ledger w)) !! (ir_client input, operation) = Some record ->
  let '(r, w') := write_input reference input bytes now w in
  ledger w' = expire now (ledger w) /\ log w' = log w /\
  r = if bool_decide (ior_terminal record = key reference) &&
         bool_decide (ior_digest record = terminal_input_digest (key reference) bytes)
      then match entry reference (wo_registry w) with
           | Some _ => Ok (Cached (ior_ack record))
           | None => Err (Refused StaleTarget)
           end
      else Err (Refused IdempotencyConflict).
Proof.
  intros Hop Hrec. unfold TerminalRegistry.write_input, lookup_input. rewrite Hop.
  unfold st_bind at 1, on_operations, lookup_operation. rewrite Hrec.
  destruct (_ && _); [|by split_and!].
  unfold on_entry. change (entry reference (wo_registry (MkWorld (set_tr_operations _ (wo_registry w)) _)))
    with (entry reference (wo_registry w)).
  by destruct (entry reference (wo_registry w)).
Qed.

(** ** Later traffic does not push a fresh record out *)
Definition clock (op : RegistryOp) : option N :=
  match op with WriteInput _ _ _ now | InputOutcome _ _ _ now => Some now | _ => None end.
Definition traffic_bytes (ops : list RegistryOp) : N :=
  foldr (fun op n => match op with WriteInput _ _ bytes _ => N.of_nat (length bytes) + n | _ => n end)%N 0%N ops.
Definition traffic_writes (ops : list RegistryOp) : nat :=
  length (retain (fun op => match op with WriteInput _ _ _ _ => true | _ => false end) ops).

Lemma holds_mono k r n n' b b' l : n <= n' -> (b <= b')%N -> holds k r n b l -> holds k r n' b' l.
Proof.
  intros Hn Hb [Hr (before & behind & Ho & Hl & Hw)]. split; [done|].
  exists before, behind. split_and!; [done|lia|lia].
Qed.

Lemma op_holds bounds op w k r n b :
  (iob_max_bytes bounds <= SLICE_MAX)%N -> in_memory op -> ledger_fine bounds w -> holds k r n b (ledger w) ->
  (forall now, clock op = Some now -> expired now (iob_max_age_ms bounds) r = false) ->
  n + traffic_writes [op] < iob_max_operations_per_client bounds ->
  n + traffic_writes [op] < iob_max_operations bounds ->
  (ior_bytes r + (b + traffic_bytes [op]) <= iob_max_bytes bounds)%N ->
  holds k r (n + traffic_writes [op]) (b + traffic_bytes [op]) (ledger (registry_op op w).2).
Proof.
  intros Hmax Hop (Hok & Hb & Eb) Hh Hclock Hpc Htot Hbytes.
  assert (Hexp : forall now, clock op = Some now -> holds k r n b (expire now (ledger w))).
  { intros now Hnow. apply holds_expire; [done|done|]. rewrite Eb. by apply Hclock. }
  destruct (consults op) eqn:Ec.
  2: { rewrite (op_keeps json_length sha256 (fun w => ledger w) operations_entries op w Ec).
       eapply holds_mono; [| |exact Hh]; lia. }
  destruct op; try discriminate Ec; cbn [TerminalLife.registry_op]; unfold failure_of; cbn [snd].
  - destruct (write_input reference input bytes now_ms w) as [r' w'] eqn:E. cbn [snd].
    specialize (Hexp now_ms eq_refl). cbn in Hpc, Htot, Hbytes, Hop |- *. rewrite N.add_0_r in *.
    apply write_input_cases in E. destruct (ir_operation input) as [operation|].
    2: { rewrite E. eapply holds_mono; [| |exact Hh]; lia. }
    destruct E as [(E & _)|(Habs & failure & _ & _ & E)]; rewrite E.
    { eapply holds_mono; [| |exact Hexp]; lia. }
    rewrite Nat.add_1_r. change (N.of_nat (length bytes)) with
      (ior_bytes (record_of reference bytes (ack_of failure) now_ms)) at 1.
    apply holds_record; rewrite ?expire_bounds, ?Eb; [by apply expire_ok|done| | |by apply Hclock|lia|lia|].
    + intros Heq. rewrite Heq, (hd_record _ _ _ _ _ Hexp) in Habs. done.
    + assert (Hle := wb_bytes _ (expire_within now_ms _ Hok Hb)). rewrite expire_bounds, Eb in Hle.
      cbn. unfold SLICE_MAX, U64_MAX in *. lia.
    + cbn. lia.
  - cbn. rewrite Nat.add_0_r, N.add_0_r.
    destruct (input_outcome_ledger reference client operation now_ms w) as [E|E]; rewrite E; [done|].
    by apply Hexp.
Qed.

Lemma traffic_cons op ops : traffic_writes (op :: ops) = traffic_writes [op] + traffic_writes ops /\
  traffic_bytes (op :: ops) = (traffic_bytes [op] + traffic_bytes ops)%N.
Proof. unfold traffic_writes, traffic_bytes. destruct op; cbn; split; lia. Qed.

Lemma ops_holds bounds ops w k r n b :
  (iob_max_bytes bounds <= SLICE_MAX)%N -> Forall in_memory ops -> ledger_fine bounds w ->
  holds k r n b (ledger w) ->
  Forall (fun op => forall now, clock op = Some now -> expired now (iob_max_age_ms bounds) r = false) ops ->
  n + traffic_writes ops < iob_max_operations_per_client bounds ->
  n + traffic_writes ops < iob_max_operations bounds ->
  (ior_bytes r + (b + traffic_bytes ops) <= iob_max_bytes bounds)%N ->
  holds k r (n + traffic_writes ops) (b + traffic_bytes ops) (ledger (registry_ops ops w).2).
Proof.
  intros Hmax Hops. revert w n b. induction Hops as [|op ops Hop Hops IH]; intros w n b Hw Hh Hc Hpc Ht Hb.
  - cbn. by rewrite Nat.add_0_r, N.add_0_r.
  - destruct (traffic_cons op ops) as [Ew Eb]. rewrite Ew, Eb in *. inversion_clear Hc as [|? ? Hc1 Hc2].
    assert (Hh1 := op_holds bounds op w k r n b Hmax Hop Hw Hh Hc1 ltac:(lia) ltac:(lia) ltac:(lia)).
    apply (op_ledger_fine bounds op w Hmax Hop) in Hw. cbn [TerminalLife.registry_ops].
    destruct (registry_op op w) as [f w1]. cbn [snd] in *.
    specialize (IH w1 _ _ Hw Hh1 Hc2 ltac:(lia) ltac:(lia) ltac:(lia)).
    destruct (TerminalLife.registry_ops json_length sha256 ops w1) as [fs w2]. cbn [snd] in *.
    by rewrite Nat.add_assoc, N.add_assoc.
Qed.

(** C12: a terminal input is written to the PTY at most once while its record
    lives.  Once an operation
    was written (acknowledged as written, failed or possibly written), every
    later presentation of the same operation by the same client, on whatever
    connection, subscription and sequence number, for whatever bytes and
    terminal, writes nothing: the same bytes for the same terminal are answered
    with the recorded acknowledgement (or [StaleTarget] when the terminal is
    gone), a different meaning with [IdempotencyConflict].  This holds through
    any later traffic that stays within the bounds of the ledger: fewer later
    writes than one client and the process may keep, no more bytes than it may
    hold, and no more time than a record may live. *)
Theorem input_is_written_once bounds journal_limit cache_limit shared before reference input operation
    bytes now ack w1 later reference' input' bytes' now'
    (w := (registry_ops before (MkWorld (with_input_operation_bounds bounds
             (new_registry journal_limit cache_limit)) shared)).2)
    (w2 := (registry_ops later w1).2)
    (Hbounds : (iob_max_bytes bounds <= SLICE_MAX)%N)
    (Hbefore : Forall in_memory before) (Hlater : Forall in_memory later)
    (Hoperation : ir_operation input = Some operation)
    (Hwritten : write_input reference input bytes now w = (Ok ack, w1)) (Hdirect : direct ack = true)
    (Hwrites : S (traffic_writes later) <= iob_max_operations_per_client bounds /\
               S (traffic_writes later) <= iob_max_operations bounds)
    (Hbytes : (N.of_nat (length bytes) + traffic_bytes later <= iob_max_bytes bounds)%N)
    (Hclock : Forall (fun op => forall t, clock op = Some t -> (t <= now + iob_max_age_ms bounds)%N) later)
    (Hagain : (now' <= now + iob_max_age_ms bounds)%N)
    (Hsame : ir_client input' = ir_client input /\ ir_operation input' = Some operation) :
  (exists failure, ack = ack_of failure /\ log w1 = log w ++ [PtyWrote bytes failure]) /\
  let '(answer, w3) := write_input reference' input' bytes' now' w2 in
  log w3 = log w2 /\
  answer = if bool_decide (key reference = key reference') &&
              bool_decide (terminal_input_digest (key reference) bytes =
                           terminal_input_digest (key reference') bytes')
           then match entry reference' (wo_registry w2) with
                | Some _ => Ok (Cached ack)
                | None => Err (Refused StaleTarget)
                end
           else Err (Refused IdempotencyConflict).
Proof.
  assert (Hw : ledger_fine bounds w).
  { apply ops_ledger_fine; [done|done|]. split_and!; [apply new_ledger_ok|apply new_ledger_bounds|done]. }
  assert (Hc := write_input_cases _ _ _ _ _ _ _ Hwritten). rewrite Hoperation in Hc.
  destruct Hc as [(_ & _ & Hc)|(_ & failure & Hr & Hlog & Hledger)]; [by rewrite (Hc ack eq_refl) in Hdirect|].
  injection Hr as ->. split; [by exists failure|]. destruct Hw as (Hok & Hb & Eb).
  set (record := record_of reference bytes (ack_of failure) now) in *.
  assert (Hexpired : forall t, (t <= now + iob_max_age_ms bounds)%N -> expired t (iob_max_age_ms bounds) record = false).
  { intros t Ht. unfold expired. cbn. apply N.ltb_ge. lia. }
  assert (Hfit : (iol_bytes (expire now (ledger w)) + ior_bytes record <= U64_MAX)%N).
  { assert (Hle := wb_bytes _ (expire_within now _ Hok Hb)). rewrite expire_bounds, Eb in Hle.
    cbn. unfold SLICE_MAX, U64_MAX in *. lia. }
  assert (Hh : holds (ir_client input, operation) record 0 0 (ledger w1)).
  { rewrite Hledger. apply record_holds; rewrite ?expire_bounds, ?Eb; [by apply expire_ok|done|lia|lia|]. cbn. lia. }
  assert (Hw1 : ledger_fine bounds w1).
  { assert (H := op_ledger_fine bounds (WriteInput reference input bytes now) w Hbounds).
    cbn [TerminalLife.registry_op] in H. unfold failure_of in H. rewrite Hwritten in H. apply H; [|done].
    cbn. unfold SLICE_MAX in *. lia. }
  assert (Hh2 : holds (ir_client input, operation) record (traffic_writes later) (traffic_bytes later) (ledger w2)).
  { assert (H := ops_holds bounds later w1 _ record 0 0 Hbounds Hlater Hw1 Hh).
    rewrite Nat.add_0_l, N.add_0_l in H. apply H; [|lia|lia|cbn; lia].
    eapply Forall_impl; [exact Hclock|]. cbn beta. intros op Ht t Et. by apply Hexpired, Ht. }
  assert (Hw2 : ledger_fine bounds w2) by by apply ops_ledger_fine. destruct Hw2 as (Hok2 & _ & Eb2).
  assert (Hh3 : holds (ir_client input, operation) record (traffic_writes later) (traffic_bytes later)
                  (expire now' (ledger w2))).
  { apply holds_expire; [done|done|]. rewrite Eb2. by apply Hexpired. }
  destruct Hsame as [Ecl Eop]. apply hd_record in Hh3. rewrite <- Ecl in Hh3.
  assert (Hp := present_recorded reference' input' operation bytes' now' w2 record Eop Hh3).
  destruct (write_input reference' input' bytes' now' w2) as [answer w3].
  destruct Hp as (_ & Hlog3 & ->). split; [done|]. done.
Qed.
End input.

(** ** A retry after a lost acknowledgement *)
Module InputExample.
Import RegistryExample.
Definition bounds : InputOperationBounds := MkInputOperationBounds 4 2 64 1000.
Definition typed : InputRequest :=
  MkInputRequest 1 first_lane client (MkRequestId "r1") 0 (Some (MkOperationId "o1")).
Definition typed_again : InputRequest :=
  MkInputRequest 2 second_lane client (MkRequestId "r2") 0 (Some (MkOperationId "o1")).
Definition start : World :=
  MkWorld (with_input_operation_bounds bounds (new_registry 16 4)) (MkShared counters []).
Definition before : list RegistryOp :=
  [Register shell (MkGeometry 4 2); AttachForClient shell first_lane client None].
(** The connection is lost and another one attaches. *)
Definition later : list RegistryOp :=
  [Disconnect first_lane; AttachForClient shell second_lane client None].
End InputExample.

Section input_example.
Import RegistryExample InputExample.
Local Existing Instance cjk_width.
Local Existing Instance quiet_pty.
Let sha (l : list N) : list N := l.

Lemma input_is_written_once_witness :
  let w := (registry_ops small_json sha before start).2 in
  let w1 := (write_input sha shell typed [104; 105]%N 5 w).2 in
  let w2 := (registry_ops small_json sha later w1).2 in
  let again := write_input sha shell typed_again [104; 105]%N 9 w2 in
  sh_log (wo_shared w1) = [PtyWrote [104; 105]%N None] /\
  sh_log (wo_shared again.2) = sh_log (wo_shared w2) /\ again.1 = Ok (Cached Written).
Proof.
  intros w w1 w2 again. split; [by vm_compute|].
  destruct (input_is_written_once small_json sha bounds 16 4 (MkShared counters []) before shell typed
    (MkOperationId "o1") [104; 105]%N 5 Written w1 later shell typed_again [104; 105]%N 9) as [_ H];
    [by vm_compute|by repeat constructor|by repeat constructor|done|by vm_compute|done|
     cbn; lia|by vm_compute|by repeat constructor|by vm_compute|done|].
  fold w w1 w2 in H. change (write_input sha shell typed_again [104; 105]%N 9 w2) with again in H.
  destruct again as [answer w3] eqn:E. destruct H as [Hlog Hanswer]. split; [exact Hlog|].
  cbn [fst]. rewrite Hanswer. by vm_compute.
Defined.
End input_example.
