(* ===== verification/TerminalGeometry.v ===== *)
(** * Shared viewports: the PTY's size and the clients' panes

    The committed geometry of a terminal is always the size its PTY accepted
    last, and a reconciliation moves it to the smallest pane of the clients that
    are still attached. *)
From S2P Require Export TerminalReplay.

(** ** The smallest request *)
Lemma geometry_min_assoc a b c : geometry_min a (geometry_min b c) = geometry_min (geometry_min a b) c.
Proof. unfold geometry_min. cbn. f_equal; lia. Qed.

Definition within (a b : Geometry) : Prop := (tg_cols a <= tg_cols b)%N /\ (tg_rows a <= tg_rows b)%N.

Lemma fold_min_spec g l : let m := foldl geometry_min g l in
  (forall x, x ∈ g :: l -> within m x) /\
  (exists x, x ∈ g :: l /\ tg_cols m = tg_cols x) /\ (exists x, x ∈ g :: l /\ tg_rows m = tg_rows x).
Proof.
  revert g. induction l as [|y l IH]; intros g; cbn.
  - split_and!; [|exists g; split; [left|done]..]. intros x ->%list_elem_of_singleton. split; lia.
  - destruct (IH (geometry_min g y)) as (Hle & (xc & Hxc & Ec) & (xr & Hxr & Er)). cbv zeta in *.
    assert (Hm := Hle (geometry_min g y) ltac:(left)). destruct Hm as [Hmc Hmr].
    change (tg_cols (geometry_min g y)) with (N.min (tg_cols g) (tg_cols y)) in *.
    change (tg_rows (geometry_min g y)) with (N.min (tg_rows g) (tg_rows y)) in *.
    split_and!.
    + intros x [->|[->|Hx]%elem_of_cons]%elem_of_cons; [| |apply Hle; by right];
        unfold within; lia.
    + apply elem_of_cons in Hxc as [->|Hxc]; [|exists xc; split; [by do 2 right|done]].
      change (tg_cols (geometry_min g y)) with (N.min (tg_cols g) (tg_cols y)) in Ec. destruct (N.min_spec (tg_cols g) (tg_cols y)) as [[_ E]|[_ E]]; rewrite E in Ec.
      * exists g. split; [left|done].
      * exists y. split; [right; left|done].
    + apply elem_of_cons in Hxr as [->|Hxr]; [|exists xr; split; [by do 2 right|done]].
      change (tg_rows (geometry_min g y)) with (N.min (tg_rows g) (tg_rows y)) in Er. destruct (N.min_spec (tg_rows g) (tg_rows y)) as [[_ E]|[_ E]]; rewrite E in Er.
      * exists g. split; [left|done].
      * exists y. split; [right; left|done].
Qed.

(** [g] is the per-dimension minimum of [l]. *)
Definition smallest (g : Geometry) (l : list Geometry) : Prop :=
  (forall x, x ∈ l -> within g x) /\
  (exists x, x ∈ l /\ tg_cols g = tg_cols x) /\ (exists x, x ∈ l /\ tg_rows g = tg_rows x).

Lemma reduce_min_spec l : match reduce geometry_min l with Some g => smallest g l | None => l = [] end.
Proof. destruct l as [|x l]; cbn; [done|]. apply fold_min_spec. Qed.

(** What the attached clients ask for; a [None] request asks for nothing. *)
Lemma requests_spec e g : g ∈ requests e <->
  exists c seen, en_viewports e !! c = Some (MkClientViewport (Some g) seen).
Proof.
  unfold requests. rewrite list_elem_of_omap. split.
  - intros ([c [r seen]] & Hin & Hr). cbn in Hr. subst r. exists c, seen. by apply elem_of_map_to_list.
  - intros (c & seen & H). exists (c, MkClientViewport (Some g) seen). by rewrite elem_of_map_to_list.
Qed.

Lemma pruned_spec requester e c v : en_viewports (prune_viewports requester e) !! c = Some v <->
  en_viewports e !! c = Some v /\ (c ∈ attached_clients e \/ requester = Some c).
Proof. unfold prune_viewports. cbn. rewrite map_lookup_filter_Some. done. Qed.

(** ** The size the PTY accepted last *)
Definition accepted_size (reference : TerminalRef) (g : Geometry) (x : PtyEffect) : Geometry :=
  match x with
  | PtyResized r g' true => if bool_decide (r = reference) then g' else g
  | _ => g
  end.
Definition last_size (reference : TerminalRef) (g : Geometry) (effects : list PtyEffect) : Geometry :=
  foldl (accepted_size reference) g effects.

Lemma last_size_app reference g a b : last_size reference g (a ++ b) = last_size reference (last_size reference g a) b.
Proof. apply foldl_app. Qed.

Section geometry.
Context {U : UnicodeWidth} {P : PtyAnswers}.

(** One body: what it asked of the PTY, all of it about its own terminal. *)
Definition about (reference : TerminalRef) (x : PtyEffect) : bool :=
  match x with PtyResized r _ _ => bool_decide (r = reference) | PtyWrote _ _ => true end.

(** The process counter follows the cells of the entry, whatever [a] the other
    screens of the process hold. *)
Definition pc (s : Shared) : N := pc_retained_screen_cells (sh_counters s).
Definition accounted (e : Entry) (s : Shared) (e' : Entry) (s' : Shared) : Prop :=
  forall a, pc s = ((a + N.of_nat (en_screen_cells e)) mod U64_MODULUS)%N ->
    pc s' = ((a + N.of_nat (en_screen_cells e')) mod U64_MODULUS)%N.

Record sized (e : Entry) (s : Shared) (e' : Entry) (s' : Shared) : Prop := {
  sz_cells : accounted e s e' s';
  sz_reference : en_reference e' = en_reference e;
  sz_log : exists effects, sh_log s' = sh_log s ++ effects /\
    en_geometry e' = last_size (en_reference e) (en_geometry e) effects /\
    Forall (fun x => about (en_reference e) x = true) effects
}.

Lemma sized_same e s e' s' : en_reference e' = en_reference e -> sh_log s' = sh_log s ->
  en_geometry e' = en_geometry e -> accounted e s e' s' -> sized e s e' s'.
Proof. intros Hr Hl Hg Ha. split; [done|done|]. exists []. rewrite app_nil_r. by repeat constructor. Qed.

Lemma sized_quiet e s e' s' : en_reference e' = en_reference e -> sh_log s' = sh_log s ->
  en_geometry e' = en_geometry e -> en_screen_cells e' = en_screen_cells e -> pc s' = pc s -> sized e s e' s'.
Proof. intros Hr Hl Hg Hc Hp. apply sized_same; [done|done|done|]. intros a. by rewrite Hc, Hp. Qed.

Lemma sized_trans e1 s1 e2 s2 e3 s3 : sized e1 s1 e2 s2 -> sized e2 s2 e3 s3 -> sized e1 s1 e3 s3.
Proof.
  intros [Ha Hr (x & Hl & Hg & Hx)] [Ha' Hr' (y & Hl' & Hg' & Hy)].
  split; [intros a H; by apply Ha', Ha|congruence|].
  exists (x ++ y). rewrite app_assoc, <- Hl. split_and!; [done| |].
  - rewrite last_size_app, <- Hg, <- Hr. done.
  - apply Forall_app. split; [done|]. by rewrite <- Hr.
Qed.

Lemma fetch_add_mod a b : fetch_add (a mod U64_MODULUS) b = ((a + b) mod U64_MODULUS)%N.
Proof. unfold fetch_add. by rewrite N.Div0.add_mod_idemp_l. Qed.

Lemma fetch_sub_mod a b : fetch_sub ((a + b) mod U64_MODULUS) b = (a mod U64_MODULUS)%N.
Proof.
  unfold fetch_sub. rewrite N.Div0.add_mod_idemp_l.
  assert (Hb := N.mod_lt b U64_MODULUS ltac:(done)).
  rewrite (N.div_mod b U64_MODULUS) at 1 by done.
  replace (a + (U64_MODULUS * (b / U64_MODULUS) + b mod U64_MODULUS) + (U64_MODULUS - b mod U64_MODULUS))%N
    with (a + (b / U64_MODULUS + 1) * U64_MODULUS)%N by lia.
  apply N.Div0.mod_add.
Qed.

Lemma account_sized e s : let '(e', s') := account_screen (e, s) in sized e s e' s'.
Proof.
  cbn. apply sized_same; [done|by destruct (_ <=? _)|done|]. intros a Ha. cbn.
  destruct (Nat.leb_spec (en_screen_cells e) (VtScreen.retained_cells (en_screen e))) as [Hle|Hlt];
    unfold pc in *; cbn; rewrite Ha.
  - rewrite fetch_add_mod. f_equal. lia.
  - replace (a + N.of_nat (en_screen_cells e))%N
      with (a + N.of_nat (VtScreen.retained_cells (en_screen e)) +
            N.of_nat (en_screen_cells e - VtScreen.retained_cells (en_screen e)))%N by lia.
    apply fetch_sub_mod.
Qed.

Lemma trim_sized n e s : let '(e', s') := trim_screen n (e, s) in
  sized e s e' s' /\ en_geometry e' = en_geometry e /\ sh_log s' = sh_log s.
Proof.
  unfold trim_screen. destruct (trim_to_cells n (en_screen e)) as [screen dropped].
  set (e1 := set_en_screen screen e). set (s1 := add_screen_trimmed _ s).
  assert (Ha := account_sized e1 s1). destruct (account_screen (e1, s1)) as [e2 s2] eqn:E.
  split; [eapply sized_trans; [|exact Ha]; by apply sized_quiet|].
  injection E as <- <-. split; [done|]. by destruct (_ <=? _).
Qed.

Lemma enforce_sized budgets e s : let '(e', s') := enforce_screen_budget budgets (e, s) in
  sized e s e' s' /\ en_geometry e' = en_geometry e /\ sh_log s' = sh_log s.
Proof.
  unfold enforce_screen_budget. cbv zeta. assert (Ha := account_sized e s).
  destruct (account_screen (e, s)) as [e1 s1] eqn:E. cbn [fst].
  assert (E1 : en_geometry e1 = en_geometry e /\ sh_log s1 = sh_log s).
  { injection E as <- <-. split; [done|]. by destruct (_ <=? _). }
  destruct (_ <=? _)%N; [done|]. assert (Ht := trim_sized (budget_of budgets (en_screen_cells e)) e1 s1).
  destruct (trim_screen _ (e1, s1)) as [e2 s2]. destruct Ht as (Ht&?&?).
  split_and!; [by eapply sized_trans|intuition congruence..].
Qed.

Lemma commit_geometry_spec g budgets e s : let '(e', s') := commit_geometry g budgets (e, s) in
  en_reference e' = en_reference e /\ en_geometry e' = g /\ sh_log s' = sh_log s /\ accounted e s e' s'.
Proof.
  unfold commit_geometry. destruct (screen_dimensions g) as [rows cols].
  set (e1 := set_en_screen _ _). assert (H := enforce_sized budgets e1 s).
  destruct (enforce_screen_budget budgets (e1, s)) as [e2 s2]. destruct H as ([Ha Hr _] & Hg & Hl).
  by split_and!.
Qed.

Lemma commit_viewports g budgets e s : en_viewports (commit_geometry g budgets (e, s)).1 = en_viewports e.
Proof.
  unfold commit_geometry. destruct (screen_dimensions g) as [rows cols].
  unfold enforce_screen_budget. cbn [fst]. destruct (account_screen _) as [e1 s1] eqn:Ea.
  assert (E1 : en_viewports e1 = en_viewports e) by by injection Ea as <- _.
  destruct (_ <=? _)%N; [done|]. unfold trim_screen. by destruct (trim_to_cells _ _).
Qed.

(** [writer.resize] and the commit that follows it. *)
Lemma resize_committed g budgets e s :
  let accepted := pty_resize (sh_log s) (en_reference e) g in
  let s1 := record_effect (PtyResized (en_reference e) g accepted) s in
  let '(e', s') := if accepted then commit_geometry g budgets (e, s1) else (e, s1) in
  sized e s e' s' /\ (accepted = true -> en_geometry e' = g).
Proof.
  cbv zeta. set (accepted := pty_resize _ _ _). set (s1 := record_effect _ s).
  assert (Hs1 : sh_log s1 = sh_log s ++ [PtyResized (en_reference e) g accepted]) by done.
  assert (Habout : Forall (fun x => about (en_reference e) x = true) [PtyResized (en_reference e) g accepted]).
  { repeat constructor. cbn. by apply bool_decide_eq_true. }
  assert (Hpc : pc s1 = pc s) by done.
  clearbody s1. destruct accepted.
  - assert (Hc := commit_geometry_spec g budgets e s1). destruct (commit_geometry g budgets (e, s1)) as [e' s'].
    destruct Hc as (Hr & Hg & Hl & Ha). split; [|done]. split; [intros a Hp; apply Ha; by rewrite Hpc|done|].
    eexists. split_and!; [by rewrite Hl| |done]. cbn. by rewrite bool_decide_eq_true_2.
  - split; [|done]. split; [|done|].
    + intros a. by rewrite Hpc.
    + eexists. by split_and!.
Qed.

(** The shared viewport policy.  After a reconciliation the terminal has the
    smallest size, per dimension, that the clients still attached (and the
    client being served) ask for, so none of them is handed a screen larger than
    its pane; it keeps its size when nobody asks, when it has exited, when the
    smaller grid does not fit the budget or when its PTY refused the new size.
    The PTY is asked at most once, and only for another size than the committed
    one. *)
Theorem reconcile_takes_the_minimum requester budgets e s :
  let '(e', s') := reconcile_geometry requester budgets (e, s) in
  (forall c v, en_exited e = None -> en_viewports e' !! c = Some v <->
     en_viewports e !! c = Some v /\ (c ∈ attached_clients e \/ requester = Some c)) /\
  (smallest (en_geometry e') (requests e') \/
   en_geometry e' = en_geometry e /\
   (is_Some (en_exited e) \/ requests e' = [] \/
    exists g, smallest g (requests e') /\ g <> en_geometry e /\
      (ensure_screen_geometry_fits g budgets (en_screen_cells e) = false \/
       sh_log s' = sh_log s ++ [PtyResized (en_reference e) g false]))) /\
  (sh_log s' = sh_log s \/
   exists g accepted, g <> en_geometry e /\ sh_log s' = sh_log s ++ [PtyResized (en_reference e) g accepted]).
Proof.
  unfold reconcile_geometry. case_bool_decide as Hex.
  { split_and!; [|by right; auto|by left]. intros c v Hn. rewrite Hn in Hex. by destruct Hex. }
  set (e1 := prune_viewports requester e).
  assert (Hv : forall c v, en_exited e = None -> en_viewports e1 !! c = Some v <->
     en_viewports e !! c = Some v /\ (c ∈ attached_clients e \/ requester = Some c)) by (intros; apply pruned_spec).
  assert (Hmin := reduce_min_spec (requests e1)). change (reduce geometry_min (requests e1)) with (requested_geometry e1) in Hmin.
  destruct (requested_geometry e1) as [g|]; [|split_and!; [done|by right; auto|by left]].
  change (en_geometry e1) with (en_geometry e). change (en_reference e1) with (en_reference e).
  change (en_screen_cells e1) with (en_screen_cells e).
  case_bool_decide as Hg; [split_and!; [done|left; by rewrite Hg in Hmin|by left]|].
  destruct (ensure_screen_geometry_fits g budgets (en_screen_cells e)) eqn:Efit; cbn [negb].
  2: { split_and!; [done| |by left]. right. split; [done|]. right. right. exists g. auto. }
  set (accepted := pty_resize _ _ _). set (s1 := record_effect _ s).
  assert (Hs1 : sh_log s1 = sh_log s ++ [PtyResized (en_reference e) g accepted]) by done. clearbody s1.
  destruct accepted.
  2: { split_and!; [done| |right; exists g, false; auto]. right. split; [done|]. right. right. exists g. auto. }
  assert (Hc := commit_geometry_spec g budgets e1 s1). assert (Hcv := commit_viewports g budgets e1 s1).
  destruct (commit_geometry g budgets (e1, s1)) as [e2 s2]. cbn [fst] in Hcv. destruct Hc as (Hr & Hg' & Hl & _).
  split_and!.
  - intros c v Hn. rewrite Hcv. by apply Hv.
  - left. rewrite Hg'. unfold requests in *. by rewrite Hcv.
  - right. exists g, true. split; [done|]. by rewrite Hl.
Qed.

(** ** Every body asks only for its own terminal *)
Context (json_length : ScreenCheckpoint -> option N) (sha256 : list N -> list N).

Lemma snapshot_log e bytes_limit s : let s' := (snapshot_entry json_length e bytes_limit s).2 in
  sh_log s' = sh_log s /\ pc s' = pc s.
Proof.
  unfold snapshot_entry, checkpoint_within. generalize (checkpoint (en_screen e)). intros cp.
  generalize (S (history_rows cp)). intros fuel.
  assert (Hfit : forall cp s, from_option (fun p => (sh_log p.2, pc p.2)) (sh_log s, pc s)
                          (fit_checkpoint json_length fuel bytes_limit cp s) = (sh_log s, pc s)).
  { induction fuel as [|fuel IH]; intros cp0 s0; cbn [fit_checkpoint]; [done|].
    destruct (_ <? _)%N; [|done]. destruct (halve_history cp0) as [cp1 dropped]. destruct (dropped =? 0); [done|].
    specialize (IH cp1 (add_checkpoint_trimmed (N.of_nat dropped) s0)).
    by destruct (fit_checkpoint _ fuel bytes_limit cp1 _) as [[? ?]|]. }
  specialize (Hfit cp s). destruct (fit_checkpoint json_length fuel bytes_limit cp s) as [[? ?]|]; [|done].
  by injection Hfit.
Qed.

Lemma reconcile_sized requester budgets e s : let '(e', s') := reconcile_geometry requester budgets (e, s) in
  sized e s e' s'.
Proof.
  unfold reconcile_geometry. case_bool_decide; [by apply sized_quiet|].
  destruct (requested_geometry _) as [g|]; [|by apply sized_quiet].
  case_bool_decide; [by apply sized_quiet|]. destruct (negb _); [by apply sized_quiet|].
  assert (Hc := resize_committed g budgets (prune_viewports requester e) s). cbv zeta in *.
  destruct (if pty_resize _ _ _ then _ else _) as [e1 s1].
  eapply sized_trans; [|apply Hc]. by apply sized_quiet.
Qed.

Lemma attach_sized connection client viewport bytes_limit budgets e s r e' s' :
  attach_entry json_length connection client viewport bytes_limit budgets (e, s) = (r, (e', s')) -> sized e s e' s'.
Proof.
  unfold attach_entry. set (moved := match client with Some c => _ | None => _ end).
  assert (Hm : sized e s moved.1 moved.2).
  { unfold moved. destruct client as [c|]; [|by apply sized_quiet].
    assert (Hr := reconcile_sized (Some c) budgets (claim_viewport c viewport e) s).
    destruct (reconcile_geometry (Some c) budgets _) as [e1 s1]. eapply sized_trans; [|exact Hr]. by apply sized_quiet. }
  destruct moved as [e1 s1]. cbn [fst snd] in Hm. assert (Hl := snapshot_log e1 bytes_limit s1).
  destruct (snapshot_entry json_length e1 bytes_limit s1) as [captured s2]. cbn [snd] in Hl. destruct Hl as [Hl Hp].
  destruct captured as [snap|error].
  2: { intros [= <- <- <-]. eapply sized_trans; [exact Hm|]. by apply sized_quiet. }
  set (e2 := match client with Some c => mark_seen c e1 | None => e1 end).
  assert (H2 : sized e1 s1 e2 s2) by (unfold e2; destruct client; by apply sized_quiet).
  destruct (fst <$> _); cbn; intros [= <- <- <-]; (eapply sized_trans; [exact Hm|]); [done|].
  eapply sized_trans; [exact H2|]. by apply sized_quiet.
Qed.

Lemma detach_sized subscription connection budgets e s r e' s' :
  detach_entry subscription connection budgets (e, s) = (r, (e', s')) -> sized e s e' s'.
Proof.
  unfold detach_entry. destruct (find_first _ _) as [a|]; [|intros [= <- <- <-]; by apply sized_quiet].
  destruct (connected connection a); [|intros [= <- <- <-]; by apply sized_quiet].
  set (e1 := set_en_attachments _ e). assert (Hr := reconcile_sized None budgets e1 s).
  destruct (reconcile_geometry None budgets (e1, s)) as [e2 s2]. intros [= <- <- <-].
  eapply sized_trans; [|exact Hr]. by apply sized_quiet.
Qed.

Lemma keep_sized keep budgets e s : let '(e', s') := keep_connections keep budgets (e, s) in sized e s e' s'.
Proof.
  unfold keep_connections. set (e1 := set_en_attachments _ e). destruct (_ =? _); [by apply sized_quiet|].
  assert (Hr := reconcile_sized None budgets e1 s). destruct (reconcile_geometry None budgets (e1, s)) as [e2 s2].
  eapply sized_trans; [by apply (sized_quiet e s e1 s)|]. eapply sized_trans; [exact Hr|]. by apply sized_quiet.
Qed.

Lemma resize_sized g client bytes_limit budgets e s r e' s' :
  resize_entry json_length g client bytes_limit budgets (e, s) = (r, (e', s')) -> sized e s e' s'.
Proof.
  unfold resize_entry. case_bool_decide; [intros [= <- <- <-]; by apply sized_quiet|].
  set (e1 := match client with Some c => prune_viewports _ _ | None => e end).
  assert (H1 : sized e s e1 s) by (unfold e1; destruct client; by apply sized_quiet). clearbody e1.
  destruct (apply_target _ budgets (e1, s)) as [r2 [e2 s2]] eqn:Ea.
  assert (H2 : sized e1 s e2 s2).
  { revert Ea. unfold apply_target. set (target := default g _).
    case_bool_decide; [intros [= <- <- <-]; by apply sized_quiet|].
    destruct (negb _); [intros [= <- <- <-]; by apply sized_quiet|].
    assert (Hc := resize_committed target budgets e1 s). cbv zeta in *.
    destruct (pty_resize _ _ _); [destruct (commit_geometry _ _ _) as [e3 s3]|];
      intros [= <- <- <-]; apply Hc. }
  destruct r2 as [[]|failure]; [|intros [= <- <- <-]; by eapply sized_trans].
  set (e3 := match client with Some c => stay_current _ c e2 | None => e2 end).
  assert (H3 : sized e2 s2 e3 s2) by (unfold e3; destruct client; by apply sized_quiet). clearbody e3.
  assert (Hl := snapshot_log e3 bytes_limit s2).
  destruct (snapshot_entry json_length e3 bytes_limit s2) as [captured s3]. destruct Hl as [Hl Hp]. intros [= <- <- <-].
  eapply sized_trans; [exact H1|]. eapply sized_trans; [exact H2|]. eapply sized_trans; [exact H3|].
  by apply sized_quiet.
Qed.

Lemma write_sized cache_limit input bytes e s r e' s' :
  write_entry cache_limit input bytes (e, s) = (r, (e', s')) -> sized e s e' s'.
Proof.
  unfold write_entry. case_bool_decide; [intros [= <- <- <-]; by apply sized_quiet|].
  case_bool_decide; [intros [= <- <- <-]; by apply sized_quiet|]. cbv zeta.
  destruct (_ <? _)%N; [intros [= <- <- <-]; by apply sized_quiet|].
  destruct (_ <? _)%N; [intros [= <- <- <-]; by apply sized_quiet|]. intros [= <- <- <-].
  split; [by intros a|done|]. eexists. split_and!; [done|done|by repeat constructor].
Qed.

Lemma journal_sized limit output e s e' s' : journal_append limit output (e, s) = Some (e', s') -> sized e s e' s'.
Proof.
  unfold journal_append. destruct (limit <=? _)%N; [intros [= <- <-]; by apply sized_quiet|].
  set (extended := match update_last _ _ with Some j => _ | None => _ end).
  assert (Hx : sized e s extended.1 extended.2) by (unfold extended; destruct (update_last _ _); by apply sized_quiet).
  destruct extended as [e1 s1]. cbn [fst snd] in Hx. destruct (_ <? _)%N; [|by intros [= <- <-]].
  destruct (drop_front _ _) as [j|]; [|done]. intros [= <- <-]. eapply sized_trans; [exact Hx|]. by apply sized_quiet.
Qed.

Lemma append_sized limit budgets data e s r e' s' :
  append_entry limit budgets data (e, s) = (r, (e', s')) -> sized e s e' s'.
Proof.
  unfold append_entry. destruct (advance_with_replies data (en_screen e)) as [[screen replies]|];
    [|intros [= <- <- <-]; by apply sized_quiet].
  assert (Hq := enforce_sized budgets (set_en_screen screen e) s).
  destruct (enforce_screen_budget budgets (set_en_screen screen e, s)) as [e1 s1]. destruct Hq as (Hq & _ & _).
  assert (H1 : sized e s e1 s1) by (eapply sized_trans; [|exact Hq]; by apply sized_quiet).
  set (e2 := set_en_next_offset _ e1). assert (H2 : sized e s e2 s1) by (eapply sized_trans; [exact H1|by apply sized_quiet]).
  destruct (journal_append limit _ (e2, s1)) as [[e3 s3]|] eqn:Ej.
  - intros [= <- <- <-]. eapply sized_trans; [exact H2|]. by eapply journal_sized.
  - intros [= <- <- <-]. done.
Qed.

Lemma clear_sized e s r e' s' : clear_entry (e, s) = (r, (e', s')) -> sized e s e' s'.
Proof.
  unfold clear_entry. destruct (clear_primary_for_user (en_screen e)) as [screen cleared]. destruct cleared.
  - set (e1 := set_en_retained_bytes 0 _). assert (Ha := account_sized e1 (add_dropped (en_retained_bytes (set_en_screen screen e)) s)).
    destruct (account_screen _) as [e2 s2]. intros [= <- <- <-]. eapply sized_trans; [|exact Ha]; by apply sized_quiet.
  - intros [= <- <- <-]. by apply sized_quiet.
Qed.

(** ** One operation, seen from one terminal *)
Definition moves (reference : TerminalRef) (w w' : World) : Prop :=
  forall e, entry reference (wo_registry w) = Some e ->
  exists e' effects, entry reference (wo_registry w') = Some e' /\
    sh_log (wo_shared w') = sh_log (wo_shared w) ++ effects /\
    en_geometry e' = last_size reference (en_geometry e) effects.

Lemma moves_quiet reference w w' : (forall e, entry reference (wo_registry w) = Some e ->
    exists e', entry reference (wo_registry w') = Some e' /\ en_geometry e' = en_geometry e) ->
  sh_log (wo_shared w') = sh_log (wo_shared w) -> moves reference w w'.
Proof. intros He Hl e H. destruct (He e H) as (e' & He' & Hg). exists e', []. by rewrite app_nil_r. Qed.

Lemma moves_id reference w w' : tr_entries (wo_registry w') = tr_entries (wo_registry w) ->
  sh_log (wo_shared w') = sh_log (wo_shared w) -> moves reference w w'.
Proof. intros Ht. apply moves_quiet. intros e He. exists e. split; [|done]. unfold entry in *. by rewrite Ht. Qed.

Lemma moves_trans reference w1 w2 w3 : moves reference w1 w2 -> moves reference w2 w3 -> moves reference w1 w3.
Proof.
  intros H1 H2 e He. destruct (H1 e He) as (e2 & x & He2 & Hl2 & Hg2). destruct (H2 e2 He2) as (e3 & y & He3 & Hl3 & Hg3).
  exists e3, (x ++ y). split_and!; [done|by rewrite Hl3, Hl2, app_assoc|]. by rewrite last_size_app, <- Hg2.
Qed.

Lemma last_size_about reference r g effects : r <> reference ->
  Forall (fun x => about r x = true) effects -> last_size reference g effects = g.
Proof.
  intros Hne. induction 1 as [|x effects Hx Hf IH] in g |- *; cbn; [done|]. unfold last_size in IH. rewrite IH.
  destruct x as [r' g' []|]; [|done|done]. cbn in *. apply bool_decide_eq_true in Hx as ->.
  by rewrite bool_decide_eq_false_2.
Qed.

Lemma on_entry_moves {A} r (body : st (Entry * Shared) Failure A) reference w :
  (forall e s r e' s', body (e, s) = (r, (e', s')) -> sized e s e' s') ->
  moves reference w (on_entry r body w).2.
Proof.
  intros Hbody e He. destruct (body (e, wo_shared w)) as [r1 [e1 s1]] eqn:Eb.
  assert (Hg := proj2 (entry_get _ _ _ He)).
  assert (H := on_entry_entry r body w reference e He). rewrite Eb in H. cbn [fst snd] in H.
  specialize (H ltac:(intros _; rewrite (sz_reference _ _ _ _ (Hbody _ _ _ _ _ Eb)); congruence)).
  destruct (decide (r = reference)) as [->|Hne].
  - destruct (Hbody _ _ _ _ _ Eb) as [_ _ (effects & Hl & Hge & _)]. rewrite Hg in Hge. exists e1, effects.
    split_and!; [done| |done]. unfold on_entry. by rewrite He, Eb.
  - unfold on_entry in *. destruct (entry r (wo_registry w)) as [e0|] eqn:E0.
    2: { exists e, []. by rewrite app_nil_r. }
    apply entry_get in E0 as [_ Er]. destruct (body (e0, wo_shared w)) as [r2 [e2 s2]] eqn:Eb2.
    destruct (Hbody _ _ _ _ _ Eb2) as [_ _ (effects & Hl & _ & Hf)]. rewrite Er in Hf. exists e, effects.
    split_and!; [done|done|]. symmetry. by eapply last_size_about.
Qed.

Lemma bind_moves {A B} reference (c : st World Failure A) (k : A -> st World Failure B) w :
  moves reference w (c w).2 -> (forall a w1, moves reference w1 (k a w1).2) -> moves reference w (st_bind c k w).2.
Proof.
  intros Hc Hk. rewrite st_bind_snd. destruct ((c w).1); [|done]. eapply moves_trans; [done|]. apply Hk.
Qed.

Lemma operations_moves {A} (f : InputOperationLedger -> A * InputOperationLedger) reference w :
  moves reference w (on_operations f w).2.
Proof. unfold on_operations. destruct (f _) as [a l]. by apply moves_id. Qed.

Lemma write_input_moves r input bytes now reference w :
  moves reference w (write_input sha256 r input bytes now w).2.
Proof.
  apply bind_moves; [unfold lookup_input; destruct (ir_operation input); [apply operations_moves|by apply moves_id]|].
  intros found w1. destruct found; [| |by apply moves_id].
  2: { apply on_entry_moves. intros e s r0 e' s' [= <- <- <-]. by apply sized_quiet. }
  apply bind_moves; [by apply moves_id|]. intros w2 w3.
  apply bind_moves; [apply on_entry_moves; intros; by eapply write_sized|]. intros [ack written] w4.
  apply bind_moves; [|intros; by apply moves_id]. destruct written; [|by apply moves_id].
  unfold record_input. destruct (ir_operation input); [apply operations_moves|by apply moves_id].
Qed.

(** An effect about one of these terminals. *)
Definition about_one (entries : list (string * Entry)) (x : PtyEffect) : Prop :=
  exists ke, ke ∈ entries /\ about (en_reference ke.2) x = true.

Lemma last_size_others reference g entries effects :
  (forall ke, ke ∈ entries -> en_reference ke.2 <> reference) -> Forall (about_one entries) effects ->
  last_size reference g effects = g.
Proof.
  intros Hne Hf. unfold last_size. induction Hf as [|x effects (ke & Hke & Hx) Hf IH] in g |- *; cbn; [done|].
  rewrite IH. apply (last_size_about reference (en_reference ke.2) g [x]); [by apply Hne|by repeat constructor].
Qed.

(** The terminals of a sweep ask for themselves only. *)
Lemma sweep_sized f entries s :
  (forall e s, let '(e', s') := f (e, s) in sized e s e' s') ->
  NoDup (fst <$> entries) -> Forall (fun ke => ke.1 = key (en_reference ke.2)) entries ->
  let '(entries', s') := sweep f entries s in
  exists effects, sh_log s' = sh_log s ++ effects /\ Forall (about_one entries) effects /\
  forall k e, btree_get k entries = Some e ->
  exists e', btree_get k entries' = Some e' /\ en_reference e' = en_reference e /\
    en_geometry e' = last_size (en_reference e) (en_geometry e) effects.
Proof.
  intros Hf. revert s. induction entries as [|[k0 e0] entries IH]; intros s Hn Hk; cbn [sweep].
  { exists []. rewrite app_nil_r. by split_and!. }
  assert (H0 := Hf e0 s). destruct (f (e0, s)) as [e1 s1]. destruct H0 as [_ Hr (x & Hl & Hg & Hx)].
  cbn in Hn. apply list.NoDup_cons in Hn as [Hfresh Hn]. inversion_clear Hk as [|? ? Hk0 Hk']. cbn in Hk0.
  specialize (IH s1 Hn Hk'). destruct (sweep f entries s1) as [rest s2].
  destruct IH as (y & Hl2 & Hy & Hget).
  assert (Hdistinct : forall ke, ke ∈ entries -> en_reference ke.2 <> en_reference e0).
  { intros ke Hke Heq. rewrite Forall_forall in Hk'. apply Hfresh. rewrite Hk0, <- Heq, <- (Hk' ke Hke).
    by apply list_elem_of_fmap_2. }
  exists (x ++ y). split_and!; [by rewrite Hl2, Hl, app_assoc| |].
  { apply Forall_app. split.
    - eapply Forall_impl; [exact Hx|]. intros z Hz. exists (k0, e0). split; [left|done].
    - eapply Forall_impl; [exact Hy|]. intros z (ke & Hke & Hz). exists ke. split; [by right|done]. }
  intros k e Hke. unfold btree_get in Hke |- *. cbn [find_first] in Hke |- *.
  change (at_key fst k (k0, e1)) with (at_key fst k (k0, e0)).
  destruct (at_key fst k (k0, e0)) eqn:Eat.
  - cbn in Hke |- *. injection Hke as <-. exists e1. split_and!; [done|done|].
    by rewrite last_size_app, <- Hg, (last_size_others _ _ entries).
  - fold (btree_get k entries) in Hke. fold (btree_get k rest).
    destruct (Hget k e Hke) as (e' & He' & Hr' & Hg'). exists e'. split_and!; [done|done|].
    rewrite last_size_app, (last_size_about (en_reference e) (en_reference e0) _ x); [done| |done].
    intros Heq. apply btree_get_elem in Hke. by apply (Hdistinct _ Hke).
Qed.

Lemma sweep_moves keep reference w : world_ok w -> moves reference w (sweep_connections keep w).
Proof.
  intros [Hn Hf] e He. assert (Hg := He). apply entry_get in Hg as [Hg Hr]. unfold sweep_connections.
  assert (Hs := sweep_sized (keep_connections keep (screen_budgets w)) (tr_entries (wo_registry w)) (wo_shared w)
                  (keep_sized keep (screen_budgets w)) Hn).
  destruct (sweep _ _ _) as [entries s].
  destruct Hs as (effects & Hl & _ & Hget). { eapply Forall_impl; [exact Hf|]. by intros ke []. }
  destruct (Hget _ _ Hg) as (e' & He' & Hr' & Hg'). exists e', effects. rewrite Hr in *.
  split_and!; [|done|done]. unfold entry. cbn [wo_registry tr_entries set_tr_entries]. rewrite He'.
  unfold TerminalRef_fences. by rewrite bool_decide_eq_true_2.
Qed.

Lemma put_moves k e e' reference w s :
  btree_get k (tr_entries (wo_registry w)) = Some e ->
  en_reference e' = en_reference e -> en_geometry e' = en_geometry e -> sh_log s = sh_log (wo_shared w) ->
  moves reference w (MkWorld (set_tr_entries (btree_put k e' (tr_entries (wo_registry w))) (wo_registry w)) s).
Proof.
  intros Hk Hr Hg Hl. apply moves_quiet; [|done]. intros e0 He0. assert (Hg0 := He0). apply entry_get in Hg0 as [Hg0 Hr0].
  unfold entry. cbn [wo_registry tr_entries set_tr_entries]. rewrite btree_get_put.
  destruct (decide (key reference = k)) as [<-|Hne].
  - rewrite Hk in Hg0 |- *. injection Hg0 as ->. exists e'. split; [|done]. cbn.
    unfold TerminalRef_fences. by rewrite bool_decide_eq_true_2 by congruence.
  - exists e0. split; [|done]. rewrite Hg0. unfold TerminalRef_fences. by rewrite bool_decide_eq_true_2.
Qed.

Lemma reclaim_moves order needed reference w : moves reference w (reclaim order needed w).
Proof.
  revert needed w. induction order as [|k order IH]; intros needed w; cbn [reclaim]; [by apply moves_id|].
  destruct (_ =? _)%N; [by apply moves_id|].
  destruct (btree_get k (tr_entries (wo_registry w))) as [e|] eqn:Ee; [|by apply moves_id].
  cbv zeta. assert (Ht := trim_sized (N.of_nat (en_screen_cells e) - needed) e (wo_shared w)).
  destruct (trim_screen _ (e, wo_shared w)) as [e1 s1]. destruct Ht as ([_ ? _]&?&?).
  eapply moves_trans; [by apply (put_moves k e e1 reference w s1)|]. apply IH.
Qed.

Lemma register_moves r g reference w : moves reference w (register r g w).2.
Proof.
  unfold register.
  destruct (btree_get (key r) (tr_entries (wo_registry w))) eqn:Eg; [by apply moves_id|].
  destruct (screen_dimensions g) as [rows cols]. cbv zeta.
  set (w1 := if _ && _ then reclaim_screen_cells _ w else w).
  assert (H1 : moves reference w w1) by (unfold w1; destruct (_ && _); [apply reclaim_moves|by apply moves_id]).
  clearbody w1. destruct (negb _); [done|].
  intros e He. destruct (H1 e He) as (e1 & x & He1 & Hl & Hg). exists e1, x. split_and!; [|done|done].
  unfold entry in *. cbn [wo_registry tr_entries set_tr_entries snd]. rewrite btree_get_insert_ne; [done|].
  intros Hk. destruct (btree_get (key reference) (tr_entries (wo_registry w))) eqn:E; [|done]. congruence.
Qed.

Lemma forget_moves r reference w : r <> reference -> moves reference w (forget r w).2.
Proof.
  intros Hne. apply moves_quiet.
  - intros e He. exists e. split; [|done]. assert (Hg := He). apply entry_get in Hg as [Hg Hr].
    unfold forget. destruct (entry r (wo_registry w)) as [e0|] eqn:E0; [|done].
    assert (Hk : key r <> key reference).
    { intros Hk. apply entry_get in E0 as [E0 Er]. rewrite Hk in E0. congruence. }
    unfold entry, btree_get in *. cbn [wo_registry tr_entries set_tr_entries snd].
    rewrite (kfind_retain fst); [done|]. intros y _ Hy. unfold at_key. rewrite bool_decide_eq_false_2; [done|]. congruence.
  - unfold forget. by destruct (entry r (wo_registry w)).
Qed.

Lemma op_moves op reference w : world_ok w -> forgets reference op = false ->
  moves reference w (registry_op json_length sha256 op w).2.
Proof.
  intros Hw Hf.
  assert (Hat : forall r connection client viewport,
            moves reference w (attach_client json_length r connection client viewport w).2).
  { intros. apply (on_entry_moves _ (attach_entry json_length connection client viewport _ _)).
    intros. by eapply attach_sized. }
  destruct op; cbn [registry_op]; unfold failure_of; cbn [snd].
  - apply register_moves.
  - apply Hat.
  - apply bind_moves; [apply Hat|]. intros a w1. apply bind_moves; [by apply moves_id|]. intros w2 w3.
    apply bind_moves; [by apply moves_id|]. intros. by apply moves_id.
  - apply (on_entry_moves _ (detach_entry subscription connection _)). intros. by eapply detach_sized.
  - by apply sweep_moves.
  - by apply sweep_moves.
  - apply (on_entry_moves _ (append_entry _ _ data)). intros. by eapply append_sized.
  - apply (on_entry_moves _ (resize_entry json_length g client _ _)). intros. by eapply resize_sized.
  - apply write_input_moves.
  - apply on_entry_moves. intros. by eapply clear_sized.
  - apply bind_moves; [apply on_entry_moves; intros e s r e' s' [= <- <- <-]; by apply sized_quiet|].
    intros. apply operations_moves.
  - apply on_entry_moves. intros e s r e' s' [= <- <- <-]. by apply sized_quiet.
  - unfold snapshot. apply on_entry_moves. intros e s r e' s'. cbn beta iota.
    assert (Hl := snapshot_log e (tr_checkpoint_bytes_limit (wo_registry w)) s).
    destruct (snapshot_entry _ _ _ _) as [captured s1]. destruct Hl as [Hl Hp]. intros [= <- <- <-]. by apply sized_quiet.
  - apply forget_moves. by apply bool_decide_eq_false in Hf.
Qed.

Lemma ops_move ops reference w : world_ok w -> existsb (forgets reference) ops = false ->
  moves reference w (registry_ops json_length sha256 ops w).2.
Proof.
  revert w. induction ops as [|op ops IH]; intros w Hw Hf; cbn [registry_ops]; [by apply moves_id|].
  cbn [existsb] in Hf. apply orb_false_iff in Hf as [Hf1 Hf2].
  assert (Hm := op_moves op reference w Hw Hf1). destruct (registry_op_ok json_length sha256 op w Hw) as [_ Hw1].
  destruct (registry_op json_length sha256 op w) as [f w1]. cbn [snd] in *. specialize (IH w1 Hw1 Hf2).
  destruct (registry_ops json_length sha256 ops w1) as [fs w2]. by eapply moves_trans.
Qed.

(** The geometry every client decodes at is the one the PTY has.  From the
    registration of a terminal on, whatever the clients request, attach, detach,
    lose and print, its committed geometry is the size its PTY accepted last (the
    registered size while it accepted none): a size the PTY refused, or was never
    asked to take, is never committed. *)
Theorem geometry_is_what_the_pty_accepted journal_limit cache_limit shared before reference g ops
    (w := (registry_ops json_length sha256 before
             (MkWorld (new_registry journal_limit cache_limit) shared)).2) w1
    (Hregistered : register reference g w = (Ok tt, w1))
    (Hkept : existsb (forgets reference) ops = false) :
  let w2 := (registry_ops json_length sha256 ops w1).2 in
  exists e effects, entry reference (wo_registry w2) = Some e /\
    sh_log (wo_shared w2) = sh_log (wo_shared w1) ++ effects /\
    en_geometry e = last_size reference g effects.
Proof.
  assert (Hw : world_ok w) by apply registry_ops_ok, new_registry_ok.
  destruct (register_ok reference g w (Ok tt) w1 Hw Hregistered) as [_ Hw1].
  destruct (register_entry _ _ _ _ Hregistered) as (e & He & _ & Hg).
  destruct (ops_move ops reference w1 Hw1 Hkept e He) as (e' & x & He' & Hl & Hge). rewrite Hg in Hge.
  by exists e', x.
Qed.
End geometry.

Section geometry_example.
Import RegistryExample.
Local Existing Instance cjk_width.
Let sha (l : list N) : list N := l.

(** A PTY that refuses more than six columns. *)
Local Instance narrow_pty : PtyAnswers :=
  Build_PtyAnswers (fun _ _ g => (tg_cols g <=? 6)%N) (fun _ _ => None).

Lemma geometry_is_what_the_pty_accepted_witness :
  let w1 := (register shell (MkGeometry 4 2) (empty 4)).2 in
  let w2 := (registry_ops small_json sha
    [AttachForClient shell first_lane client (Some (MkGeometry 6 3));
     ResizeTerminal shell (MkGeometry 9 3) (Some client)] w1).2 in
  exists e, entry shell (wo_registry w2) = Some e /\ en_geometry e = MkGeometry 6 3.
Proof.
  intros w1 w2.
  assert (Hreg : register shell (MkGeometry 4 2) (registry_ops small_json sha [] (empty 4)).2 = (Ok tt, w1)) by done.
  destruct (geometry_is_what_the_pty_accepted small_json sha 4 4 (MkShared counters []) [] shell (MkGeometry 4 2)
    [AttachForClient shell first_lane client (Some (MkGeometry 6 3));
     ResizeTerminal shell (MkGeometry 9 3) (Some client)] w1 Hreg eq_refl) as (e & effects & He & Hl & Hg).
  exists e. split; [exact He|]. rewrite Hg.
  assert (E : sh_log (wo_shared w2) = [PtyResized shell (MkGeometry 6 3) true; PtyResized shell (MkGeometry 9 3) false])
    by by vm_compute.
  change (sh_log (wo_shared w2) = [] ++ effects) in Hl. rewrite E in Hl. cbn in Hl. by rewrite <- Hl.
Defined.
End geometry_example.
