(* ===== verification/TerminalBudget.v ===== *)
(** * Screen retention: exact accounting, and the ceiling

    The process counter is the sum of the cells of every screen of the process.
    An operation on one terminal leaves that terminal within its own budget and
    the process within the ceiling, except for visible grids, which are never
    trimmed.  A sweep over several terminals reads the budgets once: the last
    example shows two terminals growing into the same allowance. *)
From S2P Require Export TerminalGeometry.

Section budget.
Context {U : UnicodeWidth} {P : PtyAnswers}.
Context (json_length : ScreenCheckpoint -> option N) (sha256 : list N -> list N).

Notation cells_of m := (foldr (fun ke n => N.of_nat (en_screen_cells ke.2) + n)%N 0%N m).
Notation own w := (retained_screen_cells (wo_registry w)).

(** ** Sums over the entries *)
Lemma cells_put k e e' (m : list (string * Entry)) : btree_get k m = Some e ->
  (cells_of (btree_put k e' m) + N.of_nat (en_screen_cells e) =
   cells_of m + N.of_nat (en_screen_cells e'))%N.
Proof.
  unfold btree_get, btree_put. induction m as [|[k0 e0] m IH]; cbn [find_first update_first]; [done|].
  destruct (at_key fst k (k0, e0)); cbn.
  - intros [= ->]. lia.
  - intros H. specialize (IH H). lia.
Qed.

Lemma cells_insert k e (m : list (string * Entry)) : btree_get k m = None ->
  cells_of (btree_insert k e m) = (N.of_nat (en_screen_cells e) + cells_of m)%N.
Proof.
  intros H. assert (Hp := btree_insert_Permutation k e m H).
  assert (Hc : forall l l' : list (string * Entry), l ≡ₚ l' -> cells_of l = cells_of l').
  { induction 1; cbn; lia. }
  rewrite (Hc _ _ Hp). done.
Qed.

Lemma cells_remove k e (m : list (string * Entry)) : NoDup (fst <$> m) -> btree_get k m = Some e ->
  (cells_of (retain (fun ke => negb (at_key fst k ke)) m) + N.of_nat (en_screen_cells e) = cells_of m)%N.
Proof.
  unfold btree_get. induction m as [|[k0 e0] m IH]; cbn [find_first retain]; [done|].
  cbn [fmap list_fmap]. intros [Hf Hn]%list.NoDup_cons.
  destruct (at_key fst k (k0, e0)) eqn:Ek; cbn.
  - apply (at_key_true fst k (k0, e0)) in Ek. cbn in Ek, Hf. subst k0. intros [= ->].
    rewrite retain_all; [lia|]. intros ke Hke. apply negb_true_iff, (at_key_false fst k ke). intros <-.
    by apply Hf, list_elem_of_fmap_2.
  - intros H. specialize (IH Hn H). lia.
Qed.

(** ** The counter is exact *)
Definition balanced (w w' : World) : Prop := forall others,
  pc (wo_shared w) = ((others + own w) mod U64_MODULUS)%N ->
  pc (wo_shared w') = ((others + own w') mod U64_MODULUS)%N.

Lemma balanced_id w w' : tr_entries (wo_registry w') = tr_entries (wo_registry w) ->
  pc (wo_shared w') = pc (wo_shared w) -> balanced w w'.
Proof. unfold balanced, retained_screen_cells. intros -> ->. done. Qed.

Lemma balanced_trans w1 w2 w3 : balanced w1 w2 -> balanced w2 w3 -> balanced w1 w3.
Proof. intros H1 H2 others H. by apply H2, H1. Qed.

Lemma cells_get_le k e (m : list (string * Entry)) : btree_get k m = Some e ->
  (N.of_nat (en_screen_cells e) <= cells_of m)%N.
Proof.
  unfold btree_get. induction m as [|[k0 e0] m IH]; [done|]. cbn [find_first].
  destruct (at_key fst k (k0, e0)); cbn; [intros [= ->]; lia|]. intros H. specialize (IH H). lia.
Qed.

Lemma put_balanced k e e' w s : btree_get k (tr_entries (wo_registry w)) = Some e ->
  accounted e (wo_shared w) e' s ->
  balanced w (MkWorld (set_tr_entries (btree_put k e' (tr_entries (wo_registry w))) (wo_registry w)) s).
Proof.
  intros Hk Ha others. assert (Hp := cells_put k e e' _ Hk). assert (Hle := cells_get_le k e _ Hk).
  unfold retained_screen_cells. cbn [wo_registry tr_entries set_tr_entries wo_shared].
  revert Hp Hle. generalize (cells_of (tr_entries (wo_registry w))) as before.
  generalize (cells_of (btree_put k e' (tr_entries (wo_registry w)))) as after. intros after before Hp Hle H.
  replace (others + after)%N with ((others + before - N.of_nat (en_screen_cells e)) + N.of_nat (en_screen_cells e'))%N by lia.
  apply Ha. rewrite H. f_equal. lia.
Qed.

Lemma on_entry_balanced {A} r (body : st (Entry * Shared) Failure A) w :
  (forall e s r e' s', body (e, s) = (r, (e', s')) -> sized e s e' s') -> balanced w (on_entry r body w).2.
Proof.
  intros Hbody. unfold on_entry. destruct (entry r (wo_registry w)) as [e|] eqn:Ee; [|by apply balanced_id].
  apply entry_get in Ee as [Eg Er]. destruct (body (e, wo_shared w)) as [r1 [e1 s1]] eqn:Eb.
  apply (put_balanced (key r) e e1 w s1); [done|]. by apply (sz_cells _ _ _ _ (Hbody _ _ _ _ _ Eb)).
Qed.

Lemma bind_balanced {A B} (c : st World Failure A) (k : A -> st World Failure B) w :
  balanced w (c w).2 -> (forall a w1, balanced w1 (k a w1).2) -> balanced w (st_bind c k w).2.
Proof.
  intros Hc Hk. rewrite st_bind_snd. destruct ((c w).1); [|done]. eapply balanced_trans; [done|]. apply Hk.
Qed.

Lemma operations_balanced {A} (f : InputOperationLedger -> A * InputOperationLedger) w :
  balanced w (on_operations f w).2.
Proof. unfold on_operations. destruct (f _) as [a l]. by apply balanced_id. Qed.

Lemma sweep_cells f entries s others :
  (forall e s, let '(e', s') := f (e, s) in sized e s e' s') ->
  pc s = ((others + cells_of entries) mod U64_MODULUS)%N ->
  let '(entries', s') := sweep f entries s in pc s' = ((others + cells_of entries') mod U64_MODULUS)%N.
Proof.
  intros Hf. revert s others. induction entries as [|[k e] entries IH]; intros s others H; cbn [sweep]; [done|].
  assert (H0 := Hf e s). destruct (f (e, s)) as [e1 s1]. assert (Ha := sz_cells _ _ _ _ H0).
  cbn in H. specialize (IH s1 (others + N.of_nat (en_screen_cells e1))%N).
  destruct (sweep f entries s1) as [rest s2]. cbn. rewrite N.add_assoc. apply IH.
  replace (others + N.of_nat (en_screen_cells e1) + cells_of entries)%N
    with (others + cells_of entries + N.of_nat (en_screen_cells e1))%N by lia.
  apply Ha. rewrite H. f_equal. lia.
Qed.

Lemma sweep_balanced keep w : balanced w (sweep_connections keep w).
Proof.
  intros others H. unfold sweep_connections.
  assert (Hs := sweep_cells (keep_connections keep (screen_budgets w)) (tr_entries (wo_registry w)) (wo_shared w)
                  others (keep_sized keep (screen_budgets w)) H).
  by destruct (sweep _ _ _).
Qed.

Lemma reclaim_balanced order needed w : balanced w (reclaim order needed w).
Proof.
  revert needed w. induction order as [|k order IH]; intros needed w; cbn [reclaim]; [by apply balanced_id|].
  destruct (_ =? _)%N; [by apply balanced_id|].
  destruct (btree_get k (tr_entries (wo_registry w))) as [e|] eqn:Ee; [|by apply balanced_id].
  cbv zeta. assert (Ht := trim_sized (N.of_nat (en_screen_cells e) - needed) e (wo_shared w)).
  destruct (trim_screen _ (e, wo_shared w)) as [e1 s1]. destruct Ht as ([Ha _ _]&_&_).
  eapply balanced_trans; [by apply (put_balanced k e e1 w s1)|]. apply IH.
Qed.

Lemma register_balanced r g w : world_ok w -> balanced w (register r g w).2.
Proof.
  intros Hw. unfold register.
  destruct (btree_get (key r) (tr_entries (wo_registry w))) eqn:Eg; [by apply balanced_id|].
  destruct (screen_dimensions g) as [rows cols]. cbv zeta.
  set (w1 := if _ && _ then reclaim_screen_cells _ w else w).
  assert (H1 : balanced w w1) by (unfold w1; destruct (_ && _); [apply reclaim_balanced|by apply balanced_id]).
  assert (Hfree : btree_get (key r) (tr_entries (wo_registry w1)) = None).
  { unfold w1. destruct (_ && _); [|done]. apply btree_get_keys. unfold reclaim_screen_cells.
    rewrite (proj1 (proj2 (reclaim_ok _ _ _ Hw))). by apply btree_get_keys. }
  clearbody w1. destruct (negb _); [done|]. eapply balanced_trans; [exact H1|]. intros others H. cbn [snd].
  unfold retained_screen_cells in *. cbn [wo_registry tr_entries set_tr_entries wo_shared].
  rewrite cells_insert by done. cbn [en_screen_cells new_entry].
  unfold pc, reserve_screen_cells in *. cbn in *. rewrite H, fetch_add_mod. f_equal. lia.
Qed.

Lemma forget_balanced r w : world_ok w -> balanced w (forget r w).2.
Proof.
  intros [Hn _] others H. unfold forget. destruct (entry r (wo_registry w)) as [e|] eqn:Ee; [|done].
  apply entry_get in Ee as [Eg _]. assert (Hr := cells_remove _ _ _ Hn Eg).
  unfold retained_screen_cells in *. cbn [wo_registry tr_entries set_tr_entries wo_shared snd] in *.
  revert Hr H. generalize (cells_of (tr_entries (wo_registry w))) as before.
  generalize (cells_of (retain (fun ke => negb (at_key fst (key r) ke)) (tr_entries (wo_registry w)))) as after.
  intros after before Hr H. unfold pc, release_screen_cells in *. cbn. rewrite H, <- Hr, N.add_assoc. apply fetch_sub_mod.
Qed.

Lemma write_input_balanced r input bytes now w : balanced w (write_input sha256 r input bytes now w).2.
Proof.
  apply bind_balanced; [unfold lookup_input; destruct (ir_operation input); [apply operations_balanced|by apply balanced_id]|].
  intros found w1. destruct found; [| |by apply balanced_id].
  2: { apply on_entry_balanced. intros e s r0 e' s' [= <- <- <-]. by apply sized_quiet. }
  apply bind_balanced; [by apply balanced_id|]. intros w2 w3.
  apply bind_balanced; [apply on_entry_balanced; intros; by eapply write_sized|]. intros [ack written] w4.
  apply bind_balanced; [|intros; by apply balanced_id]. destruct written; [|by apply balanced_id].
  unfold record_input. destruct (ir_operation input); [apply operations_balanced|by apply balanced_id].
Qed.

Lemma op_balanced op w : world_ok w -> balanced w (registry_op json_length sha256 op w).2.
Proof.
  intros Hw.
  assert (Hat : forall r connection client viewport, balanced w (attach_client json_length r connection client viewport w).2).
  { intros. apply (on_entry_balanced _ (attach_entry json_length connection client viewport _ _)).
    intros. by eapply attach_sized. }
  destruct op; cbn [registry_op]; unfold failure_of; cbn [snd].
  - by apply register_balanced.
  - apply Hat.
  - apply bind_balanced; [apply Hat|]. intros a w1. apply bind_balanced; [by apply balanced_id|]. intros w2 w3.
    apply bind_balanced; [by apply balanced_id|]. intros. by apply balanced_id.
  - apply (on_entry_balanced _ (detach_entry subscription connection _)). intros. by eapply detach_sized.
  - apply sweep_balanced.
  - apply sweep_balanced.
  - apply (on_entry_balanced _ (append_entry _ _ data)). intros. by eapply append_sized.
  - apply (on_entry_balanced _ (resize_entry json_length g client _ _)). intros. by eapply resize_sized.
  - apply write_input_balanced.
  - apply on_entry_balanced. intros. by eapply clear_sized.
  - apply bind_balanced; [apply on_entry_balanced; intros e s r e' s' [= <- <- <-]; by apply sized_quiet|].
    intros. apply operations_balanced.
  - apply on_entry_balanced. intros e s r e' s' [= <- <- <-]. by apply sized_quiet.
  - unfold snapshot. apply on_entry_balanced. intros e s r e' s'. cbn beta iota.
    assert (Hl := snapshot_log json_length e (tr_checkpoint_bytes_limit (wo_registry w)) s).
    destruct (snapshot_entry _ _ _ _) as [captured s1]. destruct Hl as [Hl Hp]. intros [= <- <- <-].
    by apply sized_quiet.
  - by apply forget_balanced.
Qed.

Lemma ops_balanced ops w : world_ok w -> balanced w (registry_ops json_length sha256 ops w).2.
Proof.
  revert w. induction ops as [|op ops IH]; intros w Hw; cbn [registry_ops]; [by apply balanced_id|].
  assert (Hm := op_balanced op w Hw). destruct (registry_op_ok json_length sha256 op w Hw) as [_ Hw1].
  destruct (registry_op json_length sha256 op w) as [f w1]. cbn [snd] in *. specialize (IH w1 Hw1).
  destruct (registry_ops json_length sha256 ops w1) as [fs w2]. by eapply balanced_trans.
Qed.

(** The cells of every screen of a registry, counted afresh. *)
Definition screen_cells (r : TerminalRegistry) : N :=
  foldr (fun ke n => N.of_nat (VtScreen.retained_cells (en_screen ke.2)) + n)%N 0%N (tr_entries r).

Lemma own_counts w : world_ok w -> own w = screen_cells (wo_registry w).
Proof.
  intros [_ Hf]. unfold retained_screen_cells, screen_cells. induction Hf as [|ke m [_ Hk] Hf IH]; cbn; [done|].
  by rewrite IH, (eo_cells _ _ Hk).
Qed.

(** ** The ceiling *)

(** What an operation on one entry may leave it with: what it had, its budget,
    or its visible grids. *)
Definition held (budgets : ScreenBudgets) (e e' : Entry) : Prop :=
  (N.of_nat (en_screen_cells e') <=
   N.max (N.of_nat (en_screen_cells e))
     (N.max (budget_of budgets (en_screen_cells e)) (N.of_nat (visible_cells (en_screen e')))))%N.

Lemma held_same budgets e e' : en_screen_cells e' = en_screen_cells e -> held budgets e e'.
Proof. unfold held. intros ->. lia. Qed.

Lemma trim_buffer_grid keep b : sb_grid (trim_buffer keep b).1 = sb_grid b.
Proof. unfold trim_buffer. by destruct (trim_rows keep (sb_scrollback b)). Qed.

Lemma visible_trim n s : visible_cells (trim_to_cells n s).1 = visible_cells s.
Proof.
  unfold trim_to_cells, visible_cells. set (keep := ((_ - _) / _)%N). clearbody keep.
  destruct (trim_buffer keep (vs_live s)) as [live dropped].
  change (vs_primary_screen (set_live live s)) with (vs_primary_screen s).
  destruct (vs_primary_screen s) as [p|] eqn:E; [|cbn; by rewrite E].
  assert (Hg := trim_buffer_grid keep p). destruct (trim_buffer keep p) as [p' d']. cbn in *. by rewrite Hg.
Qed.

Lemma enforce_held budgets e s : settled (en_screen e) ->
  held budgets e (enforce_screen_budget budgets (e, s)).1.
Proof.
  intros Hs. unfold enforce_screen_budget, held. cbv zeta. cbn [fst].
  destruct (account_screen (e, s)) as [e1 s1] eqn:Ea. cbn [fst].
  assert (E1 : en_screen e1 = en_screen e) by by injection Ea as <- _.
  set (budget := budget_of budgets (en_screen_cells e)).
  destruct (N.leb_spec (N.of_nat (en_screen_cells e1)) budget) as [Hle|Hgt]; [cbn [fst]; lia|].
  unfold trim_screen. assert (Hw := trim_within budget (en_screen e1)). assert (Hv := visible_trim budget (en_screen e1)).
  destruct (trim_to_cells budget (en_screen e1)) as [screen dropped]. cbn [fst] in *.
  rewrite E1 in *. specialize (Hw (settled_cols _ Hs)). cbn. rewrite Hv. lia.
Qed.

Lemma commit_held g budgets e s : settled (en_screen e) -> held budgets e (commit_geometry g budgets (e, s)).1.
Proof.
  intros H. unfold commit_geometry. destruct (screen_dimensions g) as [rows cols].
  apply (resize_settled rows cols) in H.
  apply (enforce_held budgets (set_en_screen (VtScreen.resize rows cols (en_screen e))
    (set_en_revision (en_revision e + 1) (set_en_geometry g e))) s H).
Qed.

Lemma reconcile_held requester budgets e s : settled (en_screen e) ->
  held budgets e (reconcile_geometry requester budgets (e, s)).1.
Proof.
  intros H. unfold reconcile_geometry. case_bool_decide; [by apply held_same|].
  destruct (requested_geometry _) as [g|]; [|by apply held_same]. case_bool_decide; [by apply held_same|].
  destruct (negb _); [by apply held_same|]. destruct (pty_resize _ _ _); [|by apply held_same].
  by apply (commit_held g budgets (prune_viewports requester e)).
Qed.

(** The fields that decide [held]. *)
Lemma held_then budgets e e1 e2 : en_screen_cells e2 = en_screen_cells e1 -> en_screen e2 = en_screen e1 ->
  held budgets e e1 -> held budgets e e2.
Proof. unfold held. by intros -> ->. Qed.

Lemma held_before budgets e e1 e2 : en_screen_cells e1 = en_screen_cells e -> held budgets e1 e2 -> held budgets e e2.
Proof. unfold held. by intros ->. Qed.

Lemma attach_held connection client viewport bytes_limit budgets e s r e' s' : settled (en_screen e) ->
  attach_entry json_length connection client viewport bytes_limit budgets (e, s) = (r, (e', s')) -> held budgets e e'.
Proof.
  intros H. unfold attach_entry. set (moved := match client with Some c => _ | None => _ end).
  assert (Hm : held budgets e moved.1).
  { unfold moved. destruct client as [c|]; [|by apply held_same].
    by apply (reconcile_held (Some c) budgets (claim_viewport c viewport e)). }
  destruct moved as [e1 s1]. cbn [fst] in Hm.
  destruct (snapshot_entry json_length e1 bytes_limit s1) as [captured s2].
  destruct captured as [snap|error]; [|by intros [= <- <- <-]].
  destruct (fst <$> _); cbn; intros [= <- <- <-]; (eapply held_then; [| |exact Hm]); by destruct client.
Qed.

Lemma detach_held subscription connection budgets e s r e' s' : settled (en_screen e) ->
  detach_entry subscription connection budgets (e, s) = (r, (e', s')) -> held budgets e e'.
Proof.
  intros H. unfold detach_entry. destruct (find_first _ _) as [a|]; [|intros [= <- <- <-]; by apply held_same].
  destruct (connected connection a); [|intros [= <- <- <-]; by apply held_same].
  set (e1 := set_en_attachments _ e). assert (Hr := reconcile_held None budgets e1 s H).
  destruct (reconcile_geometry None budgets (e1, s)) as [e2 s2]. by intros [= <- <- <-].
Qed.

Lemma resize_held g client bytes_limit budgets e s r e' s' : settled (en_screen e) ->
  resize_entry json_length g client bytes_limit budgets (e, s) = (r, (e', s')) -> held budgets e e'.
Proof.
  intros H. unfold resize_entry. case_bool_decide; [intros [= <- <- <-]; by apply held_same|].
  set (e1 := match client with Some c => prune_viewports _ _ | None => e end).
  assert (H1 : en_screen_cells e1 = en_screen_cells e /\ en_screen e1 = en_screen e) by (unfold e1; by destruct client).
  clearbody e1. destruct H1 as [Hc1 Hs1].
  destruct (apply_target _ budgets (e1, s)) as [r2 [e2 s2]] eqn:Ea.
  assert (H2 : held budgets e1 e2).
  { revert Ea. unfold apply_target. set (target := default g _).
    case_bool_decide; [intros [= <- <- <-]; by apply held_same|].
    destruct (negb _); [intros [= <- <- <-]; by apply held_same|]. cbv zeta.
    destruct (pty_resize _ _ _); [|intros [= <- <- <-]; by apply held_same].
    set (s0 := record_effect _ s). assert (Hc := commit_held target budgets e1 s0 ltac:(by rewrite Hs1)).
    destruct (commit_geometry _ _ _) as [e3 s3]. by intros [= <- <- <-]. }
  apply (held_before budgets e e1) in H2; [|done].
  destruct r2 as [[]|failure]; [|by intros [= <- <- <-]].
  set (e3 := match client with Some c => stay_current _ c e2 | None => e2 end).
  assert (H3 : held budgets e e3) by (eapply held_then; [| |exact H2]; unfold e3; by destruct client). clearbody e3.
  destruct (snapshot_entry json_length e3 bytes_limit s2) as [captured s3]. by intros [= <- <- <-].
Qed.

Lemma append_held limit budgets data e s r e' s' : entry_ok limit e ->
  append_entry limit budgets data (e, s) = (r, (e', s')) -> held budgets e e'.
Proof.
  intros H. unfold append_entry. assert (Ht := advance_replies_total data (en_screen e) (eo_screen _ _ H)).
  destruct (advance_with_replies data (en_screen e)) as [[screen replies]|]; [|done]. cbn [total fst] in Ht.
  assert (Hh := enforce_held budgets (set_en_screen screen e) s Ht).
  destruct (enforce_screen_budget budgets (set_en_screen screen e, s)) as [e1 s1]. cbn [fst] in Hh.
  apply (held_before budgets e) in Hh; [|done].
  set (e2 := set_en_next_offset _ e1).
  assert (Hj : forall output e3 s3, journal_append limit output (e2, s1) = Some (e3, s3) ->
            en_screen_cells e3 = en_screen_cells e1 /\ en_screen e3 = en_screen e1).
  { intros output e3 s3. unfold journal_append. destruct (limit <=? _)%N; [by intros [= <- <-]|].
    destruct (update_last _ _); (destruct (_ <? _)%N; [|by intros [= <- <-]]);
      (destruct (drop_front _ _); [|done]); by intros [= <- <-]. }
  destruct (journal_append limit _ (e2, s1)) as [[e3 s3]|] eqn:Ej.
  - intros [= <- <- <-]. destruct (Hj _ _ _ Ej). by eapply held_then.
  - intros [= <- <- <-]. by eapply held_then.
Qed.

(** The operations on one terminal that can make its screen grow. *)
Definition grows_one (op : RegistryOp) : option TerminalRef :=
  match op with
  | AppendOutput r _ | ResizeTerminal r _ _ | Attach r _ | AttachForClient r _ _ _ | Detach r _ _ => Some r
  | _ => None
  end.

Lemma on_entry_held {A} r (body : st (Entry * Shared) Failure A) w e budgets :
  world_ok w -> entry r (wo_registry w) = Some e ->
  (forall s r e' s', body (e, s) = (r, (e', s')) -> sized e s e' s' /\ held budgets e e') ->
  exists e', entry r (wo_registry (on_entry r body w).2) = Some e' /\ held budgets e e' /\
    (own (on_entry r body w).2 + N.of_nat (en_screen_cells e) = own w + N.of_nat (en_screen_cells e'))%N.
Proof.
  intros Hw He Hbody. destruct (body (e, wo_shared w)) as [r1 [e1 s1]] eqn:Eb.
  destruct (Hbody _ _ _ _ Eb) as [Hs Hh]. assert (Hg := He). apply entry_get in Hg as [Hg Hr].
  assert (H := on_entry_entry r body w r e He). rewrite Eb, decide_True in H by done. cbn [fst snd] in H.
  exists e1. split_and!; [apply H; intros _; rewrite (sz_reference _ _ _ _ Hs); congruence|done|].
  unfold on_entry. rewrite He, Eb. by apply cells_put.
Qed.

(** C13: retention stays within the budgets.  The process counter is exactly the
    sum of the cells of every screen; an operation on one terminal leaves that
    terminal with no more than it had, or its own budget, and the process with no
    more than it had, or the ceiling; the only excess are the visible grids of
    that terminal, which are never trimmed. *)
Theorem screens_stay_within_the_ceiling journal_limit cache_limit counters before op reference e others
    (w := (registry_ops json_length sha256 before
             (MkWorld (new_registry journal_limit cache_limit) (MkShared counters []))).2)
    (w' := (registry_op json_length sha256 op w).2)
    (Hothers : pc_retained_screen_cells counters = others)
    (Hroom : (others + screen_cells (wo_registry w) < U64_MODULUS)%N)
    (Hop : grows_one op = Some reference) (Hentry : entry reference (wo_registry w) = Some e) :
  pc_retained_screen_cells (output_pipeline_counters w) = (others + screen_cells (wo_registry w))%N /\
  pc_retained_screen_cells (output_pipeline_counters w') =
    ((others + screen_cells (wo_registry w')) mod U64_MODULUS)%N /\
  exists e', entry reference (wo_registry w') = Some e' /\
    let cells := N.of_nat (VtScreen.retained_cells (en_screen e)) in
    let cells' := N.of_nat (VtScreen.retained_cells (en_screen e')) in
    let visible := N.of_nat (visible_cells (en_screen e')) in
    (cells' <= N.max (N.max cells SCREEN_CELLS_PER_TERMINAL_MAX) visible)%N /\
    (others + screen_cells (wo_registry w') <=
     N.max (N.max (others + screen_cells (wo_registry w)) SCREEN_CELLS_AGGREGATE_MAX)
       (others + (screen_cells (wo_registry w) - cells) + visible))%N.
Proof.
  assert (Hw : world_ok w) by apply registry_ops_ok, new_registry_ok.
  assert (Hw' : world_ok w') by by apply registry_op_ok.
  assert (Hb0 : pc (wo_shared w) = ((others + own w) mod U64_MODULUS)%N).
  { apply ops_balanced; [apply new_registry_ok|]. cbn. unfold pc. cbn. rewrite N.add_0_r.
    rewrite N.mod_small; [done|]. lia. }
  assert (Hb1 := op_balanced op w Hw others Hb0). fold w' in Hb1.
  rewrite !own_counts in * by done. rewrite (N.mod_small _ _ Hroom) in Hb0.
  split; [exact Hb0|]. split; [exact Hb1|].
  assert (Hset : settings w = settings (MkWorld (new_registry journal_limit cache_limit) (MkShared counters [])))
    by apply ops_settings. unfold settings in Hset. cbn in Hset. injection Hset as _ _ _ Hpt Hag Hsh.
  set (budgets := screen_budgets w).
  assert (Hbud : bu_per_terminal budgets = SCREEN_CELLS_PER_TERMINAL_MAX /\
                 bu_process_aggregate budgets = SCREEN_CELLS_AGGREGATE_MAX /\
                 bu_retained_cells budgets = (others + screen_cells (wo_registry w))%N).
  { unfold budgets, screen_budgets. cbn. rewrite Hpt, Hag, Hsh. split_and!; [done|done|exact Hb0]. }
  assert (He := entry_kept _ _ _ Hw Hentry). assert (Hs := eo_screen _ _ He).
  assert (Hgrown : exists e', entry reference (wo_registry w') = Some e' /\ held budgets e e' /\
    (own w' + N.of_nat (en_screen_cells e) = own w + N.of_nat (en_screen_cells e'))%N).
  { assert (Hat : forall connection client viewport, let w2 := (attach_client json_length reference connection client viewport w).2 in
      exists e', entry reference (wo_registry w2) = Some e' /\ held budgets e e' /\
        (own w2 + N.of_nat (en_screen_cells e) = own w + N.of_nat (en_screen_cells e'))%N).
    { intros. apply (on_entry_held reference (attach_entry json_length connection client viewport _ budgets)); [done|done|].
      intros. split; [by eapply attach_sized|by eapply attach_held]. }
    unfold w'. destruct op; try discriminate Hop; cbn [grows_one] in Hop; injection Hop as ->;
      cbn [registry_op]; unfold failure_of; cbn [snd].
    - apply Hat.
    - assert (Hl : (attach_for_client json_length reference connection client viewport w).2 =
                   (attach_client json_length reference connection (Some client) viewport w).2).
      { unfold attach_for_client. rewrite st_bind_snd.
        destruct (attach_client json_length reference connection (Some client) viewport w) as [[a|f] w2]; [|done].
        unfold st_bind, st_get, st_lift. cbn. by destruct (reading _ _ _). }
      rewrite Hl. apply Hat.
    - apply (on_entry_held reference (detach_entry subscription connection budgets)); [done|done|].
      intros. split; [by eapply detach_sized|by eapply detach_held].
    - apply (on_entry_held reference (append_entry _ budgets data)); [done|done|].
      intros. split; [by eapply append_sized|by eapply append_held].
    - apply (on_entry_held reference (resize_entry json_length g client _ budgets)); [done|done|].
      intros. split; [by eapply resize_sized|by eapply resize_held]. }
  destruct Hgrown as (e' & He' & Hh & Hsum). exists e'. split; [done|].
  rewrite !own_counts in Hsum by done. unfold held, budget_of in Hh.
  destruct Hbud as (E1 & E2 & E3). rewrite E1, E2, E3 in Hh.
  assert (Hle : (N.of_nat (en_screen_cells e) <= screen_cells (wo_registry w))%N).
  { rewrite <- own_counts by done. apply entry_get in Hentry as [Hget _]. by apply cells_get_le in Hget. }
  rewrite (eo_cells _ _ He), (eo_cells _ _ (entry_kept _ _ _ Hw' He')) in *. cbv zeta.
  clear - Hh Hsum Hle. split; lia.
Qed.
End budget.

(** ** Sweeps share one allowance *)
Section ceiling_example.
Import RegistryExample.
Local Existing Instance cjk_width.
Local Existing Instance quiet_pty.
Let sha (l : list N) : list N := l.
Let step := registry_ops small_json sha.

(** A window of eight by five cells and one of five by two share two terminals
    under a ceiling of sixty cells. *)
Definition wide : Geometry := MkGeometry 8 5.
Definition narrow : Geometry := MkGeometry 5 2.
Definition tight (per_terminal : N) : World :=
  MkWorld (with_screen_cell_budgets per_terminal 60 (new_registry 64 4)) (MkShared counters []).
Definition shared_panes : list RegistryOp :=
  [Register (terminal "t1") narrow; Register (terminal "t2") narrow;
   AttachForClient (terminal "t1") first_lane client (Some wide);
   AttachForClient (terminal "t1") second_lane other_client (Some narrow);
   AttachForClient (terminal "t2") first_lane client (Some wide);
   AttachForClient (terminal "t2") second_lane other_client (Some narrow)].

(** Detaching the small window from each terminal in turn keeps the ceiling: the
    second terminal finds no room to grow.  Losing its connection does not: both
    terminals are measured against the allowance of before the sweep. *)
Example disconnect_exceeds_the_ceiling :
  screen_cells (wo_registry (step shared_panes (tight 200)).2) = 20%N /\
  screen_cells (wo_registry (step (shared_panes ++
    [Detach (terminal "t1") 2 second_lane; Detach (terminal "t2") 2 second_lane]) (tight 200)).2) = 50%N /\
  screen_cells (wo_registry (step (shared_panes ++ [Disconnect second_lane]) (tight 200)).2) = 80%N.
Proof. split_and!; by vm_compute. Qed.

(** Entering the alternate screen doubles the visible grid, past the budget of
    the terminal and past the ceiling. *)
Example alternate_screen_exceeds_the_ceiling :
  screen_cells (wo_registry (step
    [Register shell wide; AppendOutput shell [27; 91; 63; 49; 48; 52; 57; 104]%N] (tight 50)).2) = 80%N.
Proof. by vm_compute. Qed.

Definition printed_line : list RegistryOp :=
  [Register shell (MkGeometry 4 2); AttachForClient shell first_lane client None].

Lemma screens_stay_within_the_ceiling_witness :
  let w := (step printed_line (MkWorld (new_registry 16 4) (MkShared counters []))).2 in
  let w' := (step [AppendOutput shell [104; 105; 13; 10; 111; 10; 111; 10; 111]%N] w).2 in
  pc_retained_screen_cells (output_pipeline_counters w') = 16%N /\
  (screen_cells (wo_registry w') <= SCREEN_CELLS_AGGREGATE_MAX)%N.
Proof.
  intros w w'. split; [by vm_compute|].
  assert (He : is_Some (entry shell (wo_registry w))) by (vm_compute; by eexists).
  destruct He as [e He].
  destruct (screens_stay_within_the_ceiling small_json sha 16 4 counters printed_line
    (AppendOutput shell [104; 105; 13; 10; 111; 10; 111; 10; 111]%N) shell e 0 eq_refl) as (_ & Hpc & _);
    [by vm_compute|done|exact He|].
  change (screen_cells (wo_registry w') <= SCREEN_CELLS_AGGREGATE_MAX)%N.
  vm_compute. intros H. discriminate H.
Defined.
End ceiling_example.
