(* ===== verification/TerminalSnapshot.v ===== *)
(** * A snapshot always fits the frame, and restores the daemon's screen

    [checkpoint_within] drops the oldest half of the history until the payload
    fits.  The loop ends, the payload it returns fits, and a client that decodes
    it holds the daemon's screen without its oldest history rows. *)
From S2P Require Export TerminalLife.

(** ** What trimming a checkpoint does to the decoded screen *)
Definition drop_history (n : nat) (b : ScreenBuffer) : ScreenBuffer :=
  set_sb_scrollback (drop n (sb_scrollback b))
    (set_sb_scrollback_origin (saturating_add (sb_scrollback_origin b) (N.of_nat n)) b).

(** [live] rows less of the live buffer, [saved] of the saved primary. *)
Definition forget_history (live saved : nat) (s : VtScreen) : VtScreen :=
  set_primary_screen (drop_history saved <$> vs_primary_screen s) (on_live (drop_history live) s).

Lemma saturating_add_add a b c : saturating_add (saturating_add a b) c = saturating_add a (b + c).
Proof. unfold saturating_add. lia. Qed.

Lemma drop_history_app n m b : drop_history m (drop_history n b) = drop_history (n + m) b.
Proof. destruct b. unfold drop_history. cbn. by rewrite drop_drop, saturating_add_add, Nat2N.inj_add. Qed.

Lemma forget_history_app l1 s1 l2 s2 s :
  forget_history l2 s2 (forget_history l1 s1 s) = forget_history (l1 + l2) (s1 + s2) s.
Proof.
  unfold forget_history, on_live. destruct s as [? ? live ? ? ? ? ? ? ? ? ? ? primary ?]. cbn.
  rewrite drop_history_app. destruct primary as [p|]; cbn; [by rewrite drop_history_app|done].
Qed.

Section snapshot.
Context {U : UnicodeWidth} {P : PtyAnswers}.

Lemma collect_drop {A B} (f : A -> result CheckpointError B) n l out :
  collect f l = Ok out -> collect f (drop n l) = Ok (drop n out).
Proof.
  revert n out. induction l as [|a l IH]; intros n out; cbn.
  - intros [= <-]. by rewrite !drop_nil.
  - intros H. apply res_bind_Ok in H as (b & Hb & H). apply res_bind_Ok in H as (bs & Hbs & H). injection H as <-.
    destruct n as [|n]; cbn; [|by apply IH]. rewrite Hb, Hbs. done.
Qed.

Lemma collect_length {A B} (f : A -> result CheckpointError B) l out : collect f l = Ok out -> length out = length l.
Proof.
  revert out. induction l as [|a l IH]; intros out; cbn; [by intros [= <-]|].
  intros H. apply res_bind_Ok in H as (b & Hb & H). apply res_bind_Ok in H as (bs & Hbs & H). injection H as <-.
  cbn. by rewrite (IH bs).
Qed.

Lemma decode_halved rows cols styles cp b : decode_buffer rows cols styles cp = Ok b ->
  decode_buffer rows cols styles (halve_buffer cp).1 = Ok (drop_history (halve_buffer cp).2 b) /\
  length (sb_scrollback b) = length (bc_scrollback cp).
Proof.
  unfold halve_buffer, drop_oldest_half. set (n := (_ + 1) / 2). cbn [fst snd]. unfold decode_buffer.
  intros H. apply res_bind_Ok in H as (u1 & E1 & H). apply res_bind_Ok in H as (u2 & E2 & H).
  apply res_bind_Ok in H as (u3 & E3 & H). apply res_bind_Ok in H as (u4 & E4 & H).
  apply res_bind_Ok in H as (u5 & E5 & H). destruct (bc_scroll_region cp) as [top bottom] eqn:Er.
  apply res_bind_Ok in H as (u6 & E6 & H). apply res_bind_Ok in H as (grid & E7 & H).
  apply res_bind_Ok in H as (scrollback & E8 & H). injection H as <-.
  cbn [bc_grid bc_scrollback bc_scrollback_origin bc_cursor bc_saved_cursor bc_scroll_region bc_style_id].
  split; [|by apply (collect_length _ _ _ E8)].
  rewrite E1. cbn [res_bind]. apply require_Ok in E2. apply N.leb_le in E2.
  rewrite (proj2 (N.leb_le _ _)) by (rewrite length_drop; lia). cbn [require res_bind].
  rewrite E3. cbn [res_bind]. rewrite E4. cbn [res_bind]. rewrite E5. cbn [res_bind]. rewrite E6. cbn [res_bind].
  rewrite E7. cbn [res_bind]. rewrite (collect_drop _ n _ _ E8). cbn [res_bind]. by destruct u1, u2.
Qed.

Lemma validated_buffers cp primary alternate :
  match alternate with Some _ => true | None => false end =
  match sc_alternate cp with Some _ => true | None => false end ->
  validated_geometry (set_sc_buffers primary alternate cp) = validated_geometry cp.
Proof. intros H. unfold validated_geometry. cbn. by rewrite H. Qed.

(** Rows in the history of the buffer shown, and of the primary saved under it. *)
Lemma from_checkpoint_halved cp s : from_checkpoint cp = Ok s ->
  exists live saved, from_checkpoint (halve_history cp).1 = Ok (forget_history live saved s).
Proof.
  intros H. unfold from_checkpoint in H. apply res_bind_Ok in H as ([rows cols] & Hv & H).
  apply res_bind_Ok in H as (prim & Hprim & H). apply res_bind_Ok in H as (alt & Halt & H). cbn zeta in H.
  destruct (decode_halved _ _ _ _ _ Hprim) as [Hp _]. unfold halve_history.
  destruct (halve_buffer (sc_primary cp)) as [primary dropped]. cbn [fst snd] in Hp.
  destruct (sc_alternate cp) as [acp|] eqn:Ea.
  - destruct (decode_buffer rows cols (sc_styles cp) acp) as [ab|] eqn:Eab; cbn in Halt; [|done]. injection Halt as <-.
    destruct (decode_halved _ _ _ _ _ Eab) as [Hal _].
    destruct (halve_buffer acp) as [alternate adropped]. cbn [fst snd] in Hal.
    exists adropped, dropped. cbn [fst]. unfold from_checkpoint.
    rewrite validated_buffers by (by rewrite Ea). rewrite Hv. cbn [res_bind sc_primary sc_styles sc_alternate set_sc_buffers].
    rewrite Hp. cbn [res_bind]. rewrite Hal. cbn [map_ok res_bind]. cbn zeta. by injection H as <-.
  - injection Halt as <-. exists dropped, 0. cbn [fst]. unfold from_checkpoint.
    rewrite validated_buffers by (by rewrite Ea). rewrite Hv. cbn [res_bind sc_primary sc_styles sc_alternate set_sc_buffers].
    rewrite Hp. cbn [res_bind]. cbn zeta. by injection H as <-.
Qed.

(** ** The loop *)
Context (json_length : ScreenCheckpoint -> option N).
Notation checkpoint_bytes := (checkpoint_bytes json_length).

Lemma half_le n : (n + 1) / 2 <= n.
Proof. destruct n as [|n]; [done|]. assert (H := Nat.Div0.div_le_upper_bound (S n + 1) 2 (S n)). lia. Qed.
Lemma half_zero n : (n + 1) / 2 = 0 -> n = 0.
Proof. intros H. apply Nat.div_small_iff in H; lia. Qed.

Lemma halve_history_rows cp :
  history_rows (halve_history cp).1 + (halve_history cp).2 = history_rows cp /\
  ((halve_history cp).2 = 0 -> history_rows cp = 0).
Proof.
  unfold halve_history, history_rows, halve_buffer, drop_oldest_half.
  set (p := bc_scrollback (sc_primary cp)). assert (Hp := half_le (length p)). assert (Zp := half_zero (length p)).
  destruct (sc_alternate cp) as [a|]; cbn [fst snd sc_primary sc_alternate set_sc_buffers bc_scrollback from_option].
  - set (q := bc_scrollback a). assert (Hq := half_le (length q)). assert (Zq := half_zero (length q)).
    rewrite !length_drop. lia.
  - rewrite length_drop. lia.
Qed.

(** The same payload with some of its oldest history dropped. *)
Inductive trimmed : ScreenCheckpoint -> ScreenCheckpoint -> Prop :=
| trimmed_none cp : trimmed cp cp
| trimmed_half cp cp' : trimmed (halve_history cp).1 cp' -> trimmed cp cp'.

Lemma fit_checkpoint_spec fuel limit cp s : history_rows cp < fuel ->
  exists r s', fit_checkpoint json_length fuel limit cp s = Some (r, s') /\
  match r with
  | Ok cp' => (checkpoint_bytes cp' <= limit)%N /\ trimmed cp cp'
  | Err e => e = CheckpointUnavailable /\
      exists bare, trimmed cp bare /\ history_rows bare = 0 /\ (limit < checkpoint_bytes bare)%N
  end.
Proof.
  revert cp s. induction fuel as [|fuel IH]; intros cp s Hf; [lia|]. cbn [fit_checkpoint].
  destruct (N.ltb_spec limit (checkpoint_bytes cp)) as [Hover|Hfit].
  2: { eexists _, _. split; [done|]. split; [done|constructor]. }
  destruct (halve_history_rows cp) as [Hrows Hzero]. assert (Hone := trimmed_half cp).
  destruct (halve_history cp) as [cp1 dropped] eqn:Eh. cbn [fst snd] in *.
  destruct (Nat.eqb_spec dropped 0) as [->|Hd].
  - eexists _, _. split; [done|]. split; [done|]. exists cp. split_and!; [constructor|by apply Hzero|done].
  - destruct (IH cp1 (add_checkpoint_trimmed (N.of_nat dropped) s)) as (r & s' & -> & Hr); [lia|].
    exists r, s'. split; [done|]. destruct r as [cp'|e].
    + destruct Hr as [Hb Ht]. split; [done|]. by apply Hone.
    + destruct Hr as (-> & bare & Ht & Hz & Hb). split; [done|]. exists bare. split_and!; [by apply Hone|done|done].
Qed.

Lemma checkpoint_within_total screen limit s : let '(r, s') := checkpoint_within json_length screen limit s in
  match r with
  | Ok cp => (checkpoint_bytes cp <= limit)%N /\ trimmed (checkpoint screen) cp
  | Err e => e = CheckpointUnavailable /\
      exists bare, trimmed (checkpoint screen) bare /\ history_rows bare = 0 /\ (limit < checkpoint_bytes bare)%N
  end.
Proof.
  unfold checkpoint_within.
  destruct (fit_checkpoint_spec (S (history_rows (checkpoint screen))) limit (checkpoint screen) s)
    as (r & s' & -> & Hr); [lia|]. done.
Qed.

Lemma trimmed_restores cp cp' s : trimmed cp cp' -> from_checkpoint cp = Ok s ->
  from_checkpoint cp' = Ok s \/ exists live saved, from_checkpoint cp' = Ok (forget_history live saved s).
Proof.
  intros Ht. revert s. induction Ht as [cp|cp cp' Ht IH]; intros s Hs; [by left|].
  destruct (from_checkpoint_halved cp s Hs) as (l1 & s1 & H1). right.
  destruct (IH _ H1) as [H|(l2 & s2 & H)]; [by exists l1, s1|].
  exists (l1 + l2), (s1 + s2). by rewrite H, forget_history_app.
Qed.

(** A snapshot always ends, fits and restores.  The trimming loop of a
    snapshot ends; the payload it returns fits the frame budget, and a client
    that decodes it holds exactly the daemon's screen at the snapshot's offset,
    short of some of the oldest history rows and of nothing else.  The registry
    gives up with [CheckpointUnavailable] only when the payload without any
    history is still too large; in no case is an oversized payload returned. *)
Theorem snapshot_fits_and_restores limit e bytes_limit s (Hentry : entry_ok limit e) :
  match (snapshot_entry json_length e bytes_limit s).1 with
  | Ok snapshot =>
      (checkpoint_bytes (sn_screen snapshot) <= bytes_limit)%N /\
      sn_output_offset snapshot = en_next_offset e /\ sn_geometry snapshot = en_geometry e /\
      exists restored, from_checkpoint (sn_screen snapshot) = Ok restored /\
        (restored = en_screen e \/ exists live saved, restored = forget_history live saved (en_screen e)) /\
        sb_grid (vs_live restored) = sb_grid (vs_live (en_screen e)) /\
        vs_scrollback restored `suffix_of` vs_scrollback (en_screen e)
  | Err error =>
      error = CheckpointUnavailable /\
      exists bare, trimmed (checkpoint (en_screen e)) bare /\ history_rows bare = 0 /\
        (bytes_limit < checkpoint_bytes bare)%N
  end.
Proof.
  unfold snapshot_entry. assert (Hc := checkpoint_within_total (en_screen e) bytes_limit s).
  destruct (checkpoint_within json_length (en_screen e) bytes_limit s) as [[cp|error] s']; cbn [fst map_ok]; [|exact Hc].
  destruct Hc as [Hfit Ht]. cbn [sn_screen sn_output_offset sn_geometry]. split_and!; [done|done|done|].
  destruct (eo_screen _ _ Hentry) as [Hok Hm]. assert (Hr := checkpoint_restores (en_screen e) Hok Hm).
  destruct (trimmed_restores _ _ _ Ht Hr) as [H|(live & saved & H)].
  - exists (en_screen e). split_and!; [done|by left|done|done].
  - exists (forget_history live saved (en_screen e)). split_and!; [done|right; by exists live, saved|done|].
    cbn. exists (take live (vs_scrollback (en_screen e))). by rewrite take_drop.
Qed.
End snapshot.

(** ** A history that does not fit *)
Section snapshot_example.
Import RegistryExample.
Local Existing Instance cjk_width.
Local Existing Instance quiet_pty.

(** Ten bytes, and five more per row of history. *)
Definition row_json (cp : ScreenCheckpoint) : option N := Some (10 + 5 * N.of_nat (history_rows cp))%N.
Definition budgets : ScreenBudgets := MkScreenBudgets 100 100 0.
Definition lines : list N := [97; 13; 10; 98; 13; 10; 99; 13; 10; 100]%N.
Definition printed : Entry :=
  (append_entry 16 budgets lines (new_entry shell (MkGeometry 4 2) (VtScreen.new 2 4), MkShared counters [])).2.1.

Lemma snapshot_fits_and_restores_witness :
  length (vs_scrollback (en_screen printed)) = 2 /\
  exists snapshot restored, (snapshot_entry row_json printed 15 (MkShared counters [])).1 = Ok snapshot /\
    from_checkpoint (sn_screen snapshot) = Ok restored /\
    sb_grid (vs_live restored) = sb_grid (vs_live (en_screen printed)).
Proof.
  split; [by vm_compute|].
  assert (Hok : entry_ok 16 printed).
  { destruct (append_entry 16 budgets lines (new_entry shell (MkGeometry 4 2) (VtScreen.new 2 4), MkShared counters []))
      as [r [e s]] eqn:E.
    change printed with
      (append_entry 16 budgets lines (new_entry shell (MkGeometry 4 2) (VtScreen.new 2 4), MkShared counters [])).2.1.
    rewrite E. cbn [fst snd].
    exact (proj1 (proj2 (append_entry_ok _ _ _ _ _ _ _ _ (new_entry_ok 16 shell (MkGeometry 4 2) 2 4) E))). }
  assert (H := snapshot_fits_and_restores row_json 16 printed 15 (MkShared counters []) Hok).
  destruct (snapshot_entry row_json printed 15 (MkShared counters [])) as [[snapshot|error] s'] eqn:E; cbn [fst] in H.
  - destruct H as (_ & _ & _ & restored & Hr & _ & Hg & _). exists snapshot, restored. split; [reflexivity|]. split; [exact Hr|exact Hg].
  - exfalso. apply (f_equal (fun p => is_ok p.1)) in E. revert E. vm_compute. intros E. discriminate E.
Defined.
End snapshot_example.
