(* ===== verification/TerminalLaunch.v ===== *)
(** * Launch vocabulary of terminals ([crates/core/src/domain/terminal_launch.rs])

    What a client may ask for (a profile and a scope, never a command), what is
    saved before the spawn, and the digest that decides whether two launches are
    the same request.  A [String] and a [PathBuf] are byte strings. *)
From S2P Require Export Visibility.
From stdpp Require Import pretty.

(** [str::bytes] *)
Definition bytes_of (s : string) : list N := Ascii.N_of_ascii <$> String.list_ascii_of_string s.
Definition is_ascii_lowercase (b : N) : bool := (97 <=? b)%N && (b <=? 122)%N.
Definition is_ascii_uppercase (b : N) : bool := (65 <=? b)%N && (b <=? 90)%N.
Definition is_ascii_digit (b : N) : bool := (48 <=? b)%N && (b <=? 57)%N.
Definition contains_byte (b : N) (s : string) : bool := existsb (N.eqb b) (bytes_of s).

Inductive TerminalLaunchValidationError : Type :=
| InvalidProfileId | InvalidProfileRevision | InvalidProgram | InvalidWorkingDirectory
| InvalidEnvironment
| UnknownProfile (profile_id : string) | DisabledProfile (profile_id : string)
| ProfileRevisionMismatch (expected actual : N) | SnapshotSchemaMismatch (expected actual : N)
| LaunchScopeMismatch.

(** ** Identifiers *)
Record TerminalProfileId := MkTerminalProfileId { profile_id_text : string }.
#[export] Instance terminal_profile_id_eq_dec : EqDecision TerminalProfileId.
Proof. solve_decision. Defined.

Definition profile_byte (b : N) : bool := is_ascii_lowercase b || is_ascii_digit b || (b =? 45)%N.

Definition TerminalProfileId_new (value : string) : result TerminalLaunchValidationError TerminalProfileId :=
  if negb (String.length value =? 0) && (String.length value <=? 64) && forallb profile_byte (bytes_of value)
  then Ok (MkTerminalProfileId value) else Err InvalidProfileId.

(** [crates/core/src/domain/agent/mod.rs] *)
Record EnvironmentVariableName := MkEnvironmentVariableName { variable_name_text : string }.
#[export] Instance environment_variable_name_eq_dec : EqDecision EnvironmentVariableName.
Proof. solve_decision. Defined.
#[export] Instance environment_variable_name_countable : Countable EnvironmentVariableName.
Proof. apply (inj_countable' variable_name_text MkEnvironmentVariableName). by intros []. Defined.

Definition is_ascii_alphabetic (b : N) : bool := is_ascii_lowercase b || is_ascii_uppercase b.
Definition EnvironmentVariableName_new (value : string) : option EnvironmentVariableName :=
  match bytes_of value with
  | first :: rest =>
      if (is_ascii_alphabetic first || (first =? 95)%N) &&
         forallb (fun b => is_ascii_alphabetic b || is_ascii_digit b || (b =? 95)%N) rest
      then Some (MkEnvironmentVariableName value) else None
  | [] => None
  end.

(** ** Requests *)
Record TerminalLaunchScope := MkTerminalLaunchScope {
  ls_workspace_id : WorkspaceId;
  ls_session_id : option SessionId;
  ls_worktree_id : WorktreeId
}.
#[export] Instance terminal_launch_scope_eq_dec : EqDecision TerminalLaunchScope.
Proof. solve_decision. Defined.

Record TerminalLaunchRequest := MkTerminalLaunchRequest {
  lr_profile_id : TerminalProfileId;
  lr_scope : TerminalLaunchScope
}.
#[export] Instance terminal_launch_request_eq_dec : EqDecision TerminalLaunchRequest.
Proof. solve_decision. Defined.

(** [format!("v1|{profile}|{workspace}|{session}|{worktree}|{cols}x{rows}")] *)
Definition canonical_launch_digest (request : TerminalLaunchRequest) (cols rows : N) : string :=
  let scope := lr_scope request in
  ("v1|" +:+ profile_id_text (lr_profile_id request) +:+
   "|" +:+ Ids.as_str (ls_workspace_id scope) +:+
   "|" +:+ from_option Ids.as_str "root" (ls_session_id scope) +:+
   "|" +:+ Ids.as_str (ls_worktree_id scope) +:+
   "|" +:+ pretty cols +:+ "x" +:+ pretty rows)%string.

Record TerminalInventoryEntry := MkTerminalInventoryEntry {
  ti_terminal : TerminalRef;
  ti_kind : TerminalKind;
  ti_live : bool
}.

(** ** What is saved before a spawn, and what is spawned *)
Record DurableTerminalLaunchSnapshot := MkDurableTerminalLaunchSnapshot {
  dl_schema_version : N;
  dl_request : TerminalLaunchRequest;
  dl_profile_revision : N;
  dl_program : string;
  dl_arguments : list string;
  dl_working_directory : string;
  dl_environment_allowlist : gset EnvironmentVariableName
}.

Definition LAUNCH_SCHEMA_VERSION : N := 1.

Definition DurableTerminalLaunchSnapshot_new (request : TerminalLaunchRequest) (profile_revision : N)
    (program : string) (arguments : list string) (working_directory : string)
    (environment_allowlist : gset EnvironmentVariableName)
    : result TerminalLaunchValidationError DurableTerminalLaunchSnapshot :=
  if (profile_revision =? 0)%N then Err InvalidProfileRevision
  else if (String.length program =? 0) || contains_byte 0 program || existsb (contains_byte 0) arguments
  then Err InvalidProgram
  else if String.length working_directory =? 0 then Err InvalidWorkingDirectory
  else Ok (MkDurableTerminalLaunchSnapshot LAUNCH_SCHEMA_VERSION request profile_revision program arguments
             working_directory environment_allowlist).

Record ResolvedTerminalLaunch := MkResolvedTerminalLaunch {
  rt_snapshot : DurableTerminalLaunchSnapshot;
  rt_environment : gmap EnvironmentVariableName string
}.

Definition ResolvedTerminalLaunch_new (snapshot : DurableTerminalLaunchSnapshot)
    (environment : gmap EnvironmentVariableName string)
    : result TerminalLaunchValidationError ResolvedTerminalLaunch :=
  if negb (bool_decide (dom environment ⊆ dl_environment_allowlist snapshot)) ||
     existsb (fun nv => contains_byte 0 nv.2) (map_to_list environment)
  then Err InvalidEnvironment
  else Ok (MkResolvedTerminalLaunch snapshot environment).
