(* ===== verification/GenericTerminal.v ===== *)
(** * The owner of the shell terminals
    ([crates/daemon/src/usecase/generic_terminal.rs],
    [terminal_retention_ipc.rs])

    A coordinator owns PTYs, one durable record for each, the [TerminalRegistry]
    that holds their screens, and a handle to the retention ledger every owner of
    the daemon shares.

    - [&mut self] is [st Coordinator CoordinatorFailure]: a failure is an error
      the source returns, or a panic.  The state holds the log of what the host
      was asked for and what it answered; [HostAnswers] is the host.
    - The retention ledger is shared behind a mutex; what its other owners do
      happens between two operations.  Every operation reads the clock at most
      once, so an instant is an argument.
    - Records are kept in the order of their keys, the order of the [BTreeMap]. *)
From S2P Require Export TerminalRegistry TerminalRetention TerminalLaunch.
From S2P Require Import Generation.

(** ** Errors *)
(** [resources/mod.rs] *)
Inductive StoreError : Type := StoreUnavailable | StoreRetentionBackpressure.
Inductive SpawnFailure : Type := DefiniteSpawnFailure | AmbiguousSpawnFailure.

Module GenericTerminalError.
Inductive t : Type :=
| Launch (error : TerminalLaunchValidationError)
| TerminalAlreadyExists
| ScopeMismatch
| ConcurrencyExhausted
| Terminal (error : RegistryError)
| Store
| RetentionBackpressure
| InvalidSnapshot
| SpawnFailed
| ReconcileRequired (state : TerminalReconcileState)
| UnknownTerminal
| TerminalGenerationMismatch
| RetentionExhausted (rejection : AdmissionRejection)
| FinalEvicted (reason : EvictionReason).
End GenericTerminalError.

Inductive CoordinatorFailure : Type :=
| Returned (error : GenericTerminalError.t)
| CoordinatorPanicked.

(** ** Durable records *)
Record DurableTerminalRecord := MkDurableTerminalRecord {
  dr_terminal : TerminalRef;
  dr_operation : CompletionFence;
  dr_launch : DurableTerminalLaunchSnapshot;
  dr_state : TerminalRuntimeState;
  dr_process : option ProcessIdentity;
  dr_launch_digest : option string
}.

Definition set_dr_state (v : TerminalRuntimeState) (r : DurableTerminalRecord) : DurableTerminalRecord :=
  MkDurableTerminalRecord (dr_terminal r) (dr_operation r) (dr_launch r) v (dr_process r) (dr_launch_digest r).
Definition set_dr_process (v : option ProcessIdentity) (r : DurableTerminalRecord) : DurableTerminalRecord :=
  MkDurableTerminalRecord (dr_terminal r) (dr_operation r) (dr_launch r) (dr_state r) v (dr_launch_digest r).

Record TerminalStoreSnapshot := MkTerminalStoreSnapshot {
  ts_schema_version : N;
  ts_records : list DurableTerminalRecord
}.
Definition STORE_SCHEMA_VERSION : N := 1.
Definition TerminalStoreSnapshot_default : TerminalStoreSnapshot :=
  MkTerminalStoreSnapshot STORE_SCHEMA_VERSION [].

(** The guard of the loop of [validate], for one record. *)
Definition record_agrees (r : DurableTerminalRecord) : bool :=
  let terminal := dr_terminal r in
  let scope := lr_scope (dl_request (dr_launch r)) in
  (dl_schema_version (dr_launch r) =? LAUNCH_SCHEMA_VERSION)%N &&
  bool_decide (tr_workspace_id terminal = ls_workspace_id scope) &&
  bool_decide (tr_session_id terminal = ls_session_id scope) &&
  bool_decide (tr_worktree_id terminal = ls_worktree_id scope) &&
  bool_decide (tr_workspace_id terminal = cf_workspace_id (dr_operation r)) &&
  bool_decide (tr_session_id terminal = cf_session_id (dr_operation r)) &&
  bool_decide (tr_daemon_generation terminal = cf_owner_daemon_generation (dr_operation r)).

Fixpoint records_agree (seen : gset string) (records : list DurableTerminalRecord) : bool :=
  match records with
  | [] => true
  | r :: records =>
      negb (bool_decide (key (dr_terminal r) ∈ seen)) && record_agrees r &&
      records_agree ({[key (dr_terminal r)]} ∪ seen) records
  end.

Definition validate (s : TerminalStoreSnapshot) : bool :=
  (ts_schema_version s =? STORE_SCHEMA_VERSION)%N && records_agree ∅ (ts_records s).

(** The states whose PTY died with the daemon that owned it. *)
Definition interrupted_state (s : TerminalRuntimeState) : bool :=
  match s with Reserved | Running | ReconcileRequired _ => true | _ => false end.

Definition reconcile_record (r : DurableTerminalRecord) : DurableTerminalRecord :=
  if interrupted_state (dr_state r) then set_dr_state (ReconcileRequired IdentityUnknown) r else r.

Definition reconcile_after_daemon_restart (s : TerminalStoreSnapshot)
    : result GenericTerminalError.t (TerminalStoreSnapshot * nat) :=
  if negb (validate s) then Err GenericTerminalError.InvalidSnapshot
  else Ok (MkTerminalStoreSnapshot (ts_schema_version s) (reconcile_record <$> ts_records s),
           count (fun r => interrupted_state (dr_state r)) (ts_records s)).

(** ** The host: the store and the processes *)
Inductive HostEffect : Type :=
| Saved (snapshot : TerminalStoreSnapshot) (answer : option StoreError)
| SpawnAsked (terminal : TerminalRef) (launch : ResolvedTerminalLaunch) (geometry : Geometry)
    (answer : result SpawnFailure ProcessIdentity)
| ReapAsked (terminal : TerminalRef) (reaped : bool).

Class HostAnswers := {
  host_save : list HostEffect -> TerminalStoreSnapshot -> option StoreError;
  host_spawn : list HostEffect -> ResolvedTerminalLaunch -> TerminalRef -> Geometry ->
               result SpawnFailure ProcessIdentity;
  host_reap : list HostEffect -> TerminalRef -> bool
}.

(** [TerminalProfileResolver::resolve], at the time of the launch. *)
Definition Resolver : Type :=
  TerminalLaunchRequest -> result TerminalLaunchValidationError ResolvedTerminalLaunch.

Definition RESTORED_FINAL_BYTES : N := 512.

Record Coordinator := MkCoordinator {
  co_limit : nat;
  co_records : list (string * DurableTerminalRecord);
  co_world : World;
  co_retention : RetentionLedger;
  co_host : list HostEffect
}.

Definition set_co_records v (c : Coordinator) : Coordinator :=
  MkCoordinator (co_limit c) v (co_world c) (co_retention c) (co_host c).
Definition set_co_world v (c : Coordinator) : Coordinator :=
  MkCoordinator (co_limit c) (co_records c) v (co_retention c) (co_host c).
Definition set_co_retention v (c : Coordinator) : Coordinator :=
  MkCoordinator (co_limit c) (co_records c) (co_world c) v (co_host c).
Definition record_host x (c : Coordinator) : Coordinator :=
  MkCoordinator (co_limit c) (co_records c) (co_world c) (co_retention c) (co_host c ++ [x]).

Definition co_registry (c : Coordinator) : TerminalRegistry := wo_registry (co_world c).

Section coordinator.
Context {U : UnicodeWidth} {P : PtyAnswers} {H : HostAnswers}.
Context (json_length : ScreenCheckpoint -> option N) (sha256 : list N -> list N).

Notation act := (st Coordinator CoordinatorFailure).

(** ** Calls of the parts *)
Definition refused {A} (e : GenericTerminalError.t) : act A := st_throw (Returned e).
Definition checked {A} (r : result GenericTerminalError.t A) : act A := st_lift (map_err Returned r).

(** A call of the registry; [map_err] turns the registry's error into ours. *)
Definition on_terminals {A} (error : RegistryError -> GenericTerminalError.t) (call : st World Failure A)
    : act A := fun c =>
  let '(r, w) := call (co_world c) in
  (map_err (fun f => match f with Refused e => Returned (error e) | Panicked => CoordinatorPanicked end) r,
   set_co_world w c).

Definition on_retention {A} (call : RetentionLedger -> A * RetentionLedger) : act A := fun c =>
  let '(a, l) := call (co_retention c) in (Ok a, set_co_retention l c).

Definition on_records (f : list (string * DurableTerminalRecord) -> list (string * DurableTerminalRecord))
    : act unit := st_modify (fun c => set_co_records (f (co_records c)) c).

(** [records.get_mut(&key).expect("reserved record")] and an assignment. *)
Definition expect_record (k : string) (f : DurableTerminalRecord -> DurableTerminalRecord) : act unit :=
  c <-! st_get ;;
  match btree_get k (co_records c) with
  | None => st_throw CoordinatorPanicked
  | Some r => on_records (btree_put k (f r))
  end.

(** [outcome = call; if outcome.is_err() { cleanup }]: an error the call returns
    is kept, a panic is not. *)
Definition st_try {A} (call : act A) : act (result GenericTerminalError.t A) := fun c =>
  match call c with
  | (Ok a, c) => (Ok (Ok a), c)
  | (Err (Returned e), c) => (Ok (Err e), c)
  | (Err CoordinatorPanicked, c) => (Err CoordinatorPanicked, c)
  end.

(** ** Reading the records *)
Definition store_snapshot (c : Coordinator) : TerminalStoreSnapshot :=
  MkTerminalStoreSnapshot STORE_SCHEMA_VERSION (snd <$> co_records c).

Definition missing (terminal : TerminalRef) (c : Coordinator) : GenericTerminalError.t :=
  match TerminalLedger.lookup_final terminal (co_retention c) with
  | Evicted marker => GenericTerminalError.FinalEvicted (em_reason marker)
  | _ => GenericTerminalError.UnknownTerminal
  end.

Definition record (terminal : TerminalRef) (c : Coordinator)
    : result GenericTerminalError.t DurableTerminalRecord :=
  match btree_get (key terminal) (co_records c) with
  | Some r => if TerminalRef_fences (dr_terminal r) terminal then Ok r else Err (missing terminal c)
  | None => Err (missing terminal c)
  end.

Definition running (terminal : TerminalRef) (c : Coordinator) : result GenericTerminalError.t unit :=
  r <-? record terminal c ;;
  match dr_state r with
  | Running => Ok tt
  | Exited | Reclaimed => Err (GenericTerminalError.Terminal ExitedTerminal)
  | _ => Err (GenericTerminalError.ReconcileRequired IdentityUnknown)
  end.

Definition replayable (terminal : TerminalRef) (c : Coordinator) : result GenericTerminalError.t unit :=
  r <-? record terminal c ;;
  match dr_state r with
  | Running | Exited => Ok tt
  | _ => Err (GenericTerminalError.ReconcileRequired IdentityUnknown)
  end.

Definition occupies (s : TerminalRuntimeState) : bool :=
  match s with Reserved | Running | ReconcileRequired _ => true | _ => false end.

Definition occupied_slots (c : Coordinator) : nat :=
  count (fun kr => occupies (dr_state kr.2)) (co_records c).

Definition ensure_launch_capacity (c : Coordinator) : result GenericTerminalError.t unit :=
  if co_limit c <=? occupied_slots c then Err GenericTerminalError.ConcurrencyExhausted else Ok tt.

Definition launch_by_operation (operation : OperationId) (c : Coordinator) : option DurableTerminalRecord :=
  snd <$> find_first (fun kr => bool_decide (cf_operation_id (dr_operation kr.2) = operation)) (co_records c).

Definition validate_scope (request : TerminalLaunchRequest) (terminal : TerminalRef)
    (operation : CompletionFence) : result GenericTerminalError.t unit :=
  let scope := lr_scope request in
  if bool_decide (ls_workspace_id scope = tr_workspace_id terminal) &&
     bool_decide (ls_session_id scope = tr_session_id terminal) &&
     bool_decide (ls_worktree_id scope = tr_worktree_id terminal) &&
     bool_decide (tr_workspace_id terminal = cf_workspace_id operation) &&
     bool_decide (tr_session_id terminal = cf_session_id operation) &&
     bool_decide (tr_daemon_generation terminal = cf_owner_daemon_generation operation)
  then Ok tt else Err GenericTerminalError.ScopeMismatch.

(** ** The store *)
Definition persist : act unit := fun c =>
  let snapshot := store_snapshot c in
  let answer := host_save (co_host c) snapshot in
  (match answer with
   | None => Ok tt
   | Some StoreUnavailable => Err (Returned GenericTerminalError.Store)
   | Some StoreRetentionBackpressure => Err (Returned GenericTerminalError.RetentionBackpressure)
   end, record_host (Saved snapshot answer) c).

(** [let _ = self.persist(store)] *)
Definition persist_quietly : act unit := _ <-! st_try persist ;; st_ret tt.

(** ** Collection *)
Definition collected_final (l : RetentionLedger) (r : DurableTerminalRecord) : bool :=
  match dr_state r, TerminalLedger.lookup_final (dr_terminal r) l with
  | Exited, Evicted _ => true
  | _, _ => false
  end.

Definition remove_record (k : string) : act unit :=
  on_records (retain (fun kr => negb (at_key fst k kr))).

Definition forget_terminal (terminal : TerminalRef) : act unit :=
  st_modify (fun c => set_co_world (TerminalRegistry.forget terminal (co_world c)).2 c).

Definition collect_garbage : act nat :=
  c <-! st_get ;;
  let collected := (dr_terminal ∘ snd) <$> retain (fun kr => collected_final (co_retention c) kr.2) (co_records c) in
  st_iter (fun terminal => remove_record (key terminal) ;;; forget_terminal terminal) collected ;;;
  (if length collected =? 0 then st_ret tt else persist_quietly) ;;;
  st_ret (length collected).

(** ** Launch *)
Definition resolved_for (request : TerminalLaunchRequest) (resolved : ResolvedTerminalLaunch) : bool :=
  bool_decide (dl_request (rt_snapshot resolved) = request) &&
  (dl_schema_version (rt_snapshot resolved) =? LAUNCH_SCHEMA_VERSION)%N.

(** The match on the answer of the spawner. *)
Definition after_spawn (k : string) (answer : result SpawnFailure ProcessIdentity) : act unit :=
  match answer with
  | Ok process =>
      expect_record k (fun r => set_dr_state Running (set_dr_process (Some process) r)) ;;;
      saved <-! st_try persist ;;
      if is_ok saved then st_ret tt
      else
        expect_record k (set_dr_state (ReconcileRequired PersistAfterSpawn)) ;;;
        refused (GenericTerminalError.ReconcileRequired PersistAfterSpawn)
  | Err DefiniteSpawnFailure =>
      expect_record k (set_dr_state SpawnFailed) ;;;
      persist ;;;
      refused GenericTerminalError.SpawnFailed
  | Err AmbiguousSpawnFailure =>
      expect_record k (set_dr_state (ReconcileRequired SpawnAmbiguous)) ;;;
      persist ;;;
      refused (GenericTerminalError.ReconcileRequired SpawnAmbiguous)
  end.

Definition spawn (resolved : ResolvedTerminalLaunch) (terminal : TerminalRef) (g : Geometry)
    : act (result SpawnFailure ProcessIdentity) := fun c =>
  let answer := host_spawn (co_host c) resolved terminal g in
  (Ok answer, record_host (SpawnAsked terminal resolved g answer) c).

Definition launch_admitted (request : TerminalLaunchRequest) (terminal : TerminalRef)
    (operation : CompletionFence) (g : Geometry) (resolve : Resolver) : act unit :=
  let k := key terminal in
  resolved <-! checked (map_err GenericTerminalError.Launch (resolve request)) ;;
  st_ensure (resolved_for request resolved) (Returned GenericTerminalError.ScopeMismatch) ;;;
  on_records (btree_insert k
    (MkDurableTerminalRecord terminal operation (rt_snapshot resolved) Reserved None
       (Some (canonical_launch_digest request (tg_cols g) (tg_rows g))))) ;;;
  saved <-! st_try persist ;;
  match saved with
  | Err GenericTerminalError.RetentionBackpressure =>
      remove_record k ;;; refused GenericTerminalError.RetentionBackpressure
  | Err e => refused e
  | Ok _ =>
      registered <-! st_try (on_terminals GenericTerminalError.Terminal (TerminalRegistry.register terminal g)) ;;
      match registered with
      | Err e =>
          expect_record k (set_dr_state SpawnFailed) ;;;
          persist ;;;
          refused e
      | Ok _ => answer <-! spawn resolved terminal g ;; after_spawn k answer
      end
  end.

Definition launch (now : DateTime) (request : TerminalLaunchRequest) (terminal : TerminalRef)
    (operation : CompletionFence) (g : Geometry) (resolve : Resolver) : act unit :=
  checked (validate_scope request terminal operation) ;;;
  c <-! st_get ;;
  st_ensure (bool_decide (btree_get (key terminal) (co_records c) = None))
    (Returned GenericTerminalError.TerminalAlreadyExists) ;;;
  checked (ensure_launch_capacity c) ;;;
  admitted <-! on_retention (TerminalLedger.reserve now terminal) ;;
  checked (map_err GenericTerminalError.RetentionExhausted admitted) ;;;
  collect_garbage ;;;
  outcome <-! st_try (launch_admitted request terminal operation g resolve) ;;
  (if is_ok outcome then st_ret false else on_retention (TerminalLedger.release terminal)) ;;;
  checked outcome.

(** ** Connections *)
Definition set_pinned (terminal : TerminalRef) : act unit :=
  c <-! st_get ;;
  on_retention (TerminalLedger.set_pinned terminal (TerminalRegistry.is_attached terminal (co_registry c))) ;;;
  st_ret tt.

Definition refresh_exited_retention_pins : act unit :=
  c <-! st_get ;;
  st_iter (fun kr => set_pinned (dr_terminal kr.2))
    (retain (fun kr => match dr_state kr.2 with Exited => true | _ => false end) (co_records c)).

Definition disconnect (connection : ConnectionId) : act unit :=
  st_modify (fun c => set_co_world (TerminalRegistry.disconnect connection (co_world c)) c) ;;;
  refresh_exited_retention_pins.

Definition retain_live_connections (live : gset ConnectionId) : act unit :=
  st_modify (fun c => set_co_world (TerminalRegistry.retain_live_connections live (co_world c)) c) ;;;
  refresh_exited_retention_pins.

(** [self.running(terminal)?], [self.record(terminal)?] *)
Definition ensure_running (terminal : TerminalRef) : act unit := c <-! st_get ;; checked (running terminal c).
Definition ensure_known (terminal : TerminalRef) : act unit :=
  c <-! st_get ;; checked (record terminal c) ;;; st_ret tt.

Definition terminal_snapshot (terminal : TerminalRef) : act Snapshot :=
  ensure_known terminal ;;;
  on_terminals GenericTerminalError.Terminal (TerminalRegistry.snapshot json_length terminal).

Definition terminal_exit_status (terminal : TerminalRef) : act (option Z) :=
  ensure_known terminal ;;;
  c <-! st_get ;;
  checked (map_err (fun _ => GenericTerminalError.TerminalGenerationMismatch)
             (TerminalRegistry.exit_status terminal (co_registry c))).

Definition attach (terminal : TerminalRef) (connection : ConnectionId) : act Attached :=
  ensure_running terminal ;;;
  on_terminals GenericTerminalError.Terminal (TerminalRegistry.attach json_length terminal connection).

Definition attach_for_client (terminal : TerminalRef) (connection : ConnectionId) (client : ClientId)
    (viewport : option Geometry) : act Attached :=
  ensure_running terminal ;;;
  on_terminals GenericTerminalError.Terminal
    (TerminalRegistry.attach_for_client json_length terminal connection client viewport).

Definition detach (terminal : TerminalRef) (subscription : N) (connection : ConnectionId) : act unit :=
  ensure_known terminal ;;;
  detached <-! st_try (on_terminals GenericTerminalError.Terminal
                         (TerminalRegistry.detach terminal subscription connection)) ;;
  set_pinned terminal ;;;
  checked detached.

(** ** Output and input *)
Definition output_with_replies (terminal : TerminalRef) (bytes : list N) : act (Output * list N) :=
  ensure_running terminal ;;;
  on_terminals GenericTerminalError.Terminal (TerminalRegistry.append_output_with_replies terminal bytes).

Definition output (terminal : TerminalRef) (bytes : list N) : act Output :=
  answered <-! output_with_replies terminal bytes ;; st_ret answered.1.

Definition resize (terminal : TerminalRef) (g : Geometry) (client : option ClientId) : act Snapshot :=
  ensure_running terminal ;;;
  on_terminals GenericTerminalError.Terminal (TerminalRegistry.resize json_length terminal g client).

(** Form feed, alone or after an interrupt. *)
Definition clears_screen (bytes : list N) : bool :=
  match bytes with [12%N] | [3%N; 12%N] => true | _ => false end.

(** [clock.now().timestamp_millis()] of an instant before 1970 counts as 0. *)
Definition now_ms (now : DateTime) : N := Z.to_N (now / 1000000).

Definition input (now : DateTime) (terminal : TerminalRef) (request : InputRequest) (bytes : list N)
    : act InputAck :=
  ensure_running terminal ;;;
  ack <-! on_terminals GenericTerminalError.Terminal
            (TerminalRegistry.write_input sha256 terminal request bytes (now_ms now)) ;;
  (match ack with
   | Written =>
       if clears_screen bytes
       then on_terminals GenericTerminalError.Terminal (TerminalRegistry.clear_primary terminal) ;;; st_ret tt
       else st_ret tt
   | _ => st_ret tt
   end) ;;;
  st_ret ack.

Definition input_outcome (now : DateTime) (terminal : TerminalRef) (client : ClientId)
    (operation : OperationId) : act (option InputAck) :=
  on_terminals GenericTerminalError.Terminal
    (TerminalRegistry.input_outcome terminal client operation (now_ms now)).

Definition replay_from (terminal : TerminalRef) (offset : N) (client : option ClientId)
    : act (list Output) :=
  c <-! st_get ;;
  checked (replayable terminal c) ;;;
  checked (map_err GenericTerminalError.Terminal
             (TerminalRegistry.replay_from terminal offset client (co_registry c))).

(** ** Exit and reconciliation *)
(** [self.record_mut(terminal)?] and an assignment. *)
Definition record_mut (terminal : TerminalRef) (f : DurableTerminalRecord -> DurableTerminalRecord) : act unit :=
  c <-! st_get ;;
  r <-! checked (record terminal c) ;;
  on_records (btree_put (key terminal) (f r)).

Definition exit (now : DateTime) (terminal : TerminalRef) (status : Z) : act unit :=
  ensure_running terminal ;;;
  on_terminals GenericTerminalError.Terminal (TerminalRegistry.exited terminal status) ;;;
  record_mut terminal (set_dr_state Exited) ;;;
  saved <-! st_try persist ;;
  if negb (is_ok saved)
  then
    record_mut terminal (set_dr_state (ReconcileRequired PersistAfterExit)) ;;;
    refused (GenericTerminalError.ReconcileRequired PersistAfterExit)
  else
    c <-! st_get ;;
    on_retention (TerminalLedger.commit_final terminal Terminal
                    (TerminalRegistry.retained_bytes terminal (co_registry c)) now) ;;;
    set_pinned terminal ;;;
    collect_garbage ;;;
    st_ret tt.

Definition observed_state (process : option ProcessIdentity) (observation : ProcessObservation.t)
    : TerminalRuntimeState :=
  match observation with
  | ProcessObservation.Gone => Reclaimed
  | ProcessObservation.VerifiedAlive actual =>
      if bool_decide (process = Some actual) then ReconcileRequired OrphanRunning
      else ReconcileRequired IdentityUnknown
  | ProcessObservation.Unknown => ReconcileRequired IdentityUnknown
  end.

Definition reconcile (terminal : TerminalRef) (observation : ProcessObservation.t) : act unit :=
  record_mut terminal (fun r => set_dr_state (observed_state (dr_process r) observation) r) ;;;
  persist.

(** ** Closing a workspace or a session *)
Definition reap (terminal : TerminalRef) : act bool := fun c =>
  let reaped := host_reap (co_host c) terminal in
  (Ok reaped, record_host (ReapAsked terminal reaped) c).

(** The first loop; the answer is [terminate_failed]. *)
Fixpoint terminate_all (targets : list DurableTerminalRecord) (failed : bool) : act bool :=
  match targets with
  | [] => st_ret failed
  | r :: targets =>
      if negb (requires_termination (dr_state r)) then terminate_all targets failed
      else
        reaped <-! reap (dr_terminal r) ;;
        if negb reaped then terminate_all targets true
        else
          record_mut (dr_terminal r) (fun r => set_dr_process None (set_dr_state Reclaimed r)) ;;;
          terminate_all targets failed
  end.

Definition drop_target (r : DurableTerminalRecord) : act unit :=
  remove_record (key (dr_terminal r)) ;;;
  forget_terminal (dr_terminal r) ;;;
  on_retention (TerminalLedger.forget (dr_terminal r)) ;;;
  st_ret tt.

Definition close_matching (selected : DurableTerminalRecord -> bool) : act nat :=
  c <-! st_get ;;
  let targets := retain selected (snd <$> co_records c) in
  failed <-! terminate_all targets false ;;
  if failed : bool then
    persist ;;;
    refused (GenericTerminalError.ReconcileRequired OrphanRunning)
  else
    st_iter drop_target targets ;;;
    persist ;;;
    st_ret (length targets).

Definition in_workspace (workspace : WorkspaceId) (r : DurableTerminalRecord) : bool :=
  bool_decide (tr_workspace_id (dr_terminal r) = workspace).
Definition in_session (session : SessionId) (r : DurableTerminalRecord) : bool :=
  bool_decide (tr_session_id (dr_terminal r) = Some session).

Definition close_workspace (workspace : WorkspaceId) : act nat := close_matching (in_workspace workspace).
Definition close_session (session : SessionId) : act nat := close_matching (in_session session).

(** ** Listings *)
Definition cache_cleanup_activity (workspace : WorkspaceId) (c : Coordinator)
    : list (TerminalRef * TerminalRuntimeState) :=
  (fun r => (dr_terminal r, dr_state r)) <$> retain (in_workspace workspace) (snd <$> co_records c).

Definition retirement_blocker_count_in_workspace (workspace : WorkspaceId) (c : Coordinator) : nat :=
  count (fun r => in_workspace workspace r && requires_termination (dr_state r)) (snd <$> co_records c).

Definition in_scope (scope : TerminalLaunchScope) (r : DurableTerminalRecord) : bool :=
  bool_decide (tr_workspace_id (dr_terminal r) = ls_workspace_id scope) &&
  bool_decide (tr_session_id (dr_terminal r) = ls_session_id scope) &&
  bool_decide (tr_worktree_id (dr_terminal r) = ls_worktree_id scope).

Definition inventory (scope : TerminalLaunchScope) (c : Coordinator) : list TerminalInventoryEntry :=
  (fun r => MkTerminalInventoryEntry (dr_terminal r) Terminal
              (match dr_state r with Running => true | _ => false end)) <$>
  retain (in_scope scope) (snd <$> co_records c).

(** [crates/core/src/domain/terminal_visibility.rs] *)
Record CompletedTerminalEntry := MkCompletedTerminalEntry {
  ct_terminal : TerminalRef;
  ct_kind : TerminalKind;
  ct_exit_status : Z;
  ct_base_offset : N;
  ct_final_output_offset : N;
  ct_visibility : TerminalVisibility
}.

Definition completed_entry (c : Coordinator) (r : DurableTerminalRecord) : option CompletedTerminalEntry :=
  match TerminalRegistry.output_window (dr_terminal r) (co_registry c) with
  | Err _ => None
  | Ok window =>
      exit_status ← ow_exited window;
      Some (MkCompletedTerminalEntry (dr_terminal r) Terminal exit_status (ow_base_offset window)
              (ow_output_offset window) unobserved)
  end.

Definition completed_inventory (scope : TerminalLaunchScope) (c : Coordinator)
    : list CompletedTerminalEntry :=
  omap (completed_entry c)
    (retain (fun r => in_scope scope r && match dr_state r with Exited => true | _ => false end)
       (snd <$> co_records c)).

(** ** Construction *)
(** The process-wide part of the world, the shared ledger and the host go on. *)
Definition with_retention (limit : nat) (journal_limit : N) (input_cache_limit : nat)
    (retention : RetentionLedger) (shared : Shared) (host : list HostEffect) : Coordinator :=
  MkCoordinator limit [] (MkWorld (new_registry journal_limit input_cache_limit) shared) retention host.

Definition unfit_for_restore (s : TerminalRuntimeState) : bool :=
  match s with
  | Reserved | Running => true
  | ReconcileRequired IdentityUnknown => false
  | ReconcileRequired _ => true
  | _ => false
  end.

Definition import_final (now : DateTime) (l : RetentionLedger) (r : DurableTerminalRecord) : RetentionLedger :=
  match dr_state r with
  | Exited =>
      TerminalLedger.import_existing (RetainedFinal_new (dr_terminal r) Terminal RESTORED_FINAL_BYTES now) l
  | _ => l
  end.

Definition from_snapshot_with_retention (limit : nat) (journal_limit : N) (input_cache_limit : nat)
    (snapshot : TerminalStoreSnapshot) (now : DateTime) (retention : RetentionLedger) (shared : Shared)
    (host : list HostEffect) : result GenericTerminalError.t Coordinator :=
  if negb (validate snapshot) || existsb (fun r => unfit_for_restore (dr_state r)) (ts_records snapshot)
  then Err GenericTerminalError.InvalidSnapshot
  else
    let records := foldl (fun m r => btree_insert (key (dr_terminal r)) r m) [] (ts_records snapshot) in
    Ok (MkCoordinator limit records (MkWorld (new_registry journal_limit input_cache_limit) shared)
          (foldl (import_final now) retention (snd <$> records)) host).
End coordinator.
