(* ===== verification/GenericTerminalLaws.v ===== *)
(** * The invariant of the owner of the shell terminals

    [inv] ties the durable records to the registry, to the retention ledger and
    to the processes: a running record has an open entry in the registry and a
    reservation in the ledger, and a PTY that may still be alive is named by a
    record that asks for its termination, in memory and in the last saved
    snapshot.  [gone] holds the terminals whose process ended or was given up. *)
From S2P Require Export TerminalReplay.
From S2P Require Export GenericTerminal RetentionSpec.
From S2P Require Import Generation.

(** ** Who is registered

    The registry as its owners see it: under each key the terminal and, once its
    process ended, the exit status.  Only [register], [exited] and [forget]
    change it. *)
Definition standing_of (k : string) (w : World) : option (TerminalRef * option Z) :=
  standing <$> btree_get k (tr_entries (wo_registry w)).

Definition same_roster (w w' : World) : Prop := forall k, standing_of k w' = standing_of k w.

Lemma same_roster_refl w : same_roster w w.
Proof. done. Qed.
Lemma same_roster_trans w1 w2 w3 : same_roster w1 w2 -> same_roster w2 w3 -> same_roster w1 w3.
Proof. intros H1 H2 k. by rewrite H2. Qed.
#[export] Hint Resolve same_roster_refl : usagi.

Lemma stream_standing e e' : stream e' = stream e -> standing e' = standing e.
Proof. unfold stream, standing. congruence. Qed.

Lemma standing_entry reference w :
  is_Some (entry reference (wo_registry w)) <-> exists x, standing_of (key reference) w = Some (reference, x).
Proof.
  unfold entry, standing_of, TerminalRef_fences. destruct (btree_get _ _) as [e|]; cbn.
  - case_bool_decide as Hd; split.
    + intros _. unfold standing. rewrite Hd. by eexists.
    + by eexists.
    + by intros [? ?].
    + intros [x [= H]]. congruence.
  - split; [by intros [? ?]|by intros [? ?]].
Qed.

Section roster.
Context {U : UnicodeWidth} {P : PtyAnswers}.
Context (json_length : ScreenCheckpoint -> option N) (sha256 : list N -> list N).

Lemma same_entries w w' : tr_entries (wo_registry w') = tr_entries (wo_registry w) -> same_roster w w'.
Proof. intros E k. unfold standing_of. by rewrite E. Qed.

Lemma put_roster k e e' w s :
  btree_get k (tr_entries (wo_registry w)) = Some e -> standing e' = standing e ->
  same_roster w (MkWorld (set_tr_entries (btree_put k e' (tr_entries (wo_registry w))) (wo_registry w)) s).
Proof.
  intros He Hs k'. unfold standing_of. cbn [wo_registry tr_entries set_tr_entries]. rewrite btree_get_put. case_decide as Hk; [|done].
  subst k'. rewrite He. cbn. by rewrite Hs.
Qed.

Lemma on_entry_roster {A} r (body : st (Entry * Shared) Failure A) w : world_ok w ->
  (forall e s a e' s', entry_ok (tr_journal_limit (wo_registry w)) e -> body (e, s) = (a, (e', s')) ->
     standing e' = standing e) ->
  same_roster w (on_entry r body w).2.
Proof.
  intros Hw Hbody. unfold on_entry. destruct (entry r (wo_registry w)) as [e|] eqn:Ee; [|done].
  assert (Ho := entry_kept _ _ _ Hw Ee). apply entry_get in Ee as [Eg Er].
  destruct (body (e, wo_shared w)) as [a [e' s']] eqn:Eb. cbn [snd]. unfold set_entry.
  eapply put_roster; [done|]. by eapply Hbody.
Qed.

Lemma bind_roster {A B} (c : st World Failure A) (k : A -> st World Failure B) w :
  fine c w -> same_roster w (c w).2 ->
  (forall a w1, world_ok w1 -> same_roster w1 (k a w1).2) -> same_roster w (st_bind c k w).2.
Proof.
  intros [_ Hw] Hc Hk. rewrite st_bind_snd. destruct ((c w).1); [|done].
  eapply same_roster_trans; [done|]. by apply Hk.
Qed.

Lemma operations_roster {A} (f : InputOperationLedger -> A * InputOperationLedger) w :
  same_roster w (on_operations f w).2.
Proof. unfold on_operations. destruct (f _) as [a l]. by apply same_entries. Qed.

Lemma sweep_roster keep w : world_ok w -> same_roster w (sweep_connections keep w).
Proof.
  intros Hw k. unfold sweep_connections, standing_of.
  assert (Hf := find_sweep (keep_connections keep (screen_budgets w)) k (tr_entries (wo_registry w)) (wo_shared w)).
  destruct (btree_get k (tr_entries (wo_registry w))) as [e|] eqn:Ee.
  - destruct Hf as [s' Hs']. destruct (sweep _ _ _) as [entries s2]. cbn in *. rewrite Hs'. cbn. f_equal.
    apply stream_standing. apply btree_get_elem in Ee. destruct Hw as [_ Hall].
    rewrite Forall_forall in Hall. by eapply keep_connections_ok, (Hall _ Ee).
  - destruct (sweep _ _ _) as [entries s2]. cbn in *. by rewrite Hf.
Qed.

Lemma reclaim_roster order needed w : world_ok w -> same_roster w (reclaim order needed w).
Proof.
  revert needed w. induction order as [|k order IH]; intros needed w Hw; cbn [reclaim]; [done|].
  destruct (_ =? _)%N; [done|]. destruct (btree_get k (tr_entries (wo_registry w))) as [e|] eqn:Ee; [|done].
  assert (Hk : kept_entry (tr_journal_limit (wo_registry w)) (k, e)).
  { apply btree_get_elem in Ee. destruct Hw as [_ Hf]. rewrite Forall_forall in Hf. by apply Hf. }
  cbv zeta. set (n := (_ - needed)%N).
  assert (Ht := trim_screened n e (wo_shared w) (eo_screen _ _ (proj2 Hk))).
  apply (trim_screen_kept _ _ n e (wo_shared w)) in Hk.
  destruct (trim_screen n (e, wo_shared w)) as [e1 s1]. cbn [fst] in Ht, Hk.
  eapply same_roster_trans; [by eapply (put_roster k e e1 w s1); [|apply stream_standing, Ht]|].
  apply IH. by apply put_ok.
Qed.

Lemma btree_get_insert {V} k (v : V) m : btree_get k (btree_insert k v m) = Some v.
Proof.
  assert (Hhead : forall rest, btree_get k ((k, v) :: rest) = Some v).
  { intros rest. unfold btree_get. cbn. unfold at_key. by rewrite bool_decide_eq_true_2. }
  induction m as [|[k1 v1] m IH]; cbn [btree_insert]; [apply Hhead|].
  destruct (String.compare k k1) eqn:Ec; [apply Hhead|apply Hhead|].
  unfold btree_get in *. cbn [find_first]. destruct (at_key fst k (k1, v1)) eqn:E; [|done].
  apply (at_key_true fst k (k1, v1)) in E. cbn in E. subst k1. by rewrite string_compare_refl in Ec.
Qed.

Lemma btree_get_remove {V} k k' (m : list (string * V)) :
  btree_get k (retain (fun kv => negb (at_key fst k' kv)) m) = if decide (k = k') then None else btree_get k m.
Proof.
  case_decide as Hk.
  - subst k'. apply btree_get_keys. intros ([k1 v1] & -> & [_ Hx]%elem_of_retain)%list_elem_of_fmap.
    unfold at_key in Hx. cbn in Hx. by rewrite bool_decide_eq_true_2 in Hx.
  - unfold btree_get. rewrite (kfind_retain fst); [done|]. intros x _ Hx.
    unfold at_key. rewrite bool_decide_eq_false_2; [done|]. congruence.
Qed.

(** ** The operations *)
Lemma register_roster t g w r w' : world_ok w -> register t g w = (r, w') ->
  match r with
  | Ok _ => standing_of (key t) w = None /\
            forall k, standing_of k w' = if decide (k = key t) then Some (t, None) else standing_of k w
  | Err e => same_roster w w'
  end.
Proof.
  intros Hw. unfold register.
  destruct (btree_get (key t) (tr_entries (wo_registry w))) eqn:Eg; [by intros [= <- <-]|].
  destruct (screen_dimensions g) as [rows cols]. cbv zeta.
  set (w1 := if _ && _ then reclaim_screen_cells _ w else w).
  assert (H1 : same_roster w w1) by (unfold w1; destruct (_ && _); [by apply reclaim_roster|done]).
  clearbody w1. destruct (negb _); intros [= <- <-]; [done|]. split.
  { unfold standing_of. by rewrite Eg. }
  intros k. rewrite <- H1. unfold standing_of. cbn [wo_registry tr_entries set_tr_entries]. case_decide as Hk.
  - subst k. by rewrite btree_get_insert.
  - by rewrite btree_get_insert_ne.
Qed.

Lemma forget_roster t w k : standing_of k (forget t w).2 =
  if decide (k = key t /\ is_Some (entry t (wo_registry w))) then None else standing_of k w.
Proof.
  unfold forget. destruct (entry t (wo_registry w)) as [e|] eqn:Ee; cbn [snd].
  - unfold standing_of. cbn [wo_registry tr_entries set_tr_entries]. rewrite btree_get_remove.
    destruct (decide (k = key t)) as [Hk|Hk]; [rewrite decide_True by auto; done|].
    by rewrite decide_False by (intros [? _]; done).
  - rewrite decide_False; [done|]. by intros [_ [? ?]].
Qed.

Lemma exited_roster t status w k : standing_of k (exited t status w).2 =
  if decide (k = key t /\ is_Some (entry t (wo_registry w))) then Some (t, Some status) else standing_of k w.
Proof.
  unfold exited, on_entry. destruct (entry t (wo_registry w)) as [e|] eqn:Ee; cbn [snd].
  - apply entry_get in Ee as [Eg Er]. unfold exit_entry, set_entry. cbn [snd].
    unfold standing_of. cbn [wo_registry tr_entries set_tr_entries]. rewrite btree_get_put. case_decide as Hk.
    + subst k. rewrite Eg, decide_True by auto. unfold standing. cbn. by rewrite Er.
    + by rewrite decide_False by (intros [? _]; done).
  - rewrite decide_False; [done|]. by intros [_ [? ?]].
Qed.

Definition quiet (op : RegistryOp) : bool :=
  match op with Register _ _ | ExitedOp _ _ | TerminalLife.Forget _ => false | _ => true end.

Ltac frame_roster lemma H :=
  apply on_entry_roster; [done|]; let He := fresh in
  intros ????? He H; apply lemma in H as (_&_&H); [|exact He]; by apply stream_standing.

Lemma write_input_roster t input bytes now w : world_ok w ->
  same_roster w (write_input sha256 t input bytes now w).2.
Proof.
  intros Hw. apply bind_roster; [by apply lookup_input_fine| |].
  { unfold lookup_input. destruct (ir_operation input); [apply operations_roster|done]. }
  intros found w1 H1.
  destruct found; [|apply on_entry_roster; [done|by intros ????? ? [= <- <- <-]]|done].
  apply bind_roster; [by apply fine_get|done|]. intros w2 w3 H3.
  assert (Hbody : forall e s a e' s', entry_ok (tr_journal_limit (wo_registry w3)) e ->
            write_entry (tr_input_cache_limit (wo_registry w2)) input bytes (e, s) = (a, (e', s')) ->
            a <> Err Panicked /\ screened e e') by (intros; by eapply write_entry_ok).
  apply bind_roster.
  - apply fine_entry; [done|]. intros e s a e' s' He Hb. destruct (Hbody _ _ _ _ _ He Hb) as [Hp Hs].
    split_and!; [done|by eapply screened_ok|apply stream_reference, Hs].
  - apply on_entry_roster; [done|]. intros e s a e' s' He Hb. apply stream_standing. by eapply Hbody.
  - intros [ack written] w4 H4. apply bind_roster; [| |done].
    + destruct written; [by apply record_input_fine|by apply fine_ret].
    + destruct written; [|done]. unfold record_input. destruct (ir_operation input); [apply operations_roster|done].
Qed.

Lemma quiet_roster op w : quiet op = true -> world_ok w -> same_roster w (registry_op json_length sha256 op w).2.
Proof.
  intros Hq Hw. set (limit := tr_journal_limit (wo_registry w)).
  assert (Hat : forall r connection client viewport,
            same_roster w (attach_client json_length r connection client viewport w).2).
  { intros r connection client viewport. unfold attach_client.
    frame_roster (attach_entry_ok json_length limit) H. }
  destruct op; try discriminate Hq; cbn [registry_op]; unfold failure_of; cbn [snd].
  - apply Hat.
  - apply bind_roster; [by apply attach_client_fine|apply Hat|]. intros a w1 H1.
    apply bind_roster; [by apply fine_get|done|]. intros w2 w3 H3.
    apply bind_roster; [by apply fine_lift|done|done].
  - unfold detach. frame_roster (detach_entry_ok limit) H.
  - by apply sweep_roster.
  - by apply sweep_roster.
  - unfold append_output_with_replies. apply on_entry_roster; [done|]. intros e s a e' s' He Hb.
    by eapply append_entry_standing.
  - unfold resize. frame_roster (resize_entry_ok json_length limit) H.
  - by apply write_input_roster.
  - unfold clear_primary. apply on_entry_roster; [done|]. intros e s a e' s' _. unfold clear_entry.
    destruct (clear_primary_for_user (en_screen e)) as [screen []]; by intros [= <- <- <-].
  - apply bind_roster; [apply fine_entry; [done|by intros ????? ? [= <- <- <-]]| |].
    + apply on_entry_roster; [done|]. by intros ????? ? [= <- <- <-].
    + intros. apply operations_roster.
  - unfold snapshot. apply on_entry_roster; [done|]. intros e s a e' s' He. cbn beta iota.
    destruct (snapshot_entry _ _ _ _) as [captured s1]. by intros [= <- <- <-].
Qed.
End roster.

(** ** What an operation of the ledger leaves alone *)
Definition takes_reservation (t : TerminalRef) (o : op) : bool :=
  match o with
  | Release t' | RetentionSpec.Forget t' | Commit t' _ _ _ => bool_decide (t' = t)
  | _ => false
  end.

Lemma is_reserved_spec t l : TerminalLedger.is_reserved t l = true <-> is_Some (rl_reservations l !! t).
Proof. apply bool_decide_eq_true. Qed.

Lemma update_final_frame t f l :
  rl_budget (snd (TerminalLedger.update_final t f l)) = rl_budget l /\
  rl_reservations (snd (TerminalLedger.update_final t f l)) = rl_reservations l.
Proof. unfold TerminalLedger.update_final. by destruct (rl_finals l !! t). Qed.

Lemma perform_frame o l : managed l -> admitted o l ->
  rl_budget (perform l o) = rl_budget l /\
  forall t, takes_reservation t o = false -> TerminalLedger.is_reserved t l = true ->
    TerminalLedger.is_reserved t (perform l o) = true.
Proof.
  intros M Adm. assert (A := mg_accounted _ M). setoid_rewrite is_reserved_spec.
  destruct o as [now t|t|t|t kind bytes at_|t st|t|t p|now|r]; cbn [perform takes_reservation] in *.
  - destruct (pressed_collected now t l A) as (new & C & _).
    assert (Eb := col_budget _ _ _ _ C). assert (Er := col_reservations _ _ _ _ C).
    destruct (reserve_cases now t l) as [[_ ->]|[(_ & rj & _ & ->)|(_ & _ & ->)]]; cbn [snd].
    + done.
    + cbn. split; [done|]. intros t' _. by rewrite Er.
    + cbn. split; [done|]. intros t' _ H. rewrite Er. destruct (decide (t = t')) as [->|?].
      * rewrite lookup_insert_eq. by eexists.
      * by rewrite lookup_insert_ne.
  - destruct (TerminalLedger.release t l) as [b l'] eqn:E. cbn [snd].
    destruct (release_rest _ _ _ _ E) as (-> & -> & _). split; [done|].
    intros t' Hne%bool_decide_eq_false H. by rewrite lookup_delete_ne.
  - unfold TerminalLedger.forget. destruct (TerminalLedger.release t l) as [b l1] eqn:E1.
    destruct (TerminalLedger.take_final t l1) as [o l2] eqn:E2. cbn [snd rl_budget rl_reservations set_markers].
    destruct (release_rest _ _ _ _ E1) as (Er & Eb & _). destruct (take_final_rest _ _ _ _ E2) as (-> & -> & _).
    rewrite Er, Eb. split; [done|]. intros t' Hne%bool_decide_eq_false H. by rewrite lookup_delete_ne.
  - destruct Adm as [Hr Hb].
    destruct (TerminalLedger.release t l) as [x l1] eqn:E1.
    unfold TerminalLedger.commit_final. rewrite E1. cbn [snd].
    destruct (release_rest _ _ _ _ E1) as (Er & Eb & _).
    set (l2 := set_counters _ l1). destruct (TerminalLedger.take_final t l2) as [o l3] eqn:E2.
    destruct (take_final_rest _ _ _ _ E2) as (Er3 & Eb3 & _). cbn. rewrite Eb3, Er3. cbn. rewrite Er, Eb.
    split; [done|]. intros t' Hne%bool_decide_eq_false H. by rewrite lookup_delete_ne.
  - unfold TerminalLedger.note_visibility. destruct (update_final_frame t (fun r => set_rf_visibility
      (TerminalVisibilityState.merge (rf_visibility r) st) r) l) as [-> ->]. done.
  - unfold TerminalLedger.mark_superseded. by destruct (update_final_frame t (set_rf_superseded true) l) as [-> ->].
  - unfold TerminalLedger.set_pinned. by destruct (update_final_frame t (set_rf_pinned p) l) as [-> ->].
  - destruct (collect_spec now l A) as (report & l' & -> & C & _). cbn.
    by rewrite (col_budget _ _ _ _ C), (col_reservations _ _ _ _ C).
  - done.
Qed.

(** ** The processes and the store, as the log tells them *)
(** The PTYs that were, or may have been, spawned and were not reaped. *)
Definition spawned_step (s : gset TerminalRef) (x : HostEffect) : gset TerminalRef :=
  match x with
  | SpawnAsked t _ _ (Err DefiniteSpawnFailure) => s
  | SpawnAsked t _ _ _ => {[t]} ∪ s
  | ReapAsked t true => s ∖ {[t]}
  | _ => s
  end.
Definition spawned (log : list HostEffect) : gset TerminalRef := foldl spawned_step ∅ log.

(** The snapshot the last accepted save left in the store. *)
Definition durable_step (s : TerminalStoreSnapshot) (x : HostEffect) : TerminalStoreSnapshot :=
  match x with Saved snapshot None => snapshot | _ => s end.
Definition durable (log : list HostEffect) : TerminalStoreSnapshot :=
  foldl durable_step TerminalStoreSnapshot_default log.

Lemma spawned_snoc log x : spawned (log ++ [x]) = spawned_step (spawned log) x.
Proof. unfold spawned, durable. by rewrite foldl_app. Qed.
Lemma durable_snoc log x : durable (log ++ [x]) = durable_step (durable log) x.
Proof. unfold spawned, durable. by rewrite foldl_app. Qed.

Definition watched_on_disk (t : TerminalRef) (s : TerminalStoreSnapshot) : Prop :=
  exists r, r ∈ ts_records s /\ dr_terminal r = t /\ interrupted_state (dr_state r) = true.

(** The store can be read, and every PTY that may still be alive is named in
    it, also when the daemon is killed after any of its effects. *)
Definition disk_covers (gone : gset TerminalRef) (log : list HostEffect) : Prop :=
  validate (durable log) = true /\
  forall t, t ∈ spawned log -> t ∉ gone -> watched_on_disk t (durable log).
Definition crash_safe (gone : gset TerminalRef) (log : list HostEffect) : Prop :=
  forall n, disk_covers gone (take n log).

Lemma crash_snoc gone log x :
  crash_safe gone log -> disk_covers gone (log ++ [x]) -> crash_safe gone (log ++ [x]).
Proof.
  intros Hc Hx n. destruct (decide (n <= length log)) as [Hn|Hn].
  - rewrite take_app_le by done. apply Hc.
  - rewrite take_ge by (rewrite length_app; cbn; lia). done.
Qed.
Lemma crash_now gone log : crash_safe gone log -> disk_covers gone log.
Proof. intros Hc. specialize (Hc (length log)). by rewrite firstn_all in Hc. Qed.

(** ** The invariant *)
Definition kept_record (kr : string * DurableTerminalRecord) : Prop :=
  kr.1 = key (dr_terminal kr.2) /\ record_agrees kr.2 = true.

(** A record of [t] that asks for its termination. *)
Definition watched_by (t : TerminalRef) (records : list (string * DurableTerminalRecord)) : Prop :=
  exists r, btree_get (key t) records = Some r /\ dr_terminal r = t /\ requires_termination (dr_state r) = true.

Ltac split_inv :=
  split; cbn [co_limit co_records co_world co_retention co_host set_co_records set_co_world set_co_retention
              record_host]; try done.

Section laws.
Context {U : UnicodeWidth} {P : PtyAnswers}.

(** A terminal that has no process, as far as the daemon was told. *)
Definition idle (gone : gset TerminalRef) (c : Coordinator) (t : TerminalRef) : Prop :=
  t ∈ spawned (co_host c) -> t ∈ gone.

Record inv (gone : gset TerminalRef) (c : Coordinator) : Prop := {
  iv_keys : NoDup (fst <$> co_records c);
  iv_records : Forall kept_record (co_records c);
  iv_world : world_ok (co_world c);
  iv_owned : forall k t x, standing_of k (co_world c) = Some (t, x) ->
    exists r, btree_get k (co_records c) = Some r /\ dr_terminal r = t;
  iv_live : forall k r, btree_get k (co_records c) = Some r -> dr_state r = Running ->
    standing_of k (co_world c) = Some (dr_terminal r, None);
  iv_ledger : managed (co_retention c);
  iv_reserved : forall k r, btree_get k (co_records c) = Some r -> dr_state r = Running ->
    TerminalLedger.is_reserved (dr_terminal r) (co_retention c) = true;
  iv_limit : (tr_journal_limit (co_registry c) <= worst_case_final_bytes (rl_budget (co_retention c)))%N;
  iv_watched : forall t, t ∈ spawned (co_host c) -> t ∉ gone -> watched_by t (co_records c);
  iv_crash : crash_safe gone (co_host c)
}.

Lemma requires_interrupted s : requires_termination s = true -> interrupted_state s = true.
Proof. by destruct s as [| | | | | |[]|]. Qed.

Lemma btree_get_kept (records : list (string * DurableTerminalRecord)) k r :
  Forall kept_record records -> btree_get k records = Some r -> k = key (dr_terminal r) /\ record_agrees r = true.
Proof. rewrite Forall_forall. intros Hf He%btree_get_elem. apply (Hf _ He). Qed.

Lemma world_standing_key w k t x : world_ok w -> standing_of k w = Some (t, x) -> k = key t.
Proof.
  unfold standing_of. destruct (btree_get k (tr_entries (wo_registry w))) as [e|] eqn:E; [|done].
  intros [_ Hf]. rewrite Forall_forall in Hf. apply btree_get_elem in E. destruct (Hf _ E) as [Hk _]. cbn in Hk.
  intros [= <- <-]. done.
Qed.

Lemma elem_btree_get {V} k (v : V) m : NoDup (fst <$> m) -> (k, v) ∈ m -> btree_get k m = Some v.
Proof.
  intros Hn Hin. unfold btree_get. destruct (find_first (at_key fst k) m) as [[k1 v1]|] eqn:E.
  - apply kfind_Some in E as [E Hk]. cbn in Hk. subst k1. cbn. f_equal.
    by injection (keys_inj fst m (k, v1) (k, v) Hn E Hin eq_refl).
  - apply (kfind_None fst) in E. destruct E. apply list_elem_of_fmap. by exists (k, v).
Qed.

Lemma records_agree_spec seen records : NoDup ((key ∘ dr_terminal) <$> records) ->
  (forall r, r ∈ records -> key (dr_terminal r) ∉ seen /\ record_agrees r = true) ->
  records_agree seen records = true.
Proof.
  revert seen. induction records as [|r records IH]; intros seen; [done|].
  intros [Hnot Hn]%list.NoDup_cons Hr. cbn [records_agree]. destruct (Hr r) as [Hs Ha]; [by left|].
  rewrite bool_decide_eq_false_2, Ha by done. cbn. apply IH; [done|]. intros r' Hr'.
  destruct (Hr r') as [Hs' Ha']; [by right|]. split; [|done]. rewrite elem_of_union, elem_of_singleton.
  intros [E|?]; [|done]. apply Hnot. apply list_elem_of_fmap. by exists r'.
Qed.

Lemma records_keys (records : list (string * DurableTerminalRecord)) : Forall kept_record records ->
  (key ∘ dr_terminal) <$> (snd <$> records) = fst <$> records.
Proof.
  induction 1 as [|[k r] l [Hk _] _ IH]; cbn; [done|]. cbn in Hk, IH. by rewrite IH, Hk.
Qed.

Lemma snapshot_validates c : NoDup (fst <$> co_records c) -> Forall kept_record (co_records c) ->
  validate (store_snapshot c) = true.
Proof.
  intros Hn Hf. apply records_agree_spec.
  - cbn [ts_records store_snapshot]. by rewrite records_keys.
  - intros r ([k r'] & -> & Hin)%list_elem_of_fmap. rewrite Forall_forall in Hf.
    split; [by apply not_elem_of_empty|]. apply (Hf _ Hin).
Qed.

(** ** How the parts of the state may change *)
Section parts.
Context (gone : gset TerminalRef).

Lemma inv_world w c : same_roster (co_world c) w -> world_ok w ->
  tr_journal_limit (wo_registry w) = tr_journal_limit (co_registry c) -> inv gone c -> inv gone (set_co_world w c).
Proof.
  intros Hs Hw Hl [I1 I2 I3 I4 I5 I6 I7 I8 I9 I10]. split_inv.
  - intros k t x. rewrite Hs. apply I4.
  - intros k r. rewrite Hs. apply I5.
  - unfold co_registry in *. cbn. by rewrite Hl.
Qed.

Lemma inv_ledger l c : managed l -> rl_budget l = rl_budget (co_retention c) ->
  (forall k r, btree_get k (co_records c) = Some r -> dr_state r = Running ->
     TerminalLedger.is_reserved (dr_terminal r) (co_retention c) = true ->
     TerminalLedger.is_reserved (dr_terminal r) l = true) ->
  inv gone c -> inv gone (set_co_retention l c).
Proof.
  intros Hm Hb Hr [I1 I2 I3 I4 I5 I6 I7 I8 I9 I10]. split_inv.
  - eauto.
  - unfold co_registry in *. cbn. by rewrite Hb.
Qed.

Lemma inv_perform o c : admitted o (co_retention c) ->
  (forall k r, btree_get k (co_records c) = Some r -> dr_state r = Running ->
     takes_reservation (dr_terminal r) o = false) ->
  inv gone c -> inv gone (set_co_retention (perform (co_retention c) o) c).
Proof.
  intros Ha Ht H. destruct (perform_frame o _ (iv_ledger _ _ H) Ha) as [Hb Hr].
  apply inv_ledger; [by apply managed_perform, Ha; apply (iv_ledger _ _ H)|done| |done].
  intros k r Hk Hs. apply Hr. by eapply Ht.
Qed.

Lemma inv_saved answer c : inv gone c -> inv gone (record_host (Saved (store_snapshot c) answer) c).
Proof.
  intros [I1 I2 I3 I4 I5 I6 I7 I8 I9 I10]. split_inv.
  - intros t. rewrite spawned_snoc. apply I9.
  - apply crash_snoc; [done|]. split.
    { rewrite durable_snoc. destruct answer; [apply (crash_now _ _ I10)|]. by apply snapshot_validates. }
    intros t. rewrite spawned_snoc, durable_snoc. intros Ht Hg.
    destruct answer; [by apply (crash_now _ _ I10)|]. destruct (I9 t Ht Hg) as (r & Hr & <- & Hq). exists r.
    split_and!; [|done|by apply requires_interrupted]. cbn. apply list_elem_of_fmap.
    exists (key (dr_terminal r), r). split; [done|]. by apply btree_get_elem.
Qed.

(** An effect that starts no process and saves nothing. *)
Lemma inv_effect x c : (forall s, spawned_step s x ⊆ s) -> (forall s, durable_step s x = s) ->
  inv gone c -> inv gone (record_host x c).
Proof.
  intros Hs Hd [I1 I2 I3 I4 I5 I6 I7 I8 I9 I10]. split_inv.
  - intros t. rewrite spawned_snoc. intros Ht%Hs. by apply I9.
  - apply crash_snoc; [done|]. split; [rewrite durable_snoc, Hd; apply (crash_now _ _ I10)|].
    intros t. rewrite spawned_snoc, durable_snoc, Hd. intros Ht%Hs. by apply (crash_now _ _ I10).
Qed.

Lemma inv_reaped t b c : inv gone c -> inv gone (record_host (ReapAsked t b) c).
Proof. apply inv_effect; [|done]. intros s. destruct b; cbn; set_solver. Qed.

Lemma inv_refused_spawn t launch g c :
  inv gone c -> inv gone (record_host (SpawnAsked t launch g (Err DefiniteSpawnFailure)) c).
Proof. by apply inv_effect. Qed.

(** A record changes under its key. *)
Lemma inv_put r r' c :
  btree_get (key (dr_terminal r)) (co_records c) = Some r ->
  dr_terminal r' = dr_terminal r -> record_agrees r' = true ->
  (dr_state r' = Running -> standing_of (key (dr_terminal r)) (co_world c) = Some (dr_terminal r, None) /\
     TerminalLedger.is_reserved (dr_terminal r) (co_retention c) = true) ->
  requires_termination (dr_state r') = true \/ idle gone c (dr_terminal r) ->
  inv gone c -> inv gone (set_co_records (btree_put (key (dr_terminal r)) r' (co_records c)) c).
Proof.
  intros Hg Ht Ha Hrun Hp [I1 I2 I3 I4 I5 I6 I7 I8 I9 I10].
  assert (Hget : forall k, btree_get k (btree_put (key (dr_terminal r)) r' (co_records c)) =
            if decide (k = key (dr_terminal r)) then Some r' else btree_get k (co_records c)).
  { intros k. rewrite btree_get_put. case_decide; [by rewrite Hg|done]. }
  split_inv.
  - by rewrite btree_keys_put.
  - apply btree_put_Forall; [|done]. split; cbn; [by rewrite Ht|done].
  - intros k t x Hs. rewrite Hget. destruct (I4 _ _ _ Hs) as (r0 & H0 & E0). case_decide as Hk; [|eauto].
    subst k. exists r'. split; [done|]. congruence.
  - intros k r0. rewrite Hget. case_decide as Hk; [|apply I5]. intros [= <-] Hs. subst k. rewrite Ht.
    by apply Hrun.
  - intros k r0. rewrite Hget. case_decide as Hk; [|apply I7]. intros [= <-] Hs. rewrite Ht. by apply Hrun.
  - intros t Hs Hg'. destruct (I9 t Hs Hg') as (r0 & H0 & E0 & Q0).
    unfold watched_by. rewrite Hget. case_decide as Hk; [|by exists r0].
    exists r'. rewrite Hk in H0. assert (r0 = r) by congruence. subst r0.
    split_and!; [done|congruence|]. destruct Hp as [?|Hp]; [done|]. destruct Hg'. rewrite <- E0. apply Hp. by rewrite E0.
Qed.

(** A PTY was, or may have been, spawned for a reserved record that the store
    holds, and the record takes the new state. *)
Lemma inv_spawned r r' launch g answer c :
  btree_get (key (dr_terminal r)) (co_records c) = Some r ->
  watched_on_disk (dr_terminal r) (durable (co_host c)) -> answer <> Err DefiniteSpawnFailure ->
  dr_terminal r' = dr_terminal r -> record_agrees r' = true -> requires_termination (dr_state r') = true ->
  standing_of (key (dr_terminal r)) (co_world c) = Some (dr_terminal r, None) ->
  TerminalLedger.is_reserved (dr_terminal r) (co_retention c) = true ->
  inv gone c ->
  inv gone (set_co_records (btree_put (key (dr_terminal r)) r' (co_records c))
              (record_host (SpawnAsked (dr_terminal r) launch g answer) c)).
Proof.
  intros Hg Hdisk Ha Ht Hag Hq Hst Hres Hi.
  assert (H1 := inv_put r r' c Hg Ht Hag (fun _ => conj Hst Hres) (or_introl Hq) Hi).
  assert (Hget := btree_get_put (key (dr_terminal r)) (key (dr_terminal r)) r' (co_records c)).
  rewrite decide_True, Hg in Hget by done. cbn [fmap option_fmap option_map] in Hget.
  assert (Hstep : forall s, spawned_step s (SpawnAsked (dr_terminal r) launch g answer) = {[dr_terminal r]} ∪ s).
  { intros s. by destruct answer as [|[]]. }
  destruct H1 as [I1 I2 I3 I4 I5 I6 I7 I8 I9 I10]. split_inv.
  - intros t. rewrite spawned_snoc, Hstep. intros [->%elem_of_singleton|Hs]%elem_of_union Hgo; [|by apply I9].
    exists r'. by split_and!.
  - apply crash_snoc; [done|]. split; [rewrite durable_snoc; apply (crash_now _ _ I10)|].
    intros t. rewrite spawned_snoc, durable_snoc, Hstep.
    intros [->%elem_of_singleton|Hs]%elem_of_union Hgo; [done|]. by apply (crash_now _ _ I10).
Qed.

(** A new reserved record. *)
Lemma inv_insert r c : btree_get (key (dr_terminal r)) (co_records c) = None ->
  record_agrees r = true -> dr_state r = Reserved ->
  inv gone c -> inv gone (set_co_records (btree_insert (key (dr_terminal r)) r (co_records c)) c).
Proof.
  intros Hg Ha Hs [I1 I2 I3 I4 I5 I6 I7 I8 I9 I10]. set (k0 := key (dr_terminal r)).
  assert (Hget : forall k, btree_get k (btree_insert k0 r (co_records c)) =
            if decide (k = k0) then Some r else btree_get k (co_records c)).
  { intros k. case_decide as Hk; [subst k; apply btree_get_insert|by apply btree_get_insert_ne]. }
  assert (Hp := btree_insert_Permutation k0 r _ Hg).
  split_inv.
  - rewrite Hp. cbn. apply list.NoDup_cons. split; [by apply btree_get_keys|done].
  - rewrite Hp. by constructor.
  - intros k t x Hst. rewrite Hget. destruct (I4 _ _ _ Hst) as (r0 & H0 & E0). case_decide as Hk; [|eauto].
    unfold k0 in *. congruence.
  - intros k r0. rewrite Hget. case_decide as Hk; [|apply I5]. intros [= <-]. congruence.
  - intros k r0. rewrite Hget. case_decide as Hk; [|apply I7]. intros [= <-]. congruence.
  - intros t Hsp Hgo. destruct (I9 t Hsp Hgo) as (r0 & H0 & E0 & Q0).
    exists r0. split_and!; [|done|done]. rewrite Hget. case_decide as Hk; [|done]. unfold k0 in *. congruence.
Qed.

(** A record and its screen leave together. *)
Lemma inv_remove t c :
  (forall r, btree_get (key t) (co_records c) = Some r -> dr_terminal r = t) -> idle gone c t ->
  inv gone c ->
  inv gone (set_co_world (TerminalRegistry.forget t (co_world c)).2
              (set_co_records (retain (fun kr => negb (at_key fst (key t) kr)) (co_records c)) c)).
Proof.
  intros Ht Hidle [I1 I2 I3 I4 I5 I6 I7 I8 I9 I10].
  assert (Hst : forall k y, standing_of k (TerminalRegistry.forget t (co_world c)).2 = Some y ->
            k <> key t /\ standing_of k (co_world c) = Some y).
  { intros k y. rewrite forget_roster. case_decide as Hd; [done|]. intros Hs. split; [|done]. intros ->. apply Hd.
    split; [done|]. apply standing_entry. destruct y as [t' x]. destruct (I4 _ _ _ Hs) as (r & Hr & E).
    apply Ht in Hr. exists x. congruence. }
  assert (Hlimit : tr_journal_limit (wo_registry (TerminalRegistry.forget t (co_world c)).2) =
            tr_journal_limit (co_registry c)).
  { unfold TerminalRegistry.forget, co_registry. by destruct (entry t _). }
  split_inv.
  - by apply (NoDup_keys_retain fst).
  - rewrite Forall_forall in I2 |- *. intros kr [Hin _]%elem_of_retain. by apply I2.
  - by apply forget_ok.
  - intros k t' x [Hk Hs]%Hst. rewrite btree_get_remove, decide_False by done. by eapply I4.
  - intros k r. rewrite btree_get_remove. case_decide as Hk; [done|]. intros Hr Hrun.
    rewrite forget_roster, decide_False by (by intros [? _]). by apply I5.
  - intros k r. rewrite btree_get_remove. case_decide as Hk; [done|]. apply I7.
  - unfold co_registry in *. cbn. by rewrite Hlimit.
  - intros t' Hsp Hgo. destruct (I9 t' Hsp Hgo) as (r0 & H0 & E0 & Q0).
    exists r0. split_and!; [|done|done]. rewrite btree_get_remove. case_decide as Hk; [|done].
    rewrite Hk in H0. apply Ht in H0. destruct Hgo. subst t'. rewrite H0 in *. by apply Hidle.
Qed.
End parts.

(** ** What a call leaves behind *)
Context {H : HostAnswers}.
Context (json_length : ScreenCheckpoint -> option N) (sha256 : list N -> list N).
Context (gone : gset TerminalRef).

Notation act := (st Coordinator CoordinatorFailure).
Notation sound := (inv gone).

Definition wp {A} (call : act A) (Q : result CoordinatorFailure A -> Coordinator -> Prop) (c : Coordinator) : Prop :=
  Q (call c).1 (call c).2.

Definition calm {A} (r : result CoordinatorFailure A) : Prop := r <> Err CoordinatorPanicked.

(** The call does not panic and keeps the invariant. *)
Definition safe {A} (call : act A) (c : Coordinator) : Prop := wp call (fun r c' => calm r /\ sound c') c.

Lemma wp_mono {A} (call : act A) (Q Q' : _ -> _ -> Prop) c :
  wp call Q c -> (forall r c', Q r c' -> Q' r c') -> wp call Q' c.
Proof. unfold wp. auto. Qed.

Lemma safe_wp {A} (call : act A) (Q : _ -> _ -> Prop) c :
  safe call c -> (forall r c', calm r -> sound c' -> Q r c') -> wp call Q c.
Proof. unfold safe, wp. intros [? ?] HQ. by apply HQ. Qed.

Lemma wp_bind {A B} (call : act A) (k : A -> act B) Q c :
  wp call (fun r c' => match r with Ok a => wp (k a) Q c' | Err e => Q (Err e) c' end) c ->
  wp (st_bind call k) Q c.
Proof. unfold wp, st_bind. by destruct (call c) as [[a|e] c']. Qed.

Lemma wp_try {A} (call : act A) Q c :
  wp call (fun r c' => match r with
                       | Ok a => Q (Ok (Ok a)) c'
                       | Err (Returned e) => Q (Ok (Err e)) c'
                       | Err CoordinatorPanicked => Q (Err CoordinatorPanicked) c'
                       end) c ->
  wp (st_try call) Q c.
Proof. unfold wp, st_try. by destruct (call c) as [[a|[e|]] c']. Qed.

Lemma wp_get {A} (k : Coordinator -> act A) Q c : wp (k c) Q c -> wp (st_bind st_get k) Q c.
Proof. done. Qed.

Lemma wp_checked {A} (r : result GenericTerminalError.t A) (Q : _ -> _ -> Prop) c :
  match r with Ok a => Q (Ok a) c | Err e => Q (Err (Returned e)) c end -> wp (checked r) Q c.
Proof. by destruct r. Qed.

Lemma wp_ensure {A} b e (k : act A) (Q : _ -> _ -> Prop) c :
  (b = true -> wp k Q c) -> (b = false -> Q (Err e) c) -> wp (st_bind (st_ensure b e) (fun _ => k)) Q c.
Proof. intros Ht Hf. apply wp_bind. destruct b; [by apply Ht|by apply Hf]. Qed.

Lemma wp_retention {A} (call : RetentionLedger -> A * RetentionLedger) (Q : _ -> _ -> Prop) c :
  Q (Ok (call (co_retention c)).1) (set_co_retention (call (co_retention c)).2 c) -> wp (on_retention call) Q c.
Proof. unfold wp, on_retention. by destruct (call (co_retention c)). Qed.

Lemma safe_bind {A B} (call : act A) (k : A -> act B) c :
  safe call c -> (forall a c', sound c' -> safe (k a) c') -> safe (st_bind call k) c.
Proof.
  intros Hc Hk. apply wp_bind, (safe_wp call); [done|]. intros [a|e] c' Hp Hi; [by apply Hk|].
  split; [|done]. intros [= ->]. by apply Hp.
Qed.

Lemma safe_ret {A} (a : A) c : sound c -> safe (st_ret a) c.
Proof. done. Qed.
Lemma safe_get c : sound c -> safe st_get c.
Proof. done. Qed.
Lemma safe_refused {A} e c : sound c -> safe (A := A) (refused e) c.
Proof. done. Qed.
Lemma safe_checked {A} (r : result GenericTerminalError.t A) c : sound c -> safe (checked r) c.
Proof. intros Hi. split; [by destruct r|done]. Qed.
Lemma safe_try {A} (call : act A) c : safe call c -> safe (st_try call) c.
Proof.
  intros Hc. apply wp_try, (safe_wp call); [done|]. intros [a|[e|]] c' Hp Hi; by split.
Qed.
Lemma safe_iter {A} (body : A -> act unit) l c :
  sound c -> (forall x c', x ∈ l -> sound c' -> safe (body x) c') -> safe (st_iter body l) c.
Proof.
  revert c. induction l as [|x l IH]; intros c Hi Hb; [by apply safe_ret|].
  apply safe_bind; [apply Hb; [by left|done]|]. intros _ c' Hi'. apply IH; [done|]. intros y c1 Hy. apply Hb. by right.
Qed.

Lemma safe_ensure_running t c : sound c -> safe (ensure_running t) c.
Proof. intros Hi. apply safe_bind; [by apply safe_get|]. intros. by apply safe_checked. Qed.
Lemma safe_ensure_known t c : sound c -> safe (ensure_known t) c.
Proof.
  intros Hi. apply safe_bind; [by apply safe_get|]. intros. apply safe_bind; [by apply safe_checked|].
  intros. by apply safe_ret.
Qed.

Lemma persist_cases Q c :
  (forall answer r, calm r -> (is_ok r = true <-> answer = None) ->
     Q r (record_host (Saved (store_snapshot c) answer) c)) ->
  wp persist Q c.
Proof.
  intros HQ. unfold wp, persist. cbn. apply HQ; by destruct (host_save _ _) as [[]|].
Qed.

Lemma safe_persist c : sound c -> safe persist c.
Proof. intros Hi. apply persist_cases. intros answer r Hr _. split; [done|by apply inv_saved]. Qed.

(** *** Calls of the registry *)
Lemma terminals_quiet {A} op error (call : st World Failure A) (Q : _ -> _ -> Prop) c :
  quiet op = true -> failure_of (call (co_world c)) = registry_op json_length sha256 op (co_world c) -> sound c ->
  (forall r w, calm r -> sound (set_co_world w c) -> Q r (set_co_world w c)) ->
  wp (on_terminals error call) Q c.
Proof.
  intros Hq Hf Hi HQ. assert (Hw := iv_world _ _ Hi).
  assert (Hs := quiet_roster json_length sha256 op (co_world c) Hq Hw).
  destruct (registry_op_ok json_length sha256 op (co_world c) Hw) as [Hp Hw'].
  assert (Hset := op_settings json_length sha256 op (co_world c)).
  rewrite <- Hf in Hs, Hp, Hw', Hset. unfold failure_of in *. cbn [fst snd] in *.
  unfold wp, on_terminals. destruct (call (co_world c)) as [r w]. cbn [fst snd] in *. apply HQ.
  - destruct r as [a|[e|]]; cbn in *; [done|done|]. by destruct Hp.
  - apply inv_world; [done|done| |done]. unfold settings in Hset. unfold co_registry. congruence.
Qed.

Lemma safe_terminals {A} op error (call : st World Failure A) c :
  quiet op = true -> failure_of (call (co_world c)) = registry_op json_length sha256 op (co_world c) -> sound c ->
  safe (on_terminals error call) c.
Proof. intros Hq Hf Hi. by eapply terminals_quiet. Qed.

(** *** Calls of the ledger *)
Lemma safe_pin t c : sound c -> safe (set_pinned t) c.
Proof.
  intros Hi. unfold set_pinned. apply safe_bind; [by apply safe_get|]. intros c1 c2 H2.
  apply safe_bind; [|intros; by apply safe_ret]. split; [|].
  - unfold on_retention. by destruct (TerminalLedger.set_pinned _ _ _).
  - unfold on_retention. set (pin := is_attached _ _).
    assert (Hp := inv_perform gone (Pin t pin) c2 I ltac:(done) H2). cbn [perform] in Hp.
    by destruct (TerminalLedger.set_pinned t pin (co_retention c2)).
Qed.

Lemma safe_refresh c : sound c -> safe refresh_exited_retention_pins c.
Proof.
  intros Hi. apply safe_bind; [by apply safe_get|]. intros c1 c2 H2. apply safe_iter; [done|].
  intros. by apply safe_pin.
Qed.

(** ** Removing records *)
Lemma record_of t r c : sound c -> btree_get (key t) (co_records c) = Some r -> key (dr_terminal r) = key t.
Proof. intros Hi Hr. by destruct (btree_get_kept _ _ _ (iv_records _ _ Hi) Hr) as [-> _]. Qed.

Lemma idle_record t r c : sound c -> btree_get (key t) (co_records c) = Some r ->
  requires_termination (dr_state r) = false -> idle gone c t.
Proof.
  intros Hi Hr Hq Hs. destruct (decide (t ∈ gone)) as [?|Hg]; [done|].
  destruct (iv_watched _ _ Hi t Hs Hg) as (r' & Hr' & _ & Hq'). congruence.
Qed.

(** Records were only removed since [c0]. *)
Record shrunk (c0 c : Coordinator) : Prop := {
  sh_host : co_host c = co_host c0;
  sh_limit : co_limit c = co_limit c0;
  sh_records : forall k r, btree_get k (co_records c) = Some r -> btree_get k (co_records c0) = Some r
}.

Lemma shrunk_refl c : shrunk c c.
Proof. done. Qed.

Lemma remove_shrunk t c0 c l w : shrunk c0 c ->
  shrunk c0 (MkCoordinator (co_limit c) (retain (fun kr => negb (at_key fst (key t) kr)) (co_records c)) w l (co_host c)).
Proof.
  intros [Hh Hl Hr]. split; cbn [co_host co_limit co_records]; [done|done|]. intros k r.
  rewrite btree_get_remove. case_decide; [done|]. apply Hr.
Qed.

(** What makes the removal of a terminal's record lawful. *)
Definition removable (c : Coordinator) (t : TerminalRef) : Prop :=
  (forall r, btree_get (key t) (co_records c) = Some r -> dr_terminal r = t) /\ idle gone c t.

Lemma removable_shrunk c0 c t : shrunk c0 c -> removable c0 t -> removable c t.
Proof.
  intros [Hh _ Hr] [H1 H2]. split; [intros r Hg; apply H1, Hr, Hg|]. unfold idle in *. by rewrite Hh.
Qed.

Definition removed (t : TerminalRef) (c : Coordinator) : Coordinator :=
  set_co_world (TerminalRegistry.forget t (co_world c)).2
    (set_co_records (retain (fun kr => negb (at_key fst (key t) kr)) (co_records c)) c).

Lemma collect_all ts c0 c : shrunk c0 c -> sound c -> co_retention c = co_retention c0 ->
  (forall t, t ∈ ts -> removable c0 t) ->
  wp (st_iter (fun t => remove_record (key t) ;;; forget_terminal t) ts)
    (fun r c' => r = Ok tt /\ sound c' /\ shrunk c0 c' /\ co_retention c' = co_retention c0) c.
Proof.
  revert c. induction ts as [|t ts IH]; intros c Hsh Hi Hl Ht; cbn [st_iter]; [done|].
  assert (Hrem : removable c t) by (apply (removable_shrunk c0); [done|apply Ht; by left]).
  apply wp_bind. change (wp (st_iter (fun t => remove_record (key t) ;;; forget_terminal t) ts)
    (fun r c' => r = Ok tt /\ sound c' /\ shrunk c0 c' /\ co_retention c' = co_retention c0) (removed t c)).
  apply IH; [by apply (remove_shrunk t c0 c (co_retention c) (TerminalRegistry.forget t (co_world c)).2)| |done|].
  - apply (inv_remove gone t c); [apply Hrem|apply Hrem|done].
  - intros t' Ht'. apply Ht. by right.
Qed.

Lemma collected_removable t c : sound c ->
  t ∈ (dr_terminal ∘ snd) <$> retain (fun kr => collected_final (co_retention c) kr.2) (co_records c) ->
  removable c t.
Proof.
  intros Hi ([k r] & -> & [Hin Hc]%elem_of_retain)%list_elem_of_fmap. cbn in *.
  assert (Hk := iv_records _ _ Hi). rewrite Forall_forall in Hk. destruct (Hk _ Hin) as [Ek _]. cbn in Ek.
  assert (Hg := elem_btree_get _ _ _ (iv_keys _ _ Hi) Hin). rewrite Ek in Hg. split.
  - intros r' Hr'. congruence.
  - apply (idle_record _ r c Hi Hg). unfold collected_final in Hc. by destruct (dr_state r).
Qed.

Lemma collect_garbage_spec c : sound c ->
  wp collect_garbage (fun r c' => calm r /\ sound c' /\ co_retention c' = co_retention c /\ co_limit c' = co_limit c /\
    (forall k r, btree_get k (co_records c') = Some r -> btree_get k (co_records c) = Some r) /\
    spawned (co_host c') = spawned (co_host c)) c.
Proof.
  intros Hi. apply wp_get. cbv zeta.
  set (ts := (dr_terminal ∘ snd) <$> retain (fun kr => collected_final (co_retention c) kr.2) (co_records c)).
  apply wp_bind.
  eapply wp_mono; [apply (collect_all ts c c); [apply shrunk_refl|done|done|intros t; by apply collected_removable]|].
  intros r c1 (-> & H1 & [Hh Hl Hr] & El). apply wp_bind.
  destruct (length ts =? 0).
  - unfold wp, st_ret. cbn [fst snd]. split_and!; [done|done|done|done|done|by rewrite Hh].
  - apply wp_bind, wp_try, persist_cases. intros answer r1 Hc _.
    assert (Hsp : spawned (co_host (record_host (Saved (store_snapshot c1) answer) c1)) = spawned (co_host c)).
    { cbn. by rewrite spawned_snoc, Hh. }
    assert (Hs1 := inv_saved gone answer c1 H1).
    destruct r1 as [[]|[e|]]; unfold wp, st_ret; cbn [fst snd]; [by split_and!|by split_and!|by destruct Hc].
Qed.

Lemma safe_collect c : sound c -> safe collect_garbage c.
Proof. intros Hi. eapply wp_mono; [by apply collect_garbage_spec|]. by intros r c' (? & ? & _). Qed.

(** ** Launch *)
(** What the spawner was asked for, and answered. *)
Definition spawn_answer (x : HostEffect) : option (TerminalRef * result SpawnFailure ProcessIdentity) :=
  match x with SpawnAsked t _ _ answer => Some (t, answer) | _ => None end.

Definition at_record (t : TerminalRef) (c : Coordinator) (Q : DurableTerminalRecord -> Prop) : Prop :=
  exists r, btree_get (key t) (co_records c) = Some r /\ dr_terminal r = t /\ Q r.

(** The record of a launch that fails after the spawner answered. *)
Definition failed_record (answer : result SpawnFailure ProcessIdentity) (rec : DurableTerminalRecord) : Prop :=
  match answer with
  | Ok p => dr_state rec = ReconcileRequired PersistAfterSpawn /\ dr_process rec = Some p
  | Err AmbiguousSpawnFailure => dr_state rec = ReconcileRequired SpawnAmbiguous
  | Err DefiniteSpawnFailure => dr_state rec = SpawnFailed
  end.

(** How a launch ends: with a running process that is on record, with a process
    that may exist and that is on record as such, or without any. *)
Definition launch_outcome (t : TerminalRef) (fx : list HostEffect) (c' : Coordinator)
    (r : result CoordinatorFailure unit) : Prop :=
  match r with
  | Ok _ => exists p, omap spawn_answer fx = [(t, Ok p)] /\
      at_record t c' (fun rec => dr_state rec = Running /\ dr_process rec = Some p)
  | Err _ =>
      (exists answer, omap spawn_answer fx = [(t, answer)] /\ at_record t c' (failed_record answer)) \/
      (omap spawn_answer fx = [] /\
       forall rec, btree_get (key t) (co_records c') = Some rec -> dr_state rec = Reserved \/ dr_state rec = SpawnFailed)
  end.

(** What a launch may change beside the record of [t]. *)
Record launched (t : TerminalRef) (c c' : Coordinator) (r : result CoordinatorFailure unit) : Prop := {
  la_sound : sound c';
  la_calm : calm r;
  la_limit : co_limit c' = co_limit c;
  la_others : forall k, k <> key t -> btree_get k (co_records c') = btree_get k (co_records c);
  la_idle_failure : forall e rec, r = Err e -> btree_get (key t) (co_records c') = Some rec ->
    dr_state rec <> Running;
  la_outcome : exists fx, co_host c' = co_host c ++ fx /\ launch_outcome t fx c' r
}.

Lemma agrees_intro request t operation resolved s p d :
  validate_scope request t operation = Ok tt -> resolved_for request resolved = true ->
  record_agrees (MkDurableTerminalRecord t operation (rt_snapshot resolved) s p d) = true.
Proof.
  unfold validate_scope, resolved_for, record_agrees. cbn. intros Hv [Hr Hs]%andb_true_iff.
  apply bool_decide_eq_true in Hr. rewrite Hr, Hs. cbn.
  match type of Hv with context [if ?b then _ else _] => destruct b eqn:E; [|done] end.
  rewrite !andb_true_iff, !bool_decide_eq_true in E. destruct E as (((((E1&E2)&E3)&E4)&E5)&E6).
  rewrite E1, E2, E3. by rewrite !bool_decide_eq_true_2.
Qed.

Lemma expect_record_run k f (c : Coordinator) r : btree_get k (co_records c) = Some r ->
  expect_record k f c = (Ok tt, set_co_records (btree_put k (f r) (co_records c)) c).
Proof. intros Hr. unfold expect_record, st_bind, st_get. by rewrite Hr. Qed.

Lemma put_get (t : TerminalRef) (r r' : DurableTerminalRecord) records : btree_get (key t) records = Some r ->
  forall k, btree_get k (btree_put (key t) r' records) = if decide (k = key t) then Some r' else btree_get k records.
Proof. intros Hr k. rewrite btree_get_put. case_decide; [by rewrite Hr|done]. Qed.

Lemma put_put k (r r' : DurableTerminalRecord) records :
  btree_put k r' (btree_put k r records) = btree_put k r' records.
Proof.
  unfold btree_put. induction records as [|[k1 v1] l IH]; cbn; [done|].
  destruct (at_key fst k (k1, v1)) eqn:E; cbn.
  - replace (at_key fst k (k1, r)) with (at_key fst k (k1, v1)) by done. by rewrite E.
  - by rewrite E, IH.
Qed.

(** A record that stands for no process, after a save. *)
Lemma failed_save t r s c (e : CoordinatorFailure) : e <> CoordinatorPanicked ->
  btree_get (key t) (co_records c) = Some r -> dr_terminal r = t -> dr_state r = Reserved ->
  requires_termination s = false -> s <> Running -> idle gone c t -> sound c ->
  record_agrees r = true ->
  wp (expect_record (key t) (set_dr_state s) ;;; persist ;;; (st_throw e : act unit))
    (fun a c' => sound c' /\ calm a /\ co_retention c' = co_retention c /\ co_limit c' = co_limit c /\
       (exists e', a = Err e') /\ (exists x, co_host c' = co_host c ++ [x] /\ spawn_answer x = None) /\
       forall k, btree_get k (co_records c') =
         if decide (k = key t) then Some (set_dr_state s r) else btree_get k (co_records c)) c.
Proof.
  intros He Hg Ht Hs Hq Hn Hidle Hi Ha. apply wp_bind. unfold wp at 1. rewrite (expect_record_run _ _ _ _ Hg). cbn [fst snd].
  assert (Hi1 : sound (set_co_records (btree_put (key t) (set_dr_state s r) (co_records c)) c)).
  { rewrite <- Ht. apply (inv_put gone r); rewrite ?Ht; try done. by right. }
  apply wp_bind, persist_cases. intros answer a Hc _.
  assert (Hx := inv_saved gone answer _ Hi1).
  destruct a as [[]|e1]; cbn beta iota; [unfold wp, st_throw; cbn [fst snd]|].
  - split_and!; [done|by intros [= ->]|done|done|by eexists|by eexists|by apply (put_get t r)].
  - split_and!; [done|done|done|done|by eexists|by eexists|by apply (put_get t r)].
Qed.

(** The state in which the spawner is asked. *)
Record ready (t : TerminalRef) (r : DurableTerminalRecord) (c : Coordinator) : Prop := {
  rd_sound : sound c;
  rd_record : btree_get (key t) (co_records c) = Some r;
  rd_terminal : dr_terminal r = t;
  rd_agrees : record_agrees r = true;
  rd_state : dr_state r = Reserved;
  rd_disk : watched_on_disk t (durable (co_host c));
  rd_standing : standing_of (key t) (co_world c) = Some (t, None);
  rd_reserved : TerminalLedger.is_reserved t (co_retention c) = true;
  rd_idle : idle gone c t
}.

Lemma spawned_put t r r' launch g answer c : ready t r c -> answer <> Err DefiniteSpawnFailure ->
  dr_terminal r' = t -> record_agrees r' = true -> requires_termination (dr_state r') = true ->
  sound (set_co_records (btree_put (key t) r' (co_records c)) (record_host (SpawnAsked t launch g answer) c)).
Proof.
  intros [R1 R2 R3 R4 R5 R6 R7 R8 R9] Ha Ht Hag Hq. rewrite <- R3 in *. by apply (inv_spawned gone r).
Qed.

Definition after_launch (t : TerminalRef) (c : Coordinator) (fx : list HostEffect)
    (a : result CoordinatorFailure unit) (c' : Coordinator) : Prop :=
  sound c' /\ calm a /\ co_retention c' = co_retention c /\ co_limit c' = co_limit c /\
  (forall k, k <> key t -> btree_get k (co_records c') = btree_get k (co_records c)) /\
  (forall e rec, a = Err e -> btree_get (key t) (co_records c') = Some rec -> dr_state rec <> Running) /\
  exists rest, co_host c' = co_host c ++ fx ++ rest /\ launch_outcome t (fx ++ rest) c' a.

(** The record takes a state that asks for termination, and is saved. *)
Definition noted (t : TerminalRef) (r' : DurableTerminalRecord) (x : HostEffect) (c c' : Coordinator) : Prop :=
  sound c' /\ co_retention c' = co_retention c /\ co_limit c' = co_limit c /\
  (exists saved, co_host c' = co_host c ++ [x; saved] /\ spawn_answer saved = None) /\
  (forall k, btree_get k (co_records c') = if decide (k = key t) then Some r' else btree_get k (co_records c)).

Lemma note_spawn t r f launch g answer c : ready t r c -> answer <> Err DefiniteSpawnFailure ->
  dr_terminal (f r) = t -> record_agrees (f r) = true -> requires_termination (dr_state (f r)) = true ->
  let x := SpawnAsked t launch g answer in
  wp (expect_record (key t) f)
    (fun a c1 => a = Ok tt /\ wp persist (fun a c' => calm a /\ noted t (f r) x c c') c1) (record_host x c).
Proof.
  intros Hr Ha Ht Hag Hq x. assert (Hg : btree_get (key t) (co_records (record_host x c)) = Some r) by apply Hr.
  unfold wp at 1. rewrite (expect_record_run _ _ _ _ Hg). cbn [fst snd]. split; [done|].
  assert (Hi := spawned_put t r (f r) launch g answer c Hr Ha Ht Hag Hq).
  apply persist_cases. intros saved a Hc _. split; [done|]. split_and!; [by apply (inv_saved gone saved)|done|done| |].
  - eexists. split; [cbn; by rewrite <- app_assoc|done].
  - by apply (put_get t r).
Qed.

Lemma noted_after t r' launch g answer c c' e : noted t r' (SpawnAsked t launch g answer) c c' ->
  dr_terminal r' = t -> failed_record answer r' -> dr_state r' <> Running -> e <> CoordinatorPanicked ->
  after_launch t c [SpawnAsked t launch g answer] (Err e) c'.
Proof.
  intros (H1 & H2 & H3 & (saved & H4 & H5) & Hget) Ht Hq Hn He.
  split_and!; [done|by intros [= ->]|done|done| | |].
  - intros k Hk. by rewrite Hget, decide_False.
  - intros e0 rec _. rewrite Hget, decide_True by done. by intros [= <-].
  - exists [saved]. split; [done|]. left. exists answer. cbn. rewrite H5. split; [done|].
    exists r'. by rewrite Hget, decide_True.
Qed.

Lemma after_spawn_spec t r launch g answer c : ready t r c ->
  wp (after_spawn (key t) answer) (after_launch t c [SpawnAsked t launch g answer])
    (record_host (SpawnAsked t launch g answer) c).
Proof.
  intros Hr. destruct answer as [process|[]]; cbn [after_spawn].
  - set (f := fun r => set_dr_state Running (set_dr_process (Some process) r)).
    apply wp_bind. eapply wp_mono; [by apply (note_spawn t r f launch g (Ok process) c Hr); [|apply Hr|apply Hr|]|].
    intros a c1 [-> Hp]. apply wp_bind, wp_try. eapply wp_mono; [exact Hp|].
    intros a c2 [Hc Hnoted]. destruct (Hnoted) as (H1 & H2 & H3 & (saved & H4 & H5) & Hget).
    destruct a as [[]|[e|]]; [| |by destruct Hc]; cbn [is_ok].
    + unfold wp, st_ret. cbn [fst snd]. split_and!; [done|done|done|done| |done|].
      { intros k Hk. by rewrite Hget, decide_False. }
      exists [saved]. split; [done|]. exists process. cbn. rewrite H5. split; [done|].
      exists (f r). rewrite Hget, decide_True by done. split_and!; [done|apply Hr|done|done].
    + assert (Hg : btree_get (key t) (co_records c2) = Some (f r)) by (by rewrite Hget, decide_True).
      apply wp_bind. unfold wp at 1. rewrite (expect_record_run _ _ _ _ Hg). unfold wp, refused, st_throw. cbn [fst snd].
      set (r2 := set_dr_state _ (f r)).
      apply (noted_after t r2); [|apply Hr|done|done|done].
      assert (Et : dr_terminal (f r) = t) by apply Hr. split_and!; [|done|done|by exists saved|].
      * rewrite <- Et in Hg |- *. apply (inv_put gone (f r)); try done; [apply Hr|by left].
      * intros k. cbn [co_records set_co_records]. rewrite (put_get t (f r)) by done.
        destruct (decide (k = key t)) as [->|Hk]; [done|]. by rewrite Hget, decide_False.
  - set (c1 := record_host _ c). assert (Hi1 : sound c1) by (apply inv_refused_spawn, Hr).
    assert (Hidle1 : idle gone c1 t).
    { unfold idle, c1. cbn. rewrite spawned_snoc. apply Hr. }
    eapply wp_mono; [apply (failed_save t r SpawnFailed c1 (Returned GenericTerminalError.SpawnFailed)); try done; apply Hr|].
    intros a c' (H1 & H2 & H3 & H4 & (e' & ->) & (x & Hx & Hn) & Hget). split_and!; [done|done|done|done| | |].
    + intros k Hk. by rewrite Hget, decide_False.
    + intros e0 rec _. rewrite Hget, decide_True by done. by intros [= <-].
    + exists [x]. split; [rewrite Hx; cbn; by rewrite <- app_assoc|]. left.
      exists (Err DefiniteSpawnFailure). cbn. rewrite Hn. split; [done|].
      exists (set_dr_state SpawnFailed r). rewrite Hget, decide_True by done. split_and!; [done|apply Hr|done].
  - set (f := set_dr_state (ReconcileRequired SpawnAmbiguous)).
    apply wp_bind. eapply wp_mono; [by apply (note_spawn t r f launch g (Err AmbiguousSpawnFailure) c Hr); [|apply Hr|apply Hr|]|].
    intros a c1 [-> Hp]. apply wp_bind. eapply wp_mono; [exact Hp|]. intros a c2 [Hc Hn].
    assert (Hend : forall e, e <> CoordinatorPanicked ->
              after_launch t c [SpawnAsked t launch g (Err AmbiguousSpawnFailure)] (Err e) c2).
    { intros e He. apply (noted_after t (f r)); [done|apply Hr|done|done|done]. }
    destruct a as [[]|e]; cbn beta iota; [by apply Hend|]. apply Hend. intros ->. by apply Hc.
Qed.

Lemma register_spec t g r c : sound c -> btree_get (key t) (co_records c) = Some r -> dr_terminal r = t ->
  wp (on_terminals GenericTerminalError.Terminal (TerminalRegistry.register t g))
    (fun a c' => calm a /\ exists w, c' = set_co_world w c /\ sound c' /\
       (a = Ok tt -> standing_of (key t) w = Some (t, None))) c.
Proof.
  intros Hi Hg Ht. assert (Hw := iv_world _ _ Hi). unfold wp, on_terminals.
  destruct (TerminalRegistry.register t g (co_world c)) as [a w] eqn:E.
  destruct (register_ok t g _ _ _ Hw E) as [Hp Hw'].
  assert (Hs := register_keeps settings settings_entries t g (co_world c)). rewrite E in Hs. cbn [snd] in Hs.
  assert (Hr := register_roster t g _ _ _ Hw E).
  assert (Hl : tr_journal_limit (wo_registry w) = tr_journal_limit (co_registry c)).
  { unfold settings, co_registry in *. congruence. }
  cbn [fst snd]. split; [by destruct a as [|[]]|]. exists w. split; [done|].
  destruct a as [[]|e]; [|split; [by apply inv_world|by destruct e]].
  destruct Hr as [Hnone Hr]. split; [|intros _; by rewrite Hr, decide_True].
  destruct Hi as [I1 I2 I3 I4 I5 I6 I7 I8 I9 I10]. split_inv.
  - intros k t' x. rewrite Hr. case_decide as Hk; [|apply I4]. intros [= <- <-]. subst k. by exists r.
  - intros k r'. rewrite Hr. case_decide as Hk; [|apply I5]. subst k. intros Hr' Hrun.
    assert (Hx := I5 _ _ Hr' Hrun). congruence.
  - unfold co_registry in *. cbn. by rewrite Hl.
Qed.

Lemma idle_absent t c : sound c -> btree_get (key t) (co_records c) = None -> idle gone c t.
Proof.
  intros Hi Hn Hs. destruct (decide (t ∈ gone)) as [?|Hg]; [done|].
  destruct (iv_watched _ _ Hi t Hs Hg) as (r & Hr & _). congruence.
Qed.

Lemma after_launch_error t c c' fx e : sound c' -> co_retention c' = co_retention c -> co_limit c' = co_limit c ->
  (forall k, k <> key t -> btree_get k (co_records c') = btree_get k (co_records c)) ->
  (forall rec, btree_get (key t) (co_records c') = Some rec -> dr_state rec = Reserved \/ dr_state rec = SpawnFailed) ->
  co_host c' = co_host c ++ fx -> omap spawn_answer fx = [] -> e <> CoordinatorPanicked ->
  after_launch t c [] (Err e) c'.
Proof.
  intros H1 H2 H3 H4 H5 H6 H7 He. split_and!; [done|by intros [= ->]|done|done|done| |].
  - intros e0 rec _ Hr Hn. apply H5 in Hr as [Hr|Hr]; congruence.
  - exists fx. split; [done|]. by right.
Qed.

(** The reservation is withdrawn: the save proved that nothing was stored. *)
Lemma withdrawn t r saved c : sound c -> btree_get (key t) (co_records c) = None ->
  let c1 := set_co_records (btree_insert (key t) r (co_records c)) c in
  let c2 := record_host (Saved (store_snapshot c1) saved) c1 in
  let c3 := set_co_records (retain (fun kr => negb (at_key fst (key t) kr)) (co_records c2)) c2 in
  sound c2 ->
  sound c3 /\
  forall k, btree_get k (co_records c3) = if decide (k = key t) then None else btree_get k (co_records c).
Proof.
  intros [I1 I2 I3 I4 I5 I6 I7 I8 I9 I10] Hn c1 c2 c3 [J1 J2 J3 J4 J5 J6 J7 J8 J9 J10].
  assert (Hget : forall k, btree_get k (co_records c3) = if decide (k = key t) then None else btree_get k (co_records c)).
  { intros k. cbn [co_records c3 set_co_records]. rewrite btree_get_remove. case_decide; [done|].
    by apply btree_get_insert_ne. }
  split; [|done]. split_inv.
  - by apply (NoDup_keys_retain fst).
  - rewrite Forall_forall in J2 |- *. intros kr [Hin _]%elem_of_retain. by apply J2.
  - intros k t' x Hs. destruct (I4 k t' x Hs) as (r0 & Hr0 & E0). exists r0. split; [|done].
    fold c3. rewrite Hget, decide_False; [done|]. intros ->. congruence.
  - intros k r0. fold c3. rewrite Hget. case_decide; [done|apply I5].
  - intros k r0. fold c3. rewrite Hget. case_decide; [done|apply I7].
  - intros t' Hs' Hg'. cbn in Hs'. rewrite spawned_snoc in Hs'. destruct (I9 t' Hs' Hg') as (r0 & Hr0 & E0).
    exists r0. fold c3. rewrite Hget, decide_False; [done|]. intros Hk. rewrite Hk in Hr0. congruence.
Qed.

Lemma launch_admitted_spec request t operation g resolve c :
  sound c -> btree_get (key t) (co_records c) = None -> TerminalLedger.is_reserved t (co_retention c) = true ->
  validate_scope request t operation = Ok tt ->
  wp (launch_admitted request t operation g resolve) (after_launch t c []) c.
Proof.
  intros Hi Hn Hres Hv. assert (Hidle := idle_absent _ _ Hi Hn). unfold launch_admitted. cbv zeta.
  assert (Hstop : forall e, e <> CoordinatorPanicked -> after_launch t c [] (Err e) c).
  { intros e He. apply (after_launch_error t c c []); try done; [congruence|by rewrite app_nil_r]. }
  apply wp_bind, wp_checked. destruct (resolve request) as [resolved|e]; cbn [map_err]; [|by apply Hstop].
  apply wp_ensure; [intros Er|intros _; by apply Hstop].
  apply wp_bind. unfold wp at 1, on_records, st_modify. cbn [fst snd].
  set (r := MkDurableTerminalRecord _ _ _ _ _ _). set (c1 := set_co_records (btree_insert (key t) r (co_records c)) c).
  assert (Hg1 : btree_get (key t) (co_records c1) = Some r) by apply btree_get_insert.
  assert (Hag : record_agrees r = true) by by eapply agrees_intro.
  assert (H1 : sound c1) by by apply (inv_insert gone r).
  assert (Ho1 : forall k, k <> key t -> btree_get k (co_records c1) = btree_get k (co_records c)).
  { intros k Hk. by apply btree_get_insert_ne. }
  apply wp_bind, wp_try, persist_cases. intros saved a Hc Hsaved.
  assert (H2 := inv_saved gone saved c1 H1). set (c2 := record_host _ c1) in *.
  assert (Hreserved : forall e, e <> CoordinatorPanicked -> after_launch t c [] (Err e) c2).
  { intros e He. apply (after_launch_error t c c2 [Saved (store_snapshot c1) saved]); try done.
    intros rec Hrec. change (co_records c2) with (co_records c1) in Hrec. replace rec with r by congruence. by left. }
  destruct a as [[]|[e|]]; [| |by destruct Hc].
  2: { destruct e; try by apply Hreserved.
       apply wp_bind. unfold wp, remove_record, on_records, st_modify, refused, st_throw. cbn [fst snd].
       destruct (withdrawn t r saved c Hi Hn H2) as [Hsound Hget].
       apply (after_launch_error t c _ [Saved (store_snapshot c1) saved]); try done.
       - intros k Hk. rewrite Hget. by case_decide.
       - intros rec. by rewrite Hget, decide_True. }
  apply wp_bind, wp_try. eapply wp_mono; [by apply (register_spec t g r c2 H2 Hg1)|].
  intros a c3 (Hc3 & w & -> & H3 & Hst). set (c3 := set_co_world w c2) in *.
  assert (Hidle3 : idle gone c3 t).
  { unfold idle, c3, c2. cbn. rewrite spawned_snoc. exact Hidle. }
  destruct a as [[]|[e|]]; [| |by destruct Hc3].
  - apply wp_bind. unfold wp at 1, spawn. cbn [fst snd].
    set (answer := host_spawn _ _ _ _).
    assert (Hready : ready t r c3).
    { split; try done.
      - cbn. rewrite durable_snoc. cbn. rewrite (proj1 Hsaved eq_refl). exists r. split_and!; [|done|done].
        cbn. apply list_elem_of_fmap. exists (key t, r). split; [done|]. by apply btree_get_elem.
      - by apply Hst. }
    eapply wp_mono; [apply (after_spawn_spec t r resolved g answer c3 Hready)|].
    intros a c4 (Q1 & Q2 & Q3 & Q4 & Q5 & Q6 & rest & Q7 & Q8). split_and!; [done|done|done|done| |done|].
    + intros k Hk. rewrite Q5 by done. by apply Ho1.
    + exists (Saved (store_snapshot c1) saved :: SpawnAsked t resolved g answer :: rest). split.
      * rewrite Q7. cbn. by rewrite <- app_assoc.
      * by destruct a.
  - eapply wp_mono; [apply (failed_save t r SpawnFailed c3 (Returned e)); try done|].
    intros a c4 (Q1 & Q2 & Q3 & Q4 & (e' & ->) & (x & Q6 & Q7) & Q8).
    apply (after_launch_error t c c4 [Saved (store_snapshot c1) saved; x]); try done.
    + intros k Hk. rewrite Q8, decide_False by done. by apply Ho1.
    + intros rec. rewrite Q8, decide_True by done. intros [= <-]. by right.
    + rewrite Q6. cbn. by rewrite <- app_assoc.
    + cbn. by rewrite Q7.
    + intros ->. by apply Q2.
Qed.

Lemma release_sound t c : sound c ->
  (forall rec, btree_get (key t) (co_records c) = Some rec -> dr_state rec <> Running) ->
  sound (set_co_retention (snd (TerminalLedger.release t (co_retention c))) c).
Proof.
  intros Hi Hn. apply (inv_perform gone (Release t) c I); [|done]. intros k r Hr Hrun. cbn.
  apply bool_decide_eq_false. intros ->. destruct (btree_get_kept _ _ _ (iv_records _ _ Hi) Hr) as [Hk _].
  subst k. by apply (Hn r).
Qed.

(** What every branch of a launch guarantees. *)
Definition launch_result (request : TerminalLaunchRequest) (t : TerminalRef) (operation : CompletionFence)
    (c : Coordinator) (a : result CoordinatorFailure unit) (c' : Coordinator) : Prop :=
  calm a /\ sound c' /\ co_limit c' = co_limit c /\
  (forall k r, k <> key t -> btree_get k (co_records c') = Some r -> btree_get k (co_records c) = Some r) /\
  (c' = c /\ (exists e, a = Err e) \/
   validate_scope request t operation = Ok tt /\ btree_get (key t) (co_records c) = None /\ occupied_slots c < co_limit c) /\
  exists fx, co_host c' = co_host c ++ fx /\
    (launch_outcome t fx c' a \/
     omap spawn_answer fx = [] /\ (exists e, a = Err e) /\
     btree_get (key t) (co_records c') = btree_get (key t) (co_records c)).

Lemma launch_refused request t operation c c' fx e : sound c' -> co_limit c' = co_limit c ->
  (forall k r, btree_get k (co_records c') = Some r -> btree_get k (co_records c) = Some r) ->
  (c' = c \/ validate_scope request t operation = Ok tt /\
     btree_get (key t) (co_records c) = None /\ occupied_slots c < co_limit c) ->
  co_host c' = co_host c ++ fx -> omap spawn_answer fx = [] -> e <> CoordinatorPanicked ->
  launch_result request t operation c (Err e) c'.
Proof.
  intros H1 H2 H3 H4 H5 H6 H7.
  split_and!; [by intros [= ->]|done|done|by intros k r _; apply H3|destruct H4; [left|right]; eauto|].
  exists fx. split; [done|]. right. split_and!; [done|by eexists|]. destruct H4 as [->|(_ & Hn & _)]; [done|].
  rewrite Hn. destruct (btree_get (key t) (co_records c')) as [r|] eqn:E; [|done]. apply H3 in E. congruence.
Qed.

Lemma collect_garbage_host c : sound c ->
  wp collect_garbage (fun _ c' => exists fx, co_host c' = co_host c ++ fx /\ omap spawn_answer fx = []) c.
Proof.
  intros Hi. apply wp_get. cbv zeta.
  set (ts := (dr_terminal ∘ snd) <$> retain (fun kr => collected_final (co_retention c) kr.2) (co_records c)).
  apply wp_bind.
  eapply wp_mono; [apply (collect_all ts c c); [apply shrunk_refl|done|done|intros t; by apply collected_removable]|].
  intros r c1 (-> & _ & [Hh _ _] & _). apply wp_bind. destruct (length ts =? 0).
  - exists []. by rewrite app_nil_r.
  - apply wp_bind, wp_try, persist_cases. intros answer r1 _ _.
    assert (Hx : exists fx, co_host (record_host (Saved (store_snapshot c1) answer) c1) = co_host c ++ fx /\
                   omap spawn_answer fx = []) by (eexists; split; [cbn; by rewrite Hh|done]).
    by destruct r1 as [[]|[e|]].
Qed.

Lemma wp_and {A} (call : act A) (Q Q' : _ -> _ -> Prop) c :
  wp call Q c -> wp call Q' c -> wp call (fun r c' => Q r c' /\ Q' r c') c.
Proof. done. Qed.

Lemma launch_spec now request t operation g resolve c : sound c ->
  wp (launch now request t operation g resolve) (launch_result request t operation c) c.
Proof.
  intros Hi. unfold launch.
  assert (Hstop : forall e, e <> CoordinatorPanicked -> launch_result request t operation c (Err e) c).
  { intros e He. apply (launch_refused request t operation c c []); try done; [by left|by rewrite app_nil_r]. }
  apply wp_bind, wp_checked. destruct (validate_scope request t operation) as [[]|e] eqn:Hv; [|by apply Hstop].
  apply wp_get, wp_ensure; [intros Hn%bool_decide_eq_true|intros _; by apply Hstop].
  apply wp_bind, wp_checked. unfold ensure_launch_capacity. destruct (Nat.leb_spec (co_limit c) (occupied_slots c)) as [Hfull|Hroom];
    [by apply Hstop|].
  apply wp_bind, wp_retention.
  assert (H1 := inv_perform gone (Reserve now t) c I ltac:(done) Hi). cbn [perform] in H1.
  assert (Hres : forall l, TerminalLedger.reserve now t (co_retention c) = (Ok tt, l) -> TerminalLedger.is_reserved t l = true).
  { intros l. destruct (reserve_cases now t (co_retention c)) as [[Hr ->]|[(_ & rj & _ & ->)|(_ & _ & ->)]]; [|done|].
    - by intros [= <-].
    - intros [= <-]. apply is_reserved_spec. cbn. rewrite lookup_insert_eq. by eexists. }
  destruct (TerminalLedger.reserve now t (co_retention c)) as [admitted l]. cbn [fst snd] in *.
  set (c1 := set_co_retention l c) in *.
  apply wp_bind, wp_checked. destruct admitted as [[]|rejection]; cbn [map_err].
  2: { apply (launch_refused request t operation c c1 []); try done; [by right|by rewrite app_nil_r]. }
  apply wp_bind. eapply wp_mono; [apply wp_and; [by apply collect_garbage_spec|by apply collect_garbage_host]|].
  intros r2 c2 [(Hc2 & H2 & El & Elim & Esub & _) (fx & Hfx & Hno)]. change (co_host c1) with (co_host c) in Hfx.
  destruct r2 as [n|e]; [|apply (launch_refused request t operation c c2 fx); try done; [by right|by intros ->]].
  apply wp_bind, wp_try.
  assert (Hn2 : btree_get (key t) (co_records c2) = None).
  { destruct (btree_get (key t) (co_records c2)) as [r|] eqn:E; [|done]. apply Esub in E. change (co_records c1) with (co_records c) in E. congruence. }
  assert (Hres2 : TerminalLedger.is_reserved t (co_retention c2) = true) by (rewrite El; by apply Hres).
  eapply wp_mono; [by apply (launch_admitted_spec request t operation g resolve c2)|].
  intros a c3 (H3 & Hc3 & El3 & Elim3 & Eoth & Hidle & rest & Hh3 & Hout). cbn [app] in Hout, Hh3.
  assert (Hsub : forall k r, k <> key t -> btree_get k (co_records c3) = Some r -> btree_get k (co_records c) = Some r).
  { intros k r Hk. rewrite Eoth by done. apply Esub. }
  assert (Hend : forall a', launch_outcome t rest c3 a' -> launch_outcome t (fx ++ rest) c3 a').
  { intros a'. unfold launch_outcome. by rewrite omap_app, Hno. }
  destruct a as [[]|[e|]]; [| |by destruct Hc3].
  - apply wp_bind. unfold wp, st_ret. cbn [is_ok fst snd].
    split_and!; [done|done|by transitivity (co_limit c2)|done|by right|]. exists (fx ++ rest).
    split; [by rewrite app_assoc, <- Hfx|]. left. by apply Hend.
  - apply wp_bind. cbn [is_ok]. apply wp_retention.
    assert (H4 := release_sound t c3 H3 (fun rec => Hidle (Returned e) rec eq_refl)).
    destruct (TerminalLedger.release t (co_retention c3)) as [b l3]. cbn [fst snd] in *.
    split_and!; [done|done|by transitivity (co_limit c2)|done|by right|]. exists (fx ++ rest).
    split; [by rewrite app_assoc, <- Hfx|]. left. by apply (Hend (Err (Returned e))).
Qed.
End laws.
