(* ===== verification/GenericTerminalLife.v ===== *)
(** * The life of the shell terminals

    Exits, reconciliations and closings keep the invariant of
    [GenericTerminalLaws]; so do all the operations a client can ask for.
    [CoordinatorOp] names every operation, the other owners of the retention
    ledger included, and the properties hold of every history of them. *)
From S2P Require Export GenericTerminalLaws.
From S2P Require Import Generation.

Section life.
Context {U : UnicodeWidth} {P : PtyAnswers} {H : HostAnswers}.
Context (json_length : ScreenCheckpoint -> option N) (sha256 : list N -> list N).

Notation act := (st Coordinator CoordinatorFailure).

(** ** Reading records *)
Lemma record_found t c r : record t c = Ok r ->
  btree_get (key t) (co_records c) = Some r /\ dr_terminal r = t.
Proof.
  unfold record, TerminalRef_fences. destruct (btree_get _ _) as [r'|]; [|done].
  case_bool_decide as Hd; [|done]. by intros [= <-].
Qed.

Lemma running_found t c : running t c = Ok tt ->
  exists r, record t c = Ok r /\ dr_state r = Running.
Proof.
  unfold running. destruct (record t c) as [r|e]; [|done]. cbn. destruct (dr_state r) eqn:E; try done. by exists r.
Qed.

Lemma set_state_agrees s r : record_agrees (set_dr_state s r) = record_agrees r.
Proof. done. Qed.
Lemma set_process_agrees p r : record_agrees (set_dr_process p r) = record_agrees r.
Proof. done. Qed.

Section gone.
Context (gone : gset TerminalRef).
Notation sound := (inv gone).
Notation safe := (safe gone).

Lemma found_agrees t r c : sound c -> btree_get (key t) (co_records c) = Some r -> record_agrees r = true.
Proof. intros Hi Hr. by destruct (btree_get_kept _ _ _ (iv_records _ _ Hi) Hr). Qed.

(** *** [record_mut(terminal)?] *)
Lemma record_mut_run t f c r : record t c = Ok r ->
  record_mut t f c = (Ok tt, set_co_records (btree_put (key t) (f r) (co_records c)) c).
Proof. intros Hr. unfold record_mut, st_bind, st_get. cbn. by rewrite Hr. Qed.

Lemma record_mut_refused t f c e : record t c = Err e -> record_mut t f c = (Err (Returned e), c).
Proof. intros Hr. unfold record_mut, st_bind, st_get. cbn. by rewrite Hr. Qed.

Lemma safe_record_mut t f c : sound c -> (forall r, dr_terminal (f r) = dr_terminal r) ->
  (forall r, record_agrees (f r) = record_agrees r) ->
  (forall r, record t c = Ok r -> dr_state (f r) <> Running) ->
  (forall r, record t c = Ok r -> requires_termination (dr_state (f r)) = true \/ idle gone c t) ->
  safe (record_mut t f) c.
Proof.
  intros Hi Ht Ha Hn Hp. unfold GenericTerminalLaws.safe, wp. destruct (record t c) as [r|e] eqn:E.
  - rewrite (record_mut_run _ _ _ _ E). cbn [fst snd]. split; [done|].
    destruct (record_found _ _ _ E) as [Hg <-]. apply (inv_put gone r); try done.
    + rewrite Ha. by eapply found_agrees.
    + intros Hs. by destruct (Hn r eq_refl).
    + by apply Hp.
  - rewrite (record_mut_refused _ _ _ _ E). by split.
Qed.

(** ** Exit *)
Lemma inv_exited t status r c : sound c -> t ∈ gone -> btree_get (key t) (co_records c) = Some r ->
  dr_terminal r = t ->
  sound (set_co_records (btree_put (key t) (set_dr_state Exited r) (co_records c))
           (set_co_world (TerminalRegistry.exited t status (co_world c)).2 c)).
Proof.
  intros Hi Hgo Hg Ht. assert (Hw := iv_world _ _ Hi).
  assert (Hput : sound (set_co_records (btree_put (key t) (set_dr_state Exited r) (co_records c)) c)).
  { rewrite <- Ht in Hg |- *. apply (inv_put gone r); try done; [by apply (found_agrees (dr_terminal r) r c)|].
    right. intros _. by rewrite Ht. }
  assert (Hset := op_settings json_length sha256 (ExitedOp t status) (co_world c)).
  destruct (registry_op_ok json_length sha256 (ExitedOp t status) (co_world c) Hw) as [_ Hw'].
  cbn [registry_op failure_of snd] in Hset, Hw'.
  destruct Hput as [I1 I2 I3 I4 I5 I6 I7 I8 I9 I10]. split_inv.
  - intros k t' x. rewrite exited_roster. case_decide as Hd; [|apply I4]. destruct Hd as [-> He].
    intros [= <- _]. apply standing_entry in He as [y Hy]. by eapply I4.
  - intros k r' Hr' Hrun. rewrite exited_roster. case_decide as Hd; [|by apply I5]. destruct Hd as [-> _].
    cbn [co_records set_co_records] in Hr'. rewrite (put_get t r), decide_True in Hr' by done. by injection Hr' as <-.
  - unfold settings, co_registry in *. cbn in *. by injection Hset as ->.
Qed.

Lemma retained_within t c : sound c ->
  (TerminalRegistry.retained_bytes t (co_registry c) <= worst_case_final_bytes (rl_budget (co_retention c)))%N.
Proof.
  intros Hi. etransitivity; [|apply (iv_limit _ _ Hi)]. unfold retained_bytes.
  destruct (entry t (co_registry c)) as [e|] eqn:E; cbn; [|lia].
  assert (Hj := eo_journal _ _ (entry_kept _ _ _ (iv_world _ _ Hi) E)). unfold co_registry.
  destruct Hj as [_ ->|seg _ _ _ _ Hl]; [lia|exact Hl].
Qed.

(** A record that is not collected keeps its screen. *)
Definition spared (t : TerminalRef) (c c' : Coordinator) : Prop :=
  btree_get (key t) (co_records c') = btree_get (key t) (co_records c) /\
  entry t (co_registry c') = entry t (co_registry c).

Lemma forget_spares t t' w : key t <> key t' ->
  entry t (wo_registry (TerminalRegistry.forget t' w).2) = entry t (wo_registry w).
Proof.
  intros Hk. unfold TerminalRegistry.forget. destruct (entry t' (wo_registry w)); [|done].
  unfold entry. cbn [snd wo_registry tr_entries set_tr_entries]. by rewrite btree_get_remove, decide_False.
Qed.

Lemma removed_spares t t' c : key t <> key t' -> spared t c (removed t' c).
Proof.
  intros Hk. split.
  - cbn [co_records removed set_co_world set_co_records]. by rewrite btree_get_remove, decide_False.
  - by apply forget_spares.
Qed.

Lemma spared_trans t c1 c2 c3 : spared t c1 c2 -> spared t c2 c3 -> spared t c1 c3.
Proof. intros [A1 A2] [B1 B2]. split; congruence. Qed.

Lemma collect_spares t r c : sound c -> btree_get (key t) (co_records c) = Some r ->
  collected_final (co_retention c) r = false -> wp collect_garbage (fun _ c' => spared t c c') c.
Proof.
  intros Hi Hg Hc. apply wp_get. cbv zeta.
  set (ts := (dr_terminal ∘ snd) <$> retain (fun kr => collected_final (co_retention c) kr.2) (co_records c)).
  assert (Hts : forall t', t' ∈ ts -> key t <> key t').
  { intros t' ([k r'] & -> & [Hin Hr']%elem_of_retain)%list_elem_of_fmap Hk. cbn in *.
    assert (Hg' := elem_btree_get _ _ _ (iv_keys _ _ Hi) Hin).
    destruct (btree_get_kept _ _ _ (iv_records _ _ Hi) Hg') as [-> _]. congruence. }
  apply wp_bind.
  assert (Hall : forall ts c1, (forall t', t' ∈ ts -> key t <> key t') ->
            wp (st_iter (fun t => remove_record (key t) ;;; forget_terminal t) ts)
              (fun a c' => a = Ok tt /\ spared t c1 c') c1).
  { clear. induction ts as [|t' ts IH]; intros c1 Hne; cbn [st_iter]; [by split|].
    apply wp_bind. change (wp (st_iter (fun t => remove_record (key t) ;;; forget_terminal t) ts)
      (fun a c' => a = Ok tt /\ spared t c1 c') (removed t' c1)).
    eapply wp_mono; [apply IH; intros; apply Hne; by right|]. intros a c' [-> Hs]. split; [done|].
    eapply spared_trans; [|exact Hs]. apply removed_spares, Hne. by left. }
  eapply wp_mono; [by apply Hall|]. intros a c1 [-> Hs]. apply wp_bind.
  destruct (length ts =? 0); [done|]. apply wp_bind, wp_try, persist_cases. intros answer a _ _.
  by destruct a as [[]|[e|]].
Qed.

(** What an exit leaves behind when it succeeds. *)
Definition exit_result (t : TerminalRef) (now : DateTime) (status : Z) (c c' : Coordinator) : Prop :=
  at_record t c' (fun r => dr_state r = Exited) /\
  (exists e e', entry t (co_registry c) = Some e /\ entry t (co_registry c') = Some e' /\ told e' = told e /\
     en_exited e' = Some status) /\
  exists final, TerminalLedger.lookup_final t (co_retention c') = Retained final /\
    rf_bytes final = TerminalRegistry.retained_bytes t (co_registry c) /\ rf_exited_at final = now.

Lemma exited_entry t status e w : entry t (wo_registry w) = Some e ->
  (TerminalRegistry.exited t status w).1 <> Err Panicked /\ is_ok (TerminalRegistry.exited t status w).1 = true /\
  exists e', entry t (wo_registry (TerminalRegistry.exited t status w).2) = Some e' /\ told e' = told e /\
    en_exited e' = Some status /\ en_retained_bytes e' = en_retained_bytes e.
Proof.
  intros He. unfold TerminalRegistry.exited.
  assert (Hk := on_entry_entry t (exit_entry status) w t e He).
  rewrite decide_True in Hk by done. cbn in Hk. split_and!.
  - unfold on_entry. by rewrite He.
  - unfold on_entry. by rewrite He.
  - eexists. rewrite Hk; [by split_and!|]. intros _. by apply entry_get in He as [_ ?].
Qed.

Lemma wp_ensure_running t (Q : _ -> _ -> Prop) c :
  match running t c with Ok a => Q (Ok a) c | Err e => Q (Err (Returned e)) c end ->
  wp (ensure_running t) Q c.
Proof. intros HQ. by apply wp_get, wp_checked. Qed.

Lemma lookup_retained t r l : rl_finals l !! t = Some r -> TerminalLedger.lookup_final t l = Retained r.
Proof. unfold TerminalLedger.lookup_final. by intros ->. Qed.

(** The final is stored in the capacity reserved for it, and pinned. *)
Lemma commit_pinned t bytes now pin l : managed l -> TerminalLedger.is_reserved t l = true ->
  (bytes <= worst_case_final_bytes (rl_budget l))%N ->
  exists final, rl_finals (perform (perform l (Commit t Terminal bytes now)) (Pin t pin)) !! t = Some final /\
    rf_bytes final = bytes /\ rf_exited_at final = now.
Proof.
  intros M Hr Hb. destruct (committed_record_fields t Terminal bytes now (rl_finals l !! t)) as (Et & Eb & _ & Ea).
  assert (Hf : rl_finals (perform l (Commit t Terminal bytes now)) !! t =
            Some (committed_record t Terminal bytes now (rl_finals l !! t))).
  { unfold perform. destruct (TerminalLedger.release t l) as [x l1] eqn:E1.
    destruct (TerminalLedger.take_final t (set_counters (count_commit x (bytes - worst_case_final_bytes (rl_budget l))%N
      (rl_counters l1)) l1)) as [o l2] eqn:E2.
    rewrite (commit_final_eq _ _ _ _ _ _ _ _ _ E1 E2).
    cbn [snd TerminalLedger.insert_final TerminalLedger.adjust set_usage rl_finals set_finals].
    by rewrite Et, lookup_insert_eq. }
  exists (set_rf_pinned pin (committed_record t Terminal bytes now (rl_finals l !! t))).
  cbn [perform] in *. unfold TerminalLedger.set_pinned, TerminalLedger.update_final. rewrite Hf.
  cbn [snd rl_finals set_finals]. by rewrite lookup_insert_eq.
Qed.

Lemma terminal_exit_spec now t status c : sound c -> t ∈ gone ->
  wp (GenericTerminal.exit now t status)
    (fun a c' => calm a /\ sound c' /\ (a = Ok tt -> exit_result t now status c c')) c.
Proof.
  intros Hi Hgo. apply wp_bind, wp_ensure_running.
  destruct (running t c) as [[]|e] eqn:Er; [|by split_and!].
  destruct (running_found _ _ Er) as (r & Erec & Hrun). destruct (record_found _ _ _ Erec) as [Hg Ht].
  assert (Hst := iv_live _ _ Hi _ _ Hg Hrun). assert (Hres := iv_reserved _ _ Hi _ _ Hg Hrun). rewrite Ht in Hst, Hres.
  destruct (proj2 (standing_entry t (co_world c)) ltac:(by eexists)) as [e He].
  destruct (exited_entry t status e (co_world c) He) as (Hcalm & Hok & e1 & He1 & Htold & Hx & Hbytes).
  assert (H2 := inv_exited t status r c Hi Hgo Hg Ht).
  apply wp_bind. unfold wp at 1, on_terminals.
  destruct (TerminalRegistry.exited t status (co_world c)) as [a w1]. cbn [fst snd] in *.
  destruct a as [ev|f]; [|done]. cbn [map_err fst snd].
  set (c1 := set_co_world w1 c). apply wp_bind. unfold wp at 1. rewrite (record_mut_run t _ c1 r Erec). cbn [fst snd].
  change (co_records c1) with (co_records c). set (c2 := set_co_records _ c1) in *.
  apply wp_bind, wp_try, persist_cases. intros saved a Hc _.
  assert (H3 := inv_saved gone saved c2 H2). set (c3 := record_host _ c2) in *.
  destruct a as [[]|[e0|]]; [| |by destruct Hc]; cbn [is_ok negb].
  2: { apply wp_bind. eapply safe_wp; [apply (safe_record_mut t _ c3 H3)|]; try done.
       { right. by intros _. }
       intros [[]|e2] c4 Hc4 H4; [|by split_and!]. unfold wp, refused, st_throw. by split_and!. }
  apply wp_get, wp_bind, wp_retention.
  set (bytes := TerminalRegistry.retained_bytes t (co_registry c3)).
  assert (Eb : bytes = TerminalRegistry.retained_bytes t (co_registry c)).
  { unfold bytes, TerminalRegistry.retained_bytes, co_registry. cbn. rewrite He, He1. cbn. done. }
  assert (Hle : (bytes <= worst_case_final_bytes (rl_budget (co_retention c3)))%N) by by apply retained_within.
  assert (Hg3 : forall k, btree_get k (co_records c3) = if decide (k = key t) then Some (set_dr_state Exited r) else btree_get k (co_records c))
    by by apply (put_get t r).
  assert (H4 := inv_perform gone (Commit t Terminal bytes now) c3 (conj Hres Hle)).
  cbn [perform] in H4. set (c4 := set_co_retention _ c3) in *. specialize (H4 ltac:(
    intros k r' Hr' Hrun'; cbn; apply bool_decide_eq_false; intros Heq; rewrite Hg3 in Hr';
    case_decide as Hk; [injection Hr' as <-; done|];
    destruct (btree_get_kept _ _ _ (iv_records _ _ Hi) Hr') as [Hk' _]; congruence) H3).
  apply wp_bind, wp_get. unfold wp at 1, st_bind, on_retention.
  set (pin := TerminalRegistry.is_attached t (co_registry c4)).
  assert (H5 := inv_perform gone (Pin t pin) c4 I ltac:(done) H4). cbn [perform] in H5.
  destruct (commit_pinned t bytes now pin (co_retention c3) (iv_ledger _ _ H3) Hres Hle) as (final & Hfin & Hfb & Hfa).
  cbn [perform] in Hfin. change (snd (TerminalLedger.commit_final t Terminal bytes now (co_retention c3))) with (co_retention c4) in Hfin.
  destruct (TerminalLedger.set_pinned t pin (co_retention c4)) as [b l5]. cbn [fst snd st_ret] in *.
  set (c5 := set_co_retention l5 c4) in *.
  assert (Hr5 : btree_get (key t) (co_records c5) = Some (set_dr_state Exited r)).
  { change (co_records c5) with (co_records c3). by rewrite Hg3, decide_True. }
  apply wp_bind. eapply wp_mono; [apply wp_and; [by apply collect_garbage_spec|apply (collect_spares t _ c5 H5 Hr5)]|].
  { unfold collected_final. cbn [dr_state dr_terminal set_dr_state co_retention c5 set_co_retention]. rewrite Ht.
    by rewrite (lookup_retained _ _ _ Hfin). }
  intros a c6 [(Hc6 & H6 & El & _) [Hsr Hse]]. destruct a as [n|e0]; cbn beta iota; [|split_and!; [by intros [= ->]|done|done]].
  unfold wp, st_ret. cbn [fst snd]. split_and!; [done|done|]. intros _. split_and!.
  - exists (set_dr_state Exited r). by rewrite Hsr.
  - exists e, e1. split_and!; [done|by rewrite Hse|done|done].
  - exists final. rewrite El. split_and!; [by apply lookup_retained|by rewrite Hfb|done].
Qed.

(** ** Reconciliation *)
(** The observation proves that the recorded child still runs. *)
Definition proves_running (t : TerminalRef) (observation : ProcessObservation.t) (c : Coordinator) : bool :=
  match record t c with
  | Ok r => requires_termination (observed_state (dr_process r) observation)
  | Err _ => true
  end.

Lemma reconcile_safe t observation c : sound c -> proves_running t observation c = true \/ t ∈ gone ->
  safe (reconcile t observation) c.
Proof.
  intros Hi Hp. apply safe_bind; [|intros; by apply safe_persist].
  apply safe_record_mut; [done|done|done| |].
  - intros r _. cbn. unfold observed_state. destruct observation; [case_bool_decide|..]; done.
  - intros r Hr. unfold proves_running in Hp. rewrite Hr in Hp. destruct Hp as [?|?]; [by left|].
    right. by intros _.
Qed.

(** ** Closing *)
Definition same_terminals (c c' : Coordinator) : Prop :=
  forall k, dr_terminal <$> btree_get k (co_records c') = dr_terminal <$> btree_get k (co_records c).

Definition targets_in (targets : list DurableTerminalRecord) (c : Coordinator) : Prop :=
  NoDup ((key ∘ dr_terminal) <$> targets) /\
  forall r, r ∈ targets -> btree_get (key (dr_terminal r)) (co_records c) = Some r.

Lemma targets_cons r targets c : targets_in (r :: targets) c -> targets_in targets c.
Proof.
  intros [[_ Hn]%list.NoDup_cons Hg]. split; [done|]. intros r' Hr'. apply Hg. by right.
Qed.

Lemma terminate_all_spec targets failed c : sound c -> targets_in targets c ->
  wp (terminate_all targets failed)
    (fun a c' => sound c' /\ same_terminals c c' /\ co_limit c' = co_limit c /\ spawned (co_host c') ⊆ spawned (co_host c) /\
       exists b : bool, a = Ok b /\
         (b = false -> failed = false /\ forall r, r ∈ targets -> idle gone c' (dr_terminal r))) c.
Proof.
  revert failed c. induction targets as [|r targets IH]; intros failed c Hi Ht; cbn [terminate_all].
  { split_and!; [done|done|done|done|]. exists failed. split_and!; [done|]. intros ->. split; [done|].
    by intros r ?%not_elem_of_nil. }
  assert (Hg : btree_get (key (dr_terminal r)) (co_records c) = Some r) by (apply Ht; by left).
  destruct (requires_termination (dr_state r)) eqn:Eq; cbn [negb].
  2: { assert (Hidle := idle_record gone _ _ _ Hi Hg Eq).
       eapply wp_mono; [by apply IH; [|eapply targets_cons]|].
       intros a c' (H1 & H2 & Hlim & H3 & b & -> & H4). split_and!; [done|done|done|done|]. exists b. split; [done|].
       intros Hb. destruct (H4 Hb) as [? H5]. split; [done|]. intros r' [->|Hr']%elem_of_cons; [|by apply H5].
       intros Hs. by apply Hidle, H3. }
  apply wp_bind. unfold wp at 1, reap. cbn [fst snd]. set (reaped := host_reap _ _).
  set (c1 := record_host _ c). assert (H1 : sound c1) by by apply inv_reaped.
  assert (Hs1 : spawned (co_host c1) ⊆ spawned (co_host c)).
  { unfold c1. cbn. rewrite spawned_snoc. destruct reaped; cbn; set_solver. }
  destruct reaped eqn:Ereap; cbn [negb].
  2: { eapply wp_mono; [by apply IH; [|eapply targets_cons]|].
       intros a c' (H2 & H3 & Hlim & H4 & b & -> & H5). split_and!; [done|done|done|by etransitivity|]. exists b. split; [done|].
       intros Hb. by destruct (H5 Hb). }
  assert (Erec : record (dr_terminal r) c1 = Ok r).
  { unfold record, TerminalRef_fences. change (co_records c1) with (co_records c). rewrite Hg.
    by rewrite bool_decide_eq_true_2. }
  assert (Hidle1 : idle gone c1 (dr_terminal r)).
  { unfold idle, c1. cbn. rewrite spawned_snoc. cbn. set_solver. }
  apply wp_bind. unfold wp at 1. rewrite (record_mut_run _ _ c1 r Erec). cbn [fst snd].
  set (r' := set_dr_process None (set_dr_state Reclaimed r)). set (c2 := set_co_records _ c1).
  assert (H2 : sound c2).
  { apply (inv_put gone r); try done; [by apply (found_agrees (dr_terminal r) r c)|by right]. }
  assert (Hget := put_get (dr_terminal r) r r' (co_records c1) Hg).
  eapply wp_mono; [apply IH; [done|]|].
  - destruct Ht as [Hn Ht]. cbn in Hn. apply list.NoDup_cons in Hn as [Hnot Hn]. split; [done|].
    intros r0 Hr0. change (co_records c2) with (btree_put (key (dr_terminal r)) r' (co_records c1)).
    rewrite Hget, decide_False; [apply Ht; by right|]. intros Hk. apply Hnot.
    apply list_elem_of_fmap. by exists r0.
  - intros a c' (H3 & H4 & Hlim & H5 & b & -> & H6). split_and!; [done| |done|by etransitivity|].
    + intros k. rewrite H4. change (co_records c2) with (btree_put (key (dr_terminal r)) r' (co_records c1)).
      rewrite Hget. case_decide as Hk; [|done]. subst k. change (co_records c1) with (co_records c). by rewrite Hg.
    + exists b. split; [done|]. intros Hb. destruct (H6 Hb) as [? H7]. split; [done|].
      intros r0 [->|Hr0]%elem_of_cons; [|by apply H7]. intros Hs. by apply Hidle1, H5.
Qed.

Lemma shrunk_trans c1 c2 c3 : shrunk c1 c2 -> shrunk c2 c3 -> shrunk c1 c3.
Proof. intros [A1 A2 A3] [B1 B2 B3]. split; [congruence|congruence|auto]. Qed.

Lemma drop_target_run t r c : dr_terminal r = t ->
  drop_target r c =
  (Ok tt, set_co_retention (snd (TerminalLedger.forget t (co_retention c))) (removed t c)).
Proof.
  intros <-. unfold drop_target, st_bind, remove_record, on_records, forget_terminal, st_modify, on_retention.
  cbn [fst snd]. unfold removed. cbn [co_retention set_co_world set_co_records].
  by destruct (TerminalLedger.forget _ _).
Qed.

Lemma drop_one t c : sound c -> removable gone c t ->
  let c' := set_co_retention (snd (TerminalLedger.forget t (co_retention c))) (removed t c) in
  sound c' /\ shrunk c c' /\ btree_get (key t) (co_records c') = None.
Proof.
  intros Hi Hrem c'. assert (H1 : sound (removed t c)) by (apply inv_remove; [apply Hrem|apply Hrem|done]).
  assert (Hnone : btree_get (key t) (co_records (removed t c)) = None).
  { cbn [co_records removed set_co_world set_co_records]. by rewrite btree_get_remove, decide_True. }
  split_and!; [|by apply (remove_shrunk t c c _ (TerminalRegistry.forget t (co_world c)).2)|done].
  apply (inv_perform gone (RetentionSpec.Forget t) (removed t c) I); [|done].
  intros k r Hr _. apply bool_decide_eq_false. intros ->.
  destruct (btree_get_kept _ _ _ (iv_records _ _ H1) Hr) as [-> _]. congruence.
Qed.

Lemma drop_all targets c : sound c -> (forall r, r ∈ targets -> removable gone c (dr_terminal r)) ->
  wp (st_iter drop_target targets)
    (fun a c' => a = Ok tt /\ sound c' /\ shrunk c c' /\
       (forall r, r ∈ targets -> btree_get (key (dr_terminal r)) (co_records c') = None)) c.
Proof.
  revert c. induction targets as [|r targets IH]; intros c Hi Ht; cbn [st_iter].
  { split_and!; [done|done|apply shrunk_refl|]. by intros r ?%not_elem_of_nil. }
  destruct (drop_one (dr_terminal r) c Hi ltac:(apply Ht; by left)) as (H1 & Hsh & Hnone).
  apply wp_bind. unfold wp at 1. rewrite (drop_target_run _ _ _ eq_refl). cbn [fst snd].
  eapply wp_mono; [apply IH; [done|]|].
  - intros r' Hr'. apply (removable_shrunk gone c); [done|]. apply Ht. by right.
  - intros a c' (-> & H3 & H4 & H5). split_and!; [done|done|by eapply shrunk_trans|].
    intros r' [->|Hr']%elem_of_cons; [|by apply H5].
    destruct (btree_get (key (dr_terminal r)) (co_records c')) as [x|] eqn:Ex; [|done].
    apply (sh_records _ _ H4) in Ex. congruence.
Qed.

Lemma value_get r c : sound c -> r ∈ snd <$> co_records c -> btree_get (key (dr_terminal r)) (co_records c) = Some r.
Proof.
  intros Hi ([k r'] & -> & Hin)%list_elem_of_fmap. assert (Hf := iv_records _ _ Hi). rewrite Forall_forall in Hf.
  destruct (Hf _ Hin) as [Hk _]. cbn in *. rewrite <- Hk. by apply elem_btree_get; [apply (iv_keys _ _ Hi)|].
Qed.

Lemma selected_targets selected c : sound c -> targets_in (retain selected (snd <$> co_records c)) c.
Proof.
  intros Hi. split.
  - eapply sublist_NoDup; [|apply fmap_sublist, sublist_retain].
    rewrite records_keys by apply Hi. apply (iv_keys _ _ Hi).
  - intros r [Hr _]%elem_of_retain. by apply value_get.
Qed.

(** A closing either leaves every process on record or removes the selected
    records, whose processes are all reaped. *)
Lemma close_matching_spec selected c : sound c ->
  wp (close_matching selected)
    (fun a c' => calm a /\ sound c' /\ co_limit c' = co_limit c /\ spawned (co_host c') ⊆ spawned (co_host c) /\
       (forall k r, btree_get k (co_records c') = Some r -> exists r0, btree_get k (co_records c) = Some r0 /\
          dr_terminal r0 = dr_terminal r /\ (is_ok a = true -> selected r0 = false))) c.
Proof.
  intros Hi. apply wp_get. cbv zeta. set (targets := retain selected (snd <$> co_records c)).
  assert (Ht := selected_targets selected c Hi). fold targets in Ht. apply wp_bind.
  eapply wp_mono; [by apply terminate_all_spec|]. intros a c1 (H1 & Hsame & Hlim & Hsp & failed & -> & Hok).
  assert (Hsame' : forall k r, btree_get k (co_records c1) = Some r -> exists r0, btree_get k (co_records c) = Some r0 /\
            dr_terminal r0 = dr_terminal r).
  { intros k r Hr. assert (E := Hsame k). rewrite Hr in E. destruct (btree_get k (co_records c)) as [r0|]; [|done].
    exists r0. injection E as E. done. }
  destruct failed.
  - apply wp_bind, persist_cases. intros saved a Hc _. assert (H2 := inv_saved gone saved c1 H1).
    destruct a as [[]|e]; unfold wp, refused, st_throw; cbn [fst snd]; (split_and!; [|done|done| |]).
    1, 4: by intros [= ->] || done.
    1, 3: by cbn; rewrite spawned_snoc.
    all: intros k r Hr; destruct (Hsame' k r Hr) as (r0 & ? & ?); by exists r0.
  - destruct (Hok eq_refl) as [_ Hidle]. apply wp_bind.
    assert (Hrem : forall r, r ∈ targets -> removable gone c1 (dr_terminal r)).
    { intros r Hr. split; [|by apply Hidle]. intros r1 H1r. destruct (Hsame' _ _ H1r) as (r0 & H0 & <-).
      destruct Ht as [_ Ht]. rewrite (Ht r Hr) in H0. congruence. }
    eapply wp_mono; [by apply drop_all|]. intros a c2 (-> & H2 & Hsh & Hgone).
    assert (Hout : forall k r, btree_get k (co_records c2) = Some r -> exists r0, btree_get k (co_records c) = Some r0 /\
              dr_terminal r0 = dr_terminal r /\ selected r0 = false).
    { intros k r Hr. assert (Hr1 := sh_records _ _ Hsh _ _ Hr). destruct (Hsame' _ _ Hr1) as (r0 & H0 & E0).
      exists r0. split_and!; [done|done|]. destruct (selected r0) eqn:Es; [|done].
      destruct (btree_get_kept _ _ _ (iv_records _ _ Hi) H0) as [-> _].
      rewrite (Hgone r0) in Hr; [done|]. apply elem_of_retain. split; [|done].
      apply btree_get_elem in H0. apply list_elem_of_fmap. by exists (key (dr_terminal r0), r0). }
    apply wp_bind, persist_cases. intros saved a Hc _. assert (H3 := inv_saved gone saved c2 H2).
    assert (Hsp2 : spawned (co_host (record_host (Saved (store_snapshot c2) saved) c2)) ⊆ spawned (co_host c)).
    { cbn. by rewrite spawned_snoc, (sh_host _ _ Hsh). }
    assert (Hlim2 : co_limit c2 = co_limit c) by (rewrite (sh_limit _ _ Hsh); done).
    destruct a as [[]|e]; unfold wp, st_ret; cbn [fst snd]; (split_and!; [|done|done|done|]);
      try (by intros [= ->]); try done; intros k r Hr; destruct (Hout k r Hr) as (r0 & ? & ? & ?); by exists r0.
Qed.
End gone.

(** ** Every operation *)
Inductive CoordinatorOp : Type :=
| LaunchTerminal (now : DateTime) (request : TerminalLaunchRequest) (t : TerminalRef) (operation : CompletionFence)
    (g : Geometry) (resolve : Resolver)
| DisconnectClient (connection : ConnectionId)
| RetainConnections (live : gset ConnectionId)
| SnapshotTerminal (t : TerminalRef)
| AttachTerminal (t : TerminalRef) (connection : ConnectionId)
| AttachTerminalFor (t : TerminalRef) (connection : ConnectionId) (client : ClientId) (viewport : option Geometry)
| DetachTerminal (t : TerminalRef) (subscription : N) (connection : ConnectionId)
| PrintOutput (t : TerminalRef) (bytes : list N)
| ResizeTo (t : TerminalRef) (g : Geometry) (client : option ClientId)
| TypeInput (now : DateTime) (t : TerminalRef) (request : InputRequest) (bytes : list N)
| AskOutcome (now : DateTime) (t : TerminalRef) (client : ClientId) (operation : OperationId)
| ExitProcess (now : DateTime) (t : TerminalRef) (status : Z)
| CollectGarbage
| Reconcile (t : TerminalRef) (observation : ProcessObservation.t)
| CloseWorkspace (workspace : WorkspaceId)
| CloseSession (session : SessionId)
| OtherOwner (o : RetentionSpec.op)
| OtherWrite (bytes : list N).

(** The owner of the PTY adapter writes to it, beside the registry. *)
Definition other_write (bytes : list N) (c : Coordinator) : Coordinator :=
  let w := co_world c in
  let s := wo_shared w in
  set_co_world (MkWorld (wo_registry w) (record_effect (PtyWrote bytes (pty_write (sh_log s) bytes)) s)) c.

Definition outcome {A} (p : result CoordinatorFailure A * Coordinator) : option CoordinatorFailure * Coordinator :=
  (match p.1 with Ok _ => None | Err e => Some e end, p.2).

Definition coordinator_op (o : CoordinatorOp) (c : Coordinator) : option CoordinatorFailure * Coordinator :=
  match o with
  | LaunchTerminal now request t operation g resolve => outcome (launch now request t operation g resolve c)
  | DisconnectClient connection => outcome (GenericTerminal.disconnect connection c)
  | RetainConnections live => outcome (GenericTerminal.retain_live_connections live c)
  | SnapshotTerminal t => outcome (terminal_snapshot json_length t c)
  | AttachTerminal t connection => outcome (GenericTerminal.attach json_length t connection c)
  | AttachTerminalFor t connection client viewport =>
      outcome (GenericTerminal.attach_for_client json_length t connection client viewport c)
  | DetachTerminal t subscription connection => outcome (GenericTerminal.detach t subscription connection c)
  | PrintOutput t bytes => outcome (output_with_replies t bytes c)
  | ResizeTo t g client => outcome (GenericTerminal.resize json_length t g client c)
  | TypeInput now t request bytes => outcome (input sha256 now t request bytes c)
  | AskOutcome now t client operation => outcome (GenericTerminal.input_outcome now t client operation c)
  | ExitProcess now t status => outcome (GenericTerminal.exit now t status c)
  | CollectGarbage => outcome (collect_garbage c)
  | Reconcile t observation => outcome (reconcile t observation c)
  | CloseWorkspace workspace => outcome (close_workspace workspace c)
  | CloseSession session => outcome (close_session session c)
  | OtherOwner o => (None, set_co_retention (perform (co_retention c) o) c)
  | OtherWrite bytes => (None, other_write bytes c)
  end.

(** The terminals whose process the operation reports, or observed, as ended. *)
Definition ends (o : CoordinatorOp) : gset TerminalRef :=
  match o with
  | ExitProcess _ t _ => {[t]}
  | Reconcile t ProcessObservation.Gone => {[t]}
  | _ => ∅
  end.

(** The terminals whose recorded child the operation did not find again, though
    nothing says it ended: an observation of nothing, or of another process.
    The code records [IdentityUnknown], which it never terminates. *)
Definition disowns (o : CoordinatorOp) (c : Coordinator) : gset TerminalRef :=
  match o with
  | Reconcile _ ProcessObservation.Gone => ∅
  | Reconcile t observation => if proves_running t observation c then ∅ else {[t]}
  | _ => ∅
  end.

(** Another owner of the ledger keeps to what it admitted and to its own
    reservations. *)
Definition lawful (o : CoordinatorOp) (c : Coordinator) : Prop :=
  match o with
  | OtherOwner o => admitted o (co_retention c) /\
      forall k r, btree_get k (co_records c) = Some r -> takes_reservation (dr_terminal r) o = false
  | _ => True
  end.

Fixpoint coordinator_ops (ops : list CoordinatorOp) (c : Coordinator) (gone : gset TerminalRef)
    : list (option CoordinatorFailure) * Coordinator * gset TerminalRef :=
  match ops with
  | [] => ([], c, gone)
  | o :: ops =>
      let '(f, c') := coordinator_op o c in
      let '(fs, c', gone) := coordinator_ops ops c' (ends o ∪ gone) in
      (f :: fs, c', gone)
  end.

(** Everything a history disowns. *)
Fixpoint disowned (ops : list CoordinatorOp) (c : Coordinator) : gset TerminalRef :=
  match ops with
  | [] => ∅
  | o :: ops => disowns o c ∪ disowned ops (coordinator_op o c).2
  end.

Fixpoint lawful_run (ops : list CoordinatorOp) (c : Coordinator) : Prop :=
  match ops with
  | [] => True
  | o :: ops => lawful o c /\ lawful_run ops (coordinator_op o c).2
  end.

Lemma inv_gone_mono gone gone' c : gone ⊆ gone' -> inv gone c -> inv gone' c.
Proof.
  intros Hsub [I1 I2 I3 I4 I5 I6 I7 I8 I9 I10]. split; try done.
  - intros t Ht Hg. apply I9; [done|]. by intros ?%Hsub.
  - intros n. split; [apply I10|]. intros t Ht Hg. apply I10; [done|]. by intros ?%Hsub.
Qed.

Lemma outcome_safe {A} gone (call : act A) c : safe gone call c ->
  (outcome (call c)).1 <> Some CoordinatorPanicked /\ inv gone (outcome (call c)).2.
Proof.
  unfold outcome, safe, wp. destruct (call c) as [[a|e] c']; cbn; intros [Hc Hi]; split; try done.
  intros [= ->]. by apply Hc.
Qed.

Lemma connections_safe gone op (sweep : World -> World) c : inv gone c ->
  quiet op = true -> (None, sweep (co_world c)) = registry_op json_length sha256 op (co_world c) ->
  safe gone (st_modify (fun c => set_co_world (sweep (co_world c)) c) ;;; refresh_exited_retention_pins) c.
Proof.
  intros Hi Hq Hop. apply safe_bind; [|intros; by apply safe_refresh].
  assert (Hw := iv_world _ _ Hi). split; [done|].
  assert (Hs := quiet_roster json_length sha256 op (co_world c) Hq Hw).
  destruct (registry_op_ok json_length sha256 op (co_world c) Hw) as [_ Hw'].
  assert (Hset := op_settings json_length sha256 op (co_world c)).
  rewrite <- Hop in Hs, Hw', Hset. cbn [snd] in *.
  apply inv_world; [done|done| |done]. unfold settings in Hset. unfold co_registry. congruence.
Qed.

Lemma coordinator_op_ok gone o c : inv gone c -> lawful o c -> ends o ∪ disowns o c ⊆ gone ->
  (coordinator_op o c).1 <> Some CoordinatorPanicked /\ inv gone (coordinator_op o c).2.
Proof.
  intros Hi Hl He.
  assert (Hrunning : forall A t (call : act A), (forall c', inv gone c' -> safe gone call c') ->
            safe gone (ensure_running t ;;; call) c).
  { intros A t call Hcall. apply safe_bind; [by apply safe_ensure_running|]. intros. by apply Hcall. }
  destruct o; cbn [coordinator_op].
  - apply outcome_safe. eapply wp_mono; [by apply launch_spec|]. by intros a c' (? & ? & _).
  - apply outcome_safe. by apply (connections_safe gone (Disconnect connection)).
  - apply outcome_safe. by apply (connections_safe gone (RetainLive live)).
  - apply outcome_safe. apply safe_bind; [by apply safe_ensure_known|]. intros _ c' Hi'.
    by apply (safe_terminals json_length sha256 gone (TakeSnapshot t)).
  - apply outcome_safe, Hrunning. intros. by apply (safe_terminals json_length sha256 gone (Attach t connection)).
  - apply outcome_safe, Hrunning. intros.
    by apply (safe_terminals json_length sha256 gone (AttachForClient t connection client viewport)).
  - apply outcome_safe. apply safe_bind; [by apply safe_ensure_known|]. intros _ c' Hi'.
    apply safe_bind; [apply safe_try; by apply (safe_terminals json_length sha256 gone (Detach t subscription connection))|].
    intros a c2 H2. apply safe_bind; [by apply safe_pin|]. intros. by apply safe_checked.
  - apply outcome_safe, Hrunning. intros. by apply (safe_terminals json_length sha256 gone (AppendOutput t bytes)).
  - apply outcome_safe, Hrunning. intros. by apply (safe_terminals json_length sha256 gone (ResizeTerminal t g client)).
  - apply outcome_safe, Hrunning. intros c' Hi'.
    apply safe_bind; [by apply (safe_terminals json_length sha256 gone (WriteInput t request bytes (now_ms now)))|].
    intros ack c2 H2. apply safe_bind; [|intros; by apply safe_ret]. destruct ack; try by apply safe_ret.
    destruct (clears_screen bytes); [|by apply safe_ret]. apply safe_bind; [|intros; by apply safe_ret].
    by apply (safe_terminals json_length sha256 gone (ClearPrimary t)).
  - apply outcome_safe. by apply (safe_terminals json_length sha256 gone (InputOutcome t client operation (now_ms now))).
  - apply outcome_safe. eapply wp_mono; [apply terminal_exit_spec; [done|]|].
    + apply He. cbn. set_solver.
    + by intros a c' (? & ? & _).
  - apply outcome_safe. by apply safe_collect.
  - apply outcome_safe, reconcile_safe; [done|]. cbn in He.
    destruct observation; [|right; set_solver|]; (destruct (proves_running t _ c); [by left|right; set_solver]).
  - apply outcome_safe. eapply wp_mono; [by apply close_matching_spec|]. by intros a c' (? & ? & _).
  - apply outcome_safe. eapply wp_mono; [by apply close_matching_spec|]. by intros a c' (? & ? & _).
  - split; [done|]. destruct Hl as [Ha Ht]. apply inv_perform; [done| |done]. intros k r Hr _. by eapply Ht.
  - split; [done|]. apply inv_world; [done|apply (iv_world _ _ Hi)|done|done].
Qed.

Lemma coordinator_ops_ok ops gone lost c : inv (gone ∪ lost) c -> lawful_run ops c ->
  let '(fs, c', gone') := coordinator_ops ops c gone in
  Some CoordinatorPanicked ∉ fs /\ inv (gone' ∪ (lost ∪ disowned ops c)) c'.
Proof.
  revert gone lost c. induction ops as [|o ops IH]; intros gone lost c Hi Hl; cbn [coordinator_ops disowned].
  { split; [by apply not_elem_of_nil|]. eapply inv_gone_mono; [|exact Hi]. set_solver. }
  destruct Hl as [Ho Hl].
  assert (Hi' : inv ((ends o ∪ gone) ∪ (lost ∪ disowns o c)) c) by (eapply inv_gone_mono; [|exact Hi]; set_solver).
  destruct (coordinator_op_ok _ o c Hi' Ho) as [Hp Hn]; [set_solver|].
  destruct (coordinator_op o c) as [f c1]. cbn [fst snd] in *. specialize (IH _ _ _ Hn Hl).
  destruct (coordinator_ops ops c1 _) as [[fs c2] gone2]. destruct IH as [Hps Hi2]. split.
  - intros [<-|?]%elem_of_cons; auto.
  - eapply inv_gone_mono; [|exact Hi2]. set_solver.
Qed.
End life.
