(* ===== verification/GenericTerminalSpec.v ===== *)
(** * What the owner of the shell terminals promises

    Over every history of its operations: no process is forgotten, in memory or
    across a crash, but for one a reconciliation could not identify; a launch starts one process at most and says which; a close
    reaps what it removes; the retention caps hold and an exit keeps what was
    printed; a restart reads what was saved. *)
From S2P Require Export GenericTerminalLife.
From S2P Require Import Generation.

Section spec.
Context {U : UnicodeWidth} {P : PtyAnswers} {H : HostAnswers}.
Context (json_length : ScreenCheckpoint -> option N) (sha256 : list N -> list N).

Notation coordinator_ops := (coordinator_ops json_length sha256).
Notation lawful_run := (lawful_run json_length sha256).
Notation disowned := (disowned json_length sha256).

(** A daemon that starts with a ledger within its caps, whose worst case covers
    a journal. *)
Context (limit : nat) (journal_limit : N) (cache_limit : nat) (ledger : RetentionLedger) (shared : Shared).

Definition fresh : Coordinator := with_retention limit journal_limit cache_limit ledger shared [].

Definition sized_ledger : Prop :=
  managed ledger /\ (N.min journal_limit MAX_RETAINED_OUTPUT_BYTES <= worst_case_final_bytes (rl_budget ledger))%N.

Lemma fresh_inv : sized_ledger -> inv ∅ fresh.
Proof.
  intros [Hm Hj].
  split; [apply NoDup_nil; exact I|constructor|apply new_registry_ok|done|done|done|done|done|by intros t ?%not_elem_of_empty|].
  intros n. cbn. rewrite take_nil. split; [done|]. by intros t ?%not_elem_of_empty.
Qed.

Lemma reached_inv ops failures c gone : sized_ledger -> lawful_run ops fresh ->
  coordinator_ops ops fresh ∅ = (failures, c, gone) ->
  Some CoordinatorPanicked ∉ failures /\ inv (gone ∪ disowned ops fresh) c.
Proof.
  intros Hs Hl E. assert (Hi : inv (∅ ∪ ∅) fresh) by (by rewrite union_empty_l_L; apply fresh_inv).
  assert (Hok := coordinator_ops_ok json_length sha256 ops ∅ ∅ fresh Hi Hl).
  by rewrite E, union_empty_l_L in Hok.
Qed.

Lemma not_gone (gone lost : gset TerminalRef) t : t ∉ gone -> t ∉ lost -> t ∉ gone ∪ lost.
Proof. set_solver. Qed.

(** C14: no process is forgotten.  In every history of launches, exits, clients
    coming and going, reconciliations and closings, with any answers of the
    store, the spawner and the reaper: nothing panics, and a PTY that was
    spawned (or may have been) and was neither reaped nor reported or observed as
    ended is on record as one that must be terminated, so it blocks the
    retirement of its workspace, unless a reconciliation did not find its
    recorded child again ([disowned]): such a record is never terminated.  The
    same holds of the store after every single effect: wherever the daemon is
    killed, the last saved snapshot can be read and names the PTY as one whose
    process has to be reconciled. *)
Theorem no_pty_is_forgotten ops failures c gone
    (Hledger : sized_ledger) (Hlawful : lawful_run ops fresh)
    (Hrun : coordinator_ops ops fresh ∅ = (failures, c, gone)) :
  Some CoordinatorPanicked ∉ failures /\
  (forall t, t ∈ spawned (co_host c) -> t ∉ gone -> t ∉ disowned ops fresh ->
     at_record t c (fun r => requires_termination (dr_state r) = true) /\
     0 < retirement_blocker_count_in_workspace (tr_workspace_id t) c) /\
  (forall n, let log := take n (co_host c) in
     validate (durable log) = true /\
     forall t, t ∈ spawned log -> t ∉ gone -> t ∉ disowned ops fresh -> watched_on_disk t (durable log)).
Proof.
  destruct (reached_inv _ _ _ _ Hledger Hlawful Hrun) as [Hp Hi]. split; [done|]. split.
  2: { intros n. destruct (iv_crash _ _ Hi n) as [Hv Hd]. split; [done|]. intros. by apply Hd; [|apply not_gone]. }
  intros t Hs Hg Hx. destruct (iv_watched _ _ Hi t Hs (not_gone _ _ _ Hg Hx)) as (r & Hr & Ht & Hq). split; [by exists r|].
  unfold retirement_blocker_count_in_workspace.
  destruct (count _ _) eqn:E; [|lia]. apply (proj1 (count_zero _ _)) with (x := r) in E.
  - unfold in_workspace in E. rewrite Ht, Hq, bool_decide_eq_true_2 in E by done. done.
  - apply list_elem_of_fmap. exists (key t, r). split; [done|]. by apply btree_get_elem.
Qed.

(** C15: a launch starts one process at most, and says which.  From any reachable
    state, a launch that succeeds asked the spawner once, has the process it was
    given on record as running, and leaves no more slots taken than the limit.  A
    launch that fails after the spawner answered asked once, and leaves the record
    that says so: [SpawnFailed] for a certain failure, [SpawnAmbiguous] for an
    ambiguous one, [PersistAfterSpawn] with the process for one that started and
    could not be saved.  A launch that fails before leaves a record without a
    process, or the record it found.  A launch whose scope does not match, for a
    terminal already on record or beyond the limit changes nothing at all; no
    launch adds or changes another record. *)
Theorem launch_starts_one_process ops failures c gone now request t operation g resolve a c'
    (Hledger : sized_ledger) (Hlawful : lawful_run ops fresh)
    (Hrun : coordinator_ops ops fresh ∅ = (failures, c, gone))
    (Hlaunch : launch now request t operation g resolve c = (a, c')) :
  (forall k r, k <> key t -> btree_get k (co_records c') = Some r -> btree_get k (co_records c) = Some r) /\
  (c' = c /\ (exists e, a = Err e) \/
   validate_scope request t operation = Ok tt /\ btree_get (key t) (co_records c) = None /\
   occupied_slots c < co_limit c) /\
  occupied_slots c' <= Nat.max (occupied_slots c) (co_limit c) /\
  exists fx, co_host c' = co_host c ++ fx /\
    match a with
    | Ok _ => exists p, omap spawn_answer fx = [(t, Ok p)] /\
        at_record t c' (fun r => dr_state r = Running /\ dr_process r = Some p)
    | Err _ =>
        omap spawn_answer fx = [] /\
          (btree_get (key t) (co_records c') = btree_get (key t) (co_records c) \/
           forall r, btree_get (key t) (co_records c') = Some r -> dr_state r = Reserved \/ dr_state r = SpawnFailed) \/
        exists answer, omap spawn_answer fx = [(t, answer)] /\ at_record t c' (fun r =>
          match answer with
          | Ok p => dr_state r = ReconcileRequired PersistAfterSpawn /\ dr_process r = Some p
          | Err AmbiguousSpawnFailure => dr_state r = ReconcileRequired SpawnAmbiguous
          | Err DefiniteSpawnFailure => dr_state r = SpawnFailed
          end)
    end.
Proof.
  destruct (reached_inv _ _ _ _ Hledger Hlawful Hrun) as [_ Hi].
  assert (Hl := launch_spec _ now request t operation g resolve c Hi). unfold wp in Hl. rewrite Hlaunch in Hl. cbn [fst snd] in Hl.
  destruct Hl as (_ & Hi' & _ & Hsub & Hroom & Hfx). split_and!; [done|done| |].
  2: { destruct Hfx as (fx & Hh & Hout). exists fx. split; [done|].
       destruct Hout as [Hout|(Hno & [e ->] & Hk)]; [|left; auto].
       destruct a as [[]|e]; [done|]. destruct Hout as [(answer & ? & ?)|[? ?]]; [right; by exists answer|left; auto]. }
  destruct Hroom as [[-> _]|(_ & _ & Hroom)]; [lia|]. apply (Nat.le_trans _ (S (occupied_slots c))); [|lia].
  unfold occupied_slots, count. rewrite <- !(length_fmap fst), <- (length_cons (key t)). apply submseteq_length.
  apply NoDup_submseteq.
  - eapply sublist_NoDup; [|apply fmap_sublist, sublist_retain]. apply (iv_keys _ _ Hi').
  - intros k ([k' r] & -> & [Hin Hocc]%elem_of_retain)%list_elem_of_fmap. cbn [fst snd] in *.
    destruct (decide (k' = key t)) as [->|Hk]; [left|right]. apply list_elem_of_fmap. exists (k', r). split; [done|].
    apply elem_of_retain. split; [|done]. apply btree_get_elem, Hsub; [done|].
    by apply elem_btree_get; [apply (iv_keys _ _ Hi')|].
Qed.

(** C16: a closed workspace has no process left.  When [close_workspace]
    succeeds, no record of the workspace remains and every PTY of it was reaped
    or had ended, but for those a reconciliation had not found again; when it is
    refused, whatever else may still be alive stays on record as one to
    terminate.  Records of other workspaces are not touched. *)
Theorem closed_workspace_has_no_process ops failures c gone workspace a c'
    (Hledger : sized_ledger) (Hlawful : lawful_run ops fresh)
    (Hrun : coordinator_ops ops fresh ∅ = (failures, c, gone))
    (Hclose : close_workspace workspace c = (a, c')) :
  (forall n, a = Ok n ->
     (forall k r, btree_get k (co_records c') = Some r -> tr_workspace_id (dr_terminal r) <> workspace) /\
     (forall t, t ∈ spawned (co_host c') -> tr_workspace_id t = workspace -> t ∈ gone \/ t ∈ disowned ops fresh)) /\
  (forall t, t ∈ spawned (co_host c') -> t ∉ gone -> t ∉ disowned ops fresh ->
     at_record t c' (fun r => requires_termination (dr_state r) = true)) /\
  (forall k r, btree_get k (co_records c') = Some r ->
     exists r0, btree_get k (co_records c) = Some r0 /\ dr_terminal r0 = dr_terminal r).
Proof.
  destruct (reached_inv _ _ _ _ Hledger Hlawful Hrun) as [_ Hi].
  assert (Hc := close_matching_spec _ (in_workspace workspace) c Hi). unfold wp in Hc.
  unfold close_workspace in Hclose. rewrite Hclose in Hc. cbn [fst snd] in Hc. destruct Hc as (_ & Hi' & _ & _ & Hrec).
  assert (Hon : forall t, t ∈ spawned (co_host c') -> t ∉ gone ∪ disowned ops fresh ->
            at_record t c' (fun r => requires_termination (dr_state r) = true)).
  { intros t Hs Hg. destruct (iv_watched _ _ Hi' t Hs Hg) as (r & ? & ? & ?). by exists r. }
  assert (Hgone : forall n, a = Ok n -> forall k r, btree_get k (co_records c') = Some r ->
            tr_workspace_id (dr_terminal r) <> workspace).
  { intros n -> k r Hr. destruct (Hrec k r Hr) as (r0 & _ & <- & Hsel). specialize (Hsel eq_refl).
    by apply bool_decide_eq_false in Hsel. }
  split_and!; [|by intros; apply Hon, not_gone|].
  - intros n Ha. split; [by eapply Hgone|]. intros t Hs Hw. apply elem_of_union.
    destruct (decide (t ∈ gone ∪ disowned ops fresh)) as [?|Hg]; [done|]. destruct (Hon t Hs Hg) as (r & Hr & Ht & _). destruct (Hgone n Ha _ _ Hr). congruence.
  - intros k r Hr. destruct (Hrec k r Hr) as (r0 & ? & ? & _). by exists r0.
Qed.

(** The retention caps hold and an exit keeps what was printed.  Whatever
    the terminals and the other owners of the ledger do, the ledger is within
    its hard caps and its books are exact.  An exit that is accepted stores the
    final in the capacity its launch reserved, at the size of the retained
    output, and every replay answers as it did before the exit. *)
Theorem exits_fit_their_reservations ops failures c gone now t status c'
    (Hledger : sized_ledger) (Hlawful : lawful_run ops fresh)
    (Hrun : coordinator_ops ops fresh ∅ = (failures, c, gone))
    (Hexit : GenericTerminal.exit now t status c = (Ok tt, c')) :
  within_caps (co_retention c) /\ accounted (co_retention c) /\
  within_caps (co_retention c') /\ exit_result t now status c c' /\
  forall offset, (GenericTerminal.replay_from t offset None c').1 = (GenericTerminal.replay_from t offset None c).1.
Proof.
  destruct (reached_inv _ _ _ _ Hledger Hlawful Hrun) as [_ Hi].
  assert (Hi1 : inv ({[t]} ∪ (gone ∪ disowned ops fresh)) c) by (eapply inv_gone_mono; [|exact Hi]; set_solver).
  assert (He := terminal_exit_spec json_length sha256 _ now t status c Hi1 ltac:(set_solver)).
  unfold wp in He. rewrite Hexit in He. cbn [fst snd] in He. destruct He as (_ & Hi' & Hres). specialize (Hres eq_refl).
  assert (M := iv_ledger _ _ Hi). assert (M' := iv_ledger _ _ Hi').
  split_and!; [apply caps_exact; [apply M|apply M]|apply M|apply caps_exact; [apply M'|apply M']|done|].
  assert (Hrunning : running t c = Ok tt).
  { unfold GenericTerminal.exit, ensure_running, st_bind, st_get, checked, st_lift in Hexit.
    destruct (running t c) as [[]|e]; [done|]. by cbn in Hexit. }
  intros offset. destruct Hres as ((r' & Hr' & Ht' & Hs') & (e & e' & Ee & Ee' & Htold & _) & _).
  destruct (running_found _ _ Hrunning) as (r & Hrec & Hrun'). unfold GenericTerminal.replay_from, st_bind, st_get.
  assert (Hrec' : record t c' = Ok r').
  { unfold record, TerminalRef_fences. by rewrite Hr', bool_decide_eq_true_2. }
  unfold replayable. rewrite Hrec, Hrec'. cbn [res_bind]. rewrite Hs', Hrun'. unfold checked, st_lift. cbn [map_err].
  unfold TerminalRegistry.replay_from, reading. rewrite Ee, Ee'. cbn [ok_or res_bind].
  unfold replay_entry, stale_viewport, base_offset. cbn [mbind option_bind].
  unfold told in Htold. injection Htold as -> _ ->. done.
Qed.

(** ** Restart *)
Lemma fold_insert_get (l : list DurableTerminalRecord) m k :
  NoDup ((key ∘ dr_terminal) <$> l) ->
  btree_get k (foldl (fun m r => btree_insert (key (dr_terminal r)) r m) m l) =
  match find_first (fun r => bool_decide (key (dr_terminal r) = k)) l with Some r => Some r | None => btree_get k m end.
Proof.
  revert m. induction l as [|r l IH]; intros m; cbn [foldl find_first fmap list_fmap]; [done|].
  intros [Hnot Hn]%list.NoDup_cons. rewrite IH by done. case_bool_decide as Hk.
  - subst k. destruct (find_first _ l) as [r'|] eqn:E.
    + apply find_first_Some in E as [Hin E]. apply bool_decide_eq_true in E. destruct Hnot.
      apply list_elem_of_fmap. by exists r'.
    + apply btree_get_insert.
  - destruct (find_first _ l); [done|]. apply btree_get_insert_ne. congruence.
Qed.

Lemma validated_keys seen l : records_agree seen l = true ->
  NoDup ((key ∘ dr_terminal) <$> l) /\ forall r, r ∈ l -> key (dr_terminal r) ∉ seen.
Proof.
  revert seen. induction l as [|r l IH]; intros seen; cbn [records_agree].
  { intros _. split; [constructor|]. by intros r ?%not_elem_of_nil. }
  rewrite !andb_true_iff, negb_true_iff, bool_decide_eq_false. intros [[Hs _] Hl]. apply IH in Hl as [Hn Hseen].
  split.
  - cbn. apply list.NoDup_cons. split; [|done]. intros (r' & E & Hr')%list_elem_of_fmap.
    apply (Hseen r' Hr'). cbn in E. rewrite <- E. set_solver.
  - intros r' [->|Hr']%elem_of_cons; [done|]. intros Hk. apply (Hseen r' Hr'). set_solver.
Qed.

Lemma reconciled_agree seen l : records_agree seen (reconcile_record <$> l) = records_agree seen l.
Proof.
  revert seen. induction l as [|r l IH]; intros seen; [done|]. cbn [fmap list_fmap records_agree].
  assert (E : dr_terminal (reconcile_record r) = dr_terminal r /\ record_agrees (reconcile_record r) = record_agrees r).
  { unfold reconcile_record. by destruct (interrupted_state (dr_state r)). }
  destruct E as [-> ->]. by rewrite IH.
Qed.

Lemma reconciled_fit r : unfit_for_restore (dr_state (reconcile_record r)) = false.
Proof. unfold reconcile_record. by destruct (dr_state r) as [| | | | | |[]|] eqn:E; cbn; rewrite ?E. Qed.

(** C17: a restart reads what was saved.  Kill the daemon after any effect of any
    history: the snapshot in the store is accepted, every record comes back
    under its key with its launch and its operation, the ones whose process the
    daemon owned as [ReconcileRequired(IdentityUnknown)], which keep their slot
    and are never attached to or replaced; no PTY is missing that was neither
    reaped nor reported or observed as ended, nor given up by a reconciliation
    that did not find its child again. *)
Theorem restart_reads_what_was_saved ops failures c gone n now ledger' shared'
    (Hledger : sized_ledger) (Hlawful : lawful_run ops fresh)
    (Hrun : coordinator_ops ops fresh ∅ = (failures, c, gone)) :
  let log := take n (co_host c) in
  exists snapshot restored,
    reconcile_after_daemon_restart (durable log) =
      Ok (snapshot, count (fun r => interrupted_state (dr_state r)) (ts_records (durable log))) /\
    from_snapshot_with_retention limit journal_limit cache_limit snapshot now ledger' shared' [] = Ok restored /\
    (forall r, r ∈ ts_records (durable log) ->
       btree_get (key (dr_terminal r)) (co_records restored) = Some (reconcile_record r)) /\
    (forall k r, btree_get k (co_records restored) = Some r ->
       exists r0, r0 ∈ ts_records (durable log) /\ r = reconcile_record r0 /\ k = key (dr_terminal r0)) /\
    (forall t, t ∈ spawned log -> t ∉ gone -> t ∉ disowned ops fresh ->
       at_record t restored (fun r => dr_state r = ReconcileRequired IdentityUnknown)).
Proof.
  destruct (reached_inv _ _ _ _ Hledger Hlawful Hrun) as [_ Hi]. intros log.
  destruct (iv_crash _ _ Hi n) as [Hv Hd]. fold log in Hv, Hd. set (s := durable log) in *.
  set (snapshot := MkTerminalStoreSnapshot (ts_schema_version s) (reconcile_record <$> ts_records s)).
  assert (Hv' : validate snapshot = true).
  { unfold validate in *. cbn [ts_schema_version ts_records snapshot]. by rewrite reconciled_agree. }
  assert (Hfit : existsb (fun r => unfit_for_restore (dr_state r)) (ts_records snapshot) = false).
  { apply not_true_iff_false. intros (r & Hin & Hr)%existsb_exists. apply list_elem_of_In in Hin.
    apply list_elem_of_fmap in Hin as (r0 & -> & _). by rewrite reconciled_fit in Hr. }
  set (records := foldl (fun m r => btree_insert (key (dr_terminal r)) r m) [] (ts_records snapshot)).
  exists snapshot. eexists. split; [unfold reconcile_after_daemon_restart; by rewrite Hv|].
  split; [unfold from_snapshot_with_retention; by rewrite Hv', Hfit|]. cbn [co_records].
  assert (Hn : NoDup ((key ∘ dr_terminal) <$> ts_records snapshot)).
  { unfold validate in Hv'. apply andb_true_iff in Hv' as [_ Hv']. by apply validated_keys in Hv' as [? _]. }
  assert (Ht : forall r, dr_terminal (reconcile_record r) = dr_terminal r).
  { intros r. unfold reconcile_record. by destruct (interrupted_state _). }
  assert (Hget := fun k => fold_insert_get (ts_records snapshot) [] k Hn).
  assert (Hback : forall r, r ∈ ts_records s -> btree_get (key (dr_terminal r)) records = Some (reconcile_record r)).
  { intros r Hr. unfold records. rewrite Hget.
    assert (Hin : reconcile_record r ∈ ts_records snapshot) by by apply list_elem_of_fmap_2.
    destruct (find_first _ _) as [r'|] eqn:E.
    - apply find_first_Some in E as [Hin' E]. apply bool_decide_eq_true in E. f_equal.
      apply (keys_inj (key ∘ dr_terminal) (ts_records snapshot)); try done. cbn. by rewrite Ht.
    - apply (proj1 (find_first_None _ _)) with (x := reconcile_record r) in E; [|done].
      by rewrite Ht, bool_decide_eq_true_2 in E. }
  split_and!; [done| |].
  - intros k r. unfold records. rewrite Hget. destruct (find_first _ _) as [r'|] eqn:E; [|done]. intros [= ->].
    apply find_first_Some in E as [Hin E]. apply bool_decide_eq_true in E.
    apply list_elem_of_fmap in Hin as (r0 & -> & Hr0). exists r0. by rewrite Ht in E.
  - intros t Hs Hg Hx. destruct (Hd t Hs (not_gone _ _ _ Hg Hx)) as (r & Hr & <- & Hq). exists (reconcile_record r).
    split_and!; [by apply Hback|done|]. unfold reconcile_record. by rewrite Hq.
Qed.
End spec.

(** ** A small daemon *)
Module DaemonExample.
Import RegistryExample.
#[export] Existing Instance cjk_width.
#[export] Existing Instance quiet_pty.
Definition child : ProcessIdentity := MkProcessIdentity 41 "start" 41.

(** Every save is accepted, every spawn succeeds and every child is reaped. *)
#[export] Instance steady_host : HostAnswers :=
  Build_HostAnswers
    (fun _ _ => None) (fun _ _ _ _ => Ok child) (fun _ _ => true).

Definition sha (l : list N) : list N := l.
Definition scope : TerminalLaunchScope := MkTerminalLaunchScope (MkWorkspaceId "w") None (MkWorktreeId "k").
Definition request : TerminalLaunchRequest := MkTerminalLaunchRequest (MkTerminalProfileId "shell") scope.
Definition resolve : Resolver := fun request =>
  snapshot <-? DurableTerminalLaunchSnapshot_new request 1 "/bin/sh" [] "/w" ∅ ;;
  ResolvedTerminalLaunch_new snapshot ∅.
Definition fence : CompletionFence :=
  MkCompletionFence (MkWorkspaceId "w") None (MkOperationId "o") (MkDaemonGeneration "g") 1 1 0.
Definition start_shell (id : string) : CoordinatorOp :=
  LaunchTerminal 0%Z request (terminal id) fence (MkGeometry 4 2) resolve.
Definition full_ledger : RetentionLedger := TerminalLedger.new RetentionBudget_default.

Lemma full_ledger_sized : sized_ledger 8 full_ledger.
Proof. split; [apply managed_new; by vm_compute|by vm_compute]. Qed.

Definition shells : Coordinator := fresh 2 8 4 full_ledger (MkShared counters []).
Definition history : list CoordinatorOp :=
  [start_shell "t"; PrintOutput shell [97; 98]%N; start_shell "u"; start_shell "v"].
Definition after_history := coordinator_ops small_json sha history shells ∅.
Definition two_shells : Coordinator := after_history.1.2.
End DaemonExample.
Import DaemonExample RegistryExample.

Lemma history_lawful : lawful_run small_json sha history shells.
Proof. repeat split. Qed.
Lemma history_run : coordinator_ops small_json sha history shells ∅ = (after_history.1.1, two_shells, after_history.2).
Proof. unfold two_shells, after_history. by destruct (coordinator_ops _ _ _ _ _) as [[? ?] ?]. Qed.

(** Two shells run; the third is refused by the limit. *)
Example third_is_refused :
  after_history.1.1 = [None; None; None; Some (Returned GenericTerminalError.ConcurrencyExhausted)] /\
  occupied_slots two_shells = 2.
Proof. by vm_compute. Qed.

Lemma no_pty_is_forgotten_witness :
  shell ∈ spawned (co_host two_shells) /\ 0 < retirement_blocker_count_in_workspace (MkWorkspaceId "w") two_shells.
Proof.
  destruct (no_pty_is_forgotten small_json sha 2 8 4 full_ledger (MkShared counters []) history _ _ _
              full_ledger_sized history_lawful history_run) as (_ & Hw & _).
  assert (Hs : shell ∈ spawned (co_host two_shells)) by (by vm_compute).
  split; [exact Hs|]. apply (Hw shell Hs); by vm_compute.
Defined.

Lemma launch_starts_one_process_witness :
  occupied_slots (launch 0%Z request (terminal "v") fence (MkGeometry 4 2) resolve two_shells).2 <= 2.
Proof.
  destruct (launch 0%Z request (terminal "v") fence (MkGeometry 4 2) resolve two_shells) as [a c'] eqn:E.
  destruct (launch_starts_one_process small_json sha 2 8 4 full_ledger (MkShared counters []) history _ _ _
              0%Z request (terminal "v") fence (MkGeometry 4 2) resolve a c'
              full_ledger_sized history_lawful history_run E) as (_ & _ & Hslots & _).
  assert (Hl : Nat.max (occupied_slots two_shells) (co_limit two_shells) = 2) by (by vm_compute).
  rewrite Hl in Hslots. exact Hslots.
Defined.

Lemma closed_workspace_has_no_process_witness :
  (close_workspace (MkWorkspaceId "w") two_shells).1 = Ok 2 /\
  forall k r, btree_get k (co_records (close_workspace (MkWorkspaceId "w") two_shells).2) = Some r ->
    tr_workspace_id (dr_terminal r) <> MkWorkspaceId "w".
Proof.
  assert (Ha : (close_workspace (MkWorkspaceId "w") two_shells).1 = Ok 2) by (by vm_compute). split; [exact Ha|].
  destruct (close_workspace (MkWorkspaceId "w") two_shells) as [a c'] eqn:E.
  destruct (closed_workspace_has_no_process small_json sha 2 8 4 full_ledger (MkShared counters []) history _ _ _
              (MkWorkspaceId "w") a c' full_ledger_sized history_lawful history_run E) as (Hc & _).
  exact (proj1 (Hc 2 Ha)).
Defined.

Lemma exits_fit_their_reservations_witness :
  (GenericTerminal.exit 5%Z shell 0%Z two_shells).1 = Ok tt /\
  exists final, TerminalLedger.lookup_final shell (co_retention (GenericTerminal.exit 5%Z shell 0%Z two_shells).2) = Retained final /\
    rf_bytes final = 2%N.
Proof.
  assert (Ha : (GenericTerminal.exit 5%Z shell 0%Z two_shells).1 = Ok tt) by (by vm_compute). split; [exact Ha|].
  destruct (GenericTerminal.exit 5%Z shell 0%Z two_shells) as [a c'] eqn:E. cbn [fst] in Ha. subst a.
  destruct (exits_fit_their_reservations small_json sha 2 8 4 full_ledger (MkShared counters []) history _ _ _
              5%Z shell 0%Z c' full_ledger_sized history_lawful history_run E) as (_ & _ & _ & (_ & _ & final & Hf & Hb & _) & _).
  exists final. split; [exact Hf|]. rewrite Hb. by vm_compute.
Defined.

(** The daemon is killed right after the first spawn: the shell is on disk. *)
Lemma restart_reads_what_was_saved_witness :
  exists restored, at_record shell restored (fun r => dr_state r = ReconcileRequired IdentityUnknown).
Proof.
  destruct (restart_reads_what_was_saved small_json sha 2 8 4 full_ledger (MkShared counters []) history _ _ _ 2 7%Z
              full_ledger (MkShared counters []) full_ledger_sized history_lawful history_run)
    as (snapshot & restored & _ & _ & _ & _ & Hr).
  exists restored. apply Hr; by vm_compute.
Defined.

(** The limit of [disowned]: an observation that says nothing leaves the record
    as [IdentityUnknown], which a closing removes without reaping the PTY. *)
Example unidentified_pty_is_dropped :
  let '(failures, c, gone) := coordinator_ops small_json sha
    [start_shell "t"; Reconcile shell ProcessObservation.Unknown; CloseWorkspace (MkWorkspaceId "w")] shells ∅ in
  failures = [None; None; None] /\ co_records c = [] /\ gone = ∅ /\ shell ∈ spawned (co_host c).
Proof. by vm_compute. Qed.

(** A spawner that definitely fails.  The records of the failed launches take no
    slot and no final, and nothing collects them: they stay in the store, with
    their screens in the process-wide budget, until their session or workspace
    is closed. *)
Section failing.
Local Instance failing_host : HostAnswers :=
  Build_HostAnswers (fun _ _ => None) (fun _ _ _ _ => Err DefiniteSpawnFailure) (fun _ _ => true).
Example failed_spawns_accumulate :
  let c := (coordinator_ops small_json sha
              [start_shell "t"; start_shell "u"; start_shell "v"; OtherOwner (RetentionSpec.Collect 1000000000000000%Z);
               CollectGarbage] shells ∅).1.2 in
  occupied_slots c = 0 /\ length (co_records c) = 3 /\ size (rl_finals (co_retention c)) = 0 /\
  length (tr_entries (co_registry c)) = 3 /\ TerminalRegistry.retained_screen_cells (co_registry c) = 24%N.
Proof. by vm_compute. Qed.
End failing.
