(* ===== verification/TerminalIpc.v ===== *)
(** * Terminal requests over IPC ([crates/daemon/src/usecase/terminal_ipc.rs],
    [terminal_owner.rs], the terminal requests of
    [crates/core/src/infrastructure/ipc/request.rs])

    The runtime of the IPC server: one coordinator, the profile resolver, the
    scope resolver and the PTY adapter.  Decoding and the JSON shape of an answer
    belong to the presentation adapter.  Identities the runtime mints
    ([TerminalId::new], [OperationId::new]) and the instant are arguments of a
    request. *)
From S2P Require Import Negotiation.
From S2P Require Export GenericTerminal.

(** ** Requests and answers *)
Record TerminalRequestContext := MkTerminalRequestContext {
  rc_connection : ConnectionId;
  rc_client : ClientId;
  rc_request : RequestId
}.

Record TerminalLaunchIntent := MkTerminalLaunchIntent {
  li_request : TerminalLaunchRequest;
  li_geometry : Geometry;
  li_launch_operation : option OperationId
}.

Definition canonical_digest (intent : TerminalLaunchIntent) : string :=
  canonical_launch_digest (li_request intent) (tg_cols (li_geometry intent)) (tg_rows (li_geometry intent)).

Module TerminalRequest.
Inductive t : Type :=
| Launch (intent : TerminalLaunchIntent)
| Inventory (scope : TerminalLaunchScope)
| Attach (terminal : TerminalRef) (geometry : option Geometry)
| Resume (terminal : TerminalRef) (after_offset : N)
| Resync (terminal : TerminalRef)
| Input (terminal : TerminalRef) (subscription input_seq : N) (input_operation : option OperationId) (bytes : list N)
| InputOutcome (terminal : TerminalRef) (input_operation : OperationId)
| Resize (terminal : TerminalRef) (geometry : Geometry)
| Detach (terminal : TerminalRef) (subscription : N)
| CompletedInventory (scope : TerminalLaunchScope)
| Observe (terminal : TerminalRef) (expected_revision : N)
| Dismiss (terminal : TerminalRef) (expected_revision : N).
End TerminalRequest.

Module TerminalResponse.
Inductive t : Type :=
| Launch (terminal : TerminalRef) (launch_operation : OperationId) (replayed : bool)
| Inventory (entries : list TerminalInventoryEntry)
| Attached (attached : Attached)
| Resumed (output : list Output) (exited : bool)
| Snapshot (snapshot : Snapshot)
| Detached
| Input (ack : InputAck)
| InputOutcome (outcome : option InputAck)
| CompletedInventory (entries : list CompletedTerminalEntry)
| Visibility (visibility : TerminalVisibility) (applied conflict : bool).
End TerminalResponse.

(** ** Errors *)
Definition invalid_argument (message : string) : ProtocolError :=
  ProtocolError_new Negotiation.InvalidArgument message.

Definition map_error (error : GenericTerminalError.t) : ProtocolError :=
  let '(code, message) :=
    match error with
    | GenericTerminalError.Terminal ResyncRequired =>
        (Negotiation.ResyncRequired, "terminal output must be resynchronized")
    | GenericTerminalError.Terminal PtyResizeFailed | GenericTerminalError.SpawnFailed =>
        (Negotiation.Unavailable, "terminal PTY could not be started or resized")
    | GenericTerminalError.Terminal CheckpointUnavailable =>
        (Negotiation.ResourceExhausted, "terminal screen checkpoint does not fit the IPC frame budget")
    | GenericTerminalError.Terminal ScreenBudgetExceeded =>
        (Negotiation.ResourceExhausted, "terminal screen retention budget is exhausted")
    | GenericTerminalError.ConcurrencyExhausted =>
        (Negotiation.ResourceExhausted,
         "terminal PTY limit reached; close a Terminal or raise Terminal PTYs in Global Config")
    | GenericTerminalError.RetentionBackpressure =>
        (Negotiation.ResourceExhausted, "daemon operation history retention budget is exhausted")
    | GenericTerminalError.RetentionExhausted _ =>
        (Negotiation.ResourceExhausted, "daemon terminal history retention budget is exhausted")
    | GenericTerminalError.Terminal IdempotencyConflict =>
        (Negotiation.IdempotencyConflict, "terminal operation conflicts with an earlier request")
    | GenericTerminalError.Terminal IdempotencyExpired =>
        (Negotiation.IdempotencyExpired, "terminal operation result has expired")
    | GenericTerminalError.Terminal SequenceGap =>
        (Negotiation.SequenceGap, "terminal input sequence has a gap")
    | GenericTerminalError.UnknownTerminal | GenericTerminalError.TerminalGenerationMismatch
    | GenericTerminalError.Terminal _ =>
        (Negotiation.StaleTarget, "terminal target is no longer current")
    | GenericTerminalError.FinalEvicted _ => (Negotiation.NotFound, "terminal history has expired")
    | GenericTerminalError.ReconcileRequired _ | GenericTerminalError.Store
    | GenericTerminalError.InvalidSnapshot =>
        (Negotiation.OwnershipUnknown, "terminal ownership could not be verified safely")
    | GenericTerminalError.Launch _ | GenericTerminalError.ScopeMismatch =>
        (Negotiation.InvalidArgument, "terminal launch request is invalid")
    | GenericTerminalError.TerminalAlreadyExists =>
        (Negotiation.RevisionConflict, "terminal already exists for this launch operation")
    end%string in
  ProtocolError_new code message.

(** A geometry within the bounds of a checkpoint and of one screen; a [u16]
    product does not overflow a [usize]. *)
Definition geometry (value : Geometry) : result ProtocolError Geometry :=
  if (0 <? tg_cols value)%N && (0 <? tg_rows value)%N &&
     (tg_rows value <=? ROWS_MAX)%N && (tg_cols value <=? COLS_MAX)%N &&
     (tg_rows value * tg_cols value <=? SCREEN_CELLS_PER_TERMINAL_MAX)%N
  then Ok value
  else Err (invalid_argument "terminal geometry must be non-zero and fit the supported screen budget").

(** ** The runtime *)
Record ResolvedTerminalScope := MkResolvedTerminalScope {
  rs_scope : TerminalLaunchScope;
  rs_working_directory : string
}.

(** [ScopedProfileResolver]: the authoritative checkout replaces the profile's
    working directory. *)
Definition scoped_resolve (profile : Resolver) (working_directory : string) : Resolver := fun request =>
  resolved <-? profile request ;;
  let s := rt_snapshot resolved in
  snapshot <-? DurableTerminalLaunchSnapshot_new (dl_request s) (dl_profile_revision s) (dl_program s)
                 (dl_arguments s) working_directory (dl_environment_allowlist s) ;;
  ResolvedTerminalLaunch_new snapshot (rt_environment resolved).

Definition GENERIC_TERMINAL_LIMIT : nat := 64.
Definition GENERIC_TERMINAL_JOURNAL : N := 64 * 1024.
Definition GENERIC_TERMINAL_INPUT_CACHE : nat := 64.

(** What a call of the runtime reads and mints: the instant, the answers of the
    profile resolver and of the owner of the managed scopes, and fresh ids. *)
Record Ports := MkPorts {
  po_now : DateTime;
  po_resolve : Resolver;
  po_scope : TerminalLaunchScope -> option ResolvedTerminalScope;
  po_terminal_id : TerminalId;
  po_operation_id : OperationId
}.

(** [ru_selected] is the terminal the PTY adapter writes to, [ru_released] the
    transports it was told to release. *)
Record Runtime := MkRuntime {
  ru_generation : DaemonGeneration;
  ru_coordinator : Coordinator;
  ru_selected : option TerminalRef;
  ru_released : list TerminalRef
}.

Definition set_ru_coordinator v (r : Runtime) : Runtime :=
  MkRuntime (ru_generation r) v (ru_selected r) (ru_released r).
Definition set_ru_selected v (r : Runtime) : Runtime :=
  MkRuntime (ru_generation r) (ru_coordinator r) v (ru_released r).
Definition set_ru_released v (r : Runtime) : Runtime :=
  MkRuntime (ru_generation r) (ru_coordinator r) (ru_selected r) v.

Inductive RuntimeFailure : Type :=
| Answered (error : ProtocolError)
| RuntimePanicked.

Definition answered (f : CoordinatorFailure) : RuntimeFailure :=
  match f with Returned e => Answered (map_error e) | CoordinatorPanicked => RuntimePanicked end.

Section runtime.
Context {U : UnicodeWidth} {P : PtyAnswers} {H : HostAnswers}.
Context (json_length : ScreenCheckpoint -> option N) (sha256 : list N -> list N).

Notation req := (st Runtime RuntimeFailure).

(** [call.map_err(map_error)] *)
Definition on_coordinator {A} (call : st Coordinator CoordinatorFailure A) : req A := fun r =>
  let '(a, c) := call (ru_coordinator r) in (map_err answered a, set_ru_coordinator c r).

Definition protocol {A} (a : result ProtocolError A) : req A := st_lift (map_err Answered a).
Definition refuse_request {A} (code : ErrorCode) (message : string) : req A :=
  st_throw (Answered (ProtocolError_new code message)).

Definition select_terminal (terminal : TerminalRef) : req unit := st_modify (set_ru_selected (Some terminal)).
Definition release_transport (terminal : TerminalRef) : req unit :=
  st_modify (fun r => set_ru_released (ru_released r ++ [terminal]) r).

(** [let _ = self.pty.write_all(&replies)] *)
Definition write_replies (replies : list N) (c : Coordinator) : Coordinator :=
  let w := co_world c in
  let s := wo_shared w in
  set_co_world (MkWorld (wo_registry w) (record_effect (PtyWrote replies (pty_write (sh_log s) replies)) s)) c.

(** ** Construction *)
Definition new_with_limit (generation : DaemonGeneration) (limit : nat) (retention : RetentionLedger)
    (shared : Shared) : Runtime :=
  MkRuntime generation
    (with_retention limit GENERIC_TERMINAL_JOURNAL GENERIC_TERMINAL_INPUT_CACHE retention shared []) None [].

Definition from_snapshot_with_retention_and_limit (generation : DaemonGeneration) (limit : nat)
    (snapshot : TerminalStoreSnapshot) (now : DateTime) (retention : RetentionLedger) (shared : Shared)
    (host : list HostEffect) : result GenericTerminalError.t Runtime :=
  c <-? GenericTerminal.from_snapshot_with_retention limit GENERIC_TERMINAL_JOURNAL GENERIC_TERMINAL_INPUT_CACHE
          snapshot now retention shared host ;;
  Ok (MkRuntime generation c None []).

(** ** Launch *)
Definition launch_needs_profile_resolution
    (validate_request : TerminalLaunchRequest -> result TerminalLaunchValidationError unit)
    (intent : TerminalLaunchIntent) (r : Runtime) : result ProtocolError bool :=
  let known :=
    match li_launch_operation intent with
    | Some producer => bool_decide (is_Some (launch_by_operation producer (ru_coordinator r)))
    | None => false
    end in
  if known then Ok false
  else
    _ <-? geometry (li_geometry intent) ;;
    _ <-? map_err map_error (ensure_launch_capacity (ru_coordinator r)) ;;
    _ <-? map_err (fun e => map_error (GenericTerminalError.Launch e)) (validate_request (li_request intent)) ;;
    Ok true.

Definition minted_terminal (p : Ports) (generation : DaemonGeneration) (scope : TerminalLaunchScope) : TerminalRef :=
  MkTerminalRef generation (po_terminal_id p) (ls_workspace_id scope) (ls_session_id scope) (ls_worktree_id scope).

Definition launch_fence (terminal : TerminalRef) (operation : OperationId) : CompletionFence :=
  MkCompletionFence (tr_workspace_id terminal) (tr_session_id terminal) operation
    (tr_daemon_generation terminal) 1 1 0.

(** The replay of a recorded producer: [None] when there is none. *)
Definition recorded_launch (intent : TerminalLaunchIntent) (c : Coordinator)
    : option (OperationId * DurableTerminalRecord) :=
  producer ← li_launch_operation intent;
  recorded ← launch_by_operation producer c;
  Some (producer, recorded).

Definition handle_launch (p : Ports) (intent : TerminalLaunchIntent) : req TerminalResponse.t :=
  let scope := lr_scope (li_request intent) in
  resolved_scope <-! protocol (ok_or (po_scope p scope)
                                 (invalid_argument "requested terminal scope is not an available managed scope")) ;;
  st_ensure (bool_decide (rs_scope resolved_scope = scope))
    (Answered (invalid_argument "requested terminal scope did not match the resolved scope")) ;;;
  r <-! st_get ;;
  match recorded_launch intent (ru_coordinator r) with
  | Some (producer, recorded) =>
      if negb (bool_decide (dr_launch_digest recorded = Some (canonical_digest intent)))
      then refuse_request Negotiation.IdempotencyConflict "launch operation id was accepted for a different intent"
      else st_ret (TerminalResponse.Launch (dr_terminal recorded) producer true)
  | None =>
      let terminal := minted_terminal p (ru_generation r) scope in
      let launch_operation := default (po_operation_id p) (li_launch_operation intent) in
      g <-! protocol (geometry (li_geometry intent)) ;;
      on_coordinator (launch (po_now p) (li_request intent) terminal (launch_fence terminal launch_operation) g
                        (scoped_resolve (po_resolve p) (rs_working_directory resolved_scope))) ;;;
      st_ret (TerminalResponse.Launch terminal launch_operation false)
  end.

(** ** The other requests *)
Definition handle_input (now : DateTime) (terminal : TerminalRef) (request : InputRequest) (bytes : list N)
    : req InputAck :=
  on_coordinator (ensure_running terminal) ;;;
  select_terminal terminal ;;;
  on_coordinator (input sha256 now terminal request bytes).

Definition viewport_geometry (viewport : option Geometry) : result ProtocolError (option Geometry) :=
  match viewport with None => Ok None | Some g => g <-? geometry g ;; Ok (Some g) end.

Definition read_coordinator {A} (f : Coordinator -> A) : req A :=
  r <-! st_get ;; st_ret (f (ru_coordinator r)).

Definition handle (p : Ports) (context : TerminalRequestContext) (request : TerminalRequest.t)
    : req TerminalResponse.t :=
  match request with
  | TerminalRequest.Launch intent => handle_launch p intent
  | TerminalRequest.Inventory scope =>
      entries <-! read_coordinator (inventory scope) ;; st_ret (TerminalResponse.Inventory entries)
  | TerminalRequest.Attach terminal viewport =>
      viewport <-! protocol (viewport_geometry viewport) ;;
      attached <-! on_coordinator (GenericTerminal.attach_for_client json_length terminal (rc_connection context)
                                     (rc_client context) viewport) ;;
      st_ret (TerminalResponse.Attached attached)
  | TerminalRequest.Resume terminal after_offset =>
      output <-! on_coordinator (GenericTerminal.replay_from terminal after_offset (Some (rc_client context))) ;;
      status <-! on_coordinator (terminal_exit_status terminal) ;;
      st_ret (TerminalResponse.Resumed output (bool_decide (is_Some status)))
  | TerminalRequest.Resync terminal =>
      snapshot <-! on_coordinator (terminal_snapshot json_length terminal) ;;
      st_ret (TerminalResponse.Snapshot snapshot)
  | TerminalRequest.Resize terminal size =>
      g <-! protocol (geometry size) ;;
      snapshot <-! on_coordinator (GenericTerminal.resize json_length terminal g (Some (rc_client context))) ;;
      st_ret (TerminalResponse.Snapshot snapshot)
  | TerminalRequest.Detach terminal subscription =>
      on_coordinator (GenericTerminal.detach terminal subscription (rc_connection context)) ;;;
      st_ret TerminalResponse.Detached
  | TerminalRequest.Input terminal subscription input_seq input_operation bytes =>
      ack <-! handle_input (po_now p) terminal
                (MkInputRequest subscription (rc_connection context) (rc_client context) (rc_request context)
                   input_seq input_operation) bytes ;;
      st_ret (TerminalResponse.Input ack)
  | TerminalRequest.InputOutcome terminal input_operation =>
      outcome <-! on_coordinator (GenericTerminal.input_outcome (po_now p) terminal (rc_client context)
                                    input_operation) ;;
      st_ret (TerminalResponse.InputOutcome outcome)
  | TerminalRequest.CompletedInventory scope =>
      entries <-! read_coordinator (completed_inventory scope) ;;
      st_ret (TerminalResponse.CompletedInventory entries)
  | TerminalRequest.Observe _ _ | TerminalRequest.Dismiss _ _ =>
      refuse_request Negotiation.InvalidArgument "terminal visibility request requires the shared owner"
  end.

Definition disconnect (connection : ConnectionId) : req unit := on_coordinator (GenericTerminal.disconnect connection).

(** ** The events of the processes and of the daemon *)
Definition output (terminal : TerminalRef) (bytes : list N) : req Output :=
  answer <-! on_coordinator (output_with_replies terminal bytes) ;;
  (if length answer.2 =? 0 then st_ret tt
   else select_terminal terminal ;;;
        st_modify (fun r => set_ru_coordinator (write_replies answer.2 (ru_coordinator r)) r)) ;;;
  st_ret answer.1.

Definition releases (answer : result GenericTerminalError.t unit) : bool :=
  match answer with
  | Ok _ | Err (GenericTerminalError.ReconcileRequired PersistAfterExit) => true
  | _ => false
  end.

Definition exit (now : DateTime) (terminal : TerminalRef) (status : Z) : req unit :=
  answer <-! on_coordinator (st_try (GenericTerminal.exit now terminal status)) ;;
  (if releases answer then release_transport terminal else st_ret tt) ;;;
  protocol (map_err map_error answer).

Definition close_workspace (workspace : WorkspaceId) : req nat :=
  on_coordinator (GenericTerminal.close_workspace workspace).
Definition close_session (session : SessionId) : req nat := on_coordinator (GenericTerminal.close_session session).

(** [RetentionSpec] proves that a pass ends within its fuel. *)
Definition retention_pass (now : DateTime) (l : RetentionLedger) : option GcReport * RetentionLedger :=
  match TerminalLedger.collect now l with Some (report, l) => (Some report, l) | None => (None, l) end.

Definition collect_retention_garbage (now : DateTime) : req nat :=
  on_coordinator (on_retention (retention_pass now)) ;;;
  on_coordinator collect_garbage.

Definition retain_live_connections (live : gset ConnectionId) : req unit :=
  on_coordinator (GenericTerminal.retain_live_connections live).

Definition retained_resources (r : Runtime) : gset string :=
  list_to_set ((key ∘ dr_terminal ∘ snd) <$> co_records (ru_coordinator r)).

Definition search_targets (workspace : WorkspaceId) (r : Runtime) : list TerminalRef :=
  fst <$> cache_cleanup_activity workspace (ru_coordinator r).

Definition inspect (terminal : TerminalRef) : req Snapshot := on_coordinator (terminal_snapshot json_length terminal).
End runtime.
