(* ===== verification/TerminalIpcLaws.v ===== *)
(** * What the requests may change

    [expands] bounds what a call adds to the coordinator: the records it may
    create and the spawns it may ask for.  Every record that is not new keeps
    the identity of its launch.  The operations compose by transitivity. *)
From S2P Require Export GenericTerminalLife TerminalIpc.
From S2P Require Import Generation.

(** The launch a record stands for. *)
Definition identity (r : DurableTerminalRecord)
    : TerminalRef * CompletionFence * DurableTerminalLaunchSnapshot * option string :=
  (dr_terminal r, dr_operation r, dr_launch r, dr_launch_digest r).

Definition spawn_ask (x : HostEffect) : option (TerminalRef * ResolvedTerminalLaunch * Geometry) :=
  match x with SpawnAsked t launch g _ => Some (t, launch, g) | _ => None end.
Definition asks (c : Coordinator) : list (TerminalRef * ResolvedTerminalLaunch * Geometry) :=
  omap spawn_ask (co_host c).

Section frame.
Context {U : UnicodeWidth} {P : PtyAnswers} {H : HostAnswers}.
Context (json_length : ScreenCheckpoint -> option N) (sha256 : list N -> list N).
Context (new_record : string -> DurableTerminalRecord -> Prop).
Context (new_ask : TerminalRef * ResolvedTerminalLaunch * Geometry -> Prop).

Notation act := (st Coordinator CoordinatorFailure).

Record expands (c c' : Coordinator) : Prop := {
  gr_records : forall k r', btree_get k (co_records c') = Some r' ->
    (exists r, btree_get k (co_records c) = Some r /\ identity r' = identity r) \/
    (exists r, new_record k r /\ identity r' = identity r);
  gr_asks : forall x, x ∈ asks c' -> x ∈ asks c \/ new_ask x
}.

Lemma expands_refl c : expands c c.
Proof. split; [|by left]. intros k r Hr. left. by exists r. Qed.

Lemma expands_trans c1 c2 c3 : expands c1 c2 -> expands c2 c3 -> expands c1 c3.
Proof.
  intros [R1 A1] [R2 A2]. split.
  - intros k r' [(r & Hr & ->)|Hn]%R2; [|by right]. destruct (R1 k r Hr) as [(r0 & ? & ->)|(r0 & ? & ->)].
    + left. by exists r0.
    + right. by exists r0.
  - intros x [Hx|Hx]%A2; [|by right]. by apply A1.
Qed.

Lemma expands_same c c' : co_records c' = co_records c -> co_host c' = co_host c -> expands c c'.
Proof. intros Er Eh. split; unfold asks; rewrite ?Er, ?Eh; [intros k r Hr; left; by exists r|by left]. Qed.

Lemma expands_effect x c : (forall a, spawn_ask x = Some a -> new_ask a) -> expands c (record_host x c).
Proof.
  intros Hx. split; [intros k r Hr; left; by exists r|]. intros a. unfold asks. cbn. rewrite omap_app, elem_of_app.
  intros [?|Ha]; [by left|right]. cbn in Ha. destruct (spawn_ask x) as [b|] eqn:E; [|by apply not_elem_of_nil in Ha].
  apply list_elem_of_singleton in Ha as ->. by apply Hx.
Qed.

Lemma expands_put k f r c : btree_get k (co_records c) = Some r -> identity (f r) = identity r ->
  expands c (set_co_records (btree_put k (f r) (co_records c)) c).
Proof.
  intros Hg Hf. split; [|by left]. intros k' r'. cbn [co_records set_co_records]. rewrite btree_get_put.
  case_decide as Hk; [|intros Hr; left; by exists r']. subst k'. rewrite Hg. intros [= <-]. left. by exists r.
Qed.

(** ** Calls *)
Definition moves {A} (call : act A) (c : Coordinator) : Prop := expands c (call c).2.

Lemma moves_bind {A B} (call : act A) (k : A -> act B) c :
  moves call c -> (forall a, (call c).1 = Ok a -> moves (k a) (call c).2) -> moves (st_bind call k) c.
Proof.
  unfold moves, st_bind. destruct (call c) as [[a|e] c'] eqn:E; cbn [fst snd]; intros Hc Hk; [|done].
  eapply expands_trans; [exact Hc|]. by apply Hk.
Qed.

Lemma moves_ret {A} (a : A) c : moves (st_ret a) c.
Proof. apply expands_refl. Qed.
Lemma moves_get c : moves st_get c.
Proof. apply expands_refl. Qed.
Lemma moves_refused {A} e c : moves (A := A) (refused e) c.
Proof. apply expands_refl. Qed.
Lemma moves_throw {A} e c : moves (A := A) (st_throw e) c.
Proof. apply expands_refl. Qed.
Lemma moves_checked {A} (r : result GenericTerminalError.t A) c : moves (checked r) c.
Proof. apply expands_refl. Qed.
Lemma moves_ensure b e c : moves (st_ensure b e) c.
Proof. unfold moves, st_ensure. destruct b; apply expands_refl. Qed.
Lemma moves_try {A} (call : act A) c : moves call c -> moves (st_try call) c.
Proof. unfold moves, st_try. by destruct (call c) as [[a|[e|]] c']. Qed.
Lemma moves_terminals {A} error (call : st World Failure A) c : moves (on_terminals error call) c.
Proof. unfold moves, on_terminals. destruct (call (co_world c)). by apply expands_same. Qed.
Lemma moves_retention {A} (call : RetentionLedger -> A * RetentionLedger) c : moves (on_retention call) c.
Proof. unfold moves, on_retention. destruct (call (co_retention c)). by apply expands_same. Qed.
Lemma moves_world f c : moves (st_modify (fun c => set_co_world (f c) c)) c.
Proof. by apply expands_same. Qed.
Lemma moves_forget t c : moves (forget_terminal t) c.
Proof. by apply expands_same. Qed.
Lemma moves_persist c : moves persist c.
Proof. by apply expands_effect. Qed.
Lemma moves_reap t c : moves (reap t) c.
Proof. by apply expands_effect. Qed.

Lemma moves_remove k c : moves (remove_record k) c.
Proof.
  split; [|by left]. intros k' r'. cbn [snd remove_record on_records st_modify co_records set_co_records].
  rewrite btree_get_remove. case_decide; [done|]. intros Hr. left. by exists r'.
Qed.

Lemma moves_expect k f c : (forall r, identity (f r) = identity r) -> moves (expect_record k f) c.
Proof.
  intros Hf. unfold moves, expect_record, st_bind, st_get. cbn [fst snd].
  destruct (btree_get k (co_records c)) as [r|] eqn:E; [|apply expands_refl]. by apply expands_put.
Qed.

Lemma moves_record_mut t f c : (forall r, identity (f r) = identity r) -> moves (record_mut t f) c.
Proof.
  intros Hf. unfold moves. destruct (record t c) as [r|e] eqn:E.
  - rewrite (record_mut_run _ _ _ _ E). destruct (record_found _ _ _ E) as [Hg _]. by apply expands_put.
  - rewrite (record_mut_refused _ _ _ _ E). apply expands_refl.
Qed.

Lemma moves_iter {A} (body : A -> act unit) l c : (forall x c', moves (body x) c') -> moves (st_iter body l) c.
Proof.
  intros Hb. revert c. induction l as [|x l IH]; intros c; [apply moves_ret|]. apply moves_bind; [apply Hb|]. intros. apply IH.
Qed.
End frame.

Create HintDb moves.
#[export] Hint Resolve moves_ret moves_get moves_refused moves_throw moves_checked moves_ensure moves_try moves_terminals
  moves_retention moves_world moves_forget moves_persist moves_reap moves_remove moves_expect moves_record_mut moves_iter : moves.

(** One call of a handler after the other. *)
Ltac moving :=
  repeat first [ solve [auto with moves]
               | apply moves_bind; [|intros ? _]
               | apply moves_iter; intros
               | apply moves_try
               | match goal with |- moves _ _ (match ?x with _ => _ end) _ => destruct x end ].

(** ** The operations of the coordinator *)
Section operations.
Context {U : UnicodeWidth} {P : PtyAnswers} {H : HostAnswers}.
Context (json_length : ScreenCheckpoint -> option N) (sha256 : list N -> list N).

(** Nothing is created and nothing is asked for. *)
Notation still := (moves (fun _ _ => False) (fun _ => False)).

Lemma expands_weaken (R R' : string -> DurableTerminalRecord -> Prop) (A A' : _ -> Prop) c c' :
  (forall k r, R k r -> R' k r) -> (forall x, A x -> A' x) -> expands R A c c' -> expands R' A' c c'.
Proof.
  intros HR HA [R1 A1]. split.
  - intros k r' [?|(r & Hr & ?)]%R1; [by left|right]. exists r. auto.
  - intros x [?|?]%A1; auto.
Qed.

Lemma collect_still c : still collect_garbage c.
Proof.
  unfold collect_garbage, persist_quietly. moving.
Qed.

Lemma pin_still t c : still (set_pinned t) c.
Proof. unfold set_pinned. moving. Qed.
Lemma refresh_still c : still refresh_exited_retention_pins c.
Proof. unfold refresh_exited_retention_pins. moving. Qed.
Lemma running_still t c : still (ensure_running t) c.
Proof. unfold ensure_running. moving. Qed.
Lemma known_still t c : still (ensure_known t) c.
Proof. unfold ensure_known. moving. Qed.

Lemma exit_still now t status c : still (GenericTerminal.exit now t status) c.
Proof.
  unfold GenericTerminal.exit. moving.
Qed.

Lemma terminate_still targets failed c : still (terminate_all targets failed) c.
Proof. revert failed c. induction targets as [|r targets IH]; intros; cbn [terminate_all]; moving. Qed.

Lemma close_still selected c : still (close_matching selected) c.
Proof.
  unfold close_matching. moving. apply terminate_still.
Qed.

(** A launch creates its own record and asks for what was resolved. *)
Definition launch_record (request : TerminalLaunchRequest) (t : TerminalRef) (operation : CompletionFence)
    (g : Geometry) (k : string) (r : DurableTerminalRecord) : Prop :=
  k = key t /\ dr_terminal r = t /\ dr_operation r = operation /\
  dr_launch_digest r = Some (canonical_launch_digest request (tg_cols g) (tg_rows g)).
Definition launch_ask (request : TerminalLaunchRequest) (t : TerminalRef) (g : Geometry) (resolve : Resolver)
    (x : TerminalRef * ResolvedTerminalLaunch * Geometry) : Prop :=
  let '(t', launch, g') := x in
  t' = t /\ g' = g /\ resolve request = Ok launch /\ resolved_for request launch = true.

Lemma spawn_moves request t operation g resolve resolved c :
  resolve request = Ok resolved -> resolved_for request resolved = true ->
  moves (launch_record request t operation g) (launch_ask request t g resolve) (spawn resolved t g) c.
Proof. intros Hr Hf. apply expands_effect. by intros a [= <-]. Qed.

Lemma insert_moves (R : string -> DurableTerminalRecord -> Prop) (A : _ -> Prop) k r c : R k r ->
  moves R A (on_records (btree_insert k r)) c.
Proof.
  intros HR. split; [|by left]. intros k' r'. cbn [snd on_records st_modify co_records set_co_records].
  destruct (decide (k' = k)) as [->|Hk].
  - rewrite btree_get_insert. intros [= <-]. right. by exists r.
  - rewrite btree_get_insert_ne by done. intros Hr. left. by exists r'.
Qed.

Lemma admitted_moves request t operation g resolve c :
  moves (launch_record request t operation g) (launch_ask request t g resolve)
    (launch_admitted request t operation g resolve) c.
Proof.
  unfold launch_admitted. apply moves_bind; [auto with moves|]. intros resolved Hr.
  assert (Hok : resolve request = Ok resolved).
  { unfold checked, st_lift in Hr. cbn in Hr. by destruct (resolve request) as [x|]; [injection Hr as ->|]. }
  apply moves_bind; [auto with moves|]. intros [] He.
  assert (Hf : resolved_for request resolved = true).
  { unfold st_ensure in He. by destruct (resolved_for request resolved). }
  apply moves_bind; [by apply insert_moves|]. intros [] _.
  unfold after_spawn, refused. moving. by apply spawn_moves.
Qed.

Lemma collect_moves (R : string -> DurableTerminalRecord -> Prop) (A : _ -> Prop) c : moves R A collect_garbage c.
Proof. eapply expands_weaken; [| |apply collect_still]; done. Qed.

#[local] Hint Resolve admitted_moves collect_moves : moves.

Lemma launch_moves now request t operation g resolve c :
  moves (launch_record request t operation g) (launch_ask request t g resolve)
    (launch now request t operation g resolve) c.
Proof. unfold launch. moving. Qed.

(** What one operation of the coordinator may add. *)
Definition op_record (o : CoordinatorOp) (k : string) (r : DurableTerminalRecord) : Prop :=
  match o with LaunchTerminal _ request t operation g _ => launch_record request t operation g k r | _ => False end.
Definition op_ask (o : CoordinatorOp) (x : TerminalRef * ResolvedTerminalLaunch * Geometry) : Prop :=
  match o with LaunchTerminal _ request t _ g resolve => launch_ask request t g resolve x | _ => False end.

Lemma outcome_expands {A} (R : string -> DurableTerminalRecord -> Prop) (B : _ -> Prop) (call : st Coordinator CoordinatorFailure A) c :
  moves R B call c -> expands R B c (outcome (call c)).2.
Proof. done. Qed.

Lemma op_expands o c : expands (op_record o) (op_ask o) c (coordinator_op json_length sha256 o c).2.
Proof.
  destruct o; cbn [coordinator_op op_record op_ask]; try apply outcome_expands;
    [by apply launch_moves|unfold disconnect, retain_live_connections, attach, attach_for_client, detach, resize, input,
       input_outcome, reconcile; first [apply close_still|moving]..|by apply expands_same|by apply expands_same].
Qed.
End operations.
