(* ===== verification/TerminalIpcSpec.v ===== *)
(** * What the terminal requests promise

    Every request is a sequence of operations of the coordinator, so what
    [GenericTerminalSpec] proves holds of the runtime; a launch is replayed and
    not repeated; a process starts only in the checkout its scope resolves to. *)
From S2P Require Export TerminalIpcLaws GenericTerminalSpec.
From S2P Require Import Negotiation.
From S2P Require Import GenericTerminalSpec.

(** ** The operations of the runtime *)
Module RuntimeOp.
Inductive t : Type :=
| Handle (p : Ports) (context : TerminalRequestContext) (request : TerminalRequest.t)
| Disconnect (connection : ConnectionId)
| RetainLive (live : gset ConnectionId)
| Output (terminal : TerminalRef) (bytes : list N)
| Exit (now : DateTime) (terminal : TerminalRef) (status : Z)
| CloseWorkspace (workspace : WorkspaceId)
| CloseSession (session : SessionId)
| Collect (now : DateTime)
| Inspect (terminal : TerminalRef)
| OtherOwner (o : RetentionSpec.op).
End RuntimeOp.

Section spec.
Context {U : UnicodeWidth} {P : PtyAnswers} {H : HostAnswers}.
Context (json_length : ScreenCheckpoint -> option N) (sha256 : list N -> list N).

Notation req := (st Runtime RuntimeFailure).
Notation coordinator_ops := (coordinator_ops json_length sha256).
Notation lawful_run := (lawful_run json_length sha256).

Definition failed {A} (p : result RuntimeFailure A * Runtime) : option RuntimeFailure * Runtime :=
  (match p.1 with Ok _ => None | Err e => Some e end, p.2).

Definition runtime_op (o : RuntimeOp.t) (r : Runtime) : option RuntimeFailure * Runtime :=
  match o with
  | RuntimeOp.Handle p context request => failed (handle json_length sha256 p context request r)
  | RuntimeOp.Disconnect connection => failed (TerminalIpc.disconnect connection r)
  | RuntimeOp.RetainLive live => failed (TerminalIpc.retain_live_connections live r)
  | RuntimeOp.Output t bytes => failed (TerminalIpc.output t bytes r)
  | RuntimeOp.Exit now t status => failed (TerminalIpc.exit now t status r)
  | RuntimeOp.CloseWorkspace workspace => failed (TerminalIpc.close_workspace workspace r)
  | RuntimeOp.CloseSession session => failed (TerminalIpc.close_session session r)
  | RuntimeOp.Collect now => failed (collect_retention_garbage now r)
  | RuntimeOp.Inspect t => failed (inspect json_length t r)
  | RuntimeOp.OtherOwner o =>
      (None, set_ru_coordinator (set_co_retention (perform (co_retention (ru_coordinator r)) o) (ru_coordinator r)) r)
  end.

(** The terminal the operation reports as ended. *)
Definition reports (o : RuntimeOp.t) : gset TerminalRef :=
  match o with RuntimeOp.Exit _ t _ => {[t]} | _ => ∅ end.

Definition lawful_request (o : RuntimeOp.t) (r : Runtime) : Prop :=
  match o with RuntimeOp.OtherOwner o => lawful (OtherOwner o) (ru_coordinator r) | _ => True end.

Fixpoint runtime_ops (ops : list RuntimeOp.t) (r : Runtime) (gone : gset TerminalRef)
    : list (option RuntimeFailure) * Runtime * gset TerminalRef :=
  match ops with
  | [] => ([], r, gone)
  | o :: ops =>
      let '(f, r) := runtime_op o r in
      let '(fs, r, gone) := runtime_ops ops r (reports o ∪ gone) in
      (f :: fs, r, gone)
  end.

(** A lawful history of the coordinator that never gives up a process. *)
Definition keeping_run (ops : list CoordinatorOp) (c : Coordinator) : Prop :=
  lawful_run ops c /\ disowned json_length sha256 ops c = ∅.

Fixpoint lawful_requests (ops : list RuntimeOp.t) (r : Runtime) : Prop :=
  match ops with
  | [] => True
  | o :: ops => lawful_request o r /\ lawful_requests ops (runtime_op o r).2
  end.

(** ** Sequences *)
Lemma coordinator_ops_app ops ops' c gone :
  coordinator_ops (ops ++ ops') c gone =
  let '(fs, c, gone) := coordinator_ops ops c gone in
  let '(fs', c, gone) := coordinator_ops ops' c gone in (fs ++ fs', c, gone).
Proof.
  revert c gone. induction ops as [|o ops IH]; intros c gone; cbn [app GenericTerminalLife.coordinator_ops].
  { by destruct (coordinator_ops ops' c gone) as [[? ?] ?]. }
  destruct (coordinator_op json_length sha256 o c) as [f c1]. rewrite IH.
  destruct (coordinator_ops ops c1 _) as [[fs c2] gone2]. by destruct (coordinator_ops ops' c2 gone2) as [[? ?] ?].
Qed.

Lemma lawful_run_app ops ops' c gone fs c' gone' : coordinator_ops ops c gone = (fs, c', gone') ->
  lawful_run ops c -> lawful_run ops' c' -> lawful_run (ops ++ ops') c.
Proof.
  revert c gone fs. induction ops as [|o ops IH]; intros c gone fs; cbn [app GenericTerminalLife.coordinator_ops].
  { by intros [= _ <- _]. }
  destruct (coordinator_op json_length sha256 o c) as [f c1] eqn:E.
  destruct (coordinator_ops ops c1 _) as [[fs1 c2] gone2] eqn:E2. intros [= _ <- <-] [Ho Hl] Hl'.
  split; [done|]. rewrite E in *. by eapply IH.
Qed.

Lemma keeping_run_app ops ops' c gone fs c' gone' : coordinator_ops ops c gone = (fs, c', gone') ->
  keeping_run ops c -> keeping_run ops' c' -> keeping_run (ops ++ ops') c.
Proof.
  intros E [Hl Hd] [Hl' Hd']. split; [by eapply lawful_run_app|]. clear Hl Hl'.
  revert c gone fs E Hd. induction ops as [|o ops IH]; intros c gone fs; cbn [app GenericTerminalLife.coordinator_ops disowned].
  { by intros [= _ <- _]. }
  destruct (coordinator_op json_length sha256 o c) as [f c1] eqn:E.
  destruct (coordinator_ops ops c1 _) as [[fs1 c2] gone2] eqn:E2. cbn [snd]. intros [= _ <- <-] [Hd1 Hd2]%empty_union_L.
  rewrite Hd1, union_empty_l_L. by eapply IH.
Qed.

Lemma keeping_one o c : lawful o c -> disowns o c = ∅ -> keeping_run [o] c.
Proof. intros Hl Hd. split; [by split|]. cbn [disowned]. rewrite Hd. by rewrite union_empty_l_L. Qed.

Lemma keeping_inv ops c gone fs c' gone' : inv gone c -> keeping_run ops c ->
  coordinator_ops ops c gone = (fs, c', gone') -> inv gone' c'.
Proof.
  intros Hi [Hl Hd] E. assert (Hi0 : inv (gone ∪ ∅) c) by (by rewrite union_empty_r_L).
  assert (Hok := coordinator_ops_ok json_length sha256 ops gone ∅ _ Hi0 Hl). rewrite E, Hd, !union_empty_r_L in Hok. apply Hok.
Qed.

(** ** The simulation *)
(** From a state within the invariant: the call does not panic, it is a sequence
    of operations of the coordinator, and it adds what [R] and [A] bound. *)
Section simulates.
Context (R : string -> DurableTerminalRecord -> Prop) (B : TerminalRef * ResolvedTerminalLaunch * Geometry -> Prop).

Definition simulates (gone gone' : gset TerminalRef) {A} (call : req A) (r : Runtime) : Prop :=
  inv gone (ru_coordinator r) ->
  (call r).1 <> Err RuntimePanicked /\ ru_generation (call r).2 = ru_generation r /\
  expands R B (ru_coordinator r) (ru_coordinator (call r).2) /\
  exists ops fs, keeping_run ops (ru_coordinator r) /\
    coordinator_ops ops (ru_coordinator r) gone = (fs, ru_coordinator (call r).2, gone').

Lemma simulates_inv gone gone' {A} (call : req A) r : inv gone (ru_coordinator r) ->
  simulates gone gone' call r -> inv gone' (ru_coordinator (call r).2).
Proof.
  intros Hi (_ & _ & _ & ops & fs & Hl & E)%(fun Hs => Hs Hi).
  by eapply keeping_inv.
Qed.

Lemma simulates_bind gone gone' {A A'} (call : req A) (k : A -> req A') r :
  simulates gone gone' call r -> (forall a r', (call r).1 = Ok a -> r' = (call r).2 -> simulates gone' gone' (k a) r') ->
  simulates gone gone' (st_bind call k) r.
Proof.
  intros Hs Hk Hi. assert (Hi' := simulates_inv gone gone' call r Hi Hs).
  destruct (Hs Hi) as (Hp & Hg & Hgr & ops & fs & Hl & E). unfold st_bind.
  destruct (call r) as [[a|e] r1]; cbn [fst snd] in *.
  2: { split_and!; [by intros [= ->]|done|done|]. by exists ops, fs. }
  destruct (Hk a r1 eq_refl eq_refl Hi') as (Hp2 & Hg2 & Hgr2 & ops2 & fs2 & Hl2 & E2).
  split_and!; [done|by rewrite Hg2|by eapply expands_trans|].
  exists (ops ++ ops2), (fs ++ fs2). split; [by eapply keeping_run_app|]. by rewrite coordinator_ops_app, E, E2.
Qed.

(** The coordinator is left alone. *)
Lemma simulates_still gone {A} (call : req A) r : (call r).1 <> Err RuntimePanicked ->
  ru_generation (call r).2 = ru_generation r -> ru_coordinator (call r).2 = ru_coordinator r ->
  simulates gone gone call r.
Proof.
  intros Hp Hg Hc Hi. rewrite Hc. split_and!; [done|done|apply expands_refl|]. by exists [], [].
Qed.

Lemma simulates_ret gone {A} (a : A) r : simulates gone gone (st_ret a) r.
Proof. by apply simulates_still. Qed.
Lemma simulates_get gone r : simulates gone gone st_get r.
Proof. by apply simulates_still. Qed.
Lemma simulates_protocol gone {A} (a : result ProtocolError A) r : simulates gone gone (protocol a) r.
Proof. apply simulates_still; [by destruct a|done|done]. Qed.
Lemma simulates_refuse gone {A} code message r : simulates gone gone (refuse_request (A := A) code message) r.
Proof. by apply simulates_still. Qed.
Lemma simulates_ensure gone b e r : simulates gone gone (st_ensure b (Answered e)) r.
Proof. by apply simulates_still; destruct b. Qed.
Lemma simulates_select gone t r : simulates gone gone (select_terminal t) r.
Proof. by apply simulates_still. Qed.
Lemma simulates_release gone t r : simulates gone gone (release_transport t) r.
Proof. by apply simulates_still. Qed.
Lemma simulates_read gone {A} (f : Coordinator -> A) r : simulates gone gone (read_coordinator f) r.
Proof. by apply simulates_still. Qed.

(** A reading of the coordinator that may refuse. *)
Lemma simulates_reading gone {A} (call : st Coordinator CoordinatorFailure A) r :
  (call (ru_coordinator r)).2 = ru_coordinator r -> (call (ru_coordinator r)).1 <> Err CoordinatorPanicked ->
  simulates gone gone (on_coordinator call) r.
Proof.
  intros Hs Hp. apply simulates_still; unfold on_coordinator; destruct (call (ru_coordinator r)) as [[a|[]] c]; done.
Qed.

Lemma simulates_op gone gone' o {A} (call : st Coordinator CoordinatorFailure A) r :
  outcome (call (ru_coordinator r)) = coordinator_op json_length sha256 o (ru_coordinator r) ->
  lawful o (ru_coordinator r) -> disowns o (ru_coordinator r) = ∅ -> gone' = ends o ∪ gone ->
  (forall k x, op_record o k x -> R k x) -> (forall x, op_ask o x -> B x) ->
  simulates gone gone' (on_coordinator call) r.
Proof.
  intros E Hl Hd -> HR HB Hi.
  assert (Hi2 : inv (ends o ∪ gone) (ru_coordinator r)) by (eapply inv_gone_mono; [|exact Hi]; set_solver).
  destruct (coordinator_op_ok json_length sha256 _ o _ Hi2 Hl) as [Hp _]; [set_solver|].
  assert (Hg := expands_weaken _ R _ B _ _ HR HB (op_expands json_length sha256 o (ru_coordinator r))).
  rewrite <- E in Hp, Hg. unfold on_coordinator, outcome in *.
  destruct (call (ru_coordinator r)) as [a c'] eqn:Ec. cbn [fst snd ru_coordinator ru_generation set_ru_coordinator] in *.
  split_and!; [by destruct a as [|[]]|done|done|].
  exists [o]. eexists. split; [by apply keeping_one|]. cbn [GenericTerminalLife.coordinator_ops]. by rewrite <- E.
Qed.

Lemma simulates_quiet gone o {A} (call : st Coordinator CoordinatorFailure A) r :
  outcome (call (ru_coordinator r)) = coordinator_op json_length sha256 o (ru_coordinator r) ->
  lawful o (ru_coordinator r) -> disowns o (ru_coordinator r) = ∅ -> ends o = ∅ ->
  (forall k x, op_record o k x -> R k x) -> (forall x, op_ask o x -> B x) ->
  simulates gone gone (on_coordinator call) r.
Proof. intros. eapply simulates_op; try done. set_solver. Qed.
End simulates.

(** ** What a request adds *)
(** The record of a launch that no record of its producer precedes. *)
Definition request_record (o : RuntimeOp.t) (r : Runtime) (k : string) (x : DurableTerminalRecord) : Prop :=
  match o with
  | RuntimeOp.Handle p _ (TerminalRequest.Launch intent) =>
      let t := minted_terminal p (ru_generation r) (lr_scope (li_request intent)) in
      recorded_launch intent (ru_coordinator r) = None /\ k = key t /\ dr_terminal x = t /\
      cf_operation_id (dr_operation x) = default (po_operation_id p) (li_launch_operation intent) /\
      dr_launch_digest x = Some (canonical_digest intent)
  | _ => False
  end.

(** A spawn in the checkout that the owner of the scopes gave for the scope of
    the request, for a terminal of that scope and at the geometry asked for. *)
Definition spawns_for (p : Ports) (intent : TerminalLaunchIntent) (generation : DaemonGeneration)
    (x : TerminalRef * ResolvedTerminalLaunch * Geometry) : Prop :=
  let '(t, launch, g) := x in
  let scope := lr_scope (li_request intent) in
  t = minted_terminal p generation scope /\ g = li_geometry intent /\ geometry g = Ok g /\
  dl_request (rt_snapshot launch) = li_request intent /\
  exists checkout, po_scope p scope = Some checkout /\ rs_scope checkout = scope /\
    dl_working_directory (rt_snapshot launch) = rs_working_directory checkout.

Definition request_ask (o : RuntimeOp.t) (r : Runtime) (x : TerminalRef * ResolvedTerminalLaunch * Geometry) : Prop :=
  match o with
  | RuntimeOp.Handle p _ (TerminalRequest.Launch intent) => spawns_for p intent (ru_generation r) x
  | _ => False
  end.

Lemma protocol_ok {A} (a : result ProtocolError A) r x : (protocol a r).1 = Ok x -> a = Ok x.
Proof. unfold protocol, st_lift. destruct a; cbn; [by intros [= ->]|done]. Qed.

Lemma geometry_ok g g' : geometry g = Ok g' -> g' = g.
Proof. unfold geometry. destruct (_ && _); [by intros [= <-]|done]. Qed.

(** The trusted checkout replaces the directory of the profile. *)
Lemma scoped_directory (profile : Resolver) directory request launch :
  scoped_resolve profile directory request = Ok launch ->
  dl_working_directory (rt_snapshot launch) = directory.
Proof.
  unfold scoped_resolve. destruct (profile request) as [resolved|]; cbn [res_bind]; [|done].
  unfold DurableTerminalLaunchSnapshot_new. destruct (_ =? 0)%N; [done|]. destruct (_ || _ || _); [done|].
  destruct (String.length directory =? 0); [done|]. cbn [res_bind].
  unfold ResolvedTerminalLaunch_new. destruct (_ || _); [done|]. by intros [= <-].
Qed.

Lemma launch_simulates gone p context intent r :
  let o := RuntimeOp.Handle p context (TerminalRequest.Launch intent) in
  simulates (request_record o r) (request_ask o r) gone gone (handle_launch p intent) r.
Proof.
  intros o. unfold handle_launch. apply (simulates_bind _ _ gone gone); [by apply simulates_protocol|].
  intros checkout r1 Hc%protocol_ok ->.
  apply (simulates_bind _ _ gone gone); [by apply simulates_ensure|]. intros [] r1 He ->.
  assert (Hscope : rs_scope checkout = lr_scope (li_request intent)).
  { unfold st_ensure in He. destruct (bool_decide _) eqn:Hb; [by apply bool_decide_eq_true in Hb|done]. }
  replace (st_ensure _ _ _).2 with r by (unfold st_ensure; by destruct (bool_decide _)).
  apply (simulates_bind _ _ gone gone); [by apply simulates_get|]. intros r0 r1 [= <-] ->.
  destruct (recorded_launch intent (ru_coordinator r)) as [[producer recorded]|] eqn:Erec.
  { destruct (negb _); [by apply simulates_refuse|by apply simulates_ret]. }
  apply (simulates_bind _ _ gone gone); [by apply simulates_protocol|]. intros g r1 Hg%protocol_ok ->.
  assert (E := geometry_ok _ _ Hg). subst g.
  apply (simulates_bind _ _ gone gone); [|intros; by apply simulates_ret].
  set (t := minted_terminal _ _ _). set (operation := launch_fence _ _). set (resolve := scoped_resolve _ _).
  apply (simulates_quiet _ _ _ (LaunchTerminal (po_now p) (li_request intent) t operation (li_geometry intent) resolve));
    try done.
  - intros k x (-> & Ht & Ho & Hd). split_and!; [done|done|done|by rewrite Ho|done].
  - intros [[t' launch] g'] (-> & -> & Hr & Hf). cbn. split_and!; [done|done|done| |].
    + unfold resolved_for in Hf. apply andb_true_iff in Hf as [Hf _]. by apply bool_decide_eq_true in Hf.
    + exists checkout. split_and!; [|done|by eapply scoped_directory].
      by destruct (po_scope p _); [injection Hc as ->|].
Qed.
(** ** Every operation *)
(** What an operation of the runtime is for the coordinator. *)
Definition stepped (gone : gset TerminalRef) (o : RuntimeOp.t) (r : Runtime)
    (res : option RuntimeFailure * Runtime) : Prop :=
  res.1 <> Some RuntimePanicked /\ ru_generation res.2 = ru_generation r /\
  expands (request_record o r) (request_ask o r) (ru_coordinator r) (ru_coordinator res.2) /\
  exists ops fs, keeping_run ops (ru_coordinator r) /\
    coordinator_ops ops (ru_coordinator r) gone = (fs, ru_coordinator res.2, reports o ∪ gone).

Lemma stepped_failed {A} gone o (call : req A) r :
  simulates (request_record o r) (request_ask o r) gone (reports o ∪ gone) call r ->
  inv gone (ru_coordinator r) -> stepped gone o r (failed (call r)).
Proof.
  intros Hs Hi. destruct (Hs Hi) as (Hp & Hg & He & Hops). split_and!; [|done|done|done].
  unfold failed. destruct (call r).1 as [|e]; [done|]. by intros [= ->].
Qed.

Lemma input_simulates R B gone now t request bytes r :
  simulates R B gone gone (handle_input sha256 now t request bytes) r.
Proof.
  apply (simulates_bind _ _ gone gone).
  { apply simulates_reading; unfold ensure_running, st_bind, st_get, checked; by destruct (running t _). }
  intros a r1 _ _. apply (simulates_bind _ _ gone gone); [by apply simulates_select|]. intros b r2 _ _.
  by apply (simulates_quiet _ _ _ (TypeInput now t request bytes)).
Qed.

Lemma replay_reading t offset client c :
  (GenericTerminal.replay_from t offset client c).2 = c /\
  (GenericTerminal.replay_from t offset client c).1 <> Err CoordinatorPanicked.
Proof.
  unfold GenericTerminal.replay_from, st_bind, st_get, checked, st_lift.
  destruct (replayable t c) as [[]|]; cbn; [|done]. by destruct (TerminalRegistry.replay_from _ _ _ _).
Qed.

Lemma status_reading t c :
  (terminal_exit_status t c).2 = c /\ (terminal_exit_status t c).1 <> Err CoordinatorPanicked.
Proof.
  unfold terminal_exit_status, ensure_known, st_bind, st_get, checked, st_lift.
  destruct (record t c) as [x|]; cbn; [|done]. by destruct (TerminalRegistry.exit_status _ _).
Qed.

(** One call of the coordinator, then the answer. *)
Lemma simulates_answer {A A'} R B gone gone' (call : req A) (answer : A -> A') r :
  simulates R B gone gone' call r -> simulates R B gone gone' (a <-! call ;; st_ret (answer a)) r.
Proof. intros Hs. apply (simulates_bind _ _ gone gone'); [done|]. intros. by apply simulates_ret. Qed.

Lemma handle_simulates gone p context request r :
  let o := RuntimeOp.Handle p context request in
  simulates (request_record o r) (request_ask o r) gone gone (handle json_length sha256 p context request) r.
Proof.
  intros o. destruct request; cbn [handle]; try apply simulates_answer.
  - by apply launch_simulates.
  - apply simulates_read.
  - apply (simulates_bind _ _ gone gone); [by apply simulates_protocol|]. intros viewport r1 _ _.
    apply simulates_answer.
    by apply (simulates_quiet _ _ _ (AttachTerminalFor terminal (rc_connection context) (rc_client context) viewport)).
  - apply (simulates_bind _ _ gone gone); [by apply simulates_reading; apply replay_reading|]. intros out r1 _ _.
    apply simulates_answer. by apply simulates_reading; apply status_reading.
  - by apply (simulates_quiet _ _ _ (SnapshotTerminal terminal)).
  - apply input_simulates.
  - by apply (simulates_quiet _ _ _ (AskOutcome (po_now p) terminal (rc_client context) input_operation)).
  - apply (simulates_bind _ _ gone gone); [by apply simulates_protocol|]. intros g r1 _ _.
    apply simulates_answer. by apply (simulates_quiet _ _ _ (ResizeTo terminal g (Some (rc_client context)))).
  - by apply (simulates_quiet _ _ _ (DetachTerminal terminal subscription (rc_connection context))).
  - apply simulates_read.
  - apply simulates_refuse.
  - apply simulates_refuse.
Qed.

Lemma output_simulates R B gone t bytes r : simulates R B gone gone (TerminalIpc.output t bytes) r.
Proof.
  apply (simulates_bind _ _ gone gone); [by apply (simulates_quiet _ _ _ (PrintOutput t bytes))|].
  intros [out replies] r1 _ _. apply simulates_answer. cbn [snd].
  destruct (length replies =? 0); [by apply simulates_ret|].
  apply (simulates_bind _ _ gone gone); [by apply simulates_select|]. intros _ r2 _ _ Hi. split_and!; [done|done| |].
  - by apply expands_same.
  - exists [OtherWrite replies], [None]. split; [by apply keeping_one|]. cbn. by rewrite union_empty_l_L.
Qed.

Lemma exit_simulates R B gone now t status r :
  simulates R B gone ({[t]} ∪ gone) (TerminalIpc.exit now t status) r.
Proof.
  apply (simulates_bind _ _ _ ({[t]} ∪ gone)).
  - intros Hi. assert (Hs : simulates R B gone ({[t]} ∪ gone) (on_coordinator (GenericTerminal.exit now t status)) r)
      by (by apply (simulates_op _ _ _ _ (ExitProcess now t status))).
    destruct (Hs Hi) as (Hp & Hrest). unfold on_coordinator, st_try in *.
    destruct (GenericTerminal.exit now t status (ru_coordinator r)) as [[a|[e|]] c]; cbn [fst snd map_err] in *;
      (split; [done|exact Hrest]).
  - intros a r1 _ _. apply (simulates_bind _ _ _ ({[t]} ∪ gone)).
    + destruct (releases a); [apply simulates_release|apply simulates_ret].
    + intros. apply simulates_protocol.
Qed.

Lemma collect_simulates R B gone now r : simulates R B gone gone (collect_retention_garbage now) r.
Proof.
  apply (simulates_bind _ _ gone gone).
  - apply (simulates_quiet _ _ _ (OtherOwner (RetentionSpec.Collect now))); try done.
    unfold outcome, on_retention, retention_pass. cbn [coordinator_op perform].
    by destruct (TerminalLedger.collect now _) as [[report l]|].
  - intros. by apply (simulates_quiet _ _ _ CollectGarbage).
Qed.

Lemma op_stepped gone o r : lawful_request o r -> inv gone (ru_coordinator r) -> stepped gone o r (runtime_op o r).
Proof.
  intros Hl Hi. destruct o; cbn [runtime_op];
    try (apply stepped_failed; [cbn [reports]; rewrite ?union_empty_l_L|exact Hi]).
  - by apply handle_simulates.
  - by apply (simulates_quiet _ _ _ (DisconnectClient connection)).
  - by apply (simulates_quiet _ _ _ (RetainConnections live)).
  - apply output_simulates.
  - apply exit_simulates.
  - by apply (simulates_quiet _ _ _ (CloseWorkspace workspace)).
  - by apply (simulates_quiet _ _ _ (CloseSession session)).
  - apply collect_simulates.
  - by apply (simulates_quiet _ _ _ (SnapshotTerminal terminal)).
  - split_and!; [done|done|by apply expands_same|]. exists [OtherOwner o], [None]. split; [by apply keeping_one|done].
Qed.
Lemma runtime_op_keeps gone o r : lawful_request o r -> inv gone (ru_coordinator r) ->
  inv (reports o ∪ gone) (ru_coordinator (runtime_op o r).2).
Proof.
  intros Hl Hi. destruct (op_stepped gone o r Hl Hi) as (_ & _ & _ & cops & fs & Hcl & E).
  by eapply keeping_inv.
Qed.

(** ** Histories *)
Lemma ops_stepped ops r gone failures r' gone' : inv gone (ru_coordinator r) -> lawful_requests ops r ->
  runtime_ops ops r gone = (failures, r', gone') ->
  Some RuntimePanicked ∉ failures /\ ru_generation r' = ru_generation r /\ inv gone' (ru_coordinator r') /\
  exists cops fs, keeping_run cops (ru_coordinator r) /\
    coordinator_ops cops (ru_coordinator r) gone = (fs, ru_coordinator r', gone').
Proof.
  revert r gone failures. induction ops as [|o ops IH]; intros r gone failures Hi Hl; cbn [runtime_ops].
  { intros [= <- <- <-]. split_and!; [apply not_elem_of_nil|done|done|]. by exists [], []. }
  destruct Hl as [Ho Hl]. destruct (op_stepped gone o r Ho Hi) as (Hp & Hg & _ & cops & fs & Hcl & E).
  assert (Hi1 := runtime_op_keeps gone o r Ho Hi).
  destruct (runtime_op o r) as [f r1]. cbn [fst snd] in *.
  destruct (runtime_ops ops r1 (reports o ∪ gone)) as [[fs2 r2] gone2] eqn:E2. intros [= <- <- <-].
  destruct (IH _ _ _ Hi1 Hl E2) as (Hp2 & Hg2 & Hi2 & cops2 & fs3 & Hcl2 & E3). split_and!; [|congruence|done|].
  - intros [<-|?]%elem_of_cons; auto.
  - exists (cops ++ cops2), (fs ++ fs3). split; [by eapply keeping_run_app|]. by rewrite coordinator_ops_app, E, E3.
Qed.

Lemma asks_of_ops ops r gone failures r' gone' x : inv gone (ru_coordinator r) -> lawful_requests ops r ->
  runtime_ops ops r gone = (failures, r', gone') -> x ∈ asks (ru_coordinator r') ->
  x ∈ asks (ru_coordinator r) \/
  exists p context intent, RuntimeOp.Handle p context (TerminalRequest.Launch intent) ∈ ops /\
    spawns_for p intent (ru_generation r) x.
Proof.
  revert r gone failures. induction ops as [|o ops IH]; intros r gone failures Hi Hl; cbn [runtime_ops].
  { intros [= <- <- <-]. by left. }
  destruct Hl as [Ho Hl]. destruct (op_stepped gone o r Ho Hi) as (_ & Hg & [_ Ha] & _).
  assert (Hi1 := runtime_op_keeps gone o r Ho Hi).
  destruct (runtime_op o r) as [f r1]. cbn [fst snd] in *.
  destruct (runtime_ops ops r1 (reports o ∪ gone)) as [[fs2 r2] gone2] eqn:E2. intros [= <- <- <-] Hx.
  destruct (IH _ _ _ Hi1 Hl E2 Hx) as [Hx1|(p & context & intent & Hin & Hs)].
  - apply Ha in Hx1 as [?|Hx1]; [by left|right]. destruct o; try done. destruct request; try done.
    exists p, context, intent. split; [by left|done].
  - right. exists p, context, intent. rewrite <- Hg. split; [by right|done].
Qed.

(** ** The identity of a launch *)
(** The record of [t] was launched under [operation] with the digest, and it is
    the only one of that operation. *)
Definition sole (t : TerminalRef) (operation : OperationId) (digest : string) (c : Coordinator) : Prop :=
  forall r, btree_get (key t) (co_records c) = Some r ->
    dr_terminal r = t /\ cf_operation_id (dr_operation r) = operation /\ dr_launch_digest r = Some digest /\
    forall k r', btree_get k (co_records c) = Some r' -> cf_operation_id (dr_operation r') = operation -> k = key t.

(** Ids that the daemon mints are fresh: those of the request are neither [t]'s
    nor [operation]. *)
Definition mints_afresh (t : TerminalRef) (operation : OperationId) (o : RuntimeOp.t) : Prop :=
  match o with
  | RuntimeOp.Handle p _ _ => Ids.as_str (po_terminal_id p) <> key t /\ po_operation_id p <> operation
  | _ => True
  end.

Lemma identity_fields r r' : identity r' = identity r ->
  dr_terminal r' = dr_terminal r /\ cf_operation_id (dr_operation r') = cf_operation_id (dr_operation r) /\
  dr_launch_digest r' = dr_launch_digest r.
Proof. unfold identity. by intros [= -> -> _ ->]. Qed.

Lemma no_recorded intent c : recorded_launch intent c = None ->
  match li_launch_operation intent with
  | Some producer => forall k r, btree_get k (co_records c) = Some r -> cf_operation_id (dr_operation r) <> producer
  | None => True
  end.
Proof.
  unfold recorded_launch, launch_by_operation. destruct (li_launch_operation intent) as [producer|]; [|done]. cbn.
  destruct (find_first _ _) as [kr|] eqn:E; [done|]. intros _ k r Hr%btree_get_elem Ho.
  apply (proj1 (find_first_None _ _)) with (x := (k, r)) in E; [|done]. by apply bool_decide_eq_false in E.
Qed.

Lemma sole_kept t operation digest o r c' : mints_afresh t operation o ->
  expands (request_record o r) (request_ask o r) (ru_coordinator r) c' ->
  sole t operation digest (ru_coordinator r) -> sole t operation digest c'.
Proof.
  intros Hf [Hr _] Hs x Hx.
  assert (Hnew : forall k y, request_record o r k y -> k <> key t).
  { intros k y Hy ->. destruct o; try done. destruct request; try done. destruct Hy as (_ & Hk & _). by destruct Hf. }
  destruct (Hr _ _ Hx) as [(x0 & H0 & E)|(y & Hy & _)]; [|by destruct (Hnew _ _ Hy)].
  destruct (identity_fields _ _ E) as (-> & -> & ->). destruct (Hs _ H0) as (Ht & Ho & Hd & Hsole). split_and!; [done|done|done|].
  intros k z Hz Hzo. destruct (Hr _ _ Hz) as [(z0 & Hz0 & Ez)|(y & Hy & Ey)].
  - destruct (identity_fields _ _ Ez) as (_ & Eo & _). apply (Hsole k z0 Hz0). congruence.
  - destruct (identity_fields _ _ Ey) as (_ & Eo & _). rewrite Hzo in Eo. destruct o; try done. destruct request; try done.
    destruct Hy as (Hnone & _ & _ & Hyo & _). apply no_recorded in Hnone. rewrite Hyo in Eo.
    destruct (li_launch_operation intent) as [producer|]; cbn in Eo.
    + subst producer. by destruct (Hnone _ _ H0).
    + by destruct Hf.
Qed.

Lemma sole_ops t operation digest ops r gone failures r' gone' :
  inv gone (ru_coordinator r) -> lawful_requests ops r -> Forall (mints_afresh t operation) ops ->
  runtime_ops ops r gone = (failures, r', gone') ->
  sole t operation digest (ru_coordinator r) -> sole t operation digest (ru_coordinator r').
Proof.
  revert r gone failures. induction ops as [|o ops IH]; intros r gone failures Hi Hl Hm; cbn [runtime_ops].
  { by intros [= <- <- <-]. }
  apply Forall_cons in Hm as [Hof Hm]. destruct Hl as [Ho Hl].
  destruct (op_stepped gone o r Ho Hi) as (_ & _ & He & _).
  assert (Hi1 := runtime_op_keeps gone o r Ho Hi).
  destruct (runtime_op o r) as [f r1]. cbn [fst snd] in *.
  destruct (runtime_ops ops r1 (reports o ∪ gone)) as [[fs2 r2] gone2] eqn:E2. intros [= <- <- <-] Hs.
  eapply IH; [exact Hi1|done|done|done|]. by eapply sole_kept.
Qed.
(** A launch that is answered as new ran on the coordinator. *)
Lemma handle_launch_new p intent r t operation r1 :
  handle_launch p intent r = (Ok (TerminalResponse.Launch t operation false), r1) ->
  recorded_launch intent (ru_coordinator r) = None /\
  t = minted_terminal p (ru_generation r) (lr_scope (li_request intent)) /\
  exists now request fence g resolve, launch now request t fence g resolve (ru_coordinator r) = (Ok tt, ru_coordinator r1).
Proof.
  intros (checkout & s1 & E1 & Hh)%st_bind_ok_inv. injection E1 as _ <-.
  apply st_bind_ok_inv in Hh as ([] & s2 & E2 & Hh).
  assert (s2 = r) as ->. { unfold st_ensure in E2. destruct (bool_decide _); by injection E2. }
  apply st_bind_ok_inv in Hh as (r0 & s3 & E3 & Hh). injection E3 as <- <-.
  destruct (recorded_launch intent (ru_coordinator r)) as [[producer recorded]|].
  { destruct (negb _); [done|]. by injection Hh. }
  split; [done|]. apply st_bind_ok_inv in Hh as (g & s4 & E4 & Hh). injection E4 as _ <-.
  apply st_bind_ok_inv in Hh as ([] & s5 & E5 & Hh). injection Hh as <- _ <-.
  split; [done|]. unfold on_coordinator in E5. match type of E5 with context [launch ?a ?b ?c ?d ?e ?f ?x] =>
    exists a, b, d, e, f; destruct (launch a b c d e f x) as [[[]|] c1] end; [|done].
  cbn in E5. by injection E5 as <-.
Qed.

(** A first launch leaves the only record of its operation. *)
Lemma launched_sole gone p context intent r t operation r1 : inv gone (ru_coordinator r) ->
  li_launch_operation intent = Some operation ->
  handle json_length sha256 p context (TerminalRequest.Launch intent) r = (Ok (TerminalResponse.Launch t operation false), r1) ->
  sole t operation (canonical_digest intent) (ru_coordinator r1).
Proof.
  intros Hi Hop Hh. assert (Hst := op_stepped gone (RuntimeOp.Handle p context (TerminalRequest.Launch intent)) r I Hi).
  cbn [runtime_op] in Hst. rewrite Hh in Hst. destruct Hst as (_ & _ & [He _] & _).
  cbn [failed fst snd request_record] in He. cbn [handle] in Hh.
  destruct (handle_launch_new _ _ _ _ _ _ Hh) as (Erec & Ht & now & request & fence & g & resolve & El).
  assert (Hl := launch_spec gone now request t fence g resolve _ Hi). unfold wp in Hl. rewrite El in Hl.
  destruct Hl as (_ & _ & _ & _ & Hroom & fx & Hfx & Hout). cbn [fst snd] in *.
  destruct Hout as [(pr & Hask & _)|(_ & (e & ?) & _)]; [|done].
  assert (Hnone : btree_get (key t) (co_records (ru_coordinator r)) = None).
  { destruct Hroom as [(_ & e & ?)|(_ & ? & _)]; done. }
  assert (Hno := no_recorded _ _ Erec). rewrite Hop in Hno. intros x Hx.
  destruct (He _ _ Hx) as [(x0 & H0 & _)|(y & (_ & Hk & Hyt & Hyo & Hyd) & E)]; [congruence|].
  destruct (identity_fields _ _ E) as (-> & -> & ->). rewrite Hop in Hyo.
  split_and!; [congruence|done|done|].
  intros k z Hz Hzo. destruct (He _ _ Hz) as [(z0 & Hz0 & Ez)|(w & (_ & Hkw & _) & _)]; [|congruence].
  destruct (identity_fields _ _ Ez) as (_ & Eo & _). destruct (Hno _ _ Hz0). congruence.
Qed.

Lemma sole_found gone t operation digest c r : inv gone c -> sole t operation digest c -> record t c = Ok r ->
  launch_by_operation operation c = Some r /\ dr_launch_digest r = Some digest /\ dr_terminal r = t.
Proof.
  intros Hi Hs Hr. destruct (record_found _ _ _ Hr) as [Hg Ht]. destruct (Hs _ Hg) as (_ & Ho & Hd & Hsole).
  split_and!; [|done|done]. unfold launch_by_operation. destruct (find_first _ _) as [[k x]|] eqn:E.
  - apply find_first_Some in E as [Hin Hx%bool_decide_eq_true]. cbn in Hx.
    assert (Hgx := elem_btree_get _ _ _ (iv_keys _ _ Hi) Hin). rewrite (Hsole k x Hgx Hx) in Hgx. cbn. congruence.
  - apply btree_get_elem in Hg. apply (proj1 (find_first_None _ _)) with (x := (key t, r)) in E; [|done].
    by apply bool_decide_eq_false in E.
Qed.

(** ** The promises *)
Context (generation : DaemonGeneration) (limit : nat) (ledger : RetentionLedger) (shared : Shared).

Definition started : Runtime := new_with_limit generation limit ledger shared.

(** The worst case of a final covers a journal of the runtime. *)
Definition sized : Prop := sized_ledger GENERIC_TERMINAL_JOURNAL ledger.

Lemma started_inv : sized -> inv ∅ (ru_coordinator started).
Proof. apply (fresh_inv limit GENERIC_TERMINAL_JOURNAL GENERIC_TERMINAL_INPUT_CACHE ledger shared). Qed.

(** C18: the requests implement the coordinator.  In every history of the
    runtime (requests of any clients, output, exits, closings, collections, and
    the Agent owner at work on the shared ledger) nothing panics, and the
    coordinator is in the state a lawful history of its own operations leads to
    with the same processes reported as ended, one that never gives up a process
    it could not identify: what is proved of those histories
    (no process is forgotten, a closed workspace has none, the retention caps
    hold, a restart reads what was saved) holds of the IPC server. *)
Theorem requests_refine_coordinator ops failures r gone
    (Hledger : sized) (Hlawful : lawful_requests ops started)
    (Hrun : runtime_ops ops started ∅ = (failures, r, gone)) :
  Some RuntimePanicked ∉ failures /\
  exists cops answers,
    lawful_run cops (fresh limit GENERIC_TERMINAL_JOURNAL GENERIC_TERMINAL_INPUT_CACHE ledger shared) /\
    disowned json_length sha256 cops
      (fresh limit GENERIC_TERMINAL_JOURNAL GENERIC_TERMINAL_INPUT_CACHE ledger shared) = ∅ /\
    coordinator_ops cops (fresh limit GENERIC_TERMINAL_JOURNAL GENERIC_TERMINAL_INPUT_CACHE ledger shared) ∅ =
      (answers, ru_coordinator r, gone).
Proof.
  destruct (ops_stepped ops started ∅ failures r gone (started_inv Hledger) Hlawful Hrun)
    as (Hp & _ & _ & cops & answers & [Hl Hd] & Hs).
  split; [done|]. by exists cops, answers.
Qed.

(** C19: a process starts only where its scope resolves to.  Every spawn the
    server ever asks for belongs to a launch request of its history: the owner
    of the managed scopes gave a checkout for exactly the scope the request
    names, the process starts in that checkout whatever directory the profile
    resolved to, the terminal carries the ids of that scope and of this daemon,
    and its geometry is the one asked for, within the bounds of a screen. *)
Theorem spawns_stay_in_their_checkout ops failures r gone t launch g answer
    (Hledger : sized) (Hlawful : lawful_requests ops started)
    (Hrun : runtime_ops ops started ∅ = (failures, r, gone))
    (Hspawn : SpawnAsked t launch g answer ∈ co_host (ru_coordinator r)) :
  exists p context intent, RuntimeOp.Handle p context (TerminalRequest.Launch intent) ∈ ops /\
    spawns_for p intent generation (t, launch, g).
Proof.
  assert (Hx : (t, launch, g) ∈ asks (ru_coordinator r)).
  { unfold asks. apply list_elem_of_omap. by eexists. }
  destruct (asks_of_ops ops started ∅ failures r gone _ (started_inv Hledger) Hlawful Hrun Hx) as [Hn|?]; [|done].
  by apply not_elem_of_nil in Hn.
Qed.

(** A launch is replayed, not repeated.  A client whose launch under its own
    operation id was accepted asks again, after anything else that happened and
    over any connection: as long as the terminal is on record, the same intent
    is answered with the same terminal and a different intent under that id is
    refused; neither resolves a profile, starts a process or changes anything. *)
Theorem launch_is_replayed before ops f1 f2 p context intent t operation r r1 r2 gone1 gone2 x p' context' intent' checkout
    (Hledger : sized) (Hbefore : lawful_requests before started)
    (Hrun1 : runtime_ops before started ∅ = (f1, r, gone1))
    (Hproducer : li_launch_operation intent = Some operation)
    (Hlaunch : handle json_length sha256 p context (TerminalRequest.Launch intent) r =
                 (Ok (TerminalResponse.Launch t operation false), r1))
    (Hafter : lawful_requests ops r1)
    (Hfresh : Forall (mints_afresh t operation) ops)
    (Hrun2 : runtime_ops ops r1 gone1 = (f2, r2, gone2))
    (Hkept : record t (ru_coordinator r2) = Ok x)
    (Hagain : li_launch_operation intent' = Some operation)
    (Hscope : po_scope p' (lr_scope (li_request intent')) = Some checkout)
    (Hsame : rs_scope checkout = lr_scope (li_request intent')) :
  handle json_length sha256 p' context' (TerminalRequest.Launch intent') r2 =
    ((if decide (canonical_digest intent' = canonical_digest intent)
      then Ok (TerminalResponse.Launch t operation true)
      else Err (Answered (ProtocolError_new Negotiation.IdempotencyConflict
                            "launch operation id was accepted for a different intent"))), r2).
Proof.
  destruct (ops_stepped before started ∅ f1 r gone1 (started_inv Hledger) Hbefore Hrun1) as (_ & _ & Hi & _).
  assert (Hs1 := launched_sole gone1 p context intent r t operation r1 Hi Hproducer Hlaunch).
  assert (Hi1 := runtime_op_keeps gone1 (RuntimeOp.Handle p context (TerminalRequest.Launch intent)) r I Hi).
  cbn [runtime_op reports] in Hi1. rewrite Hlaunch, union_empty_l_L in Hi1. cbn [failed snd] in Hi1.
  assert (Hs2 := sole_ops t operation _ ops r1 gone1 f2 r2 gone2 Hi1 Hafter Hfresh Hrun2 Hs1).
  destruct (ops_stepped ops r1 gone1 f2 r2 gone2 Hi1 Hafter Hrun2) as (_ & _ & Hi2 & _).
  destruct (sole_found gone2 t operation _ _ x Hi2 Hs2 Hkept) as (Hfound & Hd & <-).
  assert (Erec : recorded_launch intent' (ru_coordinator r2) = Some (operation, x)).
  { unfold recorded_launch. rewrite Hagain. cbn. by rewrite Hfound. }
  cbn [handle]. unfold handle_launch, st_bind, protocol, st_lift, st_ensure, st_get. rewrite Hscope. cbn [ok_or map_err].
  rewrite bool_decide_eq_true_2 by done. cbn [st_ret]. rewrite Erec, Hd. destruct (decide (canonical_digest intent' = canonical_digest intent)) as [->|Hne].
  - by rewrite bool_decide_eq_true_2.
  - rewrite bool_decide_eq_false_2; [done|]. congruence.
Qed.
End spec.

(** ** A client that lost an answer *)
Module IpcExample.
Import DaemonExample RegistryExample.
Definition ports (id : string) : Ports :=
  MkPorts 0%Z resolve (fun scope => Some (MkResolvedTerminalScope scope "/checkout")) (MkTerminalId id)
    (MkOperationId (id ++ "-op")).
Definition from_client (connection : string) : TerminalRequestContext :=
  MkTerminalRequestContext (MkConnectionId connection) (MkClientId "c") (MkRequestId "r").
Definition intent (columns : N) : TerminalLaunchIntent :=
  MkTerminalLaunchIntent request (MkGeometry columns 2) (Some (MkOperationId "mine")).
Definition launching (id connection : string) (columns : N) : RuntimeOp.t :=
  RuntimeOp.Handle (ports id) (from_client connection) (TerminalRequest.Launch (intent columns)).

Definition server : Runtime := started (MkDaemonGeneration "g") 2 full_ledger (MkShared counters []).
Definition shell_of (id : string) : TerminalRef := minted_terminal (ports id) (MkDaemonGeneration "g") scope.
Definition first_launch := handle small_json sha (ports "t") (from_client "k1") (TerminalRequest.Launch (intent 4)) server.
Definition meanwhile : list RuntimeOp.t := [RuntimeOp.Output (shell_of "t") [97; 98]%N; RuntimeOp.Disconnect (MkConnectionId "k1")].
Definition later := runtime_ops small_json sha meanwhile first_launch.2 ∅.
End IpcExample.
Import IpcExample DaemonExample RegistryExample.

Lemma server_sized : sized full_ledger.
Proof. split; [apply managed_new; by vm_compute|by vm_compute]. Qed.

Lemma requests_refine_coordinator_witness :
  exists failures r gone, runtime_ops small_json sha [launching "t" "k1" 4; launching "u" "k2" 4] server ∅ = (failures, r, gone) /\
    Some RuntimePanicked ∉ failures /\ co_records (ru_coordinator r) <> [].
Proof.
  assert (L : length (co_records (ru_coordinator
    (runtime_ops small_json sha [launching "t" "k1" 4; launching "u" "k2" 4] server ∅).1.2)) = 1) by (by vm_compute).
  destruct (runtime_ops small_json sha [launching "t" "k1" 4; launching "u" "k2" 4] server ∅) as [[failures r] gone] eqn:E.
  exists failures, r, gone. split; [reflexivity|].
  destruct (requests_refine_coordinator small_json sha (MkDaemonGeneration "g") 2 full_ledger (MkShared counters [])
              [launching "t" "k1" 4; launching "u" "k2" 4] failures r gone server_sized ltac:(repeat split) E) as [Hp _].
  split; [exact Hp|]. intros Hn. cbn [fst snd] in L. by rewrite Hn in L.
Defined.

Lemma spawns_stay_in_their_checkout_witness :
  exists p context i, RuntimeOp.Handle p context (TerminalRequest.Launch i) ∈ [launching "t" "k1" 4].
Proof.
  set (run := runtime_ops small_json sha [launching "t" "k1" 4] server ∅).
  assert (L : length (asks (ru_coordinator run.1.2)) = 1) by (by vm_compute).
  destruct (asks (ru_coordinator run.1.2)) as [|[[t launch] g] l] eqn:Ea; [discriminate L|].
  assert (Hin : (t, launch, g) ∈ asks (ru_coordinator run.1.2)) by (rewrite Ea; by left).
  apply list_elem_of_omap in Hin as ([|t' launch' g' answer|] & Hin & E); try discriminate E. injection E as -> -> ->.
  destruct (spawns_stay_in_their_checkout small_json sha (MkDaemonGeneration "g") 2 full_ledger (MkShared counters [])
              [launching "t" "k1" 4] run.1.1 run.1.2 run.2 t launch g answer server_sized ltac:(repeat split)
              ltac:(unfold run; by destruct (runtime_ops _ _ _ _ _) as [[? ?] ?]) Hin) as (p & context & i & Hi & _).
  by exists p, context, i.
Defined.

Lemma launch_is_replayed_witness :
  (handle small_json sha (ports "v") (from_client "k2") (TerminalRequest.Launch (intent 4)) later.1.2).1 =
    Ok (TerminalResponse.Launch (shell_of "t") (MkOperationId "mine") true) /\
  (handle small_json sha (ports "v") (from_client "k2") (TerminalRequest.Launch (intent 9)) later.1.2).1 =
    Err (Answered (ProtocolError_new Negotiation.IdempotencyConflict "launch operation id was accepted for a different intent")).
Proof.
  destruct (record (shell_of "t") (ru_coordinator later.1.2)) as [x|e] eqn:Ex.
  2: { exfalso. apply (f_equal is_ok) in Ex. vm_compute in Ex. discriminate Ex. }
  assert (E1 : first_launch = (Ok (TerminalResponse.Launch (shell_of "t") (MkOperationId "mine") false), first_launch.2))
    by (rewrite (surjective_pairing first_launch) at 1; f_equal; vm_compute; reflexivity).
  assert (E2 : runtime_ops small_json sha meanwhile first_launch.2 ∅ = (later.1.1, later.1.2, later.2))
    by (unfold later; by destruct (runtime_ops _ _ _ _ _) as [[? ?] ?]).
  assert (Hagain := fun columns => launch_is_replayed small_json sha (MkDaemonGeneration "g") 2 full_ledger (MkShared counters [])
     [] meanwhile [] later.1.1 (ports "t") (from_client "k1") (intent 4) (shell_of "t") (MkOperationId "mine")
     server first_launch.2 later.1.2 ∅ later.2 x (ports "v") (from_client "k2") (intent columns)
     (MkResolvedTerminalScope scope "/checkout") server_sized I eq_refl eq_refl E1 ltac:(repeat split)
     ltac:(repeat constructor) E2 Ex eq_refl eq_refl eq_refl).
  split; rewrite Hagain; vm_compute; reflexivity.
Defined.
