(* ===== verification/DispatchTypes.v ===== *)
(** * The vocabulary of agent dispatch ([crates/core/src/domain/agent/mod.rs])

    Agents, runs and their bindings, and the reports delivered to a caller, with
    the ceilings of their durable store
    ([crates/core/src/infrastructure/store/dispatch.rs]). *)
From S2P Require Export Lifecycle.

(** ** Agents *)
Inductive AgentStatus : Type := AgentIdle | AgentStarting | AgentRunning | AgentExited | AgentFailed.
Inductive RunStatus : Type := RunPreparing | RunRunning | RunCompleted | RunFailed | RunNoReport.

Record AgentProfileId := MkAgentProfileId { agent_profile_id_text : string }.
Record ModelSelector := MkModelSelector { model_selector_text : string }.

Record Agent := MkAgent {
  ag_agent_id : AgentId;
  ag_session_id : option SessionId;
  ag_runtime : AgentProfileId;
  ag_model : ModelSelector;
  ag_status : AgentStatus;
  ag_current_run : option OperationId
}.

Record DispatchRun := MkDispatchRun {
  dn_run_id : OperationId;
  dn_agent_id : AgentId;
  dn_prompt : string;
  dn_started_at : DateTime;
  dn_ended_at : option DateTime;
  dn_status : RunStatus
}.

Record CallerRef := MkCallerRef { ca_session_id : option SessionId; ca_agent_id : AgentId }.
Record WorkerRef := MkWorkerRef { wk_session_id : option SessionId; wk_agent_id : AgentId }.

Record DispatchBinding := MkDispatchBinding {
  bd_run_id : OperationId;
  bd_caller : CallerRef;
  bd_worker : WorkerRef
}.

#[export] Instance agent_status_eq_dec : EqDecision AgentStatus.
Proof. solve_decision. Defined.
#[export] Instance run_status_eq_dec : EqDecision RunStatus.
Proof. solve_decision. Defined.
#[export] Instance agent_profile_id_eq_dec : EqDecision AgentProfileId.
Proof. solve_decision. Defined.
#[export] Instance model_selector_eq_dec : EqDecision ModelSelector.
Proof. solve_decision. Defined.
#[export] Instance agent_eq_dec : EqDecision Agent.
Proof. solve_decision. Defined.
#[export] Instance dispatch_run_eq_dec : EqDecision DispatchRun.
Proof. solve_decision. Defined.
#[export] Instance caller_ref_eq_dec : EqDecision CallerRef.
Proof. solve_decision. Defined.
#[export] Instance worker_ref_eq_dec : EqDecision WorkerRef.
Proof. solve_decision. Defined.
#[export] Instance dispatch_binding_eq_dec : EqDecision DispatchBinding.
Proof. solve_decision. Defined.

#[export] Instance agent_id_countable : Countable AgentId := inj_countable' agent_id_text MkAgentId (fun '(MkAgentId _) => eq_refl).

(** ** Reports *)
Record StructuredResult := MkStructuredResult {
  sr_pr : option string;
  sr_commits : list string;
  sr_changed_files : list string;
  sr_verification : option string
}.

Inductive InboxKind : Type := InboxCompleted | InboxFailed | InboxNoReport.

Record InboxMessage := MkInboxMessage {
  im_run_id : OperationId;
  im_from : WorkerRef;
  im_kind : InboxKind;
  im_summary : string;
  im_result : option StructuredResult;
  im_created_at : DateTime;
  im_read : bool
}.
Definition set_im_read (v : bool) (m : InboxMessage) : InboxMessage :=
  MkInboxMessage (im_run_id m) (im_from m) (im_kind m) (im_summary m) (im_result m) (im_created_at m) v.

#[export] Instance structured_result_eq_dec : EqDecision StructuredResult.
Proof. solve_decision. Defined.
#[export] Instance inbox_kind_eq_dec : EqDecision InboxKind.
Proof. solve_decision. Defined.
#[export] Instance inbox_message_eq_dec : EqDecision InboxMessage.
Proof. solve_decision. Defined.

(** ** The ceilings of the store *)
Record DispatchStoreLimits := MkDispatchStoreLimits {
  dl_registry_bytes : N;
  dl_workspace_registry_bytes : N;
  dl_inbox_bytes : N;
  dl_run_retention : nat;
  dl_run_replay_floor : nat;
  dl_inbox_read_retention : nat;
  dl_inbox_read_replay_floor : nat;
  dl_inbox_count : nat;
  dl_history_max_age_seconds : Z
}.

Definition DispatchStoreLimits_default : DispatchStoreLimits :=
  MkDispatchStoreLimits (2 * 1024 * 1024) (2 * 1024 * 1024) (4 * 1024 * 1024) 256 32 256 0 4096
    (365 * 24 * 60 * 60).

(** [chrono]'s [checked_sub_signed] of a number of seconds. *)
Class ClockRange := { checked_sub_seconds : DateTime -> Z -> option DateTime }.
