(* ===== verification/Inbox.v ===== *)
(** * The durable inbox of a caller
    ([crates/core/src/infrastructure/store/dispatch.rs])

    One caller's inbox: a journal of records, one JSON line each, with an offset
    index that is a disposable cache and an acknowledgement watermark.  The
    journal is its bytes.  Every system call that writes takes its answer from
    [fi_io]: done, failed, or, for the bytes appended to the journal, done in
    part; a process that is killed is a call that never returns what it did.
    The lock of the store serializes the calls; directories and paths are left
    out, and reads do not fail. *)
From S2P Require Export DispatchTypes Utf8.

(** ** Data *)
Record InboxCursor := MkInboxCursor { next_sequence : N }.
Record InboxPage := MkInboxPage {
  pg_messages : list InboxMessage;
  pg_next_cursor : InboxCursor;
  pg_has_more : bool
}.

Record InboxRecord := MkInboxRecord { rec_sequence : N; rec_message : InboxMessage }.

Record InboxIndexEntry := MkInboxIndexEntry {
  ix_sequence : N;
  ix_offset : N;
  ix_created_at : DateTime;
  ix_read : bool
}.

Record InboxIndex := MkInboxIndex {
  ii_journal_len : N;
  ii_valid_len : N;
  ii_entries : list InboxIndexEntry
}.
Definition InboxIndex_default : InboxIndex := MkInboxIndex 0 0 [].

Record InboxAck := MkInboxAck { ack_next_sequence : N }.
Definition InboxAck_default : InboxAck := MkInboxAck 1.

#[export] Instance inbox_record_eq_dec : EqDecision InboxRecord.
Proof. solve_decision. Defined.
#[export] Instance inbox_index_entry_eq_dec : EqDecision InboxIndexEntry.
Proof. solve_decision. Defined.

Inductive InboxLine : Type :=
| LineRecord (record : InboxRecord)
| LineLegacy (message : InboxMessage).

(** [serde_json] on the lines of the journal. *)
Class InboxCodec := {
  encode_record : InboxRecord -> list N;
  parse_line : list N -> option InboxLine
}.

Inductive InboxError : Type :=
| InboxOverBytes | InboxOverCount | NotIncreasing | UnparsableLine | NotText | SequenceExhausted
| AckOutside | AckCursorOutside | InboxExhausted | OversizedMessage | PageLimit | CursorZero | CursorOutside
| CursorExpired (earliest : N) | BeyondJournal | IndexMismatch | ClockOutside | NoReturnedRecord | IoFailed.

Definition INBOX_PAGE_MAX : nat := 100.
Definition SEQUENCE_MAX : N := 18446744073709551615.

Definition next_inbox_sequence (entries : list InboxIndexEntry) : result InboxError N :=
  match last entries with
  | None => Ok 1%N
  | Some e => if (ix_sequence e <? SEQUENCE_MAX)%N then Ok (ix_sequence e + 1)%N else Err SequenceExhausted
  end.

(** ** The files *)
Inductive IoAnswer : Type := IoDone | IoRefused | IoPartial (written : nat).

(** [fi_index] is [None] when the file is missing or cannot be parsed; the ack
    file is missing, unreadable ([Some None]) or read. *)
Record InboxFiles := MkInboxFiles {
  fi_journal : option (list N);
  fi_index : option InboxIndex;
  fi_ack : option (option InboxAck);
  fi_io : list IoAnswer
}.
Definition set_fi_journal v (f : InboxFiles) : InboxFiles := MkInboxFiles v (fi_index f) (fi_ack f) (fi_io f).
Definition set_fi_index v (f : InboxFiles) : InboxFiles := MkInboxFiles (fi_journal f) v (fi_ack f) (fi_io f).
Definition set_fi_ack v (f : InboxFiles) : InboxFiles := MkInboxFiles (fi_journal f) (fi_index f) v (fi_io f).
Definition set_fi_io v (f : InboxFiles) : InboxFiles := MkInboxFiles (fi_journal f) (fi_index f) (fi_ack f) v.

Notation act := (st InboxFiles InboxError).

(** A system call that writes. *)
Definition io (complete : InboxFiles -> InboxFiles) (partial : nat -> InboxFiles -> InboxFiles) : act unit := fun f =>
  match fi_io f with
  | [] => (Ok tt, complete f)
  | answer :: rest =>
      let f := set_fi_io rest f in
      match answer with
      | IoDone => (Ok tt, complete f)
      | IoRefused => (Err IoFailed, f)
      | IoPartial n => (Err IoFailed, partial n f)
      end
  end.

(** A write to a temporary file and a rename: all or nothing. *)
Definition atomically (complete : InboxFiles -> InboxFiles) : act unit := io complete (fun _ f => f).

Section inbox.
Context `{C : InboxCodec} `{K : ClockRange} (limits : DispatchStoreLimits).

(** ** Lines *)
Definition NEWLINE : N := 10.

Fixpoint until_newline (bytes : list N) : list N * list N :=
  match bytes with
  | [] => ([], [])
  | b :: bytes =>
      if (b =? NEWLINE)%N then ([b], bytes)
      else let '(line, rest) := until_newline bytes in (b :: line, rest)
  end.

(** [BufRead::read_line] into a [String]. *)
Definition read_line (bytes : list N) : result InboxError (list N * list N) :=
  let '(line, rest) := until_newline bytes in
  if valid_utf8 line then Ok (line, rest) else Err NotText.

Definition ends_with_newline (line : list N) : bool := bool_decide (last line = Some NEWLINE).
Definition without_newline (line : list N) : list N := take (length line - 1) line.

Definition line_of (r : InboxRecord) : list N := encode_record r ++ [NEWLINE].
Definition len_of (bytes : list N) : N := N.of_nat (length bytes).

(** ** The index *)
Definition entry_of (offset : N) (r : InboxRecord) : InboxIndexEntry :=
  MkInboxIndexEntry (rec_sequence r) offset (im_created_at (rec_message r)) (im_read (rec_message r)).

Record Scan := MkScan {
  sc_entries : list InboxIndexEntry;
  sc_valid_len : N;
  sc_records : list InboxRecord;
  sc_migrated : bool
}.

Definition decode_line (s : Scan) (line : list N) : result InboxError (InboxRecord * bool) :=
  match parse_line (without_newline line) with
  | Some (LineRecord r) => Ok (r, sc_migrated s)
  | Some (LineLegacy message) =>
      sequence <-? next_inbox_sequence (sc_entries s) ;; Ok (MkInboxRecord sequence message, true)
  | None => Err UnparsableLine
  end.

Definition not_increasing (entries : list InboxIndexEntry) (sequence : N) : bool :=
  (sequence =? 0)%N || match last entries with Some e => (sequence <=? ix_sequence e)%N | None => false end.

(** The loop of [rebuild_inbox_index]; every round takes at least a byte. *)
Fixpoint scan_lines (fuel : nat) (bytes : list N) (s : Scan) : result InboxError Scan :=
  match bytes, fuel with
  | [], _ | _, 0 => Ok s
  | _, S fuel =>
      lr <-? read_line bytes ;;
      let '(line, rest) := lr in
      if negb (ends_with_newline line) then Ok s
      else
        rm <-? decode_line s line ;;
        let '(record, migrated) := rm in
        if not_increasing (sc_entries s) (rec_sequence record) then Err NotIncreasing
        else if dl_inbox_count limits <=? length (sc_records s) then Err InboxOverCount
        else scan_lines fuel rest
               (MkScan (sc_entries s ++ [entry_of (sc_valid_len s) record]) (sc_valid_len s + len_of line)%N
                  (sc_records s ++ [record]) migrated)
  end.

Definition scan (bytes : list N) : result InboxError Scan := scan_lines (length bytes) bytes (MkScan [] 0 [] false).

Definition write_inbox_index (index : InboxIndex) : act unit := atomically (set_fi_index (Some index)).

Fixpoint entries_from (offset : N) (records : list InboxRecord) : list InboxIndexEntry :=
  match records with
  | [] => []
  | r :: records => entry_of offset r :: entries_from (offset + len_of (line_of r))%N records
  end.

Definition text_of (records : list InboxRecord) : list N := concat (line_of <$> records).

Definition make_directory : act unit := atomically id.

Definition write_inbox_records (records : list InboxRecord) : act InboxIndex :=
  st_ensure (length records <=? dl_inbox_count limits) InboxOverCount ;;;
  make_directory ;;;
  let text := text_of records in
  st_ensure (len_of text <=? dl_inbox_bytes limits)%N InboxOverBytes ;;;
  atomically (set_fi_index None) ;;;
  atomically (set_fi_journal (Some text)) ;;;
  let index := MkInboxIndex (len_of text) (len_of text) (entries_from 0 records) in
  write_inbox_index index ;;;
  st_ret index.

Definition rebuild_inbox_index : act InboxIndex :=
  f <-! st_get ;;
  match fi_journal f with
  | None => st_ret InboxIndex_default
  | Some bytes =>
      s <-! st_lift (scan bytes) ;;
      if sc_migrated s then write_inbox_records (sc_records s)
      else
        let index := MkInboxIndex (len_of bytes) (sc_valid_len s) (sc_entries s) in
        write_inbox_index index ;;; st_ret index
  end.

Fixpoint in_order (entries : list InboxIndexEntry) : bool :=
  match entries with
  | a :: (b :: _) as rest =>
      (ix_sequence a <? ix_sequence b)%N && (ix_offset a <? ix_offset b)%N && in_order rest
  | _ => true
  end.

Definition index_fits (index : InboxIndex) (journal_len : N) : bool :=
  (ii_journal_len index =? journal_len)%N && (ii_valid_len index <=? ii_journal_len index)%N &&
  match head (ii_entries index) with Some e => (ix_offset e =? 0)%N && (0 <? ix_sequence e)%N | None => true end &&
  match last (ii_entries index) with Some e => (ix_offset e <? ii_valid_len index)%N | None => true end &&
  in_order (ii_entries index).

Definition inbox_index : act InboxIndex :=
  f <-! st_get ;;
  match fi_journal f with
  | None => st_ret InboxIndex_default
  | Some bytes =>
      st_ensure (len_of bytes <=? dl_inbox_bytes limits)%N InboxOverBytes ;;;
      match fi_index f with
      | Some index => if index_fits index (len_of bytes) then st_ret index else rebuild_inbox_index
      | None => rebuild_inbox_index
      end
  end.

(** ** Reading *)
Fixpoint read_entries (bytes : list N) (entries : list InboxIndexEntry) : result InboxError (list InboxRecord) :=
  match entries with
  | [] => Ok []
  | e :: entries =>
      lr <-? read_line (drop (N.to_nat (ix_offset e)) bytes) ;;
      if negb (ends_with_newline lr.1) then Err BeyondJournal
      else
        match parse_line (without_newline lr.1) with
        | Some (LineRecord r) =>
            if negb (rec_sequence r =? ix_sequence e)%N then Err IndexMismatch
            else records <-? read_entries bytes entries ;; Ok (r :: records)
        | _ => Err UnparsableLine
        end
  end.

Definition read_inbox_records (entries : list InboxIndexEntry) : act (list InboxRecord) :=
  match entries with
  | [] => st_ret []
  | _ =>
      f <-! st_get ;;
      match fi_journal f with
      | None => st_throw IoFailed
      | Some bytes => st_lift (read_entries bytes entries)
      end
  end.

Definition read_inbox_ack : act InboxAck :=
  f <-! st_get ;;
  match fi_ack f with
  | None => st_ret InboxAck_default
  | Some None => st_throw IoFailed
  | Some (Some ack) => st_ret ack
  end.

Definition validate_inbox_ack (ack : InboxAck) (index : InboxIndex) : result InboxError unit :=
  last_sequence <-? next_inbox_sequence (ii_entries index) ;;
  if (ack_next_sequence ack =? 0)%N || (last_sequence <? ack_next_sequence ack)%N then Err AckOutside else Ok tt.

(** ** Compaction *)
Definition is_read (ack : InboxAck) (r : InboxRecord) : bool :=
  im_read (rec_message r) || (rec_sequence r <? ack_next_sequence ack)%N.

(** [while remove < removable && retained_bytes + required_bytes > inbox_bytes] over the bytes of
    the read records that are still kept. *)
Fixpoint shed (read_bytes : list N) (remove removable : nat) (retained required : N) : nat :=
  match read_bytes with
  | bytes :: read_bytes =>
      if (remove <? removable) && (dl_inbox_bytes limits <? retained + required)%N
      then shed read_bytes (S remove) removable (retained - bytes)%N required
      else remove
  | [] => remove
  end.

Definition sum_bytes (l : list N) : N := foldr N.add 0%N l.

Definition removable_reads (ack : InboxAck) (records : list InboxRecord) : nat :=
  let sequence_floor := match last records with Some r => if is_read ack r then 1 else 0 | None => 0 end in
  count (is_read ack) records - Nat.max (dl_inbox_read_replay_floor limits) sequence_floor.

Definition reads_to_remove (ack : InboxAck) (cutoff : DateTime) (required : N) (records : list InboxRecord) : nat :=
  let removable := removable_reads ack records in
  let retention_excess := Nat.min (count (is_read ack) records - dl_inbox_read_retention limits) removable in
  let age_excess :=
    Nat.min (count (fun r => is_read ack r && (im_created_at (rec_message r) <? cutoff)%Z) records) removable in
  let capacity_excess := Nat.min (length records + 1 - dl_inbox_count limits) removable in
  let remove := Nat.max (Nat.max retention_excess capacity_excess) age_excess in
  let read_bytes := (fun r => len_of (line_of r)) <$> retain (is_read ack) records in
  let retained := (sum_bytes ((fun r => len_of (line_of r)) <$> records) - sum_bytes (take remove read_bytes))%N in
  shed (drop remove read_bytes) remove removable retained required.

(** [records.retain_mut(..)] *)
Fixpoint drop_reads (ack : InboxAck) (remove : nat) (records : list InboxRecord) : list InboxRecord :=
  match records with
  | [] => []
  | r :: records =>
      let r' := MkInboxRecord (rec_sequence r) (set_im_read (is_read ack r) (rec_message r)) in
      match remove with
      | S n => if is_read ack r then drop_reads ack n records else r' :: drop_reads ack remove records
      | 0 => r' :: drop_reads ack 0 records
      end
  end.

Definition history_cutoff (now : DateTime) : act DateTime :=
  st_lift (ok_or (checked_sub_seconds now (dl_history_max_age_seconds limits)) ClockOutside).

Definition compact_inbox (now : DateTime) (index : InboxIndex) (ack : InboxAck) (required : N) : act InboxIndex :=
  records <-! read_inbox_records (ii_entries index) ;;
  cutoff <-! history_cutoff now ;;
  let remove := reads_to_remove ack cutoff required records in
  if remove =? 0 then st_ret index else write_inbox_records (drop_reads ack remove records).

(** ** The operations *)
Definition entry_is_read (ack : InboxAck) (e : InboxIndexEntry) : bool :=
  ix_read e || (ix_sequence e <? ack_next_sequence ack)%N.

Definition append_bytes (bytes : list N) : act unit :=
  let journal f := default [] (fi_journal f) in
  io (fun f => set_fi_journal (Some (journal f ++ bytes)) f)
     (fun n f => set_fi_journal (Some (journal f ++ take n bytes)) f).

Definition truncate_journal (len : N) : act unit :=
  atomically (fun f => set_fi_journal (Some (take (N.to_nat len) (default [] (fi_journal f)))) f).

(** From the opening of the journal on. *)
Definition publish (index : InboxIndex) (record : InboxRecord) : act unit :=
  make_directory ;;;
  atomically (fun f => set_fi_journal (Some (default [] (fi_journal f))) f) ;;;
  f <-! st_get ;;
  let len := len_of (default [] (fi_journal f)) in
  let torn := (ii_valid_len index <? len)%N in
  let offset := if torn then ii_valid_len index else len in
  (if torn then truncate_journal (ii_valid_len index) else st_ret tt) ;;;
  append_bytes (line_of record) ;;;
  atomically id ;;;
  let journal_len := (offset + len_of (line_of record))%N in
  write_inbox_index (MkInboxIndex journal_len journal_len (ii_entries index ++
    [MkInboxIndexEntry (rec_sequence record) offset (im_created_at (rec_message record)) false])).

Definition append_inbox (now : DateTime) (message : InboxMessage) : act unit :=
  index <-! inbox_index ;;
  ack <-! read_inbox_ack ;;
  st_lift (validate_inbox_ack ack index) ;;;
  cutoff <-! history_cutoff now ;;
  let read_count := count (entry_is_read ack) (ii_entries index) in
  let aged_read := any (fun e => entry_is_read ack e && (ix_created_at e <? cutoff)%Z) (ii_entries index) in
  index <-! (if (dl_inbox_read_retention limits <? read_count) ||
                (dl_inbox_count limits <=? length (ii_entries index)) || aged_read
             then compact_inbox now index ack 0 else st_ret index) ;;
  st_ensure (length (ii_entries index) <? dl_inbox_count limits) InboxExhausted ;;;
  sequence <-! st_lift (next_inbox_sequence (ii_entries index)) ;;
  let record := MkInboxRecord sequence (set_im_read false message) in
  let encoded_len := len_of (line_of record) in
  st_ensure (encoded_len <=? dl_inbox_bytes limits)%N OversizedMessage ;;;
  index <-! (if (dl_inbox_bytes limits <? ii_valid_len index + encoded_len)%N
             then
               index <-! compact_inbox now index ack encoded_len ;;
               st_ensure (ii_valid_len index + encoded_len <=? dl_inbox_bytes limits)%N InboxExhausted ;;;
               st_ret index
             else st_ret index) ;;
  publish index record.

Definition mark_read (ack : InboxAck) (r : InboxRecord) : InboxMessage := set_im_read (is_read ack r) (rec_message r).

Definition page_start (cursor : option InboxCursor) (unread_only : bool) (since : option DateTime) (ack : InboxAck)
    (entries : list InboxIndexEntry) (first_sequence last_sequence : N) : N :=
  let start := match cursor with Some c => next_sequence c | None => first_sequence end in
  let start := if unread_only then N.max start (ack_next_sequence ack) else start in
  match since with
  | None => start
  | Some since =>
      N.max start (match find_first (fun e => (since <? ix_created_at e)%Z) entries with
                   | Some e => ix_sequence e
                   | None => last_sequence
                   end)
  end.

Definition in_page (start : N) (unread_only : bool) (since : option DateTime) (ack : InboxAck) (e : InboxIndexEntry) : bool :=
  (start <=? ix_sequence e)%N &&
  (match since with Some since => (since <? ix_created_at e)%Z | None => true end) &&
  (negb unread_only || negb (ix_read e) && (ack_next_sequence ack <=? ix_sequence e)%N).

Definition cursor_beyond (cursor : option InboxCursor) (bound : N) : bool :=
  match cursor with Some c => (bound <? next_sequence c)%N | None => false end.
Definition cursor_before (cursor : option InboxCursor) (bound : N) : bool :=
  match cursor with Some c => (next_sequence c <? bound)%N | None => false end.

Definition inbox_page (cursor : option InboxCursor) (limit : nat) (unread_only : bool) (since : option DateTime)
    : act InboxPage :=
  st_ensure ((1 <=? limit) && (limit <=? INBOX_PAGE_MAX)) PageLimit ;;;
  st_ensure (negb (cursor_before cursor 1)) CursorZero ;;;
  index <-! inbox_index ;;
  ack <-! read_inbox_ack ;;
  st_lift (validate_inbox_ack ack index) ;;;
  last_sequence <-! st_lift (next_inbox_sequence (ii_entries index)) ;;
  st_ensure (negb (cursor_beyond cursor last_sequence)) CursorOutside ;;;
  match ii_entries index with
  | [] => st_ret (MkInboxPage [] (default (MkInboxCursor (ack_next_sequence ack)) cursor) false)
  | first :: _ =>
      st_ensure (negb (cursor_before cursor (ix_sequence first))) (CursorExpired (ix_sequence first)) ;;;
      let start := page_start cursor unread_only since ack (ii_entries index) (ix_sequence first) last_sequence in
      let selected := take (limit + 1) (retain (in_page start unread_only since ack) (ii_entries index)) in
      let has_more := limit <? length selected in
      records <-! read_inbox_records (take limit selected) ;;
      next <-! (if has_more
                then r <-! st_lift (ok_or (last records) NoReturnedRecord) ;; st_ret (rec_sequence r + 1)%N
                else st_ret (N.max last_sequence start)) ;;
      st_ret (MkInboxPage (mark_read ack <$> records) (MkInboxCursor next) has_more)
  end.

Definition ack_inbox (cursor : InboxCursor) : act InboxCursor :=
  index <-! inbox_index ;;
  last_sequence <-! st_lift (next_inbox_sequence (ii_entries index)) ;;
  st_ensure (negb ((next_sequence cursor =? 0)%N || (last_sequence <? next_sequence cursor)%N)) AckCursorOutside ;;;
  ack <-! read_inbox_ack ;;
  st_lift (validate_inbox_ack ack index) ;;;
  if (ack_next_sequence ack <? next_sequence cursor)%N
  then
    atomically (set_fi_ack (Some (Some (MkInboxAck (next_sequence cursor))))) ;;;
    st_ret cursor
  else st_ret (MkInboxCursor (ack_next_sequence ack)).

Definition inbox : act (list InboxMessage) :=
  index <-! inbox_index ;;
  ack <-! read_inbox_ack ;;
  st_lift (validate_inbox_ack ack index) ;;;
  records <-! read_inbox_records (ii_entries index) ;;
  st_ret (mark_read ack <$> records).
End inbox.
