(* ===== verification/InboxLaws.v ===== *)
(** * The journal of an inbox, and its invariant

    Lines, scans and the decoding of a journal; then [holds n f rs hidden], the
    invariant every operation keeps whatever the disk answers. *)
From S2P Require Export Inbox.

(** What the inbox relies on of [serde_json]: a record is one line of text and
    is read back from it. *)
Class InboxCodecLaws (C : InboxCodec) : Prop := {
  parse_encode r : parse_line (encode_record r) = Some (LineRecord r);
  encode_one_line r : NEWLINE ∉ encode_record r;
  encode_is_text r : valid_utf8 (encode_record r) = true
}.

(** ** Text *)
Lemma utf8_next_app a b c rest : utf8_next a = Some (c, rest) -> utf8_next (a ++ b) = Some (c, rest ++ b).
Proof.
  unfold utf8_next. destruct a as [|b0 a]; [done|]. cbn [app].
  destruct (b0 <? 128)%N; [by intros [= <- <-]|].
  destruct (in_range 194 223 b0).
  { destruct a as [|b1 a]; [done|]. cbn [app]. destruct (continuation_byte b1); [|done]. by intros [= <- <-]. }
  destruct (in_range 224 239 b0).
  { destruct a as [|b1 [|b2 a]]; [done|done|]. cbn [app]. destruct (_ && _); [|done]. by intros [= <- <-]. }
  destruct (in_range 240 244 b0); [|done].
  destruct a as [|b1 [|b2 [|b3 a]]]; [done|done|done|]. cbn [app]. destruct (_ && _); [|done]. by intros [= <- <-].
Qed.

Lemma utf8_next_shorter a c rest : utf8_next a = Some (c, rest) -> length rest < length a.
Proof.
  unfold utf8_next. destruct a as [|b0 a]; [done|].
  repeat (case_match; simplify_eq; try done); intros [= <- <-]; cbn; lia.
Qed.

Lemma from_utf8_step n x a :
  from_utf8 (S n) (x :: a) = '(c, rest) ← utf8_next (x :: a); t ← from_utf8 n rest; Some (c :: t).
Proof. done. Qed.

Lemma from_utf8_fuel n m a t : from_utf8 n a = Some t -> n <= m -> from_utf8 m a = Some t.
Proof.
  revert m a t. induction n as [|n IH]; intros m a t.
  { destruct a as [|x a]; [|done]. by destruct m. }
  destruct a as [|x a]; [by destruct m|]. destruct m as [|m]; [lia|]. rewrite !from_utf8_step.
  destruct (utf8_next (x :: a)) as [[c rest]|]; cbn [mbind option_bind]; [|done].
  destruct (from_utf8 n rest) as [t'|] eqn:E; cbn [mbind option_bind]; [|done].
  intros Ht Hm. by rewrite (IH m rest t' E) by lia.
Qed.

Lemma valid_utf8_app a b : valid_utf8 a = true -> valid_utf8 b = true -> valid_utf8 (a ++ b) = true.
Proof.
  unfold valid_utf8. intros Ha Hb.
  destruct (from_utf8 (length b) b) as [tb|] eqn:Eb; [|done]. clear Hb.
  cut (forall n a t, from_utf8 n a = Some t -> exists t', from_utf8 (n + length b) (a ++ b) = Some t').
  { intros Hcut. destruct (from_utf8 (length a) a) as [ta|] eqn:Ea; [|done].
    destruct (Hcut _ _ _ Ea) as [t' Ht]. rewrite length_app. by rewrite Ht. }
  clear Ha a. induction n as [|n IH]; intros a t.
  - destruct a as [|x a]; [|done]. intros _. exists tb. cbn [app]. done.
  - destruct a as [|x a].
    + intros _. exists tb. cbn [app]. apply (from_utf8_fuel (length b)); [done|lia].
    + rewrite from_utf8_step. destruct (utf8_next (x :: a)) as [[c rest]|] eqn:En; cbn [mbind option_bind]; [|done].
      destruct (from_utf8 n rest) as [t1|] eqn:E; [|done]. intros _.
      destruct (IH rest t1 E) as [t' Ht]. apply (utf8_next_app _ b) in En.
      exists (c :: t'). change (S n + length b) with (S (n + length b)).
      change ((x :: a) ++ b) with (x :: a ++ b) in *. rewrite from_utf8_step, En. cbn [mbind option_bind]. by rewrite Ht.
Qed.

Lemma until_newline_line l rest : NEWLINE ∉ l -> until_newline (l ++ NEWLINE :: rest) = (l ++ [NEWLINE], rest).
Proof.
  induction l as [|b l IH]; intros Hl; [done|]. apply not_elem_of_cons in Hl as [Hb Hl]. cbn [app until_newline].
  destruct (N.eqb_spec b NEWLINE) as [->|_]; [done|]. by rewrite IH.
Qed.

Lemma until_newline_tail l : NEWLINE ∉ l -> until_newline l = (l, []).
Proof.
  induction l as [|b l IH]; intros Hl; [done|]. apply not_elem_of_cons in Hl as [Hb Hl]. cbn [until_newline].
  destruct (N.eqb_spec b NEWLINE) as [->|_]; [done|]. by rewrite IH.
Qed.

Lemma ends_snoc l : ends_with_newline (l ++ [NEWLINE]) = true.
Proof. unfold ends_with_newline. rewrite last_snoc. by apply bool_decide_eq_true. Qed.

Lemma ends_not l : NEWLINE ∉ l -> ends_with_newline l = false.
Proof.
  intros Hl. apply bool_decide_eq_false. intros H. apply Hl. by apply last_Some_elem_of.
Qed.

Lemma without_snoc l : without_newline (l ++ [NEWLINE]) = l.
Proof. unfold without_newline. rewrite length_app. cbn. by rewrite Nat.add_sub, take_app_length. Qed.

Lemma len_of_app a b : len_of (a ++ b) = (len_of a + len_of b)%N.
Proof. unfold len_of. rewrite length_app. lia. Qed.

(** ** Records in sequence *)
Fixpoint follows (low : N) (records : list InboxRecord) : Prop :=
  match records with
  | [] => True
  | r :: records => (low < rec_sequence r)%N /\ follows (rec_sequence r) records
  end.

(** The sequence number of the last record. *)
Definition top (low : N) (records : list InboxRecord) : N :=
  match last records with Some r => rec_sequence r | None => low end.
Definition entries_top (entries : list InboxIndexEntry) : N :=
  match last entries with Some e => ix_sequence e | None => 0%N end.

Lemma top_cons low r records : top low (r :: records) = top (rec_sequence r) records.
Proof. unfold top. rewrite last_cons. by destruct (last records). Qed.
Lemma top_app low a b : top low (a ++ b) = top (top low a) b.
Proof. unfold top. rewrite last_app. by destruct (last b). Qed.
Lemma top_snoc low a r : top low (a ++ [r]) = rec_sequence r.
Proof. unfold top. by rewrite last_snoc. Qed.

Lemma follows_app low a b : follows low (a ++ b) <-> follows low a /\ follows (top low a) b.
Proof.
  revert low. induction a as [|r a IH]; intros low; cbn [app follows]; [tauto|].
  rewrite IH, top_cons. tauto.
Qed.

Lemma follows_above low records r : follows low records -> r ∈ records -> (low < rec_sequence r)%N.
Proof.
  revert low. induction records as [|x records IH]; intros low; cbn [follows]; [by intros _ ?%not_elem_of_nil|].
  intros [Hx Hf] [->|Hr]%elem_of_cons; [done|]. specialize (IH _ Hf Hr). lia.
Qed.

Lemma follows_below low records r : follows low records -> r ∈ records -> (rec_sequence r <= top low records)%N.
Proof.
  revert low r. induction records as [|x records IH]; intros low r; cbn [follows]; [by intros _ ?%not_elem_of_nil|].
  intros [Hx Hf] Hr. rewrite top_cons. apply elem_of_cons in Hr as [->|Hr]; [|by apply IH].
  destruct records as [|y records]; [done|].
  assert (Hy := IH (rec_sequence x) y Hf ltac:(left)). cbn in Hf. lia.
Qed.

Lemma follows_le low low' records : (low' <= low)%N -> follows low records -> follows low' records.
Proof. destruct records as [|r records]; cbn; [done|]. intros ? [? ?]. split; [lia|done]. Qed.

Lemma not_increasing_spec entries sequence :
  not_increasing entries sequence = negb (entries_top entries <? sequence)%N.
Proof.
  unfold not_increasing, entries_top. destruct (last entries) as [e|].
  - destruct (N.eqb_spec sequence 0), (N.leb_spec sequence (ix_sequence e)), (N.ltb_spec (ix_sequence e) sequence);
      try done; lia.
  - destruct (N.eqb_spec sequence 0), (N.ltb_spec 0 sequence); try done; lia.
Qed.

Lemma next_sequence_spec entries :
  next_inbox_sequence entries =
  if (entries_top entries <? SEQUENCE_MAX)%N then Ok (entries_top entries + 1)%N else Err SequenceExhausted.
Proof. unfold next_inbox_sequence, entries_top. by destruct (last entries). Qed.

Section laws.
Context {C : InboxCodec} {L : InboxCodecLaws C} {K : ClockRange} (limits : DispatchStoreLimits).

Lemma text_cons r records : text_of (r :: records) = encode_record r ++ NEWLINE :: text_of records.
Proof. unfold text_of. cbn [fmap list_fmap concat]. unfold line_of at 1. by rewrite <- app_assoc. Qed.
Lemma text_app a b : text_of (a ++ b) = text_of a ++ text_of b.
Proof. unfold text_of. by rewrite fmap_app, concat_app. Qed.
Lemma text_one r : text_of [r] = line_of r.
Proof. unfold text_of. cbn. by rewrite app_nil_r. Qed.

Lemma newline_is_text : valid_utf8 [NEWLINE] = true.
Proof. done. Qed.

Lemma read_line_record r rest : read_line (encode_record r ++ NEWLINE :: rest) = Ok (line_of r, rest).
Proof.
  unfold read_line. rewrite until_newline_line by apply encode_one_line.
  by rewrite valid_utf8_app by (apply encode_is_text || apply newline_is_text).
Qed.

Lemma line_record r : ends_with_newline (line_of r) = true /\ without_newline (line_of r) = encode_record r.
Proof. unfold line_of. by rewrite ends_snoc, without_snoc. Qed.

Lemma line_length r : (0 < len_of (line_of r))%N.
Proof. unfold len_of, line_of. rewrite length_app. cbn. lia. Qed.

(** Reading the journal: the records of its lines, or a refusal when what
    follows the last line is not text. *)
Lemma scan_lines_text fuel records tail s :
  length (text_of records ++ tail) <= fuel -> NEWLINE ∉ tail ->
  follows (entries_top (sc_entries s)) records -> length (sc_records s) + length records <= dl_inbox_count limits ->
  scan_lines limits fuel (text_of records ++ tail) s =
  if valid_utf8 tail
  then Ok (MkScan (sc_entries s ++ entries_from (sc_valid_len s) records)
             (sc_valid_len s + len_of (text_of records))%N (sc_records s ++ records) (sc_migrated s))
  else Err NotText.
Proof.
  revert fuel s. induction records as [|r records IH]; intros fuel s Hfuel Htail Hf Hc.
  - change (text_of [] ++ tail) with tail in *.
    assert (Hdone : Ok s = Ok (E := InboxError) (MkScan (sc_entries s ++ entries_from (sc_valid_len s) [])
               (sc_valid_len s + len_of (text_of []))%N (sc_records s ++ []) (sc_migrated s))).
    { cbn. rewrite !app_nil_r. unfold len_of. cbn. rewrite N.add_0_r. by destruct s. }
    rewrite <- Hdone. destruct tail as [|b tail]; [by destruct fuel|]. destruct fuel as [|fuel]; [cbn in Hfuel; lia|].
    cbn [scan_lines]. unfold read_line. rewrite until_newline_tail by done.
    destruct (valid_utf8 (b :: tail)); [|done]. cbn [res_bind]. by rewrite ends_not.
  - rewrite text_cons, <- app_assoc in *. cbn [app] in *. destruct fuel as [|fuel]; [rewrite length_app in Hfuel; cbn in Hfuel; lia|].
    assert (Hstep : scan_lines limits (S fuel) (encode_record r ++ NEWLINE :: text_of records ++ tail) s =
              scan_lines limits fuel (text_of records ++ tail)
                (MkScan (sc_entries s ++ [entry_of (sc_valid_len s) r]) (sc_valid_len s + len_of (line_of r))%N
                   (sc_records s ++ [r]) (sc_migrated s))).
    { destruct (line_record r) as [He Hw]. destruct Hf as [Hlt _]. cbn [length] in Hc.
      assert (Hbody : forall x l, scan_lines limits (S fuel) (x :: l) s =
        (lr <-? read_line (x :: l) ;;
         let '(line, rest) := lr in
         if negb (ends_with_newline line) then Ok s
         else
           rm <-? decode_line s line ;;
           let '(record, migrated) := rm in
           if not_increasing (sc_entries s) (rec_sequence record) then Err NotIncreasing
           else if dl_inbox_count limits <=? length (sc_records s) then Err InboxOverCount
           else scan_lines limits fuel rest
                  (MkScan (sc_entries s ++ [entry_of (sc_valid_len s) record]) (sc_valid_len s + len_of line)%N
                     (sc_records s ++ [record]) migrated))) by done.
      destruct (encode_record r ++ NEWLINE :: text_of records ++ tail) as [|x l] eqn:E; [by destruct (encode_record r)|].
      rewrite Hbody, <- E, read_line_record. cbn [res_bind]. rewrite He. cbn [negb].
      unfold decode_line. rewrite Hw, parse_encode. cbn [res_bind]. rewrite not_increasing_spec.
      destruct (N.ltb_spec (entries_top (sc_entries s)) (rec_sequence r)); [|lia]. cbn [negb].
      destruct (Nat.leb_spec (dl_inbox_count limits) (length (sc_records s))); [lia|done]. }
    rewrite Hstep, IH.
    + destruct (valid_utf8 tail); [|done]. cbn [sc_entries sc_valid_len sc_records sc_migrated entries_from].
      rewrite <- !app_assoc. cbn [app]. do 2 f_equal. unfold line_of. rewrite !len_of_app. unfold len_of. cbn [length]. lia.
    + rewrite length_app in Hfuel. cbn [length] in Hfuel. lia.
    + done.
    + unfold entries_top. cbn [sc_entries]. rewrite last_snoc. apply Hf.
    + cbn [sc_records]. rewrite length_app. cbn [length] in *. lia.
Qed.

Lemma scan_text records tail :
  NEWLINE ∉ tail -> follows 0 records -> length records <= dl_inbox_count limits ->
  scan limits (text_of records ++ tail) =
  if valid_utf8 tail then Ok (MkScan (entries_from 0 records) (len_of (text_of records)) records false) else Err NotText.
Proof. intros Ht Hf Hc. unfold scan. by rewrite scan_lines_text. Qed.

(** ** Reading by offset *)
Fixpoint placed_from (offset : N) (records : list InboxRecord) : list (InboxIndexEntry * InboxRecord) :=
  match records with
  | [] => []
  | r :: records => (entry_of offset r, r) :: placed_from (offset + len_of (line_of r))%N records
  end.

Lemma placed_entries offset records : fst <$> placed_from offset records = entries_from offset records.
Proof. revert offset. induction records as [|r records IH]; intros offset; cbn; [done|]. by rewrite IH. Qed.
Lemma placed_records offset records : snd <$> placed_from offset records = records.
Proof. revert offset. induction records as [|r records IH]; intros offset; cbn; [done|]. by rewrite IH. Qed.

Lemma placed_entry offset records e r : (e, r) ∈ placed_from offset records -> exists o, e = entry_of o r.
Proof.
  revert offset. induction records as [|x records IH]; intros offset; cbn; [by intros ?%not_elem_of_nil|].
  intros [[= -> ->]|H]%elem_of_cons; [by eexists|by apply (IH _ H)].
Qed.

Definition located (bytes : list N) (er : InboxIndexEntry * InboxRecord) : Prop :=
  ix_sequence er.1 = rec_sequence er.2 /\ exists rest, drop (N.to_nat (ix_offset er.1)) bytes = line_of er.2 ++ rest.

Lemma placed_located before records rest er :
  er ∈ placed_from (len_of before) records -> located (before ++ text_of records ++ rest) er.
Proof.
  revert before. induction records as [|r records IH]; intros before; cbn [placed_from]; [by intros ?%not_elem_of_nil|].
  intros [->|Hin]%elem_of_cons.
  - split; [done|]. cbn [fst snd entry_of ix_offset]. unfold len_of. rewrite Nat2N.id, drop_app_length.
    exists (text_of records ++ rest). rewrite text_cons. unfold line_of. by rewrite <- !app_assoc.
  - rewrite text_cons. replace (before ++ (encode_record r ++ NEWLINE :: text_of records) ++ rest)
      with ((before ++ line_of r) ++ text_of records ++ rest) by (unfold line_of; by rewrite <- !app_assoc).
    apply IH. by rewrite len_of_app.
Qed.

Lemma read_located bytes l : (forall er, er ∈ l -> located bytes er) -> read_entries bytes (fst <$> l) = Ok (snd <$> l).
Proof.
  induction l as [|[e r] l IH]; intros Hl; [done|]. cbn [fmap list_fmap fst snd read_entries].
  destruct (Hl (e, r) ltac:(left)) as [Es [rest Hd]]. cbn [fst snd] in Es, Hd. rewrite Hd.
  unfold line_of. rewrite <- app_assoc. cbn [app]. rewrite read_line_record. cbn [res_bind fst].
  destruct (line_record r) as [-> ->]. cbn [negb]. rewrite parse_encode, Es, N.eqb_refl. cbn [negb].
  rewrite IH; [done|]. intros er H. apply Hl. by right.
Qed.

Lemma retain_fmap {A B} (f : A -> B) (p : B -> bool) l : retain p (f <$> l) = f <$> retain (p ∘ f) l.
Proof. induction l as [|x l IH]; cbn; [done|]. destruct (p (f x)); cbn; by rewrite IH. Qed.
End laws.

(** ** The invariant of an inbox

    [holds n f rs hidden]: the files [f] are an inbox that shows the records
    [rs].  The journal is their lines, then the line of an append that failed
    and that the index does not list ([hidden]), then what a cut append left.
    Every operation keeps it whatever the disk answers, and takes no record away
    that has not been acknowledged. *)
Definition journal (f : InboxFiles) : list N := default [] (fi_journal f).
Definition watermark (f : InboxFiles) : N :=
  match fi_ack f with Some (Some a) => ack_next_sequence a | _ => 1%N end.
Definition calm (f : InboxFiles) : Prop := fi_io f = [].

Section life.
Context {C : InboxCodec} {L : InboxCodecLaws C} {K : ClockRange} (limits : DispatchStoreLimits).
Context (sent : InboxMessage -> Prop).

Definition index_of (rs : list InboxRecord) (len : N) : InboxIndex :=
  MkInboxIndex len (len_of (text_of rs)) (entries_from 0 rs).

Definition lists (f : InboxFiles) (index : InboxIndex) : Prop :=
  fi_index f = Some index /\ index_fits index (len_of (journal f)) = true.

Record holds (n : N) (f : InboxFiles) (rs hidden : list InboxRecord) : Prop := {
  ho_text : exists tail, NEWLINE ∉ tail /\ journal f = text_of (rs ++ hidden) ++ tail;
  ho_bytes : (len_of (journal f) <= dl_inbox_bytes limits)%N;
  ho_index : forall index, lists f index -> index = index_of rs (len_of (journal f));
  ho_hidden : hidden <> [] -> exists index, lists f index;
  ho_absent : fi_journal f = None -> fi_index f = None;
  ho_follows : follows 0 (rs ++ hidden);
  ho_count : length (rs ++ hidden) <= dl_inbox_count limits;
  ho_top : (top 0 (rs ++ hidden) <= n)%N;
  ho_ack : fi_ack f <> Some None /\ (1 <= watermark f <= top 0 rs + 1)%N;
  ho_read : forall r, r ∈ rs ++ hidden -> im_read (rec_message r) = true -> (rec_sequence r < watermark f)%N;
  ho_sent : forall r, r ∈ rs ++ hidden -> sent (set_im_read false (rec_message r))
}.

(** Records the caller has not acknowledged are all still there. *)
Definition kept (w : N) (rs rs' : list InboxRecord) : Prop :=
  forall r, r ∈ rs -> (w <= rec_sequence r)%N -> r ∈ rs'.

Lemma kept_refl w rs : kept w rs rs.
Proof. by intros ???. Qed.
Lemma kept_trans w a b c : kept w a b -> kept w b c -> kept w a c.
Proof. unfold kept. auto. Qed.
Lemma kept_app w rs more : kept w rs (rs ++ more).
Proof. intros r Hr _. apply elem_of_app. by left. Qed.

(** ** The index of the records *)
Lemma entries_length o rs : length (entries_from o rs) = length rs.
Proof. revert o. induction rs as [|r rs IH]; intros o; cbn; [done|]. by rewrite IH. Qed.

Lemma entries_from_app o a b : entries_from o (a ++ b) = entries_from o a ++ entries_from (o + len_of (text_of a)) b.
Proof.
  revert o. induction a as [|r a IH]; intros o; cbn [app entries_from].
  - unfold text_of, len_of. cbn. by rewrite N.add_0_r.
  - rewrite IH, text_cons. do 3 f_equal. unfold line_of. rewrite !len_of_app. unfold len_of. cbn [length]. lia.
Qed.

Lemma entries_top_of o rs : entries_top (entries_from o rs) = top 0 rs.
Proof.
  destruct rs as [|r rs] using rev_ind; [done|]. rewrite entries_from_app. unfold entries_top, top.
  cbn [entries_from]. by rewrite !last_snoc.
Qed.

Lemma in_order_cons2 a b rest : in_order (a :: b :: rest) =
  (ix_sequence a <? ix_sequence b)%N && (ix_offset a <? ix_offset b)%N && in_order (b :: rest).
Proof. done. Qed.

Lemma entries_in_order low o rs : follows low rs -> in_order (entries_from o rs) = true.
Proof.
  revert low o. induction rs as [|r rs IH]; intros low o; [done|]. destruct rs as [|r' rs]; [done|].
  intros [_ Hf]. specialize (IH _ (o + len_of (line_of r))%N Hf). cbn [entries_from] in *.
  rewrite in_order_cons2, IH. cbn [ix_sequence ix_offset entry_of]. destruct Hf as [Hlt _]. assert (Hl := line_length r).
  destruct (N.ltb_spec (rec_sequence r) (rec_sequence r')), (N.ltb_spec o (o + len_of (line_of r))); try done; lia.
Qed.

Lemma len_of_text_cons r rs : len_of (text_of (r :: rs)) = (len_of (line_of r) + len_of (text_of rs))%N.
Proof. rewrite text_cons. unfold line_of. rewrite !len_of_app. unfold len_of. cbn [length]. lia. Qed.

Lemma last_entry_inside o rs e : last (entries_from o rs) = Some e -> (ix_offset e < o + len_of (text_of rs))%N.
Proof.
  destruct rs as [|r rs _] using rev_ind; [done|]. rewrite entries_from_app. cbn [entries_from]. rewrite last_snoc.
  intros [= <-]. cbn [ix_offset entry_of]. rewrite text_app, len_of_app, text_one. assert (Hl := line_length r). lia.
Qed.

Lemma index_of_fits rs len : follows 0 rs -> (len_of (text_of rs) <= len)%N -> index_fits (index_of rs len) len = true.
Proof.
  intros Hf Hl. unfold index_fits, index_of. cbn [ii_journal_len ii_valid_len ii_entries].
  rewrite N.eqb_refl, (proj2 (N.leb_le _ _) Hl), (entries_in_order 0 0 rs Hf). cbn [andb]. rewrite andb_true_r.
  apply andb_true_iff. split.
  - destruct rs as [|r rs]; [done|]. cbn. destruct Hf as [Hr _]. by apply N.ltb_lt.
  - destruct (last (entries_from 0 rs)) as [e|] eqn:E; [|done]. apply last_entry_inside in E. apply N.ltb_lt. lia.
Qed.

Lemma index_fits_len index len : index_fits index len = true -> ii_journal_len index = len.
Proof. unfold index_fits. rewrite !andb_true_iff, N.eqb_eq. tauto. Qed.

(** ** The disk *)
Lemma post_io complete partial (Q : _ -> _ -> Prop) f :
  (forall rest, (calm f -> rest = []) -> Q (Ok tt) (complete (set_fi_io rest f))) ->
  (~ calm f -> forall rest, Q (Err IoFailed) (set_fi_io rest f)) ->
  (~ calm f -> forall k rest, Q (Err IoFailed) (partial k (set_fi_io rest f))) ->
  post (io complete partial) Q f.
Proof.
  intros Hd Hr Hp. unfold post, io. destruct (fi_io f) as [|answer rest] eqn:E.
  - replace f with (set_fi_io [] f) by (destruct f; cbn in *; by subst). by apply Hd.
  - assert (Hn : ~ calm f) by (unfold calm; by rewrite E). destruct answer as [| |k]; cbn [fst snd].
    + by apply Hd.
    + by apply Hr.
    + by apply Hp.
Qed.

Lemma post_atomically complete (Q : _ -> _ -> Prop) f :
  (forall rest, (calm f -> rest = []) -> Q (Ok tt) (complete (set_fi_io rest f))) ->
  (~ calm f -> forall rest, Q (Err IoFailed) (set_fi_io rest f)) ->
  post (atomically complete) Q f.
Proof. intros Hd Hr. unfold atomically. apply post_io; [exact Hd|exact Hr|]. intros Hn _. by apply Hr. Qed.

Lemma holds_io n f rs hidden answers : holds n f rs hidden -> holds n (set_fi_io answers f) rs hidden.
Proof. intros []. constructor; done. Qed.

Lemma holds_later n m f rs hidden : (n <= m)%N -> holds n f rs hidden -> holds m f rs hidden.
Proof. intros Hm []. constructor; try done. lia. Qed.

Lemma holds_shown n f rs hidden : holds n f rs hidden ->
  follows 0 rs /\ length rs <= dl_inbox_count limits /\ (len_of (text_of rs) <= len_of (journal f))%N.
Proof.
  intros H. destruct (ho_text _ _ _ _ H) as (tail & _ & Ht). split_and!.
  - by apply (follows_app 0 rs hidden), (ho_follows _ _ _ _ H).
  - assert (Hc := ho_count _ _ _ _ H). rewrite length_app in Hc. lia.
  - rewrite Ht, text_app, !len_of_app. lia.
Qed.

Lemma text_of_nil rs : text_of rs = [] -> rs = [].
Proof. destruct rs as [|r rs]; [done|]. rewrite text_cons. by destruct (encode_record r). Qed.

Lemma holds_absent n f rs hidden : holds n f rs hidden -> fi_journal f = None -> rs = [] /\ hidden = [].
Proof.
  intros H Hn. destruct (ho_text _ _ _ _ H) as (tail & _ & Ht). unfold journal in Ht. rewrite Hn in Ht. cbn in Ht.
  symmetry in Ht. apply app_eq_nil in Ht as [Ht _]. apply text_of_nil in Ht. by apply app_eq_nil.
Qed.

(** A write of the index that lists what is shown. *)
Lemma holds_indexed n f rs : holds n f rs [] -> fi_journal f <> None ->
  holds n (set_fi_index (Some (index_of rs (len_of (journal f)))) f) rs [].
Proof.
  intros [] Hj. constructor; try done.
  intros index [Hi _]. cbn in Hi. by injection Hi as <-.
Qed.

Definition untouched (f f' : InboxFiles) : Prop := fi_journal f' = fi_journal f /\ fi_ack f' = fi_ack f.
Definition current (f : InboxFiles) (index : InboxIndex) : Prop := fi_journal f = None \/ fi_index f = Some index.

Lemma index_spec n f rs hidden : holds n f rs hidden ->
  post (inbox_index limits) (fun r f' =>
    holds n f' rs hidden /\ untouched f f' /\ (calm f -> calm f') /\
    match r with
    | Ok index => index = index_of rs (len_of (journal f)) /\ current f' index
    | Err e => calm f -> e = NotText
    end) f.
Proof.
  intros H. unfold inbox_index. apply post_get. destruct (fi_journal f) as [bytes|] eqn:Ej.
  2: { apply post_ret. destruct (holds_absent _ _ _ _ H Ej) as [-> ->]. split_and!; try done; [|by left].
       unfold journal. by rewrite Ej. }
  assert (Eb : journal f = bytes) by (unfold journal; by rewrite Ej). apply post_ensure.
  2: { intros Hn. apply N.leb_gt in Hn. assert (Hb := ho_bytes _ _ _ _ H). rewrite Eb in Hb. lia. }
  intros _.
  assert (Hrebuild : (forall index, ~ lists f index) -> post (rebuild_inbox_index limits) (fun r f' =>
    holds n f' rs hidden /\ untouched f f' /\ (calm f -> calm f') /\
    match r with
    | Ok index => index = index_of rs (len_of (journal f)) /\ current f' index
    | Err e => calm f -> e = NotText
    end) f).
  { intros Hno. unfold rebuild_inbox_index. apply post_get. rewrite Ej. apply post_lift.
    destruct (ho_text _ _ _ _ H) as (tail & Htail & Ht). rewrite Eb in Ht.
    rewrite Ht, scan_text by (apply H || done). assert (hidden = []) as ->.
    { destruct hidden as [|x hidden]; [done|]. destruct (ho_hidden _ _ _ _ H ltac:(done)) as [index Hi]. by destruct (Hno index). }
    rewrite app_nil_r in Ht. rewrite app_nil_r. destruct (valid_utf8 tail); [|done]. cbn [sc_migrated sc_entries sc_valid_len].
    apply post_bind, post_atomically.
    - intros rest Hrest. apply post_ret. rewrite <- Ht, <- Eb. split_and!; [|done|by apply Hrest|done|by right].
      apply (holds_indexed n (set_fi_io rest f)); [by apply holds_io|]. cbn. by rewrite Ej.
    - intros Hn rest. split_and!; [by apply holds_io|done|done|done]. }
  destruct (fi_index f) as [index|] eqn:Ei; [destruct (index_fits index (len_of bytes)) eqn:Ef|].
  - apply post_ret. split_and!; [done|done|done| |by right]. rewrite Eb, <- Eb. apply (ho_index _ _ _ _ H). split; [done|by rewrite Eb].
  - apply Hrebuild. intros index' [E1 E2]. rewrite Eb in E2. congruence.
  - apply Hrebuild. intros index' [E1 E2]. congruence.
Qed.

Lemma read_spec n f rs hidden l : holds n f rs hidden -> (forall er, er ∈ l -> er ∈ placed_from 0 rs) ->
  read_inbox_records (fst <$> l) f = (Ok (snd <$> l), f).
Proof.
  intros H Hl. destruct l as [|er l]; [done|]. unfold read_inbox_records. cbn [fmap list_fmap].
  change (fst er :: (fst <$> l)) with (fst <$> er :: l). change (snd er :: (snd <$> l)) with (snd <$> er :: l).
  unfold st_bind, st_get. destruct (fi_journal f) as [bytes|] eqn:Ej.
  - unfold st_lift. f_equal. apply read_located. intros er' Her%Hl. destruct (ho_text _ _ _ _ H) as (tail & _ & Ht).
    assert (Eb : journal f = bytes) by (unfold journal; by rewrite Ej). rewrite Eb in Ht. rewrite Ht, text_app, <- app_assoc.
    by apply (placed_located [] rs).
  - destruct (holds_absent _ _ _ _ H Ej) as [-> ->]. by specialize (Hl er ltac:(left)) as ?%not_elem_of_nil.
Qed.

Lemma read_all_spec n f rs hidden : holds n f rs hidden ->
  read_inbox_records (entries_from 0 rs) f = (Ok rs, f).
Proof. intros H. rewrite <- placed_entries, (read_spec n f rs hidden) by done. by rewrite placed_records. Qed.

Lemma ack_spec n f rs hidden : holds n f rs hidden -> read_inbox_ack f = (Ok (MkInboxAck (watermark f)), f).
Proof.
  intros H. destruct (ho_ack _ _ _ _ H) as [Ha _]. unfold read_inbox_ack, st_bind, st_get, watermark.
  destruct (fi_ack f) as [[[a]|]|]; done.
Qed.

Lemma watermark_valid n f rs hidden len : holds n f rs hidden ->
  validate_inbox_ack (MkInboxAck (watermark f)) (index_of rs len) =
  if (top 0 rs <? SEQUENCE_MAX)%N then Ok tt else Err SequenceExhausted.
Proof.
  intros H. unfold validate_inbox_ack. cbn [ii_entries index_of ack_next_sequence].
  rewrite next_sequence_spec, entries_top_of. destruct (N.ltb_spec (top 0 rs) SEQUENCE_MAX); [|done]. cbn [res_bind].
  destruct (ho_ack _ _ _ _ H) as [_ Hw]. destruct (N.eqb_spec (watermark f) 0); [lia|].
  destruct (N.ltb_spec (top 0 rs + 1) (watermark f)); [lia|done].
Qed.

Lemma top_mono a b : follows 0 (a ++ b) -> (top 0 a <= top 0 (a ++ b))%N.
Proof.
  intros [_ Hf]%follows_app. rewrite top_app. destruct b as [|x b _] using rev_ind; [done|]. rewrite top_snoc.
  assert (Hx := follows_above _ _ x Hf ltac:(apply elem_of_app; right; left)). lia.
Qed.

(** ** Compaction *)
Lemma drop_reads_app ack k a b :
  drop_reads ack k (a ++ b) = drop_reads ack k a ++ drop_reads ack (k - count (is_read ack) a) b.
Proof.
  revert k. induction a as [|r a IH]; intros k; [by rewrite Nat.sub_0_r|]. rewrite count_cons. cbn [app drop_reads].
  destruct k as [|k]; [by rewrite IH|]. destruct (is_read ack r); cbn [app]; by rewrite IH.
Qed.

Lemma drop_reads_from ack k rs r' : r' ∈ drop_reads ack k rs ->
  exists r, r ∈ rs /\ r' = MkInboxRecord (rec_sequence r) (set_im_read (is_read ack r) (rec_message r)).
Proof.
  revert k. induction rs as [|r rs IH]; intros k; [by intros ?%not_elem_of_nil|]. cbn [drop_reads].
  assert (Hrec : forall j, r' ∈ drop_reads ack j rs -> exists r0, r0 ∈ r :: rs /\
            r' = MkInboxRecord (rec_sequence r0) (set_im_read (is_read ack r0) (rec_message r0))).
  { intros j (r0 & ? & ->)%IH. exists r0. split; [by right|done]. }
  destruct k as [|k]; [|destruct (is_read ack r) eqn:E; [apply Hrec|rewrite <- E]];
    (intros [->|H]%elem_of_cons; [exists r; split; [left|done]|by eapply Hrec]).
Qed.

Lemma drop_reads_keeps ack k rs r : r ∈ rs -> is_read ack r = false -> r ∈ drop_reads ack k rs.
Proof.
  intros Hr E. assert (Em : MkInboxRecord (rec_sequence r) (set_im_read (is_read ack r) (rec_message r)) = r).
  { rewrite E. unfold is_read in E. apply orb_false_iff in E as [E _]. destruct r as [s m], m. cbn in *. by subst. }
  revert k. induction Hr as [r rs|r x rs Hr IH]; intros k; cbn [drop_reads].
  - rewrite Em. destruct k; [left|]. rewrite E. left.
  - specialize (IH E Em). destruct k as [|k]; [right; apply IH|]. destruct (is_read ack x); [apply IH|right; apply IH].
Qed.

Lemma drop_reads_follows ack k low rs : follows low rs -> follows low (drop_reads ack k rs).
Proof.
  revert k low. induction rs as [|r rs IH]; intros k low; [done|]. intros [Hl Hf]. cbn [drop_reads].
  destruct k as [|k]; [split; [done|by apply IH]|]. destruct (is_read ack r); [|split; [done|by apply IH]].
  eapply follows_le; [|by apply IH]. lia.
Qed.

Lemma drop_reads_length ack k rs : length (drop_reads ack k rs) <= length rs.
Proof.
  revert k. induction rs as [|r rs IH]; intros k; [done|]. cbn [drop_reads].
  destruct k as [|k]; [cbn; specialize (IH 0); lia|]. destruct (is_read ack r); cbn; [specialize (IH k)|specialize (IH (S k))]; lia.
Qed.

Lemma drop_reads_top ack k rs : k <= removable_reads limits ack rs -> top 0 (drop_reads ack k rs) = top 0 rs.
Proof.
  destruct rs as [|r rs _] using rev_ind; [by destruct k|]. intros Hk. unfold removable_reads in Hk. rewrite last_snoc in Hk.
  rewrite drop_reads_app, !top_snoc.
  replace (k - count (is_read ack) rs) with 0.
  - cbn [drop_reads]. by rewrite top_snoc.
  - rewrite count_app, count_cons in Hk. change (count (is_read ack) []) with 0 in Hk. destruct (is_read ack r); lia.
Qed.

Lemma shed_le l remove removable retained required :
  shed limits l remove removable retained required <= Nat.max remove removable.
Proof.
  revert remove retained. induction l as [|b l IH]; intros remove retained; cbn [shed]; [lia|].
  destruct (Nat.ltb_spec remove removable); cbn [andb]; [|lia]. destruct (_ <? _)%N; [|lia].
  specialize (IH (S remove) (retained - b)%N). lia.
Qed.

Lemma reads_to_remove_le ack cutoff required rs : reads_to_remove limits ack cutoff required rs <= removable_reads limits ack rs.
Proof. unfold reads_to_remove. etransitivity; [apply shed_le|]. lia. Qed.

(** What an operation that may fail leaves: an inbox that shows whatever was not
    acknowledged. *)
Definition survives (n : N) (f : InboxFiles) (rs : list InboxRecord) (f' : InboxFiles) : Prop :=
  fi_ack f' = fi_ack f /\ exists shown hidden, holds n f' shown hidden /\ kept (watermark f) rs shown.

Lemma survives_same n f rs hidden f' : holds n f' rs hidden -> fi_ack f' = fi_ack f -> survives n f rs f'.
Proof. intros H Ha. split; [done|]. exists rs, hidden. split; [done|apply kept_refl]. Qed.

(** The journal is rewritten; [index] describes it. *)
Definition rewritten (n : N) (rs : list InboxRecord) (index : InboxIndex) (f' : InboxFiles) : Prop :=
  holds n f' rs [] /\ index = index_of rs (len_of (journal f')) /\ fi_index f' = Some index.

Lemma holds_unindexed n f rs hidden : holds n f rs hidden -> holds n (set_fi_index None f) (rs ++ hidden) [].
Proof.
  intros []. constructor; rewrite ?app_nil_r; try done.
  - by intros index [? _].
  - destruct ho_ack0 as [Ha Hw]. split; [done|]. change (watermark (set_fi_index None f)) with (watermark f).
    assert (Ht := top_mono _ _ ho_follows0). lia.
Qed.

Lemma holds_text n f rs : follows 0 rs -> length rs <= dl_inbox_count limits -> (len_of (text_of rs) <= dl_inbox_bytes limits)%N ->
  fi_index f = None -> fi_ack f <> Some None -> (1 <= watermark f <= top 0 rs + 1)%N -> (top 0 rs <= n)%N ->
  (forall r, r ∈ rs -> im_read (rec_message r) = true -> (rec_sequence r < watermark f)%N) ->
  (forall r, r ∈ rs -> sent (set_im_read false (rec_message r))) ->
  holds n (set_fi_journal (Some (text_of rs)) f) rs [].
Proof.
  intros Hf Hc Hb Hi Ha Hw Ht Hr Hs. constructor; rewrite ?app_nil_r; try done.
  - exists []. rewrite app_nil_r. split; [by apply not_elem_of_nil|done].
  - intros index [E _]. cbn in E. congruence.
Qed.

Lemma write_spec n f rs hidden rs' : holds n f rs hidden -> follows 0 rs' -> top 0 rs' = top 0 rs ->
  (forall r, r ∈ rs' -> im_read (rec_message r) = true -> (rec_sequence r < watermark f)%N) ->
  (forall r, r ∈ rs' -> sent (set_im_read false (rec_message r))) -> kept (watermark f) rs rs' ->
  post (write_inbox_records limits rs') (fun r f' => survives n f rs f' /\
    match r with Ok index => rewritten n rs' index f' | Err _ => True end) f.
Proof.
  intros H Hf Ht Hr Hs Hk. unfold write_inbox_records.
  assert (Hsame : forall answers, survives n f rs (set_fi_io answers f)).
  { intros answers. by apply (survives_same n f rs hidden); [apply holds_io|]. }
  apply post_ensure; [intros Hc%Nat.leb_le|by split; [eapply survives_same|]].
  apply post_bind, post_atomically; [intros r1 _|by split; [apply Hsame|]].
  apply post_ensure; [intros Hb%N.leb_le|by split; [apply Hsame|]].
  apply post_bind, post_atomically; [intros r2 _|by split; [apply Hsame|]].
  set (f1 := set_fi_index None (set_fi_io r2 (id (set_fi_io r1 f)))).
  assert (H1 : holds n f1 (rs ++ hidden) []) by (apply (holds_unindexed n (set_fi_io r2 (id (set_fi_io r1 f)))); by do 2 apply holds_io).
  assert (Hs1 : forall answers, survives n f rs (set_fi_io answers f1)).
  { intros answers. split; [done|]. exists (rs ++ hidden), []. split; [by apply holds_io|apply kept_app]. }
  apply post_bind, post_atomically; [intros r3 _|by split; [apply Hs1|]].
  set (f2 := set_fi_journal (Some (text_of rs')) (set_fi_io r3 f1)).
  destruct (ho_ack _ _ _ _ H) as [Ha Hw].
  assert (H2 : holds n f2 rs' []).
  { apply holds_text; try done; change (watermark (set_fi_io r3 f1)) with (watermark f); rewrite Ht; try done.
    assert (Hn := ho_top _ _ _ _ H1). rewrite app_nil_r in Hn.
    assert (Hm := top_mono _ _ (ho_follows _ _ _ _ H)). lia. }
  apply post_bind, post_atomically.
  - intros r4 _. apply post_ret. set (f3 := set_fi_index _ _).
    assert (H3 : holds n f3 rs' []) by (apply (holds_indexed n (set_fi_io r4 f2)); [by apply holds_io|done]).
    split; [split; [done|by exists rs', []]|]. by split.
  - intros _ r4. split; [|done]. split; [done|]. exists rs', []. split; [by apply holds_io|done].
Qed.

Lemma run_bind {S E A B} (call : st S E A) (k : A -> st S E B) Q s a s' :
  call s = (Ok a, s') -> post (k a) Q s' -> post (st_bind call k) Q s.
Proof. intros Hc H. apply post_bind. unfold post at 1. by rewrite Hc. Qed.

(** An index that an append may start from. *)
Definition indexed (n : N) (f : InboxFiles) (rs hidden : list InboxRecord) (index : InboxIndex) : Prop :=
  holds n f rs hidden /\ index = index_of rs (len_of (journal f)) /\ current f index.

(** What the steps before the append of a message leave: the same inbox, or a
    compacted one that keeps every record which was not acknowledged. *)
Definition prepared (n : N) (f : InboxFiles) (rs : list InboxRecord) (index : InboxIndex) (f' : InboxFiles) : Prop :=
  fi_ack f' = fi_ack f /\
  exists shown hidden, indexed n f' shown hidden index /\ kept (watermark f) rs shown /\ top 0 shown = top 0 rs /\
    length shown <= length rs.

Lemma prepared_survives n f rs index f' : prepared n f rs index f' -> survives n f rs f'.
Proof. intros (Ha & shown & hidden & [H _] & Hk & _). split; [done|]. by exists shown, hidden. Qed.

Lemma compact_spec n f rs hidden now index required : indexed n f rs hidden index ->
  post (compact_inbox limits now index (MkInboxAck (watermark f)) required) (fun r f' => survives n f rs f' /\
    match r with Ok index' => prepared n f rs index' f' | Err _ => True end) f.
Proof.
  intros (H & -> & Hcur). unfold compact_inbox. cbn [ii_entries index_of].
  eapply run_bind; [apply (read_all_spec n f rs hidden H)|].
  assert (Hsame : survives n f rs f) by by eapply survives_same.
  apply post_bind. unfold history_cutoff, post at 1, st_lift. cbn [fst snd].
  destruct (checked_sub_seconds _ _) as [cutoff|]; [cbn [ok_or]|by split].
  set (ack := MkInboxAck (watermark f)). set (remove := reads_to_remove _ _ _ _ _).
  destruct (remove =? 0).
  { apply post_ret. split; [done|]. split; [done|]. exists rs, hidden. split_and!; [done|apply kept_refl|done|done]. }
  assert (Hread : forall r, r ∈ rs -> is_read ack r = (rec_sequence r <? watermark f)%N).
  { intros r Hr. unfold is_read. cbn. destruct (im_read (rec_message r)) eqn:E; [|done]. cbn. symmetry. apply N.ltb_lt.
    apply (ho_read _ _ _ _ H); [apply elem_of_app; by left|done]. }
  eapply post_mono; [apply (write_spec n f rs hidden (drop_reads ack remove rs)); [done|..]|].
  - apply drop_reads_follows. by apply (holds_shown _ _ _ _ H).
  - apply drop_reads_top, reads_to_remove_le.
  - intros r (r0 & Hr0 & ->)%drop_reads_from E. cbn in *. rewrite Hread in E by done. by apply N.ltb_lt.
  - intros r (r0 & Hr0 & ->)%drop_reads_from. cbn. apply (ho_sent _ _ _ _ H r0). apply elem_of_app. by left.
  - intros r Hr Hw. apply drop_reads_keeps; [done|]. rewrite Hread by done. by apply N.ltb_ge.
  - intros [index'|e] f' [Hs Hi]; [|done]. split; [done|]. destruct Hi as (H' & Hi & Hc'). split; [apply Hs|].
    exists (drop_reads ack remove rs), []. split_and!; [by split_and!; [| |right]| |apply drop_reads_top, reads_to_remove_le|apply drop_reads_length].
    intros r Hr Hw. apply drop_reads_keeps; [done|]. rewrite Hread by done. by apply N.ltb_ge.
Qed.

(** ** Publication *)
Lemma top_next r rs : follows 0 rs -> rec_sequence r = (top 0 rs + 1)%N -> follows 0 (rs ++ [r]).
Proof. intros Hf Hr. apply follows_app. split; [done|]. split; [lia|done]. Qed.

(** The journal ends with the records shown, and the index is of them or gone. *)
Definition trimmed (n : N) (f : InboxFiles) (rs : list InboxRecord) : Prop :=
  holds n f rs [] /\ fi_journal f = Some (text_of rs) /\
  (fi_index f = None \/ exists len, fi_index f = Some (index_of rs len)).

Lemma trimmed_io n f rs answers : trimmed n f rs -> trimmed n (set_fi_io answers f) rs.
Proof. intros (H & Hj & Hi). split; [by apply holds_io|done]. Qed.

(** The bytes of an append, all or some of them. *)
Lemma appended_part n f rs part line :
  trimmed n f rs -> NEWLINE ∉ part -> (len_of part <= len_of line)%N ->
  (len_of (text_of rs) + len_of line <= dl_inbox_bytes limits)%N ->
  holds n (set_fi_journal (Some (text_of rs ++ part)) f) rs [].
Proof.
  intros (H & Hj & Hi) Hn Hl Hb. destruct H. constructor; try done.
  - exists part. by rewrite app_nil_r.
  - cbn. rewrite len_of_app. lia.
  - intros index [E Hfit]. change (fi_index f = Some index) in E. apply index_fits_len in Hfit. rewrite <- Hfit.
    destruct Hi as [Hi|[len Hi]]; rewrite Hi in E; [done|]. by injection E as <-.
Qed.

Lemma appended_whole n f rs r :
  trimmed n f rs -> rec_sequence r = (top 0 rs + 1)%N -> im_read (rec_message r) = false ->
  sent (set_im_read false (rec_message r)) -> length rs < dl_inbox_count limits ->
  (len_of (text_of rs) + len_of (line_of r) <= dl_inbox_bytes limits)%N ->
  let f' := set_fi_journal (Some (text_of rs ++ line_of r)) f in
  holds (n + 1) f' rs [r] /\ (exists index, lists f' index) \/ holds (n + 1) f' (rs ++ [r]) [].
Proof.
  intros (H & Hj & Hi) Hr Hread Hsent Hc Hb f'. destruct H.
  assert (Ht : text_of rs ++ line_of r = text_of (rs ++ [r])) by by rewrite text_app, text_one.
  rewrite app_nil_r in *. assert (Hf := top_next r rs ho_follows0 Hr).
  assert (Hwhole : forall shown hidden, shown ++ hidden = rs ++ [r] ->
            (forall index, lists f' index -> index = index_of shown (len_of (journal f'))) ->
            (hidden <> [] -> exists index, lists f' index) -> (top 0 rs <= top 0 shown)%N -> holds (n + 1) f' shown hidden).
  { intros shown hidden E Hind Hhid Htop. constructor; rewrite ?E; try done.
    - exists []. rewrite app_nil_r, <- Ht. split; [by apply not_elem_of_nil|done].
    - cbn. rewrite len_of_app. lia.
    - rewrite length_app. cbn. lia.
    - rewrite top_snoc, Hr. lia.
    - destruct ho_ack0 as [Ha Hw]. split; [done|]. change (watermark f') with (watermark f). lia.
    - intros x [Hx|Hx%list_elem_of_singleton]%elem_of_app Hxr; [by apply ho_read0|congruence].
    - intros x [Hx|Hx%list_elem_of_singleton]%elem_of_app; [by apply ho_sent0|by subst]. }
  destruct Hi as [Hi|[len Hi]]; [|destruct (index_fits (index_of rs len) (len_of (journal f'))) eqn:E].
  - right. apply Hwhole; rewrite ?app_nil_r; try done.
    + intros index [E _]. change (fi_index f = Some index) in E. congruence.
    + rewrite top_snoc. lia.
  - left. assert (Hl : lists f' (index_of rs len)) by by split.
    split; [|by eexists]. apply Hwhole; try done; [|by eexists].
    intros index [E1 E2]. apply index_fits_len in E2. rewrite <- E2. change (fi_index f = Some index) in E1.
    rewrite Hi in E1. by injection E1 as <-.
  - right. apply Hwhole; rewrite ?app_nil_r; try done.
    + intros index [E1 E2]. change (fi_index f = Some index) in E1. rewrite Hi in E1. injection E1 as <-. congruence.
    + rewrite top_snoc. lia.
Qed.

Lemma holds_created n f rs hidden : holds n f rs hidden -> holds n (set_fi_journal (Some (journal f)) f) rs hidden.
Proof. intros []. by constructor. Qed.

Lemma current_listed n f rs hidden index : indexed n f rs hidden index ->
  fi_index f = None \/ exists len, fi_index f = Some (index_of rs len).
Proof. intros (H & -> & [Hn|Hi]); [left; by apply (ho_absent _ _ _ _ H)|right; by eexists]. Qed.

Lemma trimmed_torn n f rs hidden index :
  indexed n f rs hidden index -> (ii_valid_len index < len_of (journal f))%N ->
  trimmed n (set_fi_journal (Some (take (N.to_nat (ii_valid_len index)) (journal f))) f) rs.
Proof.
  intros Hx Hlt. assert (Hi := current_listed _ _ _ _ _ Hx). destruct Hx as (H & -> & Hcur). cbn [ii_valid_len index_of] in *.
  destruct (ho_text _ _ _ _ H) as (tail & Htail & Ht).
  assert (Hcut : take (N.to_nat (len_of (text_of rs))) (journal f) = text_of rs).
  { rewrite Ht, text_app, <- app_assoc. unfold len_of. by rewrite Nat2N.id, take_app_length. }
  rewrite Hcut. split; [|by split]. destruct (holds_shown _ _ _ _ H) as (Hf & Hc & _). destruct H. constructor; rewrite ?app_nil_r; try done.
  - exists []. rewrite app_nil_r. split; [by apply not_elem_of_nil|done].
  - cbn. lia.
  - intros index [E Hfit]. change (fi_index f = Some index) in E. apply index_fits_len in Hfit. cbn in Hfit.
    destruct Hcur as [Hn|Hcur]; [assert (len_of (journal f) = 0%N) by (unfold journal; by rewrite Hn); lia|].
    rewrite Hcur in E. injection E as <-. unfold index_of in Hfit. cbn [ii_journal_len] in Hfit.
    change (journal (set_fi_journal (Some (text_of rs)) f)) with (text_of rs) in Hfit. lia.
  - assert (Hm := top_mono _ _ ho_follows0). lia.
  - intros r Hr. apply ho_read0, elem_of_app. by left.
  - intros r Hr. apply ho_sent0, elem_of_app. by left.
Qed.

Lemma trimmed_whole n f rs hidden index :
  indexed n f rs hidden index -> ~ (ii_valid_len index < len_of (journal f))%N ->
  trimmed n (set_fi_journal (Some (journal f)) f) rs /\ ii_valid_len index = len_of (journal f).
Proof.
  intros Hx Hge. assert (Hi := current_listed _ _ _ _ _ Hx). destruct Hx as (H & -> & Hcur). cbn [ii_valid_len index_of] in *.
  destruct (ho_text _ _ _ _ H) as (tail & Htail & Ht).
  assert (E : text_of hidden ++ tail = []).
  { rewrite Ht, text_app, <- app_assoc, len_of_app in Hge. unfold len_of in Hge.
    destruct (text_of hidden ++ tail); [done|]. cbn in Hge. lia. }
  apply app_eq_nil in E as [->%text_of_nil ->]. rewrite !app_nil_r in Ht. split; [|by rewrite Ht].
  split; [by apply holds_created|]. split; [cbn; by rewrite Ht|done].
Qed.

Lemma line_prefix r k : take k (line_of r) = line_of r \/ NEWLINE ∉ take k (line_of r).
Proof.
  unfold line_of. rewrite take_app. destruct (k - length (encode_record r)) eqn:E.
  - right. cbn. rewrite app_nil_r. intros Hin. apply (encode_one_line r). eapply elem_of_take in Hin as (i & Hi & _).
    by eapply list_elem_of_lookup_2.
  - left. cbn. rewrite firstn_nil, take_ge by lia. done.
Qed.

(** What is left to do after the bytes: the flush and the index. *)
Definition finishing (index : InboxIndex) : st InboxFiles InboxError unit := atomically id ;;; write_inbox_index index.

Lemma finishing_spec n f rs r hidden shown :
  holds n f shown hidden -> shown ++ hidden = rs ++ [r] -> fi_journal f <> None ->
  post (finishing (index_of (rs ++ [r]) (len_of (journal f)))) (fun a f' =>
    fi_ack f' = fi_ack f /\ (exists shown' hidden', holds n f' shown' hidden' /\ (shown' = shown \/ shown' = rs ++ [r])) /\
    match a with Ok _ => holds n f' (rs ++ [r]) [] | Err _ => True end) f.
Proof.
  intros H E Hj. unfold finishing.
  assert (Hsame : forall answers, fi_ack (set_fi_io answers f) = fi_ack f /\
     (exists shown' hidden', holds n (set_fi_io answers f) shown' hidden' /\ (shown' = shown \/ shown' = rs ++ [r])) /\ True).
  { intros answers. split_and!; [done| |done]. exists shown, hidden. split; [by apply holds_io|by left]. }
  apply post_bind, post_atomically; [intros r1 _|intros _ r1; apply Hsame].
  apply post_atomically; [intros r2 _|intros _ r2; apply (Hsame r2)].
  set (f1 := set_fi_io r2 (id (set_fi_io r1 f))).
  assert (H1 : holds n (set_fi_index None f1) (rs ++ [r]) []).
  { rewrite <- E. apply holds_unindexed. by do 2 apply holds_io. }
  assert (H2 := holds_indexed n _ (rs ++ [r]) H1 Hj). split_and!; [done| |done]. exists (rs ++ [r]), [].
  split; [done|by right].
Qed.

(** The state after an append that was cut, or not. *)
Definition pushed (n : N) (f : InboxFiles) (rs : list InboxRecord) (r : InboxRecord)
    (a : result InboxError unit) (f' : InboxFiles) : Prop :=
  fi_ack f' = fi_ack f /\
  (exists shown hidden, holds n f' shown hidden /\ (shown = rs \/ shown = rs ++ [r])) /\
  match a with Ok _ => holds n f' (rs ++ [r]) [] | Err _ => True end.

(** The record an append publishes. *)
Record next_record (rs : list InboxRecord) (r : InboxRecord) : Prop := {
  nr_sequence : rec_sequence r = (top 0 rs + 1)%N;
  nr_unread : im_read (rec_message r) = false;
  nr_sent : sent (set_im_read false (rec_message r));
  nr_count : length rs < dl_inbox_count limits;
  nr_bytes : (len_of (text_of rs) + len_of (line_of r) <= dl_inbox_bytes limits)%N
}.

Lemma push_spec n f rs r : trimmed n f rs -> next_record rs r ->
  post (append_bytes (line_of r) ;;; finishing (index_of (rs ++ [r]) (len_of (text_of rs) + len_of (line_of r))))
    (pushed (n + 1) f rs r) f.
Proof.
  intros Ht [Hs Hu Hsent Hc Hb].
  assert (Hpart : forall part answers, NEWLINE ∉ part -> (len_of part <= len_of (line_of r))%N ->
    pushed (n + 1) f rs r (Err IoFailed) (set_fi_journal (Some (text_of rs ++ part)) (set_fi_io answers f))).
  { intros part answers Hn Hl. split_and!; [done| |done]. exists rs, []. split; [|by left].
    apply (holds_later n); [lia|]. apply (appended_part n _ rs part (line_of r)); [by apply trimmed_io|done|done|lia]. }
  assert (Hwhole : forall answers, let f' := set_fi_journal (Some (text_of rs ++ line_of r)) (set_fi_io answers f) in
    exists shown hidden, holds (n + 1) f' shown hidden /\ shown ++ hidden = rs ++ [r] /\ (shown = rs \/ shown = rs ++ [r])).
  { intros answers f'. destruct (appended_whole n (set_fi_io answers f) rs r) as [[H _]|H]; try done; [by apply trimmed_io|..].
    - exists rs, [r]. split_and!; [done|done|by left].
    - exists (rs ++ [r]), []. rewrite app_nil_r. split_and!; [done|done|by right]. }
  assert (Ej : forall answers, default [] (fi_journal (set_fi_io answers f)) = text_of rs).
  { intros answers. destruct Ht as (_ & Hj & _). cbn. by rewrite Hj. }
  assert (Hnone : (len_of [] <= len_of (line_of r))%N) by (unfold len_of; cbn; lia).
  apply post_bind, post_io.
  - intros rest _. rewrite Ej. destruct (Hwhole rest) as (shown & hidden & H & E & Hor).
    set (f1 := set_fi_journal _ _) in *.
    replace (len_of (text_of rs) + len_of (line_of r))%N with (len_of (journal f1)) by (cbn; apply len_of_app).
    eapply post_mono; [by apply (finishing_spec (n + 1) f1 rs r hidden shown)|]. intros a f' (Ha & Hex & Hok).
    split_and!; [done| |done]. destruct Hex as (shown' & hidden' & H' & [->| ->]).
    + exists shown, hidden'. split; [done|done].
    + exists (rs ++ [r]), hidden'. split; [done|by right].
  - intros _ rest. assert (Hp := Hpart [] rest). rewrite app_nil_r in Hp.
    split_and!; [done| |done]. exists rs, []. split; [|by left]. apply (holds_later n); [lia|]. apply holds_io, Ht.
  - intros _ k rest. rewrite Ej. destruct (line_prefix r k) as [->|Hn].
    + destruct (Hwhole rest) as (shown & hidden & H & _ & Hor). split_and!; [done| |done]. by exists shown, hidden.
    + apply Hpart; [done|]. unfold len_of. rewrite length_take. lia.
Qed.

Lemma publish_spec n f rs hidden index r : indexed n f rs hidden index -> next_record rs r ->
  post (publish index r) (fun a f' => survives (n + 1) f rs f' /\
    match a with Ok _ => holds (n + 1) f' (rs ++ [r]) [] | Err _ => True end) f.
Proof.
  intros Hx Hr. assert (H := proj1 Hx).
  assert (Hsame : forall answers, survives (n + 1) f rs (set_fi_io answers f)).
  { intros answers. apply (survives_same (n + 1) f rs hidden); [|done]. apply (holds_later n); [lia|by apply holds_io]. }
  unfold publish. apply post_bind, post_atomically; [intros r1 _|intros _ r1; split; [apply Hsame|done]].
  apply post_bind, post_atomically; [intros r2 _|intros _ r2; split; [apply Hsame|done]].
  set (f0 := set_fi_io r2 (id (set_fi_io r1 f))).
  assert (Hx0 : indexed n f0 rs hidden index) by (destruct Hx as (? & -> & ?); split; [by do 2 apply holds_io|by split]).
  assert (Hdone : forall f2, trimmed n f2 rs -> fi_ack f2 = fi_ack f ->
    post (append_bytes (line_of r) ;;; finishing (index_of (rs ++ [r]) (len_of (text_of rs) + len_of (line_of r))))
      (fun a f' => survives (n + 1) f rs f' /\ match a with Ok _ => holds (n + 1) f' (rs ++ [r]) [] | Err _ => True end) f2).
  { intros f2 H2 Ha. eapply post_mono; [by apply push_spec|]. intros a f' (Ha' & (shown & hidden' & H' & Hor) & Hok).
    split; [|done]. split; [congruence|]. exists shown, hidden'. split; [done|].
    destruct Hor as [->| ->]; [apply kept_refl|apply kept_app]. }
  assert (Hindex : MkInboxIndex (ii_valid_len index + len_of (line_of r)) (ii_valid_len index + len_of (line_of r))
      (ii_entries index ++ [MkInboxIndexEntry (rec_sequence r) (ii_valid_len index) (im_created_at (rec_message r)) false]) =
    index_of (rs ++ [r]) (len_of (text_of rs) + len_of (line_of r))).
  { destruct Hx as (_ & -> & _). unfold index_of. cbn [ii_valid_len ii_entries]. rewrite text_app, text_one, len_of_app, entries_from_app.
    cbn [entries_from]. unfold entry_of. rewrite (nr_unread _ _ Hr). by rewrite N.add_0_l. }
  apply post_get. change (default [] (fi_journal (set_fi_journal (Some (default [] (fi_journal f0))) f0))) with (journal f0).
  destruct (N.ltb_spec (ii_valid_len index) (len_of (journal f0))) as [Hlt|Hge].
  - apply post_bind, post_atomically.
    2: { intros _ r3. split; [|done]. apply (survives_same (n + 1) f rs hidden); [|done]. apply (holds_later n); [lia|].
         by apply holds_io, holds_created, Hx0. }
    intros r3 _. assert (H2 := trimmed_io _ _ _ r3 (trimmed_torn n f0 rs hidden index Hx0 Hlt)).
    rewrite Hindex. apply (Hdone _ H2 eq_refl).
  - destruct (trimmed_whole n f0 rs hidden index Hx0 ltac:(lia)) as [H2 <-].
    rewrite Hindex. apply (Hdone _ H2 eq_refl).
Qed.
End life.
