(* ===== verification/InboxSpec.v ===== *)
(** * What the inbox of a caller promises

    Histories of operations from an empty inbox, with any answers of the disk:
    a report whose append succeeded is there until it is acknowledged, whatever
    fails in between; the inbox can be read again once the disk works; and
    following the cursors of the pages reads every report once, in order. *)
From S2P Require Export InboxLaws.

Module InboxOp.
Inductive t : Type :=
| Append (now : DateTime) (message : InboxMessage)
| Page (cursor : option InboxCursor) (limit : nat) (unread_only : bool) (since : option DateTime)
| Acknowledge (cursor : InboxCursor)
| ReadAll.
End InboxOp.

Section spec.
Context {C : InboxCodec} {L : InboxCodecLaws C} {K : ClockRange} (limits : DispatchStoreLimits).

Definition inbox_op (op : InboxOp.t) (f : InboxFiles) : InboxFiles :=
  match op with
  | InboxOp.Append now m => (append_inbox limits now m f).2
  | InboxOp.Page cursor limit unread_only since => (inbox_page limits cursor limit unread_only since f).2
  | InboxOp.Acknowledge cursor => (ack_inbox limits cursor f).2
  | InboxOp.ReadAll => (inbox limits f).2
  end.
Definition inbox_ops (ops : list InboxOp.t) (f : InboxFiles) : InboxFiles := foldl (fun f op => inbox_op op f) f ops.

(** No files, and what the disk is going to answer. *)
Definition no_inbox (answers : list IoAnswer) : InboxFiles := MkInboxFiles None None None answers.

Definition sent_by (ops : list InboxOp.t) (m : InboxMessage) : Prop :=
  exists now m', InboxOp.Append now m' ∈ ops /\ m = set_im_read false m'.

Section history.
Context (sent : InboxMessage -> Prop).
Notation holds := (holds limits sent).
Notation survives := (survives limits sent).
Notation prepared := (prepared limits sent).
Notation indexed := (indexed limits sent).

Lemma no_inbox_holds answers : holds 0 (no_inbox answers) [] [].
Proof.
  constructor; try (by intros r ?%not_elem_of_nil); try done.
  - exists []. split; [by apply not_elem_of_nil|done].
  - apply N.le_0_l.
  - by intros index [? _].
  - apply Nat.le_0_l.
Qed.

(** The steps every operation starts with. *)
Lemma opening_spec {A} n f rs hidden (k : InboxIndex -> st InboxFiles InboxError A) (Q : _ -> _ -> Prop) :
  holds n f rs hidden ->
  (forall f', holds n f' rs hidden -> untouched f f' -> (calm f -> calm f') ->
     current f' (index_of rs (len_of (journal f'))) -> post (k (index_of rs (len_of (journal f')))) Q f') ->
  (forall e f', holds n f' rs hidden -> untouched f f' -> (calm f -> e = NotText) -> Q (Err e) f') ->
  post (st_bind (inbox_index limits) k) Q f.
Proof.
  intros H Hk He. apply post_bind. eapply post_mono; [by apply (index_spec limits sent n f rs hidden)|].
  intros [index|e] f' (H' & Hu & Hc & Ha); [|by apply He]. destruct Ha as [-> Hcur].
  assert (Ej : journal f = journal f') by (unfold journal; by rewrite (proj1 Hu)). rewrite Ej in *. by apply Hk.
Qed.

Lemma acknowledged_spec {A} n f rs hidden (k : unit -> st InboxFiles InboxError A) (Q : _ -> _ -> Prop) :
  holds n f rs hidden ->
  ((top 0 rs < SEQUENCE_MAX)%N -> post (k tt) Q f) -> ((SEQUENCE_MAX <= top 0 rs)%N -> Q (Err SequenceExhausted) f) ->
  post (st_bind (st_lift (validate_inbox_ack (MkInboxAck (watermark f)) (index_of rs (len_of (journal f))))) k) Q f.
Proof.
  intros H Hk He. rewrite (watermark_valid limits sent n f rs hidden) by done.
  apply post_lift. destruct (N.ltb_spec (top 0 rs) SEQUENCE_MAX); auto.
Qed.

Lemma untouched_survives n f rs hidden f' : holds n f' rs hidden -> untouched f f' -> survives n f rs f'.
Proof. intros H [_ Ha]. by apply (survives_same limits sent n f rs hidden). Qed.

Lemma untouched_watermark f f' : untouched f f' -> watermark f' = watermark f.
Proof. intros [_ Ha]. unfold watermark. by rewrite Ha. Qed.

Lemma survives_later n m f rs f' : (n <= m)%N -> survives n f rs f' -> survives m f rs f'.
Proof. intros Hm (Ha & shown & hidden & H & Hk). split; [done|]. exists shown, hidden. split; [by eapply holds_later|done]. Qed.

(** An optional compaction. *)
Lemma perhaps_compact n f rs hidden now index required (b : bool) : indexed n f rs hidden index ->
  post (if b then compact_inbox limits now index (MkInboxAck (watermark f)) required else st_ret index)
    (fun r f' => survives n f rs f' /\ match r with Ok index' => prepared n f rs index' f' | Err _ => True end) f.
Proof.
  intros Hx. destruct b; [by eapply compact_spec|]. apply post_ret. destruct Hx as (H & ? & ?).
  split; [by eapply survives_same|]. split; [done|]. exists rs, hidden. split_and!; [by split_and!|apply kept_refl|done|done].
Qed.

(** What an append leaves. *)
Definition appended (n : N) (f : InboxFiles) (rs : list InboxRecord) (m : InboxMessage)
    (a : result InboxError unit) (f' : InboxFiles) : Prop :=
  survives n f rs f' /\
  match a with
  | Ok _ => exists shown s, holds n f' (shown ++ [MkInboxRecord s (set_im_read false m)]) [] /\
              s = (top 0 rs + 1)%N /\ kept (watermark f) rs shown
  | Err _ => True
  end.

Lemma survives_trans n m f rs f' shown f'' :
  fi_ack f' = fi_ack f -> kept (watermark f) rs shown -> survives m f' shown f'' -> (n <= m)%N -> survives m f rs f''.
Proof.
  intros Ha Hk (Ha' & shown' & hidden' & H & Hk') _. split; [congruence|]. exists shown', hidden'. split; [done|].
  eapply kept_trans; [done|]. unfold watermark in *. by rewrite Ha in Hk'.
Qed.

Lemma next_record_sequence n f rs hidden : holds n f rs hidden -> forall len,
  next_inbox_sequence (ii_entries (index_of rs len)) =
  if (top 0 rs <? SEQUENCE_MAX)%N then Ok (top 0 rs + 1)%N else Err SequenceExhausted.
Proof. intros _ len. cbn [ii_entries index_of]. by rewrite next_sequence_spec, entries_top_of. Qed.

Lemma append_spec n f rs hidden now m : holds n f rs hidden -> sent (set_im_read false m) ->
  post (append_inbox limits now m) (appended (n + 1) f rs m) f.
Proof.
  intros H Hsent. unfold append_inbox.
  assert (Hlater : forall f', survives n f rs f' -> forall e, appended (n + 1) f rs m (Err e) f').
  { intros f' Hs e. split; [|done]. eapply survives_later; [|done]. lia. }
  apply (opening_spec n f rs hidden); [done| |].
  2: { intros e f' H' Hu _. apply Hlater. by eapply untouched_survives. }
  intros f1 H1 Hu _ Hcur. assert (Hs1 := untouched_survives _ _ _ _ _ H1 Hu).
  eapply run_bind; [by eapply ack_spec|]. apply (acknowledged_spec n f1 rs hidden); [done| |by intros _; apply Hlater].
  intros Htop. apply post_bind. unfold history_cutoff, post at 1, st_lift. cbn [fst snd].
  destruct (checked_sub_seconds _ _) as [cutoff|]; cbn [ok_or]; [|by apply Hlater].
  assert (Hx1 : indexed n f1 rs hidden (index_of rs (len_of (journal f1)))) by by split_and!.
  apply post_bind. eapply post_mono; [apply (perhaps_compact n f1 rs hidden); exact Hx1|].
  assert (Hback : forall f', survives n f1 rs f' -> survives n f rs f').
  { intros f' Hs. eapply (survives_trans n n f rs f1 rs); [apply Hu|apply kept_refl|done|lia]. }
  intros [index2|e] f2 [Hs2 Hp]; [|by apply Hlater, Hback].
  destruct Hp as (Ha2 & rs2 & hidden2 & Hx2 & Hk2 & Ht2 & _).
  apply post_ensure; [intros Hc%Nat.ltb_lt|intros _; by apply Hlater, Hback].
  apply post_lift. assert (Hx2' := Hx2). destruct Hx2' as (H2 & -> & _). rewrite (next_record_sequence n f2 rs2 hidden2 H2), Ht2.
  rewrite (proj2 (N.ltb_lt _ _) Htop). set (r := MkInboxRecord _ _).
  apply post_ensure; [intros _|intros _; by apply Hlater, Hback].
  apply post_bind.
  assert (Ew : watermark f2 = watermark f1) by (unfold watermark; by rewrite Ha2).
  assert (Hback2 : forall k f', survives k f2 rs2 f' -> survives k f rs f').
  { intros k f' Hs. eapply (survives_trans k k f rs f2 rs2); [rewrite Ha2; apply Hu| |done|lia].
    by rewrite <- (untouched_watermark _ _ Hu). }
  assert (Hfits : forall index3 f3 rs3 hidden3, indexed n f3 rs3 hidden3 index3 -> kept (watermark f2) rs2 rs3 ->
    top 0 rs3 = top 0 rs2 -> length rs3 < dl_inbox_count limits -> fi_ack f3 = fi_ack f2 ->
    (ii_valid_len index3 + len_of (line_of r) <= dl_inbox_bytes limits)%N ->
    post (publish index3 r) (appended (n + 1) f rs m) f3).
  { intros index3 f3 rs3 hidden3 Hx3 Hk3 Ht3 Hc3 Ha3 Hb. assert (Hx3' := Hx3). destruct Hx3' as (H3 & -> & _).
    cbn [ii_valid_len index_of] in Hb.
    eapply post_mono; [apply (publish_spec limits sent n f3 rs3 hidden3 _ r Hx3); by constructor; rewrite ?Ht3, ?Ht2|].
    assert (Hkeep : kept (watermark f) rs rs3).
    { rewrite <- (untouched_watermark _ _ Hu). eapply kept_trans; [done|]. by rewrite <- Ew. }
    intros a f' [Hs Hok]. split.
    - eapply (survives_trans n (n + 1) f rs f3 rs3); [rewrite Ha3, Ha2; apply Hu|done|done|lia].
    - destruct a as [[]|e]; [|done]. exists rs3, (top 0 rs + 1)%N. by split_and!. }
  cbn [ii_entries index_of] in Hc. rewrite entries_length in Hc.
  destruct (N.ltb_spec (dl_inbox_bytes limits) (ii_valid_len (index_of rs2 (len_of (journal f2))) + len_of (line_of r))) as [Hlt|Hle].
  - rewrite <- Ew. apply post_bind. eapply post_mono; [eapply (compact_spec limits sent n f2 rs2 hidden2); exact Hx2|].
    intros [index3|e] f3 [Hs3 Hp3]; [|by apply Hlater, Hback2].
    apply post_ensure; [intros Hb%N.leb_le|intros _; by apply Hlater, Hback2]. apply post_ret.
    destruct Hp3 as (Ha3 & rs3 & hidden3 & Hx3 & Hk3 & Ht3 & Hl3). eapply Hfits; [done|done|done|lia|done|done].
  - apply post_ret. by eapply (Hfits _ f2 rs2 hidden2); [|apply kept_refl|..].
Qed.

(** ** Reading *)
Definition shown_messages (f : InboxFiles) (rs : list InboxRecord) : list InboxMessage :=
  mark_read (MkInboxAck (watermark f)) <$> rs.

Lemma inbox_spec n f rs hidden : holds n f rs hidden ->
  post (inbox limits) (fun a f' => holds n f' rs hidden /\ untouched f f' /\ (calm f -> calm f') /\
    match a with
    | Ok messages => messages = shown_messages f rs /\ (top 0 rs < SEQUENCE_MAX)%N /\
                     current f' (index_of rs (len_of (journal f')))
    | Err e => calm f -> e = NotText \/ (SEQUENCE_MAX <= top 0 rs)%N
    end) f.
Proof.
  intros H. unfold inbox. apply post_bind. eapply post_mono; [by apply (index_spec limits sent n f rs hidden)|].
  intros [index|e] f1 (H1 & Hu & Hc & Hi); [|split_and!; [done|done|done|by left; auto]]. destruct Hi as [-> Hcur].
  assert (Ej : journal f = journal f1) by (unfold journal; by rewrite (proj1 Hu)). rewrite Ej in *.
  eapply run_bind; [by eapply ack_spec|]. apply (acknowledged_spec n f1 rs hidden); [done| |].
  2: { intros Hmax. split_and!; [done|done|done|by right]. }
  intros Htop. eapply run_bind; [by eapply read_all_spec|]. apply post_ret. split_and!; [done|done|done| |done|done].
  unfold shown_messages. by rewrite (untouched_watermark _ _ Hu).
Qed.

Lemma index_again n f rs hidden : holds n f rs hidden -> current f (index_of rs (len_of (journal f))) ->
  inbox_index limits f = (Ok (index_of rs (len_of (journal f))), f).
Proof.
  intros H Hcur. unfold inbox_index, st_bind, st_get, st_ensure, st_ret. destruct (fi_journal f) as [bytes|] eqn:Ej.
  - assert (Eb : journal f = bytes) by (unfold journal; by rewrite Ej). rewrite Eb in *.
    assert (Hb := ho_bytes _ _ _ _ _ _ H). rewrite Eb in Hb. rewrite (proj2 (N.leb_le _ _) Hb).
    destruct Hcur as [?|Hcur]; [congruence|]. rewrite Hcur.
    destruct (holds_shown _ _ _ _ _ _ H) as (Hf & _ & Hl). rewrite Eb in Hl. by rewrite index_of_fits.
  - destruct (holds_absent _ _ _ _ _ _ H Ej) as [-> ->]. assert (Eb : journal f = []) by (unfold journal; by rewrite Ej). by rewrite Eb.
Qed.

(** *** One page *)
Definition wanted (unread_only : bool) (since : option DateTime) (m : InboxMessage) : bool :=
  (match since with Some since => (since <? im_created_at m)%Z | None => true end) &&
  (negb unread_only || negb (im_read m)).

Definition listed (f : InboxFiles) (unread_only : bool) (since : option DateTime) (from : N) (r : InboxRecord) : bool :=
  (from <=? rec_sequence r)%N && wanted unread_only since (mark_read (MkInboxAck (watermark f)) r).

Lemma first_since since low o rs r e :
  follows low rs -> r ∈ rs -> (since <? im_created_at (rec_message r))%Z = true ->
  find_first (fun e => (since <? ix_created_at e)%Z) (entries_from o rs) = Some e -> (ix_sequence e <= rec_sequence r)%N.
Proof.
  revert low o. induction rs as [|x rs IH]; intros low o; [by intros _ ?%not_elem_of_nil|]. intros Hfo Hr Hs.
  cbn [entries_from find_first]. destruct (since <? ix_created_at (entry_of o x))%Z eqn:E.
  - intros [= <-]. cbn. apply elem_of_cons in Hr as [->|Hr]; [done|]. destruct Hfo as [_ Hfo].
    assert (Ha := follows_above _ _ _ Hfo Hr). lia.
  - apply elem_of_cons in Hr as [->|Hr]; [cbn in E; congruence|]. destruct Hfo as [_ Hfo]. by eapply IH.
Qed.

Lemma first_since_some since o rs r : r ∈ rs -> (since <? im_created_at (rec_message r))%Z = true ->
  is_Some (find_first (fun e => (since <? ix_created_at e)%Z) (entries_from o rs)).
Proof.
  intros Hr Hs. rewrite <- placed_entries.
  assert (Hx : exists e, (e, r) ∈ placed_from o rs).
  { revert o. induction Hr as [r rs|r x rs Hr IH]; intros o; cbn; [eexists; left|].
    destruct (IH Hs (o + len_of (line_of x))%N) as [e He]. exists e. by right. }
  destruct Hx as [e He]. assert (Hx := placed_entry _ _ _ _ He). destruct Hx as [o' ->].
  apply (find_first_is_Some _ _ (entry_of o' r)); [|done]. apply list_elem_of_fmap. by exists (entry_of o' r, r).
Qed.

(** The predicate of the page picks the listed records. *)
Lemma in_page_listed n f rs hidden cursor unread_only since first end_ o r :
  holds n f rs hidden -> r ∈ rs ->
  let from := match cursor with Some c => next_sequence c | None => first end in
  in_page (page_start cursor unread_only since (MkInboxAck (watermark f)) (entries_from 0 rs) first end_)
    unread_only since (MkInboxAck (watermark f)) (entry_of o r) = listed f unread_only since from r.
Proof.
  intros H Hr from. unfold in_page, listed, wanted, page_start. cbn [ix_sequence ix_created_at ix_read entry_of ack_next_sequence].
  fold from. destruct (holds_shown _ _ _ _ _ _ H) as (Hf & _ & _).
  set (read := im_read (mark_read (MkInboxAck (watermark f)) r)).
  assert (Eread : negb read = negb (im_read (rec_message r)) && (watermark f <=? rec_sequence r)%N).
  { unfold read. cbn. unfold is_read. cbn. by rewrite negb_orb, N.leb_antisym. }
  rewrite Eread. change (im_created_at (mark_read (MkInboxAck (watermark f)) r)) with (im_created_at (rec_message r)).
  assert (Hunread : forall b : bool, (b = true -> (watermark f <= rec_sequence r)%N) ->
     ((if b then N.max from (watermark f) else from) <=? rec_sequence r)%N = (from <=? rec_sequence r)%N).
  { intros [] Hb; [|done]. specialize (Hb eq_refl). destruct (N.leb_spec from (rec_sequence r)), (N.leb_spec (N.max from (watermark f)) (rec_sequence r)); try done; lia. }
  set (start := if unread_only then _ else _) in *.
  assert (Hstart : negb unread_only || negb (im_read (rec_message r)) && (watermark f <=? rec_sequence r)%N = true ->
            (start <=? rec_sequence r)%N = (from <=? rec_sequence r)%N).
  { intros Hw. apply Hunread. intros ->. cbn in Hw. apply andb_true_iff in Hw as [_ Hw]. by apply N.leb_le. }
  destruct (negb unread_only || _) eqn:Ew; [|by rewrite !andb_false_r].
  rewrite !andb_true_r. specialize (Hstart eq_refl). destruct since as [since|]; [|by rewrite !andb_true_r].
  destruct (since <? im_created_at (rec_message r))%Z eqn:Es; [|by rewrite !andb_false_r]. rewrite !andb_true_r.
  destruct (first_since_some since 0 rs r Hr Es) as [e He]. rewrite He.
  assert (Hle := first_since since 0 0 rs r e Hf Hr Es He). rewrite <- Hstart.
  destruct (N.leb_spec start (rec_sequence r)), (N.leb_spec (N.max start (ix_sequence e)) (rec_sequence r)); try done; lia.
Qed.

Definition from_of (cursor : option InboxCursor) (rs : list InboxRecord) : N :=
  match cursor with
  | Some c => next_sequence c
  | None => match rs with r :: _ => rec_sequence r | [] => 0%N end
  end.

(** A cursor the inbox hands out. *)
Definition valid_cursor (cursor : option InboxCursor) (rs : list InboxRecord) : Prop :=
  match cursor with
  | Some c => (1 <= next_sequence c <= top 0 rs + 1)%N /\ forall r, head rs = Some r -> (rec_sequence r <= next_sequence c)%N
  | None => True
  end.

Lemma selected_found n f rs hidden cursor unread_only since first end_ :
  holds n f rs hidden -> (cursor = None -> first = from_of None rs) ->
  retain (in_page (page_start cursor unread_only since (MkInboxAck (watermark f)) (entries_from 0 rs) first end_)
            unread_only since (MkInboxAck (watermark f))) (entries_from 0 rs) =
  fst <$> retain (fun er => listed f unread_only since (from_of cursor rs) er.2) (placed_from 0 rs).
Proof.
  intros H Hfirst. rewrite <- (placed_entries 0 rs) at 2. rewrite retain_fmap. f_equal. apply retain_ext. intros [e r] Hin.
  destruct (placed_entry _ _ _ _ Hin) as [o ->]. cbn [compose fst snd].
  assert (Hr : r ∈ rs) by (rewrite <- (placed_records 0 rs); apply list_elem_of_fmap; by exists (entry_of o r, r)).
  cbv beta delta [compose]. cbn [fst]. rewrite (in_page_listed n f rs hidden) by done.
  destruct cursor as [c|]; [done|]. by rewrite Hfirst.
Qed.

Lemma page_spec n f rs hidden cursor limit unread_only since :
  holds n f rs hidden -> current f (index_of rs (len_of (journal f))) -> (top 0 rs < SEQUENCE_MAX)%N ->
  1 <= limit <= INBOX_PAGE_MAX -> valid_cursor cursor rs ->
  let found := retain (listed f unread_only since (from_of cursor rs)) rs in
  exists next, inbox_page limits cursor limit unread_only since f =
    (Ok (MkInboxPage (shown_messages f (take limit found)) (MkInboxCursor next) (limit <? length found)), f) /\
    (limit < length found -> exists r, last (take limit found) = Some r /\ next = (rec_sequence r + 1)%N).
Proof.
  intros H Hcur Htop [Hl1 Hl2] Hv found. unfold inbox_page.
  unfold st_bind at 1, st_ensure at 1. rewrite (proj2 (Nat.leb_le 1 limit) Hl1), (proj2 (Nat.leb_le limit _) Hl2).
  assert (Hzero : cursor_before cursor 1 = false).
  { destruct cursor as [c|]; [|done]. destruct Hv as [Hv _]. apply N.ltb_ge. lia. }
  assert (Hbeyond : cursor_beyond cursor (top 0 rs + 1) = false).
  { destruct cursor as [c|]; [|done]. destruct Hv as [Hv _]. apply N.ltb_ge. lia. }
  rewrite Hzero. unfold st_bind at 1. cbn [andb negb st_ensure st_ret].
  unfold st_bind at 1. rewrite (index_again n f rs hidden H Hcur).
  unfold st_bind at 1. rewrite (ack_spec limits sent n f rs hidden H).
  unfold st_bind at 1, st_lift at 1. rewrite (watermark_valid limits sent n f rs hidden) by done.
  unfold st_bind at 1, st_lift at 1. rewrite (next_record_sequence n f rs hidden H), !(proj2 (N.ltb_lt _ _) Htop).
  rewrite Hbeyond. unfold st_bind at 1. cbn [negb st_ensure st_ret ii_entries index_of].
  assert (Hfound : found = snd <$> retain (fun er => listed f unread_only since (from_of cursor rs) er.2) (placed_from 0 rs)).
  { unfold found. rewrite <- (placed_records 0 rs) at 2. by rewrite retain_fmap. }
  assert (Hsel := fun first end_ => selected_found n f rs hidden cursor unread_only since first end_ H).
  destruct rs as [|r0 rs'].
  { change found with (@nil InboxRecord). rewrite take_nil. exists (next_sequence (default (MkInboxCursor (watermark f)) cursor)).
    split; [|cbn; lia]. cbn [entries_from]. unfold st_ret. destruct limit; [lia|]. by destruct cursor as [[]|]. }
  cbn [entries_from]. set (rs := r0 :: rs') in *. change (entry_of 0 r0 :: entries_from (0 + len_of (line_of r0)) rs') with (entries_from 0 rs).
  cbn [ix_sequence entry_of].
  assert (Hfirst : cursor_before cursor (rec_sequence r0) = false).
  { destruct cursor as [c|]; [|done]. destruct Hv as [_ Hv]. apply N.ltb_ge. by apply Hv. }
  rewrite Hfirst. unfold st_bind at 1. cbn [negb st_ensure st_ret].
  rewrite Hsel by by intros ->. set (placed := retain _ (placed_from 0 rs)) in *.
  set (start := page_start _ _ _ _ _ _ _).
  rewrite take_take, (Nat.min_l limit (limit + 1)) by lia. rewrite length_take, length_fmap.
  unfold st_bind at 1. rewrite <- fmap_take. rewrite (read_spec limits sent n f rs hidden); [|done|].
  2: { intros er Hin. apply elem_of_take in Hin as (i & Hi & _). apply list_elem_of_lookup_2 in Hi.
       by apply elem_of_retain in Hi as [? _]. }
  rewrite fmap_take, <- Hfound.
  assert (Elen : length placed = length found) by (rewrite Hfound; by rewrite length_fmap).
  assert (Emore : (limit <? (limit + 1) `min` length placed) = (limit <? length found)).
  { rewrite Elen. apply eq_true_iff_eq. rewrite !Nat.ltb_lt. lia. }
  rewrite Emore. destruct (Nat.ltb_spec limit (length found)) as [Hlt|Hge].
  - destruct (last (take limit found)) as [r|] eqn:El.
    + unfold st_bind, st_lift, st_ret. cbn [ok_or]. eexists. split; [done|]. intros _. by exists r.
    + apply last_None in El. apply (f_equal length) in El. rewrite length_take in El. change (length (@nil InboxRecord)) with 0 in El. lia.
  - unfold st_bind, st_ret. eexists. split; [done|]. intros ?. lia.
Qed.

(** *** All pages *)
Fixpoint read_pages (fuel : nat) (cursor : option InboxCursor) (limit : nat) (unread_only : bool)
    (since : option DateTime) : st InboxFiles InboxError (list InboxMessage) :=
  match fuel with
  | 0 => st_ret []
  | S fuel =>
      page <-! inbox_page limits cursor limit unread_only since ;;
      if pg_has_more page
      then
        rest <-! read_pages fuel (Some (pg_next_cursor page)) limit unread_only since ;;
        st_ret (pg_messages page ++ rest)
      else st_ret (pg_messages page)
  end.

Lemma follows_retain low p rs : follows low rs -> follows low (retain p rs).
Proof.
  revert low. induction rs as [|r rs IH]; intros low; [done|]. intros [Hl Hf]. cbn [retain].
  destruct (p r); [split; [done|by apply IH]|]. eapply follows_le; [|by apply IH]. lia.
Qed.

Lemma listed_after f rs unread_only since from limit r :
  follows 0 rs -> let found := retain (listed f unread_only since from) rs in
  last (take limit found) = Some r ->
  retain (listed f unread_only since (rec_sequence r + 1)) rs = drop limit found.
Proof.
  intros Hf found Hlast.
  assert (Hsplit := take_drop limit found). assert (Hff := follows_retain 0 (listed f unread_only since from) rs Hf).
  fold found in Hff. rewrite <- Hsplit in Hff. apply follows_app in Hff as [Ha Hb].
  assert (Htop : top 0 (take limit found) = rec_sequence r) by (unfold top; by rewrite Hlast). rewrite Htop in Hb.
  assert (Hr : r ∈ found) by (rewrite <- Hsplit; apply elem_of_app; left; by apply last_Some_elem_of).
  assert (Hge : (from <= rec_sequence r)%N).
  { apply elem_of_retain in Hr as [_ Hr]. apply andb_true_iff in Hr as [Hr _]. by apply N.leb_le. }
  transitivity (retain (fun x => (rec_sequence r <? rec_sequence x)%N) found).
  - unfold found. rewrite retain_retain. apply retain_ext. intros x _. unfold listed.
    destruct (N.leb_spec (rec_sequence r + 1) (rec_sequence x)), (N.ltb_spec (rec_sequence r) (rec_sequence x)), (N.leb_spec from (rec_sequence x));
      cbn [andb]; rewrite ?andb_true_r, ?andb_false_r; try done; lia.
  - rewrite <- Hsplit at 1. rewrite retain_app, retain_none, retain_all; [done| |].
    + intros x Hx. apply N.ltb_lt. by eapply follows_above.
    + intros x Hx. apply N.ltb_ge. rewrite <- Htop. by eapply follows_below.
Qed.

Lemma pages_settled n f rs hidden fuel cursor limit unread_only since :
  holds n f rs hidden -> current f (index_of rs (len_of (journal f))) -> (top 0 rs < SEQUENCE_MAX)%N ->
  1 <= limit <= INBOX_PAGE_MAX -> valid_cursor cursor rs ->
  length (retain (listed f unread_only since (from_of cursor rs)) rs) < fuel ->
  read_pages fuel cursor limit unread_only since f =
    (Ok (shown_messages f (retain (listed f unread_only since (from_of cursor rs)) rs)), f).
Proof.
  intros H Hcur Htop Hlim. revert cursor. induction fuel as [|fuel IH]; intros cursor Hv Hfuel; [lia|].
  destruct (page_spec n f rs hidden cursor limit unread_only since H Hcur Htop Hlim Hv) as (next & Hpage & Hmore).
  set (found := retain _ rs) in *. cbn [read_pages]. unfold st_bind at 1. rewrite Hpage. cbn [pg_has_more pg_next_cursor pg_messages].
  destruct (holds_shown _ _ _ _ _ _ H) as (Hf & _ & _).
  destruct (Nat.ltb_spec limit (length found)) as [Hlt|Hge]; [|unfold st_ret; by rewrite take_ge].
  destruct (Hmore Hlt) as (r & Hlast & ->).
  assert (Hr : r ∈ rs).
  { apply last_Some_elem_of, elem_of_take in Hlast as (i & Hi & _). apply list_elem_of_lookup_2 in Hi.
    by apply elem_of_retain in Hi as [? _]. }
  assert (Hnext := listed_after f rs unread_only since (from_of cursor rs) limit r Hf Hlast). fold found in Hnext.
  unfold st_bind. rewrite (IH (Some (MkInboxCursor (rec_sequence r + 1)))).
  - cbn [from_of next_sequence]. rewrite Hnext. unfold st_ret, shown_messages. by rewrite <- fmap_app, take_drop.
  - split; [assert (Hb := follows_below _ _ _ Hf Hr); cbn; lia|]. intros r0 Hhead. cbn.
    destruct rs as [|x rs']; [done|]. injection Hhead as <-. apply elem_of_cons in Hr as [->|Hr]; [lia|].
    destruct Hf as [_ Hf]. assert (Ha := follows_above _ _ _ Hf Hr). lia.
  - cbn [from_of next_sequence]. rewrite Hnext, length_drop. lia.
Qed.

(** ** Acknowledging, and histories *)
Lemma acknowledge_spec n f rs hidden c : holds n f rs hidden ->
  post (ack_inbox limits c) (fun a f' => holds n f' rs hidden /\
    (watermark f' = watermark f \/ watermark f' = next_sequence c) /\ (watermark f <= watermark f')%N) f.
Proof.
  intros H. unfold ack_inbox. apply (opening_spec n f rs hidden); [done| |].
  2: { intros e f' H' Hu _. rewrite (untouched_watermark _ _ Hu). split_and!; [done|by left|lia]. }
  intros f1 H1 Hu _ _. rewrite <- (untouched_watermark _ _ Hu).
  assert (Hsame : holds n f1 rs hidden /\ (watermark f1 = watermark f1 \/ watermark f1 = next_sequence c) /\ (watermark f1 <= watermark f1)%N)
    by (split_and!; [done|by left|lia]).
  apply post_lift. rewrite (next_record_sequence n f1 rs hidden H1). destruct (N.ltb_spec (top 0 rs) SEQUENCE_MAX); [|done].
  apply post_ensure; [intros Hc|done]. eapply run_bind; [by eapply ack_spec|].
  apply (acknowledged_spec n f1 rs hidden); [done|intros _|done].
  apply negb_true_iff, orb_false_iff in Hc as [Hc0 Hc1]. apply N.eqb_neq in Hc0. apply N.ltb_ge in Hc1. cbn [ack_next_sequence].
  destruct (N.ltb_spec (watermark f1) (next_sequence c)) as [Hlt|_]; [|done].
  apply post_bind, post_atomically.
  - intros rest _. apply post_ret. change (watermark (set_fi_ack _ _)) with (next_sequence c).
    split_and!; [|by right|lia]. destruct H1. constructor; try done.
    + split; [done|]. change (watermark (set_fi_ack _ _)) with (next_sequence c). lia.
    + intros r Hr Hread. change (watermark (set_fi_ack _ _)) with (next_sequence c). specialize (ho_read r Hr Hread). lia.
  - intros _ rest. split_and!; [by apply holds_io|by left|]. change (watermark (set_fi_io rest f1)) with (watermark f1). lia.
Qed.

Lemma read_pure entries f : (read_inbox_records entries f).2 = f.
Proof. unfold read_inbox_records. destruct entries; [done|]. unfold st_bind, st_get. by destruct (fi_journal f). Qed.

Lemma post_pure {A B} (call : st InboxFiles InboxError A) (k : A -> st InboxFiles InboxError B) (Q : InboxFiles -> Prop) f :
  (call f).2 = f -> Q f -> (forall a, post (k a) (fun _ => Q) f) -> post (st_bind call k) (fun _ => Q) f.
Proof. intros Hc HQ Hk. apply post_bind. unfold post at 1. rewrite Hc. by destruct (call f).1. Qed.

Lemma page_state n f rs hidden cursor limit unread_only since : holds n f rs hidden ->
  post (inbox_page limits cursor limit unread_only since) (fun _ f' => holds n f' rs hidden /\ untouched f f') f.
Proof.
  intros H. assert (Hsame : holds n f rs hidden /\ untouched f f) by by split.
  apply post_ensure; [intros _|done]. apply post_ensure; [intros _|done].
  apply (opening_spec n f rs hidden); [done| |by auto]. intros f1 H1 Hu _ _.
  assert (H1' : holds n f1 rs hidden /\ untouched f f1) by by split.
  eapply run_bind; [by eapply ack_spec|]. apply (acknowledged_spec n f1 rs hidden); [done|intros _|done].
  apply post_pure; [done|done|intros last_sequence]. apply post_ensure; [intros _|done].
  destruct (ii_entries _) as [|first entries]; [by apply post_ret|]. apply post_ensure; [intros _|done].
  apply post_pure; [apply read_pure|done|intros records]. apply post_bind. destruct (_ <? _).
  - apply post_lift. destruct (ok_or _ _); [by do 2 apply post_ret|done].
  - by do 2 apply post_ret.
Qed.

(** What an operation may not take away. *)
Definition safe_step (op : InboxOp.t) (f : InboxFiles) (rs : list InboxRecord) (f' : InboxFiles) (rs' : list InboxRecord) : Prop :=
  forall r, r ∈ rs -> (watermark f <= rec_sequence r)%N ->
    (forall c, op = InboxOp.Acknowledge c -> (next_sequence c <= rec_sequence r)%N) ->
    r ∈ rs' /\ (watermark f' <= rec_sequence r)%N.

Lemma op_safe n f rs hidden op : holds n f rs hidden -> (forall m, sent_by [op] m -> sent m) ->
  exists rs' hidden', holds (n + 1) (inbox_op op f) rs' hidden' /\ safe_step op f rs (inbox_op op f) rs'.
Proof.
  intros H Hs.
  assert (Hstay : forall f', holds n f' rs hidden -> untouched f f' ->
            exists rs' hidden', holds (n + 1) f' rs' hidden' /\ safe_step op f rs f' rs').
  { intros f' H' Hu. exists rs, hidden. split; [by apply (holds_later limits sent n); [lia|]|]. intros r Hr Hw _.
    split; [done|]. by rewrite (untouched_watermark _ _ Hu). }
  destruct op as [now m|cursor limit unread_only since|c|]; cbn [inbox_op].
  - assert (Hm : sent (set_im_read false m)) by (apply Hs; exists now, m; split; [by left|done]).
    assert (Ha := append_spec n f rs hidden now m H Hm). destruct Ha as [(Ha & shown & hidden' & H' & Hk) _].
    exists shown, hidden'. split; [done|]. intros r Hr Hw _. split; [by apply Hk|]. unfold watermark in *. by rewrite Ha.
  - destruct (page_state n f rs hidden cursor limit unread_only since H) as [H' Hu]. by apply Hstay.
  - destruct (acknowledge_spec n f rs hidden c H) as (H' & Hw' & _). exists rs, hidden.
    split; [by apply (holds_later limits sent n); [lia|]|]. intros r Hr Hw Hc. split; [done|].
    destruct Hw' as [->| ->]; [done|by apply Hc].
  - destruct (inbox_spec n f rs hidden H) as (H' & Hu & _). by apply Hstay.
Qed.

Lemma ops_safe ops n f rs hidden : holds n f rs hidden -> (forall m, sent_by ops m -> sent m) ->
  exists rs' hidden', holds (n + N.of_nat (length ops)) (inbox_ops ops f) rs' hidden' /\
    forall r, r ∈ rs -> (watermark f <= rec_sequence r)%N ->
      (forall c, InboxOp.Acknowledge c ∈ ops -> (next_sequence c <= rec_sequence r)%N) ->
      r ∈ rs' /\ (watermark (inbox_ops ops f) <= rec_sequence r)%N.
Proof.
  revert n f rs hidden. induction ops as [|op ops IH]; intros n f rs hidden H Hs.
  - exists rs, hidden. rewrite N.add_0_r. split; [done|]. by intros r ? ? _.
  - destruct (op_safe n f rs hidden op H) as (rs1 & hidden1 & H1 & Hsafe).
    { intros m (now & m' & Hin & ->). apply list_elem_of_singleton in Hin as <-. apply Hs. exists now, m'. split; [by left|done]. }
    destruct (IH _ _ _ _ H1) as (rs2 & hidden2 & H2 & Hall).
    { intros m (now & m' & Hin & ->). apply Hs. exists now, m'. split; [by right|done]. }
    exists rs2, hidden2. cbn [inbox_ops foldl]. split.
    { eapply holds_later; [|exact H2]. cbn [length]. lia. }
    intros r Hr Hw Hc. destruct (Hsafe r Hr Hw) as [Hr1 Hw1]; [intros c ->; apply Hc; left|].
    apply Hall; [done|done|]. intros c Hin. apply Hc. by right.
Qed.
End history.

Lemma set_io_holds sent n f rs hidden : holds limits sent n f rs hidden -> holds limits sent n (set_fi_io [] f) rs hidden.
Proof. apply holds_io. Qed.

(** A record that is listed is in the journal, and an unread one is shown. *)
Lemma journal_has sent n f rs hidden r : holds limits sent n f rs hidden -> r ∈ rs ->
  exists old new, journal f = old ++ line_of r ++ new.
Proof.
  intros H Hr. destruct (ho_text _ _ _ _ _ _ H) as (tail & _ & Hj).
  apply list_elem_of_split in Hr as (a & b & ->). exists (text_of a), (text_of (b ++ hidden) ++ tail).
  rewrite Hj, <- text_one, <- app_assoc, text_app, (text_app [r] (b ++ hidden) : text_of ((r :: b) ++ hidden) = _), <- !app_assoc. done.
Qed.

Lemma inbox_gives sent n f rs hidden s m messages f' : holds limits sent n f rs hidden ->
  MkInboxRecord s (set_im_read false m) ∈ rs -> (watermark f <= s)%N ->
  inbox limits f = (Ok messages, f') -> set_im_read false m ∈ messages.
Proof.
  intros H Hr Hw E. assert (Hi := inbox_spec sent _ _ _ _ H). unfold post in Hi. rewrite E in Hi. cbn [fst snd] in Hi.
  destruct Hi as (_ & _ & _ & -> & _). apply list_elem_of_fmap. eexists. split; [|exact Hr].
  unfold mark_read. replace (is_read _ _) with false; [done|]. symmetry. apply orb_false_iff.
  split; [done|by apply N.ltb_ge].
Qed.

(** Sequences do not run out in a history shorter than their range. *)
Lemma calm_refusal sent n f rs hidden e : holds limits sent n f rs hidden -> (n < SEQUENCE_MAX)%N ->
  e = NotText \/ (SEQUENCE_MAX <= top 0 rs)%N -> @Err InboxError (list InboxMessage) e = Err NotText.
Proof.
  intros H Hn [->|Hmax]; [done|]. assert (Ht := ho_top _ _ _ _ _ _ H).
  assert (Hm := top_mono rs hidden (ho_follows _ _ _ _ _ _ H)). lia.
Qed.

(** C29: an unread report is never lost.  Take any history of an inbox that
    began empty, with any answers of the disk, and an append that succeeds in it.
    Whatever follows (more appends, pages, acknowledgements that stop before it,
    system calls that fail or are cut, compactions): the line of the report
    stays in the journal as it was written, the acknowledgement does not reach
    it, a reading that answers gives it, unread, and a reading on a disk that
    works does answer, unless some append was cut in the middle of a character;
    then it is refused as text that is not UTF-8 and the line waits there. *)
Theorem unread_reports_are_never_lost before answers now m f1
    (Happend : append_inbox limits now m (inbox_ops before (no_inbox answers)) = (Ok tt, f1)) :
  exists s, forall after,
    (forall c, InboxOp.Acknowledge c ∈ after -> (next_sequence c <= s)%N) ->
    let f := inbox_ops after f1 in
    (exists old new, journal f = old ++ line_of (MkInboxRecord s (set_im_read false m)) ++ new) /\
    (watermark f <= s)%N /\
    (forall messages f3, inbox limits f = (Ok messages, f3) -> set_im_read false m ∈ messages) /\
    ((N.of_nat (length before + 1 + length after) < SEQUENCE_MAX)%N ->
     (inbox limits (set_fi_io [] f)).1 = Err NotText \/
     exists messages, (inbox limits (set_fi_io [] f)).1 = Ok messages /\ set_im_read false m ∈ messages).
Proof.
  set (everything := fun _ : InboxMessage => True).
  destruct (ops_safe everything before 0 _ [] [] (no_inbox_holds everything answers)) as (rs & hidden & H & _); [done|].
  assert (Ha := append_spec everything _ _ rs hidden now m H I). unfold post in Ha. rewrite Happend in Ha. cbn [fst snd] in Ha.
  destruct Ha as [(Hack & _) (shown & s & H1 & Es & _)]. set (r := MkInboxRecord s _) in *.
  exists s. intros after Hacks f.
  destruct (ops_safe everything after _ _ _ _ H1) as (rs2 & hidden2 & H2 & Hkeep); [done|].
  destruct (Hkeep r) as [Hr Hw]; [apply elem_of_app; right; by left| |done|].
  { destruct (ho_ack _ _ _ _ _ _ H) as [_ Hw]. unfold watermark in *. rewrite Hack. cbn. lia. }
  fold f in H2, Hw. split; [by eapply journal_has|]. split; [done|].
  split; [intros messages f3; by eapply inbox_gives|]. intros Hshort.
  apply set_io_holds in H2. destruct (inbox limits (set_fi_io [] f)) as [[messages|e] f'] eqn:E.
  - right. exists messages. split; [done|]. by eapply (inbox_gives everything _ (set_fi_io [] f)).
  - left. assert (Hi := inbox_spec _ _ _ _ _ H2). unfold post in Hi. rewrite E in Hi. cbn [fst snd] in *.
    destruct Hi as (_ & _ & _ & Hi). by apply (calm_refusal _ _ _ _ _ e H2); [lia|apply Hi].
Qed.

(** C30: the inbox recovers.  After any history, once the disk does its work, the
    inbox answers: with reports that were appended, each once and in sequence
    order, within the limits of the store; or, when an append was cut in the
    middle of a character, with the refusal to read text that is not UTF-8.
    The journal never exceeds its byte limit. *)
Theorem inbox_recovers ops answers (Hshort : (N.of_nat (length ops) < SEQUENCE_MAX)%N) :
  let f := set_fi_io [] (inbox_ops ops (no_inbox answers)) in
  (len_of (journal f) <= dl_inbox_bytes limits)%N /\
  ((inbox limits f).1 = Err NotText \/
   exists rs, (inbox limits f).1 = Ok (mark_read (MkInboxAck (watermark f)) <$> rs) /\
     follows 0 rs /\ length rs <= dl_inbox_count limits /\
     forall r, r ∈ rs -> sent_by ops (set_im_read false (rec_message r))).
Proof.
  destruct (ops_safe (sent_by ops) ops 0 _ [] [] (no_inbox_holds _ answers)) as (rs & hidden & H & _); [done|].
  intros f. assert (Hf : holds limits (sent_by ops) (0 + N.of_nat (length ops)) f rs hidden) by by apply set_io_holds.
  split; [apply Hf|]. assert (Hi := inbox_spec _ _ _ _ _ Hf). unfold post in Hi.
  destruct (inbox limits f) as [[messages|e] f'] eqn:E; cbn [fst snd] in *; destruct Hi as (_ & _ & _ & Hi).
  - right. exists rs. destruct Hi as (-> & _). destruct (holds_shown _ _ _ _ _ _ Hf) as (Hfo & Hc & _).
    split_and!; [done|done|done|]. intros r Hr. apply (ho_sent _ _ _ _ _ _ Hf), elem_of_app. by left.
  - left. by apply (calm_refusal _ _ _ _ _ e Hf); [lia|apply Hi].
Qed.

(** The pages enumerate the inbox.  After any history, on a disk that works:
    following the cursors from the start, with any page size and any filter,
    ends, and gives exactly the reports of the inbox that pass the filter, each
    once and in order. *)
Theorem pages_enumerate_the_inbox ops answers limit unread_only since all f' fuel
    (Hlimit : 1 <= limit <= INBOX_PAGE_MAX)
    (Hinbox : inbox limits (set_fi_io [] (inbox_ops ops (no_inbox answers))) = (Ok all, f'))
    (Hfuel : length all < fuel) :
  (read_pages fuel None limit unread_only since f').1 = Ok (retain (wanted unread_only since) all) /\
  forall page f'', inbox_page limits None limit unread_only since f' = (Ok page, f'') -> length (pg_messages page) <= limit.
Proof.
  set (everything := fun _ : InboxMessage => True).
  destruct (ops_safe everything ops 0 _ [] [] (no_inbox_holds everything answers)) as (rs & hidden & H & _); [done|].
  apply set_io_holds in H. assert (Hi := inbox_spec _ _ _ _ _ H). unfold post in Hi. rewrite Hinbox in Hi. cbn [fst snd] in Hi.
  destruct Hi as (H' & Hu & _ & -> & Htop & Hcur). unfold shown_messages in *. rewrite <- (untouched_watermark _ _ Hu) in *.
  assert (Hfrom : retain (listed f' unread_only since (from_of None rs)) rs =
            retain (wanted unread_only since ∘ mark_read (MkInboxAck (watermark f'))) rs).
  { apply retain_ext. intros r Hr. unfold listed. cbn [compose]. replace (_ <=? rec_sequence r)%N with true; [done|]. symmetry.
    apply N.leb_le. destruct (holds_shown _ _ _ _ _ _ H') as (Hf & _ & _). destruct rs as [|r0 rs]; [by apply not_elem_of_nil in Hr|].
    cbn. apply elem_of_cons in Hr as [->|Hr]; [done|]. destruct Hf as [_ Hf]. assert (Ha := follows_above _ _ _ Hf Hr). lia. }
  rewrite length_fmap in Hfuel. split.
  - rewrite (pages_settled everything _ f' rs hidden fuel None limit) by
      (done || (assert (Hl := retain_length (listed f' unread_only since (from_of None rs)) rs); lia)).
    cbn [fst]. by rewrite Hfrom, retain_fmap.
  - intros page f'' Hp. destruct (page_spec everything _ f' rs hidden None limit unread_only since H' Hcur Htop Hlimit I) as (next & Hp' & _).
    rewrite Hp' in Hp. injection Hp as <- _. cbn [pg_messages]. unfold shown_messages. rewrite length_fmap, length_take. lia.
Qed.
End spec.

(** ** A concrete inbox *)
Module InboxExample.
Fixpoint bits (p : positive) : list N :=
  match p with xH => [] | xO p => 48%N :: bits p | xI p => 49%N :: bits p end.
Fixpoint unbits (l : list N) : positive :=
  match l with [] => xH | b :: l => if (b =? 48)%N then xO (unbits l) else xI (unbits l) end.

Definition result_key (r : StructuredResult) := (sr_pr r, sr_commits r, sr_changed_files r, sr_verification r).
Definition kind_key (k : InboxKind) : nat := match k with InboxCompleted => 0 | InboxFailed => 1 | InboxNoReport => 2 end.
Definition kind_of (n : nat) : InboxKind := match n with 0 => InboxCompleted | 1 => InboxFailed | _ => InboxNoReport end.
Definition record_key (r : InboxRecord) :=
  let m := rec_message r in
  (rec_sequence r, im_run_id m, wk_session_id (im_from m), wk_agent_id (im_from m), kind_key (im_kind m), im_summary m,
   result_key <$> im_result m, im_created_at m, im_read m).
Definition Key : Type :=
  N * OperationId * option SessionId * AgentId * nat * string *
  option (option string * list string * list string * option string) * Z * bool.
Definition record_of (k : Key) : InboxRecord :=
  let '(s, run, session, agent, kind, summary, result, created, read) := k in
  MkInboxRecord s (MkInboxMessage run (MkWorkerRef session agent) (kind_of kind) summary
    ((fun '(a, b, c, d) => MkStructuredResult a b c d) <$> result) created read).

(** A record is a letter of two bytes and the bits of its key. *)
#[export] Instance example_codec : InboxCodec := {
  encode_record r := 195%N :: 169%N :: bits (encode (record_key r : Key));
  parse_line line :=
    match line with
    | a :: b :: line => k ← decode (unbits line); Some (LineRecord (record_of k))
    | _ => None
    end
}.

Lemma unbits_bits p : unbits (bits p) = p.
Proof. induction p as [p IH|p IH|]; cbn; [by rewrite IH|by rewrite IH|done]. Qed.

Lemma bits_are_digits p b : b ∈ bits p -> b = 48%N \/ b = 49%N.
Proof. induction p as [p IH|p IH|]; cbn; [intros [->|?]%elem_of_cons; auto..|by intros ?%not_elem_of_nil]. Qed.

Lemma bits_text p n : length (bits p) <= n -> exists t, from_utf8 n (bits p) = Some t.
Proof.
  revert n. induction p as [p IH|p IH|]; intros n Hn; cbn [bits length] in *; [| |destruct n; by eexists];
    (destruct n as [|n]; [lia|]; rewrite from_utf8_step; cbn [utf8_next]; destruct (IH n ltac:(lia)) as [t Ht];
     eexists; cbn; rewrite Ht; reflexivity).
Qed.

#[export] Instance example_laws : InboxCodecLaws example_codec.
Proof.
  constructor.
  - intros r. cbn. rewrite unbits_bits, decode_encode. cbn. do 2 f_equal.
    destruct r as [s [run [session agent] [] summary [[]|] created read]]; done.
  - intros r. cbn. rewrite !not_elem_of_cons. split_and!; [done|done|]. by intros [?|?]%bits_are_digits.
  - intros r. change (encode_record r) with ([195; 169]%N ++ bits (encode (record_key r : Key))).
    apply valid_utf8_app; [done|]. unfold valid_utf8. by destruct (bits_text (encode (record_key r : Key)) _ (le_n _)) as [t ->].
Qed.

#[export] Instance example_clock : ClockRange := { checked_sub_seconds now seconds := Some (now - seconds)%Z }.

Definition limits : DispatchStoreLimits := MkDispatchStoreLimits 1000 1000 100000 4 1 1 0 3 1000%Z.
Definition worker : WorkerRef := MkWorkerRef None (MkAgentId "w").
Definition report (summary : string) : InboxMessage :=
  MkInboxMessage (MkOperationId "o") worker InboxCompleted summary None 5%Z false.
End InboxExample.
Import InboxExample.

Notation example_append summary := (InboxOp.Append 9%Z (report summary)).

(** The report is the second; an acknowledgement of the first comes before and after it. *)
Notation second_append := (append_inbox limits 9%Z (report "b")
  (inbox_ops limits [example_append "a"; InboxOp.Acknowledge (MkInboxCursor 2)] (no_inbox []))).
Notation later := [InboxOp.Acknowledge (MkInboxCursor 2); example_append "c"].

Lemma unread_reports_are_never_lost_witness :
  (inbox limits (set_fi_io [] (inbox_ops limits later second_append.2))).1 = Err NotText \/
  exists messages, (inbox limits (set_fi_io [] (inbox_ops limits later second_append.2))).1 = Ok messages /\
    report "b" ∈ messages.
Proof.
  destruct (unread_reports_are_never_lost limits [example_append "a"; InboxOp.Acknowledge (MkInboxCursor 2)] []
     9%Z (report "b") second_append.2) as [s Hs].
  - rewrite (surjective_pairing second_append) at 1. f_equal; vm_compute; reflexivity.
  - destruct (Hs []) as (_ & Hw & _); [by intros c ?%not_elem_of_nil|].
    replace (watermark _) with 2%N in Hw by (vm_compute; reflexivity).
    destruct (Hs later) as (_ & _ & _ & Hread); [|by apply Hread].
    by intros c [[= ->]|[[=]|?%not_elem_of_nil]%elem_of_cons]%elem_of_cons.
Defined.

(** The second append is cut; the third finds the torn line. *)
Lemma inbox_recovers_witness :
  (inbox limits (set_fi_io [] (inbox_ops limits [example_append "a"; example_append "b"; example_append "c"]
     (no_inbox [IoDone; IoDone; IoDone; IoDone; IoDone; IoDone; IoDone; IoPartial 7])))).1 =
    Ok [report "a"; report "c"].
Proof.
  destruct (inbox_recovers limits [example_append "a"; example_append "b"; example_append "c"]
     [IoDone; IoDone; IoDone; IoDone; IoDone; IoDone; IoDone; IoPartial 7] ltac:(vm_compute; reflexivity)) as [_ [H|(rs & _)]].
  - exfalso. vm_compute in H. discriminate H.
  - vm_compute. reflexivity.
Defined.

Lemma pages_enumerate_the_inbox_witness :
  (read_pages limits 4 None 1 true None
     (inbox limits (set_fi_io [] (inbox_ops limits [example_append "a"; example_append "b"; example_append "c"; InboxOp.Acknowledge (MkInboxCursor 2)] (no_inbox [])))).2).1 =
    Ok [report "b"; report "c"].
Proof.
  destruct (pages_enumerate_the_inbox limits
     [example_append "a"; example_append "b"; example_append "c"; InboxOp.Acknowledge (MkInboxCursor 2)] [] 1 true None
     [set_im_read true (report "a"); report "b"; report "c"]
     (inbox limits (set_fi_io [] (inbox_ops limits [example_append "a"; example_append "b"; example_append "c"; InboxOp.Acknowledge (MkInboxCursor 2)] (no_inbox [])))).2 4) as [H _].
  - vm_compute. lia.
  - rewrite (surjective_pairing (inbox _ _)) at 1. f_equal; vm_compute; reflexivity.
  - cbn. lia.
  - rewrite H. reflexivity.
Defined.

(** A line that is cut inside a character stops every operation of the inbox:
    the torn line is never truncated. *)
Example torn_character_stops_the_inbox :
  let f := inbox_ops limits [example_append "a"; example_append "b"]
    (no_inbox [IoDone; IoDone; IoDone; IoDone; IoDone; IoDone; IoDone; IoPartial 1]) in
  (inbox limits f).1 = Err NotText /\ (append_inbox limits 9%Z (report "c") f).1 = Err NotText /\
  (ack_inbox limits (MkInboxCursor 2) f).1 = Err NotText.
Proof. by vm_compute. Qed.

(** A line of the length of the torn one before it, whose append is interrupted
    before the index is written, is complete in the journal and not listed. *)
Example committed_line_is_hidden :
  let torn := length (line_of (MkInboxRecord 1 (report "a"))) in
  let f := inbox_ops limits [example_append "a much longer summary of the work"; example_append "a"]
    (no_inbox [IoDone; IoDone; IoPartial torn; IoDone; IoDone; IoDone; IoDone; IoDone; IoRefused]) in
  (sc_records <$> match scan limits (journal f) with Ok s => Some s | Err _ => None end) =
    Some [MkInboxRecord 1 (report "a")] /\
  (inbox limits f).1 = Ok [].
Proof. by vm_compute. Qed.
