(* ===== verification/DispatchRegistry.v ===== *)
(** * The registry of agent dispatch
    ([crates/core/src/infrastructure/store/dispatch.rs], the documents)

    Agents, their runs, how a run finds its caller (bindings), the prompts that
    wait for a launch, and the proofs that a spawn was prepared (admissions),
    with their transitions and the retention of finished runs.  The sidecar
    says which workspace owns an agent.  [Utc::now] is an argument. *)
From S2P Require Export DispatchTypes.

(** ** Data *)
Inductive CredentialProvenance : Type := DaemonMintedEphemeral.

Record AgentAdmissionReservation := MkAgentAdmissionReservation {
  ad_operation_id : OperationId;
  ad_semantic_key : string;
  ad_credential_provenance : CredentialProvenance
}.

Record QueuedPrompt := MkQueuedPrompt {
  qp_session_id : option SessionId;
  qp_prompt : string;
  qp_queued_at : DateTime;
  qp_caller : option CallerRef
}.

Record Registry := MkRegistry {
  rg_agents : list Agent;
  rg_runs : list DispatchRun;
  rg_bindings : list DispatchBinding;
  rg_prompts : list QueuedPrompt;
  rg_admissions : list AgentAdmissionReservation
}.
Definition Registry_default : Registry := MkRegistry [] [] [] [] [].

Record SessionLineage := MkSessionLineage {
  li_workspace : WorkspaceId;
  li_session : SessionId;
  li_parent : option SessionId
}.

Record DelegationReservation := MkDelegationReservation {
  de_workspace : WorkspaceId;
  de_operation : OperationId;
  de_parent : option SessionId
}.

Inductive DelegationReservationOutcome : Type := Reserved | AlreadyAdmitted | LimitReached | InProgress.

Record WorkspacePrompt := MkWorkspacePrompt {
  wp_workspace_id : WorkspaceId;
  wp_session_id : option SessionId;
  wp_prompt : string;
  wp_queued_at : DateTime;
  wp_caller : option CallerRef;
  wp_operation_id : option OperationId
}.

Record WorkspaceRegistry := MkWorkspaceRegistry {
  wr_agent_workspaces : gmap AgentId WorkspaceId;
  wr_prompts : list WorkspacePrompt;
  wr_lineages : list SessionLineage;
  wr_delegation_reservations : list DelegationReservation
}.
Definition WorkspaceRegistry_default : WorkspaceRegistry := MkWorkspaceRegistry ∅ [] [] [].

#[export] Instance credential_provenance_eq_dec : EqDecision CredentialProvenance.
Proof. solve_decision. Defined.
#[export] Instance admission_eq_dec : EqDecision AgentAdmissionReservation.
Proof. solve_decision. Defined.

Definition into_legacy_shape (p : WorkspacePrompt) : QueuedPrompt :=
  MkQueuedPrompt (wp_session_id p) (wp_prompt p) (wp_queued_at p) (wp_caller p).

Definition set_rg_agents v r := MkRegistry v (rg_runs r) (rg_bindings r) (rg_prompts r) (rg_admissions r).
Definition set_rg_runs v r := MkRegistry (rg_agents r) v (rg_bindings r) (rg_prompts r) (rg_admissions r).
Definition set_rg_bindings v r := MkRegistry (rg_agents r) (rg_runs r) v (rg_prompts r) (rg_admissions r).
Definition set_rg_prompts v r := MkRegistry (rg_agents r) (rg_runs r) (rg_bindings r) v (rg_admissions r).
Definition set_rg_admissions v r := MkRegistry (rg_agents r) (rg_runs r) (rg_bindings r) (rg_prompts r) v.

Definition set_wr_agent_workspaces v w := MkWorkspaceRegistry v (wr_prompts w) (wr_lineages w) (wr_delegation_reservations w).
Definition set_wr_prompts v w := MkWorkspaceRegistry (wr_agent_workspaces w) v (wr_lineages w) (wr_delegation_reservations w).
Definition set_wr_lineages v w := MkWorkspaceRegistry (wr_agent_workspaces w) (wr_prompts w) v (wr_delegation_reservations w).
Definition set_wr_delegation_reservations v w := MkWorkspaceRegistry (wr_agent_workspaces w) (wr_prompts w) (wr_lineages w) v.

Definition set_dn_status v run := MkDispatchRun (dn_run_id run) (dn_agent_id run) (dn_prompt run) (dn_started_at run) (dn_ended_at run) v.
Definition set_dn_ended_at v run := MkDispatchRun (dn_run_id run) (dn_agent_id run) (dn_prompt run) (dn_started_at run) v (dn_status run).
Definition set_ag_status v agent := MkAgent (ag_agent_id agent) (ag_session_id agent) (ag_runtime agent) (ag_model agent) v (ag_current_run agent).
Definition set_ag_current_run v agent := MkAgent (ag_agent_id agent) (ag_session_id agent) (ag_runtime agent) (ag_model agent) (ag_status agent) v.

(** ** Lists with a key

    [if let Some(existing) = list.iter_mut().find(p) { *existing = x } else { list.push(x) }] *)
Definition upsert {A} (p : A -> bool) (x : A) (l : list A) : list A :=
  if any p l then update_first p (fun _ => x) l else l ++ [x].

(** [position(p)] and [remove(index)]. *)
Fixpoint remove_first {A} (p : A -> bool) (l : list A) : list A :=
  match l with
  | [] => []
  | x :: l => if p x then l else x :: remove_first p l
  end.

Definition is_agent (id : AgentId) (agent : Agent) : bool := bool_decide (ag_agent_id agent = id).
Definition is_run (id : OperationId) (run : DispatchRun) : bool := bool_decide (dn_run_id run = id).
Definition is_binding (id : OperationId) (binding : DispatchBinding) : bool := bool_decide (bd_run_id binding = id).
Definition is_admission (id : OperationId) (a : AgentAdmissionReservation) : bool := bool_decide (ad_operation_id a = id).

(** ** Lineages *)
Inductive DispatchError : Type :=
| RegistryOverBytes | WorkspaceRegistryOverBytes | Unreadable | WriteFailed
| RegistryExhausted | WorkspaceRegistryExhausted | ClockOutOfRange
| ParentReassigned | OwnershipReassigned | OwnershipUnavailable | CallerForeign
| FenceMismatch | AdmissionConflict | IncompleteReservation | LifecycleUnreadable.

Definition lineage_of (workspace : WorkspaceId) (session : SessionId) (l : SessionLineage) : bool :=
  bool_decide (li_workspace l = workspace) && bool_decide (li_session l = session).

Definition record_lineage (w : WorkspaceRegistry) (workspace : WorkspaceId) (session : SessionId)
    (parent : option SessionId) : result DispatchError WorkspaceRegistry :=
  if bool_decide (Some session = parent) then Ok w
  else
    match find_first (lineage_of workspace session) (wr_lineages w) with
    | Some existing => if bool_decide (li_parent existing = parent) then Ok w else Err ParentReassigned
    | None => Ok (set_wr_lineages (wr_lineages w ++ [MkSessionLineage workspace session parent]) w)
    end.

(** ** Admissions *)
Definition reserve_admission (agent : Agent) (run : DispatchRun) (binding : DispatchBinding)
    (admission : AgentAdmissionReservation) (r : Registry) : Registry :=
  MkRegistry (upsert (is_agent (ag_agent_id agent)) agent (rg_agents r)) (rg_runs r ++ [run])
    (rg_bindings r ++ [binding]) (rg_prompts r) (rg_admissions r ++ [admission]).

Definition is_preparing (run : DispatchRun) : bool := bool_decide (dn_status run = RunPreparing).

Definition commit_admission (id : OperationId) (r : Registry) : bool * Registry :=
  let prepared := fun run => is_run id run && is_preparing run in
  match find_first prepared (rg_runs r) with
  | None => (false, r)
  | Some run =>
      (true,
       set_rg_runs (update_first prepared (set_dn_status RunRunning) (rg_runs r))
         (set_rg_agents (update_first (is_agent (dn_agent_id run)) (set_ag_status AgentRunning) (rg_agents r)) r))
  end.

Definition fail_run (now : DateTime) (run : DispatchRun) : DispatchRun :=
  set_dn_ended_at (Some now) (set_dn_status RunFailed run).
Definition fail_agent (agent : Agent) : Agent := set_ag_current_run None (set_ag_status AgentFailed agent).

Definition fail_admission (now : DateTime) (id : OperationId) (r : Registry) : bool * Registry :=
  match find_first (is_run id) (rg_runs r) with
  | None => (false, r)
  | Some run =>
      (true,
       set_rg_runs (update_first (is_run id) (fail_run now) (rg_runs r))
         (set_rg_agents (update_first (is_agent (dn_agent_id run)) fail_agent (rg_agents r)) r))
  end.

Definition live_run (run : DispatchRun) : bool :=
  match dn_status run with RunPreparing | RunRunning => true | _ => false end.

(** The loop of [reconcile_incomplete_admissions]. *)
Fixpoint reconcile_admissions (now : DateTime) (admissions : list AgentAdmissionReservation) (r : Registry) : nat * Registry :=
  match admissions with
  | [] => (0, r)
  | a :: admissions =>
      match find_first (is_run (ad_operation_id a)) (rg_runs r) with
      | None => reconcile_admissions now admissions r
      | Some run =>
          if negb (live_run run) then reconcile_admissions now admissions r
          else
            let '(n, r) := reconcile_admissions now admissions (fail_admission now (ad_operation_id a) r).2 in
            (S n, r)
      end
  end.

Definition reconcile_incomplete_admissions (now : DateTime) (r : Registry) : nat * Registry :=
  reconcile_admissions now (rg_admissions r) r.

(** ** Retention *)
Definition terminal_run (run : DispatchRun) : bool :=
  match dn_status run with RunCompleted | RunFailed | RunNoReport => true | _ => false end.

Definition remove_run_at (index : nat) (r : Registry) : Registry :=
  match rg_runs r !! index with
  | None => r
  | Some run =>
      let dropped := dn_run_id run in
      MkRegistry (rg_agents r) (delete index (rg_runs r)) (retain (fun b => negb (is_binding dropped b)) (rg_bindings r))
        (rg_prompts r) (retain (fun a => negb (is_admission dropped a)) (rg_admissions r))
  end.

(** [self.runs.retain(..)]: what is kept and the ids that were dropped. *)
Fixpoint drop_terminal (over : nat) (runs : list DispatchRun) : list DispatchRun * list OperationId :=
  match runs with
  | [] => ([], [])
  | run :: runs =>
      match over with
      | S n =>
          if terminal_run run
          then let '(kept, dropped) := drop_terminal n runs in (kept, dn_run_id run :: dropped)
          else let '(kept, dropped) := drop_terminal over runs in (run :: kept, dropped)
      | 0 => (run :: runs, [])
      end
  end.

Definition retain_count_bounded (retention : nat) (r : Registry) : Registry :=
  let over := count terminal_run (rg_runs r) - retention in
  if over =? 0 then r
  else
    let '(kept, dropped) := drop_terminal over (rg_runs r) in
    MkRegistry (rg_agents r) kept (retain (fun b => negb (bool_decide (bd_run_id b ∈ dropped))) (rg_bindings r))
      (rg_prompts r) (retain (fun a => negb (bool_decide (ad_operation_id a ∈ dropped))) (rg_admissions r)).

Definition drop_oldest_terminal_run (replay_floor : nat) (r : Registry) : option Registry :=
  if count terminal_run (rg_runs r) <=? replay_floor then None
  else
    match position terminal_run (rg_runs r) with
    | None => None
    | Some index => Some (remove_run_at index r)
    end.

Definition aged_terminal (cutoff : DateTime) (run : DispatchRun) : bool :=
  terminal_run run && match dn_ended_at run with Some ended_at => (ended_at <? cutoff)%Z | None => false end.

(** Every round removes a run. *)
Fixpoint age_rounds (fuel : nat) (cutoff : DateTime) (replay_floor : nat) (r : Registry) : Registry :=
  match fuel with
  | 0 => r
  | S fuel =>
      if count terminal_run (rg_runs r) <=? replay_floor then r
      else
        match position (aged_terminal cutoff) (rg_runs r) with
        | None => r
        | Some index => age_rounds fuel cutoff replay_floor (remove_run_at index r)
        end
  end.
Definition retain_age_bounded (cutoff : DateTime) (replay_floor : nat) (r : Registry) : Registry :=
  age_rounds (length (rg_runs r)) cutoff replay_floor r.

(** ** Sizes *)
Class DocumentSizes := {
  registry_len : Registry -> N;
  workspace_registry_len : WorkspaceRegistry -> N
}.

Section prepare.
Context `{Z : DocumentSizes} `{K : ClockRange} (limits : DispatchStoreLimits).

(** The loop of [prepare_registry]; every round removes a run. *)
Fixpoint shrink (fuel : nat) (r : Registry) : result DispatchError Registry :=
  if (registry_len r <=? dl_registry_bytes limits)%N then Ok r
  else
    match drop_oldest_terminal_run (dl_run_replay_floor limits) r, fuel with
    | Some r, S fuel => shrink fuel r
    | _, _ => Err RegistryExhausted
    end.

Definition prepare_registry (now : DateTime) (r : Registry) : result DispatchError Registry :=
  let r := retain_count_bounded (dl_run_retention limits) r in
  cutoff <-? ok_or (checked_sub_seconds now (dl_history_max_age_seconds limits)) ClockOutOfRange ;;
  let r := retain_age_bounded cutoff (dl_run_replay_floor limits) r in
  shrink (length (rg_runs r)) r.
End prepare.
