(* ===== verification/Dispatch.v ===== *)
(** * The store of agent dispatch
    ([crates/core/src/infrastructure/store/dispatch.rs], the operations)

    Two documents: the registry, which an older daemon may rewrite as a whole,
    and the sidecar with what it must not erase.  A write replaces a document or
    leaves it; [df_io] says which, so a crash between the two writes of an
    operation is a refused second write.  The store lock serializes the
    operations; the lifecycle document is read through an argument. *)
From S2P Require Export DispatchRegistry.

(** A file: missing, not readable as the document, or the document. *)
Inductive Stored (A : Type) : Type := Missing | Broken | Document (document : A).
Global Arguments Missing {A}.
Global Arguments Broken {A}.
Global Arguments Document {A} document.

Record DispatchFiles := MkDispatchFiles {
  df_registry : Stored Registry;
  df_workspaces : Stored WorkspaceRegistry;
  df_io : list bool
}.

Notation dis := (st DispatchFiles DispatchError).

(** A write to a temporary file and a rename. *)
Definition write_document (write : DispatchFiles -> DispatchFiles) : dis unit := fun f =>
  match df_io f with
  | [] => (Ok tt, write f)
  | done :: rest =>
      let f := MkDispatchFiles (df_registry f) (df_workspaces f) rest in
      if done : bool then (Ok tt, write f) else (Err WriteFailed, f)
  end.

(** [DaemonLifecycleStore::load] *)
Notation Lifecycle := (result DispatchError (option WorkspaceLifecycleState)).

Section store.
Context `{Z : DocumentSizes} `{K : ClockRange} (limits : DispatchStoreLimits).

(** ** Loading and writing *)
Definition load {A} (file : Stored A) (len : A -> N) (maximum : N) (over : DispatchError) (default : A) : result DispatchError A :=
  match file with
  | Missing => Ok default
  | Broken => Err Unreadable
  | Document d => if (len d <=? maximum)%N then Ok d else Err over
  end.

Definition load_registry : dis Registry :=
  f <-! st_get ;;
  st_lift (load (df_registry f) registry_len (dl_registry_bytes limits) RegistryOverBytes Registry_default).

Definition load_workspace_registry : dis WorkspaceRegistry :=
  f <-! st_get ;;
  st_lift (load (df_workspaces f) workspace_registry_len (dl_workspace_registry_bytes limits) WorkspaceRegistryOverBytes
             WorkspaceRegistry_default).

Definition put_registry (r : Registry) : dis unit :=
  write_document (fun f => MkDispatchFiles (Document r) (df_workspaces f) (df_io f)).
Definition put_workspace_registry (w : WorkspaceRegistry) : dis unit :=
  write_document (fun f => MkDispatchFiles (df_registry f) (Document w) (df_io f)).

Definition validate_workspace_registry (w : WorkspaceRegistry) : dis unit :=
  st_ensure (workspace_registry_len w <=? dl_workspace_registry_bytes limits)%N WorkspaceRegistryExhausted.

Definition write_workspace_registry (w : WorkspaceRegistry) : dis unit :=
  validate_workspace_registry w ;;; put_workspace_registry w.

Definition write_registry (now : DateTime) (r : Registry) : dis unit :=
  r <-! st_lift (prepare_registry limits now r) ;;
  put_registry r.

Definition mutate_registry {T} (now : DateTime) (mutate : Registry -> T * Registry) : dis T :=
  registry <-! load_registry ;;
  let '(answer, registry) := mutate registry in
  write_registry now registry ;;;
  st_ret answer.

(** Ownership first, then the registry. *)
Definition publish_both (now : DateTime) (w : WorkspaceRegistry) (r : Registry) : dis unit :=
  r <-! st_lift (prepare_registry limits now r) ;;
  validate_workspace_registry w ;;;
  write_workspace_registry w ;;;
  put_registry r.

(** ** Prompts *)
Definition in_slot (workspace : WorkspaceId) (session : option SessionId) (p : WorkspacePrompt) : bool :=
  bool_decide (wp_workspace_id p = workspace) && bool_decide (wp_session_id p = session).
Definition legacy_slot (session : option SessionId) (p : QueuedPrompt) : bool := bool_decide (qp_session_id p = session).

Definition owner_of (w : WorkspaceRegistry) (agent : AgentId) : option WorkspaceId := wr_agent_workspaces w !! agent.
Definition owned_by (w : WorkspaceRegistry) (workspace : WorkspaceId) (agent : AgentId) : bool :=
  bool_decide (owner_of w agent = Some workspace).

Definition queue_prompt_for (now : DateTime) (workspace : WorkspaceId) (session : option SessionId) (prompt : string)
    (queued_at : DateTime) (caller : option CallerRef) (operation : option OperationId) : dis QueuedPrompt :=
  w <-! load_workspace_registry ;;
  legacy <-! (match session with Some _ => r <-! load_registry ;; st_ret (Some r) | None => st_ret None end) ;;
  let queued := MkWorkspacePrompt workspace session prompt queued_at caller operation in
  st_ensure (match caller with Some c => owned_by w workspace (ca_agent_id c) | None => true end) CallerForeign ;;;
  put_workspace_registry (set_wr_prompts (upsert (in_slot workspace session) queued (wr_prompts w)) w) ;;;
  (match legacy with
   | Some r =>
       if any (legacy_slot session) (rg_prompts r)
       then write_registry now (set_rg_prompts (remove_first (legacy_slot session) (rg_prompts r)) r)
       else st_ret tt
   | None => st_ret tt
   end) ;;;
  st_ret (into_legacy_shape queued).

Definition queue_prompt now workspace session prompt queued_at : dis QueuedPrompt :=
  queue_prompt_for now workspace session prompt queued_at None None.
Definition queue_delegated_prompt now workspace session prompt queued_at caller operation : dis QueuedPrompt :=
  queue_prompt_for now workspace session prompt queued_at (Some caller) (Some operation).

Definition queued_prompt (workspace : WorkspaceId) (session : option SessionId) : dis (option QueuedPrompt) :=
  w <-! load_workspace_registry ;;
  match find_first (in_slot workspace session) (wr_prompts w) with
  | Some p => st_ret (Some (into_legacy_shape p))
  | None =>
      match session with
      | Some _ => r <-! load_registry ;; st_ret (find_first (legacy_slot session) (rg_prompts r))
      | None => st_ret None
      end
  end.

(** The removal of a legacy slot; the answer is what it held. *)
Definition take_legacy (now : DateTime) (session : option SessionId) : dis (option QueuedPrompt) :=
  match session with
  | None => st_ret None
  | Some _ =>
      r <-! load_registry ;;
      match find_first (legacy_slot session) (rg_prompts r) with
      | None => st_ret None
      | Some p =>
          write_registry now (set_rg_prompts (remove_first (legacy_slot session) (rg_prompts r)) r) ;;;
          st_ret (Some p)
      end
  end.

Definition consume_prompt (now : DateTime) (workspace : WorkspaceId) (session : option SessionId) : dis (option QueuedPrompt) :=
  w <-! load_workspace_registry ;;
  match find_first (in_slot workspace session) (wr_prompts w) with
  | Some p =>
      take_legacy now session ;;;
      put_workspace_registry (set_wr_prompts (remove_first (in_slot workspace session) (wr_prompts w)) w) ;;;
      st_ret (Some (into_legacy_shape p))
  | None => take_legacy now session
  end.

(** ** Agents *)
Definition claim (agent : AgentId) (workspace : WorkspaceId) (w : WorkspaceRegistry) : WorkspaceRegistry :=
  set_wr_agent_workspaces (<[agent := workspace]> (wr_agent_workspaces w)) w.

(** Nobody else owns the agent. *)
Definition claimable (w : WorkspaceRegistry) (workspace : WorkspaceId) (agent : AgentId) : bool :=
  match owner_of w agent with Some owner => bool_decide (owner = workspace) | None => true end.

Definition upsert_agent (now : DateTime) (workspace : WorkspaceId) (agent : Agent) : dis Agent :=
  w <-! load_workspace_registry ;;
  st_ensure (claimable w workspace (ag_agent_id agent)) OwnershipReassigned ;;;
  r <-! load_registry ;;
  publish_both now (claim (ag_agent_id agent) workspace w)
    (set_rg_agents (upsert (is_agent (ag_agent_id agent)) agent (rg_agents r)) r) ;;;
  st_ret agent.

Definition same_tuple (session : option SessionId) (runtime : AgentProfileId) (model : ModelSelector) (a : Agent) : bool :=
  bool_decide (ag_session_id a = session) && bool_decide (ag_runtime a = runtime) && bool_decide (ag_model a = model).

Definition reusable (w : WorkspaceRegistry) (workspace : WorkspaceId) (session : option SessionId)
    (runtime : AgentProfileId) (model : ModelSelector) (agents : list Agent) : option Agent :=
  match find_first (fun a => same_tuple session runtime model a && owned_by w workspace (ag_agent_id a)) agents with
  | Some a => Some a
  | None =>
      match session with
      | None => None
      | Some _ =>
          find_first (fun a => same_tuple session runtime model a && bool_decide (owner_of w (ag_agent_id a) = None)) agents
      end
  end.

Definition upsert_agent_by_runtime_model (now : DateTime) (minted : AgentId) (workspace : WorkspaceId)
    (session : option SessionId) (runtime : AgentProfileId) (model : ModelSelector) : dis Agent :=
  r <-! load_registry ;;
  w <-! load_workspace_registry ;;
  match reusable w workspace session runtime model (rg_agents r) with
  | Some agent => write_workspace_registry (claim (ag_agent_id agent) workspace w) ;;; st_ret agent
  | None =>
      let agent := MkAgent minted session runtime model AgentIdle None in
      publish_both now (claim minted workspace w) (set_rg_agents (rg_agents r ++ [agent]) r) ;;;
      st_ret agent
  end.

Definition agent_in_workspace (workspace : WorkspaceId) (agent : AgentId) : dis (option Agent) :=
  w <-! load_workspace_registry ;;
  if negb (owned_by w workspace agent) then st_ret None
  else r <-! load_registry ;; st_ret (find_first (is_agent agent) (rg_agents r)).

Definition agents_in_workspace (workspace : WorkspaceId) : dis (list Agent) :=
  w <-! load_workspace_registry ;;
  r <-! load_registry ;;
  st_ret (retain (fun a => owned_by w workspace (ag_agent_id a)) (rg_agents r)).

Definition workspace_for_agent (agent : AgentId) : dis (option WorkspaceId) :=
  w <-! load_workspace_registry ;; st_ret (owner_of w agent).

(** ** Delegation *)
Definition caller_is (session : option SessionId) (p : WorkspacePrompt) : bool :=
  match wp_caller p with Some parent => bool_decide (ca_session_id parent = session) | None => false end.

Definition already_admitted (w : WorkspaceRegistry) (r : Registry) (workspace : WorkspaceId) (caller : CallerRef)
    (operation : OperationId) : bool :=
  any (fun b => is_binding operation b && bool_decide (ca_session_id (bd_caller b) = ca_session_id caller) &&
                owned_by w workspace (wk_agent_id (bd_worker b))) (rg_bindings r) ||
  any (fun p => bool_decide (wp_operation_id p = Some operation) && bool_decide (wp_workspace_id p = workspace) &&
                caller_is (ca_session_id caller) p) (wr_prompts w).

Definition active_delegations (w : WorkspaceRegistry) (r : Registry) (workspace : WorkspaceId) (parent : option SessionId) : nat :=
  count (fun b => bool_decide (ca_session_id (bd_caller b) = parent) && negb (bool_decide (wk_session_id (bd_worker b) = parent)) &&
                  owned_by w workspace (wk_agent_id (bd_worker b)) &&
                  any (fun run => is_run (bd_run_id b) run && live_run run) (rg_runs r)) (rg_bindings r).

Definition queued_delegations (w : WorkspaceRegistry) (workspace : WorkspaceId) (parent : option SessionId) : nat :=
  count (fun p => bool_decide (wp_workspace_id p = workspace) && negb (bool_decide (wp_session_id p = parent)) &&
                  caller_is parent p) (wr_prompts w).

Definition reserved_delegations (w : WorkspaceRegistry) (workspace : WorkspaceId) (parent : option SessionId) : nat :=
  count (fun d => bool_decide (de_workspace d = workspace) && bool_decide (de_parent d = parent))
    (wr_delegation_reservations w).

Definition delegations (w : WorkspaceRegistry) (r : Registry) (workspace : WorkspaceId) (parent : option SessionId) : nat :=
  active_delegations w r workspace parent + queued_delegations w workspace parent + reserved_delegations w workspace parent.

Definition reserve_delegation (caller : CallerRef) (operation : OperationId) (max_concurrency : nat)
    : dis DelegationReservationOutcome :=
  w <-! load_workspace_registry ;;
  workspace <-! st_lift (ok_or (owner_of w (ca_agent_id caller)) OwnershipUnavailable) ;;
  r <-! load_registry ;;
  if already_admitted w r workspace caller operation then st_ret AlreadyAdmitted
  else if any (fun d => bool_decide (de_operation d = operation)) (wr_delegation_reservations w) then st_ret InProgress
  else if max_concurrency <=? delegations w r workspace (ca_session_id caller) then st_ret LimitReached
  else
    write_workspace_registry
      (set_wr_delegation_reservations
         (wr_delegation_reservations w ++ [MkDelegationReservation workspace operation (ca_session_id caller)]) w) ;;;
    st_ret Reserved.

Definition release_delegation (operation : OperationId) : dis bool :=
  w <-! load_workspace_registry ;;
  let kept := retain (fun d => negb (bool_decide (de_operation d = operation))) (wr_delegation_reservations w) in
  if negb (length kept =? length (wr_delegation_reservations w))
  then write_workspace_registry (set_wr_delegation_reservations kept w) ;;; st_ret true
  else st_ret false.

(** ** Lineage *)
Definition managed_session_parent (lifecycle : Lifecycle) (workspace : WorkspaceId) (session : SessionId)
    : result DispatchError (option (option SessionId)) :=
  loaded <-? lifecycle ;;
  Ok (match loaded with
      | Some state =>
          if bool_decide (wl_workspace_id state = workspace)
          then ms_parent_session_id <$> find_first (fun s => bool_decide (ms_session_id s = session)) (wl_sessions state)
          else None
      | None => None
      end).

Definition session_parent (lifecycle : Lifecycle) (workspace : WorkspaceId) (session : SessionId) : dis (option SessionId) :=
  managed <-! st_lift (managed_session_parent lifecycle workspace session) ;;
  match managed with
  | Some parent => st_ret parent
  | None =>
      w <-! load_workspace_registry ;;
      st_ret (match find_first (lineage_of workspace session) (wr_lineages w) with Some l => li_parent l | None => None end)
  end.

Definition record_session_parent (workspace : WorkspaceId) (session : SessionId) (parent : option SessionId) : dis unit :=
  w <-! load_workspace_registry ;;
  w <-! st_lift (record_lineage w workspace session parent) ;;
  validate_workspace_registry w ;;;
  write_workspace_registry w.

(** What the walk knows of a session: its parent, or that it is unknown. *)
Definition known_parent (state : option WorkspaceLifecycleState) (w : WorkspaceRegistry) (workspace : WorkspaceId)
    (session : SessionId) : option (option SessionId) :=
  match state ≫= fun state => find_first (fun s => bool_decide (ms_session_id s = session)) (wl_sessions state) with
  | Some s => Some (ms_parent_session_id s)
  | None => li_parent <$> find_first (lineage_of workspace session) (wr_lineages w)
  end.

(** [while let Some(session) = cursor && seen.insert(session)] *)
Fixpoint depth_walk (fuel : nat) (parent : SessionId -> option (option SessionId)) (cursor : option SessionId)
    (seen : gset SessionId) (depth : nat) : nat :=
  match cursor, fuel with
  | Some session, S fuel =>
      if bool_decide (session ∈ seen) then depth
      else
        match parent session with
        | None => depth
        | Some next => depth_walk fuel parent next ({[session]} ∪ seen) (S depth)
        end
  | _, _ => depth
  end.

Definition sessions_known (state : option WorkspaceLifecycleState) (w : WorkspaceRegistry) : nat :=
  length (default [] (wl_sessions <$> state)) + length (wr_lineages w).

Definition delegation_depth (lifecycle : Lifecycle) (caller : CallerRef) : dis nat :=
  w <-! load_workspace_registry ;;
  workspace <-! st_lift (ok_or (owner_of w (ca_agent_id caller)) OwnershipUnavailable) ;;
  loaded <-! st_lift lifecycle ;;
  let state := loaded ≫= fun state => if bool_decide (wl_workspace_id state = workspace) then Some state else None in
  st_ret (depth_walk (S (sessions_known state w)) (known_parent state w workspace) (ca_session_id caller) ∅ 0).

(** ** Observations *)
Definition agent (id : AgentId) : dis (option Agent) :=
  r <-! load_registry ;; st_ret (find_first (is_agent id) (rg_agents r)).
Definition agents : dis (list Agent) := r <-! load_registry ;; st_ret (rg_agents r).
Definition runs : dis (list DispatchRun) := r <-! load_registry ;; st_ret (rg_runs r).
Definition run (id : OperationId) : dis (option DispatchRun) :=
  r <-! load_registry ;; st_ret (find_first (is_run id) (rg_runs r)).
Definition admission (id : OperationId) : dis (option AgentAdmissionReservation) :=
  r <-! load_registry ;; st_ret (find_first (is_admission id) (rg_admissions r)).
Definition binding (id : OperationId) : dis (option DispatchBinding) :=
  r <-! load_registry ;; st_ret (find_first (is_binding id) (rg_bindings r)).

Record DispatchRuntimeProjection := MkDispatchRuntimeProjection {
  failed_runs : gset OperationId;
  agent_ids_by_run : gmap OperationId AgentId
}.
Definition first_workers (bindings : list DispatchBinding) : gmap OperationId AgentId :=
  foldl (fun m b => match m !! bd_run_id b with
                    | Some _ => m
                    | None => <[bd_run_id b := wk_agent_id (bd_worker b)]> m
                    end) ∅ bindings.
Definition runtime_projection : dis DispatchRuntimeProjection :=
  r <-! load_registry ;;
  st_ret (MkDispatchRuntimeProjection
            (list_to_set (dn_run_id <$> retain (fun run => bool_decide (dn_status run = RunFailed)) (rg_runs r)))
            (first_workers (rg_bindings r))).

(** ** Admissions *)
Definition fenced (agent : Agent) (run : DispatchRun) (binding : DispatchBinding) (a : AgentAdmissionReservation) : bool :=
  bool_decide (ag_agent_id agent = dn_agent_id run) && bool_decide (ag_agent_id agent = wk_agent_id (bd_worker binding)) &&
  bool_decide (ag_session_id agent = wk_session_id (bd_worker binding)) && bool_decide (dn_run_id run = bd_run_id binding) &&
  bool_decide (dn_run_id run = ad_operation_id a).

Definition claim_worker (w : WorkspaceRegistry) (workspace : option WorkspaceId) (worker : AgentId)
    : result DispatchError WorkspaceRegistry :=
  match workspace with
  | Some workspace => if claimable w workspace worker then Ok (claim worker workspace w) else Err OwnershipReassigned
  | None => match owner_of w worker with Some _ => Ok w | None => Err OwnershipUnavailable end
  end.

Definition reserve_admission_inner (now : DateTime) (workspace : option WorkspaceId) (agent : Agent) (run : DispatchRun)
    (binding : DispatchBinding) (a : AgentAdmissionReservation) : dis AgentAdmissionReservation :=
  st_ensure (fenced agent run binding a) FenceMismatch ;;;
  r <-! load_registry ;;
  match find_first (is_admission (ad_operation_id a)) (rg_admissions r) with
  | Some existing =>
      st_ensure (bool_decide (ad_semantic_key existing = ad_semantic_key a)) AdmissionConflict ;;;
      st_ret existing
  | None =>
      st_ensure (negb (any (is_run (ad_operation_id a)) (rg_runs r))) IncompleteReservation ;;;
      w <-! load_workspace_registry ;;
      w <-! st_lift (claim_worker w workspace (wk_agent_id (bd_worker binding))) ;;
      publish_both now w (DispatchRegistry.reserve_admission agent run binding a r) ;;;
      st_ret a
  end.

Definition reserve_admission now agent run binding a := reserve_admission_inner now None agent run binding a.
Definition reserve_admission_for_workspace now workspace agent run binding a :=
  reserve_admission_inner now (Some workspace) agent run binding a.

Definition commit_admission (now : DateTime) (operation : OperationId) : dis bool :=
  mutate_registry now (DispatchRegistry.commit_admission operation).
Definition fail_admission (now : DateTime) (operation : OperationId) : dis bool :=
  mutate_registry now (DispatchRegistry.fail_admission now operation).

Definition reconcile_incomplete_admissions (now : DateTime) : dis nat :=
  r <-! load_registry ;;
  w <-! load_workspace_registry ;;
  let '(reconciled, r) := DispatchRegistry.reconcile_incomplete_admissions now r in
  (match wr_delegation_reservations w with
   | [] => st_ret tt
   | _ => write_workspace_registry (set_wr_delegation_reservations [] w)
   end) ;;;
  write_registry now r ;;;
  st_ret reconciled.

(** ** Runs *)
Definition upsert_run (now : DateTime) (run : DispatchRun) : dis DispatchRun :=
  mutate_registry now (fun r => (run, set_rg_runs (upsert (is_run (dn_run_id run)) run (rg_runs r)) r)).

Definition transition_run (now : DateTime) (id : OperationId) (status : RunStatus) (ended_at : option DateTime)
    : dis (option DispatchRun) :=
  mutate_registry now (fun r =>
    let change run := set_dn_ended_at ended_at (set_dn_status status run) in
    (change <$> find_first (is_run id) (rg_runs r), set_rg_runs (update_first (is_run id) change (rg_runs r)) r)).

Definition transition_agent (now : DateTime) (id : AgentId) (status : AgentStatus) (current : option OperationId)
    : dis (option Agent) :=
  mutate_registry now (fun r =>
    let change agent := set_ag_current_run current (set_ag_status status agent) in
    (change <$> find_first (is_agent id) (rg_agents r), set_rg_agents (update_first (is_agent id) change (rg_agents r)) r)).

Definition holds_run (id : AgentId) (run : OperationId) (agent : Agent) : bool :=
  is_agent id agent && bool_decide (ag_current_run agent = Some run).

(** The registry a report leaves, or [None] when nothing changed. *)
Definition report_outcome (id : OperationId) (worker : AgentId) (run_status : RunStatus) (agent_status : AgentStatus)
    (ended_at : DateTime) (r : Registry) : option Registry :=
  let run_changes :=
    match find_first (is_run id) (rg_runs r) with
    | Some run => negb (bool_decide (dn_status run = run_status))
    | None => false
    end in
  let change run := set_dn_ended_at (Some ended_at) (set_dn_status run_status run) in
  let r := if run_changes then set_rg_runs (update_first (is_run id) change (rg_runs r)) r else r in
  let agent_changes := any (holds_run worker id) (rg_agents r) in
  let release agent := set_ag_current_run None (set_ag_status agent_status agent) in
  let r := if agent_changes then set_rg_agents (update_first (holds_run worker id) release (rg_agents r)) r else r in
  if run_changes || agent_changes then Some r else None.

Definition reconcile_report_outcome (now : DateTime) (id : OperationId) (worker : AgentId) (run_status : RunStatus)
    (agent_status : AgentStatus) (ended_at : DateTime) : dis bool :=
  r <-! load_registry ;;
  match report_outcome id worker run_status agent_status ended_at r with
  | Some r => write_registry now r ;;; st_ret true
  | None => st_ret false
  end.

Definition upsert_binding (now : DateTime) (b : DispatchBinding) : dis DispatchBinding :=
  r <-! load_registry ;;
  w <-! load_workspace_registry ;;
  publish_both now w (set_rg_bindings (upsert (is_binding (bd_run_id b)) b (rg_bindings r)) r) ;;;
  st_ret b.
End store.
