(* ===== verification/DispatchLaws.v ===== *)
(** * Retention, writing and the invariant of the dispatch store

    What [prepare_registry] may take out of a registry, and what a sequence of
    writes can leave behind when any of them is refused. *)
From S2P Require Export Dispatch.

(** ** Lists *)
Lemma elem_of_upsert {A} (p : A -> bool) x y l : y ∈ upsert p x l -> y = x \/ y ∈ l.
Proof.
  unfold upsert. destruct (any p l).
  - intros [?|(z & _ & ->)]%elem_of_update_first; auto.
  - intros [?|?%list_elem_of_singleton]%elem_of_app; auto.
Qed.

Lemma any_true {A} (p : A -> bool) l : any p l = true <-> exists x, x ∈ l /\ p x = true.
Proof.
  unfold any. rewrite existsb_exists. split; intros (x & H & Hp); exists x; (split; [|done]); by apply list_elem_of_In.
Qed.
Lemma any_false {A} (p : A -> bool) l : any p l = false <-> forall x, x ∈ l -> p x = false.
Proof.
  rewrite <- not_true_iff_false, any_true. split.
  - intros H x Hx. apply not_true_iff_false. intros Hp. apply H. by exists x.
  - intros H (x & Hx & Hp). rewrite H in Hp by done. done.
Qed.

Lemma upsert_has {A} (p : A -> bool) x l : x ∈ upsert p x l.
Proof.
  unfold upsert. destruct (any p l) eqn:E; [|apply elem_of_app; right; by left].
  apply any_true in E as (y & Hy & Hp). induction Hy as [y l|y z l Hy IH]; cbn [update_first].
  - rewrite Hp. left.
  - destruct (p z); [left|right; by apply IH].
Qed.

Lemma upsert_keeps {A} (p : A -> bool) x y l : y ∈ l -> p y = false -> y ∈ upsert p x l.
Proof.
  intros Hy Hp. unfold upsert. destruct (any p l); [|apply elem_of_app; by left].
  induction Hy as [y l|y z l Hy IH]; cbn [update_first].
  - rewrite Hp. left.
  - destruct (p z); right; [done|by apply IH].
Qed.

Section keyed.
Context {A B : Type} `{EqDecision B} (key : A -> B).
Notation at_ k := (fun x => bool_decide (key x = k)).

Lemma keys_update_same k f l : (forall x, key x = k -> key (f x) = k) -> key <$> update_first (at_ k) f l = key <$> l.
Proof.
  intros Hf. induction l as [|x l IH]; [done|]. cbn [update_first]. case_bool_decide as E; cbn; [|by rewrite IH].
  by rewrite Hf, E.
Qed.

Lemma keys_upsert x l : NoDup (key <$> l) -> NoDup (key <$> upsert (at_ (key x)) x l).
Proof.
  intros Hn. unfold upsert. destruct (any _ l) eqn:E; [by rewrite keys_update_same|].
  rewrite fmap_app. apply NoDup_app. split_and!; [done| |apply NoDup_singleton].
  intros k (y & -> & Hy)%list_elem_of_fmap Hin. apply list_elem_of_singleton in Hin.
  assert (Hf := proj1 (any_false _ _) E y Hy). cbn in Hf. by apply bool_decide_eq_false in Hf.
Qed.

Lemma keys_remove p l : NoDup (key <$> l) -> NoDup (key <$> remove_first p l).
Proof.
  induction l as [|x l IH]; [done|]. cbn. intros [Hx Hn]%list.NoDup_cons. destruct (p x); [done|]. cbn.
  apply list.NoDup_cons. split; [|by apply IH]. intros Hin. apply Hx. clear -Hin. induction l as [|y l IH]; [done|].
  cbn in *. destruct (p y); [by right|]. apply elem_of_cons in Hin as [->|Hin]; [left|right; auto].
Qed.

Lemma delete_retain l i x : NoDup (key <$> l) -> l !! i = Some x ->
  delete i l = retain (fun y => negb (bool_decide (key y = key x))) l.
Proof.
  revert i. induction l as [|y l IH]; intros i; [done|]. cbn [fmap list_fmap]. intros [Hy Hn]%list.NoDup_cons Hi.
  destruct i as [|i]; cbn in Hi.
  - injection Hi as ->. cbn. rewrite bool_decide_eq_true_2 by done. cbn. symmetry. apply retain_all. intros z Hz.
    apply negb_true_iff, bool_decide_eq_false. intros E. apply Hy. rewrite <- E. by apply list_elem_of_fmap_2.
  - cbn. rewrite bool_decide_eq_false_2; [cbn; f_equal; by apply IH|]. intros E. apply Hy. rewrite E.
    apply list_elem_of_lookup_2 in Hi. by apply list_elem_of_fmap_2.
Qed.
End keyed.

Lemma elem_of_remove_first {A} (p : A -> bool) x l : x ∈ remove_first p l -> x ∈ l.
Proof.
  induction l as [|y l IH]; [done|]. cbn. destruct (p y); [by right|]. intros [->|Hin]%elem_of_cons; [left|right; auto].
Qed.

Lemma remove_first_keeps {A} (p : A -> bool) x l : x ∈ l -> p x = false -> x ∈ remove_first p l.
Proof.
  intros Hx Hp. induction Hx as [x l|x y l Hx IH]; cbn.
  - rewrite Hp. left.
  - destruct (p y); [done|right; auto].
Qed.

(** ** What retention takes out *)
Definition outside (dropped : list OperationId) (id : OperationId) : bool := negb (bool_decide (id ∈ dropped)).

Record trims (dropped : list OperationId) (r r' : Registry) : Prop := {
  tr_agents : rg_agents r' = rg_agents r;
  tr_prompts : rg_prompts r' = rg_prompts r;
  tr_runs : rg_runs r' = retain (fun run => outside dropped (dn_run_id run)) (rg_runs r);
  tr_bindings : rg_bindings r' = retain (fun b => outside dropped (bd_run_id b)) (rg_bindings r);
  tr_admissions : rg_admissions r' = retain (fun a => outside dropped (ad_operation_id a)) (rg_admissions r);
  tr_terminal : forall run, run ∈ rg_runs r -> dn_run_id run ∈ dropped -> terminal_run run = true;
  tr_known : forall id, id ∈ dropped -> exists run, run ∈ rg_runs r /\ dn_run_id run = id
}.

Lemma outside_app a b id : outside (a ++ b) id = outside a id && outside b id.
Proof.
  unfold outside. rewrite (bool_decide_ext _ _ (elem_of_app a b id)).
  by rewrite bool_decide_or, negb_orb.
Qed.

Lemma outside_nil id : outside [] id = true.
Proof. unfold outside. rewrite bool_decide_eq_false_2; [done|]. apply not_elem_of_nil. Qed.

Lemma trims_refl r : trims [] r r.
Proof.
  constructor; try done; try (symmetry; apply retain_all; intros x _; apply outside_nil).
  - by intros run _ ?%not_elem_of_nil.
  - by intros id ?%not_elem_of_nil.
Qed.

Lemma trims_trans a b r r1 r2 : trims a r r1 -> trims b r1 r2 -> trims (a ++ b) r r2.
Proof.
  intros [] []. constructor; try congruence.
  - rewrite tr_runs1, tr_runs0, retain_retain. apply retain_ext. intros x _. by rewrite outside_app.
  - rewrite tr_bindings1, tr_bindings0, retain_retain. apply retain_ext. intros x _. by rewrite outside_app.
  - rewrite tr_admissions1, tr_admissions0, retain_retain. apply retain_ext. intros x _. by rewrite outside_app.
  - intros run Hrun [?|Hb]%elem_of_app; [by apply tr_terminal0|]. destruct (outside a (dn_run_id run)) eqn:E.
    + apply tr_terminal1; [|done]. rewrite tr_runs0. by apply elem_of_retain.
    + apply tr_terminal0; [done|]. unfold outside in E. apply negb_false_iff, bool_decide_eq_true in E. done.
  - intros id [?|Hb]%elem_of_app; [by apply tr_known0|]. destruct (tr_known1 id Hb) as (run & Hrun & <-).
    exists run. split; [|done]. rewrite tr_runs0 in Hrun. by apply elem_of_retain in Hrun as [? _].
Qed.

Lemma trims_keys dropped r r' : trims dropped r r' -> NoDup (dn_run_id <$> rg_runs r) -> NoDup (dn_run_id <$> rg_runs r').
Proof. intros [] Hn. rewrite tr_runs0. by apply NoDup_keys_retain. Qed.

Lemma remove_trims index run r : NoDup (dn_run_id <$> rg_runs r) -> rg_runs r !! index = Some run -> terminal_run run = true ->
  trims [dn_run_id run] r (remove_run_at index r).
Proof.
  intros Hn Hi Ht. unfold remove_run_at. rewrite Hi.
  assert (E : forall id, outside [dn_run_id run] id = negb (bool_decide (id = dn_run_id run))).
  { intros id. unfold outside. by rewrite (bool_decide_ext _ _ (list_elem_of_singleton id (dn_run_id run))). }
  constructor; cbn; try done.
  - rewrite (delete_retain dn_run_id _ _ _ Hn Hi). apply retain_ext. intros x _. by rewrite E.
  - apply retain_ext. intros x _. by rewrite E.
  - apply retain_ext. intros x _. by rewrite E.
  - intros x Hx ->%list_elem_of_singleton || intros x Hx Hid. apply list_elem_of_singleton in Hid.
    assert (x = run) as ->; [|done]. apply (keys_inj dn_run_id (rg_runs r)); try done. by eapply list_elem_of_lookup_2.
  - intros id ->%list_elem_of_singleton. exists run. split; [by eapply list_elem_of_lookup_2|done].
Qed.

Notation terminals r := (count terminal_run (rg_runs r)).

Lemma count_remove index run r : rg_runs r !! index = Some run -> terminal_run run = true ->
  terminals r = S (terminals (remove_run_at index r)).
Proof.
  intros Hi Ht. unfold remove_run_at. rewrite Hi. cbn [rg_runs].
  rewrite <- (take_drop_middle _ _ _ Hi) at 1. rewrite delete_take_drop, !count_app, count_cons, Ht. lia.
Qed.

Lemma remove_length index run r : rg_runs r !! index = Some run -> length (rg_runs r) = S (length (rg_runs (remove_run_at index r))).
Proof.
  intros Hi. unfold remove_run_at. rewrite Hi. cbn [rg_runs]. rewrite length_delete by done.
  apply lookup_lt_Some in Hi. lia.
Qed.

Lemma drop_terminal_spec over runs : NoDup (dn_run_id <$> runs) ->
  let '(kept, dropped) := drop_terminal over runs in
  kept = retain (fun run => outside dropped (dn_run_id run)) runs /\
  (forall run, run ∈ runs -> dn_run_id run ∈ dropped -> terminal_run run = true) /\
  (forall id, id ∈ dropped -> id ∈ dn_run_id <$> runs) /\
  count terminal_run kept = count terminal_run runs - over.
Proof.
  revert over. induction runs as [|run runs IH]; intros over; cbn [fmap list_fmap].
  { intros _. cbn. split_and!; [done|by intros ? ?%not_elem_of_nil|by intros ? ?%not_elem_of_nil|done]. }
  intros [Hx Hn]%list.NoDup_cons. cbn [drop_terminal]. destruct over as [|over].
  { split_and!; [|by intros ?? ?%not_elem_of_nil|by intros ? ?%not_elem_of_nil|lia].
    symmetry. apply retain_all. intros x _. apply outside_nil. }
  assert (Hfresh : forall dropped : list OperationId, (forall id, id ∈ dropped -> id ∈ dn_run_id <$> runs) -> dn_run_id run ∉ dropped)
    by (intros dropped H Hin; by apply Hx, H).
  assert (Hkeep : forall dropped : list OperationId, dn_run_id run ∉ dropped -> retain (fun r => outside dropped (dn_run_id r)) (run :: runs) =
            run :: retain (fun r => outside dropped (dn_run_id r)) runs).
  { intros dropped H. cbn. unfold outside at 1. by rewrite bool_decide_eq_false_2. }
  destruct (terminal_run run) eqn:Et.
  - specialize (IH over Hn). destruct (drop_terminal over runs) as [kept dropped]. destruct IH as (-> & Hterm & Hin & Hc).
    split_and!.
    + cbn. unfold outside at 2. rewrite bool_decide_eq_true_2 by left. cbn. apply retain_ext. intros x Hxin.
      unfold outside. f_equal. apply bool_decide_ext. split; [by right|]. intros [E|?]%elem_of_cons; [|done].
      exfalso. apply Hx. rewrite <- E. by apply list_elem_of_fmap_2.
    + intros x [->|Hxin]%elem_of_cons Hid; [done|]. apply elem_of_cons in Hid as [E|Hid]; [|by apply Hterm].
      exfalso. apply Hx. rewrite <- E. by apply list_elem_of_fmap_2.
    + intros id [->|Hid]%elem_of_cons; [left|right; by apply Hin].
    + rewrite count_cons, Et, Hc. lia.
  - specialize (IH (S over) Hn). destruct (drop_terminal (S over) runs) as [kept dropped]. destruct IH as (-> & Hterm & Hin & Hc).
    assert (Hf := Hfresh dropped Hin). split_and!.
    + by rewrite Hkeep.
    + intros x [->|Hxin]%elem_of_cons Hid; [by destruct Hf|by apply Hterm].
    + intros id Hid. right. by apply Hin.
    + rewrite !count_cons, Et, Hc. lia.
Qed.

Lemma count_bounded_spec retention r : NoDup (dn_run_id <$> rg_runs r) ->
  exists dropped, trims dropped r (retain_count_bounded retention r) /\
    terminals (retain_count_bounded retention r) = Nat.min retention (terminals r).
Proof.
  intros Hn. unfold retain_count_bounded. destruct (Nat.eqb_spec (terminals r - retention) 0) as [E|E].
  { exists []. split; [apply trims_refl|lia]. }
  assert (Hd := drop_terminal_spec (terminals r - retention) (rg_runs r) Hn).
  destruct (drop_terminal _ _) as [kept dropped]. destruct Hd as (-> & Ht & Hin & Hc). exists dropped.
  split; [|cbn [rg_runs]; lia]. constructor; try done. intros id (run & -> & Hrun)%Hin%list_elem_of_fmap. by exists run.
Qed.

(** A round of a loop that drops finished runs down to a floor. *)
Definition rounds (floor : nat) (r r' : Registry) : Prop :=
  exists dropped, trims dropped r r' /\ Nat.min floor (terminals r) <= terminals r' <= terminals r.

Lemma rounds_refl floor r : rounds floor r r.
Proof. exists []. split; [apply trims_refl|lia]. Qed.

Lemma rounds_trans floor r r1 r2 : rounds floor r r1 -> rounds floor r1 r2 -> rounds floor r r2.
Proof. intros (a & Ha & ?) (b & Hb & ?). exists (a ++ b). split; [by eapply trims_trans|lia]. Qed.

Lemma rounds_keys floor r r' : rounds floor r r' -> NoDup (dn_run_id <$> rg_runs r) -> NoDup (dn_run_id <$> rg_runs r').
Proof. intros (dropped & H & _). by apply (trims_keys dropped). Qed.

Lemma remove_rounds floor index run r : NoDup (dn_run_id <$> rg_runs r) -> floor < terminals r ->
  rg_runs r !! index = Some run -> terminal_run run = true -> rounds floor r (remove_run_at index r).
Proof.
  intros Hn Hf Hi Ht. exists [dn_run_id run]. split; [by apply remove_trims|].
  assert (E := count_remove index run r Hi Ht). lia.
Qed.

Lemma position_run p r index : position p (rg_runs r) = Some index -> exists run, rg_runs r !! index = Some run /\ p run = true.
Proof. intros (run & Hi & Hf)%position_find. exists run. split; [done|]. by apply find_first_Some in Hf as [_ ?]. Qed.

Lemma age_rounds_spec fuel cutoff floor r : NoDup (dn_run_id <$> rg_runs r) -> length (rg_runs r) <= fuel ->
  let r' := age_rounds fuel cutoff floor r in
  rounds floor r r' /\ (terminals r' <= floor \/ forall run, run ∈ rg_runs r' -> aged_terminal cutoff run = false).
Proof.
  revert r. induction fuel as [|fuel IH]; intros r Hn Hf; cbn [age_rounds].
  { split; [apply rounds_refl|]. right. destruct (rg_runs r); [by intros run ?%not_elem_of_nil|cbn in Hf; lia]. }
  destruct (Nat.leb_spec (terminals r) floor); [split; [apply rounds_refl|by left]|].
  destruct (position _ _) as [index|] eqn:Ep; [|split; [apply rounds_refl|right; by apply find_first_None, position_None]].
  apply position_run in Ep as (run & Hi & Ha). apply andb_true_iff in Ha as [Ht _].
  assert (Hr := remove_rounds floor index run r Hn ltac:(lia) Hi Ht). assert (El := remove_length index run r Hi).
  destruct (IH (remove_run_at index r)) as [Hr2 Hend]; [by eapply rounds_keys|lia|]. split; [by eapply rounds_trans|done].
Qed.

Section prepare_laws.
Context `{Z : DocumentSizes} `{K : ClockRange} (limits : DispatchStoreLimits).

Lemma shrink_eq fuel r : shrink limits fuel r =
  if (registry_len r <=? dl_registry_bytes limits)%N then Ok r
  else match drop_oldest_terminal_run (dl_run_replay_floor limits) r, fuel with
       | Some r, S fuel => shrink limits fuel r
       | _, _ => Err RegistryExhausted
       end.
Proof. by destruct fuel. Qed.

Lemma shrink_spec fuel r : NoDup (dn_run_id <$> rg_runs r) -> length (rg_runs r) <= fuel ->
  match shrink limits fuel r with
  | Ok r' => rounds (dl_run_replay_floor limits) r r' /\ (registry_len r' <= dl_registry_bytes limits)%N
  | Err e => e = RegistryExhausted /\ exists r', rounds (dl_run_replay_floor limits) r r' /\
               terminals r' <= dl_run_replay_floor limits /\ (dl_registry_bytes limits < registry_len r')%N
  end.
Proof.
  revert r. induction fuel as [|fuel IH]; intros r Hn Hf; rewrite shrink_eq;
    (destruct (N.leb_spec (registry_len r) (dl_registry_bytes limits)) as [Hl|Hl]; [split; [apply rounds_refl|done]|]);
    unfold drop_oldest_terminal_run;
    (destruct (Nat.leb_spec (terminals r) (dl_run_replay_floor limits)) as [Ht|Ht];
      [split; [done|]; exists r; split_and!; [apply rounds_refl|done|done]|]).
  - destruct (rg_runs r) as [|x l] eqn:E; [|cbn in Hf; lia]. unfold count in Ht. cbn in Ht. lia.
  - destruct (position terminal_run (rg_runs r)) as [index|] eqn:Ep.
    2: { apply position_None in Ep. assert (E0 : terminals r = 0) by (apply count_zero; by apply find_first_None). lia. }
    apply position_run in Ep as (run & Hi & Hterm).
    assert (Hr := remove_rounds (dl_run_replay_floor limits) index run r Hn ltac:(lia) Hi Hterm).
    assert (El := remove_length index run r Hi).
    specialize (IH (remove_run_at index r) (rounds_keys _ _ _ Hr Hn) ltac:(lia)).
    destruct (shrink limits fuel _) as [r'|e].
    + destruct IH as [Hr' ?]. split; [by eapply rounds_trans|done].
    + destruct IH as (-> & r' & Hr' & ?). split; [done|]. exists r'. split; [by eapply rounds_trans|done].
Qed.

(** What a write of the registry stores. *)
Lemma prepare_ok now r r' : NoDup (dn_run_id <$> rg_runs r) -> prepare_registry limits now r = Ok r' ->
  exists dropped, trims dropped r r' /\ (registry_len r' <= dl_registry_bytes limits)%N /\
    terminals r' <= dl_run_retention limits /\
    Nat.min (Nat.min (dl_run_retention limits) (dl_run_replay_floor limits)) (terminals r) <= terminals r'.
Proof.
  intros Hn. unfold prepare_registry. destruct (count_bounded_spec (dl_run_retention limits) r Hn) as (a & Ha & Ec).
  destruct (checked_sub_seconds _ _) as [cutoff|]; [|done]. cbn [ok_or res_bind].
  set (r1 := retain_count_bounded _ r) in *.
  destruct (age_rounds_spec (length (rg_runs r1)) cutoff (dl_run_replay_floor limits) r1) as [(b & Hb & Hcb) _];
    [by eapply trims_keys|done|]. fold (retain_age_bounded cutoff (dl_run_replay_floor limits) r1) in *.
  set (r2 := retain_age_bounded _ _ r1) in *. intros E.
  assert (Hs := shrink_spec (length (rg_runs r2)) r2). rewrite E in Hs.
  destruct Hs as [(c & Hc & Hcc) Hl]; [eapply trims_keys; [exact Hb|by eapply trims_keys]|done|].
  exists (a ++ b ++ c). split_and!; [|done|lia|lia]. eapply trims_trans; [done|]. by eapply trims_trans.
Qed.

Lemma prepare_err now r e : NoDup (dn_run_id <$> rg_runs r) -> prepare_registry limits now r = Err e ->
  e = ClockOutOfRange \/
  e = RegistryExhausted /\ exists dropped r', trims dropped r r' /\
    terminals r' <= dl_run_replay_floor limits /\ (dl_registry_bytes limits < registry_len r')%N.
Proof.
  intros Hn. unfold prepare_registry. destruct (count_bounded_spec (dl_run_retention limits) r Hn) as (a & Ha & Ec).
  destruct (checked_sub_seconds _ _) as [cutoff|]; cbn [ok_or res_bind]; [|intros [= <-]; by left].
  set (r1 := retain_count_bounded _ r) in *.
  destruct (age_rounds_spec (length (rg_runs r1)) cutoff (dl_run_replay_floor limits) r1) as [(b & Hb & Hcb) _];
    [by eapply trims_keys|done|]. fold (retain_age_bounded cutoff (dl_run_replay_floor limits) r1) in *.
  set (r2 := retain_age_bounded _ _ r1) in *. intros E.
  assert (Hs := shrink_spec (length (rg_runs r2)) r2). rewrite E in Hs.
  destruct Hs as (-> & r' & (c & Hc & _) & Ht & Hl); [eapply trims_keys; [exact Hb|by eapply trims_keys]|done|].
  right. split; [done|]. exists (a ++ b ++ c), r'. split_and!; [|done|done]. eapply trims_trans; [done|]. by eapply trims_trans.
Qed.
End prepare_laws.

(** ** The invariant of the dispatch store

    [sound f]: the documents agree with each other.  [advance ended touched]:
    what an operation may do to work in flight.  Both hold of every operation,
    whichever of its writes are refused. *)
Definition reg (f : DispatchFiles) : Registry := match df_registry f with Document r => r | _ => Registry_default end.
Definition wsp (f : DispatchFiles) : WorkspaceRegistry :=
  match df_workspaces f with Document w => w | _ => WorkspaceRegistry_default end.

Definition slot_of (p : WorkspacePrompt) : WorkspaceId * option SessionId := (wp_workspace_id p, wp_session_id p).
Definition lineage_key (l : SessionLineage) : WorkspaceId * SessionId := (li_workspace l, li_session l).

(** The documents agree. *)
Record agree (r : Registry) (w : WorkspaceRegistry) : Prop := {
  ag_runs : NoDup (dn_run_id <$> rg_runs r);
  ag_agents : NoDup (ag_agent_id <$> rg_agents r);
  ag_admissions : NoDup (ad_operation_id <$> rg_admissions r);
  ag_admitted : forall a, a ∈ rg_admissions r -> ad_operation_id a ∈ dn_run_id <$> rg_runs r;
  ag_legacy : NoDup (qp_session_id <$> rg_prompts r);
  ag_slots : NoDup (slot_of <$> wr_prompts w);
  ag_lineages : NoDup (lineage_key <$> wr_lineages w);
  ag_parents : forall l, l ∈ wr_lineages w -> li_parent l <> Some (li_session l);
  ag_reservations : NoDup (de_operation <$> wr_delegation_reservations w)
}.

Definition all_ids : OperationId -> bool := fun _ => true.
Definition no_ids : OperationId -> bool := fun _ => false.
Definition only (id : OperationId) : OperationId -> bool := fun x => bool_decide (x = id).

(** An agent that has an owner, or that was on record before. *)
Definition accounted_agent (r : Registry) (w' : WorkspaceRegistry) (a : Agent) : Prop :=
  is_Some (owner_of w' (ag_agent_id a)) \/ ag_agent_id a ∈ ag_agent_id <$> rg_agents r.

Lemma listed_accounted r w' a : a ∈ rg_agents r -> accounted_agent r w' a.
Proof. intros Ha. right. by apply list_elem_of_fmap_2. Qed.
#[export] Hint Resolve listed_accounted : usagi.

(** From [(r, w)] to [(r', w')]: owners and lineages stay, and an agent that
    comes on record has an owner; a live run that is not
    touched stays as it is, and one that is not ended stays live, with its
    admission and its bindings. *)
Record advance (ended touched : OperationId -> bool) (r : Registry) (w : WorkspaceRegistry) (r' : Registry) (w' : WorkspaceRegistry) : Prop := {
  ad_owners : forall a o, owner_of w a = Some o -> owner_of w' a = Some o;
  ad_lineages : forall l, l ∈ wr_lineages w -> l ∈ wr_lineages w';
  ad_same : forall run, run ∈ rg_runs r -> live_run run = true -> touched (dn_run_id run) = false -> run ∈ rg_runs r';
  ad_live : forall run, run ∈ rg_runs r -> live_run run = true -> ended (dn_run_id run) = false ->
    exists run', run' ∈ rg_runs r' /\ dn_run_id run' = dn_run_id run /\ live_run run' = true;
  ad_proofs : forall run a, run ∈ rg_runs r -> live_run run = true -> ended (dn_run_id run) = false ->
    a ∈ rg_admissions r -> ad_operation_id a = dn_run_id run -> a ∈ rg_admissions r';
  ad_bound : forall run b, run ∈ rg_runs r -> live_run run = true -> ended (dn_run_id run) = false ->
    touched (dn_run_id run) = false -> b ∈ rg_bindings r -> bd_run_id b = dn_run_id run -> b ∈ rg_bindings r';
  ad_agents : forall a, a ∈ rg_agents r' -> accounted_agent r w' a
}.

Lemma advance_refl e t r w : advance e t r w r w.
Proof. constructor; try done; [intros run Hr Hl _; by exists run|auto with usagi]. Qed.

Lemma advance_weaken (e e' t t' : OperationId -> bool) r w r' w' : (forall id, e id = true -> e' id = true) -> (forall id, t id = true -> t' id = true) ->
  advance e t r w r' w' -> advance e' t' r w r' w'.
Proof.
  intros He Ht [].
  assert (He' : forall id, e' id = false -> e id = false) by (intros id H; apply not_true_iff_false; intros ?%He; congruence).
  assert (Ht' : forall id, t' id = false -> t id = false) by (intros id H; apply not_true_iff_false; intros ?%Ht; congruence).
  constructor; eauto.
Qed.

Definition either (a b : OperationId -> bool) : OperationId -> bool := fun id => a id || b id.

Lemma advance_trans e1 t1 e2 t2 r w r1 w1 r2 w2 : agree r1 w1 ->
  advance e1 t1 r w r1 w1 -> advance e2 t2 r1 w1 r2 w2 -> advance (either e1 e2) (either t1 t2) r w r2 w2.
Proof.
  intros Hg H1 H2. assert (Hf : forall a b id, either a b id = false -> a id = false /\ b id = false) by (intros a b id; apply orb_false_iff).
  destruct H1, H2. constructor.
  - eauto.
  - eauto.
  - intros run Hr Hl [? ?]%Hf. by apply ad_same1; [apply ad_same0|..].
  - intros run Hr Hl [He1 He2]%Hf. destruct (ad_live0 run Hr Hl He1) as (run1 & Hr1 & Hid & Hl1).
    rewrite <- Hid in He2 |- *. by apply ad_live1.
  - intros run a Hr Hl [He1 He2]%Hf Ha Hid. destruct (ad_live0 run Hr Hl He1) as (run1 & Hr1 & Hid1 & Hl1).
    rewrite <- Hid1 in He2. apply (ad_proofs1 run1); try done; [by apply (ad_proofs0 run)|congruence].
  - intros run b Hr Hl [He1 He2]%Hf [Ht1 Ht2]%Hf Hb Hid. apply (ad_bound1 run); try done; [by apply ad_same0|].
    by apply (ad_bound0 run).
  - intros a Ha. destruct (ad_agents1 a Ha) as [?|(a1 & E & Ha1)%list_elem_of_fmap]; [by left|].
    unfold accounted_agent. rewrite E. destruct (ad_agents0 a1 Ha1) as [[o Ho]|?]; [left; exists o; auto|by right].
Qed.

(** ** Trimming *)
Lemma agree_trim dropped r r' w : agree r w -> trims dropped r r' -> agree r' w.
Proof.
  intros [] []. constructor; try done.
  - rewrite tr_runs0. by apply NoDup_keys_retain.
  - by rewrite tr_agents0.
  - rewrite tr_admissions0. by apply NoDup_keys_retain.
  - intros a Ha. rewrite tr_admissions0 in Ha. apply elem_of_retain in Ha as [Ha Ho].
    destruct (proj1 (list_elem_of_fmap _ _ _) (ag_admitted0 a Ha)) as (run & E & Hrun). apply list_elem_of_fmap.
    exists run. split; [done|]. rewrite tr_runs0. apply elem_of_retain. split; [done|]. by rewrite <- E.
  - by rewrite tr_prompts0.
Qed.

Lemma trim_outside dropped r r' run : trims dropped r r' -> run ∈ rg_runs r -> live_run run = true -> outside dropped (dn_run_id run) = true.
Proof.
  intros [] Hr Hl. unfold outside. apply negb_true_iff, bool_decide_eq_false. intros Hin.
  apply tr_terminal0 in Hin; [|done]. unfold live_run, terminal_run in *. by destruct (dn_status run).
Qed.

Lemma advance_trim dropped e t r w r1 w1 r' : advance e t r w r1 w1 -> trims dropped r1 r' -> advance e t r w r' w1.
Proof.
  intros [] H. assert (Hout := trim_outside dropped r1 r'). destruct H.
  assert (Hstay : forall run, run ∈ rg_runs r1 -> live_run run = true -> run ∈ rg_runs r').
  { intros run Hr Hl. rewrite tr_runs0. apply elem_of_retain. split; [done|]. by apply (Hout run). }
  constructor; try done.
  - intros run Hr Hl Ht. apply Hstay; [by apply ad_same0|done].
  - intros run Hr Hl He. destruct (ad_live0 run Hr Hl He) as (run' & ? & ? & ?). exists run'. split; [by apply Hstay|done].
  - intros run a Hr Hl He Ha Hid. rewrite tr_admissions0. apply elem_of_retain. split; [by apply (ad_proofs0 run)|].
    destruct (ad_live0 run Hr Hl He) as (run' & Hr' & Hid' & Hl'). rewrite Hid, <- Hid'. by apply (Hout run').
  - intros run b Hr Hl He Ht Hb Hid. rewrite tr_bindings0. apply elem_of_retain. split; [by apply (ad_bound0 run)|].
    destruct (ad_live0 run Hr Hl He) as (run' & Hr' & Hid' & Hl'). rewrite Hid, <- Hid'. by apply (Hout run').
  - rewrite tr_agents0. done.
Qed.

(** ** Writing *)
Section writing.
Context `{Z : DocumentSizes} `{K : ClockRange} (limits : DispatchStoreLimits).

Record sound (f : DispatchFiles) : Prop := {
  so_readable : df_registry f <> Broken /\ df_workspaces f <> Broken;
  so_size : forall r, df_registry f = Document r ->
    (registry_len r <= dl_registry_bytes limits)%N /\ terminals r <= dl_run_retention limits;
  so_agree : agree (reg f) (wsp f)
}.

(** The state an operation leaves. *)
Definition stepped (e t : OperationId -> bool) (f f' : DispatchFiles) : Prop :=
  sound f' /\ advance e t (reg f) (wsp f) (reg f') (wsp f').

Lemma stepped_refl e t f : sound f -> stepped e t f f.
Proof. intros H. split; [done|apply advance_refl]. Qed.

Lemma load_registry_ok f : sound f -> load_registry limits f = (Ok (reg f), f).
Proof.
  intros [[Hb _] Hs _]. unfold load_registry, st_bind, st_get, st_lift, load, reg. destruct (df_registry f) as [| |r] eqn:E; try done.
  destruct (Hs r eq_refl) as [Hl _]. by rewrite (proj2 (N.leb_le _ _) Hl).
Qed.

Lemma load_workspaces_fit f : sound f -> (workspace_registry_len (wsp f) <= dl_workspace_registry_bytes limits)%N ->
  load_workspace_registry limits f = (Ok (wsp f), f).
Proof.
  intros [[_ Hb] _ _]. unfold load_workspace_registry, st_bind, st_get, st_lift, load, wsp.
  destruct (df_workspaces f) as [| |w]; [done|done|]. intros Hl. by rewrite (proj2 (N.leb_le _ _) Hl).
Qed.

Lemma load_workspaces_cases f : sound f ->
  load_workspace_registry limits f = (Ok (wsp f), f) \/ load_workspace_registry limits f = (Err WorkspaceRegistryOverBytes, f).
Proof.
  intros [[_ Hb] _ _]. unfold load_workspace_registry, st_bind, st_get, st_lift, load, wsp.
  destruct (df_workspaces f) as [| |w]; [by left|done|]. destruct (_ <=? _)%N; [by left|by right].
Qed.

Lemma post_registry {A} (k : Registry -> dis A) (Q : _ -> _ -> Prop) f :
  sound f -> post (k (reg f)) Q f -> post (st_bind (load_registry limits) k) Q f.
Proof. intros Hs H. apply post_bind. unfold post at 1. by rewrite load_registry_ok. Qed.

Lemma post_workspaces {A} (k : WorkspaceRegistry -> dis A) (Q : _ -> _ -> Prop) f :
  sound f -> post (k (wsp f)) Q f -> Q (Err WorkspaceRegistryOverBytes) f -> post (st_bind (load_workspace_registry limits) k) Q f.
Proof. intros Hs H He. apply post_bind. unfold post at 1. by destruct (load_workspaces_cases f Hs) as [-> | ->]. Qed.

(** Files that differ in the answers of the disk only. *)
Definition same_documents (f f' : DispatchFiles) : Prop :=
  df_registry f' = df_registry f /\ df_workspaces f' = df_workspaces f.

Lemma sound_same f f' : same_documents f f' -> sound f -> sound f'.
Proof. intros [Er Ew] []. constructor; rewrite ?Er, ?Ew; try done. unfold reg, wsp. by rewrite Er, Ew. Qed.

Lemma stepped_same e t f f' : same_documents f f' -> sound f -> stepped e t f f'.
Proof.
  intros Hd Hs. split; [by eapply sound_same|]. destruct Hd as [Er Ew]. unfold reg, wsp. rewrite Er, Ew. apply advance_refl.
Qed.

Lemma write_post (write : DispatchFiles -> DispatchFiles) (Q : _ -> _ -> Prop) f :
  (forall f0, same_documents f f0 -> Q (Ok tt) (write f0)) -> (forall f0, same_documents f f0 -> Q (Err WriteFailed) f0) ->
  post (write_document write) Q f.
Proof. intros Hok He. unfold post, write_document. destruct (df_io f) as [|[] rest]; [by apply Hok|by apply Hok|by apply He]. Qed.

(** A change of the sidecar alone. *)
Definition put_sidecar (w' : WorkspaceRegistry) (f : DispatchFiles) (a : result DispatchError unit) (f' : DispatchFiles) : Prop :=
  match a with Ok _ => reg f' = reg f /\ wsp f' = w' | Err _ => same_documents f f' end.

Lemma put_workspaces_stepped e t w' f : sound f -> agree (reg f) w' -> advance e t (reg f) (wsp f) (reg f) w' ->
  post (put_workspace_registry w') (fun a f' => stepped e t f f' /\ put_sidecar w' f a f') f.
Proof.
  intros Hs Hg Ha. apply write_post; intros f0 [Er Ew]; [|by split; [apply stepped_same|]].
  assert (E : reg (MkDispatchFiles (df_registry f0) (Document w') (df_io f0)) = reg f) by (unfold reg; cbn; by rewrite Er).
  split; [|by split]. split; [|by rewrite E].
  destruct Hs. constructor; [split; [cbn; rewrite Er; apply so_readable0|done]|cbn; rewrite Er; done|by rewrite E].
Qed.

Lemma write_workspaces_stepped e t w' f : sound f -> agree (reg f) w' -> advance e t (reg f) (wsp f) (reg f) w' ->
  post (write_workspace_registry limits w') (fun a f' => stepped e t f f' /\ put_sidecar w' f a f') f.
Proof. intros Hs Hg Ha. apply post_ensure; intros _; [by apply put_workspaces_stepped|by split; [apply stepped_refl|]]. Qed.

(** A change of the registry alone, after retention. *)
Definition put_main (r' : Registry) (f : DispatchFiles) (a : result DispatchError unit) (f' : DispatchFiles) : Prop :=
  match a with Ok _ => wsp f' = wsp f /\ exists dropped, trims dropped r' (reg f') | Err _ => same_documents f f' end.

Lemma write_registry_stepped e t now r' f : sound f -> agree r' (wsp f) -> advance e t (reg f) (wsp f) r' (wsp f) ->
  post (write_registry limits now r') (fun a f' => stepped e t f f' /\ put_main r' f a f') f.
Proof.
  intros Hs Hg Ha. apply post_lift. destruct (prepare_registry limits now r') as [r''|err] eqn:E; [|by split; [apply stepped_refl|]].
  destruct (prepare_ok limits now r' r'' (ag_runs _ _ Hg) E) as (dropped & Ht & Hl & Hc & _).
  apply write_post; intros f0 [Er Ew]; [|by split; [apply stepped_same|]].
  assert (Ew' : wsp (MkDispatchFiles (Document r'') (df_workspaces f0) (df_io f0)) = wsp f) by (unfold wsp; cbn; by rewrite Ew).
  split; [|by split; [|exists dropped]]. split; [|rewrite Ew'; by eapply advance_trim].
  destruct Hs. constructor; [split; [done|cbn; rewrite Ew; apply so_readable0]|by intros r [= <-]|].
  rewrite Ew'. by eapply agree_trim.
Qed.

(** Ownership first, then the registry; either write may be refused. *)
Lemma publish_stepped e t now w' r' f : sound f -> agree (reg f) w' -> agree r' w' ->
  advance e t (reg f) (wsp f) (reg f) w' -> advance e t (reg f) (wsp f) r' w' ->
  post (publish_both limits now w' r') (fun a f' => stepped e t f f' /\
    (a = Ok tt -> wsp f' = w' /\ exists dropped, trims dropped r' (reg f'))) f.
Proof.
  intros Hs Hg1 Hg2 Ha1 Ha2. assert (Hsame := stepped_refl e t f Hs). apply post_lift.
  destruct (prepare_registry limits now r') as [r''|err] eqn:E; [|by split].
  destruct (prepare_ok limits now r' r'' (ag_runs _ _ Hg2) E) as (dropped & Ht & Hl & Hc & _).
  apply post_ensure; intros _; [|by split].
  apply post_bind. eapply post_mono.
  { apply post_ensure; [intros _|intros _; by instantiate (1 := fun a f1 => match a with
      | Ok _ => df_registry f1 = df_registry f /\ df_workspaces f1 = Document w'
      | Err _ => stepped e t f f1 end)].
    apply write_post; intros f0 [Er Ew]; [by split|by apply stepped_same]. }
  intros [[]|err] f1; [|by intros H; split]. intros [Er Ew]. apply write_post; intros f0 [Er0 Ew0].
  - split.
    + split.
      * destruct Hs. constructor; cbn; [split; [done|congruence]|by intros r [= <-]|].
        unfold reg, wsp. cbn. rewrite Ew0, Ew. by eapply agree_trim.
      * unfold reg at 2, wsp at 2. cbn. rewrite Ew0, Ew. by eapply advance_trim.
    + intros _. unfold wsp, reg. cbn. rewrite Ew0, Ew. split; [done|by exists dropped].
  - split; [|done]. split.
    + destruct Hs. constructor; [split; [rewrite Er0, Er; apply so_readable0|congruence]|rewrite Er0, Er; done|].
      unfold reg, wsp. by rewrite Er0, Er, Ew0, Ew.
    + unfold reg at 2, wsp at 2. by rewrite Er0, Er, Ew0, Ew.
Qed.
End writing.
