(* ===== verification/DispatchOps.v ===== *)
(** * The operations of the dispatch store keep its invariant

    One lemma per operation: from sound documents, whatever the disk answers, it
    leaves sound documents and does to work in flight what it says and no more. *)
From S2P Require Export DispatchLaws.

(** ** Changes of the registry *)
Lemma updated_elem {A} (p : A -> bool) f l x : x ∈ l -> p x = false -> x ∈ update_first p f l.
Proof. intros Hx Hp. induction Hx as [x l|x y l Hx IH]; cbn; [rewrite Hp; left|destruct (p y); right; auto]. Qed.

Lemma updated_first {A} (p : A -> bool) f l x : find_first p l = Some x -> f x ∈ update_first p f l.
Proof. induction l as [|y l IH]; [done|]. cbn. destruct (p y); [intros [= ->]; left|right; auto]. Qed.

Lemma keys_update_first {A B} (key : A -> B) p f l : (forall x, p x = true -> key (f x) = key x) ->
  key <$> update_first p f l = key <$> l.
Proof. intros Hf. induction l as [|x l IH]; [done|]. cbn. destruct (p x) eqn:E; cbn; [by rewrite Hf|by rewrite IH]. Qed.

Lemma agree_runs runs r w : agree r w -> NoDup (dn_run_id <$> runs) ->
  (forall id, id ∈ dn_run_id <$> rg_runs r -> id ∈ dn_run_id <$> runs) -> agree (set_rg_runs runs r) w.
Proof. intros [] Hn Hi. constructor; cbn; auto. Qed.

Lemma agree_run p g r w : (forall run, dn_run_id (g run) = dn_run_id run) -> agree r w ->
  agree (set_rg_runs (update_first p g (rg_runs r)) r) w.
Proof. intros Hg H. apply agree_runs; rewrite ?keys_update_first by auto; [done|apply H|done]. Qed.

Lemma agree_agents agents r w : agree r w -> NoDup (ag_agent_id <$> agents) -> agree (set_rg_agents agents r) w.
Proof. intros [] Hn. constructor; cbn; auto. Qed.

Lemma agree_agent p g r w : (forall a, ag_agent_id (g a) = ag_agent_id a) -> agree r w ->
  agree (set_rg_agents (update_first p g (rg_agents r)) r) w.
Proof.
  intros Hg H. apply agree_agents; [done|rewrite keys_update_first by auto; apply H].
Qed.

Lemma agree_bindings bindings r w : agree r w -> agree (set_rg_bindings bindings r) w.
Proof. by intros []. Qed.
Lemma agree_prompts p r w : agree r w -> agree (set_rg_prompts (remove_first p (rg_prompts r)) r) w.
Proof. intros []. constructor; cbn; auto. by apply keys_remove. Qed.

Lemma advance_agents e t agents r w r' w' : advance e t r w r' w' ->
  (forall a, a ∈ agents -> accounted_agent r w' a) -> advance e t r w (set_rg_agents agents r') w'.
Proof. by intros [] Ha. Qed.
Lemma advance_agent e t p g r w r' w' : (forall a, ag_agent_id (g a) = ag_agent_id a) -> advance e t r w r' w' ->
  advance e t r w (set_rg_agents (update_first p g (rg_agents r')) r') w'.
Proof.
  intros Hg H. apply advance_agents; [done|]. intros a [Ha|(a0 & Ha & ->)]%elem_of_update_first; [by apply (ad_agents _ _ _ _ _ _ H)|].
  apply find_first_Some in Ha as [Ha _]. unfold accounted_agent. rewrite Hg. by apply (ad_agents _ _ _ _ _ _ H).
Qed.
Lemma advance_prompts e t prompts r w r' w' : advance e t r w r' w' -> advance e t r w (set_rg_prompts prompts r') w'.
Proof. by intros []. Qed.

Lemma only_other id x : only id x = false <-> x <> id.
Proof. unfold only. apply bool_decide_eq_false. Qed.

(** One run changes. *)
Lemma advance_run e p id g r w : agree r w -> (forall run, p run = true -> dn_run_id run = id) ->
  (forall run, dn_run_id (g run) = dn_run_id run) ->
  (e id = false -> forall run, live_run run = true -> live_run (g run) = true) ->
  advance e (only id) r w (set_rg_runs (update_first p g (rg_runs r)) r) w.
Proof.
  intros Hg Hp Hid Hl. assert (Hn := ag_runs _ _ Hg).
  constructor; cbn; try done.
  - intros run Hr _ Hne%only_other. apply updated_elem; [done|]. apply not_true_iff_false. by intros ?%Hp.
  - intros run Hr Hlive He. destruct (p run) eqn:Ep; [|exists run; split; [by apply updated_elem|done]].
    assert (E := Hp _ Ep). destruct (find_first p (rg_runs r)) as [y|] eqn:Ef.
    2: { apply (proj1 (find_first_None _ _)) with (x := run) in Ef; [congruence|done]. }
    assert (y = run) as ->.
    { apply find_first_Some in Ef as [Hy Ey]. apply (keys_inj dn_run_id (rg_runs r)); try done. by rewrite E, (Hp _ Ey). }
    exists (g run). split; [by apply updated_first|]. split; [done|]. apply Hl; [by rewrite <- E|done].
  - auto with usagi.
Qed.

Lemma is_run_id id run : is_run id run = true -> dn_run_id run = id.
Proof. apply bool_decide_eq_true. Qed.

(** ** Changes of the sidecar *)
Lemma advance_side e t r w w' : (forall a o, owner_of w a = Some o -> owner_of w' a = Some o) ->
  (forall l, l ∈ wr_lineages w -> l ∈ wr_lineages w') -> advance e t r w r w'.
Proof. intros Ho Hl. constructor; try done; [intros run Hr Hlive _; by exists run|auto with usagi]. Qed.

Lemma claim_owner a o w x : owner_of (claim a o w) x = if decide (x = a) then Some o else owner_of w x.
Proof. unfold owner_of, claim. cbn. destruct (decide (x = a)) as [->|]; [apply lookup_insert_eq|by apply lookup_insert_ne]. Qed.

Lemma claim_keeps a o w : claimable w o a = true -> forall x p, owner_of w x = Some p -> owner_of (claim a o w) x = Some p.
Proof.
  unfold claimable. intros Hc x p Hx. rewrite claim_owner. destruct (decide (x = a)) as [->|]; [|done].
  rewrite Hx in Hc. by apply bool_decide_eq_true in Hc as ->.
Qed.

Lemma agree_claim a o r w : agree r w -> agree r (claim a o w).
Proof.
  by intros [].
Qed.

Lemma advance_claim e t a o r w : claimable w o a = true -> advance e t r w r (claim a o w).
Proof. intros Hc. apply advance_side; [by apply claim_keeps|done]. Qed.

Lemma in_slot_key workspace session p : in_slot workspace session p = bool_decide (slot_of p = (workspace, session)).
Proof.
  unfold in_slot, slot_of. apply eq_true_iff_eq. rewrite andb_true_iff, !bool_decide_eq_true. split; [by intros [-> ->]|by intros [= -> ->]].
Qed.

Lemma update_first_ext {A} (p q : A -> bool) f l : (forall x, p x = q x) -> update_first p f l = update_first q f l.
Proof. intros E. induction l as [|x l IH]; [done|]. cbn. by rewrite E, IH. Qed.

Lemma upsert_ext {A} (p q : A -> bool) x l : (forall y, p y = q y) -> upsert p x l = upsert q x l.
Proof.
  intros E. unfold upsert. rewrite (update_first_ext p q) by done. replace (any p l) with (any q l); [done|].
  apply eq_true_iff_eq. rewrite !any_true. by setoid_rewrite E.
Qed.

Lemma agree_queue p r w : agree r w ->
  agree r (set_wr_prompts (upsert (in_slot (wp_workspace_id p) (wp_session_id p)) p (wr_prompts w)) w).
Proof.
  intros []. constructor; cbn; try done.
  rewrite (upsert_ext _ (fun x => bool_decide (slot_of x = slot_of p))) by (intros y; apply in_slot_key). by apply keys_upsert.
Qed.

Lemma agree_unqueue q r w : agree r w -> agree r (set_wr_prompts (remove_first q (wr_prompts w)) w).
Proof. intros []. constructor; cbn; try done. by apply keys_remove. Qed.

Lemma agree_reservations l r w : agree r w -> NoDup (de_operation <$> l) -> agree r (set_wr_delegation_reservations l w).
Proof. by intros [] ?. Qed.

Lemma advance_wr_prompts e t l r w : advance e t r w r (set_wr_prompts l w).
Proof. by apply advance_side. Qed.
Lemma advance_reservations e t l r w : advance e t r w r (set_wr_delegation_reservations l w).
Proof. by apply advance_side. Qed.

Lemma lineage_recorded r w workspace session parent w' : agree r w -> record_lineage w workspace session parent = Ok w' ->
  agree r w' /\ forall e t, advance e t r w r w'.
Proof.
  intros Hg. unfold record_lineage. case_bool_decide as Hself; [intros [= <-]; split; [done|intros; apply advance_refl]|].
  destruct (find_first _ _) as [l|] eqn:E; [case_bool_decide; intros [= <-]; split; [done|intros; apply advance_refl]|].
  intros [= <-]. split; [|intros e t; apply advance_side; [done|intros l Hl; cbn; apply elem_of_app; by left]].
  destruct Hg. constructor; cbn; try done.
  - rewrite fmap_app. apply NoDup_app. split_and!; [done| |apply NoDup_singleton].
    intros k (l & -> & Hl)%list_elem_of_fmap Hk. apply list_elem_of_singleton in Hk.
    apply (proj1 (find_first_None _ _)) with (x := l) in E; [|done]. unfold lineage_of in E. injection Hk as E1 E2.
    rewrite E1, E2, !bool_decide_eq_true_2 in E by done. done.
  - intros l [Hl|Hl]%elem_of_app; [by apply ag_parents|]. apply list_elem_of_singleton in Hl as ->. cbn. congruence.
Qed.

(** ** Operations *)
Section operations.
Context `{Z : DocumentSizes} `{K : ClockRange} (limits : DispatchStoreLimits).
Notation sound := (sound limits).
Notation stepped := (stepped limits).

(** What every operation is shown to do. *)
Definition steps {A} (e t : OperationId -> bool) (f : DispatchFiles) (call : dis A) : Prop :=
  post call (fun _ => stepped e t f) f.

Lemma steps_ret {A} e t f (a : A) : sound f -> steps e t f (st_ret a).
Proof. intros Hs. by apply post_ret, stepped_refl. Qed.

Lemma steps_registry {A} e t f (k : Registry -> dis A) : sound f -> steps e t f (k (reg f)) -> steps e t f (st_bind (load_registry limits) k).
Proof. intros Hs H. by apply (post_registry limits). Qed.

Lemma steps_workspaces {A} e t f (k : WorkspaceRegistry -> dis A) : sound f -> steps e t f (k (wsp f)) ->
  steps e t f (st_bind (load_workspace_registry limits) k).
Proof. intros Hs H. apply (post_workspaces limits); [done|done|by apply stepped_refl]. Qed.

Lemma steps_ensure {A} e t f b err (k : dis A) : sound f -> (b = true -> steps e t f k) -> steps e t f (st_bind (st_ensure b err) (fun _ => k)).
Proof. intros Hs H. apply post_ensure; [done|intros _; by apply stepped_refl]. Qed.

Lemma steps_lift {A B} e t f (r : result DispatchError A) (k : A -> dis B) : sound f ->
  (forall a, r = Ok a -> steps e t f (k a)) -> steps e t f (st_bind (st_lift r) k).
Proof. intros Hs H. apply post_lift. destruct r; [by apply H|by apply stepped_refl]. Qed.

(** The last write of an operation, and the answer. *)
Lemma steps_last {A B} e t f (call : dis A) (b : A -> B) : steps e t f call -> steps e t f (st_bind call (fun a => st_ret (b a))).
Proof. intros H. apply post_bind. apply (post_mono _ (fun _ => stepped e t f)); [exact H|]. by intros [a|err] f' Hf. Qed.

Lemma steps_publish e t f now w' r' : sound f -> agree (reg f) w' -> agree r' w' ->
  advance e t (reg f) (wsp f) (reg f) w' -> advance e t (reg f) (wsp f) r' w' -> steps e t f (publish_both limits now w' r').
Proof. intros. eapply post_mono; [by apply publish_stepped|]. by intros a f' [? _]. Qed.

Lemma steps_outcome {A} e t f (call : dis A) (P : result DispatchError A -> DispatchFiles -> Prop) :
  post call (fun a f' => stepped e t f f' /\ P a f') f -> steps e t f call.
Proof. intros H. eapply post_mono; [exact H|]. by intros a f' [? _]. Qed.

Lemma steps_write e t f now r' : sound f -> agree r' (wsp f) -> advance e t (reg f) (wsp f) r' (wsp f) ->
  steps e t f (write_registry limits now r').
Proof. intros. by eapply steps_outcome, write_registry_stepped. Qed.

Lemma steps_sidecar e t f w' : sound f -> agree (reg f) w' -> advance e t (reg f) (wsp f) (reg f) w' ->
  steps e t f (write_workspace_registry limits w').
Proof. intros. by eapply steps_outcome, write_workspaces_stepped. Qed.

Lemma steps_mutate {T} e t f now (mutate : Registry -> T * Registry) : sound f ->
  agree (mutate (reg f)).2 (wsp f) -> advance e t (reg f) (wsp f) (mutate (reg f)).2 (wsp f) ->
  steps e t f (mutate_registry limits now mutate).
Proof.
  intros Hs Hg Ha. apply steps_registry; [done|]. destruct (mutate (reg f)) as [x r'].
  apply (steps_last e t f _ (fun _ => x)). by apply steps_write.
Qed.

(** A call that touches nothing, and what follows it. *)
Lemma steps_then {A B} e t f (call : dis A) (k : A -> dis B) (P : result DispatchError A -> DispatchFiles -> Prop) :
  sound f -> post call (fun a f' => stepped no_ids no_ids f f' /\ P a f') f ->
  (forall x f', stepped no_ids no_ids f f' -> P (Ok x) f' -> steps e t f' (k x)) ->
  steps e t f (st_bind call k).
Proof.
  intros Hs H Hk. apply post_bind. eapply post_mono; [exact H|]. intros [x|err] f' [[Hs' Ha] HP].
  - apply (post_mono _ (fun _ => stepped e t f')); [by apply Hk|]. intros _ f'' [Hs'' Ha'']. split; [done|].
    eapply advance_weaken; [| |eapply advance_trans; [apply Hs'|exact Ha|exact Ha'']]; intros id; unfold either, no_ids; cbn; auto.
  - split; [done|]. eapply advance_weaken; [| |exact Ha]; done.
Qed.

(** *** Prompts *)
Lemma legacy_stepped now session f : sound f ->
  let r' := set_rg_prompts (remove_first (legacy_slot session) (rg_prompts (reg f))) (reg f) in
  post (write_registry limits now r') (fun a f' => stepped no_ids no_ids f f' /\ put_main r' f a f') f.
Proof. intros Hs r'. apply write_registry_stepped; [done|apply agree_prompts, Hs|apply advance_prompts, advance_refl]. Qed.

(** The prompts of the other slots, here and in the legacy document, are the
    same as before. *)
Record other_slots (workspace : WorkspaceId) (session : option SessionId) (f f' : DispatchFiles) : Prop := {
  os_prompts : forall p, in_slot workspace session p = false -> p ∈ wr_prompts (wsp f) <-> p ∈ wr_prompts (wsp f');
  os_legacy : forall p, legacy_slot session p = false -> p ∈ rg_prompts (reg f) <-> p ∈ rg_prompts (reg f')
}.

Lemma other_slots_same workspace session f f' : same_documents f f' -> other_slots workspace session f f'.
Proof. intros [Er Ew]. split; intros p _; unfold reg, wsp; by rewrite ?Er, ?Ew. Qed.

Lemma other_slots_trans workspace session f f1 f2 : other_slots workspace session f f1 -> other_slots workspace session f1 f2 ->
  other_slots workspace session f f2.
Proof. intros [A1 A2] [B1 B2]. split; intros p Hp; [rewrite A1, B1|rewrite A2, B2]; done. Qed.

Lemma removed_others {A} (p : A -> bool) l x : p x = false -> x ∈ l <-> x ∈ remove_first p l.
Proof. intros Hx. split; [intros; by apply remove_first_keeps|apply elem_of_remove_first]. Qed.

Lemma upserted_others {A} (p : A -> bool) y l x : p x = false -> p y = true -> x ∈ l <-> x ∈ upsert p y l.
Proof.
  intros Hx Hy. split; [intros; by apply upsert_keeps|]. intros [->|?]%elem_of_upsert; [congruence|done].
Qed.

(** The legacy slot is emptied, or nothing happened. *)
Definition took_legacy (session : option SessionId) (f : DispatchFiles) (a : result DispatchError (option QueuedPrompt)) (f' : DispatchFiles) : Prop :=
  match a with
  | Ok p => wsp f' = wsp f /\ p = (if session then find_first (legacy_slot session) (rg_prompts (reg f)) else None) /\
            rg_prompts (reg f') = if session then remove_first (legacy_slot session) (rg_prompts (reg f)) else rg_prompts (reg f)
  | Err _ => same_documents f f'
  end.

Lemma remove_first_none {A} (p : A -> bool) l : find_first p l = None -> remove_first p l = l.
Proof. induction l as [|x l IH]; [done|]. cbn. destruct (p x); [done|]. intros H. by rewrite IH. Qed.

Lemma took_legacy_others workspace session f a f' : took_legacy session f a f' -> other_slots workspace session f f'.
Proof.
  destruct a as [q|e]; [|apply other_slots_same]. intros (Ew & _ & Er). split; intros p Hp; [by rewrite Ew|].
  rewrite Er. destruct session; [by apply removed_others|done].
Qed.

Lemma take_legacy_stepped now session f : sound f ->
  post (take_legacy limits now session) (fun a f' => stepped no_ids no_ids f f' /\ took_legacy session f a f') f.
Proof.
  intros Hs. unfold take_legacy. destruct session as [session|]; [|apply post_ret; by split; [apply stepped_refl|]].
  apply (post_registry limits); [done|]. destruct (find_first _ _) as [p|] eqn:E.
  - apply post_bind. eapply post_mono; [by apply legacy_stepped|]. intros [[]|err] f' [Hst Hp]; [|by split].
    destruct Hp as [Ew [dropped Ht]]. apply post_ret. split; [done|]. unfold took_legacy. rewrite E. split_and!; [done|done|].
    by rewrite (tr_prompts _ _ _ Ht).
  - apply post_ret. split; [by apply stepped_refl|]. unfold took_legacy. rewrite E. split_and!; [done|done|].
    by rewrite remove_first_none.
Qed.

(** The slot of a launch holds the prompt that was queued. *)
Definition queued_in (f : DispatchFiles) (p : WorkspacePrompt) (f' : DispatchFiles) : Prop :=
  wr_prompts (wsp f') = upsert (in_slot (wp_workspace_id p) (wp_session_id p)) p (wr_prompts (wsp f)).

Lemma queue_steps now workspace session prompt queued_at caller operation f : sound f ->
  post (queue_prompt_for limits now workspace session prompt queued_at caller operation)
    (fun a f' => stepped no_ids no_ids f f' /\
       match a with Ok q => queued_in f (MkWorkspacePrompt workspace session prompt queued_at caller operation) f' /\
                            q = MkQueuedPrompt session prompt queued_at caller /\ other_slots workspace session f f' | Err _ => True end) f.
Proof.
  intros Hs. unfold queue_prompt_for. set (p := MkWorkspacePrompt workspace session prompt queued_at caller operation).
  apply (post_workspaces limits); [done| |by split; [apply stepped_refl|]].
  set (w' := set_wr_prompts (upsert (in_slot workspace session) p (wr_prompts (wsp f))) (wsp f)).
  assert (Hput := put_workspaces_stepped limits no_ids no_ids w' f Hs (agree_queue p (reg f) (wsp f) (so_agree _ _ Hs))
                    (advance_wr_prompts _ _ _ _ _)).
  assert (Hdone : forall k : dis unit, (forall f', stepped no_ids no_ids f f' -> reg f' = reg f -> wsp f' = w' ->
      post k (fun a f'' => stepped no_ids no_ids f' f'' /\
        match a with Ok _ => wsp f'' = wsp f' /\ other_slots workspace session f' f'' | Err _ => True end) f') ->
    post (st_ensure (match caller with Some c => owned_by (wsp f) workspace (ca_agent_id c) | None => true end) CallerForeign ;;;
          put_workspace_registry w' ;;; k ;;; st_ret (into_legacy_shape p))
      (fun a f' => stepped no_ids no_ids f f' /\
         match a with Ok q => queued_in f p f' /\ q = MkQueuedPrompt session prompt queued_at caller /\
                              other_slots workspace session f f' | Err _ => True end) f).
  { intros k Hk. apply post_ensure; [intros _|intros _; by split; [apply stepped_refl|]].
    apply post_bind. eapply post_mono; [exact Hput|]. intros [[]|err] f1 [H1 Hp]; [|by split].
    destruct Hp as [Er Ew]. apply post_bind. eapply post_mono; [by apply Hk|]. intros a f2 [[Hs2 H2] Ha].
    assert (H12 : stepped no_ids no_ids f f2).
    { split; [done|]. eapply advance_weaken; [| |eapply advance_trans; [apply H1|apply H1|exact H2]]; done. }
    destruct a as [[]|err]; [|by split]. destruct Ha as [Ha Hother]. apply post_ret. split; [done|].
    split_and!; [unfold queued_in; by rewrite Ha, Ew|done|]. eapply other_slots_trans; [|exact Hother].
    split; intros x Hx; [|by rewrite Er]. rewrite Ew. apply upserted_others; [done|].
    unfold in_slot. by rewrite !bool_decide_eq_true_2. }
  assert (Hret : forall f', sound f' ->
    post (st_ret tt : dis unit) (fun a f'' => stepped no_ids no_ids f' f'' /\
      match a with Ok _ => wsp f'' = wsp f' /\ other_slots workspace session f' f'' | Err _ => True end) f').
  { intros f' Hs'. apply post_ret. split; [by apply stepped_refl|]. by split; [|apply other_slots_same]. }
  destruct session as [session|].
  - apply post_bind, (post_registry limits); [done|]. apply post_ret. apply Hdone. intros f' Hst Er Ew.
    destruct (any _ _); [|apply Hret, Hst]. rewrite <- Er. eapply post_mono; [apply legacy_stepped, Hst|].
    intros [[]|err] f'' [? Hp]; [|by split]. destruct Hp as (Ew' & dropped & Ht). split_and!; [done|done|].
    split; intros x Hx; [by rewrite Ew'|]. rewrite (tr_prompts _ _ _ Ht). by apply removed_others.
  - apply post_bind, post_ret. apply Hdone. intros f' Hst Er Ew. apply Hret, Hst.
Qed.

Definition waiting (f : DispatchFiles) (workspace : WorkspaceId) (session : option SessionId) : option QueuedPrompt :=
  match find_first (in_slot workspace session) (wr_prompts (wsp f)) with
  | Some p => Some (into_legacy_shape p)
  | None => if session then find_first (legacy_slot session) (rg_prompts (reg f)) else None
  end.

Lemma find_removed {A B} `{EqDecision B} (key : A -> B) k (p : A -> bool) l :
  (forall x, p x = bool_decide (key x = k)) -> NoDup (key <$> l) -> find_first p (remove_first p l) = None.
Proof.
  intros Hp. induction l as [|x l IH]; [done|]. cbn. intros [Hx Hn]%list.NoDup_cons. destruct (p x) eqn:E.
  - apply find_first_None. intros y Hy. rewrite Hp in *. apply bool_decide_eq_true in E. apply bool_decide_eq_false. intros Ey.
    apply Hx. rewrite E, <- Ey. by apply list_elem_of_fmap_2.
  - cbn. rewrite E. by apply IH.
Qed.

Lemma slot_removed workspace session r w : agree r w ->
  find_first (in_slot workspace session) (remove_first (in_slot workspace session) (wr_prompts w)) = None.
Proof. intros H. apply (find_removed slot_of (workspace, session)); [intros x; apply in_slot_key|apply H]. Qed.

Lemma legacy_removed session r w : agree r w -> find_first (legacy_slot session) (remove_first (legacy_slot session) (rg_prompts r)) = None.
Proof. intros H. apply (find_removed qp_session_id session); [done|apply H]. Qed.

(** A prompt is delivered and gone, or it still waits; the other slots are left
    alone. *)
Definition consumed workspace session (f : DispatchFiles) (a : result DispatchError (option QueuedPrompt)) (f' : DispatchFiles) : Prop :=
  other_slots workspace session f f' /\
  match a with
  | Ok p => p = waiting f workspace session /\ waiting f' workspace session = None
  | Err _ => waiting f' workspace session = waiting f workspace session
  end.

Lemma waiting_same f f' workspace session : same_documents f f' -> waiting f' workspace session = waiting f workspace session.
Proof. intros [Er Ew]. unfold waiting, reg, wsp. by rewrite Er, Ew. Qed.

Lemma consumed_same workspace session f e f' : same_documents f f' -> consumed workspace session f (Err e) f'.
Proof. intros H. by split; [apply other_slots_same|apply waiting_same]. Qed.

Lemma consume_stepped now workspace session f : sound f ->
  post (consume_prompt limits now workspace session) (fun a f' => stepped no_ids no_ids f f' /\ consumed workspace session f a f') f.
Proof.
  intros Hs. unfold consume_prompt. apply (post_workspaces limits); [done| |by split; [apply stepped_refl|]].
  destruct (find_first _ _) as [p|] eqn:E.
  - apply post_bind. eapply post_mono; [by apply take_legacy_stepped|].
    intros [q|err] f1 [H1 Ht]; [|split; [done|by apply consumed_same]].
    assert (Hother := took_legacy_others workspace session _ _ _ Ht). destruct Ht as (Ew & _ & Er).
    set (w' := set_wr_prompts _ (wsp f)). apply post_bind.
    eapply post_mono; [apply (put_workspaces_stepped limits no_ids no_ids w'); [apply H1| |]|].
    + unfold w'. rewrite <- Ew. apply agree_unqueue, H1.
    + unfold w'. rewrite <- Ew. apply advance_wr_prompts.
    + intros a f2 [[Hs2 H2] Ha].
      assert (H12 : stepped no_ids no_ids f f2).
      { split; [done|]. eapply advance_weaken; [| |eapply advance_trans; [apply H1|apply H1|exact H2]]; done. }
      destruct a as [[]|err].
      * apply post_ret. split; [done|]. destruct Ha as [Er2 Ew2]. split.
        { eapply other_slots_trans; [exact Hother|]. split; intros x Hx; [|by rewrite Er2].
          rewrite Ew2, Ew. by apply removed_others. }
        unfold waiting. rewrite E. split; [done|].
        rewrite Ew2. unfold w'. cbn [wr_prompts set_wr_prompts]. rewrite (slot_removed _ _ (reg f)) by apply Hs.
        rewrite Er2, Er. destruct session; [|done]. apply (legacy_removed _ _ (wsp f)), Hs.
      * split; [done|]. split; [by eapply other_slots_trans, other_slots_same|].
        rewrite (waiting_same f1 f2) by done. unfold waiting. by rewrite Ew, E.
  - eapply post_mono; [by apply take_legacy_stepped|]. intros [q|err] f1 [H1 Ht]; (split; [done|]); [|by apply consumed_same].
    split; [by eapply took_legacy_others|]. destruct Ht as (Ew & -> & Er). unfold waiting. rewrite Ew, E, Er. split; [done|].
    destruct session; [|done]. apply (legacy_removed _ _ (wsp f)), Hs.
Qed.

(** *** Agents *)
Lemma claimable_self w o a : owned_by w o a = true -> claimable w o a = true.
Proof. unfold owned_by, claimable. intros E%bool_decide_eq_true. rewrite E. by apply bool_decide_eq_true. Qed.

Lemma upsert_agent_agree workspace agent r w : agree r w ->
  agree (set_rg_agents (upsert (is_agent (ag_agent_id agent)) agent (rg_agents r)) r) (claim (ag_agent_id agent) workspace w).
Proof.
  intros H. apply agree_agents; [by apply agree_claim|apply keys_upsert, H].
Qed.

Lemma claimed_accounted a o r w x : ag_agent_id x = a -> accounted_agent r (claim a o w) x.
Proof. intros E. left. rewrite claim_owner, E, decide_True by done. by eexists. Qed.

Lemma upsert_agent_steps now workspace agent f : sound f -> steps no_ids no_ids f (upsert_agent limits now workspace agent).
Proof.
  intros Hs. apply steps_workspaces; [done|]. apply steps_ensure; [done|intros Hc]. apply steps_registry; [done|].
  apply (steps_last _ _ _ _ (fun _ => agent)). apply steps_publish; try done.
  - apply agree_claim, Hs.
  - apply upsert_agent_agree, Hs.
  - by apply advance_claim.
  - apply advance_agents; [by apply advance_claim|].
    intros a [->|Ha]%elem_of_upsert; [by apply claimed_accounted|auto with usagi].
Qed.

(** A fresh identity: no agent and no owner has it. *)
Definition unused (minted : AgentId) (f : DispatchFiles) : Prop :=
  owner_of (wsp f) minted = None /\ forall a, a ∈ rg_agents (reg f) -> ag_agent_id a <> minted.

Lemma reusable_claimable w workspace session runtime model agents a :
  reusable w workspace session runtime model agents = Some a -> a ∈ agents /\ claimable w workspace (ag_agent_id a) = true.
Proof.
  unfold reusable. destruct (find_first _ agents) as [x|] eqn:E.
  - intros [= ->]. apply find_first_Some in E as [Hin [_ Ho]%andb_true_iff]. split; [done|by apply claimable_self].
  - destruct session; [|done]. intros [Hin [_ Ho]%andb_true_iff]%find_first_Some. split; [done|].
    apply bool_decide_eq_true in Ho. unfold claimable. by rewrite Ho.
Qed.

Lemma upsert_tuple_steps now minted workspace session runtime model f : sound f -> unused minted f ->
  steps no_ids no_ids f (upsert_agent_by_runtime_model limits now minted workspace session runtime model).
Proof.
  intros Hs [Hno Hna]. apply steps_registry; [done|]. apply steps_workspaces; [done|].
  destruct (reusable _ _ _ _ _ _) as [a|] eqn:E.
  - apply reusable_claimable in E as [_ Hc]. apply (steps_last _ _ _ _ (fun _ => a)).
    apply steps_sidecar; [done|apply agree_claim, Hs|by apply advance_claim].
  - apply (steps_last _ _ _ _ (fun _ => _)). assert (Hc : claimable (wsp f) workspace minted = true) by (unfold claimable; by rewrite Hno).
    apply steps_publish; try done.
    + apply agree_claim, Hs.
    + apply agree_agents; [apply agree_claim, Hs|].
      rewrite fmap_app. apply NoDup_app. split_and!; [apply Hs| |apply NoDup_singleton].
      intros k (a & -> & Ha)%list_elem_of_fmap Hk%list_elem_of_singleton. by apply (Hna a Ha).
    + by apply advance_claim.
    + apply advance_agents; [by apply advance_claim|].
      intros a [Ha|Ha]%elem_of_app; [auto with usagi|]. apply list_elem_of_singleton in Ha as ->. by apply claimed_accounted.
Qed.

(** *** Delegation and lineage *)
Lemma reserve_delegation_steps caller operation max f : sound f -> steps no_ids no_ids f (reserve_delegation limits caller operation max).
Proof.
  intros Hs. apply steps_workspaces; [done|]. apply steps_lift; [done|intros workspace _]. apply steps_registry; [done|].
  destruct (already_admitted _ _ _ _ _); [by apply steps_ret|]. destruct (any _ _) eqn:E; [by apply steps_ret|].
  destruct (_ <=? _); [by apply steps_ret|]. apply (steps_last _ _ _ _ (fun _ => Reserved)).
  apply steps_sidecar; [done| |apply advance_reservations]. apply agree_reservations; [apply Hs|].
  rewrite fmap_app. apply NoDup_app. split_and!; [apply Hs| |apply NoDup_singleton].
  intros k (d & -> & Hd)%list_elem_of_fmap Hk%list_elem_of_singleton. cbn in Hk.
  assert (Hf := proj1 (any_false _ _) E d Hd). by apply bool_decide_eq_false in Hf.
Qed.

Lemma release_delegation_steps operation f : sound f -> steps no_ids no_ids f (release_delegation limits operation).
Proof.
  intros Hs. apply steps_workspaces; [done|]. cbv zeta.
  match goal with |- context [if ?b then _ else _] => destruct b end; [|by apply steps_ret].
  apply (steps_last _ _ _ _ (fun _ => true)). apply steps_sidecar; [done| |apply advance_reservations].
  apply agree_reservations; [apply Hs|]. apply NoDup_keys_retain, Hs.
Qed.

Lemma record_parent_steps workspace session parent f : sound f -> steps no_ids no_ids f (record_session_parent limits workspace session parent).
Proof.
  intros Hs. apply steps_workspaces; [done|]. apply steps_lift; [done|intros w' E].
  destruct (lineage_recorded (reg f) _ _ _ _ _ (so_agree _ _ Hs) E) as [Hg Ha].
  apply steps_ensure; [done|intros _]. by apply steps_sidecar.
Qed.

(** *** Admissions *)
Lemma NoDup_snoc {A B} (key : A -> B) l x : NoDup (key <$> l) -> (forall y, y ∈ l -> key y <> key x) -> NoDup (key <$> l ++ [x]).
Proof.
  intros Hn Hx. rewrite fmap_app. apply NoDup_app. split_and!; [done| |apply NoDup_singleton].
  intros k (y & -> & Hy)%list_elem_of_fmap Hk%list_elem_of_singleton. by apply (Hx y Hy).
Qed.

Lemma fenced_spec agent run binding a : fenced agent run binding a = true ->
  ag_agent_id agent = wk_agent_id (bd_worker binding) /\ dn_run_id run = ad_operation_id a /\ bd_run_id binding = ad_operation_id a.
Proof.
  unfold fenced. rewrite !andb_true_iff, !bool_decide_eq_true. intros [[[[E1 E2] E3] E4] E5]. split_and!; congruence.
Qed.

Lemma claim_worker_spec w workspace worker w' : claim_worker w workspace worker = Ok w' ->
  is_Some (owner_of w' worker) /\ (forall r, agree r w -> agree r w') /\ forall e t r, advance e t r w r w'.
Proof.
  unfold claim_worker. destruct workspace as [workspace|].
  - destruct (claimable w workspace worker) eqn:Hc; [|done]. intros [= <-]. split_and!.
    + rewrite claim_owner, decide_True by done. by eexists.
    + intros r. apply agree_claim.
    + intros e t r. by apply advance_claim.
  - destruct (owner_of w worker) as [o|] eqn:E; [|done]. intros [= <-]. split_and!; [by exists o|done|]. intros. apply advance_refl.
Qed.

Lemma reserve_agree agent run binding a r w : agree r w -> fenced agent run binding a = true ->
  find_first (is_admission (ad_operation_id a)) (rg_admissions r) = None -> any (is_run (ad_operation_id a)) (rg_runs r) = false ->
  agree (DispatchRegistry.reserve_admission agent run binding a r) w.
Proof.
  intros [] (Ea & Er & _)%fenced_spec Hna Hnr. constructor; cbn; try done.
  - apply NoDup_snoc; [done|]. intros x Hx E. assert (Hf := proj1 (any_false _ _) Hnr x Hx). apply bool_decide_eq_false in Hf. congruence.
  - by apply keys_upsert.
  - apply NoDup_snoc; [done|]. intros x Hx E. apply (proj1 (find_first_None _ _)) with (x := x) in Hna; [|done].
    by apply bool_decide_eq_false in Hna.
  - intros x [Hx|Hx]%elem_of_app; rewrite fmap_app, elem_of_app; [left; by apply ag_admitted|right].
    apply list_elem_of_singleton in Hx as ->. cbn. rewrite Er. by left.
Qed.

Lemma reserve_advance e t agent run binding a r w w' : (forall e t r, advance e t r w r w') ->
  is_Some (owner_of w' (ag_agent_id agent)) ->
  advance e t r w (DispatchRegistry.reserve_admission agent run binding a r) w'.
Proof.
  intros H Ho. destruct (H e t r). constructor; cbn; try done.
  - intros x Hx _ _. apply elem_of_app. by left.
  - intros x Hx Hl _. exists x. split; [apply elem_of_app; by left|done].
  - intros x y _ _ _ Hy _. apply elem_of_app. by left.
  - intros x y _ _ _ _ Hy _. apply elem_of_app. by left.
  - intros x [->|Hx]%elem_of_upsert; [by left|auto with usagi].
Qed.

(** What a reservation answers: the one on record, unchanged, or the new one. *)
Definition admitted (f : DispatchFiles) (agent : Agent) (run : DispatchRun) (binding : DispatchBinding) (a : AgentAdmissionReservation)
    (x : result DispatchError AgentAdmissionReservation) (f' : DispatchFiles) : Prop :=
  match x with
  | Ok x =>
      find_first (is_admission (ad_operation_id a)) (rg_admissions (reg f)) = Some x /\ f' = f \/
      x = a /\ dn_run_id run = ad_operation_id a /\ bd_run_id binding = ad_operation_id a /\
      exists dropped, trims dropped (DispatchRegistry.reserve_admission agent run binding a (reg f)) (reg f')
  | Err _ => True
  end.

Lemma reserve_stepped now workspace agent run binding a f : sound f ->
  post (reserve_admission_inner limits now workspace agent run binding a)
    (fun x f' => stepped no_ids no_ids f f' /\ admitted f agent run binding a x f') f.
Proof.
  intros Hs. assert (Hrefl := stepped_refl limits no_ids no_ids f Hs).
  apply post_ensure; [intros Hfence|by split]. apply (post_registry limits); [done|].
  destruct (find_first _ _) as [x|] eqn:Ea.
  - apply post_ensure; [intros _|by split]. apply post_ret. split; [done|]. left. split; [done|done].
  - apply post_ensure; [intros Hnr%negb_true_iff|by split]. apply (post_workspaces limits); [done| |by split].
    apply post_lift. destruct (claim_worker _ _ _) as [w'|err] eqn:Ec; [|by split].
    destruct (claim_worker_spec _ _ _ _ Ec) as (Ho & Hg & Hadv).
    apply post_bind. eapply post_mono.
    { apply (publish_stepped limits no_ids no_ids now w' (DispatchRegistry.reserve_admission agent run binding a (reg f)) f Hs).
      - apply Hg, Hs.
      - apply reserve_agree; try done. apply Hg, Hs.
      - apply Hadv.
      - apply reserve_advance; [done|]. destruct (fenced_spec _ _ _ _ Hfence) as (-> & _). done. }
    intros [[]|err] f' [Hst Hok]; [|by split]. apply post_ret. split; [done|]. right.
    destruct (fenced_spec _ _ _ _ Hfence) as (_ & ? & ?). split_and!; try done. by apply Hok.
Qed.

(** A change of one run and one agent. *)
Lemma run_and_agent e id p g q h r w : agree r w -> (forall run, p run = true -> dn_run_id run = id) ->
  (forall run, dn_run_id (g run) = dn_run_id run) -> (forall a, ag_agent_id (h a) = ag_agent_id a) ->
  (e id = false -> forall run, live_run run = true -> live_run (g run) = true) ->
  let r' := set_rg_runs (update_first p g (rg_runs r)) (set_rg_agents (update_first q h (rg_agents r)) r) in
  agree r' w /\ advance e (only id) r w r' w.
Proof.
  intros Hg Hp Hid Ha Hl. split.
  - apply (agree_run p g (set_rg_agents (update_first q h (rg_agents r)) r)); [done|by apply agree_agent].
  - exact (advance_agent e (only id) q h _ _ _ _ Ha (advance_run e p id g r w Hg Hp Hid Hl)).
Qed.

Lemma commit_steps now operation f : sound f -> steps no_ids (only operation) f (commit_admission limits now operation).
Proof.
  intros Hs. unfold commit_admission.
  assert (H : let r' := (DispatchRegistry.commit_admission operation (reg f)).2 in
              agree r' (wsp f) /\ advance no_ids (only operation) (reg f) (wsp f) r' (wsp f)).
  { unfold DispatchRegistry.commit_admission. destruct (find_first _ _); [|split; [apply Hs|apply advance_refl]].
    apply run_and_agent; try done; [apply Hs|]. by intros run [?%is_run_id _]%andb_true_iff. }
  destruct H. by apply steps_mutate.
Qed.

Lemma fail_changes now operation r w : agree r w ->
  let r' := (DispatchRegistry.fail_admission now operation r).2 in
  agree r' w /\ advance (only operation) (only operation) r w r' w.
Proof.
  intros Hg. unfold DispatchRegistry.fail_admission. destruct (find_first _ _); [|split; [done|apply advance_refl]].
  apply run_and_agent; try done; [apply is_run_id|]. unfold only. by rewrite bool_decide_eq_true_2.
Qed.

Lemma fail_steps now operation f : sound f -> steps (only operation) (only operation) f (fail_admission limits now operation).
Proof. intros Hs. destruct (fail_changes now operation (reg f) (wsp f) (so_agree _ _ Hs)). by apply steps_mutate. Qed.

(** Everything on record may be ended. *)
Lemma advance_all r w r' w' : (forall a o, owner_of w a = Some o -> owner_of w' a = Some o) ->
  (forall l, l ∈ wr_lineages w -> l ∈ wr_lineages w') -> (forall a, a ∈ rg_agents r' -> accounted_agent r w' a) ->
  advance all_ids all_ids r w r' w'.
Proof. by constructor. Qed.

Lemma reconcile_agents now l r : ag_agent_id <$> rg_agents (reconcile_admissions now l r).2 = ag_agent_id <$> rg_agents r.
Proof.
  revert r. induction l as [|a l IH]; intros r; [done|]. cbn [reconcile_admissions].
  destruct (find_first _ _) as [run|]; [|by apply IH]. destruct (negb _); [by apply IH|].
  specialize (IH (DispatchRegistry.fail_admission now (ad_operation_id a) r).2).
  destruct (reconcile_admissions _ _ _) as [n r2]. cbn [snd] in *. rewrite IH.
  unfold DispatchRegistry.fail_admission. destruct (find_first _ _); [|done]. cbn.
  by apply keys_update_first.
Qed.

Lemma reconcile_agree now l r w : agree r w -> agree (reconcile_admissions now l r).2 w.
Proof.
  revert r. induction l as [|a l IH]; intros r H; [done|]. cbn [reconcile_admissions].
  destruct (find_first _ _) as [run|]; [|by apply IH]. destruct (negb _); [by apply IH|].
  specialize (IH _ (proj1 (fail_changes now (ad_operation_id a) r w H))).
  by destruct (reconcile_admissions _ _ _).
Qed.

(** The outcome of a reconciliation. *)
Definition reconciled (now : DateTime) (f : DispatchFiles) (a : result DispatchError nat) (f' : DispatchFiles) : Prop :=
  match a with
  | Ok n =>
      n = (DispatchRegistry.reconcile_incomplete_admissions now (reg f)).1 /\
      wr_delegation_reservations (wsp f') = [] /\
      exists dropped, trims dropped (DispatchRegistry.reconcile_incomplete_admissions now (reg f)).2 (reg f')
  | Err _ => True
  end.

Lemma reconcile_stepped now f : sound f ->
  post (reconcile_incomplete_admissions limits now) (fun a f' => stepped all_ids all_ids f f' /\ reconciled now f a f') f.
Proof.
  intros Hs. apply (post_registry limits); [done|]. apply (post_workspaces limits); [done| |by split; [apply stepped_refl|]].
  assert (Hg := reconcile_agree now (rg_admissions (reg f)) (reg f) (wsp f) (so_agree _ _ Hs)).
  assert (Hids := reconcile_agents now (rg_admissions (reg f)) (reg f)).
  assert (Er : DispatchRegistry.reconcile_incomplete_admissions now (reg f) = reconcile_admissions now (rg_admissions (reg f)) (reg f)) by done.
  rewrite Er. unfold reconciled. rewrite Er.
  destruct (reconcile_admissions _ _ _) as [n r'] eqn:En. cbn [fst snd] in *.
  assert (Hlast : forall f1, stepped all_ids all_ids f f1 -> reg f1 = reg f -> wsp f1 = set_wr_delegation_reservations [] (wsp f) ->
    post (write_registry limits now r' ;;; st_ret n) (fun a f' => stepped all_ids all_ids f f' /\ match a with
      | Ok m => m = n /\ wr_delegation_reservations (wsp f') = [] /\ exists dropped, trims dropped r' (reg f')
      | Err _ => True end) f1).
  { intros f1 [Hs1 H1] Er1 Ew. apply post_bind. eapply post_mono.
    - apply (write_registry_stepped limits all_ids all_ids now r' f1); [done| |].
      + rewrite Ew. apply agree_reservations; [done|constructor].
      + apply advance_all; [done|done|]. intros a Ha. right. rewrite Er1, <- Hids. by apply list_elem_of_fmap_2.
    - assert (Htwo : forall f', stepped all_ids all_ids f1 f' -> stepped all_ids all_ids f f').
      { intros f' [Hs' H']. split; [done|]. eapply advance_weaken; [| |eapply advance_trans; [apply Hs1|exact H1|exact H']]; done. }
      intros [[]|err] f' [H' Hp]; [|by split; [apply Htwo|]]. apply post_ret. split; [by apply Htwo|]. split; [done|].
      destruct Hp as [Ew' Ht]. by rewrite Ew', Ew. }
  destruct (wr_delegation_reservations (wsp f)) as [|d l] eqn:Ed.
  - apply post_bind, post_ret. apply Hlast; [by apply stepped_refl|done|]. destruct (wsp f). cbn in *. by subst.
  - apply post_bind. eapply post_mono.
    + apply (write_workspaces_stepped limits all_ids all_ids (set_wr_delegation_reservations [] (wsp f)) f Hs);
        [apply agree_reservations; [apply Hs|constructor]|apply advance_reservations].
    + intros [[]|err] f1 [H1 Hp]; [|by split]. by apply Hlast; [|apply Hp..].
Qed.

(** *** Runs *)
Lemma upsert_run_steps now run f : sound f ->
  steps (if live_run run then no_ids else only (dn_run_id run)) (only (dn_run_id run)) f (upsert_run limits now run).
Proof.
  intros Hs. assert (Hg := so_agree _ _ Hs). apply steps_mutate; [done| |]; cbn [snd].
  - apply agree_runs; [done|apply keys_upsert, Hg|]. intros id (x & -> & Hx)%list_elem_of_fmap.
    destruct (is_run (dn_run_id run) x) eqn:E; apply list_elem_of_fmap.
    + exists run. split; [by apply is_run_id|apply upsert_has].
    + exists x. split; [done|by apply upsert_keeps].
  - assert (Hother : forall x, x ∈ rg_runs (reg f) -> dn_run_id x <> dn_run_id run -> x ∈ upsert (is_run (dn_run_id run)) run (rg_runs (reg f))).
    { intros x Hx Hne. apply upsert_keeps; [done|]. by apply bool_decide_eq_false. }
    constructor; cbn; try done.
    + intros x Hx _ Hne%only_other. by apply Hother.
    + intros x Hx Hl He. destruct (decide (dn_run_id x = dn_run_id run)) as [E|Hne]; [|by exists x; split; [apply Hother|]].
      exists run. split; [apply upsert_has|]. split; [done|]. destruct (live_run run); [done|].
      apply only_other in He. by destruct He.
    + auto with usagi.
Qed.

Definition ends (status : RunStatus) (id : OperationId) : OperationId -> bool :=
  match status with RunPreparing | RunRunning => no_ids | _ => only id end.

Lemma ends_live status id run : ends status id id = false -> live_run (set_dn_status status run) = true.
Proof. unfold ends, only. destruct status; try done; by rewrite bool_decide_eq_true_2. Qed.

Lemma transition_run_steps now id status ended_at f : sound f ->
  steps (ends status id) (only id) f (transition_run limits now id status ended_at).
Proof.
  intros Hs. apply steps_mutate; [done| |]; cbn [snd].
  - apply agree_run; [done|apply Hs].
  - apply advance_run; [apply Hs|apply is_run_id|done|]. intros He run _. by apply (ends_live status id run) in He.
Qed.

Lemma transition_agent_steps now id status current f : sound f -> steps no_ids no_ids f (transition_agent limits now id status current).
Proof. intros Hs. apply steps_mutate; [done|by apply agree_agent, Hs|by apply advance_agent, advance_refl]. Qed.

Lemma report_changes id worker rs as_ ended_at r w r' : agree r w -> report_outcome id worker rs as_ ended_at r = Some r' ->
  agree r' w /\ advance (ends rs id) (only id) r w r' w.
Proof.
  intros Hg. unfold report_outcome. set (changes := match find_first _ _ with Some _ => _ | None => _ end).
  set (r1 := if changes then _ else r).
  assert (H1 : agree r1 w /\ advance (ends rs id) (only id) r w r1 w).
  { unfold r1. destruct changes; [|split; [done|apply advance_refl]]. split; [by apply agree_run|].
    apply advance_run; [done|apply is_run_id|done|]. intros He run _. by apply (ends_live rs id run) in He. }
  destruct H1 as [Hg1 H1]. set (r2 := if any _ _ then _ else r1). destruct (_ || _); [|done]. intros [= <-]. unfold r2.
  destruct (any _ _); [|done]. split; [by apply agree_agent|by apply advance_agent].
Qed.

Lemma report_steps now id worker rs as_ ended_at f : sound f ->
  steps (ends rs id) (only id) f (reconcile_report_outcome limits now id worker rs as_ ended_at).
Proof.
  intros Hs. apply steps_registry; [done|]. destruct (report_outcome _ _ _ _ _ _) as [r'|] eqn:E; [|by apply steps_ret].
  destruct (report_changes _ _ _ _ _ _ (wsp f) _ (so_agree _ _ Hs) E). by apply (steps_last _ _ _ _ (fun _ => true)), steps_write.
Qed.

Lemma upsert_binding_steps now b f : sound f -> steps no_ids (only (bd_run_id b)) f (upsert_binding limits now b).
Proof.
  intros Hs. apply steps_registry; [done|]. apply steps_workspaces; [done|]. apply (steps_last _ _ _ _ (fun _ => b)).
  apply steps_publish; try done; [apply Hs|apply agree_bindings, Hs|apply advance_refl|].
  constructor; cbn; try done; [by intros x Hx Hl _; exists x| |auto with usagi].
  intros x y Hx _ _ Hne%only_other Hy Hid. apply upsert_keeps; [done|]. apply bool_decide_eq_false. congruence.
Qed.
End operations.
