(* ===== verification/DispatchSpec.v ===== *)
(** * What the dispatch store promises

    Histories of operations from sound documents, with any answers of the disk:
    who owns an agent, that work in flight is kept, that an operation is admitted
    once, what a restart leaves, that a prompt is delivered once, and that the
    walk up the delegations ends. *)
From S2P Require Export DispatchOps.

Module StoreOp.
Inductive t : Type :=
| QueuePrompt (workspace : WorkspaceId) (session : option SessionId) (prompt : string) (queued_at : DateTime)
    (caller : option CallerRef) (operation : option OperationId)
| ConsumePrompt (workspace : WorkspaceId) (session : option SessionId)
| UpsertAgent (workspace : WorkspaceId) (agent : Agent)
| UpsertAgentByRuntimeModel (minted : AgentId) (workspace : WorkspaceId) (session : option SessionId)
    (runtime : AgentProfileId) (model : ModelSelector)
| ReserveDelegation (caller : CallerRef) (operation : OperationId) (max_concurrency : nat)
| ReleaseDelegation (operation : OperationId)
| RecordSessionParent (workspace : WorkspaceId) (session : SessionId) (parent : option SessionId)
| ReserveAdmission (workspace : option WorkspaceId) (agent : Agent) (run : DispatchRun) (binding : DispatchBinding)
    (admission : AgentAdmissionReservation)
| CommitAdmission (operation : OperationId)
| FailAdmission (operation : OperationId)
| ReconcileIncompleteAdmissions
| UpsertRun (run : DispatchRun)
| TransitionRun (run : OperationId) (status : RunStatus) (ended_at : option DateTime)
| TransitionAgent (agent : AgentId) (status : AgentStatus) (current_run : option OperationId)
| ReconcileReportOutcome (run : OperationId) (agent : AgentId) (run_status : RunStatus) (agent_status : AgentStatus)
    (ended_at : DateTime)
| UpsertBinding (binding : DispatchBinding).

(** The runs the operation may end, and the ones it may change. *)
Definition ended (op : t) : OperationId -> bool :=
  match op with
  | FailAdmission id => only id
  | ReconcileIncompleteAdmissions => all_ids
  | UpsertRun run => if live_run run then no_ids else only (dn_run_id run)
  | TransitionRun id status _ | ReconcileReportOutcome id _ status _ _ => ends status id
  | _ => no_ids
  end.
Definition touched (op : t) : OperationId -> bool :=
  match op with
  | CommitAdmission id | FailAdmission id | TransitionRun id _ _ | ReconcileReportOutcome id _ _ _ _ => only id
  | ReconcileIncompleteAdmissions => all_ids
  | UpsertRun run => only (dn_run_id run)
  | UpsertBinding b => only (bd_run_id b)
  | _ => no_ids
  end.

(** [AgentId::new] mints an identity nothing else has. *)
Definition lawful (op : t) (f : DispatchFiles) : Prop :=
  match op with UpsertAgentByRuntimeModel minted _ _ _ _ => unused minted f | _ => True end.
End StoreOp.

Section spec.
Context `{Z : DocumentSizes} `{K : ClockRange} (limits : DispatchStoreLimits).

Definition store_op (now : DateTime) (op : StoreOp.t) (f : DispatchFiles) : DispatchFiles :=
  match op with
  | StoreOp.QueuePrompt w s p q c o => (queue_prompt_for limits now w s p q c o f).2
  | StoreOp.ConsumePrompt w s => (consume_prompt limits now w s f).2
  | StoreOp.UpsertAgent w a => (upsert_agent limits now w a f).2
  | StoreOp.UpsertAgentByRuntimeModel minted w s r m => (upsert_agent_by_runtime_model limits now minted w s r m f).2
  | StoreOp.ReserveDelegation c o n => (reserve_delegation limits c o n f).2
  | StoreOp.ReleaseDelegation o => (release_delegation limits o f).2
  | StoreOp.RecordSessionParent w s p => (record_session_parent limits w s p f).2
  | StoreOp.ReserveAdmission w agent run binding a => (reserve_admission_inner limits now w agent run binding a f).2
  | StoreOp.CommitAdmission o => (commit_admission limits now o f).2
  | StoreOp.FailAdmission o => (fail_admission limits now o f).2
  | StoreOp.ReconcileIncompleteAdmissions => (reconcile_incomplete_admissions limits now f).2
  | StoreOp.UpsertRun run => (upsert_run limits now run f).2
  | StoreOp.TransitionRun id status ended_at => (transition_run limits now id status ended_at f).2
  | StoreOp.TransitionAgent id status current => (transition_agent limits now id status current f).2
  | StoreOp.ReconcileReportOutcome id worker rs as_ ended_at =>
      (reconcile_report_outcome limits now id worker rs as_ ended_at f).2
  | StoreOp.UpsertBinding b => (upsert_binding limits now b f).2
  end.

Definition store_ops (ops : list (DateTime * StoreOp.t)) (f : DispatchFiles) : DispatchFiles :=
  foldl (fun f op => store_op op.1 op.2 f) f ops.

Fixpoint lawful_ops (ops : list (DateTime * StoreOp.t)) (f : DispatchFiles) : Prop :=
  match ops with
  | [] => True
  | op :: ops => StoreOp.lawful op.2 f /\ lawful_ops ops (store_op op.1 op.2 f)
  end.

Lemma post_left {A} (call : dis A) (P P' : _ -> _ -> Prop) f : post call (fun a f' => P a f' /\ P' a f') f -> P (call f).1 (call f).2.
Proof. by intros [? _]. Qed.

Lemma store_op_stepped now op f : sound limits f -> StoreOp.lawful op f ->
  stepped limits (StoreOp.ended op) (StoreOp.touched op) f (store_op now op f).
Proof.
  intros Hs Hl. destruct op; cbn [store_op StoreOp.ended StoreOp.touched StoreOp.lawful] in *.
  - exact (post_left _ (fun _ => stepped limits _ _ f) _ f (queue_steps limits now workspace session prompt queued_at caller operation f Hs)).
  - exact (post_left _ (fun _ => stepped limits _ _ f) _ f (consume_stepped limits now workspace session f Hs)).
  - by apply upsert_agent_steps.
  - by apply upsert_tuple_steps.
  - by apply reserve_delegation_steps.
  - by apply release_delegation_steps.
  - by apply record_parent_steps.
  - exact (post_left _ (fun _ => stepped limits _ _ f) _ f (reserve_stepped limits now workspace agent run binding admission f Hs)).
  - by apply commit_steps.
  - by apply fail_steps.
  - exact (post_left _ (fun _ => stepped limits _ _ f) _ f (reconcile_stepped limits now f Hs)).
  - by apply upsert_run_steps.
  - by apply transition_run_steps.
  - by apply transition_agent_steps.
  - by apply report_steps.
  - by apply upsert_binding_steps.
Qed.

Definition some_ended (ops : list (DateTime * StoreOp.t)) (id : OperationId) : bool := any (fun op => StoreOp.ended op.2 id) ops.
Definition some_touched (ops : list (DateTime * StoreOp.t)) (id : OperationId) : bool := any (fun op => StoreOp.touched op.2 id) ops.

Lemma store_ops_stepped ops f : sound limits f -> lawful_ops ops f ->
  stepped limits (some_ended ops) (some_touched ops) f (store_ops ops f).
Proof.
  revert f. induction ops as [|[now op] ops IH]; intros f Hs; [intros _; by apply stepped_refl|]. intros [Hl Hls].
  destruct (store_op_stepped now op f Hs Hl) as [Hs1 H1]. destruct (IH _ Hs1 Hls) as [Hs2 H2]. split; [done|].
  exact (advance_trans _ _ _ _ _ _ _ _ _ _ (so_agree _ _ Hs1) H1 H2).
Qed.

Lemma empty_sound io : sound limits (MkDispatchFiles Missing Missing io).
Proof. constructor; [done|done|]. constructor; cbn; try (by constructor); by intros ? ?%not_elem_of_nil. Qed.

(** C23: an agent belongs to one workspace for ever.  In every history, with any
    write refused, also the second of two, and from any sound store: an agent
    that is on record has an owner, or was on record without one at the start, as
    an older daemon leaves it; an owner never changes, and no other workspace can
    look the agent up. *)
Theorem ownership_is_permanent ops f (Hs : sound limits f) (Hl : lawful_ops ops f) :
  let f' := store_ops ops f in
  (forall a, a ∈ rg_agents (reg f') ->
     is_Some (owner_of (wsp f') (ag_agent_id a)) \/
     ag_agent_id a ∈ ag_agent_id <$> rg_agents (reg f) /\ owner_of (wsp f) (ag_agent_id a) = None) /\
  forall id owner, owner_of (wsp f) id = Some owner ->
    owner_of (wsp f') id = Some owner /\
    forall workspace a f'', agent_in_workspace limits workspace id f' = (Ok (Some a), f'') -> workspace = owner.
Proof.
  intros f'. destruct (store_ops_stepped ops f Hs Hl) as [Hs' H']. fold f' in Hs', H'. split.
  { intros a Ha. destruct (ad_agents _ _ _ _ _ _ H' a Ha) as [Ho|Hold]; [by left|].
    destruct (owner_of (wsp f) (ag_agent_id a)) as [o|] eqn:E; [|by right].
    left. exists o. by apply (ad_owners _ _ _ _ _ _ H'). }
  intros id owner Ho. apply (ad_owners _ _ _ _ _ _ H') in Ho. split; [done|]. intros workspace a f'' E.
  unfold agent_in_workspace, st_bind in E. destruct (load_workspaces_cases limits f' Hs') as [Ew|Ew]; rewrite Ew in E; [|done].
  unfold owned_by in E. case_bool_decide as Ew'; [|done]. congruence.
Qed.

(** C24: work in flight is never dropped.  Whatever else happens, a run that is
    being prepared or running, and that no operation of the history names,
    stays on record as it is, with its admission and its bindings; retention
    takes finished runs only, and keeps the registry within its byte limit and
    the finished runs within theirs. *)
Theorem live_work_is_never_dropped ops f (Hs : sound limits f) (Hl : lawful_ops ops f) :
  let f' := store_ops ops f in
  (forall run, run ∈ rg_runs (reg f) -> live_run run = true -> some_touched ops (dn_run_id run) = false ->
     some_ended ops (dn_run_id run) = false ->
     run ∈ rg_runs (reg f') /\
     (forall a, a ∈ rg_admissions (reg f) -> ad_operation_id a = dn_run_id run -> a ∈ rg_admissions (reg f')) /\
     (forall b, b ∈ rg_bindings (reg f) -> bd_run_id b = dn_run_id run -> b ∈ rg_bindings (reg f'))) /\
  (forall r, df_registry f' = Document r ->
     (registry_len r <= dl_registry_bytes limits)%N /\ count terminal_run (rg_runs r) <= dl_run_retention limits).
Proof.
  intros f'. destruct (store_ops_stepped ops f Hs Hl) as [Hs' H']. fold f' in Hs', H'. split; [|apply Hs'].
  intros run Hr Hlive Ht He. split_and!.
  - by apply (ad_same _ _ _ _ _ _ H').
  - intros a. by apply (ad_proofs _ _ _ _ _ _ H' run).
  - intros b. by apply (ad_bound _ _ _ _ _ _ H' run).
Qed.

(** C25: an operation is admitted once.  Once the admission of a run that is
    still to be spawned is accepted, then whatever happens short of the end of
    that run (its own commit included), reserving the operation again answers
    with the same reservation, or with a conflict when its meaning differs, and
    changes nothing: no second agent, run or proof appears. *)
Theorem admission_is_reserved_once now workspace agent run binding a x f f1 ops now' workspace' agent' run' binding' a'
    (Hs : sound limits f) (Hlive : live_run run = true)
    (Hreserve : reserve_admission_inner limits now workspace agent run binding a f = (Ok x, f1))
    (Hnew : find_first (is_admission (ad_operation_id a)) (rg_admissions (reg f)) = None)
    (Hl : lawful_ops ops f1) (Hopen : some_ended ops (ad_operation_id a) = false)
    (Hsame : ad_operation_id a' = ad_operation_id a) (Hfence : fenced agent' run' binding' a' = true) :
  let f2 := store_ops ops f1 in
  x = a /\
  reserve_admission_inner limits now' workspace' agent' run' binding' a' f2 =
    ((if decide (ad_semantic_key a' = ad_semantic_key a) then Ok a else Err AdmissionConflict), f2).
Proof.
  intros f2. assert (H := reserve_stepped limits now workspace agent run binding a f Hs). unfold post in H.
  rewrite Hreserve in H. cbn [fst snd] in H. destruct H as [[Hs1 _] Hx]. destruct Hx as [[Hx _]|(-> & Eid & _ & dropped & Ht)]; [congruence|].
  split; [done|]. destruct (store_ops_stepped ops f1 Hs1 Hl) as [Hs2 H2]. fold f2 in Hs2, H2.
  assert (Hout : outside dropped (dn_run_id run) = true).
  { apply (trim_outside dropped _ _ run Ht); [|done]. cbn. apply elem_of_app. right. by left. }
  assert (Hrun : run ∈ rg_runs (reg f1)).
  { rewrite (tr_runs _ _ _ Ht). apply elem_of_retain. split; [cbn; apply elem_of_app; right; by left|done]. }
  assert (Hadm : a ∈ rg_admissions (reg f1)).
  { rewrite (tr_admissions _ _ _ Ht). apply elem_of_retain. split; [cbn; apply elem_of_app; right; by left|by rewrite <- Eid]. }
  rewrite <- Eid in Hopen. assert (Ha2 := ad_proofs _ _ _ _ _ _ H2 run a Hrun Hlive Hopen Hadm (eq_sym Eid)).
  assert (Hfind : find_first (is_admission (ad_operation_id a')) (rg_admissions (reg f2)) = Some a).
  { rewrite Hsame. destruct (find_first _ (rg_admissions (reg f2))) as [y|] eqn:E.
    - apply find_first_Some in E as [Hy Ey]. apply bool_decide_eq_true in Ey. f_equal.
      by apply (keys_inj ad_operation_id (rg_admissions (reg f2))); [apply (so_agree _ _ Hs2)|..].
    - apply (proj1 (find_first_None _ _)) with (x := a) in E; [|done]. by apply bool_decide_eq_false in E. }
  unfold reserve_admission_inner, st_ensure. rewrite Hfence. unfold st_bind, st_ret at 1. rewrite (load_registry_ok limits f2 Hs2), Hfind.
  destruct (decide _) as [E|E]; [by rewrite bool_decide_eq_true_2 by done|by rewrite bool_decide_eq_false_2 by congruence].
Qed.

(** ** Restart *)
Definition interrupted (admissions : list AgentAdmissionReservation) (run : DispatchRun) : bool :=
  live_run run && bool_decide (dn_run_id run ∈ ad_operation_id <$> admissions).

Lemma interrupted_cons a l run : dn_run_id run <> ad_operation_id a -> interrupted (a :: l) run = interrupted l run.
Proof.
  intros Hne. unfold interrupted. f_equal. apply bool_decide_ext. cbn. rewrite elem_of_cons. split; [by intros [?|?]|by right].
Qed.

Lemma update_as_map id g l : NoDup (dn_run_id <$> l) ->
  update_first (is_run id) g l = (fun run => if is_run id run then g run else run) <$> l.
Proof.
  induction l as [|x l IH]; [done|]. cbn. intros [Hx Hn]%list.NoDup_cons. destruct (is_run id x) eqn:E.
  - f_equal. rewrite <- (list_fmap_id l) at 1. apply list_fmap_ext. intros i y Hy. cbn. destruct (is_run id y) eqn:Ey; [|done].
    exfalso. apply Hx. rewrite (is_run_id _ _ E), <- (is_run_id _ _ Ey). apply list_elem_of_lookup_2 in Hy. by apply list_elem_of_fmap_2.
  - f_equal. by apply IH.
Qed.

Lemma reconcile_counts now l r : NoDup (dn_run_id <$> rg_runs r) ->
  let '(n, r') := reconcile_admissions now l r in
  n = count (interrupted l) (rg_runs r) /\ rg_admissions r' = rg_admissions r /\ rg_bindings r' = rg_bindings r /\
  rg_runs r' = (fun run => if interrupted l run then fail_run now run else run) <$> rg_runs r.
Proof.
  revert r. induction l as [|a l IH]; intros r Hn; cbn [reconcile_admissions].
  { assert (E : forall run, interrupted [] run = false).
    { intros run. unfold interrupted. rewrite bool_decide_eq_false_2; [apply andb_false_r|apply not_elem_of_nil]. }
    split_and!; [|done|done|]; [symmetry; by apply count_zero|].
    rewrite <- (list_fmap_id (rg_runs r)) at 1. apply list_fmap_ext. intros i run _. by rewrite E. }
  assert (Hskip : (forall run, run ∈ rg_runs r -> interrupted (a :: l) run = interrupted l run) ->
    let '(n, r') := reconcile_admissions now l r in
    n = count (interrupted (a :: l)) (rg_runs r) /\ rg_admissions r' = rg_admissions r /\ rg_bindings r' = rg_bindings r /\
    rg_runs r' = (fun run => if interrupted (a :: l) run then fail_run now run else run) <$> rg_runs r).
  { intros E. specialize (IH r Hn). destruct (reconcile_admissions now l r) as [n r']. destruct IH as (-> & ? & ? & ->).
    split_and!; [apply count_ext; intros x Hx; symmetry; by apply E|done|done|]. apply list_fmap_ext. intros i run Hi.
    rewrite E; [done|by eapply list_elem_of_lookup_2]. }
  destruct (find_first _ _) as [run|] eqn:Ef.
  2: { apply Hskip. intros x Hx. apply interrupted_cons. apply (proj1 (find_first_None _ _)) with (x := x) in Ef; [|done].
       by apply bool_decide_eq_false in Ef. }
  assert (Hsole : forall x, x ∈ rg_runs r -> is_run (ad_operation_id a) x = true -> x = run).
  { intros x Hx Ex. apply find_first_Some in Ef as [Hr Er]. apply (keys_inj dn_run_id (rg_runs r)); try done.
    by rewrite (is_run_id _ _ Ex), (is_run_id _ _ Er). }
  destruct (live_run run) eqn:Hlive; cbn [negb].
  2: { apply Hskip. intros x Hx. destruct (is_run (ad_operation_id a) x) eqn:Ex.
       - apply Hsole in Ex as ->; [|done]. unfold interrupted. by rewrite Hlive.
       - apply interrupted_cons. by apply bool_decide_eq_false in Ex. }
  unfold DispatchRegistry.fail_admission at 1. rewrite Ef. cbn [snd].
  rewrite update_as_map by done.
  set (g := fun x : DispatchRun => if is_run (ad_operation_id a) x then fail_run now x else x).
  set (r1 := set_rg_runs (g <$> rg_runs r) _).
  assert (Hg : forall x, dn_run_id (g x) = dn_run_id x) by (intros x; unfold g; by destruct (is_run _ x)).
  assert (Hn1 : NoDup (dn_run_id <$> rg_runs r1)).
  { cbn. rewrite <- list_fmap_compose. by rewrite (list_fmap_ext _ dn_run_id) by (intros i x _; apply Hg). }
  specialize (IH r1 Hn1). destruct (reconcile_admissions now l r1) as [n r'].
  destruct IH as (-> & Ha & Hb & Hr).
  assert (Eid := find_first_Some _ _ _ Ef). destruct Eid as [Hin Eid%is_run_id].
  assert (Hrun : interrupted (a :: l) run = true).
  { unfold interrupted. rewrite Hlive. apply bool_decide_eq_true. cbn. rewrite Eid. by left. }
  assert (Hpoint : forall x, x ∈ rg_runs r -> interrupted l (g x) = interrupted (a :: l) x && negb (is_run (ad_operation_id a) x)).
  { intros x Hx. unfold g. destruct (is_run (ad_operation_id a) x) eqn:Ex; cbn [negb]; [by rewrite andb_false_r|].
    rewrite andb_true_r. symmetry. apply interrupted_cons. by apply bool_decide_eq_false in Ex. }
  split_and!; [|done|done|].
  - assert (Hc := count_update_first (interrupted (a :: l)) (is_run (ad_operation_id a)) (fail_run now) (rg_runs r) run Ef).
    rewrite Hrun in Hc. change (interrupted (a :: l) (fail_run now run)) with false in Hc. rewrite update_as_map in Hc by done. fold g in Hc.
    assert (E : count (interrupted l) (rg_runs r1) = count (interrupted (a :: l)) (g <$> rg_runs r)).
    { apply count_ext. intros y (x & -> & Hx)%list_elem_of_fmap. rewrite Hpoint by done. unfold g.
      destruct (is_run (ad_operation_id a) x); cbn [negb]; [by rewrite andb_false_r|by rewrite andb_true_r]. }
    lia.
  - rewrite Hr. cbn [rg_runs r1 set_rg_runs]. rewrite <- list_fmap_compose. apply list_fmap_ext. intros i x Hi.
    apply list_elem_of_lookup_2 in Hi. cbn [compose]. rewrite Hpoint by done. unfold g.
    destruct (is_run (ad_operation_id a) x) eqn:Ex; cbn [negb]; [|by rewrite andb_true_r].
    rewrite andb_false_r. rewrite (Hsole x Hi Ex), Hrun. done.
Qed.

(** C26: a restart leaves no run half admitted.  A reconciliation that succeeds
    answers with the number of runs that had an admission and were in flight;
    it fails exactly those, frees every delegation slot, and a second one, if
    nothing happened in between, finds none. *)
Theorem restart_fails_interrupted_runs now f n f' now' m f'' (Hs : sound limits f)
    (Hrun : reconcile_incomplete_admissions limits now f = (Ok n, f'))
    (Hagain : reconcile_incomplete_admissions limits now' f' = (Ok m, f'')) :
  n = count (interrupted (rg_admissions (reg f))) (rg_runs (reg f)) /\
  wr_delegation_reservations (wsp f') = [] /\
  (forall run, run ∈ rg_runs (reg f') ->
     interrupted (rg_admissions (reg f')) run = false /\
     exists run0, run0 ∈ rg_runs (reg f) /\
       run = if interrupted (rg_admissions (reg f)) run0 then fail_run now run0 else run0) /\
  m = 0.
Proof.
  assert (H := reconcile_stepped limits now f Hs). unfold post in H. rewrite Hrun in H. cbn [fst snd] in H.
  destruct H as [[Hs' _] (En & Ew & dropped & Ht)].
  assert (H := reconcile_stepped limits now' f' Hs'). unfold post in H. rewrite Hagain in H. cbn [fst snd] in H.
  destruct H as [_ (Em & _)]. unfold DispatchRegistry.reconcile_incomplete_admissions in *.
  assert (Hc := reconcile_counts now (rg_admissions (reg f)) (reg f) (ag_runs _ _ (so_agree _ _ Hs))).
  destruct (reconcile_admissions now _ _) as [n0 r0]. destruct Hc as (-> & Ea & _ & Er). cbn [fst snd] in *. subst n.
  assert (Hmap : forall run, run ∈ rg_runs (reg f') -> exists run0, run0 ∈ rg_runs (reg f) /\
            run = if interrupted (rg_admissions (reg f)) run0 then fail_run now run0 else run0).
  { intros run Hin. rewrite (tr_runs _ _ _ Ht) in Hin. apply elem_of_retain in Hin as [Hin _].
    rewrite Er in Hin. apply list_elem_of_fmap in Hin as (run0 & E & Hin). by exists run0. }
  assert (Hnone : forall run, run ∈ rg_runs (reg f') -> interrupted (rg_admissions (reg f')) run = false).
  { intros run (run0 & Hin & ->)%Hmap. destruct (interrupted (rg_admissions (reg f)) run0) eqn:E; [done|].
    unfold interrupted in *. destruct (live_run run0); [|done]. cbn [andb] in *. apply bool_decide_eq_false in E.
    apply bool_decide_eq_false. intros (x & Ex & Hx)%list_elem_of_fmap. apply E.
    rewrite (tr_admissions _ _ _ Ht), Ea in Hx. apply elem_of_retain in Hx as [Hx _]. rewrite Ex. by apply list_elem_of_fmap_2. }
  split_and!; [done|done|intros run Hin; split; [by apply Hnone|by apply Hmap]|].
  assert (Hc := reconcile_counts now' (rg_admissions (reg f')) (reg f') (ag_runs _ _ (so_agree _ _ Hs'))).
  destruct (reconcile_admissions now' _ _) as [m0 r1]. destruct Hc as (-> & _). cbn in Em. subst m. by apply count_zero.
Qed.

(** ** Prompts *)
Lemma find_upserted (p : WorkspacePrompt) l :
  find_first (in_slot (wp_workspace_id p) (wp_session_id p)) (upsert (in_slot (wp_workspace_id p) (wp_session_id p)) p l) = Some p.
Proof.
  assert (E : in_slot (wp_workspace_id p) (wp_session_id p) p = true) by (unfold in_slot; by rewrite !bool_decide_eq_true_2).
  unfold upsert. destruct (any _ l) eqn:Ea.
  - apply any_true in Ea as (y & Hy & Ey). clear -E Hy Ey. induction Hy as [y l|y z l Hy IH]; cbn [update_first].
    + rewrite Ey. cbn. by rewrite E.
    + destruct (in_slot _ _ z) eqn:Ez; cbn; [by rewrite E|rewrite Ez; by apply IH].
  - rewrite find_first_app. destruct (find_first _ l) as [y|] eqn:Ef; [|cbn; by rewrite E].
    apply find_first_Some in Ef as [Hy Ey]. rewrite (proj1 (any_false _ _) Ea y Hy) in Ey. done.
Qed.

(** C27: a prompt is delivered once.  A prompt that was queued is what the next
    launch in its scope is told, whatever waited there before, also in the
    document an older daemon writes, as long as the document that now holds it is
    within its byte limit (queueing does not look, see
    [long_prompt_closes_the_store]); consuming it delivers exactly this prompt
    and nothing waits any more, or fails and leaves it waiting; a later
    consumption delivers nothing.  Neither queueing nor consuming adds, drops or
    changes a prompt of another slot. *)
Theorem prompts_are_delivered_once now workspace session prompt queued_at caller operation q f f1 now' a f2
    (Hs : sound limits f)
    (Hqueue : queue_prompt_for limits now workspace session prompt queued_at caller operation f = (Ok q, f1))
    (Hconsume : consume_prompt limits now' workspace session f1 = (a, f2)) :
  q = MkQueuedPrompt session prompt queued_at caller /\
  other_slots workspace session f f1 /\ other_slots workspace session f1 f2 /\
  ((workspace_registry_len (wsp f1) <= dl_workspace_registry_bytes limits)%N ->
     queued_prompt limits workspace session f1 = (Ok (Some q), f1)) /\
  match a with
  | Ok delivered => delivered = Some q /\ waiting f2 workspace session = None /\
      forall now'' again f3, consume_prompt limits now'' workspace session f2 = (Ok again, f3) -> again = None
  | Err _ => waiting f2 workspace session = Some q
  end.
Proof.
  assert (H := queue_steps limits now workspace session prompt queued_at caller operation f Hs). unfold post in H.
  rewrite Hqueue in H. cbn [fst snd] in H. destruct H as [[Hs1 _] (Hin & -> & Hothers)]. unfold queued_in in Hin. cbn [wp_workspace_id wp_session_id] in Hin.
  set (p := MkWorkspacePrompt workspace session prompt queued_at caller operation) in *.
  assert (Hfind : find_first (in_slot workspace session) (wr_prompts (wsp f1)) = Some p).
  { rewrite Hin. apply (find_upserted p). }
  assert (Hw : waiting f1 workspace session = Some (MkQueuedPrompt session prompt queued_at caller)).
  { unfold waiting. by rewrite Hfind. }
  assert (H2 := consume_stepped limits now' workspace session f1 Hs1). unfold post in H2. rewrite Hconsume in H2. cbn [fst snd] in H2.
  destruct H2 as [[Hs2 _] [Hothers2 Hc]]. split_and!; [done|done|done| |].
  - intros Hfit. unfold queued_prompt, st_bind. by rewrite (load_workspaces_fit limits f1 Hs1 Hfit), Hfind.
  - destruct a as [d|err]; [|by rewrite <- Hw]. destruct Hc as [-> Hnone]. split_and!; [done|done|]. intros now'' again f3 E.
    assert (H3 := consume_stepped limits now'' workspace session f2 Hs2). unfold post in H3. rewrite E in H3. cbn [fst snd] in H3.
    destruct H3 as [_ [_ [-> _]]]. done.
Qed.

(** ** Delegation depth *)
Fixpoint climb (parent : SessionId -> option (option SessionId)) (cursor : option SessionId) (l : list SessionId) (last : option SessionId) : Prop :=
  match l with
  | [] => last = cursor
  | s :: l => cursor = Some s /\ exists next, parent s = Some next /\ climb parent next l last
  end.

Lemma climb_snoc parent cursor l s next : climb parent cursor l (Some s) -> parent s = Some next -> climb parent cursor (l ++ [s]) next.
Proof.
  revert cursor. induction l as [|x l IH]; intros cursor; cbn.
  - intros <- Hp. split; [done|]. by exists next.
  - intros (-> & n & Hn & Hc) Hp. split; [done|]. exists n. split; [done|by apply IH].
Qed.

Lemma depth_walk_spec parent known start fuel cursor visited :
  (forall s next, parent s = Some next -> s ∈ known) ->
  climb parent start visited cursor -> NoDup visited -> (forall s, s ∈ visited -> s ∈ known) ->
  length known < fuel + length visited ->
  exists l last, climb parent start l last /\ NoDup l /\ (forall s, s ∈ l -> s ∈ known) /\
    depth_walk fuel parent cursor (list_to_set visited) (length visited) = length l /\
    match last with None => True | Some s => s ∈ l \/ parent s = None end.
Proof.
  intros Hk. revert cursor visited. induction fuel as [|fuel IH]; intros cursor visited Hc Hn Hv Hf.
  { assert (Hlen : length visited <= length known) by (apply submseteq_length, NoDup_submseteq; done). lia. }
  destruct cursor as [s|]; [|exists visited, None; by split_and!]. cbn [depth_walk].
  case_bool_decide as Hs; [exists visited, (Some s); split_and!; try done; left; set_solver|].
  destruct (parent s) as [next|] eqn:Hp; [|exists visited, (Some s); split_and!; try done; by right].
  assert (Hnot : s ∉ visited) by set_solver.
  destruct (IH next (visited ++ [s])) as (l & last & Hl).
  - by apply climb_snoc.
  - apply NoDup_app. split_and!; [done| |apply NoDup_singleton]. intros x Hx ->%list_elem_of_singleton. done.
  - intros x [Hx|Hx]%elem_of_app; [by apply Hv|]. apply list_elem_of_singleton in Hx as ->. by eapply Hk.
  - rewrite length_app. cbn. lia.
  - exists l, last. rewrite length_app, Nat.add_1_r in Hl.
    replace ({[s]} ∪ list_to_set visited : gset SessionId) with (list_to_set (visited ++ [s]) : gset SessionId); [done|]. set_solver.
Qed.

(** The sessions the walk can know. *)
Definition known_sessions (state : option WorkspaceLifecycleState) (w : WorkspaceRegistry) : list SessionId :=
  (ms_session_id <$> default [] (wl_sessions <$> state)) ++ (li_session <$> wr_lineages w).

Lemma known_parent_known state w workspace s next : known_parent state w workspace s = Some next -> s ∈ known_sessions state w.
Proof.
  unfold known_parent, known_sessions. rewrite elem_of_app. destruct (state ≫= _) as [m|] eqn:E.
  - intros _. left. destruct state as [state|]; [|done]. cbn in *. apply find_first_Some in E as [Hm E].
    apply bool_decide_eq_true in E as <-. by apply list_elem_of_fmap_2.
  - destruct (find_first _ _) as [l|] eqn:El; [|done]. intros _. right. apply find_first_Some in El as [Hl El].
    apply andb_true_iff in El as [_ El]. apply bool_decide_eq_true in El as <-. by apply list_elem_of_fmap_2.
Qed.

(** C28: the walk up the delegations ends.  Whatever the two documents say, also
    when sessions claim each other as parents: the depth is the number of
    distinct sessions from the caller's up to the first one without a parent,
    unknown to both documents, or already passed; it is at most the number of
    sessions they know. *)
Theorem delegation_depth_terminates lifecycle caller f d f' (Hs : sound limits f)
    (Hdepth : delegation_depth limits lifecycle caller f = (Ok d, f')) :
  exists workspace loaded l last,
    owner_of (wsp f) (ca_agent_id caller) = Some workspace /\ lifecycle = Ok loaded /\
    let state := loaded ≫= fun state => if bool_decide (wl_workspace_id state = workspace) then Some state else None in
    let parent := known_parent state (wsp f) workspace in
    climb parent (ca_session_id caller) l last /\ NoDup l /\ d = length l /\ d <= sessions_known state (wsp f) /\
    match last with None => True | Some s => s ∈ l \/ parent s = None end.
Proof.
  unfold delegation_depth, st_bind in Hdepth. destruct (load_workspaces_cases limits f Hs) as [El|El]; rewrite El in Hdepth; [|done].
  unfold st_lift in Hdepth. destruct (owner_of (wsp f) (ca_agent_id caller)) as [workspace|] eqn:Eo; [|done]. cbn [ok_or] in Hdepth.
  destruct lifecycle as [loaded|]; [|done]. unfold st_ret in Hdepth. set (state := loaded ≫= _) in Hdepth.
  exists workspace, loaded. fold state.
  assert (Hd0 : d = depth_walk (S (sessions_known state (wsp f))) (known_parent state (wsp f) workspace) (ca_session_id caller) ∅ 0)
    by congruence. clear Hdepth.
  assert (Hlen : length (known_sessions state (wsp f)) = sessions_known state (wsp f)).
  { unfold known_sessions, sessions_known. by rewrite length_app, !length_fmap. }
  destruct (depth_walk_spec (known_parent state (wsp f) workspace) (known_sessions state (wsp f)) (ca_session_id caller)
              (S (sessions_known state (wsp f))) (ca_session_id caller) []) as (l & last & Hc & Hn & Hk & Hd & Hend).
  - intros s next. apply known_parent_known.
  - done.
  - constructor.
  - by intros s ?%not_elem_of_nil.
  - rewrite Hlen. cbn. lia.
  - assert (Hd' : depth_walk (S (sessions_known state (wsp f))) (known_parent state (wsp f) workspace) (ca_session_id caller) ∅ 0 = length l)
      by exact Hd.
    assert (Hle : length l <= length (known_sessions state (wsp f))) by (apply submseteq_length, NoDup_submseteq; done).
    rewrite Hd' in Hd0. exists l, last. cbv zeta. fold state. rewrite <- Hlen. subst d. by split_and!.
Qed.
End spec.

(** ** A small store *)
Module DispatchExample.
(** Documents measured by their entries and the text of their prompts. *)
#[export] Instance entries_size : DocumentSizes := {
  registry_len r := N.of_nat (length (rg_agents r) + length (rg_runs r) + length (rg_bindings r) + length (rg_admissions r));
  workspace_registry_len w :=
    N.of_nat (size (wr_agent_workspaces w) + length (wr_lineages w) + length (wr_delegation_reservations w) +
              foldr (fun p n => String.length (wp_prompt p) + n) 0 (wr_prompts w))
}.
#[export] Instance dispatch_clock : ClockRange := { checked_sub_seconds now seconds := Some (now - seconds)%Z }.

Definition limits : DispatchStoreLimits := MkDispatchStoreLimits 9 10 1000 1 1 1 0 3 1000%Z.
Definition workspace : WorkspaceId := MkWorkspaceId "w".
Definition session (s : string) : SessionId := MkSessionId s.
Definition worker : Agent :=
  MkAgent (MkAgentId "worker") (Some (session "s")) (MkAgentProfileId "p") (MkModelSelector "m") AgentStarting (Some (MkOperationId "o")).
Definition prepared (id : string) : DispatchRun := MkDispatchRun (MkOperationId id) (MkAgentId "worker") "do it" 1%Z None RunPreparing.
Definition bound (id : string) : DispatchBinding :=
  MkDispatchBinding (MkOperationId id) (MkCallerRef None (MkAgentId "root")) (MkWorkerRef (Some (session "s")) (MkAgentId "worker")).
Definition proof (id key : string) : AgentAdmissionReservation := MkAgentAdmissionReservation (MkOperationId id) key DaemonMintedEphemeral.
Definition finished (id : string) : DispatchRun := MkDispatchRun (MkOperationId id) (MkAgentId "worker") "done" 1%Z (Some 2%Z) RunCompleted.
Definition admit_one (id key : string) : StoreOp.t := StoreOp.ReserveAdmission (Some workspace) worker (prepared id) (bound id) (proof id key).
Definition nothing (io : list bool) : DispatchFiles := MkDispatchFiles Missing Missing io.
Definition started : DispatchFiles := store_op limits 5%Z (admit_one "o" "k") (nothing []).
Definition busy : list (DateTime * StoreOp.t) :=
  [(6%Z, StoreOp.UpsertRun (finished "a")); (7%Z, StoreOp.UpsertRun (finished "b")); (8%Z, StoreOp.CommitAdmission (MkOperationId "x"))].
End DispatchExample.
Import DispatchExample.

Lemma started_sound : sound limits started.
Proof. apply store_op_stepped; [apply empty_sound|done]. Qed.

(** The second write of the second reservation is refused: its worker is owned
    and not on record. *)
Lemma ownership_is_permanent_witness :
  let f' := store_ops limits [(6%Z, admit_one "p" "k")] (MkDispatchFiles (df_registry started) (df_workspaces started) [true; false]) in
  owner_of (wsp f') (MkAgentId "worker") = Some workspace /\ length (rg_runs (reg f')) = 1.
Proof.
  assert (Hs : sound limits (MkDispatchFiles (df_registry started) (df_workspaces started) [true; false])).
  { apply (sound_same limits started); [done|apply started_sound]. }
  destruct (ownership_is_permanent limits [(6%Z, admit_one "p" "k")] _ Hs ltac:(done)) as [_ H].
  destruct (H (MkAgentId "worker") workspace) as [Ho _]; [vm_compute; reflexivity|].
  split; [exact Ho|vm_compute; reflexivity].
Defined.

(** Two finished runs are more than the retention: one goes, the live run stays. *)
Lemma live_work_is_never_dropped_witness :
  let f' := store_ops limits busy started in
  prepared "o" ∈ rg_runs (reg f') /\ proof "o" "k" ∈ rg_admissions (reg f') /\ length (rg_runs (reg f')) = 2.
Proof.
  destruct (live_work_is_never_dropped limits busy started started_sound ltac:(repeat split)) as [H _].
  destruct (H (prepared "o")) as (Hr & Ha & _).
  - apply (bool_decide_unpack _). vm_compute. exact I.
  - reflexivity.
  - vm_compute. reflexivity.
  - vm_compute. reflexivity.
  - split; [exact Hr|]. split; [|vm_compute; reflexivity]. apply Ha; [|reflexivity].
    apply (bool_decide_unpack _). vm_compute. exact I.
Defined.

Lemma admission_is_reserved_once_witness :
  let f2 := store_ops limits busy started in
  reserve_admission_inner limits 9%Z (Some workspace) worker (prepared "o") (bound "o") (proof "o" "other") f2 = (Err AdmissionConflict, f2).
Proof.
  destruct (admission_is_reserved_once limits 5%Z (Some workspace) worker (prepared "o") (bound "o") (proof "o" "k") (proof "o" "k")
     (nothing []) started busy 9%Z (Some workspace) worker (prepared "o") (bound "o") (proof "o" "other")
     (empty_sound limits []) eq_refl) as [_ H].
  - rewrite (surjective_pairing (reserve_admission_inner _ _ _ _ _ _ _ _)). f_equal; vm_compute; reflexivity.
  - reflexivity.
  - repeat split.
  - vm_compute. reflexivity.
  - reflexivity.
  - reflexivity.
  - exact H.
Defined.

Lemma restart_fails_interrupted_runs_witness :
  exists f', reconcile_incomplete_admissions limits 9%Z started = (Ok 1, f') /\ reg f' <> reg started.
Proof.
  assert (E : (reconcile_incomplete_admissions limits 9%Z started).1 = Ok 1) by (vm_compute; reflexivity).
  destruct (reconcile_incomplete_admissions limits 9%Z started) as [a f'] eqn:Ef. cbn [fst] in E. subst a.
  assert (E2 : (reconcile_incomplete_admissions limits 10%Z f').1 = Ok 0).
  { replace f' with (reconcile_incomplete_admissions limits 9%Z started).2 by (by rewrite Ef). vm_compute. reflexivity. }
  destruct (reconcile_incomplete_admissions limits 10%Z f') as [b f''] eqn:Eg. cbn [fst] in E2. subst b.
  destruct (restart_fails_interrupted_runs limits 9%Z started 1 f' 10%Z 0 f'' started_sound Ef Eg) as (_ & _ & H & _).
  exists f'. split; [reflexivity|]. intros Er. destruct (H (prepared "o")) as [Hi _].
  - rewrite Er. apply (bool_decide_unpack _). vm_compute. exact I.
  - rewrite Er in Hi. vm_compute in Hi. discriminate Hi.
Defined.

Lemma prompts_are_delivered_once_witness :
  let f1 := (queue_prompt_for limits 6%Z workspace (Some (session "s")) "next" 6%Z None None started).2 in
  waiting (consume_prompt limits 7%Z workspace (Some (session "s")) (MkDispatchFiles (df_registry f1) (df_workspaces f1) [])).2
    workspace (Some (session "s")) = None.
Proof.
  intros f1.
  assert (Eq : queue_prompt_for limits 6%Z workspace (Some (session "s")) "next" 6%Z None None started =
            (Ok (MkQueuedPrompt (Some (session "s")) "next" 6%Z None), f1)).
  { unfold f1. rewrite (surjective_pairing (queue_prompt_for _ _ _ _ _ _ _ _ _)) at 1. f_equal; vm_compute; reflexivity. }
  set (c := consume_prompt limits 7%Z workspace (Some (session "s")) f1).
  destruct (prompts_are_delivered_once limits 6%Z workspace (Some (session "s")) "next" 6%Z None None _ started f1 7%Z c.1 c.2
     started_sound Eq (surjective_pairing c)) as (_ & _ & _ & _ & H).
  vm_compute. reflexivity.
Defined.

(** Two sessions that claim each other as parents. *)
Lemma delegation_depth_terminates_witness :
  let f := store_ops limits [(6%Z, StoreOp.RecordSessionParent workspace (session "s") (Some (session "t")));
                             (6%Z, StoreOp.RecordSessionParent workspace (session "t") (Some (session "s")))] started in
  exists l : list SessionId, NoDup l /\ length l = 2 /\
    (delegation_depth limits (Ok None) (MkCallerRef (Some (session "s")) (MkAgentId "worker")) f).1 = Ok (length l).
Proof.
  intros f. set (d := delegation_depth limits (Ok None) (MkCallerRef (Some (session "s")) (MkAgentId "worker")) f).
  assert (E : d.1 = Ok 2) by (vm_compute; reflexivity).
  assert (Hs : sound limits f) by (apply store_ops_stepped; [apply started_sound|repeat split]).
  destruct (delegation_depth_terminates limits (Ok None) (MkCallerRef (Some (session "s")) (MkAgentId "worker")) f 2 d.2 Hs
     ltac:(rewrite <- E; apply surjective_pairing)) as (w & loaded & l & last & _ & _ & _ & Hn & Hd & _).
  exists l. split; [exact Hn|]. split; [symmetry; exact Hd|]. by rewrite <- Hd.
Defined.

(** A prompt is stored without a look at the size of the document: one that is
    too long closes the store, also to the launch that would consume it. *)
Example long_prompt_closes_the_store :
  let q := queue_prompt_for limits 6%Z workspace None "a prompt of many characters" 6%Z None None started in
  is_ok q.1 = true /\
  (queued_prompt limits workspace None q.2).1 = Err WorkspaceRegistryOverBytes /\
  (consume_prompt limits 7%Z workspace None q.2).1 = Err WorkspaceRegistryOverBytes /\
  (reserve_admission_inner limits 7%Z (Some workspace) worker (prepared "p") (bound "p") (proof "p" "k") q.2).1 =
    Err WorkspaceRegistryOverBytes.
Proof. by vm_compute. Qed.
