(* ===== verification/PeerMessages.v ===== *)
(** * Messages between the agents of a session
    ([crates/core/src/domain/agent_message.rs],
    [crates/core/src/infrastructure/store/dispatch/messages.rs])

    A journal per managed session, apart from the inbox, so that a message is
    never consumed as the completion of a run.  The participants are looked up in
    the dispatch store; a write replaces the journal or leaves it. *)
From S2P Require Import Frontmatter.
From S2P Require Export Ipc Dispatch.

(** ** Messages *)
Record ReviewTarget := MkReviewTarget { base_sha : string; head_sha : string }.

Inductive MessageKind : Type := Message | ReviewRequest | Approved | ChangesRequested.

Record SendMessage := MkSendMessage {
  sm_message_id : OperationId;
  sm_to_agent_id : AgentId;
  sm_kind : MessageKind;
  sm_body : text;
  sm_in_reply_to : option OperationId;
  sm_review : option ReviewTarget
}.

Record AgentMessage := MkAgentMessage {
  am_from_agent_id : AgentId;
  am_from_run_id : OperationId;
  am_message : SendMessage;
  am_created_at : DateTime;
  am_acknowledged : bool
}.

#[export] Instance review_target_eq_dec : EqDecision ReviewTarget.
Proof. solve_decision. Defined.
#[export] Instance message_kind_eq_dec : EqDecision MessageKind.
Proof. solve_decision. Defined.
#[export] Instance send_message_eq_dec : EqDecision SendMessage.
Proof. solve_decision. Defined.
#[export] Instance agent_message_eq_dec : EqDecision AgentMessage.
Proof. solve_decision. Defined.

(** [matches!(sha.len(), 40 | 64) && sha.bytes().all(is_ascii_hexdigit)] *)
Definition valid_sha (sha : string) : bool :=
  ((String.length sha =? 40) || (String.length sha =? 64)) && all_bytes is_ascii_hexdigit sha.

Definition target_is_valid (r : ReviewTarget) : bool :=
  (valid_sha (base_sha r) && valid_sha (head_sha r)) && (String.length (base_sha r) =? String.length (head_sha r)).

(** [char::len_utf8], and [str::len]. *)
Definition len_utf8 (c : N) : N :=
  (if c <? 128 then 1 else if c <? 2048 then 2 else if c <? 65536 then 3 else 4)%N.
Definition body_len (t : text) : N := foldr (fun c n => len_utf8 c + n)%N 0%N t.

Definition BODY_MAX : N := 16 * 1024.

Definition message_is_valid (m : SendMessage) : bool :=
  negb (bool_decide (trim (sm_body m) = [])) && (body_len (sm_body m) <=? BODY_MAX)%N &&
  negb (bool_decide (0%N ∈ sm_body m)) && (match sm_review m with Some r => target_is_valid r | None => true end) &&
  match sm_kind m with
  | Message => bool_decide (sm_review m = None)
  | ReviewRequest => negb (bool_decide (sm_review m = None)) && bool_decide (sm_in_reply_to m = None)
  | Approved | ChangesRequested => negb (bool_decide (sm_review m = None)) && negb (bool_decide (sm_in_reply_to m = None))
  end.

Definition is_verdict (m : SendMessage) : bool :=
  match sm_kind m with Approved | ChangesRequested => true | _ => false end.

(** ** The journals *)
Definition MAX_BYTES : N := 4 * 1024 * 1024.
Definition MAX_MESSAGES : nat := 4096.

Record Messages := MkMessages { me_version : N; me_entries : list AgentMessage }.
Definition Messages_default : Messages := MkMessages 1 [].

Definition set_acknowledged (e : AgentMessage) : AgentMessage :=
  MkAgentMessage (am_from_agent_id e) (am_from_run_id e) (am_message e) (am_created_at e) true.

(** [serde_json::to_vec_pretty]: the text of [true] is no longer than that of [false]. *)
Class MessageSizes := {
  messages_len : Messages -> N;
  messages_len_acknowledged version before e after :
    (messages_len (MkMessages version (before ++ set_acknowledged e :: after)) <=
     messages_len (MkMessages version (before ++ e :: after)))%N
}.

Inductive PeerError : Type :=
| InvalidMessage | SessionRequired | AnotherAgentRequired | NotParticipant
| JournalUnreadable | JournalOverBytes | UnsupportedVersion | IdentityConflict
| ReplyNotFound | ReplyParticipants | ReviewMismatch | VerdictExists
| MessagesExhausted | BytesExhausted | PageLimit | CursorUnavailable | ReceivedNotFound
| PeerStore (error : DispatchError).

Record PeerFiles := MkPeerFiles {
  pf_store : DispatchFiles;
  pf_journals : gmap (WorkspaceId * SessionId) (Stored Messages);
  pf_io : list bool
}.

Notation peer := (st PeerFiles PeerError).

Section messages.
Context `{Z : DocumentSizes} `{M : MessageSizes} (limits : DispatchStoreLimits).

(** The journal of a session; the file ends with a newline. *)
Definition read_messages (path : WorkspaceId * SessionId) : peer Messages :=
  f <-! st_get ;;
  data <-! st_lift (match default Missing (pf_journals f !! path) with
                    | Missing => Ok Messages_default
                    | Broken => Err JournalUnreadable
                    | Document d => if (messages_len d + 1 <=? MAX_BYTES)%N then Ok d else Err JournalOverBytes
                    end) ;;
  st_ensure (me_version data =? 1)%N UnsupportedVersion ;;;
  st_ret data.

Definition write_messages (path : WorkspaceId * SessionId) (data : Messages) : peer unit := fun f =>
  let write io := MkPeerFiles (pf_store f) (<[path := Document data]> (pf_journals f)) io in
  match pf_io f with
  | [] => (Ok tt, write [])
  | done :: rest =>
      if done : bool then (Ok tt, write rest)
      else (Err (PeerStore WriteFailed), MkPeerFiles (pf_store f) (pf_journals f) rest)
  end.

Definition require_message_participant (workspace : WorkspaceId) (session : SessionId) (agent : AgentId) : peer unit :=
  f <-! st_get ;;
  item <-! st_lift (map_err PeerStore (agent_in_workspace limits workspace agent (pf_store f)).1) ;;
  st_ensure (match item with Some item => bool_decide (ag_session_id item = Some session) | None => false end) NotParticipant.

Definition has_id (id : OperationId) (e : AgentMessage) : bool := bool_decide (sm_message_id (am_message e) = id).

Definition gives_verdict (request : OperationId) (e : AgentMessage) : bool :=
  bool_decide (sm_in_reply_to (am_message e) = Some request) && is_verdict (am_message e).

(** What is asked of a reply. *)
Definition check_reply (caller : AgentId) (m : SendMessage) (entries : list AgentMessage) : result PeerError unit :=
  match sm_in_reply_to m with
  | None => Ok tt
  | Some reply =>
      original <-? ok_or (find_first (has_id reply) entries) ReplyNotFound ;;
      if negb (bool_decide (am_from_agent_id original = sm_to_agent_id m) &&
               bool_decide (sm_to_agent_id (am_message original) = caller))
      then Err ReplyParticipants
      else if negb (is_verdict m) then Ok tt
      else if negb (bool_decide (sm_kind (am_message original) = ReviewRequest) &&
                    bool_decide (sm_review (am_message original) = sm_review m))
      then Err ReviewMismatch
      else if any (gives_verdict reply) entries then Err VerdictExists
      else Ok tt
  end.

Definition send_message (now : DateTime) (workspace : WorkspaceId) (caller : CallerRef) (run : OperationId)
    (m : SendMessage) : peer AgentMessage :=
  st_ensure (message_is_valid m) InvalidMessage ;;;
  session <-! st_lift (ok_or (ca_session_id caller) SessionRequired) ;;
  st_ensure (negb (bool_decide (ca_agent_id caller = sm_to_agent_id m))) AnotherAgentRequired ;;;
  require_message_participant workspace session (ca_agent_id caller) ;;;
  require_message_participant workspace session (sm_to_agent_id m) ;;;
  data <-! read_messages (workspace, session) ;;
  match find_first (has_id (sm_message_id m)) (me_entries data) with
  | Some existing =>
      st_ensure (bool_decide (am_from_agent_id existing = ca_agent_id caller) && bool_decide (am_message existing = m))
        IdentityConflict ;;;
      st_ret existing
  | None =>
      st_lift (check_reply (ca_agent_id caller) m (me_entries data)) ;;;
      st_ensure (length (me_entries data) <? MAX_MESSAGES) MessagesExhausted ;;;
      let entry := MkAgentMessage (ca_agent_id caller) run m now false in
      let data := MkMessages (me_version data) (me_entries data ++ [entry]) in
      st_ensure (messages_len data <? MAX_BYTES)%N BytesExhausted ;;;
      write_messages (workspace, session) data ;;;
      st_ret entry
  end.

(** ** Reading *)
Definition participates (agent : AgentId) (e : AgentMessage) : bool :=
  bool_decide (am_from_agent_id e = agent) || bool_decide (sm_to_agent_id (am_message e) = agent).

Definition wanted_by (agent : AgentId) (unread_only : bool) (e : AgentMessage) : bool :=
  negb unread_only || (bool_decide (sm_to_agent_id (am_message e) = agent) && negb (am_acknowledged e)).

Definition page_offset (after : option OperationId) (visible : list AgentMessage) : result PeerError nat :=
  match after with
  | Some id => i <-? ok_or (position (has_id id) visible) CursorUnavailable ;; Ok (i + 1)
  | None => Ok 0
  end.

Definition messages (workspace : WorkspaceId) (caller : CallerRef) (after : option OperationId) (limit : nat)
    (unread_only : bool) : peer (list AgentMessage) :=
  st_ensure ((1 <=? limit) && (limit <=? 100)) PageLimit ;;;
  session <-! st_lift (ok_or (ca_session_id caller) SessionRequired) ;;
  require_message_participant workspace session (ca_agent_id caller) ;;;
  data <-! read_messages (workspace, session) ;;
  let visible := retain (participates (ca_agent_id caller)) (me_entries data) in
  offset <-! st_lift (page_offset after visible) ;;
  st_ret (take limit (retain (wanted_by (ca_agent_id caller) unread_only) (drop offset visible))).

Definition received (agent : AgentId) (id : OperationId) (e : AgentMessage) : bool :=
  has_id id e && bool_decide (sm_to_agent_id (am_message e) = agent).

Definition acknowledge_message (workspace : WorkspaceId) (caller : CallerRef) (id : OperationId) : peer unit :=
  session <-! st_lift (ok_or (ca_session_id caller) SessionRequired) ;;
  require_message_participant workspace session (ca_agent_id caller) ;;;
  data <-! read_messages (workspace, session) ;;
  st_ensure (any (received (ca_agent_id caller) id) (me_entries data)) ReceivedNotFound ;;;
  write_messages (workspace, session)
    (MkMessages (me_version data) (update_first (received (ca_agent_id caller) id) set_acknowledged (me_entries data))).
End messages.
