(* ===== verification/PeerMessagesSpec.v ===== *)
(** * What the messages between agents promise

    The journals after any history of sends, acknowledgements and changes of the
    dispatch store, with any answers of the disk: they open, every reply answers
    an earlier message of its addressee, a review has one verdict, a message is
    recorded once, and the pages of a participant enumerate its messages. *)
From S2P Require Export PeerMessages.

Module PeerOp.
Inductive t : Type :=
| Send (workspace : WorkspaceId) (caller : CallerRef) (run : OperationId) (m : SendMessage)
| Acknowledge (workspace : WorkspaceId) (caller : CallerRef) (id : OperationId)
| Elsewhere (store : DispatchFiles).
End PeerOp.

Notation id_of e := (sm_message_id (am_message e)).
Notation to_of e := (sm_to_agent_id (am_message e)).

(** ** Entries *)
Lemma set_acknowledged_idemp e : set_acknowledged (set_acknowledged e) = set_acknowledged e.
Proof. done. Qed.

(** Acknowledging changes nothing else. *)
Lemma acknowledged_update p l : set_acknowledged <$> update_first p set_acknowledged l = set_acknowledged <$> l.
Proof. by apply fmap_update_first. Qed.

Lemma find_first_fmap {A B} (g : A -> B) (p : B -> bool) (q : A -> bool) l :
  (forall x, p (g x) = q x) -> find_first p (g <$> l) = g <$> find_first q l.
Proof. intros H. induction l as [|x l IH]; [done|]. cbn. rewrite H. destruct (q x); [done|exact IH]. Qed.

Lemma any_fmap {A B} (g : A -> B) (p : B -> bool) (q : A -> bool) l :
  (forall x, p (g x) = q x) -> any p (g <$> l) = any q l.
Proof. intros H. unfold any. induction l as [|x l IH]; [done|]. cbn. by rewrite H, IH. Qed.

Lemma check_reply_acknowledged a m l : check_reply a m (set_acknowledged <$> l) = check_reply a m l.
Proof.
  unfold check_reply. destruct (sm_in_reply_to m) as [r|]; [|done].
  rewrite (find_first_fmap _ _ (has_id r)) by done.
  destruct (find_first (has_id r) l) as [o|]; [|done]. cbn.
  by rewrite (any_fmap _ _ (gives_verdict r)) by done.
Qed.

(** What a send asks of a journal. *)
Definition admissible (l : list AgentMessage) (e : AgentMessage) : Prop :=
  message_is_valid (am_message e) = true /\ am_from_agent_id e <> to_of e /\
  id_of e ∉ ((fun e => id_of e) <$> l) /\
  check_reply (am_from_agent_id e) (am_message e) l = Ok tt /\ length l < MAX_MESSAGES.

Inductive grown : list AgentMessage -> Prop :=
| grown_nil : grown []
| grown_snoc l e : grown l -> admissible l e -> grown (l ++ [e]).

Lemma admissible_acknowledged l l' e e' :
  set_acknowledged <$> l = set_acknowledged <$> l' -> set_acknowledged e = set_acknowledged e' ->
  admissible l e -> admissible l' e'.
Proof.
  intros Hl He (Hv & Hn & Hi & Hc & Hlen).
  destruct e as [fr ru m at_ ak], e' as [fr' ru' m' at' ak']. injection He as -> -> -> ->.
  repeat split; cbn in *; try done.
  - assert (Hk : ((fun e => id_of e) <$> l') = ((fun e => id_of e) <$> l)).
    { change (fun e => id_of e) with ((fun e => id_of e) ∘ set_acknowledged).
      by rewrite !list_fmap_compose, Hl. }
    by rewrite Hk.
  - by rewrite <- check_reply_acknowledged, <- Hl, check_reply_acknowledged.
  - apply (f_equal length) in Hl. rewrite !length_fmap in Hl. lia.
Qed.

Lemma grown_acknowledged l l' : set_acknowledged <$> l = set_acknowledged <$> l' -> grown l -> grown l'.
Proof.
  intros Hl H. revert l' Hl. induction H as [|l e H IH Ha]; intros l' Hl.
  - symmetry in Hl. apply fmap_nil_inv in Hl. subst. constructor.
  - rewrite fmap_app in Hl. symmetry in Hl. apply fmap_app_inv in Hl as (l1 & l2 & H1 & H2 & ->).
    cbn in H2. symmetry in H2. apply fmap_cons_inv in H2 as (e' & r & He & Hr & ->). symmetry in Hr. apply fmap_nil_inv in Hr as ->.
    constructor; [by apply IH|by eapply admissible_acknowledged].
Qed.

Lemma check_reply_ok a m l reply :
  check_reply a m l = Ok tt -> sm_in_reply_to m = Some reply ->
  exists original, original ∈ l /\ id_of original = reply /\
    am_from_agent_id original = sm_to_agent_id m /\ to_of original = a /\
    (is_verdict m = true ->
       sm_kind (am_message original) = ReviewRequest /\ sm_review (am_message original) = sm_review m /\
       count (gives_verdict reply) l = 0).
Proof.
  unfold check_reply. intros H E0. rewrite E0 in H.
  destruct (find_first (has_id reply) l) as [o|] eqn:E; [|done]. cbn [ok_or res_bind] in H.
  apply find_first_Some in E as [Ho Hid]. unfold has_id in Hid. apply bool_decide_eq_true in Hid.
  destruct (bool_decide _ && bool_decide _) eqn:Ep in H; [|done]. cbn [negb] in H.
  apply andb_prop in Ep as [Ef%bool_decide_eq_true Et%bool_decide_eq_true].
  exists o. repeat split; try done.
  all: destruct (is_verdict m); [|done]; cbn [negb] in H.
  all: destruct (bool_decide _ && bool_decide _) eqn:Er in H; [|done]; cbn [negb] in H.
  all: apply andb_prop in Er as [Ek%bool_decide_eq_true Ev%bool_decide_eq_true]; try done.
  destruct (any (gives_verdict reply) l) eqn:Ea; [done|].
  apply count_zero. intros x Hx. destruct (gives_verdict reply x) eqn:Ex; [|done].
  exfalso. rewrite <- not_true_iff_false in Ea. apply Ea. apply existsb_exists. exists x.
  split; [by apply list_elem_of_In|done].
Qed.

(** What the journals stand for, read off the entries. *)
Lemma grown_spec l : grown l ->
  NoDup ((fun e => id_of e) <$> l) /\ length l <= MAX_MESSAGES /\
  (forall request, count (gives_verdict request) l <= 1) /\
  forall before e after, l = before ++ e :: after ->
    message_is_valid (am_message e) = true /\ am_from_agent_id e <> to_of e /\
    check_reply (am_from_agent_id e) (am_message e) before = Ok tt.
Proof.
  induction 1 as [|l e H IH Ha].
  - split; [constructor|]. split; [cbn; lia|]. split; [cbn; lia|]. by intros [].
  - destruct IH as (Hn & Hlen & Hc & Hs), Ha as (Hv & Hne & Hi & Hr & Hlt).
    split; [|split; [|split]].
    + rewrite fmap_app. apply NoDup_app. split; [done|]. split; [|apply NoDup_singleton].
      intros x Hx ->%list_elem_of_singleton. done.
    + rewrite length_app. cbn. lia.
    + intros request. rewrite count_app, count_cons. specialize (Hc request).
      destruct (gives_verdict request e) eqn:Eg; cbn [count retain length]; [|lia].
      apply andb_prop in Eg as [Er%bool_decide_eq_true Ev].
      destruct (check_reply_ok _ _ _ _ Hr Er) as (o & _ & _ & _ & _ & Hz).
      destruct (Hz Ev) as (_ & _ & Hz0). unfold count in *. cbn. lia.
    + intros before x after E. destruct (decide (after = [])) as [->|Hne'].
      * apply app_inj_tail in E as [-> ->]. done.
      * destruct (exists_last Hne') as (after' & y & ->). rewrite app_comm_cons, app_assoc in E.
        apply app_inj_tail in E as [-> ->]. by apply (Hs before x after').
Qed.

Section spec.
Context `{Z : DocumentSizes} `{M : MessageSizes} (limits : DispatchStoreLimits).

Definition peer_op (now : DateTime) (op : PeerOp.t) (f : PeerFiles) : PeerFiles :=
  match op with
  | PeerOp.Send workspace caller run m => (send_message limits now workspace caller run m f).2
  | PeerOp.Acknowledge workspace caller id => (acknowledge_message limits workspace caller id f).2
  | PeerOp.Elsewhere store => MkPeerFiles store (pf_journals f) (pf_io f)
  end.

Definition peer_ops (ops : list (DateTime * PeerOp.t)) (f : PeerFiles) : PeerFiles :=
  foldl (fun f op => peer_op op.1 op.2 f) f ops.

Definition no_messages (store : DispatchFiles) (answers : list bool) : PeerFiles := MkPeerFiles store ∅ answers.

(** The journal a session reads. *)
Definition journal_at (f : PeerFiles) (path : WorkspaceId * SessionId) : list AgentMessage :=
  match default Missing (pf_journals f !! path) with Document d => me_entries d | _ => [] end.

Definition readable (s : Stored Messages) : Prop :=
  match s with
  | Missing => True
  | Broken => False
  | Document d => me_version d = 1%N /\ (messages_len d < MAX_BYTES)%N
  end.

Definition opens (f : PeerFiles) : Prop := forall path, readable (default Missing (pf_journals f !! path)).

Lemma read_opens f path : opens f -> read_messages path f = (Ok (MkMessages 1 (journal_at f path)), f).
Proof.
  intros H. specialize (H path). unfold read_messages, journal_at, st_bind, st_get, st_lift, st_ensure, st_ret.
  destruct (default Missing (pf_journals f !! path)) as [| |d]; cbn in *; [done|done|].
  destruct H as [Hv Hl]. destruct (N.leb_spec (messages_len d + 1) MAX_BYTES); [|lia]. cbn.
  rewrite Hv. by destruct d as [v es]; cbn in *; subst.
Qed.

(** The agent is registered for the session. *)
Definition participant (f : PeerFiles) (workspace : WorkspaceId) (session : SessionId) (agent : AgentId) : bool :=
  match (agent_in_workspace limits workspace agent (pf_store f)).1 with
  | Ok (Some item) => bool_decide (ag_session_id item = Some session)
  | _ => false
  end.

Lemma require_spec workspace session agent f :
  exists e, require_message_participant limits workspace session agent f =
    ((if participant f workspace session agent then Ok tt else Err e), f).
Proof.
  unfold require_message_participant, participant, st_bind, st_get, st_lift, st_ensure, st_ret, st_throw, map_err.
  destruct (agent_in_workspace limits workspace agent (pf_store f)).1 as [[item|]|e]; cbn; [|by exists NotParticipant|by exists (PeerStore e)].
  destruct (bool_decide _); [by exists NotParticipant|by exists NotParticipant].
Qed.

(** What a write leaves. *)
Definition wrote (path : WorkspaceId * SessionId) (data : Messages) (f f' : PeerFiles) : Prop :=
  pf_journals f' = <[path := Document data]> (pf_journals f) /\ pf_store f' = pf_store f.
Definition unchanged (f f' : PeerFiles) : Prop := pf_journals f' = pf_journals f /\ pf_store f' = pf_store f.

Lemma write_messages_spec path data f :
  post (write_messages path data) (fun r f' => match r with Ok _ => wrote path data f f' | Err _ => unchanged f f' end) f.
Proof. unfold post, write_messages. destruct (pf_io f) as [|[] io]; done. Qed.

(** *** Sending *)
Definition new_entry (caller : CallerRef) (run : OperationId) (m : SendMessage) (now : DateTime) : AgentMessage :=
  MkAgentMessage (ca_agent_id caller) run m now false.

Lemma send_spec now workspace caller run m f (Ho : opens f) :
  post (send_message limits now workspace caller run m) (fun r f' =>
    match r with
    | Err _ => unchanged f f'
    | Ok e =>
        exists session, ca_session_id caller = Some session /\
          participant f workspace session (ca_agent_id caller) = true /\
          participant f workspace session (sm_to_agent_id m) = true /\
          let l := journal_at f (workspace, session) in
          am_from_agent_id e = ca_agent_id caller /\ am_message e = m /\
          ((f' = f /\ e ∈ l) \/
           (e = new_entry caller run m now /\ admissible l e /\ (messages_len (MkMessages 1 (l ++ [e])) < MAX_BYTES)%N /\
            wrote (workspace, session) (MkMessages 1 (l ++ [e])) f f'))
    end) f.
Proof.
  unfold send_message. apply post_ensure; intros Hv; [|by split].
  apply post_lift. destruct (ca_session_id caller) as [session|] eqn:Hs; cbn [ok_or]; [|by split].
  apply post_ensure; intros Hne; [|by split].
  destruct (require_spec workspace session (ca_agent_id caller) f) as (e1 & E1).
  destruct (require_spec workspace session (sm_to_agent_id m) f) as (e2 & E2).
  apply post_bind. unfold post at 1. rewrite E1. cbn [fst snd].
  destruct (participant f workspace session (ca_agent_id caller)) eqn:P1; [|by split].
  apply post_bind. unfold post at 1. rewrite E2. cbn [fst snd].
  destruct (participant f workspace session (sm_to_agent_id m)) eqn:P2; [|by split].
  apply post_bind. unfold post at 1. rewrite read_opens by done. cbn [fst snd me_entries me_version].
  destruct (find_first _ _) as [existing|] eqn:Ef.
  - apply post_ensure; intros Hsame; [|by split]. apply post_ret.
    apply andb_prop in Hsame as [Ha%bool_decide_eq_true Hm%bool_decide_eq_true].
    apply find_first_Some in Ef as [Hin _].
    exists session. repeat split; try done. by left.
  - apply post_lift. destruct (check_reply _ _ _) as [[]|] eqn:Hr; [|by split].
    apply post_ensure; intros Hlen; [|by split].
    apply post_ensure; intros Hb; [|by split]. apply post_bind. eapply post_mono; [apply write_messages_spec|].
    intros [[]|e] f' Hw; [|done]. apply post_ret.
    exists session. repeat split; try done.
    right. apply N.ltb_lt in Hb. apply Nat.ltb_lt in Hlen. apply negb_true_iff, bool_decide_eq_false in Hne.
    repeat split; try done; try apply Hw. cbn. intros (x & Hx & Hin)%list_elem_of_fmap.
    assert (Hf := proj1 (find_first_None _ _) Ef x Hin). unfold has_id in Hf. by apply bool_decide_eq_false in Hf.
Qed.

(** *** Acknowledging *)
Lemma acknowledge_message_spec workspace caller id f (Ho : opens f) :
  post (acknowledge_message limits workspace caller id) (fun r f' =>
    match r with
    | Err _ => unchanged f f'
    | Ok _ =>
        exists session, ca_session_id caller = Some session /\
          participant f workspace session (ca_agent_id caller) = true /\
          let l := journal_at f (workspace, session) in
          any (received (ca_agent_id caller) id) l = true /\
          wrote (workspace, session) (MkMessages 1 (update_first (received (ca_agent_id caller) id) set_acknowledged l)) f f'
    end) f.
Proof.
  unfold acknowledge_message.
  apply post_lift. destruct (ca_session_id caller) as [session|] eqn:Hs; cbn [ok_or]; [|by split].
  destruct (require_spec workspace session (ca_agent_id caller) f) as (e1 & E1).
  apply post_bind. unfold post at 1. rewrite E1. cbn [fst snd].
  destruct (participant f workspace session (ca_agent_id caller)) eqn:P1; [|by split].
  apply post_bind. unfold post at 1. rewrite read_opens by done. cbn [fst snd me_entries me_version].
  apply post_ensure; intros Ha; [|by split].
  eapply post_mono; [apply write_messages_spec|]. intros [[]|e] f' Hw; [|done].
  by exists session.
Qed.

Lemma journal_wrote path data f f' p :
  wrote path data f f' -> journal_at f' p = if decide (p = path) then me_entries data else journal_at f p.
Proof.
  intros [Hj _]. unfold journal_at. rewrite Hj. destruct (decide (p = path)) as [->|Hp].
  - by rewrite lookup_insert_eq.
  - by rewrite lookup_insert_ne.
Qed.

Lemma opens_wrote path l f f' :
  opens f -> (messages_len (MkMessages 1 l) < MAX_BYTES)%N -> wrote path (MkMessages 1 l) f f' -> opens f'.
Proof.
  intros Ho Hl [Hj _] p. rewrite Hj. destruct (decide (p = path)) as [->|Hp].
  - by rewrite lookup_insert_eq.
  - rewrite lookup_insert_ne by done. apply Ho.
Qed.

Lemma update_first_split {A} (p : A -> bool) g (l : list A) :
  any p l = true -> exists before x after, l = before ++ x :: after /\ p x = true /\
    update_first p g l = before ++ g x :: after.
Proof.
  unfold any. induction l as [|y l IH]; [done|]. cbn. destruct (p y) eqn:E.
  - intros _. by exists [], y, l.
  - intros (before & x & after & -> & Hx & ->)%IH. by exists (y :: before), x, after.
Qed.

Lemma opens_len f path : opens f -> journal_at f path <> [] -> (messages_len (MkMessages 1 (journal_at f path)) < MAX_BYTES)%N.
Proof.
  intros H. specialize (H path). unfold journal_at.
  destruct (default Missing (pf_journals f !! path)) as [| |d]; cbn in *; [done|done|].
  destruct H as [Hv Hl]. intros _. destruct d; cbn in *; by subst.
Qed.

(** ** The invariant *)
Definition sound (f : PeerFiles) : Prop := opens f /\ forall path, grown (journal_at f path).

(** The recipient of [e] acknowledged it. *)
Definition acknowledges (path : WorkspaceId * SessionId) (e : AgentMessage) (op : PeerOp.t) : Prop :=
  match op with
  | PeerOp.Acknowledge workspace caller id =>
      workspace = path.1 /\ ca_session_id caller = Some path.2 /\ id = id_of e /\ ca_agent_id caller = to_of e
  | _ => False
  end.

Definition keeps (path : WorkspaceId * SessionId) (asked : AgentMessage -> Prop) (l l' : list AgentMessage) : Prop :=
  forall e, e ∈ l -> exists e', e' ∈ l' /\ set_acknowledged e' = set_acknowledged e /\ (e' = e \/ asked e).

Lemma keeps_refl path asked l : keeps path asked l l.
Proof. intros e He. exists e. auto. Qed.

Lemma op_sound now op f : sound f ->
  sound (peer_op now op f) /\
  forall path, keeps path (fun e => acknowledges path e op) (journal_at f path) (journal_at (peer_op now op f) path).
Proof.
  intros [Ho Hg]. assert (Hsame : forall f', pf_journals f' = pf_journals f -> sound f' /\
    forall path, keeps path (fun e => acknowledges path e op) (journal_at f path) (journal_at f' path)).
  { intros f' Hj. unfold sound, opens, journal_at. rewrite Hj. repeat split; try done. intros path. apply keeps_refl. }
  destruct op as [workspace caller run m|workspace caller id|store]; cbn [peer_op].
  - assert (H := send_spec now workspace caller run m f Ho). unfold post in H.
    destruct (send_message _ _ _ _ _ _ f) as [[e|err] f']; cbn [fst snd] in *; [|by apply Hsame, H].
    destruct H as (session & Hs & _ & _ & Hfrom & Hm & [[-> He]|(-> & Ha & Hb & Hw)]).
    { by apply Hsame. }
    split; [split; [by eapply opens_wrote|]|]; intros path; rewrite (journal_wrote _ _ _ _ _ Hw).
    + destruct (decide _) as [->|]; [by constructor|apply Hg].
    + destruct (decide _) as [->|]; [|apply keeps_refl]. intros e He. exists e. cbn. set_solver.
  - assert (H := acknowledge_message_spec workspace caller id f Ho). unfold post in H.
    destruct (acknowledge_message _ _ _ _ f) as [[u|err] f']; cbn [fst snd] in *; [|by apply Hsame, H].
    destruct H as (session & Hs & _ & Ha & Hw).
    destruct (update_first_split _ set_acknowledged _ Ha) as (before & x & after & Hl & Hx & Hu).
    assert (Hlen := opens_len f (workspace, session) Ho).
    split; [split|].
    + eapply opens_wrote; [done| |done]. rewrite Hu. eapply N.le_lt_trans; [apply messages_len_acknowledged|].
      rewrite Hl in Hlen. apply Hlen. by destruct before.
    + intros path. rewrite (journal_wrote _ _ _ _ _ Hw). destruct (decide _) as [->|]; [|apply Hg].
      eapply grown_acknowledged; [|apply Hg]. symmetry. apply acknowledged_update.
    + intros path. rewrite (journal_wrote _ _ _ _ _ Hw). destruct (decide _) as [->|]; [|apply keeps_refl].
      cbn [me_entries]. rewrite Hu, Hl. intros e He.
      destruct (decide (e = x)) as [->|Hne].
      * exists (set_acknowledged x). split; [set_solver|]. split; [done|]. right. cbn.
        unfold received, has_id in Hx. apply andb_prop in Hx as [<-%bool_decide_eq_true ->%bool_decide_eq_true]. done.
      * exists e. split; [set_solver|]. auto.
  - by apply Hsame.
Qed.

Lemma acknowledges_same path e e' op :
  set_acknowledged e' = set_acknowledged e -> acknowledges path e' op -> acknowledges path e op.
Proof. destruct e, e'. by intros [= -> -> -> ->]. Qed.

Lemma ops_sound ops f : sound f ->
  sound (peer_ops ops f) /\
  forall path, keeps path (fun e => exists op, op ∈ ops /\ acknowledges path e op.2) (journal_at f path) (journal_at (peer_ops ops f) path).
Proof.
  revert f. induction ops as [|[now op] ops IH]; intros f Hs; [split; [done|]; intros path; apply keeps_refl|].
  destruct (op_sound now op f Hs) as [Hs1 Hk1]. destruct (IH _ Hs1) as [Hs2 Hk2].
  split; [done|]. intros path e He.
  destruct (Hk1 path e He) as (e1 & He1 & Hsame1 & Hor1). destruct (Hk2 path e1 He1) as (e2 & He2 & Hsame2 & Hor2).
  exists e2. split; [done|]. split; [congruence|].
  destruct Hor2 as [->|(o & Hin & Hack)].
  - destruct Hor1 as [->|Hack]; [by left|]. right. exists (now, op). split; [by left|done].
  - right. exists o. split; [by right|]. by eapply acknowledges_same.
Qed.

Lemma no_messages_sound store answers : sound (no_messages store answers).
Proof.
  split; intros path; unfold journal_at; cbn; rewrite lookup_empty; [done|constructor].
Qed.

Lemma history_sound ops store answers : sound (peer_ops ops (no_messages store answers)).
Proof. apply ops_sound, no_messages_sound. Qed.

Lemma grown_unique l e e' : grown l -> e ∈ l -> e' ∈ l -> id_of e = id_of e' -> e = e'.
Proof. intros H He He' Hid. destruct (grown_spec l H) as (Hn & _). by eapply (keys_inj (fun e => id_of e)). Qed.

(** C31: The journal of a session opens after any history of sends,
    acknowledgements and changes of the dispatch store, whichever writes were
    refused.  Its identities are distinct and it is within its capacity; every
    message is valid and between two agents; a reply answers an earlier message
    its addressee sent to its sender; a verdict answers a review request for the
    same commits, and no request has two. *)
Theorem reviews_have_one_verdict ops store answers path :
  let f := peer_ops ops (no_messages store answers) in
  let l := journal_at f path in
  read_messages path f = (Ok (MkMessages 1 l), f) /\
  NoDup ((fun e => id_of e) <$> l) /\ length l <= MAX_MESSAGES /\
  (forall request, count (gives_verdict request) l <= 1) /\
  forall before e after, l = before ++ e :: after ->
    message_is_valid (am_message e) = true /\ am_from_agent_id e <> to_of e /\
    forall reply, sm_in_reply_to (am_message e) = Some reply ->
      exists original, original ∈ before /\ id_of original = reply /\
        am_from_agent_id original = to_of e /\ to_of original = am_from_agent_id e /\
        (is_verdict (am_message e) = true ->
           sm_kind (am_message original) = ReviewRequest /\ sm_review (am_message original) = sm_review (am_message e)).
Proof.
  intros f l. destruct (history_sound ops store answers) as [Ho Hg].
  destruct (grown_spec _ (Hg path)) as (Hn & Hlen & Hc & Hs).
  split; [by apply read_opens|]. do 3 (split; [done|]). intros before e after E.
  destruct (Hs before e after E) as (Hv & Hne & Hr). do 2 (split; [done|]). intros reply Er.
  destruct (check_reply_ok _ _ _ _ Hr Er) as (o & Ho1 & Hid & Hf & Ht & Hver).
  exists o. repeat split; try done; by apply Hver.
Qed.

(** A send under an identity that is in the journal. *)
Lemma resend_spec now workspace session caller run m e f (Hsound : sound f)
    (He : e ∈ journal_at f (workspace, session)) (Hs : ca_session_id caller = Some session)
    (Hid : sm_message_id m = id_of e) (Hv : message_is_valid m = true) (Hne : ca_agent_id caller <> sm_to_agent_id m)
    (P1 : participant f workspace session (ca_agent_id caller) = true)
    (P2 : participant f workspace session (sm_to_agent_id m) = true) :
  send_message limits now workspace caller run m f =
    ((if decide (ca_agent_id caller = am_from_agent_id e /\ m = am_message e) then Ok e else Err IdentityConflict), f).
Proof.
  destruct Hsound as [Ho Hg].
  destruct (require_spec workspace session (ca_agent_id caller) f) as (e1 & E1). rewrite P1 in E1.
  destruct (require_spec workspace session (sm_to_agent_id m) f) as (e2 & E2). rewrite P2 in E2.
  assert (Ef : find_first (has_id (sm_message_id m)) (journal_at f (workspace, session)) = Some e).
  { destruct (find_first_is_Some (has_id (sm_message_id m)) _ e He) as [x Hx]; [by apply bool_decide_eq_true|].
    rewrite Hx. apply find_first_Some in Hx as [Hx Hxid]. apply bool_decide_eq_true in Hxid.
    f_equal. eapply grown_unique; [apply (Hg (workspace, session))|done|done|congruence]. }
  unfold send_message. rewrite Hs, Hv. rewrite bool_decide_false by done.
  unfold st_bind at 1. cbn [st_ensure st_ret]. unfold st_bind at 1. cbn [st_lift ok_or].
  unfold st_bind at 1. cbn [st_ensure st_ret negb]. unfold st_bind at 1. rewrite E1.
  unfold st_bind at 1. rewrite E2. unfold st_bind at 1. rewrite read_opens by done. cbn [me_entries]. rewrite Ef.
  destruct (decide _) as [[Ha Hm]|Hno].
  - by rewrite !bool_decide_true.
  - destruct (bool_decide (am_from_agent_id e = ca_agent_id caller)) eqn:Ea; [|done].
    destruct (bool_decide (am_message e = m)) eqn:Em; [|done].
    apply bool_decide_eq_true in Ea, Em. by destruct Hno.
Qed.

(** C32: A message whose send succeeded came from a registered participant to
    another one.  Whatever happens later it is the one entry of its identity,
    unchanged but for an acknowledgement, which only its recipient gives.  A
    repeated send is answered with that entry, another message under the same
    identity is refused as a conflict, and neither changes anything. *)
Theorem messages_are_sent_once before after store answers now workspace caller run m e f1
    (Hsend : send_message limits now workspace caller run m (peer_ops before (no_messages store answers)) = (Ok e, f1)) :
  let f := peer_ops before (no_messages store answers) in
  let f2 := peer_ops after f1 in
  exists session e',
    ca_session_id caller = Some session /\
    participant f workspace session (ca_agent_id caller) = true /\
    participant f workspace session (sm_to_agent_id m) = true /\
    am_from_agent_id e = ca_agent_id caller /\ am_message e = m /\
    (forall x, x ∈ journal_at f2 (workspace, session) /\ id_of x = sm_message_id m <-> x = e') /\
    set_acknowledged e' = set_acknowledged e /\
    (e' = e \/ exists op, op ∈ after /\ acknowledges (workspace, session) e op.2) /\
    forall now' caller' run' m',
      ca_session_id caller' = Some session -> sm_message_id m' = sm_message_id m ->
      message_is_valid m' = true -> ca_agent_id caller' <> sm_to_agent_id m' ->
      participant f2 workspace session (ca_agent_id caller') = true ->
      participant f2 workspace session (sm_to_agent_id m') = true ->
      send_message limits now' workspace caller' run' m' f2 =
        ((if decide (ca_agent_id caller' = ca_agent_id caller /\ m' = m) then Ok e' else Err IdentityConflict), f2).
Proof.
  intros f f2. destruct (history_sound before store answers) as [Ho Hg].
  assert (H := send_spec now workspace caller run m f Ho). unfold post in H. fold f in Hsend. rewrite Hsend in H. cbn [fst snd] in H.
  destruct H as (session & Hs & P1 & P2 & Hfrom & Hm & Hcase).
  assert (Hs1 : sound f1).
  { assert (H := op_sound now (PeerOp.Send workspace caller run m) f (conj Ho Hg)). cbn [peer_op] in H. rewrite Hsend in H. apply H. }
  assert (He : e ∈ journal_at f1 (workspace, session)).
  { destruct Hcase as [[-> He]|(_ & _ & _ & Hw)]; [done|]. rewrite (journal_wrote _ _ _ _ _ Hw), decide_True by done. cbn. set_solver. }
  destruct (ops_sound after f1 Hs1) as [[Ho2 Hg2] Hk].
  destruct (Hk _ e He) as (e' & He' & Hsame & Hor). fold f2 in Ho2, Hg2, He'.
  assert (Hid : am_from_agent_id e' = ca_agent_id caller /\ am_message e' = m).
  { rewrite <- Hfrom, <- Hm. destruct e, e'. by injection Hsame as -> -> -> ->. }
  destruct Hid as [Hfrom' Hm'].
  exists session, e'. do 5 (split; [done|]). split; [|split; [done|split; [done|]]].
  - intros x. split; [intros [Hx Hid]|intros ->; by rewrite Hm'].
    eapply grown_unique; [apply Hg2|done|done|]. by rewrite Hm'.
  - intros now' caller' run' m' Hs' Hid Hv Hne Pa Pb. rewrite <- Hfrom', <- Hm'. rewrite <- Hm' in Hid.
    by eapply resend_spec.
Qed.

(** ** Pages *)
Lemma messages_spec workspace caller session after limit unread_only f (Ho : opens f)
    (Hs : ca_session_id caller = Some session) (Hlimit : 1 <= limit <= 100)
    (P : participant f workspace session (ca_agent_id caller) = true) :
  messages limits workspace caller after limit unread_only f =
    (let visible := retain (participates (ca_agent_id caller)) (journal_at f (workspace, session)) in
     offset <-? page_offset after visible ;;
     Ok (take limit (retain (wanted_by (ca_agent_id caller) unread_only) (drop offset visible))), f).
Proof.
  destruct (require_spec workspace session (ca_agent_id caller) f) as (e1 & E1). rewrite P in E1.
  unfold messages. rewrite (proj2 (Nat.leb_le 1 limit)), (proj2 (Nat.leb_le limit 100)), Hs by lia.
  unfold st_bind at 1. cbn [st_ensure st_ret andb]. unfold st_bind at 1. cbn [st_lift ok_or].
  unfold st_bind at 1. rewrite E1. unfold st_bind at 1. rewrite read_opens by done. cbn [me_entries].
  unfold st_bind, st_lift. by destruct (page_offset _ _).
Qed.

(** A reader that follows the pages until one is empty. *)
Fixpoint read_pages (fuel : nat) (workspace : WorkspaceId) (caller : CallerRef) (after : option OperationId) (limit : nat)
    (unread_only : bool) : peer (list AgentMessage) :=
  match fuel with
  | 0 => st_ret []
  | S fuel =>
      page <-! messages limits workspace caller after limit unread_only ;;
      match last page with
      | None => st_ret []
      | Some e =>
          rest <-! read_pages fuel workspace caller (Some (id_of e)) limit unread_only ;;
          st_ret (page ++ rest)
      end
  end.

Lemma last_taken (w : AgentMessage -> bool) limit l e :
  last (take limit (retain w l)) = Some e ->
  exists l1 l2, l = l1 ++ e :: l2 /\ retain w l2 = drop limit (retain w l).
Proof.
  revert limit. induction l as [|x l IH]; intros limit; cbn; [by destruct limit|].
  destruct (w x); [|intros (l1 & l2 & -> & H)%IH; by exists (x :: l1), l2].
  destruct limit as [|limit]; [done|]. cbn [take drop].
  destruct (take limit (retain w l)) as [|y t] eqn:E.
  - intros [= <-]. exists [], l. split; [done|]. destruct limit; [done|].
    destruct (retain w l); [done|discriminate].
  - intros H. rewrite <- E in H. destruct (IH limit) as (l1 & l2 & -> & Hr).
    { by rewrite E in H |- *. }
    by exists (x :: l1), l2.
Qed.

Lemma position_id l1 e l2 : NoDup ((fun e => id_of e) <$> (l1 ++ e :: l2)) ->
  position (has_id (id_of e)) (l1 ++ e :: l2) = Some (length l1).
Proof.
  induction l1 as [|x l1 IH]; cbn; intros H.
  - unfold has_id. by rewrite bool_decide_true.
  - apply NoDup_cons in H as [Hx H]. unfold has_id at 1. rewrite bool_decide_false.
    + by rewrite IH.
    + intros Hid. apply Hx. rewrite Hid, fmap_app. set_solver.
Qed.

Lemma pages_from fuel workspace caller session after limit unread_only f n :
  sound f -> ca_session_id caller = Some session -> 1 <= limit <= 100 ->
  participant f workspace session (ca_agent_id caller) = true ->
  let visible := retain (participates (ca_agent_id caller)) (journal_at f (workspace, session)) in
  let rest := retain (wanted_by (ca_agent_id caller) unread_only) (drop n visible) in
  page_offset after visible = Ok n -> length rest < fuel ->
  read_pages fuel workspace caller after limit unread_only f = (Ok rest, f).
Proof.
  intros [Ho Hg] Hs Hlimit P. revert after n. induction fuel as [|fuel IH]; intros after n; [lia|].
  cbn zeta. set (visible := retain (participates _) _). set (rest := retain _ (drop n visible)). intros Hoff Hfuel.
  cbn [read_pages]. unfold st_bind at 1. rewrite (messages_spec _ _ session) by done. cbn zeta. fold visible.
  rewrite Hoff. cbn [res_bind]. fold rest. destruct (last (take limit rest)) as [e|] eqn:El.
  - destruct (last_taken _ _ _ _ El) as (l1 & l2 & Hl & Hr). fold rest in Hr.
    assert (exists before, visible = before ++ e :: l2) as [before Hv].
    { exists (take n visible ++ l1). by rewrite <- app_assoc, <- Hl, take_drop. }
    assert (Hn : NoDup ((fun e => id_of e) <$> visible)).
    { apply NoDup_keys_retain. destruct (grown_spec _ (Hg (workspace, session))) as [Hn _]. exact Hn. }
    assert (Hpos : position (has_id (id_of e)) visible = Some (length before)).
    { rewrite Hv. apply position_id. by rewrite <- Hv. }
    assert (Hdrop : drop (length before + 1) visible = l2).
    { rewrite Hv, <- drop_drop, drop_app_length. done. }
    unfold st_bind at 1. rewrite (IH (Some (id_of e)) (length before + 1)).
    + fold visible. rewrite Hdrop, Hr. unfold st_ret. by rewrite take_drop.
    + cbn [page_offset]. fold visible. by rewrite Hpos.
    + fold visible. rewrite Hdrop, Hr, length_drop.
      assert (rest <> []) by (intros E; rewrite E in El; by destruct limit).
      destruct rest; [done|]. cbn in *. lia.
  - assert (Hnil : rest = []). { destruct rest; [done|]. destruct limit; [lia|]. apply last_None in El. done. }
    rewrite Hnil. done.
Qed.

Lemma messages_inv workspace caller after limit unread_only f (Ho : opens f) :
  post (messages limits workspace caller after limit unread_only) (fun r f' =>
    f' = f /\
    match r with
    | Err _ => True
    | Ok page =>
        length page <= limit /\
        exists session, ca_session_id caller = Some session /\
          participant f workspace session (ca_agent_id caller) = true /\
          forall e, e ∈ page -> e ∈ journal_at f (workspace, session) /\
            participates (ca_agent_id caller) e = true /\ wanted_by (ca_agent_id caller) unread_only e = true
    end) f.
Proof.
  unfold messages. apply post_ensure; intros _; [|done].
  apply post_lift. destruct (ca_session_id caller) as [session|] eqn:Hs; cbn [ok_or]; [|done].
  destruct (require_spec workspace session (ca_agent_id caller) f) as (e1 & E1).
  apply post_bind. unfold post at 1. rewrite E1. cbn [fst snd].
  destruct (participant f workspace session (ca_agent_id caller)) eqn:P1; [|done].
  apply post_bind. unfold post at 1. rewrite read_opens by done. cbn [fst snd me_entries].
  apply post_lift. destruct (page_offset _ _) as [n|]; [|done]. apply post_ret.
  split; [done|]. split; [apply firstn_le_length|]. exists session. do 2 (split; [done|]).
  intros e He. eapply elem_of_sublist in He; [|apply sublist_take]. apply elem_of_retain in He as [He Hw].
  assert (Hin : e ∈ take n (retain (participates (ca_agent_id caller)) (journal_at f (workspace, session))) ++
                    drop n (retain (participates (ca_agent_id caller)) (journal_at f (workspace, session))))
    by (apply elem_of_app; by right).
  rewrite take_drop in Hin. apply elem_of_retain in Hin as [Hin Hp]. done.
Qed.

(** A registered participant that follows the pages of any size from the
    start reads exactly the messages it sent or received, in the order of the
    journal, or exactly the ones it has not acknowledged.  Whatever is asked, a
    page changes nothing, stays within its limit, is given to registered
    participants only, and shows no message between others. *)
Theorem message_pages_enumerate ops store answers workspace caller limit unread_only (Hlimit : 1 <= limit <= 100) :
  let f := peer_ops ops (no_messages store answers) in
  let me := ca_agent_id caller in
  (forall session fuel,
     ca_session_id caller = Some session -> participant f workspace session me = true ->
     length (journal_at f (workspace, session)) < fuel ->
     read_pages fuel workspace caller None limit unread_only f =
       (Ok (retain (fun e => participates me e && wanted_by me unread_only e) (journal_at f (workspace, session))), f)) /\
  forall after page f', messages limits workspace caller after limit unread_only f = (Ok page, f') ->
    f' = f /\ length page <= limit /\
    exists session, ca_session_id caller = Some session /\ participant f workspace session me = true /\
      forall e, e ∈ page -> e ∈ journal_at f (workspace, session) /\ (am_from_agent_id e = me \/ to_of e = me) /\
        (unread_only = true -> to_of e = me /\ am_acknowledged e = false).
Proof.
  intros f me. assert (Hsound := history_sound ops store answers). split.
  - intros session fuel Hs P Hfuel.
    assert (H := pages_from fuel workspace caller session None limit unread_only f 0 Hsound Hs Hlimit P eq_refl).
    rewrite drop_0, retain_retain in H. apply H. eapply Nat.le_lt_trans; [apply retain_length|done].
  - intros after page f' E.
    assert (H := messages_inv workspace caller after limit unread_only f (proj1 Hsound)).
    unfold post in H. rewrite E in H. cbn [fst snd] in H. destruct H as (-> & Hl & session & Hs & P & H).
    do 2 (split; [done|]). exists session. do 2 (split; [done|]). intros e (He & Hp & Hw)%H.
    split; [done|]. unfold participates in Hp. unfold wanted_by in Hw. split.
    + by apply orb_true_iff in Hp as [?%bool_decide_eq_true|?%bool_decide_eq_true]; [left|right].
    + intros ->. cbn in Hw. by apply andb_prop in Hw as [?%bool_decide_eq_true ?%negb_true_iff].
Qed.
End spec.

(** ** A review between two agents *)
Module PeerExample.
#[export] Instance text_sizes : DocumentSizes := { registry_len _ := 0%N; workspace_registry_len _ := 0%N }.

(** The bodies and one byte for an acknowledgement that is outstanding. *)
Definition entry_size (e : AgentMessage) : N := (body_len (sm_body (am_message e)) + if am_acknowledged e then 4 else 5)%N.
Definition entries_size (l : list AgentMessage) : N := foldr (fun e n => entry_size e + n)%N 0%N l.
Lemma entries_size_acknowledged before e after :
  (entries_size (before ++ set_acknowledged e :: after) <= entries_size (before ++ e :: after))%N.
Proof.
  induction before as [|x before IH]; cbn [app entries_size foldr].
  - unfold entry_size. cbn. destruct (am_acknowledged e); lia.
  - fold (entries_size (before ++ set_acknowledged e :: after)) (entries_size (before ++ e :: after)). lia.
Qed.
#[export] Instance message_sizes : MessageSizes := {
  messages_len d := entries_size (me_entries d);
  messages_len_acknowledged version before e after := entries_size_acknowledged before e after
}.

Definition limits : DispatchStoreLimits := DispatchStoreLimits_default.
Definition workspace : WorkspaceId := MkWorkspaceId "w".
Definition session : SessionId := MkSessionId "s".
Definition member (id : string) : Agent :=
  MkAgent (MkAgentId id) (Some session) (MkAgentProfileId "p") (MkModelSelector "m") AgentRunning None.
Definition store : DispatchFiles :=
  MkDispatchFiles (Document (MkRegistry [member "author"; member "reviewer"] [] [] [] []))
    (Document (MkWorkspaceRegistry {[MkAgentId "author" := workspace; MkAgentId "reviewer" := workspace]} [] [] [])) [].
Definition caller (id : string) : CallerRef := MkCallerRef (Some session) (MkAgentId id).
Definition target : ReviewTarget :=
  MkReviewTarget "0123456789abcdef0123456789abcdef01234567" "89abcdef0123456789abcdef0123456789abcdef".
Definition request : SendMessage :=
  MkSendMessage (MkOperationId "1") (MkAgentId "reviewer") ReviewRequest (Frontmatter.txt "please") None (Some target).
Definition verdict (id : string) (kind : MessageKind) : SendMessage :=
  MkSendMessage (MkOperationId id) (MkAgentId "author") kind (Frontmatter.txt "done") (Some (MkOperationId "1")) (Some target).
Definition run : OperationId := MkOperationId "r".
Definition send (from : string) (m : SendMessage) : PeerOp.t := PeerOp.Send workspace (caller from) run m.
Definition fresh : PeerFiles := no_messages store [].
Definition asked : PeerFiles := peer_ops limits [(1%Z, send "author" request)] fresh.
Definition review : list (DateTime * PeerOp.t) :=
  [(2%Z, PeerOp.Acknowledge workspace (caller "reviewer") (MkOperationId "1")); (3%Z, send "reviewer" (verdict "2" Approved));
   (4%Z, send "reviewer" (verdict "3" ChangesRequested))].
End PeerExample.
Import PeerExample.

(** The second verdict is refused and not recorded. *)
Lemma reviews_have_one_verdict_witness :
  let l := journal_at (peer_ops limits ((1%Z, send "author" request) :: review) fresh) (workspace, session) in
  length l = 2 /\ count (gives_verdict (MkOperationId "1")) l = 1 /\
  (send_message limits 5%Z workspace (caller "reviewer") run (verdict "3" ChangesRequested)
     (peer_ops limits ((1%Z, send "author" request) :: review) fresh)).1 = Err VerdictExists.
Proof.
  destruct (reviews_have_one_verdict limits ((1%Z, send "author" request) :: review) store [] (workspace, session)) as (_ & _ & _ & H & _).
  specialize (H (MkOperationId "1")).
  split; [vm_compute; reflexivity|]. split; [vm_compute; reflexivity|vm_compute; reflexivity].
Defined.

Lemma messages_are_sent_once_witness :
  exists e', am_acknowledged e' = true /\ am_message e' = request /\
    (send_message limits 5%Z workspace (caller "author") run request (peer_ops limits review asked)).1 = Ok e' /\
    (send_message limits 5%Z workspace (caller "reviewer") run (verdict "1" Approved) (peer_ops limits review asked)).1 = Err IdentityConflict.
Proof.
  assert (E : exists e, send_message limits 1%Z workspace (caller "author") run request (peer_ops limits [] fresh) = (Ok e, asked)).
  { eexists. vm_compute. reflexivity. }
  destruct E as [e E].
  destruct (messages_are_sent_once limits [] review store [] 1%Z workspace (caller "author") run request e asked E)
    as (s & e' & Hs & _ & _ & _ & _ & He & _ & _ & H).
  injection Hs as <-. exists e'.
  assert (Hin : e' ∈ journal_at (peer_ops limits review asked) (workspace, session) /\ id_of e' = MkOperationId "1") by by apply He.
  rewrite (H 5%Z (caller "author") run request) by (vm_compute; done).
  rewrite (H 5%Z (caller "reviewer") run (verdict "1" Approved)) by (vm_compute; done).
  destruct Hin as [Hin Hid]. vm_compute in Hin.
  rewrite decide_True by done. rewrite decide_False by (intros [? _]; done).
  apply elem_of_cons in Hin as [->|Hin]; [done|]. apply list_elem_of_singleton in Hin as ->. by vm_compute in Hid.
Defined.

(** The author reads its request and the verdict in pages of one. *)
Lemma message_pages_enumerate_witness :
  exists l, (read_pages limits 3 workspace (caller "author") None 1 false (peer_ops limits review asked)).1 = Ok l /\ length l = 2.
Proof.
  assert (Hlimit : 1 <= 1 <= 100) by lia.
  destruct (message_pages_enumerate limits ((1%Z, send "author" request) :: review) store [] workspace (caller "author") 1 false Hlimit) as [H _].
  assert (E := H session 3 eq_refl ltac:(vm_compute; reflexivity) ltac:(vm_compute; lia)).
  eexists. split; [exact (f_equal fst E)|vm_compute; reflexivity].
Defined.
