(* ===== verification/Tenants.v ===== *)
(** * The workspaces one daemon owns
    ([crates/daemon/src/usecase/tenant.rs])

    A registry of tenants and the fences that keep them, shared by the threads of
    the daemon.  An operation is the sequence of its critical sections and calls:
    a [Task] stands where a thread is, [task_step] takes it through one of them.
    The operating system's fence locks, the handles other threads hold on a
    tenant and the work of a workspace are the [World]. *)
From S2P Require Export Lifecycle.

(** A path is its components; [PathBuf]'s order compares them. *)
Notation Path := (list string) (only parsing).

Fixpoint path_leb (a b : Path) : bool :=
  match a, b with
  | [], _ => true
  | _ :: _, [] => false
  | x :: a, y :: b => if bool_decide (x = y) then path_leb a b else str_le x y
  end.

(** [Path::starts_with] *)
Fixpoint starts_with (path root : Path) : bool :=
  match root, path with
  | [], _ => true
  | y :: root, x :: path => bool_decide (x = y) && starts_with path root
  | _ :: _, [] => false
  end.

Section tenants.
Context {Runtime : Type}.

(** ** Data *)

(** [tn_shared] is the identity of the shared allocation. *)
Record Tenant := MkTenant {
  tn_shared : nat;
  tn_root : Path;
  tn_state_dir : Path;
  tn_workspace_id : WorkspaceId;
  tn_runtime : Runtime
}.

Inductive AdoptError : Type := Owned (workspace : Path) (owner : option N) | LimitReached (limit : nat) | Storage.
Inductive RetireError : Type := NotFound | Initial | Busy.

Record Held := MkHeld {
  hd_tenant : Tenant;
  hd_fence : bool;
  hd_idle_since : option DateTime;
  hd_retiring : bool
}.
Definition set_hd_idle_since v (e : Held) : Held := MkHeld (hd_tenant e) (hd_fence e) v (hd_retiring e).
Definition set_hd_retiring v (e : Held) : Held := MkHeld (hd_tenant e) (hd_fence e) (hd_idle_since e) v.

Record TenantRegistry := MkTenantRegistry {
  tr_limit : nat;
  tr_adopting : gset Path;
  tr_held : gmap Path Held
}.

(** Who holds the lock of a workspace: the process ([serve]), an entry or an
    adoption of the registry, or another daemon. *)
Inductive FenceOwner : Type := Serve | Registered | Foreign.

Record World := MkWorld {
  w_registry : TenantRegistry;
  w_fences : gmap Path FenceOwner;
  w_handles : list Tenant;
  w_next : nat;
  w_work : gset WorkspaceId;
  w_handed_off : bool;
  w_released : bool
}.
Definition set_held v (w : World) : World :=
  MkWorld (MkTenantRegistry (tr_limit (w_registry w)) (tr_adopting (w_registry w)) v) (w_fences w) (w_handles w) (w_next w)
    (w_work w) (w_handed_off w) (w_released w).
Definition set_adopting v (w : World) : World :=
  MkWorld (MkTenantRegistry (tr_limit (w_registry w)) v (tr_held (w_registry w))) (w_fences w) (w_handles w) (w_next w)
    (w_work w) (w_handed_off w) (w_released w).
Definition set_fences v (w : World) : World :=
  MkWorld (w_registry w) v (w_handles w) (w_next w) (w_work w) (w_handed_off w) (w_released w).
Definition set_handles v (w : World) : World :=
  MkWorld (w_registry w) (w_fences w) v (w_next w) (w_work w) (w_handed_off w) (w_released w).
Definition set_next v (w : World) : World :=
  MkWorld (w_registry w) (w_fences w) (w_handles w) v (w_work w) (w_handed_off w) (w_released w).
Definition set_work v (w : World) : World :=
  MkWorld (w_registry w) (w_fences w) (w_handles w) (w_next w) v (w_handed_off w) (w_released w).
Definition set_handed_off v (w : World) : World :=
  MkWorld (w_registry w) (w_fences w) (w_handles w) (w_next w) (w_work w) v (w_released w).
Definition set_released v (w : World) : World :=
  MkWorld (w_registry w) (w_fences w) (w_handles w) (w_next w) (w_work w) (w_handed_off w) v.

Definition held (w : World) : gmap Path Held := tr_held (w_registry w).
Definition adopting (w : World) : gset Path := tr_adopting (w_registry w).
Definition limit (w : World) : nat := tr_limit (w_registry w).

(** The entries of the map in the order of their roots. *)
Definition root_le (a b : Path * Held) : Prop := path_leb a.1 b.1 = true.
#[local] Instance root_le_dec : RelDecision root_le.
Proof. intros a b. unfold root_le. apply _. Defined.
Definition entries (m : gmap Path Held) : list (Path * Held) := merge_sort root_le (map_to_list m).

(** ** Resolution *)

(** [entry.tenant.clone()]: the caller holds a handle. *)
Definition clone (t : Tenant) (w : World) : World := set_handles (t :: w_handles w) w.
Definition clone_found (found : option Tenant) (w : World) : option Tenant * World :=
  (found, match found with Some t => clone t w | None => w end).

Definition referenced_elsewhere (t : Tenant) (w : World) : bool :=
  any (fun h => tn_shared h =? tn_shared t) (w_handles w).

Definition resolvable (w : World) : list (Path * Held) :=
  retain (fun re => negb (hd_retiring re.2)) (entries (held w)).

(** [max_by_key]: the last of the maximal ones. *)
Definition deeper (best : option Tenant) (t : Tenant) : option Tenant :=
  match best with
  | Some b => if length (tn_root t) <? length (tn_root b) then best else Some t
  | None => Some t
  end.
Definition closest (path : Path) (w : World) : option Tenant :=
  foldl deeper None (retain (fun t => starts_with path (tn_root t)) ((fun re => hd_tenant re.2) <$> resolvable w)).

Definition owner_of (path : Path) (w : World) : option Tenant * World := clone_found (closest path w) w.

Definition by_workspace_id (workspace : WorkspaceId) (w : World) : option Tenant * World :=
  clone_found
    ((fun re => hd_tenant re.2) <$> find_first (fun re => bool_decide (tn_workspace_id (hd_tenant re.2) = workspace)) (resolvable w)) w.

Definition lookup_tenant (root : Path) (w : World) : option Tenant :=
  e ← held w !! root; if hd_retiring e then None else Some (hd_tenant e).
Definition tenant (root : Path) (w : World) : option Tenant * World := clone_found (lookup_tenant root w) w.

Definition adopted (w : World) : list Tenant * World :=
  let found := (fun re => hd_tenant re.2) <$> resolvable w in
  (found, set_handles (found ++ w_handles w) w).

(** ** Giving back *)

(** Dropping the fence releases the lock. *)
Definition drop_fence (fence : bool) (root : Path) (w : World) : World :=
  if fence then set_fences (delete root (w_fences w)) w else w.

(** [held.remove(root)] *)
Definition remove_held (root : Path) (w : World) : World :=
  match held w !! root with
  | Some e => drop_fence (hd_fence e) root (set_held (delete root (held w)) w)
  | None => w
  end.

Definition begin_retire (root : Path) (w : World) : result RetireError Tenant * World :=
  match held w !! root with
  | None => (Err NotFound, w)
  | Some e =>
      if negb (hd_fence e) then (Err Initial, w)
      else if hd_retiring e || referenced_elsewhere (hd_tenant e) w then (Err Busy, w)
      else (Ok (hd_tenant e), clone (hd_tenant e) (set_held (<[root := set_hd_retiring true e]> (held w)) w))
  end.

Definition complete_retire (root : Path) (w : World) : bool * World :=
  match held w !! root with
  | Some e => if hd_retiring e then (true, remove_held root w) else (false, w)
  | None => (false, w)
  end.

Definition cancel_retire (root : Path) (w : World) : World :=
  match held w !! root with
  | Some e => set_held (<[root := set_hd_retiring false e]> (held w)) w
  | None => w
  end.

Definition retire (root : Path) (w : World) : bool * World :=
  (bool_decide (is_Some (held w !! root)), remove_held root w).

(** ** Registration *)
Definition has_room (root : Path) (w : World) : bool :=
  bool_decide (is_Some (held w !! root)) || (size (held w) <? limit w).

(** The critical section of [register]; an entry of the same root is dropped. *)
Definition insert_tenant (root : Path) (fence : bool) (dir : Path) (workspace : WorkspaceId) (runtime : Runtime) (w : World)
    : result AdoptError Tenant * World :=
  if negb (has_room root w) then (Err (LimitReached (limit w)), drop_fence fence root w)
  else
    let t := MkTenant (w_next w) root dir workspace runtime in
    let replaced := match held w !! root with Some e => hd_fence e | None => false end in
    (Ok t, clone t (set_next (S (w_next w))
                      (drop_fence replaced root (set_held (<[root := MkHeld t fence None false]> (held w)) w)))).

(** ** Sweeps *)
Definition candidate_of (re : Path * Held) : Path * WorkspaceId * Runtime :=
  (re.1, tn_workspace_id (hd_tenant re.2), tn_runtime (hd_tenant re.2)).

Definition drain_candidates (w : World) : list (Path * WorkspaceId * Runtime) :=
  candidate_of <$> retain (fun re => hd_fence re.2 && negb (hd_retiring re.2)) (entries (held w)).

Definition drain_commit (root : Path) (workspace : WorkspaceId) (w : World) : bool * World :=
  match held w !! root with
  | Some e =>
      if hd_fence e && negb (hd_retiring e) && bool_decide (tn_workspace_id (hd_tenant e) = workspace)
      then (true, remove_held root w) else (false, w)
  | None => (false, w)
  end.

Definition initial_entry (root : Path) (w : World) : option Held :=
  e ← held w !! root; if negb (hd_fence e) && negb (hd_retiring e) then Some e else None.

(** The caller releases the fence of the process when the answer is [true]. *)
Definition release_commit (root : Path) (w : World) : bool * World :=
  match initial_entry root w with
  | Some _ => (true, set_released true (remove_held root w))
  | None => (false, w)
  end.

Definition idle_entry (w : World) (e : Held) : bool :=
  hd_fence e && negb (hd_retiring e) && negb (referenced_elsewhere (hd_tenant e) w).

Definition idle_candidates (w : World) : list (Path * WorkspaceId * Runtime) :=
  candidate_of <$> retain (fun re => idle_entry w re.2) (entries (held w)).

Definition still_idle (idle : gset Path) (w : World) (root : Path) (e : Held) : bool :=
  bool_decide (root ∈ idle) && idle_entry w e.

(** The loop of the commit over one entry, and whether it is due. *)
Definition sweep_entry (idle : gset Path) (now : DateTime) (w : World) (root : Path) (e : Held) : Held :=
  set_hd_idle_since (if still_idle idle w root e then Some (default now (hd_idle_since e)) else None) e.
Definition due (idle : gset Path) (now idle_for : Z) (w : World) (root : Path) (e : Held) : bool :=
  still_idle idle w root e && (idle_for <=? now - default now (hd_idle_since e))%Z.

Definition idle_commit (idle : gset Path) (now idle_for : Z) (w : World) : list Path * World :=
  let retired := fst <$> retain (fun re => due idle now idle_for w re.1 re.2) (entries (held w)) in
  (retired, foldl (fun w root => remove_held root w) (set_held (map_imap (fun root e => Some (sweep_entry idle now w root e)) (held w)) w) retired).

(** ** Threads *)
Inductive Reply : Type :=
| Adopted (answer : result AdoptError Tenant)
| Drained (roots : list Path)
| InitialReleased (released : bool)
| Retired (roots : list Path).

(** What the environment answers: whether the lock could be tried, the owner's
    pid hint, the state directory, the opened lifecycle document, and an observation of work that
    could not be made. *)
Record Answer := MkAnswer {
  an_lockable : bool;
  an_hint : option N;
  an_state_dir : option Path;
  an_opened : option (WorkspaceId * Runtime);
  an_unobserved : bool
}.

Inductive Task : Type :=
(* adopt *)
| AdoptLane (root : Path)
| AdoptLookup (root : Path)
| AdoptFence (root : Path)
(* register, for adopt with the fence and for adopt_initial without *)
| RegisterState (root : Path) (fence : bool)
| RegisterOpen (root : Path) (fence : bool) (dir : Path)
| RegisterInsert (root : Path) (fence : bool) (dir : Path) (workspace : WorkspaceId) (runtime : Runtime)
(* release_draining *)
| DrainGate
| DrainCandidates
| DrainLane (rest : list (Path * WorkspaceId * Runtime)) (released : list Path)
| DrainObserve (root : Path) (workspace : WorkspaceId) (rest : list (Path * WorkspaceId * Runtime)) (released : list Path)
| DrainCommit (root : Path) (workspace : WorkspaceId) (rest : list (Path * WorkspaceId * Runtime)) (released : list Path)
| DrainLeave (root : Path) (rest : list (Path * WorkspaceId * Runtime)) (released : list Path)
(* release_initial *)
| ReleaseLane (root : Path)
| ReleaseLookup (root : Path)
| ReleaseObserve (root : Path) (workspace : WorkspaceId)
| ReleaseCommit (root : Path)
(* retire_idle *)
| IdleCandidates (now idle_for : Z)
| IdleObserve (rest : list (Path * WorkspaceId * Runtime)) (idle : gset Path) (now idle_for : Z)
| IdleCommit (idle : gset Path) (now idle_for : Z)
(* the drop of an adoption permit, and the return *)
| LeaveLane (root : Path) (reply : Reply)
| Finished (reply : Reply).

(** [adoption_permit]: blocked while another thread is in the lane. *)
Definition enter_lane (root : Path) (w : World) : option World :=
  if bool_decide (root ∈ adopting w) then None else Some (set_adopting ({[root]} ∪ adopting w) w).
Definition leave_lane (root : Path) (w : World) : World := set_adopting (adopting w ∖ {[root]}) w.

(** [register] returns into [adopt], whose permit is dropped last, or from [adopt_initial]. *)
Definition registered (root : Path) (fence : bool) (answer : result AdoptError Tenant) : Task :=
  if fence then LeaveLane root (Adopted answer) else Finished (Adopted answer).

Definition has_work (workspace : WorkspaceId) (a : Answer) (w : World) : bool :=
  bool_decide (workspace ∈ w_work w) || an_unobserved a.

(** The steps of an adoption: it looks the workspace up again in its lane, takes
    the fence, and opens the state and the runtime behind it. *)
Definition adopt_found (root : Path) (found : option Tenant) : Task :=
  match found with
  | Some t => LeaveLane root (Adopted (Ok t))
  | None => AdoptFence root
  end.

Definition adopt_fence (a : Answer) (root : Path) (w : World) : World * Task :=
  if negb (an_lockable a) then (w, LeaveLane root (Adopted (Err Storage)))
  else
    match w_fences w !! root with
    | None => (set_fences (<[root := Registered]> (w_fences w)) w, RegisterState root true)
    | Some _ => (w, LeaveLane root (Adopted (Err (Owned root (an_hint a)))))
    end.

Definition register_state (a : Answer) (root : Path) (fence : bool) (w : World) : World * Task :=
  match an_state_dir a with
  | Some dir => (w, RegisterOpen root fence dir)
  | None => (drop_fence fence root w, registered root fence (Err Storage))
  end.

Definition register_open (a : Answer) (root : Path) (fence : bool) (dir : Path) (w : World) : World * Task :=
  match an_opened a with
  | Some (workspace, runtime) => (w, RegisterInsert root fence dir workspace runtime)
  | None => (drop_fence fence root w, registered root fence (Err Storage))
  end.

(** A task waiting for its lane has no step; neither has a finished one. *)
Definition task_step (a : Answer) (t : Task) (w : World) : option (World * Task) :=
  match t with
  | AdoptLane root => w ← enter_lane root w; Some (w, AdoptLookup root)
  | AdoptLookup root =>
      let '(found, w) := tenant root w in Some (w, adopt_found root found)
  | AdoptFence root => Some (adopt_fence a root w)
  | RegisterState root fence => Some (register_state a root fence w)
  | RegisterOpen root fence dir => Some (register_open a root fence dir w)
  | RegisterInsert root fence dir workspace runtime =>
      let '(answer, w) := insert_tenant root fence dir workspace runtime w in
      Some (w, registered root fence answer)
  | DrainGate => if negb (w_handed_off w) then Some (w, Finished (Drained [])) else Some (w, DrainCandidates)
  | DrainCandidates => Some (w, DrainLane (drain_candidates w) [])
  | DrainLane [] released => Some (w, Finished (Drained released))
  | DrainLane ((root, workspace, runtime) :: rest) released =>
      w ← enter_lane root w; Some (w, DrainObserve root workspace rest released)
  | DrainObserve root workspace rest released =>
      Some (w, if has_work workspace a w then DrainLeave root rest released else DrainCommit root workspace rest released)
  | DrainCommit root workspace rest released =>
      let '(done, w) := drain_commit root workspace w in
      Some (w, DrainLeave root rest (if done : bool then released ++ [root] else released))
  | DrainLeave root rest released => Some (leave_lane root w, DrainLane rest released)
  | ReleaseLane root => w ← enter_lane root w; Some (w, ReleaseLookup root)
  | ReleaseLookup root =>
      match initial_entry root w with
      | Some e => Some (w, ReleaseObserve root (tn_workspace_id (hd_tenant e)))
      | None => Some (w, LeaveLane root (InitialReleased false))
      end
  | ReleaseObserve root workspace =>
      Some (w, if has_work workspace a w then LeaveLane root (InitialReleased false) else ReleaseCommit root)
  | ReleaseCommit root =>
      let '(done, w) := release_commit root w in Some (w, LeaveLane root (InitialReleased done))
  | IdleCandidates now idle_for => Some (w, IdleObserve (idle_candidates w) ∅ now idle_for)
  | IdleObserve [] idle now idle_for => Some (w, IdleCommit idle now idle_for)
  | IdleObserve ((root, workspace, runtime) :: rest) idle now idle_for =>
      Some (w, IdleObserve rest (if has_work workspace a w then idle else {[root]} ∪ idle) now idle_for)
  | IdleCommit idle now idle_for =>
      let '(retired, w) := idle_commit idle now idle_for w in Some (w, Finished (Retired retired))
  | LeaveLane root reply => Some (leave_lane root w, Finished reply)
  | Finished _ => None
  end.

(** A thread with these answers and nothing in between. *)
Fixpoint drive (answers : list Answer) (t : Task) (w : World) : World * Task :=
  match answers with
  | [] => (w, t)
  | a :: answers =>
      match task_step a t w with
      | Some (w, t) => drive answers t w
      | None => (w, t)
      end
  end.
End tenants.

Global Arguments Tenant : clear implicits.
Global Arguments Held : clear implicits.
Global Arguments TenantRegistry : clear implicits.
Global Arguments World : clear implicits.
Global Arguments AdoptError : clear implicits.
Global Arguments Reply : clear implicits.
Global Arguments Answer : clear implicits.
Global Arguments Task : clear implicits.
