(* ===== verification/TenantsSpec.v ===== *)
(** * What the registry of tenants promises

    Every interleaving of adoptions, retirements and sweeps with the other
    threads of the daemon, other daemons and the handoff: a fence has one owner
    and none is lost, the registry stays within its limit, every operation ends,
    a draining daemon keeps what still works, and an idle sweep gives back what
    was idle all along. *)
From S2P Require Export Tenants.

Section system.
Context {Runtime : Type}.
Notation World := (World Runtime).
Notation Task := (Task Runtime).
Notation Answer := (Answer Runtime).
Implicit Types (w : World) (t : Task) (ts : list Task) (r : list string).

(** ** The daemon *)
Record System := MkSystem { sy_world : World; sy_tasks : list Task }.

(** The operations that are one critical section. *)
Inductive call : World -> World -> Prop :=
| call_tenant root w : call w (tenant root w).2
| call_owner_of path w : call w (owner_of path w).2
| call_by_workspace_id workspace w : call w (by_workspace_id workspace w).2
| call_adopted w : call w (adopted w).2
| call_begin_retire root w : call w (begin_retire root w).2
| call_complete_retire root w : call w (complete_retire root w).2
| call_cancel_retire root w : call w (cancel_retire root w)
| call_retire root w : call w (retire root w).2.

(** The other threads, the other daemons and [serve].  A workspace is given work
    by a thread that holds a handle on it, before the handoff. *)
Inductive environment : World -> World -> Prop :=
| env_clone h w : h ∈ w_handles w -> environment w (clone h w)
| env_drop h before after w : w_handles w = before ++ h :: after -> environment w (set_handles (before ++ after) w)
| env_gain h w : h ∈ w_handles w -> w_handed_off w = false ->
    environment w (set_work ({[tn_workspace_id h]} ∪ w_work w) w)
| env_lose workspace w : environment w (set_work (w_work w ∖ {[workspace]}) w)
| env_hand_off w : environment w (set_handed_off true w)
| env_foreign root w : w_fences w !! root = None -> environment w (set_fences (<[root := Foreign]> (w_fences w)) w)
| env_foreign_gone root w : w_fences w !! root = Some Foreign -> environment w (set_fences (delete root (w_fences w)) w)
| env_serve_gone root w : w_fences w !! root = Some Serve -> w_released w = true ->
    environment w (set_fences (delete root (w_fences w)) w).

(** [release_initial] is for a generation that handed off. *)
Definition startable t w : Prop :=
  match t with
  | AdoptLane _ | DrainGate | IdleCandidates _ _ => True
  | ReleaseLane _ => w_handed_off w = true
  | _ => False
  end.

Inductive step : System -> System -> Prop :=
| step_start t w ts : startable t w -> step (MkSystem w ts) (MkSystem w (t :: ts))
| step_task a t t' w w' before after : task_step a t w = Some (w', t') ->
    step (MkSystem w (before ++ t :: after)) (MkSystem w' (before ++ t' :: after))
| step_return reply w before after :
    step (MkSystem w (before ++ Finished reply :: after)) (MkSystem w (before ++ after))
| step_call w w' ts : call w w' -> step (MkSystem w ts) (MkSystem w' ts)
| step_env w w' ts : environment w w' -> step (MkSystem w ts) (MkSystem w' ts).

(** The daemon [serve] fenced [root] for, after [adopt_initial]. *)
Definition unopened (maximum : nat) root : World :=
  MkWorld (MkTenantRegistry maximum ∅ ∅) {[root := Serve]} [] 0 ∅ false false.
Definition serving (maximum : nat) root dir workspace (runtime : Runtime) : System :=
  MkSystem (insert_tenant root false dir workspace runtime (unopened maximum root)).2 [].

(** ** What a thread holds *)
Definition lane t : option (list string) :=
  match t with
  | AdoptLookup root | AdoptFence root | RegisterState root true | RegisterOpen root true _ | RegisterInsert root true _ _ _
  | DrainObserve root _ _ _ | DrainCommit root _ _ _ | DrainLeave root _ _
  | ReleaseLookup root | ReleaseObserve root _ | ReleaseCommit root | LeaveLane root _ => Some root
  | _ => None
  end.
Definition fence_of t : option (list string) :=
  match t with
  | RegisterState root true | RegisterOpen root true _ | RegisterInsert root true _ _ _ => Some root
  | _ => None
  end.
(** [adopt_initial] is over. *)
Definition settled t : Prop :=
  match t with
  | RegisterState _ fence | RegisterOpen _ fence _ | RegisterInsert _ fence _ _ _ => fence = true
  | _ => True
  end.

(** Whether the registry owns the fence of an entry. *)
Definition owners w : gmap (list string) bool := hd_fence <$> held w.

Record fences_kept (home : list string) (w : World) (ts : list Task) : Prop := {
  in_lanes r : r ∈ adopting w <-> r ∈ omap lane ts;
  in_lanes_once : NoDup (omap lane ts);
  in_entry r owned : owners w !! r = Some owned ->
    if owned : bool then w_fences w !! r = Some Registered else w_fences w !! r = Some Serve /\ w_released w = false;
  in_serve r : w_fences w !! r = Some Serve -> r = home;
  in_flight r : r ∈ omap fence_of ts -> w_fences w !! r = Some Registered /\ owners w !! r = None;
  in_owned r : w_fences w !! r = Some Registered -> is_Some (owners w !! r) \/ r ∈ omap fence_of ts;
  in_room : size (owners w) <= limit w;
  in_settled t : t ∈ ts -> settled t
}.

Lemma fence_lane t r : fence_of t = Some r -> lane t = Some r.
Proof. by destruct t as [| | |? []|? []|? []| | | | | | | | | | | | | | |]. Qed.

Lemma flight_lanes ts r : r ∈ omap fence_of ts -> r ∈ omap lane ts.
Proof. intros (t & Ht & Hf)%list_elem_of_omap. apply list_elem_of_omap. exists t. by split; [|apply fence_lane]. Qed.

Lemma fences_perm home w ts ts' : ts ≡ₚ ts' -> fences_kept home w ts -> fences_kept home w ts'.
Proof.
  intros Hp []. assert (Hl := omap_Permutation lane _ _ Hp). assert (Hf := omap_Permutation fence_of _ _ Hp).
  constructor; try done; intros *; rewrite <- ?Hl, <- ?Hf, <- ?Hp; eauto.
Qed.

(** What [fences_kept] reads of the world. *)
Lemma fences_same home w w' ts :
  owners w' = owners w -> w_fences w' = w_fences w -> adopting w' = adopting w -> w_released w' = w_released w ->
  limit w' = limit w -> fences_kept home w ts -> fences_kept home w' ts.
Proof. intros E1 E2 E3 E4 E5 []. constructor; rewrite ?E1, ?E2, ?E3, ?E4, ?E5; assumption. Qed.

(** A thread that moves on and keeps what it holds. *)
Lemma fences_move home w ts t t' :
  lane t' = lane t -> fence_of t' = fence_of t -> (settled t -> settled t') -> fences_kept home w (t :: ts) -> fences_kept home w (t' :: ts).
Proof.
  intros E1 E2 Es []. constructor; try done; cbn in *; rewrite ?E1, ?E2; try done.
  intros x [->|Hx]%elem_of_cons; [by apply Es, in_settled0; left|by apply in_settled0; right].
Qed.

(** ** Giving back *)
Lemma owners_held w r : owners w !! r = hd_fence <$> (held w !! r).
Proof. apply lookup_fmap. Qed.

Lemma owners_remove r w : owners (remove_held r w) = delete r (owners w).
Proof.
  unfold remove_held. destruct (held w !! r) as [e|] eqn:E.
  - unfold drop_fence. destruct (hd_fence e); unfold owners, held; cbn; by rewrite fmap_delete.
  - symmetry. apply delete_id. by rewrite owners_held, E.
Qed.

Lemma fences_remove r w :
  w_fences (remove_held r w) = if decide (owners w !! r = Some true) then delete r (w_fences w) else w_fences w.
Proof.
  unfold remove_held. rewrite owners_held. destruct (held w !! r) as [e|]; cbn.
  - destruct (hd_fence e); cbn; [by rewrite decide_True|by rewrite decide_False].
  - by rewrite decide_False.
Qed.

Lemma rest_remove r w :
  adopting (remove_held r w) = adopting w /\ w_released (remove_held r w) = w_released w /\ limit (remove_held r w) = limit w.
Proof. unfold remove_held. destruct (held w !! r) as [e|]; [|done]. by destruct (hd_fence e). Qed.

Lemma fences_kept_remove home r w ts : fences_kept home w ts -> fences_kept home (remove_held r w) ts.
Proof.
  intros []. destruct (rest_remove r w) as (Ea & Er & El).
  constructor; rewrite ?Ea, ?Er, ?El; try assumption.
  - intros r' owned. rewrite owners_remove, lookup_delete_Some, fences_remove. intros [Hne Ho].
    destruct (decide _); [rewrite lookup_delete_ne by done|]; by apply in_entry0.
  - intros r'. rewrite fences_remove. destruct (decide _); [rewrite lookup_delete_Some; intros [_ H]|]; by apply in_serve0.
  - intros r' Hr'. destruct (in_flight0 r' Hr') as [Hf Hn]. rewrite owners_remove, fences_remove. split.
    + destruct (decide _) as [Ho|]; [|done]. rewrite lookup_delete_ne; [done|]. intros ->. congruence.
    + rewrite lookup_delete_None. by right.
  - intros r'. rewrite owners_remove, fences_remove. destruct (decide _) as [Ho|Ho].
    + rewrite lookup_delete_Some. intros [Hne Hf]. rewrite lookup_delete_ne by done. by apply in_owned0.
    + intros Hf. destruct (decide (r = r')) as [->|Hne]; [|rewrite lookup_delete_ne by done; by apply in_owned0].
      destruct (in_owned0 r' Hf) as [[owned Hs]|?]; [|by right].
      assert (H := in_entry0 r' owned Hs). destruct owned; [done|]. destruct H as [H _]. congruence.
  - rewrite owners_remove. etrans; [|exact in_room0]. rewrite map_size_delete. by destruct (owners w !! r); cbn; lia.
Qed.

Lemma fences_kept_release home r w ts e : initial_entry r w = Some e -> fences_kept home w ts ->
  fences_kept home (set_released true (remove_held r w)) ts.
Proof.
  intros He H. assert (H' := fences_kept_remove home r w ts H). destruct H, H'.
  constructor; try assumption.
  intros r' owned Ho. change (owners (set_released true (remove_held r w))) with (owners (remove_held r w)) in Ho.
  specialize (in_entry1 r' owned Ho). destruct owned; [done|]. exfalso.
  rewrite owners_remove, lookup_delete_Some in Ho. destruct Ho as [Hne Ho].
  apply in_entry0 in Ho as [Hs _]. apply in_serve0 in Hs as ->.
  unfold initial_entry in He. destruct (held w !! r) as [x|] eqn:E; [|done]. cbn in He.
  destruct (hd_fence x) eqn:Ef; [done|]. apply Hne.
  assert (Ho : owners w !! r = Some false) by (by rewrite owners_held, E; cbn; rewrite Ef).
  apply in_entry0 in Ho as [Hs _]. by apply in_serve0.
Qed.

(** ** Lanes and fences *)
Lemma fences_kept_enter home r w w' ts t t' :
  enter_lane r w = Some w' -> lane t = None -> fence_of t = None -> lane t' = Some r -> fence_of t' = None -> settled t' ->
  fences_kept home w (t :: ts) -> fences_kept home w' (t' :: ts).
Proof.
  unfold enter_lane. case_bool_decide as Hr; [done|]. intros [= <-] E1 E2 E3 E4 Hs [].
  cbn in *. rewrite E1, E2 in *.
  constructor; try assumption; cbn; rewrite ?E3, ?E4; try assumption.
  - intros r'. unfold adopting. cbn. rewrite elem_of_union, elem_of_singleton, elem_of_cons.
    specialize (in_lanes0 r'). tauto.
  - constructor; [|done]. by rewrite <- in_lanes0.
  - intros x [->|Hx]%elem_of_cons; [done|by apply in_settled0; right].
Qed.

Lemma fences_kept_leave home r w ts t t' :
  lane t = Some r -> fence_of t = None -> lane t' = None -> fence_of t' = None -> settled t' ->
  fences_kept home w (t :: ts) -> fences_kept home (leave_lane r w) (t' :: ts).
Proof.
  intros E1 E2 E3 E4 Hs []. cbn in *. rewrite E1, E2 in *. apply NoDup_cons in in_lanes_once0 as [Hr Hn].
  constructor; try assumption; cbn; rewrite ?E3, ?E4; try assumption.
  - intros r'. unfold leave_lane, adopting. cbn. rewrite elem_of_difference, elem_of_singleton.
    specialize (in_lanes0 r'). rewrite elem_of_cons in in_lanes0. unfold adopting in in_lanes0.
    split; [tauto|]. intros H. split; [tauto|]. by intros ->.
  - intros x [->|Hx]%elem_of_cons; [done|by apply in_settled0; right].
Qed.

Lemma fences_kept_thread home w ts t : lane t = None -> fence_of t = None -> settled t -> fences_kept home w (t :: ts) <-> fences_kept home w ts.
Proof.
  intros E1 E2 Hs. split; intros []; cbn in *; rewrite ?E1, ?E2 in *; constructor; cbn; rewrite ?E1, ?E2; try assumption.
  - intros x Hx. apply in_settled0. by right.
  - intros x [->|Hx]%elem_of_cons; [done|by apply in_settled0].
Qed.

(** The lock is taken by the thread in the lane of [r]. *)
Lemma fences_kept_acquire home r w ts t t' :
  w_fences w !! r = None -> lane t = Some r -> fence_of t = None -> lane t' = Some r -> fence_of t' = Some r -> settled t' ->
  fences_kept home w (t :: ts) -> fences_kept home (set_fences (<[r := Registered]> (w_fences w)) w) (t' :: ts).
Proof.
  intros Hn E1 E2 E3 E4 Hs [].
  assert (Ho : owners w !! r = None).
  { destruct (owners w !! r) as [owned|] eqn:E; [|done]. apply in_entry0 in E. destruct owned; [congruence|]. destruct E. congruence. }
  cbn in *. rewrite E1, E2 in *.
  constructor; try assumption; cbn; rewrite ?E3, ?E4; try assumption.
  - intros r' owned Hr'. rewrite lookup_insert_ne; [by apply in_entry0|]. intros ->. unfold owners, held in *. cbn in *. congruence.
  - intros r' [[_ ?]|[_ H]]%lookup_insert_Some; [done|by apply in_serve0].
  - intros r' [->|H]%elem_of_cons; [by rewrite lookup_insert_eq|].
    destruct (in_flight0 r' H) as [Hf Hn']. rewrite lookup_insert_ne; [done|]. intros ->. congruence.
  - intros r' [[<- _]|[Hne H]]%lookup_insert_Some; [right; left|].
    destruct (in_owned0 r' H) as [?|?]; [by left|right; by right].
  - intros x [->|Hx]%elem_of_cons; [done|by apply in_settled0; right].
Qed.

Lemma fences_kept_drop home r w ts t t' :
  lane t = Some r -> fence_of t = Some r -> lane t' = Some r -> fence_of t' = None -> settled t' ->
  fences_kept home w (t :: ts) -> fences_kept home (drop_fence true r w) (t' :: ts).
Proof.
  intros E1 E2 E3 E4 Hs []. cbn in *. rewrite E1, E2 in *. apply NoDup_cons in in_lanes_once0 as H. destruct H as [Hr Hnd].
  destruct (in_flight0 r) as [Hf Hn]; [by left|].
  constructor; try assumption; cbn; rewrite ?E3, ?E4; try assumption.
  - intros r' owned Hr'. rewrite lookup_delete_ne; [by apply in_entry0|]. intros ->. unfold owners, held in *. cbn in *. congruence.
  - intros r' [_ H]%lookup_delete_Some. by apply in_serve0.
  - intros r' H. destruct (in_flight0 r') as [Hf' Hn']; [by right|]. rewrite lookup_delete_ne; [done|].
    intros ->. by apply Hr, flight_lanes.
  - intros r' [Hne H]%lookup_delete_Some. destruct (in_owned0 r' H) as [?|[->|?]%elem_of_cons]; [by left|done|by right].
  - intros x [->|Hx]%elem_of_cons; [done|by apply in_settled0; right].
Qed.

Lemma fences_kept_insert home r dir workspace runtime w ts :
  fences_kept home w (RegisterInsert r true dir workspace runtime :: ts) ->
  fences_kept home (insert_tenant r true dir workspace runtime w).2
    (registered r true (insert_tenant r true dir workspace runtime w).1 :: ts).
Proof.
  intros H. unfold insert_tenant. destruct (has_room r w) eqn:Eroom; cbn [negb].
  2: { cbn [fst snd registered]. by eapply fences_kept_drop; [..|exact H]. }
  destruct H. cbn in *. apply NoDup_cons in in_lanes_once0 as H. destruct H as [Hr Hnd].
  destruct (in_flight0 r) as [Hf Hn]; [by left|].
  assert (Eh : held w !! r = None). { rewrite owners_held in Hn. by apply fmap_None in Hn. }
  rewrite Eh. unfold drop_fence.
  assert (Eo : owners (clone (MkTenant (w_next w) r dir workspace runtime)
      (set_next (S (w_next w)) (set_held (<[r := MkHeld (MkTenant (w_next w) r dir workspace runtime) true None false]> (held w)) w)))
      = <[r := true]> (owners w)) by (unfold owners, held; cbn; by rewrite fmap_insert).
  constructor; try assumption; rewrite ?Eo; cbn; try assumption.
  - intros r' owned [[<- <-]|[_ H]]%lookup_insert_Some; [done|by apply in_entry0].
  - intros r' H. destruct (in_flight0 r') as [Hf' Hn']; [by right|]. split; [done|].
    rewrite lookup_insert_ne; [done|]. intros ->. by apply Hr, flight_lanes.
  - intros r' H. destruct (decide (r = r')) as [->|Hne]; [left; rewrite lookup_insert_eq; by eexists|].
    rewrite lookup_insert_ne by done. destruct (in_owned0 r' H) as [?|[->|?]%elem_of_cons]; [by left|done|by right].
  - rewrite map_size_insert_None by done. unfold has_room in Eroom. rewrite Eh in Eroom.
    apply orb_prop in Eroom as [[? ?]%bool_decide_eq_true|Hs%Nat.ltb_lt]; [done|].
    unfold owners. rewrite map_size_fmap. unfold limit in *. cbn. lia.
  - intros x [->|Hx]%elem_of_cons; [done|by apply in_settled0; right].
Qed.

(** ** Steps *)
Lemma owners_sweep idle now w :
  hd_fence <$> map_imap (fun root e => Some (sweep_entry idle now w root e)) (held w) = owners w.
Proof.
  apply map_eq. intros r. unfold owners. rewrite !lookup_fmap, map_lookup_imap.
  by destruct (held w !! r).
Qed.

Lemma fences_kept_idle home idle now idle_for w ts :
  fences_kept home w ts -> fences_kept home (idle_commit idle now idle_for w).2 ts.
Proof.
  intros H. unfold idle_commit. cbn [snd].
  assert (H' : fences_kept home (set_held (map_imap (fun root e => Some (sweep_entry idle now w root e)) (held w)) w) ts).
  { eapply fences_same; [..|exact H]; try done. apply owners_sweep. }
  revert H'. generalize (set_held (map_imap (fun root e => Some (sweep_entry idle now w root e)) (held w)) w).
  induction (fst <$> retain _ _) as [|r l IH]; intros w' H'; [done|]. cbn. by apply IH, fences_kept_remove.
Qed.

(** The steps of an adoption under the step of a task. *)
Ltac adopting := unfold adopt_fence, register_state, register_open, adopt_found in *.

Lemma task_keeps_fences home a t w w' t' ts :
  task_step a t w = Some (w', t') -> fences_kept home w (t :: ts) -> fences_kept home w' (t' :: ts).
Proof.
  intros E H. assert (Hs : settled t) by (by eapply in_settled; [exact H|left]).
  destruct t as [r|r|r|r f|r f dir|r f dir ws rt| | |[|[[r ws] rt] rest] out|r ws rest out|r ws rest out|r rest out|r|r|r ws|r|now d|
    [|[[r ws] rt] rest] idle now d|idle now d|r reply|reply]; cbn in E, Hs; adopting; try subst f.
  - destruct (enter_lane r w) eqn:En; [|done]. injection E as <- <-. by eapply fences_kept_enter; [exact En|..|exact H].
  - unfold tenant, clone_found in E. destruct (lookup_tenant r w); injection E as <- <-.
    + eapply fences_move; [..|eapply fences_same; [..|exact H]]; done.
    + by eapply fences_move; [..|exact H].
  - destruct (an_lockable a); cbn in E; [|injection E as <- <-; by eapply fences_move; [..|exact H]].
    destruct (w_fences w !! r) eqn:Ef; injection E as <- <-; [by eapply fences_move; [..|exact H]|].
    by eapply fences_kept_acquire; [..|exact H].
  - destruct (an_state_dir a); injection E as <- <-; [by eapply fences_move; [..|exact H]|by eapply fences_kept_drop; [..|exact H]].
  - destruct (an_opened a) as [[ws rt]|]; injection E as <- <-; [by eapply fences_move; [..|exact H]|by eapply fences_kept_drop; [..|exact H]].
  - destruct (insert_tenant r true dir ws rt w) as [answer w1] eqn:Ei. injection E as <- <-.
    apply fences_kept_insert in H. by rewrite Ei in H.
  - destruct (negb (w_handed_off w)); injection E as <- <-; by eapply fences_move; [..|exact H].
  - injection E as <- <-. by eapply fences_move; [..|exact H].
  - injection E as <- <-. by eapply fences_move; [..|exact H].
  - destruct (enter_lane r w) eqn:En; [|done]. injection E as <- <-. by eapply fences_kept_enter; [exact En|..|exact H].
  - injection E as <- <-. destruct (has_work ws a w); by eapply fences_move; [..|exact H].
  - unfold drain_commit in E. destruct (held w !! r) as [e|].
    2: { injection E as <- <-. by eapply fences_move; [..|exact H]. }
    destruct (_ && _); injection E as <- <-; [|by eapply fences_move; [..|exact H]].
    eapply fences_move; [..|apply fences_kept_remove, H]; done.
  - injection E as <- <-. by eapply fences_kept_leave; [..|exact H].
  - destruct (enter_lane r w) eqn:En; [|done]. injection E as <- <-. by eapply fences_kept_enter; [exact En|..|exact H].
  - destruct (initial_entry r w); injection E as <- <-; by eapply fences_move; [..|exact H].
  - injection E as <- <-. destruct (has_work ws a w); by eapply fences_move; [..|exact H].
  - unfold release_commit in E. destruct (initial_entry r w) eqn:Ei; injection E as <- <-.
    + eapply fences_move; [..|eapply fences_kept_release; [exact Ei|exact H]]; done.
    + by eapply fences_move; [..|exact H].
  - injection E as <- <-. by eapply fences_move; [..|exact H].
  - injection E as <- <-. by eapply fences_move; [..|exact H].
  - injection E as <- <-. by eapply fences_move; [..|exact H].
  - apply (fences_kept_idle _ idle now d) in H.
    injection E as <- <-. by eapply fences_move; [..|exact H].
  - injection E as <- <-. by eapply fences_kept_leave; [..|exact H].
  - done.
Qed.

Lemma owners_update r (f : Held Runtime -> Held Runtime) e w :
  held w !! r = Some e -> hd_fence (f e) = hd_fence e -> owners (set_held (<[r := f e]> (held w)) w) = owners w.
Proof.
  intros He Hf. unfold owners, held in *. cbn. rewrite fmap_insert, Hf. apply insert_id.
  rewrite lookup_fmap. unfold held in He. by rewrite He.
Qed.

Lemma call_keeps_fences home w w' ts : call w w' -> fences_kept home w ts -> fences_kept home w' ts.
Proof.
  intros Hc H. destruct Hc as [r w|path w|ws w|w|r w|r w|r w|r w].
  - unfold tenant, clone_found. cbn [snd]. destruct (lookup_tenant r w); [|done]. by eapply fences_same; [..|exact H].
  - unfold owner_of, clone_found. cbn [snd]. destruct (closest path w); [|done]. by eapply fences_same; [..|exact H].
  - unfold by_workspace_id, clone_found. cbn [snd]. destruct (_ <$> _); [|done]. by eapply fences_same; [..|exact H].
  - by eapply fences_same; [..|exact H].
  - unfold begin_retire. destruct (held w !! r) as [e|] eqn:E; [|done].
    destruct (negb (hd_fence e)); [done|]. destruct (_ || _); [done|].
    eapply fences_same; [..|exact H]; try done. by apply (owners_update r (set_hd_retiring true)).
  - unfold complete_retire. destruct (held w !! r) as [e|]; [|done]. destruct (hd_retiring e); [|done]. by apply fences_kept_remove.
  - unfold cancel_retire. destruct (held w !! r) as [e|] eqn:E; [|done].
    eapply fences_same; [..|exact H]; try done. by apply (owners_update r (set_hd_retiring false)).
  - by apply fences_kept_remove.
Qed.

Lemma environment_keeps_fences home w w' ts : environment w w' -> fences_kept home w ts -> fences_kept home w' ts.
Proof.
  intros He H. destruct He as [h w|h before after w|h w|ws w|w|r w Hn|r w Hf|r w Hf Hr];
    try (by eapply fences_same; [..|exact H]); destruct H; constructor; try assumption; cbn.
  - intros r' owned Ho. specialize (in_entry0 r' owned Ho).
    rewrite lookup_insert_ne; [done|]. intros ->. destruct owned; [congruence|]. destruct in_entry0; congruence.
  - intros r' [[_ ?]|[_ H]]%lookup_insert_Some; [done|by apply in_serve0].
  - intros r' Hr'. destruct (in_flight0 r' Hr'). rewrite lookup_insert_ne; [done|]. intros ->. congruence.
  - intros r' [[_ ?]|[_ H]]%lookup_insert_Some; [done|by apply in_owned0].
  - intros r' owned Ho. specialize (in_entry0 r' owned Ho).
    rewrite lookup_delete_ne; [done|]. intros ->. destruct owned; [congruence|]. destruct in_entry0; congruence.
  - intros r' [_ H]%lookup_delete_Some. by apply in_serve0.
  - intros r' Hr'. destruct (in_flight0 r' Hr'). rewrite lookup_delete_ne; [done|]. intros ->. congruence.
  - intros r' [_ H]%lookup_delete_Some. by apply in_owned0.
  - intros r' owned Ho. specialize (in_entry0 r' owned Ho). destruct owned.
    + rewrite lookup_delete_ne; [done|]. intros ->. congruence.
    + destruct in_entry0 as [_ ?]. congruence.
  - intros r' [_ H]%lookup_delete_Some. by apply in_serve0.
  - intros r' Hr'. destruct (in_flight0 r' Hr'). rewrite lookup_delete_ne; [done|]. intros ->. congruence.
  - intros r' [_ H]%lookup_delete_Some. by apply in_owned0.
Qed.

Lemma step_keeps_fences home s s' : step s s' -> fences_kept home (sy_world s) (sy_tasks s) -> fences_kept home (sy_world s') (sy_tasks s').
Proof.
  intros [t w ts Hs|a t t' w w' before after E|reply w before after|w w' ts Hc|w w' ts He] H; cbn in *.
  - apply fences_kept_thread; [by destruct t..|done].
  - eapply fences_perm; [apply Permutation_middle|]. eapply task_keeps_fences; [exact E|].
    eapply fences_perm; [symmetry; apply Permutation_middle|exact H].
  - apply (fences_kept_thread _ _ _ (Finished reply)); [done..|].
    eapply fences_perm; [symmetry; apply Permutation_middle|exact H].
  - by eapply call_keeps_fences.
  - by eapply environment_keeps_fences.
Qed.

Lemma owners_unopened maximum root : owners (unopened maximum root) = ∅.
Proof. apply map_eq. intros r. by rewrite owners_held. Qed.

Lemma serving_fences maximum root dir workspace runtime :
  let s := serving maximum root dir workspace runtime in fences_kept root (sy_world s) (sy_tasks s).
Proof.
  cbn zeta. unfold serving, insert_tenant. cbn [sy_world sy_tasks].
  destruct (has_room root (unopened maximum root)) eqn:Er; cbn [negb snd].
  - assert (Hroom : 1 <= maximum).
    { unfold has_room, unopened, held in Er. cbn in Er. rewrite lookup_empty, map_size_empty in Er.
      apply orb_prop in Er as [[? ?]%bool_decide_eq_true|H%Nat.ltb_lt]; [done|]. cbn in H. lia. }
    unfold unopened, held. cbn. rewrite lookup_empty. cbn.
    assert (Eo : owners (clone (MkTenant 0 root dir workspace runtime)
      (MkWorld (MkTenantRegistry maximum ∅ {[root := MkHeld (MkTenant 0 root dir workspace runtime) false None false]})
         {[root := Serve]} [] 1 ∅ false false)) = {[root := false]}) by (unfold owners, held; cbn; apply map_fmap_singleton).
    constructor; cbn; try done.
    + intros r. split; [intros []%not_elem_of_empty|intros []%elem_of_nil].
    + constructor.
    + intros r owned. setoid_rewrite Eo. intros [<- <-]%lookup_singleton_Some. split; [apply lookup_singleton_eq|done].
    + by intros r [<- _]%lookup_singleton_Some.
    + intros r []%elem_of_nil.
    + by intros r [_ ?]%lookup_singleton_Some.
    + setoid_rewrite Eo. by rewrite map_size_singleton.
    + intros t []%elem_of_nil.
  - constructor; cbn; try done.
    + intros r. split; [intros []%not_elem_of_empty|intros []%elem_of_nil].
    + constructor.
    + by intros r [<- _]%lookup_singleton_Some.
    + intros r []%elem_of_nil.
    + by intros r [_ ?]%lookup_singleton_Some.
    + change (size (owners (unopened maximum root)) <= limit (unopened maximum root)).
      rewrite owners_unopened, map_size_empty. lia.
    + intros t []%elem_of_nil.
Qed.

Lemma limit_remove_all l w : limit (foldl (fun w root => remove_held root w) w l) = limit w.
Proof. revert w. induction l as [|r l IH]; intros w; [done|]. cbn. rewrite IH. apply rest_remove. Qed.

Lemma task_limit a t w w' t' : task_step a t w = Some (w', t') -> limit w' = limit w.
Proof.
  intros E.
  assert (Hd : forall f r w, limit (drop_fence f r w) = limit w) by by intros [].
  assert (He : forall r w', enter_lane r w = Some w' -> limit w' = limit w)
    by (unfold enter_lane; intros r w0; case_bool_decide; [done|]; by intros [= <-]).
  destruct t as [r|r|r|r f|r f dir|r f dir ws rt| | |[|[[r ws] rt] rest] out|r ws rest out|r ws rest out|r rest out|r|r|r ws|r|now d|
    [|[[r ws] rt] rest] idle now d|idle now d|r reply|reply]; cbn in E; adopting;
    try (by injection E as <- <-); try (destruct (enter_lane r w) eqn:En; [|done]; injection E as <- <-; by eapply He).
  - unfold tenant, clone_found in E. by destruct (lookup_tenant r w); injection E as <- <-.
  - destruct (negb (an_lockable a)); [by injection E as <- <-|]. by destruct (w_fences w !! r); injection E as <- <-.
  - destruct (an_state_dir a); injection E as <- <-; [done|apply Hd].
  - destruct (an_opened a) as [[]|]; injection E as <- <-; [done|apply Hd].
  - unfold insert_tenant in E. destruct (negb (has_room r w)); injection E as <- <-; [apply Hd|].
    unfold limit. cbn. apply (Hd _ r (set_held _ w)).
  - destruct (negb (w_handed_off w)); by injection E as <- <-.
  - unfold drain_commit in E. destruct (held w !! r) as [e|]; [|by injection E as <- <-].
    destruct (_ && _); injection E as <- <-; [apply rest_remove|done].
  - by destruct (initial_entry r w); injection E as <- <-.
  - unfold release_commit in E. destruct (initial_entry r w); injection E as <- <-; [apply rest_remove|done].
  - injection E as <- <-. by rewrite limit_remove_all.
  - done.
Qed.

Lemma call_limit w w' : call w w' -> limit w' = limit w.
Proof.
  intros [r w0|path w0|ws w0|w0|r w0|r w0|r w0|r w0].
  - unfold tenant, clone_found. by destruct (lookup_tenant r w0).
  - unfold owner_of, clone_found. by destruct (closest path w0).
  - unfold by_workspace_id, clone_found. cbn. by destruct (_ <$> _).
  - done.
  - unfold begin_retire. destruct (held w0 !! r) as [e|]; [|done]. destruct (negb (hd_fence e)); [done|]. by destruct (_ || _).
  - unfold complete_retire. destruct (held w0 !! r) as [e|]; [|done]. destruct (hd_retiring e); [|done]. apply rest_remove.
  - unfold cancel_retire. by destruct (held w0 !! r).
  - apply rest_remove.
Qed.

Lemma step_limit s s' : step s s' -> limit (sy_world s') = limit (sy_world s).
Proof.
  intros [t w ts Hs|a t t' w w' before after E|reply w before after|w w' ts Hc|w w' ts He]; cbn; try done.
  - by eapply task_limit.
  - by apply call_limit.
  - by destruct He.
Qed.

Lemma reached maximum root dir workspace runtime s : rtc step (serving maximum root dir workspace runtime) s ->
  fences_kept root (sy_world s) (sy_tasks s) /\ limit (sy_world s) = maximum.
Proof.
  revert s. apply (rtc_ind_r (fun s => fences_kept root (sy_world s) (sy_tasks s) /\ limit (sy_world s) = maximum)).
  - split; [apply serving_fences|]. unfold serving, insert_tenant. cbn.
    destruct (negb _); [done|]. unfold drop_fence. by destruct (match _ with Some _ => _ | None => _ end).
  - intros y z _ Hyz [Hf Hl]. split; [by eapply step_keeps_fences|]. rewrite <- Hl. by apply step_limit.
Qed.

(** C33: In every interleaving of adoptions, retirements, sweeps, lookups, other
    daemons and the handoff the registry holds at most its limit of workspaces
    and every one of them is fenced by this process.  The fences it took belong
    each to exactly one tenant or to one adoption under way, none is leaked by a
    refused or failed one, and one thread at a time is in the lane of a root. *)
Theorem fences_have_one_owner maximum root dir workspace runtime s (Hrun : rtc step (serving maximum root dir workspace runtime) s) :
  let w := sy_world s in
  size (held w) <= maximum /\
  (forall r e, held w !! r = Some e -> w_fences w !! r = Some (if hd_fence e then Registered else Serve)) /\
  (forall r, w_fences w !! r = Some Registered <->
     (exists e, held w !! r = Some e /\ hd_fence e = true) \/ exists t, t ∈ sy_tasks s /\ fence_of t = Some r) /\
  (forall r t, t ∈ sy_tasks s -> fence_of t = Some r -> held w !! r = None) /\
  (forall r, r ∈ adopting w <-> exists t, t ∈ sy_tasks s /\ lane t = Some r) /\
  NoDup (omap lane (sy_tasks s)).
Proof.
  intros w. destruct (reached _ _ _ _ _ _ Hrun) as [Hk Hl]. change (sy_world s) with w in Hk, Hl. destruct Hk.
  assert (Ho : forall r e, held w !! r = Some e -> owners w !! r = Some (hd_fence e)) by (intros r e E; by rewrite owners_held, E).
  split; [|split; [|split; [|split; [|split]]]].
  - rewrite <- Hl. unfold owners in in_room0. by rewrite map_size_fmap in in_room0.
  - intros r e E%Ho%in_entry0. destruct (hd_fence e); [done|by destruct E].
  - intros r. split.
    + intros Hf. destruct (in_owned0 r Hf) as [[owned Hs]|(t & Ht & Hr)%list_elem_of_omap]; [left|right; by exists t].
      rewrite owners_held in Hs. destruct (held w !! r) as [e|] eqn:E; [|done]. exists e. split; [done|].
      apply Ho, in_entry0 in E. destruct (hd_fence e); [done|]. destruct E. congruence.
    + intros [(e & E & Hf)|(t & Ht & Hr)].
      * apply Ho, in_entry0 in E. by rewrite Hf in E.
      * apply in_flight0. apply list_elem_of_omap. by exists t.
  - intros r t Ht Hr. destruct (in_flight0 r) as [_ Hn]; [apply list_elem_of_omap; by exists t|].
    rewrite owners_held in Hn. by apply fmap_None in Hn.
  - intros r. rewrite in_lanes0. apply list_elem_of_omap.
  - done.
Qed.

(** ** Termination *)

(** The steps a thread still takes. *)
Definition remaining (maximum : nat) t : nat :=
  match t with
  | AdoptLane _ => 7 | AdoptLookup _ => 6 | AdoptFence _ => 5
  | RegisterState _ _ => 4 | RegisterOpen _ _ _ => 3 | RegisterInsert _ _ _ _ _ => 2
  | DrainGate => 3 + 4 * maximum | DrainCandidates => 2 + 4 * maximum
  | DrainLane rest _ => 1 + 4 * length rest | DrainObserve _ _ rest _ => 4 + 4 * length rest
  | DrainCommit _ _ rest _ => 3 + 4 * length rest | DrainLeave _ rest _ => 2 + 4 * length rest
  | ReleaseLane _ => 5 | ReleaseLookup _ => 4 | ReleaseObserve _ _ => 3 | ReleaseCommit _ => 2
  | IdleCandidates _ _ => 3 + maximum | IdleObserve rest _ _ _ => 2 + length rest | IdleCommit _ _ _ => 1
  | LeaveLane _ _ => 1 | Finished _ => 0
  end.

Lemma held_entries_length (m : gmap (list string) (Held Runtime)) : length (entries m) = size m.
Proof. unfold entries. by rewrite merge_sort_Permutation, length_map_to_list. Qed.

Lemma candidates_length p w : length (candidate_of <$> retain p (entries (held w))) <= size (held w).
Proof. rewrite length_fmap, <- held_entries_length. apply retain_length. Qed.

Lemma task_progresses a t w w' t' :
  size (held w) <= limit w -> task_step a t w = Some (w', t') -> remaining (limit w) t' < remaining (limit w) t.
Proof.
  intros Hroom E.
  destruct t as [r|r|r|r f|r f dir|r f dir ws rt| | |[|[[r ws] rt] rest] out|r ws rest out|r ws rest out|r rest out|r|r|r ws|r|now d|
    [|[[r ws] rt] rest] idle now d|idle now d|r reply|reply]; cbn in E; adopting;
    try (destruct (enter_lane r w); [|done]); try (injection E as <- <-; cbn; lia).
  - unfold tenant, clone_found in E. destruct (lookup_tenant r w); injection E as <- <-; cbn; lia.
  - destruct (negb (an_lockable a)); [injection E as <- <-; cbn; lia|]. destruct (w_fences w !! r); injection E as <- <-; cbn; lia.
  - destruct (an_state_dir a); injection E as <- <-; [|destruct f]; cbn; lia.
  - destruct (an_opened a) as [[]|]; injection E as <- <-; [|destruct f]; cbn; lia.
  - destruct (insert_tenant r f dir ws rt w). injection E as <- <-. destruct f; cbn; lia.
  - destruct (negb (w_handed_off w)); injection E as <- <-; cbn; lia.
  - injection E as <- <-. cbn [remaining]. unfold drain_candidates.
    assert (H := candidates_length (fun re => hd_fence re.2 && negb (hd_retiring re.2)) w). lia.
  - injection E as <- <-. destruct (has_work ws a w); cbn; lia.
  - destruct (drain_commit r ws w). injection E as <- <-. cbn; lia.
  - destruct (initial_entry r w); injection E as <- <-; cbn; lia.
  - injection E as <- <-. destruct (has_work ws a w); cbn; lia.
  - destruct (release_commit r w). injection E as <- <-. cbn; lia.
  - injection E as <- <-. cbn [remaining]. unfold idle_candidates.
    assert (H := candidates_length (fun re => idle_entry w re.2) w). lia.
  - done.
Qed.

(** Only an entry into a lane can block, and a thread in a lane is past it. *)
Definition awaits t : option (list string) :=
  match t with
  | AdoptLane root | DrainLane ((root, _, _) :: _) _ | ReleaseLane root => Some root
  | _ => None
  end.
Definition finished t : bool := match t with Finished _ => true | _ => false end.

Lemma task_enabled a t w : finished t = false -> (forall r, awaits t = Some r -> r ∉ adopting w) -> is_Some (task_step a t w).
Proof.
  intros Hf Hw.
  assert (He : forall r, r ∉ adopting w -> exists w', enter_lane r w = Some w').
  { intros r Hr. unfold enter_lane. rewrite bool_decide_false by done. by eexists. }
  destruct t as [r|r|r|r f|r f dir|r f dir ws rt| | |[|[[r ws] rt] rest] out|r ws rest out|r ws rest out|r rest out|r|r|r ws|r|now d|
    [|[[r ws] rt] rest] idle now d|idle now d|r reply|reply]; cbn in *; try done; try (by eexists); try (destruct (He r) as [w' ->]; [by apply Hw|by eexists]).
  - destruct (insert_tenant r f dir ws rt w); by eexists.
  - destruct (negb (w_handed_off w)); by eexists.
  - destruct (drain_commit r ws w); by eexists.
  - destruct (initial_entry r w); by eexists.
  - destruct (release_commit r w); by eexists.
Qed.

(** C35: Every operation of the registry ends.  While a thread is not finished
    some thread of the daemon can take a step, whatever the environment answers,
    so the lanes never deadlock; every step a thread takes brings it nearer to
    its return, and it takes at most 7 + 4 * limit of them. *)
Theorem tenant_operations_end maximum root dir workspace runtime s (Hrun : rtc step (serving maximum root dir workspace runtime) s) :
  (forall t, t ∈ sy_tasks s -> finished t = false ->
     exists t', t' ∈ sy_tasks s /\ finished t' = false /\ forall a, is_Some (task_step a t' (sy_world s))) /\
  (forall t a w' t', task_step a t (sy_world s) = Some (w', t') -> remaining maximum t' < remaining maximum t) /\
  (forall t, remaining maximum t = 0 <-> finished t = true) /\
  (forall t, startable t (sy_world s) -> remaining maximum t <= 7 + 4 * maximum).
Proof.
  destruct (reached _ _ _ _ _ _ Hrun) as [Hk Hl]. split; [|split; [|split]].
  - intros t Ht Hf. destruct (awaits t) as [r|] eqn:Ea.
    2: { exists t. split; [done|]. split; [done|]. intros a. apply task_enabled; [done|]. by rewrite Ea. }
    destruct (decide (r ∈ adopting (sy_world s))) as [Hr|Hr].
    2: { exists t. split; [done|]. split; [done|]. intros a. apply task_enabled; [done|]. rewrite Ea. by intros r' [= <-]. }
    apply (in_lanes _ _ _ Hk), list_elem_of_omap in Hr as (t' & Ht' & Hlane). exists t'. split; [done|].
    assert (finished t' = false /\ awaits t' = None) as [Hf' Ha']
      by by destruct t' as [| | |? []|? []|? []| | |[|[[]]]| | | | | | | | | | | |].
    split; [done|]. intros a. apply task_enabled; [done|]. by rewrite Ha'.
  - intros t a w' t' E. rewrite <- Hl. eapply task_progresses; [|exact E].
    destruct Hk. unfold owners in in_room0. by rewrite map_size_fmap in in_room0.
  - intros t. destruct t; cbn; split; try done; lia.
  - intros t. destruct t; cbn; try done; lia.
Qed.

(** ** What becomes of an entry *)
Lemma held_remove r w : held (remove_held r w) = delete r (held w).
Proof.
  unfold remove_held. destruct (held w !! r) as [e|] eqn:E; [by destruct (hd_fence e)|]. symmetry. by apply delete_id.
Qed.

Lemma held_remove_all l w r e : held (foldl (fun w root => remove_held root w) w l) !! r = Some e -> held w !! r = Some e.
Proof.
  revert w. induction l as [|x l IH]; intros w; [done|]. cbn. intros H%IH. rewrite held_remove, lookup_delete_Some in H. by destruct H.
Qed.

(** The entries of [w'] are the ones of [w], with the same idle time when
    [aged], or were adopted since. *)
Definition descends (aged : bool) w w' : Prop :=
  forall r e', held w' !! r = Some e' ->
    (hd_fence e' = true /\ hd_idle_since e' = None) \/
    exists e, held w !! r = Some e /\ hd_fence e' = hd_fence e /\ hd_tenant e' = hd_tenant e /\
      (aged = true -> hd_idle_since e' = hd_idle_since e).

Lemma descends_same aged w w' : held w' = held w -> descends aged w w'.
Proof. intros E r e' H. rewrite E in H. right. by exists e'. Qed.

Lemma descends_remove aged r w : descends aged w (remove_held r w).
Proof. intros r' e'. rewrite held_remove, lookup_delete_Some. intros [_ H]. right. by exists e'. Qed.

Lemma descends_update aged r f w e : held w !! r = Some e ->
  hd_fence (f e) = hd_fence e -> hd_tenant (f e) = hd_tenant e -> hd_idle_since (f e) = hd_idle_since e ->
  descends aged w (set_held (<[r := f e]> (held w)) w).
Proof.
  intros He Hf Ht Hi r' e'. unfold held at 1. cbn. intros [[<- <-]|[_ H]]%lookup_insert_Some; right; [by exists e|by exists e'].
Qed.

Definition sweeps t : bool := match t with IdleCommit _ _ _ => true | _ => false end.

Lemma task_descends a t w w' t' : settled t -> task_step a t w = Some (w', t') -> descends (negb (sweeps t)) w w'.
Proof.
  intros Hs E.
  assert (He : forall r w' aged, enter_lane r w = Some w' -> descends aged w w').
  { unfold enter_lane. intros r w0 aged. case_bool_decide; [done|]. intros [= <-]. by apply descends_same. }
  assert (Hd : forall f r aged, descends aged w (drop_fence f r w)) by (intros [] r aged; by apply descends_same).
  destruct t as [r|r|r|r f|r f dir|r f dir ws rt| | |[|[[r ws] rt] rest] out|r ws rest out|r ws rest out|r rest out|r|r|r ws|r|now d|
    [|[[r ws] rt] rest] idle now d|idle now d|r reply|reply]; cbn in E, Hs; adopting; try done; cbn [sweeps negb];
    try (injection E as <- <-; by apply descends_same);
    try (destruct (enter_lane r w) eqn:En; [|done]; injection E as <- <-; by eapply He).
  - unfold tenant, clone_found in E. destruct (lookup_tenant r w); injection E as <- <-; by apply descends_same.
  - destruct (negb (an_lockable a)); [injection E as <- <-; by apply descends_same|].
    destruct (w_fences w !! r); injection E as <- <-; by apply descends_same.
  - destruct (an_state_dir a); injection E as <- <-; [by apply descends_same|apply Hd].
  - destruct (an_opened a) as [[]|]; injection E as <- <-; [by apply descends_same|apply Hd].
  - subst f. unfold insert_tenant in E. destruct (negb (has_room r w)); injection E as <- <-; [exact (Hd true r _)|].
    intros r' e' H. assert (H' : <[r := MkHeld (MkTenant (w_next w) r dir ws rt) true None false]> (held w) !! r' = Some e').
    { revert H. by destruct (match held w !! r with Some e => hd_fence e | None => false end). }
    apply lookup_insert_Some in H' as [[<- <-]|[_ H']]; [by left|right; by exists e'].
  - destruct (negb (w_handed_off w)); injection E as <- <-; by apply descends_same.
  - unfold drain_commit in E. destruct (held w !! r) as [e|]; [|injection E as <- <-; by apply descends_same].
    destruct (_ && _); injection E as <- <-; [apply descends_remove|by apply descends_same].
  - destruct (initial_entry r w); injection E as <- <-; by apply descends_same.
  - unfold release_commit in E. destruct (initial_entry r w); injection E as <- <-; [|by apply descends_same].
    intros r' e' H. exact (descends_remove _ r w r' e' H).
  - injection E as <- <-. intros r e' H%held_remove_all. unfold held in H. cbn in H. rewrite map_lookup_imap in H.
    destruct (tr_held (w_registry w) !! r) as [e|] eqn:E; [|done]. injection H as <-. right. by exists e.
Qed.

Lemma call_descends w w' : call w w' -> descends true w w'.
Proof.
  intros [r w0|path w0|ws w0|w0|r w0|r w0|r w0|r w0].
  - unfold tenant, clone_found. destruct (lookup_tenant r w0); by apply descends_same.
  - unfold owner_of, clone_found. destruct (closest path w0); by apply descends_same.
  - unfold by_workspace_id, clone_found. cbn. destruct (_ <$> _); by apply descends_same.
  - by apply descends_same.
  - unfold begin_retire. destruct (held w0 !! r) as [e|] eqn:E; [|by apply descends_same].
    destruct (negb (hd_fence e)); [by apply descends_same|]. destruct (_ || _); [by apply descends_same|].
    intros r' e' H. eapply (descends_update true r (set_hd_retiring true)); [exact E|done..|exact H].
  - unfold complete_retire. destruct (held w0 !! r) as [e|]; [|by apply descends_same].
    destruct (hd_retiring e); [apply descends_remove|by apply descends_same].
  - unfold cancel_retire. destruct (held w0 !! r) as [e|] eqn:E; [|by apply descends_same].
    by eapply (descends_update true r (set_hd_retiring false)).
  - apply descends_remove.
Qed.

(** ** Draining *)

(** After the handoff nothing is given work. *)
Definition quieter w w' : Prop :=
  w_handed_off w = true -> w_handed_off w' = true /\ w_work w' ⊆ w_work w.

Lemma remove_all_work l w : w_work (foldl (fun w root => remove_held root w) w l) = w_work w /\
  w_handed_off (foldl (fun w root => remove_held root w) w l) = w_handed_off w.
Proof.
  revert w. induction l as [|r l IH]; intros w; [done|]. cbn. destruct (IH (remove_held r w)) as [-> ->].
  unfold remove_held. destruct (held w !! r) as [e|]; [|done]. by destruct (hd_fence e).
Qed.

Lemma same_work w w' : w_work w' = w_work w -> w_handed_off w' = w_handed_off w -> quieter w w'.
Proof. intros E1 E2 H. by rewrite E1, E2. Qed.

Lemma task_work a t w w' t' : task_step a t w = Some (w', t') -> w_work w' = w_work w /\ w_handed_off w' = w_handed_off w.
Proof.
  intros E.
  assert (Hd : forall f r w, w_work (drop_fence f r w) = w_work w /\ w_handed_off (drop_fence f r w) = w_handed_off w) by by intros [].
  assert (Hr : forall r w, w_work (remove_held r w) = w_work w /\ w_handed_off (remove_held r w) = w_handed_off w)
    by (intros r w0; apply (remove_all_work [r])).
  assert (He : forall r w', enter_lane r w = Some w' -> w_work w' = w_work w /\ w_handed_off w' = w_handed_off w)
    by (unfold enter_lane; intros r w0; case_bool_decide; [done|]; by intros [= <-]).
  destruct t as [r|r|r|r f|r f dir|r f dir ws rt| | |[|[[r ws] rt] rest] out|r ws rest out|r ws rest out|r rest out|r|r|r ws|r|now d|
    [|[[r ws] rt] rest] idle now d|idle now d|r reply|reply]; cbn in E; adopting; try done;
    try (by injection E as <- <-); try (destruct (enter_lane r w) eqn:En; [|done]; injection E as <- <-; by eapply He).
  - unfold tenant, clone_found in E. by destruct (lookup_tenant r w); injection E as <- <-.
  - destruct (negb (an_lockable a)); [by injection E as <- <-|]. by destruct (w_fences w !! r); injection E as <- <-.
  - destruct (an_state_dir a); injection E as <- <-; [done|apply Hd].
  - destruct (an_opened a) as [[]|]; injection E as <- <-; [done|apply Hd].
  - unfold insert_tenant in E. destruct (negb (has_room r w)); injection E as <- <-; [apply Hd|]. cbn. apply (Hd _ r (set_held _ w)).
  - destruct (negb (w_handed_off w)); by injection E as <- <-.
  - unfold drain_commit in E. destruct (held w !! r) as [e|]; [|by injection E as <- <-].
    destruct (_ && _); injection E as <- <-; [apply Hr|done].
  - by destruct (initial_entry r w); injection E as <- <-.
  - unfold release_commit in E. destruct (initial_entry r w); injection E as <- <-; [apply (Hr r w)|done].
  - injection E as <- <-. by rewrite !(proj1 (remove_all_work _ _)), (proj2 (remove_all_work _ _)).
Qed.

Lemma call_quieter w w' : call w w' -> quieter w w'.
Proof.
  intros Hc. assert (Hr : forall r w, quieter w (remove_held r w)).
  { intros r w0. apply same_work; apply (remove_all_work [r]). }
  destruct Hc as [r w0|path w0|ws w0|w0|r w0|r w0|r w0|r w0].
  - unfold tenant, clone_found. by destruct (lookup_tenant r w0).
  - unfold owner_of, clone_found. by destruct (closest path w0).
  - unfold by_workspace_id, clone_found. cbn. by destruct (_ <$> _).
  - done.
  - unfold begin_retire. destruct (held w0 !! r) as [e|]; [|done]. destruct (negb (hd_fence e)); [done|]. by destruct (_ || _).
  - unfold complete_retire. destruct (held w0 !! r) as [e|]; [|done]. destruct (hd_retiring e); [apply Hr|done].
  - unfold cancel_retire. by destruct (held w0 !! r).
  - apply Hr.
Qed.

Lemma environment_quieter w w' : environment w w' -> quieter w w'.
Proof.
  intros []; try done.
  - intros Hoff. congruence.
  - intros Hoff. split; [done|]. cbn. set_solver.
Qed.

(** What a draining thread has seen still holds. *)
Definition calm w t : Prop :=
  match t with
  | DrainCandidates | DrainLane _ _ | DrainObserve _ _ _ _ | DrainLeave _ _ _ | ReleaseLane _ | ReleaseLookup _ => w_handed_off w = true
  | DrainCommit _ workspace _ _ => w_handed_off w = true /\ workspace ∉ w_work w
  | ReleaseObserve root workspace =>
      w_handed_off w = true /\ forall e, held w !! root = Some e -> hd_fence e = false -> tn_workspace_id (hd_tenant e) = workspace
  | ReleaseCommit root =>
      w_handed_off w = true /\ forall e, held w !! root = Some e -> hd_fence e = false -> tn_workspace_id (hd_tenant e) ∉ w_work w
  | _ => True
  end.

Lemma calm_later aged w w' t : descends aged w w' -> quieter w w' -> calm w t -> calm w' t.
Proof.
  intros Hd Hq. unfold quieter in Hq.
  assert (He : forall r e, held w' !! r = Some e -> hd_fence e = false ->
    exists e0, held w !! r = Some e0 /\ hd_fence e0 = false /\ hd_tenant e = hd_tenant e0).
  { intros r e [[? ?]|(e0 & H0 & Hf & Ht & _)]%Hd Hfe; [congruence|]. exists e0. split; [done|]. by split; [congruence|]. }
  destruct t; cbn; try done; try (intros H; by apply Hq).
  - intros [H Hw]. destruct (Hq H) as [H' Hsub]. split; [done|]. set_solver.
  - intros [H Hw]. destruct (Hq H) as [H' Hsub]. split; [done|].
    intros e E Hf. destruct (He _ _ E Hf) as (e0 & E0 & Hf0 & ->). by apply Hw.
  - intros [H Hw]. destruct (Hq H) as [H' Hsub]. split; [done|].
    intros e E Hf. destruct (He _ _ E Hf) as (e0 & E0 & Hf0 & ->). specialize (Hw e0 E0 Hf0). set_solver.
Qed.

Lemma unworked ws a w : has_work ws a w = false -> ws ∉ w_work w.
Proof. unfold has_work. intros [H _]%orb_false_iff. by apply bool_decide_eq_false in H. Qed.

Lemma calm_task a t w w' t' : task_step a t w = Some (w', t') -> calm w t -> calm w' t'.
Proof.
  intros E H. destruct (task_work _ _ _ _ _ E) as [Ew Eh].
  destruct t as [r|r|r|r f|r f dir|r f dir ws rt| | |[|[[r ws] rt] rest] out|r ws rest out|r ws rest out|r rest out|r|r|r ws|r|now d|
    [|[[r ws] rt] rest] idle now d|idle now d|r reply|reply]; cbn in E, H; adopting; try done;
    try (by injection E as <- <-); try (destruct (enter_lane r w) eqn:En; [|done]; injection E as <- <-; cbn; by rewrite ?Eh).
  - unfold tenant, clone_found in E. by destruct (lookup_tenant r w); injection E as <- <-.
  - destruct (negb (an_lockable a)); [by injection E as <- <-|]. by destruct (w_fences w !! r); injection E as <- <-.
  - destruct (an_state_dir a); injection E as <- <-; [done|by destruct f].
  - destruct (an_opened a) as [[]|]; injection E as <- <-; [done|by destruct f].
  - destruct (insert_tenant r f dir ws rt w). injection E as <- <-. by destruct f.
  - destruct (w_handed_off w) eqn:Eg; by injection E as <- <-.
  - destruct (has_work ws a w) eqn:Eb; injection E as <- <-; cbn; [done|]. by split; [|eapply unworked].
  - destruct (drain_commit r ws w). injection E as <- <-. cbn. rewrite Eh. apply H.
  - destruct (initial_entry r w) as [e|] eqn:Ei; injection E as <- <-; [|done]. split; [done|].
    intros e0 E0 _. unfold initial_entry in Ei. rewrite E0 in Ei. cbn in Ei. destruct (_ && _); [by injection Ei as ->|done].
  - destruct (has_work ws a w) eqn:Eb; injection E as <- <-; [done|]. destruct H as [H Hw]. split; [done|].
    intros e E0 Hf. rewrite (Hw e E0 Hf). by eapply unworked.
  - destruct (release_commit r w). by injection E as <- <-.
Qed.

Definition at_peace s : Prop := forall t, t ∈ sy_tasks s -> calm (sy_world s) t.

Lemma step_at_peace home s s' : fences_kept home (sy_world s) (sy_tasks s) -> step s s' -> at_peace s -> at_peace s'.
Proof.
  intros Hk Hst H. destruct Hst as [t w ts Hs|a t t' w w' before after E|reply w before after|w w' ts Hc|w w' ts He];
    unfold at_peace in *; cbn in *.
  - intros x [->|Hx]%elem_of_cons; [by destruct t|by apply H].
  - assert (Hset : settled t) by (apply (in_settled _ _ _ Hk t); rewrite elem_of_app, elem_of_cons; auto).
    assert (Hq : quieter w w') by by (destruct (task_work _ _ _ _ _ E); apply same_work).
    intros x Hx. rewrite elem_of_app, elem_of_cons in Hx. destruct Hx as [Hx|[->|Hx]].
    + eapply calm_later; [by eapply task_descends|done|]. apply H. rewrite elem_of_app, elem_of_cons. auto.
    + eapply calm_task; [exact E|]. apply H. rewrite elem_of_app, elem_of_cons. auto.
    + eapply calm_later; [by eapply task_descends|done|]. apply H. rewrite elem_of_app, elem_of_cons. auto.
  - intros x Hx. apply H. rewrite elem_of_app, elem_of_cons. apply elem_of_app in Hx as [?|?]; auto.
  - intros x Hx. eapply calm_later; [by apply call_descends|by apply call_quieter|by apply H].
  - intros x Hx. eapply (calm_later true); [|by apply environment_quieter|by apply H]. destruct He; by apply descends_same.
Qed.

Lemma reached_at_peace maximum root dir workspace runtime s :
  rtc step (serving maximum root dir workspace runtime) s -> at_peace s.
Proof.
  intros Hrun. enough (at_peace s /\ fences_kept root (sy_world s) (sy_tasks s)) by tauto.
  revert s Hrun. apply (rtc_ind_r (fun s => at_peace s /\ fences_kept root (sy_world s) (sy_tasks s))).
  - split; [by intros t []%elem_of_nil|apply serving_fences].
  - intros y z _ Hyz [Hp Hk]. split; [by eapply step_at_peace|by eapply step_keeps_fences].
Qed.

Definition drains t : bool := match t with DrainCommit _ _ _ _ | ReleaseCommit _ => true | _ => false end.

(** C34: A workspace that a drain or a release takes out of the registry has no
    work at that very moment, whatever ran between the observation and the
    removal; the daemon has handed off, nobody is retiring it, and its fence is
    released, or left for [serve] to release. *)
Theorem draining_spares_work maximum root dir workspace runtime s t a w' t' r e
    (Hrun : rtc step (serving maximum root dir workspace runtime) s) (Ht : t ∈ sy_tasks s) (Hdrain : drains t = true)
    (Hstep : task_step a t (sy_world s) = Some (w', t'))
    (Hheld : held (sy_world s) !! r = Some e) (Hgone : held w' !! r = None) :
  w_handed_off (sy_world s) = true /\ tn_workspace_id (hd_tenant e) ∉ w_work (sy_world s) /\ hd_retiring e = false /\
  w_fences w' !! r = if hd_fence e then None else Some Serve.
Proof.
  assert (Hcalm := reached_at_peace _ _ _ _ _ _ Hrun t Ht). destruct (reached _ _ _ _ _ _ Hrun) as [Hk _].
  assert (Hfence : forall r', r = r' -> w_fences (remove_held r' (sy_world s)) !! r = if hd_fence e then None else Some Serve).
  { intros r' <-. rewrite fences_remove, owners_held, Hheld. cbn.
    assert (Ho := in_entry _ _ _ Hk r (hd_fence e)). rewrite owners_held, Hheld in Ho. specialize (Ho eq_refl).
    destruct (hd_fence e); [by rewrite decide_True, lookup_delete_eq|]. rewrite decide_False by done. apply Ho. }
  assert (Hr : forall r', held (remove_held r' (sy_world s)) !! r = None -> r = r').
  { intros r'. rewrite held_remove, lookup_delete_None. intros [?|?]; [done|congruence]. }
  destruct t; try done; cbn in Hstep, Hcalm.
  - unfold drain_commit in Hstep. destruct (held (sy_world s) !! root0) as [e0|] eqn:E0; [|injection Hstep as <- <-; congruence].
    destruct (hd_fence e0 && negb (hd_retiring e0) && _) eqn:Ec; injection Hstep as <- <-; [|congruence].
    apply Hr in Hgone as ->. rewrite Hheld in E0. injection E0 as ->.
    apply andb_prop in Ec as [[_ Hret%negb_true_iff]%andb_prop ->%bool_decide_eq_true].
    destruct Hcalm as [? ?]. repeat split; try done. by apply Hfence.
  - unfold release_commit in Hstep. destruct (initial_entry root0 (sy_world s)) as [e0|] eqn:Ei; injection Hstep as <- <-; [|congruence].
    change (held (remove_held root0 (sy_world s)) !! r = None) in Hgone.
    apply Hr in Hgone as ->. unfold initial_entry in Ei. rewrite Hheld in Ei. cbn in Ei.
    destruct (negb (hd_fence e) && negb (hd_retiring e)) eqn:Ec; [|done].
    apply andb_prop in Ec as [Hf%negb_true_iff Hret%negb_true_iff].
    destruct Hcalm as [? Hw]. repeat split; try done; [by apply (Hw e)|by apply Hfence].
Qed.

(** ** Idle sweeps *)

(** A thread with the answers it got and the worlds it saw, the last one first. *)
Record Thread := MkThread { th_task : Task; th_trace : list (Answer * World) }.

(** A sweep that was committed, the roots it found idle, and what its thread saw. *)
Record Sweep := MkSweep { sw_now : Z; sw_idle : gset (list string); sw_trace : list (Answer * World) }.

Definition idle_at (idle : gset (list string)) w : gset (list string) :=
  dom (filter (fun re => still_idle idle w re.1 re.2 = true) (held w)).

(** The system with the history of each thread. *)
Record Traced := MkTraced { tc_world : World; tc_threads : list Thread }.
Definition untraced (s : Traced) : System := MkSystem (tc_world s) (th_task <$> tc_threads s).

Inductive labelled : Traced -> option Sweep -> Traced -> Prop :=
| labelled_sweep idle now d w trace before after :
    labelled (MkTraced w (before ++ MkThread (IdleCommit idle now d) trace :: after)) (Some (MkSweep now (idle_at idle w) trace))
      (MkTraced (idle_commit idle now d w).2 (before ++ MkThread (Finished (Retired (idle_commit idle now d w).1)) trace :: after))
| labelled_start t w (ts : list Thread) : startable t w -> labelled (MkTraced w ts) None (MkTraced w (MkThread t [] :: ts))
| labelled_task a t t' w w' trace before after : sweeps t = false -> task_step a t w = Some (w', t') ->
    labelled (MkTraced w (before ++ MkThread t trace :: after)) None (MkTraced w' (before ++ MkThread t' ((a, w) :: trace) :: after))
| labelled_return reply w trace before after :
    labelled (MkTraced w (before ++ MkThread (Finished reply) trace :: after)) None (MkTraced w (before ++ after))
| labelled_call w w' (ts : list Thread) : call w w' -> labelled (MkTraced w ts) None (MkTraced w' ts)
| labelled_environment w w' (ts : list Thread) : environment w w' -> labelled (MkTraced w ts) None (MkTraced w' ts).

(** A run and its sweeps, the last one first. *)
Inductive run (s : Traced) : list Sweep -> Traced -> Prop :=
| run_nil : run s [] s
| run_quiet l s' s'' : run s l s' -> labelled s' None s'' -> run s l s''
| run_sweep l s' s'' sweep : run s l s' -> labelled s' (Some sweep) s'' -> run s (sweep :: l) s''.

Lemma labelled_step s l s' : labelled s l s' -> step (untraced s) (untraced s').
Proof.
  intros []; unfold untraced; cbn [tc_world tc_threads]; rewrite ?fmap_app, ?fmap_cons; cbn [th_task]; try (by constructor); [|by eapply step_task].
  eapply (step_task (MkAnswer true None None None false)). cbn [task_step]. by destruct (idle_commit idle now d w).
Qed.

(** The histories restrict nothing. *)
Lemma step_labelled s s1 : step (untraced s) s1 -> exists l s', labelled s l s' /\ untraced s' = s1.
Proof.
  destruct s as [w0 ts0]. unfold untraced at 1. cbn [tc_world tc_threads]. intros Hs. remember (MkSystem w0 (th_task <$> ts0)) as s0 eqn:E0.
  destruct Hs as [t w ts Hs|a t t' w w' before after E|reply w before after|w w' ts Hc|w w' ts He]; injection E0 as -> E0.
  - exists None, (MkTraced w0 (MkThread t [] :: ts0)). split; [by constructor|]. unfold untraced. cbn. by rewrite E0.
  - symmetry in E0. apply fmap_app_inv in E0 as (b & k & -> & E0 & ->). symmetry in E0.
    apply fmap_cons_inv in E0 as ([t0 trace] & af & -> & -> & ->). cbn [th_task] in E.
    destruct (sweeps t0) eqn:Es.
    + destruct t0; try done. cbn [task_step] in E. assert (H := labelled_sweep idle now idle_for w0 trace b af).
      destruct (idle_commit idle now idle_for w0) as [retired w1]. injection E as <- <-. do 2 eexists. split; [exact H|].
      unfold untraced. cbn [tc_world tc_threads]. by rewrite fmap_app, fmap_cons.
    + do 2 eexists. split; [by eapply labelled_task|]. unfold untraced. cbn [tc_world tc_threads]. by rewrite fmap_app, fmap_cons.
  - symmetry in E0. apply fmap_app_inv in E0 as (b & k & -> & E0 & ->). symmetry in E0.
    apply fmap_cons_inv in E0 as ([t0 trace] & af & Et & -> & ->). cbn in Et. subst t0.
    do 2 eexists. split; [apply labelled_return|]. unfold untraced. cbn [tc_world tc_threads]. by rewrite fmap_app.
  - exists None, (MkTraced w' ts0). split; [by constructor|]. unfold untraced. cbn. by rewrite E0.
  - exists None, (MkTraced w' ts0). split; [by constructor|]. unfold untraced. cbn. by rewrite E0.
Qed.

Lemma run_reached s l s' : run s l s' -> rtc step (untraced s) (untraced s').
Proof.
  induction 1 as [|l s' s'' _ IH Hs|l s' s'' sweep _ IH Hs]; [done|..];
    (eapply rtc_r; [exact IH|]; by eapply labelled_step).
Qed.

(** When the thread chose its candidates [r] was held under a fence of the
    registry, by nobody but the registry and not being retired, and its workspace
    had no work in a world the thread observed afterwards. *)
Definition observed_idle (trace : list (Answer * World)) (r : list string) : Prop :=
  exists seen a0 w0 e, trace = seen ++ [(a0, w0)] /\ held w0 !! r = Some e /\
    hd_fence e = true /\ hd_retiring e = false /\ referenced_elsewhere (hd_tenant e) w0 = false /\
    exists a w, (a, w) ∈ seen /\ tn_workspace_id (hd_tenant e) ∉ w_work w.

Lemma observed_later x trace r : observed_idle trace r -> observed_idle (x :: trace) r.
Proof.
  intros (seen & a0 & w0 & e & -> & He & Hf & Hr & Hel & a & w & Hin & Hw).
  exists (x :: seen), a0, w0, e. split_and!; try done. exists a, w. split; [by right|done].
Qed.

(** What the history of a sweeping thread says of the roots it holds. *)
Definition accounts_for (th : Thread) : Prop :=
  match th_task th with
  | IdleCandidates _ _ => th_trace th = []
  | IdleObserve rest idle _ _ =>
      (exists seen a0 w0, th_trace th = seen ++ [(a0, w0)] /\ forall c, c ∈ rest -> c ∈ idle_candidates w0) /\
      forall r, r ∈ idle -> observed_idle (th_trace th) r
  | IdleCommit idle _ _ => forall r, r ∈ idle -> observed_idle (th_trace th) r
  | _ => True
  end.

Lemma entries_elem (m : gmap (list string) (Held Runtime)) r e : (r, e) ∈ entries m <-> m !! r = Some e.
Proof. unfold entries. rewrite merge_sort_Permutation. apply elem_of_map_to_list. Qed.

Lemma elem_of_idle_at' idle w r : r ∈ idle_at idle w -> exists e, held w !! r = Some e /\ still_idle idle w r e = true.
Proof. unfold idle_at. intros (e & [He Hi]%map_lookup_filter_Some)%elem_of_dom. by exists e. Qed.

Lemma candidate_idle w r workspace runtime : (r, workspace, runtime) ∈ idle_candidates w ->
  exists e, held w !! r = Some e /\ tn_workspace_id (hd_tenant e) = workspace /\
    hd_fence e = true /\ hd_retiring e = false /\ referenced_elsewhere (hd_tenant e) w = false.
Proof.
  unfold idle_candidates, candidate_of. intros ([r' e] & E & He)%list_elem_of_fmap. injection E as -> -> _.
  apply elem_of_retain in He as [He Hi]. apply entries_elem in He. exists e. cbn in *. unfold idle_entry in Hi.
  by apply andb_prop in Hi as [[Hf Hr%negb_true_iff]%andb_prop Hel%negb_true_iff].
Qed.

Lemma task_accounts a t t' w w' trace : accounts_for (MkThread t trace) -> task_step a t w = Some (w', t') ->
  accounts_for (MkThread t' ((a, w) :: trace)).
Proof.
  intros Ha E.
  assert (Hp : forall tr t', match t' with IdleCandidates _ _ | IdleObserve _ _ _ _ | IdleCommit _ _ _ => False | _ => True end ->
            accounts_for (MkThread t' tr)) by (intros ? []; done).
  assert (Hreg : forall r b x tr, accounts_for (MkThread (registered r b x) tr)) by (intros ? []; done).
  destruct t as [| | | | | | | |[|[[??]?]?]| | | | | | | | |[|[[r workspace] runtime] rest] idle now d| | |]; cbn in E; adopting.
  all: try (repeat case_match; simplify_eq; first [by apply Hreg|by apply Hp]).
  all: try (destruct (enter_lane _ _); [|done]; by injection E as <- <-).
  - injection E as <- <-. split; [|cbn; set_solver].
    exists [], a, w. split; [cbn in *; by rewrite Ha|done].
  - injection E as <- <-. intros r Hr. by apply observed_later, Ha.
  - injection E as <- <-. destruct Ha as [(seen & a0 & w0 & Et & Hc) Hi]. cbn [th_task th_trace] in *. split.
    + exists ((a, w) :: seen), a0, w0. split; [by rewrite Et|]. intros c Hin. apply Hc. by right.
    + destruct (has_work workspace a w) eqn:Hw; [intros x Hx; by apply observed_later, Hi|].
      intros x [->%elem_of_singleton|Hx]%elem_of_union; [|by apply observed_later, Hi].
      destruct (candidate_idle w0 r workspace runtime) as (e & He & <- & Hf & Hr & Hel); [apply Hc; by left|].
      exists ((a, w) :: seen), a0, w0, e. split_and!; [cbn [th_trace]; by rewrite Et|done..|].
      exists a, w. split; [by left|]. unfold has_work in Hw. apply orb_false_iff in Hw as [Hw _].
      by apply bool_decide_eq_false in Hw.
Qed.

Lemma labelled_accounts s l s' : labelled s l s' -> Forall accounts_for (tc_threads s) -> Forall accounts_for (tc_threads s').
Proof.
  intros []; cbn [tc_threads]; rewrite ?Forall_app, ?Forall_cons; try tauto.
  - intros (? & _ & ?). by split_and!.
  - intros Hts. split; [|done]. by destruct t.
  - intros (? & Ha & ?). split_and!; try done. by eapply task_accounts.
Qed.

Lemma run_accounts s l s' : run s l s' -> Forall accounts_for (tc_threads s) ->
  Forall accounts_for (tc_threads s') /\ forall x r, x ∈ l -> r ∈ sw_idle x -> observed_idle (sw_trace x) r.
Proof.
  intros H H0. induction H as [|l s' s'' _ [IH IHl] Hs|l s' s'' sweep _ [IH IHl] Hs].
  - split; [done|]. by intros x r ?%elem_of_nil.
  - split; [by eapply labelled_accounts|done].
  - split; [by eapply labelled_accounts|]. intros x r [->|Hx]%elem_of_cons; [|by apply IHl].
    inversion Hs; subst. cbn [sw_idle sw_trace]. intros (e & He & Hi)%elem_of_idle_at'.
    apply Forall_app in IH as [_ [Hc _]%Forall_cons]. apply Hc. unfold still_idle in Hi.
    apply andb_prop in Hi as [Hin%bool_decide_eq_true _]. done.
Qed.

(** [r] was idle in every sweep since the one at [t]. *)
Definition idle_since (l : list Sweep) (r : list string) (t : Z) : Prop :=
  exists newer first older, l = newer ++ first :: older /\ sw_now first = t /\ forall x, x ∈ newer ++ [first] -> r ∈ sw_idle x.

Lemma idle_since_cons sweep l r (t : Z) : r ∈ sw_idle sweep -> idle_since l r t -> idle_since (sweep :: l) r t.
Proof.
  intros Hr (newer & first & older & -> & Ht & H). exists (sweep :: newer), first, older. repeat split; [done|].
  cbn. intros x [->|Hx]%elem_of_cons; [done|by apply H].
Qed.

Lemma idle_since_first sweep l r : r ∈ sw_idle sweep -> idle_since (sweep :: l) r (sw_now sweep).
Proof. intros Hr. exists [], sweep, l. repeat split. by intros x ->%list_elem_of_singleton. Qed.

Definition patient (l : list Sweep) w : Prop :=
  forall r e (t : Z), held w !! r = Some e -> hd_idle_since e = Some t -> idle_since l r t.

Lemma patient_later l w w' : descends true w w' -> patient l w -> patient l w'.
Proof.
  intros Hd H r e t E Et. apply Hd in E as [[_ ?]|(e0 & E0 & _ & _ & Hi)]; [congruence|].
  apply (H r e0 t E0). rewrite <- Hi by done. done.
Qed.

Lemma elem_of_idle_at idle w r e : held w !! r = Some e -> still_idle idle w r e = true -> r ∈ idle_at idle w.
Proof. intros He Hs. apply elem_of_dom. exists e. by apply map_lookup_filter_Some. Qed.

Lemma sweep_patient idle now d trace l w : patient l w -> patient (MkSweep now (idle_at idle w) trace :: l) (idle_commit idle now d w).2.
Proof.
  intros H r e' t E%held_remove_all Et. unfold held in E. cbn in E. rewrite map_lookup_imap in E.
  destruct (tr_held (w_registry w) !! r) as [e|] eqn:E0; [|done]. injection E as <-. cbn in Et.
  destruct (still_idle idle w r e) eqn:Es; [|done]. injection Et as <-.
  assert (Hr : r ∈ idle_at idle w) by by eapply elem_of_idle_at.
  destruct (hd_idle_since e) as [t|] eqn:Et; cbn.
  - apply idle_since_cons; [done|]. by apply (H r e).
  - by apply (idle_since_first (MkSweep now (idle_at idle w) trace)).
Qed.

(** The daemon before any thread runs. *)
Definition traced_serving maximum root dir workspace (runtime : Runtime) : Traced :=
  MkTraced (sy_world (serving maximum root dir workspace runtime)) [].

Lemma run_patient maximum root dir workspace runtime l s :
  run (traced_serving maximum root dir workspace runtime) l s -> patient l (tc_world s).
Proof.
  intros H. remember (traced_serving maximum root dir workspace runtime) as s0 eqn:E0.
  induction H as [|l s' s'' Hr IH Hs|l s' s'' sweep Hr IH Hs].
  - subst. intros r e t E Et. exfalso. unfold traced_serving, serving, insert_tenant in E. cbn [tc_world sy_world] in E.
    destruct (negb _); cbn in E; unfold held in E; cbn in E; [by rewrite lookup_empty in E|].
    rewrite lookup_empty in E. cbn in E. apply lookup_singleton_Some in E as [_ <-]. done.
  - assert (Hset : forall t, t ∈ th_task <$> tc_threads s' -> settled t).
    { subst. apply run_reached in Hr. destruct (reached _ _ _ _ _ _ Hr) as [Hk _]. apply (in_settled _ _ _ Hk). }
    eapply patient_later; [|exact IH].
    clear -Hs Hset. remember None as label eqn:El. destruct Hs as
      [i now d w tr b a|t w ts Hst|a t t' w w' tr b af Hsw E|reply w tr b a|w w' ts Hc|w w' ts He]; cbn in *; try done; try (by apply descends_same).
    + eapply (task_descends a t) in E; [by rewrite Hsw in E|]. apply Hset. rewrite fmap_app, fmap_cons, elem_of_app, elem_of_cons. auto.
    + by apply call_descends.
    + destruct He; by apply descends_same.
  - inversion Hs; subst. cbn. by apply sweep_patient.
Qed.


Lemma remove_all_spec l w r :
  held (foldl (fun w root => remove_held root w) w l) !! r = (if decide (r ∈ l) then None else held w !! r) /\
  (w_fences w !! r = None \/ (r ∈ l /\ owners w !! r = Some true) -> w_fences (foldl (fun w root => remove_held root w) w l) !! r = None).
Proof.
  revert w. induction l as [|x l IH]; intros w; cbn [foldl].
  - split; [by rewrite decide_False by (intros []%elem_of_nil)|]. by intros [?|[[]%elem_of_nil _]].
  - destruct (IH (remove_held x w)) as [Hh Hf]. split.
    + rewrite Hh, held_remove. destruct (decide (r ∈ l)), (decide (r ∈ x :: l)) as [Hx|Hx]; try done.
      * exfalso. apply Hx. by right.
      * apply elem_of_cons in Hx as [->|?]; [by rewrite lookup_delete_eq|done].
      * rewrite lookup_delete_ne; [done|]. intros ->. apply Hx. by left.
    + intros H. apply Hf. rewrite fences_remove, owners_remove.
      destruct H as [H|[[->|Hr]%elem_of_cons Ho]].
      * left. destruct (decide (owners w !! x = Some true)); [|exact H]. apply lookup_delete_None. by right.
      * left. by rewrite decide_True, lookup_delete_eq.
      * destruct (decide (x = r)) as [->|Hne]; [left; by rewrite decide_True, lookup_delete_eq|].
        right. by rewrite lookup_delete_ne.
Qed.

(** C36: A workspace an idle sweep gives back is not the process's own, is not
    being retired, and no other thread holds it at that moment; it was found
    idle by this sweep and by every sweep since one that is at least [d] earlier:
    each of them had it among its candidates, unreferenced, and then observed it
    without work ([observed_idle]).  Its fence is released; every other workspace
    stays. *)
Theorem idle_sweeps_are_patient maximum root dir workspace runtime l s before after idle now d trace
    (Hrun : run (traced_serving maximum root dir workspace runtime) l s)
    (Htask : tc_threads s = before ++ MkThread (IdleCommit idle now d) trace :: after) :
  let w := tc_world s in
  let retired := (idle_commit idle now d w).1 in
  let w' := (idle_commit idle now d w).2 in
  (forall r, r ∈ retired ->
     exists e (t : Z), held w !! r = Some e /\ hd_fence e = true /\ hd_retiring e = false /\
       referenced_elsewhere (hd_tenant e) w = false /\ r ∈ idle /\ (d <= now - t)%Z /\
       idle_since (MkSweep now (idle_at idle w) trace :: l) r t /\ w_fences w' !! r = None) /\
  (forall x r, x ∈ MkSweep now (idle_at idle w) trace :: l -> r ∈ sw_idle x -> observed_idle (sw_trace x) r) /\
  (forall r, held w' !! r = None <-> held w !! r = None \/ r ∈ retired).
Proof.
  intros w retired w'. assert (Hp := run_patient _ _ _ _ _ _ _ Hrun). fold w in Hp.
  assert (Ho := owners_sweep idle now w).
  assert (Hspec := remove_all_spec retired (set_held (map_imap (fun root e => Some (sweep_entry idle now w root e)) (held w)) w)).
  split_and!.
  - intros r Hr. assert (Hr' := Hr). unfold retired, idle_commit in Hr'. cbn [fst] in Hr'.
    apply list_elem_of_fmap in Hr' as ([r' e] & -> & He). cbn in *. apply elem_of_retain in He as [He Hdue].
    apply entries_elem in He. cbn in Hdue. unfold due in Hdue. apply andb_prop in Hdue as [Hs Ht%Z.leb_le].
    exists e, (default now (hd_idle_since e)).
    assert (Hin : r' ∈ idle_at idle w) by by eapply elem_of_idle_at.
    assert (Hs' := Hs). unfold still_idle, idle_entry in Hs'.
    apply andb_prop in Hs' as [Hi%bool_decide_eq_true [[Hf Hret%negb_true_iff]%andb_prop Hel%negb_true_iff]%andb_prop].
    repeat split; try done.
    + destruct (hd_idle_since e) as [t|] eqn:Et; cbn.
      * apply idle_since_cons; [done|]. by apply (Hp r' e).
      * by apply (idle_since_first (MkSweep now (idle_at idle w) trace)).
    + apply Hspec. right. split; [done|]. transitivity (owners w !! r'); [by rewrite <- Ho|]. rewrite owners_held, He. cbn. by rewrite Hf.
  - destruct (run_accounts _ _ _ Hrun (List.Forall_nil _)) as [Hts Hl]. rewrite Htask in Hts.
    apply Forall_app in Hts as [_ [Hc _]%Forall_cons].
    intros x r [->|Hx]%elem_of_cons; [|by apply Hl]. cbn [sw_idle sw_trace]. intros (e & He & Hi)%elem_of_idle_at'.
    apply Hc. unfold still_idle in Hi. by apply andb_prop in Hi as [Hin%bool_decide_eq_true _].
  - intros r. destruct (Hspec r) as [Hh _]. unfold w', idle_commit. cbn [snd]. fold retired in Hh |- *.
    change (fst <$> retain (fun re => due idle now d w re.1 re.2) (entries (held w))) with retired. rewrite Hh.
    assert (E : held (set_held (map_imap (fun root e => Some (sweep_entry idle now w root e)) (held w)) w) !! r =
      (e ← held w !! r; Some (sweep_entry idle now w r e))) by apply map_lookup_imap.
    rewrite E. destruct (decide (r ∈ retired)); [tauto|]. destruct (held w !! r); cbn; split; try tauto; try done. intros [?|?]; done.
Qed.

(** ** Resolution *)
Lemma deeper_spec (l : list (Tenant Runtime)) (best : option (Tenant Runtime)) :
  match foldl deeper best l with
  | None => best = None /\ l = []
  | Some d => (best = Some d \/ d ∈ l) /\ forall u, best = Some u \/ u ∈ l -> length (tn_root u) <= length (tn_root d)
  end.
Proof.
  revert best. induction l as [|x l IH]; intros best; cbn [foldl].
  - destruct best as [b|]; [|done]. split; [by left|]. intros u [[= ->]|[]%elem_of_nil]. lia.
  - specialize (IH (deeper best x)). destruct (foldl deeper (deeper best x) l) as [d|].
    2: { destruct IH as [IH _]. unfold deeper in IH. destruct best as [b|]; [by destruct (_ <? _)|done]. }
    destruct IH as [Hin Hmax].
    assert (Hb : forall b, best = Some b -> length (tn_root b) <= length (tn_root d)).
    { intros b ->. unfold deeper in Hmax. destruct (Nat.ltb_spec (length (tn_root x)) (length (tn_root b))).
      - apply Hmax. by left.
      - etrans; [exact H|]. apply Hmax. by left. }
    assert (Hx : length (tn_root x) <= length (tn_root d)).
    { unfold deeper in Hmax. destruct best as [b|]; [|apply Hmax; by left].
      destruct (Nat.ltb_spec (length (tn_root x)) (length (tn_root b))); [|apply Hmax; by left].
      assert (length (tn_root b) <= length (tn_root d)) by (apply Hmax; by left). lia. }
    split.
    + destruct Hin as [Hin|Hin]; [|right; by right]. unfold deeper in Hin.
      destruct best as [b|]; [destruct (_ <? _)|]; injection Hin as ->; auto; right; left.
    + intros u [Ht'|[->|Ht']%elem_of_cons]; [by apply Hb|done|]. apply Hmax. by right.
Qed.

(** The owner of a path is the adopted root nearest above it. *)
Lemma closest_spec path w :
  match closest path w with
  | None => forall re, re ∈ resolvable w -> starts_with path (tn_root (hd_tenant re.2)) = false
  | Some d =>
      (exists re, re ∈ resolvable w /\ hd_tenant re.2 = d) /\ starts_with path (tn_root d) = true /\
      forall re, re ∈ resolvable w -> starts_with path (tn_root (hd_tenant re.2)) = true ->
        length (tn_root (hd_tenant re.2)) <= length (tn_root d)
  end.
Proof.
  unfold closest. set (l := (fun re : list string * Held Runtime => hd_tenant re.2) <$> resolvable w).
  assert (H := deeper_spec (retain (fun d : Tenant Runtime => starts_with path (tn_root d)) l) None).
  destruct (foldl deeper None _) as [d|].
  - destruct H as [[?|Hin] Hmax]; [done|]. apply elem_of_retain in Hin as [Hin Hs].
    split; [|split; [done|]].
    + apply list_elem_of_fmap in Hin as (re & -> & Hre). by exists re.
    + intros re Hre Hp. apply Hmax. right. apply elem_of_retain. split; [|done]. apply list_elem_of_fmap. by exists re.
  - destruct H as [_ H]. intros re Hre. destruct (starts_with path (tn_root (hd_tenant re.2))) eqn:E; [|done]. exfalso.
    assert (Hin : hd_tenant re.2 ∈ retain (fun d : Tenant Runtime => starts_with path (tn_root d)) l).
    { apply elem_of_retain. split; [|done]. apply list_elem_of_fmap. by exists re. }
    rewrite H in Hin. by apply elem_of_nil in Hin.
Qed.

(** ** One thread *)
Lemma drive_steps answers t w : rtc step (MkSystem w [t]) (MkSystem (drive answers t w).1 [(drive answers t w).2]).
Proof.
  revert t w. induction answers as [|a answers IH]; intros t w; [done|]. cbn.
  destruct (task_step a t w) as [[w' t']|] eqn:E; [|done].
  eapply rtc_l; [|apply IH]. by apply (step_task a t t' w w' [] []).
Qed.

Lemma start_steps answers t w : startable t w ->
  rtc step (MkSystem w []) (MkSystem (drive answers t w).1 [(drive answers t w).2]).
Proof. intros H. eapply rtc_l; [by constructor|apply drive_steps]. Qed.

Fixpoint drives_quietly (answers : list Answer) t w : bool :=
  match answers with
  | [] => true
  | a :: answers =>
      negb (sweeps t) && match task_step a t w with Some (w, t) => drives_quietly answers t w | None => true end
  end.

Lemma drive_run s l answers t w trace : drives_quietly answers t w = true -> run s l (MkTraced w [MkThread t trace]) ->
  exists trace', run s l (MkTraced (drive answers t w).1 [MkThread (drive answers t w).2 trace']).
Proof.
  revert t w trace. induction answers as [|a answers IH]; intros t w trace; [by exists trace|]. cbn.
  intros [Hs%negb_true_iff Hq]%andb_prop Hr. destruct (task_step a t w) as [[w' t']|] eqn:E; [|by exists trace].
  apply (IH t' w' ((a, w) :: trace)); [done|]. eapply run_quiet; [exact Hr|]. by apply (labelled_task a t t' w w' trace [] []).
Qed.

Lemma start_run s l answers t w : startable t w -> drives_quietly answers t w = true -> run s l (MkTraced w []) ->
  exists trace, run s l (MkTraced (drive answers t w).1 [MkThread (drive answers t w).2 trace]).
Proof. intros H Hq Hr. apply (drive_run s l answers t w []); [done|]. eapply run_quiet; [exact Hr|]. by constructor. Qed.
End system.

(** ** A daemon with two workspaces *)
Module TenantExample.
Definition home : list string := ["home"].
Definition other : list string := ["work"; "other"].
Definition ready : Answer unit := MkAnswer true None (Some ["state"]) (Some (MkWorkspaceId "o", tt)) false.
Definition daemon : System := serving 4 home ["state"; "home"] (MkWorkspaceId "h") tt.
Definition adopting_other (n : nat) : World unit * Task unit := drive (repeat ready n) (AdoptLane other) (sy_world daemon).
(** The adoption returned. *)
Definition adopted_other : World unit := (adopting_other 7).1.
Definition dropped : World unit := set_handles (tail (w_handles adopted_other)) adopted_other.
Definition handed_off : World unit := set_handed_off true adopted_other.
Definition draining : World unit * Task unit := drive (repeat ready 4) DrainGate handed_off.
Definition first_sweep : World unit * Task unit := drive (repeat ready 3) (IdleCandidates 0 10) dropped.
Definition swept : World unit := (idle_commit {[other]} 0 10 first_sweep.1).2.
Definition second_sweep : World unit * Task unit := drive (repeat ready 3) (IdleCandidates 20 10) swept.
End TenantExample.
Import TenantExample.

Lemma other_adopted : rtc step daemon (MkSystem adopted_other []).
Proof.
  etrans; [apply (start_steps (repeat ready 7) (AdoptLane other)); done|].
  eapply rtc_l; [|apply rtc_refl]. apply (step_return (Adopted (Ok (MkTenant 1 other ["state"] (MkWorkspaceId "o") tt))) _ [] []).
Qed.

(** The adoption has the lock and has not registered. *)
Lemma fences_have_one_owner_witness :
  w_fences (adopting_other 3).1 !! other = Some Registered /\ size (held (adopting_other 3).1) <= 4.
Proof.
  assert (Hrun : rtc step daemon (MkSystem (adopting_other 3).1 [(adopting_other 3).2])) by by apply start_steps.
  destruct (fences_have_one_owner 4 home ["state"; "home"] (MkWorkspaceId "h") tt _ Hrun) as (Hs & _ & Hf & _).
  split; [|exact Hs]. apply Hf. right. exists (RegisterState other true). split; [by left|done].
Defined.

(** A second adoption waits for the first one. *)
Lemma tenant_operations_end_witness :
  task_step ready (AdoptLane other) (adopting_other 2).1 = None /\
  exists t', t' ∈ [AdoptLane other; (adopting_other 2).2] /\ finished t' = false /\
    forall a, is_Some (task_step a t' (adopting_other 2).1).
Proof.
  assert (Hrun : rtc step daemon (MkSystem (adopting_other 2).1 [AdoptLane other; (adopting_other 2).2])).
  { eapply rtc_r; [by apply (start_steps (repeat ready 2) (AdoptLane other))|]. by constructor. }
  split; [vm_compute; reflexivity|].
  destruct (tenant_operations_end 4 home ["state"; "home"] (MkWorkspaceId "h") tt _ Hrun) as (H & _).
  apply (H (AdoptLane other)); [left|reflexivity].
Defined.

(** A client still has its handle when the workspace is drained. *)
Lemma draining_spares_work_witness :
  MkWorkspaceId "o" ∉ w_work draining.1 /\ (drive [ready] draining.2 draining.1).1.(w_fences) !! other = None.
Proof.
  assert (Hrun : rtc step daemon (MkSystem draining.1 [draining.2])).
  { etrans; [apply other_adopted|]. eapply rtc_l; [apply step_env, env_hand_off|]. by apply start_steps. }
  destruct (draining_spares_work 4 home ["state"; "home"] (MkWorkspaceId "h") tt _ draining.2 ready
              (drive [ready] draining.2 draining.1).1 (drive [ready] draining.2 draining.1).2 other
              (MkHeld (MkTenant 1 other ["state"] (MkWorkspaceId "o") tt) true None false) Hrun
              ltac:(left) eq_refl eq_refl eq_refl eq_refl) as (_ & Hw & _ & Hf).
  split; [exact Hw|exact Hf].
Defined.

Definition traced_daemon : Traced := traced_serving 4 home ["state"; "home"] (MkWorkspaceId "h") tt.

Lemma dropped_run : run traced_daemon [] (MkTraced dropped []).
Proof.
  assert (Hq : drives_quietly (repeat ready 7) (AdoptLane other) (sy_world daemon) = true) by (vm_compute; reflexivity).
  destruct (start_run traced_daemon [] (repeat ready 7) (AdoptLane other) (sy_world daemon) I Hq (run_nil traced_daemon)) as [trace H].
  eapply run_quiet with (s' := MkTraced adopted_other []).
  - eapply run_quiet; [exact H|].
    apply (labelled_return (Adopted (Ok (MkTenant 1 other ["state"] (MkWorkspaceId "o") tt))) _ trace [] []).
  - apply labelled_environment. by apply (env_drop (MkTenant 1 other ["state"] (MkWorkspaceId "o") tt) []).
Qed.

Lemma first_sweep_run : exists trace, run traced_daemon [] (MkTraced first_sweep.1 [MkThread (IdleCommit {[other]} 0 10) trace]).
Proof.
  assert (E : first_sweep.2 = IdleCommit {[other]} 0 10) by (vm_compute; reflexivity).
  assert (Hq : drives_quietly (repeat ready 3) (IdleCandidates 0 10) dropped = true) by (vm_compute; reflexivity).
  rewrite <- E. exact (start_run traced_daemon [] (repeat ready 3) (IdleCandidates 0 10) dropped I Hq dropped_run).
Qed.

Lemma second_sweep_run : exists trace1 trace2,
  run traced_daemon [MkSweep 0 {[other]} trace1] (MkTraced second_sweep.1 [MkThread (IdleCommit {[other]} 20 10) trace2]).
Proof.
  destruct first_sweep_run as [trace1 H]. exists trace1.
  assert (L := labelled_sweep {[other]} 0 10 first_sweep.1 trace1 [] []).
  assert (E1 : idle_at {[other]} first_sweep.1 = {[other]}) by (vm_compute; reflexivity). rewrite E1 in L.
  assert (H3 := run_quiet _ _ _ _ (run_sweep _ _ _ _ _ H L) (labelled_return (Retired _) swept trace1 [] [])).
  assert (E2 : second_sweep.2 = IdleCommit {[other]} 20 10) by (vm_compute; reflexivity).
  assert (Hq : drives_quietly (repeat ready 3) (IdleCandidates 20 10) swept = true) by (vm_compute; reflexivity).
  rewrite <- E2. exact (start_run traced_daemon _ (repeat ready 3) (IdleCandidates 20 10) swept I Hq H3).
Qed.

Lemma idle_sweeps_are_patient_witness :
  exists (t : Z) (trace1 trace2 : list (Answer unit * World unit)), (10 <= 20 - t)%Z /\
    idle_since [MkSweep 20 {[other]} trace2; MkSweep 0 {[other]} trace1] other t /\
    observed_idle trace1 other /\ observed_idle trace2 other.
Proof.
  destruct second_sweep_run as (trace1 & trace2 & Hrun).
  assert (E : idle_at {[other]} second_sweep.1 = {[other]}) by (vm_compute; reflexivity).
  assert (R : (idle_commit {[other]} 20 10 second_sweep.1).1 = [other]) by (vm_compute; reflexivity).
  destruct (idle_sweeps_are_patient 4 home ["state"; "home"] (MkWorkspaceId "h") tt _ _ [] [] {[other]} 20 10 trace2 Hrun
              eq_refl) as (H & Ho & _).
  cbn [tc_world] in H, Ho. rewrite E in H, Ho. rewrite R in H.
  destruct (H other) as (e & t & _ & _ & _ & _ & _ & Ht & Hs & _); [by left|].
  exists t, trace1, trace2. split; [exact Ht|]. split; [exact Hs|]. split.
  - apply (Ho (MkSweep 0 {[other]} trace1)); [right; left|set_solver].
  - apply (Ho (MkSweep 20 {[other]} trace2)); [left|set_solver].
Defined.

(** The commit looks at the handles again and not at the work: a client that
    came and went between the observation and the commit of a sweep leaves work
    behind, and its workspace is given back nevertheless. *)
Example work_in_the_window_is_not_seen :
  let t := MkTenant 1 other ["state"] (MkWorkspaceId "o") tt in
  let served := set_work ({[tn_workspace_id t]} ∪ w_work second_sweep.1) (clone t second_sweep.1) in
  let left := set_handles (tail (w_handles served)) served in
  second_sweep.2 = IdleCommit {[other]} 20 10 /\ MkWorkspaceId "o" ∈ w_work left /\
  (idle_commit {[other]} 20 10 left).1 = [other] /\ held (idle_commit {[other]} 20 10 left).2 !! other = None.
Proof. split; [reflexivity|]. split; [set_solver|]. by vm_compute. Qed.
